(* ===== verification/_CoqProject ===== *)
-Q . S2P
Prelude.v
Util.v
Bytes.v
RbTree.v
RbErase.v
BlkTree.v
BlkErase.v
Upsert.v
Alloc.v
Log.v
LogScan.v
Bitmap.v
BitmapOps.v
BitmapMap.v
Storage.v
Inode.v
Bmap.v
FileIO.v
Write.v
Read.v
ReadOk.v
RoundTrip.v
Lru.v
Bms.v
Fd.v
PosixIO.v
Files.v
Getdents.v
ArtNode.v
ArtGrow.v
Art.v
ArtOk.v
ArtMap.v
ArtDict.v
ArtFree.v
Dirent.v
DirentOk.v
Posix.v
PosixOk.v
PosixRun.v
PosixLog.v
Threads.v
ThreadPool.v
Thpool.v
ThpoolOk.v
BufCache.v
BufCacheOk.v
BufRun.v
Slab.v
SlabLink.v
SlabOk.v
SlabFree.v
SlabChunk.v
SlabAlloc.v
SlabNew.v
SlabMalloc.v
SlabGive.v
SlabHeap.v
SlabRun.v
SlabStat.v
Words.v
Crc.v
Xxhash.v
XxhashOk.v
XxhashRun.v
Dlist.v
Uthash.v
UthashOk.v
UthashMap.v
UthashDel.v
UthashRun.v
