(* ===== verification/Prelude.v ===== *)
(** * A verification of the NSPFS user-space file system

    NSPFS ([src/userfs]) is a library file system over one persistent memory
    device and three SSDs.  An application calls the POSIX functions of
    [posix/posix_interface.c]; they work on open files ([filesystem/file.c])
    and in-memory inodes ([filesystem/fs.c]).  Every inode has a block index,
    a red-black tree from file offsets to device extents ([ds/blktree.h] over
    [ds/rbtree.c]).  A write is cut into pieces at block and 2 MiB boundaries;
    each piece takes space from the allocators ([filesystem/fs.h]), goes to a
    device through a buffer head ([io/block_io.c], [storage/]), is recorded in
    an operation log that the kernel replays, and is entered into the index.
    A read is cut the same way; a piece is looked up in the read cache, in
    the index, and in the radix tree the kernel keeps in persistent memory
    ([bmap]).  The entries of a directory are in an adaptive radix tree
    ([ds/art.c]) that is filled from the kernel's directory block and changed
    by creation, removal and renaming ([filesystem/dirent.c]); two caches
    shorten the way from names and paths to inodes.

    ** Files

    - [Prelude]: machine integers as [Z] with their wraps ([u8], [u32],
      [u64], [i32]), the outcomes of a C call (value, panic, fault, fuel used
      up), state passing with outcomes, tactics and arithmetic lemmas.
    - [Util]: alignment macros of [global/util.h] (Module [Align]); the path
      scans [get_next_name], [get_parent_path] and the walk of [namex]
      (Module [Path]).
    - [Bytes]: little-endian fields, packed structs, byte memories.
    - [RbTree]: [__rb_insert] of [ds/rbtree.c] on a zipper; the frames of the
      zipper are the parent pointers.  [RbErase]: [rb_erase], the traversals
      and [rb_insert].
    - [BlkTree]: [block_search] and [block_insert] of [ds/blktree.h].  Nodes
      live in a store and the tree holds their addresses, since callers
      change nodes through the pointers they got.  [BlkErase]:
      [block_delete], [block_clear], [block_replace].
    - [Upsert]: [upsert_blktree], [insert_blktree] and their buffer-head
      versions of [filesystem/file.c].
    - [Alloc]: inode numbers (Module [Inodes]) and device space (Module
      [Blocks]) of [filesystem/fs.h].
    - [Log]: the packed log entries and [loginit], [append_entry_log],
      [append_addrinfo_log], [synclog]; [LogScan]: a reader of the log.
    - [Bitmap]: the bitmap routines of [ds/bitmap.c] and
      [ds/bitops_arch.h] that the read path uses; [BitmapOps]: Boolean
      operations, comparisons, shifts, the last set bit; [BitmapMap]:
      ordinals, remapping, regions, arrays of 32-bit words.
    - [Slab]: the slab allocator of [global/ncx_slab.c]: the page array and
      the lists as nodes of one store, the bitmaps at the start of pages.
      [SlabLink]: its circular lists; [SlabOk]: the layout of a pool (free
      runs, runs in use, pages of chunks), the invariant [inv] that ties it
      to the store, and taking pages; [SlabFree]: giving pages back, with the
      merging; [SlabChunk], [SlabAlloc], [SlabNew]: chunks, the three
      searches and new pages; [SlabMalloc], [SlabGive]: allocation and
      freeing as transitions of layouts; [SlabHeap]: the blocks of a layout;
      [SlabRun]: [ncx_slab_init] and sequences of calls; [SlabStat]:
      [ncx_slab_stat].
    - [Words]: bit operations on machine words and their inverses, bytes as
      numbers; [Crc]: [userfs_crc32c] of [filesystem/userfs_crc32.c] and the
      bit-serial CRC.  [Xxhash]: [XXH32] and [XXH64] of [ds/xxhash.c], in one
      call and as streams; [XxhashOk]: the loops without fuel, the buffer of
      a stream, byte order; [XxhashRun]: the theorems, the hash functions of
      [filesystem/shared.h].
    - [Dlist]: doubly linked lists over link functions.  [Uthash]: the hash
      tables of [ds/uthash.h]; [UthashOk]: the chains, pushing on a chain,
      the doubling of the buckets; [UthashMap], [UthashDel]: the operations
      up to the invariant [rep]; [UthashRun]: sequences of calls against the
      list of the elements, the integrity check.
    - [Storage]: the engines [storage_dax.c] and [storage_hdd.c] behind
      [struct storage_operations], and synchronous transfers of buffer heads.
    - [Inode]: [struct inode], the inode cache, the block cache with its
      heap, [iget], [iput], [itrunc], [idealloc].
    - [Bmap]: [bmap], from the on-disk radix tree to the block index.
    - [FileIO]: [readi], [snfs_write], [userfs_file_read],
      [userfs_file_write]: how a request is cut into pieces.  The piece
      writers are behind the class [ChunkWriter], the piece readers behind
      [PieceReader]; the theorems of the file are proved against them.
    - [Write]: [unaligned_smallwrite], [aligned_smallwrite] and
      [aligned_write] with allocation, transfer, log and index; the instance
      of [ChunkWriter] for them.
    - [Read]: [do_unaligned_read], [do_align_read_cache1] and the read cache
      ([add_to_read_cache], [evict_read_cache]); [ReadOk]: what they deliver.
    - [RoundTrip]: [userfs_file_write] and [userfs_file_read] together.
    - [Lru]: the cache of recently used names of [filesystem/lru.c].
    - [Bms]: the substring search [bms_search] of [global/util.c].
    - [Fd]: the descriptor table and the POSIX calls on descriptors.
    - [PosixIO]: writing, seeking and reading through a descriptor, down to
      the devices; [Files]: several files on the same allocators and devices.
    - [ArtNode]: the inner nodes of [ds/art.c] in their four formats, arrays
      of keys and children with the SSE comparisons; [ArtGrow]: adding and
      removing children, with growth and shrinking between the formats.
    - [Art]: search, insertion, deletion, extreme leaves and iteration;
      [ArtOk], [ArtMap]: what they do to the bindings of a well-formed tree.
    - [ArtDict]: the class [NameDict], what a directory needs of a
      dictionary, and its instance, the radix tree.  [ArtFree]: what
      [art_tree_destroy] frees.
    - [Dirent]: directory entries, name and path caches, [dir_lookup],
      [dir_remove_entry], [dir_change_entry], [namei], [nameiparent] and
      [userfs_open_file], over a heap of inodes and entries and any
      [NameDict]; [DirentOk]: the relation [ns_rep] between that heap and the
      names, and what keeps it.
    - [Posix]: the POSIX calls that take a path or change the inode of a
      descriptor; [PosixOk]: the invariant [mounted] of the files under the
      mount point; [PosixRun]: sequences of calls; [PosixLog]: the log they
      leave and what can be recovered from it.
    - [Getdents]: the cache of directory blocks and [userfs_posix_getdents].
    - [Threads]: lists of workers and counting arguments for the pools.
    - [ThreadPool]: the ring of tasks of [threadpool/threadpool.c] with its
      workers as a step relation.
    - [Thpool]: the linked job queue, the binary semaphore and the workers of
      [threadpool/thpool.c] as a step relation; [ThpoolOk]: its invariants.
    - [BufCache]: the buffer cache of [io/block_io.c] (tree, lists, reference
      counts, transfers by the I/O thread, write-back); [BufCacheOk]: its
      invariant and what each call does to the content of the blocks;
      [BufRun]: sequences of calls.

    ** What the theorems show

    - End to end: appended whole blocks are the new end of the file, every
      other byte stays ([Write.file_append_ok]), and reading the file through
      a descriptor returns them ([PosixIO.posix_append_read_back]), provided
      the read cache has no entry for the first 2 MiB of the file or what
      comes out of it is current and followed by a position where the index
      can be entered (see Requests).  Appends to several new files in any
      order leave each with what was appended to it
      ([Files.files_append_isolated]).
    - Names: every sequence of operations on the radix tree returns what a
      finite map returns ([ArtDict.art_run_refines]), and destroying it frees
      every node once ([ArtFree.art_tree_destroy_ok]); creation and removal
      change the meaning of one name of one directory
      ([PosixRun.create_then_lookup], [PosixRun.remove_then_lookup]); every
      sequence of creating ([userfs_open_file] with the [iput] of the close),
      testing and unlinking files under the mount point runs to its end and
      refines a map from names to inode numbers
      ([PosixRun.posix_run_refines]), through all caches, the log and the
      table of inode numbers; and the log alone determines that map
      ([PosixLog.posix_run_recovers]).
    - The index: insertion keeps the red-black and ordering invariant and
      refines an update of the translation from offsets to device addresses
      ([RbTree.rb_insert_balanced], [BlkTree.block_insert_extends],
      [Upsert.upsert_inside]), search is exact, and [bmap] enters what the
      on-disk tree says.  Removal keeps the invariant as well
      ([RbErase.rb_erase_balanced], [BlkErase.block_delete_removes]), and
      [block_clear], which goes on from an erased node, empties the index.
    - The buffer cache: every sequence of calls refines a store of blocks with
      a durable copy ([BufRun.buffer_cache_refines]).
    - The slab allocator: allocation and freeing refine transitions of the
      layout ([SlabRun.slab_refines_layout]); whatever is allocated and freed,
      the live blocks are apart, inside the pool and aligned
      ([SlabRun.slab_blocks_apart]), nothing is lost when all is freed
      ([SlabRun.slab_nothing_lost]), and the statistics say what can be
      allocated ([SlabStat.slab_stat_predicts]).  For a pool that
      [ncx_slab_init] made this is under [init_ok]: the page entries cover the
      pages that are counted, at least one.  The pool of the file system is
      so ([SlabRun.shared_ok]); a pool of 160 pages is not, and an allocation
      in it writes behind the entries ([SlabRun.init_counts_too_many],
      [SlabRun.init_overrun_fault]).
    - The hash tables: every sequence of calls answers as a list of elements
      with their keys does, through collisions and doublings
      ([UthashRun.uthash_refines_map]), and leaves a table that passes the
      integrity check ([UthashRun.uthash_integrity]).  The caches above keep
      their tables as maps and lists on this ground.  The hash function:
      streams and one call agree ([XxhashRun.xxhash_streaming]), the hash
      does not depend on processor and alignment
      ([XxhashRun.xxhash_portable]), and keys of one word do not collide
      before the truncation ([XxhashRun.XXH64_word_injective]).  The
      checksum finds every burst of 32 bits ([Crc.crc32c_burst]).
    - The thread pools: in every interleaving accepted tasks are started in
      order, each once, and finish after a bounded number of steps
      ([ThreadPool.pool_tasks_finish], [ThpoolOk.thpool_comes_to_rest],
      [ThpoolOk.thpool_wait_sound]).  In [threadpool.c] not after an immediate
      shutdown, and not after a second [threadpool_destroy], which alone
      leaves the mutex taken ([ThreadPool.second_destroy_blocks]); in
      [thpool.c] with at most one caller in [thpool_wait] at a time.
    - Requests: the pieces of a read or write cover it exactly and respect
      the boundaries; aligned reads store exactly the bytes of the file and
      keep the read cache consistent ([ReadOk.aligned_read_ok]), out of an
      entry of the cache, through the index, or one behind the other, when
      the first block that is not in the entry is at the start of a node or
      the rest is inside a node of persistent memory.  Other positions inside
      a node are excluded, also behind a partial cache hit: on an SSD the
      bytes are shifted ([ReadOk.aligned_read_inside_ssd]), and a node of
      persistent memory that ends before the request is read on behind its
      end; both are findings.  The loop of the aligned read ends.
    - Allocation: inode numbers are never handed out twice, device ranges do
      not overlap until the device is exhausted.
    - Log, storage, bitmaps, name cache, descriptors and inode cache:
      round trips, and refinement of lists, maps and bit sets.  The substring
      search finds the first occurrence ([Bms.bms_search_first]).
    - Defects: the theorems of kind error state what the code does where this
      is not what it should do (in-place overwrites leave the index alone,
      reads inside an SSD node are shifted, [itrunc] does not end, unlinking
      an open file panics, [rmdir] removes no directory that [mkdir] made,
      and so on); each is listed as a finding.

    ** Modelling decisions

    The file system runs one call at a time here: the build does not define
    [CONCURRENT], and the bodies of the allocators and of the log run under a
    lock; locks and time stamps are not part of the state.  The thread pools
    are step relations: a step is what a thread does between two operations
    on a mutex or a condition variable, and any thread may take the next one.
    In the buffer cache the locks that are held between calls are state, and
    the I/O thread is a call that performs what is queued.  The kernel
    (system calls for inodes and the log), [malloc]ed and stack memory, the
    [O_DIRECT] transfer unit, the clock and the conversion of a pointer to
    [int] are arguments, with the few facts used of them as hypotheses (a
    [malloc]ed buffer has the size asked for, the transfer unit divides 4096,
    a pointer in [int] is not 0).  A hash table with the entry added last in
    front is a list or a map.  Variables the code reads before it sets them
    are arguments.  The hash tables take their hash function and the outcome
    of each allocation as arguments; that no allocation of 64 GiB succeeds
    is the one hypothesis.  Panics and failed assertions, loads
    through null or freed pointers and accesses outside arrays are outcomes,
    never silently ignored.  The read-write lock of an inode is one flag,
    taken the same way for reading and for writing, since calls do not
    overlap; the cache of inodes is a map from numbers, so that two entries
    with one number are not represented.

    Fuel: the chunk loop of a write gets one unit more than it has bytes, the
    aligned read one more than it has blocks, the bitmap loops one more than
    the bitmap has words; the theorems show that the loops end with it.
    The walks along a chain of a hash table get one more than there are
    handles, the loops of the hash functions the length of the input.
    The searches of the slab allocator through a list get the number of
    entries there are.  The recursions of the radix tree get the height of
    the tree, the substring search one more than the text is long, the walk
    of a path one more than its length, the scan of a directory block more
    than it has bytes.  [itrunc] takes its fuel as an argument, since its
    loop need not end.
    Bounds: requests are below 2^31 bytes (the return type is [int]), files
    below 2^62 bytes (the address field of a tree entry), [bmap] trees have
    at most 3 levels (the shift of the code overflows beyond), the cache has
    room for what one read adds, nodes of an index that is read are below
    2 GiB, inode numbers fit in 32 bits, slab pools lie below 2^63, names of
    files have no slash, are shorter than [DIRSIZ] and do not consist of the
    digit 0 only (see [get_parent_path]).

    ** Not modelled

    [load_blktree], [load_files] and [recursive_find_region], which no call
    reaches; start-up, shutdown and statistics; pausing of [thpool.c]; the
    macros of [ds/uthash.h] without a use; the table [crc32_tab] without a
    reader; [collapse_name], the random numbers and the clock of
    [global/util.c]; older readers and writers without a caller; directories
    below the root in the sequences of calls of [PosixRun]; and the vendored
    libraries.

    * Prelude: widths, outcomes and shared lemmas *)
From Stdlib Require Import ZArith Lia Sorted.
From stdpp Require Import base numbers list gmap strings.

#[global] Open Scope Z_scope.

(** ** Machine integers

    A C integer of width [w] is a [Z]; every operation that can leave the
    range is followed by the wrap of its type. *)
Definition u8 (x : Z) : Z := x mod 2 ^ 8.
Definition u16 (x : Z) : Z := x mod 2 ^ 16.
Definition u32 (x : Z) : Z := x mod 2 ^ 32.
Definition u64 (x : Z) : Z := x mod 2 ^ 64.

(** [int] and [int64_t] readings of a wrapped value (two's complement). *)
Definition i32 (x : Z) : Z := (x + 2 ^ 31) mod 2 ^ 32 - 2 ^ 31.
Definition i64 (x : Z) : Z := (x + 2 ^ 63) mod 2 ^ 64 - 2 ^ 63.

(** [~x] on an [unsigned long]. *)
Definition not64 (x : Z) : Z := u64 (Z.lnot x).

(** [x << n] and [x >> n] on an [unsigned long]. *)
Definition shl64 (x n : Z) : Z := u64 (Z.shiftl x n).
Definition shr64 (x n : Z) : Z := Z.shiftr x n.

(** ** Outcomes

    A C function returns a value, stops the process through [panic] or a
    failed [userfs_assert] (both end in a trap), dereferences a null or
    indeterminate pointer, or, for a loop run with fuel, uses the fuel up. *)
Inductive outcome (A : Type) : Type :=
  | Ok (a : A)
  | Panic (why : string)
  | Fault (why : string)
  | NoFuel.
Arguments Ok {A} a.
Arguments Panic {A} why.
Arguments Fault {A} why.
Arguments NoFuel {A}.

Definition is_ok {A} (o : outcome A) : bool :=
  match o with Ok _ => true | _ => false end.

#[export] Instance outcome_ret : MRet outcome := λ A a, Ok a.
#[export] Instance outcome_bind : MBind outcome := λ A B k o,
  match o with
  | Ok a => k a
  | Panic w => Panic w
  | Fault w => Fault w
  | NoFuel => NoFuel
  end.

(** State passing with outcomes. *)
Definition M (S A : Type) : Type := S → outcome (A * S).

#[export] Instance M_ret {S} : MRet (M S) := λ A a s, Ok (a, s).
#[export] Instance M_bind {S} : MBind (M S) := λ A B k m s,
  match m s with
  | Ok (a, s') => k a s'
  | Panic w => Panic w
  | Fault w => Fault w
  | NoFuel => NoFuel
  end.

Definition get {S} : M S S := λ s, Ok (s, s).
Definition gets {S A} (f : S → A) : M S A := λ s, Ok (f s, s).
Definition modify {S} (f : S → S) : M S unit := λ s, Ok (tt, f s).
Definition panic {S A} (why : string) : M S A := λ _, Panic why.
Definition fault {S A} (why : string) : M S A := λ _, Fault why.
Definition nofuel {S A} : M S A := λ _, NoFuel.
Definition assertM {S} (b : bool) (why : string) : M S unit :=
  if b then mret tt else panic why.
Definition when {S} (b : bool) (m : M S unit) : M S unit :=
  if b then m else mret tt.

Create HintDb userfs.
Create Rewrite HintDb userfs.
#[export] Hint Unfold u8 u16 u32 u64 not64 shl64 shr64 : userfs.

(** Unfold one layer of the state monad in the goal and compute. *)
Ltac unfold_M :=
  unfold mbind, M_bind, mret, M_ret, get, gets, modify, panic, fault, assertM, when.
Ltac unfold_M_in H :=
  unfold mbind, M_bind, mret, M_ret, get, gets, modify, panic, fault, assertM, when in H.

(** A run is followed one call at a time. *)
Lemma M_bind_ok {S A B} (m : M S A) (k : A → M S B) s a s' :
  m s = Ok (a, s') → (m ≫= k) s = k a s'.
Proof. intros H. unfold mbind, M_bind. by rewrite H. Qed.

(** Reflect the boolean comparisons of the goal and of the context. *)
Ltac breflect :=
  repeat match goal with
  | H : andb _ _ = true |- _ => apply andb_true_iff in H; destruct H
  | H : orb _ _ = false |- _ => apply orb_false_iff in H; destruct H
  | H : negb _ = true |- _ => apply negb_true_iff in H
  | H : negb _ = false |- _ => apply negb_false_iff in H
  | H : Z.ltb _ _ = true |- _ => apply Z.ltb_lt in H
  | H : Z.ltb _ _ = false |- _ => apply Z.ltb_ge in H
  | H : Z.leb _ _ = true |- _ => apply Z.leb_le in H
  | H : Z.leb _ _ = false |- _ => apply Z.leb_gt in H
  | H : Z.eqb _ _ = true |- _ => apply Z.eqb_eq in H
  | H : Z.eqb _ _ = false |- _ => apply Z.eqb_neq in H
  end.

(** Case analysis on the conditional in head position of the goal. *)
Ltac case_if :=
  match goal with
  | |- context [if ?b then _ else _] =>
      lazymatch type of b with
      | bool => let E := fresh "E" in destruct b eqn:E; breflect
      end
  end.

(** ** Sorted lists *)
Lemma SS_app {A} (R : A → A → Prop) l1 l2 :
  StronglySorted R (l1 ++ l2) ↔
  StronglySorted R l1 ∧ StronglySorted R l2 ∧ (∀ x y, x ∈ l1 → y ∈ l2 → R x y).
Proof.
  induction l1 as [|a l1 IH]; simpl.
  { split; [intros; repeat split; [constructor|done|]|by intros (_ & ? & _)].
    intros x y Hx. by apply elem_of_nil in Hx. }
  split.
  - inversion 1 as [|? ? Hs Hf]; subst. apply IH in Hs as (H1 & H2 & H3).
    apply Forall_app in Hf as [Hf1 Hf2]. repeat split; [by constructor|done|].
    intros x y [->|Hx]%elem_of_cons Hy; [|auto].
    by eapply Forall_forall in Hf2.
  - intros (H1 & H2 & H3). inversion H1 as [|? ? Hs Hf]; subst. constructor.
    + apply IH. repeat split; [done..|]. intros x y Hx Hy. apply H3; [by right|done].
    + apply Forall_app. split; [done|]. apply Forall_forall. intros y Hy.
      apply H3; [by left|done].
Qed.

(** ** Masks, shifts and wraps *)
Lemma u64_small x : 0 ≤ x < 2 ^ 64 → u64 x = x.
Proof. apply Z.mod_small. Qed.

Lemma u32_small x : 0 ≤ x < 2 ^ 32 → u32 x = x.
Proof. apply Z.mod_small. Qed.

Lemma i32_small x : - 2 ^ 31 ≤ x < 2 ^ 31 → i32 x = x.
Proof. intros. unfold i32. rewrite Z.mod_small; lia. Qed.

Lemma u64_range x : 0 ≤ u64 x < 2 ^ 64.
Proof. apply Z.mod_pos_bound. lia. Qed.

Lemma u32_range x : 0 ≤ u32 x < 2 ^ 32.
Proof. apply Z.mod_pos_bound. lia. Qed.

(** [x & (2^k - 1)] is the remainder modulo [2^k]. *)
Lemma land_mask x k : 0 ≤ k → Z.land x (2 ^ k - 1) = x mod 2 ^ k.
Proof.
  intros Hk. rewrite <- Z.land_ones by lia.
  by rewrite Z.ones_equiv, Z.sub_1_r.
Qed.

(** [x & ~(2^k - 1)] clears the low [k] bits. *)
Lemma land_not64_mask x k :
  0 ≤ x < 2 ^ 64 → 0 ≤ k ≤ 64 →
  Z.land x (not64 (2 ^ k - 1)) = x - x mod 2 ^ k.
Proof.
  intros Hx Hk. unfold not64, u64.
  rewrite <- (land_mask (Z.lnot _)), <- (land_mask x) by lia.
  assert (Hx' : x = Z.land x (2 ^ 64 - 1)).
  { rewrite land_mask by lia. symmetry. by apply Z.mod_small. }
  rewrite Z.land_assoc, (Z.land_comm x), <- Z.land_assoc, <- Hx', Z.land_comm.
  rewrite <- Z.ldiff_land.
  rewrite (Z.sub_nocarry_ldiff x).
  - apply Z.bits_inj. intros n. rewrite !Z.ldiff_spec, Z.land_spec.
    by destruct (Z.testbit x n), (Z.testbit (2 ^ k - 1) n).
  - apply Z.bits_inj. intros n. rewrite Z.ldiff_spec, Z.land_spec, Z.bits_0.
    by destruct (Z.testbit x n), (Z.testbit (2 ^ k - 1) n).
Qed.

Lemma shr64_div x n : 0 ≤ n → shr64 x n = x / 2 ^ n.
Proof. apply Z.shiftr_div_pow2. Qed.

Lemma shl64_mul x n : 0 ≤ n → shl64 x n = u64 (x * 2 ^ n).
Proof. intros. unfold shl64. by rewrite Z.shiftl_mul_pow2. Qed.

Lemma shl64_small x n : 0 ≤ n → 0 ≤ x * 2 ^ n < 2 ^ 64 → shl64 x n = x * 2 ^ n.
Proof. intros. rewrite shl64_mul by done. by apply u64_small. Qed.

(** Adding a multiple, and removing an aligned part, of a modulus. *)
Lemma sub_mod_multiple x b : 0 < b → (x - x mod b) mod b = 0.
Proof.
  intros Hb. rewrite (Z.mod_eq x) by lia.
  replace (x - (x - b * (x / b))) with ((x / b) * b) by lia.
  apply Z.mod_mul. lia.
Qed.

(** The round-up [x + (b-1) - (x + (b-1)) mod b] is the least multiple of
    [b] that is not below [x]. *)
Lemma round_up_spec x b : 0 < b →
  let r := (x + (b - 1)) - (x + (b - 1)) mod b in
  x ≤ r < x + b ∧ r mod b = 0.
Proof.
  intros Hb r.
  pose proof (Z.mod_pos_bound (x + (b - 1)) b Hb).
  split; [unfold r; lia|]. by apply sub_mod_multiple.
Qed.

(** Two multiples of [b] closer than [b] are equal. *)
Lemma multiple_unique x y b :
  0 < b → x mod b = 0 → y mod b = 0 → x - b < y < x + b → x = y.
Proof.
  intros Hb Hx Hy Hd.
  apply Z.mod_divide in Hx as [p ->]; [|lia].
  apply Z.mod_divide in Hy as [q ->]; [|lia].
  assert (p = q) by nia. by subst.
Qed.

#[export] Hint Rewrite u64_small u32_small using lia : userfs.
