(* ===== verification/Util.v ===== *)
(** * Util: alignment macros, power-of-two test and path splitting

    Models [global/util.h] and the arithmetic helper of [global/util.c]:
    [ALIGN], [ALIGN_FLOOR], [IS_ALIGNED], [is_power_of_two], [get_next_name]
    and [get_parent_path].  A C string is the list of its bytes before the
    terminating NUL; a name buffer is the list of the bytes of the array. *)
From Stdlib Require Import ZArith Lia.
From stdpp Require Import base numbers list strings.
From S2P Require Import Prelude.

(** ** Constants of [global/global.h] *)
Definition g_block_size_shift : Z := 12.
Definition g_block_size_bytes : Z := 4096.
Definition g_lblock_size_shift : Z := 21.
Definition g_lblock_size_bytes : Z := 2097152.
Definition lblock_addr : Z := 512.
Definition DIRSIZ : nat := 32.
Definition MAX_PATH : nat := 1024.

(** ** Alignment *)
Module Align.

(** [ALIGN_MASK(x, mask)] and [ALIGN(x, a)] on [unsigned long]. *)
Definition ALIGN_MASK (x mask : Z) : Z := Z.land (u64 (x + mask)) (not64 mask).
Definition ALIGN (x a : Z) : Z := ALIGN_MASK x (a - 1).

(** [IS_ALIGNED(x, a)]. *)
Definition IS_ALIGNED (x a : Z) : bool := Z.land x (a - 1) =? 0.

(** [ALIGN_FLOOR(x, mask)]: the subtraction wraps. *)
Definition ALIGN_FLOOR (x mask : Z) : Z :=
  if IS_ALIGNED x mask then x else u64 (ALIGN x mask - mask).

(** [is_power_of_two(x)]: [(x != 0) && ((x & (~x + 1)) == x)]. *)
Definition is_power_of_two (x : Z) : bool :=
  negb (x =? 0) && (Z.land x (u64 (not64 x + 1)) =? x).

Lemma IS_ALIGNED_spec x k : 0 ≤ k → IS_ALIGNED x (2 ^ k) = (x mod 2 ^ k =? 0).
Proof. intros. unfold IS_ALIGNED. by rewrite land_mask. Qed.

Lemma ALIGN_eq x k :
  0 ≤ k ≤ 64 → 0 ≤ x → x + (2 ^ k - 1) < 2 ^ 64 →
  ALIGN x (2 ^ k) = x + (2 ^ k - 1) - (x + (2 ^ k - 1)) mod 2 ^ k.
Proof.
  intros Hk Hx Hov. unfold ALIGN, ALIGN_MASK.
  assert (0 < 2 ^ k) by (apply Z.pow_pos_nonneg; lia).
  rewrite u64_small by lia. apply land_not64_mask; lia.
Qed.

(** [ALIGN] is the least multiple of the block size not below its argument. *)
Lemma ALIGN_least x k :
  0 ≤ k ≤ 64 → 0 ≤ x → x + (2 ^ k - 1) < 2 ^ 64 →
  x ≤ ALIGN x (2 ^ k) < x + 2 ^ k ∧ ALIGN x (2 ^ k) mod 2 ^ k = 0.
Proof.
  intros. rewrite ALIGN_eq by done. apply round_up_spec.
  apply Z.pow_pos_nonneg; lia.
Qed.

Lemma ALIGN_id x k :
  0 ≤ k ≤ 64 → 0 ≤ x → x + (2 ^ k - 1) < 2 ^ 64 →
  x mod 2 ^ k = 0 → ALIGN x (2 ^ k) = x.
Proof.
  intros Hk Hx Hov Hm. pose proof (ALIGN_least x k Hk Hx Hov) as [Hr Hm'].
  assert (0 < 2 ^ k) by (apply Z.pow_pos_nonneg; lia).
  symmetry. eapply multiple_unique; eauto; lia.
Qed.

Lemma u64_mod_pow2 y k : 0 ≤ k ≤ 64 → u64 y mod 2 ^ k = y mod 2 ^ k.
Proof.
  intros Hk. unfold u64. apply Z.mod_mod_divide.
  exists (2 ^ (64 - k)). rewrite <- Z.pow_add_r by lia. f_equal. lia.
Qed.

(** An unaligned value and its round-up have neighbouring remainders. *)
Lemma mod_pred_carry x b :
  0 < b → x mod b ≠ 0 → (x + (b - 1)) mod b = x mod b - 1.
Proof.
  intros Hb Hx. pose proof (Z.mod_pos_bound x b Hb).
  replace (x + (b - 1)) with ((x - 1) + 1 * b) by lia.
  rewrite Z.mod_add by lia. rewrite Zminus_mod.
  destruct (decide (b = 1)) as [->|Hb1]; [rewrite Z.mod_1_r in Hx; lia|].
  rewrite (Z.mod_small 1) by lia. apply Z.mod_small. lia.
Qed.

(** [ALIGN_FLOOR] clears the offset inside the block for every 64-bit
    argument, also where the intermediate [ALIGN] wraps around. *)
Lemma ALIGN_FLOOR_eq x k :
  0 ≤ k ≤ 64 → 0 ≤ x < 2 ^ 64 → ALIGN_FLOOR x (2 ^ k) = x - x mod 2 ^ k.
Proof.
  intros Hk Hx. unfold ALIGN_FLOOR. rewrite IS_ALIGNED_spec by lia.
  assert (0 < 2 ^ k) as Hp by (apply Z.pow_pos_nonneg; lia).
  case_if; [lia|]. unfold ALIGN, ALIGN_MASK.
  rewrite land_not64_mask by (apply u64_range || lia).
  rewrite u64_mod_pow2, mod_pred_carry by lia.
  pose proof (Z.mod_pos_bound x (2 ^ k) Hp).
  pose proof (Z.mod_le x (2 ^ k)).
  unfold u64. rewrite <- Z.sub_add_distr, Zminus_mod_idemp_l.
  replace (x + (2 ^ k - 1) - (x mod 2 ^ k - 1 + 2 ^ k)) with (x - x mod 2 ^ k) by lia.
  apply Z.mod_small. lia.
Qed.

(** [x & -x] on the integers isolates the lowest set bit. *)
Lemma land_opp_double a : Z.land (2 * a) (- (2 * a)) = 2 * Z.land a (- a).
Proof.
  replace (- (2 * a)) with (2 * - a) by lia.
  rewrite !(Z.mul_comm 2), <- !(Z.shiftl_mul_pow2 _ 1) by lia.
  by rewrite Z.shiftl_land.
Qed.

Lemma land_opp_odd q : Z.land (2 * q + 1) (- (2 * q + 1)) = 1.
Proof.
  replace (- (2 * q + 1)) with (2 * Z.lnot q + 1) by (unfold Z.lnot; lia).
  apply Z.bits_inj'. intros n Hn. rewrite Z.land_spec.
  destruct (decide (n = 0)) as [->|Hn0].
  { by rewrite !Z.testbit_odd_0. }
  replace n with (Z.succ (n - 1)) by lia.
  rewrite !Z.testbit_odd_succ, Z.lnot_spec by lia.
  rewrite (Z.testbit_odd_succ 0) by lia. rewrite Z.bits_0.
  by destruct (Z.testbit q (n - 1)).
Qed.

Lemma land_opp_pow2 p : ∃ k, 0 ≤ k ∧ Z.land (Z.pos p) (- Z.pos p) = 2 ^ k.
Proof.
  induction p as [q IH|q [k [Hk IH]]|].
  - exists 0. split; [done|]. rewrite (Pos2Z.inj_xI q). by rewrite land_opp_odd.
  - exists (Z.succ k). split; [lia|].
    rewrite (Pos2Z.inj_xO q), land_opp_double, IH, Z.pow_succ_r by lia. lia.
  - by exists 0.
Qed.

Lemma land_pow2_opp k : 0 ≤ k → Z.land (2 ^ k) (- 2 ^ k) = 2 ^ k.
Proof.
  intros Hk. pattern k. apply natlike_ind; [done| |done].
  intros j Hj IH. rewrite Z.pow_succ_r by lia. by rewrite land_opp_double, IH.
Qed.

Lemma land_u64_opp x :
  0 ≤ x < 2 ^ 64 → Z.land x (u64 (not64 x + 1)) = Z.land x (- x).
Proof.
  intros Hx.
  assert (u64 (not64 x + 1) = Z.land (- x) (2 ^ 64 - 1)) as ->.
  { rewrite land_mask by lia. unfold not64, u64. rewrite Zplus_mod_idemp_l.
    f_equal. unfold Z.lnot. lia. }
  rewrite (Z.land_comm (- x)), Z.land_assoc, (land_mask x) by lia.
  by rewrite Z.mod_small.
Qed.

Lemma is_power_of_two_iff x :
  0 ≤ x < 2 ^ 64 → is_power_of_two x = true ↔ ∃ k, 0 ≤ k ∧ x = 2 ^ k.
Proof.
  intros Hx. unfold is_power_of_two. rewrite land_u64_opp by done. split.
  - intros H. breflect. destruct x as [|p|p]; [lia| |lia].
    destruct (land_opp_pow2 p) as (k & Hk & E). exists k. split; [done|congruence].
  - intros (k & Hk & ->). rewrite land_pow2_opp by done. rewrite Z.eqb_refl.
    destruct (Z.eqb_spec (2 ^ k) 0); [|done].
    pose proof (Z.pow_pos_nonneg 2 k); lia.
Qed.

End Align.
Export Align.

(** ** Paths *)
Module Path.

Definition slash : Z := 47.
Definition digit0 : Z := 48.
Definition is_slash (c : Z) : bool := c =? slash.

(** A C string holds no NUL byte. *)
Definition is_cstr (s : list Z) : Prop := Forall (λ c, 1 ≤ c < 256) s.

(** [while ( *path == '/' ) path++]. *)
Fixpoint skip_slashes (p : list Z) : list Z :=
  match p with
  | c :: r => if is_slash c then skip_slashes r else p
  | [] => []
  end.

(** [while ( *path != '/' && *path != 0 ) path++]: the element and what
    follows it. *)
Fixpoint span_name (p : list Z) : list Z * list Z :=
  match p with
  | c :: r =>
      if is_slash c then ([], p)
      else let '(s, t) := span_name r in (c :: s, t)
  | [] => ([], [])
  end.

(** The write into [name]: [DIRSIZ] bytes and no terminator for a long
    element, the element and a NUL otherwise. *)
Definition store_name (s name : list Z) : list Z :=
  if decide (DIRSIZ ≤ length s)%nat then take DIRSIZ s ++ drop DIRSIZ name
  else s ++ [0] ++ drop (S (length s)) name.

(** [get_next_name(path, name)]: the rest of the path ([None] is the null
    pointer) and the name buffer. *)
Definition get_next_name (path name : list Z) : option (list Z) * list Z :=
  match skip_slashes path with
  | [] => (None, name)
  | p =>
      let '(s, rest) := span_name p in
      (Some (skip_slashes rest), store_name s name)
  end.

(** The string a buffer holds: its bytes up to the first NUL, [None] when
    the array has no NUL. *)
Fixpoint cstr_of (buf : list Z) : option (list Z) :=
  match buf with
  | [] => None
  | c :: r => if c =? 0 then Some [] else cons c <$> cstr_of r
  end.

(** A backward scan [while (f( *path )) path--, len--] over the reversed
    prefix that ends at [path]; a read before the string is a fault. *)
Fixpoint back_while (f : Z → bool) (rp : list Z) : outcome (list Z) :=
  match rp with
  | [] => Fault "read before the path"
  | c :: r => if f c then back_while f r else Ok rp
  end.

(** [get_parent_path(path, parent_path, name)]: the parent and the name
    buffer.  [len] is the length of the reversed prefix in every loop. *)
Definition get_parent_path (path name : list Z)
  : outcome (option (list Z * list Z)) :=
  match back_while (λ c, c =? digit0) (rev path) with
  | Ok rp1 =>
  match back_while is_slash rp1 with
  | Ok rp2 =>
  match back_while (λ c, negb (is_slash c)) rp2 with
  | Ok rp3 =>
      if decide (length rp3 = 0%nat) then Ok None
      else
        match back_while is_slash rp3 with
        | Ok rp4 =>
            let len := length rp4 in
            let '(_, name') := get_next_name (drop len path) name in
            Ok (Some (take len path, name'))
        | Panic w => Panic w | Fault w => Fault w | NoFuel => NoFuel
        end
  | Panic w => Panic w | Fault w => Fault w | NoFuel => NoFuel
  end
  | Panic w => Panic w | Fault w => Fault w | NoFuel => NoFuel
  end
  | Panic w => Panic w | Fault w => Fault w | NoFuel => NoFuel
  end.

(** Reference: the non-empty elements of a path, in order. *)
Fixpoint elements_aux (cur : list Z) (p : list Z) : list (list Z) :=
  match p with
  | [] => if cur is [] then [] else [rev cur]
  | c :: r =>
      if is_slash c then
        (if cur is [] then elements_aux [] r else rev cur :: elements_aux [] r)
      else elements_aux (c :: cur) r
  end.
Definition elements (p : list Z) : list (list Z) := elements_aux [] p.

(** The loop [while ((path = get_next_name(path, name)) != 0)] of [namex],
    collecting what each step stores in [name]; the path shrinks in every
    step, so its length is enough fuel. *)
Fixpoint walk (fuel : nat) (path name : list Z) : list (list Z) :=
  match fuel with
  | O => []
  | S n =>
      match get_next_name path name with
      | (None, _) => []
      | (Some rest, name') => name' :: walk n rest name'
      end
  end.

(** *** Lemmas on the scans *)
Definition no_slash (s : list Z) : Prop := Forall (λ c, is_slash c = false) s.
Definition all_slash (s : list Z) : Prop := Forall (λ c, is_slash c = true) s.

Lemma skip_slashes_app s p : all_slash s → skip_slashes (s ++ p) = skip_slashes p.
Proof. induction 1 as [|c s Hc _ IH]; simpl; [done|]. by rewrite Hc. Qed.

Lemma skip_slashes_stop c r : is_slash c = false → skip_slashes (c :: r) = c :: r.
Proof. simpl. by intros ->. Qed.

Lemma skip_slashes_nil s : all_slash s → skip_slashes s = [].
Proof. induction 1 as [|c s Hc _ IH]; simpl; [done|]. by rewrite Hc. Qed.

Lemma span_name_app s c r :
  no_slash s → is_slash c = true → span_name (s ++ c :: r) = (s, c :: r).
Proof.
  induction 1 as [|d s Hd _ IH]; simpl; intros Hc; [by rewrite Hc|].
  rewrite Hd. by rewrite IH.
Qed.

Lemma span_name_all s : no_slash s → span_name s = (s, []).
Proof. induction 1 as [|d s Hd _ IH]; simpl; [done|]. by rewrite Hd, IH. Qed.

Lemma back_while_skip f l r :
  Forall (λ x, f x = true) l → back_while f (l ++ r) = back_while f r.
Proof. induction 1 as [|d l Hd _ IH]; simpl; [done|]. by rewrite Hd. Qed.

Lemma back_while_stop f c r : f c = false → back_while f (c :: r) = Ok (c :: r).
Proof. simpl. by intros ->. Qed.

Lemma back_while_app f l c r :
  Forall (λ x, f x = true) l → f c = false → back_while f (l ++ c :: r) = Ok (c :: r).
Proof. intros. rewrite back_while_skip by done. by apply back_while_stop. Qed.

(** The element after a run of slashes is what [get_next_name] stores. *)
Lemma get_next_name_elem sl n t name :
  all_slash sl → all_slash t → no_slash n → n ≠ [] →
  get_next_name (sl ++ n ++ t) name = (Some [], store_name n name).
Proof.
  intros Hsl Ht Hn Hne. unfold get_next_name. rewrite skip_slashes_app by done.
  destruct n as [|c n]; [done|]. inversion Hn as [|? ? Hc Hn']; subst.
  change ((c :: n) ++ t) with (c :: (n ++ t)) at 1.
  rewrite skip_slashes_stop by done.
  assert (span_name ((c :: n) ++ t) = (c :: n, t)) as E.
  { destruct t as [|d t]; [rewrite app_nil_r; by apply span_name_all|].
    inversion Ht; subst. by apply span_name_app. }
  simpl app in E. rewrite E. by rewrite skip_slashes_nil.
Qed.

Lemma split_zeros l :
  Exists (λ c, c ≠ digit0) l →
  ∃ z c r, l = z ++ c :: r ∧ Forall (λ x, (x =? digit0) = true) z ∧ (c =? digit0) = false.
Proof.
  induction 1 as [x l Hx|x l Hex (z & c & r & -> & Hz & Hc)].
  - exists [], x, l. split; [done|]. split; [done|]. by apply Z.eqb_neq.
  - destruct (x =? digit0) eqn:Ex.
    + exists (x :: z), c, r. split; [done|]. split; [|done]. by constructor.
    + exists [], x, (z ++ c :: r). by repeat split.
Qed.

(** The last part of the backward scan, from the final character of the
    last element: the scans stop at the end of the parent. *)
Lemma parent_scan p pc sl n nc :
  is_slash pc = false → sl ≠ [] → all_slash sl → no_slash (n ++ [nc]) →
  back_while (λ c, negb (is_slash c)) (rev ((p ++ [pc]) ++ sl ++ n ++ [nc]))
    = Ok (rev sl ++ rev (p ++ [pc])) ∧
  back_while is_slash (rev sl ++ rev (p ++ [pc])) = Ok (rev (p ++ [pc])).
Proof.
  intros Hpc Hne Hsl Hn.
  destruct sl as [|s0 sl _] using rev_ind; [done|].
  apply Forall_app in Hsl as [Hsl Hs0]. rewrite Forall_singleton in Hs0.
  assert (E1 : rev ((p ++ [pc]) ++ (sl ++ [s0]) ++ n ++ [nc])
          = rev (n ++ [nc]) ++ s0 :: (rev sl ++ rev (p ++ [pc]))).
  { rewrite !rev_app_distr. simpl. by rewrite <- !app_assoc. }
  split.
  - rewrite E1, back_while_app; [by rewrite (rev_app_distr sl)| |by rewrite Hs0].
    apply Forall_rev. eapply Forall_impl; [exact Hn|]. by intros x ->.
  - rewrite (rev_app_distr p). apply back_while_app; [|done].
    rewrite rev_app_distr. constructor; [done|]. by apply Forall_rev.
Qed.

(** *** Parents *)

(** What is left of the path when the digit scan and the slash scan at its
    end are over scans like the path without its trailing slashes. *)
Definition end_scan (path core : list Z) : Prop :=
  ∃ rp1 rp2, back_while (λ c, c =? digit0) (rev path) = Ok rp1
    ∧ back_while is_slash rp1 = Ok rp2
    ∧ back_while (λ c, negb (is_slash c)) rp2
      = back_while (λ c, negb (is_slash c)) (rev core).

Lemma end_scan_digits q n :
  no_slash n → Exists (λ c, c ≠ digit0) n → end_scan (q ++ n) (q ++ n).
Proof.
  intros Hn Hex. apply Exists_rev, split_zeros in Hex as (z & c & r & E & Hz & Hc).
  assert (Hn' : no_slash (z ++ c :: r)) by (rewrite <- E; by apply Forall_rev).
  apply Forall_app in Hn' as [Hzs Hcr]. apply Forall_cons in Hcr as [Hcs _].
  assert (Eq : rev (q ++ n) = z ++ c :: (r ++ rev q))
    by (rewrite rev_app_distr, E; by rewrite <- app_assoc).
  exists (c :: (r ++ rev q)), (c :: (r ++ rev q)). rewrite Eq. repeat split.
  - by apply back_while_app.
  - by apply back_while_stop.
  - symmetry. apply back_while_skip. eapply Forall_impl; [exact Hzs|]. by intros x ->.
Qed.

Lemma end_scan_slashes q c t :
  is_slash c = false → t ≠ [] → all_slash t →
  end_scan ((q ++ [c]) ++ t) (q ++ [c]).
Proof.
  intros Hc Hne Ht. destruct t as [|t0 t _] using rev_ind; [done|].
  exists (rev ((q ++ [c]) ++ t ++ [t0])), (rev (q ++ [c])).
  apply Forall_rev in Ht. rewrite rev_app_distr in Ht. simpl in Ht.
  rewrite !rev_app_distr. simpl.
  split; [|split; [|done]].
  - inversion Ht as [|? ? Ht0 _]; subst. unfold is_slash in Ht0. breflect.
    subst t0. done.
  - apply (back_while_app _ (t0 :: rev t)); done.
Qed.

(** Both ways a path can end. *)
Lemma end_scan_path q n c t :
  no_slash (n ++ [c]) → all_slash t →
  (t = [] → Exists (λ x, x ≠ digit0) (n ++ [c])) →
  end_scan (q ++ (n ++ [c]) ++ t) (q ++ n ++ [c]).
Proof.
  intros Hn Ht Hz. destruct t as [|t0 t].
  - rewrite app_nil_r. apply end_scan_digits; auto.
  - rewrite !app_assoc.
    apply end_scan_slashes; [|done..].
    apply Forall_app in Hn as [_ Hn]. by rewrite Forall_singleton in Hn.
Qed.

(** The computation of [get_parent_path] once the end of the path is known
    to scan like [parent ++ slashes ++ name]. *)
Lemma get_parent_path_scan p pc sl n nc rest name :
  is_slash pc = false → sl ≠ [] → all_slash sl → no_slash (n ++ [nc]) →
  end_scan ((p ++ [pc]) ++ rest) ((p ++ [pc]) ++ sl ++ n ++ [nc]) →
  get_parent_path ((p ++ [pc]) ++ rest) name
    = Ok (Some (p ++ [pc], (get_next_name rest name).2)).
Proof.
  intros Hpc Hne Hsl Hn (rp1 & rp2 & E1 & E2 & E3).
  unfold get_parent_path. rewrite E1, E2, E3.
  destruct (parent_scan p pc sl n nc Hpc Hne Hsl Hn) as [-> ->].
  rewrite decide_False.
  2: { rewrite length_app, !length_rev, length_app. simpl. lia. }
  rewrite length_rev, drop_app_length, take_app_length.
  by destruct (get_next_name rest name).
Qed.

(** [get_parent_path] on [parent ++ slashes ++ name ++ slashes]: it returns
    the parent and stores the name, unless the path ends in a name that
    consists of the digit [0] only. *)
Lemma get_parent_path_ok p pc sl n nc t name :
  is_slash pc = false → sl ≠ [] → all_slash sl → all_slash t →
  no_slash (n ++ [nc]) →
  (t = [] → Exists (λ c, c ≠ digit0) (n ++ [nc])) →
  get_parent_path ((p ++ [pc]) ++ sl ++ (n ++ [nc]) ++ t) name
    = Ok (Some (p ++ [pc], store_name (n ++ [nc]) name)).
Proof.
  intros Hpc Hne Hsl Ht Hn Hz.
  erewrite get_parent_path_scan; eauto.
  - rewrite get_next_name_elem; [done..|by destruct n].
  - rewrite !(app_assoc (p ++ [pc])). by apply end_scan_path.
Qed.

(** When the last element is made of the digit [0] only, the first scan
    removes it: the parent and the name returned are those of the path one
    level up. *)
Lemma get_parent_path_zeros p pc sl n nc sl2 z name :
  is_slash pc = false → sl ≠ [] → all_slash sl → no_slash (n ++ [nc]) →
  sl2 ≠ [] → all_slash sl2 → z ≠ [] → Forall (λ c, c = digit0) z →
  ∃ rest,
  get_parent_path ((p ++ [pc]) ++ sl ++ (n ++ [nc]) ++ sl2 ++ z) name
    = Ok (Some (p ++ [pc], (get_next_name (sl ++ (n ++ [nc]) ++ sl2 ++ z) name).2)) ∧
  get_next_name (sl ++ (n ++ [nc]) ++ sl2 ++ z) name
    = (Some rest, store_name (n ++ [nc]) name).
Proof.
  intros Hpc Hne Hsl Hn Hne2 Hsl2 Hz0 Hz.
  assert (Hnc : is_slash nc = false).
  { apply Forall_app in Hn as [_ Hn]. by rewrite Forall_singleton in Hn. }
  exists (skip_slashes (sl2 ++ z)). split.
  - apply (get_parent_path_scan p pc sl n nc); [done..|].
    destruct (end_scan_slashes ((p ++ [pc]) ++ sl ++ n) nc sl2) as (rp1 & rp2 & E1 & E2 & E3);
      [done..|].
    exists rp1, rp2. split; [|split; [done|by rewrite E3, !app_assoc]].
    rewrite <- E1. rewrite !app_assoc, rev_app_distr, back_while_skip; [done|].
    apply Forall_rev. eapply Forall_impl; [exact Hz|]. by intros x ->.
  - unfold get_next_name. rewrite skip_slashes_app by done.
    destruct sl2 as [|s2 sl2]; [done|]. apply Forall_cons in Hsl2 as [Hs2 _].
    pose proof (span_name_app (n ++ [nc]) s2 (sl2 ++ z) Hn Hs2) as Hsp.
    destruct n as [|c n]; simpl app in *; apply Forall_cons in Hn as [Hc _];
      rewrite skip_slashes_stop by done; by rewrite Hsp.
Qed.

(** *** The walk over a path *)

(** What a buffer holds after an element was stored in it: the element as a
    C string, or its first [DIRSIZ] bytes when it does not fit. *)
Definition name_stored (e buf : list Z) : Prop :=
  if decide (length e < DIRSIZ)%nat then cstr_of buf = Some e
  else take DIRSIZ buf = take DIRSIZ e.

Lemma cstr_of_app s r : is_cstr s → cstr_of (s ++ 0 :: r) = Some s.
Proof.
  induction 1 as [|c s Hc _ IH]; [done|]. simpl. rewrite IH.
  destruct (Z.eqb_spec c 0); [lia|done].
Qed.

Lemma store_name_stored s name : is_cstr s → name_stored s (store_name s name).
Proof.
  intros Hs. unfold name_stored, store_name.
  destruct (decide (length s < DIRSIZ)%nat), (decide (DIRSIZ ≤ length s)%nat); try lia.
  - by apply cstr_of_app.
  - apply take_app_length'. rewrite length_take. lia.
Qed.

Lemma elements_skip p : elements (skip_slashes p) = elements p.
Proof.
  induction p as [|c r IH]; [done|]. simpl.
  destruct (is_slash c) eqn:E; [|done].
  rewrite IH. unfold elements at 2. simpl. by rewrite E.
Qed.

Lemma elements_aux_span cur p s t :
  cur ≠ [] → span_name p = (s, t) → elements_aux cur p = (rev cur ++ s) :: elements t.
Proof.
  revert cur s t. induction p as [|c r IH]; intros cur s t Hne Hsp; simpl in *.
  { simplify_eq. rewrite app_nil_r. by destruct cur. }
  destruct (is_slash c) eqn:Ec.
  - simplify_eq. rewrite app_nil_r. destruct cur; [done|].
    f_equal. unfold elements. simpl. by rewrite Ec.
  - destruct (span_name r) as [s' t'] eqn:Er. simplify_eq.
    rewrite (IH (c :: cur) s' t) by done. simpl. by rewrite <- app_assoc.
Qed.

Lemma span_name_spec p s t :
  span_name p = (s, t) → p = s ++ t ∧ no_slash s.
Proof.
  revert s t. induction p as [|c r IH]; intros s t H; simpl in *.
  { simplify_eq. split; [done|constructor]. }
  destruct (is_slash c) eqn:E; [simplify_eq; split; [done|constructor]|].
  destruct (span_name r) as [s' t'] eqn:Er. simplify_eq.
  destruct (IH _ _ eq_refl) as [-> ?]. split; [done|]. constructor; done.
Qed.

Lemma skip_slashes_suffix p : ∃ sl, p = sl ++ skip_slashes p.
Proof.
  induction p as [|c r [sl IH]]; [by exists []|]. simpl.
  destruct (is_slash c); [|by exists []]. exists (c :: sl). simpl. by f_equal.
Qed.

(** One step of [get_next_name] takes the first element off the path. *)
Lemma get_next_name_step path name :
  match get_next_name path name with
  | (None, name') => elements path = [] ∧ name' = name
  | (Some rest, name') => ∃ e pre, elements path = e :: elements rest
      ∧ e ≠ [] ∧ name' = store_name e name ∧ path = pre ++ rest
      ∧ (length rest < length path)%nat ∧ (is_cstr path → is_cstr e)
  end.
Proof.
  unfold get_next_name. rewrite <- elements_skip.
  destruct (skip_slashes_suffix path) as [sl Hsl].
  assert (Hhd : match skip_slashes path with [] => True | c :: _ => is_slash c = false end).
  { clear. induction path as [|c r IH]; [done|]. simpl. by destruct (is_slash c) eqn:E. }
  destruct (skip_slashes path) as [|c r]; [done|].
  destruct (span_name (c :: r)) as [s t] eqn:E.
  pose proof (span_name_spec _ _ _ E) as [Ecr Hs].
  destruct (skip_slashes_suffix t) as [sl' Hsl'].
  assert (∃ s', s = c :: s') as [s' ->].
  { cbn [span_name] in E. rewrite Hhd in E. destruct (span_name r). simplify_eq. eauto. }
  exists (c :: s'), (sl ++ (c :: s') ++ sl'). split.
  { rewrite elements_skip. unfold elements at 1. simpl. rewrite Hhd.
    cbn [span_name] in E. rewrite Hhd in E.
    destruct (span_name r) as [u v] eqn:Er. simplify_eq. by apply (elements_aux_span [c]). }
  split; [done|]. split; [done|].
  split; [rewrite Hsl, Ecr; rewrite Hsl' at 1; by rewrite <- !app_assoc|]. split.
  - apply (f_equal length) in Hsl, Ecr, Hsl'. rewrite !length_app in *.
    simpl in *. lia.
  - intros Hc. rewrite Hsl, Ecr in Hc. apply Forall_app in Hc as [_ Hc].
    by apply Forall_app in Hc as [Hc _].
Qed.

(** The loop of [namex] visits the elements of the path in order, each one
    stored in the name buffer. *)
Lemma walk_elements fuel path name :
  is_cstr path → (length path < fuel)%nat →
  Forall2 name_stored (elements path) (walk fuel path name).
Proof.
  revert path name. induction fuel as [|n IH]; intros path name Hc Hf; [lia|].
  simpl. pose proof (get_next_name_step path name) as Hstep.
  destruct (get_next_name path name) as [[rest|] name'].
  - destruct Hstep as (e & pre & -> & _ & -> & Hp & Hlen & He).
    constructor; [by apply store_name_stored, He|].
    apply IH; [|lia]. rewrite Hp in Hc. by apply Forall_app in Hc as [_ ?].
  - destruct Hstep as [-> _]. constructor.
Qed.

(** The loop of namex over get_next_name visits the non-empty elements
    of a path in order and stores each of them in the name buffer. *)
Theorem namex_visits_elements path name :
  is_cstr path → Forall2 name_stored (elements path) (walk (S (length path)) path name).
Proof. intros. apply walk_elements; [done|lia]. Qed.

(** [/ab//c/]. *)
Lemma namex_visits_elements_witness :
  Forall2 name_stored [[97; 98]; [99]] (walk 7 [47; 97; 98; 47; 47; 99] []).
Proof. apply (namex_visits_elements [47; 97; 98; 47; 47; 99] []). repeat constructor; lia. Defined.

(** get_parent_path of parent, slashes, name and trailing slashes
    returns the parent and stores the name, unless the path ends in a name of
    zeros only. *)
Theorem get_parent_path_splits p pc sl n nc t name :
  is_slash pc = false → sl ≠ [] → all_slash sl → all_slash t → no_slash (n ++ [nc]) →
  (t = [] → Exists (λ c, c ≠ digit0) (n ++ [nc])) →
  get_parent_path ((p ++ [pc]) ++ sl ++ (n ++ [nc]) ++ t) name
    = Ok (Some (p ++ [pc], store_name (n ++ [nc]) name)).
Proof. apply get_parent_path_ok. Qed.

(** [/a/b]. *)
Lemma get_parent_path_splits_witness :
  get_parent_path [47; 97; 47; 98] [] = Ok (Some ([47; 97], [98; 0])).
Proof.
  apply (get_parent_path_splits [47] 97 [47] [] 98 [] []); try done; repeat constructor; done.
Defined.

(** When the last element of a path consists of the digit 0 only,
    get_parent_path returns the parent and the name of the path one level up. *)
Theorem get_parent_path_zero_name p pc sl n nc sl2 z name :
  is_slash pc = false → sl ≠ [] → all_slash sl → no_slash (n ++ [nc]) →
  sl2 ≠ [] → all_slash sl2 → z ≠ [] → Forall (λ c, c = digit0) z →
  get_parent_path ((p ++ [pc]) ++ sl ++ (n ++ [nc]) ++ sl2 ++ z) name
    = Ok (Some (p ++ [pc], store_name (n ++ [nc]) name)).
Proof.
  intros. destruct (get_parent_path_zeros p pc sl n nc sl2 z name) as (rest & E & E2); try done.
  rewrite E, E2. done.
Qed.

(** [/a/b/0]. *)
Lemma get_parent_path_zero_name_witness :
  get_parent_path [47; 97; 47; 98; 47; 48] [] = Ok (Some ([47; 97], [98; 0])).
Proof.
  apply (get_parent_path_zero_name [47] 97 [47] [] 98 [47] [48] []); try done;
    repeat constructor; done.
Defined.

End Path.
Export Path.
