(* ===== verification/Bytes.v ===== *)
(** * Bytes: little-endian fields, packed structs and byte memories

    Shared by the operation log, the devices and the on-disk tree. *)
From Stdlib Require Import ZArith Lia.
From stdpp Require Import base numbers list gmap strings.
From S2P Require Import Prelude.

(** ** Little-endian fields and packed structs *)
Fixpoint le (n : nat) (x : Z) : list Z :=
  match n with O => [] | S n => x mod 256 :: le n (x / 256) end.

Fixpoint unle (bs : list Z) : Z :=
  match bs with [] => 0 | b :: bs => b + 256 * unle bs end.

(** A packed struct: the fields in order with their sizes in bytes. *)
Definition pack (fs : list (nat * Z)) : list Z := fs ≫= λ f, le f.1 f.2.

Fixpoint unpack (ws : list nat) (bs : list Z) : list Z :=
  match ws with
  | [] => []
  | w :: ws => unle (take w bs) :: unpack ws (drop w bs)
  end.

Lemma le_length n x : length (le n x) = n.
Proof. revert x. induction n; intros; simpl; [done|]. by rewrite IHn. Qed.

Lemma unle_le n x : unle (le n x) = x mod 2 ^ (8 * Z.of_nat n).
Proof.
  revert x. induction n as [|n IH]; intros x.
  { by rewrite Z.mod_1_r. }
  cbn [le unle]. rewrite IH. replace (2 ^ (8 * Z.of_nat (S n))) with (256 * 2 ^ (8 * Z.of_nat n)).
  - rewrite Z.rem_mul_r; [done|lia|]. apply Z.pow_pos_nonneg; lia.
  - change 256 with (2 ^ 8). rewrite <- Z.pow_add_r by lia. f_equal. lia.
Qed.

Definition field_ok (f : nat * Z) : Prop := 0 ≤ f.2 < 2 ^ (8 * Z.of_nat f.1).
#[export] Instance field_ok_dec f : Decision (field_ok f).
Proof. unfold field_ok. apply _. Defined.

Lemma pack_length fs : length (pack fs) = sum_list (fst <$> fs).
Proof.
  unfold pack. induction fs as [|f fs IH]; csimpl; [done|].
  by rewrite length_app, le_length, IH.
Qed.

Lemma unpack_pack_mod fs rest :
  unpack (fst <$> fs) (pack fs ++ rest) = (λ f, f.2 mod 2 ^ (8 * Z.of_nat f.1)) <$> fs.
Proof.
  unfold pack. induction fs as [|[w x] fs IH]; csimpl; [done|].
  rewrite <- app_assoc. rewrite take_app_length' by (by rewrite le_length).
  rewrite drop_app_length' by (by rewrite le_length). by rewrite IH, unle_le.
Qed.

Lemma unpack_pack fs rest :
  Forall field_ok fs → unpack (fst <$> fs) (pack fs ++ rest) = snd <$> fs.
Proof.
  intros H. rewrite unpack_pack_mod. induction H as [|[w x] fs Hf Hfs IH]; csimpl; [done|].
  by rewrite IH, Z.mod_small.
Qed.

(** A byte memory. *)
Definition memory : Type := Z → Z.

(** [memcpy(a, bs, length bs)] and the bytes at [a]. *)
Definition store (a : Z) (bs : list Z) (m : memory) : memory :=
  λ x, if (a <=? x) && (x <? a + Z.of_nat (length bs)) then bs !!! Z.to_nat (x - a) else m x.
Definition load (m : memory) (a : Z) (n : nat) : list Z :=
  (λ i : nat, m (a + Z.of_nat i)) <$> seq 0 n.

Lemma load_length m a n : length (load m a n) = n.
Proof. unfold load. by rewrite length_fmap, length_seq. Qed.

Lemma load_store_same a bs m : load (store a bs m) a (length bs) = bs.
Proof.
  apply list_eq. intros i. unfold load. rewrite list_lookup_fmap.
  destruct (decide (i < length bs)%nat) as [Hi|Hi].
  - rewrite lookup_seq_lt by done. simpl. unfold store.
    destruct (Z.leb_spec a (a + Z.of_nat i)); [|lia].
    destruct (Z.ltb_spec (a + Z.of_nat i) (a + Z.of_nat (length bs))); [|lia]. simpl.
    replace (Z.to_nat _) with i by lia.
    destruct (lookup_lt_is_Some_2 bs i Hi) as [x Hx].
    by rewrite Hx, (list_lookup_total_correct _ _ _ Hx).
  - rewrite lookup_seq_ge by lia. simpl. symmetry. apply lookup_ge_None. lia.
Qed.

Lemma load_ext m m' a n :
  (∀ x, a ≤ x < a + Z.of_nat n → m x = m' x) → load m a n = load m' a n.
Proof.
  intros H. apply list_fmap_ext. intros i x [-> Hi]%lookup_seq. apply H. simpl. lia.
Qed.

Lemma store_outside a bs m x :
  x < a ∨ a + Z.of_nat (length bs) ≤ x → store a bs m x = m x.
Proof.
  intros. unfold store.
  destruct (Z.leb_spec a x), (Z.ltb_spec x (a + Z.of_nat (length bs))); simpl; [lia|done..].
Qed.
