(* ===== verification/RbTree.v ===== *)
(** * RbTree: insertion into the red-black trees of [ds/rbtree.c]

    A tree is its shape with colours; a position in it is the list of the
    frames from the position up to the root, which is what the parent
    pointers of [struct rb_node] give the loop of [__rb_insert].  The payload
    of a node is abstract: [BlkTree] uses the address of a [block_node]. *)
From Stdlib Require Import ZArith Lia.
From stdpp Require Import base numbers list strings.
From S2P Require Import Prelude.

Inductive color : Type := Red | Black.
#[export] Instance color_eq_dec : EqDecision color.
Proof. solve_decision. Defined.

Section RbTree.
Context {A : Type}.

Inductive rb : Type :=
  | Leaf
  | Node (c : color) (l : rb) (x : A) (r : rb).

(** The parent of a position, with the child that is not the position. *)
Inductive frame : Type :=
  | InL (c : color) (x : A) (r : rb)
  | InR (c : color) (l : rb) (x : A).

Definition frame_color (f : frame) : color :=
  match f with InL c _ _ => c | InR c _ _ => c end.

Definition fill (f : frame) (t : rb) : rb :=
  match f with InL c x r => Node c t x r | InR c l x => Node c l x t end.

(** The whole tree with [t] at the position. *)
Fixpoint plug (k : list frame) (t : rb) : rb :=
  match k with [] => t | f :: k' => plug k' (fill f t) end.

(** [rb_set_parent_color(rb, _, RB_BLACK)] on a node that may be null. *)
Definition blacken (t : rb) : rb :=
  match t with Leaf => Leaf | Node _ l x r => Node Black l x r end.

Definition is_red (t : rb) : bool :=
  match t with Node Red _ _ _ => true | _ => false end.

(** The loop of [__rb_insert].  [node] is the red node [nl, nx, nr] at the
    position [k].  A red parent without a grandparent is a null
    dereference. *)
Fixpoint rb_insert_loop (k : list frame) (nl : rb) (nx : A) (nr : rb)
  : outcome rb :=
  match k with
  | [] => Ok (Node Black nl nx nr)
  | p :: k1 =>
      match frame_color p with
      | Black => Ok (plug k (Node Red nl nx nr))
      | Red =>
          match k1 with
          | [] => Fault "gparent is null"
          | InL gc gx u :: up =>
              (* parent == gparent->rb_left *)
              if is_red u then
                (* case 1: colour flips, continue at gparent *)
                rb_insert_loop up (blacken (fill p (Node Red nl nx nr))) gx (blacken u)
              else
                match p with
                | InR _ pl px =>
                    (* case 2, left rotate at parent, then case 3 *)
                    Ok (plug up (Node gc (Node Red pl px (blacken nl)) nx
                                         (Node Red (blacken nr) gx u)))
                | InL pc px pr =>
                    (* case 3: right rotate at gparent *)
                    Ok (plug up (Node gc (Node Red nl nx nr) px
                                         (Node Red (blacken pr) gx u)))
                end
          | InR gc u gx :: up =>
              (* parent == gparent->rb_right *)
              if is_red u then
                rb_insert_loop up (blacken u) gx (blacken (fill p (Node Red nl nx nr)))
              else
                match p with
                | InL _ px pr =>
                    Ok (plug up (Node gc (Node Red u gx (blacken nl)) nx
                                         (Node Red (blacken nr) px pr)))
                | InR pc pl px =>
                    Ok (plug up (Node gc (Node Red u gx (blacken pl)) px
                                         (Node Red nl nx nr)))
                end
          end
      end
  end.

(** [rb_link_node] of a node without children at an empty position, then
    [rb_insert_color]. *)
Definition rb_insert_color (k : list frame) (x : A) : outcome rb :=
  rb_insert_loop k Leaf x Leaf.

(** In-order contents. *)
Fixpoint inorder (t : rb) : list A :=
  match t with Leaf => [] | Node _ l x r => inorder l ++ x :: inorder r end.

Fixpoint before (k : list frame) : list A :=
  match k with
  | [] => []
  | InL _ _ _ :: k' => before k'
  | InR _ l x :: k' => before k' ++ inorder l ++ [x]
  end.
Fixpoint after (k : list frame) : list A :=
  match k with
  | [] => []
  | InL _ x r :: k' => x :: inorder r ++ after k'
  | InR _ _ _ :: k' => after k'
  end.

(** ** The red-black properties of the comment at the top of [rbtree.c]:
    no red node has a red child and all paths to a leaf from [t] have the
    same number [n] of black nodes; [c] is the colour of the root of [t]. *)
Inductive rbt : color → nat → rb → Prop :=
  | rbt_leaf : rbt Black 0 Leaf
  | rbt_red n l x r : rbt Black n l → rbt Black n r → rbt Red n (Node Red l x r)
  | rbt_black n cl cr l x r :
      rbt cl n l → rbt cr n r → rbt Black (S n) (Node Black l x r).

(** [rbc c n k]: a tree of black height [n] can stand at the position, of
    any colour when [c = Red], with a black root when [c = Black]. *)
Inductive rbc : color → nat → list frame → Prop :=
  | rbc_root n : rbc Black n []
  | rbc_redL n x r k : rbt Black n r → rbc Red n k → rbc Black n (InL Red x r :: k)
  | rbc_redR n l x k : rbt Black n l → rbc Red n k → rbc Black n (InR Red l x :: k)
  | rbc_blackL n c c' x r k :
      rbt c n r → rbc c' (S n) k → rbc Red n (InL Black x r :: k)
  | rbc_blackR n c c' l x k :
      rbt c n l → rbc c' (S n) k → rbc Red n (InR Black l x :: k).

Hint Constructors rbt rbc : userfs.

Lemma inorder_fill f t :
  inorder (fill f t) = before [f] ++ inorder t ++ after [f].
Proof.
  destruct f; simpl; rewrite ?app_nil_r; [done|].
  by rewrite <- app_assoc.
Qed.

Lemma inorder_plug k t : inorder (plug k t) = before k ++ inorder t ++ after k.
Proof.
  revert t. induction k as [|f k IH]; intros t; simpl; [by rewrite app_nil_r|].
  rewrite IH. destruct f; simpl; rewrite <- ?app_assoc; [done|].
  simpl. by rewrite <- ?app_assoc.
Qed.

Lemma inorder_blacken t : inorder (blacken t) = inorder t.
Proof. by destruct t. Qed.

Lemma blacken_rbt c n t :
  rbt c n t → rbt Black (if c is Red then S n else n) (blacken t).
Proof. destruct 1; eauto with userfs. Qed.

Lemma blacken_black n t : rbt Black n t → blacken t = t.
Proof. by inversion 1. Qed.

Lemma is_red_rbt c n t : rbt c n t → is_red t = bool_decide (c = Red).
Proof. by destruct 1. Qed.

(** A tree that fits at a position gives a red-black tree. *)
Lemma plug_rbt k c c' n t :
  rbc c n k → rbt c' n t → (c = Red ∨ c' = Black) → ∃ m, rbt Black m (plug k t).
Proof.
  revert c c' n t. induction k as [|f k IH]; intros c c' n t Hk Ht Hc.
  - inversion Hk; subst. destruct Hc as [ | -> ]; [done|]. by exists n.
  - simpl. inversion Hk; subst; simpl.
    1,2: destruct Hc as [ | -> ]; [done|].
    1,2: eapply IH; eauto with userfs.
    all: eapply IH; eauto with userfs.
Qed.

(** The two ways a red parent can stand above the new node. *)
Definition red_parent (p : frame) (d : rb) : Prop :=
  (∃ x, p = InL Red x d) ∨ (∃ x, p = InR Red d x).

Lemma red_parent_black p d n nl nx nr :
  red_parent p d → rbt Black n d → rbt Black n nl → rbt Black n nr →
  rbt Black (S n) (blacken (fill p (Node Red nl nx nr))).
Proof. intros [[x ->]|[x ->]]; simpl; eauto with userfs. Qed.

Ltac inorder_solve :=
  rewrite ?inorder_plug; simpl; rewrite ?inorder_blacken; simpl;
  repeat (rewrite <- ?app_assoc; simpl); done.

(** A subtree rebuilt by a rotation, below a valid position. *)
Ltac rotated :=
  match goal with
  | H : rbc _ (S ?n) ?up |- ∃ t m, Ok (plug ?up ?t0) = Ok t ∧ _ =>
      let m := fresh "m" in let Hm := fresh "Hm" in
      edestruct (plug_rbt up _ Black (S n) t0 H) as [m Hm];
      [eauto 6 with userfs|by right|];
      exists (plug up t0), m; split; [done|]; split; [done|]; inorder_solve
  end.

(** [__rb_insert] at a position where a black tree of the height of the new
    node fits: the loop ends in a red-black tree with the in-order contents
    of the tree before rebalancing, and never reaches the null grandparent. *)
Lemma rb_insert_loop_ok k : ∀ c n nl nx nr,
  rbc c n k → rbt Black n nl → rbt Black n nr →
  ∃ t m, rb_insert_loop k nl nx nr = Ok t ∧ rbt Black m t
    ∧ inorder t = before k ++ (inorder nl ++ nx :: inorder nr) ++ after k.
Proof.
  induction k as [k IH] using (induction_ltof1 _ (@length _)); unfold ltof in IH.
  intros c n nl nx nr Hk Hl Hr.
  destruct k as [|p k1].
  { eexists _, _. split; [done|]. split; [eauto with userfs|]. by rewrite app_nil_r. }
  destruct (frame_color p) eqn:Ep.
  2: { cbn [rb_insert_loop]. rewrite Ep.
    destruct (plug_rbt (p :: k1) Red Red n (Node Red nl nx nr)) as [m Hm];
      [by inversion Hk; subst; eauto with userfs|eauto with userfs|by left|].
    eexists _, m. split; [done|]. split; [done|]. by rewrite inorder_plug. }
  assert (∃ d, rbc Red n k1 ∧ rbt Black n d
    ∧ red_parent p d) as (d & Hk1 & Hd & Hp).
  { unfold red_parent. inversion Hk; subst; simpl in Ep; simplify_eq; eauto 6. }
  inversion Hk1 as [| | |? cu cg gx u up Hu Hup|? cu cg u gx up Hu Hup]; subst;
    cbn [rb_insert_loop]; rewrite Ep, (is_red_rbt _ _ _ Hu); case_bool_decide; subst.
  - edestruct (IH up) as (t & m & -> & Ht & Ein);
      [simpl; lia|exact Hup|exact (red_parent_black _ _ _ _ _ _ Hp Hd Hl Hr)
      |exact (blacken_rbt _ _ _ Hu)|].
    exists t, m. split; [done|]. split; [done|]. rewrite Ein.
    destruct Hp as [[x ->]|[x ->]]; inorder_solve.
  - assert (cu = Black) as -> by (by destruct cu).
    destruct Hp as [[x ->]|[x ->]]; rewrite ?(blacken_black _ _ Hl),
      ?(blacken_black _ _ Hr), ?(blacken_black _ _ Hd); rotated.
  - edestruct (IH up) as (t & m & -> & Ht & Ein);
      [simpl; lia|exact Hup|exact (blacken_rbt _ _ _ Hu)
      |exact (red_parent_black _ _ _ _ _ _ Hp Hd Hl Hr)|].
    exists t, m. split; [done|]. split; [done|]. rewrite Ein.
    destruct Hp as [[x ->]|[x ->]]; inorder_solve.
  - assert (cu = Black) as -> by (by destruct cu).
    destruct Hp as [[x ->]|[x ->]]; rewrite ?(blacken_black _ _ Hl),
      ?(blacken_black _ _ Hr), ?(blacken_black _ _ Hd); rotated.
Qed.

(** A position and the subtree that stands there. *)
Definition fits (k : list frame) (t : rb) : Prop :=
  ∃ c c' n, rbc c n k ∧ rbt c' n t ∧ (c = Red ∨ c' = Black).

Lemma fits_root m t : rbt Black m t → fits [] t.
Proof. intros. exists Black, Black, m. eauto with userfs. Qed.

Lemma fits_left k c l x r : fits k (Node c l x r) → fits (InL c x r :: k) l.
Proof.
  intros (ck & ct & n & Hk & Ht & Hc). inversion Ht; subst.
  - destruct Hc as [->|]; [|done]. exists Black, Black, n. eauto with userfs.
  - exists Red, cl, n0. eauto with userfs.
Qed.

Lemma fits_right k c l x r : fits k (Node c l x r) → fits (InR c l x :: k) r.
Proof.
  intros (ck & ct & n & Hk & Ht & Hc). inversion Ht; subst.
  - destruct Hc as [->|]; [|done]. exists Black, Black, n. eauto with userfs.
  - exists Red, cr, n0. eauto with userfs.
Qed.

(** Linking a new node at an empty position of a red-black tree and
    rebalancing keeps the red-black properties and inserts the payload at
    the position. *)
Lemma rb_insert_color_ok k x :
  fits k Leaf →
  ∃ t m, rb_insert_color k x = Ok t ∧ rbt Black m t
    ∧ inorder t = before k ++ x :: after k.
Proof.
  intros (c & c' & n & Hk & Ht & _). inversion Ht; subst.
  destruct (rb_insert_loop_ok k c 0 Leaf x Leaf) as (t & m & ? & ? & ?);
    eauto with userfs.
Qed.

(** The height bound the comment of [rbtree.c] states: a path has at most
    twice as many nodes as it has black nodes, plus one. *)
Fixpoint height (t : rb) : nat :=
  match t with Leaf => 0 | Node _ l _ r => S (Nat.max (height l) (height r)) end.

Lemma rbt_height c n t :
  rbt c n t → (height t ≤ 2 * n + (if c is Red then 1 else 0))%nat.
Proof.
  induction 1 as [|n l x r _ IHl _ IHr|n cl cr l x r _ IHl _ IHr]; simpl; [lia|lia|].
  destruct cl, cr; lia.
Qed.

Lemma rbt_size c n t : rbt c n t → (2 ^ n ≤ S (length (inorder t)))%nat.
Proof.
  induction 1 as [|n l x r _ IHl _ IHr|n cl cr l x r _ IHl _ IHr];
    simpl; rewrite ?length_app; simpl; lia.
Qed.

(** C26: Linking a new node at an empty position of a red-black tree and
    running rb_insert_color terminates without a fault, keeps the red-black
    properties, inserts the payload at its in-order position and gives a tree
    of at most twice the black height. *)
Theorem rb_insert_balanced k x :
  fits k Leaf →
  ∃ t m, rb_insert_color k x = Ok t ∧ rbt Black m t ∧ inorder t = before k ++ x :: after k
    ∧ (height t ≤ 2 * m)%nat ∧ (2 ^ m ≤ S (length (inorder t)))%nat.
Proof.
  intros Hf. destruct (rb_insert_color_ok k x Hf) as (t & m & E & Hrb & Hin).
  exists t, m. split; [done|]. split; [done|]. split; [done|]. split; [|by eapply rbt_size].
  pose proof (rbt_height _ _ _ Hrb). simpl in *. lia.
Qed.

End RbTree.
Arguments rb : clear implicits.
Arguments frame : clear implicits.

(** Insertion below a red node, which rotates. *)
Lemma rb_insert_balanced_witness :
  ∃ t m, rb_insert_color [InL Red 2%nat Leaf; InL Black 3%nat Leaf] 1%nat = Ok t ∧ rbt Black m t
    ∧ inorder t = [1; 2; 3]%nat ∧ (height t ≤ 2 * m)%nat ∧ (2 ^ m ≤ 4)%nat.
Proof.
  destruct (rb_insert_balanced [InL Red 2%nat Leaf; InL Black 3%nat Leaf] 1%nat)
    as (t & m & E & Hrb & Hin & Hh & Hs).
  - exists Black, Black, 0%nat. split; [|split; [constructor|by right]].
    apply rbc_redL; [constructor|]. apply (rbc_blackL 0 Black Black); constructor.
  - exists t, m. rewrite Hin in Hs. done.
Defined.
