(* ===== verification/RbErase.v ===== *)
(** * RbErase: removal, traversal and replacement in [ds/rbtree.c]

    [__rb_erase_augmented] with the dummy callbacks, the rebalancing loop
    [____rb_erase_color], [rb_first], [rb_last], [rb_next], [rb_prev],
    [rb_replace_node] and [rb_insert], over the trees and positions of
    [RbTree].  A node is named by its payload, which stands for its address:
    the traversals read the links of a node through its name, so that a walk
    from a node that has left the tree can be stated. *)
From Stdlib Require Import ZArith Lia Sorted.
From stdpp Require Import base numbers list strings.
From S2P Require Import Prelude RbTree.

Section RbErase.
Context {A : Type}.
Implicit Types (t l r n : rb A) (k : list (frame A)) (x : A).

(** One iteration of [____rb_erase_color] from the test of [tmp1] on, with
    [node] to the left of [parent]: the subtree that stands at the place of
    [parent] and whether the loop goes on from there. *)
Definition erase_left (pc : color) n (px : A) (sibling : rb A) : outcome (bool * rb A) :=
  match sibling with
  | Leaf => Fault "sibling is null"
  | Node _ sl sx sr =>
      if is_red sr then
        (* case 4: left rotate at parent *)
        Ok (false, Node pc (Node Black n px sl) sx (blacken sr))
      else
        match sl with
        | Node Red sll slx slr =>
            (* case 3, right rotate at sibling, then case 4 *)
            Ok (false, Node pc (Node Black n px sll) slx (Node Black (blacken slr) sx sr))
        | _ =>
            (* case 2: colour flip; a red parent becomes black and ends it *)
            Ok (bool_decide (pc = Black), Node Black n px (Node Red sl sx sr))
        end
  end.

(** The same with [node] to the right of [parent]. *)
Definition erase_right (pc : color) (sibling : rb A) (px : A) n : outcome (bool * rb A) :=
  match sibling with
  | Leaf => Fault "sibling is null"
  | Node _ sl sx sr =>
      if is_red sl then
        Ok (false, Node pc (blacken sl) sx (Node Black sr px n))
      else
        match sr with
        | Node Red srl srx srr =>
            Ok (false, Node pc (Node Black sl sx (blacken srl)) srx (Node Black srr px n))
        | _ =>
            Ok (bool_decide (pc = Black), Node Black (Node Red sl sx sr) px n)
        end
  end.

(** [____rb_erase_color]: [n] stands at the position [k], and the paths
    through it have one black node too few.  Case 1 rotates a red sibling
    above [parent], which becomes red, so that the iteration is the last. *)
Fixpoint rb_erase_color k n : outcome (rb A) :=
  match k with
  | [] => Ok n
  | InL pc px s :: up =>
      match s with
      | Node Red sl sx sr =>
          '(_, t) ← erase_left Red n px (blacken sl);
          Ok (plug (InL pc sx sr :: up) t)
      | _ =>
          '(again, t) ← erase_left pc n px s;
          if again : bool then rb_erase_color up t else Ok (plug up t)
      end
  | InR pc s px :: up =>
      match s with
      | Node Red sl sx sr =>
          '(_, t) ← erase_right Red (blacken sr) px n;
          Ok (plug (InR pc sl sx :: up) t)
      | _ =>
          '(again, t) ← erase_right pc s px n;
          if again : bool then rb_erase_color up t else Ok (plug up t)
      end
  end.

(** The walk to the successor, the leftmost node of the right subtree:
    the frames from it up to that subtree, its colour, its payload and its
    right child. *)
Fixpoint leftmost k (c : color) l x r : list (frame A) * color * A * rb A :=
  match l with
  | Leaf => (k, c, x, r)
  | Node c' l' x' r' => leftmost (InL c x r :: k) c' l' x' r'
  end.

(** [__rb_erase_augmented(node, root, &dummy_callbacks)] for the node
    [c, l, x, r] at the position [k]: the position of the child that moved
    up, that child, and whether the paths through it lost a black node.  The
    parent at which [____rb_erase_color] starts is the first frame of the
    position; without one there is nothing to rebalance. *)
Definition rb_erase_augmented k (c : color) l x r : list (frame A) * rb A * bool :=
  match l, r with
  | Leaf, Leaf => (k, Leaf, bool_decide (c = Black))
  | Leaf, Node _ rl rx rr => (k, Node c rl rx rr, false)
  | Node _ ll lx lr, Leaf => (k, Node c ll lx lr, false)
  | Node _ _ _ _, Node rc rl rx rr =>
      let '(fs, sc, sx, child2) := leftmost [] rc rl rx rr in
      let k' := fs ++ InR c l sx :: k in
      match child2 with
      | Node _ _ _ _ => (k', blacken child2, false)
      | Leaf => (k', Leaf, bool_decide (sc = Black))
      end
  end.

(** [rb_erase(node, root)]. *)
Definition rb_erase k (c : color) l x r : outcome (rb A) :=
  let '(k', t, rebalance) := rb_erase_augmented k c l x r in
  if rebalance : bool then rb_erase_color k' t else Ok (plug k' t).

(** ** Links

    The links of the node [l, x, r] at a position, by the names of the nodes
    they point to. *)
Record links : Type := mkLinks {
  rb_left : option A;
  rb_right : option A;
  rb_parent : option A
}.

Definition payload t : option A :=
  match t with Leaf => None | Node _ _ x _ => Some x end.

Definition frame_payload (f : frame A) : A :=
  match f with InL _ x _ => x | InR _ _ x => x end.

Definition links_of k l r : links :=
  mkLinks (payload l) (payload r) (frame_payload <$> head k).

(** [rb_first(root)] and [rb_last(root)]. *)
Fixpoint rb_first t : option A :=
  match t with
  | Leaf => None
  | Node _ Leaf x _ => Some x
  | Node _ l _ _ => rb_first l
  end.

Fixpoint rb_last t : option A :=
  match t with
  | Leaf => None
  | Node _ _ x Leaf => Some x
  | Node _ _ _ r => rb_last r
  end.

(** [rb_replace_node(victim, new, root)]: the new node takes the links and
    the colour of the victim [c, l, _, r] at the position [k]. *)
Definition rb_replace_node k (c : color) l r (new : A) : rb A := plug k (Node c l new r).

(** [rb_left_deepest_node(node)] and [rb_first_postorder(root)]. *)
Fixpoint rb_left_deepest_node t : option A :=
  match t with
  | Leaf => None
  | Node _ Leaf x Leaf => Some x
  | Node _ Leaf _ r => rb_left_deepest_node r
  | Node _ l _ _ => rb_left_deepest_node l
  end.

Definition rb_first_postorder t : option A := rb_left_deepest_node t.

(** [rb_insert(root, node, cmp)]: the walk to the empty position; [None] when
    a node compares equal. *)
Section insert.
Context (cmp : A → A → Z).

Fixpoint rb_insert_pos t x k : option (list (frame A)) :=
  match t with
  | Leaf => Some k
  | Node c l y r =>
      let result := cmp x y in
      if result <? 0 then rb_insert_pos l x (InL c y r :: k)
      else if 0 <? result then rb_insert_pos r x (InR c l y :: k)
      else None
  end.

Definition EEXIST : Z := 17.

Definition rb_insert t x : outcome (Z * rb A) :=
  match rb_insert_pos t x [] with
  | None => Ok (- EEXIST, t)
  | Some k => t' ← rb_insert_color k x; Ok (0, t')
  end.
End insert.

Section walk.
Context `{EqDecision A}.

(** The node with a given name, and its position. *)
Fixpoint locate_from k t (y : A) : option (list (frame A) * rb A) :=
  match t with
  | Leaf => None
  | Node c l x r =>
      if decide (x = y) then Some (k, t)
      else match locate_from (InL c x r :: k) l y with
           | Some p => Some p
           | None => locate_from (InR c l x :: k) r y
           end
  end.
Definition locate t (y : A) : option (list (frame A) * rb A) := locate_from [] t y.

(** A read of the links of the node [y] of the tree [t]. *)
Definition links_at t (y : A) : outcome links :=
  match locate t y with
  | Some (k, Node _ l _ r) => Ok (links_of k l r)
  | _ => Fault "not a node of the tree"
  end.

(** The loops of [rb_next] and [rb_prev] towards the root. *)
Fixpoint climb_right (fuel : nat) t (node : A) (parent : option A) : outcome (option A) :=
  match parent with
  | None => Ok None
  | Some p =>
      match fuel with
      | O => NoFuel
      | S fuel =>
          lk ← links_at t p;
          if decide (rb_right lk = Some node) then climb_right fuel t p (rb_parent lk)
          else Ok (Some p)
      end
  end.

Fixpoint climb_left (fuel : nat) t (node : A) (parent : option A) : outcome (option A) :=
  match parent with
  | None => Ok None
  | Some p =>
      match fuel with
      | O => NoFuel
      | S fuel =>
          lk ← links_at t p;
          if decide (rb_left lk = Some node) then climb_left fuel t p (rb_parent lk)
          else Ok (Some p)
      end
  end.

(** [rb_next(node)] and [rb_prev(node)] with the links the node itself has;
    the other nodes are those of [t]. *)
Definition rb_next t (node : A) (lk : links) : outcome (option A) :=
  if decide (rb_parent lk = Some node) then Ok None
  else match rb_right lk with
       | Some y =>
           match locate t y with
           | Some (_, s) => Ok (rb_first s)
           | None => Fault "not a node of the tree"
           end
       | None => climb_right (length (inorder t)) t node (rb_parent lk)
       end.

Definition rb_prev t (node : A) (lk : links) : outcome (option A) :=
  if decide (rb_parent lk = Some node) then Ok None
  else match rb_left lk with
       | Some y =>
           match locate t y with
           | Some (_, s) => Ok (rb_last s)
           | None => Fault "not a node of the tree"
           end
       | None => climb_left (length (inorder t)) t node (rb_parent lk)
       end.

(** [rb_next_postorder(node)]. *)
Definition rb_next_postorder t (node : A) (lk : links) : outcome (option A) :=
  match rb_parent lk with
  | None => Ok None
  | Some p =>
      plk ← links_at t p;
      match rb_right plk with
      | Some y =>
          if decide (rb_left plk = Some node) then
            match locate t y with
            | Some (_, s) => Ok (rb_left_deepest_node s)
            | None => Fault "not a node of the tree"
            end
          else Ok (Some p)
      | None => Ok (Some p)
      end
  end.

(** The loop of [block_clear(root)]: the current node is erased before
    [rb_next] reads its links. *)
Fixpoint clear_from (fuel : nat) t (newnode : option A) : outcome (rb A) :=
  match newnode with
  | None => Ok t
  | Some x =>
      match fuel with
      | O => NoFuel
      | S fuel =>
          match locate t x with
          | Some (k, Node c l _ r) =>
              t' ← rb_erase k c l x r;
              next ← rb_next t' x (links_of k l r);
              clear_from fuel t' next
          | _ => Fault "not a node of the tree"
          end
      end
  end.
End walk.

(** ** Rebalancing *)
Hint Constructors rbt rbc : userfs.

(** What an iteration leaves at the place of [parent]: the black height of
    the other paths when the loop ends, one less when it goes on. *)
Definition mended (pc : color) (m : nat) (o : outcome (bool * rb A)) (ins : list A) : Prop :=
  ∃ b t, o = Ok (b, t) ∧ inorder t = ins
    ∧ if b : bool then pc = Black ∧ rbt Black m t
      else ∃ c, (c = pc ∨ c = Black) ∧ rbt c (if pc is Black then S m else m) t.

Ltac tree_list := simpl; rewrite ?inorder_blacken; simpl;
  repeat (rewrite <- ?app_assoc; simpl); done.

Lemma mended_node pc m t1 x t2 ins :
  rbt Black m t1 → rbt Black m t2 → inorder t1 ++ x :: inorder t2 = ins →
  mended pc m (Ok (false, Node pc t1 x t2)) ins.
Proof.
  intros H1 H2 E. eexists _, _. split; [done|]. split; [done|]. exists pc.
  split; [by left|]. destruct pc; eauto with userfs.
Qed.

Lemma mended_flip pc m t1 x t2 c1 c2 ins :
  rbt c1 m t1 → rbt c2 m t2 → inorder t1 ++ x :: inorder t2 = ins →
  mended pc (S m) (Ok (bool_decide (pc = Black), Node Black t1 x t2)) ins.
Proof.
  intros H1 H2 E. eexists _, _. split; [done|]. split; [done|].
  case_bool_decide; [eauto with userfs|]. exists Black. split; [by right|].
  destruct pc; [eauto with userfs|done].
Qed.

Lemma erase_left_ok pc m n px s :
  rbt Black m n → rbt Black (S m) s →
  mended pc (S m) (erase_left pc n px s) (inorder n ++ px :: inorder s).
Proof.
  intros Hn Hs. inversion Hs as [| |? cl cr sl sx sr Hl Hr]; subst. simpl.
  rewrite (is_red_rbt _ _ _ Hr). case_bool_decide; subst.
  { apply blacken_rbt in Hr. apply mended_node; [eauto with userfs..|tree_list]. }
  destruct cr; [done|].
  inversion Hl as [|? sll slx slr Hll Hlr|]; subst;
    [eapply mended_flip; [eauto with userfs..|tree_list]| |
     eapply mended_flip; [eauto with userfs..|tree_list]].
  rewrite (blacken_black _ _ Hlr).
  apply mended_node; [eauto with userfs..|tree_list].
Qed.

Lemma erase_right_ok pc m n px s :
  rbt Black m n → rbt Black (S m) s →
  mended pc (S m) (erase_right pc s px n) (inorder s ++ px :: inorder n).
Proof.
  intros Hn Hs. inversion Hs as [| |? cl cr sl sx sr Hl Hr]; subst. simpl.
  rewrite (is_red_rbt _ _ _ Hl). case_bool_decide; subst.
  { apply blacken_rbt in Hl. apply mended_node; [eauto with userfs..|tree_list]. }
  destruct cl; [done|].
  inversion Hr as [|? srl srx srr Hrl Hrr|]; subst;
    [eapply mended_flip; [eauto with userfs..|tree_list]| |
     eapply mended_flip; [eauto with userfs..|tree_list]].
  rewrite (blacken_black _ _ Hrl).
  apply mended_node; [eauto with userfs..|tree_list].
Qed.

(** A position below which the trees have height [m], and the colour of the
    parent: what stands at the place of the parent. *)
Definition room (pc : color) (m : nat) k : Prop :=
  match pc with Red => rbc Red m k | Black => ∃ c, rbc c (S m) k end.

Lemma room_plug pc m k t c :
  room pc m k → (c = pc ∨ c = Black) → rbt c (if pc is Black then S m else m) t →
  ∃ m', rbt Black m' (plug k t).
Proof.
  destruct pc; simpl.
  - intros Hk _ Ht. eapply plug_rbt; eauto.
  - intros [ck Hk] [-> | ->] Ht; eapply plug_rbt; eauto.
Qed.

Lemma rbc_left c m pc px s k :
  rbc c m (InL pc px s :: k) →
  room pc m k ∧ ∃ cs, rbt cs m s ∧ (cs = Red → pc = Black).
Proof. inversion 1; subst; simpl; split; eauto; eexists; split; by eauto. Qed.

Lemma rbc_right c m pc px s k :
  rbc c m (InR pc s px :: k) →
  room pc m k ∧ ∃ cs, rbt cs m s ∧ (cs = Red → pc = Black).
Proof. inversion 1; subst; simpl; split; eauto; eexists; split; by eauto. Qed.

(** The result of the loop: a red-black tree with given contents. *)
Definition balanced (o : outcome (rb A)) (ins : list A) : Prop :=
  ∃ t m, o = Ok t ∧ rbt Black m t ∧ inorder t = ins.

(** The end of an iteration that does not rotate a red sibling. *)
Lemma mended_step pc m k o ins :
  mended pc m o ins → room pc m k →
  (∀ t c, rbc c (S m) k → rbt Black m t →
     balanced (rb_erase_color k t) (before k ++ inorder t ++ after k)) →
  balanced ('(again, t) ← o; if again : bool then rb_erase_color k t else Ok (plug k t))
    (before k ++ ins ++ after k).
Proof.
  intros (b & t & -> & <- & Hb) Hk IH. simpl. destruct b.
  - destruct Hb as [-> Ht]. destruct Hk as [c Hk]. by eapply IH.
  - destruct Hb as (c & Hc & Ht). destruct (room_plug _ _ _ _ _ Hk Hc Ht) as [m' Hm].
    exists (plug k t), m'. by rewrite inorder_plug.
Qed.

(** The end of the iteration that has rotated: [parent] is red. *)
Lemma mended_last m k o ins :
  mended Red m o ins → rbc Red m k →
  balanced ('(_, t) ← o; Ok (plug k t)) (before k ++ ins ++ after k).
Proof.
  intros (b & t & -> & <- & Hb) Hk. simpl. destruct b; [by destruct Hb|].
  destruct Hb as (c & Hc & Ht). destruct (room_plug Red _ _ _ _ Hk Hc Ht) as [m' Hm].
  exists (plug k t), m'. by rewrite inorder_plug.
Qed.

Lemma balanced_eq o ins ins' : balanced o ins → ins = ins' → balanced o ins'.
Proof. by intros ? <-. Qed.

Lemma rb_erase_color_ok k : ∀ c m n,
  rbc c (S m) k → rbt Black m n →
  balanced (rb_erase_color k n) (before k ++ inorder n ++ after k).
Proof.
  induction k as [|f k IH]; intros c m n Hk Hn.
  { exists n, m. simpl. by rewrite app_nil_r. }
  destruct f as [pc px s|pc s px].
  - apply rbc_left in Hk as (Hk & cs & Hs & Hc). destruct cs.
    + inversion Hs as [|? sl sx sr Hl Hr|]; subst. rewrite (Hc eq_refl) in *.
      destruct Hk as [ck Hk]. cbn [rb_erase_color]. rewrite (blacken_black _ _ Hl).
      eapply balanced_eq; [eapply mended_last;
        [by apply erase_left_ok|eauto with userfs]|tree_list].
    + pose proof (erase_left_ok pc m n px s Hn Hs) as Hm.
      eapply balanced_eq; [eapply balanced_eq; [|reflexivity];
        inversion Hs; subst; cbn [rb_erase_color]; eapply mended_step;
        [exact Hm|exact Hk|intros; by eapply IH]|tree_list].
  - apply rbc_right in Hk as (Hk & cs & Hs & Hc). destruct cs.
    + inversion Hs as [|? sl sx sr Hl Hr|]; subst. rewrite (Hc eq_refl) in *.
      destruct Hk as [ck Hk]. cbn [rb_erase_color]. rewrite (blacken_black _ _ Hr).
      eapply balanced_eq; [eapply mended_last;
        [by apply erase_right_ok|eauto with userfs]|tree_list].
    + pose proof (erase_right_ok pc m n px s Hn Hs) as Hm.
      eapply balanced_eq; [eapply balanced_eq; [|reflexivity];
        inversion Hs; subst; cbn [rb_erase_color]; eapply mended_step;
        [exact Hm|exact Hk|intros; by eapply IH]|tree_list].
Qed.

(** The payload of a node has no part in its shape. *)
Lemma fits_payload k c l x y r : fits k (Node c l x r) → fits k (Node c l y r).
Proof.
  intros (ck & ct & m & Hk & Ht & Hc). exists ck, ct, m. split; [done|]. split; [|done].
  inversion Ht; subst; eauto with userfs.
Qed.

Lemma leftmost_ok l : ∀ fs K c x r fs' sc sx ch,
  leftmost fs c l x r = (fs', sc, sx, ch) → fits (fs ++ K) (Node c l x r) →
  fits (fs' ++ K) (Node sc Leaf sx ch) ∧ before (fs' ++ K) = before (fs ++ K)
  ∧ sx :: inorder ch ++ after (fs' ++ K) = inorder (Node c l x r) ++ after (fs ++ K).
Proof.
  induction l as [|c' l' IH x' r' _]; intros fs K c x r fs' sc sx ch; simpl.
  { intros [= <- <- <- <-] Hf. done. }
  intros E Hf. apply fits_left in Hf.
  apply (IH (InL c x r :: fs) K) in E as (H1 & H2 & H3); [|done].
  split; [done|]. split; [done|]. rewrite H3. tree_list.
Qed.

(** A node without a left child: its child is red, without children, and
    the node is black. *)
Lemma only_child c c' m x r :
  rbt c m (Node c' Leaf x r) → r = Leaf ∨ (c' = Black ∧ m = 1%nat ∧ rbt Black 1 (blacken r)).
Proof.
  inversion 1 as [|? ? ? ? Hl Hr|? cl cr ? ? ? Hl Hr]; subst; inversion Hl; subst;
    inversion Hr; subst; eauto 6 with userfs.
Qed.

(** The position of a node with at most one child, which takes its place. *)
Lemma erase_single k c x r :
  fits k (Node c Leaf x r) →
  balanced (if r is Leaf then if bool_decide (c = Black) then rb_erase_color k Leaf
                              else Ok (plug k Leaf)
            else Ok (plug k (blacken r)))
    (before k ++ inorder r ++ after k).
Proof.
  intros (ck & ct & m & Hk & Ht & Hc).
  destruct (only_child _ _ _ _ _ Ht) as [-> | (-> & -> & Hr)].
  - inversion Ht as [|? ? ? ? Hl Hr|? cl cr ? ? ? Hl Hr]; subst; inversion Hl; subst; simpl.
    + destruct Hc as [->|]; [|done].
      destruct (plug_rbt k Red Black 0 Leaf Hk) as [m' Hm]; [constructor|by left|].
      exists (plug k Leaf), m'. by rewrite inorder_plug.
    + apply (rb_erase_color_ok k ck 0 Leaf); [done|constructor].
  - destruct (plug_rbt k ck Black 1 (blacken r) Hk Hr) as [m' Hm]; [by right|].
    assert (E : balanced (Ok (plug k (blacken r))) (before k ++ inorder r ++ after k)).
    { exists (plug k (blacken r)), m'. by rewrite inorder_plug, inorder_blacken. }
    destruct r; [|done]. inversion Hr.
Qed.

Lemma fits_mirror k c l x : fits k (Node c l x Leaf) → fits k (Node c Leaf x l).
Proof.
  intros (ck & ct & m & Hk & Ht & Hc). exists ck, ct, m. split; [done|]. split; [|done].
  inversion Ht; subst; eauto with userfs.
Qed.

Lemma rb_erase_ok k c l x r :
  fits k (Node c l x r) →
  balanced (rb_erase k c l x r) (before k ++ (inorder l ++ inorder r) ++ after k).
Proof.
  intros Hf. unfold rb_erase, rb_erase_augmented.
  destruct l as [|lc ll lx lr], r as [|rc rl rx rr].
  - apply erase_single in Hf. done.
  - pose proof (erase_single _ _ _ _ Hf) as Hs.
    destruct Hf as (ck & ct & m & Hk & Ht & Hc).
    by destruct (only_child _ _ _ _ _ Ht) as [|(-> & _)].
  - apply fits_mirror in Hf. pose proof (erase_single _ _ _ _ Hf) as Hs.
    destruct Hf as (ck & ct & m & Hk & Ht & Hc). rewrite app_nil_r.
    by destruct (only_child _ _ _ _ _ Ht) as [|(-> & _)].
  - destruct (leftmost [] rc rl rx rr) as [[[fs sc] sx] ch] eqn:E.
    apply (fits_payload _ _ _ _ sx), fits_right in Hf.
    destruct (leftmost_ok _ [] _ _ _ _ _ _ _ _ E Hf) as (Hs & Hb & Ha).
    apply erase_single in Hs. eapply balanced_eq; [destruct ch; exact Hs|].
    rewrite Hb. cbn [before app]. rewrite <- !app_assoc. do 2 f_equal. exact Ha.
Qed.

(** ** Traversal *)
Lemma rb_first_ok t : rb_first t = head (inorder t).
Proof.
  induction t as [|c l IH x r _]; [done|]. simpl. destruct l; [done|].
  rewrite IH. simpl. rewrite <- app_assoc. by destruct (inorder l1).
Qed.

Lemma rb_last_ok t : rb_last t = last (inorder t).
Proof.
  induction t as [|c l _ x r IH]; [done|]. simpl. rewrite last_app_cons.
  destruct r as [|rc rl rx rr]; [done|].
  rewrite IH. simpl. by rewrite app_comm_cons, !last_app_cons.
Qed.

Fixpoint postorder t : list A :=
  match t with Leaf => [] | Node _ l x r => postorder l ++ postorder r ++ [x] end.

Fixpoint after_post k : list A :=
  match k with
  | [] => []
  | InL _ x r :: k' => postorder r ++ x :: after_post k'
  | InR _ _ x :: k' => x :: after_post k'
  end.

Lemma postorder_plug k t : ∃ pre, postorder (plug k t) = pre ++ postorder t ++ after_post k.
Proof.
  revert t. induction k as [|f k IH]; intros t; simpl.
  { exists []. by rewrite app_nil_r. }
  destruct (IH (fill f t)) as [pre ->]. destruct f as [c x r|c l x]; simpl.
  - exists pre. by rewrite <- !app_assoc.
  - exists (pre ++ postorder l). by rewrite <- !app_assoc.
Qed.

Lemma deepest_ok t : rb_left_deepest_node t = head (postorder t).
Proof.
  induction t as [|c l IHl x r IHr]; [done|]. simpl.
  destruct l as [|lc ll lx lr].
  - destruct r as [|rc rl rx rr]; [done|]. rewrite IHr. simpl.
    rewrite <- !app_assoc. destruct (postorder rl), (postorder rr); done.
  - rewrite IHl. simpl. rewrite <- !app_assoc. destruct (postorder ll), (postorder lr); done.
Qed.

Lemma payload_in t x : payload t = Some x → x ∈ inorder t.
Proof.
  destruct t; [done|]. intros [= ->]. simpl. apply elem_of_app. right. by left.
Qed.

Lemma length_position k : (length k ≤ length (before k ++ after k))%nat.
Proof.
  induction k as [|[c x r|c l x] k IH]; simpl; [lia|..];
    rewrite ?length_app in *; simpl; rewrite ?length_app; simpl; lia.
Qed.

Section walks.
Context `{EqDecision A}.

Lemma locate_absent t : ∀ k y, y ∉ inorder t → locate_from k t y = None.
Proof.
  induction t as [|c l IHl x r IHr]; intros k y Hy; [done|].
  simpl in *. apply not_elem_of_app in Hy as [Hl Hr].
  apply not_elem_of_cons in Hr as [Hx Hr].
  destruct (decide (x = y)); [done|]. by rewrite IHl, IHr.
Qed.

Lemma locate_plug_from k : ∀ K t y,
  y ∉ before k → y ∉ after k → locate_from K (plug k t) y = locate_from (k ++ K) t y.
Proof.
  induction k as [|f k IH]; intros K t y Hb Ha; [done|]. cbn [plug].
  destruct f as [c x r|c l x]; simpl in Hb, Ha.
  - apply not_elem_of_cons in Ha as [Hx Ha]. apply not_elem_of_app in Ha as [Hr Ha].
    rewrite IH by done. simpl. destruct (decide (x = y)); [done|].
    rewrite (locate_absent r) by done. by destruct (locate_from _ t y).
  - apply not_elem_of_app in Hb as [Hb Hl]. apply not_elem_of_app in Hl as [Hl Hx].
    rewrite IH by done. simpl. destruct (decide (x = y)).
    + subst. by destruct Hx; left.
    + by rewrite (locate_absent l) by done.
Qed.

(** The tree with one node singled out, all names different. *)
Definition here k (c : color) l x r : rb A := plug k (Node c l x r).

Lemma here_nodup k c l x r :
  NoDup (inorder (here k c l x r)) →
  x ∉ before k ∧ x ∉ after k ∧ x ∉ inorder l ∧ x ∉ inorder r.
Proof.
  unfold here. rewrite inorder_plug. simpl.
  intros (_ & Hb & Hn)%NoDup_app. apply NoDup_app in Hn as (Hn & Ha & _).
  apply NoDup_app in Hn as (_ & Hl & Hn). apply NoDup_cons in Hn as [Hr _].
  assert (Hx : x ∈ inorder l ++ x :: inorder r) by (apply elem_of_app; right; by left).
  repeat split; [|by apply Ha| |done].
  - intros H. apply (Hb x H). apply elem_of_app. by left.
  - intros H. apply (Hl x H). by left.
Qed.

Lemma locate_here k c l x r :
  NoDup (inorder (here k c l x r)) → locate (here k c l x r) x = Some (k, Node c l x r).
Proof.
  intros (Hb & Ha & _ & _)%here_nodup. unfold locate, here.
  rewrite locate_plug_from by done. rewrite app_nil_r. simpl. by destruct (decide (x = x)).
Qed.

Lemma links_here k c l x r :
  NoDup (inorder (here k c l x r)) → links_at (here k c l x r) x = Ok (links_of k l r).
Proof. intros H. unfold links_at. by rewrite locate_here. Qed.

(** Every name of a tree is that of a node in it. *)
Lemma locate_elem t : ∀ K y, y ∈ inorder t →
  ∃ k c l r, t = here k c l y r ∧ locate_from K t y = Some (k ++ K, Node c l y r).
Proof.
  induction t as [|c l IHl x r IHr]; intros K y Hy; [by apply elem_of_nil in Hy|].
  simpl in *. destruct (decide (x = y)) as [->|].
  { exists [], c, l, r. done. }
  destruct (decide (y ∈ inorder l)) as [Hl|Hl].
  - destruct (IHl (InL c x r :: K) y Hl) as (k & c' & l' & r' & -> & E).
    exists (k ++ [InL c x r]), c', l', r'. rewrite E. unfold here.
    split; [|by rewrite <- app_assoc].
    clear. generalize (Node c' l' y r'). induction k; intros t; simpl; [done|]. by rewrite <- IHk.
  - rewrite (locate_absent l) by done.
    assert (Hr : y ∈ inorder r) by (apply elem_of_app in Hy as [|[|]%elem_of_cons]; by subst).
    destruct (IHr (InR c l x :: K) y Hr) as (k & c' & l' & r' & -> & E).
    exists (k ++ [InR c l x]), c', l', r'. rewrite E. unfold here.
    split; [|by rewrite <- app_assoc].
    clear. generalize (Node c' l' y r'). induction k; intros t; simpl; [done|]. by rewrite <- IHk.
Qed.

Lemma climb_right_ok k : ∀ fuel c l x r,
  NoDup (inorder (here k c l x r)) → (length k ≤ fuel)%nat →
  climb_right fuel (here k c l x r) x (frame_payload <$> head k) = Ok (head (after k)).
Proof.
  induction k as [|f k IH]; intros fuel c l x r Hn Hf; [by destruct fuel|].
  destruct fuel as [|fuel]; [simpl in Hf; lia|].
  destruct f as [fc y s|fc s y]; cbn [climb_right head fmap option_fmap option_map frame_payload].
  - change (here (InL fc y s :: k) c l x r) with (here k fc (Node c l x r) y s) in *.
    rewrite links_here by done. cbn. destruct (decide (payload s = Some x)) as [E|]; [|done].
    exfalso. pose proof (here_nodup (InL fc y s :: k) c l x r Hn) as (_ & Ha & _).
    apply Ha. simpl. right. apply elem_of_app. left. by apply payload_in.
  - change (here (InR fc s y :: k) c l x r) with (here k fc s y (Node c l x r)) in *.
    rewrite links_here by done. cbn. destruct (decide (Some x = Some x)); [|done].
    apply IH; [done|simpl in Hf; lia].
Qed.

Lemma climb_left_ok k : ∀ fuel c l x r,
  NoDup (inorder (here k c l x r)) → (length k ≤ fuel)%nat →
  climb_left fuel (here k c l x r) x (frame_payload <$> head k) = Ok (last (before k)).
Proof.
  induction k as [|f k IH]; intros fuel c l x r Hn Hf; [by destruct fuel|].
  destruct fuel as [|fuel]; [simpl in Hf; lia|].
  destruct f as [fc y s|fc s y]; cbn [climb_left head fmap option_fmap option_map frame_payload].
  - change (here (InL fc y s :: k) c l x r) with (here k fc (Node c l x r) y s) in *.
    rewrite links_here by done. cbn. destruct (decide (Some x = Some x)); [|done].
    apply IH; [done|simpl in Hf; lia].
  - change (here (InR fc s y :: k) c l x r) with (here k fc s y (Node c l x r)) in *.
    rewrite links_here by done. cbn. destruct (decide (payload s = Some x)) as [E|].
    + exfalso. pose proof (here_nodup (InR fc s y :: k) c l x r Hn) as (Hb & _).
      apply Hb. simpl. apply elem_of_app. right. apply elem_of_app. left. by apply payload_in.
    + by rewrite app_assoc, last_snoc.
Qed.

Lemma not_own_parent k c l x r :
  NoDup (inorder (here k c l x r)) → frame_payload <$> head k ≠ Some x.
Proof.
  intros (Hb & Ha & _)%here_nodup E. destruct k as [|[fc y s|fc s y] k]; simplify_eq/=.
  - apply Ha. by left.
  - apply Hb. rewrite !elem_of_app. right. right. by left.
Qed.

Lemma position_fuel k c l x r : (length k ≤ length (inorder (here k c l x r)))%nat.
Proof.
  unfold here. rewrite inorder_plug, !length_app.
  pose proof (length_position k) as H. rewrite length_app in H. lia.
Qed.

(** The child of a node, singled out in turn. *)
Lemma locate_right k c l x rc rl rx rr :
  let t := here k c l x (Node rc rl rx rr) in
  NoDup (inorder t) → locate t rx = Some (InR c l x :: k, Node rc rl rx rr).
Proof. intros t Hn. exact (locate_here (InR c l x :: k) rc rl rx rr Hn). Qed.

Lemma locate_left k c lc ll lx lr x r :
  let t := here k c (Node lc ll lx lr) x r in
  NoDup (inorder t) → locate t lx = Some (InL c x r :: k, Node lc ll lx lr).
Proof. intros t Hn. exact (locate_here (InL c x r :: k) lc ll lx lr Hn). Qed.

(** [rb_next] and [rb_prev] from a node of the tree: its neighbours in the
    in-order sequence [before k ++ inorder l ++ x :: inorder r ++ after k]. *)
Lemma rb_next_ok k c l x r :
  NoDup (inorder (here k c l x r)) →
  rb_next (here k c l x r) x (links_of k l r) = Ok (head (inorder r ++ after k)).
Proof.
  intros Hn. unfold rb_next. cbn [links_of rb_parent rb_right].
  rewrite decide_False by (by eapply not_own_parent).
  destruct r as [|rc rl rx rr]; cbn [payload].
  - by rewrite climb_right_ok by (done || apply position_fuel).
  - rewrite locate_right by done. rewrite rb_first_ok. simpl.
    by destruct (inorder rl).
Qed.

Lemma rb_prev_ok k c l x r :
  NoDup (inorder (here k c l x r)) →
  rb_prev (here k c l x r) x (links_of k l r) = Ok (last (before k ++ inorder l)).
Proof.
  intros Hn. unfold rb_prev. cbn [links_of rb_parent rb_left].
  rewrite decide_False by (by eapply not_own_parent).
  destruct l as [|lc ll lx lr]; cbn [payload].
  - rewrite climb_left_ok by (done || apply position_fuel). by rewrite app_nil_r.
  - rewrite locate_left by done. rewrite rb_last_ok. simpl.
    by rewrite app_assoc, !last_app_cons.
Qed.

(** [rb_next_postorder] from a node of the tree. *)
Lemma rb_next_postorder_ok k c l x r :
  NoDup (inorder (here k c l x r)) →
  rb_next_postorder (here k c l x r) x (links_of k l r) = Ok (head (after_post k)).
Proof.
  intros Hn. unfold rb_next_postorder. cbn [links_of rb_parent].
  destruct k as [|[fc y s|fc s y] k]; [done|..]; cbn [head fmap option_fmap option_map frame_payload].
  - change (here (InL fc y s :: k) c l x r) with (here k fc (Node c l x r) y s) in *.
    rewrite links_here by done. cbn. destruct s as [|sc sl sx sr]; [done|]. cbn [payload].
    destruct (decide (Some x = Some x)); [|done]. rewrite locate_right by done.
    rewrite deepest_ok. simpl. rewrite <- !app_assoc.
    destruct (postorder sl), (postorder sr); done.
  - change (here (InR fc s y :: k) c l x r) with (here k fc s y (Node c l x r)) in *.
    rewrite links_here by done. cbn. destruct (decide (payload s = Some x)) as [E|]; [|done].
    exfalso. pose proof (here_nodup (InR fc s y :: k) c l x r Hn) as (Hb & _).
    apply Hb. simpl. apply elem_of_app. right. apply elem_of_app. left. by apply payload_in.
Qed.

(** ** Erasing while walking *)
Lemma head_singled k c l x r :
  NoDup (inorder (here k c l x r)) → head (inorder (here k c l x r)) = Some x →
  before k = [] ∧ l = Leaf.
Proof.
  intros (Hb & _ & Hl & _)%here_nodup. unfold here. rewrite inorder_plug.
  destruct (before k) as [|y b]; simpl.
  - destruct l as [|lc ll lx lr]; [done|]. intros E. exfalso. apply Hl. simpl in *.
    destruct (inorder ll); simplify_eq/=; by left.
  - intros [= ->]. exfalso. apply Hb. by left.
Qed.

(** The links an erased first node still has lead to the first node of what
    is left: to its only child, or to its parent, whose right child it never
    was. *)
Lemma rb_next_erased k c x r t :
  NoDup (inorder (here k c Leaf x r)) → fits k (Node c Leaf x r) → before k = [] →
  rb_erase k c Leaf x r = Ok t →
  rb_next t x (links_of k Leaf r) = Ok (head (inorder t)).
Proof.
  intros Hn Hf Hb Et. destruct (rb_erase_ok _ _ _ _ _ Hf) as (t' & m & Et' & _ & Hin).
  rewrite Et in Et'. injection Et' as <-. rewrite Hb in Hin. simpl in Hin.
  pose proof (here_nodup _ _ _ _ _ Hn) as (_ & Ha & _ & Hr).
  assert (Hnt : NoDup (inorder t)).
  { rewrite Hin. unfold here in Hn. rewrite inorder_plug, Hb in Hn. by apply NoDup_cons in Hn as [_ ?]. }
  unfold rb_next. cbn [links_of rb_parent rb_right].
  rewrite decide_False by (by eapply not_own_parent).
  destruct r as [|rc rl rx rr]; cbn [payload].
  - destruct k as [|[fc y s|fc s y] k]; simpl in Hb, Hin.
    + rewrite Hin. by destruct (length _).
    + assert (Hy : y ∈ inorder t) by (rewrite Hin; by left).
      destruct (locate_elem t [] y Hy) as (k' & c' & l' & r' & Ht & E).
      rewrite Hin. simpl. unfold links_at, locate. rewrite E. cbn.
      destruct (decide (payload r' = Some x)) as [Ex|]; [|done]. exfalso.
      apply payload_in in Ex. apply Ha. simpl. rewrite <- Hin, Ht. unfold here.
      rewrite inorder_plug. simpl. rewrite !elem_of_app, elem_of_cons. auto.
    + by destruct (before k), (inorder s).
  - injection Et as <-. change (plug k (Node c rl rx rr)) with (here k c rl rx rr) in *.
    rewrite locate_here by done. rewrite rb_first_ok, Hin. simpl. by destruct (inorder rl).
Qed.

Lemma fits_plug k : ∀ K t, fits K (plug k t) → fits (k ++ K) t.
Proof.
  induction k as [|f k IH]; intros K t H; [done|]. apply IH in H.
  destruct f; [by apply fits_left in H|by apply fits_right in H].
Qed.

Lemma fits_here m k c l x r : rbt Black m (here k c l x r) → fits k (Node c l x r).
Proof.
  intros H. rewrite <- (app_nil_r k). apply fits_plug. by eapply fits_root.
Qed.

Lemma clear_from_ok fuel : ∀ t m,
  rbt Black m t → NoDup (inorder t) → (length (inorder t) ≤ fuel)%nat →
  clear_from fuel t (rb_first t) = Ok Leaf.
Proof.
  induction fuel as [|fuel IH]; intros t m Ht Hn Hl.
  { destruct t as [|c l x r]; [done|]. simpl in Hl. rewrite length_app in Hl. simpl in Hl. lia. }
  rewrite rb_first_ok. destruct (head (inorder t)) as [x|] eqn:E.
  2:{ destruct t as [|c l x r]; [done|]. simpl in E. by destruct (inorder l). }
  assert (Hx : x ∈ inorder t) by (by apply head_Some_elem_of).
  destruct (locate_elem t [] x Hx) as (k & c & l & r & -> & El).
  destruct (head_singled _ _ _ _ _ Hn E) as [Hb ->].
  pose proof (fits_here _ _ _ _ _ _ Ht) as Hf.
  destruct (rb_erase_ok _ _ _ _ _ Hf) as (t' & m' & Et & Ht' & Hin).
  cbn [clear_from]. unfold locate. rewrite El, app_nil_r, Et. cbn [mbind outcome_bind].
  rewrite (rb_next_erased _ _ _ _ _ Hn Hf Hb Et). cbn. rewrite <- rb_first_ok.
  unfold here in Hn, Hl. rewrite inorder_plug, Hb in Hn, Hl. rewrite Hb in Hin. simpl in *.
  apply (IH t' m'); [done|rewrite Hin; by apply NoDup_cons in Hn as [_ ?]|rewrite Hin; lia].
Qed.

End walks.

(** ** Insertion by comparison *)
Section compared.
Context (cmp : A → A → Z) (key : A → Z).

(** [cmp] orders [x] against the names in [ys] by the key. *)
Definition compares x (ys : list A) : Prop :=
  ∀ y, y ∈ ys → (cmp x y < 0 ↔ key x < key y) ∧ (0 < cmp x y ↔ key y < key x).

Lemma rb_insert_pos_ok t : ∀ x k,
  compares x (inorder t) → StronglySorted (λ a b, key a < key b) (inorder t) →
  match rb_insert_pos cmp t x k with
  | None => ∃ y, y ∈ inorder t ∧ key y = key x
  | Some k' => ∃ pre post, inorder t = pre ++ post
      ∧ before k' = before k ++ pre ∧ after k' = post ++ after k
      ∧ Forall (λ y, key y < key x) pre ∧ Forall (λ y, key x < key y) post
      ∧ (fits k t → fits k' Leaf)
  end.
Proof.
  induction t as [|c l IHl y r IHr]; intros x k Hc Hs; simpl.
  { exists [], []. repeat split; [by rewrite app_nil_r|constructor|constructor|done]. }
  apply SS_app in Hs as (Hsl & Hs & Hlr). inversion Hs as [|? ? Hsr Hyr]; subst.
  assert (Hl : Forall (λ z, key z < key y) (inorder l)).
  { apply Forall_forall. intros z Hz. apply Hlr; [done|by left]. }
  destruct (Hc y) as [H1 H2]; [simpl; apply elem_of_app; right; by left|].
  assert (Hcl : compares x (inorder l)) by (intros z Hz; apply Hc, elem_of_app; by left).
  assert (Hcr : compares x (inorder r)).
  { intros z Hz. apply Hc, elem_of_app. right. by right. }
  destruct (Z.ltb_spec (cmp x y) 0).
  - specialize (IHl x (InL c y r :: k) Hcl Hsl). destruct (rb_insert_pos _ _ _ _) as [k'|].
    + destruct IHl as (pre & post & E & Hb & Ha & Hf1 & Hf2 & Hfit).
      exists pre, (post ++ y :: inorder r). rewrite E, Hb, Ha. simpl. rewrite <- !app_assoc.
      repeat split; [done| |intros; by eapply Hfit, fits_left].
      apply Forall_app. split; [done|]. constructor; [tauto|].
      eapply Forall_impl; [exact Hyr|]. simpl. intros. lia.
    + destruct IHl as (z & Hz & Ez). exists z. split; [|done]. apply elem_of_app. by left.
  - destruct (Z.ltb_spec 0 (cmp x y)).
    + specialize (IHr x (InR c l y :: k) Hcr Hsr). destruct (rb_insert_pos _ _ _ _) as [k'|].
      * destruct IHr as (pre & post & E & Hb & Ha & Hf1 & Hf2 & Hfit).
        exists (inorder l ++ y :: pre), post. rewrite E, Hb, Ha. simpl. rewrite <- !app_assoc. simpl.
        split_and!; [done..| |done|intros; by eapply Hfit, fits_right].
        apply Forall_app. split; [|constructor; [tauto|done]].
        eapply Forall_impl; [exact Hl|]. simpl. intros. lia.
      * destruct IHr as (z & Hz & Ez). exists z. split; [|done]. apply elem_of_app.
        right. by right.
    + exists y. split; [apply elem_of_app; right; by left|lia].
Qed.

(** [rb_insert] into a tree in increasing order of the key: -EEXIST and the
    same tree when a node has the key, otherwise the node at its place. *)
Lemma rb_insert_ok t m x :
  rbt Black m t → compares x (inorder t) →
  StronglySorted (λ a b, key a < key b) (inorder t) →
  (rb_insert cmp t x = Ok (- EEXIST, t) ∧ ∃ y, y ∈ inorder t ∧ key y = key x)
  ∨ ∃ t' m' pre post, rb_insert cmp t x = Ok (0, t') ∧ rbt Black m' t'
      ∧ inorder t = pre ++ post ∧ inorder t' = pre ++ x :: post
      ∧ StronglySorted (λ a b, key a < key b) (inorder t')
      ∧ Forall (λ y, key y ≠ key x) (inorder t).
Proof.
  intros Ht Hc Hs. pose proof (rb_insert_pos_ok t x [] Hc Hs) as H. unfold rb_insert.
  destruct (rb_insert_pos cmp t x []) as [k|]; [right|by left].
  destruct H as (pre & post & E & Hb & Ha & Hf1 & Hf2 & Hfit).
  destruct (rb_insert_color_ok k x) as (t' & m' & -> & Ht' & Hin); [by eapply Hfit, fits_root|].
  exists t', m', pre, post. simpl in Hb, Ha. rewrite app_nil_r in Ha. rewrite Hb, Ha in Hin.
  split; [done|]. split; [done|]. split; [done|]. split; [done|]. rewrite E in Hs |- *.
  apply SS_app in Hs as (Hs1 & Hs2 & H12). split.
  - rewrite Hin. apply SS_app. split; [done|]. split; [by constructor|].
    intros a b Hal [->|Hbl]%elem_of_cons; [by eapply Forall_forall in Hf1|by apply H12].
  - apply Forall_app. split; [eapply Forall_impl; [exact Hf1|]|eapply Forall_impl; [exact Hf2|]];
      simpl; intros; lia.
Qed.

End compared.

(** C27: rb_erase of any node of a red-black tree, with no, one or two
    children, ends without a fault, leaves a red-black tree whose in-order
    contents are those before without the node, and whose height is at most
    twice the black height. *)
Theorem rb_erase_balanced k c l x r :
  fits k (Node c l x r) →
  ∃ t m, rb_erase k c l x r = Ok t ∧ rbt Black m t
    ∧ inorder t = before k ++ (inorder l ++ inorder r) ++ after k
    ∧ (height t ≤ 2 * m)%nat ∧ (2 ^ m ≤ S (length (inorder t)))%nat.
Proof.
  intros Hf. destruct (rb_erase_ok k c l x r Hf) as (t & m & E & Hrb & Hin).
  exists t, m. split; [done|]. split; [done|]. split; [done|]. split; [|by eapply rbt_size].
  pose proof (rbt_height _ _ _ Hrb). simpl in *. lia.
Qed.

(** From the links of a node in a tree, [rb_next] goes to the next payload in
    order and [rb_next_postorder] to the next one in post-order. *)
Theorem rb_walk_order `{EqDecision A} k c l x r :
  NoDup (inorder (here k c l x r)) →
  let t := here k c l x r in
  inorder t = (before k ++ inorder l) ++ x :: (inorder r ++ after k)
  ∧ rb_first t = head (inorder t) ∧ rb_last t = last (inorder t)
  ∧ rb_next t x (links_of k l r) = Ok (head (inorder r ++ after k))
  ∧ rb_prev t x (links_of k l r) = Ok (last (before k ++ inorder l))
  ∧ rb_first_postorder t = head (postorder t)
  ∧ (∃ pre, postorder t = pre ++ x :: after_post k)
  ∧ rb_next_postorder t x (links_of k l r) = Ok (head (after_post k)).
Proof.
  intros Hn t. subst t. split.
  { unfold here. rewrite inorder_plug. tree_list. }
  rewrite rb_first_ok, rb_last_ok, rb_next_ok, rb_prev_ok, rb_next_postorder_ok by done.
  unfold rb_first_postorder. rewrite deepest_ok. repeat split.
  destruct (postorder_plug k (Node c l x r)) as [pre E]. unfold here.
  exists (pre ++ postorder l ++ postorder r). rewrite E. tree_list.
Qed.

End RbErase.
Arguments links : clear implicits.

(** Removal of a black leaf whose sibling is red: the tree is rotated. *)
Lemma rb_erase_balanced_witness :
  let s := Node Red (Node Black Leaf 3%nat Leaf) 4%nat (Node Black Leaf 5%nat Leaf) in
  ∃ t m, rb_erase [InL Black 2%nat s] Black Leaf 1%nat Leaf = Ok t ∧ rbt Black m t
    ∧ inorder t = [2; 3; 4; 5]%nat ∧ (height t ≤ 2 * m)%nat ∧ (2 ^ m ≤ 5)%nat.
Proof.
  intros s. destruct (rb_erase_balanced [InL Black 2%nat s] Black Leaf 1%nat Leaf)
    as (t & m & E & Hrb & Hin & Hh & Hs).
  - exists Red, Black, 1%nat. split; [|split; [repeat econstructor|by left]].
    apply (rbc_blackL 1 Red Black); repeat econstructor.
  - exists t, m. rewrite Hin in Hs. done.
Defined.

Lemma rb_walk_order_witness :
  let t := here [InL Black 2%nat (Node Black Leaf 3%nat Leaf)] Black Leaf 1%nat Leaf in
  rb_next t 1%nat (links_of [InL Black 2%nat (Node Black Leaf 3%nat Leaf)] Leaf Leaf) = Ok (Some 2%nat)
  ∧ rb_next_postorder t 1%nat (links_of [InL Black 2%nat (Node Black Leaf 3%nat Leaf)] Leaf Leaf)
    = Ok (Some 3%nat).
Proof.
  destruct (rb_walk_order [InL Black 2%nat (Node Black Leaf 3%nat Leaf)] Black Leaf 1%nat Leaf)
    as (_ & _ & _ & H1 & _ & _ & _ & H2); [|done].
  apply (bool_decide_unpack _). vm_compute. exact I.
Defined.
