(* ===== verification/BlkTree.v ===== *)
(** * BlkTree: the per-file block index of [ds/blktree.h]

    Every file has a red-black tree of [struct block_node]s that maps file
    offsets to device blocks.  Nodes are allocated with [malloc] and found
    and updated through pointers, so the model keeps a store of nodes beside
    the tree: the tree holds addresses, [block_search] returns an address,
    and an update through it is an update of the store. *)
From Stdlib Require Import ZArith Lia Sorted.
From stdpp Require Import base numbers list gmap strings.
From S2P Require Import Prelude Util RbTree.

(** [struct block_node] without its link: file offset and size in bytes,
    device, and address in 4 KiB blocks. *)
Record block_node : Type := mkNode {
  fileoff : Z;
  size : Z;
  devid : Z;
  addr : Z
}.
#[export] Instance block_node_inhabited : Inhabited block_node := populate (mkNode 0 0 0 0).
#[export] Instance block_node_eq_dec : EqDecision block_node.
Proof. solve_decision. Defined.

(** The tree of one file ([inode->blktree]), the nodes allocated for it and
    the next address [malloc] returns. *)
Record blktree : Type := mkTree {
  root : rb nat;
  nodes : gmap nat block_node;
  next : nat
}.

Definition RB_ROOT : blktree := mkTree Leaf ∅ 0.

(** [malloc] of a node and the stores into its fields. *)
Definition node_alloc (b : block_node) (t : blktree) : nat * blktree :=
  (next t, mkTree (root t) (<[next t := b]> (nodes t)) (S (next t))).

(** A store through the pointer [i]. *)
Definition node_set (i : nat) (b : block_node) (t : blktree) : blktree :=
  mkTree (root t) (<[i := b]> (nodes t)) (next t).

Definition node_at (t : blktree) (i : nat) : block_node := nodes t !!! i.

Definition set_size (z : Z) (b : block_node) : block_node :=
  mkNode (fileoff b) z (devid b) (addr b).

(** [fileoffcmp] and [nodecmp]; the end of the extent is computed in 64 bits. *)
Definition fileoffcmp (offset foff sz : Z) : Z :=
  if offset <? foff then -1
  else if u64 (foff + sz) <=? offset then 1 else 0.

Definition nodecmp (offset foff sz : Z) : Z :=
  if offset <? foff then -1
  else if u64 (foff + sz) <? offset then 1 else 0.

(** [block_search(root, offset)]. *)
Fixpoint search_from (h : gmap nat block_node) (t : rb nat) (offset : Z) : option nat :=
  match t with
  | Leaf => None
  | Node _ l i r =>
      let result := fileoffcmp offset (fileoff (h !!! i)) (size (h !!! i)) in
      if result <? 0 then search_from h l offset
      else if 0 <? result then search_from h r offset
      else Some i
  end.
Definition block_search (t : blktree) (offset : Z) : option nat :=
  search_from (nodes t) (root t) offset.

(** First loop of [block_insert]: the node that covers or touches the offset
    of the new one and is contiguous with it on the same device. *)
Fixpoint merge_target (h : gmap nat block_node) (t : rb nat) (b : block_node) : option nat :=
  match t with
  | Leaf => None
  | Node _ l i r =>
      let this := h !!! i in
      let result := nodecmp (fileoff b) (fileoff this) (size this) in
      if result <? 0 then merge_target h l b
      else if 0 <? result then merge_target h r b
      else if (devid this =? devid b)
              && (shl64 (u64 (addr b - addr this)) 12 =? size this)
           then Some i else None
  end.

(** Second loop: the empty position for the file offset, [None] when a node
    with this offset is in the tree. *)
Fixpoint insert_pos (h : gmap nat block_node) (t : rb nat) (off : Z)
    (k : list (frame nat)) : option (list (frame nat)) :=
  match t with
  | Leaf => Some k
  | Node c l i r =>
      if off <? fileoff (h !!! i) then insert_pos h l off (InL c i r :: k)
      else if fileoff (h !!! i) <? off then insert_pos h r off (InR c l i :: k)
      else None
  end.

(** [block_insert(root, block)], with [block] at address [i]: the return
    value and the tree. *)
Definition block_insert (t : blktree) (i : nat) : outcome (Z * blktree) :=
  let b := node_at t i in
  match merge_target (nodes t) (root t) b with
  | Some j =>
      let this := node_at t j in
      Ok (0, node_set j (set_size (u64 (fileoff b + size b - fileoff this)) this) t)
  | None =>
      match insert_pos (nodes t) (root t) (fileoff b) [] with
      | None => Ok (0, t)
      | Some k =>
          match rb_insert_color k i with
          | Ok r => Ok (1, mkTree r (nodes t) (next t))
          | Panic w => Panic w | Fault w => Fault w | NoFuel => NoFuel
          end
      end
  end.

(** Allocation followed by insertion, as every caller does it. *)
Definition block_add (b : block_node) (t : blktree) : outcome (Z * blktree) :=
  let '(i, t') := node_alloc b t in block_insert t' i.

(** ** Specification: translation of file offsets *)

(** The device and byte address of a file offset. *)
Definition translate (b : block_node) (off : Z) : Z * Z :=
  (devid b, addr b * 4096 + (off - fileoff b)).

Definition xlate (t : blktree) (off : Z) : option (Z * Z) :=
  (λ i, translate (node_at t i) off) <$> block_search t off.

Definition covers (b : block_node) (off : Z) : Prop :=
  fileoff b ≤ off < fileoff b + size b.
#[export] Instance covers_dec b off : Decision (covers b off).
Proof. unfold covers. apply _. Defined.

(** Extents are non-empty, end below 2^63 and their device addresses fit in
    the 62 bits an address has in the on-disk tree. *)
Definition node_ok (b : block_node) : Prop :=
  0 ≤ fileoff b ∧ 0 < size b ∧ fileoff b + size b < 2 ^ 63
  ∧ (0 ≤ addr b ∧ addr b * 4096 + size b ≤ 2 ^ 62).

Definition disjoint (a b : block_node) : Prop :=
  fileoff a + size a ≤ fileoff b ∨ fileoff b + size b ≤ fileoff a.

Definition precedes (h : gmap nat block_node) (i j : nat) : Prop :=
  fileoff (h !!! i) + size (h !!! i) ≤ fileoff (h !!! j).

(** The invariant: a red-black tree of valid extents in increasing order,
    without overlap, over allocated addresses. *)
Record tree_wf (t : blktree) : Prop := {
  wf_rb : ∃ m, rbt Black m (root t);
  wf_nodes : Forall (λ i, node_ok (node_at t i)) (inorder (root t));
  wf_order : StronglySorted (precedes (nodes t)) (inorder (root t));
  wf_alloc : Forall (λ i, (i < next t)%nat) (inorder (root t))
}.

(** ** Lemmas *)
Lemma fileoffcmp_covers b off :
  node_ok b →
  (fileoffcmp off (fileoff b) (size b) <? 0) = (off <? fileoff b) ∧
  (0 <? fileoffcmp off (fileoff b) (size b)) = (fileoff b + size b <=? off) ∧
  (fileoffcmp off (fileoff b) (size b) = 0 ↔ covers b off).
Proof.
  intros (? & ? & ? & _). unfold fileoffcmp, covers. rewrite u64_small by lia.
  destruct (Z.ltb_spec off (fileoff b)), (Z.leb_spec (fileoff b + size b) off);
    repeat split; simpl; try lia; try done.
Qed.

(** [block_search] in an ordered tree: it finds the one node that covers the
    offset. *)
Lemma search_from_spec h t off :
  Forall (λ i, node_ok (h !!! i)) (inorder t) →
  StronglySorted (precedes h) (inorder t) →
  ∀ i, search_from h t off = Some i ↔ i ∈ inorder t ∧ covers (h !!! i) off.
Proof.
  induction t as [|c l IHl x r IHr]; simpl; intros Hok Hs i.
  { split; [done|]. intros [Hi _]. by apply elem_of_nil in Hi. }
  apply Forall_app in Hok as [Hokl Hok]. apply Forall_cons in Hok as [Hx Hokr].
  apply SS_app in Hs as (Hsl & Hs & Hlr). inversion Hs as [|? ? Hsr Hxr]; subst.
  specialize (IHl Hokl Hsl i). specialize (IHr Hokr Hsr i).
  pose proof (fileoffcmp_covers (h !!! x) off Hx) as (E1 & E2 & E3).
  assert (Hl : ∀ j, j ∈ inorder l → precedes h j x)
    by (intros j Hj; apply Hlr; [done|by left]).
  assert (Hr : ∀ j, j ∈ inorder r → precedes h x j)
    by (intros j Hj; by eapply Forall_forall in Hxr).
  rewrite E1, E2, elem_of_app, elem_of_cons. unfold covers, precedes in *.
  destruct Hx as (? & ? & ? & ?).
  assert (Hneg : ∀ j, j ∈ inorder l ++ inorder r → 0 < size (h !!! j)).
  { intros j Hj. assert (node_ok (h !!! j)) as (? & ? & ?); [|done].
    apply elem_of_app in Hj as [Hj|Hj]; [by eapply Forall_forall in Hokl|].
    by eapply Forall_forall in Hokr. }
  repeat case_if.
  - rewrite IHl. split; [by intros []; auto|]. intros [[Hi|[->|Hi]] Hc]; [done|lia|].
    pose proof (Hr i Hi). lia.
  - rewrite IHr. split; [by intros []; auto|]. intros [[Hi|[->|Hi]] Hc]; [|lia|done].
    pose proof (Hl i Hi). lia.
  - split; [intros [= ->]; split; [by auto|lia]|].
    intros [[Hi|[->|Hi]] Hc]; [|done|].
    + pose proof (Hl i Hi). lia.
    + pose proof (Hr i Hi). lia.
Qed.

Lemma block_search_spec t off i :
  tree_wf t →
  block_search t off = Some i ↔ i ∈ inorder (root t) ∧ covers (node_at t i) off.
Proof. intros [_ Hok Hs _]. by apply search_from_spec. Qed.

Lemma xlate_spec t off v :
  tree_wf t →
  xlate t off = Some v ↔
  ∃ i, i ∈ inorder (root t) ∧ covers (node_at t i) off ∧ v = translate (node_at t i) off.
Proof.
  intros Hwf. unfold xlate. rewrite fmap_Some. split.
  - intros (i & Hi & ->). apply block_search_spec in Hi as [? ?]; eauto.
  - intros (i & Hi & Hc & ->). exists i. split; [|done]. by apply block_search_spec.
Qed.

Lemma merge_target_spec h t b j :
  merge_target h t b = Some j →
  j ∈ inorder t ∧ nodecmp (fileoff b) (fileoff (h !!! j)) (size (h !!! j)) = 0
  ∧ devid (h !!! j) = devid b
  ∧ shl64 (u64 (addr b - addr (h !!! j))) 12 = size (h !!! j).
Proof.
  induction t as [|c l IHl x r IHr]; simpl; [done|].
  rewrite elem_of_app, elem_of_cons.
  destruct (nodecmp _ _ _ <? 0) eqn:E1; [intros (? & ?)%IHl; auto|].
  destruct (0 <? nodecmp _ _ _) eqn:E2; [intros (? & ?)%IHr; auto|].
  case_if; [|done]. intros [= ->]. repeat split; auto; lia.
Qed.

Lemma insert_pos_spec h t off k :
  fits k t → Forall (λ i, fileoff (h !!! i) < off) (before k) →
  Forall (λ i, off < fileoff (h !!! i)) (after k) →
  StronglySorted (λ i j, fileoff (h !!! i) < fileoff (h !!! j)) (inorder t) →
  match insert_pos h t off k with
  | Some k' => fits k' Leaf ∧ before k' ++ after k' = before k ++ inorder t ++ after k
      ∧ Forall (λ i, fileoff (h !!! i) < off) (before k')
      ∧ Forall (λ i, off < fileoff (h !!! i)) (after k')
  | None => ∃ i, i ∈ inorder t ∧ fileoff (h !!! i) = off
  end.
Proof.
  revert k. induction t as [|c l IHl x r IHr]; intros k Hf Hb Ha Hs; simpl; [done|].
  apply SS_app in Hs as (Hsl & Hs & Hlr). inversion Hs as [|? ? Hsr Hxr]; subst.
  repeat case_if.
  - assert (Ha' : Forall (λ i, off < fileoff (h !!! i)) (after (InL c x r :: k))).
    { constructor; [done|]. apply Forall_app. split; [|done].
      eapply Forall_impl; [exact Hxr|]. simpl. lia. }
    specialize (IHl (InL c x r :: k) (fits_left _ _ _ _ _ Hf) Hb Ha' Hsl).
    destruct (insert_pos _ l _ _).
    + destruct IHl as (? & Eq & ? & ?). split; [done|]. rewrite Eq. simpl.
      by rewrite <- app_assoc.
    + destruct IHl as (i & Hi & ?). exists i. rewrite elem_of_app. auto.
  - assert (Hb' : Forall (λ i, fileoff (h !!! i) < off) (before (InR c l x :: k))).
    { simpl. rewrite !Forall_app, Forall_singleton. split; [done|]. split; [|done].
      apply Forall_forall. intros j Hj. assert (fileoff (h !!! j) < fileoff (h !!! x)); [|lia].
      apply Hlr; [done|by left]. }
    specialize (IHr (InR c l x :: k) (fits_right _ _ _ _ _ Hf) Hb' Ha Hsr).
    destruct (insert_pos _ r _ _).
    + destruct IHr as (? & Eq & ? & ?). split; [done|]. rewrite Eq. simpl.
      by rewrite <- !app_assoc.
    + destruct IHr as (i & Hi & ?). exists i. rewrite elem_of_app, elem_of_cons. auto.
  - exists x. rewrite elem_of_app, elem_of_cons. split; [auto|lia].
Qed.

(** Addresses in the same 2^50-block window: the 64-bit distance test of
    [block_insert] is exact. *)
Lemma contiguous_exact a b s :
  0 ≤ a < 2 ^ 50 → 0 ≤ b < 2 ^ 50 → 0 < s < 2 ^ 63 →
  shl64 (u64 (b - a)) 12 = s → (b - a) * 4096 = s.
Proof.
  intros Ha Hb Hs. rewrite shl64_mul by lia. change (2 ^ 12) with 4096.
  destruct (decide (a ≤ b)).
  - rewrite (u64_small (b - a)) by lia. rewrite u64_small by lia. lia.
  - replace (u64 (b - a)) with (2 ^ 64 + (b - a)).
    + unfold u64. replace ((2 ^ 64 + (b - a)) * 4096) with ((b - a) * 4096 + 4096 * 2 ^ 64) by lia.
      rewrite Z.mod_add by lia. intros E.
      rewrite <- (Z.mod_add _ 1) in E by lia. rewrite Z.mod_small in E by lia. lia.
    + unfold u64. rewrite <- (Z.mod_add _ 1) by lia. rewrite Z.mod_small by lia. lia.
Qed.

Lemma nodecmp_touch b j :
  node_ok j → nodecmp (fileoff b) (fileoff j) (size j) = 0 →
  fileoff j ≤ fileoff b ≤ fileoff j + size j.
Proof.
  intros (? & ? & ? & _). unfold nodecmp. rewrite u64_small by lia.
  repeat case_if; lia.
Qed.

(** The translation of a tree whose nodes are the old ones with one extent
    changed or added. *)
Definition extends (t t' : blktree) (b : block_node) : Prop :=
  ∀ off, xlate t' off = if decide (covers b off) then Some (translate b off) else xlate t off.

Lemma node_alloc_wf b t :
  tree_wf t → tree_wf (node_alloc b t).2 ∧ ∀ off, xlate (node_alloc b t).2 off = xlate t off.
Proof.
  intros [Hrb Hok Hs Ha]. unfold node_alloc. simpl.
  assert (Hne : ∀ i, i ∈ inorder (root t) → (<[next t := b]> (nodes t)) !!! i = nodes t !!! i).
  { intros i Hi. eapply Forall_forall in Ha; [|done]. simpl in Ha.
    apply lookup_total_insert_ne. lia. }
  assert (Hwf : tree_wf (mkTree (root t) (<[next t := b]> (nodes t)) (S (next t)))).
  { split; simpl; [done| | |].
    - apply Forall_forall. intros i Hi. unfold node_at. simpl. rewrite Hne by done.
      by eapply Forall_forall in Hok.
    - clear -Hs Hne. induction Hs as [|x l Hl IH Hx]; constructor.
      + apply IH. intros. apply Hne. by right.
      + apply Forall_forall. intros y Hy. unfold precedes.
        rewrite !Hne by (by left || by right). by eapply Forall_forall in Hx.
    - eapply Forall_impl; [exact Ha|]. simpl. lia. }
  split; [done|]. intros off. apply option_eq. intros v. rewrite !xlate_spec by (done || by split).
  unfold node_at. simpl. split; intros (i & Hi & ? & ?); exists i; rewrite Hne in * by done; eauto.
Qed.

Lemma SS_impl_in {A} (R R' : A → A → Prop) l :
  StronglySorted R l → (∀ x y, x ∈ l → y ∈ l → R x y → R' x y) → StronglySorted R' l.
Proof.
  induction 1 as [|x l Hl IH Hx]; intros Hi; constructor.
  - apply IH. intros y z ? ?. apply Hi; by right.
  - apply Forall_forall. intros y Hy. apply Hi; [by left|by right|].
    by eapply Forall_forall in Hx.
Qed.

(** An extent that no node of the tree overlaps. *)
Definition apart (t : blktree) (b : block_node) : Prop :=
  ∀ j, j ∈ inorder (root t) → disjoint (node_at t j) b.

Lemma apart_xlate t b off :
  tree_wf t → apart t b → covers b off → xlate t off = None.
Proof.
  intros Hwf Hd Hc. apply eq_None_not_Some. intros [v (i & Hi & Hci & _)%xlate_spec]; [|done].
  destruct (Hd i Hi); unfold covers in *; lia.
Qed.

(** Merging the new extent into the node it is contiguous with. *)
Lemma merge_wf t j b :
  tree_wf t → node_ok b → apart t b → j ∈ inorder (root t) →
  fileoff b = fileoff (node_at t j) + size (node_at t j) →
  devid (node_at t j) = devid b → (addr b - addr (node_at t j)) * 4096 = size (node_at t j) →
  let t' := node_set j (set_size (u64 (fileoff b + size b - fileoff (node_at t j))) (node_at t j)) t in
  tree_wf t' ∧ extends t t' b.
Proof.
  intros Hwf Hb Hd Hj Hoff Hdev Haddr t'.
  pose proof Hwf as [Hrb Hok Hs Ha].
  assert (Hokj : node_ok (node_at t j)) by (by eapply Forall_forall in Hok).
  assert (Hsz : u64 (fileoff b + size b - fileoff (node_at t j))
                = size (node_at t j) + size b).
  { destruct Hokj as (?&?&?&?), Hb as (?&?&?&?). rewrite u64_small; lia. }
  assert (Hat : ∀ i, node_at t' i = if decide (i = j)
      then set_size (size (node_at t j) + size b) (node_at t j) else node_at t i).
  { intros i. unfold t'. rewrite Hsz. unfold node_set, node_at at 1. simpl. case_decide.
    - subst. by apply lookup_total_insert_eq.
    - by apply lookup_total_insert_ne. }
  assert (Hwf' : tree_wf t').
  { split; [done| | |done].
    - apply Forall_forall. intros i Hi. rewrite Hat. case_decide; [|by eapply Forall_forall in Hok].
      destruct Hokj as (?&?&?&?), Hb as (?&?&?&?). unfold node_ok, set_size; simpl. lia.
    - eapply SS_impl_in; [exact Hs|]. intros x y Hx Hy.
      change (nodes t' !!! ?z) with (node_at t' z). unfold precedes.
      change (nodes t' !!! ?z) with (node_at t' z). change (nodes t !!! ?z) with (node_at t z).
      rewrite !Hat. pose proof (Hd y Hy) as Hdy.
      assert (Hoky : node_ok (node_at t y)) by (by eapply Forall_forall in Hok).
      unfold disjoint in Hdy. destruct Hokj as (?&?&?&?), Hb as (?&?&?&?), Hoky as (?&?&?&?).
      repeat case_decide; subst; simpl; lia. }
  split; [done|]. intros off. case_decide as Hc.
  - apply xlate_spec; [done|]. exists j. split; [done|]. rewrite Hat, decide_True by done.
    destruct Hokj as (?&?&?&?). unfold covers, translate in *; simpl.
    split; [lia|]. apply pair_eq; split; [done|lia].
  - destruct Hb as (?&?&?&?). apply option_eq. intros v. rewrite !xlate_spec by done.
    split; intros (i & Hi & Hci & ->); exists i; (split; [done|]); revert Hci;
      rewrite !Hat; case_decide; subst; unfold covers, translate in *; simpl; try done;
      intros; (split; [lia|done]).
Qed.

(** Linking the new extent between its neighbours. *)
Lemma link_wf t i k r m :
  tree_wf t → node_ok (node_at t i) → apart t (node_at t i) → (i < next t)%nat →
  before k ++ after k = inorder (root t) →
  Forall (λ x, fileoff (node_at t x) < fileoff (node_at t i)) (before k) →
  Forall (λ x, fileoff (node_at t i) < fileoff (node_at t x)) (after k) →
  rbt Black m r → inorder r = before k ++ i :: after k →
  tree_wf (mkTree r (nodes t) (next t)) ∧
  extends t (mkTree r (nodes t) (next t)) (node_at t i).
Proof.
  intros Hwf Hb Hd Hi Hk Hbe Haf Hr Hin.
  pose proof Hwf as [Hrb Hok Hs Ha]. set (t' := mkTree r (nodes t) (next t)).
  assert (Hmem : ∀ x, x ∈ inorder r ↔ x = i ∨ x ∈ inorder (root t)).
  { intros x. rewrite Hin, <- Hk, !elem_of_app, elem_of_cons. tauto. }
  assert (Hwf' : tree_wf t').
  { split; simpl; [by exists m| | |].
    - apply Forall_forall. intros x [->|Hx]%Hmem; [done|]. by eapply Forall_forall in Hok.
    - rewrite <- Hk in Hs. apply SS_app in Hs as (Hs1 & Hs2 & H12).
      rewrite Hin. apply SS_app. split; [done|]. split.
      + constructor; [done|]. apply Forall_forall. intros y Hy.
        assert (y ∈ inorder (root t)) as Hyt by (rewrite <- Hk; apply elem_of_app; by right).
        eapply Forall_forall in Haf; [|done]. simpl in Haf.
        destruct (Hd y Hyt) as [H|H]; [|exact H]. eapply Forall_forall in Hok; [|done].
        destruct Hok as (?&?&?&?). unfold precedes, node_at in *. lia.
      + intros x y Hx [->|Hy]%elem_of_cons; [|by apply H12].
        assert (x ∈ inorder (root t)) as Hxt by (rewrite <- Hk; apply elem_of_app; by left).
        eapply Forall_forall in Hbe; [|done]. simpl in Hbe.
        destruct (Hd x Hxt) as [H|H]; [exact H|].
        destruct Hb as (?&?&?&?). unfold precedes, node_at in *. lia.
    - apply Forall_forall. intros x [->|Hx]%Hmem; [done|]. by eapply Forall_forall in Ha. }
  split; [done|]. intros off. case_decide as Hc.
  - apply xlate_spec; [done|]. exists i. split; [by apply Hmem; left|]. by split.
  - apply option_eq. intros v. rewrite !xlate_spec by done. unfold node_at; simpl.
    split; intros (x & Hx & Hcx & ->); exists x; (split; [|done]).
    + apply Hmem in Hx as [->|Hx]; [by destruct Hc|done].
    + by apply Hmem; right.
Qed.

(** The link step of [block_insert] on an extent that overlaps no node. *)
Lemma link_ok t i b :
  tree_wf t → node_at t i = b → node_ok b → apart t b → (i < next t)%nat →
  ∃ k r, insert_pos (nodes t) (root t) (fileoff b) [] = Some k
    ∧ rb_insert_color k i = Ok r
    ∧ tree_wf (mkTree r (nodes t) (next t))
    ∧ extends t (mkTree r (nodes t) (next t)) b
    ∧ (∀ x, x ∈ inorder r ↔ x = i ∨ x ∈ inorder (root t)).
Proof.
  intros Hwf <- Hb Hd Hi. pose proof Hwf as [[m Hm] Hok Hs _].
  pose proof (insert_pos_spec (nodes t) (root t) (fileoff (node_at t i)) []
    (fits_root _ _ Hm) (Forall_nil_2 _) (Forall_nil_2 _)) as Hp.
  assert (Hs' : StronglySorted (λ x y, fileoff (nodes t !!! x) < fileoff (nodes t !!! y))
                  (inorder (root t))).
  { eapply SS_impl_in; [exact Hs|]. intros x y Hx _. eapply Forall_forall in Hok; [|done].
    destruct Hok as (?&?&?&?). unfold precedes, node_at in *. lia. }
  specialize (Hp Hs'). destruct (insert_pos _ _ _ _) as [k|].
  - destruct Hp as (Hf & Hk & Hbe & Haf). simpl in Hk. rewrite app_nil_r in Hk.
    destruct (rb_insert_color_ok k i Hf) as (r & m' & Hr & Hrb & Hin).
    exists k, r. split; [done|]. split; [done|].
    destruct (link_wf t i k r m') as [? ?]; try done.
    split; [done|]. split; [done|]. intros x. rewrite <- Hk, Hin, !elem_of_app, elem_of_cons.
    tauto.
  - destruct Hp as (x & Hx & Hxo). eapply Forall_forall in Hok; [|done].
    destruct (Hd x Hx), Hok as (?&?&?&?), Hb as (?&?&?&?); unfold node_at in *; lia.
Qed.

(** [block_insert] of an extent that overlaps no node: it succeeds, keeps the
    invariant and adds exactly the translation of the new extent, whether it
    merges the extent into a neighbour or links a node. *)
Lemma block_insert_ok t i :
  tree_wf t → node_ok (node_at t i) → apart t (node_at t i) → (i < next t)%nat →
  ∃ r t', block_insert t i = Ok (r, t') ∧ tree_wf t' ∧ extends t t' (node_at t i).
Proof.
  intros Hwf Hb Hd Hi. unfold block_insert.
  destruct (merge_target _ _ _) as [j|] eqn:Em.
  - apply merge_target_spec in Em as (Hj & Hcmp & Hdev & Haddr).
    assert (Hokj : node_ok (node_at t j)) by (destruct Hwf as [_ Hok _ _]; by eapply Forall_forall in Hok).
    apply nodecmp_touch in Hcmp; [|done]. change (nodes t !!! j) with (node_at t j) in *.
    eexists _, _. split; [done|]. apply merge_wf; try done.
    + destruct (Hd j Hj), Hokj as (?&?&?&?), Hb as (?&?&?&?); lia.
    + destruct Hokj as (?&?&?&?), Hb as (?&?&?&?). apply contiguous_exact; lia.
  - destruct (link_ok t i _ Hwf eq_refl Hb Hd Hi) as (k & r & -> & -> & ? & ? & _).
    eauto.
Qed.

Lemma block_add_ok t b :
  tree_wf t → node_ok b → apart t b →
  ∃ r t', block_add b t = Ok (r, t') ∧ tree_wf t' ∧ extends t t' b.
Proof.
  intros Hwf Hb Hd. unfold block_add. pose proof (node_alloc_wf b t Hwf) as [Hwf1 Hx].
  destruct (node_alloc b t) as [i t1] eqn:Ea. unfold node_alloc in Ea. simplify_eq. simpl in *.
  set (t1 := mkTree _ _ _) in *.
  assert (Hb1 : node_at t1 (next t) = b) by (unfold node_at, t1; simpl; apply lookup_total_insert_eq).
  destruct (block_insert_ok t1 (next t)) as (r & t' & -> & Hwf' & Hext).
  - done.
  - by rewrite Hb1.
  - rewrite Hb1. intros j Hj. unfold node_at, t1 in *; simpl in *.
    destruct Hwf as [_ _ _ Ha]. eapply Forall_forall in Ha; [|done]. simpl in Ha.
    rewrite lookup_total_insert_ne by lia. by apply Hd.
  - simpl. lia.
  - exists r, t'. split; [done|]. split; [done|]. intros off. rewrite <- Hx. by rewrite Hext, Hb1.
Qed.

(** Extents of whole blocks on one of the four devices. *)
Definition whole_blocks (b : block_node) : Prop :=
  fileoff b mod 4096 = 0 ∧ size b mod 4096 = 0 ∧ 1 ≤ devid b ≤ 4.
Definition blocks_tree (t : blktree) : Prop :=
  Forall (λ i, whole_blocks (node_at t i)) (inorder (root t)).

(** Insertion keeps whole blocks whole. *)
Lemma block_add_blocks t b r t' :
  tree_wf t → node_ok b → apart t b → blocks_tree t → whole_blocks b →
  block_add b t = Ok (r, t') → blocks_tree t'.
Proof.
  intros Hwf Hb Hd Hbt Hw. unfold block_add. pose proof (node_alloc_wf b t Hwf) as [Hwf1 _].
  destruct (node_alloc b t) as [i t1] eqn:Ea. unfold node_alloc in Ea. simplify_eq. simpl in *.
  set (t1 := mkTree _ _ _) in *.
  assert (Hb1 : node_at t1 (next t) = b) by (unfold node_at, t1; simpl; apply lookup_total_insert_eq).
  assert (Hold : ∀ j, j ∈ inorder (root t) → node_at t1 j = node_at t j).
  { intros j Hj. destruct Hwf as [_ _ _ Ha]. eapply Forall_forall in Ha; [|done].
    unfold node_at, t1; simpl in *. by rewrite lookup_total_insert_ne by lia. }
  assert (Hw1 : ∀ j, j = next t ∨ j ∈ inorder (root t) → whole_blocks (node_at t1 j)).
  { intros j [->|Hj]; [by rewrite Hb1|]. rewrite Hold by done. by eapply Forall_forall in Hbt. }
  unfold block_insert. rewrite Hb1. destruct (merge_target _ _ _) as [j|] eqn:Em.
  - intros [= <- <-]. apply merge_target_spec in Em as (Hj & _). apply Forall_forall. intros x Hx.
    simpl in Hx. unfold node_at, node_set; simpl. destruct (decide (x = j)) as [->|].
    + rewrite lookup_total_insert_eq. destruct (Hw1 j) as (V1 & _ & V3); [by right|].
      split; [done|]. split; [|done]. unfold set_size; simpl. unfold u64.
      destruct Hw as (W1 & W2 & _). rewrite Z.mod_mod_divide by (by exists (2 ^ 52)).
      change (<[next t:=b]> (nodes t) !!! j) with (node_at t1 j). by rewrite Zminus_mod, Z.add_mod, W1, W2, V1 by lia.
    + rewrite lookup_total_insert_ne by done. apply (Hw1 x). by right.
  - destruct (link_ok t1 (next t) b) as (k & r' & -> & -> & _ & _ & Hin); [done|done|done|..].
    { intros j Hj. rewrite Hold by done. by apply Hd. }
    { simpl. lia. }
    intros [= <- <-]. apply Forall_forall. intros x Hx. simpl in Hx. apply Hin in Hx. by apply Hw1.
Qed.

(** ** The index as a map from offsets to device addresses *)

(** A file of 8 KiB at block 100 of device 1. *)
Definition demo_tree : blktree :=
  mkTree (Node Black Leaf 0%nat Leaf) {[0%nat := mkNode 0 8192 1 100]} 1.

Lemma demo_tree_wf : tree_wf demo_tree.
Proof.
  split.
  - exists 1%nat. by apply (rbt_black 0 Black Black); constructor.
  - repeat constructor; vm_compute; done.
  - repeat constructor.
  - repeat constructor.
Qed.

(** C25: In a well-formed index block_search finds a node exactly when one
    covers the offset, and the translation of an offset is the one of the
    node that covers it. *)
Theorem block_search_correct t off :
  tree_wf t →
  (∀ i, block_search t off = Some i ↔ i ∈ inorder (root t) ∧ covers (node_at t i) off)
  ∧ (∀ v, xlate t off = Some v ↔
      ∃ i, i ∈ inorder (root t) ∧ covers (node_at t i) off ∧ v = translate (node_at t i) off).
Proof.
  intros Hwf. split; [intros i; by apply block_search_spec|intros v; by apply xlate_spec].
Qed.

Lemma block_search_correct_witness :
  covers (mkNode 0 8192 1 100) 5000 ∧ xlate demo_tree 5000 = Some (1, 414600).
Proof.
  destruct (block_search_correct demo_tree 5000 demo_tree_wf) as [H1 H2].
  split; [apply (H1 0%nat); reflexivity|].
  apply H2. exists 0%nat. split; [by left|]. split; [vm_compute; done|reflexivity].
Defined.

(** C17: Inserting an extent that overlaps no node of a well-formed index
    succeeds, keeps the red-black and ordering invariant, and adds exactly
    the translation of the new extent, whether the extent is merged into a
    neighbour or linked as a node. *)
Theorem block_insert_extends t b :
  tree_wf t → node_ok b → apart t b →
  ∃ r t', block_add b t = Ok (r, t') ∧ tree_wf t'
    ∧ ∀ off, xlate t' off = if decide (covers b off) then Some (translate b off) else xlate t off.
Proof. apply block_add_ok. Qed.

(** An extent that is contiguous with the node of [demo_tree] and merged. *)
Lemma block_insert_extends_witness :
  ∃ r t', block_add (mkNode 8192 4096 1 102) demo_tree = Ok (r, t') ∧ tree_wf t'
    ∧ ∀ off, xlate t' off = if decide (covers (mkNode 8192 4096 1 102) off)
        then Some (translate (mkNode 8192 4096 1 102) off) else xlate demo_tree off.
Proof.
  apply (block_insert_extends demo_tree (mkNode 8192 4096 1 102) demo_tree_wf).
  - vm_compute. done.
  - intros j Hj. apply list_elem_of_singleton in Hj as ->. left. vm_compute. done.
Defined.
