(* ===== verification/BlkErase.v ===== *)
(** * BlkErase: removal from the block index

    [block_clear], [block_replace] and [block_delete] of [ds/blktree.h] over
    the removal and traversal of [RbErase].  A removed node stays allocated:
    the code frees none of them. *)
From Stdlib Require Import ZArith Lia Sorted.
From stdpp Require Import base numbers list gmap strings.
From S2P Require Import Prelude Util RbTree RbErase BlkTree.

Definition with_root (r : rb nat) (t : blktree) : blktree := mkTree r (nodes t) (next t).

(** [block_clear(root)]. *)
Definition block_clear (t : blktree) : outcome blktree :=
  r ← clear_from (length (inorder (root t))) (root t) (rb_first (root t));
  Ok (with_root r t).

(** [block_replace(root, block, offset)] with [block] at the address [i]. *)
Definition block_replace (t : blktree) (i : nat) (offset : Z) : outcome blktree :=
  match block_search t offset with
  | None => Ok t
  | Some j =>
      match locate (root t) j with
      | Some (k, Node c l _ r) => Ok (with_root (rb_replace_node k c l r i) t)
      | _ => Fault "not a node of the tree"
      end
  end.

(** [block_delete(root, offset)]. *)
Definition block_delete (t : blktree) (offset : Z) : outcome blktree :=
  match block_search t offset with
  | None => Ok t
  | Some i =>
      match locate (root t) i with
      | Some (k, Node c l _ r) => t' ← rb_erase k c l i r; Ok (with_root t' t)
      | _ => Fault "not a node of the tree"
      end
  end.

(** ** Lemmas *)
Lemma SS_nodup {A} (R : A → A → Prop) l :
  StronglySorted R l → Forall (λ x, ¬ R x x) l → NoDup l.
Proof.
  induction 1 as [|x l _ IH Hx]; intros Hf; [constructor|].
  inversion Hf as [|? ? Hxx Hl]; subst. constructor; [|auto].
  intros Hin. by eapply Forall_forall in Hx.
Qed.

Lemma tree_nodup t : tree_wf t → NoDup (inorder (root t)).
Proof.
  intros [_ Hok Hs _]. eapply SS_nodup; [exact Hs|]. eapply Forall_impl; [exact Hok|].
  intros i (_ & Hz & _). unfold precedes, node_at in *. lia.
Qed.

(** A found node, singled out in the tree. *)
Lemma search_here t off i :
  tree_wf t → block_search t off = Some i →
  ∃ k c l r, root t = here k c l i r ∧ locate (root t) i = Some (k, Node c l i r)
    ∧ fits k (Node c l i r) ∧ covers (node_at t i) off
    ∧ inorder (root t) = before k ++ (inorder l ++ i :: inorder r) ++ after k.
Proof.
  intros Hwf [Hi Hc]%block_search_spec; [|done].
  destruct (locate_elem (root t) [] i Hi) as (k & c & l & r & Ht & E).
  rewrite app_nil_r in E. exists k, c, l, r. split; [done|]. split; [done|].
  destruct (wf_rb t Hwf) as [m Hm]. rewrite Ht in Hm.
  split; [by eapply fits_here|]. split; [done|]. rewrite Ht. unfold here. by rewrite inorder_plug.
Qed.

Lemma Forall_sublist {A} (P : A → Prop) l1 l2 :
  l1 `sublist_of` l2 → Forall P l2 → Forall P l1.
Proof.
  intros Hs H. apply Forall_forall. intros x Hx.
  eapply Forall_forall in H; [exact H|]. by eapply elem_of_sublist.
Qed.

(** A part of the sequence of a well-formed index, in a red-black tree of its own. *)
Lemma sub_wf t r m :
  tree_wf t → rbt Black m r → inorder r `sublist_of` inorder (root t) → tree_wf (with_root r t).
Proof.
  intros [_ Hok Hs Ha] Hr Hsub. split; simpl; [by exists m|..].
  - by eapply Forall_sublist.
  - clear Hok Ha. induction Hsub as [|x l1 l2 Hsub IH|x l1 l2 Hsub IH]; [constructor|..].
    + inversion Hs as [|? ? Hs' Hx]; subst. constructor; [by apply IH|].
      by eapply Forall_sublist.
    + inversion Hs; subst. by apply IH.
  - by eapply Forall_sublist.
Qed.

Lemma xlate_none t off :
  tree_wf t → (∀ i, i ∈ inorder (root t) → ¬ covers (node_at t i) off) → xlate t off = None.
Proof.
  intros Hwf H. destruct (xlate t off) as [v|] eqn:E; [|done].
  apply xlate_spec in E as (i & Hi & Hc & _); [|done]. by destruct (H i Hi).
Qed.

Lemma covers_unique t i j off :
  tree_wf t → i ∈ inorder (root t) → j ∈ inorder (root t) →
  covers (node_at t i) off → covers (node_at t j) off → i = j.
Proof.
  intros Hwf Hi Hj Hci Hcj.
  assert (E1 : block_search t off = Some i) by (by apply block_search_spec).
  assert (E2 : block_search t off = Some j) by (by apply block_search_spec).
  congruence.
Qed.

Lemma block_delete_ok t off :
  tree_wf t →
  ∃ t', block_delete t off = Ok t' ∧ tree_wf t' ∧ nodes t' = nodes t
    ∧ ∀ o, xlate t' o = match block_search t off with
        | Some i => if decide (covers (node_at t i) o) then None else xlate t o
        | None => xlate t o
        end.
Proof.
  intros Hwf. unfold block_delete. destruct (block_search t off) as [i|] eqn:E; [|by exists t].
  destruct (search_here t off i Hwf E) as (k & c & l & r & Ht & -> & Hf & Hc & Hin).
  destruct (rb_erase_ok k c l i r Hf) as (t' & m & -> & Hm & Hin').
  pose proof (tree_nodup t Hwf) as Hn. rewrite Hin in Hn.
  assert (Hsub : inorder t' `sublist_of` inorder (root t)).
  { rewrite Hin, Hin'. apply sublist_app; [done|]. apply sublist_app; [|done].
    apply sublist_app; [done|]. by apply sublist_cons. }
  assert (Hi : i ∈ inorder (root t)) by (by apply block_search_spec in E as [? _]).
  assert (Hmem : ∀ j, j ∈ inorder t' ↔ j ∈ inorder (root t) ∧ j ≠ i).
  { intros j. pose proof (here_nodup k c l i r) as Hh.
    unfold here in Hh. rewrite inorder_plug in Hh. simpl in Hh.
    destruct Hh as (H1 & H2 & H3 & H4); [done|].
    rewrite Hin, Hin', !elem_of_app, elem_of_cons. split; [|naive_solver].
    intros [H|[[H|H]|H]]; (split; [tauto|by intros ->]). }
  pose proof (sub_wf t t' m Hwf Hm Hsub) as Hwf'.
  exists (with_root t' t). split; [done|]. split; [done|]. split; [done|]. intros o.
  destruct (decide (covers (node_at t i) o)) as [Ho|Ho].
  - apply xlate_none; [done|]. simpl. intros j [Hj Hji]%Hmem Hcj. apply Hji.
    by eapply (covers_unique t j i o).
  - apply option_eq. intros v. rewrite !xlate_spec by done. simpl.
    split; intros (j & Hj & Hcj & ->); exists j; split; try done.
    + by apply Hmem in Hj as [? _].
    + apply Hmem. split; [done|]. by intros ->.
Qed.

Lemma block_clear_ok t :
  tree_wf t → block_clear t = Ok (with_root Leaf t) ∧ tree_wf (with_root Leaf t)
    ∧ ∀ o, xlate (with_root Leaf t) o = None.
Proof.
  intros Hwf. pose proof (tree_nodup t Hwf) as Hn. destruct (wf_rb t Hwf) as [m Hm].
  split; [|split; [|done]].
  - unfold block_clear. by rewrite (clear_from_ok _ (root t) m Hm Hn) by done.
  - apply (sub_wf t Leaf 0 Hwf); [constructor|apply sublist_nil_l].
Qed.

Lemma SS_replace {A} (R : A → A → Prop) i j l1 l2 :
  (∀ y, R j y → R i y) → (∀ y, R y j → R y i) →
  StronglySorted R (l1 ++ j :: l2) → StronglySorted R (l1 ++ i :: l2).
Proof.
  intros Hr Hl (H1 & H2 & H12)%SS_app. apply SS_app. inversion H2 as [|? ? Hs Hj]; subst.
  split; [done|]. split.
  - constructor; [done|]. by eapply Forall_impl.
  - intros x y Hx [->|Hy]%elem_of_cons; [apply Hl, H12; [done|by left]|].
    apply H12; [done|by right].
Qed.

(** A node that has the range of the one it replaces. *)
Record replacement (t : blktree) (i j : nat) : Prop := {
  rep_fresh : i ∉ inorder (root t);
  rep_alloc : (i < next t)%nat;
  rep_ok : node_ok (node_at t i);
  rep_off : fileoff (node_at t i) = fileoff (node_at t j);
  rep_size : size (node_at t i) = size (node_at t j)
}.

Lemma block_replace_ok t i j off :
  tree_wf t → block_search t off = Some j → replacement t i j →
  ∃ t', block_replace t i off = Ok t' ∧ tree_wf t' ∧ nodes t' = nodes t
    ∧ ∀ o, xlate t' o = if decide (covers (node_at t i) o)
        then Some (translate (node_at t i) o) else xlate t o.
Proof.
  intros Hwf E [Hfr Hal Hok Hoff Hsz]. unfold block_replace. rewrite E.
  destruct (search_here t off j Hwf E) as (k & c & l & r & Ht & -> & Hf & Hc & Hin).
  assert (Hm : ∃ m, rbt Black m (rb_replace_node k c l r i)).
  { apply (fits_payload _ _ _ _ i) in Hf as (ck & ct & n & Hk & Hn & Hcc). by eapply plug_rbt. }
  assert (Hin' : inorder (rb_replace_node k c l r i)
                 = (before k ++ inorder l) ++ i :: inorder r ++ after k).
  { unfold rb_replace_node. rewrite inorder_plug. simpl. by rewrite <- !app_assoc. }
  replace (before k ++ (inorder l ++ j :: inorder r) ++ after k)
    with ((before k ++ inorder l) ++ j :: inorder r ++ after k) in Hin
    by (by rewrite <- !app_assoc).
  set (pre := before k ++ inorder l) in *. set (post := inorder r ++ after k) in *.
  assert (Hwf' : tree_wf (with_root (rb_replace_node k c l r i) t)).
  { destruct Hwf as [_ Hok' Hs Ha]. rewrite Hin in Hok', Hs, Ha.
    unfold with_root. split; simpl; rewrite ?Hin'; [done| | |].
    - apply Forall_app in Hok' as [H1 H2]. apply Forall_app. split; [done|].
      inversion H2; subst. by constructor.
    - eapply SS_replace; [| |exact Hs]; intros y; unfold precedes, node_at in *; lia.
    - apply Forall_app in Ha as [H1 H2]. apply Forall_app. split; [done|].
      inversion H2; subst. by constructor. }
  eexists. split; [done|]. split; [done|]. split; [done|]. intros o.
  assert (Hcov : covers (node_at t i) o ↔ covers (node_at t j) o)
    by (unfold covers; rewrite Hoff, Hsz; done).
  destruct (decide (covers (node_at t i) o)) as [Ho|Ho].
  - apply xlate_spec; [done|]. exists i. simpl. rewrite Hin'. split; [|done].
    apply elem_of_app. right. by left.
  - apply option_eq. intros v. rewrite !xlate_spec by done. simpl. rewrite Hin', Hin.
    split; intros (n & Hn & Hcn & ->); exists n; (split; [|done]).
    + apply elem_of_app in Hn as [Hn|[->|Hn]%elem_of_cons]; [| by destruct Ho |];
        rewrite elem_of_app, elem_of_cons; tauto.
    + apply elem_of_app in Hn as [Hn|[->|Hn]%elem_of_cons]; [| by destruct Ho; apply Hcov |];
        rewrite elem_of_app, elem_of_cons; tauto.
Qed.

(** ** Properties *)

(** C28: block_delete removes exactly the translation of the node that covers
    the offset from a well-formed index, or nothing when there is none, and
    keeps the invariant of the index. *)
Theorem block_delete_removes t off :
  tree_wf t →
  ∃ t', block_delete t off = Ok t' ∧ tree_wf t'
    ∧ (∀ o, xlate t' o = match block_search t off with
        | Some i => if decide (covers (node_at t i) o) then None else xlate t o
        | None => xlate t o
        end)
    ∧ (∀ i, block_search t off = Some i → xlate t' off = None).
Proof.
  intros Hwf. destruct (block_delete_ok t off Hwf) as (t' & E & Hwf' & _ & Hx).
  exists t'. split; [done|]. split; [done|]. split; [done|]. intros i Ei. rewrite Hx, Ei.
  apply block_search_spec in Ei as [_ Hc]; [|done]. by rewrite decide_True.
Qed.

Lemma block_delete_removes_witness :
  ∃ t', block_delete demo_tree 5000 = Ok t' ∧ tree_wf t' ∧ xlate t' 5000 = None.
Proof.
  destruct (block_delete_removes demo_tree 5000 demo_tree_wf) as (t' & E & Hwf & _ & H).
  exists t'. split; [done|]. split; [done|]. apply (H 0%nat). reflexivity.
Defined.

(** C29: block_clear, which erases each node before it asks the erased node
    for its successor, ends with an empty index: the links that are left in
    an erased first node lead to the first node of the rest. *)
Theorem block_clear_empties t :
  tree_wf t →
  ∃ t', block_clear t = Ok t' ∧ root t' = Leaf ∧ tree_wf t' ∧ ∀ o, xlate t' o = None.
Proof.
  intros Hwf. destruct (block_clear_ok t Hwf) as (E & Hwf' & Hx).
  by exists (with_root Leaf t).
Qed.

Lemma block_clear_empties_witness :
  ∃ t', block_clear demo_tree = Ok t' ∧ root t' = Leaf ∧ tree_wf t' ∧ ∀ o, xlate t' o = None.
Proof. apply (block_clear_empties demo_tree demo_tree_wf). Defined.

(** Eight separate extents, inserted and cleared. *)
Definition spread (n : nat) : outcome blktree :=
  foldr (λ i o, t ← o; '(_, t) ← block_add (mkNode (Z.of_nat i * 8192) 4096 1 (Z.of_nat i * 7)) t; Ok t)
    (Ok RB_ROOT) (seq 0 n).

Example clear_eight :
  (t ← spread 8; Ok (length (inorder (root t)))) = Ok 8%nat
  ∧ (t ← spread 8; t ← block_clear t; Ok (root t)) = Ok Leaf.
Proof. split; vm_compute; reflexivity. Qed.

(** [block_replace] by a node of the same range redirects that range. *)
Theorem block_replace_redirects t i j off :
  tree_wf t → block_search t off = Some j → replacement t i j →
  ∃ t', block_replace t i off = Ok t' ∧ tree_wf t'
    ∧ ∀ o, xlate t' o = if decide (covers (node_at t i) o)
        then Some (translate (node_at t i) o) else xlate t o.
Proof.
  intros Hwf E Hr. destruct (block_replace_ok t i j off Hwf E Hr) as (t' & ? & ? & _ & ?).
  by exists t'.
Qed.
