(* ===== verification/Upsert.v ===== *)
(** * Upsert: updates of the block index by the write path

    [upsert_blktree], [insert_blktree] and their [buffer_head] variants of
    [filesystem/file.c]: a write of [size] bytes at file offset [off] that
    went to device address [addr] redirects that range of the index.  The
    found node is cut, the remainder behind the write becomes a node of its
    own, and the new range is linked or stored over the found node. *)
From Stdlib Require Import ZArith Lia Sorted.
From stdpp Require Import base numbers list gmap strings.
From S2P Require Import Prelude Util RbTree BlkTree.

(** [upsert_blktree(ip, devid, addr, off, size)] on the tree of [ip]; [addr]
    is a byte address. *)
Definition upsert_blktree (t : blktree) (devid addr off sz : Z) : outcome (Z * blktree) :=
  match block_search t off with
  | None =>
      '(_, t) ← block_add (mkNode off sz (u8 (devid + 1)) (shr64 addr g_block_size_shift)) t;
      Ok (1, t)
  | Some j =>
      let old := node_at t j in
      let bnodeoff := u64 (size old + fileoff old) in
      let writeoff := u64 (sz + off) in
      t ← (if writeoff <? bnodeoff then
             let af_off := Align.ALIGN writeoff g_block_size_bytes in
             '(_, t) ← block_add
               (mkNode af_off (u64 (bnodeoff - af_off)) (BlkTree.devid old)
                  (u64 (BlkTree.addr old + shr64 (u64 (af_off - fileoff old)) g_block_size_shift))) t;
             Ok t
           else Ok t);
      let cut := u64 (off - fileoff old) in
      if cut =? 0 then
        Ok (1, node_set j (mkNode (fileoff old) sz devid (shr64 addr g_block_size_shift)) t)
      else
        let t := node_set j (set_size cut (node_at t j)) t in
        '(_, t) ← block_add (mkNode off sz devid (shr64 addr g_block_size_shift)) t;
        Ok (1, t)
  end.

(** [insert_blktree(ip, devid, addr, off, size)]: a node found at [off] is
    overwritten in place. *)
Definition insert_blktree (t : blktree) (devid addr off sz : Z) : outcome (Z * blktree) :=
  let b := mkNode off sz devid (shr64 addr g_block_size_shift) in
  match block_search t off with
  | None => '(_, t) ← block_add b t; Ok (1, t)
  | Some j => Ok (1, node_set j b t)
  end.

(** [upsert_blktree_bh(ip, off, bh)]: the block number comes from the buffer
    head and the cut happens after the insertions, also to size 0. *)
Definition upsert_blktree_bh (t : blktree) (off b_dev b_blocknr b_size : Z)
    : outcome (Z * blktree) :=
  let inb := mkNode off b_size b_dev b_blocknr in
  match block_search t off with
  | None => '(_, t) ← block_add inb t; Ok (1, t)
  | Some j =>
      let old := node_at t j in
      let bnodeoff := u64 (size old + fileoff old) in
      let writeoff := u64 (b_size + off) in
      t ← (if writeoff <? bnodeoff then
             let af_off := Align.ALIGN writeoff g_block_size_bytes in
             '(_, t) ← block_add
               (mkNode af_off (u64 (bnodeoff - af_off)) (BlkTree.devid old)
                  (u64 (BlkTree.addr old + shr64 (u64 (af_off - fileoff old)) g_block_size_shift))) t;
             Ok t
           else Ok t);
      '(_, t) ← block_add inb t;
      Ok (1, node_set j (set_size (u64 (off - fileoff old)) (node_at t j)) t)
  end.

(** [insert_blktree_bh(ip, off, bh)]. *)
Definition insert_blktree_bh (t : blktree) (off b_dev b_blocknr b_size : Z)
    : outcome (Z * blktree) :=
  '(_, t) ← block_add (mkNode off b_size b_dev b_blocknr) t; Ok (1, t).

(** ** Replacing a node by a shorter one *)

(** Store of an extent [b] over node [j] of which it keeps the start and at
    most the length: the offsets [j] covered are now covered by [b] alone. *)
Lemma shrink_wf t j b :
  tree_wf t → j ∈ inorder (root t) → node_ok b →
  fileoff b = fileoff (node_at t j) → size b ≤ size (node_at t j) →
  tree_wf (node_set j b t) ∧
  ∀ off, xlate (node_set j b t) off =
    if decide (covers (node_at t j) off)
    then (if decide (covers b off) then Some (translate b off) else None)
    else xlate t off.
Proof.
  intros Hwf Hj Hb Hoff Hsz. set (t' := node_set j b t).
  pose proof Hwf as [Hrb Hok Hs Ha].
  assert (Hat : ∀ i, node_at t' i = if decide (i = j) then b else node_at t i).
  { intros i. unfold t', node_set, node_at at 1. simpl. case_decide.
    - subst. by apply lookup_total_insert_eq.
    - by apply lookup_total_insert_ne. }
  assert (Hwf' : tree_wf t').
  { split; [done| | |done].
    - apply Forall_forall. intros i Hi. rewrite Hat. case_decide; [done|].
      by eapply Forall_forall in Hok.
    - eapply SS_impl_in; [exact Hs|]. intros x y Hx Hy. unfold precedes.
      change (nodes t' !!! ?z) with (node_at t' z). change (nodes t !!! ?z) with (node_at t z).
      rewrite !Hat. repeat case_decide; subst; lia. }
  split; [done|]. intros off.
  assert (Hu : ∀ i, i ∈ inorder (root t) → covers (node_at t i) off →
             covers (node_at t j) off → i = j).
  { intros i Hi Hci Hcj. eapply (inj Some).
    rewrite <- (proj2 (block_search_spec t off i Hwf) (conj Hi Hci)).
    by apply block_search_spec. }
  apply option_eq. intros v. rewrite xlate_spec by done.
  assert (Hsub : covers b off → covers (node_at t j) off) by (unfold covers; lia).
  repeat case_decide; rewrite ?xlate_spec by done; setoid_rewrite Hat.
  - split; [|intros [= <-]; exists j; by rewrite decide_True].
    intros (i & Hi & Hc & ->). case_decide; [done|]. destruct (Hu i); done.
  - split; [|done]. intros (i & Hi & Hc & ->). case_decide; [done|]. destruct (Hu i); done.
  - split; intros (i & Hi & Hc & ->); exists i; revert Hc; case_decide; subst; try done.
    intros Hc. by destruct H; apply Hsub.
Qed.

(** The search for a link position reads file offsets only. *)
Lemma insert_pos_ext h h' t off k :
  (∀ i, i ∈ inorder t → fileoff (h !!! i) = fileoff (h' !!! i)) →
  insert_pos h t off k = insert_pos h' t off k.
Proof.
  revert k. induction t as [|c l IHl x r IHr]; intros k He; simpl; [done|].
  rewrite (He x) by (apply elem_of_app; right; by left).
  rewrite IHl, IHr; [done|..]; intros i Hi; apply He, elem_of_app; auto.
  right. by right.
Qed.

(** No node that lies around offset [off] with bytes behind it is contiguous
    with the extent cut out of it at [off]. *)
Lemma no_merge_inside t j b :
  tree_wf t → j ∈ inorder (root t) → node_ok b →
  fileoff (node_at t j) < fileoff b < fileoff (node_at t j) + size (node_at t j) →
  addr b = addr (node_at t j) + (fileoff b - fileoff (node_at t j)) / 4096 →
  merge_target (nodes t) (root t) b = None.
Proof.
  intros Hwf Hj Hb Hin Haddr. apply eq_None_not_Some. intros [i Hm].
  apply merge_target_spec in Hm as (Hi & Hcmp & _ & Hc).
  change (nodes t !!! i) with (node_at t i) in *.
  pose proof (wf_nodes t Hwf) as Hok.
  assert (Hoki : node_ok (node_at t i)) by (by eapply Forall_forall in Hok).
  apply nodecmp_touch in Hcmp; [|done].
  destruct (decide (i = j)) as [->|Hne].
  - destruct Hoki as (?&?&?&?), Hb as (?&?&?&?).
    apply contiguous_exact in Hc; [|lia..].
    pose proof (Z.mul_div_le (fileoff b - fileoff (node_at t j)) 4096). lia.
  - assert (Hcov : block_search t (fileoff b) = Some j)
      by (apply block_search_spec; [done|]; unfold covers; split; [done|lia]).
    assert (Hlow : block_search t (fileoff b - 1) = Some j)
      by (apply block_search_spec; [done|]; unfold covers; split; [done|lia]).
    destruct (decide (fileoff b < fileoff (node_at t i) + size (node_at t i))).
    + assert (block_search t (fileoff b) = Some i)
        by (apply block_search_spec; [done|]; unfold covers; split; [done|lia]).
      congruence.
    + destruct Hoki as (?&?&?&?).
      assert (block_search t (fileoff b - 1) = Some i)
        by (apply block_search_spec; [done|]; unfold covers; split; [done|lia]).
      congruence.
Qed.

Lemma node_set_alloc j b c t :
  (j < next t)%nat →
  node_set j b (node_alloc c t).2 = (node_alloc c (node_set j b t)).2.
Proof.
  intros. unfold node_set, node_alloc. simpl. f_equal. apply insert_insert_ne. lia.
Qed.

(** Two nodes of a tree that share an offset are the same node. *)
Lemma node_unique t i j off :
  tree_wf t → i ∈ inorder (root t) → j ∈ inorder (root t) →
  covers (node_at t i) off → covers (node_at t j) off → i = j.
Proof.
  intros Hwf Hi Hj Hci Hcj. apply (inj Some).
  rewrite <- (proj2 (block_search_spec t off i Hwf) (conj Hi Hci)).
  by apply block_search_spec.
Qed.

(** An extent over unmapped offsets overlaps no node. *)
Lemma apart_xlate_iff t b :
  tree_wf t → node_ok b → apart t b ↔ ∀ x, covers b x → xlate t x = None.
Proof.
  intros Hwf (?&?&?&?). split; [intros Ha x; by apply apart_xlate|].
  intros Hx i Hi. unfold disjoint.
  destruct (decide (fileoff (node_at t i) + size (node_at t i) ≤ fileoff b)); [by left|].
  destruct (decide (fileoff b + size b ≤ fileoff (node_at t i))); [by right|exfalso].
  assert (0 < size (node_at t i)).
  { pose proof (wf_nodes t Hwf) as Hok. eapply Forall_forall in Hok as (?&?&?&?); done. }
  pose (x := Z.max (fileoff b) (fileoff (node_at t i))).
  assert (xlate t x = Some (translate (node_at t i) x)).
  { apply xlate_spec; [done|]. exists i. unfold covers. repeat split; [done|lia..]. }
  rewrite Hx in *; [done|]. unfold covers. lia.
Qed.

(** The part of node [j] behind a shortened [j] overlaps nothing. *)
Lemma apart_cut t j b c :
  tree_wf t → j ∈ inorder (root t) → 0 < size c → 0 ≤ size b →
  fileoff b = fileoff (node_at t j) → fileoff b + size b ≤ fileoff c →
  fileoff c + size c ≤ fileoff (node_at t j) + size (node_at t j) →
  apart (node_set j b t) c.
Proof.
  intros Hwf Hj Hc Hb Hoff Hbc Hend i Hi. unfold disjoint, node_at, node_set. simpl.
  destruct (decide (i = j)) as [->|Hne].
  { rewrite lookup_total_insert_eq. lia. }
  rewrite lookup_total_insert_ne by done. change (nodes t !!! i) with (node_at t i).
  destruct (decide (fileoff (node_at t i) + size (node_at t i) ≤ fileoff c)); [by left|].
  destruct (decide (fileoff c + size c ≤ fileoff (node_at t i))); [by right|exfalso].
  assert (0 < size (node_at t i)).
  { pose proof (wf_nodes t Hwf) as Hok. eapply Forall_forall in Hok as (?&?&?&?); done. }
  apply Hne, (node_unique t i j (Z.max (fileoff c) (fileoff (node_at t i)))); try done;
    unfold covers; lia.
Qed.

(** Cutting: linking the part [c] of node [j] behind a write and then storing
    the shortened node [b] over [j] is a valid update of the tree with [b] in
    place of [j], although the tree between the two steps has an overlap. *)
Lemma cut_wf t j b c :
  tree_wf t → j ∈ inorder (root t) → node_ok b → node_ok c →
  fileoff b = fileoff (node_at t j) → fileoff b + size b ≤ fileoff c →
  fileoff c + size c = fileoff (node_at t j) + size (node_at t j) →
  addr c = addr (node_at t j) + (fileoff c - fileoff (node_at t j)) / 4096 →
  ∃ r t1, block_add c t = Ok (r, t1) ∧ node_at t1 j = node_at t j ∧ tree_wf (node_set j b t1)
    ∧ j ∈ inorder (root t1) ∧ extends (node_set j b t) (node_set j b t1) c.
Proof.
  intros Hwf Hj Hb Hc Hoff Hbc Hend Haddr.
  assert (Hjn : (j < next t)%nat) by (pose proof (wf_alloc t Hwf) as Ha; by eapply Forall_forall in Ha).
  pose proof (node_alloc_wf c t Hwf) as [Hwfa _].
  pose proof (node_set_alloc j b c t Hjn) as Hcomm.
  unfold block_add. destruct (node_alloc c t) as [n ta] eqn:Ea.
  unfold node_alloc in Ea. injection Ea as <- Eta. simpl in Hwfa, Hcomm.
  assert (Hat : ∀ i, i ≠ next t → node_at ta i = node_at t i).
  { intros i Hi. rewrite <- Eta. unfold node_at. simpl. by rewrite lookup_total_insert_ne. }
  assert (Hatn : node_at ta (next t) = c)
    by (rewrite <- Eta; unfold node_at; simpl; apply lookup_total_insert_eq).
  assert (Hroot : root ta = root t) by (by rewrite <- Eta).
  assert (Hatj : node_at ta j = node_at t j) by (apply Hat; lia).
  rewrite <- Hroot in Hj. rewrite <- Hatj in *.
  pose proof Hb as (?&?&?&?). pose proof Hc as (?&?&?&?).
  destruct (shrink_wf ta j b Hwfa Hj Hb Hoff ltac:(lia)) as [Hwfs _].
  assert (Happ : apart (node_set j b ta) c) by (apply apart_cut; try done; lia).
  assert (Hm : merge_target (nodes ta) (root ta) c = None)
    by (apply (no_merge_inside ta j); try done; lia).
  unfold block_insert. rewrite Hatn, Hm.
  set (ts := node_set j b ta) in *.
  assert (Hpos : insert_pos (nodes ta) (root ta) (fileoff c) [] =
                 insert_pos (nodes ts) (root ts) (fileoff c) []).
  { apply insert_pos_ext. intros i Hi. unfold ts, node_set. simpl.
    destruct (decide (i = j)) as [->|]; [by rewrite lookup_total_insert_eq|].
    by rewrite lookup_total_insert_ne. }
  rewrite Hpos. destruct (link_ok ts (next t) c) as (k & r & -> & -> & Hwf' & Hext & Hin); try done.
  { unfold ts, node_at, node_set; simpl. rewrite lookup_total_insert_ne by lia. done. }
  { unfold ts; simpl. rewrite <- Eta. simpl. lia. }
  eexists _, _. split; [done|].
  split; [done|]. split; [done|]. split; [apply Hin; by right|].
  intros off. etransitivity; [exact (Hext off)|]. case_decide; [done|].
  destruct (shrink_wf t j b Hwf) as [Hwft _]; [by rewrite <- Hroot|done..|by rewrite <- Hatj|
    rewrite <- Hatj; lia|].
  destruct (node_alloc_wf c (node_set j b t) Hwft) as [_ <-]. by rewrite Hcomm.
Qed.

(** The redirect of an aligned write that ends inside a node: the written
    range has the new address, the bytes up to the next block boundary lose
    their mapping, and every other offset keeps its translation. *)
Definition redirected (t t' : blktree) (devid addr off sz : Z) : Prop :=
  ∀ x, xlate t' x =
    if decide (off ≤ x < off + sz) then Some (devid, shr64 addr 12 * 4096 + (x - off))
    else if decide (off + sz ≤ x < Align.ALIGN (off + sz) 4096) then None
    else xlate t x.

Section redirect.
Context (t : blktree) (j : nat) (devid addr off sz : Z).
Let old := node_at t j.
Let w := Align.ALIGN (off + sz) 4096.
(** The written extent, and what is left of the node behind it. *)
Let nb := mkNode off sz devid (shr64 addr 12).
Let c := mkNode w (fileoff old + size old - w) (BlkTree.devid old)
           (BlkTree.addr old + (w - fileoff old) / 4096).
Hypothesis Hwf : tree_wf t.
Hypothesis Hj : j ∈ inorder (root t).
Hypothesis Hnb : node_ok nb.
Hypothesis Hc : node_ok c.
Hypothesis Hin : fileoff old ≤ off ∧ off + sz ≤ w < fileoff old + size old.
Hypothesis Hdiv : (w - fileoff old) / 4096 * 4096 = w - fileoff old.

Lemma old_xlate x : covers old x → xlate t x = Some (translate old x).
Proof. intros Hx. apply xlate_spec; [done|]. by exists j. Qed.

(** The write starts at the node: the node itself is redirected. *)
Lemma redirect_start :
  off = fileoff old →
  ∃ r t1, block_add c t = Ok (r, t1) ∧ tree_wf (node_set j nb t1)
    ∧ redirected t (node_set j nb t1) devid addr off sz.
Proof.
  intros E. pose proof Hnb as (?&?&?&?). simpl in *.
  destruct (cut_wf t j nb c) as (r & t1 & Hadd & _ & Hwf1 & _ & Hext); try done; simpl; fold old; try lia.
  exists r, t1. split; [done|]. split; [done|]. intros x. rewrite Hext.
  destruct (shrink_wf t j nb Hwf Hj Hnb) as [_ Hx]; [simpl; fold old; lia..|]. rewrite Hx.
  pose proof (old_xlate x) as Hxo. fold old. fold w. unfold covers, translate in *; simpl in *.
  repeat case_decide; try lia; try done. rewrite Hxo by lia. f_equal. apply pair_eq; split; [done|lia].
Qed.

(** The node keeps its head and the write becomes a node of its own. *)
Lemma redirect_middle :
  fileoff old < off →
  ∃ r t1 r' t2, block_add c t = Ok (r, t1) ∧ node_at t1 j = old
    ∧ block_add nb (node_set j (set_size (off - fileoff old) old) t1) = Ok (r', t2)
    ∧ tree_wf t2 ∧ redirected t t2 devid addr off sz.
Proof.
  intros E. pose proof Hnb as (?&?&?&?). simpl in *. set (hb := set_size (off - fileoff old) old).
  assert (Hold : node_ok old)
    by (pose proof (wf_nodes t Hwf) as Hok; by eapply Forall_forall in Hok).
  pose proof Hold as (?&?&?&?).
  assert (Hhb : node_ok hb) by (unfold node_ok, hb, set_size; simpl; lia).
  destruct (cut_wf t j hb c) as (r & t1 & Hadd & Hat1 & Hwf1 & Hj1 & Hext); try done; simpl; fold old; try lia.
  destruct (shrink_wf t j hb Hwf Hj Hhb) as [_ Hx]; [simpl; fold old; lia..|].
  assert (Hap : apart (node_set j hb t1) nb).
  { apply apart_xlate_iff; [done|done|]. intros x Hcx. rewrite Hext, Hx. fold old.
    unfold covers in *; simpl in *. repeat case_decide; try lia; done. }
  destruct (block_add_ok _ nb Hwf1 Hnb Hap) as (r' & t2 & E2 & Hwf2 & Hext2).
  exists r, t1, r', t2. do 4 (split; [done|]). intros x. rewrite Hext2, Hext, Hx.
  pose proof (old_xlate x) as Hxo. fold old. fold w. unfold covers, translate in *; simpl in *.
  repeat case_decide; try lia; try done; rewrite Hxo by lia; f_equal; apply pair_eq; split; (done || lia).
Qed.
End redirect.

(** C18: upsert_blktree of a block-aligned write that ends inside a node
    redirects the written range to the new address, unmaps the bytes up to
    the next block boundary, keeps the translation of every other offset and
    keeps the invariant. The node starts at a block boundary, the write has
    less than 2^32 bytes, and its last block ends before the node does. *)
Theorem upsert_inside t devid addr off sz j :
  tree_wf t → block_search t off = Some j →
  fileoff (node_at t j) mod 4096 = 0 → off mod 4096 = 0 → 0 < sz < 2 ^ 32 →
  0 ≤ addr → addr + sz ≤ 2 ^ 62 →
  Align.ALIGN (off + sz) 4096 < fileoff (node_at t j) + size (node_at t j) →
  ∃ t', upsert_blktree t devid addr off sz = Ok (1, t') ∧ tree_wf t'
    ∧ redirected t t' devid addr off sz.
Proof.
  intros Hwf Hfind Hfa Hoa Hsz Ha0 Ha1 Hin.
  pose proof Hfind as [Hj Hcov]%block_search_spec; [|done].
  assert (Hold : node_ok (node_at t j))
    by (pose proof (wf_nodes t Hwf) as Hok; by eapply Forall_forall in Hok).
  unfold upsert_blktree. rewrite Hfind. cbv zeta.
  set (old := node_at t j) in *. pose proof Hold as (?&?&?&?).
  unfold covers in Hcov.
  pose proof (Align.ALIGN_least (off + sz) 12 ltac:(lia) ltac:(lia) ltac:(lia)) as [Hw Hwa].
  change (2 ^ 12) with 4096 in Hw, Hwa.
  rewrite (Z.add_comm (size old)), (Z.add_comm sz off).
  rewrite (u64_small (off + sz)), (u64_small (fileoff old + size old)) by lia.
  destruct (Z.ltb_spec (off + sz) (fileoff old + size old)); [|lia].
  change g_block_size_bytes with 4096. change g_block_size_shift with 12.
  set (w := Align.ALIGN (off + sz) 4096) in *.
  rewrite (u64_small (fileoff old + size old - w)), (u64_small (w - fileoff old)) by lia.
  rewrite (shr64_div (w - _)) by lia. change (2 ^ 12) with 4096.
  assert (Hdiv : (w - fileoff old) / 4096 * 4096 = w - fileoff old).
  { rewrite Z.mul_comm. symmetry. apply Z.div_exact; [lia|]. by rewrite Zminus_mod, Hwa, Hfa. }
  rewrite (u64_small (BlkTree.addr old + _)) by lia.
  rewrite (u64_small (off - fileoff old)) by lia.
  assert (Hsh : 0 ≤ shr64 addr 12 ∧ shr64 addr 12 * 4096 ≤ addr).
  { rewrite shr64_div by lia. change (2 ^ 12) with 4096.
    pose proof (Z.mul_div_le addr 4096). pose proof (Z.div_pos addr 4096). lia. }
  set (c := mkNode w _ _ _).
  set (nb := mkNode off sz devid (shr64 addr 12)).
  assert (Hc : node_ok c) by (unfold node_ok, c; simpl; lia).
  assert (Hnb : node_ok nb) by (unfold node_ok, nb; simpl; lia).
  destruct (Z.eqb_spec (off - fileoff old) 0) as [E|E].
  - replace (mkNode (fileoff old) sz devid (shr64 addr 12)) with nb by (unfold nb; f_equal; lia).
    destruct (redirect_start t j devid addr off sz) as (r & t1 & Hadd & ? & ?); try done; try (fold old w; lia).
    fold old w c in Hadd. rewrite Hadd. simpl. eauto.
  - destruct (redirect_middle t j devid addr off sz) as (r & t1 & r' & t2 & Hadd & Hat & Hadd2 & ? & ?);
      try done; try (fold old w; lia).
    fold old w c in Hadd. rewrite Hadd. simpl. rewrite Hat. fold old in Hadd2 |- *. fold nb in Hadd2.
    rewrite Hadd2. simpl. eauto.
Qed.

(** A write to an unmapped range adds exactly that range.  The node it links
    is on device [devid + 1], while the branches that find a node store
    [devid] itself. *)
Lemma upsert_unmapped t devid addr off sz :
  tree_wf t → node_ok (mkNode off sz (u8 (devid + 1)) (shr64 addr 12)) →
  (∀ x, off ≤ x < off + sz → xlate t x = None) →
  ∃ t', upsert_blktree t devid addr off sz = Ok (1, t') ∧ tree_wf t'
    ∧ extends t t' (mkNode off sz (u8 (devid + 1)) (shr64 addr 12)).
Proof.
  intros Hwf Hb Hx. unfold upsert_blktree.
  assert (Hn : block_search t off = None).
  { pose proof Hb as (?&?&?&?). simpl in *. specialize (Hx off ltac:(lia)).
    unfold xlate in Hx. by destruct (block_search t off). }
  rewrite Hn. change g_block_size_shift with 12.
  destruct (block_add_ok t _ Hwf Hb) as (r & t' & -> & Hwf' & He); [|by eauto].
  by apply apart_xlate_iff.
Qed.

(** [insert_blktree] of an unmapped extent of whole blocks. *)
Lemma insert_blocks t devid addr off sz t' :
  tree_wf t → node_ok (mkNode off sz devid (shr64 addr 12)) → blocks_tree t →
  whole_blocks (mkNode off sz devid (shr64 addr 12)) →
  (∀ x, off ≤ x < off + sz → xlate t x = None) →
  insert_blktree t devid addr off sz = Ok (1, t') → blocks_tree t'.
Proof.
  intros Hwf Hb Hbt Hw Hx. unfold insert_blktree.
  assert (Hn : block_search t off = None).
  { pose proof Hb as (?&?&?&?). simpl in *. specialize (Hx off ltac:(lia)).
    unfold xlate in Hx. by destruct (block_search t off). }
  rewrite Hn. change g_block_size_shift with 12.
  assert (Hap : apart t (mkNode off sz devid (shr64 addr 12))) by (by apply apart_xlate_iff).
  destruct (block_add_ok t _ Hwf Hb Hap) as (r & t1 & E & _). rewrite E. simpl.
  intros [= <-]. by eapply block_add_blocks.
Qed.

Lemma insert_unmapped t devid addr off sz :
  tree_wf t → node_ok (mkNode off sz devid (shr64 addr 12)) →
  (∀ x, off ≤ x < off + sz → xlate t x = None) →
  ∃ t', insert_blktree t devid addr off sz = Ok (1, t') ∧ tree_wf t'
    ∧ extends t t' (mkNode off sz devid (shr64 addr 12)).
Proof.
  intros Hwf Hb Hx. unfold insert_blktree.
  assert (Hn : block_search t off = None).
  { pose proof Hb as (?&?&?&?). simpl in *. specialize (Hx off ltac:(lia)).
    unfold xlate in Hx. by destruct (block_search t off). }
  rewrite Hn. change g_block_size_shift with 12.
  destruct (block_add_ok t _ Hwf Hb) as (r & t' & -> & Hwf' & He); [|by eauto].
  by apply apart_xlate_iff.
Qed.

(** What a search returns covers the offset, also in a tree with overlaps. *)
Lemma search_from_sound h t off i :
  Forall (λ i, node_ok (h !!! i)) (inorder t) → search_from h t off = Some i →
  i ∈ inorder t ∧ covers (h !!! i) off.
Proof.
  induction t as [|c l IHl x r IHr]; simpl; intros Hok; [done|].
  apply Forall_app in Hok as [Hokl Hok]. apply Forall_cons in Hok as [Hx Hokr].
  pose proof (fileoffcmp_covers (h !!! x) off Hx) as (E1 & E2 & E3).
  rewrite E1, E2, elem_of_app, elem_of_cons.
  repeat case_if; intros Hs.
  - destruct (IHl Hokl Hs); auto.
  - destruct (IHr Hokr Hs); auto.
  - simplify_eq. split; [auto|]. unfold covers. lia.
Qed.

(** insert_blktree at an offset inside a node moves the node's start:
    the offsets before it lose their translation. *)
Theorem insert_inside_loses_head t devid addr off sz j :
  tree_wf t → block_search t off = Some j → fileoff (node_at t j) < off →
  node_ok (mkNode off sz devid (shr64 addr 12)) →
  ∃ t', insert_blktree t devid addr off sz = Ok (1, t')
    ∧ ∀ x, fileoff (node_at t j) ≤ x < off → xlate t x ≠ None ∧ xlate t' x = None.
Proof.
  intros Hwf Hfind Hlt Hb. unfold insert_blktree. rewrite Hfind.
  eexists. split; [done|]. intros x Hx.
  apply block_search_spec in Hfind as [Hj Hc]; [|done]. unfold covers in Hc.
  assert (Hcx : covers (node_at t j) x) by (unfold covers; lia).
  split.
  { assert (xlate t x = Some (translate (node_at t j) x)) as -> by (apply xlate_spec; eauto). done. }
  unfold xlate. apply fmap_None, eq_None_not_Some. intros [i Hi].
  unfold block_search, node_set in Hi. simpl in Hi.
  apply search_from_sound in Hi as [Hi Hci].
  - destruct (decide (i = j)) as [->|Hne].
    + rewrite lookup_total_insert_eq in Hci. unfold covers in Hci. simpl in Hci. lia.
    + rewrite lookup_total_insert_ne in Hci by done. by apply Hne, (node_unique t i j x).
  - apply Forall_forall. intros i' Hi'. destruct (decide (i' = j)) as [->|].
    + by rewrite lookup_total_insert_eq.
    + rewrite lookup_total_insert_ne by done.
      pose proof (wf_nodes t Hwf) as Hok. by eapply Forall_forall in Hok.
Qed.

(** ** Instances *)

(** A file of 12 KiB at block 100 of device 1. *)
Definition big_tree : blktree :=
  mkTree (Node Black Leaf 0%nat Leaf) {[0%nat := mkNode 0 12288 1 100]} 1.

Lemma big_tree_wf : tree_wf big_tree.
Proof.
  split.
  - exists 1%nat. by apply (rbt_black 0 Black Black); constructor.
  - repeat constructor; vm_compute; done.
  - repeat constructor.
  - repeat constructor.
Qed.

(** 4 KiB at the start of the 8 KiB file go to block 7 of device 2. *)
Lemma upsert_inside_witness :
  ∃ t', upsert_blktree big_tree 2 28672 0 4096 = Ok (1, t') ∧ tree_wf t'
    ∧ redirected big_tree t' 2 28672 0 4096.
Proof.
  apply (upsert_inside big_tree 2 28672 0 4096 0%nat); try (vm_compute; done); try lia.
  apply big_tree_wf.
Defined.

(** 4 KiB in the middle of the 12 KiB node replace it. *)
Lemma insert_inside_loses_head_witness :
  ∃ t', insert_blktree big_tree 2 28672 4096 4096 = Ok (1, t')
    ∧ ∀ x, 0 ≤ x < 4096 → xlate big_tree x ≠ None ∧ xlate t' x = None.
Proof.
  apply (insert_inside_loses_head big_tree 2 28672 4096 4096 0%nat); try (vm_compute; done).
  apply big_tree_wf.
Defined.
