(* ===== verification/Alloc.v ===== *)
(** * Alloc: inode numbers and device blocks

    The allocators of [filesystem/fs.h] and [filesystem/file.c].  Inode
    numbers come from [fsinode_table], a table the kernel filled once, with
    the cursor [bitmapnum]; blocks come from the counters of [ADDRINFO].
    The locks around each body make it atomic, so an operation is one step. *)
From Stdlib Require Import ZArith Lia Sorted.
From stdpp Require Import base numbers list gmap strings sorting.
From S2P Require Import Prelude Util.

(** [#define inonum 30000], and the second [#define NVMSIZE], which is the
    one in force where the allocators are compiled. *)
Definition inonum : nat := Z.to_nat 30000.
#[global] Opaque inonum.
Definition NVMSIZE : Z := 10 * 1024 * 1024.
Definition FILENVMBLOCK : Z := 64.

(** [struct fuckfs_addr_info]. *)
Record addr_info : Type := mkAddr {
  nvm_block_addr : Z;
  ssd1_block_addr : Z;
  ssd2_block_addr : Z;
  ssd3_block_addr : Z;
  free_inode_base : Z
}.

Definition set_nvm (x : Z) (a : addr_info) : addr_info :=
  mkAddr x (ssd1_block_addr a) (ssd2_block_addr a) (ssd3_block_addr a) (free_inode_base a).
Definition set_ssd1 (x : Z) (a : addr_info) : addr_info :=
  mkAddr (nvm_block_addr a) x (ssd2_block_addr a) (ssd3_block_addr a) (free_inode_base a).
Definition set_ssd2 (x : Z) (a : addr_info) : addr_info :=
  mkAddr (nvm_block_addr a) (ssd1_block_addr a) x (ssd3_block_addr a) (free_inode_base a).
Definition set_ssd3 (x : Z) (a : addr_info) : addr_info :=
  mkAddr (nvm_block_addr a) (ssd1_block_addr a) (ssd2_block_addr a) x (free_inode_base a).

(** ** Inode numbers *)
Module Inodes.

(** [fsinode_table] and [bitmapnum]. *)
Record table : Type := mkTable {
  fsinode_table : list Z;
  bitmapnum : nat
}.

(** [init_fs]: [fsinode_table[i] = inode_base + 128*i]; [bitmapnum] is 0. *)
Definition init_table (inode_base : Z) : table :=
  mkTable ((λ i : nat, u64 (inode_base + 128 * Z.of_nat i)) <$> seq 0 inonum) 0.

(** The first index of [idx] whose entry satisfies [p]. *)
Fixpoint scan (p : Z → bool) (tbl : list Z) (idx : list nat) : option nat :=
  match idx with
  | [] => None
  | i :: idx => if p (tbl !!! i) then Some i else scan p tbl idx
  end.

(** [find_inode_bitmap()]: the entry is read into a [uint32_t]. *)
Definition find_inode_bitmap (s : table) : Z * table :=
  match scan (λ x, negb (x =? 0)) (fsinode_table s) (seq (bitmapnum s) (inonum - bitmapnum s)) with
  | Some i => (u32 (fsinode_table s !!! i), mkTable (<[i := 0]> (fsinode_table s)) (S i))
  | None => (0, s)
  end.

(** [put_inode_bitmap(ino)]. *)
Definition put_inode_bitmap (ino : Z) (s : table) : Z * table :=
  match scan (λ x, x =? 0) (fsinode_table s) (reverse (seq 0 (bitmapnum s))) with
  | Some i => (ino, mkTable (<[i := ino]> (fsinode_table s)) i)
  | None => (0, s)
  end.

(** The abstract allocator: a stack of free numbers, of which the table
    holds the part from the cursor on. *)
Definition free (s : table) : list Z := drop (bitmapnum s) (fsinode_table s).

Record table_wf (s : table) : Prop := {
  wf_len : length (fsinode_table s) = inonum;
  wf_cur : (bitmapnum s ≤ inonum)%nat;
  wf_taken : ∀ i, (i < bitmapnum s)%nat → fsinode_table s !! i = Some 0;
  wf_free : Forall (λ x, 0 < x < 2 ^ 32) (free s)
}.

Lemma find_inode_bitmap_pop s :
  table_wf s →
  match free s with
  | [] => find_inode_bitmap s = (0, s)
  | x :: l => ∃ s', find_inode_bitmap s = (x, s') ∧ table_wf s' ∧ free s' = l
      ∧ bitmapnum s' = S (bitmapnum s)
  end.
Proof.
  intros [Hl Hc Ht Hf]. unfold find_inode_bitmap.
  destruct (free s) as [|x l] eqn:E; unfold free in E.
  - assert (bitmapnum s = inonum) as ->; [|done].
    apply (f_equal length) in E. rewrite length_drop in E. simpl in E. lia.
  - assert (Hx : fsinode_table s !! bitmapnum s = Some x).
    { rewrite <- (Nat.add_0_r (bitmapnum s)), <- lookup_drop, E. done. }
    pose proof (lookup_lt_Some _ _ _ Hx) as Hlt. rewrite Hl in Hlt.
    apply Forall_cons in Hf as [Hx0 Hf]. simpl in Hx0.
    destruct (inonum - bitmapnum s)%nat eqn:En; [lia|]. simpl.
    rewrite (list_lookup_total_correct _ _ _ Hx).
    destruct (Z.eqb_spec x 0); [lia|]. simpl.
    assert (Hd : drop (S (bitmapnum s)) (fsinode_table s) = l).
    { rewrite <- (Nat.add_1_r (bitmapnum s)), <- drop_drop, E. done. }
    rewrite (list_lookup_total_correct _ _ _ Hx), u32_small by lia.
    eexists. split; [done|]. unfold free. simpl.
    rewrite drop_insert_lt by lia. split; [|by rewrite Hd].
    split; simpl.
    + by rewrite length_insert.
    + lia.
    + intros i Hi. destruct (decide (i = bitmapnum s)) as [->|].
      * apply list_lookup_insert_eq. lia.
      * rewrite list_lookup_insert_ne by done. apply Ht. lia.
    + unfold free; simpl. by rewrite drop_insert_lt, Hd by lia.
Qed.

Lemma put_inode_bitmap_push ino s :
  table_wf s → 0 < ino < 2 ^ 32 →
  if decide (bitmapnum s = 0%nat) then put_inode_bitmap ino s = (0, s)
  else ∃ s', put_inode_bitmap ino s = (ino, s') ∧ table_wf s' ∧ free s' = ino :: free s
      ∧ bitmapnum s = S (bitmapnum s').
Proof.
  intros [Hl Hc Ht Hf] Hi. unfold put_inode_bitmap. case_decide as E.
  { by rewrite E. }
  destruct (bitmapnum s) as [|n] eqn:En; [done|]. clear E.
  rewrite seq_S, reverse_snoc. simpl.
  rewrite (list_lookup_total_correct _ _ 0) by (apply Ht; lia). simpl.
  assert (Hd : drop n (<[n:=ino]> (fsinode_table s)) = ino :: free s).
  { unfold free. rewrite En. rewrite drop_S with (x := ino).
    - by rewrite drop_insert_lt by lia.
    - apply list_lookup_insert_eq. lia. }
  eexists. split; [done|]. unfold free at 1. simpl. rewrite Hd. split; [|done].
  split; simpl.
  - by rewrite length_insert.
  - lia.
  - intros i Hi'. rewrite list_lookup_insert_ne by lia. apply Ht. lia.
  - unfold free at 1. simpl. rewrite Hd. by constructor.
Qed.

(** Histories: a live set beside the table.  A number is handed out by
    [find_inode_bitmap] (0 means none is left) and returned only while it is
    live. *)
Inductive step : list Z * table → list Z * table → Prop :=
  | step_find live s ino s' :
      find_inode_bitmap s = (ino, s') → ino ≠ 0 → step (live, s) (ino :: live, s')
  | step_put live1 live2 s ino r s' :
      put_inode_bitmap ino s = (r, s') → step (live1 ++ ino :: live2, s) (live1 ++ live2, s').

(** Live and free numbers together are the numbers the kernel gave. *)
Definition exclusive (base : Z) (ls : list Z * table) : Prop :=
  table_wf ls.2 ∧ bitmapnum ls.2 = length ls.1
  ∧ (ls.1 ++ free ls.2) ≡ₚ free (init_table base).

Lemma init_free base :
  0 < base → base + 128 * Z.of_nat inonum ≤ 2 ^ 32 →
  free (init_table base) = (λ i : nat, base + 128 * Z.of_nat i) <$> seq 0 inonum.
Proof.
  intros H0 Hb. unfold free, init_table. simpl bitmapnum. simpl fsinode_table.
  rewrite drop_0. apply list_fmap_ext. intros i x Hx%lookup_seq. apply u64_small.
  assert (i < inonum)%nat by lia. lia.
Qed.

Lemma init_exclusive base :
  0 < base → base + 128 * Z.of_nat inonum ≤ 2 ^ 32 → exclusive base ([], init_table base).
Proof.
  intros H0 Hb. pose proof (init_free base H0 Hb) as Hi.
  split; [|split; [reflexivity|rewrite app_nil_l; reflexivity]].
  split; simpl bitmapnum.
  - unfold init_table. simpl fsinode_table. by rewrite length_fmap, length_seq.
  - lia.
  - intros i Hlt. lia.
  - simpl snd. rewrite Hi. apply Forall_fmap, Forall_forall.
    intros i Hin%elem_of_seq. simpl. lia.
Qed.

Lemma live_nonzero base live s :
  exclusive base (live, s) → 0 < base → base + 128 * Z.of_nat inonum ≤ 2 ^ 32 →
  Forall (λ x, 0 < x < 2 ^ 32) live.
Proof.
  intros (_ & _ & Hp) H0 Hb. simpl in Hp.
  assert (HF : Forall (λ x, 0 < x < 2 ^ 32) (free (init_table base))).
  { rewrite init_free by done. apply Forall_fmap, Forall_forall.
    intros i Hin%elem_of_seq. simpl. lia. }
  rewrite <- Hp in HF. by apply Forall_app in HF as [? _].
Qed.

Lemma step_exclusive base ls ls' :
  0 < base → base + 128 * Z.of_nat inonum ≤ 2 ^ 32 →
  exclusive base ls → step ls ls' → exclusive base ls'.
Proof.
  intros H0 Hb He Hs. destruct Hs as [live s ino s' Hf Hne|live1 live2 s ino r s' Hp].
  - destruct He as (Hwf & Hn & Hperm). simpl in *. pose proof (find_inode_bitmap_pop s Hwf) as Hpop.
    destruct (free s) as [|x l]; [congruence|]. destruct Hpop as (s1 & E1 & Hwf1 & Hf1 & Hn1).
    rewrite Hf in E1. simplify_eq. split; [done|]. simpl. split; [lia|].
    rewrite <- Hperm. by rewrite Permutation_middle.
  - pose proof (live_nonzero _ _ _ He H0 Hb) as Hlive.
    apply Forall_app in Hlive as [_ Hlive]. apply Forall_cons in Hlive as [Hino _].
    destruct He as (Hwf & Hn & Hperm). simpl in *.
    pose proof (put_inode_bitmap_push ino s Hwf Hino) as Hpush.
    rewrite length_app in Hn. simpl in Hn. rewrite decide_False in Hpush by lia.
    destruct Hpush as (s1 & E1 & Hwf1 & Hf1 & Hn1). rewrite Hp in E1. simplify_eq.
    split; [done|]. simpl. split; [rewrite length_app; lia|].
    rewrite <- Hperm, Hf1. rewrite <- !app_assoc. simpl.
    f_equiv. by rewrite Permutation_middle.
Qed.

(** Numbers are never handed out twice. *)
Lemma reachable_exclusive base ls :
  0 < base → base + 128 * Z.of_nat inonum ≤ 2 ^ 32 →
  rtc step ([], init_table base) ls → exclusive base ls.
Proof.
  intros H0 Hb Hr. pose proof (init_exclusive base H0 Hb) as Hi. revert Hi.
  induction Hr; [done|]. intros. apply IHHr. by eapply step_exclusive.
Qed.

Lemma exclusive_NoDup base live s :
  0 < base → base + 128 * Z.of_nat inonum ≤ 2 ^ 32 →
  exclusive base (live, s) → NoDup (live ++ free s).
Proof.
  intros H0 Hb (_ & _ & Hp). simpl in Hp. rewrite Hp, init_free by done.
  apply NoDup_fmap_2; [|apply NoDup_seq]. intros i j. lia.
Qed.

(** C30: In every history of find_inode_bitmap and put_inode_bitmap from the
    initial table, the live and the free inode numbers are together a
    permutation of the initial ones without duplicates, so no number is
    handed out twice. The numbers of the table are positive and fit in 32
    bits. *)
Theorem inode_numbers_exclusive base live s :
  0 < base → base + 128 * Z.of_nat inonum ≤ 2 ^ 32 →
  rtc step ([], init_table base) (live, s) →
  NoDup (live ++ free s) ∧ bitmapnum s = length live ∧ table_wf s
  ∧ (live ++ free s) ≡ₚ free (init_table base).
Proof.
  intros H0 Hb Hr. pose proof (reachable_exclusive base _ H0 Hb Hr) as He.
  split; [by eapply exclusive_NoDup|]. destruct He as (? & ? & ?). done.
Qed.

(** The first number is taken. *)
Lemma inode_numbers_exclusive_witness : ∃ s live,
  rtc step ([], init_table 128) (live, s) ∧ NoDup (live ++ free s) ∧ length live = 1%nat.
Proof.
  assert (Hn : Z.of_nat inonum = 30000) by (vm_compute; done).
  pose proof (init_exclusive 128 ltac:(lia) ltac:(lia)) as (Hwf & _ & _).
  pose proof (find_inode_bitmap_pop (init_table 128) Hwf) as Hp.
  pose proof (init_free 128 ltac:(lia) ltac:(lia)) as Hf.
  destruct (free (init_table 128)) as [|x l].
  { apply (f_equal length) in Hf. rewrite length_fmap, length_seq in Hf. simpl in Hf. lia. }
  destruct Hp as (s & E & _).
  assert (Hx : x = 128).
  { apply (f_equal head) in Hf. destruct inonum; [lia|]. simpl in Hf. injection Hf as ->. lia. }
  assert (Hr : rtc step ([], init_table 128) ([x], s)).
  { eapply rtc_l; [|apply rtc_refl]. apply step_find; [done|lia]. }
  exists s, [x]. split; [exact Hr|].
  destruct (inode_numbers_exclusive 128 [x] s) as (H1 & _); [lia|lia|exact Hr|]. split; [exact H1|reflexivity].
Defined.

End Inodes.

(** ** Device blocks *)
Module Blocks.

(** [ADDRINFO] and [nvmstartblock]. *)
Record space : Type := mkSpace {
  ADDRINFO : addr_info;
  nvmstartblock : Z
}.

Definition upd (f : addr_info → addr_info) (s : space) : space :=
  mkSpace (f (ADDRINFO s)) (nvmstartblock s).

(** [allocate_nvmblock(blocks)]: the byte address; past the end of the device
    the cursor returns to [nvmstartblock]. *)
Definition allocate_nvmblock (blocks : Z) (s : space) : Z * space :=
  let a := nvm_block_addr (ADDRINFO s) in
  if u64 (a + blocks) <=? NVMSIZE then
    (shl64 a g_block_size_shift, upd (set_nvm (u64 (a + blocks))) s)
  else
    let a := nvmstartblock s in
    (shl64 a g_block_size_shift, upd (set_nvm (u64 (a + blocks))) s).

(** [allocatenvmblock(blocks, ip)]: the number of blocks given and the byte
    address stored to [ip->nvmoff]; near the end the rest is given. *)
Definition allocatenvmblock (blocks : Z) (s : space) : (Z * Z) * space :=
  let a := nvm_block_addr (ADDRINFO s) in
  if u64 (a + blocks) <=? NVMSIZE then
    ((blocks, shl64 a g_block_size_shift), upd (set_nvm (u64 (a + blocks))) s)
  else if a <? NVMSIZE then
    let size := u64 (NVMSIZE - a) in
    ((size, shl64 a g_block_size_shift), upd (set_nvm (u64 (a + size))) s)
  else ((0, 0), s).

(** [allocate_ssdblocks(blocks, flag)]: counters in 4 KiB blocks. *)
Definition allocate_ssdblocks (blocks flag : Z) : M space Z :=
  s ← get;
  let i := ADDRINFO s in
  if flag =? 0 then
    modify (upd (set_ssd1 (u64 (ssd1_block_addr i + blocks)))) ;;
    mret (shl64 (ssd1_block_addr i) 12)
  else if flag =? 1 then
    modify (upd (set_ssd2 (u64 (ssd2_block_addr i + blocks)))) ;;
    mret (shl64 (ssd2_block_addr i) 12)
  else if flag =? 2 then
    modify (upd (set_ssd3 (u64 (ssd3_block_addr i + blocks)))) ;;
    mret (shl64 (ssd3_block_addr i) 12)
  else panic "allocate_ssdblock error".

(** [allocate_ssd1block] and its two siblings: counters in 2 MiB blocks. *)
Definition allocate_ssd1block (s : space) : Z * space :=
  let a := ssd1_block_addr (ADDRINFO s) in
  (shl64 a 21, upd (set_ssd1 (u64 (a + 1))) s).
Definition allocate_ssd2block (s : space) : Z * space :=
  let a := ssd2_block_addr (ADDRINFO s) in
  (shl64 a 21, upd (set_ssd2 (u64 (a + 1))) s).
Definition allocate_ssd3block (s : space) : Z * space :=
  let a := ssd3_block_addr (ADDRINFO s) in
  (shl64 a 21, upd (set_ssd3 (u64 (a + 1))) s).

(** [allocate_ssdblock(devid)]: no case for other devices, where the result
    is the uninitialised [allospace]. *)
Definition allocate_ssdblock (devid : Z) : M space Z := λ s,
  if devid =? 1 then Ok (allocate_ssd1block s)
  else if devid =? 2 then Ok (allocate_ssd2block s)
  else if devid =? 3 then Ok (allocate_ssd3block s)
  else Fault "allospace uninitialised".

(** *** Ranges handed out

    A range is a byte address and a length in bytes. *)
Definition range : Type := Z * Z.
Definition apart (r1 r2 : range) : Prop := r1.1 + r1.2 ≤ r2.1 ∨ r2.1 + r2.2 ≤ r1.1.
#[export] Instance apart_dec r1 r2 : Decision (apart r1 r2).
Proof. unfold apart. apply _. Defined.

(** A run of [allocate_ssdblocks] on one device, the requests in blocks, and
    a run of 2 MiB allocations. *)
Fixpoint run_ssdblocks (flag : Z) (reqs : list Z) (s : space) : outcome (list range * space) :=
  match reqs with
  | [] => Ok ([], s)
  | n :: reqs =>
      '(a, s) ← allocate_ssdblocks n flag s;
      '(l, s) ← run_ssdblocks flag reqs s;
      Ok ((a, n * 4096) :: l, s)
  end.

Fixpoint run_ssdblock (devid : Z) (n : nat) (s : space) : outcome (list range * space) :=
  match n with
  | O => Ok ([], s)
  | S n =>
      '(a, s) ← allocate_ssdblock devid s;
      '(l, s) ← run_ssdblock devid n s;
      Ok ((a, 2 ^ 21) :: l, s)
  end.

Definition ssd_counter (flag : Z) (s : space) : Z :=
  if flag =? 0 then ssd1_block_addr (ADDRINFO s)
  else if flag =? 1 then ssd2_block_addr (ADDRINFO s)
  else ssd3_block_addr (ADDRINFO s).

(** Ranges in address order from [lo] on, which are pairwise apart. *)
Inductive ascending : Z → list range → Prop :=
  | asc_nil lo : ascending lo []
  | asc_cons lo r l : lo ≤ r.1 → 0 ≤ r.2 → ascending (r.1 + r.2) l → ascending lo (r :: l).

Lemma ascending_apart lo l :
  ascending lo l → ∀ i j r1 r2, i ≠ j → l !! i = Some r1 → l !! j = Some r2 → apart r1 r2.
Proof.
  assert (Hlow : ∀ lo l, ascending lo l → ∀ i r, l !! i = Some r → lo ≤ r.1).
  { clear. induction 1 as [|lo r l H1 H2 H3 IH]; intros i r' Hi; [done|].
    destruct i; simpl in Hi; [by simplify_eq|]. apply IH in Hi. lia. }
  induction 1 as [|lo r l H1 H2 H3 IH]; intros i j r1 r2 Hne Hi Hj; [done|].
  unfold apart. destruct i, j; simpl in *; simplify_eq.
  - left. by eapply Hlow.
  - right. by eapply Hlow.
  - eapply (IH i j); [congruence|done..].
Qed.

Lemma allocate_ssdblocks_ok n flag s :
  0 ≤ flag ≤ 2 → 0 ≤ n → 0 ≤ ssd_counter flag s → ssd_counter flag s + n < 2 ^ 52 →
  ∃ s', allocate_ssdblocks n flag s = Ok (ssd_counter flag s * 4096, s')
    ∧ ssd_counter flag s' = ssd_counter flag s + n.
Proof.
  intros Hf Hn. assert (flag = 0 ∨ flag = 1 ∨ flag = 2) as [-> | [-> | ->]] by lia;
    unfold ssd_counter, allocate_ssdblocks; unfold_M; simpl; intros H0 Hb;
    (eexists; split; [rewrite shl64_small by lia; reflexivity|]); simpl;
    rewrite u64_small by lia; reflexivity.
Qed.

Lemma run_ssdblocks_ok flag reqs s :
  0 ≤ flag ≤ 2 → Forall (λ n, 0 ≤ n) reqs → 0 ≤ ssd_counter flag s →
  ssd_counter flag s + foldr Z.add 0 reqs < 2 ^ 52 →
  ∃ l s', run_ssdblocks flag reqs s = Ok (l, s')
    ∧ ascending (ssd_counter flag s * 4096) l
    ∧ (λ r, r.2) <$> l = (λ n, n * 4096) <$> reqs
    ∧ ssd_counter flag s' = ssd_counter flag s + foldr Z.add 0 reqs.
Proof.
  intros Hf Hr. revert s. induction Hr as [|n reqs Hn Hr IH]; intros s H0 Hb.
  { exists [], s. repeat split; [constructor|simpl; lia]. }
  simpl in Hb. assert (0 ≤ foldr Z.add 0 reqs) by (clear -Hr; induction Hr; simpl; lia).
  destruct (allocate_ssdblocks_ok n flag s Hf Hn H0 ltac:(lia)) as (s1 & E1 & Hc1).
  destruct (IH s1 ltac:(lia) ltac:(lia)) as (l & s2 & E2 & Ha & Hm & Hc2).
  exists ((ssd_counter flag s * 4096, n * 4096) :: l), s2.
  split. { simpl. rewrite E1. simpl. rewrite E2. done. }
  split. { constructor; simpl; [lia|lia|]. replace (_ + _) with (ssd_counter flag s1 * 4096) by lia. done. }
  split; simpl; [f_equal; exact Hm|lia].
Qed.

Lemma allocate_ssdblock_ok devid s :
  1 ≤ devid ≤ 3 → 0 ≤ ssd_counter (devid - 1) s → ssd_counter (devid - 1) s + 1 < 2 ^ 43 →
  ∃ s', allocate_ssdblock devid s = Ok (ssd_counter (devid - 1) s * 2 ^ 21, s')
    ∧ ssd_counter (devid - 1) s' = ssd_counter (devid - 1) s + 1.
Proof.
  intros Hf. assert (devid = 1 ∨ devid = 2 ∨ devid = 3) as [-> | [-> | ->]] by lia;
    unfold ssd_counter, allocate_ssdblock, allocate_ssd1block, allocate_ssd2block,
      allocate_ssd3block; simpl; intros H0 Hb;
    (eexists; split; [rewrite shl64_small by lia; reflexivity|]); simpl;
    rewrite u64_small by lia; reflexivity.
Qed.

Lemma run_ssdblock_ok devid n s :
  1 ≤ devid ≤ 3 → 0 ≤ ssd_counter (devid - 1) s →
  ssd_counter (devid - 1) s + Z.of_nat n < 2 ^ 43 →
  ∃ l s', run_ssdblock devid n s = Ok (l, s') ∧ length l = n
    ∧ ascending (ssd_counter (devid - 1) s * 2 ^ 21) l.
Proof.
  intros Hf. revert s. induction n as [|n IH]; intros s H0 Hb.
  { exists [], s. repeat split. constructor. }
  destruct (allocate_ssdblock_ok devid s Hf H0 ltac:(lia)) as (s1 & E1 & Hc1).
  destruct (IH s1 ltac:(lia) ltac:(lia)) as (l & s2 & E2 & Hl & Ha).
  eexists (_ :: l), s2.
  split. { cbn [run_ssdblock]. rewrite E1. simpl. rewrite E2. done. }
  split; [simpl; lia|]. constructor; simpl; [lia|lia|].
  replace (_ + _) with (ssd_counter (devid - 1) s1 * 2 ^ 21) by lia. done.
Qed.

(** The 4 KiB and the 2 MiB allocators of one SSD advance the same
    counter in different units: a 2 MiB block and a later 4 KiB request
    overlap. *)
Theorem mixed_units_overlap s :
  0 < ssd1_block_addr (ADDRINFO s) < 2 ^ 20 →
  let c := ssd1_block_addr (ADDRINFO s) in
  ∃ s', allocate_ssdblock 1 s = Ok (c * 2 ^ 21, s')
  ∧ ∃ s'', allocate_ssdblocks (512 * c) 0 s' = Ok ((c + 1) * 4096, s'')
  ∧ ¬ apart (c * 2 ^ 21, 2 ^ 21) ((c + 1) * 4096, 512 * c * 4096).
Proof.
  intros Hc c.
  destruct (allocate_ssdblock_ok 1 s) as (s1 & E1 & H1); [lia|simpl; unfold ssd_counter; simpl; lia..|].
  destruct (allocate_ssdblocks_ok (512 * c) 0 s1) as (s2 & E2 & H2);
    [lia|lia|unfold ssd_counter in *; simpl in *; lia..|].
  exists s1. split; [exact E1|]. exists s2.
  split; [rewrite E2; unfold ssd_counter in *; simpl in *; by rewrite H1|].
  unfold apart; simpl. change (2 ^ 21) with 2097152. lia.
Qed.

(** *** NVM *)

(** One allocation stays in the device and starts either at the cursor or,
    when the rest is too small, at [nvmstartblock]. *)
Lemma allocate_nvmblock_ok blocks s :
  let a := nvm_block_addr (ADDRINFO s) in
  0 ≤ a ≤ NVMSIZE → 0 ≤ nvmstartblock s → 0 ≤ blocks →
  nvmstartblock s + blocks ≤ NVMSIZE →
  ∃ b s', allocate_nvmblock blocks s = (b * 4096, s')
    ∧ b = (if a + blocks <=? NVMSIZE then a else nvmstartblock s)
    ∧ nvm_block_addr (ADDRINFO s') = b + blocks ∧ b + blocks ≤ NVMSIZE
    ∧ nvmstartblock s' = nvmstartblock s.
Proof.
  intros a Ha Hs Hb Hfit. unfold NVMSIZE in Ha, Hfit. unfold allocate_nvmblock, NVMSIZE.
  fold a. rewrite (u64_small (a + blocks)) by lia. change g_block_size_shift with 12.
  destruct (Z.leb_spec (a + blocks) (10 * 1024 * 1024)) as [Hle|Hle].
  - exists a. eexists. rewrite shl64_small by lia.
    split; [reflexivity|]. repeat split; simpl; lia.
  - exists (nvmstartblock s). eexists. rewrite shl64_small by lia.
    split; [reflexivity|]. rewrite u64_small by lia. repeat split; simpl; lia.
Qed.

Fixpoint run_nvm (reqs : list Z) (s : space) : list range * space :=
  match reqs with
  | [] => ([], s)
  | n :: reqs =>
      let '(a, s) := allocate_nvmblock n s in
      let '(l, s) := run_nvm reqs s in
      ((a, n * 4096) :: l, s)
  end.

(** Until the requests exhaust the device, ranges are apart. *)
Lemma run_nvm_ok reqs s :
  let a := nvm_block_addr (ADDRINFO s) in
  0 ≤ a → 0 ≤ nvmstartblock s ≤ a → Forall (λ n, 0 ≤ n) reqs →
  a + foldr Z.add 0 reqs ≤ NVMSIZE →
  ascending (a * 4096) (run_nvm reqs s).1.
Proof.
  intros a H0 Hs Hr. revert s a H0 Hs. induction Hr as [|n reqs Hn Hr IH]; intros s a H0 Hs Hb.
  { constructor. }
  simpl in Hb. assert (0 ≤ foldr Z.add 0 reqs) by (clear -Hr; induction Hr; simpl; lia).
  simpl. destruct (allocate_nvmblock_ok n s) as (b & s1 & E1 & Hb1 & Hc1 & Hle & Hs1);
    [fold a; lia|lia|lia|lia|].
  fold a in Hb1. destruct (Z.leb_spec (a + n) NVMSIZE); [|lia]. subst b.
  rewrite E1. specialize (IH s1). rewrite Hc1 in IH.
  destruct (run_nvm reqs s1) as [l s2]. simpl in *.
  constructor; simpl; [lia|lia|]. replace (_ + _) with ((a + n) * 4096) by lia.
  apply IH; lia.
Qed.

(** When the persistent memory is exhausted allocate_nvmblock starts
    again at nvmstartblock: two equal requests get the same address while the
    first one is still in use. *)
Theorem allocate_nvmblock_repeats blocks s :
  nvm_block_addr (ADDRINFO s) = nvmstartblock s → 0 ≤ nvmstartblock s → 0 < blocks →
  nvmstartblock s + blocks ≤ NVMSIZE → NVMSIZE < nvmstartblock s + 2 * blocks →
  ∃ a s1 s2, allocate_nvmblock blocks s = (a, s1) ∧ allocate_nvmblock blocks s1 = (a, s2).
Proof.
  intros He Hs Hb Hfit Hlt.
  destruct (allocate_nvmblock_ok blocks s) as (b & s1 & E1 & Hb1 & Hc1 & Hle & Hs1); [lia..|].
  rewrite He in Hb1. destruct (Z.leb_spec (nvmstartblock s + blocks) NVMSIZE); [|lia].
  destruct (allocate_nvmblock_ok blocks s1) as (b2 & s2 & E2 & Hb2 & _); [lia..|].
  rewrite Hc1 in Hb2. destruct (Z.leb_spec (b + blocks + blocks) NVMSIZE); [lia|].
  exists (b * 4096), s1, s2. split; [done|]. rewrite E2. do 2 f_equal. congruence.
Qed.

(** [allocatenvmblock] gives at most what is left and never goes back. *)
Lemma allocatenvmblock_ok blocks s n off s' :
  let a := nvm_block_addr (ADDRINFO s) in
  0 ≤ a → a < 2 ^ 63 → 0 ≤ blocks < 2 ^ 63 → allocatenvmblock blocks s = (n, off, s') →
  n = Z.min blocks (Z.max 0 (NVMSIZE - a))
  ∧ nvm_block_addr (ADDRINFO s') = a + n
  ∧ (0 < n → off = a * 4096).
Proof.
  intros a H0 H1 Hb. unfold allocatenvmblock. fold a.
  rewrite (u64_small (a + blocks)) by lia.
  change g_block_size_shift with 12. unfold NVMSIZE.
  destruct (Z.leb_spec (a + blocks) (10 * 1024 * 1024)).
  - intros [= <- <- <-]. simpl. split; [lia|]. split; [done|].
    intros. rewrite shl64_small; lia.
  - destruct (Z.ltb_spec a (10 * 1024 * 1024)).
    + rewrite (u64_small (_ - a)) by lia. intros [= <- <- <-]. simpl. split; [lia|].
      split; [apply u64_small; lia|]. intros. rewrite shl64_small; lia.
    + intros [= <- <- <-]. split; [lia|]. split; [fold a; lia|lia].
Qed.

(** A run of allocate_ssdblocks on one device succeeds and hands out
    byte ranges of the requested lengths that do not overlap. *)
Theorem ssd_ranges_apart flag reqs s :
  0 ≤ flag ≤ 2 → Forall (λ n, 0 ≤ n) reqs → 0 ≤ ssd_counter flag s →
  ssd_counter flag s + foldr Z.add 0 reqs < 2 ^ 52 →
  ∃ l s', run_ssdblocks flag reqs s = Ok (l, s')
    ∧ snd <$> l = (λ n, n * 4096) <$> reqs
    ∧ (∀ i j r1 r2, i ≠ j → l !! i = Some r1 → l !! j = Some r2 → apart r1 r2)
    ∧ ssd_counter flag s' = ssd_counter flag s + foldr Z.add 0 reqs.
Proof.
  intros Hf Hr H0 Hb. destruct (run_ssdblocks_ok flag reqs s Hf Hr H0 Hb) as (l & s' & E & Ha & Hm & Hc).
  exists l, s'. split; [done|]. split; [done|]. split; [by eapply ascending_apart|done].
Qed.

Definition demo_space : space := mkSpace (mkAddr 512 1 1 1 0) 512.

Lemma ssd_ranges_apart_witness :
  ∃ l s', run_ssdblocks 0 [3; 5] demo_space = Ok (l, s')
    ∧ snd <$> l = [12288; 20480]
    ∧ (∀ i j r1 r2, i ≠ j → l !! i = Some r1 → l !! j = Some r2 → apart r1 r2)
    ∧ ssd_counter 0 s' = 9.
Proof.
  apply (ssd_ranges_apart 0 [3; 5] demo_space); [lia|repeat constructor; lia|vm_compute; done..].
Defined.

(** Until the requests exhaust the persistent memory, the ranges
    allocate_nvmblock hands out do not overlap. *)
Theorem nvm_ranges_apart reqs s :
  let a := nvm_block_addr (ADDRINFO s) in
  0 ≤ a → 0 ≤ nvmstartblock s ≤ a → Forall (λ n, 0 ≤ n) reqs →
  a + foldr Z.add 0 reqs ≤ NVMSIZE →
  ∀ i j r1 r2, i ≠ j → (run_nvm reqs s).1 !! i = Some r1 → (run_nvm reqs s).1 !! j = Some r2 →
  apart r1 r2.
Proof. intros a H0 Hs Hr Hb. eapply ascending_apart. by apply run_nvm_ok. Qed.

Lemma nvm_ranges_apart_witness :
  (run_nvm [512; 4] demo_space).1 = [(2097152, 2097152); (4194304, 16384)]
  ∧ apart (2097152, 2097152) (4194304, 16384).
Proof.
  split; [reflexivity|]. apply (nvm_ranges_apart [512; 4] demo_space) with (i := 0%nat) (j := 1%nat);
    try reflexivity; try done; repeat constructor; done.
Defined.

Lemma allocate_nvmblock_repeats_witness :
  ∃ a s1 s2, allocate_nvmblock 10485248 demo_space = (a, s1) ∧ allocate_nvmblock 10485248 s1 = (a, s2).
Proof. apply (allocate_nvmblock_repeats 10485248 demo_space); vm_compute; done. Defined.

Lemma mixed_units_overlap_witness :
  ∃ s', allocate_ssdblock 1 demo_space = Ok (2 ^ 21, s')
  ∧ ∃ s'', allocate_ssdblocks 512 0 s' = Ok (8192, s'')
  ∧ ¬ apart (2 ^ 21, 2 ^ 21) (8192, 512 * 4096).
Proof. apply (mixed_units_overlap demo_space). vm_compute. done. Defined.

End Blocks.
