(* ===== verification/Log.v ===== *)
(** * Log: the operation log of [filesystem/fs.h]

    Metadata updates are appended to a memory-mapped log of 8 MiB that the
    kernel side replays: extents and attribute changes as 32-byte entries,
    directory entries as 64-byte entries that never cross a 4 KiB page, and
    at shutdown the allocation state.  The model has the packed structs as
    little-endian bytes and the mapping as a byte memory addressed relative
    to [logbase]. *)
From Stdlib Require Import ZArith Lia.
From stdpp Require Import base numbers list gmap strings.
From S2P Require Import Prelude Util Bytes Alloc.

(** ** Log entries *)

(** [enum nova_entry_type]. *)
Definition FILE_WRITE : Z := 1.
Definition DIR_LOG : Z := 2.
Definition SET_ATTR : Z := 3.
Definition LINK_CHANGE : Z := 4.

(** [struct setattr_logentry]. *)
Record setattr_logentry : Type := mkSetattr {
  sa_ino : Z; sa_entry_type : Z; sa_attr : Z; sa_mode : Z; sa_mtime : Z;
  sa_isdel : Z; sa_padding : Z; sa_ctime : Z; sa_uid : Z; sa_gid : Z; sa_size : Z
}.
Definition setattr_fields (e : setattr_logentry) : list (nat * Z) :=
  [(4%nat, sa_ino e); (1%nat, sa_entry_type e); (1%nat, sa_attr e); (2%nat, sa_mode e);
   (4%nat, sa_mtime e); (2%nat, sa_isdel e); (2%nat, sa_padding e); (4%nat, sa_ctime e);
   (4%nat, sa_uid e); (4%nat, sa_gid e); (4%nat, sa_size e)].

(** [struct fuckfs_extent]. *)
Record fuckfs_extent : Type := mkExtent {
  ex_ino : Z; ex_entry_type : Z; ex_device_id : Z; ex_blkoff_hi : Z; ex_isappend : Z;
  ex_mtime : Z; ext_block : Z; ext_len : Z; ext_start_hi : Z; ext_start_lo : Z;
  ex_size : Z; ex_blkoff_lo : Z
}.
Definition extent_fields (e : fuckfs_extent) : list (nat * Z) :=
  [(4%nat, ex_ino e); (1%nat, ex_entry_type e); (1%nat, ex_device_id e); (1%nat, ex_blkoff_hi e);
   (1%nat, ex_isappend e); (4%nat, ex_mtime e); (4%nat, ext_block e); (2%nat, ext_len e);
   (2%nat, ext_start_hi e); (4%nat, ext_start_lo e); (4%nat, ex_size e); (4%nat, ex_blkoff_lo e)].

(** [struct fuckfs_dentry]: the name is a buffer of 32 bytes. *)
Record fuckfs_dentry : Type := mkDentry {
  de_ino : Z; de_entry_type : Z; de_name_len : Z; de_file_type : Z; de_addordel : Z;
  de_mtime : Z; de_invalid : Z; de_padding : Z; de_links_count : Z; de_fino : Z;
  de_size : Z; de_name : list Z
}.
Definition dentry_fields (e : fuckfs_dentry) : list (nat * Z) :=
  [(4%nat, de_ino e); (1%nat, de_entry_type e); (1%nat, de_name_len e); (1%nat, de_file_type e);
   (1%nat, de_addordel e); (4%nat, de_mtime e); (1%nat, de_invalid e); (1%nat, de_padding e);
   (2%nat, de_links_count e); (8%nat, de_fino e); (8%nat, de_size e)].

(** [struct link_change_entry]. *)
Record link_change_entry : Type := mkLink {
  lc_ino : Z; lc_entry_type : Z; lc_padding : Z; lc_links : Z; lc_mtime : Z;
  lc_ctime : Z; lc_flags : Z; lc_generation : Z; lc_paddings0 : Z; lc_paddings1 : Z
}.
Definition link_fields (e : link_change_entry) : list (nat * Z) :=
  [(4%nat, lc_ino e); (1%nat, lc_entry_type e); (1%nat, lc_padding e); (2%nat, lc_links e);
   (4%nat, lc_mtime e); (4%nat, lc_ctime e); (4%nat, lc_flags e); (4%nat, lc_generation e);
   (4%nat, lc_paddings0 e); (4%nat, lc_paddings1 e)].

Definition addr_info_fields (a : addr_info) : list (nat * Z) :=
  [(8%nat, nvm_block_addr a); (8%nat, ssd1_block_addr a); (8%nat, ssd2_block_addr a);
   (8%nat, ssd3_block_addr a); (8%nat, free_inode_base a)].

(** The objects in memory. *)
Definition setattr_bytes (e : setattr_logentry) : list Z := pack (setattr_fields e).
Definition extent_bytes (e : fuckfs_extent) : list Z := pack (extent_fields e).
Definition dentry_bytes (e : fuckfs_dentry) : list Z := pack (dentry_fields e) ++ de_name e.
Definition link_bytes (e : link_change_entry) : list Z := pack (link_fields e).
Definition addr_info_bytes (a : addr_info) : list Z := pack (addr_info_fields a).

Definition sizeof_extent : Z := 32.
Definition sizeof_dentry : Z := 64.
Definition sizeof_addr_info : Z := 40.

(** Reading the structs back. *)
Definition extent_of (bs : list Z) : option fuckfs_extent :=
  match unpack [4; 1; 1; 1; 1; 4; 4; 2; 2; 4; 4; 4]%nat bs with
  | [a; b; c; d; e; f; g; h; i; j; k; l] => Some (mkExtent a b c d e f g h i j k l)
  | _ => None
  end.
Definition dentry_of (bs : list Z) : option fuckfs_dentry :=
  match unpack [4; 1; 1; 1; 1; 4; 1; 1; 2; 8; 8]%nat bs with
  | [a; b; c; d; e; f; g; h; i; j; k] =>
      Some (mkDentry a b c d e f g h i j k (drop 32 bs))
  | _ => None
  end.
Definition setattr_of (bs : list Z) : option setattr_logentry :=
  match unpack [4; 1; 1; 2; 4; 2; 2; 4; 4; 4; 4]%nat bs with
  | [a; b; c; d; e; f; g; h; i; j; k] => Some (mkSetattr a b c d e f g h i j k)
  | _ => None
  end.

(** ** The log *)

(** [logspace], and the state: the mapping, [logstart] relative to [logbase],
    [logoffset] and [logsoff]. *)
Definition logspace : Z := 8 * 1024 * 1024.

Record log : Type := mkLog {
  mem : memory;
  logstart : Z;
  logoffset : Z;
  logsoff : Z
}.

(** [loginit]: the content of the file is whatever was there. *)
Definition loginit (m : memory) : log := mkLog m 0 0 0.

(** [append_entry_log(entry, flag)], [entry] given as the object's bytes. *)
Definition append_entry_log (entry : list Z) (flag : Z) (l : log) : log :=
  let l := if logspace <? u64 (logoffset l + sizeof_dentry)
           then mkLog (mem l) (logstart l) 0 (logsoff l) else l in
  let logaddr := logstart l + logoffset l in
  if flag =? 0 then
    mkLog (store logaddr (take 32 entry) (mem l)) (logstart l)
      (u64 (logoffset l + sizeof_extent)) (logsoff l)
  else
    let inpage := Z.land (logoffset l) (g_block_size_bytes - 1) in
    let l := if g_block_size_bytes <? inpage + sizeof_dentry then
               mkLog (store logaddr (replicate (Z.to_nat (g_block_size_bytes - inpage)) 0) (mem l))
                 (logstart l)
                 (u64 (Z.land (logoffset l) (not64 (g_block_size_bytes - 1)) + g_block_size_bytes))
                 (logsoff l)
             else l in
    let logaddr := logstart l + logoffset l in
    mkLog (store logaddr (take 64 entry) (mem l)) (logstart l)
      (u64 (logoffset l + sizeof_dentry)) (logsoff l).

(** [append_addrinfo_log()]: [logoffset >>page_shift +1] shifts by 13.  The
    read of [fsinode_table[bitmapnum]] is out of bounds when every inode
    number is taken. *)
Definition append_addrinfo_log (a : addr_info) (t : Inodes.table) (l : log)
    : outcome (addr_info * log) :=
  let offset := if (4096 - sizeof_addr_info) <? Z.land (logoffset l) 4095
                then shl64 (shr64 (logoffset l) 13) 12 else logoffset l in
  match Inodes.fsinode_table t !! Inodes.bitmapnum t with
  | None => Fault "fsinode_table out of bounds"
  | Some base =>
      let a := mkAddr (nvm_block_addr a) (ssd1_block_addr a) (ssd2_block_addr a)
                 (ssd3_block_addr a) base in
      Ok (a, mkLog (store (logstart l + offset) (addr_info_bytes a) (mem l))
               (logstart l) (logoffset l) (logsoff l))
  end.

(** [synclog()]: the range passed to the kernel, and the moved start. *)
Definition synclog (l : log) : (Z * Z) * log :=
  ((logstart l, logstart l + logoffset l),
   mkLog (mem l) (logoffset l) (logoffset l) (logoffset l)).

(** ** Round trips of the structs *)
Lemma extent_roundtrip e rest :
  Forall field_ok (extent_fields e) → extent_of (extent_bytes e ++ rest) = Some e.
Proof.
  intros H. unfold extent_of, extent_bytes.
  pose proof (unpack_pack (extent_fields e) rest H) as E.
  change (fst <$> extent_fields e) with [4; 1; 1; 1; 1; 4; 4; 2; 2; 4; 4; 4]%nat in E.
  rewrite E. by destruct e.
Qed.

Lemma setattr_roundtrip e rest :
  Forall field_ok (setattr_fields e) → setattr_of (setattr_bytes e ++ rest) = Some e.
Proof.
  intros H. unfold setattr_of, setattr_bytes.
  pose proof (unpack_pack (setattr_fields e) rest H) as E.
  change (fst <$> setattr_fields e) with [4; 1; 1; 2; 4; 2; 2; 4; 4; 4; 4]%nat in E.
  rewrite E. by destruct e.
Qed.

Lemma dentry_roundtrip e :
  Forall field_ok (dentry_fields e) → dentry_of (dentry_bytes e) = Some e.
Proof.
  intros H. unfold dentry_of, dentry_bytes.
  pose proof (unpack_pack (dentry_fields e) (de_name e) H) as E.
  change (fst <$> dentry_fields e) with [4; 1; 1; 1; 1; 4; 1; 1; 2; 8; 8]%nat in E.
  rewrite E. rewrite drop_app_length' by (by rewrite pack_length). by destruct e.
Qed.

(** ** Appending *)

(** Where an entry goes: the start of the free part after the wrap test, and
    for a directory entry the next page when it would cross one. *)
Definition wrapped (off : Z) : Z := if logspace <? off + 64 then 0 else off.
Definition place (flag off : Z) : Z :=
  let b := wrapped off in
  if flag =? 0 then b
  else if 4096 <? b mod 4096 + 64 then b - b mod 4096 + 4096 else b.
Definition entry_len (flag : Z) : Z := if flag =? 0 then 32 else 64.

Lemma place_bounds flag off :
  0 ≤ off ≤ logspace →
  let p := place flag off in
  wrapped off ≤ p ∧ 0 ≤ p ∧ p + entry_len flag ≤ logspace
  ∧ p + entry_len flag ≤ wrapped off + 127
  ∧ (flag ≠ 0 → p mod 4096 + 64 ≤ 4096).
Proof.
  intros Ho p. unfold p, place, entry_len.
  assert (Hw : 0 ≤ wrapped off ∧ wrapped off + 64 ≤ logspace).
  { unfold wrapped, logspace in *. case_if; lia. }
  generalize dependent (wrapped off). intros w [Hw0 Hw1].
  pose proof (Z.mod_pos_bound w 4096 ltac:(lia)) as Hm.
  assert (Hl : w + 64 ≤ logspace → w - w mod 4096 + 4096 ≤ logspace).
  { intros. unfold logspace in *. pose proof (Z.div_mod w 4096 ltac:(lia)).
    assert (w / 4096 < 2048) by (apply Z.div_lt_upper_bound; lia). lia. }
  destruct (Z.eqb_spec flag 0); [subst; repeat split; lia|].
  destruct (Z.ltb_spec 4096 (w mod 4096 + 64)).
  - assert (Hz : (w - w mod 4096 + 4096) mod 4096 = 0).
    { replace (w - w mod 4096 + 4096) with ((w / 4096 + 1) * 4096).
      - apply Z.mod_mul. lia.
      - pose proof (Z.div_mod w 4096 ltac:(lia)). lia. }
    assert (w - w mod 4096 + 4096 + 64 ≤ logspace).
    { specialize (Hl Hw1). unfold logspace in *.
      destruct (decide (w - w mod 4096 + 4096 = 8 * 1024 * 1024)); [lia|].
      pose proof (multiple_unique (w - w mod 4096 + 4096) (8 * 1024 * 1024) 4096
        ltac:(lia) Hz ltac:(done)). lia. }
    repeat split; try lia.
  - repeat split; lia.
Qed.

(** One append: the entry is readable at its place, the cursor is behind it,
    and nothing before the free part changes. *)
Lemma append_entry_log_spec entry flag l :
  0 ≤ logoffset l ≤ logspace → Z.of_nat (length entry) = entry_len flag →
  let l' := append_entry_log entry flag l in
  let p := place flag (logoffset l) in
  logoffset l' = p + entry_len flag ∧ logstart l' = logstart l
  ∧ load (mem l') (logstart l + p) (length entry) = entry
  ∧ ∀ x, x < logstart l + wrapped (logoffset l) ∨ logstart l + logspace ≤ x →
      mem l' x = mem l x.
Proof.
  intros Ho Hlen. pose proof (place_bounds flag (logoffset l) Ho) as Hp. cbv zeta in *.
  assert (Hw64 : u64 (logoffset l + sizeof_dentry) = logoffset l + 64)
    by (unfold sizeof_dentry, logspace in *; rewrite u64_small; lia).
  unfold append_entry_log. rewrite Hw64.
  set (l1 := if logspace <? logoffset l + 64 then _ else l).
  assert (Hl1 : mem l1 = mem l ∧ logstart l1 = logstart l ∧ logoffset l1 = wrapped (logoffset l)).
  { unfold l1, wrapped. by case_if. }
  destruct Hl1 as (Hm1 & Hs1 & Ho1). rewrite Hm1, Hs1, Ho1. clearbody l1.
  unfold place, entry_len in *. set (w := wrapped (logoffset l)) in *.
  change (g_block_size_bytes - 1) with (2 ^ 12 - 1). unfold sizeof_dentry, sizeof_extent.
  change g_block_size_bytes with 4096.
  assert (0 ≤ w ∧ w + 64 ≤ logspace).
  { unfold w, wrapped, logspace in *. case_if; lia. }
  destruct (Z.eqb_spec flag 0).
  - simpl. rewrite take_ge by lia. unfold logspace in *. rewrite u64_small by lia.
    split; [done|]. split; [done|]. split; [apply load_store_same|].
    intros x Hx. apply store_outside. lia.
  - rewrite land_not64_mask by (unfold logspace in *; lia). rewrite land_mask by lia.
    change (2 ^ 12) with 4096 in *. pose proof (Z.mod_pos_bound w 4096 ltac:(lia)).
    set (c := 4096 <? w mod 4096 + 64) in *.
    set (l2 := if c then _ else l1).
    assert (Hl2 : logoffset l2 = (if c then w - w mod 4096 + 4096 else w) ∧ logstart l2 = logstart l
      ∧ ∀ x, x < logstart l + w ∨ logstart l + logspace ≤ x → mem l2 x = mem l x).
    { unfold l2. destruct c eqn:Ec; simpl.
      - split; [unfold logspace in *; apply u64_small; lia|]. split; [done|].
        intros x Hx. apply store_outside. rewrite length_replicate. lia.
      - rewrite Ho1, Hs1, Hm1. done. }
    destruct Hl2 as (Ho2 & Hs2 & Hm2). rewrite Ho2, Hs2. clearbody l2. simpl.
    rewrite take_ge by lia. rewrite u64_small by (unfold logspace in *; lia).
    split; [done|]. split; [done|]. split; [apply load_store_same|].
    intros x Hx. rewrite store_outside by lia. apply Hm2. lia.
Qed.

(** ** Histories of the log *)

(** A sequence of appends and the places of its entries. *)
Fixpoint run_log (es : list (Z * list Z)) (l : log) : log :=
  match es with
  | [] => l
  | (flag, e) :: es => run_log es (append_entry_log e flag l)
  end.
Fixpoint places (es : list (Z * list Z)) (off : Z) : list Z :=
  match es with
  | [] => []
  | (flag, e) :: es => place flag off :: places es (place flag off + entry_len flag)
  end.

Definition entry_ok (e : Z * list Z) : Prop := Z.of_nat (length e.2) = entry_len e.1.
#[export] Instance entry_ok_dec e : Decision (entry_ok e).
Proof. unfold entry_ok. apply _. Defined.

(** Bytes below the cursor stay while the log has room. *)
Lemma run_log_below es l :
  0 ≤ logoffset l → logoffset l + 128 * Z.of_nat (length es) ≤ logspace → Forall entry_ok es →
  logstart (run_log es l) = logstart l
  ∧ ∀ x, x < logstart l + logoffset l → mem (run_log es l) x = mem l x.
Proof.
  intros H0 Hb He. revert l H0 Hb. induction He as [|[flag e] es Hok He IH]; intros l H0 Hb; [done|].
  simpl in Hb. simpl. unfold entry_ok in Hok. simpl in Hok.
  assert (Hw : wrapped (logoffset l) = logoffset l) by (unfold wrapped; case_if; lia).
  destruct (append_entry_log_spec e flag l ltac:(lia) Hok) as (Ho & Hs & _ & Hm).
  destruct (place_bounds flag (logoffset l) ltac:(lia)) as (Hp1 & Hp2 & Hp3 & Hp4 & _).
  rewrite Hw in *. assert (0 ≤ entry_len flag) by (unfold entry_len; case_if; lia).
  destruct (IH (append_entry_log e flag l) ltac:(lia) ltac:(lia)) as [Hs' Hm'].
  rewrite Hs', Hs. split; [done|]. intros x Hx. rewrite Hm' by (rewrite Hs; lia). apply Hm. lia.
Qed.

(** After any sequence of append_entry_log calls that fits in the log,
    every entry can be read back at its place, entries stay inside the log,
    and no directory entry crosses a 4 KiB page. *)
Theorem run_log_readback es l :
  0 ≤ logoffset l → logoffset l + 128 * Z.of_nat (length es) ≤ logspace → Forall entry_ok es →
  ∀ i flag e, es !! i = Some (flag, e) →
  ∃ o, places es (logoffset l) !! i = Some o
    ∧ load (mem (run_log es l)) (logstart l + o) (length e) = e
    ∧ logoffset l ≤ o ∧ o + entry_len flag ≤ logspace
    ∧ (flag ≠ 0 → o mod 4096 + 64 ≤ 4096).
Proof.
  intros H0 Hb He. revert l H0 Hb. induction He as [|[flag e] es Hok He IH]; intros l H0 Hb i f' e' Hi; [done|].
  simpl in Hb. unfold entry_ok in Hok. simpl in Hok.
  assert (Hw : wrapped (logoffset l) = logoffset l) by (unfold wrapped; case_if; lia).
  destruct (append_entry_log_spec e flag l ltac:(lia) Hok) as (Ho & Hs & Hr & _).
  destruct (place_bounds flag (logoffset l) ltac:(lia)) as (Hp1 & Hp2 & Hp3 & Hp4 & Hp5).
  rewrite Hw in *. assert (0 ≤ entry_len flag) by (unfold entry_len; case_if; lia).
  destruct i as [|i]; simpl in Hi.
  - simplify_eq. exists (place f' (logoffset l)). split; [done|]. split; [|done].
    simpl. etransitivity; [|exact Hr]. apply load_ext. intros x Hx.
    apply run_log_below; [lia|lia|done|]. rewrite Hs, Ho. lia.
  - destruct (IH (append_entry_log e flag l) ltac:(lia) ltac:(lia) i f' e' Hi)
      as (o & Hpl & Hrd & Hlo & Hhi & Hpg).
    rewrite Ho in Hpl, Hlo. rewrite Hs in Hrd. exists o. simpl. repeat split; try done; lia.
Qed.

(** append_addrinfo_log near the end of a page does not go to the next
    page but back to a page boundary in the written part of the log, where
    its 40 bytes replace entries. *)
Theorem append_addrinfo_log_clobbers a t l a' l' :
  0 ≤ logoffset l ≤ logspace → 4096 - 40 < logoffset l mod 4096 →
  append_addrinfo_log a t l = Ok (a', l') →
  ∃ o, 0 ≤ o ∧ o mod 4096 = 0 ∧ o + 40 ≤ logoffset l
    ∧ load (mem l') (logstart l + o) 40 = addr_info_bytes a'.
Proof.
  intros Ho Hp. unfold append_addrinfo_log, sizeof_addr_info.
  change 4095 with (2 ^ 12 - 1). rewrite land_mask by lia. change (2 ^ 12) with 4096.
  destruct (Z.ltb_spec (4096 - 40) (logoffset l mod 4096)); [|lia].
  rewrite shr64_div by lia.
  pose proof (Z.div_mod (logoffset l) (2 ^ 13) ltac:(lia)) as Hd.
  pose proof (Z.mod_pos_bound (logoffset l) (2 ^ 13) ltac:(lia)).
  pose proof (Z.div_pos (logoffset l) (2 ^ 13)).
  pose proof (Z.mod_le (logoffset l) 4096 ltac:(lia) ltac:(lia)).
  rewrite shl64_small by (unfold logspace in *; lia).
  destruct (_ !! _) as [base|]; [|done]. intros [= <- <-]. simpl.
  exists (logoffset l / 2 ^ 13 * 2 ^ 12). split; [lia|]. split; [apply Z.mod_mul; lia|].
  split; [lia|].
  replace 40%nat with (length (addr_info_bytes (mkAddr (nvm_block_addr a) (ssd1_block_addr a)
    (ssd2_block_addr a) (ssd3_block_addr a) base))).
  - apply load_store_same.
  - unfold addr_info_bytes. by rewrite pack_length.
Qed.

(** Elsewhere in a page the allocation state follows the last entry. *)
Lemma append_addrinfo_log_ok a t l base :
  0 ≤ logoffset l → logoffset l mod 4096 ≤ 4096 - 40 →
  Inodes.fsinode_table t !! Inodes.bitmapnum t = Some base →
  ∃ a' l', append_addrinfo_log a t l = Ok (a', l') ∧ free_inode_base a' = base
    ∧ load (mem l') (logstart l + logoffset l) 40 = addr_info_bytes a'
    ∧ ∀ x, x < logstart l + logoffset l → mem l' x = mem l x.
Proof.
  intros Ho Hp Hb. unfold append_addrinfo_log, sizeof_addr_info. rewrite Hb.
  change 4095 with (2 ^ 12 - 1). rewrite land_mask by lia. change (2 ^ 12) with 4096.
  destruct (Z.ltb_spec (4096 - 40) (logoffset l mod 4096)); [lia|].
  eexists _, _. split; [done|]. split; [done|]. split.
  - apply (load_store_same _ (addr_info_bytes _)).
  - intros x Hx. apply store_outside. lia.
Qed.

(** After synclog the cursor is not reset although the start moves: past
    the middle of the log the next entry is written behind the end of the
    mapping. *)
Theorem synclog_leaves_mapping l e :
  logspace < 2 * logoffset l → logoffset l ≤ logspace - 64 → length e = 32%nat →
  let l' := append_entry_log e 0 (synclog l).2 in
  ∃ a, logspace < a ∧ load (mem l') a 32 = e.
Proof.
  intros Ho Ho' He l'.
  destruct (append_entry_log_spec e 0 (synclog l).2) as (_ & _ & Hr & _).
  { simpl. unfold logspace in *. lia. }
  { by rewrite He. }
  rewrite He in Hr. eexists. split; [|exact Hr]. simpl. unfold place, wrapped, logspace in *.
  simpl. case_if; lia.
Qed.

(** The packed extent, attribute and directory log entries are recovered
    from their bytes for all field values that fit their widths. *)
Theorem log_structs_roundtrip :
  (∀ e rest, Forall field_ok (extent_fields e) → extent_of (extent_bytes e ++ rest) = Some e)
  ∧ (∀ e rest, Forall field_ok (setattr_fields e) → setattr_of (setattr_bytes e ++ rest) = Some e)
  ∧ (∀ e, Forall field_ok (dentry_fields e) → dentry_of (dentry_bytes e) = Some e).
Proof.
  split; [apply extent_roundtrip|]. split; [apply setattr_roundtrip|apply dentry_roundtrip].
Qed.

(** ** Instances *)
Definition demo_extent : fuckfs_extent := mkExtent 7 FILE_WRITE 1 0 1 1000 3 2 0 8192 8192 0.
Definition empty_log : log := loginit (λ _, 0).

Lemma run_log_readback_witness :
  ∃ o, places [(0, extent_bytes demo_extent); (1, replicate 64 5)] 0 !! 1%nat = Some o
    ∧ load (mem (run_log [(0, extent_bytes demo_extent); (1, replicate 64 5)] empty_log)) (0 + o) 64
        = replicate 64 5
    ∧ 0 ≤ o ∧ o + 64 ≤ logspace ∧ (1 ≠ 0 → o mod 4096 + 64 ≤ 4096).
Proof.
  apply (run_log_readback [(0, extent_bytes demo_extent); (1, replicate 64 5)] empty_log)
    with (i := 1%nat) (flag := 1) (e := replicate 64 5); try (vm_compute; done). repeat constructor.
Defined.

(** The cursor is 32 bytes before the end of the second page. *)
Lemma append_addrinfo_log_clobbers_witness : ∃ a' l',
  append_addrinfo_log (mkAddr 1 2 3 4 5) (Inodes.mkTable [9] 0) (mkLog (λ _, 0) 0 8160 0) = Ok (a', l')
  ∧ ∃ o, 0 ≤ o ∧ o mod 4096 = 0 ∧ o + 40 ≤ 8160 ∧ load (mem l') (0 + o) 40 = addr_info_bytes a'.
Proof.
  eexists _, _. split; [reflexivity|].
  apply (append_addrinfo_log_clobbers (mkAddr 1 2 3 4 5) (Inodes.mkTable [9] 0) (mkLog (λ _, 0) 0 8160 0));
    [vm_compute; done..|reflexivity].
Defined.

Lemma synclog_leaves_mapping_witness :
  ∃ a, logspace < a
    ∧ load (mem (append_entry_log (replicate 32 5) 0 (synclog (mkLog (λ _, 0) 0 5000000 0)).2)) a 32
      = replicate 32 5.
Proof.
  apply (synclog_leaves_mapping (mkLog (λ _, 0) 0 5000000 0) (replicate 32 5)); vm_compute; done.
Defined.
