(* ===== verification/LogScan.v ===== *)
(** * LogScan: taking the log apart

    A reader that knows only the bytes of the log and its end: the fifth byte
    of an entry is its type, which gives its length; zeros are the filling
    before a page boundary.  After every sequence of [append_entry_log] that
    fits, the reader returns the entries in order. *)
From Stdlib Require Import ZArith Lia.
From stdpp Require Import base numbers list gmap strings.
From S2P Require Import Prelude Util Bytes Alloc Log.

(** ** The reader *)
Fixpoint scan_log (m : memory) (a top : Z) (fuel : nat) : list (Z * list Z) :=
  match fuel with
  | O => []
  | S fuel =>
      if top <=? a then []
      else if m (a + 4) =? 0 then scan_log m (a + 32) top fuel
      else if m (a + 4) =? DIR_LOG then (1, load m a 64) :: scan_log m (a + 64) top fuel
      else (0, load m a 32) :: scan_log m (a + 32) top fuel
  end.

Definition read_log (l : log) : list (Z * list Z) :=
  scan_log (mem l) (logstart l) (logstart l + logoffset l) (S (Z.to_nat (logoffset l / 32))).

(** Entries whose type tells their length. *)
Definition typed (e : Z * list Z) : Prop :=
  match e.2 !! 4%nat with
  | Some t => if decide (e.1 = 0) then t ≠ 0 ∧ t ≠ DIR_LOG else e.1 = 1 ∧ t = DIR_LOG
  | None => False
  end.

Lemma load_at m a n i x : load m a n !! i = Some x → m (a + Z.of_nat i) = x.
Proof. unfold load. rewrite list_lookup_fmap. destruct (seq 0 n !! i) eqn:E; [|done].
  apply lookup_seq in E as [-> _]. simpl. congruence. Qed.

(** The bytes the filling of a page leaves before a directory entry. *)
Lemma append_filling entry flag l x :
  0 ≤ logoffset l → logoffset l + 128 ≤ logspace → Z.of_nat (length entry) = entry_len flag →
  logstart l + logoffset l ≤ x < logstart l + place flag (logoffset l) →
  mem (append_entry_log entry flag l) x = 0.
Proof.
  intros H0 Hb Hlen Hx. unfold append_entry_log. unfold place in Hx.
  assert (Hw : wrapped (logoffset l) = logoffset l) by (unfold wrapped; case_if; lia).
  rewrite Hw in Hx. assert (Hu : u64 (logoffset l + sizeof_dentry) = logoffset l + 64)
    by (unfold sizeof_dentry, logspace in *; rewrite u64_small; lia).
  rewrite Hu. destruct (Z.ltb_spec logspace (logoffset l + 64)); [lia|].
  destruct (Z.eqb_spec flag 0); [lia|]. change (g_block_size_bytes - 1) with (2 ^ 12 - 1).
  unfold sizeof_dentry. change g_block_size_bytes with 4096.
  rewrite land_not64_mask by (unfold logspace in *; lia). rewrite land_mask by lia. change (2 ^ 12) with 4096.
  pose proof (Z.mod_pos_bound (logoffset l) 4096 ltac:(lia)).
  destruct (Z.ltb_spec 4096 (logoffset l mod 4096 + 64)); [|lia]. simpl.
  rewrite u64_small by (unfold logspace in *; lia).
  rewrite store_outside by lia. unfold store. rewrite length_replicate.
  rewrite (proj2 (Z.leb_le _ _)), (proj2 (Z.ltb_lt _ _)) by lia. simpl.
  rewrite list_lookup_total_alt, lookup_replicate_2 by lia. done.
Qed.

Lemma place_multiple flag off :
  0 ≤ off → off + 128 ≤ logspace → off mod 32 = 0 →
  place flag off = off ∨ (flag ≠ 0 ∧ place flag off = off + 32).
Proof.
  intros H0 Hb Hm. unfold place.
  assert (Hw : wrapped off = off) by (unfold wrapped; case_if; lia). rewrite Hw.
  destruct (Z.eqb_spec flag 0); [by left|]. destruct (Z.ltb_spec 4096 (off mod 4096 + 64)); [right|by left].
  split; [done|]. pose proof (Z.mod_pos_bound off 4096 ltac:(lia)).
  assert (E : (off mod 4096) mod 32 = 0) by (rewrite <- Hm; change 4096 with (32 * 128);
    rewrite Z.rem_mul_r, Z.mul_comm, Z_mod_plus_full, Z.mod_mod by lia; done).
  pose proof (Z.div_mod (off mod 4096) 32 ltac:(lia)). lia.
Qed.

(** An entry at its place, with the rest behind it. *)
Lemma scan_entry flag e es m a top fuel :
  entry_ok (flag, e) → typed (flag, e) → load m a (length e) = e → a + entry_len flag ≤ top →
  scan_log m (a + entry_len flag) top fuel = es → scan_log m a top (S fuel) = (flag, e) :: es.
Proof.
  unfold entry_ok, typed. cbn [fst snd]. intros Hl Ht Hr Htop Hs.
  destruct (e !! 4%nat) as [t|] eqn:Et; [|done].
  assert (Hm : m (a + 4) = t) by (apply (load_at m a (length e) 4); by rewrite Hr).
  cbn [scan_log]. rewrite Hm. unfold entry_len in *. destruct (decide (flag = 0)) as [->|Hf].
  - destruct Ht as [Ht1 Ht2]. change (0 =? 0) with true in *. cbn iota in *. rewrite (proj2 (Z.leb_gt _ _)) by lia.
    rewrite (proj2 (Z.eqb_neq _ _) Ht1), (proj2 (Z.eqb_neq _ _) Ht2). rewrite Hs.
    by replace 32%nat with (length e) by lia; rewrite Hr.
  - destruct Ht as [-> ->]. change (1 =? 0) with false in *. cbn iota in *. rewrite (proj2 (Z.leb_gt _ _)) by lia.
    cbn [Z.eqb DIR_LOG]. rewrite Hs. by replace 64%nat with (length e) by lia; rewrite Hr.
Qed.

(** The entries behind the cursor. *)
Lemma scan_run_log es : ∀ l fuel,
  0 ≤ logoffset l → logoffset l mod 32 = 0 → logoffset l + 128 * Z.of_nat (length es) ≤ logspace →
  Forall entry_ok es → Forall typed es →
  let l' := run_log es l in
  (Z.to_nat ((logoffset l' - logoffset l) / 32) < fuel)%nat →
  logoffset l ≤ logoffset l' ∧
  scan_log (mem l') (logstart l + logoffset l) (logstart l + logoffset l') fuel = es.
Proof.
  induction es as [|[flag e] es IH]; intros l fuel H0 Hm Hb Hok Ht l' Hf; cbv zeta in *; subst l'.
  { simpl. split; [lia|]. destruct fuel as [|fuel]; [lia|]. simpl. by rewrite (proj2 (Z.leb_le _ _)) by lia. }
  simpl in Hb. apply Forall_cons in Hok as [Hok Hoks]. apply Forall_cons in Ht as [Ht Hts].
  pose proof Hok as Hlen. unfold entry_ok in Hlen. simpl in Hlen.
  destruct (append_entry_log_spec e flag l ltac:(lia) Hlen) as (Ho & Hs & Hr & _).
  destruct (place_multiple flag (logoffset l) H0 ltac:(lia) Hm) as [Hp|[Hfl Hp]];
    set (p := place flag (logoffset l)) in *; set (l1 := append_entry_log e flag l) in *;
    (assert (Hel : entry_len flag = 32 ∨ entry_len flag = 64) by (unfold entry_len; case_if; auto)).
  all: assert (Hm1 : logoffset l1 mod 32 = 0) by
    (rewrite Ho, Hp; clear -Hm Hel; Z.to_euclidean_division_equations; lia).
  all: destruct (IH l1 (S (Z.to_nat ((logoffset (run_log es l1) - logoffset l1) / 32))) ltac:(lia) Hm1 ltac:(lia) Hoks Hts
    ltac:(lia)) as [Hle _].
  all: cbn [run_log] in *; fold l1 in Hf |- *; set (l' := run_log es l1) in *; split; [lia|].
  all: assert (Hbel : ∀ x, x < logstart l + p + entry_len flag → mem l' x = mem l1 x) by
    (intros x Hx; apply run_log_below; [lia|lia|done|]; rewrite Hs, Ho; lia).
  all: assert (Hhere : ∀ f, (Z.to_nat ((logoffset l' - logoffset l1) / 32) < f)%nat →
      scan_log (mem l') (logstart l + p) (logstart l + logoffset l') (S f) = (flag, e) :: es) by
    (intros f Hfu; apply scan_entry; [done|done| |lia|];
     [rewrite <- Hr at 2; apply load_ext; intros x Hx; apply Hbel; lia|];
     destruct (IH l1 f ltac:(lia) Hm1 ltac:(lia) Hoks Hts Hfu) as [_ E]; rewrite Hs in E;
     rewrite <- E; f_equal; fold p in Ho; lia).
  - destruct fuel as [|fuel]; [lia|]. replace (logstart l + logoffset l) with (logstart l + p) by lia.
    apply Hhere. clear -Hf Ho Hp Hel Hle. Z.to_euclidean_division_equations. lia.
  - destruct fuel as [|fuel]; [lia|]. cbn [scan_log].
    rewrite (proj2 (Z.leb_gt _ _)) by lia. rewrite Hbel by lia.
    rewrite (append_filling e flag l) by (done || (fold p; lia)). cbn [Z.eqb].
    replace (logstart l + logoffset l + 32) with (logstart l + p) by lia.
    assert (Hfu : (Z.to_nat ((logoffset l' - logoffset l1) / 32) + 1 < fuel)%nat).
    { clear -Hf Ho Hp Hel Hle. Z.to_euclidean_division_equations. lia. }
    destruct fuel as [|fuel]; [lia|]. apply Hhere. lia.
Qed.

(** A log that was started empty. *)
Lemma read_log_ok es m :
  128 * Z.of_nat (length es) ≤ logspace → Forall entry_ok es → Forall typed es →
  read_log (run_log es (loginit m)) = es.
Proof.
  intros Hb Hok Ht. unfold read_log.
  destruct (run_log_below es (loginit m) ltac:(done) Hb Hok) as [Hs _].
  destruct (scan_run_log es (loginit m) (S (Z.to_nat (logoffset (run_log es (loginit m)) / 32)))) as [_ E]; try done.
  - simpl (logoffset (loginit m)). rewrite Z.sub_0_r. lia.
  - rewrite Hs. exact E.
Qed.
