(* ===== verification/Bitmap.v ===== *)
(** * Bitmap: bit arrays of [ds/bitmap.c]

    The read path keeps the blocks of a request that are still to be read in
    an [unsigned long] array.  The routines work a word at a time with masks
    for the first and the last word; the theorems relate them to the bits. *)
From Stdlib Require Import ZArith Lia.
From stdpp Require Import base numbers list gmap strings.
From S2P Require Import Prelude Util.

(** A bitmap: 64-bit words. *)
Abbreviation bitmap := (list Z).

Definition ones64 : Z := 2 ^ 64 - 1.

(** Word and bit access; the routines access words inside the array only. *)
Definition word (m : bitmap) (k : Z) : Z := m !!! Z.to_nat k.
Definition test_bit (m : bitmap) (i : Z) : bool := Z.testbit (word m (i / 64)) (i mod 64).
Definition upd_word (m : bitmap) (k : Z) (f : Z → Z) : bitmap := alter f (Z.to_nat k) m.

(** [BITMAP_FIRST_WORD_MASK] and [BITMAP_LAST_WORD_MASK]. *)
Definition BITMAP_FIRST_WORD_MASK (start : Z) : Z := shl64 ones64 (Z.land start 63).
Definition BITMAP_LAST_WORD_MASK (nbits : Z) : Z := shr64 ones64 (Z.land (u32 (- nbits)) 63).

(** The lowest set bit from [i] on of at most [n] bits; [bsf] is [__ffs]. *)
Fixpoint scan_bit (w i : Z) (n : nat) : Z :=
  match n with O => i | S n => if Z.testbit w i then i else scan_bit w (i + 1) n end.
Definition __ffs (w : Z) : Z := scan_bit w 0 64.
Definition ffz (w : Z) : Z := __ffs (not64 w).
(** [bsr]: the highest set bit. *)
Definition __fls (w : Z) : Z := Z.log2 w.

(** [__const_hweight8] and the wider ones. *)
Definition hweight8 (w : Z) : Z :=
  Z.b2z (Z.testbit w 0) + Z.b2z (Z.testbit w 1) + Z.b2z (Z.testbit w 2) + Z.b2z (Z.testbit w 3) +
  Z.b2z (Z.testbit w 4) + Z.b2z (Z.testbit w 5) + Z.b2z (Z.testbit w 6) + Z.b2z (Z.testbit w 7).
Definition hweight16 (w : Z) : Z := hweight8 w + hweight8 (Z.shiftr w 8).
Definition hweight32 (w : Z) : Z := hweight16 w + hweight16 (Z.shiftr w 16).
Definition hweight_long (w : Z) : Z := hweight32 w + hweight32 (Z.shiftr w 32).

(** [_find_next_bit(addr, nbits, start, invert)]. *)
Fixpoint find_loop (addr : bitmap) (nbits start invert tmp : Z) (fuel : nat) : Z :=
  match fuel with
  | O => nbits
  | S fuel =>
      if tmp =? 0 then
        let start := start + 64 in
        if nbits <=? start then nbits
        else find_loop addr nbits start invert (Z.lxor (word addr (start / 64)) invert) fuel
      else Z.min (start + __ffs tmp) nbits
  end.
Definition _find_next_bit (addr : bitmap) (nbits start invert : Z) : Z :=
  if (nbits =? 0) || (nbits <=? start) then nbits
  else
    let tmp := Z.land (Z.lxor (word addr (start / 64)) invert) (BITMAP_FIRST_WORD_MASK start) in
    find_loop addr nbits (Z.land start (not64 63)) invert tmp (S (length addr)).
Definition find_next_bit (addr : bitmap) (size offset : Z) : Z :=
  _find_next_bit addr size offset 0.
Definition find_next_zero_bit (addr : bitmap) (size offset : Z) : Z :=
  _find_next_bit addr size offset ones64.

(** [find_first_bit] and [find_first_zero_bit]: the loop over [idx]. *)
Fixpoint first_loop (stop : Z → bool) (pos : Z → Z) (addr : bitmap) (idx size : Z) (fuel : nat) : Z :=
  match fuel with
  | O => size
  | S fuel =>
      if idx * 64 <? size then
        if stop (word addr idx) then Z.min (idx * 64 + pos (word addr idx)) size
        else first_loop stop pos addr (idx + 1) size fuel
      else size
  end.
Definition find_first_bit (addr : bitmap) (size : Z) : Z :=
  first_loop (λ w, negb (w =? 0)) __ffs addr 0 size (S (length addr)).
Definition find_first_zero_bit (addr : bitmap) (size : Z) : Z :=
  first_loop (λ w, negb (w =? ones64)) ffz addr 0 size (S (length addr)).

(** [__bitmap_weight]. *)
Definition __bitmap_weight (m : bitmap) (bits : Z) : Z :=
  let lim := bits / 64 in
  let w := foldr (λ k w, hweight_long (word m k) + w) 0 (Z.of_nat <$> seq 0 (Z.to_nat lim)) in
  if bits mod 64 =? 0 then w
  else w + hweight_long (Z.land (word m lim) (BITMAP_LAST_WORD_MASK bits)).

(** [bitmap_set] and [bitmap_clear]: the same loop, [f] applies a mask to a
    word. *)
Fixpoint area_loop (f : Z → Z → Z) (m : bitmap) (p len bits mask : Z) (fuel : nat)
    : bitmap * Z * Z * Z :=
  match fuel with
  | O => (m, p, len, mask)
  | S fuel =>
      if 0 <=? len - bits then
        area_loop f (upd_word m p (λ w, f w mask)) (p + 1) (len - bits) 64 ones64 fuel
      else (m, p, len, mask)
  end.
Definition area_op (f : Z → Z → Z) (m : bitmap) (start len : Z) : bitmap :=
  let size := u32 (start + len) in
  let bits := 64 - start mod 64 in
  let '(m, p, len, mask) :=
    area_loop f m (start / 64) len bits (BITMAP_FIRST_WORD_MASK start) (S (Z.to_nat len)) in
  if len =? 0 then m
  else upd_word m p (λ w, f w (Z.land mask (BITMAP_LAST_WORD_MASK size))).
Definition bitmap_set (m : bitmap) (start len : Z) : bitmap := area_op Z.lor m start len.
Definition bitmap_clear (m : bitmap) (start len : Z) : bitmap :=
  area_op (λ w mask, Z.land w (not64 mask)) m start len.

(** [bitmap_find_next_zero_area_off]: the search restarts behind the set bit
    that ends a too short area. *)
Fixpoint zero_area_loop (m : bitmap) (size start nr align_mask align_offset : Z) (fuel : nat)
    : outcome Z :=
  match fuel with
  | O => NoFuel
  | S fuel =>
      let index := find_next_zero_bit m size start in
      let index := u64 (Align.ALIGN_MASK (u64 (index + align_offset)) align_mask - align_offset) in
      let e := u64 (index + nr) in
      if size <? e then Ok e
      else
        let i := find_next_bit m e index in
        if i <? e then zero_area_loop m size (i + 1) nr align_mask align_offset fuel
        else Ok index
  end.
Definition bitmap_find_next_zero_area_off (m : bitmap) (size start nr align_mask align_offset : Z)
    : outcome Z :=
  zero_area_loop m size start nr align_mask align_offset (S (Z.to_nat size)).

(** ** Words and bits *)
Lemma ones64_testbit j : 0 ≤ j → Z.testbit ones64 j = (j <? 64).
Proof.
  intros. unfold ones64. replace (2 ^ 64 - 1) with (Z.ones 64) by done.
  destruct (Z.ltb_spec j 64).
  - by apply Z.ones_spec_low.
  - by apply Z.ones_spec_high.
Qed.

Lemma land63 x : Z.land x 63 = x mod 64.
Proof. change 63 with (2 ^ 6 - 1). by rewrite land_mask. Qed.

Lemma FIRST_MASK_testbit s j :
  0 ≤ j < 64 → Z.testbit (BITMAP_FIRST_WORD_MASK s) j = (s mod 64 <=? j).
Proof.
  intros Hj. unfold BITMAP_FIRST_WORD_MASK, shl64, u64. rewrite land63.
  pose proof (Z.mod_pos_bound s 64 ltac:(lia)).
  rewrite Z.mod_pow2_bits_low, Z.shiftl_spec by lia.
  destruct (Z.leb_spec (s mod 64) j).
  - rewrite ones64_testbit by lia. by apply Z.ltb_lt; lia.
  - by apply Z.testbit_neg_r; lia.
Qed.

Lemma neg_mod64 n : u32 (- n) mod 64 = if n mod 64 =? 0 then 0 else 64 - n mod 64.
Proof.
  unfold u32. rewrite Z.mod_mod_divide by (exists (2 ^ 26); lia).
  destruct (Z.eqb_spec (n mod 64) 0).
  - by rewrite Z.mod_opp_l_z.
  - by rewrite Z.mod_opp_l_nz.
Qed.

Lemma LAST_MASK_testbit n j :
  0 ≤ j < 64 →
  Z.testbit (BITMAP_LAST_WORD_MASK n) j = (if n mod 64 =? 0 then true else j <? n mod 64).
Proof.
  intros Hj. unfold BITMAP_LAST_WORD_MASK, shr64. rewrite land63, neg_mod64.
  pose proof (Z.mod_pos_bound n 64 ltac:(lia)).
  rewrite Z.shiftr_spec by lia.
  destruct (Z.eqb_spec (n mod 64) 0); rewrite ones64_testbit by lia.
  - by apply Z.ltb_lt; lia.
  - destruct (Z.ltb_spec j (n mod 64)); [apply Z.ltb_lt|apply Z.ltb_ge]; lia.
Qed.

Lemma not64_testbit w j : 0 ≤ j < 64 → Z.testbit (not64 w) j = negb (Z.testbit w j).
Proof.
  intros. unfold not64, u64. rewrite Z.mod_pow2_bits_low by lia. apply Z.lnot_spec. lia.
Qed.

(** A word is zero iff its 64 bits are. *)
Lemma word_zero w : 0 ≤ w < 2 ^ 64 → (∀ j, 0 ≤ j < 64 → Z.testbit w j = false) → w = 0.
Proof.
  intros Hw Hj. apply Z.bits_inj'. intros n Hn. rewrite Z.bits_0.
  destruct (decide (n < 64)); [by apply Hj; lia|].
  rewrite <- (Z.mod_small w (2 ^ 64)) by lia. apply Z.mod_pow2_bits_high. lia.
Qed.

Lemma word_nonzero w : 0 ≤ w < 2 ^ 64 → w ≠ 0 → ∃ j, 0 ≤ j < 64 ∧ Z.testbit w j = true.
Proof.
  intros Hw Hn. exists (Z.log2 w). split.
  - split; [apply Z.log2_nonneg|]. apply Z.log2_lt_pow2; lia.
  - apply Z.bit_log2. lia.
Qed.

Definition words_ok (m : bitmap) : Prop := Forall (λ w, 0 ≤ w < 2 ^ 64) m.

Lemma word_range m k : words_ok m → 0 ≤ word m k < 2 ^ 64.
Proof.
  intros Hm. unfold word. destruct (m !! Z.to_nat k) as [w|] eqn:E.
  - rewrite (list_lookup_total_correct _ _ _ E). by eapply Forall_lookup_1 in Hm.
  - rewrite list_lookup_total_alt, E. simpl. lia.
Qed.

(** Bit [i] of word [k]. *)
Lemma test_bit_word m k j : 0 ≤ j < 64 → test_bit m (k * 64 + j) = Z.testbit (word m k) j.
Proof.
  intros. unfold test_bit. rewrite Z.div_add_l, Z.div_small by lia.
  rewrite Z.add_0_r. f_equal. rewrite Z.add_comm, Z.mod_add by lia. by apply Z.mod_small.
Qed.

Lemma split64 i : i = i / 64 * 64 + i mod 64 ∧ 0 ≤ i mod 64 < 64.
Proof.
  pose proof (Z.div_mod i 64 ltac:(lia)). pose proof (Z.mod_pos_bound i 64 ltac:(lia)). lia.
Qed.

Lemma upd_word_bits m k f i :
  0 ≤ k < Z.of_nat (length m) →
  test_bit (upd_word m k f) i =
    if i / 64 =? k then Z.testbit (f (word m k)) (i mod 64)
    else if decide (i / 64 < 0 ∧ k = 0) then Z.testbit (f (word m k)) (i mod 64)
    else test_bit m i.
Proof.
  intros Hk. unfold test_bit, upd_word, word.
  destruct (lookup_lt_is_Some_2 m (Z.to_nat k) ltac:(lia)) as [w Hw].
  rewrite (list_lookup_total_correct _ _ _ Hw).
  assert (Hs : alter f (Z.to_nat k) m !!! Z.to_nat k = f w).
  { apply list_lookup_total_correct. rewrite list_lookup_alter_eq, Hw. done. }
  destruct (Z.eqb_spec (i / 64) k) as [->|Hne]; [by rewrite Hs|].
  case_decide as Hd.
  - destruct Hd as [Hn ->]. replace (Z.to_nat (i / 64)) with (Z.to_nat 0) by lia. by rewrite Hs.
  - rewrite !list_lookup_total_alt. rewrite list_lookup_alter_ne by lia. done.
Qed.

(** ** Setting and clearing an area *)
Section area.
(** [f] writes the value [v] to the bits of the mask. *)
Context (f : Z → Z → Z) (v : bool).
Hypothesis Hf : ∀ w mask j, 0 ≤ j < 64 →
  Z.testbit (f w mask) j = if Z.testbit mask j then v else Z.testbit w j.

(** The bits of [m'] are those of [m] with [lo, hi) set to [v]. *)
Definition filled (m m' : bitmap) (lo hi : Z) : Prop :=
  length m' = length m ∧
  ∀ i, 0 ≤ i → test_bit m' i = if (lo <=? i) && (i <? hi) then v else test_bit m i.

Lemma fill_word m k lo hi mask :
  0 ≤ k < Z.of_nat (length m) → k * 64 ≤ lo ≤ k * 64 + 64 → hi ≤ k * 64 + 64 →
  (∀ j, 0 ≤ j < 64 → Z.testbit mask j = (lo <=? k * 64 + j) && (k * 64 + j <? hi)) →
  filled m (upd_word m k (λ w, f w mask)) lo hi.
Proof.
  intros Hk Hlo Hhi Hm. split; [by apply length_alter|]. intros i Hi.
  rewrite upd_word_bits by done. destruct (split64 i) as [Ei Hr].
  destruct (Z.eqb_spec (i / 64) k) as [E|E].
  - rewrite Hf, Hm by done. rewrite <- E, <- Ei. unfold test_bit.
    by repeat case_if.
  - rewrite decide_False by (pose proof (Z.div_pos i 64); lia).
    destruct (Z.leb_spec lo i), (Z.ltb_spec i hi); simpl; try done.
    assert (i / 64 < k ∨ k < i / 64) as [|] by lia; lia.
Qed.

Lemma filled_trans m m' m'' a b c :
  a ≤ b ≤ c → filled m m' a b → filled m' m'' b c → filled m m'' a c.
Proof.
  intros Hab [L1 H1] [L2 H2]. split; [congruence|]. intros i Hi.
  rewrite H2, H1 by done.
  destruct (Z.leb_spec a i), (Z.ltb_spec i b), (Z.leb_spec b i), (Z.ltb_spec i c); simpl; done || lia.
Qed.

(** The loop, entered with [bits] bits of word [p] still to write. *)
Lemma area_loop_ok fuel m p len bits mask :
  0 ≤ p → 0 < bits ≤ 64 → 0 ≤ len → (len < Z.of_nat fuel) →
  p * 64 + (64 - bits) + len ≤ 64 * Z.of_nat (length m) →
  (∀ j, 0 ≤ j < 64 → Z.testbit mask j = (64 - bits <=? j)) →
  let '(m', p', len', mask') := area_loop f m p len bits mask fuel in
  ∃ bits', filled m m' (p * 64 + (64 - bits)) (p' * 64 + (64 - bits'))
    ∧ p * 64 + (64 - bits) ≤ p' * 64 + (64 - bits')
    ∧ p' * 64 + (64 - bits') + len' = p * 64 + (64 - bits) + len
    ∧ 0 ≤ len' < bits' ∧ 0 < bits' ≤ 64 ∧ 0 ≤ p'
    ∧ (∀ j, 0 ≤ j < 64 → Z.testbit mask' j = (64 - bits' <=? j)).
Proof.
  revert m p len bits mask. induction fuel as [|fuel IH]; intros m p len bits mask Hp Hb Hl Hfu Hfit Hm;
    [lia|].
  cbn [area_loop]. destruct (Z.leb_spec 0 (len - bits)) as [Hge|Hlt].
  - set (m1 := upd_word m p (λ w, f w mask)).
    assert (H1 : filled m m1 (p * 64 + (64 - bits)) ((p + 1) * 64)).
    { apply fill_word; [lia|lia|lia|]. intros j Hj. rewrite Hm by done.
      destruct (Z.leb_spec (64 - bits) j), (Z.leb_spec (p * 64 + (64 - bits)) (p * 64 + j)),
        (Z.ltb_spec (p * 64 + j) ((p + 1) * 64)); done || lia. }
    specialize (IH m1 (p + 1) (len - bits) 64 ones64).
    destruct (area_loop f m1 _ _ _ _ fuel) as [[[m' p'] len'] mask'].
    destruct IH as (bits' & H2 & ? & ? & ? & ? & ? & ?); [lia|lia|lia|lia| | |].
    { destruct H1 as [-> _]. lia. }
    { intros j Hj. rewrite ones64_testbit by lia. destruct (Z.ltb_spec j 64), (Z.leb_spec (64 - 64) j); done || lia. }
    exists bits'. rewrite Z.sub_diag, Z.add_0_r in *. split.
    { eapply filled_trans; [|exact H1|exact H2]. lia. }
    repeat split; try done; lia.
  - exists bits. split.
    { split; [done|]. intros i Hi.
      destruct (Z.leb_spec (p * 64 + (64 - bits)) i), (Z.ltb_spec i (p * 64 + (64 - bits))); done || lia. }
    repeat split; try done; lia.
Qed.

Lemma area_op_ok m start len :
  0 ≤ start → 0 ≤ len → start + len < 2 ^ 32 → start + len ≤ 64 * Z.of_nat (length m) →
  filled m (area_op f m start len) start (start + len).
Proof.
  intros Hs Hl H32 Hfit. unfold area_op. rewrite (u32_small (start + len)) by lia.
  destruct (split64 start) as [Es Hr].
  pose proof (area_loop_ok (S (Z.to_nat len)) m (start / 64) len (64 - start mod 64)
    (BITMAP_FIRST_WORD_MASK start)) as H.
  destruct (area_loop f m _ _ _ _ _) as [[[m' p'] len'] mask'].
  pose proof (Z.div_pos start 64).
  destruct H as (bits' & H1 & Hle & Hend & Hlen & Hb & Hp & Hm); [lia|lia|lia|lia|lia| |].
  { intros j Hj. rewrite FIRST_MASK_testbit by done. f_equal. lia. }
  replace (start / 64 * 64 + (64 - (64 - start mod 64))) with start in * by lia.
  destruct (Z.eqb_spec len' 0) as [->|Hne].
  { by replace (p' * 64 + (64 - bits')) with (start + len) in H1 by lia. }
  eapply filled_trans; [|exact H1|]; [lia|]. destruct H1 as [L1 _].
  apply fill_word; [lia|lia|lia|].
  intros j Hj. rewrite Z.land_spec, Hm, LAST_MASK_testbit by done.
  assert (Hmod : (start + len) mod 64 = 64 - bits' + len').
  { rewrite <- Hend.
    replace (p' * 64 + (64 - bits') + len') with (64 - bits' + len' + p' * 64) by lia.
    rewrite Z.mod_add by lia. apply Z.mod_small. lia. }
  rewrite Hmod. destruct (Z.eqb_spec (64 - bits' + len') 0); [lia|].
  destruct (Z.leb_spec (64 - bits') j), (Z.ltb_spec j (64 - bits' + len')),
    (Z.leb_spec (p' * 64 + (64 - bits')) (p' * 64 + j)), (Z.ltb_spec (p' * 64 + j) (start + len));
    done || lia.
Qed.
End area.

Lemma bitmap_set_ok m start len :
  0 ≤ start → 0 ≤ len → start + len < 2 ^ 32 → start + len ≤ 64 * Z.of_nat (length m) →
  filled true m (bitmap_set m start len) start (start + len).
Proof.
  apply area_op_ok. intros w mask j Hj. rewrite Z.lor_spec.
  by destruct (Z.testbit w j), (Z.testbit mask j).
Qed.

Lemma bitmap_clear_ok m start len :
  0 ≤ start → 0 ≤ len → start + len < 2 ^ 32 → start + len ≤ 64 * Z.of_nat (length m) →
  filled false m (bitmap_clear m start len) start (start + len).
Proof.
  apply area_op_ok. intros w mask j Hj. rewrite Z.land_spec, not64_testbit by done.
  by destruct (Z.testbit w j), (Z.testbit mask j).
Qed.

(** ** Searching *)

(** [r] is the first position of [lo, hi) where [P] holds, or [hi]. *)
Definition next_such (P : Z → bool) (lo hi r : Z) : Prop :=
  (r = hi ∧ ∀ i, lo ≤ i < hi → P i = false)
  ∨ (lo ≤ r < hi ∧ P r = true ∧ ∀ i, lo ≤ i < r → P i = false).

Lemma scan_bit_ok w i n :
  let r := scan_bit w i n in
  i ≤ r ≤ i + Z.of_nat n ∧ (∀ j, i ≤ j < r → Z.testbit w j = false)
  ∧ (r < i + Z.of_nat n → Z.testbit w r = true).
Proof.
  revert i. induction n as [|n IH]; intros i; cbn [scan_bit].
  { repeat split; lia. }
  destruct (Z.testbit w i) eqn:E.
  - repeat split; [lia..|done].
  - destruct (IH (i + 1)) as (H1 & H2 & H3). repeat split; [lia..| |].
    + intros j Hj. destruct (decide (j = i)) as [->|]; [done|]. apply H2. lia.
    + intros. apply H3. lia.
Qed.

Lemma ffs_ok w :
  0 ≤ w < 2 ^ 64 → w ≠ 0 →
  0 ≤ __ffs w < 64 ∧ Z.testbit w (__ffs w) = true ∧ ∀ j, 0 ≤ j < __ffs w → Z.testbit w j = false.
Proof.
  intros Hw Hn. destruct (scan_bit_ok w 0 64) as (H1 & H2 & H3). fold (__ffs w) in *.
  destruct (word_nonzero w Hw Hn) as (j & Hj & Ht).
  assert (__ffs w < 64).
  { destruct (decide (__ffs w < 64)); [done|]. rewrite H2 in Ht by lia. done. }
  repeat split; [lia..| |done]. apply H3. lia.
Qed.

(** One word: the least hit of [Q] in [start, start + 64). *)
Lemma word_hit Q tmp start nbits :
  0 ≤ tmp < 2 ^ 64 → tmp ≠ 0 → start < nbits →
  (∀ j, 0 ≤ j < 64 → Z.testbit tmp j = Q (start + j)) →
  next_such Q start nbits (Z.min (start + __ffs tmp) nbits).
Proof.
  intros Ht Hn Hs HQ. destruct (ffs_ok tmp Ht Hn) as (Hr & Hb & Hl).
  destruct (decide (start + __ffs tmp < nbits)).
  - right. rewrite Z.min_l by lia. split; [lia|]. split; [by rewrite <- HQ|].
    intros i Hi. replace i with (start + (i - start)) by lia. rewrite <- HQ by lia. apply Hl. lia.
  - left. split; [lia|]. intros i Hi. replace i with (start + (i - start)) by lia.
    rewrite <- HQ by lia. apply Hl. lia.
Qed.

Lemma next_such_skip Q start k hi r :
  start ≤ k → (∀ i, start ≤ i < k → Q i = false) → next_such Q k hi r → next_such Q start hi r.
Proof.
  intros Hk Hf [[-> Hr]|(Hr & Hq & Hl)].
  - left. split; [done|]. intros i Hi. destruct (decide (i < k)); [apply Hf|apply Hr]; lia.
  - right. split; [lia|]. split; [done|].
    intros i Hi. destruct (decide (i < k)); [apply Hf|apply Hl]; lia.
Qed.

Lemma lxor_range a b : 0 ≤ a < 2 ^ 64 → 0 ≤ b < 2 ^ 64 → 0 ≤ Z.lxor a b < 2 ^ 64.
Proof.
  intros Ha Hb. assert (0 ≤ Z.lxor a b) by (apply Z.lxor_nonneg; lia).
  split; [done|].
  rewrite <- (Z.mod_small a (2 ^ 64)), <- (Z.mod_small b (2 ^ 64)) by done.
  replace (Z.lxor _ _) with (Z.lxor a b mod 2 ^ 64); [by apply Z.mod_pos_bound|].
  apply Z.bits_inj'. intros n Hn. rewrite Z.lxor_spec.
  destruct (decide (n < 64)).
  - by rewrite !Z.mod_pow2_bits_low, Z.lxor_spec by lia.
  - by rewrite !Z.mod_pow2_bits_high by lia.
Qed.

Lemma land_range a b : 0 ≤ a < 2 ^ 64 → 0 ≤ Z.land a b < 2 ^ 64.
Proof.
  intros Ha. assert (0 ≤ Z.land a b) by (apply Z.land_nonneg; lia). split; [done|].
  destruct (decide (Z.land a b = 0)) as [->|]; [lia|].
  apply Z.log2_lt_pow2; [lia|].
  destruct (decide (Z.log2 (Z.land a b) < 64)) as [|Hge]; [done|exfalso].
  pose proof (Z.bit_log2 (Z.land a b) ltac:(lia)) as Hb. rewrite Z.land_spec in Hb.
  rewrite <- (Z.mod_small a (2 ^ 64)) in Hb at 1 by done.
  by rewrite Z.mod_pow2_bits_high in Hb by lia.
Qed.

Section find.
Context (m : bitmap) (nbits invert : Z) (inv : bool).
Hypothesis Hm : words_ok m.
Hypothesis Hfit : nbits ≤ 64 * Z.of_nat (length m).
Hypothesis Hinv : 0 ≤ invert < 2 ^ 64 ∧ ∀ j, 0 ≤ j < 64 → Z.testbit invert j = inv.

Definition wanted (i : Z) : bool := xorb (test_bit m i) inv.

Lemma find_loop_ok fuel Q k tmp :
  0 ≤ k → k * 64 < nbits → Z.of_nat (length m) < k + Z.of_nat fuel →
  0 ≤ tmp < 2 ^ 64 → (∀ j, 0 ≤ j < 64 → Z.testbit tmp j = Q (k * 64 + j)) →
  (∀ i, (k + 1) * 64 ≤ i → Q i = wanted i) →
  next_such Q (k * 64) nbits (find_loop m nbits (k * 64) invert tmp fuel).
Proof.
  revert k tmp. induction fuel as [|fuel IH]; intros k tmp Hk Hlt Hfu Ht HQ Hrest; [lia|].
  cbn [find_loop]. destruct (Z.eqb_spec tmp 0) as [->|Hn]; [|by apply word_hit].
  assert (Hskip : ∀ i, k * 64 ≤ i < (k + 1) * 64 → Q i = false).
  { intros i Hi. replace i with (k * 64 + (i - k * 64)) by lia.
    rewrite <- HQ by lia. apply Z.bits_0. }
  replace (k * 64 + 64) with ((k + 1) * 64) by lia.
  destruct (Z.leb_spec nbits ((k + 1) * 64)).
  { left. split; [done|]. intros i Hi. apply Hskip. lia. }
  eapply next_such_skip; [|exact Hskip|]; [lia|].
  rewrite Z.div_mul by lia. apply IH; [lia|lia|lia| | |].
  - apply lxor_range; [by apply word_range|apply Hinv].
  - intros j Hj. rewrite Z.lxor_spec, (proj2 Hinv) by done.
    rewrite Hrest by lia. unfold wanted. by rewrite test_bit_word.
  - intros i Hi. apply Hrest. lia.
Qed.

Lemma _find_next_bit_ok start :
  0 ≤ start → 0 ≤ nbits → nbits < 2 ^ 63 →
  next_such wanted start nbits (_find_next_bit m nbits start invert).
Proof.
  intros Hs Hn H63. unfold _find_next_bit. cbv zeta.
  destruct (Z.eqb_spec nbits 0); cbn [orb]; [left; split; [done|]; lia|].
  destruct (Z.leb_spec nbits start); [left; split; [done|]; lia|].
  destruct (split64 start) as [Es Hr]. pose proof (Z.div_pos start 64).
  assert (Hrd : Z.land start (not64 63) = start / 64 * 64).
  { change 63 with (2 ^ 6 - 1). rewrite land_not64_mask by lia. change (2 ^ 6) with 64. lia. }
  rewrite Hrd. set (Q := λ i, (start <=? i) && wanted i).
  assert (HQ : next_such Q (start / 64 * 64) nbits
    (find_loop m nbits (start / 64 * 64) invert
      (Z.land (Z.lxor (word m (start / 64)) invert) (BITMAP_FIRST_WORD_MASK start)) (S (length m)))).
  { apply find_loop_ok; [lia|lia|lia| | |].
    - apply land_range, lxor_range; [by apply word_range|apply Hinv].
    - intros j Hj. rewrite Z.land_spec, Z.lxor_spec, (proj2 Hinv), FIRST_MASK_testbit by done.
      unfold Q, wanted. rewrite test_bit_word by done. rewrite andb_comm. f_equal.
      destruct (Z.leb_spec (start mod 64) j), (Z.leb_spec start (start / 64 * 64 + j)); done || lia.
    - intros i Hi. unfold Q. destruct (Z.leb_spec start i); [done|lia]. }
  unfold Q in HQ. destruct HQ as [[-> Hf]|(Hr' & Hq & Hf)].
  - left. split; [done|]. intros i Hi. specialize (Hf i ltac:(lia)).
    destruct (Z.leb_spec start i); [done|lia].
  - right. apply andb_true_iff in Hq as [Hq1 Hq2]. apply Z.leb_le in Hq1.
    split; [lia|]. split; [done|]. intros i Hi. specialize (Hf i ltac:(lia)).
    destruct (Z.leb_spec start i); [done|lia].
Qed.
End find.

Lemma find_next_bit_ok m size off :
  words_ok m → 0 ≤ size → size < 2 ^ 63 → size ≤ 64 * Z.of_nat (length m) → 0 ≤ off →
  next_such (test_bit m) off size (find_next_bit m size off).
Proof.
  intros. pose proof (_find_next_bit_ok m size 0 false) as H'.
  unfold find_next_bit. destruct (H') with (start := off) as [[-> Hf]|(Hr & Hq & Hf)]; try done.
  - split; [lia|]. intros. apply Z.bits_0.
  - left. split; [done|]. intros i Hi. specialize (Hf i Hi). unfold wanted in Hf.
    by destruct (test_bit m i).
  - right. split; [done|]. unfold wanted in *. split; [by destruct (test_bit m _)|].
    intros i Hi. specialize (Hf i Hi). by destruct (test_bit m i).
Qed.

Lemma find_next_zero_bit_ok m size off :
  words_ok m → 0 ≤ size → size < 2 ^ 63 → size ≤ 64 * Z.of_nat (length m) → 0 ≤ off →
  next_such (λ i, negb (test_bit m i)) off size (find_next_zero_bit m size off).
Proof.
  intros. pose proof (_find_next_bit_ok m size ones64 true) as H'.
  unfold find_next_zero_bit. destruct (H') with (start := off) as [[-> Hf]|(Hr & Hq & Hf)]; try done.
  - split; [unfold ones64; lia|]. intros j Hj. rewrite ones64_testbit by lia. by apply Z.ltb_lt; lia.
  - left. split; [done|]. intros i Hi. specialize (Hf i Hi). unfold wanted in Hf.
    by destruct (test_bit m i).
  - right. split; [done|]. unfold wanted in *. split; [by destruct (test_bit m _)|].
    intros i Hi. specialize (Hf i Hi). by destruct (test_bit m i).
Qed.

(** [find_first_bit] is [find_next_bit] from 0. *)
Lemma find_first_bit_ok m size :
  words_ok m → 0 ≤ size → size ≤ 64 * Z.of_nat (length m) →
  next_such (test_bit m) 0 size (find_first_bit m size).
Proof.
  intros Hm Hs Hfit. unfold find_first_bit.
  cut (∀ fuel k, 0 ≤ k → Z.of_nat (length m) < k + Z.of_nat fuel →
    next_such (test_bit m) (k * 64) size
      (first_loop (λ w, negb (w =? 0)) __ffs m k size fuel)).
  { intros H. apply (H (S (length m)) 0); lia. }
  induction fuel as [|fuel IH]; intros k Hk Hf; cbn [first_loop].
  { left. split; [done|]. intros i Hi. lia. }
  destruct (Z.ltb_spec (k * 64) size); [|left; split; [done|lia]].
  destruct (Z.eqb_spec (word m k) 0) as [E|E]; simpl.
  - eapply next_such_skip; [| |apply IH]; [lia| |lia|lia].
    intros i Hi. replace i with (k * 64 + (i - k * 64)) by lia.
    rewrite test_bit_word, E by lia. apply Z.bits_0.
  - apply word_hit; [by apply word_range|done|done|]. intros j Hj. by rewrite test_bit_word.
Qed.

(** ** Counting *)

(** The number of positions of [lo, lo + n) where [P] holds. *)
Definition bsum (P : Z → bool) (lo n : Z) : Z :=
  foldr (λ i s, Z.b2z (P i) + s) 0 (seqZ lo n).

Lemma bsum_app P lo a b : 0 ≤ a → 0 ≤ b → bsum P lo (a + b) = bsum P lo a + bsum P (lo + a) b.
Proof.
  intros. unfold bsum. rewrite seqZ_app, foldr_app by lia.
  induction (seqZ lo a) as [|i l IH]; simpl; lia.
Qed.

Lemma bsum_ext P Q lo n :
  (∀ i, lo ≤ i < lo + n → P i = Q i) → bsum P lo n = bsum Q lo n.
Proof.
  intros H. unfold bsum.
  assert (HF : Forall (λ i, P i = Q i) (seqZ lo n))
    by (apply Forall_forall; intros i Hi; apply H; apply elem_of_seqZ in Hi; lia).
  induction HF as [|i l Hi HF IH]; simpl; [done|]. by rewrite Hi, IH.
Qed.

Lemma bsum_bounds P lo n : 0 ≤ n → 0 ≤ bsum P lo n ≤ n.
Proof.
  intros Hn. unfold bsum. replace n with (Z.of_nat (length (seqZ lo n))) at 3
    by (rewrite length_seqZ; lia).
  induction (seqZ lo n) as [|i l IH]; simpl; [lia|]. destruct (P i); simpl; lia.
Qed.

Lemma bsum_shift P lo k n : bsum P (lo + k) n = bsum (λ i, P (i + k)) lo n.
Proof.
  unfold bsum. rewrite Z.add_comm, <- fmap_add_seqZ. induction (seqZ lo n) as [|i l IH]; [done|].
  cbn [fmap list_fmap foldr]. rewrite IH. do 3 f_equal. lia.
Qed.

Lemma hweight8_bsum w k : 0 ≤ k → hweight8 (Z.shiftr w k) = bsum (Z.testbit w) k 8.
Proof.
  intros Hk. rewrite <- (Z.add_0_l k) at 2. rewrite bsum_shift.
  unfold hweight8, bsum. rewrite !Z.shiftr_spec by lia.
  change (seqZ 0 8) with [0; 1; 2; 3; 4; 5; 6; 7]. cbn [foldr]. lia.
Qed.

Lemma hweight_long_bsum w : hweight_long w = bsum (Z.testbit w) 0 64.
Proof.
  unfold hweight_long, hweight32, hweight16.
  rewrite !Z.shiftr_shiftr by lia. rewrite <- (Z.shiftr_0_r w) at 1.
  rewrite !hweight8_bsum by lia.
  change 64 with (8 + (8 + (8 + (8 + (8 + (8 + (8 + 8))))))).
  rewrite !bsum_app by lia. rewrite <- !Z.add_assoc. do 7 (apply f_equal2; [f_equal; lia|]). f_equal; lia.
Qed.

(** [__bitmap_weight] counts the set bits below [bits] and ignores the rest
    of the last word. *)
Lemma bitmap_weight_ok m bits :
  words_ok m → 0 ≤ bits → __bitmap_weight m bits = bsum (test_bit m) 0 bits.
Proof.
  intros Hm Hb. unfold __bitmap_weight.
  destruct (split64 bits) as [Es Hr]. pose proof (Z.div_pos bits 64).
  assert (Hw : ∀ n, foldr (λ k w, hweight_long (word m k) + w) 0 (Z.of_nat <$> seq 0 n)
                    = bsum (test_bit m) 0 (64 * Z.of_nat n)).
  { induction n as [|n IH]; [done|].
    rewrite seq_S, fmap_app, foldr_app. simpl.
    assert (Hacc : ∀ a l, foldr (λ k w, hweight_long (word m k) + w) a l
                     = foldr (λ k w, hweight_long (word m k) + w) 0 l + a).
    { clear. intros a l. induction l as [|x l IH]; simpl; [lia|]. rewrite IH. lia. }
    rewrite Hacc, IH. replace (64 * Z.of_nat (S n)) with (64 * Z.of_nat n + 64) by lia.
    rewrite bsum_app by lia. f_equal. rewrite hweight_long_bsum, bsum_shift, Z.add_0_r.
    apply bsum_ext. intros i Hi. rewrite <- test_bit_word by lia. f_equal. lia. }
  rewrite Hw. rewrite Z2Nat.id by lia.
  destruct (Z.eqb_spec (bits mod 64) 0) as [E|E].
  - f_equal. lia.
  - rewrite hweight_long_bsum.
    transitivity (bsum (test_bit m) 0 (64 * (bits / 64) + bits mod 64)); [|f_equal; lia].
    rewrite bsum_app by lia. f_equal. rewrite bsum_shift.
    transitivity (bsum (Z.testbit (Z.land (word m (bits / 64)) (BITMAP_LAST_WORD_MASK bits))) 0
      (bits mod 64 + (64 - bits mod 64))); [f_equal; lia|]. rewrite bsum_app by lia.
    rewrite (bsum_ext _ (λ i, test_bit m (i + 64 * (bits / 64))) 0 (bits mod 64)).
    + rewrite (bsum_ext _ (λ _, false) (0 + bits mod 64)).
      * assert (Hz : ∀ lo n, bsum (λ _, false) lo n = 0).
        { intros. unfold bsum. by induction (seqZ lo n). }
        rewrite Hz. lia.
      * intros i Hi. rewrite Z.land_spec, LAST_MASK_testbit by lia.
        destruct (Z.eqb_spec (bits mod 64) 0); [lia|].
        destruct (Z.ltb_spec i (bits mod 64)); [lia|]. apply andb_false_r.
    + intros i Hi. rewrite Z.land_spec, LAST_MASK_testbit by lia.
      destruct (Z.eqb_spec (bits mod 64) 0); [lia|].
      destruct (Z.ltb_spec i (bits mod 64)); [|lia]. rewrite andb_true_r.
      rewrite <- test_bit_word by lia. f_equal. lia.
Qed.

Lemma lor_range a b : 0 ≤ a < 2 ^ 64 → 0 ≤ b < 2 ^ 64 → 0 ≤ Z.lor a b < 2 ^ 64.
Proof.
  intros Ha Hb. split; [apply Z.lor_nonneg; lia|].
  replace (Z.lor a b) with (Z.lor a b mod 2 ^ 64); [by apply Z.mod_pos_bound|].
  rewrite <- (Z.mod_small a (2 ^ 64)), <- (Z.mod_small b (2 ^ 64)) by done.
  apply Z.bits_inj'. intros n Hn. destruct (decide (n < 64)).
  - by rewrite Z.mod_pow2_bits_low by lia.
  - by rewrite Z.lor_spec, !Z.mod_pow2_bits_high by lia.
Qed.

Lemma masks_range x :
  0 ≤ BITMAP_FIRST_WORD_MASK x < 2 ^ 64 ∧ 0 ≤ BITMAP_LAST_WORD_MASK x < 2 ^ 64.
Proof.
  split; [apply u64_range|]. unfold BITMAP_LAST_WORD_MASK, shr64, ones64.
  rewrite land63. pose proof (Z.mod_pos_bound (u32 (- x)) 64 ltac:(lia)) as Hr.
  rewrite Z.shiftr_div_pow2 by lia. split; [apply Z.div_pos; lia|].
  apply Z.div_lt_upper_bound; [lia|]. pose proof (Z.pow_pos_nonneg 2 (u32 (- x) mod 64)). nia.
Qed.

(** Words stay 64 bits wide. *)
Lemma area_op_words (f : Z → Z → Z) m start len :
  (∀ w mask, 0 ≤ w < 2 ^ 64 → 0 ≤ mask < 2 ^ 64 → 0 ≤ f w mask < 2 ^ 64) →
  words_ok m → words_ok (area_op f m start len).
Proof.
  intros Hf Hm. unfold area_op.
  assert (Hu : ∀ m k mask, words_ok m → 0 ≤ mask < 2 ^ 64 → words_ok (upd_word m k (λ w, f w mask))).
  { intros m' k mask Hm' Hk. apply Forall_alter; [done|]. intros. by apply Hf. }
  assert (Hl : ∀ fuel m p len bits mask, words_ok m → 0 ≤ mask < 2 ^ 64 →
    words_ok (area_loop f m p len bits mask fuel).1.1.1
    ∧ 0 ≤ (area_loop f m p len bits mask fuel).2 < 2 ^ 64).
  { induction fuel as [|fuel IH]; intros m' p l bits mask Hm' Hk; simpl; [done|].
    case_if; [|done]. apply IH; [by apply Hu|unfold ones64; lia]. }
  specialize (Hl (S (Z.to_nat len)) m (start / 64) len (64 - start mod 64)
    (BITMAP_FIRST_WORD_MASK start) Hm (proj1 (masks_range start))).
  destruct (area_loop _ _ _ _ _ _ _) as [[[m' p'] len'] mask']. simpl in Hl. destruct Hl as [Hw Hk].
  case_if; [done|]. apply Hu; [done|]. by apply land_range.
Qed.

Lemma bitmap_set_words m start len : words_ok m → words_ok (bitmap_set m start len).
Proof. apply area_op_words. intros. by apply lor_range. Qed.

Lemma bitmap_clear_words m start len : words_ok m → words_ok (bitmap_clear m start len).
Proof. apply area_op_words. intros. by apply land_range. Qed.

(** Clearing an area lowers bitmap_weight by the number of bits that
    were set in it: the progress measure of the aligned read loop. *)
Theorem bitmap_clear_weight m start len bits :
  words_ok m → 0 ≤ start → 0 ≤ len → start + len ≤ bits →
  bits < 2 ^ 32 → bits ≤ 64 * Z.of_nat (length m) →
  __bitmap_weight (bitmap_clear m start len) bits
  = __bitmap_weight m bits - bsum (test_bit m) start len.
Proof.
  intros Hm Hs Hl Hle H32 Hfit.
  rewrite !bitmap_weight_ok by (try apply bitmap_clear_words; done || lia).
  destruct (bitmap_clear_ok m start len Hs Hl ltac:(lia) ltac:(lia)) as [_ Hb].
  replace bits with (start + (len + (bits - start - len))) by lia.
  rewrite !bsum_app, Z.add_0_l by lia.
  rewrite (bsum_ext _ (test_bit m) 0 start), (bsum_ext _ (λ _, false) start len),
    (bsum_ext _ (test_bit m) (start + len)).
  - replace (bsum (λ _, false) start len) with 0; [lia|]. unfold bsum. by induction (seqZ start len).
  - intros i Hi. rewrite Hb by lia. destruct (Z.leb_spec start i), (Z.ltb_spec i (start + len)); done || lia.
  - intros i Hi. rewrite Hb by lia. destruct (Z.leb_spec start i), (Z.ltb_spec i (start + len)); done || lia.
  - intros i Hi. rewrite Hb by lia. destruct (Z.leb_spec start i), (Z.ltb_spec i (start + len)); done || lia.
Qed.

(** bitmap_set and bitmap_clear set and clear exactly the bits of the
    area, also across word boundaries, and keep the words in range. *)
Theorem bitmap_area_bits m start len :
  words_ok m → 0 ≤ start → 0 ≤ len → start + len < 2 ^ 32 → start + len ≤ 64 * Z.of_nat (length m) →
  words_ok (bitmap_set m start len) ∧ words_ok (bitmap_clear m start len)
  ∧ ∀ i, 0 ≤ i →
      test_bit (bitmap_set m start len) i
        = (if (start <=? i) && (i <? start + len) then true else test_bit m i)
      ∧ test_bit (bitmap_clear m start len) i
        = (if (start <=? i) && (i <? start + len) then false else test_bit m i).
Proof.
  intros Hm Hs Hl Hb Hfit. split; [by apply bitmap_set_words|]. split; [by apply bitmap_clear_words|].
  intros i Hi. split; [by apply bitmap_set_ok|by apply bitmap_clear_ok].
Qed.

(** find_next_bit, find_next_zero_bit and find_first_bit return the
    first position at or after the start with the wanted value, or the size
    when there is none. *)
Theorem bitmap_find_first m size off :
  words_ok m → 0 ≤ size → size < 2 ^ 63 → size ≤ 64 * Z.of_nat (length m) → 0 ≤ off →
  next_such (test_bit m) off size (find_next_bit m size off)
  ∧ next_such (λ i, negb (test_bit m i)) off size (find_next_zero_bit m size off)
  ∧ next_such (test_bit m) 0 size (find_first_bit m size).
Proof.
  intros. split; [by apply find_next_bit_ok|]. split; [by apply find_next_zero_bit_ok|].
  by apply find_first_bit_ok.
Qed.

(** ** Instances *)
Definition demo_map : bitmap := [15; 3].

Lemma demo_map_ok : words_ok demo_map.
Proof. repeat constructor; lia. Qed.

Lemma bitmap_clear_weight_witness :
  __bitmap_weight (bitmap_clear demo_map 2 63) 128 = __bitmap_weight demo_map 128 - 3.
Proof.
  rewrite (bitmap_clear_weight demo_map 2 63 128); [vm_compute; reflexivity|apply demo_map_ok|..];
    vm_compute; done.
Defined.

Lemma bitmap_area_bits_witness :
  test_bit (bitmap_set demo_map 60 10) 69 = true ∧ test_bit (bitmap_clear demo_map 60 10) 64 = false.
Proof.
  destruct (bitmap_area_bits demo_map 60 10) as (_ & _ & H); [apply demo_map_ok|vm_compute; done..|].
  destruct (H 69) as [-> _]; [lia|]. destruct (H 64) as [_ ->]; [lia|]. split; reflexivity.
Defined.

Lemma bitmap_find_first_witness :
  next_such (test_bit demo_map) 4 128 64 ∧ next_such (λ i, negb (test_bit demo_map i)) 4 128 4.
Proof.
  destruct (bitmap_find_first demo_map 128 4) as (H1 & H2 & _); [apply demo_map_ok|vm_compute; done..|].
  replace 64 with (find_next_bit demo_map 128 4) by (vm_compute; reflexivity).
  replace 4 with (find_next_zero_bit demo_map 128 4) at 3 by (vm_compute; reflexivity). done.
Defined.
