(* ===== verification/BitmapOps.v ===== *)
(** * BitmapOps: whole-bitmap operations of [ds/bitmap.c]

    Boolean combinations, comparisons, shifts and the search for the last
    set bit.  Each routine runs over the words of its arrays; the theorems
    give the bits of the result.  A source may be the destination array
    itself: it is then read while it is written, and the theorems cover
    that case. *)
From Stdlib Require Import ZArith Lia.
From stdpp Require Import base numbers list gmap strings.
From S2P Require Import Prelude Util Bitmap.

(** [BITS_TO_LONGS]: [DIV_ROUND_UP(nr, 64)], computed in 64 bits. *)
Definition BITS_TO_LONGS (nr : Z) : Z := (nr + 63) / 64.

(** A source array: an array of its own, or ([None]) the destination. *)
Definition arr (src : option bitmap) (dst : bitmap) : bitmap := default dst src.

(** [dst[k] = w]. *)
Definition set_word (m : bitmap) (k w : Z) : bitmap := upd_word m k (λ _, w).

(** [for (k in ks) dst[pos k] = g dst k]: [g] reads the current array. *)
Definition word_loop (g : bitmap → Z → Z) (pos : Z → Z) (ks : list Z) (dst : bitmap) : bitmap :=
  foldl (λ d k, set_word d (pos k) (g d k)) dst ks.

(** [memset(&dst[from], 0, n * 8)]. *)
Definition clear_words (dst : bitmap) (from n : Z) : bitmap :=
  word_loop (λ _ _, 0) id (seqZ from n) dst.

(** The inlines of [ds/bitmap.h], on a size the compiler does not know. *)
Definition bitmap_zero (dst : bitmap) (nbits : Z) : bitmap := clear_words dst 0 (BITS_TO_LONGS nbits).
Definition bitmap_copy (dst src : bitmap) (nbits : Z) : bitmap :=
  word_loop (λ _ k, word src k) id (seqZ 0 (BITS_TO_LONGS nbits)) dst.
(** With no bits [nlongs - 1] wraps around and the length of the [memset]
    is near 2^32. *)
Definition bitmap_fill (dst : bitmap) (nbits : Z) : outcome bitmap :=
  let nlongs := BITS_TO_LONGS nbits in
  if nlongs =? 0 then Fault "bitmap_fill"
  else
    let dst := word_loop (λ _ _, ones64) id (seqZ 0 (nlongs - 1)) dst in
    Ok (set_word dst (nlongs - 1) (BITMAP_LAST_WORD_MASK nbits)).
Definition bitmap_empty (src : bitmap) (nbits : Z) : bool := find_first_bit src nbits =? nbits.
Definition bitmap_full (src : bitmap) (nbits : Z) : bool := find_first_zero_bit src nbits =? nbits.

(** [__bitmap_or] and [__bitmap_xor]: all words, the unused bits too. *)
Definition full_op (f : Z → Z → Z) (dst : bitmap) (bitmap1 bitmap2 : option bitmap) (bits : Z) : bitmap :=
  word_loop (λ d k, f (word (arr bitmap1 d) k) (word (arr bitmap2 d) k)) id
    (seqZ 0 (BITS_TO_LONGS bits)) dst.
Definition __bitmap_or := full_op Z.lor.
Definition __bitmap_xor := full_op Z.lxor.

(** [__bitmap_and] and [__bitmap_andnot]: the last word is masked, and the
    result tells whether a bit is set. *)
Definition masked_op (f : Z → Z → Z) (dst : bitmap) (bitmap1 bitmap2 : option bitmap) (bits : Z)
    : bitmap * bool :=
  let val d k := f (word (arr bitmap1 d) k) (word (arr bitmap2 d) k) in
  let lim := bits / 64 in
  let '(dst, result) :=
    foldl (λ '(d, result) k, (set_word d k (val d k), Z.lor result (val d k)))
      (dst, 0) (seqZ 0 lim) in
  if bits mod 64 =? 0 then (dst, negb (result =? 0))
  else
    let w := Z.land (val dst lim) (BITMAP_LAST_WORD_MASK bits) in
    (set_word dst lim w, negb (Z.lor result w =? 0)).
Definition __bitmap_and := masked_op Z.land.
Definition __bitmap_andnot := masked_op (λ a b, Z.land a (not64 b)).

Definition __bitmap_complement (dst : bitmap) (src : option bitmap) (bits : Z) : bitmap :=
  let lim := bits / 64 in
  let val d k := not64 (word (arr src d) k) in
  let dst := word_loop val id (seqZ 0 lim) dst in
  if bits mod 64 =? 0 then dst else set_word dst lim (val dst lim).

(** The comparisons return at the first word that settles them. *)
Definition differ_at (f : Z → Z → Z) (bitmap1 bitmap2 : bitmap) (bits : Z) : bool :=
  let lim := bits / 64 in
  existsb (λ k, negb (f (word bitmap1 k) (word bitmap2 k) =? 0)) (seqZ 0 lim)
  || (negb (bits mod 64 =? 0)
      && negb (Z.land (f (word bitmap1 lim) (word bitmap2 lim)) (BITMAP_LAST_WORD_MASK bits) =? 0)).
Definition __bitmap_intersects (bitmap1 bitmap2 : bitmap) (bits : Z) : bool :=
  differ_at Z.land bitmap1 bitmap2 bits.
Definition __bitmap_subset (bitmap1 bitmap2 : bitmap) (bits : Z) : bool :=
  negb (differ_at (λ a b, Z.land a (not64 b)) bitmap1 bitmap2 bits).
Definition __bitmap_equal (bitmap1 bitmap2 : bitmap) (bits : Z) : bool :=
  let lim := bits / 64 in
  if existsb (λ k, negb (word bitmap1 k =? word bitmap2 k)) (seqZ 0 lim) then false
  else if negb (bits mod 64 =? 0)
          && negb (Z.land (Z.lxor (word bitmap1 lim) (word bitmap2 lim)) (BITMAP_LAST_WORD_MASK bits) =? 0)
  then false else true.

(** [find_last_bit]: from the last word down. *)
Fixpoint last_loop (addr : bitmap) (size : Z) (idx : nat) (val : Z) : Z :=
  let val := Z.land val (word addr (Z.of_nat idx)) in
  if negb (val =? 0) then Z.of_nat idx * 64 + __fls val
  else match idx with O => size | S idx => last_loop addr size idx ones64 end.
Definition find_last_bit (addr : bitmap) (size : Z) : Z :=
  if size =? 0 then size
  else last_loop addr size (Z.to_nat ((size - 1) / 64)) (BITMAP_LAST_WORD_MASK size).

(** [__bitmap_shift_right]: word [k] of the result is made of words
    [off + k] and [off + k + 1]; a shift of more words than the bitmap has
    makes [lim - off] wrap around. *)
Definition shift_right_word (lim off rem mask : Z) (src : bitmap) (k : Z) : Z :=
  let upper :=
    if (rem =? 0) || (lim <=? off + k + 1) then 0
    else
      let upper := word src (off + k + 1) in
      let upper := if off + k + 1 =? lim - 1 then Z.land upper mask else upper in
      shl64 upper (64 - rem) in
  let lower := word src (off + k) in
  let lower := if off + k =? lim - 1 then Z.land lower mask else lower in
  Z.lor (shr64 lower rem) upper.
Definition __bitmap_shift_right (dst : bitmap) (src : option bitmap) (shift nbits : Z) : outcome bitmap :=
  let lim := BITS_TO_LONGS nbits in
  let off := shift / 64 in
  let rem := shift mod 64 in
  let mask := BITMAP_LAST_WORD_MASK nbits in
  let dst := word_loop (λ d k, shift_right_word lim off rem mask (arr src d) k) id (seqZ 0 (lim - off)) dst in
  if off =? 0 then Ok dst
  else if lim <? off then Fault "__bitmap_shift_right"
  else Ok (clear_words dst (lim - off) off).

(** [__bitmap_shift_left]: from the last word down, the source unmasked; the
    [memset] clears [off] words whatever the size of the bitmap. *)
Definition shift_left_word (rem : Z) (src : bitmap) (k : Z) : Z :=
  let lower :=
    if negb (rem =? 0) && (0 <? k) then shr64 (word src (k - 1)) (64 - rem) else 0 in
  Z.lor lower (shl64 (word src k) rem).
Definition __bitmap_shift_left (dst : bitmap) (src : option bitmap) (shift nbits : Z) : outcome bitmap :=
  let lim := BITS_TO_LONGS nbits in
  let off := shift / 64 in
  let rem := shift mod 64 in
  let dst := word_loop (λ d k, shift_left_word rem (arr src d) k) (λ k, k + off)
    (reverse (seqZ 0 (lim - off))) dst in
  if off =? 0 then Ok dst
  else if Z.of_nat (length dst) <? off then Fault "__bitmap_shift_left"
  else Ok (clear_words dst 0 off).

(** ** Words of the written array *)
Lemma set_word_word m k w j :
  0 ≤ k < Z.of_nat (length m) → 0 ≤ j → word (set_word m k w) j = if j =? k then w else word m j.
Proof.
  intros Hk Hj. unfold set_word, upd_word, word. rewrite !list_lookup_total_alt.
  destruct (Z.eqb_spec j k) as [->|Hne].
  - destruct (lookup_lt_is_Some_2 m (Z.to_nat k) ltac:(lia)) as [x Hx].
    by rewrite list_lookup_alter_eq, Hx.
  - by rewrite list_lookup_alter_ne by lia.
Qed.

Lemma set_word_length m k w : length (set_word m k w) = length m.
Proof. apply length_alter. Qed.

Lemma word_loop_length g pos ks dst : length (word_loop g pos ks dst) = length dst.
Proof.
  unfold word_loop. revert dst. induction ks as [|k ks IH]; intros dst; simpl; [done|].
  by rewrite IH, set_word_length.
Qed.

(** Every word is written once, before any later step reads it: the loop
    writes what it would compute from the array it started with. *)
Lemma word_loop_words g pos ks dst :
  NoDup (pos <$> ks) → (∀ k, k ∈ ks → 0 ≤ pos k < Z.of_nat (length dst)) →
  (∀ k ks1 ks2 d, ks = ks1 ++ k :: ks2 →
     (∀ j, 0 ≤ j → j ∉ pos <$> ks1 → word d j = word dst j) → g d k = g dst k) →
  (∀ k, k ∈ ks → word (word_loop g pos ks dst) (pos k) = g dst k)
  ∧ (∀ j, 0 ≤ j → j ∉ pos <$> ks → word (word_loop g pos ks dst) j = word dst j).
Proof.
  induction ks as [|k ks IH] using rev_ind; intros Hnd Hin Hg.
  { split; [intros k Hk; by apply elem_of_nil in Hk|done]. }
  rewrite fmap_app in Hnd. apply NoDup_app in Hnd as (Hnd & Hdis & _).
  destruct IH as [IH1 IH2]; [done| | |].
  { intros x Hx. apply Hin. set_solver. }
  { intros x ks1 ks2 d -> Hd. apply (Hg x ks1 (ks2 ++ [k])); [by rewrite <- app_assoc|done]. }
  assert (Hpos : 0 ≤ pos k < Z.of_nat (length dst)) by (apply Hin; set_solver).
  assert (Hl : word_loop g pos (ks ++ [k]) dst
    = set_word (word_loop g pos ks dst) (pos k) (g dst k)).
  { unfold word_loop at 1. rewrite foldl_app. simpl. fold (word_loop g pos ks dst). f_equal.
    by apply (Hg k ks []). }
  rewrite Hl. split.
  - intros x Hx. pose proof (Hin x Hx).
    rewrite set_word_word by (rewrite ?word_loop_length; lia).
    apply elem_of_app in Hx as [Hx|Hx%list_elem_of_singleton]; [|by rewrite Hx, Z.eqb_refl].
    destruct (Z.eqb_spec (pos x) (pos k)) as [E|]; [|by apply IH1].
    exfalso. apply (Hdis (pos x)); [by apply list_elem_of_fmap_2|rewrite E; simpl; set_solver].
  - intros j Hj Hn. rewrite fmap_app in Hn. simpl in Hn.
    rewrite set_word_word by (rewrite ?word_loop_length; done).
    destruct (Z.eqb_spec j (pos k)) as [->|]; [set_solver|]. apply IH2; set_solver.
Qed.

Lemma seqZ_around n l1 k l2 :
  seqZ 0 n = l1 ++ k :: l2 → (∀ x, x ∈ l1 → x < k) ∧ (∀ x, x ∈ l2 → k < x).
Proof.
  intros E.
  assert (Ek : seqZ 0 n !! length l1 = Some k) by (rewrite E; by apply list_lookup_middle).
  apply lookup_seqZ in Ek. split; intros x [a Ha]%list_elem_of_lookup.
  - pose proof (lookup_lt_Some _ _ _ Ha).
    assert (Ex : seqZ 0 n !! a = Some x) by (rewrite E; by apply lookup_app_l_Some).
    apply lookup_seqZ in Ex. lia.
  - assert (Ex : seqZ 0 n !! (length l1 + S a)%nat = Some x).
    { rewrite E, lookup_app_r by lia. by replace (length l1 + S a - length l1)%nat with (S a) by lia. }
    apply lookup_seqZ in Ex. lia.
Qed.

(** The loops over [0, n) that write word [k] from word [k] of the sources. *)
Lemma word_loop_seq g n dst j :
  0 ≤ n ≤ Z.of_nat (length dst) → 0 ≤ j →
  (∀ d k, 0 ≤ k < n → (∀ i, k ≤ i → word d i = word dst i) → g d k = g dst k) →
  word (word_loop g id (seqZ 0 n) dst) j = if j <? n then g dst j else word dst j.
Proof.
  intros Hn Hj Hg.
  destruct (word_loop_words g id (seqZ 0 n) dst) as [H1 H2].
  - rewrite list_fmap_id. apply NoDup_seqZ.
  - intros k Hk%elem_of_seqZ. simpl. lia.
  - intros k ks1 ks2 d E Hd. rewrite list_fmap_id in Hd.
    assert (Hin : k ∈ seqZ 0 n) by (rewrite E; set_solver). apply elem_of_seqZ in Hin.
    apply Hg; [lia|]. intros i Hi. apply Hd; [lia|]. intros Hks1.
    destruct (seqZ_around n ks1 k ks2 E) as [Hlt _]. specialize (Hlt i Hks1). lia.
  - destruct (Z.ltb_spec j n).
    + apply (H1 j). apply elem_of_seqZ. lia.
    + apply H2; [done|]. rewrite list_fmap_id, elem_of_seqZ. lia.
Qed.

Lemma clear_words_word dst from n j :
  0 ≤ from → 0 ≤ n → from + n ≤ Z.of_nat (length dst) → 0 ≤ j →
  word (clear_words dst from n) j = if (from <=? j) && (j <? from + n) then 0 else word dst j.
Proof.
  intros Hf Hn Hl Hj. unfold clear_words.
  destruct (word_loop_words (λ _ _, 0) id (seqZ from n) dst) as [H1 H2].
  - rewrite list_fmap_id. apply NoDup_seqZ.
  - intros k Hk%elem_of_seqZ. simpl. lia.
  - done.
  - destruct (Z.leb_spec from j), (Z.ltb_spec j (from + n)); simpl.
    1: apply (H1 j); apply elem_of_seqZ; lia.
    all: apply H2; [done|]; rewrite list_fmap_id, elem_of_seqZ; lia.
Qed.

(** ** Bits *)
Lemma longs_bound i n : 0 ≤ i < 64 * BITS_TO_LONGS n ↔ 0 ≤ i ∧ 0 ≤ i / 64 < BITS_TO_LONGS n.
Proof. pose proof (split64 i) as [E Hr]. split; intros; lia. Qed.

Lemma longs_split n :
  0 ≤ n → BITS_TO_LONGS n = if n mod 64 =? 0 then n / 64 else n / 64 + 1.
Proof.
  intros Hn. unfold BITS_TO_LONGS. destruct (split64 n) as [E Hr].
  destruct (Z.eqb_spec (n mod 64) 0) as [H0|H0].
  - rewrite E at 1. rewrite H0, Z.add_0_r, Z.div_add_l by lia. rewrite (Z.div_small 63) by lia. lia.
  - rewrite E at 1. replace (n / 64 * 64 + n mod 64 + 63) with ((n / 64 + 1) * 64 + (n mod 64 - 1)) by lia.
    rewrite Z.div_add_l, (Z.div_small (n mod 64 - 1)) by lia. lia.
Qed.

Lemma longs_cover n : 0 ≤ n → n ≤ 64 * BITS_TO_LONGS n < n + 64.
Proof.
  intros Hn. rewrite longs_split by done. destruct (split64 n).
  destruct (Z.eqb_spec (n mod 64) 0); lia.
Qed.

(** The last-word mask inside word [n / 64]: the positions below [n]. *)
Lemma last_mask_below n k j :
  0 ≤ n → n mod 64 ≠ 0 → k = n / 64 → 0 ≤ j < 64 →
  Z.testbit (BITMAP_LAST_WORD_MASK n) j = (k * 64 + j <? n).
Proof.
  intros Hn Hm -> Hj. rewrite LAST_MASK_testbit by done. destruct (split64 n).
  destruct (Z.eqb_spec (n mod 64) 0); [done|].
  destruct (Z.ltb_spec j (n mod 64)), (Z.ltb_spec (n / 64 * 64 + j) n); done || lia.
Qed.

(** Some bit below [bits] is set iff a whole word is not zero or the masked
    last word is not. *)
Lemma any_bit (v : Z → Z) bits :
  (∀ k, 0 ≤ v k < 2 ^ 64) → 0 ≤ bits →
  existsb (λ k, negb (v k =? 0)) (seqZ 0 (bits / 64))
  || (negb (bits mod 64 =? 0) && negb (Z.land (v (bits / 64)) (BITMAP_LAST_WORD_MASK bits) =? 0)) = true
  ↔ ∃ i, 0 ≤ i < bits ∧ Z.testbit (v (i / 64)) (i mod 64) = true.
Proof.
  intros Hv Hb. rewrite orb_true_iff, existsb_exists, andb_true_iff, !negb_true_iff, !Z.eqb_neq.
  destruct (split64 bits) as [Es Hr]. split.
  - intros [(k & Hk & Hw)|[Hm Hw]].
    + rewrite <- list_elem_of_In, elem_of_seqZ in Hk. apply negb_true_iff, Z.eqb_neq in Hw.
      destruct (word_nonzero (v k) (Hv k) Hw) as (j & Hj & Ht). exists (k * 64 + j).
      split; [lia|]. rewrite Z.div_add_l, Z.div_small, Z.add_0_r by lia.
      by rewrite Z.add_comm, Z.mod_add, Z.mod_small by lia.
    + destruct (word_nonzero _ (land_range _ (BITMAP_LAST_WORD_MASK bits) (Hv (bits / 64))) Hw) as (j & Hj & Ht).
      rewrite Z.land_spec, andb_true_iff, (last_mask_below bits (bits / 64)), Z.ltb_lt in Ht by done.
      exists (bits / 64 * 64 + j). pose proof (Z.div_pos bits 64). split; [lia|].
      rewrite Z.div_add_l, (Z.div_small j), Z.add_0_r by lia.
      rewrite Z.add_comm, Z.mod_add, Z.mod_small by lia. apply Ht.
  - intros (i & Hi & Ht). destruct (split64 i) as [Ei Hri]. pose proof (Z.div_pos i 64 ltac:(lia)).
    assert (Hnz : ∀ w n, Z.testbit w n = true → w ≠ 0).
    { intros w n Hw ->. by rewrite Z.bits_0 in Hw. }
    destruct (decide (i / 64 < bits / 64)) as [Hlt|Hge].
    + left. exists (i / 64). rewrite <- list_elem_of_In, elem_of_seqZ. split; [lia|].
      apply negb_true_iff, Z.eqb_neq. by eapply Hnz.
    + right. assert (E : i / 64 = bits / 64) by lia. split; [lia|].
      apply (Hnz _ (i mod 64)). rewrite Z.land_spec, <- E, Ht, (last_mask_below bits (i / 64)) by (done || lia).
      apply Z.ltb_lt. lia.
Qed.

Section binary.
(** A word operation that works bit by bit. *)
Context (f : Z → Z → Z) (op : bool → bool → bool).
Hypothesis f_bits : ∀ a b j, 0 ≤ j < 64 → Z.testbit (f a b) j = op (Z.testbit a j) (Z.testbit b j).
Hypothesis f_range : ∀ a b, 0 ≤ a < 2 ^ 64 → 0 ≤ b < 2 ^ 64 → 0 ≤ f a b < 2 ^ 64.

Let val (b1 b2 : option bitmap) (d : bitmap) (k : Z) : Z := f (word (arr b1 d) k) (word (arr b2 d) k).

Lemma val_stable b1 b2 d dst k :
  (∀ i, k ≤ i → word d i = word dst i) → val b1 b2 d k = val b1 b2 dst k.
Proof.
  intros Hd. unfold val, arr. f_equal; [destruct b1|destruct b2]; simpl; try done; apply Hd; lia.
Qed.

Lemma full_op_bits dst b1 b2 bits i :
  0 ≤ bits → BITS_TO_LONGS bits ≤ Z.of_nat (length dst) → 0 ≤ i →
  test_bit (full_op f dst b1 b2 bits) i =
    if i <? 64 * BITS_TO_LONGS bits then op (test_bit (arr b1 dst) i) (test_bit (arr b2 dst) i)
    else test_bit dst i.
Proof.
  intros Hb Hl Hi. destruct (split64 i) as [Ei Hr]. pose proof (Z.div_pos i 64 ltac:(lia)).
  pose proof (longs_cover bits Hb).
  unfold full_op, test_bit at 1. rewrite word_loop_seq; [|lia|lia|intros; by apply val_stable].
  destruct (Z.ltb_spec (i / 64) (BITS_TO_LONGS bits)), (Z.ltb_spec i (64 * BITS_TO_LONGS bits));
    try lia; [by rewrite f_bits|done].
Qed.

(** The loop of the masked operations: the words as in [word_loop], the
    result the union of what was written. *)
Lemma masked_loop b1 b2 dst (n : nat) :
  Z.of_nat n ≤ Z.of_nat (length dst) →
  foldl (λ '(d, result) k, (set_word d k (val b1 b2 d k), Z.lor result (val b1 b2 d k)))
    (dst, 0) (seqZ 0 (Z.of_nat n))
  = (word_loop (val b1 b2) id (seqZ 0 (Z.of_nat n)) dst,
     foldl (λ r k, Z.lor r (val b1 b2 dst k)) 0 (seqZ 0 (Z.of_nat n))).
Proof.
  induction n as [|n IH]; intros Hn; [done|].
  replace (Z.of_nat (S n)) with (Z.of_nat n + 1) by lia.
  unfold word_loop. rewrite seqZ_app, !foldl_app, IH by lia. cbn [foldl seqZ Z.to_nat].
  change (seqZ (0 + Z.of_nat n) 1) with [0 + Z.of_nat n]. cbn [foldl]. f_equal. f_equal.
  apply val_stable. intros i Hi. rewrite word_loop_seq; [|lia|lia|].
  - destruct (Z.ltb_spec i (Z.of_nat n)); [lia|done].
  - intros d k Hk Hd. by apply val_stable.
Qed.

Lemma lor_fold_zero (v : Z → Z) r ks :
  foldl (λ r k, Z.lor r (v k)) r ks = 0 ↔ r = 0 ∧ existsb (λ k, negb (v k =? 0)) ks = false.
Proof.
  revert r. induction ks as [|k ks IH]; intros r; simpl; [tauto|].
  rewrite IH, Z.lor_eq_0_iff, orb_false_iff, negb_false_iff, Z.eqb_eq. tauto.
Qed.

Lemma masked_op_ok dst b1 b2 bits :
  words_ok (arr b1 dst) → words_ok (arr b2 dst) → 0 ≤ bits → BITS_TO_LONGS bits ≤ Z.of_nat (length dst) →
  (∀ i, 0 ≤ i → test_bit (masked_op f dst b1 b2 bits).1 i =
     if i <? 64 * BITS_TO_LONGS bits
     then (i <? bits) && op (test_bit (arr b1 dst) i) (test_bit (arr b2 dst) i)
     else test_bit dst i)
  ∧ ((masked_op f dst b1 b2 bits).2 = true
     ↔ ∃ i, 0 ≤ i < bits ∧ op (test_bit (arr b1 dst) i) (test_bit (arr b2 dst) i) = true).
Proof.
  intros Hw1 Hw2 Hb Hl. destruct (split64 bits) as [Es Hr]. pose proof (Z.div_pos bits 64 ltac:(lia)).
  pose proof (longs_split bits Hb) as Hls.
  assert (Hlim : 0 ≤ bits / 64 ≤ Z.of_nat (length dst)) by (destruct (Z.eqb_spec (bits mod 64) 0); lia).
  assert (Hv : ∀ k, 0 ≤ val b1 b2 dst k < 2 ^ 64) by (intros; apply f_range; by apply word_range).
  assert (Hany : (∃ i, 0 ≤ i < bits ∧ op (test_bit (arr b1 dst) i) (test_bit (arr b2 dst) i) = true)
    ↔ ∃ i, 0 ≤ i < bits ∧ Z.testbit (val b1 b2 dst (i / 64)) (i mod 64) = true).
  { unfold val. split; intros (i & Hi & Ht); exists i; (split; [done|]); destruct (split64 i);
      [by rewrite f_bits|by rewrite f_bits in Ht]. }
  pose proof (masked_loop b1 b2 dst (Z.to_nat (bits / 64)) ltac:(lia)) as Hloop.
  rewrite Z2Nat.id in Hloop by lia.
  unfold masked_op. fold (val b1 b2). cbv zeta. unfold val at 1 2 in Hloop. rewrite Hloop. clear Hloop.
  rewrite Hany, <- (any_bit _ _ Hv Hb). clear Hany.
  set (d := word_loop (val b1 b2) id (seqZ 0 (bits / 64)) dst).
  assert (Hd : ∀ j, 0 ≤ j → word d j = if j <? bits / 64 then val b1 b2 dst j else word dst j).
  { intros j Hj. apply word_loop_seq; [lia|done|]. intros. by apply val_stable. }
  assert (Hlast : val b1 b2 d (bits / 64) = val b1 b2 dst (bits / 64)).
  { apply val_stable. intros i Hi. rewrite Hd by lia. destruct (Z.ltb_spec i (bits / 64)); [lia|done]. }
  fold (val b1 b2 d (bits / 64)). rewrite Hlast.
  assert (Hlen : length d = length dst) by apply word_loop_length.
  destruct (Z.eqb_spec (bits mod 64) 0) as [E0|E0]; cbn [fst snd negb andb].
  - split.
    + intros i Hi. destruct (split64 i) as [Ei Hri]. pose proof (Z.div_pos i 64 ltac:(lia)).
      unfold test_bit at 1. rewrite Hd by lia. rewrite Hls.
      destruct (Z.ltb_spec (i / 64) (bits / 64)), (Z.ltb_spec i (64 * (bits / 64))), (Z.ltb_spec i bits);
        try lia; [by apply f_bits|done].
    + rewrite orb_false_r, negb_true_iff, Z.eqb_neq, lor_fold_zero.
      destruct (existsb _ _); naive_solver.
  - split.
    + intros i Hi. destruct (split64 i) as [Ei Hri]. pose proof (Z.div_pos i 64 ltac:(lia)).
      unfold test_bit at 1. rewrite set_word_word, Hd by (rewrite ?Hlen; lia). rewrite Hls.
      destruct (Z.eqb_spec (i / 64) (bits / 64)) as [E|E].
      * rewrite Z.land_spec, (last_mask_below bits (i / 64)), <- Ei, andb_comm by (done || lia).
        destruct (Z.ltb_spec i (64 * (bits / 64 + 1))); [|lia]. f_equal. rewrite <- E. by apply f_bits.
      * destruct (Z.ltb_spec (i / 64) (bits / 64)), (Z.ltb_spec i (64 * (bits / 64 + 1))), (Z.ltb_spec i bits);
          try lia; [by apply f_bits|done].
    + rewrite orb_true_iff, !negb_true_iff, !Z.eqb_neq, Z.lor_eq_0_iff, lor_fold_zero.
      destruct (existsb _ _); [naive_solver|]. destruct (decide (Z.land (val b1 b2 dst (bits / 64)) (BITMAP_LAST_WORD_MASK bits) = 0)); naive_solver.
Qed.
End binary.

(** ** Comparisons *)
Section compare.
Context (b1 b2 : bitmap) (bits : Z).
Hypothesis H1 : words_ok b1.
Hypothesis H2 : words_ok b2.
Hypothesis Hbits : 0 ≤ bits.

Lemma differ_at_ok f op :
  (∀ a b j, 0 ≤ j < 64 → Z.testbit (f a b) j = op (Z.testbit a j) (Z.testbit b j)) →
  (∀ a b, 0 ≤ a < 2 ^ 64 → 0 ≤ b < 2 ^ 64 → 0 ≤ f a b < 2 ^ 64) →
  differ_at f b1 b2 bits = true ↔ ∃ i, 0 ≤ i < bits ∧ op (test_bit b1 i) (test_bit b2 i) = true.
Proof.
  intros Hf Hr. unfold differ_at. cbv zeta.
  rewrite (any_bit (λ k, f (word b1 k) (word b2 k))); [|intros; apply Hr; by apply word_range|done].
  split; intros (i & Hi & Ht); exists i; (split; [done|]); destruct (split64 i);
    [by rewrite Hf in Ht|by rewrite Hf].
Qed.

Lemma equal_differ : __bitmap_equal b1 b2 bits = negb (differ_at Z.lxor b1 b2 bits).
Proof.
  unfold __bitmap_equal, differ_at. cbv zeta.
  replace (existsb (λ k, negb (Z.lxor (word b1 k) (word b2 k) =? 0)) (seqZ 0 (bits / 64)))
    with (existsb (λ k, negb (word b1 k =? word b2 k)) (seqZ 0 (bits / 64))).
  - by destruct (existsb _ _), (negb _ && negb _).
  - induction (seqZ 0 (bits / 64)) as [|k ks IH]; [done|]. simpl. rewrite IH. do 2 f_equal.
    apply eq_true_iff_eq. by rewrite !Z.eqb_eq, Z.lxor_eq_0_iff.
Qed.
End compare.

Definition andn (a b : bool) : bool := a && negb b.

Lemma andnot_bits a b j :
  0 ≤ j < 64 → Z.testbit (Z.land a (not64 b)) j = andn (Z.testbit a j) (Z.testbit b j).
Proof. intros. by rewrite Z.land_spec, not64_testbit. Qed.

Lemma complement_bits dst src bits i :
  0 ≤ bits → BITS_TO_LONGS bits ≤ Z.of_nat (length dst) → 0 ≤ i →
  test_bit (__bitmap_complement dst src bits) i =
    if i <? 64 * BITS_TO_LONGS bits then negb (test_bit (arr src dst) i) else test_bit dst i.
Proof.
  intros Hb Hl Hi. destruct (split64 i) as [Ei Hr], (split64 bits) as [Es Hrb].
  rewrite longs_split in * by done. unfold __bitmap_complement. cbv zeta.
  set (val := λ d k, not64 (word (arr src d) k)).
  assert (Hst : ∀ d k, (∀ j, k ≤ j → word d j = word dst j) → val d k = val dst k).
  { intros d k Hd. unfold val, arr. destruct src; simpl; [done|]. by rewrite Hd. }
  assert (Hbit : ∀ k j, 0 ≤ j < 64 → Z.testbit (val dst k) j = negb (test_bit (arr src dst) (k * 64 + j))).
  { intros k j Hj. unfold val. by rewrite not64_testbit, test_bit_word. }
  fold (val dst). set (d := word_loop val id (seqZ 0 (bits / 64)) dst).
  assert (Hd : ∀ j, 0 ≤ j → bits / 64 ≤ Z.of_nat (length dst) →
    word d j = if j <? bits / 64 then val dst j else word dst j).
  { intros j Hj Hle. apply word_loop_seq; [lia|done|]. intros. by apply Hst. }
  destruct (Z.eqb_spec (bits mod 64) 0) as [E0|E0]; unfold test_bit at 1.
  - rewrite Hd by lia.
    destruct (Z.ltb_spec (i / 64) (bits / 64)), (Z.ltb_spec i (64 * (bits / 64))); try lia; [|done].
    by rewrite Hbit, <- Ei.
  - change (not64 (word (arr src d) (bits / 64))) with (val d (bits / 64)).
    rewrite set_word_word, Hd by (unfold d; rewrite ?word_loop_length; lia).
    rewrite (Hst d) by (intros j Hj; rewrite Hd by lia; destruct (Z.ltb_spec j (bits / 64)); [lia|done]).
    destruct (Z.eqb_spec (i / 64) (bits / 64)) as [E|E].
    + rewrite <- E, Hbit, <- Ei by done. destruct (Z.ltb_spec i (64 * (i / 64 + 1))); [done|lia].
    + destruct (Z.ltb_spec (i / 64) (bits / 64)), (Z.ltb_spec i (64 * (bits / 64 + 1))); try lia; [|done].
      by rewrite Hbit, <- Ei.
Qed.

(** ** The last set bit *)
Definition last_such (P : Z → bool) (hi r : Z) : Prop :=
  (r = hi ∧ ∀ i, 0 ≤ i < hi → P i = false)
  ∨ (0 ≤ r < hi ∧ P r = true ∧ ∀ i, r < i < hi → P i = false).

Lemma fls_ok w :
  0 ≤ w < 2 ^ 64 → w ≠ 0 →
  0 ≤ __fls w < 64 ∧ Z.testbit w (__fls w) = true ∧ ∀ j, __fls w < j → Z.testbit w j = false.
Proof.
  intros Hw Hn. unfold __fls. split; [|split].
  - split; [apply Z.log2_nonneg|]. apply Z.log2_lt_pow2; lia.
  - apply Z.bit_log2. lia.
  - intros j Hj. apply Z.bits_above_log2; lia.
Qed.

(** One word of the downward scan, everything above it clear. *)
Lemma last_word m size K val :
  words_ok m → 0 ≤ val < 2 ^ 64 → 0 ≤ K →
  (∀ j, 0 ≤ j < 64 → Z.testbit val j = (K * 64 + j <? size)) →
  (∀ i, (K + 1) * 64 ≤ i < size → test_bit m i = false) →
  let w := Z.land val (word m K) in
  (w = 0 → ∀ i, K * 64 ≤ i < size → test_bit m i = false)
  ∧ (w ≠ 0 → last_such (test_bit m) size (K * 64 + __fls w)).
Proof.
  intros Hm Hval HK Hbits Habove w.
  assert (Hb : ∀ j, 0 ≤ j < 64 → Z.testbit w j = (K * 64 + j <? size) && test_bit m (K * 64 + j))
    by (intros j Hj; unfold w; by rewrite Z.land_spec, Hbits, test_bit_word).
  assert (Hclear : ∀ i, K * 64 ≤ i < size →
    (i < (K + 1) * 64 → Z.testbit w (i - K * 64) = false) → test_bit m i = false).
  { intros i Hi Hz. destruct (decide ((K + 1) * 64 ≤ i)); [apply Habove; lia|].
    specialize (Hz ltac:(lia)). rewrite Hb in Hz by lia.
    replace (K * 64 + (i - K * 64)) with i in Hz by lia. destruct (Z.ltb_spec i size); [done|lia]. }
  split.
  - intros Hz i Hi. apply Hclear; [done|]. intros _. rewrite Hz. apply Z.bits_0.
  - intros Hn. destruct (fls_ok w (land_range _ _ Hval) Hn) as (Hr & Ht & Hab).
    rewrite Hb in Ht by done. apply andb_true_iff in Ht as [Ht1%Z.ltb_lt Ht2].
    right. split; [lia|]. split; [done|]. intros i Hi. apply Hclear; [lia|]. intros. apply Hab. lia.
Qed.

Lemma last_loop_ok m size idx val :
  words_ok m → 0 ≤ val < 2 ^ 64 → Z.of_nat idx * 64 < size →
  (∀ j, 0 ≤ j < 64 → Z.testbit val j = (Z.of_nat idx * 64 + j <? size)) →
  (∀ i, (Z.of_nat idx + 1) * 64 ≤ i < size → test_bit m i = false) →
  last_such (test_bit m) size (last_loop m size idx val).
Proof.
  intros Hm. revert val. induction idx as [|idx IH]; intros val Hval Hlt Hbits Habove;
    destruct (last_word m size _ val Hm Hval ltac:(apply Nat2Z.is_nonneg) Hbits Habove) as [H0 H1];
    cbn [last_loop];
    match goal with |- context [?w =? 0] => destruct (Z.eqb_spec w 0) as [E|E] end; cbn [negb].
  - left. split; [done|]. intros i Hi. apply (H0 E). lia.
  - by apply H1.
  - apply IH; [unfold ones64; lia|lia| |].
    + intros j Hj. rewrite ones64_testbit by lia.
      destruct (Z.ltb_spec j 64), (Z.ltb_spec (Z.of_nat idx * 64 + j) size); done || lia.
    + intros i Hi. apply (H0 E). lia.
  - by apply H1.
Qed.

Lemma find_last_bit_ok m size :
  words_ok m → 0 ≤ size → last_such (test_bit m) size (find_last_bit m size).
Proof.
  intros Hm Hs. unfold find_last_bit. destruct (Z.eqb_spec size 0) as [->|Hn].
  { left. split; [done|lia]. }
  destruct (split64 (size - 1)) as [E Hr]. apply last_loop_ok; rewrite ?Z2Nat.id by lia; try done; try lia.
  - apply masks_range.
  - intros j Hj. rewrite LAST_MASK_testbit by done. destruct (split64 size) as [E' Hr'].
    destruct (Z.eqb_spec (size mod 64) 0).
    + destruct (Z.ltb_spec ((size - 1) / 64 * 64 + j) size); [done|lia].
    + destruct (Z.ltb_spec j (size mod 64)), (Z.ltb_spec ((size - 1) / 64 * 64 + j) size); done || lia.
Qed.

(** ** Shifts *)
Lemma shl64_testbit w n j :
  0 ≤ j < 64 → 0 ≤ n → Z.testbit (shl64 w n) j = (n <=? j) && Z.testbit w (j - n).
Proof.
  intros Hj Hn. unfold shl64, u64. rewrite Z.mod_pow2_bits_low, Z.shiftl_spec by lia.
  destruct (Z.leb_spec n j); [done|]. apply Z.testbit_neg_r. lia.
Qed.

Lemma testbit_high w j : 0 ≤ w < 2 ^ 64 → 64 ≤ j → Z.testbit w j = false.
Proof.
  intros Hw Hj. rewrite <- (Z.mod_small w (2 ^ 64)) by lia. apply Z.mod_pow2_bits_high. lia.
Qed.

Lemma shr64_testbit w n j :
  0 ≤ w < 2 ^ 64 → 0 ≤ j → 0 ≤ n → Z.testbit (shr64 w n) j = (j + n <? 64) && Z.testbit w (j + n).
Proof.
  intros Hw Hj Hn. unfold shr64. rewrite Z.shiftr_spec by lia.
  destruct (Z.ltb_spec (j + n) 64); [done|]. by apply testbit_high.
Qed.

(** A word with the bits from [nbits] on masked out when it is the last. *)
Lemma masked_word_bits src nbits k j :
  0 ≤ nbits → 0 ≤ k < BITS_TO_LONGS nbits → 0 ≤ j < 64 →
  Z.testbit (if k =? BITS_TO_LONGS nbits - 1 then Z.land (word src k) (BITMAP_LAST_WORD_MASK nbits)
             else word src k) j
  = (k * 64 + j <? nbits) && test_bit src (k * 64 + j).
Proof.
  intros Hn Hk Hj. rewrite test_bit_word by done. pose proof (longs_split nbits Hn) as Hl.
  destruct (split64 nbits) as [Es Hr].
  destruct (Z.eqb_spec k (BITS_TO_LONGS nbits - 1)) as [E|E].
  - rewrite Z.land_spec, andb_comm. f_equal.
    destruct (Z.eqb_spec (nbits mod 64) 0) as [E0|E0].
    + rewrite LAST_MASK_testbit, E0 by done. cbn [Z.eqb]. symmetry. apply Z.ltb_lt. lia.
    + apply last_mask_below; done || lia.
  - pose proof (longs_cover nbits Hn). destruct (Z.ltb_spec (k * 64 + j) nbits); [done|lia].
Qed.

Lemma shift_right_word_bits src shift nbits k j :
  words_ok src → 0 ≤ nbits → 0 ≤ shift → 0 ≤ k → shift / 64 + k < BITS_TO_LONGS nbits → 0 ≤ j < 64 →
  Z.testbit (shift_right_word (BITS_TO_LONGS nbits) (shift / 64) (shift mod 64)
    (BITMAP_LAST_WORD_MASK nbits) src k) j
  = (k * 64 + j + shift <? nbits) && test_bit src (k * 64 + j + shift).
Proof.
  intros Hm Hn Hs Hk Hlim Hj. destruct (split64 shift) as [Es Hr].
  pose proof (Z.div_pos shift 64 Hs ltac:(lia)) as Hoff.
  set (off := shift / 64) in *. set (rem := shift mod 64) in *.
  unfold shift_right_word. cbv zeta. rewrite Z.lor_spec.
  assert (Hlow : 0 ≤ (if off + k =? BITS_TO_LONGS nbits - 1
    then Z.land (word src (off + k)) (BITMAP_LAST_WORD_MASK nbits) else word src (off + k)) < 2 ^ 64).
  { case_match; [apply land_range|]; by apply word_range. }
  rewrite shr64_testbit by lia. destruct (Z.ltb_spec (j + rem) 64) as [Hjr|Hjr]; cbn [andb].
  - rewrite masked_word_bits by lia.
    replace ((off + k) * 64 + (j + rem)) with (k * 64 + j + shift) by lia.
    destruct ((rem =? 0) || (BITS_TO_LONGS nbits <=? off + k + 1)); [by rewrite Z.bits_0, orb_false_r|].
    rewrite shl64_testbit by lia. destruct (Z.leb_spec (64 - rem) j); [lia|]. by rewrite orb_false_r.
  - rewrite orb_false_l. destruct (Z.eqb_spec rem 0); [lia|]. cbn [orb].
    destruct (Z.leb_spec (BITS_TO_LONGS nbits) (off + k + 1)).
    + rewrite Z.bits_0. pose proof (longs_cover nbits Hn).
      destruct (Z.ltb_spec (k * 64 + j + shift) nbits); [lia|done].
    + rewrite shl64_testbit by lia. destruct (Z.leb_spec (64 - rem) j); [|lia]. cbn [andb].
      rewrite masked_word_bits by lia.
      by replace ((off + k + 1) * 64 + (j - (64 - rem))) with (k * 64 + j + shift) by lia.
Qed.

Lemma shift_left_word_bits src shift k j :
  words_ok src → 0 ≤ shift → 0 ≤ k → 0 ≤ j < 64 →
  Z.testbit (shift_left_word (shift mod 64) src k) j
  = (shift mod 64 <=? k * 64 + j) && test_bit src (k * 64 + j - shift mod 64).
Proof.
  intros Hm Hs Hk Hj. destruct (split64 shift) as [_ Hr]. set (rem := shift mod 64) in *.
  unfold shift_left_word. cbv zeta. rewrite Z.lor_spec, shl64_testbit by lia.
  destruct (Z.leb_spec rem j) as [Hle|Hlt]; cbn [andb].
  - destruct (Z.leb_spec rem (k * 64 + j)); [|lia]. cbn [andb].
    replace (k * 64 + j - rem) with (k * 64 + (j - rem)) by lia. rewrite test_bit_word by lia.
    destruct (negb (rem =? 0) && (0 <? k)); [|by rewrite Z.bits_0].
    rewrite shr64_testbit by (try apply word_range; done || lia).
    destruct (Z.ltb_spec (j + (64 - rem)) 64); [lia|]. done.
  - rewrite orb_false_r. destruct (Z.eqb_spec rem 0); [lia|]. cbn [negb andb].
    destruct (Z.ltb_spec 0 k).
    + rewrite shr64_testbit by (try apply word_range; done || lia).
      destruct (Z.ltb_spec (j + (64 - rem)) 64); [|lia]. cbn [andb].
      destruct (Z.leb_spec rem (k * 64 + j)); [|lia]. cbn [andb].
      replace (k * 64 + j - rem) with ((k - 1) * 64 + (j + (64 - rem))) by lia.
      by rewrite test_bit_word by lia.
    + rewrite Z.bits_0. destruct (Z.leb_spec rem (k * 64 + j)); [lia|done].
Qed.

Lemma shift_right_ok dst src shift nbits :
  words_ok (arr src dst) → 0 ≤ nbits → 0 ≤ shift → BITS_TO_LONGS nbits ≤ Z.of_nat (length dst) →
  shift / 64 ≤ BITS_TO_LONGS nbits →
  ∃ d, __bitmap_shift_right dst src shift nbits = Ok d ∧ ∀ i, 0 ≤ i → test_bit d i =
    if i <? 64 * BITS_TO_LONGS nbits then (i + shift <? nbits) && test_bit (arr src dst) (i + shift)
    else test_bit dst i.
Proof.
  intros Hm Hn Hs Hl Hoff. unfold __bitmap_shift_right. cbv zeta.
  set (lim := BITS_TO_LONGS nbits) in *. set (g := λ d k, _).
  pose proof (Z.div_pos shift 64 Hs ltac:(lia)) as Hoff0. destruct (split64 shift) as [Es Hrs].
  set (d := word_loop g id (seqZ 0 (lim - shift / 64)) dst).
  assert (Hd : ∀ j, 0 ≤ j → word d j = if j <? lim - shift / 64 then g dst j else word dst j).
  { intros j Hj. apply word_loop_seq; [lia|done|]. intros d' k Hk Hd'.
    unfold g, shift_right_word, arr. destruct src; simpl; [done|]. by rewrite !Hd' by lia. }
  assert (Hbit : ∀ i, 0 ≤ i → i / 64 < lim - shift / 64 →
    Z.testbit (g dst (i / 64)) (i mod 64) = (i + shift <? nbits) && test_bit (arr src dst) (i + shift)).
  { intros i Hi Hlt. destruct (split64 i) as [Ei Hr]. unfold g, lim.
    rewrite shift_right_word_bits by (done || lia). by rewrite <- Ei. }
  assert (Hout : ∀ i, 0 ≤ i → lim - shift / 64 ≤ i / 64 → (i + shift <? nbits) = false).
  { intros i Hi Hge. pose proof (longs_cover nbits Hn) as Hc. fold lim in Hc. destruct (split64 i).
    apply Z.ltb_ge. lia. }
  destruct (Z.eqb_spec (shift / 64) 0) as [E0|E0]; [|destruct (Z.ltb_spec lim (shift / 64)); [lia|]];
    eexists; (split; [reflexivity|]); intros i Hi; destruct (split64 i) as [Ei Hr]; unfold test_bit at 1.
  - rewrite Hd by lia. destruct (Z.ltb_spec (i / 64) (lim - shift / 64)), (Z.ltb_spec i (64 * lim));
      try lia; [by apply Hbit|done].
  - rewrite clear_words_word by (unfold d; rewrite ?word_loop_length; lia). rewrite Hd by lia.
    destruct (Z.leb_spec (lim - shift / 64) (i / 64)), (Z.ltb_spec (i / 64) (lim - shift / 64 + shift / 64)),
      (Z.ltb_spec (i / 64) (lim - shift / 64)), (Z.ltb_spec i (64 * lim)); cbn [andb]; try lia.
    + by rewrite Hout, Z.bits_0.
    + done.
    + by apply Hbit.
Qed.

Lemma shift_left_ok dst src shift nbits :
  words_ok (arr src dst) → 0 ≤ nbits → 0 ≤ shift → BITS_TO_LONGS nbits ≤ Z.of_nat (length dst) →
  shift / 64 ≤ BITS_TO_LONGS nbits →
  ∃ d, __bitmap_shift_left dst src shift nbits = Ok d ∧ ∀ i, 0 ≤ i → test_bit d i =
    if i <? 64 * BITS_TO_LONGS nbits then (shift <=? i) && test_bit (arr src dst) (i - shift)
    else test_bit dst i.
Proof.
  intros Hm Hn Hs Hl Hoff. unfold __bitmap_shift_left. cbv zeta.
  set (lim := BITS_TO_LONGS nbits) in *. set (g := λ d k, _).
  pose proof (Z.div_pos shift 64 Hs ltac:(lia)) as Hoff0. destruct (split64 shift) as [Es Hrs].
  set (pos := λ k, k + shift / 64). set (ks := reverse (seqZ 0 (lim - shift / 64))).
  assert (Hks : ∀ k, k ∈ ks ↔ 0 ≤ k < lim - shift / 64).
  { intros k. unfold ks. rewrite elem_of_reverse, elem_of_seqZ. lia. }
  destruct (word_loop_words g pos ks dst) as [H1 H2].
  { apply NoDup_fmap_2; [intros x y; unfold pos; lia|]. unfold ks. rewrite reverse_Permutation. apply NoDup_seqZ. }
  { intros k Hk%Hks. unfold pos. lia. }
  { intros k ks1 ks2 d E Hd. assert (Hk : k ∈ ks) by (rewrite E; set_solver). apply Hks in Hk.
    unfold ks in E. apply (f_equal reverse) in E.
    rewrite reverse_involutive, reverse_app, reverse_cons, <- app_assoc in E.
    apply seqZ_around in E as [_ Hgt].
    assert (Hrd : ∀ j, 0 ≤ j → j ≤ k → word d j = word dst j).
    { intros j Hj0 Hj. apply Hd; [done|]. intros (x & -> & Hx)%list_elem_of_fmap.
      specialize (Hgt x). rewrite elem_of_reverse in Hgt. specialize (Hgt Hx). unfold pos in *. lia. }
    unfold g, shift_left_word, arr. destruct src; simpl; [done|]. rewrite (Hrd k) by lia.
    destruct (Z.ltb_spec 0 k); [by rewrite Hrd by lia|by rewrite andb_false_r]. }
  set (d := word_loop g pos ks dst) in *. assert (Hlen : length d = length dst) by apply word_loop_length.
  assert (Hin : ∀ i, 64 * (shift / 64) ≤ i → i < 64 * lim →
    Z.testbit (word d (i / 64)) (i mod 64) = (shift <=? i) && test_bit (arr src dst) (i - shift)).
  { intros i Hge Hlt. destruct (split64 i) as [Ei Hr].
    replace (i / 64) with (pos (i / 64 - shift / 64)) by (unfold pos; lia).
    rewrite H1 by (apply Hks; lia). unfold g. rewrite shift_left_word_bits by (done || lia).
    replace ((i / 64 - shift / 64) * 64 + i mod 64 - shift mod 64) with (i - shift) by lia. f_equal.
    destruct (Z.leb_spec (shift mod 64) ((i / 64 - shift / 64) * 64 + i mod 64)), (Z.leb_spec shift i);
      done || lia. }
  assert (Hno : ∀ i, 0 ≤ i → 64 * lim ≤ i → word d (i / 64) = word dst (i / 64)).
  { intros i Hi Hge. destruct (split64 i) as [Ei Hr]. apply H2; [lia|].
    intros (x & E & Hx%Hks)%list_elem_of_fmap. unfold pos in E. lia. }
  destruct (Z.eqb_spec (shift / 64) 0) as [E0|E0];
    [|destruct (Z.ltb_spec (Z.of_nat (length d)) (shift / 64)); [lia|]];
    eexists; (split; [reflexivity|]); intros i Hi; destruct (split64 i) as [Ei Hr]; unfold test_bit at 1.
  - destruct (Z.ltb_spec i (64 * lim)); [apply Hin; lia|by rewrite Hno].
  - rewrite clear_words_word by lia.
    destruct (Z.leb_spec 0 (i / 64)), (Z.ltb_spec (i / 64) (0 + shift / 64)); cbn [andb]; try lia.
    + rewrite Z.bits_0. destruct (Z.ltb_spec i (64 * lim)), (Z.leb_spec shift i); done || lia.
    + destruct (Z.ltb_spec i (64 * lim)); [apply Hin; lia|by rewrite Hno].
Qed.

(** ** What the routines compute *)

(** C35: The word-at-a-time routines __bitmap_and, __bitmap_andnot,
    __bitmap_or, __bitmap_xor and __bitmap_complement compute the Boolean
    combination of the bits, also when a source is the destination array, and
    the results of __bitmap_and and __bitmap_andnot tell whether a bit below
    the size is set. The words have 64 bits and the arrays have the words for
    the size. *)
Theorem bitmap_ops_bits dst b1 b2 bits :
  words_ok (arr b1 dst) → words_ok (arr b2 dst) → 0 ≤ bits → BITS_TO_LONGS bits ≤ Z.of_nat (length dst) →
  let x i := test_bit (arr b1 dst) i in
  let y i := test_bit (arr b2 dst) i in
  (∀ i, 0 ≤ i < bits →
     test_bit (__bitmap_and dst b1 b2 bits).1 i = x i && y i
     ∧ test_bit (__bitmap_andnot dst b1 b2 bits).1 i = x i && negb (y i)
     ∧ test_bit (__bitmap_or dst b1 b2 bits) i = x i || y i
     ∧ test_bit (__bitmap_xor dst b1 b2 bits) i = xorb (x i) (y i)
     ∧ test_bit (__bitmap_complement dst b1 bits) i = negb (x i))
  ∧ ((__bitmap_and dst b1 b2 bits).2 = true ↔ ∃ i, 0 ≤ i < bits ∧ x i && y i = true)
  ∧ ((__bitmap_andnot dst b1 b2 bits).2 = true ↔ ∃ i, 0 ≤ i < bits ∧ x i && negb (y i) = true).
Proof.
  intros H1 H2 Hb Hl x y. pose proof (longs_cover bits Hb) as Hc.
  destruct (masked_op_ok Z.land andb) with (dst := dst) (b1 := b1) (b2 := b2) (bits := bits) as [Ha Hra]; try done.
  { intros. apply Z.land_spec. } { intros. by apply land_range. }
  destruct (masked_op_ok (λ a b, Z.land a (not64 b)) andn) with (dst := dst) (b1 := b1) (b2 := b2) (bits := bits)
    as [Hn Hrn]; try done.
  { intros. by apply andnot_bits. } { intros. by apply land_range. }
  split; [|done]. intros i Hi.
  unfold __bitmap_and, __bitmap_andnot, __bitmap_or, __bitmap_xor.
  rewrite Ha, Hn, complement_bits by lia.
  rewrite (full_op_bits Z.lor orb), (full_op_bits Z.lxor xorb) by (intros; apply Z.lor_spec || apply Z.lxor_spec || lia).
  destruct (Z.ltb_spec i (64 * BITS_TO_LONGS bits)), (Z.ltb_spec i bits); try lia. done.
Qed.

(** The comparisons and the search for the last bit look at the bits below
    the size only. *)
Theorem bitmap_compare_bits b1 b2 bits :
  words_ok b1 → words_ok b2 → 0 ≤ bits →
  (__bitmap_equal b1 b2 bits = true ↔ ∀ i, 0 ≤ i < bits → test_bit b1 i = test_bit b2 i)
  ∧ (__bitmap_subset b1 b2 bits = true
     ↔ ∀ i, 0 ≤ i < bits → test_bit b1 i = true → test_bit b2 i = true)
  ∧ (__bitmap_intersects b1 b2 bits = true
     ↔ ∃ i, 0 ≤ i < bits ∧ test_bit b1 i = true ∧ test_bit b2 i = true)
  ∧ last_such (test_bit b1) bits (find_last_bit b1 bits).
Proof.
  intros H1 H2 Hb.
  assert (Hneg : ∀ (b : bool) (P : Prop), (b = true ↔ P) → (negb b = true ↔ ¬ P)) by (intros []; naive_solver).
  rewrite equal_differ. unfold __bitmap_subset, __bitmap_intersects.
  rewrite (Hneg _ _ (differ_at_ok b1 b2 bits H1 H2 Hb Z.lxor xorb
    ltac:(intros; apply Z.lxor_spec) ltac:(intros; by apply lxor_range))).
  rewrite (Hneg _ _ (differ_at_ok b1 b2 bits H1 H2 Hb (λ a b, Z.land a (not64 b)) andn
    ltac:(intros; by apply andnot_bits) ltac:(intros; by apply land_range))).
  rewrite (differ_at_ok b1 b2 bits H1 H2 Hb Z.land andb
    ltac:(intros; apply Z.land_spec) ltac:(intros; by apply land_range)).
  split; [|split; [|split; [|by apply find_last_bit_ok]]].
  - split.
    + intros Hn i Hi. destruct (test_bit b1 i) eqn:Ea, (test_bit b2 i) eqn:Eb; try done;
        destruct Hn; exists i; by rewrite Ea, Eb.
    + intros He (i & Hi & Hx). rewrite (He i Hi), xorb_nilpotent in Hx. done.
  - split.
    + intros Hn i Hi Ea. destruct (test_bit b2 i) eqn:Eb; [done|]. destruct Hn. exists i. by rewrite Ea, Eb.
    + intros Hs (i & Hi & [Ha Hb']%andb_true_iff). rewrite (Hs i Hi Ha) in Hb'. done.
  - split; intros (i & Hi & Hx); exists i; (split; [done|]); by apply andb_true_iff.
Qed.

(** Both shifts, also of an array onto itself: the bits move by [shift],
    zeros come in and nothing from beyond the size is shifted down. *)
Theorem bitmap_shift_bits dst src shift nbits :
  words_ok (arr src dst) → 0 ≤ nbits → 0 ≤ shift → BITS_TO_LONGS nbits ≤ Z.of_nat (length dst) →
  shift / 64 ≤ BITS_TO_LONGS nbits →
  ∃ r l, __bitmap_shift_right dst src shift nbits = Ok r ∧ __bitmap_shift_left dst src shift nbits = Ok l
    ∧ (∀ i, 0 ≤ i < nbits →
         test_bit r i = (i + shift <? nbits) && test_bit (arr src dst) (i + shift)
         ∧ test_bit l i = (shift <=? i) && test_bit (arr src dst) (i - shift))
    ∧ ∀ i, 64 * BITS_TO_LONGS nbits ≤ i → test_bit r i = test_bit dst i ∧ test_bit l i = test_bit dst i.
Proof.
  intros Hm Hn Hs Hl Hoff. pose proof (longs_cover nbits Hn).
  destruct (shift_right_ok dst src shift nbits) as (r & Er & Hr); try done.
  destruct (shift_left_ok dst src shift nbits) as (l & El & Hlb); try done.
  exists r, l. split; [done|]. split; [done|].
  split; intros i Hi; rewrite Hr, Hlb by lia; destruct (Z.ltb_spec i (64 * BITS_TO_LONGS nbits)); done || lia.
Qed.

(** A shift by more words than the bitmap has writes outside of it. *)
Theorem shift_right_too_far dst src shift nbits :
  0 ≤ nbits → BITS_TO_LONGS nbits < shift / 64 →
  __bitmap_shift_right dst src shift nbits = Fault "__bitmap_shift_right".
Proof.
  intros Hn Ho. pose proof (longs_cover nbits Hn). unfold __bitmap_shift_right. cbv zeta.
  destruct (Z.eqb_spec (shift / 64) 0); [lia|]. by destruct (Z.ltb_spec (BITS_TO_LONGS nbits) (shift / 64)); [|lia].
Qed.

(** ** Instances *)
Definition demo_map2 : bitmap := [6; 2 ^ 63 + 1].

Lemma demo_map2_ok : words_ok demo_map2.
Proof. repeat constructor; lia. Qed.

Lemma bitmap_ops_bits_witness :
  test_bit (__bitmap_and demo_map None (Some demo_map2) 70).1 64 = true
  ∧ (__bitmap_andnot demo_map (Some demo_map2) None 70).2 = false
  ∧ test_bit (__bitmap_xor demo_map None (Some demo_map2) 70) 0 = true.
Proof.
  pose proof (bitmap_ops_bits demo_map None (Some demo_map2) 70) as H.
  destruct H as (H & _ & _); [apply demo_map_ok|apply demo_map2_ok|lia|vm_compute; discriminate|].
  destruct (H 64 ltac:(lia)) as (H64 & _). destruct (H 0 ltac:(lia)) as (_ & _ & _ & H0 & _).
  rewrite H64, H0. split; [reflexivity|]. split; [vm_compute; reflexivity|reflexivity].
Defined.

Lemma bitmap_compare_bits_witness :
  __bitmap_intersects demo_map demo_map2 128 = true ∧ __bitmap_subset demo_map2 demo_map 127 = true
  ∧ last_such (test_bit demo_map2) 127 64.
Proof.
  destruct (bitmap_compare_bits demo_map2 demo_map 127) as (_ & _ & _ & H);
    [apply demo_map2_ok|apply demo_map_ok|lia|].
  split; [vm_compute; reflexivity|]. split; [vm_compute; reflexivity|].
  replace 64 with (find_last_bit demo_map2 127) by (vm_compute; reflexivity). exact H.
Defined.

Lemma bitmap_shift_bits_witness :
  ∃ r l, __bitmap_shift_right demo_map2 None 64 128 = Ok r ∧ __bitmap_shift_left demo_map2 None 64 128 = Ok l
    ∧ test_bit r 63 = true ∧ test_bit l 66 = true.
Proof.
  destruct (bitmap_shift_bits demo_map2 None 64 128) as (r & l & Er & El & H & _);
    [apply demo_map2_ok|lia|lia|vm_compute; discriminate|vm_compute; discriminate|].
  exists r, l. split; [exact Er|]. split; [exact El|].
  destruct (H 63 ltac:(lia)) as [-> _]. destruct (H 66 ltac:(lia)) as [_ ->]. split; reflexivity.
Defined.

Lemma shift_right_too_far_witness :
  __bitmap_shift_right demo_map None 256 128 = Fault "__bitmap_shift_right".
Proof. apply shift_right_too_far; vm_compute; [discriminate|reflexivity]. Defined.
