(* ===== verification/BitmapMap.v ===== *)
(** * BitmapMap: ordinals, remapping, regions and [u32] arrays of bitmaps

    The rest of [ds/bitmap.c]: the n-th set bit and the ordinal of a set
    bit, the operations that move bits by ordinal ([bitmap_remap],
    [bitmap_bitremap], [bitmap_onto]) or modulo a size ([bitmap_fold]), the
    allocator of aligned power-of-two regions, and the copies between
    bitmaps and arrays of 32-bit words. *)
From Stdlib Require Import ZArith Lia.
From stdpp Require Import base numbers list gmap strings.
From S2P Require Import Prelude Util Bitmap BitmapOps.

(** [set_bit]: [bts] on memory. *)
Definition set_bit (nr : Z) (addr : bitmap) : bitmap :=
  upd_word addr (nr / 64) (λ w, Z.lor w (2 ^ (nr mod 64))).

(** [for_each_set_bit(bit, addr, size) body]. *)
Fixpoint each_loop {A} (addr : bitmap) (size : Z) (body : Z → A → A) (bit : Z) (a : A) (fuel : nat) : A :=
  match fuel with
  | O => a
  | S fuel =>
      if bit <? size then each_loop addr size body (find_next_bit addr size (bit + 1)) (body bit a) fuel
      else a
  end.
Definition for_each_set_bit {A} (addr : bitmap) (size : Z) (body : Z → A → A) (a : A) : A :=
  each_loop addr size body (find_first_bit addr size) a (S (Z.to_nat size)).

Definition bitmap_pos_to_ord (buf : bitmap) (pos nbits : Z) : Z :=
  if (nbits <=? pos) || negb (test_bit buf pos) then -1 else __bitmap_weight buf pos.

(** [bitmap_ord_to_pos]: [ord] is counted down to 0. *)
Fixpoint ord_loop (buf : bitmap) (nbits pos : Z) (ord : nat) : Z :=
  match ord with
  | O => pos
  | S ord => if pos <? nbits then ord_loop buf nbits (find_next_bit buf nbits (pos + 1)) ord else pos
  end.
Definition bitmap_ord_to_pos (buf : bitmap) (ord nbits : Z) : Z :=
  ord_loop buf nbits (find_first_bit buf nbits) (Z.to_nat ord).

(** The source is [None] when it is the destination array: the routines
    then return at once. *)
Definition bitmap_remap (dst : bitmap) (src : option bitmap) (old _new : bitmap) (nbits : Z) : bitmap :=
  match src with
  | None => dst
  | Some src =>
      let w := __bitmap_weight _new nbits in
      for_each_set_bit src nbits (λ oldbit dst,
        let n := bitmap_pos_to_ord old oldbit nbits in
        if (n <? 0) || (w =? 0) then set_bit oldbit dst
        else set_bit (bitmap_ord_to_pos _new (n mod w) nbits) dst) (bitmap_zero dst nbits)
  end.

Definition bitmap_bitremap (oldbit : Z) (old _new : bitmap) (bits : Z) : Z :=
  let w := __bitmap_weight _new bits in
  let n := bitmap_pos_to_ord old oldbit bits in
  if (n <? 0) || (w =? 0) then oldbit else bitmap_ord_to_pos _new (n mod w) bits.

Definition bitmap_onto (dst : bitmap) (orig : option bitmap) (relmap : bitmap) (bits : Z) : bitmap :=
  match orig with
  | None => dst
  | Some orig =>
      (for_each_set_bit relmap bits (λ n '(dst, m),
         (if test_bit orig m then set_bit n dst else dst, m + 1)) (bitmap_zero dst bits, 0)).1
  end.

(** [oldbit % sz] with [sz] 0 is a division by zero. *)
Definition bitmap_fold (dst : bitmap) (orig : option bitmap) (sz nbits : Z) : outcome bitmap :=
  match orig with
  | None => Ok dst
  | Some orig =>
      for_each_set_bit orig nbits (λ oldbit r,
        d ← r; if sz =? 0 then Fault "division by zero" else Ok (set_bit (oldbit mod sz) d))
        (Ok (bitmap_zero dst nbits))
  end.

(** [__reg_op] and its operations. *)
Inductive reg_op := REG_OP_ISFREE | REG_OP_ALLOC | REG_OP_RELEASE.

Definition region_mask (pos order : Z) : Z :=
  let nbits_reg := 2 ^ order in
  let offset := pos - pos / 64 * 64 in
  let mask := shl64 1 (Z.min nbits_reg 64 - 1) in
  let mask := u64 (mask + (mask - 1)) in
  shl64 mask offset.
Definition __reg_op (m : bitmap) (pos order : Z) (op : reg_op) : bitmap * bool :=
  let index := pos / 64 in
  let nlongs_reg := BITS_TO_LONGS (2 ^ order) in
  let mask := region_mask pos order in
  match op with
  | REG_OP_ISFREE =>
      (m, negb (existsb (λ i, negb (Z.land (word m (index + i)) mask =? 0)) (seqZ 0 nlongs_reg)))
  | REG_OP_ALLOC =>
      (word_loop (λ d i, Z.lor (word d (index + i)) mask) (λ i, index + i) (seqZ 0 nlongs_reg) m, false)
  | REG_OP_RELEASE =>
      (word_loop (λ d i, Z.land (word d (index + i)) (not64 mask)) (λ i, index + i) (seqZ 0 nlongs_reg) m, false)
  end.

(** [bitmap_find_free_region]: [end] is an [unsigned int]. *)
Definition minus_ENOMEM : Z := -12.
Definition minus_EBUSY : Z := -16.
Fixpoint free_region_loop (m : bitmap) (bits order pos : Z) (fuel : nat) : outcome (bitmap * Z) :=
  match fuel with
  | O => NoFuel
  | S fuel =>
      let e := u32 (pos + 2 ^ order) in
      if e <=? bits then
        if negb (__reg_op m pos order REG_OP_ISFREE).2 then free_region_loop m bits order e fuel
        else Ok ((__reg_op m pos order REG_OP_ALLOC).1, pos)
      else Ok (m, minus_ENOMEM)
  end.
Definition bitmap_find_free_region (m : bitmap) (bits order : Z) : outcome (bitmap * Z) :=
  free_region_loop m bits order 0 (S (Z.to_nat bits)).
Definition bitmap_release_region (m : bitmap) (pos order : Z) : bitmap :=
  (__reg_op m pos order REG_OP_RELEASE).1.
Definition bitmap_allocate_region (m : bitmap) (pos order : Z) : bitmap * Z :=
  if negb (__reg_op m pos order REG_OP_ISFREE).2 then (m, minus_EBUSY)
  else let '(m, r) := __reg_op m pos order REG_OP_ALLOC in (m, Z.b2z r).

(** [bitmap_from_u32array]: [n] words of the bitmap are still to be written,
    two 32-bit words go into each. *)
Fixpoint from_u32_loop (m : bitmap) (nbits : Z) (buf : list Z) (nwords dst_idx src_idx : Z) (n : nat) : bitmap :=
  match n with
  | O => m
  | S n =>
      let '(part, src_idx) :=
        if src_idx <? nwords then (word buf src_idx, src_idx + 1) else (0, src_idx) in
      let '(part, src_idx) :=
        if src_idx <? nwords then (Z.lor part (shl64 (word buf src_idx) 32), src_idx + 1)
        else (part, src_idx) in
      let w :=
        if dst_idx <? nbits / 64 then part
        else
          let mask := BITMAP_LAST_WORD_MASK nbits in
          Z.lor (Z.land (word m dst_idx) (not64 mask)) (Z.land part mask) in
      from_u32_loop (set_word m dst_idx w) nbits buf nwords (dst_idx + 1) src_idx n
  end.
Definition bitmap_from_u32array (m : bitmap) (nbits : Z) (buf : list Z) (nwords : Z) : bitmap * Z :=
  (from_u32_loop m nbits buf nwords 0 0 (Z.to_nat (BITS_TO_LONGS nbits)), Z.min nbits (u32 (32 * nwords))).

(** [bitmap_to_u32array]: until [dst_idx] reaches [nwords]. *)
Fixpoint to_u32_loop (buf : list Z) (nwords : Z) (m : bitmap) (nbits dst_idx src_idx : Z) (fuel : nat) : list Z :=
  match fuel with
  | O => buf
  | S fuel =>
      if dst_idx <? nwords then
        let '(part, src_idx) :=
          if src_idx <? BITS_TO_LONGS nbits then
            (if nbits / 64 <=? src_idx then Z.land (word m src_idx) (BITMAP_LAST_WORD_MASK nbits)
             else word m src_idx, src_idx + 1)
          else (0, src_idx) in
        let buf := set_word buf dst_idx (Z.land part (2 ^ 32 - 1)) in
        let dst_idx := dst_idx + 1 in
        if dst_idx <? nwords then
          to_u32_loop (set_word buf dst_idx (Z.land (shr64 part 32) (2 ^ 32 - 1))) nwords m nbits
            (dst_idx + 1) src_idx fuel
        else to_u32_loop buf nwords m nbits dst_idx src_idx fuel
      else buf
  end.
Definition bitmap_to_u32array (buf : list Z) (nwords : Z) (m : bitmap) (nbits : Z) : list Z * Z :=
  (to_u32_loop buf nwords m nbits 0 0 (S (Z.to_nat nwords)), Z.min nbits (u32 (32 * nwords))).

(** ** Set bits in order *)
Definition positions (P : Z → bool) (lo hi : Z) : list Z := filter (λ i, P i = true) (seqZ lo (hi - lo)).

Lemma elem_positions P lo hi i : i ∈ positions P lo hi ↔ lo ≤ i < hi ∧ P i = true.
Proof. unfold positions. rewrite list_elem_of_filter, elem_of_seqZ. split; intros []; split; done || lia. Qed.

Lemma positions_app P lo mid hi :
  lo ≤ mid ≤ hi → positions P lo hi = positions P lo mid ++ positions P mid hi.
Proof.
  intros H. unfold positions. replace (hi - lo) with ((mid - lo) + (hi - mid)) by lia.
  rewrite seqZ_app, filter_app by lia. by replace (lo + (mid - lo)) with mid by lia.
Qed.

Lemma positions_none P lo hi : (∀ i, lo ≤ i < hi → P i = false) → positions P lo hi = [].
Proof.
  intros H. destruct (positions P lo hi) as [|x l] eqn:E; [done|].
  assert (Hx : x ∈ positions P lo hi) by (rewrite E; set_solver).
  apply elem_positions in Hx as [Hx Ht]. by rewrite H in Ht.
Qed.

Lemma positions_cons P lo hi : lo < hi → P lo = true → positions P lo hi = lo :: positions P (lo + 1) hi.
Proof.
  intros H HP. unfold positions. rewrite seqZ_cons, filter_cons_True by (done || lia).
  do 3 f_equal; lia.
Qed.

(** The list behind the next set bit. *)
Lemma positions_next P lo hi r :
  lo ≤ hi → next_such P lo hi r →
  positions P lo hi = if r <? hi then r :: positions P (r + 1) hi else [].
Proof.
  intros Hle [[-> Hn]|(Hr & HP & Hn)].
  - rewrite Z.ltb_irrefl. by apply positions_none.
  - destruct (Z.ltb_spec r hi); [|lia].
    rewrite (positions_app P lo r hi), (positions_none P lo r), positions_cons by (done || lia). done.
Qed.

Lemma positions_length P lo hi : lo ≤ hi → Z.of_nat (length (positions P lo hi)) = bsum P lo (hi - lo).
Proof.
  intros _. unfold positions, bsum. induction (seqZ lo (hi - lo)) as [|i l IH]; [done|].
  rewrite filter_cons. simpl. destruct (P i); simpl; rewrite <- IH; lia.
Qed.

Lemma positions_NoDup P lo hi : NoDup (positions P lo hi).
Proof. apply NoDup_filter, NoDup_seqZ. Qed.

(** The set bit [p] has as many set bits before it as its index says. *)
Lemma positions_lookup P lo hi p :
  lo ≤ p < hi → P p = true → positions P lo hi !! Z.to_nat (bsum P lo (p - lo)) = Some p.
Proof.
  intros Hp HP. rewrite (positions_app P lo p hi) by lia.
  rewrite lookup_app_r by (rewrite <- positions_length by lia; lia).
  rewrite <- positions_length, Nat2Z.id, Nat.sub_diag by lia.
  by rewrite positions_cons by (done || lia).
Qed.

(** The number of set bits below [n]: the weight. *)
Abbreviation rank m n := (bsum (test_bit m) 0 n).
Abbreviation set_bits m n := (positions (test_bit m) 0 n).

Section ordinals.
Context (m : bitmap) (n : Z).
Hypothesis Hm : words_ok m.
Hypothesis Hn : 0 ≤ n < 2 ^ 63.
Hypothesis Hfit : n ≤ 64 * Z.of_nat (length m).

Lemma next_ok lo : 0 ≤ lo → next_such (test_bit m) lo n (find_next_bit m n lo).
Proof. intros. apply find_next_bit_ok; done || lia. Qed.

Lemma first_ok : next_such (test_bit m) 0 n (find_first_bit m n).
Proof. apply find_first_bit_ok; done || lia. Qed.

(** The macro visits the set bits in increasing order. *)
Lemma each_loop_ok {A} (body : Z → A → A) fuel lo bit a :
  0 ≤ lo ≤ n → n - lo < Z.of_nat fuel → next_such (test_bit m) lo n bit →
  each_loop m n body bit a fuel = foldl (λ a b, body b a) a (positions (test_bit m) lo n).
Proof.
  revert lo bit a. induction fuel as [|fuel IH]; intros lo bit a Hlo Hf Hb; [lia|].
  cbn [each_loop]. rewrite (positions_next _ _ _ bit) by (done || lia).
  destruct (Z.ltb_spec bit n); [|done]. simpl.
  assert (lo ≤ bit) by (destruct Hb as [[-> _]|[]]; lia).
  apply IH; [lia|lia|]. apply next_ok. lia.
Qed.

Lemma for_each_ok {A} (body : Z → A → A) a :
  for_each_set_bit m n body a = foldl (λ a b, body b a) a (set_bits m n).
Proof. apply each_loop_ok; [lia|lia|]. apply first_ok. Qed.

Lemma ord_loop_ok ord lo pos :
  0 ≤ lo ≤ n → next_such (test_bit m) lo n pos →
  ord_loop m n pos ord = default n (positions (test_bit m) lo n !! ord).
Proof.
  revert lo pos. induction ord as [|ord IH]; intros lo pos Hlo Hp; cbn [ord_loop];
    rewrite (positions_next _ _ _ pos) by (done || lia).
  - destruct (Z.ltb_spec pos n); [done|]. destruct Hp as [[-> _]|[]]; [done|lia].
  - assert (lo ≤ pos) by (destruct Hp as [[-> _]|[]]; lia).
    destruct (Z.ltb_spec pos n); [|destruct Hp as [[-> _]|[]]; [done|lia]].
    apply IH; [lia|]. apply next_ok. lia.
Qed.

Lemma ord_to_pos_ok ord : bitmap_ord_to_pos m ord n = default n (set_bits m n !! Z.to_nat ord).
Proof. apply ord_loop_ok; [lia|]. apply first_ok. Qed.

Lemma pos_to_ord_ok pos :
  0 ≤ pos → bitmap_pos_to_ord m pos n = if (pos <? n) && test_bit m pos then rank m pos else -1.
Proof.
  intros Hp. unfold bitmap_pos_to_ord. rewrite bitmap_weight_ok by (done || lia).
  destruct (Z.leb_spec n pos), (Z.ltb_spec pos n); try lia; [done|]. by destruct (test_bit m pos).
Qed.

Lemma set_bits_length : Z.of_nat (length (set_bits m n)) = __bitmap_weight m n.
Proof. rewrite positions_length, bitmap_weight_ok, Z.sub_0_r by (done || lia). done. Qed.

Lemma set_bits_rank p :
  0 ≤ p < n → test_bit m p = true → set_bits m n !! Z.to_nat (rank m p) = Some p.
Proof. intros. rewrite <- (Z.sub_0_r p) at 1. by apply positions_lookup. Qed.
End ordinals.

(** The two directions are inverse: the set bit of ordinal [ord], and the
    ordinal of a set bit. *)
Theorem bitmap_ordinals m n :
  words_ok m → 0 ≤ n < 2 ^ 63 → n ≤ 64 * Z.of_nat (length m) →
  (∀ pos, 0 ≤ pos < n → test_bit m pos = true →
     0 ≤ bitmap_pos_to_ord m pos n < __bitmap_weight m n
     ∧ bitmap_ord_to_pos m (bitmap_pos_to_ord m pos n) n = pos)
  ∧ (∀ ord, 0 ≤ ord < __bitmap_weight m n →
       0 ≤ bitmap_ord_to_pos m ord n < n ∧ test_bit m (bitmap_ord_to_pos m ord n) = true
       ∧ bitmap_pos_to_ord m (bitmap_ord_to_pos m ord n) n = ord)
  ∧ (∀ ord, __bitmap_weight m n ≤ ord → bitmap_ord_to_pos m ord n = n).
Proof.
  intros Hm Hn Hfit. pose proof (set_bits_length m n Hm Hn) as Hlen. split; [|split].
  - intros pos Hp Ht. rewrite pos_to_ord_ok, Ht by (done || lia).
    destruct (Z.ltb_spec pos n); [|lia]. cbn [andb].
    pose proof (set_bits_rank m n pos Hp Ht) as Hr.
    pose proof (lookup_lt_Some _ _ _ Hr). pose proof (bsum_bounds (test_bit m) 0 pos ltac:(lia)).
    split; [lia|]. by rewrite ord_to_pos_ok, Hr.
  - intros ord Ho. destruct (lookup_lt_is_Some_2 (set_bits m n) (Z.to_nat ord)) as [p Hp]; [lia|].
    assert (Hin : p ∈ set_bits m n) by (by eapply list_elem_of_lookup_2).
    apply elem_positions in Hin as [Hin Ht].
    rewrite ord_to_pos_ok, Hp by (done || lia). simpl. split; [done|]. split; [done|].
    rewrite pos_to_ord_ok, Ht by (done || lia). destruct (Z.ltb_spec p n); [|lia]. cbn [andb].
    pose proof (set_bits_rank m n p Hin Ht) as Hr. pose proof (bsum_bounds (test_bit m) 0 p ltac:(lia)).
    pose proof (NoDup_lookup _ _ _ _ (positions_NoDup _ _ _) Hp Hr). lia.
  - intros ord Ho. rewrite ord_to_pos_ok by done. rewrite lookup_ge_None_2; [done|lia].
Qed.

(** ** Writing bits *)
Lemma set_bit_bits m nr i :
  0 ≤ nr < 64 * Z.of_nat (length m) → 0 ≤ i → test_bit (set_bit nr m) i = (i =? nr) || test_bit m i.
Proof.
  intros Hn Hi. destruct (split64 nr) as [En Hrn], (split64 i) as [Ei Hri].
  unfold set_bit. rewrite upd_word_bits by lia.
  destruct (Z.eqb_spec (i / 64) (nr / 64)) as [E|E].
  - rewrite Z.lor_spec, Z.pow2_bits_eqb, orb_comm by lia. unfold test_bit. rewrite E. f_equal.
    destruct (Z.eqb_spec (nr mod 64) (i mod 64)), (Z.eqb_spec i nr); done || lia.
  - rewrite decide_False by lia. destruct (Z.eqb_spec i nr); [by subst|done].
Qed.

Lemma set_bit_length m nr : length (set_bit nr m) = length m.
Proof. apply length_alter. Qed.

Lemma zero_bits dst nbits i :
  0 ≤ nbits → BITS_TO_LONGS nbits ≤ Z.of_nat (length dst) → 0 ≤ i →
  test_bit (bitmap_zero dst nbits) i = if i <? 64 * BITS_TO_LONGS nbits then false else test_bit dst i.
Proof.
  intros Hn Hl Hi. pose proof (longs_cover nbits Hn). destruct (split64 i) as [Ei Hr].
  unfold bitmap_zero, test_bit at 1. rewrite clear_words_word by lia.
  destruct (Z.leb_spec 0 (i / 64)), (Z.ltb_spec (i / 64) (0 + BITS_TO_LONGS nbits)),
    (Z.ltb_spec i (64 * BITS_TO_LONGS nbits)); cbn [andb]; try lia; [apply Z.bits_0|done].
Qed.

Lemma zero_length dst nbits : length (bitmap_zero dst nbits) = length dst.
Proof. apply word_loop_length. Qed.

(** A loop that sets bit [h k] for every [k] of a list. *)
Lemma set_bits_fold (h : Z → Z) ks d i :
  (∀ k, k ∈ ks → 0 ≤ h k < 64 * Z.of_nat (length d)) → 0 ≤ i →
  test_bit (foldl (λ d k, set_bit (h k) d) d ks) i = true
  ↔ test_bit d i = true ∨ ∃ k, k ∈ ks ∧ h k = i.
Proof.
  intros Hin Hi. revert d Hin. induction ks as [|k ks IH]; intros d Hin; simpl.
  { split; [by left|]. intros [?|(k & Hk & _)]; [done|by apply elem_of_nil in Hk]. }
  rewrite IH by (intros x Hx; rewrite set_bit_length; apply Hin; set_solver).
  rewrite set_bit_bits by (done || apply Hin; set_solver).
  rewrite orb_true_iff, Z.eqb_eq. split.
  - intros [[E|Ht]|(x & Hx & E)]; [right; exists k; set_solver|by left|right; exists x; set_solver].
  - intros [Ht|(x & Hx & E)]; [by left; right|].
    apply elem_of_cons in Hx as [->|Hx]; [left; by left|right; by exists x].
Qed.

(** ** Folding, translating, remapping *)
Section mapping.
Context (dst : bitmap) (nbits : Z).
Hypothesis Hn : 0 ≤ nbits < 2 ^ 32.
Hypothesis Hdst : BITS_TO_LONGS nbits ≤ Z.of_nat (length dst).

Lemma zero_ready i : 0 ≤ i < nbits → 0 ≤ i < 64 * Z.of_nat (length (bitmap_zero dst nbits)).
Proof. intros Hi. rewrite zero_length. pose proof (longs_cover nbits ltac:(lia)). lia. Qed.

Lemma zero_clear i : 0 ≤ i < nbits → test_bit (bitmap_zero dst nbits) i = false.
Proof.
  intros Hi. pose proof (longs_cover nbits ltac:(lia)). rewrite zero_bits by lia.
  by destruct (Z.ltb_spec i (64 * BITS_TO_LONGS nbits)); [|lia].
Qed.

(** The result of the set-bit loops on the cleared array. *)
Lemma cleared_fold (h : Z → Z) ks i :
  (∀ k, k ∈ ks → 0 ≤ h k < nbits) → 0 ≤ i < nbits →
  test_bit (foldl (λ d k, set_bit (h k) d) (bitmap_zero dst nbits) ks) i = true ↔ ∃ k, k ∈ ks ∧ h k = i.
Proof.
  intros Hin Hi. rewrite set_bits_fold by (try (intros; apply zero_ready; by apply Hin); lia).
  rewrite zero_clear by done. naive_solver.
Qed.

Lemma fold_ok orig sz :
  words_ok orig → nbits ≤ 64 * Z.of_nat (length orig) → 0 < sz →
  ∃ d, bitmap_fold dst (Some orig) sz nbits = Ok d
    ∧ ∀ i, 0 ≤ i < nbits →
        test_bit d i = true ↔ ∃ k, 0 ≤ k < nbits ∧ test_bit orig k = true ∧ k mod sz = i.
Proof.
  intros Hm Hf Hsz. exists (foldl (λ d k, set_bit (k mod sz) d) (bitmap_zero dst nbits) (set_bits orig nbits)).
  split.
  - unfold bitmap_fold. rewrite for_each_ok by (done || lia).
    generalize (bitmap_zero dst nbits). induction (set_bits orig nbits) as [|k ks IH]; intros d; [done|].
    simpl. destruct (Z.eqb_spec sz 0); [lia|]. apply IH.
  - intros i Hi. rewrite (cleared_fold (λ k, k mod sz)).
    + split; intros (k & Hk); exists k; rewrite elem_positions in *; naive_solver.
    + intros k [Hk _]%elem_positions. pose proof (Z.mod_pos_bound k sz Hsz).
      pose proof (Z.mod_le k sz ltac:(lia) Hsz). lia.
    + done.
Qed.

Lemma onto_fold orig ks d mm i :
  (∀ k, k ∈ ks → 0 ≤ k < 64 * Z.of_nat (length d)) → 0 ≤ i →
  test_bit (foldl (λ st n, let '(d, mm) := st in (if test_bit orig mm then set_bit n d else d, mm + 1))
    (d, mm) ks).1 i = true
  ↔ test_bit d i = true ∨ ∃ idx, ks !! idx = Some i ∧ test_bit orig (mm + Z.of_nat idx) = true.
Proof.
  intros Hin Hi. revert d mm Hin. induction ks as [|k ks IH]; intros d mm Hin; simpl.
  { split; [by left|]. intros [?|(idx & Hk & _)]; [done|by rewrite lookup_nil in Hk]. }
  rewrite IH; [|intros x Hx; destruct (test_bit orig mm); rewrite ?set_bit_length; apply Hin; set_solver].
  assert (Hstep : test_bit (if test_bit orig mm then set_bit k d else d) i = true
    ↔ test_bit d i = true ∨ (k = i ∧ test_bit orig mm = true)).
  { destruct (test_bit orig mm); [|naive_solver].
    rewrite set_bit_bits, orb_true_iff, Z.eqb_eq by (done || apply Hin; set_solver). naive_solver. }
  rewrite Hstep. split.
  - intros [[?|[-> ?]]|(idx & E & Ht)]; [by left| |].
    + right. exists 0%nat. rewrite Z.add_0_r. done.
    + right. exists (S idx). split; [done|]. by replace (mm + Z.of_nat (S idx)) with (mm + 1 + Z.of_nat idx) by lia.
  - intros [?|([|idx] & E & Ht)]; [by left; left| |].
    + left. right. simpl in E. rewrite Z.add_0_r in Ht. split; [congruence|done].
    + right. exists idx. split; [done|]. by replace (mm + 1 + Z.of_nat idx) with (mm + Z.of_nat (S idx)) by lia.
Qed.

Lemma onto_ok orig relmap i :
  words_ok relmap → nbits ≤ 64 * Z.of_nat (length relmap) → 0 ≤ i < nbits →
  test_bit (bitmap_onto dst (Some orig) relmap nbits) i = test_bit relmap i && test_bit orig (rank relmap i).
Proof.
  intros Hm Hf Hi. apply eq_true_iff_eq. unfold bitmap_onto. rewrite for_each_ok by (done || lia).
  cbv beta. rewrite onto_fold; [|intros k [Hk _]%elem_positions; by apply zero_ready|lia].
  rewrite zero_clear, andb_true_iff by done. pose proof (bsum_bounds (test_bit relmap) 0 i ltac:(lia)). split.
  - intros [?|(idx & E & Ht)]; [done|].
    assert (Hin : i ∈ set_bits relmap nbits) by (by eapply list_elem_of_lookup_2).
    apply elem_positions in Hin as [_ Hr]. split; [done|].
    pose proof (set_bits_rank relmap nbits i Hi Hr) as Er.
    pose proof (NoDup_lookup _ _ _ _ (positions_NoDup _ _ _) E Er) as ->.
    by replace (0 + Z.of_nat (Z.to_nat (rank relmap i))) with (rank relmap i) in Ht by lia.
  - intros [Hr Ht]. right. exists (Z.to_nat (rank relmap i)).
    split; [by apply set_bits_rank|]. by replace (0 + Z.of_nat (Z.to_nat (rank relmap i))) with (rank relmap i) by lia.
Qed.

Section remap.
Context (old _new : bitmap).
Hypothesis Hold : words_ok old.
Hypothesis Hnew : words_ok _new.
Hypothesis Hfo : nbits ≤ 64 * Z.of_nat (length old).
Hypothesis Hfn : nbits ≤ 64 * Z.of_nat (length _new).

(** A bit of [old] goes to the bit of [_new] of the same ordinal, modulo
    the weight; the others stay. *)
Lemma bitremap_ok i :
  0 ≤ i < nbits →
  bitmap_bitremap i old _new nbits =
    if test_bit old i && negb (rank _new nbits =? 0)
    then default nbits (set_bits _new nbits !! Z.to_nat (rank old i mod rank _new nbits)) else i.
Proof.
  intros Hi. unfold bitmap_bitremap. rewrite bitmap_weight_ok, pos_to_ord_ok, ord_to_pos_ok by (done || lia).
  destruct (Z.ltb_spec i nbits); [|lia]. cbn [andb].
  pose proof (bsum_bounds (test_bit old) 0 i ltac:(lia)).
  destruct (test_bit old i); [|done]. cbn [andb]. destruct (Z.ltb_spec (rank old i) 0); [lia|].
  by destruct (Z.eqb_spec (rank _new nbits) 0).
Qed.

Lemma bitremap_range i : 0 ≤ i < nbits → 0 ≤ bitmap_bitremap i old _new nbits < nbits.
Proof.
  intros Hi. rewrite bitremap_ok by done.
  destruct (test_bit old i); [|done]. destruct (Z.eqb_spec (rank _new nbits) 0) as [|Hw]; [done|]. cbn [andb negb].
  pose proof (bsum_bounds (test_bit _new) 0 nbits ltac:(lia)).
  pose proof (Z.mod_pos_bound (rank old i) (rank _new nbits) ltac:(lia)).
  pose proof (positions_length (test_bit _new) 0 nbits ltac:(lia)) as Hlen. rewrite Z.sub_0_r in Hlen.
  destruct (lookup_lt_is_Some_2 (set_bits _new nbits) (Z.to_nat (rank old i mod rank _new nbits))) as [p Hp]; [lia|].
  rewrite Hp. apply list_elem_of_lookup_2, elem_positions in Hp as [Hp _]. done.
Qed.

Lemma remap_ok src i :
  words_ok src → nbits ≤ 64 * Z.of_nat (length src) → 0 ≤ i < nbits →
  test_bit (bitmap_remap dst (Some src) old _new nbits) i = true
  ↔ ∃ k, 0 ≤ k < nbits ∧ test_bit src k = true ∧ bitmap_bitremap k old _new nbits = i.
Proof.
  intros Hm Hf Hi. unfold bitmap_remap. rewrite for_each_ok by (done || lia).
  assert (E : ∀ ks d, foldl (λ d k,
      let n := bitmap_pos_to_ord old k nbits in
      if (n <? 0) || (__bitmap_weight _new nbits =? 0) then set_bit k d
      else set_bit (bitmap_ord_to_pos _new (n mod __bitmap_weight _new nbits) nbits) d) d ks
    = foldl (λ d k, set_bit (bitmap_bitremap k old _new nbits) d) d ks).
  { induction ks as [|k ks IH]; intros d; [done|]. simpl. rewrite IH. f_equal.
    unfold bitmap_bitremap. by destruct (_ || _). }
  cbv zeta in E |- *. rewrite E.
  rewrite (cleared_fold (λ k, bitmap_bitremap k old _new nbits)).
  - split; intros (k & Hk); exists k; rewrite elem_positions in *; naive_solver.
  - intros k [Hk _]%elem_positions. by apply bitremap_range.
  - done.
Qed.
End remap.
End mapping.

(** Folding modulo the weight of [relmap] and translating onto it: bit [i]
    of the result is set iff [relmap] has it and some bit of [orig] is its
    ordinal modulo the weight; the result is not empty unless [orig] is. *)
Theorem bitmap_fold_onto dst tmp orig relmap nbits :
  0 ≤ nbits < 2 ^ 32 → BITS_TO_LONGS nbits ≤ Z.of_nat (length dst) → BITS_TO_LONGS nbits ≤ Z.of_nat (length tmp) →
  words_ok orig → nbits ≤ 64 * Z.of_nat (length orig) →
  words_ok relmap → nbits ≤ 64 * Z.of_nat (length relmap) → 0 < __bitmap_weight relmap nbits →
  ∃ t, bitmap_fold tmp (Some orig) (__bitmap_weight relmap nbits) nbits = Ok t
    ∧ (∀ i, 0 ≤ i < nbits →
         test_bit (bitmap_onto dst (Some t) relmap nbits) i = true
         ↔ test_bit relmap i = true
           ∧ ∃ k, 0 ≤ k < nbits ∧ test_bit orig k = true ∧ k mod __bitmap_weight relmap nbits = rank relmap i)
    ∧ ((∃ k, 0 ≤ k < nbits ∧ test_bit orig k = true) →
         ∃ i, 0 ≤ i < nbits ∧ test_bit (bitmap_onto dst (Some t) relmap nbits) i = true).
Proof.
  intros Hn Hd Ht Ho Hfo Hr Hfr Hw. set (w := __bitmap_weight relmap nbits) in *.
  destruct (fold_ok tmp nbits Hn Ht orig w Ho Hfo Hw) as (t & Et & Htb).
  assert (Honto : ∀ i, 0 ≤ i < nbits →
    test_bit (bitmap_onto dst (Some t) relmap nbits) i = true
    ↔ test_bit relmap i = true
      ∧ ∃ k, 0 ≤ k < nbits ∧ test_bit orig k = true ∧ k mod w = rank relmap i).
  { intros i Hi. rewrite onto_ok by done. rewrite andb_true_iff, Htb; [done|].
    pose proof (bsum_bounds (test_bit relmap) 0 i ltac:(lia)). lia. }
  exists t. split; [done|]. split; [done|]. intros (k & Hk & Hok).
  pose proof (Z.mod_pos_bound k w Hw) as Hmod.
  destruct (bitmap_ordinals relmap nbits Hr ltac:(lia) Hfr) as (_ & Hord & _).
  destruct (Hord (k mod w) Hmod) as (Hp & Hset & Hback).
  exists (bitmap_ord_to_pos relmap (k mod w) nbits). split; [done|]. apply Honto; [done|].
  split; [done|]. exists k. split; [done|]. split; [done|].
  rewrite pos_to_ord_ok, Hset in Hback by (done || lia).
  destruct (Z.ltb_spec (bitmap_ord_to_pos relmap (k mod w) nbits) nbits); [done|lia].
Qed.

(** The loop the comment in [bitmap_onto] gives as the obvious equivalent,
    with the bitmap whose ordinals it looks up as an argument. *)
Definition onto_loop (by_ord : bitmap) (dst orig relmap : bitmap) (bits : Z) : bitmap :=
  foldl (λ dst m,
    let n := bitmap_ord_to_pos by_ord m bits in
    if test_bit orig m then set_bit n dst else dst)
    (bitmap_zero dst bits) (seqZ 0 (__bitmap_weight relmap bits)).

(** With the ordinals of [relmap] the two agree on every bit. *)
Theorem bitmap_onto_loop dst orig relmap bits i :
  0 ≤ bits < 2 ^ 32 → BITS_TO_LONGS bits ≤ Z.of_nat (length dst) →
  words_ok relmap → bits ≤ 64 * Z.of_nat (length relmap) → 0 ≤ i < bits →
  test_bit (bitmap_onto dst (Some orig) relmap bits) i = test_bit (onto_loop relmap dst orig relmap bits) i.
Proof.
  intros Hn Hd Hr Hfr Hi. rewrite onto_ok by done. unfold onto_loop. cbv zeta.
  destruct (bitmap_ordinals relmap bits Hr ltac:(lia) Hfr) as (Hpo & Hord & _).
  set (w := __bitmap_weight relmap bits) in *. set (h := λ m, bitmap_ord_to_pos relmap m bits).
  assert (E : ∀ ks d, foldl (λ d m, if test_bit orig m then set_bit (h m) d else d) d ks
    = foldl (λ d m, set_bit (h m) d) d (filter (λ m, test_bit orig m = true) ks)).
  { induction ks as [|k ks IH]; intros d; [done|]. rewrite filter_cons. simpl. rewrite IH.
    destruct (test_bit orig k); destruct (decide _); done. }
  rewrite (E (seqZ 0 w)). apply eq_true_iff_eq.
  rewrite (cleared_fold dst bits Hn Hd h _ i); [|intros k [_ Hk%elem_of_seqZ]%list_elem_of_filter; apply Hord; lia|done].
  rewrite andb_true_iff. split.
  - intros [Ha Hb]. destruct (Hpo i Hi Ha) as [Hrng Hpos]. rewrite pos_to_ord_ok, Ha in Hrng, Hpos by (done || lia).
    destruct (Z.ltb_spec i bits); [|lia]. cbn [andb] in Hrng, Hpos.
    exists (rank relmap i). rewrite list_elem_of_filter, elem_of_seqZ. split; [split; [done|lia]|done].
  - intros (k & Hk & Hh). apply list_elem_of_filter in Hk as [Hk Hks%elem_of_seqZ].
    destruct (Hord k ltac:(lia)) as (_ & Hset & Hback). fold (h k) in Hset, Hback. rewrite Hh in Hset, Hback.
    rewrite pos_to_ord_ok, Hset in Hback by (done || lia). destruct (Z.ltb_spec i bits); [|lia].
    cbn [andb] in Hback. by rewrite Hback.
Qed.

(** As written, with the ordinals of [orig], it computes something else. *)
Theorem onto_comment_differs :
  bitmap_onto [0] (Some [1]) [4] 64 = [4] ∧ onto_loop [1] [0] [1] [4] 64 = [1].
Proof. split; vm_compute; reflexivity. Qed.

(** [bitmap_remap] is the image under [bitmap_bitremap]. *)
Theorem bitmap_remap_bits dst src old _new nbits :
  0 ≤ nbits < 2 ^ 32 → BITS_TO_LONGS nbits ≤ Z.of_nat (length dst) →
  words_ok src → nbits ≤ 64 * Z.of_nat (length src) → words_ok old → nbits ≤ 64 * Z.of_nat (length old) →
  words_ok _new → nbits ≤ 64 * Z.of_nat (length _new) →
  (∀ i, 0 ≤ i < nbits →
     test_bit (bitmap_remap dst (Some src) old _new nbits) i = true
     ↔ ∃ k, 0 ≤ k < nbits ∧ test_bit src k = true ∧ bitmap_bitremap k old _new nbits = i)
  ∧ ∀ k, 0 ≤ k < nbits →
      0 ≤ bitmap_bitremap k old _new nbits < nbits
      ∧ bitmap_bitremap k old _new nbits =
          if test_bit old k && negb (rank _new nbits =? 0)
          then default nbits (set_bits _new nbits !! Z.to_nat (rank old k mod rank _new nbits)) else k.
Proof.
  intros Hn Hd Hs Hfs Ho Hfo Hw Hfw. split; [intros; by apply remap_ok|].
  intros k Hk. split; [by apply bitremap_range|by apply bitremap_ok].
Qed.

(** ** Aligned regions *)
Definition in_region (pos order i : Z) : bool := (pos <=? i) && (i <? pos + 2 ^ order).
Definition region_free (m : bitmap) (pos order : Z) : Prop :=
  ∀ i, pos ≤ i < pos + 2 ^ order → test_bit m i = false.

Section region.
Context (pos order : Z).
Hypothesis Ho : 0 ≤ order ≤ 30.
Hypothesis Hp : 0 ≤ pos.
Hypothesis Hal : (2 ^ order | pos).

(** A region of less than a word lies inside one word, a larger one starts
    at a word boundary and has whole words. *)
Lemma region_shape :
  (order < 6 ∧ 2 ^ order ≤ 32 ∧ BITS_TO_LONGS (2 ^ order) = 1 ∧ pos mod 64 + 2 ^ order ≤ 64)
  ∨ (6 ≤ order ∧ pos mod 64 = 0 ∧ 2 ^ order = 64 * BITS_TO_LONGS (2 ^ order)).
Proof.
  destruct (split64 pos) as [Es Hr]. pose proof (Z.pow_pos_nonneg 2 order ltac:(lia) ltac:(lia)) as Hpow.
  destruct (decide (order < 6)) as [Hlt|Hge]; [left|right]; (split; [lia|]).
  - assert (H32 : 2 ^ order ≤ 2 ^ 5) by (apply Z.pow_le_mono_r; lia). change (2 ^ 5) with 32 in H32.
    split; [done|]. unfold BITS_TO_LONGS. split.
    + symmetry. apply (Z.div_unique _ 64 1 (2 ^ order - 1)); lia.
    + assert (E64 : 64 = 2 ^ (6 - order) * 2 ^ order) by (rewrite <- Z.pow_add_r by lia; by replace (6 - order + order) with 6 by lia).
      assert (Hd : (2 ^ order | pos mod 64)).
      { rewrite Z.mod_eq by lia. apply Z.divide_sub_r; [done|]. rewrite E64 at 1.
        apply Z.divide_mul_l. exists (2 ^ (6 - order)). lia. }
      destruct Hd as [c Hc]. set (a := 2 ^ (6 - order)) in *. set (b := 2 ^ order) in *.
      assert (c < a) by nia. nia.
  - assert (E : 2 ^ order = 64 * 2 ^ (order - 6)).
    { change 64 with (2 ^ 6). rewrite <- Z.pow_add_r by lia. f_equal. lia. }
    split.
    + destruct Hal as [c ->]. rewrite E. replace (c * (64 * 2 ^ (order - 6))) with (c * 2 ^ (order - 6) * 64) by lia.
      by apply Z.mod_mul.
    + unfold BITS_TO_LONGS. rewrite E, (Z.mul_comm 64), Z.div_add_l by lia. rewrite (Z.div_small 63) by lia. lia.
Qed.

Lemma region_mask_value n : 1 ≤ n ≤ 64 → u64 (shl64 1 (n - 1) + (shl64 1 (n - 1) - 1)) = Z.ones n.
Proof.
  intros Hn. rewrite shl64_small.
  - rewrite Z.ones_equiv. replace (2 ^ n) with (2 ^ 1 * 2 ^ (n - 1)) by (rewrite <- Z.pow_add_r by lia; f_equal; lia).
    rewrite u64_small; [lia|]. pose proof (Z.pow_pos_nonneg 2 (n - 1)).
    assert (2 ^ (n - 1) ≤ 2 ^ 63) by (apply Z.pow_le_mono_r; lia). lia.
  - lia.
  - pose proof (Z.pow_pos_nonneg 2 (n - 1)). assert (2 ^ (n - 1) ≤ 2 ^ 63) by (apply Z.pow_le_mono_r; lia). lia.
Qed.

(** The mask in every word of the region. *)
Lemma region_mask_bits k j :
  0 ≤ k < BITS_TO_LONGS (2 ^ order) → 0 ≤ j < 64 →
  Z.testbit (region_mask pos order) j = in_region pos order ((pos / 64 + k) * 64 + j).
Proof.
  intros Hk Hj. destruct (split64 pos) as [Es Hr]. pose proof (Z.pow_pos_nonneg 2 order ltac:(lia) ltac:(lia)) as Hpow.
  unfold region_mask. cbv zeta. replace (pos - pos / 64 * 64) with (pos mod 64) by lia.
  rewrite region_mask_value by lia. rewrite shl64_testbit by lia. unfold in_region.
  destruct region_shape as [(? & ? & HL & ?)|(? & H0 & HL)].
  - rewrite HL in Hk. rewrite Z.min_l by lia. replace k with 0 by lia.
    destruct (Z.leb_spec (pos mod 64) j), (Z.leb_spec pos ((pos / 64 + 0) * 64 + j)); try lia; cbn [andb]; try done.
    destruct (Z.ltb_spec ((pos / 64 + 0) * 64 + j) (pos + 2 ^ order)).
    + apply Z.ones_spec_low. lia.
    + apply Z.ones_spec_high. lia.
  - rewrite Z.min_r by lia. rewrite H0, Z.sub_0_r, Z.ones_spec_low by lia.
    destruct (Z.leb_spec 0 j), (Z.leb_spec pos ((pos / 64 + k) * 64 + j)),
      (Z.ltb_spec ((pos / 64 + k) * 64 + j) (pos + 2 ^ order)); done || lia.
Qed.

Lemma region_words i :
  in_region pos order i = true → 0 ≤ i / 64 - pos / 64 < BITS_TO_LONGS (2 ^ order).
Proof.
  unfold in_region. intros [H1%Z.leb_le H2%Z.ltb_lt]%andb_true_iff.
  destruct (split64 pos), (split64 i), region_shape as [(? & ? & -> & ?)|(? & ? & ?)]; lia.
Qed.

(** The loops of [__reg_op] over the words of the region. *)
Section region_map.
Context (m : bitmap).
Hypothesis Hfit : pos + 2 ^ order ≤ 64 * Z.of_nat (length m).

Lemma region_fits k : 0 ≤ k < BITS_TO_LONGS (2 ^ order) → 0 ≤ pos / 64 + k < Z.of_nat (length m).
Proof.
  intros Hk. destruct (split64 pos), region_shape as [(? & ? & HL & ?)|(? & ? & ?)];
    pose proof (Z.pow_pos_nonneg 2 order ltac:(lia) ltac:(lia)); lia.
Qed.

Lemma region_loop (f : Z → Z) (v : bool) i :
  (∀ w j, 0 ≤ j < 64 → Z.testbit (f w) j = if Z.testbit (region_mask pos order) j then v else Z.testbit w j) →
  0 ≤ i →
  test_bit (word_loop (λ d k, f (word d (pos / 64 + k))) (λ k, pos / 64 + k) (seqZ 0 (BITS_TO_LONGS (2 ^ order))) m) i
  = if in_region pos order i then v else test_bit m i.
Proof.
  intros Hf Hi. destruct (split64 i) as [Ei Hr]. set (ks := seqZ 0 _).
  destruct (word_loop_words (λ d k, f (word d (pos / 64 + k))) (λ k, pos / 64 + k) ks m) as [H1 H2].
  - apply NoDup_fmap_2; [intros x y; lia|]. apply NoDup_seqZ.
  - intros k Hk%elem_of_seqZ. apply region_fits. lia.
  - intros k ks1 ks2 d E Hd. f_equal. apply Hd.
    + assert (Hk : k ∈ ks) by (rewrite E; set_solver). apply elem_of_seqZ in Hk.
      pose proof (region_fits k). lia.
    + intros (x & Ex & Hx)%list_elem_of_fmap. apply seqZ_around in E as [Hlt _]. specialize (Hlt x Hx). lia.
  - unfold test_bit at 1.
    destruct (decide (0 ≤ i / 64 - pos / 64 < BITS_TO_LONGS (2 ^ order))) as [Hin|Hout].
    + specialize (H1 (i / 64 - pos / 64)). replace (pos / 64 + (i / 64 - pos / 64)) with (i / 64) in H1 by lia.
      rewrite H1 by (apply elem_of_seqZ; lia). rewrite Hf by done.
      rewrite (region_mask_bits (i / 64 - pos / 64)) by done.
      replace ((pos / 64 + (i / 64 - pos / 64)) * 64 + i mod 64) with i by lia. done.
    + rewrite H2; [|lia|].
      * destruct (in_region pos order i) eqn:E; [by apply region_words in E|done].
      * intros (x & Ex & Hx%elem_of_seqZ)%list_elem_of_fmap. lia.
Qed.

Lemma reg_alloc_bits i :
  0 ≤ i → test_bit (__reg_op m pos order REG_OP_ALLOC).1 i = in_region pos order i || test_bit m i.
Proof.
  intros Hi. simpl. rewrite (region_loop (λ w, Z.lor w (region_mask pos order)) true) by
    (try done; intros w j Hj; rewrite Z.lor_spec; by destruct (Z.testbit w j), (Z.testbit (region_mask pos order) j)).
  by destruct (in_region pos order i).
Qed.

Lemma reg_release_bits i :
  0 ≤ i → test_bit (__reg_op m pos order REG_OP_RELEASE).1 i = negb (in_region pos order i) && test_bit m i.
Proof.
  intros Hi. simpl. rewrite (region_loop (λ w, Z.land w (not64 (region_mask pos order))) false) by
    (try done; intros w j Hj; rewrite Z.land_spec, not64_testbit by done;
     by destruct (Z.testbit w j), (Z.testbit (region_mask pos order) j)).
  by destruct (in_region pos order i).
Qed.

Lemma reg_isfree : words_ok m → (__reg_op m pos order REG_OP_ISFREE).2 = true ↔ region_free m pos order.
Proof.
  intros Hm. simpl. rewrite negb_true_iff. split.
  - intros Hf i Hi. destruct (split64 i) as [Ei Hr].
    assert (Hreg : in_region pos order i = true) by (apply andb_true_iff; split; [apply Z.leb_le|apply Z.ltb_lt]; lia).
    pose proof (region_words i Hreg) as Hk. destruct (test_bit m i) eqn:E; [|done].
    assert (Hex : existsb (λ i, negb (Z.land (word m (pos / 64 + i)) (region_mask pos order) =? 0))
      (seqZ 0 (BITS_TO_LONGS (2 ^ order))) = true); [|congruence].
    apply existsb_exists. exists (i / 64 - pos / 64). rewrite <- list_elem_of_In, elem_of_seqZ. split; [lia|].
    apply negb_true_iff, Z.eqb_neq. intros Hz. apply (f_equal (λ w, Z.testbit w (i mod 64))) in Hz.
    rewrite Z.land_spec, Z.bits_0, (region_mask_bits (i / 64 - pos / 64)) in Hz by done.
    replace (pos / 64 + (i / 64 - pos / 64)) with (i / 64) in Hz by lia.
    rewrite <- Ei, Hreg in Hz. unfold test_bit in E. by rewrite E in Hz.
  - intros Hf. apply not_true_is_false. intros (k & Hk & Hw)%existsb_exists.
    rewrite <- list_elem_of_In, elem_of_seqZ in Hk. apply negb_true_iff, Z.eqb_neq in Hw.
    apply word_nonzero in Hw as (j & Hj & Ht); [|apply land_range; by apply word_range].
    rewrite Z.land_spec, (region_mask_bits k), <- test_bit_word in Ht by (done || lia).
    apply andb_true_iff in Ht as [Ht Hreg]. rewrite Hf in Ht; [done|].
    apply andb_true_iff in Hreg as [?%Z.leb_le ?%Z.ltb_lt]. lia.
Qed.
End region_map.
End region.

(** What [bitmap_find_free_region] promises: the lowest free aligned region,
    now set, or the bitmap as it was when there is none. *)
Definition region_found (m : bitmap) (bits order : Z) (m' : bitmap) (r : Z) : Prop :=
  let free_at p := 0 ≤ p ∧ (2 ^ order | p) ∧ p + 2 ^ order ≤ bits ∧ region_free m p order in
  (r = minus_ENOMEM ∧ m' = m ∧ ∀ p, ¬ free_at p)
  ∨ (free_at r ∧ (∀ p, free_at p → r ≤ p)
     ∧ ∀ i, 0 ≤ i → test_bit m' i = in_region r order i || test_bit m i).

Lemma free_region_loop_ok m bits order fuel pos :
  words_ok m → 0 ≤ order ≤ 30 → bits ≤ 2 ^ 31 → bits ≤ 64 * Z.of_nat (length m) →
  0 ≤ pos → (2 ^ order | pos) → bits - pos < Z.of_nat fuel → pos ≤ bits →
  (∀ p, 0 ≤ p < pos → (2 ^ order | p) → ¬ region_free m p order) →
  ∃ m' r, free_region_loop m bits order pos fuel = Ok (m', r) ∧ region_found m bits order m' r.
Proof.
  intros Hm Ho H31 Hfit. pose proof (Z.pow_pos_nonneg 2 order ltac:(lia) ltac:(lia)) as Hpow.
  assert (2 ^ order ≤ 2 ^ 30) by (apply Z.pow_le_mono_r; lia).
  revert pos. induction fuel as [|fuel IH]; intros pos Hp Hal Hf Hle Hno.
  { lia. }
  cbn [free_region_loop]. cbv zeta. rewrite u32_small by lia.
  assert (Hbefore : ∀ p, (2 ^ order | p) → p < pos + 2 ^ order → p ≤ pos).
  { intros p [c ->] Hlt. destruct Hal as [d ->].
    assert (c < d + 1) by (apply (Z.mul_lt_mono_pos_r (2 ^ order)); lia).
    apply Z.mul_le_mono_nonneg_r; lia. }
  destruct (Z.leb_spec (pos + 2 ^ order) bits) as [Hin|Hout].
  - pose proof (reg_isfree pos order Ho Hp Hal m Hm) as Hfree.
    destruct (__reg_op m pos order REG_OP_ISFREE).2 eqn:E; cbn [negb].
    + eexists _, pos. split; [reflexivity|]. right. split; [split; [done|]; split; [done|]; split; [done|by apply Hfree]|].
      split.
      * intros p (Hp0 & Hpa & _ & Hpf). destruct (decide (p < pos)); [|lia]. by destruct (Hno p).
      * intros i Hi. apply reg_alloc_bits; done || lia.
    + apply IH; [lia|by apply Z.divide_add_r|lia|lia|].
      intros p Hp0 Hpa Hpf. destruct (decide (p < pos)); [apply (Hno p); [lia|done|done]|].
      assert (p = pos) as -> by (pose proof (Hbefore p Hpa); lia). apply Hfree in Hpf. done.
  - exists m, minus_ENOMEM. split; [done|]. left. split; [done|]. split; [done|].
    intros p (Hp0 & Hpa & Hpb & Hpf). pose proof (Hbefore p Hpa). apply (Hno p); [lia|done|done].
Qed.

(** C36: bitmap_find_free_region takes the lowest free region of 2^order bits
    at a multiple of its size and sets exactly its bits, returns -ENOMEM with
    the bitmap unchanged when there is none, and bitmap_release_region of the
    region gives every bit back. The order is at most 30 and the bitmap has
    at most 2^31 bits. *)
Theorem bitmap_region_alloc m bits order :
  words_ok m → 0 ≤ order ≤ 30 → 0 ≤ bits ≤ 2 ^ 31 → bits ≤ 64 * Z.of_nat (length m) →
  ∃ m' r, bitmap_find_free_region m bits order = Ok (m', r) ∧ region_found m bits order m' r
    ∧ (0 ≤ r → ∀ i, 0 ≤ i → test_bit (bitmap_release_region m' r order) i = test_bit m i).
Proof.
  intros Hm Ho Hb Hfit.
  destruct (free_region_loop_ok m bits order (S (Z.to_nat bits)) 0) as (m' & r & E & Hr); try (done || lia).
  { apply Z.divide_0_r. }
  exists m', r. split; [done|]. split; [done|]. intros Hr0.
  destruct Hr as [(-> & _)|((_ & Hra & Hrb & Hfree) & _ & Hbits)]; [done|].
  assert (Hlen : length m' = length m).
  { unfold bitmap_find_free_region in E. revert E. generalize 0 as p. generalize (S (Z.to_nat bits)) as fuel.
    induction fuel as [|fuel IH]; intros p; cbn [free_region_loop]; [done|].
    repeat case_match; [by apply IH|intros [= <- _]; simpl; apply word_loop_length|by intros [= <- _]]. }
  intros i Hi. unfold bitmap_release_region. rewrite reg_release_bits, Hbits by (done || lia).
  destruct (in_region r order i) eqn:Ei; cbn [negb andb orb]; [|done].
  apply andb_true_iff in Ei as [?%Z.leb_le ?%Z.ltb_lt]. symmetry. apply Hfree. lia.
Qed.

(** [bitmap_allocate_region] on a given region: the error leaves the bitmap
    alone. *)
Theorem bitmap_allocate_region_ok m pos order :
  words_ok m → 0 ≤ order ≤ 30 → 0 ≤ pos → (2 ^ order | pos) → pos + 2 ^ order ≤ 64 * Z.of_nat (length m) →
  (region_free m pos order
     ∧ (bitmap_allocate_region m pos order).2 = 0
     ∧ ∀ i, 0 ≤ i → test_bit (bitmap_allocate_region m pos order).1 i = in_region pos order i || test_bit m i)
  ∨ (¬ region_free m pos order ∧ bitmap_allocate_region m pos order = (m, minus_EBUSY)).
Proof.
  intros Hm Ho Hp Hal Hfit. pose proof (reg_isfree pos order Ho Hp Hal m Hm) as Hfree.
  unfold bitmap_allocate_region. destruct (__reg_op m pos order REG_OP_ISFREE).2 eqn:E; cbn [negb].
  - left. split; [by apply Hfree|]. pose proof (reg_alloc_bits pos order Ho Hp Hal m Hfit) as Ha.
    simpl in Ha |- *. done.
  - right. split; [|done]. intros H. apply Hfree in H. done.
Qed.

(** ** Arrays of 32-bit words *)
Definition bufbit (buf : list Z) (i : Z) : bool := Z.testbit (word buf (i / 32)) (i mod 32).
Definition u32s (buf : list Z) : Prop := Forall (λ w, 0 ≤ w < 2 ^ 32) buf.

Lemma split32 i : i = i / 32 * 32 + i mod 32 ∧ 0 ≤ i mod 32 < 32.
Proof. pose proof (Z.div_mod i 32 ltac:(lia)). pose proof (Z.mod_pos_bound i 32 ltac:(lia)). lia. Qed.

Lemma bufbit_word buf k j : 0 ≤ j < 32 → bufbit buf (k * 32 + j) = Z.testbit (word buf k) j.
Proof.
  intros. unfold bufbit. rewrite Z.div_add_l, (Z.div_small j), Z.add_0_r by lia.
  by rewrite Z.add_comm, Z.mod_add, Z.mod_small by lia.
Qed.

Lemma u32_high buf k j : u32s buf → 32 ≤ j → Z.testbit (word buf k) j = false.
Proof.
  intros Hb Hj. assert (Hw : 0 ≤ word buf k < 2 ^ 32).
  { unfold word. destruct (buf !! Z.to_nat k) as [w|] eqn:E; rewrite list_lookup_total_alt, E; simpl; [|lia].
    by eapply Forall_lookup_1 in Hb. }
  rewrite <- (Z.mod_small _ _ Hw). apply Z.mod_pow2_bits_high. lia.
Qed.

(** The words read for word [k] of the bitmap. *)
Definition u32_part (buf : list Z) (nwords k : Z) : Z :=
  if 2 * k + 1 <? nwords then Z.lor (word buf (2 * k)) (shl64 (word buf (2 * k + 1)) 32)
  else if 2 * k <? nwords then word buf (2 * k) else 0.

Lemma u32_part_bits buf nwords k j :
  u32s buf → 0 ≤ k → 0 ≤ j < 64 →
  Z.testbit (u32_part buf nwords k) j = (k * 64 + j <? 32 * nwords) && bufbit buf (k * 64 + j).
Proof.
  intros Hb Hk Hj. unfold u32_part.
  assert (Hlow : j < 32 → bufbit buf (k * 64 + j) = Z.testbit (word buf (2 * k)) j).
  { intros. rewrite <- bufbit_word by lia. f_equal. lia. }
  assert (Hhigh : 32 ≤ j → bufbit buf (k * 64 + j) = Z.testbit (word buf (2 * k + 1)) (j - 32)).
  { intros. rewrite <- bufbit_word by lia. f_equal. lia. }
  destruct (Z.ltb_spec (2 * k + 1) nwords), (Z.ltb_spec (2 * k) nwords), (Z.ltb_spec (k * 64 + j) (32 * nwords));
    try lia; cbn [andb].
  - rewrite Z.lor_spec, shl64_testbit by lia. destruct (Z.leb_spec 32 j).
    + rewrite Hhigh, u32_high by (done || lia). done.
    + rewrite Hlow by lia. apply orb_false_r.
  - by rewrite Hlow by lia.
  - apply u32_high; [done|lia].
  - apply Z.bits_0.
Qed.

(** The word written in place of [w]. *)
Definition from_word (buf : list Z) (nwords nbits k w : Z) : Z :=
  if k <? nbits / 64 then u32_part buf nwords k
  else Z.lor (Z.land w (not64 (BITMAP_LAST_WORD_MASK nbits))) (Z.land (u32_part buf nwords k) (BITMAP_LAST_WORD_MASK nbits)).

Lemma from_u32_loop_ok buf nwords nbits n m k j :
  0 ≤ nwords → 0 ≤ k → k + Z.of_nat n ≤ Z.of_nat (length m) → 0 ≤ j →
  word (from_u32_loop m nbits buf nwords k (Z.min (2 * k) nwords) n) j
  = if (k <=? j) && (j <? k + Z.of_nat n) then from_word buf nwords nbits j (word m j) else word m j.
Proof.
  intros Hw. revert m k. induction n as [|n IH]; intros m k Hk Hl Hj; cbn [from_u32_loop].
  { destruct (Z.leb_spec k j), (Z.ltb_spec j (k + Z.of_nat 0)); done || lia. }
  set (st := if Z.min (2 * k) nwords <? nwords then _ else _).
  assert (Hst : ∀ {A} (f : Z → Z → A),
    (let '(part, src_idx) := st in
     let '(part, src_idx) := if src_idx <? nwords then (Z.lor part (shl64 (word buf src_idx) 32), src_idx + 1)
                             else (part, src_idx) in f part src_idx)
    = f (u32_part buf nwords k) (Z.min (2 * (k + 1)) nwords)).
  { intros A f. unfold st, u32_part.
    destruct (Z.ltb_spec (Z.min (2 * k) nwords) nwords), (Z.ltb_spec (2 * k) nwords); try lia.
    - rewrite Z.min_l by lia. destruct (Z.ltb_spec (2 * k + 1) nwords); f_equal; lia.
    - destruct (Z.ltb_spec (Z.min (2 * k) nwords) nwords), (Z.ltb_spec (2 * k + 1) nwords); try lia. f_equal; lia. }
  rewrite Hst. fold (from_word buf nwords nbits k (word m k)).
  rewrite IH, set_word_word by (rewrite ?set_word_length; lia).
  destruct (Z.leb_spec (k + 1) j), (Z.ltb_spec j (k + 1 + Z.of_nat n)), (Z.leb_spec k j),
    (Z.ltb_spec j (k + Z.of_nat (S n))), (Z.eqb_spec j k); cbn [andb]; try lia; by subst.
Qed.

Lemma from_u32array_bits m nbits buf nwords i :
  u32s buf → 0 ≤ nwords → 0 ≤ nbits → BITS_TO_LONGS nbits ≤ Z.of_nat (length m) → 0 ≤ i →
  test_bit (bitmap_from_u32array m nbits buf nwords).1 i
  = if i <? nbits then (i <? 32 * nwords) && bufbit buf i else test_bit m i.
Proof.
  intros Hb Hw Hn Hl Hi. destruct (split64 i) as [Ei Hr], (split64 nbits) as [En Hrn].
  pose proof (longs_cover nbits Hn) as Hc. pose proof (longs_split nbits Hn) as Hs.
  cbn [bitmap_from_u32array fst]. unfold test_bit at 1.
  replace 0 with (Z.min (2 * 0) nwords) at 2 by lia. rewrite from_u32_loop_ok by lia.
  destruct (Z.leb_spec 0 (i / 64)), (Z.ltb_spec (i / 64) (0 + Z.of_nat (Z.to_nat (BITS_TO_LONGS nbits))));
    cbn [andb]; try lia.
  2:{ destruct (Z.ltb_spec i nbits); [lia|done]. }
  unfold from_word. destruct (Z.ltb_spec (i / 64) (nbits / 64)).
  - rewrite u32_part_bits, <- Ei by (done || lia). destruct (Z.ltb_spec i nbits); [done|lia].
  - destruct (Z.eqb_spec (nbits mod 64) 0); [lia|].
    rewrite Z.lor_spec, !Z.land_spec, not64_testbit, u32_part_bits, <- Ei by (done || lia).
    rewrite (last_mask_below nbits (i / 64)), <- Ei by (done || lia).
    destruct (Z.ltb_spec i nbits); cbn [negb]; rewrite ?andb_false_r, ?andb_true_r, ?orb_false_r; done.
Qed.

(** The half of a bitmap word that goes to 32-bit word [j]. *)
Definition to_part (m : bitmap) (nbits s : Z) : Z :=
  if s <? BITS_TO_LONGS nbits then
    if nbits / 64 <=? s then Z.land (word m s) (BITMAP_LAST_WORD_MASK nbits) else word m s
  else 0.
Definition to_word (m : bitmap) (nbits j : Z) : Z :=
  if Z.even j then Z.land (to_part m nbits (j / 2)) (2 ^ 32 - 1)
  else Z.land (shr64 (to_part m nbits (j / 2)) 32) (2 ^ 32 - 1).

Lemma to_word_even m nbits s : to_word m nbits (2 * s) = Z.land (to_part m nbits s) (2 ^ 32 - 1).
Proof.
  unfold to_word. rewrite Z.even_mul. cbn [Z.even orb]. by rewrite Z.mul_comm, Z.div_mul.
Qed.

Lemma to_word_odd m nbits s : to_word m nbits (2 * s + 1) = Z.land (shr64 (to_part m nbits s) 32) (2 ^ 32 - 1).
Proof.
  unfold to_word. rewrite Z.even_add, Z.even_mul. cbn [Z.even orb Bool.eqb].
  by rewrite Z.mul_comm, Z.div_add_l, (Z.div_small 1), Z.add_0_r by lia.
Qed.

Lemma to_u32_loop_ok m nbits nwords fuel buf s j :
  0 ≤ nbits → 0 ≤ s → nwords ≤ Z.of_nat (length buf) → nwords - 2 * s < Z.of_nat fuel → 0 ≤ j →
  word (to_u32_loop buf nwords m nbits (2 * s) (Z.min s (BITS_TO_LONGS nbits)) fuel) j
  = if (2 * s <=? j) && (j <? nwords) then to_word m nbits j else word buf j.
Proof.
  intros Hn. revert buf s. pose proof (longs_cover nbits Hn) as Hc.
  induction fuel as [|fuel IH]; intros buf s Hs Hl Hf Hj; cbn [to_u32_loop].
  { destruct (Z.leb_spec (2 * s) j), (Z.ltb_spec j nwords); done || lia. }
  destruct (Z.ltb_spec (2 * s) nwords) as [Hlt|Hge].
  2:{ destruct (Z.leb_spec (2 * s) j), (Z.ltb_spec j nwords); done || lia. }
  assert (Hst : (if Z.min s (BITS_TO_LONGS nbits) <? BITS_TO_LONGS nbits then
      (if nbits / 64 <=? Z.min s (BITS_TO_LONGS nbits)
       then Z.land (word m (Z.min s (BITS_TO_LONGS nbits))) (BITMAP_LAST_WORD_MASK nbits)
       else word m (Z.min s (BITS_TO_LONGS nbits)), Z.min s (BITS_TO_LONGS nbits) + 1)
      else (0, Z.min s (BITS_TO_LONGS nbits)))
    = (to_part m nbits s, Z.min (s + 1) (BITS_TO_LONGS nbits))).
  { unfold to_part. destruct (Z.ltb_spec (Z.min s (BITS_TO_LONGS nbits)) (BITS_TO_LONGS nbits)),
      (Z.ltb_spec s (BITS_TO_LONGS nbits)); try lia.
    - rewrite Z.min_l by lia. f_equal. lia.
    - f_equal. lia. }
  rewrite Hst. clear Hst. rewrite <- to_word_even.
  destruct (Z.ltb_spec (2 * s + 1) nwords) as [H1|H1].
  - rewrite <- to_word_odd. replace (2 * s + 1 + 1) with (2 * (s + 1)) by lia.
    rewrite IH by (rewrite ?set_word_length; lia). rewrite !set_word_word by (rewrite ?set_word_length; lia).
    destruct (Z.leb_spec (2 * (s + 1)) j), (Z.ltb_spec j nwords), (Z.leb_spec (2 * s) j),
      (Z.eqb_spec j (2 * s + 1)), (Z.eqb_spec j (2 * s)); cbn [andb]; try lia; by subst.
  - assert (Hstop : ∀ f b x, to_u32_loop b nwords m nbits (2 * s + 1) x f = b).
    { intros [|f] b x; cbn [to_u32_loop]; [done|]. by destruct (Z.ltb_spec (2 * s + 1) nwords); [lia|]. }
    rewrite Hstop, set_word_word by lia.
    destruct (Z.ltb_spec j nwords), (Z.leb_spec (2 * s) j), (Z.eqb_spec j (2 * s)); cbn [andb]; try lia; by subst.
Qed.

Lemma to_part_bits m nbits s j :
  0 ≤ nbits → 0 ≤ s → 0 ≤ j < 64 →
  Z.testbit (to_part m nbits s) j = (s * 64 + j <? nbits) && test_bit m (s * 64 + j).
Proof.
  intros Hn Hs Hj. rewrite test_bit_word by done. unfold to_part.
  destruct (split64 nbits) as [En Hr]. pose proof (longs_split nbits Hn) as Hl.
  destruct (Z.ltb_spec s (BITS_TO_LONGS nbits)), (Z.leb_spec (nbits / 64) s).
  - destruct (Z.eqb_spec (nbits mod 64) 0); [lia|].
    rewrite Z.land_spec, (last_mask_below nbits s), andb_comm by (done || lia). done.
  - destruct (Z.ltb_spec (s * 64 + j) nbits); [done|lia].
  - rewrite Z.bits_0. destruct (Z.eqb_spec (nbits mod 64) 0), (Z.ltb_spec (s * 64 + j) nbits); done || lia.
  - destruct (Z.eqb_spec (nbits mod 64) 0); lia.
Qed.

Lemma to_u32array_bits buf nwords m nbits i :
  0 ≤ nbits → 0 ≤ nwords ≤ Z.of_nat (length buf) → 0 ≤ i < 32 * nwords →
  bufbit (bitmap_to_u32array buf nwords m nbits).1 i = (i <? nbits) && test_bit m i.
Proof.
  intros Hn Hw Hi. destruct (split32 i) as [Ei Hr]. pose proof (longs_cover nbits Hn).
  cbn [bitmap_to_u32array fst]. unfold bufbit.
  assert (Hin : 0 ≤ i / 32 < nwords) by lia.
  replace (to_u32_loop buf nwords m nbits 0 0 (S (Z.to_nat nwords)))
    with (to_u32_loop buf nwords m nbits (2 * 0) (Z.min 0 (BITS_TO_LONGS nbits)) (S (Z.to_nat nwords)))
    by (f_equal; lia).
  rewrite to_u32_loop_ok by lia.
  destruct (Z.leb_spec (2 * 0) (i / 32)), (Z.ltb_spec (i / 32) nwords); cbn [andb]; try lia.
  assert (Hlow : ∀ w, Z.testbit (Z.land w (2 ^ 32 - 1)) (i mod 32) = Z.testbit w (i mod 32)).
  { intros w. replace (2 ^ 32 - 1) with (Z.ones 32) by done.
    by rewrite Z.land_spec, Z.ones_spec_low, andb_true_r by lia. }
  destruct (Z.Even_or_Odd (i / 32)) as [[s E]|[s E]]; rewrite E.
  - rewrite to_word_even, Hlow, to_part_bits by lia. replace (s * 64 + i mod 32) with i by lia. done.
  - rewrite to_word_odd, Hlow by lia. unfold shr64. rewrite Z.shiftr_spec, to_part_bits by lia.
    by replace (s * 64 + (i mod 32 + 32)) with i by lia.
Qed.

Lemma to_u32_loop_u32s m nbits nwords fuel buf d s :
  u32s buf → u32s (to_u32_loop buf nwords m nbits d s fuel).
Proof.
  assert (Hset : ∀ b k w, u32s b → u32s (set_word b k (Z.land w (2 ^ 32 - 1)))).
  { intros b k w Hb. apply Forall_alter; [done|]. intros x _ _. rewrite land_mask by lia. apply Z.mod_pos_bound. lia. }
  revert buf d s. induction fuel as [|fuel IH]; intros buf d s Hb; cbn [to_u32_loop]; [done|].
  destruct (d <? nwords); [|done]. destruct (if s <? BITS_TO_LONGS nbits then _ else _) as [part s'].
  destruct (d + 1 <? nwords); apply IH; auto.
Qed.

(** Both copies, and the round trip through the array; what a too short
    array does not hold comes back as 0. *)
Theorem u32array_roundtrip m m' buf nwords nbits :
  u32s buf → 0 ≤ nwords ≤ Z.of_nat (length buf) → 0 ≤ nbits → BITS_TO_LONGS nbits ≤ Z.of_nat (length m') →
  let b := (bitmap_to_u32array buf nwords m nbits).1 in
  (∀ i, 0 ≤ i < 32 * nwords → bufbit b i = (i <? nbits) && test_bit m i)
  ∧ ∀ i, 0 ≤ i → test_bit (bitmap_from_u32array m' nbits b nwords).1 i
      = if i <? nbits then (i <? 32 * nwords) && test_bit m i else test_bit m' i.
Proof.
  intros Hb Hw Hn Hl b. split; [intros; by apply to_u32array_bits|]. intros i Hi.
  rewrite from_u32array_bits; [|by apply to_u32_loop_u32s|lia..].
  destruct (Z.ltb_spec i nbits); [|done]. destruct (Z.ltb_spec i (32 * nwords)); cbn [andb]; [|done].
  unfold b. rewrite to_u32array_bits by lia. by destruct (Z.ltb_spec i nbits); [|lia].
Qed.

(** ** Instances *)
Lemma bitmap_ordinals_witness :
  bitmap_pos_to_ord demo_map 64 128 = 4 ∧ bitmap_ord_to_pos demo_map 4 128 = 64.
Proof.
  destruct (bitmap_ordinals demo_map 128) as (H & _ & _); [apply demo_map_ok|lia|vm_compute; discriminate|].
  destruct (H 64) as [_ E]; [lia|reflexivity|]. split; [vm_compute; reflexivity|].
  replace 4 with (bitmap_pos_to_ord demo_map 64 128) by (vm_compute; reflexivity). exact E.
Defined.

(** Bits 1, 2, 64 and 127 folded modulo the weight 6 of [demo_map] and
    translated onto its set bits. *)
Lemma bitmap_fold_onto_witness :
  ∃ t, bitmap_fold [0; 0] (Some demo_map2) 6 128 = Ok t ∧ t = [22; 0]
    ∧ ∃ i, 0 ≤ i < 128 ∧ test_bit (bitmap_onto [0; 0] (Some t) demo_map 128) i = true.
Proof.
  destruct (bitmap_fold_onto [0; 0] [0; 0] demo_map2 demo_map 128) as (t & Et & _ & H);
    [lia|vm_compute; discriminate|vm_compute; discriminate|apply demo_map2_ok|vm_compute; discriminate
    |apply demo_map_ok|vm_compute; discriminate|vm_compute; reflexivity|].
  exists t. split; [exact Et|]. split.
  - vm_compute in Et. injection Et. intros ->. reflexivity.
  - apply H. exists 64. split; [lia|reflexivity].
Defined.

Lemma bitmap_onto_loop_witness :
  test_bit (bitmap_onto [0; 0] (Some demo_map2) demo_map 128) 1
  = test_bit (onto_loop demo_map [0; 0] demo_map2 demo_map 128) 1.
Proof.
  apply bitmap_onto_loop; [lia|vm_compute; discriminate|apply demo_map_ok|vm_compute; discriminate|lia].
Defined.

Lemma bitmap_remap_bits_witness :
  test_bit (bitmap_remap [0; 0] (Some demo_map2) demo_map demo_map2 128) 127 = true.
Proof.
  destruct (bitmap_remap_bits [0; 0] demo_map2 demo_map demo_map2 128) as [H _];
    [lia|vm_compute; discriminate|apply demo_map2_ok|vm_compute; discriminate|apply demo_map_ok
    |vm_compute; discriminate|apply demo_map2_ok|vm_compute; discriminate|].
  apply H; [lia|]. exists 127. split; [lia|]. split; vm_compute; reflexivity.
Defined.

(** Order 2: bits 0 to 3 of [demo_map] are taken, 4 to 7 are the first free
    region. *)
Lemma bitmap_region_alloc_witness :
  ∃ m', bitmap_find_free_region demo_map 128 2 = Ok (m', 4) ∧ region_found demo_map 128 2 m' 4
    ∧ ∀ i, 0 ≤ i → test_bit (bitmap_release_region m' 4 2) i = test_bit demo_map i.
Proof.
  destruct (bitmap_region_alloc demo_map 128 2) as (m' & r & E & Hf & Hr);
    [apply demo_map_ok|lia|lia|vm_compute; discriminate|].
  assert (r = 4) as -> by (vm_compute in E; injection E; intros <- _; reflexivity).
  exists m'. split; [exact E|]. split; [exact Hf|]. apply Hr. lia.
Defined.

Lemma bitmap_allocate_region_ok_witness :
  bitmap_allocate_region demo_map 0 2 = (demo_map, minus_EBUSY) ∧ (bitmap_allocate_region demo_map 4 2).2 = 0.
Proof.
  destruct (bitmap_allocate_region_ok demo_map 0 2) as [(_ & E & _)|[_ E]];
    [apply demo_map_ok|lia|lia|apply Z.divide_0_r|vm_compute; discriminate|vm_compute in E; discriminate|].
  split; [exact E|vm_compute; reflexivity].
Defined.

Lemma u32array_roundtrip_witness :
  ∀ i, 0 ≤ i < 96 → test_bit (bitmap_from_u32array [0; 0] 96 (bitmap_to_u32array [0; 0; 0] 3 demo_map2 96).1 3).1 i
    = test_bit demo_map2 i.
Proof.
  intros i Hi.
  destruct (u32array_roundtrip demo_map2 [0; 0] [0; 0; 0] 3 96) as [_ H];
    [repeat constructor; lia|simpl; lia|lia|vm_compute; discriminate|].
  rewrite H by lia. destruct (Z.ltb_spec i 96), (Z.ltb_spec i (32 * 3)); [reflexivity|lia|lia|lia].
Defined.
