(* ===== verification/Storage.v ===== *)
(** * Storage: block devices and buffer heads

    [storage/storage_dax.c], [storage/storage_hdd.c], [storage/storage.c] and
    the synchronous part of [io/block_io.c].  Device 1 is persistent memory
    mapped into the process, devices 2 to 4 are block devices opened with
    [O_DIRECT].  A [struct storage_operations] is a record of functions, as
    in the code; a missing member is [None]. *)
From Stdlib Require Import ZArith Lia.
From stdpp Require Import base numbers list gmap strings.
From S2P Require Import Prelude Util Bytes.

(** The bytes of every device. *)
Definition devices : Type := Z → memory.
Definition g_n_devices : Z := 4.
Definition g_root_dev : Z := 1.

Definition set_dev (d : Z) (m : memory) (ds : devices) : devices :=
  λ d', if d' =? d then m else ds d'.

(** [struct buffer_head]: what the synchronous calls use. *)
Record buffer_head : Type := mkBh {
  b_dev : Z;
  b_blocknr : Z;
  b_size : Z;
  b_offset : Z
}.

(** [struct storage_operations]: a read gives the return value and the bytes
    stored to the buffer, a write the return value and the new content. *)
Record storage_operations : Type := mkOps {
  op_read : Z → Z → memory → Z * list Z;
  op_read_unaligned : option (Z → Z → Z → memory → Z * list Z);
  op_write : list Z → Z → Z → memory → outcome (Z * memory);
  op_write_unaligned : option (list Z → Z → Z → Z → memory → outcome (Z * memory))
}.

(** ** Persistent memory *)
Definition dax_read (blockno io_size : Z) (m : memory) : Z * list Z :=
  (io_size, load m (shl64 blockno g_block_size_shift) (Z.to_nat io_size)).
Definition dax_read_unaligned (blockno offset io_size : Z) (m : memory) : Z * list Z :=
  (io_size, load m (u64 (blockno * g_block_size_bytes) + offset) (Z.to_nat io_size)).
Definition dax_write (buf : list Z) (blockno io_size : Z) (m : memory) : outcome (Z * memory) :=
  Ok (io_size, store (shl64 blockno g_block_size_shift) (take (Z.to_nat io_size) buf) m).
Definition dax_write_unaligned (buf : list Z) (blockno offset io_size : Z) (m : memory)
    : outcome (Z * memory) :=
  Ok (io_size, store (shl64 blockno g_block_size_shift + offset) (take (Z.to_nat io_size) buf) m).

Definition storage_dax : storage_operations :=
  mkOps dax_read (Some dax_read_unaligned) dax_write (Some dax_write_unaligned).

(** ** Block devices

    [unit] is the transfer unit [O_DIRECT] asks for: [pread] and [pwrite] of
    another length fail with -1.  [fresh] is the content of the 4 KiB buffer
    [posix_memalign] returned. *)
Section hdd.
Context (unit : Z) (fresh : list Z).

Definition pread (size off : Z) (m : memory) : Z * option (list Z) :=
  if size mod unit =? 0 then (size, Some (load m off (Z.to_nat size))) else (-1, None).
Definition pwrite (buf : list Z) (size off : Z) (m : memory) : Z * memory :=
  if size mod unit =? 0 then (size, store off (take (Z.to_nat size) buf) m) else (-1, m).

Definition hdd_read (blockno io_size : Z) (m : memory) : Z * list Z :=
  let '(ret, d) := pread io_size (shl64 blockno g_block_size_shift) m in
  (ret, default [] d).

Definition hdd_write (buf : list Z) (blockno io_size : Z) (m : memory) : outcome (Z * memory) :=
  Ok (pwrite buf io_size (shl64 blockno g_block_size_shift) m).

(** The head of the block is read, the new bytes are placed behind it and
    the whole buffer is written back. *)
Definition hdd_write_unaligned (buf : list Z) (blockno offset io_size : Z) (m : memory)
    : outcome (Z * memory) :=
  if offset + io_size <=? 4096 then
    let head := match pread offset (shl64 blockno g_block_size_shift) m with
                | (_, Some d) => d
                | (_, None) => take (Z.to_nat offset) fresh
                end in
    let appendbuf := head ++ take (Z.to_nat io_size) buf
                     ++ drop (Z.to_nat (offset + io_size)) fresh in
    let '(_, m) := pwrite appendbuf 4096 (shl64 blockno g_block_size_shift) m in
    Ok (io_size, m)
  else Fault "write past the 4 KiB buffer".

Definition storage_hdd : storage_operations :=
  mkOps hdd_read None hdd_write (Some hdd_write_unaligned).

(** [device_init]: the engine of each device. *)
Definition storage_engine (dev : Z) : option storage_operations :=
  if dev =? g_root_dev then Some storage_dax
  else if (1 <? dev) && (dev <=? g_n_devices) then Some storage_hdd
  else None.

(** [bh_submit_read_sync_IO(bh)]: the bytes stored to [bh->b_data]. *)
Definition bh_submit_read_sync_IO (bh : buffer_head) (ds : devices) : outcome (list Z) :=
  match storage_engine (b_dev bh) with
  | None => Fault "g_bdev"
  | Some e =>
      '(ret, d) ← (if b_offset bh =? 0 then Ok (op_read e (b_blocknr bh) (b_size bh) (ds (b_dev bh)))
                   else match op_read_unaligned e with
                        | None => Fault "read_unaligned is NULL"
                        | Some f => Ok (f (b_blocknr bh) (b_offset bh) (b_size bh) (ds (b_dev bh)))
                        end);
      if ret =? b_size bh then Ok d else Panic "fail to read storage"
  end.

(** [userfs_write(b)] with the bytes at [b->b_data]. *)
Definition userfs_write (b : buffer_head) (data : list Z) (ds : devices) : outcome devices :=
  if b_size b <=? 0 then Panic "b_size > 0"
  else match storage_engine (b_dev b) with
  | None => Fault "g_bdev"
  | Some e =>
      '(ret, m) ← (if b_offset b =? 0 then op_write e data (b_blocknr b) (b_size b) (ds (b_dev b))
                   else match op_write_unaligned e with
                        | None => Fault "write_unaligned is NULL"
                        | Some f => f data (b_blocknr b) (b_offset b) (b_size b) (ds (b_dev b))
                        end);
      if ret =? b_size b then Ok (set_dev (b_dev b) m ds) else Panic "fail to write storage"
  end.

(** ** What a transfer is about *)

(** The first byte address of a buffer head. *)
Definition bh_addr (b : buffer_head) : Z := b_blocknr b * 4096 + b_offset b.

(** Transfers that the engine of the device supports: any on persistent
    memory, block-aligned ones of whole transfer units on the others. *)
Definition bh_ok (b : buffer_head) : Prop :=
  0 ≤ b_blocknr b < 2 ^ 50 ∧ 0 ≤ b_offset b < 4096 ∧ 0 < b_size b < 2 ^ 32 ∧
  (b_dev b = 1 ∨ (1 < b_dev b ≤ g_n_devices ∧ b_offset b = 0 ∧ b_size b mod unit = 0)).

Lemma block_addr n : 0 ≤ n < 2 ^ 50 → shl64 n g_block_size_shift = n * 4096.
Proof. intros. change g_block_size_shift with 12. rewrite shl64_small; lia. Qed.

Lemma bh_read_spec b ds :
  bh_ok b → bh_submit_read_sync_IO b ds = Ok (load (ds (b_dev b)) (bh_addr b) (Z.to_nat (b_size b))).
Proof.
  intros (Hb & Ho & Hs & Hd). unfold bh_submit_read_sync_IO, bh_addr.
  destruct Hd as [-> | (Hd & -> & Hu)]; simpl.
  - destruct (Z.eqb_spec (b_offset b) 0) as [->|].
    + simpl. rewrite Z.eqb_refl, block_addr by done. by rewrite Z.add_0_r.
    + simpl. rewrite Z.eqb_refl. change g_block_size_bytes with 4096. by rewrite u64_small by lia.
  - unfold storage_engine, g_root_dev. destruct (Z.eqb_spec (b_dev b) 1); [lia|].
    destruct (Z.ltb_spec 1 (b_dev b)), (Z.leb_spec (b_dev b) g_n_devices); try lia.
    simpl. unfold hdd_read, pread. rewrite Hu. simpl.
    rewrite Z.eqb_refl, block_addr by done. by rewrite Z.add_0_r.
Qed.

Lemma userfs_write_spec b data ds :
  bh_ok b → Z.of_nat (length data) = b_size b →
  userfs_write b data ds = Ok (set_dev (b_dev b) (store (bh_addr b) data (ds (b_dev b))) ds).
Proof.
  intros (Hb & Ho & Hs & Hd) Hl. unfold userfs_write, bh_addr.
  destruct (Z.leb_spec (b_size b) 0); [lia|].
  assert (Ht : take (Z.to_nat (b_size b)) data = data) by (apply take_ge; lia).
  destruct Hd as [-> | (Hd & -> & Hu)]; simpl.
  - destruct (Z.eqb_spec (b_offset b) 0) as [->|]; simpl;
      rewrite Z.eqb_refl, block_addr by done; rewrite Ht, ?Z.add_0_r; done.
  - unfold storage_engine, g_root_dev. destruct (Z.eqb_spec (b_dev b) 1); [lia|].
    destruct (Z.ltb_spec 1 (b_dev b)), (Z.leb_spec (b_dev b) g_n_devices); try lia.
    simpl. unfold hdd_write, pwrite. rewrite Hu. simpl.
    rewrite Z.eqb_refl, block_addr by done. by rewrite Ht, Z.add_0_r.
Qed.

(** A supported transfer through a buffer head is written and read back
    identically, and changes no other byte of any device. *)
Theorem write_read_back b data ds :
  bh_ok b → Z.of_nat (length data) = b_size b →
  ∃ ds', userfs_write b data ds = Ok ds' ∧ bh_submit_read_sync_IO b ds' = Ok data
    ∧ ∀ d a, (d ≠ b_dev b ∨ a < bh_addr b ∨ bh_addr b + b_size b ≤ a) → ds' d a = ds d a.
Proof.
  intros Hok Hl. eexists. split; [by apply userfs_write_spec|]. split.
  - rewrite bh_read_spec by done. unfold set_dev. rewrite Z.eqb_refl.
    replace (Z.to_nat (b_size b)) with (length data) by lia. by rewrite load_store_same.
  - intros d a H. unfold set_dev. destruct (Z.eqb_spec d (b_dev b)) as [->|]; [|done].
    apply store_outside. lia.
Qed.

(** An unaligned write to a block device replaces the bytes of the block
    behind the written ones by the content of a fresh buffer. *)
Theorem hdd_write_unaligned_tail b data ds a :
  1 < b_dev b ≤ g_n_devices → 0 ≤ b_blocknr b < 2 ^ 50 → 0 < b_offset b → 0 < b_size b →
  b_offset b + b_size b ≤ 4096 → 0 < unit → 4096 mod unit = 0 → length fresh = 4096%nat →
  Z.of_nat (length data) = b_size b → b_offset b + b_size b ≤ a < 4096 →
  ∃ ds', userfs_write b data ds = Ok ds'
    ∧ ds' (b_dev b) (b_blocknr b * 4096 + a) = fresh !!! Z.to_nat a.
Proof.
  intros Hd Hb Ho Hs Hos Hu Hu' Hfr Hl Ha. unfold userfs_write.
  destruct (Z.leb_spec (b_size b) 0); [lia|].
  unfold storage_engine, g_root_dev. destruct (Z.eqb_spec (b_dev b) 1); [lia|].
  destruct (Z.ltb_spec 1 (b_dev b)), (Z.leb_spec (b_dev b) g_n_devices); try lia. simpl.
  destruct (Z.eqb_spec (b_offset b) 0); [lia|]. unfold hdd_write_unaligned.
  destruct (Z.leb_spec (b_offset b + b_size b) 4096); [|lia].
  set (head := match pread _ _ _ with (_, Some d) => d | _ => _ end).
  assert (Hh : length head = Z.to_nat (b_offset b)).
  { unfold head, pread. destruct (_ =? 0).
    - unfold load. by rewrite length_fmap, length_seq.
    - rewrite length_take. lia. }
  unfold pwrite. rewrite Hu'. simpl. rewrite Z.eqb_refl. eexists. split; [done|].
  unfold set_dev. rewrite Z.eqb_refl, block_addr by done.
  assert (Hlen : length (head ++ take (Z.to_nat (b_size b)) data
      ++ drop (Z.to_nat (b_offset b + b_size b)) fresh) = 4096%nat).
  { rewrite !length_app, length_take, length_drop. lia. }
  rewrite (take_ge (head ++ _)) by lia. unfold store. rewrite Hlen.
  destruct (Z.leb_spec (b_blocknr b * 4096) (b_blocknr b * 4096 + a)); [|lia].
  destruct (Z.ltb_spec (b_blocknr b * 4096 + a) (b_blocknr b * 4096 + Z.of_nat 4096)); [|lia]. simpl.
  replace (Z.to_nat (b_blocknr b * 4096 + a - b_blocknr b * 4096)) with (Z.to_nat a) by lia.
  rewrite !list_lookup_total_alt. f_equal.
  rewrite lookup_app_r by lia. rewrite lookup_app_r by (rewrite length_take; lia).
  rewrite lookup_drop. f_equal. rewrite length_take. lia.
Qed.
End hdd.

(** ** Instances *)

(** 512 bytes to block 3 of the first block device. *)
Lemma write_read_back_witness :
  ∃ ds', userfs_write 512 [] (mkBh 2 3 512 0) (replicate 512 7) (λ _ _, 0) = Ok ds'
    ∧ bh_submit_read_sync_IO 512 [] (mkBh 2 3 512 0) ds' = Ok (replicate 512 7)
    ∧ ∀ d a, (d ≠ 2 ∨ a < 12288 ∨ 12288 + 512 ≤ a) → ds' d a = 0.
Proof.
  apply (write_read_back 512 [] (mkBh 2 3 512 0) (replicate 512 7) (λ _ _, 0)); [|done].
  repeat split; try (vm_compute; done). right. done.
Defined.

(** 8 bytes at offset 100 of a block. *)
Lemma hdd_write_unaligned_tail_witness :
  ∃ ds', userfs_write 512 (replicate 4096 9) (mkBh 2 3 8 100) (replicate 8 7) (λ _ _, 0) = Ok ds'
    ∧ ds' 2 (3 * 4096 + 200) = replicate 4096 9 !!! 200%nat.
Proof.
  apply (hdd_write_unaligned_tail 512 (replicate 4096 9) (mkBh 2 3 8 100) (replicate 8 7) (λ _ _, 0) 200);
    vm_compute; done.
Defined.
