(* ===== verification/Inode.v ===== *)
(** * Inode: in-memory inodes, their cache and their block cache

    [struct inode] (without the timestamps and the locks), the inode hash
    table and the per-inode block cache of [filesystem/fs.h], and the inode
    operations of [filesystem/fs.c].  An inode is addressed by its number in
    the hash table.  Its block cache is a hash table of pointers to
    [struct fcache_block]s; the blocks and their data are on the heap and on
    one list for all inodes, the read cache.  [fcache_del_all] destroys the
    hash table, after which every access to it is a fault. *)
From Stdlib Require Import ZArith Lia.
From stdpp Require Import base numbers list gmap strings.
From S2P Require Import Prelude Util RbTree BlkTree.

(** [struct fcache_block]; [fc_data] is the address of the data. *)
Record fcache_block : Type := mkFc {
  fc_key : Z;
  fc_log_addr : Z;
  fc_cached : bool;
  fc_size : Z;
  fc_data : nat;
  fc_inum : Z
}.

(** The read cache of all inodes: the [fcache_block]s and the data buffers
    on the heap, the next address, and [g_fcache_head], the list with the
    most recently used block first and the number of 4 KiB blocks. *)
Record rcache : Type := mkRc {
  rc_objs : gmap nat fcache_block;
  rc_bufs : gmap nat (list Z);
  rc_next : nat;
  rc_lru : list nat;
  rc_n : Z
}.
Definition set_obj (p : nat) (b : fcache_block) (g : rcache) : rcache :=
  mkRc (<[p := b]> (rc_objs g)) (rc_bufs g) (rc_next g) (rc_lru g) (rc_n g).
Definition set_buf (p : nat) (d : list Z) (g : rcache) : rcache :=
  mkRc (rc_objs g) (<[p := d]> (rc_bufs g)) (rc_next g) (rc_lru g) (rc_n g).
Definition set_lru (l : list nat) (g : rcache) : rcache :=
  mkRc (rc_objs g) (rc_bufs g) (rc_next g) l (rc_n g).
Definition set_rc_n (n : Z) (g : rcache) : rcache :=
  mkRc (rc_objs g) (rc_bufs g) (rc_next g) (rc_lru g) n.

(** A load through a pointer to a block. *)
Definition fcache_at (p : nat) (g : rcache) : outcome fcache_block :=
  match rc_objs g !! p with Some b => Ok b | None => Fault "fcache_block was freed" end.

(** [list_del(&b->l)] and [userfs_free(b->data)]. *)
Definition lru_del (p : nat) (g : rcache) : rcache := set_lru (filter (λ q, q ≠ p) (rc_lru g)) g.
Definition free_data (p : nat) (g : rcache) : outcome rcache :=
  match rc_bufs g !! p with
  | Some _ => Ok (mkRc (rc_objs g) (delete p (rc_bufs g)) (rc_next g) (rc_lru g) (rc_n g))
  | None => Fault "data was freed"
  end.

Definition I_BUSY : Z := 1.
Definition I_VALID : Z := 2.
Definition I_DELETING : Z := 8.
Definition T_DIR : Z := 1.
Definition T_FILE : Z := 2.
Definition T_DEV : Z := 3.

(** The write positions of a file: the device and the byte addresses where
    the next append ([ssdoff]) and the next overwrite ([rwoff]) go, the
    starts of the 2 MiB blocks they are in, and the device counter. *)
Record cursor : Type := mkCur {
  c_devid : Z; c_nvmoff : Z; c_ssdoff : Z; c_nvmblock : Z; c_usednvms : Z;
  c_rwoff : Z; c_rwsoff : Z; c_rwnvmsize : Z; c_wrthdnum : Z
}.
Definition set_devid (d : Z) (c : cursor) : cursor :=
  mkCur d (c_nvmoff c) (c_ssdoff c) (c_nvmblock c) (c_usednvms c) (c_rwoff c) (c_rwsoff c)
    (c_rwnvmsize c) (c_wrthdnum c).

Record inode : Type := mkInode {
  i_inum : Z; i_itype : Z; i_nlink : Z; i_size : Z; i_ksize : Z; i_flags : Z; i_ref : Z;
  i_height : Z; i_root : Z;
  i_cur : cursor;
  i_blktree : blktree;
  i_fcache : option (gmap Z nat);
  i_n_fcache : Z
}.

Definition set_ref (r : Z) (i : inode) : inode :=
  mkInode (i_inum i) (i_itype i) (i_nlink i) (i_size i) (i_ksize i) (i_flags i) r (i_height i)
    (i_root i) (i_cur i) (i_blktree i) (i_fcache i) (i_n_fcache i).
Definition set_flags (fl : Z) (i : inode) : inode :=
  mkInode (i_inum i) (i_itype i) (i_nlink i) (i_size i) (i_ksize i) fl (i_ref i) (i_height i)
    (i_root i) (i_cur i) (i_blktree i) (i_fcache i) (i_n_fcache i).
Definition set_isize (sz : Z) (i : inode) : inode :=
  mkInode (i_inum i) (i_itype i) (i_nlink i) sz (i_ksize i) (i_flags i) (i_ref i) (i_height i)
    (i_root i) (i_cur i) (i_blktree i) (i_fcache i) (i_n_fcache i).
Definition set_itype (t : Z) (i : inode) : inode :=
  mkInode (i_inum i) t (i_nlink i) (i_size i) (i_ksize i) (i_flags i) (i_ref i) (i_height i)
    (i_root i) (i_cur i) (i_blktree i) (i_fcache i) (i_n_fcache i).
Definition set_fcache (f : option (gmap Z nat)) (n : Z) (i : inode) : inode :=
  mkInode (i_inum i) (i_itype i) (i_nlink i) (i_size i) (i_ksize i) (i_flags i) (i_ref i)
    (i_height i) (i_root i) (i_cur i) (i_blktree i) f n.
Definition set_index (root height : Z) (t : blktree) (i : inode) : inode :=
  mkInode (i_inum i) (i_itype i) (i_nlink i) (i_size i) (i_ksize i) (i_flags i) (i_ref i) height
    root (i_cur i) t (i_fcache i) (i_n_fcache i).
Definition set_tree (t : blktree) (i : inode) : inode :=
  mkInode (i_inum i) (i_itype i) (i_nlink i) (i_size i) (i_ksize i) (i_flags i) (i_ref i)
    (i_height i) (i_root i) (i_cur i) t (i_fcache i) (i_n_fcache i).
Definition set_cur (c : cursor) (i : inode) : inode :=
  mkInode (i_inum i) (i_itype i) (i_nlink i) (i_size i) (i_ksize i) (i_flags i) (i_ref i)
    (i_height i) (i_root i) c (i_blktree i) (i_fcache i) (i_n_fcache i).

(** ** The block cache of an inode *)

(** [fcache_find(inode, key)]. *)
Definition fcache_find (i : inode) (key : Z) : outcome (option nat) :=
  match i_fcache i with
  | None => Fault "fcache_hash was destroyed"
  | Some h => Ok (h !! key)
  end.

(** [fcache_alloc_add(inode, key, log_addr)]. *)
Definition fcache_alloc_add (i : inode) (key log_addr : Z) (g : rcache) : outcome (nat * inode * rcache) :=
  match i_fcache i with
  | None => Fault "fcache_hash was destroyed"
  | Some h =>
      let p := rc_next g in
      Ok (p, set_fcache (Some (<[key := p]> h)) (u32 (i_n_fcache i + 1)) i,
          mkRc (<[p := mkFc key log_addr false 0 0 (i_inum i)]> (rc_objs g)) (rc_bufs g) (S p)
            (rc_lru g) (rc_n g))
  end.

(** [fcache_del(inode, fc_block)]: the table is searched for the key of the
    block. *)
Definition fcache_del (i : inode) (b : fcache_block) : outcome inode :=
  match i_fcache i with
  | None => Fault "fcache_hash was destroyed"
  | Some h =>
      match h !! fc_key b with
      | Some _ => Ok (set_fcache (Some (delete (fc_key b) h)) (u32 (i_n_fcache i - 1)) i)
      | None => Ok i
      end
  end.

(** The loop of [fcache_del_all] over the blocks of the table. *)
Fixpoint del_blocks (ps : list nat) (g : rcache) : outcome rcache :=
  match ps with
  | [] => Ok g
  | p :: ps =>
      b ← fcache_at p g;
      g ← (if fc_cached b then free_data (fc_data b) (lru_del p g) else Ok g);
      del_blocks ps g
  end.

(** [fcache_del_all(inode)]: the table itself is freed. *)
Definition fcache_del_all (i : inode) (g : rcache) : outcome (inode * rcache) :=
  match i_fcache i with
  | None => Fault "fcache_hash was destroyed"
  | Some h =>
      g ← del_blocks (map_to_list h).*2 g;
      Ok (set_fcache None (i_n_fcache i) i, g)
  end.

(** ** Operations on one inode *)
Definition ilock (i : inode) : inode := set_flags (Z.lor (i_flags i) I_BUSY) i.
Definition iunlock (i : inode) : inode := set_flags (Z.land (i_flags i) (u8 (Z.lnot I_BUSY))) i.
Definition iput (i : inode) : inode := set_ref (i_ref i - 1) i.

(** [userfs_free(b)] of a block; its data stays allocated. *)
Definition free_block (p : nat) (g : rcache) : rcache :=
  mkRc (delete p (rc_objs g)) (rc_bufs g) (rc_next g) (rc_lru g) (rc_n g).

(** The body of the loop of [itrunc]: the cached block with this key is
    dropped. *)
Definition itrunc_drop (key : Z) (i : inode) (g : rcache) : outcome (inode * rcache) :=
  p ← fcache_find i key;
  match p with
  | Some p =>
      b ← fcache_at p g;
      let g := if fc_cached b then lru_del p g else g in
      i ← fcache_del i b;
      Ok (i, free_block p g)
  | None => Ok (i, g)
  end.

(** The loop of [itrunc]: [size] is unsigned and goes down in blocks. *)
Fixpoint itrunc_loop (size : Z) (i : inode) (g : rcache) (fuel : nat) : outcome (inode * rcache) :=
  match fuel with
  | O => NoFuel
  | S fuel =>
      if 0 <? size then
        '(i, g) ← itrunc_drop (shr64 size g_block_size_shift) i g;
        itrunc_loop (u64 (size - g_block_size_bytes)) i g fuel
      else Ok (i, g)
  end.

(** [itrunc(ip, length)]. *)
Definition itrunc (i : inode) (length : Z) (g : rcache) (fuel : nat) : outcome (inode * rcache) :=
  if negb (i_itype i =? T_FILE) then Panic "ip->itype == T_FILE"
  else
    '(i, g) ← (if length =? 0 then fcache_del_all i g
               else if length <? i_size i then itrunc_loop (i_size i) i g fuel
               else Ok (i, g));
    Ok (set_isize length i, g).

(** [idealloc(inode)]: [RB_EMPTY_ROOT] only tests the root. *)
Definition idealloc (i : inode) (g : rcache) : outcome (inode * rcache) :=
  if negb (i_ref i <? 2) then Panic "inode->i_ref < 2"
  else
    let dead := (i_ref i =? 1) && negb (Z.land (i_flags i) I_VALID =? 0) && (i_nlink i =? 0) in
    if dead && negb (Z.land (i_flags i) I_BUSY =? 0) then Panic "Inode must not be busy!"
    else
      let i := if dead then set_flags (Z.land (i_flags i) (u8 (Z.lnot I_BUSY))) i else i in
      let i := ilock i in
      let i := set_isize 0 i in
      let i := set_flags (Z.lor (i_flags i) I_DELETING) i in
      let i := set_itype 0 i in
      '(i, g) ← fcache_del_all i g;
      Ok (iunlock i, g).

(** ** The inode cache *)
Abbreviation icache := (gmap Z inode).
Definition icache_find (inum : Z) (c : icache) : option inode := c !! inum.
Definition icache_add (i : inode) (c : icache) : icache := <[i_inum i := i]> c.
Definition icache_del (i : inode) (c : icache) : icache := delete (i_inum i) c.

(** [struct tmpinode], what the kernel returns for an inode number. *)
Record tmpinode : Type := mkTmp {
  t_mode : Z; t_nlink : Z; t_size : Z; t_height : Z; t_root : Z; t_nvmblock : Z; t_blkoff : Z
}.

(** [S_ISDIR] and [S_ISREG]. *)
Definition itype_of_mode (m : Z) : Z :=
  if Z.land m 61440 =? 16384 then T_DIR else if Z.land m 61440 =? 32768 then T_FILE else T_DEV.

Section fetch.
(** [syscall(336, inum, tinode)]: [None] when it fails. *)
Context (fetch : Z → option tmpinode).

(** [read_ondisk_inode(inum)]; [junk] is the value of the fields [malloc]
    left unset. *)
Definition read_ondisk_inode (inum junk : Z) : outcome inode :=
  match fetch inum with
  | None => Panic "syscall fetch inode error"
  | Some t =>
      let devid := u8 (shr64 (t_blkoff t) 62) in
      let '(nvmoff, ssdoff, dev) :=
        if devid =? 0 then (t_blkoff t, t_blkoff t, junk)
        else (0, Z.land (t_blkoff t) (2 ^ 62 - 1), devid) in
      Ok (mkInode inum (itype_of_mode (u16 (t_mode t))) (u8 (t_nlink t)) (t_size t) (t_size t)
            I_VALID junk (t_height t) (t_root t)
            (mkCur dev nvmoff ssdoff (t_nvmblock t) (Align.ALIGN_FLOOR ssdoff g_lblock_size_bytes)
               junk junk junk junk)
            RB_ROOT None junk)
  end.

(** [iget(inum)]: [None] for an inode that is being deleted. *)
Definition iget (inum junk : Z) (c : icache) : outcome (option inode * icache) :=
  match icache_find inum c with
  | Some i =>
      if negb (Z.land (i_flags i) I_VALID =? 0) && negb (Z.land (i_flags i) I_DELETING =? 0)
      then Ok (None, c)
      else let i := set_ref (i_ref i + 1) i in Ok (Some i, <[inum := i]> c)
  | None =>
      i ← read_ondisk_inode inum junk;
      let i := mkInode (i_inum i) (i_itype i) (i_nlink i) (i_size i) (i_ksize i) (i_flags i) 1
                 (i_height i) (i_root i) (set_devid 0 (i_cur i)) RB_ROOT (Some ∅) 0 in
      Ok (Some i, icache_add i c)
  end.
End fetch.

(** ** Properties *)

(** Cached inodes are under their number; valid ones have a positive count. *)
Definition icache_ok (c : icache) : Prop := ∀ n i, c !! n = Some i → i_inum i = n.

Lemma icache_add_ok i c : icache_ok c → icache_ok (icache_add i c).
Proof.
  intros Hc n j Hj. unfold icache_add in Hj.
  destruct (decide (n = i_inum i)) as [->|].
  - rewrite lookup_insert_eq in Hj. by simplify_eq.
  - rewrite lookup_insert_ne in Hj by done. by apply Hc.
Qed.

(** iget of a cached live inode takes one reference and leaves every
    other inode alone, and iput gives the reference back. *)
Theorem iget_cached fetch inum junk c i :
  icache_ok c → c !! inum = Some i → Z.land (i_flags i) I_DELETING = 0 →
  ∃ c', iget fetch inum junk c = Ok (Some (set_ref (i_ref i + 1) i), c') ∧ icache_ok c'
    ∧ c' !! inum = Some (set_ref (i_ref i + 1) i)
    ∧ (∀ n, n ≠ inum → c' !! n = c !! n)
    ∧ iput (set_ref (i_ref i + 1) i) = i.
Proof.
  intros Hc Hi Hd. unfold iget, icache_find. rewrite Hi, Hd.
  rewrite andb_false_r. eexists. split; [done|]. split.
  - intros n j Hj. destruct (decide (n = inum)) as [->|].
    + rewrite lookup_insert_eq in Hj. simplify_eq. by apply (Hc inum i).
    + rewrite lookup_insert_ne in Hj by done. by apply Hc.
  - split; [by rewrite lookup_insert_eq|]. split.
    + intros n Hn. by rewrite lookup_insert_ne.
    + destruct i. unfold iput, set_ref. simpl. f_equal. lia.
Qed.

(** iget of an unknown number caches the inode of the kernel under its
    number with one reference, its size, an empty index and an empty block
    cache; the device decoded from the kernel's write position is reset to 0. *)
Theorem iget_fetch fetch inum junk c t :
  icache_ok c → c !! inum = None → fetch inum = Some t →
  ∃ i, iget fetch inum junk c = Ok (Some i, <[inum := i]> c) ∧ icache_ok (<[inum := i]> c)
    ∧ i_inum i = inum ∧ i_ref i = 1 ∧ i_size i = t_size t ∧ i_ksize i = t_size t
    ∧ i_blktree i = RB_ROOT ∧ i_fcache i = Some ∅ ∧ c_devid (i_cur i) = 0.
Proof.
  intros Hc Hn Hf. unfold iget, icache_find, read_ondisk_inode. rewrite Hn, Hf.
  unfold icache_add.
  destruct (if u8 (shr64 (t_blkoff t) 62) =? 0 then _ else _) as [[nvm ssd] dev]. simpl.
  eexists. split; [done|]. split; [|done].
  intros n j Hj. destruct (decide (n = inum)) as [->|].
  - rewrite lookup_insert_eq in Hj. by simplify_eq.
  - rewrite lookup_insert_ne in Hj by done. by apply Hc.
Qed.

(** A deleted inode is not handed out. *)
Lemma iget_deleting fetch inum junk c i :
  c !! inum = Some i → Z.land (i_flags i) I_VALID ≠ 0 → Z.land (i_flags i) I_DELETING ≠ 0 →
  iget fetch inum junk c = Ok (None, c).
Proof.
  intros Hi Hv Hd. unfold iget, icache_find. rewrite Hi.
  destruct (Z.eqb_spec (Z.land (i_flags i) I_VALID) 0); [done|].
  by destruct (Z.eqb_spec (Z.land (i_flags i) I_DELETING) 0).
Qed.

(** The table of an inode is consistent with the read cache: its pointers
    are to distinct blocks with distinct buffers, each under its key. *)
Record fcache_live (h : gmap Z nat) (g : rcache) : Prop := {
  fl_obj k p : h !! k = Some p → ∃ b, rc_objs g !! p = Some b ∧ fc_key b = k
    ∧ (fc_cached b = true → is_Some (rc_bufs g !! fc_data b));
  fl_data k1 k2 p1 p2 b1 b2 : h !! k1 = Some p1 → h !! k2 = Some p2 →
    rc_objs g !! p1 = Some b1 → rc_objs g !! p2 = Some b2 →
    fc_cached b1 = true → fc_cached b2 = true → fc_data b1 = fc_data b2 → k1 = k2
}.

Lemma fcache_live_empty g : fcache_live ∅ g.
Proof. split; intros *; rewrite lookup_empty; done. Qed.

Lemma fcache_live_ptr h g k1 k2 p :
  fcache_live h g → h !! k1 = Some p → h !! k2 = Some p → k1 = k2.
Proof.
  intros Hl (b & Hb & <- & _)%(fl_obj _ _ Hl) (b' & Hb' & <- & _)%(fl_obj _ _ Hl). congruence.
Qed.

(** Dropping the block of one key keeps the others. *)
Lemma fcache_live_drop h g k p b :
  fcache_live h g → h !! k = Some p → rc_objs g !! p = Some b →
  fcache_live (delete k h) (free_block p (if fc_cached b then lru_del p g else g)).
Proof.
  intros Hl Hk Hb. set (g' := free_block p (if fc_cached b then lru_del p g else g)).
  assert (Ho : ∀ k' p', delete k h !! k' = Some p' →
    h !! k' = Some p' ∧ rc_objs g' !! p' = rc_objs g !! p').
  { intros k' p' [Hne Hk']%lookup_delete_Some. split; [done|].
    assert (p ≠ p') by (intros <-; by apply Hne, (fcache_live_ptr h g _ _ p)).
    unfold g'. destruct (fc_cached b); cbn; by rewrite lookup_delete_ne. }
  assert (Hbufs : rc_bufs g' = rc_bufs g) by (unfold g'; by destruct (fc_cached b)).
  split.
  - intros k' p' [Hk' E]%Ho. rewrite E, Hbufs. by apply (fl_obj _ _ Hl).
  - intros k1 k2 p1 p2 b1 b2 [H1 E1]%Ho [H2 E2]%Ho. rewrite E1, E2. by apply (fl_data _ _ Hl).
Qed.

(** Freeing the data of one cached block keeps the blocks of other keys. *)
Lemma fcache_live_free h g k p b d :
  fcache_live h g → h !! k = Some p → rc_objs g !! p = Some b → fc_cached b = true →
  rc_bufs g !! fc_data b = Some d →
  ∃ g', free_data (fc_data b) (lru_del p g) = Ok g' ∧ fcache_live (delete k h) g'
    ∧ rc_objs g' = rc_objs g ∧ rc_bufs g' = delete (fc_data b) (rc_bufs g)
    ∧ rc_lru g' = filter (λ q, q ≠ p) (rc_lru g).
Proof.
  intros Hl Hk Hb Hc Hd. unfold free_data. cbn. rewrite Hd. eexists. split; [done|].
  split; [|done]. split; cbn.
  - intros k' p' [Hne Hk']%lookup_delete_Some.
    destruct (fl_obj _ _ Hl k' p' Hk') as (b' & Hb' & Hkey & Hbuf). exists b'.
    split; [done|]. split; [done|]. intros Hc'. rewrite lookup_delete_ne; [by apply Hbuf|].
    intros E. by apply Hne, (fl_data _ _ Hl k k' p p' b b').
  - intros k1 k2 p1 p2 b1 b2 [_ H1]%lookup_delete_Some [_ H2]%lookup_delete_Some.
    by apply (fl_data _ _ Hl).
Qed.

(** The loop of [fcache_del_all] ends with the data of the blocks freed and
    the blocks off the list. *)
Lemma del_blocks_ok l : ∀ h g,
  NoDup l.*1 → fcache_live h g → (∀ k p, (k, p) ∈ l → h !! k = Some p) →
  ∃ g', del_blocks l.*2 g = Ok g' ∧ rc_objs g' = rc_objs g
    ∧ (∀ k p b, (k, p) ∈ l → rc_objs g !! p = Some b → fc_cached b = true →
         rc_bufs g' !! fc_data b = None ∧ p ∉ rc_lru g')
    ∧ (∀ q, rc_bufs g !! q = None → rc_bufs g' !! q = None)
    ∧ (∀ q, q ∉ rc_lru g → q ∉ rc_lru g').
Proof.
  induction l as [|[k p] l IH]; intros h g Hnd Hl Hin.
  { exists g. split; [done|]. split; [done|]. split; [|done]. intros ? ? ? []%elem_of_nil. }
  apply NoDup_cons in Hnd as [Hk Hnd].
  assert (Hp : h !! k = Some p) by (apply Hin; by left).
  destruct (fl_obj _ _ Hl k p Hp) as (b & Hb & _ & Hbuf).
  assert (Hsub : ∀ k' p', (k', p') ∈ l → delete k h !! k' = Some p').
  { intros k' p' Hi. rewrite lookup_delete_ne; [apply Hin; by right|].
    intros ->. apply Hk. by apply (list_elem_of_fmap_2' fst l (k', p')). }
  cbn [fmap list_fmap snd del_blocks]. unfold fcache_at. rewrite Hb. cbn [mbind outcome_bind].
  destruct (fc_cached b) eqn:Hc.
  - destruct (Hbuf eq_refl) as [d Hd].
    destruct (fcache_live_free h g k p b d) as (g1 & E & Hl1 & Ho1 & Hb1 & Hlru1); [done..|].
    rewrite E. cbn. destruct (IH (delete k h) g1) as (g' & E' & Ho' & Hfree & Hbn & Hln); [done..|].
    exists g'. split; [done|]. split; [congruence|]. split; [|split].
    + intros k' p' b' [[= -> ->]|Hi]%elem_of_cons Hb' Hc'.
      * rewrite Hb in Hb'. simplify_eq. split; [apply Hbn; by rewrite Hb1, lookup_delete_eq|].
        apply Hln. rewrite Hlru1. intros [? _]%list_elem_of_filter. done.
      * apply (Hfree k'); [done|by rewrite Ho1|done].
    + intros q Hq. apply Hbn. rewrite Hb1. by apply lookup_delete_None; right.
    + intros q Hq. apply Hln. rewrite Hlru1. by intros [_ ?]%list_elem_of_filter.
  - destruct (IH (delete k h) g) as (g' & E' & Ho' & Hfree & Hbn & Hln); [done|..].
    { split; [intros k' p' [_ ?]%lookup_delete_Some; by apply (fl_obj _ _ Hl)|].
      intros k1 k2 p1 p2 b1 b2 [_ H1]%lookup_delete_Some [_ H2]%lookup_delete_Some.
      by apply (fl_data _ _ Hl). }
    { done. }
    exists g'. split; [done|]. split; [done|]. split; [|done].
    intros k' p' b' [[= -> ->]|Hi]%elem_of_cons Hb' Hc'; [congruence|by apply (Hfree k')].
Qed.

Lemma fcache_del_all_ok i g h :
  i_fcache i = Some h → fcache_live h g →
  ∃ g', fcache_del_all i g = Ok (set_fcache None (i_n_fcache i) i, g') ∧ rc_objs g' = rc_objs g
    ∧ ∀ k p b, h !! k = Some p → rc_objs g !! p = Some b → fc_cached b = true →
        rc_bufs g' !! fc_data b = None ∧ p ∉ rc_lru g'.
Proof.
  intros Hf Hl. unfold fcache_del_all. rewrite Hf.
  destruct (del_blocks_ok (map_to_list h) h g) as (g' & -> & Ho & Hfree & _).
  - apply NoDup_fst_map_to_list.
  - done.
  - intros k p. apply elem_of_map_to_list.
  - exists g'. split; [done|]. split; [done|]. intros k p b Hk. by apply (Hfree k), elem_of_map_to_list.
Qed.

(** idealloc of an inode that is not busy marks it deleted, sets size
    and type to 0, destroys its block cache, frees the cached data and takes
    its blocks off the list, but leaves the block index: RB_EMPTY_ROOT only
    tests the root. *)
Theorem idealloc_ok i g h :
  i_ref i < 2 → i_fcache i = Some h → fcache_live h g → Z.land (i_flags i) I_BUSY = 0 →
  ∃ i' g', idealloc i g = Ok (i', g') ∧ Z.testbit (i_flags i') 3 = true ∧ i_size i' = 0
    ∧ i_itype i' = 0 ∧ i_blktree i' = i_blktree i ∧ i_fcache i' = None
    ∧ ∀ k p b, h !! k = Some p → rc_objs g !! p = Some b → fc_cached b = true →
        rc_bufs g' !! fc_data b = None ∧ p ∉ rc_lru g'.
Proof.
  intros Hr Hf Hl Hb. unfold idealloc.
  destruct (Z.ltb_spec (i_ref i) 2); [|lia]. cbn [negb].
  rewrite Hb. cbn [Z.eqb negb]. rewrite andb_false_r.
  match goal with |- context [if ?c then set_flags ?f i else i] =>
    set (j := if c then set_flags f i else i) end.
  assert (Hj : i_fcache j = Some h ∧ i_blktree j = i_blktree i) by (unfold j; by case_if).
  destruct Hj as [Hj1 Hj2]. clearbody j.
  match goal with |- context [fcache_del_all ?x g] => destruct (fcache_del_all_ok x g h Hj1 Hl)
    as (g' & -> & _ & Hfree) end.
  eexists _, g'. split; [reflexivity|]. split; [|by simpl].
  change (Z.testbit (Z.land (Z.lor (Z.lor (i_flags j) I_BUSY) I_DELETING) (u8 (Z.lnot I_BUSY))) 3 = true).
  rewrite Z.land_spec, !Z.lor_spec. by rewrite !orb_true_r.
Qed.

(** [itrunc] to 0 leaves an inode whose block cache cannot be used. *)
Lemma itrunc_zero_destroys i g h fuel :
  i_itype i = T_FILE → i_fcache i = Some h → fcache_live h g →
  ∃ i' g', itrunc i 0 g fuel = Ok (i', g') ∧ i_size i' = 0
    ∧ ∀ key, fcache_find i' key = Fault "fcache_hash was destroyed".
Proof.
  intros Ht Hf Hl. unfold itrunc. rewrite Ht. cbn [Z.eqb negb].
  destruct (fcache_del_all_ok i g h Hf Hl) as (g' & E & _). simpl. rewrite E.
  eexists _, g'. by split.
Qed.

(** A table that can be used. *)
Definition cache_ready (i : inode) (g : rcache) : Prop :=
  ∃ h, i_fcache i = Some h ∧ fcache_live h g.

Lemma itrunc_drop_ok key i g :
  cache_ready i g → ∃ i' g', itrunc_drop key i g = Ok (i', g') ∧ cache_ready i' g'
    ∧ i_size i' = i_size i
    ∧ fcache_find i' key = Ok None
    ∧ ∀ k, k ≠ key → fcache_find i' k = fcache_find i k.
Proof.
  intros (h & Hf & Hl). unfold itrunc_drop, fcache_find. rewrite Hf. cbn [mbind outcome_bind].
  destruct (h !! key) as [p|] eqn:Ek.
  - destruct (fl_obj _ _ Hl key p Ek) as (b & Hb & <- & _). unfold fcache_at. rewrite Hb.
    cbn [mbind outcome_bind]. unfold fcache_del. rewrite Hf, Ek. cbn [mbind outcome_bind].
    eexists _, _. split; [done|]. split.
    + eexists. split; [done|]. by apply fcache_live_drop.
    + split; [done|]. cbn. split; [by rewrite lookup_delete_eq|].
      intros k Hk. by rewrite lookup_delete_ne.
  - exists i, g. split; [done|]. split; [by exists h|]. split; [done|]. rewrite Hf, Ek. done.
Qed.

Lemma itrunc_loop_step size i g fuel :
  0 < size → cache_ready i g →
  ∃ i' g', cache_ready i' g'
    ∧ itrunc_loop size i g (S fuel) = itrunc_loop (u64 (size - g_block_size_bytes)) i' g' fuel.
Proof.
  intros Hs Hi. cbn [itrunc_loop]. destruct (Z.ltb_spec 0 size); [|lia].
  destruct (itrunc_drop_ok (shr64 size g_block_size_shift) i g Hi) as (i' & g' & -> & Hi' & _).
  by exists i', g'.
Qed.

(** The loop never ends from a size that is not a multiple of the block
    size: the unsigned counter steps over 0. *)
Lemma itrunc_loop_diverges fuel : ∀ size i g,
  0 ≤ size < 2 ^ 64 → size mod 4096 ≠ 0 → cache_ready i g → itrunc_loop size i g fuel = NoFuel.
Proof.
  induction fuel as [|fuel IH]; intros size i g Hs Hm Hi; [done|].
  assert (size ≠ 0) by (intros ->; done).
  destruct (itrunc_loop_step size i g fuel ltac:(lia) Hi) as (i' & g' & Hi' & ->).
  apply IH; [apply u64_range| |done].
  change g_block_size_bytes with 4096. unfold u64. rewrite Z.mod_mod_divide by (by exists (2 ^ 52)).
  by replace (size - 4096) with (size + (-1) * 4096) by lia; rewrite Z.mod_add by lia.
Qed.

(** From a multiple of the block size it ends. *)
Lemma itrunc_loop_ends k : ∀ fuel i g,
  (k < fuel)%nat → Z.of_nat k * 4096 < 2 ^ 64 → cache_ready i g →
  ∃ i' g', itrunc_loop (Z.of_nat k * 4096) i g fuel = Ok (i', g') ∧ cache_ready i' g'.
Proof.
  induction k as [|k IH]; intros [|fuel] i g Hf Hb Hi; try lia.
  { exists i, g. done. }
  destruct (itrunc_loop_step (Z.of_nat (S k) * 4096) i g fuel ltac:(lia) Hi) as (i' & g' & Hi' & ->).
  change g_block_size_bytes with 4096. rewrite u64_small by lia.
  replace (Z.of_nat (S k) * 4096 - 4096) with (Z.of_nat k * 4096) by lia.
  apply IH; [lia|lia|done].
Qed.

(** C40: itrunc to a smaller non-zero length never ends for a file whose size
    is not a multiple of the block size: the unsigned counter steps over 0.
    The block cache of the inode is consistent. *)
Theorem itrunc_diverges i g h length fuel :
  i_itype i = T_FILE → i_fcache i = Some h → fcache_live h g →
  0 < length < i_size i → i_size i < 2 ^ 64 → i_size i mod 4096 ≠ 0 →
  itrunc i length g fuel = NoFuel.
Proof.
  intros Ht Hf Hlv Hl Hs Hm. unfold itrunc. rewrite Ht. cbn [Z.eqb negb].
  destruct (Z.eqb_spec length 0); [lia|]. destruct (Z.ltb_spec length (i_size i)); [|lia].
  rewrite itrunc_loop_diverges; [done|lia|done|by exists h].
Qed.

(** ** Instances *)
Definition demo_inode : inode :=
  mkInode 7 T_FILE 1 5000 5000 I_VALID 1 0 0 (mkCur 0 0 0 0 0 0 0 0 0) RB_ROOT (Some ∅) 0.

Lemma iget_cached_witness : ∃ c',
  iget (λ _, None) 7 0 {[7 := demo_inode]} = Ok (Some (set_ref 2 demo_inode), c') ∧ icache_ok c'
    ∧ c' !! 7 = Some (set_ref 2 demo_inode)
    ∧ (∀ n, n ≠ 7 → c' !! n = ({[7 := demo_inode]} : icache) !! n)
    ∧ iput (set_ref 2 demo_inode) = demo_inode.
Proof.
  apply (iget_cached (λ _, None) 7 0 {[7 := demo_inode]} demo_inode); try reflexivity.
  intros n i [<- <-]%lookup_singleton_Some. reflexivity.
Defined.

Lemma iget_fetch_witness : ∃ i,
  iget (λ _, Some (mkTmp 33188 1 5000 0 0 0 (2 ^ 62 + 4096))) 7 0 ∅ = Ok (Some i, <[7 := i]> ∅)
    ∧ c_devid (i_cur i) = 0.
Proof.
  destruct (iget_fetch (λ _, Some (mkTmp 33188 1 5000 0 0 0 (2 ^ 62 + 4096))) 7 0 ∅
    (mkTmp 33188 1 5000 0 0 0 (2 ^ 62 + 4096))) as (i & E & _ & _ & _ & _ & _ & _ & _ & Hd);
    try reflexivity.
  - intros n i Hn. by rewrite lookup_empty in Hn.
  - by exists i.
Defined.

(** One cached block of the inode. *)
Definition demo_cached : inode := set_fcache (Some {[0 := 5%nat]}) 1 demo_inode.
Definition demo_cache : rcache :=
  mkRc {[5%nat := mkFc 0 0 true 4096 6 7]} {[6%nat := replicate 4096 1]} 7 [5%nat] 1.

Lemma demo_cache_live : fcache_live {[0 := 5%nat]} demo_cache.
Proof.
  split.
  - intros k p [<- <-]%lookup_singleton_Some. eexists. split; [reflexivity|]. split; [done|].
    intros _. by eexists.
  - intros k1 k2 p1 p2 b1 b2 [<- <-]%lookup_singleton_Some [<- <-]%lookup_singleton_Some. done.
Qed.

Lemma idealloc_ok_witness : ∃ i' g', idealloc demo_cached demo_cache = Ok (i', g')
  ∧ Z.testbit (i_flags i') 3 = true ∧ i_size i' = 0 ∧ i_itype i' = 0 ∧ i_blktree i' = RB_ROOT
  ∧ i_fcache i' = None
  ∧ ∀ k p b, ({[0 := 5%nat]} : gmap Z nat) !! k = Some p → rc_objs demo_cache !! p = Some b →
      fc_cached b = true → rc_bufs g' !! fc_data b = None ∧ p ∉ rc_lru g'.
Proof. apply (idealloc_ok demo_cached demo_cache {[0 := 5%nat]}); [done|done|apply demo_cache_live|done]. Defined.

Lemma itrunc_diverges_witness : itrunc demo_cached 100 demo_cache 50 = NoFuel.
Proof.
  apply (itrunc_diverges demo_cached demo_cache {[0 := 5%nat]} 100 50);
    [reflexivity|reflexivity|apply demo_cache_live|vm_compute; done..].
Defined.
