(* ===== verification/Bmap.v ===== *)
(** * Bmap: from the on-disk tree to the block index

    [bmap] of [filesystem/fs.c] looks a file offset up in the radix tree the
    kernel keeps in persistent memory and enters what it finds into the
    in-memory index.  The two top bits of a tree entry are the device: 0 for
    persistent memory, where an entry of a leaf is a 4 KiB block; otherwise
    the entry is a 2 MiB block of an SSD. *)
From Stdlib Require Import ZArith Lia Sorted.
From stdpp Require Import base numbers list gmap strings.
From S2P Require Import Prelude Util Bytes RbTree BlkTree Upsert Inode.

Definition ENXIO : Z := 6.
Definition META_BLK_SHIFT : Z := 9.

(** [struct bmap_request]. *)
Record bmap_req : Type := mkReq {
  start_offset : Z;
  block_no : Z;
  blk_count_found : Z;
  req_dev : Z
}.

(** [node[i]] after the copy of the 4 KiB node at [a]; [~(3 << 62)]. *)
Definition node_entry (m : memory) (a i : Z) : Z := unle (load m (a + 8 * i) 8).
Definition addr_flag : Z := 2 ^ 62 - 1.

(** The address of an entry, as the code decodes it with the device [devid]. *)
Definition entry_addr (devid e : Z) : Z :=
  if 0 <? devid then shr64 (Z.land e addr_flag) g_block_size_shift
  else shr64 e g_block_size_shift.

(** The entry of a 2 MiB SSD block. *)
Definition bmap_large (e : Z) (r : bmap_req) (t : blktree) : outcome (bmap_req * blktree) :=
  let devid := u8 (shr64 e 62) in
  let start := Align.ALIGN_FLOOR (start_offset r) g_lblock_size_bytes in
  let b := mkNode start g_lblock_size_bytes (u8 (devid + 1))
             (shr64 (Z.land e addr_flag) g_block_size_shift) in
  '(_, t) ← block_add b t;
  Ok (mkReq start (shr64 (Z.land e addr_flag) g_block_size_shift) 512 (u8 (devid + 1)), t).

(** The loop over the 512 entries of a leaf in persistent memory: every node
    gets the device of entry [key]. *)
Fixpoint leaf_loop (m : memory) (leaf key i offset : Z) (r : bmap_req) (t : blktree) (n : nat)
    : outcome (bmap_req * blktree) :=
  match n with
  | O => Ok (r, t)
  | S n =>
      let devid := u8 (shr64 (node_entry m leaf key) 62) in
      let b := mkNode offset g_block_size_bytes (u8 (devid + 1))
                 (entry_addr devid (node_entry m leaf i)) in
      let r := if i =? key then mkReq (start_offset r) (addr b) 1 (devid + 1) else r in
      '(_, t) ← block_add b t;
      leaf_loop m leaf key (i + 1) (u64 (offset + g_block_size_bytes)) r t n
  end.
Definition bmap_leaf (m : memory) (leaf : Z) (r : bmap_req) (t : blktree)
    : outcome (bmap_req * blktree) :=
  leaf_loop m leaf (shr64 (start_offset r) g_block_size_shift mod lblock_addr) 0
    (Align.ALIGN_FLOOR (start_offset r) g_lblock_size_bytes) r t 512.

(** The descent: [None] for a hole. *)
Fixpoint descend (m : memory) (bp blocknr : Z) (height : nat) : outcome (option Z) :=
  match height with
  | O => Ok (Some bp)
  | S h =>
      let bit_shift := Z.of_nat height * META_BLK_SHIFT in
      let idx := u32 (shr64 blocknr bit_shift) in
      if 31 <=? bit_shift then Fault "1 << bit_shift"
      else if idx <? 512 then
        let bp := node_entry m bp idx in
        if bp =? 0 then Ok None
        else descend m bp (Z.land blocknr (2 ^ bit_shift - 1)) h
      else Fault "node index"
  end.

Section bmap.
(** [syscall(336, inum, tinode)]: root and height. *)
Context (fetch : Z → option tmpinode).

(** [bmap(inode, bmap_req)]. *)
Definition bmap (m : memory) (ip : inode) (r : bmap_req) : outcome (Z * inode * bmap_req) :=
  if i_ksize ip <=? start_offset r then Ok (- ENXIO, ip, r)
  else
    '(root, height) ←
      (if (i_height ip =? 0) && (i_root ip =? 0) then
         match fetch (i_inum ip) with
         | None => Panic "syscall fetch inode error"
         | Some t => Ok (t_root t, t_height t)
         end
       else Ok (i_root ip, i_height ip));
    e ← descend m root (shr64 (start_offset r) 12) (Z.to_nat height);
    match e with
    | None => Ok (0, set_index root height (i_blktree ip) ip, r)
    | Some bp =>
        '(r, t) ← (if 0 <? u8 (shr64 bp 62) then bmap_large bp r (i_blktree ip)
                   else bmap_leaf m bp r (i_blktree ip));
        Ok (0, set_index root height t ip, r)
    end.
End bmap.

(** ** The radix tree as a map

    The leaf that belongs to a block number. *)
Fixpoint leaf_of (m : memory) (bp blocknr : Z) (height : nat) : Z :=
  match height with
  | O => bp
  | S h =>
      let e := node_entry m bp (blocknr / 2 ^ (9 * Z.of_nat height)) in
      if e =? 0 then 0 else leaf_of m e (blocknr mod 2 ^ (9 * Z.of_nat height)) h
  end.

Lemma descend_ok m height : ∀ bp blocknr,
  (height ≤ 3)%nat → 0 ≤ blocknr < 2 ^ (9 * (Z.of_nat height + 1)) → bp ≠ 0 →
  descend m bp blocknr height
    = Ok (let l := leaf_of m bp blocknr height in if l =? 0 then None else Some l).
Proof.
  induction height as [|h IH]; intros bp blocknr H3 Hb Hbp.
  { simpl. by destruct (Z.eqb_spec bp 0). }
  cbn [descend leaf_of]. unfold META_BLK_SHIFT.
  replace (Z.of_nat (S h) * 9) with (9 * Z.of_nat (S h)) by lia.
  rewrite shr64_div, land_mask by lia.
  assert (Hp : 0 < 2 ^ (9 * Z.of_nat (S h))) by (apply Z.pow_pos_nonneg; lia).
  assert (Hi : blocknr / 2 ^ (9 * Z.of_nat (S h)) < 512).
  { apply Z.div_lt_upper_bound; [done|].
    replace (9 * (Z.of_nat (S h) + 1)) with (9 * Z.of_nat (S h) + 9) in Hb by lia.
    rewrite Z.pow_add_r in Hb by lia. lia. }
  rewrite u32_small by (split; [apply Z.div_pos; lia|lia]).
  destruct (Z.leb_spec 31 (9 * Z.of_nat (S h))); [lia|].
  destruct (Z.ltb_spec (blocknr / 2 ^ (9 * Z.of_nat (S h))) 512); [|lia].
  destruct (Z.eqb_spec (node_entry m bp (blocknr / 2 ^ (9 * Z.of_nat (S h)))) 0); [done|].
  apply IH; [lia| |done]. replace (Z.of_nat h + 1) with (Z.of_nat (S h)) by lia.
  by apply Z.mod_pos_bound.
Qed.

(** ** The index after a leaf was entered *)
Lemma entry_addr_bound devid e :
  0 ≤ e < 2 ^ 64 → (0 < devid ∨ e < 2 ^ 62) →
  0 ≤ entry_addr devid e ∧ entry_addr devid e * 4096 + 4096 ≤ 2 ^ 62.
Proof.
  intros He Hd. unfold entry_addr, addr_flag. change g_block_size_shift with 12.
  assert (Hx : ∀ x, 0 ≤ x < 2 ^ 62 → 0 ≤ shr64 x 12 ∧ shr64 x 12 * 4096 + 4096 ≤ 2 ^ 62).
  { intros x Hx. rewrite shr64_div by lia. change (2 ^ 12) with 4096.
    pose proof (Z.div_pos x 4096 ltac:(lia) ltac:(lia)).
    assert (x / 4096 < 2 ^ 50) by (apply Z.div_lt_upper_bound; lia). lia. }
  case_if.
  - apply Hx. rewrite land_mask by lia. apply Z.mod_pos_bound. lia.
  - apply Hx. lia.
Qed.

(** The entries [i], [i+1], ... entered from [offset] on: their range gets
    the address of its entry and the device [dv] of entry [key]. *)
Lemma leaf_loop_ok m leaf key n : ∀ i offset r t,
  tree_wf t → 0 ≤ offset → offset + 4096 * Z.of_nat n < 2 ^ 62 →
  let dv := u8 (shr64 (node_entry m leaf key) 62) in
  dv < 255 →
  (∀ j, i ≤ j < i + Z.of_nat n →
     0 ≤ node_entry m leaf j < 2 ^ 64 ∧ (0 < dv ∨ node_entry m leaf j < 2 ^ 62)) →
  (∀ x, offset ≤ x < offset + 4096 * Z.of_nat n → xlate t x = None) →
  ∃ r' t', leaf_loop m leaf key i offset r t n = Ok (r', t') ∧ tree_wf t'
    ∧ ∀ x, xlate t' x =
        if decide (offset ≤ x < offset + 4096 * Z.of_nat n)
        then Some (dv + 1, entry_addr dv (node_entry m leaf (i + (x - offset) / 4096)) * 4096
                           + (x - offset) mod 4096)
        else xlate t x.
Proof.
  induction n as [|n IH]; intros i offset r t Hwf Ho Hb dv Hdv He Hx.
  { exists r, t. split; [done|]. split; [done|]. intros x. by rewrite decide_False by lia. }
  cbn [leaf_loop]. fold dv.
  assert (Hdv0 : 0 ≤ dv) by (apply Z.mod_pos_bound; lia).
  assert (Hd8 : u8 (dv + 1) = dv + 1) by (apply Z.mod_small; lia).
  rewrite Hd8. change g_block_size_bytes with 4096.
  set (b := mkNode offset 4096 (dv + 1) (entry_addr dv (node_entry m leaf i))).
  destruct (He i ltac:(lia)) as [He1 He2].
  destruct (entry_addr_bound dv _ He1 He2) as [Ha1 Ha2].
  assert (Hb_ok : node_ok b) by (unfold node_ok, b; simpl; lia).
  assert (Hap : apart t b).
  { apply apart_xlate_iff; [done..|]. intros x Hc. apply Hx. unfold covers, b in Hc. simpl in Hc. lia. }
  destruct (block_add_ok t b Hwf Hb_ok Hap) as (q & t1 & E1 & Hwf1 & Hext).
  rewrite E1. simpl mbind. rewrite u64_small by lia.
  set (r1 := if i =? key then _ else r).
  destruct (IH (i + 1) (offset + 4096) r1 t1) as (r' & t' & E & Hwf' & Hxl); try done; try lia.
  { intros j Hj. apply He. lia. }
  { intros x Hxr. rewrite Hext. unfold covers, b; simpl. rewrite decide_False by lia. apply Hx. lia. }
  exists r', t'. split; [exact E|]. split; [done|]. intros x. rewrite Hxl. fold dv.
  destruct (decide (offset + 4096 ≤ x < offset + 4096 + 4096 * Z.of_nat n)) as [Hin|Hout].
  - rewrite decide_True by lia.
    replace (x - (offset + 4096)) with (x - offset + (-1) * 4096) by lia.
    rewrite Z.div_add, Z.mod_add by lia. do 6 f_equal. lia.
  - rewrite Hext. unfold covers, translate, b; simpl.
    destruct (decide (offset ≤ x < offset + 4096)).
    + rewrite decide_True by lia. rewrite Z.div_small, Z.mod_small, Z.add_0_r by lia. done.
    + by rewrite decide_False by lia.
Qed.

(** ** [bmap] as a whole *)

(** The 2 MiB region of an offset. *)
Definition region (off : Z) : Z := off - off mod 2 ^ 21.

Lemma region_floor off :
  0 ≤ off < 2 ^ 61 → Align.ALIGN_FLOOR off g_lblock_size_bytes = region off.
Proof. intros. apply (Align.ALIGN_FLOOR_eq off 21); lia. Qed.

Lemma region_bounds off : 0 ≤ off → 0 ≤ region off ≤ off ∧ off < region off + 2 ^ 21.
Proof.
  intros. unfold region. pose proof (Z.mod_pos_bound off (2 ^ 21) ltac:(lia)).
  pose proof (Z.mod_le off (2 ^ 21) ltac:(lia) ltac:(lia)). lia.
Qed.

(** C23: A bmap lookup that ends at a leaf in persistent memory enters the
    512 blocks of the leaf: every offset of the 2 MiB region is translated by
    its own tree entry, with the device of the requested entry, and no other
    offset changes. The on-disk tree has height at most 3, the offset is
    inside the file and the tree, the region had no entries in the index yet,
    and the entries of the leaf are addresses below 2^62 when the requested
    one is in persistent memory. *)
Theorem bmap_nvm_spec fetch m ip r leaf :
  tree_wf (i_blktree ip) → 0 ≤ start_offset r < i_ksize ip → start_offset r < 2 ^ 61 →
  i_root ip ≠ 0 →
  0 ≤ i_height ip ≤ 3 → start_offset r / 4096 < 2 ^ (9 * (i_height ip + 1)) →
  leaf_of m (i_root ip) (start_offset r / 4096) (Z.to_nat (i_height ip)) = leaf →
  0 < leaf < 2 ^ 62 →
  let key := start_offset r / 4096 mod 512 in
  let dv := u8 (shr64 (node_entry m leaf key) 62) in
  (∀ j, 0 ≤ j < 512 → 0 ≤ node_entry m leaf j < 2 ^ 64 ∧ (0 < dv ∨ node_entry m leaf j < 2 ^ 62)) →
  (∀ x, region (start_offset r) ≤ x < region (start_offset r) + 2 ^ 21 →
     xlate (i_blktree ip) x = None) →
  dv < 255 →
  ∃ ip' r', bmap fetch m ip r = Ok (0, ip', r') ∧ tree_wf (i_blktree ip')
    ∧ ∀ x, xlate (i_blktree ip') x =
        if decide (region (start_offset r) ≤ x < region (start_offset r) + 2 ^ 21)
        then Some (dv + 1,
               entry_addr dv (node_entry m leaf ((x - region (start_offset r)) / 4096)) * 4096
               + (x - region (start_offset r)) mod 4096)
        else xlate (i_blktree ip) x.
Proof.
  intros Hwf Hoff H61 Hroot Hh Hfit Hleaf Hlf key dv He Hun Hdv.
  unfold bmap. destruct (Z.leb_spec (i_ksize ip) (start_offset r)); [lia|].
  destruct (Z.eqb_spec (i_root ip) 0); [done|]. rewrite andb_false_r.
  unfold mbind at 1. unfold outcome_bind at 1.
  rewrite shr64_div by lia. change (2 ^ 12) with 4096.
  rewrite descend_ok; [|lia|rewrite Z2Nat.id by lia; split; [apply Z.div_pos; lia|done]|done].
  cbv zeta. rewrite Hleaf. destruct (Z.eqb_spec leaf 0); [lia|].
  unfold mbind at 1. unfold outcome_bind at 1.
  assert (Hd0 : u8 (shr64 leaf 62) = 0).
  { rewrite shr64_div by lia. rewrite Z.div_small by lia. done. }
  rewrite Hd0. cbn [Z.ltb Z.compare]. unfold bmap_leaf.
  rewrite (shr64_div (start_offset r)) by (change g_block_size_shift with 12; lia).
  rewrite region_floor by lia. pose proof (region_bounds (start_offset r) ltac:(lia)).
  change (start_offset r / 2 ^ g_block_size_shift mod lblock_addr) with key.
  destruct (leaf_loop_ok m leaf key 512 0 (region (start_offset r)) r (i_blktree ip))
    as (r' & t' & E & Hwf' & Hx); try done; try lia.
  rewrite E. simpl mbind. eexists _, r'. split; [reflexivity|]. split; [exact Hwf'|]. exact Hx.
Qed.

(** A bmap lookup that ends at an SSD entry enters that 2 MiB block: the
    region is translated to the block of the entry on the device in its two
    top bits, and no other offset changes. *)
Theorem bmap_ssd_spec fetch m ip r e :
  tree_wf (i_blktree ip) → 0 ≤ start_offset r < i_ksize ip → start_offset r < 2 ^ 61 →
  i_root ip ≠ 0 → 0 ≤ i_height ip ≤ 3 → start_offset r / 4096 < 2 ^ (9 * (i_height ip + 1)) →
  leaf_of m (i_root ip) (start_offset r / 4096) (Z.to_nat (i_height ip)) = e →
  2 ^ 62 ≤ e < 2 ^ 64 → e mod 2 ^ 62 + 2 ^ 21 ≤ 2 ^ 62 → e mod 4096 = 0 →
  (∀ x, region (start_offset r) ≤ x < region (start_offset r) + 2 ^ 21 →
     xlate (i_blktree ip) x = None) →
  ∃ ip' r', bmap fetch m ip r = Ok (0, ip', r') ∧ tree_wf (i_blktree ip')
    ∧ blk_count_found r' = 512 ∧ req_dev r' = e / 2 ^ 62 + 1
    ∧ ∀ x, xlate (i_blktree ip') x =
        if decide (region (start_offset r) ≤ x < region (start_offset r) + 2 ^ 21)
        then Some (e / 2 ^ 62 + 1, e mod 2 ^ 62 + (x - region (start_offset r)))
        else xlate (i_blktree ip) x.
Proof.
  intros Hwf Hoff H61 Hroot Hh Hfit Hleaf He Hend Hal Hun.
  unfold bmap. destruct (Z.leb_spec (i_ksize ip) (start_offset r)); [lia|].
  destruct (Z.eqb_spec (i_root ip) 0); [done|]. rewrite andb_false_r.
  unfold mbind at 1. unfold outcome_bind at 1.
  rewrite shr64_div by lia. change (2 ^ 12) with 4096.
  rewrite descend_ok; [|lia|rewrite Z2Nat.id by lia; split; [apply Z.div_pos; lia|done]|done].
  cbv zeta. rewrite Hleaf. destruct (Z.eqb_spec e 0); [lia|].
  unfold mbind at 1. unfold outcome_bind at 1.
  assert (Hq : 1 ≤ e / 2 ^ 62 < 4).
  { split; [apply Z.div_le_lower_bound; lia|apply Z.div_lt_upper_bound; lia]. }
  assert (Hd : u8 (shr64 e 62) = e / 2 ^ 62).
  { rewrite shr64_div by lia. apply Z.mod_small. lia. }
  rewrite Hd. destruct (Z.ltb_spec 0 (e / 2 ^ 62)); [|lia]. unfold bmap_large. rewrite Hd.
  rewrite region_floor by lia. pose proof (region_bounds (start_offset r) ltac:(lia)).
  unfold addr_flag. rewrite land_mask by lia. change g_block_size_shift with 12.
  rewrite (shr64_div (e mod _)) by lia.
  replace (u8 (e / 2 ^ 62 + 1)) with (e / 2 ^ 62 + 1) by (symmetry; apply Z.mod_small; lia).
  pose proof (Z.mod_pos_bound e (2 ^ 62) ltac:(lia)) as Hm.
  assert (Hdm : e mod 2 ^ 62 / 2 ^ 12 * 4096 = e mod 2 ^ 62).
  { rewrite Z.mul_comm. symmetry. apply Z.div_exact; [lia|].
    rewrite Z.mod_mod_divide; [done|]. by exists (2 ^ 50). }
  change g_lblock_size_bytes with (2 ^ 21).
  set (b := mkNode _ _ _ _).
  assert (Hb : node_ok b).
  { unfold node_ok, b; cbn [fileoff size addr].
    pose proof (Z.div_pos (e mod 2 ^ 62) (2 ^ 12) ltac:(lia) ltac:(lia)). lia. }
  destruct (block_add_ok (i_blktree ip) b Hwf Hb) as (q & t' & E & Hwf' & Hext).
  { apply apart_xlate_iff; [done..|]. intros x Hc. apply Hun. unfold covers, b in Hc. cbn [fileoff size] in Hc. lia. }
  rewrite E. simpl mbind. eexists _, _. split; [reflexivity|]. split; [exact Hwf'|].
  split; [done|]. split; [done|]. intros x. cbn [i_blktree set_index]. rewrite Hext.
  unfold covers, translate, b; cbn [fileoff size addr devid].
  destruct (decide _); [|done]. do 2 f_equal. lia.
Qed.

(** ** Instances

    A leaf at address 4096 whose entries are all block 1. *)
Definition demo_nvm : memory := λ a, if a mod 8 =? 1 then 16 else 0.
Definition demo_ip (root : Z) : inode :=
  mkInode 7 T_FILE 1 5000 5000 I_VALID 1 0 root (mkCur 0 0 0 0 0 0 0 0 0) RB_ROOT (Some ∅) 0.

Lemma RB_ROOT_wf : tree_wf RB_ROOT.
Proof. split; [exists 0%nat; constructor|constructor..]. Qed.

Lemma demo_nvm_entry j : node_entry demo_nvm 4096 j = 4096.
Proof.
  unfold node_entry, load, demo_nvm. cbn [seq fmap list_fmap].
  assert (E : ∀ i : nat, (4096 + 8 * j + Z.of_nat i) mod 8 = Z.of_nat i mod 8).
  { intros i. replace (4096 + 8 * j + Z.of_nat i) with (Z.of_nat i + (512 + j) * 8) by lia.
    apply Z.mod_add. lia. }
  rewrite !E. reflexivity.
Qed.

Lemma bmap_nvm_spec_witness :
  ∃ ip' r', bmap (λ _, None) demo_nvm (demo_ip 4096) (mkReq 4096 0 0 0) = Ok (0, ip', r')
    ∧ xlate (i_blktree ip') 8200 = Some (1, 4096 + 8).
Proof.
  destruct (bmap_nvm_spec (λ _, None) demo_nvm (demo_ip 4096) (mkReq 4096 0 0 0) 4096)
    as (ip' & r' & E & _ & Hx); [apply RB_ROOT_wf|vm_compute; done..|reflexivity|lia| | | |].
  - intros j Hj. rewrite demo_nvm_entry. split; [lia|]. right. lia.
  - intros x _. reflexivity.
  - rewrite demo_nvm_entry. vm_compute. done.
  - exists ip', r'. split; [exact E|]. rewrite Hx, !demo_nvm_entry. vm_compute. reflexivity.
Defined.

Lemma bmap_ssd_spec_witness :
  ∃ ip' r', bmap (λ _, None) demo_nvm (demo_ip (2 ^ 62 + 2 ^ 21)) (mkReq 4096 0 0 0) = Ok (0, ip', r')
    ∧ blk_count_found r' = 512 ∧ xlate (i_blktree ip') 8200 = Some (2, 2 ^ 21 + 8200).
Proof.
  destruct (bmap_ssd_spec (λ _, None) demo_nvm (demo_ip (2 ^ 62 + 2 ^ 21)) (mkReq 4096 0 0 0)
    (2 ^ 62 + 2 ^ 21)) as (ip' & r' & E & _ & Hb & _ & Hx);
    [apply RB_ROOT_wf|vm_compute; done|vm_compute; done|vm_compute; done|vm_compute; done
    |vm_compute; done|reflexivity|vm_compute; done|vm_compute; done|vm_compute; done
    |intros x _; reflexivity|].
  - exists ip', r'. split; [exact E|]. split; [exact Hb|]. rewrite Hx. reflexivity.
Defined.
