(* ===== verification/FileIO.v ===== *)
(** * FileIO: splitting of reads and writes at block boundaries

    [readi] of [filesystem/fs.c] and [userfs_file_write], [snfs_write],
    [userfs_file_read] and [userfs_file_read_offset] of [filesystem/file.c].
    A request is cut into an unaligned head, a block-aligned middle and an
    unaligned tail; the middle of a write is further cut at 2 MiB boundaries.
    The routines that transfer one piece are arguments here, with an
    arbitrary state: the theorems are about which pieces they are given. *)
From Stdlib Require Import ZArith Lia.
From stdpp Require Import base numbers list gmap strings.
From S2P Require Import Prelude Util.

Definition EPERM : Z := 1.
Definition FD_NONE : Z := 0.
Definition FD_INODE : Z := 2.

(** [struct file]: type, reference count, descriptor, access and offset. *)
Record file : Type := mkFile {
  f_type : Z;
  f_ref : Z;
  f_fd : Z;
  f_readable : bool;
  f_writable : bool;
  f_off : Z
}.
Definition set_off (o : Z) (f : file) : file :=
  mkFile (f_type f) (f_ref f) (f_fd f) (f_readable f) (f_writable f) o.

(** ** Reading *)

(** The sizes [readi] computes: small, prepended, aligned and appended. *)
Record read_split : Type := mkSplit {
  size_small : Z;
  size_prepended : Z;
  size_aligned : Z;
  size_appended : Z
}.

Definition readi_sizes (off io_size : Z) : read_split :=
  let offset_end := u64 (off + io_size) in
  let offset_aligned := Align.ALIGN off g_block_size_bytes in
  if (offset_aligned =? off) && (offset_end =? Align.ALIGN offset_end g_block_size_bytes) then
    mkSplit 0 0 io_size 0
  else if ((offset_aligned =? off) && (io_size <? g_block_size_bytes))
          || (offset_end <? offset_aligned) then
    mkSplit io_size 0 0 0
  else
    let pre := if off <? offset_aligned then u64 (offset_aligned - off) else 0 in
    let app := u64 (Align.ALIGN offset_end g_block_size_bytes - offset_end) in
    let app := if 0 <? app then u64 (g_block_size_bytes - app) else app in
    mkSplit 0 pre (u64 (io_size - pre - app)) app.

Section read.
Context {S : Type}.
(** The piece readers: offset and size give the return value and the bytes
    stored at the destination. *)
Context (do_unaligned_read do_align_read_cache1 : Z → Z → M S (Z * list Z)).

(** An unaligned piece, when its size is not zero. *)
Definition unaligned_piece (off sz : Z) (pos : Z) : M S (list (Z * list Z)) :=
  if sz =? 0 then mret []
  else
    '(io_done, d) ← do_unaligned_read off sz;
    assertM (sz =? io_done) "io_done" ;;
    mret [(pos, d)].

(** [readi(ip, dst, off, io_size)] with [ip->size]: the return value and the
    bytes stored, with their positions in the destination. *)
Definition readi (isize off io_size : Z) : M S (Z * list (Z * list Z)) :=
  assertM (off <? isize) "off < ip->size" ;;
  let io_size := if isize <? u64 (off + io_size) then u32 (isize - off) else io_size in
  let s := readi_sizes off io_size in
  p1 ← unaligned_piece off (size_small s) 0;
  let o := off + size_small s in
  p2 ← unaligned_piece o (size_prepended s) (size_small s);
  let o := o + size_prepended s in
  p3 ← (if size_aligned s =? 0 then mret []
        else '(_, d) ← do_align_read_cache1 o (size_aligned s);
             mret [(o - off, d)]);
  let o := o + size_aligned s in
  p4 ← unaligned_piece o (size_appended s) (o - off);
  mret (i32 (size_small s + size_prepended s + size_aligned s + size_appended s), p1 ++ p2 ++ p3 ++ p4).

(** [userfs_file_read(f, buf, n)]: [n] is an [int] that [readi] takes as a
    [uint32_t]. *)
Definition userfs_file_read (f : file) (isize n : Z) : M S (Z * file * list (Z * list Z)) :=
  if negb (f_readable f) then mret (- EPERM, f, [])
  else if f_type f =? FD_INODE then
    if isize <=? f_off f then mret (0, f, [])
    else '(r, d) ← readi isize (f_off f) (u32 n);
         if r <? 0 then panic "read error"
         else mret (r, set_off (u64 (f_off f + r)) f, d)
  else panic "userfs_file_read".

(** [userfs_file_read_offset(f, buf, n, off)]: the end-of-file test is on
    [f->off], not on [off]. *)
Definition userfs_file_read_offset (f : file) (isize n off : Z) : M S (Z * list (Z * list Z)) :=
  if negb (f_readable f) then mret (- EPERM, [])
  else if f_type f =? FD_INODE then
    if isize <=? f_off f then mret (0, [])
    else '(r, d) ← readi isize off (u32 n);
         if r <? 0 then panic "read error" else mret (r, d)
  else mret (-1, []).
End read.

(** ** Writing *)
Section write.
Context {S : Type}.
(** The writers of one piece: file size, offset and bytes. *)
Context (unaligned_smallwrite aligned_smallwrite aligned_write : Z → Z → list Z → M S Z).

(** [snfs_write(fd, ip, buf, off, size)]. *)
Definition snfs_write (isize off : Z) (buf : list Z) : M S Z :=
  let size := Z.of_nat (length buf) in
  let off_aligned_4K := Z.land off (not64 (2 ^ 12 - 1)) in
  let sized := u32 (size + off - off_aligned_4K) in
  if (off_aligned_4K <? off) && (g_block_size_bytes <? sized) then panic "write exist bug"
  else if off_aligned_4K <? off then unaligned_smallwrite isize off buf
  else if size <? g_block_size_bytes then aligned_smallwrite isize off buf
  else aligned_write isize off buf.
End write.

(** The three sizes [userfs_file_write] computes. *)
Definition write_sizes (off n : Z) : Z * Z * Z :=
  let offset_end := u64 (off + n) in
  let offset_aligned := Align.ALIGN off g_block_size_bytes in
  if offset_end <? offset_aligned then (n, 0, 0)
  else
    let pre := if off <? offset_aligned then u64 (offset_aligned - off) else 0 in
    let app := u64 (Align.ALIGN offset_end g_block_size_bytes - offset_end) in
    let app := if 0 <? app then u64 (g_block_size_bytes - app) else app in
    (pre, u64 (n - pre - app), app).

(** The size of one chunk of the aligned part, [left] bytes being left. *)
Definition chunk_size (off left : Z) : Z :=
  let io_size := u32 left in
  let io_size := if 2 ^ 21 <? io_size then 2 ^ 21 else io_size in
  let fileoff := u64 (off + io_size) in
  let aligned_2M_upoff := Z.land (u64 (off + 2 ^ 21)) (not64 (2 ^ 21 - 1)) in
  if aligned_2M_upoff <=? fileoff then u32 (aligned_2M_upoff - off) else io_size.

Section file_write.
Context {S : Type} (snfs_write : Z → Z → list Z → M S Z).

(** One call and the update of the size: return value and new size. *)
Definition write_piece (isize off : Z) (buf : list Z) : M S (Z * Z) :=
  r ← snfs_write isize off buf;
  mret (r, if (0 <? r) && (isize <? u64 (off + r)) then u64 (off + r) else isize).

(** The loop over the aligned part; state: [i], [f->off], size. *)
Fixpoint aligned_loop (buf : list Z) (stop i off isize : Z) (fuel : nat) : M S (Z * Z * Z) :=
  match fuel with
  | O => nofuel
  | Datatypes.S fuel =>
      if i <? stop then
        assertM (off mod g_block_size_bytes =? 0) "f->off % g_block_size_bytes" ;;
        let io_size := chunk_size off (stop - i) in
        '(r, isize) ← write_piece isize off (take (Z.to_nat io_size) (drop (Z.to_nat i) buf));
        if r <? 0 then mret (i, off, isize)
        else if r =? io_size then
          aligned_loop buf stop (i + r) (if 0 <? r then u64 (off + r) else off) isize fuel
        else panic "short filewrite"
      else mret (i, off, isize)
  end.

(** The unaligned head or tail of [sz] bytes: one call that must write
    something; state as in the loop. *)
Definition edge_write (sz : Z) (buf : list Z) (i off isize : Z) : M S (Z * Z * Z) :=
  if 0 <? sz then
    '(r, isize) ← write_piece isize off (take (Z.to_nat sz) (drop (Z.to_nat i) buf));
    assertM (0 <? r) "r > 0" ;;
    mret (i + r, u64 (off + r), isize)
  else mret (i, off, isize).

(** [userfs_file_write(f, buf, n)]: return value, file and [ip->size]. *)
Definition userfs_file_write (f : file) (isize : Z) (buf : list Z) : M S (Z * file * Z) :=
  let n := Z.of_nat (length buf) in
  if negb (f_writable f) then mret (- EPERM, f, isize)
  else if f_type f =? FD_INODE then
    let file_size := if (0 <? n) && (isize <? u64 (f_off f + n)) then u64 (f_off f + n) else isize in
    let '(pre, mid, app) := write_sizes (f_off f) n in
    assertM ((u64 (f_off f + n) <? Align.ALIGN (f_off f) g_block_size_bytes)
             || (pre <? g_block_size_bytes)) "size_prepended" ;;
    '(i, off, isize) ← edge_write pre buf 0 (f_off f) isize;
    '(i, off, isize) ← aligned_loop buf (n - app) i off isize (Datatypes.S (length buf));
    '(i, off, isize) ← edge_write app buf i off isize;
    mret (if i =? n then i32 n else -1, set_off off f, file_size)
  else panic "filewrite".
End file_write.

(** ** The pieces *)

(** A write that one call of [snfs_write] supports: inside a block, or of
    whole blocks inside a 2 MiB block. *)
Definition chunk_ok (off len : Z) : Prop :=
  0 < len ∧ 0 ≤ off ∧ off + len < 2 ^ 62 ∧
  ((off mod 4096 ≠ 0 ∧ off mod 4096 + len ≤ 4096)
   ∨ (off mod 4096 = 0 ∧ len < 4096)
   ∨ (off mod 4096 = 0 ∧ len mod 4096 = 0 ∧ off mod 2 ^ 21 + len ≤ 2 ^ 21)).

Lemma ALIGN_block x :
  0 ≤ x < 2 ^ 63 →
  x ≤ Align.ALIGN x g_block_size_bytes < x + 4096 ∧ Align.ALIGN x g_block_size_bytes mod 4096 = 0
  ∧ (x mod 4096 = 0 ↔ Align.ALIGN x g_block_size_bytes = x).
Proof.
  intros Hx. change g_block_size_bytes with (2 ^ 12).
  pose proof (Align.ALIGN_least x 12 ltac:(lia) ltac:(lia) ltac:(lia)) as [H1 H2].
  change (2 ^ 12) with 4096 in *. repeat split; try lia.
  - intros E. exact (Align.ALIGN_id x 12 ltac:(lia) ltac:(lia) ltac:(lia) E).
  - by intros <-.
Qed.

(** Arithmetic of multiples of a block. *)
Lemma mult_sub x y : x mod 4096 = 0 → y mod 4096 = 0 → (x - y) mod 4096 = 0.
Proof. intros Hx Hy. by rewrite Zminus_mod, Hx, Hy. Qed.
Lemma mult_add x y : x mod 4096 = 0 → y mod 4096 = 0 → (x + y) mod 4096 = 0.
Proof. intros Hx Hy. by rewrite Zplus_mod, Hx, Hy. Qed.
Lemma in_block x a : a mod 4096 = 0 → x ≤ a < x + 4096 → x mod 4096 = 0 ∨ x mod 4096 = 4096 - (a - x).
Proof.
  intros Ha Hx. destruct (decide (x = a)) as [->|]; [by left|right].
  symmetry. apply (Z.mod_unique_pos x 4096 (a / 4096 - 1)); [lia|].
  pose proof (Z.div_mod a 4096 ltac:(lia)). lia.
Qed.

(** The cut of a request into head, middle and tail. *)
Record cut_ok (off n pre mid app : Z) : Prop := {
  cut_sum : pre + mid + app = n;
  cut_pre : 0 ≤ pre < 4096;
  cut_mid : 0 ≤ mid;
  cut_app : 0 ≤ app < 4096;
  cut_pre_in : 0 < pre → off mod 4096 ≠ 0 ∧ off mod 4096 + pre ≤ 4096;
  cut_mid_al : mid mod 4096 = 0;
  cut_rest_al : 0 < mid + app → (off + pre) mod 4096 = 0
}.

Lemma cut_general off n :
  0 ≤ off → 0 ≤ n → off + n < 2 ^ 62 →
  let a := Align.ALIGN off g_block_size_bytes in
  let e := Align.ALIGN (off + n) g_block_size_bytes in
  a ≤ off + n →
  let pre := if off <? a then u64 (a - off) else 0 in
  let app := u64 (e - (off + n)) in
  let app := if 0 <? app then u64 (g_block_size_bytes - app) else app in
  cut_ok off n pre (u64 (n - pre - app)) app.
Proof.
  intros H0 Hn Hb a e Hle. cbv zeta.
  destruct (ALIGN_block off ltac:(lia)) as (Ha1 & Ha2 & Ha3). fold a in Ha1, Ha2, Ha3.
  destruct (ALIGN_block (off + n) ltac:(lia)) as (He1 & He2 & He3). fold e in He1, He2, He3.
  assert (Hpre : (if off <? a then u64 (a - off) else 0) = a - off).
  { case_if; [apply u64_small|]; lia. }
  rewrite Hpre. rewrite (u64_small (e - _)) by lia. change g_block_size_bytes with 4096.
  set (app := if 0 <? e - (off + n) then u64 (4096 - (e - (off + n))) else e - (off + n)).
  (* the tail starts at the last block boundary at or before the end *)
  assert (Happ : 0 ≤ app < 4096 ∧ (off + n - app) mod 4096 = 0 ∧ a ≤ off + n - app).
  { unfold app. case_if.
    - rewrite u64_small by lia. assert (Hm : (e - 4096) mod 4096 = 0) by (by apply mult_sub).
      replace (off + n - (4096 - (e - (off + n)))) with (e - 4096) by lia.
      split; [lia|]. split; [done|].
      destruct (decide (a ≤ e - 4096)); [done|].
      pose proof (multiple_unique a e 4096 ltac:(lia) Ha2 He2 ltac:(lia)). lia.
    - split; [lia|]. replace (off + n - (e - (off + n))) with e by lia. split; [done|lia]. }
  clearbody app. destruct Happ as (Happ1 & Happ2 & Happ3).
  rewrite (u64_small (n - (a - off) - app)) by lia.
  split; try lia.
  - intros Hpos. destruct (in_block off a Ha2 ltac:(lia)) as [E|E]; [rewrite (proj1 Ha3 E) in Hpos|]; lia.
  - replace (n - (a - off) - app) with (off + n - app - a) by lia. by apply mult_sub.
  - intros _. by replace (off + (a - off)) with a by lia.
Qed.

Lemma write_sizes_ok off n :
  0 ≤ off → 0 ≤ n → off + n < 2 ^ 62 →
  let '(pre, mid, app) := write_sizes off n in cut_ok off n pre mid app.
Proof.
  intros H0 Hn Hb. unfold write_sizes. cbv zeta. rewrite (u64_small (off + n)) by lia.
  destruct (Z.ltb_spec (off + n) (Align.ALIGN off g_block_size_bytes)) as [Hlt|Hge].
  - destruct (ALIGN_block off ltac:(lia)) as (Ha1 & Ha2 & Ha3).
    split; try lia; [|done].
    intros Hp. destruct (in_block off _ Ha2 ltac:(lia)) as [E|E]; [|lia].
    apply Ha3 in E. lia.
  - by apply cut_general.
Qed.

Lemma readi_sizes_ok off n :
  0 ≤ off → 0 < n → off + n < 2 ^ 62 →
  let s := readi_sizes off n in
  (size_small s = n ∧ n < 4096 ∧ off mod 4096 + n ≤ 4096 ∧ size_prepended s = 0
   ∧ size_aligned s = 0 ∧ size_appended s = 0)
  ∨ (size_small s = 0 ∧ cut_ok off n (size_prepended s) (size_aligned s) (size_appended s)).
Proof.
  intros H0 Hn Hb. unfold readi_sizes. cbv zeta. rewrite (u64_small (off + n)) by lia.
  destruct (ALIGN_block off ltac:(lia)) as (Ha1 & Ha2 & Ha3).
  destruct (ALIGN_block (off + n) ltac:(lia)) as (He1 & He2 & He3).
  set (a := Align.ALIGN off g_block_size_bytes) in *.
  set (e := Align.ALIGN (off + n) g_block_size_bytes) in *.
  destruct (Z.eqb_spec a off) as [Ea|Ea]; cbn [andb].
  - destruct (Z.eqb_spec (off + n) e) as [Ee|Ee]; cbn [andb].
    + right. split; [done|]. simpl.
      assert (Ho : off mod 4096 = 0) by (by apply Ha3).
      assert (Hm : (off + n - off) mod 4096 = 0) by (apply mult_sub; [apply He3|]; done).
      replace (off + n - off) with n in Hm by lia.
      split; try lia. intros _. by rewrite Z.add_0_r.
    + destruct (Z.ltb_spec n g_block_size_bytes) as [Hs|Hs]; cbn [andb orb].
      * left. simpl. change g_block_size_bytes with 4096 in Hs.
        rewrite (proj2 Ha3 Ea). repeat split; lia.
      * destruct (Z.ltb_spec (off + n) a); cbn [orb]; [lia|]. right. split; [done|].
        cbn [size_prepended size_aligned size_appended]. apply cut_general; lia.
  - cbn [andb orb]. destruct (Z.ltb_spec (off + n) a).
    + left. simpl. destruct (in_block off a Ha2 ltac:(lia)) as [E|E]; [apply Ha3 in E; lia|].
      repeat split; lia.
    + right. split; [done|].
      cbn [size_prepended size_aligned size_appended]. apply cut_general; lia.
Qed.

(** A chunk of the aligned part: whole blocks up to the end of the part or of
    the 2 MiB block. *)
Lemma chunk_size_ok off left :
  0 ≤ off < 2 ^ 62 → off mod 4096 = 0 → 0 < left < 2 ^ 32 → left mod 4096 = 0 →
  let c := chunk_size off left in
  0 < c ≤ left ∧ c mod 4096 = 0 ∧ off mod 2 ^ 21 + c ≤ 2 ^ 21.
Proof.
  intros Ho Hm Hl Hlm. unfold chunk_size. cbv zeta. rewrite (u32_small left) by lia.
  pose proof (Z.mod_pos_bound off (2 ^ 21) ltac:(lia)) as Hr.
  assert (Hm21 : (off mod 2 ^ 21) mod 4096 = 0).
  { rewrite Z.mod_mod_divide; [done|]. by exists 512. }
  set (io := if 2 ^ 21 <? left then 2 ^ 21 else left).
  assert (Hio : 0 < io ≤ left ∧ io ≤ 2 ^ 21 ∧ io mod 4096 = 0).
  { unfold io. case_if; [repeat split; (done || lia)|]. repeat split; (done || lia). }
  clearbody io. destruct Hio as (Hio1 & Hio2 & Hio3).
  rewrite (u64_small (off + io)), (u64_small (off + 2 ^ 21)) by lia.
  rewrite land_not64_mask by lia.
  replace ((off + 2 ^ 21) mod 2 ^ 21) with (off mod 2 ^ 21)
    by (symmetry; apply (Z_mod_plus_full off 1 (2 ^ 21))).
  assert (Hdm : (2 ^ 21 - off mod 2 ^ 21) mod 4096 = 0) by (by apply mult_sub).
  destruct (Z.leb_spec (off + 2 ^ 21 - off mod 2 ^ 21) (off + io)) as [Hle|Hgt].
  - replace (off + 2 ^ 21 - off mod 2 ^ 21 - off) with (2 ^ 21 - off mod 2 ^ 21) by lia.
    rewrite u32_small by lia. repeat split; (done || lia).
  - repeat split; (done || lia).
Qed.

(** ** What a write does *)

(** What [userfs_file_write] relies on: in a state that is ready for a piece
    at [off] in a file of size [isize], a supported piece is written whole
    and the state is ready for the next one.  [g] is the granularity the
    writer asks for: offsets and lengths are multiples of it; pieces end at
    or below [top]. *)
Class ChunkWriter {S : Type} (snfs : Z → Z → list Z → M S Z) (g top : Z)
    (Ready : Z → Z → S → Prop) : Prop := {
  grain_block : (g | 4096);
  writes_all isize off buf s :
    Ready isize off s → chunk_ok off (Z.of_nat (length buf)) →
    off + Z.of_nat (length buf) ≤ top → (g | off) → (g | Z.of_nat (length buf)) →
    ∃ s', snfs isize off buf s = Ok (Z.of_nat (length buf), s')
      ∧ Ready (Z.max isize (off + Z.of_nat (length buf))) (off + Z.of_nat (length buf)) s'
}.

(** One writer of pieces in the sense of the class, for the pieces in [P]. *)
Definition writes {S : Type} (w : Z → Z → list Z → M S Z) (g top : Z) (Ready : Z → Z → S → Prop)
    (P : Z → Z → Prop) : Prop :=
  ∀ isize off buf s, Ready isize off s → chunk_ok off (Z.of_nat (length buf)) →
    off + Z.of_nat (length buf) ≤ top → (g | off) → (g | Z.of_nat (length buf)) → P off (Z.of_nat (length buf)) →
    ∃ s', w isize off buf s = Ok (Z.of_nat (length buf), s')
      ∧ Ready (Z.max isize (off + Z.of_nat (length buf))) (off + Z.of_nat (length buf)) s'.

(** [snfs_write] provides it when each writer of a piece does so for the
    pieces it is meant for. *)
#[export] Instance snfs_write_chunks {S} (usw asw aw : Z → Z → list Z → M S Z) g top Ready :
  (g | 4096) →
  writes usw g top Ready (λ off _, off mod 4096 ≠ 0) →
  writes asw g top Ready (λ off len, off mod 4096 = 0 ∧ len < 4096) →
  writes aw g top Ready (λ off len, off mod 4096 = 0 ∧ 4096 ≤ len) →
  ChunkWriter (snfs_write usw asw aw) g top Ready.
Proof.
  intros Hg Hu Ha Hw. split; [done|]. intros isize off buf s Hr Hc Htop Hg1 Hg2. unfold snfs_write.
  pose proof Hc as (Hl & H0 & Hb & Hcase).
  rewrite land_not64_mask by lia. change (2 ^ 12) with 4096.
  change g_block_size_bytes with 4096.
  pose proof (Z.mod_pos_bound off 4096 ltac:(lia)) as Hm.
  destruct (Z.ltb_spec (off - off mod 4096) off) as [Hlt|Hge]; cbn [andb].
  - rewrite u32_small by lia.
    destruct (Z.ltb_spec 4096 (Z.of_nat (length buf) + off - (off - off mod 4096))); [lia|].
    apply Hu; (done || lia).
  - destruct (Z.ltb_spec (Z.of_nat (length buf)) 4096); [apply Ha|apply Hw]; (done || split; lia).
Qed.

Section write_trace.
Context {S : Type} (snfs : Z → Z → list Z → M S Z) (g top : Z) (Ready : Z → Z → S → Prop).

(** The calls made, from a state to a state: consecutive supported pieces of
    whole grains starting at [off], each with the file size of its moment. *)
Inductive wrote : Z → Z → list Z → S → S → Prop :=
  | wrote_nil isize off s : wrote isize off [] s s
  | wrote_piece isize off b bs s s1 s2 :
      chunk_ok off (Z.of_nat (length b)) → (g | off) → (g | Z.of_nat (length b)) →
      snfs isize off b s = Ok (Z.of_nat (length b), s1) →
      wrote (Z.max isize (off + Z.of_nat (length b))) (off + Z.of_nat (length b)) bs s1 s2 →
      wrote isize off (b ++ bs) s s2.

Lemma wrote_app isize off b1 b2 s s1 s2 :
  wrote isize off b1 s s1 →
  wrote (if b1 is [] then isize else Z.max isize (off + Z.of_nat (length b1)))
    (off + Z.of_nat (length b1)) b2 s1 s2 →
  wrote isize off (b1 ++ b2) s s2.
Proof.
  induction 1 as [isize off s|isize off b bs s s1 s3 Hc Hg1 Hg2 Hs Hw IH]; intros H2; simpl in *.
  { by rewrite Z.add_0_r in H2. }
  rewrite <- app_assoc. eapply wrote_piece; [done..|]. apply IH.
  pose proof Hc as (Hl & _). destruct (b ++ bs) as [|x l] eqn:E.
  { destruct b; [simpl in Hl; lia|done]. }
  rewrite <- E, length_app in H2. destruct bs as [|y bs].
  - simpl in *. rewrite Nat.add_0_r in H2. by rewrite Z.add_0_r.
  - replace (off + Z.of_nat (length b) + Z.of_nat (length (y :: bs)))
      with (off + Z.of_nat (length b + length (y :: bs))) by lia.
    replace (Z.max (Z.max isize (off + Z.of_nat (length b)))
               (off + Z.of_nat (length b + length (y :: bs))))
      with (Z.max isize (off + Z.of_nat (length b + length (y :: bs)))) by lia. done.
Qed.

Context `{!ChunkWriter snfs g top Ready}.

(** Whole blocks are whole grains. *)
Lemma grain_mult x : x mod 4096 = 0 → (g | x).
Proof. intros. eapply Z.divide_trans; [apply grain_block|]. by apply Z.mod_divide. Qed.

Lemma write_piece_ok isize off buf s :
  Ready isize off s → chunk_ok off (Z.of_nat (length buf)) →
  off + Z.of_nat (length buf) ≤ top → (g | off) → (g | Z.of_nat (length buf)) →
  ∃ s', write_piece snfs isize off buf s
          = Ok (Z.of_nat (length buf), Z.max isize (off + Z.of_nat (length buf)), s')
    ∧ wrote isize off buf s s'
    ∧ Ready (Z.max isize (off + Z.of_nat (length buf))) (off + Z.of_nat (length buf)) s'.
Proof.
  intros Hr Hc Htop Hg1 Hg2. destruct (writes_all isize off buf s Hr Hc Htop Hg1 Hg2) as (s' & E & Hr').
  exists s'. pose proof Hc as (? & ? & ? & _). unfold write_piece; unfold_M.
  rewrite E. rewrite (u64_small (off + _)) by lia.
  destruct (Z.ltb_spec 0 (Z.of_nat (length buf))); [|lia]. cbn [andb]. split; [|split; [|done]].
  - do 3 f_equal. case_if; lia.
  - rewrite <- (app_nil_r buf). eapply wrote_piece; [done..|]. constructor.
Qed.

(** The loop over the aligned part writes all of it. *)
Lemma aligned_loop_ok fuel buf stop i off isize s :
  Ready isize off s → off + (stop - i) ≤ top → 0 ≤ i ≤ stop → stop ≤ Z.of_nat (length buf) → stop < 2 ^ 32 → 0 ≤ off →
  off + (stop - i) < 2 ^ 62 → (stop - i) mod 4096 = 0 → (0 < stop - i → off mod 4096 = 0) →
  stop - i < Z.of_nat fuel →
  ∃ s', aligned_loop snfs buf stop i off isize fuel s
          = Ok (stop, off + (stop - i),
                if i <? stop then Z.max isize (off + (stop - i)) else isize, s')
    ∧ wrote isize off (take (Z.to_nat (stop - i)) (drop (Z.to_nat i) buf)) s s'
    ∧ Ready (if i <? stop then Z.max isize (off + (stop - i)) else isize) (off + (stop - i)) s'.
Proof.
  revert i off isize s. induction fuel as [|fuel IH];
    intros i off isize s Hr Htop Hi Hst H32 H0 Hb Hm Hal Hf; [lia|].
  cbn [aligned_loop]. destruct (Z.ltb_spec i stop) as [Hlt|Hge].
  2: { exists s. assert (i = stop) as -> by lia. rewrite Z.sub_diag, Z.add_0_r.
       split; [done|]. split; [constructor|done]. }
  specialize (Hal ltac:(lia)). change g_block_size_bytes with 4096.
  rewrite Hal. cbn [Z.eqb assertM].
  destruct (chunk_size_ok off (stop - i) ltac:(lia) Hal ltac:(lia) Hm) as (Hc1 & Hc2 & Hc3).
  set (c := chunk_size off (stop - i)) in *.
  set (b := take (Z.to_nat c) (drop (Z.to_nat i) buf)).
  assert (Hlb : Z.of_nat (length b) = c).
  { unfold b. rewrite length_take, length_drop. lia. }
  assert (Hck : chunk_ok off (Z.of_nat (length b))).
  { rewrite Hlb. repeat split; [lia..|]. right. right. repeat split; done || lia. }
  destruct (write_piece_ok isize off b s Hr Hck) as (s1 & E1 & Hw1 & Hr1);
    [lia|by apply grain_mult|rewrite Hlb; by apply grain_mult|]. rewrite Hlb in E1, Hr1.
  unfold_M. rewrite E1. destruct (Z.ltb_spec c 0); [lia|]. rewrite Z.eqb_refl.
  destruct (Z.ltb_spec 0 c); [|lia]. rewrite (u64_small (off + c)) by lia.
  assert (Hm' : (stop - (i + c)) mod 4096 = 0)
    by (replace (stop - (i + c)) with (stop - i - c) by lia; by apply mult_sub).
  destruct (IH (i + c) (off + c) (Z.max isize (off + c)) s1) as (s2 & E2 & Hw2 & Hr2);
    [done|lia|lia|lia|lia|lia|lia|done|intros _; by apply mult_add|lia|].
  exists s2. rewrite E2. split.
  { do 3 f_equal; [f_equal; lia|]. case_if; lia. }
  split.
  2: { replace (off + (stop - i)) with (off + c + (stop - (i + c))) by lia.
       replace (Z.max isize _) with (if i + c <? stop then Z.max (Z.max isize (off + c))
         (off + c + (stop - (i + c))) else Z.max isize (off + c)) by (case_if; lia). done. }
  replace (take (Z.to_nat (stop - i)) (drop (Z.to_nat i) buf))
    with (b ++ take (Z.to_nat (stop - (i + c))) (drop (Z.to_nat (i + c)) buf)).
  - eapply wrote_app; [exact Hw1|]. rewrite Hlb. destruct b as [|x b'] eqn:Eb; [simpl in Hlb; lia|].
    exact Hw2.
  - unfold b. replace (Z.to_nat (i + c)) with (Z.to_nat i + Z.to_nat c)%nat by lia.
    rewrite <- drop_drop.
    replace (Z.to_nat (stop - i)) with (Z.to_nat c + Z.to_nat (stop - (i + c)))%nat by lia.
    set (d := drop (Z.to_nat i) buf). rewrite <- (take_drop (Z.to_nat c) d) at 3.
    rewrite take_app_add'; [done|]. unfold d. rewrite length_take, length_drop. lia.
Qed.

(** The head or the tail, when there is one. *)
Lemma edge_write_ok sz buf i off isize s :
  Ready isize off s → off + sz ≤ top → (0 < sz → (g | off)) → (g | sz) →
  0 ≤ i → 0 ≤ sz → i + sz ≤ Z.of_nat (length buf) → (0 < sz → chunk_ok off sz) →
  0 ≤ off → off + sz < 2 ^ 62 →
  ∃ s', edge_write snfs sz buf i off isize s
          = Ok (i + sz, off + sz, if 0 <? sz then Z.max isize (off + sz) else isize, s')
    ∧ wrote isize off (take (Z.to_nat sz) (drop (Z.to_nat i) buf)) s s'
    ∧ Ready (if 0 <? sz then Z.max isize (off + sz) else isize) (off + sz) s'.
Proof.
  intros Hr Htop Hg1 Hg2 Hi Hp Hl Hc H0 Hb. unfold edge_write. destruct (Z.ltb_spec 0 sz) as [Hlt|Hge].
  - set (b := take (Z.to_nat sz) (drop (Z.to_nat i) buf)).
    assert (Hlb : Z.of_nat (length b) = sz) by (unfold b; rewrite length_take, length_drop; lia).
    destruct (write_piece_ok isize off b s Hr) as (s1 & E1 & Hw1 & Hr1);
      [rewrite Hlb; by apply Hc|lia|by apply Hg1|by rewrite Hlb|].
    rewrite Hlb in E1, Hr1. exists s1. unfold_M. rewrite E1.
    destruct (Z.ltb_spec 0 sz); [|lia]. by rewrite u64_small by lia.
  - assert (sz = 0) as -> by lia. exists s. rewrite !Z.add_0_r. split; [done|]. split; [constructor|done].
Qed.

(** Sizes along consecutive pieces. *)
Lemma wrote_seq isize off b1 b2 z s s1 s2 :
  wrote isize off b1 s s1 → Z.of_nat (length b1) = z →
  wrote (if 0 <? z then Z.max isize (off + z) else isize) (off + z) b2 s1 s2 →
  wrote isize off (b1 ++ b2) s s2.
Proof.
  intros H1 <- H2. eapply wrote_app; [exact H1|]. destruct b1 as [|x b1]; [exact H2|].
  by destruct (Z.ltb_spec 0 (Z.of_nat (length (x :: b1)))); [|simpl in *; lia].
Qed.

(** The pieces of a request of whole grains are of whole grains. *)
Lemma cut_grain off n pre mid app :
  cut_ok off n pre mid app → (g | off) → (g | n) → (g | pre) ∧ (g | app).
Proof.
  intros [Hsum Hpre Hmid Happ Hpin Hmal Hral] Ho Hn.
  assert (Hgm : (g | mid)) by (by apply grain_mult).
  destruct (Z.ltb_spec 0 (mid + app)) as [Hlt|].
  - assert (Hp : (g | pre)).
    { replace pre with (off + pre - off) by lia.
      apply Z.divide_sub_r; [by apply grain_mult, Hral|done]. }
    split; [done|]. replace app with (n - pre - mid) by lia. by repeat apply Z.divide_sub_r.
  - replace app with 0 by lia. replace pre with n by lia. split; [done|apply Z.divide_0_r].
Qed.

Lemma file_write_ok f isize buf s :
  Ready isize (f_off f) s → f_off f + Z.of_nat (length buf) ≤ top → (g | f_off f) → (g | Z.of_nat (length buf)) →
  f_writable f = true → f_type f = FD_INODE → 0 ≤ f_off f → 0 ≤ isize →
  Z.of_nat (length buf) < 2 ^ 31 → f_off f + Z.of_nat (length buf) < 2 ^ 62 →
  let n := Z.of_nat (length buf) in
  let isize' := if 0 <? n then Z.max isize (f_off f + n) else isize in
  ∃ s', userfs_file_write snfs f isize buf s = Ok (n, set_off (f_off f + n) f, isize', s')
    ∧ wrote isize (f_off f) buf s s' ∧ Ready isize' (f_off f + n) s'.
Proof.
  intros Hr Htop Hgo Hgn Hwr Hty H0 His H32 Hb n. unfold userfs_file_write. fold n. rewrite Hwr, Hty.
  cbn [negb].
  rewrite Z.eqb_refl. pose proof (write_sizes_ok (f_off f) n H0 ltac:(lia) Hb) as Hcut.
  destruct (write_sizes (f_off f) n) as [[pre mid] app].
  destruct (cut_grain _ _ _ _ _ Hcut Hgo Hgn) as [Hgp Hga].
  destruct Hcut as [Hsum Hpre Hmid Happ Hpin Hmal Hral].
  rewrite (u64_small (f_off f + n)) by lia.
  change g_block_size_bytes with 4096. destruct (Z.ltb_spec pre 4096); [|lia].
  rewrite orb_true_r. cbn [assertM].
  destruct (edge_write_ok pre buf 0 (f_off f) isize s) as (s1 & E1 & Hw1 & Hr1);
    [done|lia|done|done|lia..| |lia|lia|].
  { intros Hp. destruct (Hpin Hp). repeat split; [lia..|]. by left. }
  set (is1 := if 0 <? pre then _ else isize) in *. rewrite Z.add_0_l in E1.
  destruct (aligned_loop_ok (Datatypes.S (length buf)) buf (n - app) pre (f_off f + pre) is1 s1)
    as (s2 & E2 & Hw2 & Hr2); [done|lia|lia|lia|lia|lia|lia| | |lia|].
  { by replace (n - app - pre) with mid by lia. }
  { intros. apply Hral. lia. }
  replace (n - app - pre) with mid in * by lia.
  set (is2 := if pre <? n - app then _ else is1) in *.
  destruct (edge_write_ok app buf (n - app) (f_off f + pre + mid) is2 s2) as (s3 & E3 & Hw3 & Hr3);
    [done|lia| |done|lia..| |lia|lia|].
  { intros. apply grain_mult, mult_add; [apply Hral; lia|done]. }
  { intros Hp. assert (Hm : (f_off f + pre + mid) mod 4096 = 0)
      by (apply mult_add; [apply Hral; lia|done]).
    repeat split; [lia..|]. right. left. split; [done|lia]. }
  exists s3. unfold_M. rewrite E1, E2, E3. replace (n - app + app) with n by lia.
  rewrite Z.eqb_refl, i32_small by lia. split.
  { do 3 f_equal; [f_equal; f_equal; lia|].
    destruct (Z.ltb_spec 0 n), (Z.ltb_spec isize (f_off f + n)); simpl; lia. }
  split.
  2: { replace (f_off f + n) with (f_off f + pre + mid + app) by lia.
       replace (if 0 <? n then _ else isize)
         with (if 0 <? app then Z.max is2 (f_off f + pre + mid + app) else is2); [done|].
       unfold is2, is1. repeat case_if; lia. }
  rewrite <- (take_drop (Z.to_nat pre) buf).
  eapply (wrote_seq _ _ _ _ pre); [exact Hw1|rewrite length_take; simpl; lia|].
  set (d := drop (Z.to_nat pre) buf). rewrite <- (take_drop (Z.to_nat mid) d).
  eapply (wrote_seq _ _ _ _ mid); [exact Hw2|unfold d; rewrite length_take, length_drop; lia|].
  replace (if 0 <? mid then _ else is1) with is2.
  - unfold d. rewrite drop_drop.
    replace (Z.to_nat pre + Z.to_nat mid)%nat with (Z.to_nat (n - app)) by lia.
    rewrite take_ge in Hw3 by (rewrite length_drop; lia). exact Hw3.
  - unfold is2. destruct (Z.ltb_spec pre (n - app)), (Z.ltb_spec 0 mid); done || lia.
Qed.

(** userfs_file_write with any piece writer that writes supported pieces
    whole returns the requested length, moves the offset and the size, and
    makes consecutive calls that cover the buffer exactly, each inside one
    block or of whole blocks inside one 2 MiB block. *)
Theorem file_write_pieces f isize buf s :
  Ready isize (f_off f) s → f_off f + Z.of_nat (length buf) ≤ top →
  (g | f_off f) → (g | Z.of_nat (length buf)) →
  f_writable f = true → f_type f = FD_INODE → 0 ≤ f_off f → 0 ≤ isize →
  Z.of_nat (length buf) < 2 ^ 31 → f_off f + Z.of_nat (length buf) < 2 ^ 62 →
  let n := Z.of_nat (length buf) in
  let isize' := if 0 <? n then Z.max isize (f_off f + n) else isize in
  ∃ s', userfs_file_write snfs f isize buf s = Ok (n, set_off (f_off f + n) f, isize', s')
    ∧ wrote isize (f_off f) buf s s'.
Proof.
  intros. destruct (file_write_ok f isize buf s) as (s' & ? & ? & _); try done. by exists s'.
Qed.
End write_trace.

(** ** What a read does *)
Section read_spec.
Context {S : Type} (dur dar : Z → Z → M S (Z * list Z)).
(** The content of the file, and readers that deliver it for the pieces
    they are given, without changing it. *)
Context (content : S → Z → Z).
Definition slice (s : S) (off n : Z) : list Z := (λ i : nat, content s (off + Z.of_nat i)) <$> seq 0 (Z.to_nat n).

Class PieceReader : Prop := {
  unaligned_reads off n s : 0 < n < 4096 → 0 ≤ off → off mod 4096 + n ≤ 4096 →
    ∃ s', dur off n s = Ok (n, slice s off n, s') ∧ ∀ x, content s' x = content s x;
  aligned_reads off n s : 0 < n < 2 ^ 32 → 0 ≤ off → off mod 4096 = 0 → n mod 4096 = 0 →
    ∃ r s', dar off n s = Ok (r, slice s off n, s') ∧ ∀ x, content s' x = content s x
}.
Context `{!PieceReader}.

Lemma slice_app s off a b :
  0 ≤ a → 0 ≤ b → slice s off (a + b) = slice s off a ++ slice s (off + a) b.
Proof.
  intros. unfold slice. rewrite Z2Nat.inj_add, seq_app, fmap_app by lia. f_equal.
  replace (seq (0 + Z.to_nat a) (Z.to_nat b)) with (Nat.add (Z.to_nat a) <$> seq 0 (Z.to_nat b))
    by (rewrite fmap_add_seq; f_equal; lia).
  rewrite <- list_fmap_compose.
  apply list_fmap_ext. intros i x _. simpl. f_equal. lia.
Qed.
Lemma slice_ext s s' off n : (∀ x, content s' x = content s x) → slice s' off n = slice s off n.
Proof. intros Hc. apply list_fmap_ext. intros. apply Hc. Qed.
Lemma slice_length s off n : 0 ≤ n → Z.of_nat (length (slice s off n)) = n.
Proof. intros. unfold slice. rewrite length_fmap, length_seq. lia. Qed.

(** Bytes stored one after the other from position [pos]. *)
Fixpoint placed (pos : Z) (ps : list (Z * list Z)) : Prop :=
  match ps with [] => True | (p, d) :: ps => p = pos ∧ placed (pos + Z.of_nat (length d)) ps end.
Lemma placed_app pos ps qs :
  placed pos ps → placed (pos + Z.of_nat (length (concat (snd <$> ps)))) qs → placed pos (ps ++ qs).
Proof.
  revert pos. induction ps as [|[p d] ps IH]; intros pos; simpl.
  { by rewrite Z.add_0_r. }
  intros [-> Hp] Hq. split; [done|]. apply IH; [done|]. rewrite length_app in Hq.
  by replace (pos + Z.of_nat (length d) + _) with
    (pos + Z.of_nat (length d + length (concat (snd <$> ps)))) by lia.
Qed.

(** One piece: the bytes it stores and the state after it. *)
Definition delivers (m : M S (list (Z * list Z))) (s : S) (off n pos : Z) : Prop :=
  ∃ ps s', m s = Ok (ps, s') ∧ (∀ x, content s' x = content s x)
    ∧ concat (snd <$> ps) = slice s off n ∧ placed pos ps.

Lemma unaligned_piece_ok off sz pos s :
  0 ≤ sz → (0 < sz → sz < 4096 ∧ off mod 4096 + sz ≤ 4096) → 0 ≤ off →
  delivers (unaligned_piece dur off sz pos) s off sz pos.
Proof.
  intros Hz Hs H0. unfold delivers, unaligned_piece.
  destruct (Z.eqb_spec sz 0) as [->|Hne]; [by eexists [], s|].
  destruct (Hs ltac:(lia)). destruct (unaligned_reads off sz s) as (s' & E & Hc); [lia..|].
  unfold_M. rewrite E, Z.eqb_refl. eexists _, s'. split; [done|]. split; [done|].
  simpl. by rewrite app_nil_r.
Qed.

(** readi with piece readers that deliver the file's bytes returns as
    many bytes as asked for or as there are, and the pieces stored in the
    destination are, one after the other, the bytes of the file from the
    offset on. *)
Theorem readi_ok isize off io_size s :
  0 ≤ off < isize → isize < 2 ^ 62 → 0 < io_size < 2 ^ 31 →
  let n := Z.min io_size (isize - off) in
  ∃ ps s', readi dur dar isize off io_size s = Ok (n, ps, s')
    ∧ concat (snd <$> ps) = slice s off n ∧ placed 0 ps.
Proof.
  intros Ho Hi Hn n. unfold readi. destruct (Z.ltb_spec off isize); [|lia]. cbn [assertM].
  rewrite (u64_small (off + io_size)) by lia.
  replace (if isize <? off + io_size then u32 (isize - off) else io_size) with n
    by (unfold n; case_if; [rewrite u32_small; lia|lia]).
  pose proof (readi_sizes_ok off n ltac:(lia) ltac:(lia) ltac:(lia)) as Hz0. cbv zeta in Hz0.
  generalize dependent (readi_sizes off n). intros [sm pr al ap] Hz0. simpl in *.
  assert (Hz : sm + pr + al + ap = n ∧ 0 ≤ sm ∧ 0 ≤ pr ∧ 0 ≤ al ∧ 0 ≤ ap
    ∧ (0 < sm → sm < 4096 ∧ off mod 4096 + sm ≤ 4096)
    ∧ (0 < pr → sm = 0 ∧ pr < 4096 ∧ off mod 4096 + pr ≤ 4096)
    ∧ (0 < al → sm = 0 ∧ (off + pr) mod 4096 = 0 ∧ al mod 4096 = 0)
    ∧ (0 < ap → sm = 0 ∧ ap < 4096 ∧ (off + pr + al) mod 4096 = 0)).
  { destruct Hz0 as [(E1 & E2 & E3 & E4 & E5 & E6)|(E1 & [Hs Hp Hm Ha Hp' Hm' Hr])].
    - repeat split; lia.
    - repeat split; try lia; try done.
      apply mult_add; [apply Hr; lia|done]. }
  destruct Hz as (Hsum & H1 & H2 & H3 & H4 & Hsm & Hpr & Hal & Hap).
  (* the pieces, one after the other *)
  destruct (unaligned_piece_ok off sm 0 s) as (p1 & s1 & E1 & C1 & B1 & P1); [lia|lia|lia|].
  destruct (unaligned_piece_ok (off + sm) pr sm s1) as (p2 & s2 & E2 & C2 & B2 & P2); [lia| |lia|].
  { intros Hp. destruct (Hpr Hp) as (-> & ? & ?). rewrite Z.add_0_r. done. }
  assert (D3 : delivers (if al =? 0 then mret [] else
      '(_, d) ← dar (off + sm + pr) al; mret [(off + sm + pr - off, d)]) s2 (off + sm + pr) al (sm + pr)).
  { unfold delivers. destruct (Z.eqb_spec al 0) as [->|]; [by eexists [], s2|].
    destruct (Hal ltac:(lia)) as (-> & Hm1 & Hm2). rewrite Z.add_0_r in *.
    destruct (aligned_reads (off + pr) al s2) as (r & s3 & E & Hc); [lia|lia|done|done|].
    unfold_M. rewrite E. eexists _, s3. split; [done|]. split; [done|].
    simpl. rewrite app_nil_r. split; [done|]. split; [lia|done]. }
  destruct D3 as (p3 & s3 & E3 & C3 & B3 & P3).
  destruct (unaligned_piece_ok (off + sm + pr + al) ap (off + sm + pr + al - off) s3)
    as (p4 & s4 & E4 & C4 & B4 & P4); [lia| |lia|].
  { intros Hp. destruct (Hap Hp) as (-> & ? & Hm). rewrite Z.add_0_r, Hm. lia. }
  unfold mbind in E3 |- *. unfold mret in E3 |- *. unfold M_bind, M_ret in *.
  rewrite E1, E2, E3, E4. eexists _, s4. split; [by rewrite Hsum, i32_small by lia|].
  rewrite !fmap_app, !concat_app, B1, B2, B3, B4.
  rewrite (slice_ext s s1 _ _ C1), (slice_ext s s2), (slice_ext s s3) by
    (intros; rewrite ?C3, ?C2, ?C1; done).
  split.
  - rewrite <- Hsum, !slice_app by lia. rewrite <- !app_assoc.
    by rewrite ?Z.add_assoc.
  - apply placed_app; [done|]. rewrite B1, slice_length by lia.
    apply placed_app; [done|]. rewrite B2, slice_length by lia.
    apply placed_app; [done|]. rewrite B3, slice_length by lia.
    by replace (0 + sm + pr + al) with (off + sm + pr + al - off) by lia.
Qed.
End read_spec.

(** ** Instances

    A writer that records its calls, and a reader of a file whose byte at
    [x] is [x mod 251]. *)
Definition record_write (isize off : Z) (buf : list Z) : M (list (Z * list Z)) Z :=
  λ s, Ok (Z.of_nat (length buf), s ++ [(off, buf)]).

#[local] Instance record_writer : ChunkWriter record_write 1 (2 ^ 62) (λ _ _ _, True).
Proof. split; [apply Z.divide_1_l|]. intros. by eexists. Qed.

Lemma file_write_pieces_witness :
  ∃ s', userfs_file_write record_write (mkFile FD_INODE 1 0 true true 4000) 4000 (replicate 5000 1) []
          = Ok (5000, mkFile FD_INODE 1 0 true true 9000, 9000, s')
    ∧ wrote record_write 1 4000 4000 (replicate 5000 1) [] s'.
Proof.
  apply (file_write_pieces record_write 1 (2 ^ 62) (λ _ _ _, True)
    (mkFile FD_INODE 1 0 true true 4000) 4000 (replicate 5000 1) []); try done;
    try apply Z.divide_1_l; vm_compute; done.
Defined.

Definition read_mod (off n : Z) : M () (Z * list Z) :=
  λ s, Ok (n, slice (λ _ x, x mod 251) s off n, s).

#[local] Instance read_mod_pieces : PieceReader read_mod read_mod (λ _ x, x mod 251).
Proof. split; intros; unfold read_mod; eexists; try eexists; split; done. Qed.

Lemma readi_ok_witness :
  ∃ ps s', readi read_mod read_mod 9000 4000 6000 tt = Ok (5000, ps, s')
    ∧ concat (snd <$> ps) = slice (λ _ x, x mod 251) tt 4000 5000 ∧ placed 0 ps.
Proof. apply (readi_ok read_mod read_mod (λ _ x, x mod 251) 9000 4000 6000 tt); lia. Defined.
