(* ===== verification/Write.v ===== *)
(** * Write: the writers of one piece ([filesystem/file.c])

    [snfs_write] hands a piece to [unaligned_smallwrite],
    [aligned_smallwrite] or [aligned_write].  Each of them takes space from
    the allocators, writes the bytes to a device, appends an extent to the
    log and, for appended bytes, enters them into the block index.  The
    build does not define [CONCURRENT], so every transfer is synchronous. *)
From Stdlib Require Import ZArith Lia.
From stdpp Require Import base numbers list gmap strings.
From S2P Require Import Prelude Util Bytes RbTree BlkTree Upsert Alloc Log Storage Inode Bmap FileIO.

(** [writethdnum = nvmnum*1+ssdnum], with [nvmnum] 1 and [ssdnum] 3. *)
Definition nvmnum : Z := 1.
Definition ssdnum : Z := 3.
Definition writethdnum : Z := u8 (nvmnum * 1 + ssdnum).

(** What a writer works on: the inode, the allocators, the log and the
    devices. *)
Record world : Type := mkWorld {
  w_ip : inode;
  w_space : Blocks.space;
  w_log : log;
  w_devs : devices
}.
Definition set_ip (i : inode) (w : world) : world := mkWorld i (w_space w) (w_log w) (w_devs w).
Definition w_cur (w : world) : cursor := i_cur (w_ip w).
Definition w_tree (w : world) : blktree := i_blktree (w_ip w).
Definition upd_cur (f : cursor → cursor) (w : world) : world :=
  set_ip (set_cur (f (w_cur w)) (w_ip w)) w.
Definition upd_tree (t : blktree) (w : world) : world := set_ip (set_tree t (w_ip w)) w.

(** ** Space *)

(** The test before every write: the position is at the end of its block.
    On an SSD the block ends at a multiple of 2 MiB, in persistent memory
    after 512 blocks from its start. *)
Definition need_block (devid pos base : Z) : bool :=
  ((shl64 pos 43 =? 0) && (0 <? devid))
  || ((devid =? 0) && ((pos =? 0) || (512 <=? shr64 (u64 (pos - base)) g_block_size_shift))).

(** The [switch (ip->wrthdnum)]: address, device and counter. *)
Definition next_block (wrthdnum : Z) (s : Blocks.space) : Z * Z * Z * Blocks.space :=
  let n := wrthdnum mod writethdnum in
  let '(a, d, s) :=
    if n =? 1 then let '(a, s) := Blocks.allocate_ssd1block s in (a, 1, s)
    else if n =? 2 then let '(a, s) := Blocks.allocate_ssd2block s in (a, 2, s)
    else if n =? 3 then let '(a, s) := Blocks.allocate_ssd3block s in (a, 3, s)
    else let '(a, s) := Blocks.allocate_nvmblock 512 s in (a, 0, s) in
  (a, d, u32 (n + 1), s).

(** The switch for the append position. *)
Definition refill_append (w : world) : world :=
  let c := w_cur w in
  let '(a, d, n, s) := next_block (c_wrthdnum c) (w_space w) in
  let nvm := d =? 0 in
  let c := mkCur d (if nvm then a else c_nvmoff c) a (c_nvmblock c)
             (if nvm then a else c_usednvms c) (c_rwoff c) (c_rwsoff c) (c_rwnvmsize c) n in
  mkWorld (set_cur c (w_ip w)) s (w_log w) (w_devs w).

(** The switch for the overwrite position. *)
Definition refill_inplace (w : world) : world :=
  let c := w_cur w in
  let '(a, d, n, s) := next_block (c_wrthdnum c) (w_space w) in
  let nvm := d =? 0 in
  let c := mkCur d (if nvm then a else c_nvmoff c) (c_ssdoff c) (c_nvmblock c)
             (c_usednvms c) a a (if nvm then a else c_rwnvmsize c) n in
  mkWorld (set_cur c (w_ip w)) s (w_log w) (w_devs w).

Definition room_append : M world unit :=
  w ← get;
  let c := w_cur w in
  when (need_block (c_devid c) (c_ssdoff c) (c_usednvms c)) (modify refill_append).

Definition room_inplace : M world unit :=
  w ← get;
  let c := w_cur w in
  when (need_block (c_devid c) (c_rwoff c) (c_rwsoff c)) (modify refill_inplace).

(** [ip->ssdoff += n] and [ip->rwoff += n]. *)
Definition add_ssdoff (n : Z) (c : cursor) : cursor :=
  mkCur (c_devid c) (c_nvmoff c) (u64 (c_ssdoff c + n)) (c_nvmblock c) (c_usednvms c) (c_rwoff c)
    (c_rwsoff c) (c_rwnvmsize c) (c_wrthdnum c).
Definition add_rwoff (n : Z) (c : cursor) : cursor :=
  mkCur (c_devid c) (c_nvmoff c) (c_ssdoff c) (c_nvmblock c) (c_usednvms c) (u64 (c_rwoff c + n))
    (c_rwsoff c) (c_rwnvmsize c) (c_wrthdnum c).
Definition set_nvmoff (n : Z) (c : cursor) : cursor :=
  mkCur (c_devid c) n (c_ssdoff c) (c_nvmblock c) (c_usednvms c) (c_rwoff c)
    (c_rwsoff c) (c_rwnvmsize c) (c_wrthdnum c).

Section writers.
(** The devices ([O_DIRECT] unit and fresh buffers), the kernel's answers,
    the time of day and the content of a block [malloc] returns. *)
Context (unit : Z) (fresh : list Z) (fetch : Z → option tmpinode) (now : Z) (mbuf : list Z).

(** The extent [append_fsextent] fills in; [blkoff] is the write position of
    the inode it records for appends. *)
Definition fsextent (ino off : Z) (bh : buffer_head) (blkoff : Z) : fuckfs_extent :=
  let start := shl64 (b_blocknr bh) g_block_size_shift in
  {| ex_ino := u32 ino; ex_entry_type := FILE_WRITE; ex_device_id := u8 (b_dev bh - 1);
     ex_blkoff_hi := u8 (shr64 blkoff 32); ex_isappend := 1; ex_mtime := u32 now;
     ext_block := u32 (shr64 off g_block_size_shift);
     ext_len := u16 (shr64 (u32 (b_size bh + 4095)) g_block_size_shift);
     ext_start_hi := u16 (shr64 start 32);
     ext_start_lo := u32 (u32 start + Z.land off 4095);
     ex_size := b_size bh; ex_blkoff_lo := u32 blkoff |}.

(** [append_fsextent(ip, off, bh, append)]. *)
Definition append_fsextent (off : Z) (bh : buffer_head) (append : Z) (w : world) : world :=
  let w := if (append =? 1) && (b_dev bh =? 1)
           then upd_cur (set_nvmoff (c_ssdoff (w_cur w))) w else w in
  let blkoff := if (append =? 1) && (b_dev bh =? 1) then c_nvmoff (w_cur w)
                else if (append =? 1) && (1 <? b_dev bh) then c_ssdoff (w_cur w) else 0 in
  mkWorld (w_ip w) (w_space w)
    (append_entry_log (extent_bytes (fsextent (i_inum (w_ip w)) off bh blkoff)) 0 (w_log w))
    (w_devs w).

(** [userfs_write(bh)] and [append_fsextent(ip, off, bh, append)]. *)
Definition submit (bh : buffer_head) (data : list Z) (off append : Z) : M world () := λ w,
  ds ← userfs_write unit fresh bh data (w_devs w);
  Ok (tt, append_fsextent off bh append (mkWorld (w_ip w) (w_space w) (w_log w) ds)).

(** [insert_blktree(ip, devid, addr, off, size)]. *)
Definition insert_index (devid addr off size : Z) : M world () := λ w,
  '(_, t) ← insert_blktree (w_tree w) devid addr off size;
  Ok (tt, upd_tree t w).

(** [block_search], and [bmap] and a second search when it finds nothing;
    [bmap] may move [start_offset]. *)
Definition find_node (off : Z) : M world (option nat) := λ w,
  match block_search (w_tree w) off with
  | Some j => Ok (Some j, w)
  | None =>
      '(_, ip, r) ← bmap fetch (w_devs w g_root_dev) (w_ip w) (mkReq off 0 0 0);
      let w := set_ip ip w in
      Ok (block_search (w_tree w) (start_offset r), w)
  end.

(** [memcpy(readbuf+pos, buf, size)] on a fresh 4 KiB buffer. *)
Definition patched (pos : Z) (buf : list Z) : list Z :=
  take (Z.to_nat pos) mbuf ++ buf ++ drop (Z.to_nat pos + length buf) mbuf.

(** [unaligned_smallwrite(ip, buf, off, size)]; the buffer head for the read
    of the old block is never submitted. *)
Definition unaligned_smallwrite (isize off : Z) (buf : list Z) : M world Z :=
  let size := Z.of_nat (length buf) in
  let off_aligned_4K := Z.land off (not64 (2 ^ 12 - 1)) in
  blocknode ← find_node off_aligned_4K;
  match blocknode with
  | None => panic "unaligned_smallwrite bug!!"
  | Some j =>
      if off =? isize then
        w ← get;
        let n := node_at (w_tree w) j in
        let bh := mkBh (devid n)
                    (u64 (addr n + shr64 (u64 (fileoff n - off_aligned_4K)) g_block_size_shift))
                    size (u32 (off - off_aligned_4K)) in
        modify (upd_cur (add_ssdoff size)) ;;
        submit bh buf off 1 ;;
        modify (λ w, let n := node_at (w_tree w) j in
                     upd_tree (node_set j (set_size (u64 (BlkTree.size n + size)) n) (w_tree w)) w) ;;
        mret size
      else if off <? isize then
        room_inplace ;;
        w ← get;
        let bh := mkBh 1 (shr64 (c_rwoff (w_cur w)) 12) g_block_size_bytes 0 in
        modify (upd_cur (add_rwoff g_block_size_bytes)) ;;
        submit bh (patched (off - off_aligned_4K) buf) off 0 ;;
        mret size
      else panic "write not supported"
  end.

(** The append of one piece, in [aligned_smallwrite] and [aligned_write]:
    the buffer head at the append position, the write, the extent and the
    index. *)
Definition append_piece (off : Z) (buf : list Z) : M world () :=
  w ← get;
  let size := Z.of_nat (length buf) in
  let c := w_cur w in
  modify (upd_cur (add_ssdoff size)) ;;
  submit (mkBh (u8 (c_devid c + 1)) (shr64 (c_ssdoff c) 12) size 0) buf off 1 ;;
  insert_index (u8 (c_devid c + 1)) (c_ssdoff c) off size.

Definition in_2M (x : Z) : Z := Z.land x (2 ^ g_lblock_size_shift - 1).

(** The overwrite of [aligned_smallwrite]: the second test is the first one
    again. *)
Definition smallwrite_inplace (off : Z) (buf : list Z) : M world Z :=
  let size := Z.of_nat (length buf) in
  blocknode ← find_node off;
  match blocknode with
  | None => fault "blocknode is NULL"
  | Some j =>
      w ← get;
      let n := node_at (w_tree w) j in
      let node_end := u64 (fileoff n + BlkTree.size n) in
      if u64 (off + size) <? node_end then
        let readsize := u32 (node_end - off) in
        let readsize := if g_block_size_shift <=? readsize then g_block_size_bytes else readsize in
        room_inplace ;;
        w ← get;
        let bh := mkBh 1 (shr64 (c_rwoff (w_cur w)) 12) readsize 0 in
        modify (upd_cur (add_rwoff g_block_size_bytes)) ;;
        submit bh (take (Z.to_nat readsize) (patched 0 buf)) off 0 ;;
        mret size
      else mret size
  end.

(** [aligned_smallwrite(ip, buf, off, size)]. *)
Definition aligned_smallwrite (isize off : Z) (buf : list Z) : M world Z :=
  if off <? isize then smallwrite_inplace off buf
  else
    room_append ;;
    w ← get;
    let c := w_cur w in
    if negb (c_devid c =? 0) && negb (in_2M (c_ssdoff c) =? in_2M off)
    then panic "write addr error"
    else append_piece off buf ;; mret (Z.of_nat (length buf)).

(** [aligned_write] on a piece whose tail is behind the end of the file:
    [inplace] bytes are overwritten and the rest is appended. *)
Definition write_mixed (isize off : Z) (buf : list Z) : M world Z :=
  let inplace := u32 (Align.ALIGN isize g_block_size_bytes - off) in
  w ← get;
  let c := w_cur w in
  let delta := shr64 (u64 (c_rwoff c - c_rwsoff c)) g_block_size_shift in
  when ((512 <? u64 (delta + shr64 inplace g_block_size_shift))
        || need_block (c_devid c) (c_rwoff c) (c_rwsoff c)) (modify refill_inplace) ;;
  w ← get;
  let bh := mkBh 1 (shr64 (c_rwoff (w_cur w)) 12) inplace 0 in
  modify (upd_cur (add_rwoff inplace)) ;;
  submit bh (take (Z.to_nat inplace) buf) off 0 ;;
  room_append ;;
  w ← get;
  if negb (in_2M (c_ssdoff (w_cur w)) =? in_2M off) then panic "write addr error"
  else append_piece (off + inplace) (drop (Z.to_nat inplace) buf) ;; mret (Z.of_nat (length buf)).

(** [aligned_write] on a piece inside the file. *)
Definition write_inplace (off : Z) (buf : list Z) : M world Z :=
  let size := Z.of_nat (length buf) in
  w ← get;
  let c := w_cur w in
  let delta := shr64 (u64 (c_rwoff c - c_rwsoff c)) g_block_size_shift in
  when ((512 <? u64 (delta + shr64 size g_block_size_shift))
        || need_block (c_devid c) (c_rwoff c) (c_rwsoff c)) (modify refill_inplace) ;;
  w ← get;
  let c := w_cur w in
  let bh := mkBh (u8 (c_devid c + 1)) (shr64 (c_rwoff c) 12) size 0 in
  modify (upd_cur (add_rwoff size)) ;;
  submit bh buf off 0 ;;
  mret size.

(** [aligned_write(ip, buf, off, size)]; an [off] past the end of the file
    writes nothing. *)
Definition aligned_write (isize off : Z) (buf : list Z) : M world Z :=
  let size := Z.of_nat (length buf) in
  if off =? isize then
    room_append ;;
    w ← get;
    if negb (in_2M (c_ssdoff (w_cur w)) =? in_2M off) then panic "write addr error"
    else append_piece off buf ;; mret size
  else if off <? isize then
    if Align.ALIGN isize g_block_size_bytes <? Align.ALIGN (u64 (off + size)) g_block_size_bytes
    then write_mixed isize off buf
    else write_inplace off buf
  else mret size.

(** The writer [userfs_file_write] calls. *)
Definition snfs : Z → Z → list Z → M world Z :=
  snfs_write unaligned_smallwrite aligned_smallwrite aligned_write.
End writers.

(** ** Appending whole blocks *)

(** The byte of the file at [x], through the block index. *)
Definition fcontent (w : world) (x : Z) : option Z :=
  (λ '(d, a), w_devs w d a) <$> xlate (w_tree w) x.

(** Everything on device [d] from this address on was never handed out. *)
Definition hw (s : Blocks.space) (d : Z) : Z :=
  if d =? 1 then nvm_block_addr (Blocks.ADDRINFO s) * 4096
  else Blocks.ssd_counter (d - 2) s * 2 ^ 21.

(** [left] more blocks of 2 MiB can be taken from any device. *)
Record space_ok (left : Z) (s : Blocks.space) : Prop := {
  so_nvm : 0 ≤ nvm_block_addr (Blocks.ADDRINFO s);
  so_nvm_al : nvm_block_addr (Blocks.ADDRINFO s) mod 512 = 0;
  so_start : 0 ≤ Blocks.nvmstartblock s;
  so_nvm_left : nvm_block_addr (Blocks.ADDRINFO s) + 512 * left ≤ NVMSIZE;
  so_ssd f : 0 ≤ f ≤ 2 → 0 ≤ Blocks.ssd_counter f s ∧ Blocks.ssd_counter f s + left ≤ 2 ^ 40
}.

(** The 2 MiB blocks an append from [isize] to [top] starts. *)
Definition blocks_left (top isize : Z) : Z := (top + (2 ^ 21 - 1)) / 2 ^ 21 - (isize + (2 ^ 21 - 1)) / 2 ^ 21.

Definition block_end (pos : Z) : Z := pos - pos mod 2 ^ 21 + 2 ^ 21.

(** What the index maps was handed out before. *)
Definition mapped_below (w : world) : Prop :=
  ∀ x d a, xlate (w_tree w) x = Some (d, a) → 1 ≤ d ≤ 4 ∧ a < hw (w_space w) d.

(** The append position is inside a block that is not in use from there on,
    at the same place in it as the end of the file in its 2 MiB. *)
Record positioned (left isize : Z) (w : world) : Prop := {
  po_dev : 0 ≤ c_devid (w_cur w) ≤ 3;
  po_pos : 0 ≤ c_ssdoff (w_cur w);
  po_mod : c_ssdoff (w_cur w) mod 2 ^ 21 = isize mod 2 ^ 21;
  po_hw : block_end (c_ssdoff (w_cur w)) ≤ hw (w_space w) (c_devid (w_cur w) + 1);
  po_nvm : c_devid (w_cur w) = 0 →
    c_usednvms (w_cur w) = c_ssdoff (w_cur w) - c_ssdoff (w_cur w) mod 2 ^ 21;
  po_space : 0 ≤ left ∧ space_ok left (w_space w);
  po_below : mapped_below w;
  po_free x a : xlate (w_tree w) x = Some (c_devid (w_cur w) + 1, a) →
    a < c_ssdoff (w_cur w) ∨ block_end (c_ssdoff (w_cur w)) ≤ a
}.

Definition cur_needs (w : world) : bool :=
  need_block (c_devid (w_cur w)) (c_ssdoff (w_cur w)) (c_usednvms (w_cur w)).

(** Ready for an append at [off] to a file of size [isize] that grows to at
    most [top]. *)
Record append_ready (top isize off : Z) (w : world) : Prop := {
  ar_off : off = isize;
  ar_pos : 0 ≤ isize;
  ar_num : 0 ≤ c_wrthdnum (w_cur w);
  ar_wf : tree_wf (w_tree w);
  ar_blocks : blocks_tree (w_tree w);
  ar_end x : isize ≤ x → xlate (w_tree w) x = None;
  ar_cur : if cur_needs w then
      isize mod 2 ^ 21 = 0 ∧ mapped_below w ∧ space_ok (blocks_left top isize) (w_space w)
    else isize mod 2 ^ 21 ≠ 0 ∧ positioned (blocks_left top isize) isize w
}.

Lemma blocks_left_next top isize len :
  0 < len → isize mod 2 ^ 21 + len ≤ 2 ^ 21 → isize + len ≤ top →
  blocks_left top isize = blocks_left top (isize + len) + (if isize mod 2 ^ 21 =? 0 then 1 else 0)
  ∧ 0 ≤ blocks_left top (isize + len).
Proof.
  intros H0 Hl Ht. unfold blocks_left.
  pose proof (Z.div_mod isize (2 ^ 21) ltac:(lia)) as E.
  pose proof (Z.mod_pos_bound isize (2 ^ 21) ltac:(lia)) as Hm.
  set (q := isize / 2 ^ 21) in *. set (r := isize mod 2 ^ 21) in *.
  assert (E1 : (isize + len + (2 ^ 21 - 1)) / 2 ^ 21 = q + 1).
  { symmetry. apply (Z.div_unique _ _ _ (r + len - 1)); lia. }
  assert (E2 : (isize + (2 ^ 21 - 1)) / 2 ^ 21 = q + 1 - (if r =? 0 then 1 else 0)).
  { symmetry. apply (Z.div_unique _ _ _ (if r =? 0 then 2 ^ 21 - 1 else r - 1)); case_if; lia. }
  rewrite E1, E2. split; [lia|].
  pose proof (Z.div_le_mono (isize + len + (2 ^ 21 - 1)) (top + (2 ^ 21 - 1)) (2 ^ 21)). lia.
Qed.

(** Comparison of the counters before and after an allocation. *)
Ltac hw_solve := unfold hw, Blocks.ssd_counter; cbn; repeat case_if; cbn; lia.

(** A block from the switch: where it is and what is left. *)
Lemma next_block_ok n left s :
  0 ≤ n → 0 < left → space_ok left s →
  ∃ a d n' s', next_block n s = (a, d, n', s') ∧ 0 ≤ d ≤ 3 ∧ 0 ≤ a ∧ a mod 2 ^ 21 = 0
    ∧ a = hw s (d + 1) ∧ hw s' (d + 1) = a + 2 ^ 21 ∧ a + 2 ^ 21 ≤ 2 ^ 62
    ∧ (∀ d', 1 ≤ d' ≤ 4 → d' ≠ d + 1 → hw s' d' = hw s d') ∧ space_ok (left - 1) s'.
Proof.
  intros Hn Hl [Hnv Hal Hst Hle Hssd]. unfold next_block. change writethdnum with 4.
  pose proof (Hssd 0 ltac:(lia)) as [A1 B1]. pose proof (Hssd 1 ltac:(lia)) as [A2 B2].
  pose proof (Hssd 2 ltac:(lia)) as [A3 B3]. unfold Blocks.ssd_counter in A1, A2, A3, B1, B2, B3.
  cbn [Z.eqb] in *. destruct s as [[nv s1 s2 s3 fi] st]. cbn in *. unfold NVMSIZE in Hle.
  assert (Hm : (nv * 4096) mod 2 ^ 21 = 0).
  { rewrite (Z.div_mod nv 512) by lia. rewrite Hal, Z.add_0_r.
    replace (512 * (nv / 512) * 4096) with ((nv / 512) * 2 ^ 21) by lia. apply Z.mod_mul. lia. }
  destruct (Z.eqb_spec (n mod 4) 1); [|destruct (Z.eqb_spec (n mod 4) 2);
    [|destruct (Z.eqb_spec (n mod 4) 3)]].
  1-3: cbn; rewrite shl64_small, u64_small by lia; eexists _, _, _, _; split; [done|];
    (split; [lia|]); (split; [lia|]); (split; [apply Z.mod_mul; lia|]);
    (split; [hw_solve|]); (split; [hw_solve|]); (split; [lia|]);
    (split; [intros d' Hd' Hne; hw_solve|]); split; cbn; unfold NVMSIZE; try lia;
    intros f Hf; hw_solve.
  unfold Blocks.allocate_nvmblock. cbn. unfold NVMSIZE. rewrite u64_small by lia.
  destruct (Z.leb_spec (nv + 512) (10 * 1024 * 1024)); [|lia].
  change g_block_size_shift with 12. rewrite shl64_small by lia.
  eexists _, _, _, _. split; [done|].
  (split; [lia|]); (split; [lia|]); (split; [done|]);
    (split; [hw_solve|]); (split; [hw_solve|]); (split; [lia|]);
    (split; [intros d' Hd' Hne; hw_solve|]); split; cbn; unfold NVMSIZE; try lia;
    [by rewrite Z.add_mod, Hal by lia|intros f Hf; hw_solve].
Qed.

Lemma block_end_aligned a : a mod 2 ^ 21 = 0 → block_end a = a + 2 ^ 21.
Proof. unfold block_end. lia. Qed.

(** After the test of the append position there is room for a piece. *)
Lemma room_append_ok top isize len w :
  append_ready top isize isize w →
  0 < len → isize mod 2 ^ 21 + len ≤ 2 ^ 21 → isize + len ≤ top →
  ∃ w', room_append w = Ok (tt, w') ∧ positioned (blocks_left top (isize + len)) isize w'
    ∧ w_tree w' = w_tree w ∧ w_devs w' = w_devs w ∧ 0 ≤ c_wrthdnum (w_cur w')
    ∧ i_fcache (w_ip w') = i_fcache (w_ip w).
Proof.
  intros [_ H0 Hn Hwf _ Hend Hcur] Hl Hin Htop.
  destruct (blocks_left_next top isize len Hl Hin Htop) as [Hleft Hpos].
  unfold room_append; unfold_M. fold (cur_needs w). destruct (cur_needs w); cbn [when].
  - destruct Hcur as (Hm & Hbel & Hsp). rewrite Hm, Z.eqb_refl in Hleft.
    destruct (next_block_ok (c_wrthdnum (w_cur w)) (blocks_left top isize) (w_space w) Hn)
      as (a & d & n' & s' & E & Hd & Ha & Ham & Hhw & Hhw' & Hmax & Hoth & Hsp'); [lia|done|].
    eexists. split; [done|]. unfold refill_append. rewrite E. split; [|split; [done|]].
    2: { split; [done|]. split; [|done]. cbn. unfold next_block in E.
         destruct (if _ =? 1 then _ else _) as [[? ?] ?]. simplify_eq. apply u32_range. }
    split; cbn; try lia.
    + rewrite block_end_aligned by done. lia.
    + intros ->. cbn [Z.eqb]. lia.
    + split; [lia|]. by replace (blocks_left top (isize + len)) with (blocks_left top isize - 1) by lia.
    + intros x d' a' Hx. destruct (Hbel x d' a' Hx) as [Hd' Ha']. split; [done|]. cbn.
      destruct (decide (d' = d + 1)) as [->|]; [lia|]. by rewrite Hoth.
    + intros x a' Hx. destruct (Hbel x _ a' Hx). lia.
  - destruct Hcur as [Hm Hp]. exists w. split; [done|]. split; [|done].
    destruct (Z.eqb_spec (isize mod 2 ^ 21) 0); [done|]. rewrite Z.add_0_r in Hleft. by rewrite <- Hleft.
Qed.

Lemma hw_bound left s d : 0 ≤ left → space_ok left s → 1 ≤ d ≤ 4 → hw s d ≤ 2 ^ 61.
Proof.
  intros Hl [Hnv _ _ Hle Hssd] Hd. unfold hw. unfold NVMSIZE in Hle.
  destruct (Z.eqb_spec d 1); [lia|]. destruct (Hssd (d - 2)); lia.
Qed.

Lemma mod_block x y : x mod 2 ^ 21 = y mod 2 ^ 21 → y mod 4096 = 0 → x mod 4096 = 0.
Proof.
  intros E Hy. assert (Hd : ∀ z, z mod 4096 = (z mod 2 ^ 21) mod 4096); [|by rewrite Hd, E, <- Hd].
  intros z. rewrite (Z.div_mod z (2 ^ 21)) at 1 by lia.
  rewrite Z.add_comm. replace (2 ^ 21 * (z / 2 ^ 21)) with (512 * (z / 2 ^ 21) * 4096) by lia.
  apply Z.mod_add. lia.
Qed.

Section append.
Context (unit : Z) (fresh : list Z) (fetch : Z → option tmpinode) (now : Z) (mbuf : list Z).
Hypothesis Hunit : (unit | 4096).

(** The node and the bytes an append leaves. *)
Record appended (isize : Z) (buf : list Z) (w w' : world) : Prop := {
  ap_wf : tree_wf (w_tree w');
  ap_blocks : blocks_tree (w_tree w');
  ap_tree : extends (w_tree w) (w_tree w')
    (mkNode isize (Z.of_nat (length buf)) (c_devid (w_cur w) + 1) (c_ssdoff (w_cur w) / 4096));
  ap_devs : w_devs w' = set_dev (c_devid (w_cur w) + 1)
    (store (c_ssdoff (w_cur w)) buf (w_devs w (c_devid (w_cur w) + 1))) (w_devs w);
  ap_space : w_space w' = w_space w;
  ap_dev : c_devid (w_cur w') = c_devid (w_cur w);
  ap_pos : c_ssdoff (w_cur w') = c_ssdoff (w_cur w) + Z.of_nat (length buf);
  ap_used : c_usednvms (w_cur w') = c_usednvms (w_cur w);
  ap_num : c_wrthdnum (w_cur w') = c_wrthdnum (w_cur w);
  ap_cache : i_fcache (w_ip w') = i_fcache (w_ip w)
}.

(** A piece that ends in the block of the append position and in the 2 MiB
    of the end of the file. *)
Definition piece_ok (isize : Z) (buf : list Z) : Prop :=
  0 ≤ isize ∧ isize mod 4096 = 0 ∧ (0 < length buf)%nat ∧ Z.of_nat (length buf) mod 4096 = 0
  ∧ isize mod 2 ^ 21 + Z.of_nat (length buf) ≤ 2 ^ 21 ∧ isize + Z.of_nat (length buf) < 2 ^ 62.

Lemma append_piece_ok left isize buf w :
  positioned left isize w → tree_wf (w_tree w) → blocks_tree (w_tree w) →
  (∀ x, isize ≤ x → xlate (w_tree w) x = None) → piece_ok isize buf →
  ∃ w', append_piece unit fresh now isize buf w = Ok (tt, w') ∧ appended isize buf w w'.
Proof.
  intros [Hdev Hpos Hmod Hhw Hnv [Hleft Hsp] Hbel Hfree] Hwf Hbt Hend (H0 & Hal & Hlen & Hlal & Hin & Htop).
  set (len := Z.of_nat (length buf)) in *. set (d := c_devid (w_cur w)) in *.
  set (p := c_ssdoff (w_cur w)) in *.
  pose proof (hw_bound _ _ (d + 1) Hleft Hsp ltac:(lia)) as Hb.
  pose proof (Z.mod_pos_bound isize (2 ^ 21) ltac:(lia)) as Hmb.
  assert (Hpal : p mod 4096 = 0) by (by eapply mod_block).
  assert (Hpe : p + len ≤ block_end p) by (unfold block_end; lia).
  assert (Hd1 : u8 (d + 1) = d + 1) by (apply Z.mod_small; lia).
  assert (Hblk : shr64 p 12 = p / 4096) by (rewrite shr64_div by lia; done).
  assert (Hpb : p / 4096 * 4096 = p) by (pose proof (Z.div_mod p 4096 ltac:(lia)); lia).
  set (bh := mkBh (d + 1) (p / 4096) len 0).
  assert (Hbh : bh_ok unit bh).
  { assert (0 ≤ p / 4096) by (apply Z.div_pos; lia).
    split; [cbn; lia|]. split; [cbn; lia|]. split; [cbn; lia|]. cbn.
    destruct (decide (d = 0)) as [->|]; [by left|]. right. split; [unfold g_n_devices; lia|].
    split; [done|]. apply Z.mod_divide; [intros ->; by apply Z.divide_0_l in Hunit|].
    eapply Z.divide_trans; [exact Hunit|]. by apply Z.mod_divide. }
  assert (Haddr : bh_addr bh = p) by (unfold bh_addr, bh; cbn; lia).
  assert (Hnok : node_ok (mkNode isize len (d + 1) (shr64 p 12)))
    by (unfold node_ok; cbn [fileoff size devid addr]; rewrite Hblk; repeat split; lia).
  assert (Hnew : ∀ x, isize ≤ x < isize + len → xlate (w_tree w) x = None) by (intros x Hx; apply Hend; lia).
  destruct (insert_unmapped (w_tree w) (d + 1) p isize len Hwf Hnok Hnew) as (t' & Et & Hwf' & Hext).
  assert (Hbt' : blocks_tree t').
  { eapply insert_blocks; [exact Hwf|exact Hnok|done| |exact Hnew|exact Et].
    split; [done|]. split; [done|]. cbn [devid]. lia. }
  rewrite Hblk in Hext.
  unfold append_piece. unfold_M. fold len d p. rewrite Hd1, Hblk. fold bh.
  unfold submit, mbind, outcome_bind. cbn [w_devs upd_cur set_ip].
  rewrite (userfs_write_spec unit fresh bh buf _ Hbh) by done.
  unfold insert_index, mbind, outcome_bind.
  match goal with |- context [append_fsextent now isize bh 1 ?w1] =>
    set (w2 := append_fsextent now isize bh 1 w1) end.
  assert (Htree : w_tree w2 = w_tree w)
    by (unfold w2, append_fsextent; by case_if).
  rewrite Htree, Et. eexists. split; [done|].
  assert (Hu : u64 (p + len) = p + len) by (apply u64_small; lia).
  split; try done; unfold w2, append_fsextent; cbn [b_dev bh]; rewrite ?Haddr;
    case_if; cbn; rewrite ?Haddr; try done; exact Hu.
Qed.

(** The test of the position after a piece was appended at [p]. *)
Lemma need_block_after d p len used :
  0 ≤ d ≤ 3 → 0 ≤ p → p + len < 2 ^ 62 → 0 < len → p mod 2 ^ 21 + len ≤ 2 ^ 21 →
  (d = 0 → used = p - p mod 2 ^ 21) →
  need_block d (p + len) used = ((p + len) mod 2 ^ 21 =? 0).
Proof.
  intros Hd Hp Hb Hl Hin Hu. unfold need_block.
  pose proof (Z.mod_pos_bound p (2 ^ 21) ltac:(lia)) as Hm.
  destruct (decide (d = 0)) as [->|Hd0].
  - rewrite (Hu eq_refl). change (0 <? 0) with false. rewrite andb_false_r. cbn [orb andb].
    destruct (Z.eqb_spec (p + len) 0); [lia|]. cbn [orb]. change (0 =? 0) with true. cbn [andb].
    change g_block_size_shift with 12. rewrite u64_small, shr64_div by lia.
    replace (p + len - (p - p mod 2 ^ 21)) with (p mod 2 ^ 21 + len) by lia.
    rewrite <- (Z.add_mod_idemp_l p len) by lia. apply eq_iff_eq_true.
    rewrite Z.leb_le, Z.eqb_eq.
    destruct (decide (p mod 2 ^ 21 + len = 2 ^ 21)) as [->|]; [split; [done|intros _; change (2 ^ 21 / 2 ^ 12) with 512; lia]|].
    rewrite (Z.mod_small (p mod 2 ^ 21 + len)) by lia. split; [|lia].
    intros H. assert ((p mod 2 ^ 21 + len) / 2 ^ 12 < 512) by (apply Z.div_lt_upper_bound; lia). lia.
  - destruct (Z.ltb_spec 0 d); [|lia]. destruct (Z.eqb_spec d 0); [done|]. cbn [andb].
    rewrite andb_true_r, orb_false_r. rewrite shl64_mul by lia. unfold u64.
    change (2 ^ 64) with (2 ^ 21 * 2 ^ 43). rewrite Z.mul_mod_distr_r by lia.
    apply eq_iff_eq_true. rewrite !Z.eqb_eq. lia.
Qed.

(** The translation after an append: the new bytes are at the old position. *)
Lemma appended_xlate left isize buf w w' x :
  positioned left isize w → isize mod 4096 = 0 → appended isize buf w w' →
  xlate (w_tree w') x = if decide (isize ≤ x < isize + Z.of_nat (length buf))
                        then Some (c_devid (w_cur w) + 1, c_ssdoff (w_cur w) + (x - isize))
                        else xlate (w_tree w) x.
Proof.
  intros Hp Hal Hap. pose proof (mod_block _ _ (po_mod _ _ _ Hp) Hal) as Hpal.
  rewrite (ap_tree _ _ _ _ Hap). unfold covers, translate. cbn [fileoff size devid addr].
  repeat case_decide; try done.
  pose proof (Z.div_mod (c_ssdoff (w_cur w)) 4096 ltac:(lia)). do 2 f_equal. lia.
Qed.

Lemma appended_content left isize buf w w' x :
  positioned left isize w → piece_ok isize buf → appended isize buf w w' →
  fcontent w' x = if decide (isize ≤ x < isize + Z.of_nat (length buf))
                  then Some (buf !!! Z.to_nat (x - isize)) else fcontent w x.
Proof.
  intros Hp (H0 & Hal & Hlen & Hlal & Hin & _) Hap. unfold fcontent.
  rewrite (appended_xlate _ _ _ _ _ _ Hp Hal Hap), (ap_devs _ _ _ _ Hap).
  set (p := c_ssdoff (w_cur w)) in *. set (d := c_devid (w_cur w)) in *. unfold set_dev.
  case_decide as Hx; cbn [fmap option_fmap option_map].
  - rewrite Z.eqb_refl. f_equal. unfold store.
    destruct (Z.leb_spec p (p + (x - isize))); [|lia].
    destruct (Z.ltb_spec (p + (x - isize)) (p + Z.of_nat (length buf))); [|lia]. cbn [andb].
    f_equal. lia.
  - destruct (xlate (w_tree w) x) as [[d' a]|] eqn:E; [|done]. cbn. f_equal.
    destruct (Z.eqb_spec d' (d + 1)) as [->|]; [|done]. apply store_outside.
    pose proof (po_free _ _ _ Hp x a E) as Hf. pose proof (po_mod _ _ _ Hp) as Hm.
    fold p in Hf, Hm. unfold block_end in Hf. lia.
Qed.

(** The next piece can be appended. *)
Lemma appended_ready top isize buf w w' :
  positioned (blocks_left top (isize + Z.of_nat (length buf))) isize w →
  (∀ x, isize ≤ x → xlate (w_tree w) x = None) → 0 ≤ c_wrthdnum (w_cur w) →
  piece_ok isize buf → appended isize buf w w' →
  append_ready top (isize + Z.of_nat (length buf)) (isize + Z.of_nat (length buf)) w'.
Proof.
  intros Hp Hend Hn (H0 & Hal & Hlen & Hlal & Hin & Hbig) Hap.
  assert (Hx := λ x, appended_xlate _ _ _ _ _ x Hp Hal Hap).
  destruct Hap as [Hwf Hbt _ _ Hsp Hdev Hpos Hused Hnum _].
  destruct Hp as [Pd Pp Pm Phw Pn [Pl Ps] Pb Pf].
  set (len := Z.of_nat (length buf)) in *. set (p := c_ssdoff (w_cur w)) in *.
  set (d := c_devid (w_cur w)) in *.
  pose proof (hw_bound _ _ (d + 1) Pl Ps ltac:(lia)) as Hhb.
  assert (Hbel : mapped_below w').
  { intros x d' a. rewrite Hx, Hsp. case_decide; [|apply Pb].
    intros [= <- <-]. split; [lia|]. fold d p. unfold block_end in Phw. lia. }
  assert (Hmod : (p + len) mod 2 ^ 21 = (isize + len) mod 2 ^ 21).
  { rewrite <- (Z.add_mod_idemp_l p), <- (Z.add_mod_idemp_l isize) by lia. by rewrite Pm. }
  split; [done|lia|by rewrite Hnum|done|done|intros x Hxx; rewrite Hx; case_decide; [lia|apply Hend; lia]|].
  unfold cur_needs. rewrite Hdev, Hpos, Hused.
  rewrite need_block_after by (done || unfold block_end in Phw; lia). rewrite Hmod.
  destruct (Z.eqb_spec ((isize + len) mod 2 ^ 21) 0) as [Hz|Hnz].
  { split; [done|]. split; [done|]. by rewrite Hsp. }
  pose proof (Z.mod_pos_bound p (2 ^ 21) ltac:(lia)).
  assert (Hpl : p mod 2 ^ 21 + len < 2 ^ 21).
  { rewrite Pm. destruct (decide (isize mod 2 ^ 21 + len = 2 ^ 21)) as [E|]; [|lia].
    exfalso. apply Hnz. rewrite <- Z.add_mod_idemp_l, E by lia. done. }
  assert (Hpm : (p + len) mod 2 ^ 21 = p mod 2 ^ 21 + len).
  { rewrite <- Z.add_mod_idemp_l by lia. apply Z.mod_small. lia. }
  assert (Hbe : block_end (p + len) = block_end p) by (unfold block_end; lia).
  split; [done|]. split; rewrite ?Hdev, ?Hpos, ?Hused, ?Hsp; try done; fold d p.
  - lia.
  - by rewrite Hbe.
  - intros Hd0. rewrite (Pn Hd0), Hpm. lia.
  - intros x a. rewrite Hx, Hbe. case_decide; [intros [= <-]; lia|].
    intros Hxx. destruct (Pf x a Hxx); lia.
Qed.

(** One appended piece: the file has its bytes at the end, every other byte
    is as before, and the next piece can be appended. *)
Lemma aligned_write_append top isize buf w :
  append_ready top isize isize w → piece_ok isize buf → isize + Z.of_nat (length buf) ≤ top →
  ∃ w', aligned_write unit fresh now isize isize buf w = Ok (Z.of_nat (length buf), w')
    ∧ append_ready top (isize + Z.of_nat (length buf)) (isize + Z.of_nat (length buf)) w'
    ∧ i_fcache (w_ip w') = i_fcache (w_ip w)
    ∧ ∀ x, fcontent w' x = if decide (isize ≤ x < isize + Z.of_nat (length buf))
                           then Some (buf !!! Z.to_nat (x - isize)) else fcontent w x.
Proof.
  intros Hr Hpc Htop. pose proof Hpc as (H0 & Hal & Hlen & Hlal & Hin & Hbig).
  destruct (room_append_ok top isize (Z.of_nat (length buf)) w Hr) as (w1 & E1 & Hp1 & Ht1 & Hd1 & Hn1 & Hfc1);
    [lia..|].
  destruct Hr as [_ _ _ Hwf Hbt Hend _]. rewrite <- Ht1 in Hwf, Hbt.
  destruct (append_piece_ok _ isize buf w1 Hp1 Hwf Hbt) as (w2 & E2 & Hap);
    [intros x Hx; rewrite Ht1; by apply Hend|done|].
  unfold aligned_write. rewrite Z.eqb_refl. unfold_M. rewrite E1. unfold in_2M.
  change g_lblock_size_shift with 21. rewrite !land_mask, (po_mod _ _ _ Hp1), Z.eqb_refl by lia.
  cbn [negb]. rewrite E2. exists w2. split; [done|].
  split; [by eapply appended_ready; [..|exact Hap]; [done|intros x Hx; rewrite Ht1; by apply Hend|..]|].
  split; [by rewrite (ap_cache _ _ _ _ Hap)|].
  intros x. rewrite (appended_content _ _ _ _ _ x Hp1 Hpc Hap). case_decide; [done|].
  unfold fcontent. by rewrite Ht1, Hd1.
Qed.

(** A supported piece of whole blocks. *)
Lemma chunk_piece off buf :
  chunk_ok off (Z.of_nat (length buf)) → (4096 | off) → (4096 | Z.of_nat (length buf)) →
  piece_ok off buf.
Proof.
  intros (Hl & H0 & Hb & Hcase) Hg1%Z.mod_divide Hg2%Z.mod_divide; [|done..].
  repeat split; try done; try lia.
  destruct Hcase as [[? _]|[[_ Hs]|(_ & _ & ?)]]; [done| |done].
  rewrite Z.mod_small in Hg2 by lia. lia.
Qed.

(** [snfs_write] hands whole blocks to [aligned_write]. *)
Lemma snfs_aligned isize off buf w :
  piece_ok off buf →
  snfs unit fresh fetch now mbuf isize off buf w = aligned_write unit fresh now isize off buf w.
Proof.
  intros (H0 & Hal & Hl & Hlal & Hin & Hb). unfold snfs, snfs_write.
  rewrite land_not64_mask by lia. change (2 ^ 12) with 4096. rewrite Hal, Z.sub_0_r, Z.ltb_irrefl.
  cbn [andb]. change g_block_size_bytes with 4096.
  destruct (Z.ltb_spec (Z.of_nat (length buf)) 4096); [|done].
  rewrite Z.mod_small in Hlal by lia. lia.
Qed.

(** *** The writer that [userfs_file_write] is given *)
#[local] Instance snfs_appends top :
  ChunkWriter (snfs unit fresh fetch now mbuf) 4096 top (append_ready top).
Proof.
  apply snfs_write_chunks; [done|..].
  - intros isize off buf w _ _ _ Hg _ Hn. by apply Z.mod_divide in Hg.
  - intros isize off buf w _ (Hl & _) _ _ Hg [_ Hs]. apply Z.divide_pos_le in Hg; lia.
  - intros isize off buf w Hr (Hl & H0 & Hb & Hcase) Htop Hg1 Hg2 [Hal Hbig].
    pose proof (ar_off _ _ _ _ Hr) as ->.
    destruct (aligned_write_append top isize buf w Hr) as (w' & E & Hr' & _); [|done|].
    + by apply chunk_piece.
    + exists w'. rewrite Z.max_r by lia. done.
Qed.

(** A sequence of appended pieces: the file has all their bytes. *)
Lemma wrote_content top isize off buf w w' :
  wrote (snfs unit fresh fetch now mbuf) 4096 isize off buf w w' →
  append_ready top isize off w → off + Z.of_nat (length buf) ≤ top →
  i_fcache (w_ip w') = i_fcache (w_ip w) ∧
  ∀ x, fcontent w' x = if decide (off ≤ x < off + Z.of_nat (length buf))
                       then Some (buf !!! Z.to_nat (x - off)) else fcontent w x.
Proof.
  induction 1 as [isize off w|isize off b bs w w1 w2 Hc Hg1 Hg2 Es Hw IH]; intros Hr Htop.
  { split; [done|]. intros x. case_decide; [simpl in *; lia|done]. }
  rewrite length_app, Nat2Z.inj_add in *.
  pose proof (ar_off _ _ _ _ Hr) as ->. pose proof (chunk_piece _ _ Hc Hg1 Hg2) as Hp.
  destruct (aligned_write_append top isize b w Hr Hp) as (w1' & Es' & Hr' & Hfc & Hx); [lia|].
  rewrite snfs_aligned, Es' in Es by done. simplify_eq. pose proof Hc as (Hl & _).
  destruct IH as [IHfc IH]; [by rewrite Z.max_r by lia|lia|].
  split; [by rewrite IHfc|]. intros x. rewrite IH, Hx.
  repeat case_decide; try lia; try done; f_equal.
  - rewrite lookup_total_app_r by lia. f_equal. lia.
  - by rewrite lookup_total_app_l by lia.
Qed.

(** [userfs_file_write] of whole blocks at the end of a file. *)
Lemma append_content top f isize buf w :
  append_ready top isize (f_off f) w → f_writable f = true → f_type f = FD_INODE →
  (4096 | f_off f) → (4096 | Z.of_nat (length buf)) → Z.of_nat (length buf) < 2 ^ 31 →
  f_off f + Z.of_nat (length buf) ≤ top → top < 2 ^ 62 →
  let n := Z.of_nat (length buf) in
  ∃ w', userfs_file_write (snfs unit fresh fetch now mbuf) f isize buf w
          = Ok (n, set_off (f_off f + n) f, isize + n, w')
    ∧ append_ready top (isize + n) (f_off f + n) w'
    ∧ i_fcache (w_ip w') = i_fcache (w_ip w)
    ∧ ∀ x, fcontent w' x = if decide (isize ≤ x < isize + n)
                           then Some (buf !!! Z.to_nat (x - isize)) else fcontent w x.
Proof.
  intros Hr Hw Hty Hg1 Hg2 Hl Htop H62 n. pose proof (ar_off _ _ _ _ Hr) as Ho.
  pose proof (ar_pos _ _ _ _ Hr) as H0.
  destruct (file_write_ok (snfs unit fresh fetch now mbuf) 4096 top (append_ready top) f isize buf w)
    as (w' & E & Hwr & Hr'); [done..|lia|lia|lia|lia|].
  fold n in E, Hr'. exists w'.
  replace (if 0 <? n then Z.max isize (f_off f + n) else isize) with (isize + n) in * by (case_if; lia).
  split; [done|]. split; [done|].
  destruct (wrote_content _ _ _ _ _ _ Hwr Hr Htop) as [Hfc Hx]. split; [done|]. intros x.
  rewrite Hx. by rewrite Ho.
Qed.

(** C1: A userfs_file_write of whole blocks at the end of a file, with the
    real piece writers, returns the length, advances the offset and the size,
    and afterwards the file read through its block index has exactly the
    written bytes at its end and every other byte unchanged; the state is
    ready for the next append. The state before is ready for an append (write
    position at the end, index of whole blocks, nothing mapped behind the
    end) and the devices have the 2 MiB blocks the file still needs. *)
Theorem file_append_ok top f isize buf w :
  append_ready top isize (f_off f) w → f_writable f = true → f_type f = FD_INODE →
  (4096 | f_off f) → (4096 | Z.of_nat (length buf)) → Z.of_nat (length buf) < 2 ^ 31 →
  f_off f + Z.of_nat (length buf) ≤ top → top < 2 ^ 62 →
  let n := Z.of_nat (length buf) in
  ∃ w', userfs_file_write (snfs unit fresh fetch now mbuf) f isize buf w
          = Ok (n, set_off (f_off f + n) f, isize + n, w')
    ∧ append_ready top (isize + n) (f_off f + n) w'
    ∧ ∀ x, fcontent w' x = if decide (isize ≤ x < isize + n)
                           then Some (buf !!! Z.to_nat (x - isize)) else fcontent w x.
Proof.
  intros Hr Hw Hty Hg1 Hg2 Hl Htop H62.
  destruct (append_content top f isize buf w) as (w' & ? & ? & _ & ?); [done..|]. by exists w'.
Qed.

(** ** Overwriting *)

(** C38: An overwrite of whole blocks by aligned_write puts the bytes on a
    device but leaves the block index as it was, so the content of the file
    read through the index does not change. The current device block has room
    for the write, and the index does not map the file to the bytes that are
    written there. *)
Theorem aligned_write_inplace isize off buf w :
  let c := w_cur w in
  let n := Z.of_nat (length buf) in
  0 ≤ off < isize → isize < 2 ^ 62 → 0 < n < 2 ^ 32 → n mod 4096 = 0 → off + n < 2 ^ 62 →
  Align.ALIGN (off + n) 4096 ≤ Align.ALIGN isize 4096 →
  0 ≤ c_devid c ≤ 3 → 0 ≤ c_rwoff c < 2 ^ 61 → c_rwoff c mod 4096 = 0 →
  0 ≤ c_rwoff c - c_rwsoff c → (c_rwoff c - c_rwsoff c) / 4096 + n / 4096 ≤ 512 →
  need_block (c_devid c) (c_rwoff c) (c_rwsoff c) = false →
  ∃ w', aligned_write unit fresh now isize off buf w = Ok (n, w')
    ∧ load (w_devs w' (c_devid c + 1)) (c_rwoff c) (length buf) = buf
    ∧ w_tree w' = w_tree w
    ∧ ((∀ x a, xlate (w_tree w) x = Some (c_devid c + 1, a) → a < c_rwoff c ∨ c_rwoff c + n ≤ a) →
       ∀ x, fcontent w' x = fcontent w x).
Proof.
  intros c n Ho His Hn Hnal Hb Hal Hd Hp Hpal Hrw Hdelta Hneed.
  assert (Hd1 : u8 (c_devid c + 1) = c_devid c + 1) by (apply Z.mod_small; lia).
  assert (Hblk : shr64 (c_rwoff c) 12 = c_rwoff c / 4096) by (rewrite shr64_div by lia; done).
  assert (Hpb : c_rwoff c / 4096 * 4096 = c_rwoff c)
    by (pose proof (Z.div_mod (c_rwoff c) 4096 ltac:(lia)); lia).
  set (bh := mkBh (c_devid c + 1) (c_rwoff c / 4096) n 0).
  assert (Hbh : bh_ok unit bh).
  { split; [cbn; lia|]. split; [cbn; lia|]. split; [cbn; lia|]. cbn.
    destruct (decide (c_devid c = 0)) as [->|]; [by left|]. right. split; [unfold g_n_devices; lia|].
    split; [done|]. apply Z.mod_divide; [intros ->; by apply Z.divide_0_l in Hunit|].
    eapply Z.divide_trans; [exact Hunit|]. by apply Z.mod_divide. }
  assert (Haddr : bh_addr bh = c_rwoff c) by (unfold bh_addr, bh; cbn; lia).
  unfold aligned_write. destruct (Z.eqb_spec off isize); [lia|].
  destruct (Z.ltb_spec off isize); [|lia]. fold n. rewrite (u64_small (off + n)) by lia.
  change g_block_size_bytes with 4096.
  destruct (Z.ltb_spec (Align.ALIGN isize 4096) (Align.ALIGN (off + n) 4096)); [lia|].
  assert (Hn4 : 0 ≤ n / 4096) by (apply Z.div_pos; lia).
  assert (Hrd : 0 ≤ (c_rwoff c - c_rwsoff c) / 4096) by (apply Z.div_pos; lia).
  assert (Hrb : c_rwoff c - c_rwsoff c < 2 ^ 22)
    by (pose proof (Z.mul_succ_div_gt (c_rwoff c - c_rwsoff c) 4096); lia).
  unfold write_inplace. fold n. unfold_M. fold c. rewrite Hneed. change g_block_size_shift with 12.
  rewrite !shr64_div, (u64_small (c_rwoff c - c_rwsoff c)) by lia. change (2 ^ 12) with 4096.
  rewrite u64_small by lia.
  destruct (Z.ltb_spec 512 ((c_rwoff c - c_rwsoff c) / 4096 + n / 4096)); [lia|].
  unfold mret, M_ret. cbn [orb]. fold c. rewrite Hd1, Hblk. fold bh. unfold submit, mbind, outcome_bind.
  cbn [w_devs upd_cur set_ip]. rewrite (userfs_write_spec unit fresh bh buf _ Hbh) by done.
  eexists. split; [done|].
  unfold append_fsextent. change (0 =? 1) with false. cbn [andb].
  unfold fcontent. cbn. rewrite Haddr. unfold set_dev. rewrite Z.eqb_refl.
  split; [apply load_store_same|]. split; [done|].
  intros Hfree x. change (i_blktree (w_ip w)) with (w_tree w).
  destruct (xlate (w_tree w) x) as [[d a]|] eqn:E; [|done]. cbn. f_equal.
  destruct (Z.eqb_spec d (c_devid c + 1)) as [->|]; [|done].
  apply store_outside. fold n. by apply (Hfree x a).
Qed.

(** A small aligned overwrite that reaches the end of the node it finds
    returns its size and changes nothing. *)
Theorem aligned_smallwrite_dropped isize off buf w j :
  off < isize → block_search (w_tree w) off = Some j → 0 ≤ off → off + Z.of_nat (length buf) < 2 ^ 63 →
  node_ok (node_at (w_tree w) j) →
  fileoff (node_at (w_tree w) j) + size (node_at (w_tree w) j) ≤ off + Z.of_nat (length buf) →
  aligned_smallwrite unit fresh fetch now mbuf isize off buf w = Ok (Z.of_nat (length buf), w).
Proof.
  intros Hlt Hj H0 Hb (? & ? & ? & _) Hend. unfold aligned_smallwrite.
  destruct (Z.ltb_spec off isize); [|lia]. unfold smallwrite_inplace. unfold_M.
  unfold find_node. rewrite Hj.
  rewrite !u64_small by lia. destruct (Z.ltb_spec (off + Z.of_nat (length buf))
    (fileoff (node_at (w_tree w) j) + size (node_at (w_tree w) j))); [lia|done].
Qed.

(** An unaligned append to a node that starts k blocks before the end of
    the file writes k blocks before the node's address, while the index
    translates the end of the file to k blocks behind it: the subtraction of
    offsets is the wrong way round. *)
Theorem unaligned_append_block isize buf w j k :
  let n := node_at (w_tree w) j in
  let o := isize mod 4096 in
  block_search (w_tree w) (isize - o) = Some j → 0 < isize < 2 ^ 62 → o ≠ 0 →
  0 < Z.of_nat (length buf) → o + Z.of_nat (length buf) ≤ 4096 →
  devid n = 1 → 0 ≤ fileoff n → isize - o = fileoff n + k * 4096 → 0 ≤ k ≤ addr n → addr n < 2 ^ 50 →
  ∃ w', unaligned_smallwrite unit fresh fetch now mbuf isize isize buf w
          = Ok (Z.of_nat (length buf), w')
    ∧ load (w_devs w' 1) ((addr n - k) * 4096 + o) (length buf) = buf
    ∧ translate n isize = (1, (addr n + k) * 4096 + o).
Proof.
  intros n o Hj His Ho Hl Hin Hdev Hf Hk Hka Ha.
  pose proof (Z.mod_pos_bound isize 4096 ltac:(lia)) as Hob. fold o in Hob.
  assert (Hoal : Z.land isize (not64 (2 ^ 12 - 1)) = isize - o)
    by (rewrite land_not64_mask by lia; done).
  unfold unaligned_smallwrite. rewrite Hoal. unfold_M. unfold find_node. rewrite Hj, Z.eqb_refl.
  fold n. rewrite Hdev. replace (isize - (isize - o)) with o by lia. rewrite u32_small by lia.
  set (len := Z.of_nat (length buf)) in *.
  set (blk := u64 (addr n + shr64 (u64 (fileoff n - (isize - o))) g_block_size_shift)).
  assert (Hblk : shl64 blk g_block_size_shift = (addr n - k) * 4096).
  { assert (E : u64 (fileoff n - (isize - o)) / 4096 = (if k =? 0 then 0 else 2 ^ 52) - k).
    { destruct (Z.eqb_spec k 0) as [->|].
      - rewrite Hk. replace (fileoff n - _) with 0 by lia. done.
      - unfold u64. symmetry. apply (Z.div_unique _ _ _ 0); [lia|].
        symmetry. apply (Z.mod_unique _ _ (-1)); lia. }
    unfold blk. change g_block_size_shift with 12. rewrite shr64_div by lia.
    change (2 ^ 12) with 4096. rewrite E.
    rewrite (u64_small (addr n + _)) by (case_if; lia). rewrite shl64_mul by lia. unfold u64.
    symmetry. destruct (Z.eqb_spec k 0); [apply (Z.mod_unique _ _ 0); lia|].
    apply (Z.mod_unique _ _ 1); lia. }
  unfold submit, userfs_write. cbn [b_size b_dev b_offset b_blocknr].
  destruct (Z.leb_spec len 0); [lia|]. change (storage_engine unit fresh 1) with (Some storage_dax).
  destruct (Z.eqb_spec o 0); [done|]. cbn [op_write_unaligned storage_dax].
  unfold dax_write_unaligned, mbind, outcome_bind. cbn [b_size b_dev b_offset b_blocknr].
  rewrite Z.eqb_refl, Hblk.
  eexists. split; [done|]. split.
  - cbn. rewrite take_ge by lia. apply load_store_same.
  - unfold translate. rewrite Hdev. f_equal. lia.
Qed.

(** ** The log entry of a write *)

(** The two halves of a byte address inside a block. *)
Lemma split_address b o :
  0 ≤ b < 2 ^ 36 →
  u16 (b * 4096 / 2 ^ 32) * 2 ^ 32 + u32 (u32 (b * 4096) + o mod 4096) = b * 4096 + o mod 4096.
Proof.
  intros Hb. pose proof (Z.mod_pos_bound o 4096 ltac:(lia)) as Ho.
  assert (Hr : u32 (b * 4096) = b mod 2 ^ 20 * 4096).
  { unfold u32. change (2 ^ 32) with (2 ^ 20 * 4096). by rewrite Z.mul_mod_distr_r by lia. }
  assert (Hq : b * 4096 / 2 ^ 32 = b / 2 ^ 20).
  { change (2 ^ 32) with (2 ^ 20 * 4096). by rewrite Z.div_mul_cancel_r by lia. }
  pose proof (Z.mod_pos_bound b (2 ^ 20) ltac:(lia)).
  pose proof (Z.div_mod b (2 ^ 20) ltac:(lia)).
  rewrite Hr, Hq, (u32_small (_ + _)) by lia. unfold u16.
  rewrite Z.mod_small by (split; [apply Z.div_pos; lia|apply Z.div_lt_upper_bound; lia]). lia.
Qed.

(** The extent append_fsextent leaves in the log decodes to the inode,
    the file block, the device, the byte address and the length in blocks
    that were written. *)
Theorem append_fsextent_logged off bh append w :
  let l := w_log w in
  0 ≤ logoffset l ≤ logspace → 0 ≤ i_inum (w_ip w) < 2 ^ 32 → 0 ≤ off < 2 ^ 44 →
  1 ≤ b_dev bh ≤ 4 → 0 ≤ b_blocknr bh < 2 ^ 36 → 0 < b_size bh ≤ 2 ^ 21 →
  ∃ e, extent_of (load (mem (w_log (append_fsextent now off bh append w)))
                    (logstart l + place 0 (logoffset l)) 32) = Some e
    ∧ ex_entry_type e = FILE_WRITE ∧ ex_ino e = i_inum (w_ip w) ∧ ex_device_id e = b_dev bh - 1
    ∧ ext_block e = off / 4096
    ∧ ext_start_hi e * 2 ^ 32 + ext_start_lo e = b_blocknr bh * 4096 + off mod 4096
    ∧ ext_len e = (b_size bh + 4095) / 4096 ∧ ex_size e = b_size bh.
Proof.
  intros l Hl Hino Hoff Hdev Hblk Hsz. unfold append_fsextent.
  match goal with |- context [if ?b then upd_cur ?f w else w] =>
    set (w1 := if b then upd_cur f w else w) end.
  assert (Hw1 : w_log w1 = l ∧ i_inum (w_ip w1) = i_inum (w_ip w)) by (unfold w1; by case_if).
  destruct Hw1 as [Hw1 Hw2]. rewrite Hw1, Hw2. cbn [w_log mem].
  match goal with |- context [fsextent now _ off bh ?b] => set (bo := b) end.
  set (e := fsextent now (i_inum (w_ip w)) off bh bo).
  assert (Hlen : length (extent_bytes e) = 32%nat) by (unfold extent_bytes; by rewrite pack_length).
  pose proof (append_entry_log_spec (extent_bytes e) 0 l Hl) as Hspec.
  rewrite Hlen in Hspec. destruct (Hspec eq_refl) as (_ & _ & Hload & _).
  exists e. rewrite Hload. split.
  { rewrite <- (app_nil_r (extent_bytes e)). apply extent_roundtrip.
    unfold e, fsextent, extent_fields; cbn [ex_ino ex_entry_type ex_device_id ex_blkoff_hi ex_isappend
      ex_mtime ext_block ext_len ext_start_hi ext_start_lo ex_size ex_blkoff_lo].
    repeat apply Forall_cons_2; try apply Forall_nil_2; unfold field_ok; cbn [fst snd Z.of_nat];
      unfold u8, u16, u32, FILE_WRITE; try (apply Z.mod_pos_bound; lia); lia. }
  unfold e, fsextent; cbn [ex_ino ex_entry_type ex_device_id ext_block ext_len ext_start_hi
    ext_start_lo ex_size]. change g_block_size_shift with 12.
  rewrite !shr64_div, (u32_small (i_inum _)), shl64_small by lia. change (2 ^ 12) with 4096.
  split; [done|]. split; [done|]. split; [apply Z.mod_small; lia|].
  split; [apply u32_small; split; [apply Z.div_pos; lia|apply Z.div_lt_upper_bound; lia]|].
  split; [|split; [|done]].
  - change 4095 with (2 ^ 12 - 1). rewrite land_mask by lia. change (2 ^ 12) with 4096.
    apply split_address; lia.
  - rewrite u32_small by lia. apply Z.mod_small. split; [apply Z.div_pos; lia|].
    apply Z.div_lt_upper_bound; lia.
Qed.
End append.

(** ** Instances *)

(** A file [userfs_open_file] created: no device, no position, no index. *)
Lemma new_file_ready top w :
  w_tree w = RB_ROOT → c_devid (w_cur w) = 0 → c_ssdoff (w_cur w) = 0 → 0 ≤ c_wrthdnum (w_cur w) →
  space_ok (blocks_left top 0) (w_space w) → append_ready top 0 0 w.
Proof.
  intros Ht Hd Hs Hn Hsp. split; [done|done|done| | | |].
  - rewrite Ht. apply RB_ROOT_wf.
  - rewrite Ht. constructor.
  - intros x _. by rewrite Ht.
  - unfold cur_needs. rewrite Hd, Hs. split; [done|]. split; [|done].
    intros x d a. by rewrite Ht.
Qed.

Definition demo_world (size : Z) (c : cursor) (t : blktree) : world :=
  mkWorld (mkInode 7 T_FILE 1 size 0 I_VALID 1 0 0 c t (Some ∅) 0)
    (Blocks.mkSpace (mkAddr 512 1 1 1 0) 512) (loginit (λ _, 0)) (λ _ _, 0).
Definition new_cursor : cursor := mkCur 0 0 0 0 0 0 0 0 0.

Lemma demo_space_ok : space_ok (blocks_left (2 ^ 22) 0) (Blocks.mkSpace (mkAddr 512 1 1 1 0) 512).
Proof.
  split; [vm_compute; done..|].
  intros f Hf. assert (f = 0 ∨ f = 1 ∨ f = 2) as [-> | [-> | ->]] by lia; vm_compute; done.
Qed.

Lemma file_append_ok_witness :
  ∃ w', userfs_file_write (snfs 512 [] (λ _, None) 0 []) (mkFile FD_INODE 1 0 true true 0) 0
          (replicate 4096 5) (demo_world 0 new_cursor RB_ROOT)
        = Ok (4096, mkFile FD_INODE 1 0 true true 4096, 4096, w')
    ∧ append_ready (2 ^ 22) 4096 4096 w'
    ∧ ∀ x, fcontent w' x = if decide (0 ≤ x < 4096)
                           then Some (replicate 4096 5 !!! Z.to_nat (x - 0)) else None.
Proof.
  apply (file_append_ok 512 [] (λ _, None) 0 [] ltac:(by exists 8) (2 ^ 22)
    (mkFile FD_INODE 1 0 true true 0) 0 (replicate 4096 5) (demo_world 0 new_cursor RB_ROOT));
    [|reflexivity|reflexivity|by exists 0|by exists 1|vm_compute; done..].
  apply new_file_ready; [reflexivity..|vm_compute; done|apply demo_space_ok].
Defined.

(** 8 KiB at block 100 of device 1, and a position at block 600 for
    overwrites. *)
Definition over_cursor : cursor := mkCur 0 0 0 0 0 2457600 2097152 0 0.

Lemma aligned_write_inplace_witness :
  ∃ w', aligned_write 512 [] 0 8192 0 (replicate 4096 5) (demo_world 8192 over_cursor demo_tree)
          = Ok (4096, w')
    ∧ load (w_devs w' 1) 2457600 4096 = replicate 4096 5
    ∧ w_tree w' = demo_tree
    ∧ ((∀ x a, xlate demo_tree x = Some (1, a) → a < 2457600 ∨ 2457600 + 4096 ≤ a) →
       ∀ x, fcontent w' x = fcontent (demo_world 8192 over_cursor demo_tree) x).
Proof.
  apply (aligned_write_inplace 512 [] 0 ltac:(by exists 8) 8192 0 (replicate 4096 5)
    (demo_world 8192 over_cursor demo_tree)); vm_compute; done.
Defined.

(** 8000 bytes at block 100 of device 1. *)
Definition short_tree : blktree :=
  mkTree (Node Black Leaf 0%nat Leaf) {[0%nat := mkNode 0 8000 1 100]} 1.

Lemma aligned_smallwrite_dropped_witness :
  aligned_smallwrite 512 [] (λ _, None) 0 [] 8192 4096 (replicate 4000 5)
    (demo_world 8192 over_cursor short_tree)
  = Ok (4000, demo_world 8192 over_cursor short_tree).
Proof.
  apply (aligned_smallwrite_dropped 512 [] (λ _, None) 0 [] 8192 4096 (replicate 4000 5)
    (demo_world 8192 over_cursor short_tree) 0%nat); vm_compute; done.
Defined.

(** The file has 8000 bytes in a node that starts a block before them. *)
Lemma unaligned_append_block_witness :
  ∃ w', unaligned_smallwrite 512 [] (λ _, None) 0 [] 8000 8000 (replicate 96 5)
          (demo_world 8000 over_cursor short_tree) = Ok (96, w')
    ∧ load (w_devs w' 1) (99 * 4096 + 3904) 96 = replicate 96 5
    ∧ translate (mkNode 0 8000 1 100) 8000 = (1, 101 * 4096 + 3904).
Proof.
  apply (unaligned_append_block 512 [] (λ _, None) 0 [] 8000 (replicate 96 5)
    (demo_world 8000 over_cursor short_tree) 0%nat 1); vm_compute; done.
Defined.

Lemma append_fsextent_logged_witness :
  ∃ e, extent_of (load (mem (w_log (append_fsextent 0 4096 (mkBh 1 600 4096 0) 0
                   (demo_world 8192 over_cursor demo_tree)))) (0 + place 0 0) 32) = Some e
    ∧ ex_entry_type e = FILE_WRITE ∧ ex_ino e = 7 ∧ ex_device_id e = 0
    ∧ ext_block e = 1 ∧ ext_start_hi e * 2 ^ 32 + ext_start_lo e = 600 * 4096
    ∧ ext_len e = 1 ∧ ex_size e = 4096.
Proof.
  apply (append_fsextent_logged 0 4096 (mkBh 1 600 4096 0) 0 (demo_world 8192 over_cursor demo_tree));
    vm_compute; done.
Defined.
