(* ===== verification/Read.v ===== *)
(** * Read: the readers of one piece and the read cache ([filesystem/fs.c])

    [readi] hands an unaligned piece to [do_unaligned_read] and whole blocks
    to [do_align_read_cache1].  Both look in the block cache of the inode,
    then in the block index, then in the on-disk tree.  What is read from a
    block device is read into a buffer that stays in the read cache, what is
    read from persistent memory goes to the destination directly.  The
    transfers and the copies out of the cache of an aligned read are
    collected first and done at the end. *)
From Stdlib Require Import ZArith Lia.
From stdpp Require Import base numbers list gmap strings.
From S2P Require Import Prelude Util Bytes RbTree BlkTree Bitmap Storage Inode Bmap FileIO.

Definition EIO : Z := 5.
Definition EAGAIN : Z := 11.
Definition g_max_read_cache_blocks : Z := 2 * 2 ^ 20.
Definition FFF00 : Z := not64 (2 ^ 12 - 1).

(** What a reader works on: the inode, the read cache, the devices and the
    memory of the caller, in which the destination is an address. *)
Record rstate : Type := mkRs {
  r_ip : inode;
  r_cache : rcache;
  r_devs : devices;
  r_mem : memory
}.
Definition set_rip (i : inode) (s : rstate) : rstate := mkRs i (r_cache s) (r_devs s) (r_mem s).
Definition set_rcache (g : rcache) (s : rstate) : rstate := mkRs (r_ip s) g (r_devs s) (r_mem s).
Definition set_rmem (m : memory) (s : rstate) : rstate := mkRs (r_ip s) (r_cache s) (r_devs s) m.

(** ** The read cache *)

(** [list_move(&b->l, &g_fcache_head.lru_head)]. *)
Definition lru_move (p : nat) (g : rcache) : rcache :=
  set_lru (p :: filter (λ q, q ≠ p) (rc_lru g)) g.

(** The loop of [evict_read_cache] from the least recently used block on,
    [i] being the number of blocks evicted. *)
Fixpoint evict_loop (inode : inode) (n i : Z) (ps : list nat) (g : rcache)
    : outcome (Inode.inode * rcache) :=
  match ps with
  | [] => Ok (inode, g)
  | p :: ps =>
      if n <? i then Ok (inode, g)
      else
        b ← fcache_at p g;
        if fc_cached b then
          let blocks := shr64 (fc_size b) g_block_size_shift in
          g ← free_data (fc_data b) (set_rc_n (u64 (rc_n g - blocks)) g);
          if fc_log_addr b =? 0 then
            let g := lru_del p g in
            inode ← fcache_del inode b;
            evict_loop inode n (u32 (i + blocks)) ps (free_block p g)
          else evict_loop inode n (u32 (i + blocks)) ps g
        else evict_loop inode n i ps g
  end.

(** [evict_read_cache(inode, n_entries_to_evict)]. *)
Definition evict_read_cache (inode : inode) (n : Z) (g : rcache) : outcome (Inode.inode * rcache) :=
  evict_loop inode n 0 (rev (rc_lru g)) g.

(** [add_to_read_cache(inode, off, size, data)]. *)
Definition add_to_read_cache (inode : inode) (off size : Z) (data : nat) (g : rcache)
    : outcome (nat * Inode.inode * rcache) :=
  let key := shr64 off g_block_size_shift in
  found ← fcache_find inode key;
  '(p, inode, g) ←
    match found with
    | None =>
        '(p, inode, g) ← fcache_alloc_add inode key 0 g;
        Ok (p, inode, set_rc_n (u64 (rc_n g + shr64 size g_block_size_shift)) g)
    | Some p =>
        b ← fcache_at p g;
        if (fc_size b <? g_block_size_bytes) || (2 ^ 21 <? fc_size b) then
          inode ← fcache_del inode b; Ok (p, inode, g)
        else Ok (p, inode, g)
    end;
  b ← fcache_at p g;
  let g := set_obj p (mkFc (fc_key b) (fc_log_addr b) true size data (fc_inum b)) g in
  let g := lru_move p g in
  if g_max_read_cache_blocks <? rc_n g then
    '(inode, g) ← evict_read_cache inode (u32 (rc_n g - g_max_read_cache_blocks)) g;
    Ok (p, inode, g)
  else Ok (p, inode, g).

(** ** Transfers *)

(** Where a transfer or a copy puts its bytes: an address of the caller or a
    buffer of the cache. *)
Inductive target : Type := ToUser (a : Z) | ToBuf (p : nat).
#[export] Instance target_eq_dec : EqDecision target.
Proof. solve_decision. Defined.

Section readers.
(** The devices ([O_DIRECT] unit and fresh buffers), the kernel's answers,
    the content of memory [malloc] returns and of the stack. *)
Context (unit : Z) (fresh : list Z) (fetch : Z → option tmpinode).
Context (junk : Z → list Z) (stack : nat → Z).

(** [bh_get_sync_IO(dev, blockno, BH_NO_DATA_ALLOC)] with size and offset. *)
Definition get_bh (dev blockno size offset : Z) : M rstate buffer_head :=
  match storage_engine unit fresh dev with
  | None => fault "g_bdev[dev]"
  | Some _ => mret (mkBh dev blockno size offset)
  end.

(** [malloc(size)] or [posix_memalign] of a data buffer. *)
Definition alloc_data (size : Z) : M rstate nat := λ s,
  let g := r_cache s in
  let p := rc_next g in
  Ok (p, set_rcache (mkRc (rc_objs g) (<[p := junk size]> (rc_bufs g)) (S p) (rc_lru g) (rc_n g)) s).

(** [bytes] stored at the target. *)
Definition put (t : target) (bytes : list Z) : M rstate () := λ s,
  match t with
  | ToUser a => Ok (tt, set_rmem (store a bytes (r_mem s)) s)
  | ToBuf p =>
      match rc_bufs (r_cache s) !! p with
      | None => Fault "data was freed"
      | Some d =>
          if (length bytes <=? length d)%nat
          then Ok (tt, set_rcache (set_buf p (bytes ++ drop (length bytes) d) (r_cache s)) s)
          else Fault "read past the buffer"
      end
  end.

(** [bh_submit_read_sync_IO(bh)] with [bh->b_data] at the target. *)
Definition submit_read (bh : buffer_head) (t : target) : M rstate () :=
  s ← get;
  match bh_submit_read_sync_IO unit fresh bh (r_devs s) with
  | Ok d => put t d
  | Panic w => panic w
  | Fault w => fault w
  | NoFuel => nofuel
  end.

(** [memmove(dst, data + from, size)] from a buffer of the cache. *)
Definition copy_out (dst : Z) (p : nat) (from size : Z) : M rstate () := λ s,
  match rc_bufs (r_cache s) !! p with
  | None => Fault "data was freed"
  | Some d =>
      if from + size <=? Z.of_nat (length d)
      then put (ToUser dst) (take (Z.to_nat size) (drop (Z.to_nat from) d)) s
      else Fault "copy past the buffer"
  end.

(** [add_to_read_cache] on the state, and a load through the pointer. *)
Definition cache_add (off size : Z) (data : nat) : M rstate nat := λ s,
  '(p, i, g) ← add_to_read_cache (r_ip s) off size data (r_cache s);
  Ok (p, set_rcache g (set_rip i s)).
Definition cache_at (p : nat) : M rstate fcache_block := λ s,
  b ← fcache_at p (r_cache s); Ok (b, s).
Definition cache_find (key : Z) : M rstate (option nat) := λ s,
  p ← fcache_find (r_ip s) key; Ok (p, s).
Definition cache_touch (p : nat) : M rstate () := modify (λ s, set_rcache (lru_move p (r_cache s)) s).
Definition index_search (off : Z) : M rstate (option block_node) :=
  gets (λ s, node_at (i_blktree (r_ip s)) <$> block_search (i_blktree (r_ip s)) off).
Definition bmap_at (r : bmap_req) : M rstate (Z * bmap_req) := λ s,
  '(ret, ip, r) ← bmap fetch (r_devs s g_root_dev) (r_ip s) r;
  Ok ((ret, r), set_rip ip s).

(** ** [do_unaligned_read] *)

(** The two tests of the block cache: [key] with its offset in the file, and
    whether the size is tested before the block is used at all; the return
    value says whether the piece was read. *)
Definition cached_piece (p : nat) (dst delta io_size : Z) (small : bool) : M rstate bool :=
  b ← cache_at p;
  let enough := delta + io_size <=? fc_size b in
  if small && negb enough then mret false
  else if fc_cached b && enough then
    copy_out dst (fc_data b) delta io_size ;; cache_touch p ;; mret true
  else if negb (fc_log_addr b =? 0) then
    bh ← get_bh 1 (fc_log_addr b) io_size (u32 delta);
    submit_read bh (ToUser dst) ;; mret true
  else mret false.

(** The read of the block of [off_aligned] through a node of the index: the
    block number is shifted although [addr] counts blocks. *)
Definition read_block (n : block_node) (dst off off_aligned io_size : Z) : M rstate () :=
  let bfileoff := u64 (fileoff n + size n) in
  let rfileoff := u64 (off + io_size) in
  let readsize := if g_block_size_bytes <=? u64 (bfileoff - off_aligned) then g_block_size_bytes
                  else u64 (rfileoff - off_aligned) in
  bh ← get_bh (devid n)
         (shr64 (u64 (addr n + u64 (off_aligned - fileoff n))) g_block_size_shift) (u32 readsize) 0;
  data ← alloc_data readsize;
  p ← cache_add off_aligned (u32 readsize) data;
  submit_read bh (ToBuf data) ;;
  b ← cache_at p;
  copy_out dst (fc_data b) (off - off_aligned) io_size.

(** What follows the block cache and the index: the on-disk tree.  The
    device and the block number of the request are not initialised. *)
Definition read_mapped (dst off off_aligned off_MB_aligned io_size : Z) : M rstate () :=
  '(ret, r) ← bmap_at (mkReq off_aligned (stack 0) 0 (u8 (stack 1)));
  if ret =? - EIO then mret tt
  else
    _ ← get_bh (req_dev r) (block_no r) (u32 (shl64 (blk_count_found r) g_block_size_shift)) 0;
    if req_dev r =? g_root_dev then
      bh ← get_bh (req_dev r) (block_no r) io_size (u32 (off - off_aligned));
      data ← alloc_data g_block_size_bytes;
      p ← cache_add off_aligned g_block_size_bytes data;
      submit_read bh (ToBuf data) ;;
      b ← cache_at p;
      copy_out dst (fc_data b) (off - off_aligned) io_size
    else
      bh ← get_bh (req_dev r) (block_no r) g_lblock_size_bytes 0;
      data ← alloc_data g_lblock_size_bytes;
      p ← cache_add off_MB_aligned g_lblock_size_bytes data;
      submit_read bh (ToBuf data) ;;
      b ← cache_at p;
      copy_out dst (fc_data b) (off - off_MB_aligned) io_size.

(** The block cache part: whether the piece was read from it. *)
Definition read_cached (dst off off_aligned off_MB_aligned io_size : Z) : M rstate bool :=
  let key := shr64 off g_block_size_shift in
  let MB_key := shl64 (shr64 off g_lblock_size_shift) (g_lblock_size_shift - g_block_size_shift) in
  found ← cache_find key;
  match found with
  | Some p => cached_piece p dst (off - off_aligned) io_size false
  | None =>
      if MB_key =? key then mret false
      else
        found ← cache_find MB_key;
        match found with
        | Some p => cached_piece p dst (off - off_MB_aligned) io_size true
        | None => mret false
        end
  end.

(** [do_unaligned_read(ip, dst, off, io_size)]. *)
Definition do_unaligned_read (dst off io_size : Z) : M rstate Z :=
  assertM (io_size <? g_block_size_bytes) "io_size < g_block_size_bytes" ;;
  let off_aligned := Align.ALIGN_FLOOR off g_block_size_bytes in
  let off_MB_aligned := Align.ALIGN_FLOOR off g_lblock_size_bytes in
  hit ← read_cached dst off off_aligned off_MB_aligned io_size;
  if hit : bool then mret io_size
  else
    node ← index_search off_aligned;
    match node with
    | Some n =>
        if u64 (off + io_size) <=? u64 (fileoff n + size n)
        then read_block n dst off off_aligned io_size
        else read_mapped dst off off_aligned off_MB_aligned io_size
    | None =>
        if off_aligned =? off_MB_aligned
        then read_mapped dst off off_aligned off_MB_aligned io_size
        else
          node ← index_search off_MB_aligned;
          match node with
          | None => fault "blocknode is NULL"
          | Some n =>
              if u64 (off - off_MB_aligned + io_size) <=? size n
              then read_block n dst off off_aligned io_size
              else read_mapped dst off off_aligned off_MB_aligned io_size
          end
    end ;;
    mret io_size.

(** ** [do_align_read_cache1] *)

(** [struct cache_copy_list]: destination, source buffer, offset in it; the
    size is one block. *)
Record cache_copy : Type := mkCopy { cc_dst : Z; cc_src : nat; cc_from : Z }.

(** The local variables that change: bitmap of the blocks to be read,
    remaining size, blocks counted, [copy_list], [io_list] and the last
    weight of the bitmap. *)
Record locals : Type := mkLoc {
  l_bitmap : bitmap;
  l_remain : Z;
  l_done : Z;
  l_copy : list cache_copy;
  l_io : list (buffer_head * target);
  l_weight : Z
}.

Inductive next_step : Type := Again (l : locals) | Finish (l : locals).

Section aligned.
(** The arguments of the call. *)
Context (dst off io_size : Z).
Definition bitmap_size : Z := shr64 io_size g_block_size_shift.
Definition off_MB : Z := Align.ALIGN_FLOOR off g_lblock_size_bytes.

(** The loop that adds [n] blocks to [copy_list]: the array has as many
    entries as the bitmap has bits. *)
Definition add_copies (n : Z) (pos : Z) (src : nat) (from : Z) (l : locals) : outcome locals :=
  let n := Z.to_nat n in
  if (Z.of_nat (length (l_copy l) + n) <=? bitmap_size) then
    Ok (mkLoc (l_bitmap l) (l_remain l) (l_done l)
          (l_copy l ++ ((λ i : nat, mkCopy (dst + pos + Z.of_nat i * 4096) src
                                      (from + Z.of_nat i * 4096)) <$> seq 0 n))
          (l_io l) (l_weight l))
  else Fault "copy_list".
Definition lift {A} (o : outcome A) : M rstate A := λ s, a ← o; Ok (a, s).

Definition add_io (bh : buffer_head) (t : target) (l : locals) : locals :=
  mkLoc (l_bitmap l) (l_remain l) (l_done l) (l_copy l) (l_io l ++ [(bh, t)]) (l_weight l).

(** [bitmap_clear], [remain_size -= read_size] and [io_to_be_done += blocks]. *)
Definition account (bitmap_pos read_size blocks : Z) (l : locals) : locals :=
  mkLoc (bitmap_clear (l_bitmap l) bitmap_pos (shr64 read_size g_block_size_shift))
    (u32 (l_remain l - read_size)) (i32 (l_done l + blocks)) (l_copy l) (l_io l) (l_weight l).

Definition weight (l : locals) : Z := __bitmap_weight (l_bitmap l) bitmap_size.
Definition set_weight (w : Z) (l : locals) : locals :=
  mkLoc (l_bitmap l) (l_remain l) (l_done l) (l_copy l) (l_io l) w.

(** What follows an iteration: it must have cleared a bit. *)
Definition progress (l : locals) : M rstate next_step :=
  let w := weight l in
  if w =? 0 then mret (Finish l)
  else if l_weight l =? w then panic "read error"
  else mret (Again (set_weight w l)).

(** The node [n] covers the first missing block. *)
Definition read_node (n : block_node) (bitmap_pos : Z) (l : locals) : M rstate next_step :=
  let pos := shl64 bitmap_pos g_block_size_shift in
  let _off := u64 (off + pos) in
  let buf_size := u32 (Z.land (size n) FFF00) in
  let blockno := u64 (addr n + shr64 (u64 (_off - fileoff n)) g_block_size_shift) in
  '(l, read_size) ←
    (if negb (devid n =? g_root_dev) then
       bh ← get_bh (devid n) blockno buf_size 0;
       data ← alloc_data buf_size;
       let read_size := u32 (size n - (_off - fileoff n)) in
       p ← cache_add (fileoff n) buf_size data;
       let read_size := if l_remain l <? read_size then l_remain l else read_size in
       b ← cache_at p;
       l ← lift (add_copies (shr64 read_size g_block_size_shift) pos (fc_data b)
                   (_off - fileoff n) l);
       mret (add_io bh (ToBuf data) l, read_size)
     else
       let read_size := if l_remain l <? buf_size then l_remain l else buf_size in
       bh ← get_bh (devid n) blockno read_size 0;
       mret (add_io bh (ToUser (dst + pos)) l, read_size));
  progress (account bitmap_pos read_size (shr64 buf_size g_block_size_shift) l).

(** The node [n] covers the start of the 2 MiB of [off] and is long enough. *)
Definition read_MB_node (n : block_node) (bitmap_pos : Z) (l : locals) : M rstate next_step :=
  let pos := shl64 bitmap_pos g_block_size_shift in
  let buf_size := u32 (Z.land (size n) FFF00) in
  bh ← get_bh (devid n) (u64 (addr n + shr64 (u64 (off - fileoff n)) g_block_size_shift)) buf_size 0;
  data ← alloc_data buf_size;
  let l := add_io bh (ToBuf data) l in
  let read_size := if l_remain l <? buf_size then l_remain l else buf_size in
  l ← (if negb (devid n =? g_root_dev) then
         p ← cache_add off_MB buf_size data;
         b ← cache_at p;
         lift (add_copies (shr64 read_size g_block_size_shift) pos (fc_data b) (off - fileoff n) l)
       else mret l);
  let l := account bitmap_pos read_size (shr64 buf_size g_block_size_shift) l in
  let w := weight l in
  if l_weight l =? w then panic "read error"
  else if w =? 0 then mret (Finish l)
  else mret (Again (set_weight w l)).

(** The part from [read_from_device] on. *)
Definition read_device (bitmap_pos : Z) (l : locals) : M rstate next_step :=
  let pos := shl64 bitmap_pos g_block_size_shift in
  let _off := u64 (off + pos) in
  '(ret, r) ← bmap_at (mkReq _off 0 0 0);
  if ret =? - EIO then mret (Finish l)
  else
    let b_size := u32 (shl64 (blk_count_found r) g_block_size_shift) in
    bh ← get_bh (req_dev r) (block_no r) b_size 0;
    let read_size := if l_remain l <? b_size then l_remain l else b_size in
    l ← (if req_dev r =? g_root_dev then mret (add_io bh (ToUser (dst + pos)) l)
         else
           data ← alloc_data b_size;
           l ← (if blk_count_found r =? 512 then
                  p ← cache_add off_MB g_lblock_size_bytes data;
                  b ← cache_at p;
                  lift (add_copies (shr64 read_size g_block_size_shift) pos (fc_data b)
                          (off - off_MB) l)
                else if blk_count_found r =? 1 then
                  p ← cache_add _off g_block_size_bytes data;
                  b ← cache_at p;
                  lift (add_copies 1 pos (fc_data b) 0 l)
                else mret l);
           mret (add_io bh (ToBuf data) l));
    let l := account bitmap_pos read_size (blk_count_found r) l in
    if ret =? - EAGAIN then mret (Again l)
    else
      let w := weight l in
      if l_weight l =? w then panic "read error"
      else if w =? 0 then
        assertM (bitmap_size <=? l_done l) "io_to_be_done" ;; mret (Finish l)
      else mret (Again (set_weight w l)).

(** One round from [do_global_search] on. *)
Definition search_body (l : locals) : M rstate next_step :=
  let bitmap_pos := u32 (find_first_bit (l_bitmap l) bitmap_size) in
  let _off := u64 (off + shl64 bitmap_pos g_block_size_shift) in
  node ← index_search _off;
  match node with
  | Some n => read_node n bitmap_pos l
  | None =>
      if _off =? off_MB then read_device bitmap_pos l
      else
        node ← index_search off_MB;
        match node with
        | Some n =>
            if u64 (off - off_MB + io_size) <=? size n then read_MB_node n bitmap_pos l
            else read_device bitmap_pos l
        | None => read_device bitmap_pos l
        end
  end.

Fixpoint do_global_search (l : locals) (fuel : nat) : M rstate locals :=
  match fuel with
  | O => nofuel
  | S fuel =>
      s ← search_body l;
      match s with
      | Again l => do_global_search l fuel
      | Finish l => mret l
      end
  end.

(** The copies of [copy_list]; the test comes after the copy. *)
Fixpoint do_copies (cs : list cache_copy) : M rstate () :=
  match cs with
  | [] => mret tt
  | c :: cs =>
      copy_out (cc_dst c) (cc_src c) (cc_from c) g_block_size_bytes ;;
      (if dst + io_size <? cc_dst c + g_block_size_bytes
       then panic "read request overruns the user buffer" else mret tt) ;;
      do_copies cs
  end.

Fixpoint do_transfers (io : list (buffer_head * target)) : M rstate () :=
  match io with
  | [] => mret tt
  | (bh, t) :: io => submit_read bh t ;; do_transfers io
  end.

(** The search in the block cache for the 2 MiB block of [off]. *)
Definition read_hit (l : locals) : M rstate locals :=
  let MB_key := shl64 (shr64 off g_lblock_size_shift) (g_lblock_size_shift - g_block_size_shift) in
  found ← cache_find MB_key;
  match found with
  | None => mret l
  | Some p =>
      b ← cache_at p;
      if off - off_MB + g_block_size_bytes <=? fc_size b then
        let buf_size := u32 (fc_size b - (off - off_MB)) in
        let read_size := if io_size <? buf_size then io_size else buf_size in
        l ← lift (add_copies (shr64 read_size g_block_size_shift) 0 (fc_data b) (off - off_MB) l);
        cache_touch p ;;
        mret (account 0 read_size (shr64 (fc_size b) g_block_size_shift) l)
      else mret l
  end.

Definition BITS_TO_LONGS (n : Z) : nat := Z.to_nat ((n + 63) / 64).

(** [do_align_read_cache1(ip, dst, off, io_size)]. *)
Definition do_align_read_cache1 : M rstate Z :=
  let io_bitmap := bitmap_set (stack <$> seq 0 (BITS_TO_LONGS bitmap_size)) 0 bitmap_size in
  l ← read_hit (mkLoc io_bitmap io_size 0 [] [] 0);
  if weight l =? 0 then do_copies (l_copy l) ;; mret io_size
  else
    l ← do_global_search (set_weight (weight l) l) (S (Z.to_nat bitmap_size));
    do_transfers (l_io l) ;;
    do_copies (l_copy l) ;;
    mret io_size.
End aligned.
End readers.
