(* ===== verification/ReadOk.v ===== *)
(** * ReadOk: what the readers deliver

    The read cache keeps its invariant, and an aligned read through the
    block index or through the cache stores exactly the bytes of the file at
    the destination. *)
From Stdlib Require Import ZArith Lia Sorted.
From stdpp Require Import base numbers list gmap strings.
From S2P Require Import Prelude Util Bytes RbTree BlkTree Bitmap Storage Inode Bmap FileIO Read.

(** ** The read cache *)

(** Everything on the heap is below the next address. *)
Record heap_ok (g : rcache) : Prop := {
  hk_obj p b : rc_objs g !! p = Some b → (p < rc_next g)%nat ∧ (fc_data b < rc_next g)%nat;
  hk_buf p d : rc_bufs g !! p = Some d → (p < rc_next g)%nat
}.

(** The inode with another block cache. *)
Definition same_file (i i' : inode) : Prop := i' = set_fcache (i_fcache i') (i_n_fcache i') i.

Lemma same_file_refl i : same_file i i.
Proof. by destruct i. Qed.
Lemma same_file_trans i j k : same_file i j → same_file j k → same_file i k.
Proof. unfold same_file, set_fcache. intros E1 E2. rewrite E2, E1. done. Qed.

(** A block of the table gets new data, or a new block is entered. *)
Lemma fcache_live_set h g k p b :
  fcache_live h g → h !! k = Some p → fc_key b = k →
  (∃ d, rc_bufs g !! fc_data b = Some d) →
  (∀ q c, rc_objs g !! q = Some c → q ≠ p → fc_data c ≠ fc_data b) →
  fcache_live h (set_obj p b g).
Proof.
  intros Hl Hk Hb [d Hd] Hfresh.
  assert (Hother : ∀ k' q, h !! k' = Some q → k' ≠ k → q ≠ p).
  { intros k' q Hq Hne ->. by apply Hne, (fcache_live_ptr h g _ _ p). }
  split; cbn.
  - intros k' q Hq. destruct (decide (q = p)) as [->|Hne].
    + rewrite lookup_insert_eq. exists b. split; [done|]. split; [|intros _; by exists d].
      rewrite Hb. by apply (fcache_live_ptr h g _ _ p).
    + rewrite lookup_insert_ne by done. by apply (fl_obj _ _ Hl).
  - intros k1 k2 p1 p2 b1 b2 H1 H2.
    destruct (decide (p1 = p)) as [->|N1], (decide (p2 = p)) as [->|N2];
      rewrite ?lookup_insert_eq, ?lookup_insert_ne by done.
    + intros _ _ _ _ _. by apply (fcache_live_ptr h g _ _ p).
    + intros [= <-] O2 _ _ E. by destruct (Hfresh p2 b2 O2 N2).
    + intros O1 [= <-] _ _ E. by destruct (Hfresh p1 b1 O1 N1).
    + by apply (fl_data _ _ Hl).
Qed.

(** A table without the block is not concerned by its data. *)
Lemma fcache_live_unset h g p b :
  fcache_live h g → (∀ k, h !! k ≠ Some p) → fcache_live h (set_obj p b g).
Proof.
  intros Hl Hp. assert (Ho : ∀ k q, h !! k = Some q → rc_objs (set_obj p b g) !! q = rc_objs g !! q).
  { intros k q Hq. cbn. apply lookup_insert_ne. intros ->. by apply (Hp k). }
  split.
  - intros k q Hq. rewrite (Ho k q Hq). by apply (fl_obj _ _ Hl).
  - intros k1 k2 p1 p2 b1 b2 H1 H2. rewrite (Ho k1 p1 H1), (Ho k2 p2 H2). by apply (fl_data _ _ Hl).
Qed.

(** A new block under a new key. *)
Lemma fcache_live_insert h g k p b d :
  fcache_live h g → h !! k = None → fc_key b = k → rc_bufs g !! fc_data b = Some d →
  (∀ q c, rc_objs g !! q = Some c → q ≠ p ∧ fc_data c ≠ fc_data b) →
  fcache_live (<[k := p]> h) (set_obj p b g).
Proof.
  intros Hl Hk Hkey Hd Hnew.
  assert (Ho : ∀ k' q c, <[k := p]> h !! k' = Some q → rc_objs (set_obj p b g) !! q = Some c →
    (k' = k ∧ q = p ∧ c = b) ∨ (h !! k' = Some q ∧ rc_objs g !! q = Some c)).
  { intros k' q c. cbn. destruct (decide (k' = k)) as [->|Hne].
    - rewrite lookup_insert_eq. intros [= <-]. rewrite lookup_insert_eq. intros [= <-]. by left.
    - rewrite lookup_insert_ne by done. intros Hq. right. split; [done|].
      destruct (fl_obj _ _ Hl k' q Hq) as (c' & Hc' & _). destruct (Hnew q c' Hc') as [Hqp _].
      by rewrite lookup_insert_ne in * by congruence. }
  split.
  - intros k' q Hq. cbn. destruct (decide (k' = k)) as [->|Hne].
    + rewrite lookup_insert_eq in Hq. injection Hq as <-. rewrite lookup_insert_eq.
      exists b. split; [done|]. split; [done|]. intros _. by exists d.
    + rewrite lookup_insert_ne in Hq by done. destruct (fl_obj _ _ Hl k' q Hq) as (c & Hc & ?).
      exists c. rewrite lookup_insert_ne; [done|]. destruct (Hnew q c Hc). congruence.
  - intros k1 k2 p1 p2 b1 b2 H1 H2 O1 O2 C1 C2 E.
    destruct (Ho _ _ _ H1 O1) as [(-> & _ & ->)|[H1' O1']], (Ho _ _ _ H2 O2) as [(-> & _ & ->)|[H2' O2']];
      [done| | |by apply (fl_data _ _ Hl k1 k2 p1 p2 b1 b2)].
    + by destruct (Hnew p2 b2 O2').
    + by destruct (Hnew p1 b1 O1').
Qed.

(** Only the blocks and the buffers matter. *)
Lemma fcache_live_eq h g g' :
  rc_objs g' = rc_objs g → rc_bufs g' = rc_bufs g → fcache_live h g → fcache_live h g'.
Proof.
  intros Eo Eb [H1 H2]. split; rewrite Eo; [rewrite Eb|]; done.
Qed.

(** [add_to_read_cache] of a fresh buffer while the cache is not full. *)
Record cache_added (i : inode) (off size : Z) (data : nat) (g : rcache)
    (p : nat) (i' : inode) (g' : rcache) : Prop := {
  ca_ready : cache_ready i' g';
  ca_heap : heap_ok g';
  ca_bufs : rc_bufs g' = rc_bufs g;
  ca_next : (rc_next g ≤ rc_next g')%nat;
  ca_n : 0 ≤ rc_n g' ≤ rc_n g + size / 4096;
  ca_file : same_file i i';
  ca_block : ∃ b, rc_objs g' !! p = Some b ∧ fc_data b = data ∧ fc_size b = size ∧ fc_cached b = true;
  ca_found : fcache_find i (off / 4096) = Ok None → fcache_find i' (off / 4096) = Ok (Some p)
}.

Lemma heap_set_obj p b g :
  heap_ok g → (p < rc_next g)%nat → (fc_data b < rc_next g)%nat → heap_ok (set_obj p b g).
Proof.
  intros [H1 H2] Hp Hb. split; cbn; [|done]. intros q c.
  destruct (decide (q = p)) as [->|]; [rewrite lookup_insert_eq; by intros [= <-]|].
  rewrite lookup_insert_ne by done. apply H1.
Qed.

Lemma heap_eq g g' :
  rc_objs g' = rc_objs g → rc_bufs g' = rc_bufs g → rc_next g' = rc_next g → heap_ok g → heap_ok g'.
Proof. intros E1 E2 E3 [H1 H2]. split; rewrite E3; [rewrite E1|rewrite E2]; done. Qed.

Section add.
Context (i : inode) (off size : Z) (data : nat) (d : list Z) (g : rcache).
Hypothesis Hsize : 0 ≤ size < 2 ^ 32.
Hypothesis Hheap : heap_ok g.
Hypothesis Hbuf : rc_bufs g !! data = Some d.
Hypothesis Hfresh : ∀ q c, rc_objs g !! q = Some c → fc_data c ≠ data.
Hypothesis Hn : 0 ≤ rc_n g.
Hypothesis Hroom : rc_n g + size / 4096 ≤ g_max_read_cache_blocks.

(** The stores into the block and the list when there is room. *)
Lemma cache_store p b inode g1 :
  rc_objs g1 !! p = Some b → rc_n g1 ≤ g_max_read_cache_blocks →
  (b ← fcache_at p g1;
   let g := lru_move p (set_obj p (mkFc (fc_key b) (fc_log_addr b) true size data (fc_inum b)) g1) in
   if g_max_read_cache_blocks <? rc_n g then
     '(inode, g) ← evict_read_cache inode (u32 (rc_n g - g_max_read_cache_blocks)) g;
     Ok (p, inode, g)
   else Ok (p, inode, g))
  = Ok (p, inode, lru_move p (set_obj p (mkFc (fc_key b) (fc_log_addr b) true size data (fc_inum b)) g1)).
Proof.
  intros Hp Hle. unfold fcache_at. rewrite Hp. cbn.
  destruct (Z.ltb_spec g_max_read_cache_blocks (rc_n g1)); [lia|done].
Qed.

Lemma cache_add_new h :
  i_fcache i = Some h → fcache_live h g → h !! (off / 4096) = None →
  ∃ p i' g', add_to_read_cache i off size data g = Ok (p, i', g')
    ∧ cache_added i off size data g p i' g'.
Proof.
  intros Hf Hl Hk. unfold add_to_read_cache. change g_block_size_shift with 12.
  rewrite !shr64_div by lia. change (2 ^ 12) with 4096. unfold fcache_find. rewrite Hf, Hk. cbn [mbind outcome_bind].
  unfold fcache_alloc_add. rewrite Hf. cbn [mbind outcome_bind]. set (p := rc_next g).
  pose proof (Z.div_pos size 4096 ltac:(lia) ltac:(lia)) as Hp0.
  assert (Hu : u64 (rc_n g + size / 4096) = rc_n g + size / 4096)
    by (apply u64_small; unfold g_max_read_cache_blocks in Hroom; lia).
  rewrite (cache_store p (mkFc (off / 4096) 0 false 0 0 (i_inum i)));
    [|cbn; by rewrite lookup_insert_eq|cbn; lia].
  assert (Hpn : ∀ q c, rc_objs g !! q = Some c → q ≠ p).
  { intros q c Hq ->. destruct (hk_obj _ Hheap _ _ Hq). unfold p in *. lia. }
  eexists p, _, _. split; [done|]. split.
  - eexists. split; [done|].
    eapply fcache_live_eq; [..|apply (fcache_live_insert h g (off / 4096) p
      (mkFc (off / 4096) 0 true size data (i_inum i)) d)];
      [cbn; by rewrite insert_insert_eq|done|done|done|done|done|].
    intros q c0 Hq. split; [by apply (Hpn q c0)|by apply (Hfresh q)].
  - pose proof (hk_buf _ Hheap _ _ Hbuf). split; cbn.
    + intros q c. rewrite insert_insert_eq. destruct (decide (q = p)) as [->|].
      * rewrite lookup_insert_eq. intros [= <-]. cbn. unfold p. lia.
      * rewrite lookup_insert_ne by done. intros [??]%(hk_obj _ Hheap). lia.
    + intros q e ?%(hk_buf _ Hheap). lia.
  - done.
  - cbn. lia.
  - cbn. lia.
  - by destruct i.
  - eexists. cbn. rewrite lookup_insert_eq. done.
  - intros _. cbn. by rewrite lookup_insert_eq.
Qed.

Lemma cache_add_old h p :
  i_fcache i = Some h → fcache_live h g → h !! (off / 4096) = Some p →
  ∃ i' g', add_to_read_cache i off size data g = Ok (p, i', g')
    ∧ cache_added i off size data g p i' g'.
Proof.
  intros Hf Hl Hk. unfold add_to_read_cache. change g_block_size_shift with 12.
  rewrite !shr64_div by lia. change (2 ^ 12) with 4096. unfold fcache_find. rewrite Hf, Hk. cbn [mbind outcome_bind].
  pose proof (Z.div_pos size 4096 ltac:(lia) ltac:(lia)) as Hp0.
  destruct (fl_obj _ _ Hl _ p Hk) as (b & Hb & Hkey & Hdat).
  assert (Hat : fcache_at p g = Ok b) by (unfold fcache_at; by rewrite Hb).
  rewrite Hat. cbn [mbind outcome_bind].
  set (b' := mkFc (fc_key b) (fc_log_addr b) true size data (fc_inum b)).
  assert (Hold : ∀ i', same_file i i' → cache_ready i' (set_obj p b' g) →
    cache_added i off size data g p i' (lru_move p (set_obj p b' g))).
  { intros i' Hs (h' & Hh' & Hl'). pose proof (hk_obj _ Hheap _ _ Hb). pose proof (hk_buf _ Hheap _ _ Hbuf).
    split; [exists h'; split; [done|]; by eapply fcache_live_eq; [..|exact Hl']| |done|done|cbn; lia|done| |].
    - apply (heap_eq (set_obj p b' g)); [done..|]. apply heap_set_obj; [done|lia|cbn; lia].
    - exists b'. cbn. by rewrite lookup_insert_eq.
    - unfold fcache_find. rewrite Hf, Hk. done. }
  destruct ((fc_size b <? g_block_size_bytes) || (2 ^ 21 <? fc_size b)).
  - unfold fcache_del. rewrite Hf, Hkey, Hk. cbn [mbind outcome_bind].
    rewrite (cache_store p b) by (done || lia). eexists _, _. split; [done|].
    apply Hold; [by destruct i|]. eexists. split; [done|].
    assert (Hd' : fcache_live (delete (off / 4096) h) g).
    { split; [intros k q [_ Hq]%lookup_delete_Some; by apply (fl_obj _ _ Hl)|].
      intros k1 k2 p1 p2 b1 b2 [_ H1]%lookup_delete_Some [_ H2]%lookup_delete_Some.
      by apply (fl_data _ _ Hl). }
    apply fcache_live_unset; [done|]. intros k [Hne Hq]%lookup_delete_Some.
    by apply Hne, (fcache_live_ptr h g _ _ p).
  - cbn [mbind outcome_bind]. rewrite (cache_store p b) by (done || lia). eexists _, _. split; [done|].
    apply Hold; [apply same_file_refl|]. eexists. split; [done|].
    eapply (fcache_live_set _ _ (off / 4096)); [done|done|done|by exists d|].
    intros q c Hq _. by apply Hfresh in Hq.
Qed.

Lemma cache_add_ok :
  cache_ready i g →
  ∃ p i' g', add_to_read_cache i off size data g = Ok (p, i', g')
    ∧ cache_added i off size data g p i' g'.
Proof.
  intros (h & Hf & Hl). destruct (h !! (off / 4096)) as [p|] eqn:Hk.
  - destruct (cache_add_old h p) as (i' & g' & ? & ?); [done..|]. eauto.
  - by apply (cache_add_new h).
Qed.
End add.

(** ** The planned transfers and copies *)
Lemma load_lookup m a n i : (i < n)%nat → load m a n !! i = Some (m (a + Z.of_nat i)).
Proof. intros. unfold load. by rewrite list_lookup_fmap, lookup_seq_lt. Qed.

Section plan.
Context (unit : Z) (fresh : list Z) (dst off io_size : Z) (cont : Z → option Z) (ds : devices).

(** The memory of the caller: outside the destination it is as before, and
    the bytes in [W] are those of the file. *)
Definition mem_ok (m0 m : memory) (W : Z → Prop) : Prop :=
  ∀ x, (m x = m0 x ∨ (dst ≤ x < dst + io_size ∧ cont (off + (x - dst)) = Some (m x)))
    ∧ (W x → cont (off + (x - dst)) = Some (m x)).

(** [bytes] are those of the file for the destination address [a]. *)
Definition right_bytes (a : Z) (bytes : list Z) : Prop :=
  dst ≤ a ∧ a + Z.of_nat (length bytes) ≤ dst + io_size ∧
  ∀ i, (i < length bytes)%nat → cont (off + (a - dst) + Z.of_nat i) = bytes !! i.

Lemma mem_ok_store m0 m W a bytes :
  mem_ok m0 m W → right_bytes a bytes →
  mem_ok m0 (store a bytes m) (λ x, W x ∨ a ≤ x < a + Z.of_nat (length bytes)).
Proof.
  intros Hm (Ha & Hb & Hr) x. destruct (Hm x) as [H1 H2].
  destruct (decide (a ≤ x < a + Z.of_nat (length bytes))) as [Hx|Hx].
  - assert (E : cont (off + (x - dst)) = Some (store a bytes m x)).
    { unfold store. destruct (Z.leb_spec a x); [|lia].
      destruct (Z.ltb_spec x (a + Z.of_nat (length bytes))); [|lia]. cbn [andb].
      specialize (Hr (Z.to_nat (x - a)) ltac:(lia)).
      replace (off + (x - dst)) with (off + (a - dst) + Z.of_nat (Z.to_nat (x - a))) by lia.
      rewrite Hr. apply list_lookup_lookup_total_lt. lia. }
    split; [right; split; [lia|done]|done].
  - rewrite store_outside by lia. split; [done|]. by intros [?|?]; [auto|].
Qed.

Lemma mem_ok_weaken m0 m (W W' : Z → Prop) : mem_ok m0 m W → (∀ x, W' x → W x) → mem_ok m0 m W'.
Proof. intros Hm HW x. destruct (Hm x). split; auto. Qed.

(** A transfer into the destination, or into a buffer of its size. *)
Definition bh_bytes (bh : buffer_head) : list Z :=
  load (ds (b_dev bh)) (bh_addr bh) (Z.to_nat (b_size bh)).
Definition transfer_ok (g : rcache) (e : buffer_head * target) : Prop :=
  bh_ok unit e.1 ∧
  match e.2 with
  | ToUser a => right_bytes a (bh_bytes e.1)
  | ToBuf p => ∃ d, rc_bufs g !! p = Some d ∧ Z.of_nat (length d) = b_size e.1
  end.

(** What the transfers leave: the cache with the buffers filled. *)
Definition set_bufs (bs : gmap nat (list Z)) (g : rcache) : rcache :=
  mkRc (rc_objs g) bs (rc_next g) (rc_lru g) (rc_n g).

Record transferred (io : list (buffer_head * target)) (s s' : rstate) : Prop := {
  tr_cache : r_cache s' = set_bufs (rc_bufs (r_cache s')) (r_cache s);
  tr_ip : r_ip s' = r_ip s;
  tr_devs : r_devs s' = r_devs s;
  tr_dom p : is_Some (rc_bufs (r_cache s) !! p) ↔ is_Some (rc_bufs (r_cache s') !! p);
  tr_same p : (∀ bh, (bh, ToBuf p) ∉ io) → rc_bufs (r_cache s') !! p = rc_bufs (r_cache s) !! p;
  tr_read bh p : (bh, ToBuf p) ∈ io → ∃ bh', (bh', ToBuf p) ∈ io
    ∧ rc_bufs (r_cache s') !! p = Some (bh_bytes bh')
}.

Lemma bh_bytes_length bh : bh_ok unit bh → Z.of_nat (length (bh_bytes bh)) = b_size bh.
Proof. intros (_ & _ & ? & _). unfold bh_bytes. rewrite load_length. lia. Qed.

Lemma submit_read_ok e s m0 W :
  r_devs s = ds → transfer_ok (r_cache s) e → mem_ok m0 (r_mem s) W →
  ∃ s', submit_read unit fresh e.1 e.2 s = Ok (tt, s') ∧ transferred [e] s s'
    ∧ mem_ok m0 (r_mem s') (λ x, W x ∨ ∃ a, e.2 = ToUser a ∧ a ≤ x < a + b_size e.1).
Proof.
  destruct e as [bh t]. intros Hds [Hok Ht] Hm. cbn [fst snd] in *.
  unfold submit_read. unfold_M. rewrite Hds, (bh_read_spec unit fresh bh ds Hok). fold (bh_bytes bh).
  pose proof (bh_bytes_length bh Hok) as Hlen.
  destruct t as [a|p]; cbn [put].
  - eexists. split; [done|]. split.
    + split; [by destruct s as [? [] ? ?]|done|done|done|done|].
      intros bh' p. rewrite list_elem_of_singleton. done.
    + eapply mem_ok_weaken; [by apply mem_ok_store|]. intros x [?|(b & [= <-] & ?)]; [by left|].
      right. lia.
  - destruct Ht as (d & Hd & Hl). rewrite Hd.
    destruct (Nat.leb_spec (length (bh_bytes bh)) (length d)); [|lia].
    rewrite drop_ge, app_nil_r by lia. eexists. split; [done|]. split.
    + split; cbn; [done|done|done| | |].
      * intros q. destruct (decide (q = p)) as [->|].
        -- rewrite lookup_insert_eq, Hd. by split; eexists.
        -- by rewrite lookup_insert_ne.
      * intros q Hq. apply lookup_insert_ne. intros <-. apply (Hq bh), list_elem_of_singleton. done.
      * intros bh' q Hin. apply list_elem_of_singleton in Hin as [= -> ->].
        exists bh. rewrite lookup_insert_eq. split; [by left|done].
    + eapply mem_ok_weaken; [exact Hm|]. intros x [?|(b & ? & _)]; done.
Qed.

Lemma transfer_ok_kept e io s s' :
  transfer_ok (r_cache s) e → transferred io s s' → Forall (transfer_ok (r_cache s)) io →
  (∀ bh bh' p, (bh, ToBuf p) ∈ e :: io → (bh', ToBuf p) ∈ e :: io → bh = bh') →
  transfer_ok (r_cache s') e.
Proof.
  destruct e as [bh [a|p]]; intros [Hok Ht] Htr Hall Hnd; (split; [done|]); cbn [fst snd] in *; [done|].
  destruct Ht as (d & Hd & Hl).
  destruct (rc_bufs (r_cache s') !! p) as [d'|] eqn:Ed'.
  2: { destruct (proj1 (tr_dom _ _ _ Htr p)) as [? ?]; [by exists d|congruence]. }
  exists d'. split; [done|].
  destruct (decide (Exists (λ e, e.2 = ToBuf p) io)) as [Hex|Hnex].
  - apply Exists_exists in Hex as ([bh1 t1] & Hin & Ht1). cbn in Ht1. subst t1.
    destruct (tr_read _ _ _ Htr bh1 p Hin) as (bh2 & Hin2 & E). rewrite E in Ed'. simplify_eq.
    rewrite bh_bytes_length; [|eapply Forall_forall in Hall as [? _]; [|exact Hin2]; done].
    f_equal. apply (Hnd bh2 bh p); [by right|by left].
  - rewrite (tr_same _ _ _ Htr), Hd in Ed'; [by simplify_eq|].
    intros bh' Hin. apply Hnex, Exists_exists. by exists (bh', ToBuf p).
Qed.

Lemma transferred_cons e io s s1 s2 :
  transferred [e] s s1 → transferred io s1 s2 → transferred (e :: io) s s2.
Proof.
  intros H1 H2. split.
  - rewrite (tr_cache _ _ _ H2), (tr_cache _ _ _ H1) at 1. done.
  - rewrite (tr_ip _ _ _ H2). apply (tr_ip _ _ _ H1).
  - rewrite (tr_devs _ _ _ H2). apply (tr_devs _ _ _ H1).
  - intros p. by rewrite (tr_dom _ _ _ H1), (tr_dom _ _ _ H2).
  - intros p Hp. rewrite (tr_same _ _ _ H2), (tr_same _ _ _ H1); [done|..].
    + intros bh Hin%list_elem_of_singleton. apply (Hp bh). rewrite Hin. by left.
    + intros bh Hin. apply (Hp bh). by right.
  - intros bh p Hin. destruct (decide (Exists (λ e, e.2 = ToBuf p) io)) as [Hex|Hnex].
    + apply Exists_exists in Hex as ([bh1 t1] & Hin1 & Ht1). cbn in Ht1. subst t1.
      destruct (tr_read _ _ _ H2 bh1 p Hin1) as (bh2 & ? & ?). exists bh2. split; [by right|done].
    + assert (Hn : ∀ bh, (bh, ToBuf p) ∉ io).
      { intros bh' Hin'. apply Hnex, Exists_exists. by exists (bh', ToBuf p). }
      apply elem_of_cons in Hin as [<-|Hin]; [|by destruct (Hn bh)].
      destruct (tr_read _ _ _ H1 bh p) as (bh2 & Hin2 & E); [by left|].
      exists bh2. rewrite (tr_same _ _ _ H2) by done. apply list_elem_of_singleton in Hin2 as [= ->].
      split; [by left|done].
Qed.

(** The cache invariant does not depend on what is in the buffers. *)
Lemma transferred_cache io s s' :
  transferred io s s' → cache_ready (r_ip s) (r_cache s) → heap_ok (r_cache s) →
  cache_ready (r_ip s') (r_cache s') ∧ heap_ok (r_cache s').
Proof.
  intros Htr (h & Hf & Hl) [H1 H2]. rewrite (tr_ip _ _ _ Htr).
  assert (Eo : rc_objs (r_cache s') = rc_objs (r_cache s)) by (by rewrite (tr_cache _ _ _ Htr)).
  assert (En : rc_next (r_cache s') = rc_next (r_cache s)) by (by rewrite (tr_cache _ _ _ Htr)).
  split.
  - exists h. split; [done|]. split; rewrite Eo; [|apply (fl_data _ _ Hl)].
    intros k p Hp. destruct (fl_obj _ _ Hl k p Hp) as (b & ? & ? & Hb). exists b.
    split; [done|]. split; [done|]. intros Hc. by apply (tr_dom _ _ _ Htr), Hb.
  - split; rewrite En; [by rewrite Eo|]. intros p d Hd.
    destruct (proj2 (tr_dom _ _ _ Htr p)) as [d' Hd']; [by exists d|]. by apply (H2 p d').
Qed.

Lemma transfers_ok io : ∀ s m0 W,
  r_devs s = ds → Forall (transfer_ok (r_cache s)) io →
  (∀ bh bh' p, (bh, ToBuf p) ∈ io → (bh', ToBuf p) ∈ io → bh = bh') →
  mem_ok m0 (r_mem s) W →
  ∃ s', do_transfers unit fresh io s = Ok (tt, s') ∧ transferred io s s'
    ∧ mem_ok m0 (r_mem s') (λ x, W x ∨ ∃ bh a, (bh, ToUser a) ∈ io ∧ a ≤ x < a + b_size bh).
Proof.
  induction io as [|e io IH]; intros s m0 W Hds Hall Hnd Hm.
  { exists s. split; [done|]. split.
    - split; [by destruct s as [? [] ? ?]|done|done|done|done|]. intros bh p Hin. by apply elem_of_nil in Hin.
    - eapply mem_ok_weaken; [exact Hm|]. intros x [?|(? & ? & Hin & _)]; [done|]. by apply elem_of_nil in Hin. }
  apply Forall_cons in Hall as [He Hall].
  destruct (submit_read_ok e s m0 W Hds He Hm) as (s1 & E1 & Htr1 & Hm1).
  destruct (λ a b c, IH s1 m0 _ a b c Hm1) as (s2 & E2 & Htr2 & Hm2); [by rewrite (tr_devs _ _ _ Htr1)|..].
  { apply Forall_forall. intros e' Hin. apply (transfer_ok_kept e' [e] s s1); [|done|by constructor|].
    - by eapply Forall_forall in Hall.
    - assert (Hsub : ∀ x, x ∈ [e'; e] → x ∈ e :: io).
      { intros x. rewrite !elem_of_cons, elem_of_nil. intros [->|[->|[]]]; [by right|by left]. }
      intros bh bh' p Hi1%Hsub Hi2%Hsub. by apply (Hnd bh bh' p). }
  { intros bh bh' p ??. apply (Hnd bh bh' p); by right. }
  exists s2. destruct e as [bh t]. cbn [do_transfers]. unfold_M. cbn [fst snd] in E1. rewrite E1.
  split; [done|]. split; [by eapply transferred_cons|].
  eapply mem_ok_weaken; [exact Hm2|]. intros x [?|(bh' & a & Hin & Hx)]; [by left; left|].
  apply elem_of_cons in Hin as [[= -> <-]|Hin]; [left; right; by exists a|right; by exists bh', a].
Qed.

(** Copies out of buffers. *)
Definition copy_ok (bs : gmap nat (list Z)) (c : cache_copy) : Prop :=
  0 ≤ cc_from c ∧ ∃ d, bs !! cc_src c = Some d ∧ cc_from c + 4096 ≤ Z.of_nat (length d)
    ∧ right_bytes (cc_dst c) (take 4096 (drop (Z.to_nat (cc_from c)) d)).

Lemma copies_ok cs : ∀ s m0 W,
  Forall (copy_ok (rc_bufs (r_cache s))) cs → mem_ok m0 (r_mem s) W →
  ∃ m', do_copies dst io_size cs s = Ok (tt, set_rmem m' s)
    ∧ mem_ok m0 m' (λ x, W x ∨ ∃ c, c ∈ cs ∧ cc_dst c ≤ x < cc_dst c + 4096).
Proof.
  induction cs as [|c cs IH]; intros s m0 W Hall Hm.
  { exists (r_mem s). split; [by destruct s|]. eapply mem_ok_weaken; [exact Hm|].
    intros x [?|(? & Hin & _)]; [done|by apply elem_of_nil in Hin]. }
  apply Forall_cons in Hall as [(H0 & d & Hd & Hl & Hr) Hall].
  assert (Hlen : length (take 4096 (drop (Z.to_nat (cc_from c)) d)) = 4096%nat)
    by (rewrite length_take, length_drop; lia).
  pose proof (mem_ok_store _ _ _ _ _ Hm Hr) as Hm1. rewrite Hlen in Hm1.
  destruct (IH (set_rmem (store (cc_dst c) (take 4096 (drop (Z.to_nat (cc_from c)) d)) (r_mem s)) s) m0 _ Hall Hm1)
    as (m' & E & Hm').
  exists m'. split.
  - cbn [do_copies]. unfold copy_out. unfold_M. rewrite Hd. change g_block_size_bytes with 4096.
    destruct (Z.leb_spec (cc_from c + 4096) (Z.of_nat (length d))); [|lia]. cbn [put].
    destruct Hr as (_ & Hr & _). rewrite Hlen in Hr.
    destruct (Z.ltb_spec (dst + io_size) (cc_dst c + 4096)); [lia|]. exact E.
  - eapply mem_ok_weaken; [exact Hm'|]. intros x [?|(c' & Hin & Hx)]; [by left; left|].
    apply elem_of_cons in Hin as [->|Hin]; [left; right; done|right; by exists c'].
Qed.
End plan.

(** ** The bitmap of an aligned read: the blocks from [k] on are missing *)
Definition missing_from (B k : Z) (bm : bitmap) : Prop :=
  words_ok bm ∧ B ≤ 64 * Z.of_nat (length bm) ∧ ∀ i, 0 ≤ i < B → test_bit bm i = (k <=? i).

Lemma missing_first B k bm :
  0 ≤ k < B → missing_from B k bm → find_first_bit bm B = k.
Proof.
  intros Hk (Hw & Hl & Hb). destruct (find_first_bit_ok bm B Hw ltac:(lia) Hl) as [[E Hn]|(Hr & Ht & Hn)].
  - specialize (Hn k Hk). rewrite Hb in Hn by lia. apply Z.leb_gt in Hn. lia.
  - rewrite Hb in Ht by lia. apply Z.leb_le in Ht.
    destruct (decide (find_first_bit bm B = k)); [done|].
    specialize (Hn k ltac:(lia)). rewrite Hb in Hn by lia. apply Z.leb_gt in Hn. lia.
Qed.

Lemma bsum_const b lo n : 0 ≤ n → bsum (λ _, b) lo n = if b : bool then n else 0.
Proof.
  intros Hn. rewrite <- (Z2Nat.id n) by done. revert lo. induction (Z.to_nat n) as [|m IH]; intros lo.
  { by destruct b. }
  replace (Z.of_nat (S m)) with (1 + Z.of_nat m) by lia. rewrite bsum_app, IH by lia.
  replace (bsum (λ _, b) lo 1) with (Z.b2z b) by (unfold bsum; cbn; destruct b; done).
  destruct b; cbn [Z.b2z]; lia.
Qed.

Lemma missing_weight B k bm :
  0 ≤ k ≤ B → missing_from B k bm → __bitmap_weight bm B = B - k.
Proof.
  intros Hk (Hw & Hl & Hb). rewrite bitmap_weight_ok by (done || lia).
  replace (bsum (test_bit bm) 0 B) with (bsum (test_bit bm) 0 (k + (B - k))) by (f_equal; lia).
  rewrite bsum_app by lia.
  rewrite (bsum_ext _ (λ _, false) 0 k)
    by (intros i Hi; rewrite Hb by lia; destruct (Z.leb_spec k i); lia || done).
  rewrite (bsum_ext _ (λ _, true) (0 + k) (B - k))
    by (intros i Hi; rewrite Hb by lia; destruct (Z.leb_spec k i); lia || done).
  rewrite !bsum_const by lia. lia.
Qed.

Lemma missing_clear B k k' bm :
  0 ≤ k ≤ k' → k' ≤ B → B < 2 ^ 32 → missing_from B k bm → missing_from B k' (bitmap_clear bm k (k' - k)).
Proof.
  intros Hk Hk' HB (Hw & Hl & Hb).
  destruct (bitmap_clear_ok bm k (k' - k)) as [Hlen Hbit]; [lia..|].
  split; [by apply bitmap_clear_words|]. split; [by rewrite Hlen|]. intros i Hi.
  rewrite Hbit, Hb by lia.
  destruct (Z.leb_spec k i), (Z.ltb_spec i (k + (k' - k))), (Z.leb_spec k' i); cbn; done || lia.
Qed.

Lemma missing_all B stack :
  0 ≤ B < 2 ^ 32 → (∀ i, 0 ≤ stack i < 2 ^ 64) →
  missing_from B 0 (bitmap_set (stack <$> seq 0 (BITS_TO_LONGS B)) 0 B).
Proof.
  intros HB Hs. set (bm := stack <$> seq 0 (BITS_TO_LONGS B)).
  assert (Hw : words_ok bm).
  { apply Forall_forall. intros w (i & -> & _)%list_elem_of_fmap_1. apply Hs. }
  assert (Hl : B ≤ 64 * Z.of_nat (length bm)).
  { unfold bm, BITS_TO_LONGS. rewrite length_fmap, length_seq.
    pose proof (Z.div_mod (B + 63) 64 ltac:(lia)). pose proof (Z.mod_pos_bound (B + 63) 64 ltac:(lia)).
    pose proof (Z.div_pos (B + 63) 64 ltac:(lia) ltac:(lia)). lia. }
  destruct (bitmap_set_ok bm 0 B) as [Hlen Hbit]; [lia..|].
  split; [by apply bitmap_set_words|]. split; [by rewrite Hlen|]. intros i Hi. rewrite Hbit by lia.
  destruct (Z.leb_spec 0 i), (Z.ltb_spec i (0 + B)); done || lia.
Qed.

(** ** Plans *)
Section plans.
Context (unit : Z) (dst off io_size : Z) (cont : Z → option Z) (ds : devices).
Let right_bytes' := right_bytes dst off io_size cont.
Let transfer_ok' := transfer_ok unit dst off io_size cont ds.

(** The bytes a copy will find in its source. *)
Definition source (l : locals) (g : rcache) (p : nat) (d : list Z) : Prop :=
  (∃ bh, (bh, ToBuf p) ∈ l_io l ∧ d = bh_bytes ds bh)
  ∨ ((∀ bh, (bh, ToBuf p) ∉ l_io l) ∧ rc_bufs g !! p = Some d).

(** The transfers and copies collected so far deliver the first [k] blocks. *)
Record planned (k : Z) (l : locals) (g : rcache) : Prop := {
  pl_io : Forall (transfer_ok' g) (l_io l);
  pl_once bh bh' p : (bh, ToBuf p) ∈ l_io l → (bh', ToBuf p) ∈ l_io l → bh = bh';
  pl_copy c : c ∈ l_copy l → 0 ≤ cc_from c ∧ ∃ d, source l g (cc_src c) d
    ∧ cc_from c + 4096 ≤ Z.of_nat (length d)
    ∧ right_bytes' (cc_dst c) (take 4096 (drop (Z.to_nat (cc_from c)) d));
  pl_all y : 0 ≤ y < k * 4096 →
    (∃ bh a, (bh, ToUser a) ∈ l_io l ∧ a ≤ dst + y < a + b_size bh)
    ∨ ∃ c, c ∈ l_copy l ∧ cc_dst c ≤ dst + y < cc_dst c + 4096;
  pl_room : Z.of_nat (length (l_copy l)) ≤ k
}.

(** A plan does not depend on new buffers. *)
Definition bufs_kept (g g' : rcache) : Prop :=
  ∀ p d, rc_bufs g !! p = Some d → rc_bufs g' !! p = Some d.

Lemma planned_kept k l g g' : bufs_kept g g' → planned k l g → planned k l g'.
Proof.
  intros Hk [H1 H2 H3 H4 H5]. split; [|done| |done|done].
  - eapply Forall_impl; [exact H1|]. intros [bh [a|p]] [Hok Ht]; (split; [done|]); cbn in *; [done|].
    destruct Ht as (d & Hd & ?). exists d. split; [by apply Hk|done].
  - intros c Hc. destruct (H3 c Hc) as (? & d & [Hs|[Hs Hd]] & ?); (split; [done|]); exists d;
      (split; [|done]); [by left|right; split; [done|by apply Hk]].
Qed.

(** One more transfer into the destination. *)
Lemma planned_user k k' l l' g bh :
  planned k l g → 0 ≤ k ≤ k' → bh_ok unit bh → b_size bh = (k' - k) * 4096 →
  right_bytes' (dst + k * 4096) (bh_bytes ds bh) →
  l_io l' = l_io l ++ [(bh, ToUser (dst + k * 4096))] → l_copy l' = l_copy l → planned k' l' g.
Proof.
  intros [H1 H2 H3 H4 H5] Hk Hbh Hsz Hr Hio Hcp.
  assert (Hbuf : ∀ bh' p, (bh', ToBuf p) ∈ l_io l' ↔ (bh', ToBuf p) ∈ l_io l).
  { intros bh' p. rewrite Hio, elem_of_app, list_elem_of_singleton.
    split; [by intros [?|[=]]|by left]. }
  split.
  - rewrite Hio. apply Forall_app. split; [done|]. apply Forall_singleton. by split.
  - intros bh1 bh2 p. rewrite !Hbuf. apply H2.
  - intros c. rewrite Hcp. intros Hc. destruct (H3 c Hc) as (? & d & Hs & ?). split; [done|].
    exists d. split; [|done]. destruct Hs as [(b & ? & ?)|[Hs ?]].
    + left. exists b. by rewrite Hbuf.
    + right. split; [|done]. intros b. rewrite Hbuf. apply Hs.
  - intros y Hy. rewrite Hcp, Hio. destruct (decide (y < k * 4096)) as [Hlt|Hge].
    + destruct (H4 y ltac:(lia)) as [(b & a & ? & ?)|?]; [left|by right].
      exists b, a. rewrite elem_of_app. auto.
    + left. exists bh, (dst + k * 4096). rewrite elem_of_app, list_elem_of_singleton.
      split; [by right|lia].
  - rewrite Hcp. lia.
Qed.

(** One more transfer into a fresh buffer, with the copies out of it. *)
Definition block_copies (k n : Z) (p : nat) (from : Z) : list cache_copy :=
  (λ i : nat, mkCopy (dst + k * 4096 + Z.of_nat i * 4096) p (from + Z.of_nat i * 4096)) <$> seq 0 (Z.to_nat n).

Lemma block_copies_elem k n p from c :
  c ∈ block_copies k n p from →
  ∃ i, 0 ≤ i < n ∧ c = mkCopy (dst + k * 4096 + i * 4096) p (from + i * 4096).
Proof.
  intros (i & -> & Hi)%list_elem_of_fmap_1. apply elem_of_seq in Hi. exists (Z.of_nat i). split; [lia|done].
Qed.

(** The copies of [n] blocks from [from] on of bytes [d] that are right from
    block [k] on. *)
Lemma block_copies_right k n p from d c :
  0 ≤ k → 0 ≤ from → from + n * 4096 ≤ Z.of_nat (length d) → k * 4096 + n * 4096 ≤ io_size →
  (∀ y, 0 ≤ y < n * 4096 → cont (off + k * 4096 + y) = d !! Z.to_nat (from + y)) →
  c ∈ block_copies k n p from →
  cc_src c = p ∧ 0 ≤ cc_from c ∧ cc_from c + 4096 ≤ Z.of_nat (length d)
  ∧ right_bytes' (cc_dst c) (take 4096 (drop (Z.to_nat (cc_from c)) d)).
Proof.
  intros Hk Hf Hd Hio Hc (i & Hi & ->)%block_copies_elem. cbn [cc_src cc_from cc_dst].
  split; [done|]. split; [lia|]. split; [lia|].
  assert (Hlen : length (take 4096 (drop (Z.to_nat (from + i * 4096)) d)) = 4096%nat)
    by (rewrite length_take, length_drop; lia).
  split; [lia|]. rewrite Hlen. split; [lia|]. intros j Hj.
  rewrite lookup_take_lt, lookup_drop by lia.
  replace (off + (dst + k * 4096 + i * 4096 - dst) + Z.of_nat j)
    with (off + k * 4096 + (i * 4096 + Z.of_nat j)) by lia.
  rewrite Hc by lia. f_equal. lia.
Qed.

Lemma block_copies_cover k n p from y :
  k * 4096 ≤ y < (k + n) * 4096 →
  ∃ c, c ∈ block_copies k n p from ∧ cc_dst c ≤ dst + y < cc_dst c + 4096.
Proof.
  intros Hy. set (i := (y - k * 4096) / 4096).
  assert (Hi : 0 ≤ i < n) by (unfold i; split; [apply Z.div_pos; lia|apply Z.div_lt_upper_bound; lia]).
  exists (mkCopy (dst + k * 4096 + i * 4096) p (from + i * 4096)). split.
  - apply list_elem_of_fmap. exists (Z.to_nat i). rewrite Z2Nat.id by lia. split; [done|].
    apply elem_of_seq. lia.
  - cbn [cc_dst]. pose proof (Z.div_mod (y - k * 4096) 4096 ltac:(lia)).
    pose proof (Z.mod_pos_bound (y - k * 4096) 4096 ltac:(lia)). fold i in H. lia.
Qed.

Lemma planned_buf k k' l l' g bh p d from :
  planned k l g → 0 ≤ k ≤ k' → k' * 4096 ≤ io_size → bh_ok unit bh →
  rc_bufs g !! p = Some d → Z.of_nat (length d) = b_size bh →
  (∀ bh', (bh', ToBuf p) ∉ l_io l) → (∀ c, c ∈ l_copy l → cc_src c ≠ p) →
  0 ≤ from → from + (k' - k) * 4096 ≤ b_size bh →
  (∀ y, 0 ≤ y < (k' - k) * 4096 → cont (off + k * 4096 + y) = bh_bytes ds bh !! Z.to_nat (from + y)) →
  l_io l' = l_io l ++ [(bh, ToBuf p)] → l_copy l' = l_copy l ++ block_copies k (k' - k) p from →
  planned k' l' g.
Proof.
  intros [H1 H2 H3 H4 H5] Hk Hio Hbh Hd Hl Hnew Hcn Hf Hfl Hc Eio Ecp.
  assert (Hbuf : ∀ bh' q, (bh', ToBuf q) ∈ l_io l' ↔ (bh', ToBuf q) ∈ l_io l ∨ (bh' = bh ∧ q = p)).
  { intros bh' q. rewrite Eio, elem_of_app, list_elem_of_singleton.
    split; (intros [?|E]; [by left|right]); [by injection E|by destruct E as [-> ->]]. }
  split.
  - rewrite Eio. apply Forall_app. split; [done|]. apply Forall_singleton. split; [done|]. by exists d.
  - intros bh1 bh2 q. rewrite !Hbuf. intros [?|[-> ->]] [?|[-> E]].
    + by apply (H2 bh1 bh2 q).
    + subst. by destruct (Hnew bh1).
    + by destruct (Hnew bh2).
    + done.
  - intros c. rewrite Ecp, elem_of_app. intros [Hcc|Hcc].
    + pose proof (Hcn c Hcc) as Hne. destruct (H3 c Hcc) as (? & e & Hs & ?). split; [done|].
      exists e. split; [|done]. destruct Hs as [(b & ? & ?)|[Hs ?]].
      * left. exists b. rewrite Hbuf. auto.
      * right. split; [|done]. intros b. rewrite Hbuf. intros [?|[_ ?]]; [by apply (Hs b)|done].
    + apply (block_copies_right k (k' - k) p from (bh_bytes ds bh)) in Hcc as (-> & ? & ? & ?);
        [|lia|done|rewrite (bh_bytes_length unit) by done; lia|lia|done].
      split; [done|]. exists (bh_bytes ds bh). split; [|done]. left. exists bh. rewrite Hbuf. auto.
  - intros y Hy. rewrite Ecp, Eio. destruct (decide (y < k * 4096)) as [Hlt|Hge].
    + destruct (H4 y ltac:(lia)) as [(b & a & ? & ?)|(c & ? & ?)].
      * left. exists b, a. rewrite elem_of_app. auto.
      * right. exists c. rewrite elem_of_app. auto.
    + right. destruct (block_copies_cover k (k' - k) p from y) as (c & ? & ?); [lia|].
      exists c. rewrite elem_of_app. auto.
  - rewrite Ecp, length_app. unfold block_copies. rewrite length_fmap, length_seq. lia.
Qed.

(** The first blocks come out of a buffer that is there already. *)
Lemma planned_cached k l g p d from :
  0 ≤ k → k * 4096 ≤ io_size → rc_bufs g !! p = Some d → 0 ≤ from → from + k * 4096 ≤ Z.of_nat (length d) →
  (∀ y, 0 ≤ y < k * 4096 → cont (off + y) = d !! Z.to_nat (from + y)) →
  l_io l = [] → l_copy l = block_copies 0 k p from → planned k l g.
Proof.
  intros Hk Hio Hd Hf Hfl Hc Ei Ec. split; rewrite ?Ei, ?Ec.
  - by constructor.
  - by intros ? ? ? ?%elem_of_nil.
  - intros c Hcc. apply (block_copies_right 0 k p from d) in Hcc as (-> & ? & ? & ?); [|lia|done|done|lia|].
    2: { intros y Hy. cbn [Z.mul]. rewrite Z.add_0_r. by apply Hc. }
    split; [done|]. exists d. split; [|done]. right. rewrite Ei. split; [by intros ? ?%elem_of_nil|done].
  - intros y Hy. right. by apply (block_copies_cover 0 k p from).
  - unfold block_copies. rewrite length_fmap, length_seq. lia.
Qed.

(** The plan of all blocks, carried out. *)
Lemma planned_done fresh B l s m0 :
  B * 4096 = io_size → r_devs s = ds → r_mem s = m0 → planned B l (r_cache s) →
  ∃ s', (do_transfers unit fresh (l_io l) ;; do_copies dst io_size (l_copy l)) s = Ok (tt, s')
    ∧ r_ip s' = r_ip s ∧ r_devs s' = ds
    ∧ (cache_ready (r_ip s) (r_cache s) → heap_ok (r_cache s) →
       cache_ready (r_ip s') (r_cache s') ∧ heap_ok (r_cache s'))
    ∧ (∀ i, 0 ≤ i < io_size → cont (off + i) = Some (r_mem s' (dst + i)))
    ∧ (∀ x, x < dst ∨ dst + io_size ≤ x → r_mem s' x = m0 x).
Proof.
  intros HB Hds Hm0 [H1 H2 H3 H4 H5].
  destruct (transfers_ok unit fresh dst off io_size cont ds (l_io l) s m0 (λ _, False))
    as (s1 & E1 & Htr & Hm1); [done|done|done| |].
  { intros x. rewrite Hm0. split; [by left|done]. }
  destruct (λ a, copies_ok dst off io_size cont (l_copy l) s1 m0 _ a Hm1) as (m' & E2 & Hm2).
  { apply Forall_forall. intros c Hc. destruct (H3 c Hc) as (? & d & Hs & ? & ?). split; [done|].
    exists d. split; [|done]. destruct Hs as [(bh & Hin & ->)|[Hs Hd]].
    - destruct (tr_read _ _ _ _ Htr bh _ Hin) as (bh' & Hin' & E).
      by rewrite <- (H2 bh' bh (cc_src c) Hin' Hin).
    - by rewrite (tr_same _ _ _ _ Htr). }
  exists (set_rmem m' s1). unfold_M. rewrite E1, E2. split; [done|].
  split; [apply (tr_ip _ _ _ _ Htr)|]. split; [rewrite <- Hds; apply (tr_devs _ _ _ _ Htr)|].
  split; [intros Hr Hh; by apply (transferred_cache _ _ _ _ Htr)|].
  cbn [r_mem set_rmem]. split.
  - intros i Hi. destruct (Hm2 (dst + i)) as [_ Hw].
    replace (off + i) with (off + (dst + i - dst)) by lia. apply Hw.
    destruct (H4 i ltac:(lia)) as [(bh & a & ? & ?)|(c & ? & ?)].
    + left. right. by exists bh, a.
    + right. by exists c.
  - intros x Hx. destruct (Hm2 x) as [[?|[? _]] _]; [done|lia].
Qed.
End plans.

(** ** The loop of an aligned read *)

(** Nodes of whole blocks on the devices of the program, of less than 2 GiB. *)
Definition whole_node (n : block_node) : Prop :=
  fileoff n mod 4096 = 0 ∧ size n mod 4096 = 0 ∧ 1 ≤ devid n ≤ 4 ∧ size n < 2 ^ 31.
Definition whole_tree (t : blktree) : Prop :=
  Forall (λ i, whole_node (node_at t i)) (inorder (root t)).

(** The bytes of the file, through the index. *)
Definition content (t : blktree) (ds : devices) (x : Z) : option Z :=
  (λ '(d, a), ds d a) <$> xlate t x.

(** A fresh buffer on the heap. *)
Definition with_buf (junk : Z → list Z) (sz : Z) (g : rcache) : rcache :=
  mkRc (rc_objs g) (<[rc_next g := junk sz]> (rc_bufs g)) (S (rc_next g)) (rc_lru g) (rc_n g).

Lemma with_buf_ok junk sz i g :
  heap_ok g → cache_ready i g →
  heap_ok (with_buf junk sz g) ∧ cache_ready i (with_buf junk sz g) ∧ bufs_kept g (with_buf junk sz g)
  ∧ rc_bufs g !! rc_next g = None
  ∧ (∀ q c, rc_objs (with_buf junk sz g) !! q = Some c → fc_data c ≠ rc_next g).
Proof.
  intros Hh (h & Hf & Hl). assert (Hk : bufs_kept g (with_buf junk sz g)).
  { intros p d Hd. cbn. rewrite lookup_insert_ne; [done|]. apply (hk_buf _ Hh) in Hd. lia. }
  split; [|split; [|split; [done|split]]].
  - split; cbn.
    + intros p b ?%(hk_obj _ Hh). lia.
    + intros p d. destruct (decide (p = rc_next g)) as [->|]; [lia|].
      rewrite lookup_insert_ne by done. intros ?%(hk_buf _ Hh). lia.
  - exists h. split; [done|]. split; cbn [with_buf rc_objs]; [|apply (fl_data _ _ Hl)].
    intros k p Hp. destruct (fl_obj _ _ Hl k p Hp) as (b & ? & ? & Hb). exists b.
    split; [done|]. split; [done|]. intros [d Hd]%Hb. exists d. by apply Hk.
  - destruct (_ !! _) eqn:E; [|done]. apply (hk_buf _ Hh) in E. lia.
  - intros q c [_ Hq]%(hk_obj _ Hh). lia.
Qed.

(** Buffer heads of devices there are. *)
Lemma get_bh_ok unit fresh bh s : bh_ok unit bh →
  get_bh unit fresh (b_dev bh) (b_blocknr bh) (b_size bh) (b_offset bh) s = Ok (bh, s).
Proof.
  intros (_ & _ & _ & Hd). unfold get_bh, storage_engine, g_root_dev. unfold_M.
  destruct bh as [d nr sz o]; cbn in *.
  destruct (Z.eqb_spec d 1); [done|]. destruct Hd as [?|[? _]]; [done|].
  by destruct (Z.ltb_spec 1 d), (Z.leb_spec d g_n_devices); try lia.
Qed.

Section loop.
Context (unit : Z) (fresh : list Z) (fetch : Z → option tmpinode).
Context (junk : Z → list Z) (stack : nat → Z).
Hypothesis Hunit : (unit | 4096).
Hypothesis Hjunk : ∀ n, 0 ≤ n → Z.of_nat (length (junk n)) = n.
Context (dst off io_size : Z) (t : blktree) (ds : devices) (m0 : memory) (i0 : inode).
(** What the caller should find at the destination. *)
Context (cont : Z → option Z).
Hypothesis Hoff : 0 ≤ off ∧ off mod 4096 = 0 ∧ off + io_size < 2 ^ 62.
Hypothesis Hio : 0 < io_size < 2 ^ 31 ∧ io_size mod 4096 = 0.
Hypothesis Hwf : tree_wf t.
Hypothesis Hwhole : whole_tree t.
Let B := io_size / 4096.

Lemma B_io : B * 4096 = io_size ∧ 0 < B < 2 ^ 19.
Proof. unfold B. pose proof (Z.div_mod io_size 4096 ltac:(lia)). lia. Qed.

Lemma bitmap_size_B : bitmap_size io_size = B.
Proof. unfold bitmap_size. by rewrite shr64_div by done. Qed.

(** The state when the first [k] blocks are planned. *)
Record loop_inv (k : Z) (l : locals) (s : rstate) : Prop := {
  li_bits : missing_from B k (l_bitmap l);
  li_remain : l_remain l = io_size - k * 4096;
  li_plan : planned unit dst off io_size cont ds k l (r_cache s);
  li_ready : cache_ready (r_ip s) (r_cache s);
  li_heap : heap_ok (r_cache s);
  li_n : 0 ≤ rc_n (r_cache s) ∧ (k < B → rc_n (r_cache s) ≤ 2 ^ 20 + k);
  li_file : same_file i0 (r_ip s);
  li_devs : r_devs s = ds;
  li_mem : r_mem s = m0
}.

(** The position [k] of the request can be read through the node [n]: it is
    the node's start, or the node is in persistent memory and long enough. *)
Definition at_node (k : Z) (n : block_node) : Prop :=
  covers n (off + k * 4096) ∧ whole_node n ∧ node_ok n.
Definition readable (k : Z) (n : block_node) : Prop :=
  at_node k n ∧ (∀ x, covers n x → cont x = Some (ds (devid n) (addr n * 4096 + (x - fileoff n))))
  ∧ (off + k * 4096 = fileoff n ∨ (devid n = 1 ∧ off + io_size ≤ fileoff n + size n)).

(** How many blocks an iteration at [k] plans. *)
Definition blocks_read (k : Z) (n : block_node) : Z := Z.min (B - k) (size n / 4096).

(** The device block of the position. *)
Definition node_block (k : Z) (n : block_node) : Z := addr n + (off + k * 4096 - fileoff n) / 4096.

Lemma at_facts k n :
  at_node k n →
  let d := off + k * 4096 - fileoff n in
  0 ≤ d < size n ∧ d / 4096 * 4096 = d ∧ size n / 4096 * 4096 = size n ∧ 0 < size n / 4096
  ∧ 0 ≤ node_block k n < 2 ^ 50 ∧ node_block k n * 4096 = addr n * 4096 + d.
Proof.
  intros (Hc & (Hf & Hsz & Hdev & Hmax) & (? & ? & ? & ? & ?)) d. unfold covers in Hc.
  assert (Hd : d mod 4096 = 0).
  { unfold d. rewrite Zminus_mod, Z.mod_add, Hf by lia. destruct Hoff as (_ & -> & _). done. }
  pose proof (Z.div_mod d 4096 ltac:(lia)). pose proof (Z.div_mod (size n) 4096 ltac:(lia)).
  unfold node_block. fold d. repeat split; lia.
Qed.

Lemma node_facts k n :
  0 ≤ k < B → readable k n →
  0 < blocks_read k n ≤ B - k ∧ off + k * 4096 - fileoff n + blocks_read k n * 4096 ≤ size n.
Proof.
  intros Hk (Hat & _ & Hs). destruct (at_facts k n Hat) as (F1 & F2 & F3 & F4 & _).
  destruct B_io as [HB HB']. unfold blocks_read in *. lia.
Qed.

(** A transfer from the position on. *)
Lemma node_bh k n sz :
  at_node k n → 0 < sz < 2 ^ 32 → sz mod 4096 = 0 →
  bh_ok unit (mkBh (devid n) (node_block k n) sz 0).
Proof.
  intros Hat Hsz Hm. destruct (at_facts k n Hat) as (_ & _ & _ & _ & ? & _).
  pose proof Hat as (_ & (_ & _ & Hd & _) & _).
  split; [cbn; lia|]. split; [cbn; lia|]. split; [done|]. cbn [b_dev b_offset b_size].
  destruct (decide (devid n = 1)); [by left|right]. unfold g_n_devices. split; [lia|]. split; [done|].
  apply Z.mod_divide; [intros ->; by apply Z.divide_0_l in Hunit|].
  eapply Z.divide_trans; [exact Hunit|]. by apply Z.mod_divide.
Qed.

Lemma node_bytes k n sz y :
  0 ≤ k < B → readable k n → 0 ≤ y < blocks_read k n * 4096 → y < sz →
  cont (off + k * 4096 + y)
  = bh_bytes ds (mkBh (devid n) (node_block k n) sz 0) !! Z.to_nat y.
Proof.
  intros Hk Hr Hy Hs. destruct (node_facts k n Hk Hr) as [_ Hin].
  pose proof Hr as (Hat & Hc & _). destruct (at_facts k n Hat) as (? & _ & _ & _ & _ & Hb).
  unfold covers in Hc. rewrite Hc by lia.
  unfold bh_bytes, bh_addr. cbn [b_dev b_blocknr b_size b_offset].
  rewrite load_lookup by lia. rewrite Z2Nat.id by lia. do 2 f_equal. lia.
Qed.

(** The invariant after the blocks of an iteration were accounted for. *)
Lemma account_inv k k' l l' s' done_ :
  0 ≤ k ≤ k' → k' ≤ B → missing_from B k (l_bitmap l) → l_remain l = io_size - k * 4096 →
  l_bitmap l' = l_bitmap l → l_remain l' = l_remain l →
  planned unit dst off io_size cont ds k' l' (r_cache s') →
  cache_ready (r_ip s') (r_cache s') → heap_ok (r_cache s') →
  0 ≤ rc_n (r_cache s') ∧ (k' < B → rc_n (r_cache s') ≤ 2 ^ 20 + k') →
  same_file i0 (r_ip s') → r_devs s' = ds → r_mem s' = m0 →
  loop_inv k' (account k ((k' - k) * 4096) done_ l') s'.
Proof.
  intros Hk Hk' Hm Hrem Eb Er Hp Hr Hh Hn Hf Hd Hmem. destruct B_io as [HB HB'].
  assert (Hsh : shr64 ((k' - k) * 4096) g_block_size_shift = k' - k).
  { change g_block_size_shift with 12. rewrite shr64_div by lia. apply Z.div_mul. lia. }
  split; cbn [l_bitmap l_remain account]; [| |destruct Hp; by split|done..].
  - rewrite Eb, Hsh. apply missing_clear; [done|done|lia|done].
  - rewrite Er, Hrem. rewrite u32_small by lia. lia.
Qed.

Lemma progress_ok k l s :
  0 ≤ k ≤ B → missing_from B k (l_bitmap l) → l_weight l > B - k →
  progress io_size l s = Ok (if k =? B then Finish l else Again (set_weight (B - k) l), s).
Proof.
  intros Hk Hm Hw. unfold progress, weight. rewrite bitmap_size_B, (missing_weight B k) by done.
  unfold_M. destruct (Z.eqb_spec (B - k) 0), (Z.eqb_spec k B); try lia; [done|].
  by destruct (Z.eqb_spec (l_weight l) (B - k)); [lia|].
Qed.

(** The values [read_node] computes. *)
Lemma node_values k n :
  0 ≤ k < B → at_node k n →
  shl64 k g_block_size_shift = k * 4096
  ∧ u64 (off + k * 4096) = off + k * 4096
  ∧ u32 (Z.land (size n) FFF00) = size n
  ∧ u64 (addr n + shr64 (u64 (off + k * 4096 - fileoff n)) g_block_size_shift) = node_block k n
  ∧ shr64 (size n) g_block_size_shift = size n / 4096.
Proof.
  intros Hk Hat. destruct (at_facts k n Hat) as (? & ? & ? & ? & ? & ?).
  pose proof Hat as (Hc & (Hf & Hsz & Hdev & Hmax) & (? & ? & ? & ? & ?)). unfold covers in Hc.
  destruct B_io as [HB HB']. change g_block_size_shift with 12.
  split; [apply shl64_small; lia|]. split; [apply u64_small; lia|]. split.
  - unfold FFF00. rewrite land_not64_mask by lia. change (2 ^ 12) with 4096. rewrite Hsz, Z.sub_0_r.
    apply u32_small. lia.
  - rewrite !shr64_div by lia. change (2 ^ 12) with 4096. split; [|done].
    rewrite (u64_small (_ - _)) by lia. apply u64_small. fold (node_block k n). lia.
Qed.

(** Persistent memory: straight to the destination. *)
Lemma read_node_nvm k n l s :
  0 ≤ k < B → readable k n → devid n = 1 → loop_inv k l s → l_weight l = B - k →
  let k' := k + blocks_read k n in
  ∃ l', read_node unit fresh junk dst off io_size n k l s
      = Ok (if k' =? B then Finish l' else Again (set_weight (B - k') l'), s)
    ∧ loop_inv k' l' s.
Proof.
  intros Hk Hr Hdev [Hb Hrem Hp Hrd Hh Hn Hfile Hds Hm] Hw k'.
  pose proof Hr as (Hat & _). destruct (node_values k n Hk Hat) as (E1 & E2 & E3 & E4 & E5).
  destruct (at_facts k n Hat) as (F1 & F2 & F3 & F4 & _).
  destruct (node_facts k n Hk Hr) as [F5 F6].
  destruct B_io as [HB HB']. pose proof Hat as (_ & (_ & _ & _ & Hmax) & _).
  assert (Hrs : (if l_remain l <? size n then l_remain l else size n) = (k' - k) * 4096).
  { unfold k', blocks_read. rewrite Hrem. case_if; lia. }
  assert (Hbh : bh_ok unit (mkBh (devid n) (node_block k n) ((k' - k) * 4096) 0))
    by (apply node_bh; [done|unfold k'; lia|apply Z.mod_mul; lia]).
  unfold read_node. rewrite E1, E2, E3, E4, E5, Hrs. unfold g_root_dev.
  destruct (Z.eqb_spec (devid n) 1) as [_|]; [|done]. cbn [negb].
  unfold_M. rewrite (get_bh_ok unit fresh (mkBh (devid n) (node_block k n) ((k' - k) * 4096) 0)) by done.
  set (l' := account k ((k' - k) * 4096) (size n / 4096) _).
  assert (Hinv : loop_inv k' l' s).
  { apply (account_inv k k' l); try done; try (unfold k'; lia).
    eapply (planned_user unit dst off io_size cont ds k k'); [exact Hp|unfold k'; lia|exact Hbh|done| |done|done].
    split; [lia|]. rewrite (bh_bytes_length unit) by done. cbn [b_size]. split; [unfold k' in *; lia|].
    intros i Hi. pose proof (bh_bytes_length unit ds _ Hbh) as Hlen. cbn [b_size] in Hlen.
    replace (off + (dst + k * 4096 - dst) + Z.of_nat i) with (off + k * 4096 + Z.of_nat i) by lia.
    rewrite (node_bytes k n ((k' - k) * 4096)) by (done || unfold k' in *; lia). by rewrite Nat2Z.id. }
  exists l'. split; [|done]. apply progress_ok; [unfold k'; lia|apply (li_bits _ _ _ Hinv)|cbn; unfold k'; lia].
Qed.

(** A buffer that is not there yet is in no plan. *)
Lemma plan_no_buf k l g p :
  planned unit dst off io_size cont ds k l g → rc_bufs g !! p = None →
  (∀ bh, (bh, ToBuf p) ∉ l_io l) ∧ (∀ c, c ∈ l_copy l → cc_src c ≠ p).
Proof.
  intros [H1 _ H3 _ _] Hp.
  assert (Hio' : ∀ bh, (bh, ToBuf p) ∉ l_io l).
  { intros bh Hin. eapply Forall_forall in H1; [|exact Hin].
    destruct H1 as [_ (d & Hd & _)]. congruence. }
  split; [done|]. intros c Hc E. destruct (H3 c Hc) as (_ & d & [(bh & Hin & _)|[_ Hd]] & _); subst p.
  - by apply (Hio' bh).
  - congruence.
Qed.

(** A block device: the whole length of the node is read into a buffer of
    the cache, from the position on, and copied from the distance [d] between
    the position and the start of the node on. *)
Lemma read_node_ssd_from k n l s :
  let d := off + k * 4096 - fileoff n in
  let k' := k + Z.min (B - k) ((size n - d) / 4096) in
  0 ≤ k < B → at_node k n → devid n ≠ 1 → loop_inv k l s → l_weight l = B - k → d = 0 ∨ k' = B →
  (∀ y, 0 ≤ y < (k' - k) * 4096 → cont (off + k * 4096 + y)
     = bh_bytes ds (mkBh (devid n) (node_block k n) (size n) 0) !! Z.to_nat (d + y)) →
  ∃ l' s', read_node unit fresh junk dst off io_size n k l s
      = Ok (if k' =? B then Finish l' else Again (set_weight (B - k') l'), s')
    ∧ loop_inv k' l' s'.
Proof.
  intros d k' Hk Hat Hdev [Hb Hrem Hp Hrd Hh [Hn0 Hn] Hfile Hds Hm] Hw Hd0 Hcb.
  destruct (node_values k n Hk Hat) as (E1 & E2 & E3 & E4 & E5).
  destruct (at_facts k n Hat) as (F1 & F2 & F3 & F4 & F5 & F6). fold d in F1, F2, F6.
  destruct B_io as [HB HB']. pose proof Hat as (_ & (_ & _ & _ & Hmax) & Hok).
  pose proof Hok as (Hf0 & Hs0 & _).
  assert (Hsd : (size n - d) / 4096 * 4096 = size n - d).
  { rewrite <- F2, <- F3, <- Z.mul_sub_distr_r, Z.div_mul by lia. done. }
  assert (Hkk : k < k' ≤ B) by (unfold k'; lia).
  assert (Hrs : (if l_remain l <? u32 (size n - d) then l_remain l
                 else u32 (size n - d)) = (k' - k) * 4096).
  { rewrite u32_small by lia. unfold k'. rewrite Hrem. case_if; lia. }
  set (bh := mkBh (devid n) (node_block k n) (size n) 0).
  assert (Hbh : bh_ok unit bh) by (apply node_bh; [done|lia|by rewrite <- F3, Z.mod_mul]).
  set (g1 := with_buf junk (size n) (r_cache s)). set (data := rc_next (r_cache s)).
  destruct (with_buf_ok junk (size n) (r_ip s) (r_cache s) Hh Hrd) as (Hh1 & Hrd1 & Hk1 & Hnone & Hfr).
  destruct (plan_no_buf _ _ _ _ Hp Hnone) as [Hno1 Hno2].
  assert (Hd1 : rc_bufs g1 !! data = Some (junk (size n))) by (cbn; by rewrite lookup_insert_eq).
  destruct (cache_add_ok (r_ip s) (fileoff n) (size n) data (junk (size n)) g1) as (p & i1 & g2 & Ea & Hadd);
    [lia|done|done|done|exact Hn0|cbn; unfold g_max_read_cache_blocks; specialize (Hn ltac:(lia)); lia|done|].
  destruct Hadd as [A1 A2 A3 A4 A5 A6 (b & Ab & Ad & _) _].
  unfold read_node. rewrite E1, E2, E3, E4, E5. fold d. rewrite Hrs. unfold g_root_dev.
  destruct (Z.eqb_spec (devid n) 1) as [|_]; [done|]. cbn [negb].
  unfold_M. rewrite (get_bh_ok unit fresh bh) by done.
  change (alloc_data junk (size n) s) with (Ok (data, set_rcache g1 s)). cbv beta iota.
  unfold cache_add. cbn [r_ip r_cache set_rcache]. unfold mbind, outcome_bind. rewrite Ea.
  unfold cache_at, fcache_at, mbind, outcome_bind. cbn [r_cache set_rcache set_rip]. rewrite Ab, Ad.
  assert (Hsh : shr64 ((k' - k) * 4096) g_block_size_shift = k' - k).
  { change g_block_size_shift with 12. rewrite shr64_div by lia. apply Z.div_mul. lia. }
  unfold lift, add_copies, mbind, outcome_bind. rewrite Hsh, bitmap_size_B.
  pose proof (pl_room _ _ _ _ _ _ _ _ _ Hp) as Hroom.
  destruct (Z.leb_spec (Z.of_nat (length (l_copy l) + Z.to_nat (k' - k))) B) as [_|]; [|unfold k' in *; lia].
  set (s' := set_rcache g2 _). set (l' := account k ((k' - k) * 4096) (size n / 4096) _).
  assert (Hkept : bufs_kept (r_cache s) g2) by (intros q e Hq; rewrite A3; by apply Hk1).
  assert (Hinv : loop_inv k' l' s').
  { apply (account_inv k k' l); try done; try (unfold k'; lia).
    - eapply (planned_buf unit dst off io_size cont ds k k' l _ g2 bh data (junk (size n)) d);
        [by eapply planned_kept|lia|lia|done|by rewrite A3|cbn [b_size bh]; apply Hjunk; lia
        |done|done|lia|cbn [b_size bh]; unfold k'; lia|exact Hcb|done|done].
    - split; [apply A5|]. intros Hlt. destruct A5 as [_ A5]. cbn [rc_n g1 with_buf] in A5.
      specialize (Hn ltac:(lia)). cbn [r_cache s' set_rcache].
      destruct Hd0 as [Hd0|]; [|lia]. unfold k' in *. rewrite Hd0, Z.sub_0_r in *. lia.
    - by eapply same_file_trans. }
  exists l', s'. split; [|done]. apply progress_ok; [unfold k'; lia|apply (li_bits _ _ _ Hinv)|cbn; unfold k'; lia].
Qed.

Lemma read_node_ssd k n l s :
  0 ≤ k < B → readable k n → devid n ≠ 1 → loop_inv k l s → l_weight l = B - k →
  let k' := k + blocks_read k n in
  ∃ l' s', read_node unit fresh junk dst off io_size n k l s
      = Ok (if k' =? B then Finish l' else Again (set_weight (B - k') l'), s')
    ∧ loop_inv k' l' s'.
Proof.
  intros Hk Hr Hdev Hinv Hw. pose proof Hr as (Hat & _ & Hs).
  assert (Hd : off + k * 4096 - fileoff n = 0) by (destruct Hs as [?|[? _]]; [lia|done]).
  pose proof (read_node_ssd_from k n l s) as H. cbv zeta in H. rewrite Hd, Z.sub_0_r in H.
  apply H; try done; [by left|]. intros y Hy. rewrite Z.add_0_l.
  destruct (at_facts k n Hat) as (_ & _ & ? & _).
  apply node_bytes; [done|done|unfold blocks_read; lia|lia].
Qed.

(** A position from which the index can be read: a node starts there, or the
    rest of the request is inside one node of persistent memory. *)
Definition start_ok (k : Z) : Prop :=
  ∃ j, block_search t (off + k * 4096) = Some j ∧
    (off + k * 4096 = fileoff (node_at t j)
     ∨ (devid (node_at t j) = 1 ∧ off + io_size ≤ fileoff (node_at t j) + size (node_at t j))).

Hypothesis Hmapped : ∀ x, off ≤ x < off + io_size → is_Some (xlate t x).

(** Behind the node that was read the next one starts. *)
Lemma start_next k j :
  0 ≤ k < B → block_search t (off + k * 4096) = Some j → readable k (node_at t j) →
  k + blocks_read k (node_at t j) < B → start_ok (k + blocks_read k (node_at t j)).
Proof.
  intros Hk Hj Hr Hlt. set (n := node_at t j) in *.
  pose proof Hr as (Hat & _ & Hs). destruct (at_facts k n Hat) as (F1 & F2 & F3 & F4 & _).
  destruct (node_facts k n Hk Hr) as [F5 F6]. destruct B_io as [HB HB'].
  assert (Hend : off + (k + blocks_read k n) * 4096 = fileoff n + size n).
  { unfold blocks_read in *. destruct Hs as [Hs|[_ Hs]]; lia. }
  destruct (Hmapped (off + (k + blocks_read k n) * 4096)) as [v Hv]; [lia|].
  unfold xlate in Hv. destruct (block_search t (off + (k + blocks_read k n) * 4096)) as [j'|] eqn:Hj'; [|done].
  exists j'. split; [done|]. left.
  apply block_search_spec in Hj as [Hin _]; [|done].
  apply block_search_spec in Hj' as [Hin' Hc']; [|done]. unfold covers in Hc'. rewrite Hend in *.
  assert (Hord : fileoff n + size n ≤ fileoff (node_at t j')
                 ∨ fileoff (node_at t j') + size (node_at t j') ≤ fileoff n ∨ j = j').
  { destruct Hwf as [_ _ Hsort _]. clear -Hsort Hin Hin'. fold (node_at t j) in *. unfold n.
    induction Hsort as [|x l Hl IH Hx]; [by apply elem_of_nil in Hin|].
    apply elem_of_cons in Hin as [->|Hin], Hin' as [->|Hin'].
    - auto.
    - left. eapply Forall_forall in Hx; [|exact Hin']. done.
    - right; left. eapply Forall_forall in Hx; [|exact Hin]. done.
    - auto. }
  destruct Hord as [?|[?| <-]]; [lia|lia|]. fold n in Hc'. lia.
Qed.

Hypothesis Htree : i_blktree i0 = t.
Hypothesis Hcont : ∀ x, cont x = content t ds x.

Lemma node_readable k j :
  block_search t (off + k * 4096) = Some j →
  (off + k * 4096 = fileoff (node_at t j)
   ∨ (devid (node_at t j) = 1 ∧ off + io_size ≤ fileoff (node_at t j) + size (node_at t j))) →
  readable k (node_at t j).
Proof.
  intros Hj Hs. apply block_search_spec in Hj as [Hin Hc]; [|done].
  split; [split; [done|]; split; [by eapply Forall_forall in Hwhole|]|].
  { destruct Hwf as [_ Hok _ _]. by eapply Forall_forall in Hok. }
  split; [|done].
  intros x Hx. rewrite Hcont. unfold content.
  assert (xlate t x = Some (translate (node_at t j) x)) as -> by (apply xlate_spec; [done|by exists j]).
  done.
Qed.


Lemma search_body_ok k l s :
  0 ≤ k < B → start_ok k → loop_inv k l s → l_weight l = B - k →
  ∃ k' l' s', k < k' ≤ B
    ∧ search_body unit fresh fetch junk dst off io_size l s
        = Ok (if k' =? B then Finish l' else Again (set_weight (B - k') l'), s')
    ∧ loop_inv k' l' s' ∧ (k' < B → start_ok k').
Proof.
  intros Hk (j & Hj & Hs) Hinv Hw.
  pose proof (node_readable k j Hj Hs) as Hr. set (n := node_at t j) in *.
  destruct (node_facts k n Hk Hr) as [F5 _]. pose proof Hr as (Hat & _).
  destruct (node_values k n Hk Hat) as (E1 & E2 & _). destruct B_io as [HB HB'].
  assert (Hbody : search_body unit fresh fetch junk dst off io_size l s
                  = read_node unit fresh junk dst off io_size n k l s).
  { unfold search_body. rewrite bitmap_size_B, (missing_first B k) by (done || apply (li_bits _ _ _ Hinv)).
    rewrite u32_small, E1, E2 by lia. unfold index_search. unfold_M.
    rewrite (li_file _ _ _ Hinv). cbn [i_blktree set_fcache]. by rewrite Htree, Hj. }
  exists (k + blocks_read k n). rewrite Hbody.
  destruct (decide (devid n = 1)) as [Hd|Hd].
  - destruct (read_node_nvm k n l s) as (l' & E & Hi); [done..|]. exists l', s.
    split; [lia|]. split; [done|]. split; [done|]. intros Hlt. by apply start_next.
  - destruct (read_node_ssd k n l s) as (l' & s' & E & Hi); [done..|]. exists l', s'.
    split; [lia|]. split; [done|]. split; [done|]. intros Hlt. by apply start_next.
Qed.

Lemma loop_inv_weight k l s w : loop_inv k l s → loop_inv k (set_weight w l) s.
Proof. intros [H1 H2 [] H4 H5 H6 H7 H8 H9]. by split. Qed.

(** The loop ends, with all blocks planned. *)
Lemma global_search_ok fuel : ∀ k l s,
  0 ≤ k < B → (Z.to_nat (B - k) < fuel)%nat → start_ok k → loop_inv k l s → l_weight l = B - k →
  ∃ l' s', do_global_search unit fresh fetch junk dst off io_size l fuel s = Ok (l', s')
    ∧ loop_inv B l' s'.
Proof.
  induction fuel as [|fuel IH]; intros k l s Hk Hf Hs Hinv Hw; [lia|].
  destruct (search_body_ok k l s Hk Hs Hinv Hw) as (k' & l' & s' & Hk' & E & Hinv' & Hs').
  cbn [do_global_search]. unfold_M. rewrite E. destruct (Z.eqb_spec k' B) as [->|Hne].
  - by exists l', s'.
  - apply (IH k'); [lia|lia|apply Hs'; lia|by apply loop_inv_weight|done].
Qed.

Hypothesis Hstack : ∀ i, 0 ≤ stack i < 2 ^ 64.

(** The state before the read: the cache is consistent and has room. *)
Definition read_ready (s : rstate) : Prop :=
  cache_ready (r_ip s) (r_cache s) ∧ heap_ok (r_cache s) ∧ 0 ≤ rc_n (r_cache s) ≤ 2 ^ 20.

Definition start_locals : locals :=
  mkLoc (bitmap_set (stack <$> seq 0 (BITS_TO_LONGS (bitmap_size io_size))) 0 (bitmap_size io_size))
    io_size 0 [] [] 0.

Lemma start_inv s :
  r_ip s = i0 → r_devs s = ds → r_mem s = m0 → read_ready s → loop_inv 0 start_locals s.
Proof.
  intros Hi Hd Hm (Hr & Hh & Hn). destruct B_io as [HB HB']. split; try done.
  - cbn [l_bitmap start_locals]. rewrite bitmap_size_B. apply missing_all; [lia|done].
  - cbn. lia.
  - split; cbn; [by constructor|intros ? ? ? []%elem_of_nil|intros ? []%elem_of_nil|lia|done].
  - lia.
  - rewrite Hi. apply same_file_refl.
Qed.

(** What a read leaves: the bytes of the file at the destination, and
    nothing else changed for the caller. *)
Record delivered (s s' : rstate) : Prop := {
  de_bytes i : 0 ≤ i < io_size → cont (off + i) = Some (r_mem s' (dst + i));
  de_rest x : x < dst ∨ dst + io_size ≤ x → r_mem s' x = r_mem s x;
  de_devs : r_devs s' = r_devs s;
  de_file : same_file (r_ip s) (r_ip s');
  de_cache : cache_ready (r_ip s') (r_cache s') ∧ heap_ok (r_cache s')
}.

Lemma off_MB_key :
  shl64 (shr64 off g_lblock_size_shift) (g_lblock_size_shift - g_block_size_shift) = off / 2 ^ 21 * 512.
Proof.
  change (g_lblock_size_shift - g_block_size_shift) with 9. change g_lblock_size_shift with 21.
  rewrite shr64_div by lia. pose proof (Z.div_pos off (2 ^ 21) ltac:(lia) ltac:(lia)).
  pose proof (Z.div_le_mono off (2 ^ 62) (2 ^ 21)). change (2 ^ 62 / 2 ^ 21) with (2 ^ 41) in *.
  rewrite shl64_small by lia. done.
Qed.

(** How many blocks at the start of the request come out of the read cache:
    none when the 2 MiB block of the offset has no entry or one that ends
    before the first block is complete; otherwise those that the entry has,
    and they are the bytes of the file. *)
Inductive first_cached (s : rstate) : Z → Prop :=
  | fc_none : fcache_find (r_ip s) (off / 2 ^ 21 * 512) = Ok None → first_cached s 0
  | fc_short p b :
      fcache_find (r_ip s) (off / 2 ^ 21 * 512) = Ok (Some p) → rc_objs (r_cache s) !! p = Some b →
      fc_size b < off mod 2 ^ 21 + 4096 → first_cached s 0
  | fc_hit p b d k :
      fcache_find (r_ip s) (off / 2 ^ 21 * 512) = Ok (Some p) → rc_objs (r_cache s) !! p = Some b →
      rc_bufs (r_cache s) !! fc_data b = Some d → fc_size b ≤ Z.of_nat (length d) → fc_size b < 2 ^ 32 →
      fc_size b mod 4096 = 0 → off mod 2 ^ 21 + 4096 ≤ fc_size b →
      k = Z.min io_size (fc_size b - off mod 2 ^ 21) / 4096 →
      (∀ y, 0 ≤ y < k * 4096 → cont (off + y) = d !! Z.to_nat (off mod 2 ^ 21 + y)) →
      first_cached s k.

Lemma off_in_MB : off - off_MB off = off mod 2 ^ 21.
Proof. unfold off_MB. change g_lblock_size_bytes with (2 ^ 21). rewrite Align.ALIGN_FLOOR_eq by lia. lia. Qed.

(** The part before the loop takes them from the cache. *)
Lemma read_hit_ok s k :
  r_ip s = i0 → r_devs s = ds → r_mem s = m0 → read_ready s → first_cached s k →
  ∃ l s', read_hit dst off io_size start_locals s = Ok (l, s') ∧ loop_inv k l s' ∧ 0 ≤ k ≤ B
    ∧ r_ip s' = r_ip s ∧ l_io l = [].
Proof.
  intros Hi Hds Hm Hready Hfc. destruct B_io as [HB HB'].
  pose proof (start_inv s Hi Hds Hm Hready) as Hinv.
  unfold read_hit, cache_find, cache_at, fcache_at. rewrite off_MB_key, off_in_MB. unfold_M.
  unfold mbind, outcome_bind. change g_block_size_bytes with 4096.
  destruct Hfc as [Hn|p b Hp Hb Hs|p b d k Hp Hb Hd Hl H32 Hal Hs -> Hc].
  - rewrite Hn. exists start_locals, s. split_and!; try done; lia.
  - rewrite Hp, Hb. destruct (Z.leb_spec (off mod 2 ^ 21 + 4096) (fc_size b)); [lia|].
    exists start_locals, s. split_and!; try done; lia.
  - rewrite Hp, Hb. destruct (Z.leb_spec (off mod 2 ^ 21 + 4096) (fc_size b)); [|lia].
    pose proof (Z.mod_pos_bound off (2 ^ 21) ltac:(lia)) as Hom.
    rewrite (u32_small (fc_size b - _)) by lia. set (rs := Z.min io_size (fc_size b - off mod 2 ^ 21)) in *.
    replace (if io_size <? _ then io_size else _) with rs by (unfold rs; case_if; lia).
    assert (Hrs : rs / 4096 * 4096 = rs).
    { assert (Hd4 : (4096 | rs)).
      { assert ((4096 | off mod 2 ^ 21)).
        { apply Z.mod_divide; [done|]. rewrite <- Znumtheory.Zmod_div_mod by (done || by exists 512). lia. }
        assert ((4096 | fc_size b)) by (by apply Z.mod_divide). assert ((4096 | io_size)) by (apply Z.mod_divide; lia).
        unfold rs. destruct (Z.min_spec io_size (fc_size b - off mod 2 ^ 21)) as [[_ ->]|[_ ->]]; [done|].
        by apply Z.divide_sub_r. }
      destruct Hd4 as [q ->]. by rewrite Z.div_mul. }
    set (k := rs / 4096) in *.
    assert (Hsh : shr64 rs g_block_size_shift = k) by (by rewrite shr64_div by done).
    unfold lift, add_copies, mbind, outcome_bind. rewrite Hsh, bitmap_size_B.
    assert (0 ≤ k ≤ B) by lia.
    destruct (Z.leb_spec (Z.of_nat (length (l_copy start_locals) + Z.to_nat k)) B); [|cbn in *; lia].
    unfold cache_touch, modify. eexists _, _. split; [reflexivity|].
    split; [|split_and!; try done; lia].
    replace rs with ((k - 0) * 4096) by lia. destruct Hinv as [I1 I2 I3 I4 I5 I6 I7 I8 I9].
    apply (account_inv 0 k start_locals); cbn [l_bitmap l_remain r_cache r_ip r_devs r_mem set_rcache]; try done; try lia.
    + apply (planned_cached unit dst off io_size cont ds k _ _ (fc_data b) d (off mod 2 ^ 21)); try done; lia.
    + destruct I4 as (h' & ? & ?). exists h'. split; [done|]. by apply (fcache_live_eq _ (r_cache s)).
    + by apply (heap_eq (r_cache s)).
    + cbn. lia.
Qed.

(** The transfers and copies after the loop. *)
Lemma finish_read s k l0 s0 l s1 :
  r_ip s = i0 → r_mem s = m0 → r_devs s = ds →
  read_hit dst off io_size start_locals s = Ok (l0, s0) → loop_inv k l0 s0 → 0 ≤ k < B →
  do_global_search unit fresh fetch junk dst off io_size (set_weight (B - k) l0)
    (S (Z.to_nat B)) s0 = Ok (l, s1) →
  loop_inv B l s1 →
  ∃ s', do_align_read_cache1 unit fresh fetch junk stack dst off io_size s = Ok (io_size, s')
    ∧ delivered s s'.
Proof.
  intros Hi Hm Hd Hhit Hinv Hk E Hinv1. destruct B_io as [HB HB'].
  unfold do_align_read_cache1. fold start_locals.
  assert (Hw : weight io_size l0 = B - k).
  { unfold weight. by rewrite bitmap_size_B, (missing_weight B k) by (lia || apply (li_bits _ _ _ Hinv)). }
  unfold_M. rewrite Hhit, Hw. destruct (Z.eqb_spec (B - k) 0); [lia|].
  rewrite bitmap_size_B, E.
  destruct (planned_done unit dst off io_size cont ds fresh B l s1 m0)
    as (s2 & E2 & Hip & Hds & Hc & Hb & Hr); [done|apply (li_devs _ _ _ Hinv1)|apply (li_mem _ _ _ Hinv1)
    |apply (li_plan _ _ _ Hinv1)|].
  unfold_M_in E2. destruct (do_transfers _ _ _ _) as [[[] s3]| | |]; [|done..].
  rewrite E2. exists s2. split; [done|]. split; [done|by rewrite Hm|congruence| |].
  - rewrite Hip, Hi. apply (li_file _ _ _ Hinv1).
  - apply Hc; [apply (li_ready _ _ _ Hinv1)|apply (li_heap _ _ _ Hinv1)].
Qed.

(** All of the request came out of the cache. *)
Lemma finish_hit s l0 s0 :
  r_ip s = i0 → r_mem s = m0 → r_devs s = ds →
  read_hit dst off io_size start_locals s = Ok (l0, s0) → loop_inv B l0 s0 → l_io l0 = [] →
  ∃ s', do_align_read_cache1 unit fresh fetch junk stack dst off io_size s = Ok (io_size, s')
    ∧ delivered s s'.
Proof.
  intros Hi Hm Hd Hhit Hinv Hio'. destruct B_io as [HB HB'].
  unfold do_align_read_cache1. fold start_locals.
  assert (Hw : weight io_size l0 = 0).
  { unfold weight. rewrite bitmap_size_B, (missing_weight B B) by (lia || apply (li_bits _ _ _ Hinv)). lia. }
  unfold_M. rewrite Hhit, Hw. cbn [Z.eqb].
  destruct (planned_done unit dst off io_size cont ds fresh B l0 s0 m0)
    as (s2 & E2 & Hip & Hds & Hc & Hb & Hr); [done|apply (li_devs _ _ _ Hinv)|apply (li_mem _ _ _ Hinv)
    |apply (li_plan _ _ _ Hinv)|].
  rewrite Hio' in E2. unfold_M_in E2. cbn [do_transfers] in E2. unfold_M_in E2. rewrite E2.
  exists s2. split; [done|]. split; [done|by rewrite Hm|congruence| |].
  - rewrite Hip, Hi. apply (li_file _ _ _ Hinv).
  - apply Hc; [apply (li_ready _ _ _ Hinv)|apply (li_heap _ _ _ Hinv)].
Qed.

(** The read as a whole: behind the blocks of the cache the index is read. *)
Lemma read_blocks s k :
  r_ip s = i0 → r_devs s = ds → r_mem s = m0 → read_ready s → first_cached s k →
  (k * 4096 < io_size → start_ok k) →
  ∃ s', do_align_read_cache1 unit fresh fetch junk stack dst off io_size s = Ok (io_size, s')
    ∧ delivered s s'.
Proof.
  intros Hi Hd Hm Hready Hfc Hstart. destruct B_io as [HB HB'].
  destruct (read_hit_ok s k Hi Hd Hm Hready Hfc) as (l0 & s0 & Hhit & Hinv & Hk & _ & Hio').
  destruct (decide (k = B)) as [->|Hne]; [by eapply finish_hit|].
  destruct (global_search_ok (S (Z.to_nat B)) k (set_weight (B - k) l0) s0)
    as (l & s1 & E & Hinv1); [lia|lia|apply Hstart; lia|by apply loop_inv_weight|done|].
  apply (finish_read s k l0 s0 l s1); try done; lia.
Qed.

(** The first position is at [d] bytes in a node of a block device that
    holds the whole request: one iteration, which reads from the position
    and copies from [d] on. *)
Lemma read_inside_ssd j s :
  let n := node_at t j in
  let d := off - fileoff n in
  r_ip s = i0 → r_devs s = ds → r_mem s = m0 → read_ready s →
  fcache_find (r_ip s) (off / 2 ^ 21 * 512) = Ok None →
  block_search t off = Some j → devid n ≠ 1 → d + io_size ≤ size n →
  (∀ y, 0 ≤ y < io_size → cont (off + y) = Some (ds (devid n) (addr n * 4096 + d + (d + y)))) →
  ∃ s', do_align_read_cache1 unit fresh fetch junk stack dst off io_size s = Ok (io_size, s')
    ∧ delivered s s'.
Proof.
  intros n d Hi Hd Hm Hready Hmiss Hj Hdev Hin Hcb. destruct B_io as [HB HB'].
  pose proof (start_inv s Hi Hd Hm Hready) as Hinv.
  pose proof Hj as [Hjin Hjc]%block_search_spec; [|done].
  assert (Hat : at_node 0 n).
  { split; [by rewrite Z.add_0_r|]. split; [by eapply Forall_forall in Hwhole|].
    destruct Hwf as [_ Hok _ _]. by eapply Forall_forall in Hok. }
  destruct (at_facts 0 n Hat) as (F1 & F2 & F3 & F4 & F5 & F6). cbn [Z.mul] in *.
  rewrite Z.add_0_r in *. fold d in F1, F2, F6.
  pose proof (read_node_ssd_from 0 n (set_weight B start_locals) s) as H. cbv zeta in H.
  cbn [Z.mul] in H. rewrite Z.add_0_r in H. fold d in H.
  assert (Hmin : 0 + Z.min (B - 0) ((size n - d) / 4096) = B).
  { assert (B ≤ (size n - d) / 4096) by (apply Z.div_le_lower_bound; lia). lia. }
  rewrite Hmin, Z.eqb_refl in H.
  destruct H as (l' & s1 & E & Hinv'); [lia|done|done|by apply loop_inv_weight|cbn; lia|by right| |].
  { intros y Hy. rewrite Hcb by lia. unfold bh_bytes, bh_addr. cbn [b_dev b_blocknr b_size b_offset].
    rewrite load_lookup by lia. rewrite Z2Nat.id, F6 by lia. do 2 f_equal. lia. }
  destruct (read_hit_ok s 0 Hi Hd Hm Hready (fc_none _ Hmiss)) as (l0 & s0 & Hhit & Hinv0 & _).
  assert (l0 = start_locals ∧ s0 = s) as [-> ->].
  { unfold read_hit, cache_find in Hhit. rewrite off_MB_key in Hhit. unfold_M_in Hhit.
    unfold mbind, outcome_bind in Hhit. rewrite Hmiss in Hhit. by injection Hhit as <- <-. }
  apply (finish_read s 0 start_locals s l' s1); try done; [lia|]. rewrite Z.sub_0_r.
  assert (Hbody : search_body unit fresh fetch junk dst off io_size (set_weight B start_locals) s = Ok (Finish l', s1)).
  { unfold search_body. rewrite bitmap_size_B, (missing_first B 0) by (lia || apply (li_bits _ _ _ Hinv)).
    destruct (node_values 0 n ltac:(lia) Hat) as (E1 & E2 & _). change (u32 0) with 0. rewrite E1, E2.
    unfold index_search. unfold_M. rewrite Hi, Htree, Z.add_0_r, Hj. exact E. }
  cbn [do_global_search]. unfold_M. by rewrite Hbody.
Qed.

(** All blocks are in a block of the cache. *)
Lemma read_cached_ok s h p b d :
  i_fcache (r_ip s) = Some h → h !! (off / 2 ^ 21 * 512) = Some p →
  rc_objs (r_cache s) !! p = Some b → rc_bufs (r_cache s) !! fc_data b = Some d →
  fc_size b ≤ Z.of_nat (length d) → fc_size b < 2 ^ 32 → off mod 2 ^ 21 + io_size ≤ fc_size b →
  (∀ y, 0 ≤ y < io_size → cont (off + y) = d !! Z.to_nat (off mod 2 ^ 21 + y)) →
  cache_ready (r_ip s) (r_cache s) → heap_ok (r_cache s) →
  ∃ s', do_align_read_cache1 unit fresh fetch junk stack dst off io_size s = Ok (io_size, s')
    ∧ delivered s s'.
Proof.
  intros Hf Hp Hb Hd Hl H32 Hin Hc Hr Hh. destruct B_io as [HB HB'].
  pose proof (Z.mod_pos_bound off (2 ^ 21) ltac:(lia)) as Hom.
  assert (HMB : off - off_MB off = off mod 2 ^ 21).
  { unfold off_MB. change g_lblock_size_bytes with (2 ^ 21). rewrite Align.ALIGN_FLOOR_eq by lia. lia. }
  assert (Hbm : missing_from B 0 (l_bitmap start_locals))
    by (cbn [l_bitmap start_locals]; rewrite bitmap_size_B; apply missing_all; [lia|done]).
  assert (Hsh : shr64 io_size g_block_size_shift = B) by (rewrite shr64_div by done; done).
  unfold do_align_read_cache1. fold start_locals.
  set (l1 := mkLoc (bitmap_clear (l_bitmap start_locals) 0 B) 0 (i32 (0 + shr64 (fc_size b) g_block_size_shift))
    (block_copies dst 0 B (fc_data b) (off mod 2 ^ 21)) [] 0).
  set (s1 := set_rcache (lru_move p (r_cache s)) s).
  assert (Hhit : read_hit dst off io_size start_locals s = Ok (l1, s1)).
  { unfold read_hit, cache_find, cache_at, fcache_at, fcache_find. rewrite off_MB_key. unfold_M.
    unfold mbind, outcome_bind. rewrite Hf, Hp, Hb, HMB. change g_block_size_bytes with 4096.
    destruct (Z.leb_spec (off mod 2 ^ 21 + 4096) (fc_size b)); [|lia].
    rewrite (u32_small (fc_size b - _)) by lia.
    replace (if io_size <? _ then io_size else _) with io_size by (case_if; lia).
    unfold lift, add_copies, mbind, outcome_bind. rewrite Hsh, bitmap_size_B.
    destruct (Z.leb_spec (Z.of_nat (length (l_copy start_locals) + Z.to_nat B)) B); [|cbn in *; lia].
    unfold cache_touch, modify. unfold account. cbn [l_bitmap l_remain l_done l_copy l_io l_weight].
    rewrite Hsh. replace (u32 (l_remain start_locals - io_size)) with 0 by (cbn; by rewrite Z.sub_diag). 
    unfold l1, block_copies. cbn [start_locals l_copy app l_bitmap l_io l_weight l_done]. done. }
  unfold_M. rewrite Hhit. unfold weight. cbn [l_bitmap l1]. rewrite bitmap_size_B.
  rewrite (missing_weight B B); [|lia|replace (bitmap_clear _ 0 B) with (bitmap_clear (l_bitmap start_locals) 0 (B - 0))
    by (f_equal; lia); apply missing_clear; lia || done].
  rewrite Z.sub_diag. cbn [Z.eqb].
  destruct (copies_ok dst off io_size cont (l_copy l1) s1 (r_mem s) (λ _, False)) as (m' & E & Hm').
  { apply Forall_forall. intros c Hcc.
    apply (block_copies_right dst off io_size cont 0 B (fc_data b) (off mod 2 ^ 21) d) in Hcc
      as (Es & ? & ? & ?); [|lia|lia|lia|lia|intros y Hy; cbn [Z.mul]; rewrite Z.add_0_r; apply Hc; lia].
    split; [done|]. exists d. by rewrite Es. }
  { intros x. split; [by left|done]. }
  rewrite E. exists (set_rmem m' s1). split; [done|]. split; cbn [r_mem set_rmem r_devs r_ip r_cache s1 set_rcache].
  - intros i Hi'. destruct (Hm' (dst + i)) as [_ Hw].
    replace (off + i) with (off + (dst + i - dst)) by lia. apply Hw. right.
    apply (block_copies_cover dst 0 B). lia.
  - intros x Hx. destruct (Hm' x) as [[?|[? _]] _]; [done|lia].
  - done.
  - apply same_file_refl.
  - split; [|by apply (heap_eq (r_cache s))]. destruct Hr as (h' & ? & ?). exists h'. split; [done|].
    by apply (fcache_live_eq _ (r_cache s)).
Qed.
End loop.

(** ** Aligned reads *)

(** A request of whole blocks. *)
Definition blocks_ok (off io_size : Z) : Prop :=
  0 ≤ off ∧ off mod 4096 = 0 ∧ off + io_size < 2 ^ 62 ∧ 0 < io_size < 2 ^ 31 ∧ io_size mod 4096 = 0.

Definition tree_of (s : rstate) : blktree := i_blktree (r_ip s).
Definition fcontent_of (s : rstate) : Z → option Z := content (tree_of s) (r_devs s).

Section properties.
Context (unit : Z) (fresh : list Z) (fetch : Z → option tmpinode).
Context (junk : Z → list Z) (stack : nat → Z).
Hypothesis Hunit : (unit | 4096).
Hypothesis Hjunk : ∀ n, 0 ≤ n → Z.of_nat (length (junk n)) = n.
Hypothesis Hstack : ∀ i, 0 ≤ stack i < 2 ^ 64.

(** C24: do_align_read_cache1 of whole blocks that are all mapped ends,
    returns the size and stores exactly the bytes of the file at the
    destination, whether they come out of an entry of the read cache, from
    persistent memory or through the read cache from a block device, and also
    when an entry has only the first blocks of the request; the cache stays
    consistent. The read cache is consistent and has room, the entry of the
    first 2 MiB block, if there is one, has whole blocks with the bytes of
    the file, the nodes of the index have whole blocks and are below 2 GiB,
    and the first block that does not come out of that entry is at the start
    of a node or the rest is inside one node of persistent memory. Other
    positions inside a node are excluded, also behind a partial cache hit,
    because the code is wrong there: in a node of an SSD it delivers shifted
    bytes (aligned_read_inside_ssd, the finding at fs.c:2879), in a node of
    persistent memory that ends before the request does it reads on behind
    the node (the finding at fs.c:2884). *)
Theorem aligned_read_ok dst off io_size s k :
  blocks_ok off io_size → tree_wf (tree_of s) → whole_tree (tree_of s) → read_ready s →
  (∀ x, off ≤ x < off + io_size → is_Some (xlate (tree_of s) x)) →
  first_cached off io_size (fcontent_of s) s k →
  (k * 4096 < io_size → start_ok off io_size (tree_of s) k) →
  ∃ s', do_align_read_cache1 unit fresh fetch junk stack dst off io_size s = Ok (io_size, s')
    ∧ delivered dst off io_size (fcontent_of s) s s'.
Proof.
  intros (H1 & H2 & H3 & H4 & H5) Hwf Hwh Hr Hm Hc Hs.
  apply (read_blocks unit fresh fetch junk stack Hunit Hjunk dst off io_size (tree_of s) (r_devs s)
    (r_mem s) (r_ip s)) with (k := k); done.
Qed.

(** When the 2 MiB block of the offset is in the block cache and long
    enough, do_align_read_cache1 delivers the cached bytes without a device
    transfer and makes the block the most recently used one. *)
Theorem aligned_read_cached dst off io_size s h p b d :
  blocks_ok off io_size → i_fcache (r_ip s) = Some h → fcache_live h (r_cache s) → heap_ok (r_cache s) →
  h !! (off / 2 ^ 21 * 512) = Some p →
  rc_objs (r_cache s) !! p = Some b → rc_bufs (r_cache s) !! fc_data b = Some d →
  fc_size b ≤ Z.of_nat (length d) → fc_size b < 2 ^ 32 → off mod 2 ^ 21 + io_size ≤ fc_size b →
  ∃ s', do_align_read_cache1 unit fresh fetch junk stack dst off io_size s = Ok (io_size, s')
    ∧ delivered dst off io_size (λ x, d !! Z.to_nat (off mod 2 ^ 21 + (x - off))) s s'.
Proof.
  intros (H1 & H2 & H3 & H4 & H5) Hf Hl Hh Hp Hb Hd Hlen H32 Hin.
  apply (read_cached_ok unit fresh fetch junk stack dst off io_size _ (conj H1 (conj H2 H3))
    (conj H4 H5) Hstack s h p b d); try done; [|by exists h].
  intros y Hy. do 2 f_equal. lia.
Qed.

(** An aligned read that starts d bytes inside a node of a block device
    delivers the bytes d further on: the transfer starts at the position and
    the copy skips the distance to the node's start once more. *)
Theorem aligned_read_inside_ssd dst off io_size s j :
  let n := node_at (tree_of s) j in
  let d := off - fileoff n in
  blocks_ok off io_size → tree_wf (tree_of s) → whole_tree (tree_of s) → read_ready s →
  fcache_find (r_ip s) (off / 2 ^ 21 * 512) = Ok None →
  block_search (tree_of s) off = Some j → devid n ≠ 1 → d + io_size ≤ size n →
  ∃ s', do_align_read_cache1 unit fresh fetch junk stack dst off io_size s = Ok (io_size, s')
    ∧ delivered dst off io_size (λ x, Some (r_devs s (devid n) (addr n * 4096 + (x - fileoff n) + d))) s s'
    ∧ ∀ x, off ≤ x < off + io_size → xlate (tree_of s) x = Some (devid n, addr n * 4096 + (x - fileoff n)).
Proof.
  intros n d (H1 & H2 & H3 & H4 & H5) Hwf Hwh Hr Hm Hj Hd Hin.
  destruct (read_inside_ssd unit fresh fetch junk stack Hunit Hjunk dst off io_size (tree_of s) (r_devs s)
    (r_mem s) (r_ip s) (λ x, Some (r_devs s (devid n) (addr n * 4096 + (x - fileoff n) + d)))
    (conj H1 (conj H2 H3)) (conj H4 H5) Hwf Hwh eq_refl Hstack j s) as (s' & E & Hde); try done.
  - intros y Hy. unfold d. do 2 f_equal. fold n. lia.
  - exists s'. split; [done|]. split; [done|]. intros x Hx. apply xlate_spec; [done|].
    apply block_search_spec in Hj as [Hji Hc]; [|done]. exists j. split; [done|].
    fold n. fold n in Hc. unfold covers, d in *. split; [lia|done].
Qed.
(** ** Unaligned reads *)

(** A piece inside one block. *)
Definition inside_block (off io_size : Z) : Prop :=
  0 ≤ off < 2 ^ 62 ∧ 0 < io_size < 4096 ∧ off mod 4096 + io_size ≤ 4096.

Lemma floor_block off : 0 ≤ off < 2 ^ 62 →
  Align.ALIGN_FLOOR off g_block_size_bytes = off - off mod 4096
  ∧ Align.ALIGN_FLOOR off g_lblock_size_bytes = off - off mod 2 ^ 21.
Proof.
  intros. change g_block_size_bytes with (2 ^ 12). change g_lblock_size_bytes with (2 ^ 21).
  rewrite !Align.ALIGN_FLOOR_eq by lia. done.
Qed.

(** The copy of a piece out of a block of the cache. *)
Lemma cached_piece_ok p b d dst delta io_size small s :
  rc_objs (r_cache s) !! p = Some b → fc_cached b = true → rc_bufs (r_cache s) !! fc_data b = Some d →
  delta + io_size ≤ fc_size b → fc_size b ≤ Z.of_nat (length d) →
  cached_piece unit fresh p dst delta io_size small s
  = Ok (true, set_rcache (lru_move p (r_cache s))
          (set_rmem (store dst (take (Z.to_nat io_size) (drop (Z.to_nat delta) d)) (r_mem s)) s)).
Proof.
  intros Hb Hc Hd Hs Hl. unfold cached_piece, cache_at, fcache_at. unfold_M. unfold mbind, outcome_bind.
  rewrite Hb, Hc. destruct (Z.leb_spec (delta + io_size) (fc_size b)); [|lia].
  rewrite andb_false_r. cbn [andb]. unfold copy_out. rewrite Hd.
  by destruct (Z.leb_spec (delta + io_size) (Z.of_nat (length d))); [|lia].
Qed.

(** do_unaligned_read of a piece that is in the cached block of its 4
    KiB or of its 2 MiB stores the cached bytes at the destination and moves
    the block to the front of the list, and changes nothing else. *)
Theorem unaligned_read_cached dst off io_size s h p b d x0 :
  inside_block off io_size → i_fcache (r_ip s) = Some h →
  (x0 = off - off mod 4096 ∧ h !! (off / 4096) = Some p)
  ∨ (x0 = off - off mod 2 ^ 21 ∧ h !! (off / 4096) = None ∧ h !! (off / 2 ^ 21 * 512) = Some p) →
  rc_objs (r_cache s) !! p = Some b → fc_cached b = true → rc_bufs (r_cache s) !! fc_data b = Some d →
  off - x0 + io_size ≤ fc_size b → fc_size b ≤ Z.of_nat (length d) →
  ∃ s', do_unaligned_read unit fresh fetch junk stack dst off io_size s = Ok (io_size, s')
    ∧ r_mem s' = store dst (take (Z.to_nat io_size) (drop (Z.to_nat (off - x0)) d)) (r_mem s)
    ∧ r_ip s' = r_ip s ∧ r_devs s' = r_devs s
    ∧ ∃ l, r_cache s' = set_lru (p :: l) (r_cache s).
Proof.
  intros (Ho & Hio & Hin) Hf Hk Hb Hc Hd Hs Hl. unfold do_unaligned_read.
  destruct (floor_block off Ho) as [-> ->]. destruct (Z.ltb_spec io_size g_block_size_bytes); [|change g_block_size_bytes with 4096 in *; lia].
  unfold read_cached. change (g_lblock_size_shift - g_block_size_shift) with 9.
  change g_block_size_shift with 12. change g_lblock_size_shift with 21.
  rewrite !shr64_div by lia. change (2 ^ 12) with 4096.
  rewrite shl64_small by (try lia; pose proof (Z.div_pos off (2 ^ 21) ltac:(lia) ltac:(lia));
    pose proof (Z.div_le_mono off (2 ^ 62) (2 ^ 21)); change (2 ^ 62 / 2 ^ 21) with (2 ^ 41) in *; lia).
  change (2 ^ 9) with 512.
  unfold_M. unfold cache_find, fcache_find, mbind, outcome_bind. unfold mret, M_ret. rewrite Hf.
  destruct Hk as [[-> Hk]|(-> & Hk & HM)].
  - rewrite Hk, (cached_piece_ok p b d) by done. eexists. split; [done|]. split; [done|].
    split; [done|]. split; [done|]. eexists. done.
  - rewrite Hk. destruct (Z.eqb_spec (off / 2 ^ 21 * 512) (off / 4096)) as [E|]; [congruence|].
    rewrite Hf, HM, (cached_piece_ok p b d) by done. eexists. split; [done|]. split; [done|].
    split; [done|]. split; [done|]. eexists. done.
Qed.
(** No block of the cache has the piece. *)
Lemma read_cached_miss dst off io_size s h a m :
  0 ≤ off < 2 ^ 62 → i_fcache (r_ip s) = Some h → h !! (off / 4096) = None →
  h !! (off / 2 ^ 21 * 512) = None → read_cached unit fresh dst off a m io_size s = Ok (false, s).
Proof.
  intros Ho Hf Hk HM. unfold read_cached. change (g_lblock_size_shift - g_block_size_shift) with 9.
  change g_block_size_shift with 12. change g_lblock_size_shift with 21.
  rewrite !shr64_div by lia. change (2 ^ 12) with 4096.
  rewrite shl64_small by (try lia; pose proof (Z.div_pos off (2 ^ 21) ltac:(lia) ltac:(lia));
    pose proof (Z.div_le_mono off (2 ^ 62) (2 ^ 21)); change (2 ^ 62 / 2 ^ 21) with (2 ^ 41) in *; lia).
  change (2 ^ 9) with 512.
  unfold_M. unfold cache_find, fcache_find, mbind, outcome_bind. rewrite Hf, Hk.
  destruct (Z.eqb_spec (off / 2 ^ 21 * 512) (off / 4096)); [done|]. by rewrite Hf, HM.
Qed.

(** A block read into a fresh buffer that is entered into the cache. *)
Lemma fill_block off bh s :
  bh_ok unit bh → b_size bh = 4096 → read_ready s →
  ∃ data p b s1 s2 s3, alloc_data junk 4096 s = Ok (data, s1)
    ∧ cache_add off 4096 data s1 = Ok (p, s2) ∧ submit_read unit fresh bh (ToBuf data) s2 = Ok (tt, s3)
    ∧ rc_objs (r_cache s3) !! p = Some b ∧ fc_data b = data
    ∧ rc_bufs (r_cache s3) !! data = Some (bh_bytes (r_devs s) bh)
    ∧ (∀ x, r_mem s3 x = r_mem s x) ∧ r_devs s3 = r_devs s ∧ same_file (r_ip s) (r_ip s3)
    ∧ cache_ready (r_ip s3) (r_cache s3) ∧ heap_ok (r_cache s3).
Proof.
  intros Hbh Hsz (Hrd & Hh & Hn).
  set (g1 := with_buf junk 4096 (r_cache s)). set (data := rc_next (r_cache s)).
  destruct (with_buf_ok junk 4096 (r_ip s) (r_cache s) Hh Hrd) as (Hh1 & Hrd1 & Hk1 & Hnone & Hfr).
  assert (Hd1 : rc_bufs g1 !! data = Some (junk 4096)) by (cbn; by rewrite lookup_insert_eq).
  destruct (cache_add_ok (r_ip s) off 4096 data (junk 4096) g1) as (p & i1 & g2 & Ea & Hadd);
    [lia|done|done|done|cbn; lia|cbn; unfold g_max_read_cache_blocks; change (4096 / 4096) with 1; lia|done|].
  destruct Hadd as [A1 A2 A3 A4 A5 A6 (b & Ab & Ad & _) _].
  set (s2 := set_rcache g2 (set_rip i1 (set_rcache g1 s))).
  destruct (submit_read_ok unit fresh 0 0 0 (λ _, None) (r_devs s) (bh, ToBuf data) s2
    (r_mem s) (λ _, False)) as (s3 & E3 & Htr & Hm3).
  { done. }
  { split; [done|]. cbn. exists (junk 4096). rewrite A3, Hd1, Hsz. split; [done|]. apply Hjunk. lia. }
  { intros x. split; [by left|done]. }
  destruct (tr_read _ _ _ _ Htr bh data) as (bh' & Hbi & Ebuf); [by left|].
  apply list_elem_of_singleton in Hbi as [= ->].
  exists data, p, b, (set_rcache g1 s), s2, s3. split; [done|].
  split; [unfold cache_add, mbind, outcome_bind; cbn [r_ip r_cache set_rcache]; by rewrite Ea|].
  split; [done|]. split; [by rewrite (tr_cache _ _ _ _ Htr)|]. do 2 (split; [done|]).
  split; [intros x; by destruct (Hm3 x) as [[?|[_ ?]] _]|]. split; [apply (tr_devs _ _ _ _ Htr)|].
  split; [rewrite (tr_ip _ _ _ _ Htr); exact A6|]. by apply (transferred_cache _ _ _ _ Htr).
Qed.

(** The read of a whole block into the cache, and the copy of the piece. *)
Lemma read_block_ok n dst off io_size s blk :
  let o := off mod 4096 in
  inside_block off io_size → node_ok n → 1 ≤ devid n ≤ 4 → fileoff n ≤ off - o →
  off - o + 4096 ≤ fileoff n + size n → read_ready s →
  blk = (addr n + (off - o - fileoff n)) / 4096 →
  ∃ s', read_block unit fresh junk n dst off (off - o) io_size s = Ok (tt, s')
    ∧ delivered dst off io_size (λ x, Some (r_devs s (devid n) (blk * 4096 + (x - (off - o))))) s s'.
Proof.
  intros o (Ho & Hio & Hin) (N1 & N2 & N3 & N4 & N5) Hdev Hf He Hready Hblk.
  pose proof (Z.mod_pos_bound off 4096 ltac:(lia)) as Hom. fold o in Hom, Hin.
  set (bh := mkBh (devid n) blk 4096 0).
  assert (Hb0 : 0 ≤ blk) by (subst blk; apply Z.div_pos; lia).
  assert (Hb1 : blk < 2 ^ 50).
  { subst blk. apply Z.div_lt_upper_bound; lia. }
  assert (Hbh : bh_ok unit bh).
  { split; [cbn; lia|]. split; [cbn; lia|]. split; [cbn; lia|]. cbn.
    destruct (decide (devid n = 1)); [by left|right]. unfold g_n_devices. split; [lia|]. split; [done|].
    apply Z.mod_divide; [intros ->; by apply Z.divide_0_l in Hunit|done]. }
  destruct (fill_block (off - o) bh s Hbh eq_refl Hready)
    as (data & p & b & s1 & s2 & s3 & E1 & E2 & E3 & Hobj & Ad & Ebuf & Hmem3 & Hdv & Hsf & Hc3).
  assert (Hlen : length (bh_bytes (r_devs s) bh) = 4096%nat)
    by (pose proof (bh_bytes_length unit (r_devs s) bh Hbh) as H; cbn [b_size bh] in H; lia).
  unfold read_block. rewrite !(u64_small (fileoff n + size n)), !(u64_small (off + io_size)) by lia.
  rewrite (u64_small (fileoff n + size n - _)) by lia. change g_block_size_bytes with 4096.
  destruct (Z.leb_spec 4096 (fileoff n + size n - (off - o))); [|lia].
  rewrite (u64_small (off - o - fileoff n)), (u64_small (addr n + _)) by lia.
  change g_block_size_shift with 12. rewrite shr64_div by lia. change (2 ^ 12) with 4096. rewrite <- Hblk.
  change (u32 4096) with 4096. unfold_M. rewrite (get_bh_ok unit fresh bh) by done.
  rewrite E1, E2, E3.
  unfold cache_at, fcache_at, copy_out, mbind, outcome_bind. rewrite Hobj, Ad, Ebuf.
  replace (off - (off - o)) with o by lia.
  destruct (Z.leb_spec (o + io_size) (Z.of_nat (length (bh_bytes (r_devs s) bh)))); [|lia].
  cbn [put]. eexists. split; [done|]. split; cbn [r_mem set_rmem r_devs r_ip r_cache].
  - intros i Hi. unfold store. set (bytes := take _ _).
    assert (Hbl : Z.of_nat (length bytes) = io_size) by (unfold bytes; rewrite length_take, length_drop; lia).
    rewrite Hbl. destruct (Z.leb_spec dst (dst + i)); [|lia].
    destruct (Z.ltb_spec (dst + i) (dst + io_size)); [|lia]. cbn [andb]. f_equal. symmetry.
    apply list_lookup_total_correct. unfold bytes. rewrite lookup_take_lt, lookup_drop by lia.
    unfold bh_bytes. cbn [b_size bh]. rewrite load_lookup by lia. unfold bh_addr. cbn [b_dev b_blocknr b_offset bh].
    do 2 f_equal. lia.
  - intros x Hx. rewrite <- Hmem3. apply store_outside. rewrite length_take, length_drop. lia.
  - done.
  - done.
  - done.
Qed.

(** do_unaligned_read of a piece that is mapped but not cached reads the
    device block (addr + distance) / 4096 although addr already counts
    blocks, so what it delivers is not at the address the index gives. *)
Theorem unaligned_read_index dst off io_size s h j :
  let n := node_at (tree_of s) j in
  let o := off mod 4096 in
  let blk := (addr n + (off - o - fileoff n)) / 4096 in
  inside_block off io_size → tree_wf (tree_of s) → read_ready s → i_fcache (r_ip s) = Some h →
  h !! (off / 4096) = None → h !! (off / 2 ^ 21 * 512) = None →
  block_search (tree_of s) (off - o) = Some j → 1 ≤ devid n ≤ 4 →
  off - o + 4096 ≤ fileoff n + size n →
  ∃ s', do_unaligned_read unit fresh fetch junk stack dst off io_size s = Ok (io_size, s')
    ∧ delivered dst off io_size (λ x, Some (r_devs s (devid n) (blk * 4096 + (x - (off - o))))) s s'
    ∧ ∀ x, off ≤ x < off + io_size →
        xlate (tree_of s) x = Some (devid n, addr n * 4096 + (x - fileoff n)).
Proof.
  intros n o blk Hib Hwf Hr Hf Hk HM Hj Hdev He. pose proof Hib as (Ho & Hio & Hin).
  pose proof (Z.mod_pos_bound off 4096 ltac:(lia)) as Hom. fold o in Hom, Hin.
  pose proof Hj as [Hji Hc]%block_search_spec; [|done]. fold n in Hc. unfold covers in Hc.
  assert (Hok : node_ok n) by (destruct Hwf as [_ Hok _ _]; by eapply Forall_forall in Hok).
  pose proof Hok as (N1 & N2 & N3 & N4 & N5).
  destruct (read_block_ok n dst off io_size s blk) as (s' & E & Hde); [done|done|done|lia|done|done|done|].
  exists s'. split; [|split; [done|]].
  - unfold do_unaligned_read. destruct (floor_block off Ho) as [-> ->].
    destruct (Z.ltb_spec io_size g_block_size_bytes); [|change g_block_size_bytes with 4096 in *; lia].
    unfold_M. unfold mret, M_ret. rewrite (read_cached_miss dst off io_size s h) by done.
    unfold index_search, gets. fold (tree_of s). fold o. rewrite Hj. cbn [fmap option_fmap option_map]. fold n.
    rewrite !u64_small by lia. destruct (Z.leb_spec (off + io_size) (fileoff n + size n)); [|lia].
    fold o in E. by rewrite E.
  - intros x Hx. apply xlate_spec; [done|]. exists j. fold n. split; [done|].
    split; [unfold covers; lia|done].
Qed.
End properties.

(** ** Instances *)

(** 8 KiB: a block of persistent memory and one of the first block device. *)
Definition two_nodes : blktree :=
  mkTree (Node Black Leaf 0%nat (Node Red Leaf 1%nat Leaf))
    {[0%nat := mkNode 0 4096 1 100; 1%nat := mkNode 4096 4096 2 7]} 2.
(** 16 KiB on the first block device. *)
Definition ssd_node : blktree :=
  mkTree (Node Black Leaf 0%nat Leaf) {[0%nat := mkNode 0 16384 2 7]} 1.
Definition read_state (t : blktree) : rstate :=
  mkRs (set_tree t (set_fcache (Some ∅) 0 demo_inode)) (mkRc ∅ ∅ 0 [] 0) (λ d a, d + a) (λ _, 0).

Lemma two_nodes_wf : tree_wf two_nodes.
Proof.
  split.
  - exists 1%nat. apply (rbt_black 0 Black Red); [constructor|]. apply rbt_red; constructor.
  - repeat constructor; vm_compute; done.
  - repeat constructor; vm_compute; done.
  - repeat constructor.
Qed.

Lemma two_nodes_mapped x : 0 ≤ x < 0 + 8192 → is_Some (xlate two_nodes x).
Proof.
  intros Hx. assert (E0 : node_at two_nodes 0 = mkNode 0 4096 1 100) by (vm_compute; reflexivity).
  assert (E1 : node_at two_nodes 1 = mkNode 4096 4096 2 7) by (vm_compute; reflexivity).
  destruct (decide (x < 4096)); eexists; (apply xlate_spec; [apply two_nodes_wf|]).
  - exists 0%nat. rewrite E0. split; [by left|]. split; [unfold covers; cbn; lia|done].
  - exists 1%nat. rewrite E1. split; [by right; left|]. split; [unfold covers; cbn; lia|done].
Qed.

Lemma ssd_node_wf : tree_wf ssd_node.
Proof.
  split.
  - exists 1%nat. by apply (rbt_black 0 Black Black); constructor.
  - repeat constructor; vm_compute; done.
  - repeat constructor.
  - repeat constructor.
Qed.

Lemma read_state_ready t : read_ready (read_state t).
Proof.
  split; [exists ∅; split; [done|apply fcache_live_empty]|]. split; [|vm_compute; done].
  split; intros p b; cbn; by rewrite lookup_empty.
Qed.

Lemma zeros_length n : 0 ≤ n → Z.of_nat (length (replicate (Z.to_nat n) 0)) = n.
Proof. intros. rewrite length_replicate. lia. Qed.
Lemma zero_word (i : nat) : 0 ≤ (λ _ : nat, 0) i < 2 ^ 64.
Proof. lia. Qed.

(** The first of two blocks comes out of the cache, the second from a block
    device. *)
Definition half_cached : rstate := mkRs (set_tree two_nodes demo_cached) demo_cache (λ _ _, 1) (λ _, 0).

Lemma demo_heap : heap_ok demo_cache.
Proof. split; intros p b; cbn; intros [<- <-]%lookup_singleton_Some; cbn; lia. Qed.

Lemma aligned_read_ok_witness :
  ∃ s', do_align_read_cache1 512 [] (λ _, None) (λ n, replicate (Z.to_nat n) 0) (λ _, 0)
          5000 0 8192 half_cached = Ok (8192, s')
    ∧ delivered 5000 0 8192 (fcontent_of half_cached) half_cached s'.
Proof.
  apply (aligned_read_ok 512 [] (λ _, None) (λ n, replicate (Z.to_nat n) 0) (λ _, 0)
    ltac:(by exists 8) zeros_length zero_word 5000 0 8192 half_cached 1).
  - vm_compute. done.
  - apply two_nodes_wf.
  - repeat constructor; vm_compute; done.
  - split; [by exists {[0 := 5%nat]}; split; [|apply demo_cache_live]|]. split; [apply demo_heap|]. vm_compute. done.
  - apply two_nodes_mapped.
  - apply (fc_hit _ _ _ _ 5%nat (mkFc 0 0 true 4096 6 7) (replicate 4096 1)); try reflexivity.
    intros y Hy. unfold fcontent_of, content. change (tree_of half_cached) with two_nodes.
    destruct (two_nodes_mapped (0 + y)) as [[dv a] ->]; [lia|].
    symmetry. apply lookup_replicate. split; [done|]. change (0 mod 2 ^ 21) with 0. lia.
  - intros _. exists 1%nat. split; [reflexivity|by left].
Defined.

(** The 2 MiB block of the file is in the cache of [demo_cached] with 4 KiB. *)
Lemma aligned_read_cached_witness :
  ∃ s', do_align_read_cache1 512 [] (λ _, None) (λ n, replicate (Z.to_nat n) 0) (λ _, 0)
          5000 0 4096 (mkRs demo_cached demo_cache (λ _ _, 0) (λ _, 0)) = Ok (4096, s')
    ∧ delivered 5000 0 4096 (λ x, replicate 4096 1 !! Z.to_nat (0 mod 2 ^ 21 + (x - 0)))
        (mkRs demo_cached demo_cache (λ _ _, 0) (λ _, 0)) s'.
Proof.
  apply (aligned_read_cached 512 [] (λ _, None) (λ n, replicate (Z.to_nat n) 0) (λ _, 0)
    zero_word 5000 0 4096 (mkRs demo_cached demo_cache (λ _ _, 0) (λ _, 0)) {[0 := 5%nat]} 5%nat
    (mkFc 0 0 true 4096 6 7) (replicate 4096 1)).
  - vm_compute. done.
  - reflexivity.
  - apply demo_cache_live.
  - apply demo_heap.
  - reflexivity.
  - reflexivity.
  - reflexivity.
  - vm_compute. done.
  - vm_compute. done.
  - vm_compute. done.
Defined.

(** 4 KiB from the second block of [ssd_node] on. *)
Lemma aligned_read_inside_ssd_witness :
  ∃ s', do_align_read_cache1 512 [] (λ _, None) (λ n, replicate (Z.to_nat n) 0) (λ _, 0)
          5000 4096 4096 (read_state ssd_node) = Ok (4096, s')
    ∧ delivered 5000 4096 4096 (λ x, Some (2 + (7 * 4096 + (x - 0) + 4096))) (read_state ssd_node) s'
    ∧ ∀ x, 4096 ≤ x < 4096 + 4096 → xlate ssd_node x = Some (2, 7 * 4096 + (x - 0)).
Proof.
  apply (aligned_read_inside_ssd 512 [] (λ _, None) (λ n, replicate (Z.to_nat n) 0) (λ _, 0)
    ltac:(by exists 8) zeros_length zero_word 5000 4096 4096 (read_state ssd_node) 0%nat).
  - vm_compute. done.
  - apply ssd_node_wf.
  - repeat constructor; vm_compute; done.
  - apply read_state_ready.
  - reflexivity.
  - reflexivity.
  - vm_compute. done.
  - vm_compute. done.
Defined.

Lemma unaligned_read_cached_witness :
  ∃ s', do_unaligned_read 512 [] (λ _, None) (λ n, replicate (Z.to_nat n) 0) (λ _, 0)
          5000 100 200 (mkRs demo_cached demo_cache (λ _ _, 0) (λ _, 0)) = Ok (200, s')
    ∧ r_mem s' = store 5000 (take 200 (drop 100 (replicate 4096 1))) (λ _, 0)
    ∧ r_ip s' = demo_cached ∧ r_devs s' = (λ _ _, 0)
    ∧ ∃ l, r_cache s' = set_lru (5%nat :: l) demo_cache.
Proof.
  apply (unaligned_read_cached 512 [] (λ _, None) (λ n, replicate (Z.to_nat n) 0) (λ _, 0)
    5000 100 200 (mkRs demo_cached demo_cache (λ _ _, 0) (λ _, 0)) {[0 := 5%nat]} 5%nat
    (mkFc 0 0 true 4096 6 7) (replicate 4096 1) 0).
  - vm_compute. done.
  - reflexivity.
  - left. split; reflexivity.
  - reflexivity.
  - reflexivity.
  - reflexivity.
  - vm_compute. done.
  - vm_compute. done.
Defined.

(** 200 bytes at 4196 of a file at block 7 of the first block device: they
    are read from the block 1 of the device. *)
Lemma unaligned_read_index_witness :
  ∃ s', do_unaligned_read 512 [] (λ _, None) (λ n, replicate (Z.to_nat n) 0) (λ _, 0)
          5000 4196 200 (read_state ssd_node) = Ok (200, s')
    ∧ delivered 5000 4196 200 (λ x, Some (2 + (1 * 4096 + (x - 4096)))) (read_state ssd_node) s'
    ∧ ∀ x, 4196 ≤ x < 4196 + 200 → xlate ssd_node x = Some (2, 7 * 4096 + (x - 0)).
Proof.
  apply (unaligned_read_index 512 [] (λ _, None) (λ n, replicate (Z.to_nat n) 0) (λ _, 0)
    ltac:(by exists 8) zeros_length 5000 4196 200 (read_state ssd_node) ∅ 0%nat).
  - vm_compute. done.
  - apply ssd_node_wf.
  - apply read_state_ready.
  - reflexivity.
  - reflexivity.
  - reflexivity.
  - reflexivity.
  - vm_compute. done.
  - vm_compute. done.
Defined.
