(* ===== verification/RoundTrip.v ===== *)
(** * RoundTrip: what was appended is read back

    [userfs_file_write] with the writers of [Write] followed by
    [userfs_file_read] with the readers of [Read]. *)
From Stdlib Require Import ZArith Lia.
From stdpp Require Import base numbers list gmap strings.
From S2P Require Import Prelude Util Bytes RbTree BlkTree Alloc Log Storage Inode Bmap FileIO Write Read ReadOk.

(** The state of the readers after the writers. *)
Definition read_side (w : world) (g : rcache) (m : memory) : rstate :=
  mkRs (w_ip w) g (w_devs w) m.

(** The first [isize] bytes of a file can be read: the blocks that come out of
    the read cache are the bytes of the file, and behind them the index is
    entered at the start of a node or inside a node of persistent memory. *)
Definition can_read (isize : Z) (w : world) (g : rcache) (m : memory) : Prop :=
  ∃ k, first_cached 0 isize (fcontent w) (read_side w g m) k
    ∧ (k * 4096 < isize → start_ok 0 isize (w_tree w) k).

(** A reader as [readi] calls it: the destination moves with the offset, and
    the bytes are what is there afterwards. *)
Definition piece (rd : Z → Z → Z → M rstate Z) (dst0 off0 off sz : Z) : M rstate (Z * list Z) := λ s,
  '(r, s') ← rd (dst0 + (off - off0)) off sz s;
  Ok ((r, load (r_mem s') (dst0 + (off - off0)) (Z.to_nat sz)), s').

(** An aligned request is one piece. *)
Lemma readi_aligned {S} (dur dar : Z → Z → M S (Z * list Z)) n s d s' :
  0 < n < 2 ^ 31 → n mod 4096 = 0 → dar 0 n s = Ok ((n, d), s') →
  readi dur dar n 0 n s = Ok ((n, [(0, d)]), s').
Proof.
  intros Hn Hm E. unfold readi. destruct (Z.ltb_spec 0 n); [|lia]. cbn [assertM].
  rewrite Z.add_0_l, u64_small, Z.ltb_irrefl by lia.
  assert (Hs : readi_sizes 0 n = mkSplit 0 0 n 0).
  { unfold readi_sizes. rewrite Z.add_0_l, u64_small by lia. change (Align.ALIGN 0 g_block_size_bytes) with 0.
    assert (Ha : Align.ALIGN n g_block_size_bytes = n).
    { destruct (ALIGN_block n ltac:(lia)) as (H1 & H2 & H3). apply (multiple_unique _ _ 4096); lia || done. }
    by rewrite Ha, !Z.eqb_refl. }
  rewrite Hs. cbn [size_small size_prepended size_aligned size_appended].
  unfold unaligned_piece. cbn [Z.eqb]. unfold_M. destruct (Z.eqb_spec n 0); [lia|].
  change (0 + 0 + 0) with 0. rewrite E. replace (0 + 0 + n + 0) with n by lia.
  rewrite i32_small by lia. done.
Qed.

Lemma load_all m a n f :
  (∀ i, 0 ≤ i < Z.of_nat n → f i = Some (m (a + i))) → ∀ i, (i < n)%nat → f (Z.of_nat i) = load m a n !! i.
Proof. intros H i Hi. rewrite load_lookup by done. apply H. lia. Qed.

Section round_trip.
Context (unit : Z) (fresh : list Z) (fetch : Z → option tmpinode) (now : Z) (mbuf : list Z).
Context (junk : Z → list Z) (stack : nat → Z).
Hypothesis Hunit : (unit | 4096).
Hypothesis Hjunk : ∀ n, 0 ≤ n → Z.of_nat (length (junk n)) = n.
Hypothesis Hstack : ∀ i, 0 ≤ stack i < 2 ^ 64.

(** The index of a file that was written by appends can be read from its
    start. *)
Lemma append_ready_readable top isize off w :
  append_ready top isize off w → 0 < isize < 2 ^ 31 →
  (∀ x, 0 ≤ x < isize → is_Some (xlate (w_tree w) x)) →
  whole_tree (w_tree w) ∧ start_ok 0 isize (w_tree w) 0.
Proof.
  intros Hr Hs Hm. pose proof (ar_wf _ _ _ _ Hr) as Hwf. pose proof Hwf as [_ Hok _ _].
  pose proof (ar_blocks _ _ _ _ Hr) as Hb. split.
  - apply Forall_forall. intros j Hj. eapply Forall_forall in Hok; [|done].
    eapply Forall_forall in Hb; [|done]. destruct Hok as (N1 & N2 & _), Hb as (B1 & B2 & B3).
    split; [done|]. split; [done|]. split; [done|].
    set (n := node_at (w_tree w) j) in *. set (x := fileoff n + size n - 1).
    assert (Hx : xlate (w_tree w) x = Some (translate n x)).
    { apply xlate_spec; [done|]. exists j. split; [done|]. fold n. split; [unfold covers, x; lia|done]. }
    destruct (decide (isize ≤ x)) as [Hle|]; [|unfold x in *; lia].
    pose proof (ar_end _ _ _ _ Hr x Hle). congruence.
  - destruct (Hm 0) as [v Hv]; [lia|]. unfold xlate in Hv.
    destruct (block_search (w_tree w) 0) as [j|] eqn:Ej; [|done].
    exists j. split; [done|]. left. apply block_search_spec in Ej as [Hj Hc]; [|done].
    eapply Forall_forall in Hok; [|done]. destruct Hok as (? & _). unfold covers in Hc. lia.
Qed.

Lemma content_mapped isize w :
  (∀ x, 0 ≤ x < isize → is_Some (fcontent w x)) → ∀ x, 0 ≤ x < isize → is_Some (xlate (w_tree w) x).
Proof.
  intros Hm x Hx. destruct (Hm x Hx) as [v Hv]. unfold fcontent in Hv.
  destruct (xlate (w_tree w) x); [by eexists|done].
Qed.

(** In particular when the read cache has nothing of its first 2 MiB. *)
Lemma unread_can_read top isize w g m :
  append_ready top isize isize w → 0 < isize < 2 ^ 31 → (∀ x, 0 ≤ x < isize → is_Some (fcontent w x)) →
  fcache_find (w_ip w) 0 = Ok None → can_read isize w g m.
Proof.
  intros Hr Hs Hm Hmiss. exists 0. split; [by apply fc_none|]. intros _.
  apply (append_ready_readable top isize isize w Hr Hs), content_mapped, Hm.
Qed.

(** The whole file is read through its index. *)
Lemma read_whole_file top isize w g m dst f2 :
  append_ready top isize isize w → 0 < isize < 2 ^ 31 → isize mod 4096 = 0 →
  (∀ x, 0 ≤ x < isize → is_Some (fcontent w x)) →
  read_ready (read_side w g m) → can_read isize w g m →
  f_readable f2 = true → f_type f2 = FD_INODE → f_off f2 = 0 →
  ∃ bytes s', userfs_file_read
      (piece (do_unaligned_read unit fresh fetch junk stack) dst 0)
      (piece (do_align_read_cache1 unit fresh fetch junk stack) dst 0) f2 isize isize (read_side w g m)
    = Ok (isize, set_off isize f2, [(0, bytes)], s')
    ∧ Z.of_nat (length bytes) = isize
    ∧ (∀ i : nat, (i < length bytes)%nat → fcontent w (Z.of_nat i) = bytes !! i)
    ∧ load (r_mem s') dst (length bytes) = bytes
    ∧ ∀ x, x < dst ∨ dst + isize ≤ x → r_mem s' x = m x.
Proof.
  intros Hr Hs Hal Hm Hready (k & Hfc & Hst) Hrd Hty Ho2. pose proof (content_mapped _ _ Hm) as Hmx.
  destruct (append_ready_readable top isize isize w Hr Hs Hmx) as [Hwh _].
  destruct (read_blocks unit fresh fetch junk stack Hunit Hjunk dst 0 isize (w_tree w) (w_devs w) m (w_ip w)
    (fcontent w)) with (s := read_side w g m) (k := k) as (s' & E & Hde); try done; [split_and!; [lia|done|lia]|apply (ar_wf _ _ _ _ Hr)|].
  exists (load (r_mem s') dst (Z.to_nat isize)), s'.
  unfold userfs_file_read. rewrite Hrd, Hty. cbn [negb Z.eqb FD_INODE Pos.eqb]. rewrite Ho2.
  destruct (Z.leb_spec isize 0); [lia|]. unfold_M. rewrite u32_small by lia.
  rewrite (readi_aligned _ _ isize _ (load (r_mem s') dst (Z.to_nat isize)) s') by
    (try lia; unfold piece, mbind, outcome_bind; rewrite Z.add_0_r, E; done).
  destruct (Z.ltb_spec isize 0); [lia|]. rewrite u64_small by lia. split; [done|].
  rewrite load_length. split; [lia|]. split; [|split; [done|]].
  - intros i Hi. apply (load_all _ dst (Z.to_nat isize) (fcontent w)); [|done].
    intros y Hy. apply (de_bytes _ _ _ _ _ _ Hde y). lia.
  - intros x Hx. by apply (de_rest _ _ _ _ _ _ Hde).
Qed.

(** Whole blocks appended with the real writers are read back with the real
    readers behind what the file had before. *)
Lemma append_read_back top f isize buf w :
  append_ready top isize (f_off f) w → f_writable f = true → f_type f = FD_INODE →
  (4096 | f_off f) → (4096 | Z.of_nat (length buf)) → (0 < length buf)%nat →
  isize + Z.of_nat (length buf) ≤ top → top < 2 ^ 31 →
  (∀ x, 0 ≤ x < isize → is_Some (fcontent w x)) →
  let n := Z.of_nat (length buf) in
  ∃ w', userfs_file_write (snfs unit fresh fetch now mbuf) f isize buf w
          = Ok (n, set_off (f_off f + n) f, isize + n, w')
    ∧ ∀ g m dst f2,
        read_ready (read_side w g m) →
        fcache_find (w_ip w) 0 = Ok None ∨ can_read (isize + n) w' g m →
        f_readable f2 = true → f_type f2 = FD_INODE → f_off f2 = 0 →
        ∃ old s', userfs_file_read
            (piece (do_unaligned_read unit fresh fetch junk stack) dst 0)
            (piece (do_align_read_cache1 unit fresh fetch junk stack) dst 0)
            f2 (isize + n) (isize + n) (read_side w' g m)
          = Ok (isize + n, set_off (isize + n) f2, [(0, old ++ buf)], s')
        ∧ (∀ i : nat, (i < length old)%nat → fcontent w (Z.of_nat i) = old !! i)
        ∧ load (r_mem s') dst (length (old ++ buf)) = old ++ buf
        ∧ ∀ x, x < dst ∨ dst + (isize + n) ≤ x → r_mem s' x = m x.
Proof.
  intros Hr Hw Hty Hg1 Hg2 Hlen Htop Ht Hm n.
  pose proof (ar_off _ _ _ _ Hr) as Ho. pose proof (ar_pos _ _ _ _ Hr) as H0.
  destruct (append_content unit fresh fetch now mbuf Hunit top f isize buf w) as (w' & E & Hr' & Hfc & Hc);
    [done..|lia|lia|lia|]. fold n in E, Hr', Hc.
  exists w'. split; [done|]. intros g m dst f2 Hready Hmiss Hrd Hty2 Ho2.
  assert (Hal : (isize + n) mod 4096 = 0).
  { rewrite <- Ho. apply Z.mod_divide; [done|]. by apply Z.divide_add_r. }
  rewrite Ho in Hr'.
  assert (Hall : ∀ x, 0 ≤ x < isize + n → is_Some (fcontent w' x)).
  { intros x Hx. rewrite Hc. case_decide; [by eexists|]. apply Hm. lia. }
  destruct (read_whole_file top (isize + n) w' g m dst f2) as (bytes & s' & Er & Hl & Hb & Hld & Hrest);
    [done|lia|done|done| | |done..|].
  1: { destruct Hready as ((h & Hh & Hl) & ? & ?). split; [|done]. exists h. split; [|done].
       cbn. by rewrite Hfc. }
  1: { destruct Hmiss as [Hmiss|]; [|done]. apply (unread_can_read top); [done|lia|done|].
       unfold fcache_find in *. by rewrite Hfc. }
  exists (take (Z.to_nat isize) bytes), s'.
  assert (Hbuf : drop (Z.to_nat isize) bytes = buf).
  { apply list_eq. intros i. rewrite lookup_drop.
    destruct (decide (i < length buf)%nat) as [Hi|Hi].
    - rewrite <- Hb, Hc by lia. rewrite decide_True by lia.
      rewrite list_lookup_lookup_total_lt by done. do 2 f_equal. lia.
    - rewrite !lookup_ge_None_2; [done|lia|lia]. }
  rewrite <- Hbuf, take_drop. split; [done|]. split; [|done].
  intros i Hi. rewrite length_take in Hi. rewrite lookup_take_lt by lia. rewrite <- Hb, Hc by lia.
  by rewrite decide_False by lia.
Qed.
End round_trip.

(** ** Instances *)
Lemma empty_heap : heap_ok (mkRc ∅ ∅ 0 [] 0).
Proof. split; intros p b; cbn; by rewrite lookup_empty. Qed.
