(* ===== verification/Lru.v ===== *)
(** * Lru: the recently used files ([filesystem/lru.c])

    A bounded list of file names with their inode numbers, the most recently
    opened last, and a hash table over it.  Nodes are heap objects linked
    into both lists; an expired node is reused for the new name. *)
From Stdlib Require Import ZArith Lia.
From stdpp Require Import base numbers list gmap strings.
From S2P Require Import Prelude Util.

(** [lru_node_t]: the copy of the key and the inode number. *)
Record lru_node : Type := mkLruNode {
  n_key : list Z;
  n_ino : Z
}.
#[export] Instance lru_node_inhabited : Inhabited lru_node := populate (mkLruNode [] 0).

(** [inode_lru_t]: options, hash slots, list, node count and the nodes. *)
Record inode_lru : Type := mkLru {
  num_slot : Z;
  node_size : nat;
  hash_slots : Z → list nat;
  lru_nodes : list nat;
  num_nodes : nat;
  heap : gmap nat lru_node
}.

(** A [char] is signed. *)
Definition schar (b : Z) : Z := (b + 128) mod 256 - 128.

(** [hashname(key, key_len)]: 64-bit arithmetic. *)
Definition hashname (key : list Z) : Z :=
  foldl (λ h c, u64 (h * 131 + schar c)) 0 key.

(** [malloc_lru(options)]. *)
Definition malloc_lru (slots : Z) (size : nat) : inode_lru :=
  mkLru slots size (λ _, []) [] 0 ∅.

Lemma filter_fmap_in {A B} (f : A → B) (P : B → Prop) (Q : A → Prop)
    `{!∀ x, Decision (P x), !∀ x, Decision (Q x)} (l : list A) :
  (∀ x, x ∈ l → P (f x) ↔ Q x) → filter P (f <$> l) = f <$> filter Q l.
Proof.
  induction l as [|x l IH]; intros Hi; [done|]. csimpl. rewrite !filter_cons.
  rewrite IH by (intros y Hy; apply Hi; by right).
  pose proof (Hi x ltac:(by left)) as Hx.
  destruct (decide (P (f x))), (decide (Q x)); csimpl; tauto.
Qed.

Section lru.
(** The memory behind the key buffer of a node: the buffer has [key_len]
    bytes and no terminator, and [strcmp] reads on. *)
Context (behind : nat → list Z).

(** [strcmp(key, node->key) == 0] for a C string [key]. *)
Definition strcmp_eq (key : list Z) (buf : list Z) : bool :=
  bool_decide (take (S (length key)) buf = key ++ [0]).

Definition slot_of (l : inode_lru) (key : list Z) : Z := hashname key mod num_slot l.

(** [find_lru_node]. *)
Definition find_lru_node (l : inode_lru) (key : list Z) : option nat :=
  head (filter (λ i, strcmp_eq key (n_key (heap l !!! i) ++ behind i) = true)
          (hash_slots l (slot_of l key))).

(** [new_or_expire_lru_node]: the node, unlinked from both lists. *)
Definition new_or_expire_lru_node (l : inode_lru) : outcome (nat * inode_lru) :=
  if decide (node_size l ≤ num_nodes l)%nat then
    match lru_nodes l with
    | [] => Fault "the list head is not a node"
    | i :: rest =>
        Ok (i, mkLru (num_slot l) (node_size l)
                 (λ j, filter (λ k, k ≠ i) (hash_slots l j)) rest (num_nodes l) (heap l))
    end
  else
    let i := num_nodes l in
    Ok (i, mkLru (num_slot l) (node_size l) (hash_slots l) (lru_nodes l) (S i)
             (<[i := mkLruNode [] 0]> (heap l))).

(** [insert_lru_node(lru, key, key_len, ino)]. *)
Definition insert_lru_node (l : inode_lru) (key : list Z) (ino : Z) : outcome (Z * inode_lru) :=
  if bool_decide (key = []) || (ino =? 0) then Ok (-1, l)
  else match find_lru_node l key with
  | Some i =>
      Ok (0, mkLru (num_slot l) (node_size l) (hash_slots l)
               (filter (λ k, k ≠ i) (lru_nodes l) ++ [i]) (num_nodes l)
               (<[i := mkLruNode (n_key (heap l !!! i)) ino]> (heap l)))
  | None =>
      '(i, l) ← new_or_expire_lru_node l;
      let l := mkLru (num_slot l) (node_size l) (hash_slots l) (lru_nodes l ++ [i]) (num_nodes l)
                 (<[i := mkLruNode key ino]> (heap l)) in
      let idx := slot_of l key in
      Ok (0, mkLru (num_slot l) (node_size l)
               (λ j, if j =? idx then hash_slots l j ++ [i] else hash_slots l j)
               (lru_nodes l) (num_nodes l) (heap l))
  end.

(** ** Specification: a bounded list of names *)
Definition entries (l : inode_lru) : list (list Z * Z) :=
  (λ i, (n_key (heap l !!! i), n_ino (heap l !!! i))) <$> lru_nodes l.

Definition spec_insert (cap : nat) (key : list Z) (ino : Z) (es : list (list Z * Z))
    : list (list Z * Z) :=
  if decide (key ∈ fst <$> es) then filter (λ e, e.1 ≠ key) es ++ [(key, ino)]
  else if decide (cap ≤ length es)%nat then tail es ++ [(key, ino)]
  else es ++ [(key, ino)].

(** The lists agree: a node is in the slot of its key and nowhere else. *)
Record lru_wf (l : inode_lru) : Prop := {
  wf_nodup : NoDup (lru_nodes l);
  wf_count : num_nodes l = length (lru_nodes l);
  wf_cap : (num_nodes l ≤ node_size l)%nat;
  wf_pos : (0 < node_size l)%nat;
  wf_addr : Forall (λ i, (i < num_nodes l)%nat) (lru_nodes l);
  wf_keys : Forall (λ i, Path.is_cstr (n_key (heap l !!! i)) ∧ n_key (heap l !!! i) ≠ []) (lru_nodes l);
  wf_inj : ∀ i j, i ∈ lru_nodes l → j ∈ lru_nodes l →
    n_key (heap l !!! i) = n_key (heap l !!! j) → i = j;
  wf_slot : ∀ i s, i ∈ hash_slots l s ↔
    i ∈ lru_nodes l ∧ s = slot_of l (n_key (heap l !!! i))
}.

(** ** Lookup *)

(** The byte behind a key buffer is 0: what [strcmp] relies on. *)
Hypothesis behind_zero : ∀ i, ∃ t, behind i = 0 :: t.

Lemma strcmp_eq_spec key nk i :
  Path.is_cstr key → Path.is_cstr nk → strcmp_eq key (nk ++ behind i) = true ↔ nk = key.
Proof.
  intros Hk Hn. destruct (behind_zero i) as [t Ht]. unfold strcmp_eq.
  rewrite bool_decide_eq_true, Ht. split.
  - intros E.
    assert (Hi : ∀ j, take (S (length key)) (nk ++ 0 :: t) !! j = (key ++ [0]) !! j) by (by rewrite E).
    destruct (decide (length nk < length key)%nat) as [Hlt|].
    { specialize (Hi (length nk)). rewrite lookup_take_lt in Hi by lia.
      rewrite (list_lookup_middle nk) in Hi by done.
      rewrite lookup_app_l in Hi by done. symmetry in Hi.
      eapply Forall_lookup_1 in Hk; [|exact Hi]. simpl in Hk. lia. }
    destruct (decide (length key < length nk)%nat) as [Hlt|].
    { specialize (Hi (length key)). rewrite lookup_take_lt in Hi by lia.
      rewrite (list_lookup_middle key) in Hi by done.
      rewrite lookup_app_l in Hi by done.
      eapply Forall_lookup_1 in Hn; [|exact Hi]. simpl in Hn. lia. }
    assert (Hl : length nk = length key) by lia.
    rewrite <- Hl in E. replace (S (length nk)) with (length nk + 1)%nat in E by lia.
    rewrite take_app_add in E. simpl in E. apply app_inj_1 in E as [E _]; done.
  - intros ->. replace (S (length key)) with (length key + 1)%nat by lia.
    by rewrite take_app_add.
Qed.

Lemma find_lru_node_spec l key i :
  lru_wf l → Path.is_cstr key →
  find_lru_node l key = Some i ↔ i ∈ lru_nodes l ∧ n_key (heap l !!! i) = key.
Proof.
  intros [Hnd Hc Hcap Hp Ha Hk Hinj Hsl] Hkey. unfold find_lru_node.
  assert (Hmem : ∀ j, j ∈ filter (λ i, strcmp_eq key (n_key (heap l !!! i) ++ behind i) = true)
      (hash_slots l (slot_of l key)) ↔ j ∈ lru_nodes l ∧ n_key (heap l !!! j) = key).
  { intros j. rewrite list_elem_of_filter, Hsl. split.
    - intros [Hs [Hj _]]. split; [done|]. eapply Forall_forall in Hk as [Hk _]; [|done].
      by apply strcmp_eq_spec in Hs.
    - intros [Hj <-]. split; [|done]. apply strcmp_eq_spec; [done|done|done]. }
  set (fl := filter _ _) in *. clearbody fl. destruct fl as [|x fl]; simpl.
  - split; [done|]. intros Hi. apply Hmem in Hi. by apply elem_of_nil in Hi.
  - assert (Hx : x ∈ lru_nodes l ∧ n_key (heap l !!! x) = key) by (apply Hmem; by left).
    split; [by intros [= <-]|]. intros [Hi E]. f_equal. apply Hinj; [apply Hx|done|].
    destruct Hx as [_ ->]. done.
Qed.

Lemma find_lru_node_none l key :
  lru_wf l → Path.is_cstr key → find_lru_node l key = None ↔ key ∉ fst <$> entries l.
Proof.
  intros Hwf Hk. unfold entries. rewrite <- list_fmap_compose. split.
  - intros Hn [i [-> Hi]]%list_elem_of_fmap. simpl in *.
    assert (find_lru_node l (n_key (heap l !!! i)) = Some i) by (by apply find_lru_node_spec).
    congruence.
  - intros Hn. destruct (find_lru_node l key) as [i|] eqn:E; [|done].
    apply find_lru_node_spec in E as [Hi <-]; [|done..]. destruct Hn.
    apply list_elem_of_fmap. by exists i.
Qed.

(** ** Insertion *)

(** A heap that differs at [i] only gives the other nodes their entries. *)
Lemma entries_insert (h : gmap nat lru_node) i n (l : list nat) :
  i ∉ l →
  (λ j, (n_key (<[i:=n]> h !!! j), n_ino (<[i:=n]> h !!! j))) <$> l
  = (λ j, (n_key (h !!! j), n_ino (h !!! j))) <$> l.
Proof.
  intros Hi. apply list_fmap_ext. intros k j Hj.
  rewrite lookup_total_insert_ne; [done|]. intros ->. apply Hi. by eapply list_elem_of_lookup_2.
Qed.

(** A name that is in the list becomes the last one, with its new inode. *)
Lemma insert_found l key ino i :
  lru_wf l → Path.is_cstr key → find_lru_node l key = Some i →
  let l' := mkLru (num_slot l) (node_size l) (hash_slots l)
              (filter (λ k, k ≠ i) (lru_nodes l) ++ [i]) (num_nodes l)
              (<[i := mkLruNode (n_key (heap l !!! i)) ino]> (heap l)) in
  lru_wf l' ∧ entries l' = filter (λ e, e.1 ≠ key) (entries l) ++ [(key, ino)].
Proof.
  intros Hwf Hk Hf l'. apply find_lru_node_spec in Hf as [Hi Ek]; [|done..].
  destruct Hwf as [Hnd Hc Hcap Hp Ha Hks Hinj Hsl].
  assert (Hkey : ∀ j, n_key (heap l' !!! j) = n_key (heap l !!! j)).
  { intros j. simpl. destruct (decide (i = j)) as [->|].
    - by rewrite lookup_total_insert_eq.
    - by rewrite lookup_total_insert_ne. }
  assert (Hmem : ∀ j, j ∈ filter (λ k, k ≠ i) (lru_nodes l) ++ [i] ↔ j ∈ lru_nodes l).
  { intros j. rewrite elem_of_app, list_elem_of_filter, list_elem_of_singleton.
    destruct (decide (j = i)) as [->|]; tauto. }
  assert (Hperm : filter (λ k, k ≠ i) (lru_nodes l) ++ [i] ≡ₚ lru_nodes l).
  { apply NoDup_Permutation; [|done|done]. apply NoDup_app. split; [by apply NoDup_filter|].
    split; [|apply NoDup_singleton]. intros j [Hj _]%list_elem_of_filter.
    by rewrite list_elem_of_singleton. }
  split.
  - split; simpl.
    + by rewrite Hperm.
    + by rewrite Hperm.
    + done.
    + done.
    + by rewrite Hperm.
    + rewrite Hperm. apply Forall_forall. intros j Hj. change (<[i:=_]> (heap l)) with (heap l').
      rewrite Hkey. by eapply Forall_forall in Hks.
    + intros a b Hja Hjb. rewrite Hmem in Hja, Hjb. change (<[i:=_]> (heap l)) with (heap l').
      rewrite !Hkey. by apply Hinj.
    + intros a s. rewrite Hmem, Hsl. change (<[i:=_]> (heap l)) with (heap l'). by rewrite Hkey.
  - unfold entries. simpl lru_nodes. rewrite fmap_app. f_equal.
    + simpl heap. rewrite entries_insert by (rewrite list_elem_of_filter; tauto).
      symmetry. apply filter_fmap_in. intros j Hj. simpl. rewrite <- Ek. split.
      * intros Hne ->. done.
      * intros Hne E. by apply Hne, Hinj.
    + simpl. by rewrite lookup_total_insert_eq, Ek.
Qed.

(** The node a new name gets, and the lists without it. *)
Record node_taken (l : inode_lru) (i : nat) (l1 : inode_lru) : Prop := {
  nt_out : i ∉ lru_nodes l1;
  nt_nodup : NoDup (lru_nodes l1);
  nt_count : num_nodes l1 = S (length (lru_nodes l1));
  nt_cap : (num_nodes l1 ≤ node_size l)%nat;
  nt_alloc : (i < num_nodes l1)%nat ∧ Forall (λ j, (j < num_nodes l1)%nat) (lru_nodes l1);
  nt_old j : j ∈ lru_nodes l1 → j ∈ lru_nodes l ∧ heap l1 !!! j = heap l !!! j;
  nt_opts : num_slot l1 = num_slot l ∧ node_size l1 = node_size l;
  nt_slots j s : j ∈ hash_slots l1 s ↔ j ∈ lru_nodes l1 ∧ s = slot_of l (n_key (heap l !!! j));
  nt_list : lru_nodes l1 = (if decide (node_size l ≤ length (entries l))%nat
                            then tail (lru_nodes l) else lru_nodes l)
}.

Lemma new_or_expire_ok l :
  lru_wf l → ∃ i l1, new_or_expire_lru_node l = Ok (i, l1) ∧ node_taken l i l1.
Proof.
  intros [Hnd Hc Hcap Hp Ha Hks Hinj Hsl].
  unfold new_or_expire_lru_node. assert (Hlen : length (entries l) = num_nodes l)
    by (unfold entries; by rewrite length_fmap).
  destruct (decide (node_size l ≤ num_nodes l)%nat) as [Hfull|Hroom].
  - destruct (lru_nodes l) as [|i rest] eqn:El; [simpl in Hc; lia|].
    apply NoDup_cons in Hnd as [Hi Hnd]. simpl in Hc. apply Forall_cons in Ha as [Ha1 Ha2].
    eexists i, _. split; [done|].
    split; cbn [lru_nodes num_nodes heap num_slot node_size hash_slots]; try done.
    + intros j Hj. rewrite El. split; [by right|done].
    + intros j s. rewrite list_elem_of_filter, Hsl, elem_of_cons. split.
      * intros [Hji [[->|Hj] ->]]; done.
      * intros [Hj ->]. split; [|by auto]. by intros ->.
    + rewrite Hlen, decide_True, El by done. done.
  - assert (Hfresh : num_nodes l ∉ lru_nodes l).
    { intros Hin. eapply Forall_forall in Ha; [|exact Hin]. simpl in Ha. lia. }
    eexists (num_nodes l), _. split; [done|].
    split; cbn [lru_nodes num_nodes heap num_slot node_size hash_slots]; try done; try lia.
    + split; [lia|]. eapply Forall_impl; [exact Ha|]. simpl. lia.
    + intros j Hj. split; [done|]. rewrite lookup_total_insert_ne; [done|]. by intros <-.
    + by rewrite Hlen, decide_False by lia.
Qed.

(** A new name is added, in place of the oldest one when the list is full. *)
Lemma insert_new l key ino :
  lru_wf l → Path.is_cstr key → key ≠ [] → key ∉ fst <$> entries l →
  ∃ i l1, new_or_expire_lru_node l = Ok (i, l1)
    ∧ (let idx := slot_of l1 key in
      let l' := mkLru (num_slot l1) (node_size l1)
                  (λ j, if j =? idx then hash_slots l1 j ++ [i] else hash_slots l1 j)
                  (lru_nodes l1 ++ [i]) (num_nodes l1) (<[i := mkLruNode key ino]> (heap l1)) in
      lru_wf l' ∧ entries l' = (if decide (node_size l ≤ length (entries l))%nat
                                then tail (entries l) else entries l) ++ [(key, ino)]
      ∧ node_size l' = node_size l).
Proof.
  intros Hwf Hk Hne Hnew. pose proof Hwf as [Hnd Hc Hcap Hp Ha Hks Hinj Hsl].
  destruct (new_or_expire_ok l Hwf) as (i & l1 & E & [Hi Hnd1 Hn1 Hcap1 [Hil Ha1] Hmem [Hns Hsz] Hsl1 Hlst]).
  exists i, l1. split; [done|]. cbv zeta. set (h' := <[i := mkLruNode key ino]> (heap l1)).
  assert (Hkey : ∀ j, j ∈ lru_nodes l1 → h' !!! j = heap l !!! j).
  { intros j Hj. unfold h'. rewrite lookup_total_insert_ne; [by apply Hmem|]. by intros ->. }
  assert (Hkeyi : h' !!! i = mkLruNode key ino) by apply lookup_total_insert_eq.
  assert (Hnew' : ∀ j, j ∈ lru_nodes l → n_key (heap l !!! j) ≠ key).
  { intros j Hj Ej. apply Hnew. unfold entries. rewrite <- list_fmap_compose.
    apply list_elem_of_fmap. exists j. by rewrite <- Ej. }
  split; [|split; [|done]].
  - split; simpl.
    + apply NoDup_app. split; [done|]. split; [|apply NoDup_singleton].
      intros j Hj. rewrite list_elem_of_singleton. by intros ->.
    + rewrite length_app. simpl. lia.
    + lia.
    + lia.
    + apply Forall_app. split; [done|]. by apply Forall_singleton.
    + apply Forall_app. split.
      * apply Forall_forall. intros j Hj. rewrite Hkey by done.
        destruct (Hmem j Hj) as [Hjl _]. by eapply Forall_forall in Hks.
      * apply Forall_singleton. by rewrite Hkeyi.
    + intros a b. rewrite !elem_of_app, !list_elem_of_singleton.
      intros [Hja| ->] [Hjb| ->]; rewrite ?Hkeyi, ?(Hkey a), ?(Hkey b) by done; simpl; intros Eab.
      * apply Hinj; [by apply Hmem|by apply Hmem|done].
      * destruct (Hnew' a); [by apply Hmem|done].
      * destruct (Hnew' b); [by apply Hmem|done].
      * done.
    + intros j s. unfold slot_of. simpl. rewrite Hns. fold (slot_of l key).
      rewrite elem_of_app, list_elem_of_singleton.
      assert (Hbase : j ∈ hash_slots l1 s ↔ j ∈ lru_nodes l1 ∧ s = hashname (n_key (h' !!! j)) mod num_slot l).
      { rewrite Hsl1. split; intros [Hj ->]; (split; [done|]); by rewrite Hkey. }
      destruct (Z.eqb_spec s (slot_of l key)) as [Es|Es].
      * rewrite elem_of_app, list_elem_of_singleton, Hbase. split.
        -- intros [[Hj Hs]| ->]; [by auto|]. split; [by right|]. by rewrite Hkeyi.
        -- intros [[Hj| ->] Hs]; auto.
      * rewrite Hbase. split; [intros [? ?]; auto|].
        intros [[Hj| ->] Hs]; [done|]. rewrite Hkeyi in Hs. done.
  - unfold entries at 1. simpl. rewrite fmap_app. fold h'. simpl. rewrite Hkeyi. f_equal.
    unfold h'. rewrite entries_insert by done.
    transitivity ((λ j, (n_key (heap l !!! j), n_ino (heap l !!! j))) <$> lru_nodes l1).
    + apply list_fmap_ext. intros k j Hj. apply list_elem_of_lookup_2 in Hj.
      by destruct (Hmem j Hj) as [_ ->].
    + rewrite Hlst. case_decide; [|done]. unfold entries. by destruct (lru_nodes l).
Qed.

(** insert_lru_node implements a bounded list of names: a known name
    moves to the end with its new inode, a new name is appended, the oldest
    one being dropped when the list is full; the hash table and the list stay
    consistent. *)
Theorem insert_lru_node_ok l key ino :
  lru_wf l → Path.is_cstr key → key ≠ [] → ino ≠ 0 →
  ∃ l', insert_lru_node l key ino = Ok (0, l') ∧ lru_wf l' ∧ node_size l' = node_size l
    ∧ entries l' = spec_insert (node_size l) key ino (entries l).
Proof.
  intros Hwf Hk Hne Hino. unfold insert_lru_node, spec_insert.
  rewrite bool_decide_eq_false_2 by done. destruct (Z.eqb_spec ino 0); [done|]. simpl.
  destruct (find_lru_node l key) as [i|] eqn:Ef.
  - eexists. split; [done|].
    destruct (insert_found l key ino i Hwf Hk Ef) as [Hwf' He]. split; [done|]. split; [done|].
    rewrite decide_True; [done|].
    destruct (decide (key ∈ fst <$> entries l)) as [|Hn]; [done|].
    apply find_lru_node_none in Hn; [congruence|done..].
  - apply find_lru_node_none in Ef; [|done..]. rewrite decide_False by done.
    destruct (insert_new l key ino Hwf Hk Hne Ef) as (i & l1 & -> & Hwf' & He & Hs).
    simpl. eexists. split; [done|]. split; [exact Hwf'|]. split; [exact Hs|].
    etransitivity; [exact He|]. by case_decide.
Qed.
End lru.

(** ** Instance: the table of [init_fs] and the name [a] *)
Lemma malloc_lru_wf slots size : (0 < size)%nat → lru_wf (malloc_lru slots size).
Proof.
  intros. split; simpl; [constructor|done|lia|done|constructor|constructor| |].
  - intros i j Hi. by apply elem_of_nil in Hi.
  - intros i s. rewrite !elem_of_nil. tauto.
Qed.

Lemma insert_lru_node_ok_witness :
  ∃ l', insert_lru_node (λ _, [0]) (malloc_lru 4 6) [97] 9 = Ok (0, l') ∧ lru_wf l'
    ∧ node_size l' = 6%nat ∧ entries l' = [([97], 9)].
Proof.
  apply (insert_lru_node_ok (λ _, [0]) ltac:(intros; by exists []) (malloc_lru 4 6) [97] 9);
    [apply malloc_lru_wf; lia|repeat constructor; lia|done..].
Defined.
