(* ===== verification/Bms.v ===== *)
(** * Bms: the substring search of [global/util.c]

    [bms_search] looks for a pattern with the bad-character rule of Boyer and
    Moore.  A C string is the list of its bytes before the terminating zero.
    [char] is signed on the target, so that a byte from 128 on indexes the
    table before its start; for other strings the search is equivalent to
    trying every position in turn. *)
From Stdlib Require Import ZArith Lia.
From stdpp Require Import base numbers list strings.
From S2P Require Import Prelude Lru.

(** ** The operations *)
Definition NO_OF_CHARS : nat := 256.
#[global] Arguments NO_OF_CHARS : simpl never.

Definition max (a b : Z) : Z := if b <? a then a else b.

(** [a[(int)c]] for an array of [NO_OF_CHARS] elements and a [char] [c]. *)
Definition char_index (c : Z) : outcome nat :=
  if 0 <=? schar c then Ok (Z.to_nat (schar c)) else Fault "index before an array".

(** The second loop of [bad_char_heuristic], from index [i] of the string on. *)
Fixpoint fill_badchar (str : list Z) (i : Z) (badchar : list Z) : outcome (list Z) :=
  match str with
  | [] => Ok badchar
  | c :: str => k ← char_index c; fill_badchar str (i + 1) (<[k := i]> badchar)
  end.

Definition bad_char_heuristic (str : list Z) (size : Z) : outcome (list Z) :=
  fill_badchar (take (Z.to_nat size) str) 0 (replicate NO_OF_CHARS (-1)).

(** [s[i]] on a C string: its terminator can be read, nothing behind it. *)
Definition char_at (s : list Z) (i : nat) : outcome Z :=
  match (s ++ [0]) !! i with Some c => Ok c | None => Fault "read behind a string" end.

(** [while (j >= 0 && pat[j] == txt[s+j]) j--;], from [j - 1] down. *)
Fixpoint match_back (txt pat : list Z) (s j : nat) : outcome Z :=
  match j with
  | O => Ok (-1)
  | S j =>
      a ← char_at pat j; b ← char_at txt (s + j);
      if a =? b then match_back txt pat s j else Ok (Z.of_nat j)
  end.

(** [int m = strlen(s);] *)
Definition strlen (s : list Z) : Z := i32 (Z.of_nat (length s)).

(** The outer loop.  The assignment after [return s] is never reached. *)
Fixpoint bms_loop (fuel : nat) (txt pat badchar : list Z) (n m s : Z) : outcome Z :=
  if n - m <? s then Ok (-1)
  else
    match fuel with
    | O => NoFuel
    | S fuel =>
        j ← match_back txt pat (Z.to_nat s) (Z.to_nat m);
        if j <? 0 then Ok s
        else
          c ← char_at txt (Z.to_nat (s + j));
          k ← char_index c;
          bms_loop fuel txt pat badchar n m (s + max 1 (j - badchar !!! k))
    end.

(** Every round moves on by one position at least. *)
Definition bms_search (txt pat : list Z) : outcome Z :=
  let m := strlen pat in let n := strlen txt in
  badchar ← bad_char_heuristic pat m;
  bms_loop (S (length txt)) txt pat badchar n m 0.

(** ** The reference: the first position where the pattern occurs *)
Definition occurs_at (txt pat : list Z) (i : nat) : bool :=
  bool_decide (pat `prefix_of` drop i txt).

Fixpoint first_from (p : nat → bool) (i k : nat) : Z :=
  match k with
  | O => -1
  | S k => if p i then Z.of_nat i else first_from p (S i) k
  end.

Definition naive_search (txt pat : list Z) : Z :=
  first_from (occurs_at txt pat) 0 (S (length txt)).

(** *** Facts about the reference *)
Lemma prefix_drop_lookup (txt pat : list Z) i :
  pat `prefix_of` drop i txt ↔
  (length pat ≤ length txt - i)%nat ∧ ∀ j, (j < length pat)%nat → txt !! (i + j)%nat = pat !! j.
Proof.
  split.
  - intros [r Hr]. split.
    + rewrite <- length_drop, Hr, length_app. lia.
    + intros j Hj. rewrite <- lookup_drop, Hr. by rewrite lookup_app_l.
  - intros [Hl H]. exists (drop (i + length pat) txt). rewrite <- drop_drop.
    rewrite <- (take_drop (length pat) (drop i txt)) at 1. f_equal.
    apply list_eq. intros j. destruct (decide (j < length pat)%nat) as [Hj|Hj].
    + rewrite lookup_take_lt, lookup_drop by done. by apply H.
    + rewrite !lookup_ge_None_2; [done|lia|rewrite length_take; lia].
Qed.

Lemma first_from_skip p i k d : (d ≤ k)%nat → (∀ j, (i ≤ j < i + d)%nat → p j = false) →
  first_from p i k = first_from p (i + d) (k - d).
Proof.
  revert i k. induction d as [|d IH]; intros i k Hd Hp; [by rewrite Nat.add_0_r, Nat.sub_0_r|].
  destruct k as [|k]; [lia|]. cbn. rewrite Hp by lia. rewrite (IH (S i) k) by (lia || (intros; apply Hp; lia)).
  f_equal. lia.
Qed.

Lemma first_from_none p i k : (∀ j, (i ≤ j < i + k)%nat → p j = false) → first_from p i k = -1.
Proof. intros H. rewrite (first_from_skip p i k k) by (lia || done). by rewrite Nat.sub_diag. Qed.

Lemma first_from_spec p i k :
  (first_from p i k = -1 ∧ ∀ j, (i ≤ j < i + k)%nat → p j = false) ∨
  (∃ r, first_from p i k = Z.of_nat r ∧ (i ≤ r < i + k)%nat ∧ p r = true ∧
    ∀ j, (i ≤ j < r)%nat → p j = false).
Proof.
  revert i. induction k as [|k IH]; intros i; cbn; [left; split; [done|lia]|].
  destruct (p i) eqn:E; [right; exists i; split_and!; [done|lia..|done|lia]|].
  destruct (IH (S i)) as [[-> H]|(r & -> & Hr & Hp & H)].
  - left. split; [done|]. intros j Hj. destruct (decide (j = i)) as [->|]; [done|]. apply H. lia.
  - right. exists r. split_and!; [done|lia..|done|]. intros j Hj.
    destruct (decide (j = i)) as [->|]; [done|]. apply H. lia.
Qed.

(** ** The table *)
Definition ascii (l : list Z) : Prop := Forall (λ b, 0 < b < 128) l.
#[export] Instance ascii_dec l : Decision (ascii l).
Proof. unfold ascii. apply _. Defined.

Lemma char_index_ok c : 0 ≤ c < 128 → char_index c = Ok (Z.to_nat c).
Proof.
  intros H. unfold char_index, schar. rewrite (Z.mod_small (c + 128)) by lia.
  replace (c + 128 - 128) with c by lia. by rewrite (proj2 (Z.leb_le 0 c)) by lia.
Qed.

(** The entry of a byte is not before any of its occurrences. *)
Definition last_known (str : list Z) (badchar : list Z) : Prop :=
  length badchar = NO_OF_CHARS ∧
  ∀ c, 0 ≤ c < 128 → -1 ≤ badchar !!! Z.to_nat c < Z.of_nat (length str) ∧
    ∀ i, str !! i = Some c → Z.of_nat i ≤ badchar !!! Z.to_nat c.

Lemma last_known_nil : last_known [] (replicate NO_OF_CHARS (-1)).
Proof.
  split; [apply length_replicate|]. intros c Hc. rewrite lookup_total_replicate_2 by (unfold NO_OF_CHARS; lia).
  split; [cbn; lia|]. intros i Hi. by rewrite lookup_nil in Hi.
Qed.

Lemma last_known_snoc str badchar c : 0 ≤ c < 128 → last_known str badchar →
  last_known (str ++ [c]) (<[Z.to_nat c := Z.of_nat (length str)]> badchar).
Proof.
  intros Hc [Hl H]. split; [by rewrite length_insert|]. intros b Hb.
  destruct (H b Hb) as [Hr Hi]. rewrite length_app. cbn [length].
  destruct (decide (b = c)) as [->|Hne].
  - rewrite list_lookup_total_insert_eq by (unfold NO_OF_CHARS in Hl; lia). split; [lia|].
    intros i Hic%lookup_lt_Some. rewrite length_app in Hic. cbn in Hic. lia.
  - rewrite list_lookup_total_insert_ne by lia. split; [lia|]. intros i [Hib|[_ Hib]]%lookup_app_Some; [by apply Hi|].
    apply list_lookup_singleton_Some in Hib as [_ ->]. done.
Qed.

Lemma fill_badchar_ok pre str badchar : ascii str → last_known pre badchar →
  ∃ b, fill_badchar str (Z.of_nat (length pre)) badchar = Ok b ∧ last_known (pre ++ str) b.
Proof.
  intros Ha. revert pre badchar. induction Ha as [|c str Hc Ha IH]; intros pre badchar H; cbn [fill_badchar].
  { exists badchar. by rewrite app_nil_r. }
  rewrite char_index_ok by lia. cbn [mbind outcome_bind].
  destruct (IH (pre ++ [c]) (<[Z.to_nat c := Z.of_nat (length pre)]> badchar)) as (b & Hb & Hk).
  { apply last_known_snoc; [lia|done]. }
  exists b. rewrite <- app_assoc in Hk. split; [|done]. rewrite <- Hb, length_app. cbn. f_equal. lia.
Qed.

(** ** The loops *)
Lemma char_at_ok s i c : s !! i = Some c → char_at s i = Ok c.
Proof. intros H. unfold char_at. by rewrite lookup_app_l, H by (by eapply lookup_lt_Some). Qed.

(** The comparison stops at the last byte that differs. *)
Lemma match_back_ok txt pat s j : (s + length pat ≤ length txt)%nat → (j ≤ length pat)%nat →
  (match_back txt pat s j = Ok (-1) ∧ ∀ i, (i < j)%nat → txt !! (s + i)%nat = pat !! i) ∨
  (∃ i, match_back txt pat s j = Ok (Z.of_nat i) ∧ (i < j)%nat ∧ txt !! (s + i)%nat ≠ pat !! i).
Proof.
  intros Hs. induction j as [|j IH]; intros Hj; cbn [match_back]; [left; split; [done|lia]|].
  destruct (lookup_lt_is_Some_2 pat j) as [a Ha]; [lia|].
  destruct (lookup_lt_is_Some_2 txt (s + j)) as [b Hb]; [lia|].
  rewrite (char_at_ok pat j a), (char_at_ok txt (s + j) b) by done. cbn [mbind outcome_bind].
  destruct (Z.eqb_spec a b) as [->|Hne].
  - destruct IH as [[-> H]|(i & -> & Hi & H)]; [lia| |].
    + left. split; [done|]. intros i Hi. destruct (decide (i = j)) as [->|]; [congruence|]. apply H. lia.
    + right. exists i. split_and!; [done|lia|done].
  - right. exists j. split_and!; [done|lia|congruence].
Qed.

(** No occurrence is skipped: the byte at the mismatch would have to occur in
    the pattern behind its last position. *)
Lemma shift_safe txt pat badchar s j c i : last_known pat badchar → 0 ≤ c < 128 →
  (j < length pat)%nat → txt !! (s + j)%nat = Some c → pat !! j ≠ Some c →
  (s ≤ i)%nat → Z.of_nat i < Z.of_nat s + max 1 (Z.of_nat j - badchar !!! Z.to_nat c) →
  occurs_at txt pat i = false.
Proof.
  intros [_ H] Hc Hj Htx Hp Hi Hlt. destruct (H c Hc) as [_ Hlast].
  apply bool_decide_eq_false. rewrite prefix_drop_lookup. intros [_ Hocc].
  unfold max in Hlt. destruct (Z.ltb_spec (Z.of_nat j - badchar !!! Z.to_nat c) 1).
  - replace i with s in Hocc by lia. apply Hp. by rewrite <- Hocc.
  - destruct (H c Hc) as [[Hlo _] _]. assert (Hk : pat !! (s + j - i)%nat = Some c).
    { rewrite <- Hocc by lia. replace (i + (s + j - i))%nat with (s + j)%nat by lia. done. }
    apply Hlast in Hk. lia.
Qed.

Lemma shift_range pat badchar j c : last_known pat badchar → 0 ≤ c < 128 → (j < length pat)%nat →
  ∃ d : nat, max 1 (Z.of_nat j - badchar !!! Z.to_nat c) = Z.of_nat d ∧ (1 ≤ d ≤ length pat)%nat.
Proof.
  intros [_ H] Hc Hj. destruct (H c Hc) as [Hr _]. unfold max.
  destruct (Z.ltb_spec (Z.of_nat j - badchar !!! Z.to_nat c) 1); [exists 1%nat; lia|].
  exists (Z.to_nat (Z.of_nat j - badchar !!! Z.to_nat c)). lia.
Qed.

Lemma bms_loop_ok txt pat badchar fuel s : ascii txt → last_known pat badchar →
  (s ≤ S (length txt))%nat → (S (length txt) - s < S fuel)%nat →
  bms_loop fuel txt pat badchar (Z.of_nat (length txt)) (Z.of_nat (length pat)) (Z.of_nat s) =
    Ok (first_from (occurs_at txt pat) s (S (length txt) - s)).
Proof.
  intros Ha Hk. revert s. induction fuel as [|fuel IH]; intros s Hs Hf; cbn [bms_loop].
  - replace s with (S (length txt)) by lia. rewrite (proj2 (Z.ltb_lt _ _)) by lia.
    by rewrite Nat.sub_diag.
  - destruct (Z.ltb_spec (Z.of_nat (length txt) - Z.of_nat (length pat)) (Z.of_nat s)) as [Hend|Hin].
    { rewrite first_from_none; [done|]. intros j Hj. apply bool_decide_eq_false.
      rewrite prefix_drop_lookup. lia. }
    rewrite !Nat2Z.id. destruct (match_back_ok txt pat s (length pat)) as [[-> H]|(j & -> & Hj & H)]; [lia..| |].
    + cbn [mbind outcome_bind]. cbn. replace (S (length txt) - s)%nat with (S (length txt - s)) by lia.
      cbn [first_from]. replace (occurs_at txt pat s) with true; [done|]. symmetry.
      apply bool_decide_eq_true, prefix_drop_lookup. split; [lia|done].
    + cbn [mbind outcome_bind]. rewrite (proj2 (Z.ltb_ge _ _)) by lia.
      destruct (lookup_lt_is_Some_2 txt (s + j)) as [c Hc]; [lia|].
      replace (Z.to_nat (Z.of_nat s + Z.of_nat j)) with (s + j)%nat by lia.
      rewrite (char_at_ok _ _ _ Hc). cbn [mbind outcome_bind].
      pose proof (Forall_lookup_1 _ _ _ _ Ha Hc) as Hca. cbn in Hca.
      rewrite char_index_ok by lia. cbn [mbind outcome_bind].
      destruct (shift_range pat badchar j c) as (d & Hd & Hr); [done|lia|done|]. rewrite Hd.
      replace (Z.of_nat s + Z.of_nat d) with (Z.of_nat (s + d)) by lia.
      rewrite IH by lia. rewrite (first_from_skip _ s _ d); [do 2 f_equal; lia|lia|].
      intros i Hi. rewrite Hc in H. 
      eapply (shift_safe txt pat badchar s j c); rewrite ?Hd; try done; lia.
Qed.

(** C37: For strings of bytes below 128 that fit an int, bms_search is total
    and finds exactly the first position where the pattern occurs in the
    text, -1 when there is none, as the search that tries every position
    does: no shift of the bad-character rule skips an occurrence and every
    array access is in range. *)
Theorem bms_search_first txt pat : ascii txt → ascii pat →
  Z.of_nat (length txt) < 2 ^ 31 → Z.of_nat (length pat) < 2 ^ 31 →
  bms_search txt pat = Ok (naive_search txt pat).
Proof.
  intros Ht Hp Hlt Hlp. unfold bms_search, bad_char_heuristic, strlen. rewrite !i32_small by lia.
  rewrite Nat2Z.id, firstn_all.
  destruct (fill_badchar_ok [] pat (replicate NO_OF_CHARS (-1)) Hp last_known_nil) as (b & Hb & Hk).
  change (Z.of_nat (length (@nil Z))) with 0 in Hb. rewrite Hb. cbn [mbind outcome_bind].
  apply (bms_loop_ok txt pat b (S (length txt)) 0 Ht Hk); lia.
Qed.

Lemma bms_search_first_witness :
  bms_search [97; 98; 97; 98; 97; 99; 97] [97; 98; 97; 99] = Ok (naive_search [97; 98; 97; 98; 97; 99; 97] [97; 98; 97; 99]).
Proof. apply bms_search_first; [by repeat constructor|by repeat constructor|done|done]. Defined.

Example bms_found : bms_search [97; 98; 97; 98; 97; 99; 97] [97; 98; 97; 99] = Ok 2.
Proof. vm_compute. reflexivity. Qed.

(** A byte from 128 on, as in a name in UTF-8, writes before the table. *)
Example bms_utf8 : bms_search [99; 97; 102] [195; 169] = Fault "index before an array".
Proof. vm_compute. reflexivity. Qed.
