(* ===== verification/Fd.v ===== *)
(** * Fd: the table of open files and the calls on descriptors

    [userfs_file_init], [userfs_file_alloc], [userfs_file_close] of
    [filesystem/file.c] and the descriptor calls of
    [posix/posix_interface.c].  Every slot has a lock; taking it twice in a
    thread blocks for ever, which the model reports as a fault. *)
From Stdlib Require Import ZArith Lia.
From stdpp Require Import base numbers list gmap strings.
From S2P Require Import Prelude Util FileIO.

Definition EBADF : Z := 9.
Definition EINVAL : Z := 22.
Definition ENOENT : Z := 2.
Definition ENOMEM : Z := 12.
Definition O_WRONLY : Z := 1.
Definition O_RDWR : Z := 2.
Definition O_DIRECTORY : Z := 65536.
Definition SEEK_SET : Z := 0.
Definition SEEK_CUR : Z := 1.
Definition SEEK_END : Z := 2.
Definition FD_DIR : Z := 3.
Definition g_fd_start : Z := 1000000.
Definition g_max_open_files : nat := Z.to_nat 10000.

(** A slot: the file, its inode number and whether its lock is held. *)
Record slot : Type := mkSlot {
  s_file : file;
  s_ip : Z;
  s_locked : bool
}.
Definition free_slot : slot := mkSlot (mkFile FD_NONE 0 0 false false 0) 0 false.
#[export] Instance slot_inhabited : Inhabited slot := populate free_slot.

(** [g_fd_table.open_files]. *)
Abbreviation fd_table := (list slot).

(** [userfs_file_init]. *)
Definition userfs_file_init : fd_table := replicate g_max_open_files free_slot.

(** [pthread_rwlock_wrlock] and [pthread_rwlock_unlock] of a slot. *)
Definition lock (s : slot) : outcome slot :=
  if s_locked s then Fault "deadlock" else Ok (mkSlot (s_file s) (s_ip s) true).
Definition unlock (s : slot) : slot := mkSlot (s_file s) (s_ip s) false.
Definition set_file (f : file) (s : slot) : slot := mkSlot f (s_ip s) (s_locked s).

(** [userfs_file_alloc]: the first slot whose count is 0. *)
Fixpoint alloc_from (t : fd_table) (i : Z) : outcome (option Z * fd_table) :=
  match t with
  | [] => Ok (None, [])
  | s :: t =>
      if f_ref (s_file s) =? 0 then
        s ← lock s;
        let f := s_file s in
        let f := mkFile (f_type f) 1 i (f_readable f) (f_writable f) (f_off f) in
        Ok (Some i, unlock (set_file f s) :: t)
      else
        '(r, t) ← alloc_from t (i + 1);
        Ok (r, s :: t)
  end.
Definition userfs_file_alloc (t : fd_table) : outcome (option Z * fd_table) := alloc_from t 0.

(** [userfs_file_close(f)]: the return value, the slot and the inode to [iput]. *)
Definition userfs_file_close (s : slot) : outcome (Z * slot * option Z) :=
  if negb (0 <? f_ref (s_file s)) then Panic "f->ref > 0"
  else
    s ← lock s;
    let f := s_file s in
    let f := mkFile (f_type f) (f_ref f - 1) (f_fd f) (f_readable f) (f_writable f) (f_off f) in
    let put := if f_type f =? FD_INODE then Some (s_ip s) else None in
    if 0 <? f_ref f then Ok (0, unlock (set_file f s), put)
    else
      let f := mkFile FD_NONE 0 (f_fd f) (f_readable f) (f_writable f) (f_off f) in
      Ok (0, unlock (set_file f s), put).

(** The part of [userfs_posix_open] behind the lookup of the inode: the
    descriptor, or [-ENOMEM] when the table is full. *)
Definition posix_open_slot (t : fd_table) (inum flags : Z) : outcome (Z * fd_table) :=
  '(r, t) ← userfs_file_alloc t;
  match r with
  | None => Ok (- ENOMEM, t)
  | Some fd =>
      s ← lock (t !!! Z.to_nat fd);
      let f := mkFile (if Z.land flags O_DIRECTORY =? 0 then FD_INODE else FD_DIR) 1 fd
                 (Z.land flags O_WRONLY =? 0)
                 (negb (Z.land flags O_WRONLY =? 0) || negb (Z.land flags O_RDWR =? 0)) 0 in
      Ok (fd + g_fd_start, <[Z.to_nat fd := unlock (mkSlot f inum (s_locked s))]> t)
  end.

(** Access through a descriptor; a descriptor outside the table reads beyond
    the array. *)
Definition with_fd {A} (t : fd_table) (fd : Z) (k : nat → slot → outcome A) : outcome A :=
  let i := fd - g_fd_start in
  if i <? 0 then Fault "open_files"
  else match t !! Z.to_nat i with
       | None => Fault "open_files"
       | Some s => k (Z.to_nat i) s
       end.

(** [userfs_posix_close(fd)]. *)
Definition userfs_posix_close (t : fd_table) (fd : Z) : outcome (Z * fd_table * option Z) :=
  with_fd t fd (λ i s,
    '(r, s, put) ← userfs_file_close s;
    Ok (r, <[i := s]> t, put)).

(** [userfs_posix_lseek(fd, offset, origin)], with [ip->size]: the value is
    returned as an [int], also after an invalid [origin]; the early return
    keeps the lock. *)
Definition userfs_posix_lseek (t : fd_table) (isize fd offset origin : Z)
    : outcome (Z * fd_table * Z) :=
  with_fd t fd (λ i s,
    s ← lock s;
    if f_ref (s_file s) =? 0 then Ok (- EBADF, <[i := s]> t, isize)
    else
      let f := s_file s in
      let '(f, isize) :=
        if origin =? SEEK_SET then (set_off (u64 offset) f, isize)
        else if origin =? SEEK_CUR then (set_off (u64 (f_off f + offset)) f, isize)
        else if origin =? SEEK_END then
          (set_off (u64 (isize + offset)) f, u64 (isize + offset))
        else (f, isize) in
      Ok (i32 (f_off f), <[i := unlock (set_file f s)]> t, isize)).

(** [userfs_posix_fcntl] and the guard of the other descriptor calls. *)
Definition userfs_posix_fcntl (t : fd_table) (fd : Z) : outcome Z :=
  with_fd t fd (λ i s, if f_ref (s_file s) =? 0 then Ok (- EBADF) else Ok 0).

(** ** Reading and writing through a descriptor *)
Section transfers.
Context {S : Type}.
(** [userfs_file_read], [userfs_file_read_offset] and [userfs_file_write] of a file and its size. *)
Context (file_read : file → Z → Z → M S (Z * file * list (Z * list Z)))
  (file_read_offset : file → Z → Z → Z → M S (Z * list (Z * list Z)))
  (file_write : file → Z → list Z → M S (Z * file * Z)).

(** [userfs_posix_read]: the count is returned, whatever was read. *)
Definition userfs_posix_read (t : fd_table) (isize fd count : Z)
    : M S (Z * fd_table * list (Z * list Z)) := λ st,
  with_fd t fd (λ i s,
    s ← lock s;
    if f_ref (s_file s) =? 0 then Panic "file descriptor is wrong"
    else
      '((_, f, d), st) ← file_read (s_file s) isize count st;
      Ok ((count, <[i := unlock (set_file f s)]> t, d), st)).

Definition userfs_posix_pread64 (t : fd_table) (isize fd count off : Z)
    : M S (Z * fd_table * list (Z * list Z)) := λ st,
  with_fd t fd (λ i s,
    s ← lock s;
    if f_ref (s_file s) =? 0 then Panic "file descriptor is wrong"
    else
      '((r, d), st) ← file_read_offset (s_file s) isize count off st;
      Ok ((r, <[i := unlock s]> t, d), st)).

Definition userfs_posix_write (t : fd_table) (isize fd : Z) (buf : list Z) : M S (Z * fd_table * Z) := λ st,
  with_fd t fd (λ i s,
    s ← lock s;
    if f_ref (s_file s) =? 0 then Panic "file descriptor is wrong"
    else
      '((r, f, isize), st) ← file_write (s_file s) isize buf st;
      Ok ((r, <[i := unlock (set_file f s)]> t, isize), st)).
End transfers.

(** ** [userfs_posix_fallocate] *)
Definition ALLOC_IO_SIZE : Z := 65536.
Section fallocate.
Context {S : Type} (snfs_write : Z → Z → list Z → M S Z).

(** The loop: [f->off] is advanced before each write, and again by it. *)
Fixpoint fallocate_loop (f : file) (isize i len : Z) (fuel : nat) : M S (file * Z) :=
  match fuel with
  | O => nofuel
  | Datatypes.S fuel =>
      if i <? len then
        let io_size := Z.min (len - i) ALLOC_IO_SIZE in
        let f := set_off (u64 (f_off f + io_size)) f in
        '(r, f, isize) ← userfs_file_write snfs_write f isize (replicate (Z.to_nat io_size) 0);
        if r <? 0 then panic "fail to do fallocate"
        else fallocate_loop f isize (i + ALLOC_IO_SIZE) len fuel
      else mret (f, isize)
  end.
Definition posix_fallocate (f : file) (isize offset len : Z) : M S (Z * file * Z) :=
  if f_ref f =? 0 then mret (- EBADF, f, isize)
  else if isize <? offset then panic "does not support sparse file"
  else
    '(f, isize) ← fallocate_loop (set_off offset f) isize 0 len (Datatypes.S (Z.to_nat len));
    mret (0, f, isize).
End fallocate.

(** ** Properties of the table *)

(** No lock is held between calls, and a slot in use knows its index. *)
Definition table_ok (t : fd_table) : Prop :=
  ∀ i s, t !! i = Some s → s_locked s = false ∧ 0 ≤ f_ref (s_file s)
    ∧ (f_ref (s_file s) ≠ 0 → f_fd (s_file s) = Z.of_nat i).

Definition in_use (t : fd_table) (i : nat) : Prop :=
  ∃ s, t !! i = Some s ∧ f_ref (s_file s) ≠ 0.

Lemma alloc_from_ok t : ∀ k,
  (∀ i s, t !! i = Some s → s_locked s = false) →
  match alloc_from t k with
  | Ok (None, t') => t' = t ∧ ∀ i s, t !! i = Some s → f_ref (s_file s) ≠ 0
  | Ok (Some n, t') => ∃ i s s', n = k + Z.of_nat i ∧ t !! i = Some s ∧ f_ref (s_file s) = 0
      ∧ (∀ j, (j < i)%nat → in_use t j) ∧ t' = <[i := s']> t
      ∧ s_locked s' = false ∧ f_ref (s_file s') = 1 ∧ f_fd (s_file s') = n
  | _ => False
  end.
Proof.
  induction t as [|s t IH]; intros k Hl; simpl; [done|].
  destruct (Z.eqb_spec (f_ref (s_file s)) 0) as [E|E].
  - unfold lock. rewrite (Hl 0%nat s) by done. simpl.
    eexists 0%nat, s, _. split; [lia|]. split; [done|]. split; [done|].
    split; [intros j Hj; lia|]. done.
  - specialize (IH (k + 1) (λ i, Hl (S i))).
    destruct (alloc_from t (k + 1)) as [[[n|] t']| | |]; simpl; try done.
    + destruct IH as (i & s1 & s' & -> & Hi & Hr & Hlow & -> & Hrest).
      exists (S i), s1, s'. split; [lia|]. split; [done|]. split; [done|].
      split; [|split; [done|]; destruct Hrest as (? & ? & ?); repeat split; done || lia].
      intros [|j] Hj; [by exists s|]. by apply Hlow; lia.
    + destruct IH as [-> Hall]. split; [done|]. intros [|i] s1; simpl; [by intros [= <-]|]. apply Hall.
Qed.

Lemma file_alloc_ok t :
  table_ok t →
  match userfs_file_alloc t with
  | Ok (Some n, t') => ∃ i, n = Z.of_nat i ∧ (i < length t)%nat ∧ ¬ in_use t i
      ∧ (∀ j, (j < i)%nat → in_use t j) ∧ in_use t' i
      ∧ (∀ j, j ≠ i → t' !! j = t !! j) ∧ table_ok t'
  | Ok (None, t') => t' = t ∧ ∀ i, (i < length t)%nat → in_use t i
  | _ => False
  end.
Proof.
  intros Ht. pose proof (alloc_from_ok t 0 (λ i s Hi, proj1 (Ht i s Hi))) as H.
  unfold userfs_file_alloc. destruct (alloc_from t 0) as [[[n|] t']| | |]; try done.
  - destruct H as (i & s & s' & -> & Hi & Hr & Hlow & -> & Hl & Hr' & Hfd).
    pose proof (lookup_lt_Some _ _ _ Hi) as Hlt.
    exists i. rewrite Z.add_0_l in *. split; [done|]. split; [done|]. split.
    { intros (s1 & Hs1 & Hn). rewrite Hi in Hs1. by simplify_eq. }
    split; [done|]. split; [exists s'; split; [by apply list_lookup_insert_eq|lia]|].
    split; [intros j Hj; by apply list_lookup_insert_ne|].
    intros j sj Hj. destruct (decide (i = j)) as [->|].
    + rewrite list_lookup_insert_eq in Hj by done. simplify_eq. split; [done|]. split; [lia|done].
    + rewrite list_lookup_insert_ne in Hj by done. by apply Ht.
  - destruct H as [-> Hall]. split; [done|]. intros i Hi.
    destruct (lookup_lt_is_Some_2 t i Hi) as [s Hs]. exists s. split; [done|]. by eapply Hall.
Qed.

(** Closing a descriptor in use drops one reference, frees the slot with
    the last one and releases the inode exactly for regular files. *)
Theorem posix_close_ok t fd s :
  table_ok t → 0 ≤ fd → t !! Z.to_nat fd = Some s → f_ref (s_file s) ≠ 0 →
  ∃ t' s', userfs_posix_close t (fd + g_fd_start)
             = Ok (0, t', if f_type (s_file s) =? FD_INODE then Some (s_ip s) else None)
    ∧ t' = <[Z.to_nat fd := s']> t ∧ f_ref (s_file s') = f_ref (s_file s) - 1 ∧ table_ok t'.
Proof.
  intros Ht Hfd Hs Hr. destruct (Ht _ _ Hs) as (Hl & H0 & Hi).
  unfold userfs_posix_close, with_fd. replace (fd + g_fd_start - g_fd_start) with fd by lia.
  destruct (Z.ltb_spec fd 0); [lia|]. rewrite Hs. unfold userfs_file_close.
  destruct (Z.ltb_spec 0 (f_ref (s_file s))); [|lia]. simpl. unfold lock. rewrite Hl. simpl.
  assert (Hok : ∀ f, 0 ≤ f_ref f → (f_ref f ≠ 0 → f_fd f = f_fd (s_file s)) →
    table_ok (<[Z.to_nat fd := unlock (set_file f (mkSlot (s_file s) (s_ip s) true))]> t)).
  { intros f Hf0 Hff j sj Hj. destruct (decide (Z.to_nat fd = j)) as [<-|].
    - rewrite list_lookup_insert_eq in Hj by (by eapply lookup_lt_Some). simplify_eq. simpl.
      split; [done|]. split; [done|]. intros Hn. rewrite (Hff Hn). by apply Hi.
    - rewrite list_lookup_insert_ne in Hj by done. by apply Ht. }
  destruct (Z.ltb_spec 0 (f_ref (s_file s) - 1)); simpl.
  - eexists _, _. split; [done|]. split; [done|]. split; [done|]. apply Hok; simpl; [lia|done].
  - eexists _, _. split; [done|]. split; [done|]. split; [simpl; lia|]. apply Hok; simpl; [lia|done].
Qed.

(** Opening a file takes the lowest free slot of the descriptor table,
    sets access and offset from the flags, returns its number and leaves the
    other slots alone; with a full table it returns -ENOMEM and changes
    nothing. *)
Theorem posix_open_ok t inum flags :
  table_ok t →
  (∃ i t' s, posix_open_slot t inum flags = Ok (Z.of_nat i + g_fd_start, t')
     ∧ ¬ in_use t i ∧ (∀ j, (j < i)%nat → in_use t j)
     ∧ t' !! i = Some s ∧ s_ip s = inum ∧ f_off (s_file s) = 0
     ∧ f_writable (s_file s) = negb (Z.land flags 1 =? 0) || negb (Z.land flags 2 =? 0)
     ∧ f_readable (s_file s) = (Z.land flags 1 =? 0)
     ∧ (∀ j, j ≠ i → t' !! j = t !! j) ∧ table_ok t')
  ∨ (posix_open_slot t inum flags = Ok (- ENOMEM, t) ∧ ∀ i, (i < length t)%nat → in_use t i).
Proof.
  intros Ht. pose proof (file_alloc_ok t Ht) as H. unfold posix_open_slot.
  destruct (userfs_file_alloc t) as [[[n|] t1]| | |]; try done.
  2: { destruct H as [-> Hall]. by right. }
  left. destruct H as (i & -> & Hlt & Hfree & Hlow & (s1 & Hs1 & Hr1) & Hoth & Ht1).
  simpl. rewrite Nat2Z.id. rewrite (list_lookup_total_correct _ _ _ Hs1).
  destruct (Ht1 _ _ Hs1) as (Hl1 & _ & _). unfold lock. rewrite Hl1. simpl.
  pose proof (lookup_lt_Some _ _ _ Hs1) as Hlt1.
  eexists i, _, _. split; [done|]. split; [done|]. split; [done|].
  split; [by apply list_lookup_insert_eq|]. split; [done|]. split; [done|]. split; [done|].
  split; [done|]. split; [intros j Hj; rewrite list_lookup_insert_ne by done; by apply Hoth|].
  intros j sj Hj. destruct (decide (i = j)) as [->|].
  - rewrite list_lookup_insert_eq in Hj by done. simplify_eq. done.
  - rewrite list_lookup_insert_ne in Hj by done. by apply Ht1.
Qed.

(** lseek on a descriptor that is not open returns -EBADF with the
    file's lock held: the next open that would use the slot blocks. *)
Theorem lseek_closed_blocks t isize fd offset origin s :
  table_ok t → 0 ≤ fd → t !! Z.to_nat fd = Some s → f_ref (s_file s) = 0 →
  (∀ j, (j < Z.to_nat fd)%nat → in_use t j) →
  ∃ t', userfs_posix_lseek t isize (fd + g_fd_start) offset origin = Ok (- EBADF, t', isize)
    ∧ userfs_file_alloc t' = Fault "deadlock".
Proof.
  intros Ht Hfd Hs Hr Hlow. destruct (Ht _ _ Hs) as (Hl & _).
  unfold userfs_posix_lseek, with_fd. replace (fd + g_fd_start - g_fd_start) with fd by lia.
  destruct (Z.ltb_spec fd 0); [lia|]. rewrite Hs. unfold lock. rewrite Hl. simpl. rewrite Hr. simpl.
  eexists. split; [done|]. unfold userfs_file_alloc. clear Ht Hl.
  generalize 0. revert Hs Hlow. generalize (Z.to_nat fd). clear Hfd. intros i Hs Hlow k.
  revert t Hs Hlow k. induction i as [|i IH]; intros [|s0 t] Hs Hlow k; try done; simpl in *.
  - simplify_eq. simpl. by rewrite Hr.
  - destruct (Hlow 0%nat ltac:(lia)) as (s1 & Hs1 & Hn). simpl in Hs1. simplify_eq.
    destruct (Z.eqb_spec (f_ref (s_file s1)) 0); [done|].
    rewrite IH; [done|done|]. intros j Hj. apply (Hlow (S j)). lia.
Qed.

(** fallocate of a range writes its zeros behind the range: the offset
    is advanced before the write and again by it. *)
Theorem fallocate_writes_behind {S} (snfs : Z → Z → list Z → M S Z) Ready
    `{!ChunkWriter snfs 1 (2 ^ 62) Ready} f isize offset len s :
  Ready isize (offset + len) s →
  f_ref f ≠ 0 → f_writable f = true → f_type f = FD_INODE →
  0 ≤ offset ≤ isize → isize < 2 ^ 60 → 0 < len ≤ ALLOC_IO_SIZE →
  ∃ f' s', posix_fallocate snfs f isize offset len s
             = Ok (0, f', Z.max isize (offset + 2 * len), s')
    ∧ wrote snfs 1 isize (offset + len) (replicate (Z.to_nat len) 0) s s'.
Proof.
  unfold ALLOC_IO_SIZE. intros Hrdy Hr Hw Hty Ho Hi Hl. unfold posix_fallocate.
  destruct (Z.eqb_spec (f_ref f) 0); [done|]. destruct (Z.ltb_spec isize offset); [lia|].
  cbn [fallocate_loop]. destruct (Z.ltb_spec 0 len); [|lia].
  unfold ALLOC_IO_SIZE. rewrite Z.sub_0_r, Z.min_l by lia.
  replace (f_off (set_off offset f)) with offset by done. rewrite u64_small by lia.
  set (f1 := set_off (offset + len) (set_off offset f)). set (b := replicate (Z.to_nat len) 0).
  assert (Hb : Z.of_nat (length b) = len) by (unfold b; rewrite length_replicate; lia).
  destruct (file_write_ok snfs 1 (2 ^ 62) Ready f1 isize b s) as (s' & E & Hwr & _);
    [done|simpl; lia|apply Z.divide_1_l..|done|done|simpl; lia|lia|lia|simpl; lia|].
  cbv zeta in E. rewrite Hb in E. destruct (Z.ltb_spec 0 len); [|lia].
  unfold_M. rewrite E. destruct (Z.ltb_spec len 0); [lia|].
  eexists _, s'. split; [|exact Hwr].
  destruct (Z.to_nat len) eqn:El; [lia|]. cbn [fallocate_loop]. unfold ALLOC_IO_SIZE.
  destruct (Z.ltb_spec (0 + 65536) len); [lia|]. unfold_M. simpl. do 2 f_equal. f_equal. lia.
Qed.

(** ** Instances: a table of three slots of which the first is in use *)
Definition used_slot : slot := mkSlot (mkFile FD_INODE 1 0 true true 0) 7 false.
Definition demo_fds : fd_table := [used_slot; free_slot; free_slot].

Lemma demo_fds_ok : table_ok demo_fds.
Proof.
  intros i s Hi. destruct i as [|[|[|i]]]; simpl in Hi; [..|done]; injection Hi as <-;
    (split; [done|]); split; simpl; done.
Qed.

Lemma posix_open_ok_witness :
  (∃ i t' s, posix_open_slot demo_fds 9 O_RDWR = Ok (Z.of_nat i + g_fd_start, t')
     ∧ ¬ in_use demo_fds i ∧ (∀ j, (j < i)%nat → in_use demo_fds j)
     ∧ t' !! i = Some s ∧ s_ip s = 9 ∧ f_off (s_file s) = 0
     ∧ f_writable (s_file s) = true ∧ f_readable (s_file s) = true
     ∧ (∀ j, j ≠ i → t' !! j = demo_fds !! j) ∧ table_ok t')
  ∨ (posix_open_slot demo_fds 9 O_RDWR = Ok (- ENOMEM, demo_fds)
     ∧ ∀ i, (i < 3)%nat → in_use demo_fds i).
Proof. apply (posix_open_ok demo_fds 9 O_RDWR demo_fds_ok). Defined.

Lemma posix_close_ok_witness :
  ∃ t' s', userfs_posix_close demo_fds (0 + g_fd_start) = Ok (0, t', Some 7)
    ∧ t' = <[0%nat := s']> demo_fds ∧ f_ref (s_file s') = 0 ∧ table_ok t'.
Proof. apply (posix_close_ok demo_fds 0 used_slot demo_fds_ok); done. Defined.

Lemma lseek_closed_blocks_witness :
  ∃ t', userfs_posix_lseek demo_fds 0 (1 + g_fd_start) 0 SEEK_SET = Ok (- EBADF, t', 0)
    ∧ userfs_file_alloc t' = Fault "deadlock".
Proof.
  apply (lseek_closed_blocks demo_fds 0 1 0 SEEK_SET free_slot demo_fds_ok); try done.
  intros j Hj. assert (j = 0%nat) as -> by (simpl in Hj; lia). by exists used_slot.
Defined.

Definition record_all (isize off : Z) (buf : list Z) : M (list (Z * list Z)) Z :=
  λ s, Ok (Z.of_nat (length buf), s ++ [(off, buf)]).
#[local] Instance record_all_writer : ChunkWriter record_all 1 (2 ^ 62) (λ _ _ _, True).
Proof. split; [apply Z.divide_1_l|]. intros. by eexists. Qed.

Lemma fallocate_writes_behind_witness :
  ∃ f' s', posix_fallocate record_all (mkFile FD_INODE 1 0 true true 0) 0 0 4096 []
             = Ok (0, f', 8192, s')
    ∧ wrote record_all 1 0 4096 (replicate 4096 0) [] s'.
Proof.
  apply (fallocate_writes_behind record_all (λ _ _ _, True)
    (mkFile FD_INODE 1 0 true true 0) 0 0 4096 []); try done; vm_compute; done.
Defined.
