(* ===== verification/PosixIO.v ===== *)
(** * PosixIO: bytes through a descriptor

    [userfs_posix_write], [userfs_posix_lseek] and [userfs_posix_read] over
    the writers of [Write] and the readers of [Read]: what was appended
    through a descriptor is read back through it. *)
From Stdlib Require Import ZArith Lia.
From stdpp Require Import base numbers list gmap strings.
From S2P Require Import Prelude Util Bytes RbTree BlkTree Alloc Log Storage Inode Bmap FileIO Write Read ReadOk RoundTrip Fd.

(** A slot in use whose lock is free. *)
Record slot_open (t : fd_table) (i : nat) (f : file) : Prop := {
  so_slot : ∃ ip, t !! i = Some (mkSlot f ip false);
  so_ref : f_ref f ≠ 0 }.

Lemma with_fd_ok {A} t i s (k : nat → slot → outcome A) : t !! i = Some s →
  with_fd t (Z.of_nat i + g_fd_start) k = k i s.
Proof.
  intros H. unfold with_fd. replace (Z.of_nat i + g_fd_start - g_fd_start) with (Z.of_nat i) by lia.
  destruct (Z.ltb_spec (Z.of_nat i) 0); [lia|]. by rewrite Nat2Z.id, H.
Qed.

(** A call that gives the file a new offset leaves the slot open. *)
Lemma slot_open_off t i f ip o : t !! i = Some (mkSlot f ip false) → f_ref f ≠ 0 →
  slot_open (<[i := mkSlot (set_off o f) ip false]> t) i (set_off o f).
Proof.
  intros H Hr. split; [|done]. exists ip. apply list_lookup_insert_eq. by eapply lookup_lt_Some.
Qed.

Lemma slot_open_other t i j f s : j ≠ i → slot_open t j f → slot_open (<[i := s]> t) j f.
Proof. intros Hne [[ip H] Hr]. split; [|done]. exists ip. by rewrite list_lookup_insert_ne. Qed.

Section transfer.
Context {S : Type}.

Lemma posix_write_ok (fw : file → Z → list Z → M S (Z * file * Z)) t i f isize isize' buf st st' r o :
  slot_open t i f → fw f isize buf st = Ok (r, set_off o f, isize', st') →
  ∃ t', userfs_posix_write fw t isize (Z.of_nat i + g_fd_start) buf st = Ok (r, t', isize', st') ∧
    slot_open t' i (set_off o f) ∧ ∀ j g, j ≠ i → slot_open t j g → slot_open t' j g.
Proof.
  intros [[ip Hs] Hr] E. unfold userfs_posix_write. rewrite (with_fd_ok _ _ _ _ Hs). cbn [lock s_locked].
  cbn [mbind outcome_bind s_file s_ip]. rewrite (proj2 (Z.eqb_neq _ _) Hr), E. cbn.
  eexists. split; [done|]. split; [by apply slot_open_off|]. intros j g. apply slot_open_other.
Qed.

Lemma posix_read_ok (fr : file → Z → Z → M S (Z * file * list (Z * list Z))) t i f isize n st st' r o d :
  slot_open t i f → fr f isize n st = Ok (r, set_off o f, d, st') →
  ∃ t', userfs_posix_read fr t isize (Z.of_nat i + g_fd_start) n st = Ok (n, t', d, st') ∧
    slot_open t' i (set_off o f).
Proof.
  intros [[ip Hs] Hr] E. unfold userfs_posix_read. rewrite (with_fd_ok _ _ _ _ Hs). cbn [lock s_locked].
  cbn [mbind outcome_bind s_file s_ip]. rewrite (proj2 (Z.eqb_neq _ _) Hr), E. cbn.
  eexists. split; [done|]. by apply slot_open_off.
Qed.
End transfer.

Lemma posix_rewind_ok t i f isize : slot_open t i f →
  ∃ t', userfs_posix_lseek t isize (Z.of_nat i + g_fd_start) 0 SEEK_SET = Ok (0, t', isize) ∧
    slot_open t' i (set_off 0 f).
Proof.
  intros [[ip Hs] Hr]. unfold userfs_posix_lseek. rewrite (with_fd_ok _ _ _ _ Hs). cbn [lock s_locked].
  cbn [mbind outcome_bind s_file s_ip]. rewrite (proj2 (Z.eqb_neq _ _) Hr). cbn.
  eexists. split; [done|]. by apply slot_open_off.
Qed.

Section round_trip.
Context (unit : Z) (fresh : list Z) (fetch : Z → option tmpinode) (now : Z) (mbuf : list Z).
Context (junk : Z → list Z) (stack : nat → Z).
Hypothesis Hunit : (unit | 4096).
Hypothesis Hjunk : ∀ n, 0 ≤ n → Z.of_nat (length (junk n)) = n.
Hypothesis Hstack : ∀ i, 0 ≤ stack i < 2 ^ 64.

(** The whole writer and the whole reader, with a destination [dst]. *)
Definition file_writer : file → Z → list Z → M world (Z * file * Z) :=
  userfs_file_write (snfs unit fresh fetch now mbuf).
Definition file_reader (dst : Z) : file → Z → Z → M rstate (Z * file * list (Z * list Z)) :=
  userfs_file_read (piece (do_unaligned_read unit fresh fetch junk stack) dst 0)
    (piece (do_align_read_cache1 unit fresh fetch junk stack) dst 0).

(** C2: Whole blocks appended through a descriptor with userfs_posix_write
    and the real piece writers are read back: after userfs_posix_lseek to 0,
    userfs_posix_read of the whole file with the real readers delivers the
    bytes the file had before followed by the appended ones at the
    destination, and changes no other byte of the caller. The state before
    the write is ready for an append, the file has no holes and stays below 2
    GiB, the read cache is consistent and has room, and the file can be read
    from its start: either the first 2 MiB of the file had no entry in the
    read cache, or the blocks that come out of the entry are the bytes of the
    file after the write and the index is entered behind them at the start of
    a node or inside a node of persistent memory. Read, append and read again
    when the append lengthened a node is not such a case if the node is on an
    SSD, where the code delivers shifted bytes (the finding at fs.c:2879), or
    if the file goes on behind it (the finding at fs.c:2884). *)
Theorem posix_append_read_back top t k f isize buf w :
  slot_open t k f → f_writable f = true → f_readable f = true → f_type f = FD_INODE →
  append_ready top isize (f_off f) w →
  (4096 | f_off f) → (4096 | Z.of_nat (length buf)) → (0 < length buf)%nat →
  isize + Z.of_nat (length buf) ≤ top → top < 2 ^ 31 →
  (∀ x, 0 ≤ x < isize → is_Some (fcontent w x)) →
  let n := Z.of_nat (length buf) in let fd := Z.of_nat k + g_fd_start in
  ∃ w' t1 t2,
    userfs_posix_write file_writer t isize fd buf w = Ok (n, t1, isize + n, w')
    ∧ userfs_posix_lseek t1 (isize + n) fd 0 SEEK_SET = Ok (0, t2, isize + n)
    ∧ ∀ g m dst, read_ready (read_side w g m) →
        fcache_find (w_ip w) 0 = Ok None ∨ can_read (isize + n) w' g m →
        ∃ old s' t3,
          userfs_posix_read (file_reader dst) t2 (isize + n) fd (isize + n) (read_side w' g m)
            = Ok (isize + n, t3, [(0, old ++ buf)], s')
        ∧ slot_open t3 k (set_off (isize + n) f)
        ∧ (∀ i : nat, (i < length old)%nat → fcontent w (Z.of_nat i) = old !! i)
        ∧ load (r_mem s') dst (length (old ++ buf)) = old ++ buf
        ∧ ∀ x, x < dst ∨ dst + (isize + n) ≤ x → r_mem s' x = m x.
Proof using Hunit Hjunk Hstack.
  intros Hs Hwr Hrd Hty Hready Hg1 Hg2 Hlen Htop Ht Hm n fd.
  destruct (append_read_back unit fresh fetch now mbuf junk stack Hunit Hjunk Hstack top f isize buf w)
    as (w' & E & Hread); [done..|]. fold n in E, Hread.
  destruct (posix_write_ok file_writer t k f isize (isize + n) buf w w' _ _ Hs E) as (t1 & E1 & Hs1 & _).
  destruct (posix_rewind_ok t1 k _ (isize + n) Hs1) as (t2 & E2 & Hs2).
  exists w', t1, t2. split_and!; [done..|]. intros g m dst Hrr Hmiss.
  destruct (Hread g m dst (set_off 0 (set_off (f_off f + n) f)) Hrr Hmiss) as (old & s' & E3 & Hold & Hld & Hrest);
    [done..|].
  destruct (posix_read_ok (file_reader dst) t2 k _ (isize + n) (isize + n) _ _ _ _ _ Hs2 E3) as (t3 & E4 & Hs3).
  exists old, s', t3. split_and!; done.
Qed.
End round_trip.

(** 4 KiB appended to a new file through descriptor 0 and read back. *)
Lemma posix_append_read_back_witness :
  ∃ w' t1 t2 old s' t3,
    userfs_posix_write (file_writer 512 [] (λ _, None) 0 []) [mkSlot (mkFile FD_INODE 1 0 true true 0) 7 false] 0
      (0 + g_fd_start) (replicate 4096 5) (demo_world 0 new_cursor RB_ROOT) = Ok (4096, t1, 4096, w')
    ∧ userfs_posix_read (file_reader 512 [] (λ _, None) (λ n, replicate (Z.to_nat n) 0) (λ _, 0) 5000)
        t2 4096 (0 + g_fd_start) 4096 (read_side w' (mkRc ∅ ∅ 0 [] 0) (λ _, 0))
      = Ok (4096, t3, [(0, old ++ replicate 4096 5)], s').
Proof.
  destruct (posix_append_read_back 512 [] (λ _, None) 0 [] (λ n, replicate (Z.to_nat n) 0) (λ _, 0)
    ltac:(by exists 8) zeros_length zero_word (2 ^ 22) [mkSlot (mkFile FD_INODE 1 0 true true 0) 7 false] 0
    (mkFile FD_INODE 1 0 true true 0) 0 (replicate 4096 5) (demo_world 0 new_cursor RB_ROOT))
    as (w' & t1 & t2 & E1 & _ & Hread).
  - split; [by exists 7|done].
  - reflexivity.
  - reflexivity.
  - reflexivity.
  - apply new_file_ready; [reflexivity..|vm_compute; done|apply demo_space_ok].
  - by exists 0.
  - by exists 1.
  - vm_compute. lia.
  - vm_compute. done.
  - vm_compute. done.
  - intros x Hx. lia.
  - destruct (Hread (mkRc ∅ ∅ 0 [] 0) (λ _, 0) 5000) as (old & s' & t3 & E3 & _).
    + split; [exists ∅; split; [reflexivity|apply fcache_live_empty]|].
      split; [exact empty_heap|split; vm_compute; done].
    + by left.
    + exists w', t1, t2, old, s', t3. split; [exact E1|exact E3].
Defined.
