(* ===== verification/Files.v ===== *)
(** * Files: several files on the same devices

    Appends through descriptors to any number of files that share the
    allocators, the log and the devices: no file changes another one, and each
    is read back as what was appended to it. *)
From Stdlib Require Import ZArith Lia.
From stdpp Require Import base numbers list gmap strings.
From S2P Require Import Prelude Util Bytes RbTree BlkTree Upsert Alloc Log Storage Inode Bmap FileIO Write Read ReadOk RoundTrip Fd PosixIO.

(** ** What an append may touch *)

(** The rest of the block of the append position. *)
Definition tail_of (w : world) (d a : Z) : Prop :=
  d = c_devid (w_cur w) + 1 ∧ c_ssdoff (w_cur w) ≤ a < block_end (c_ssdoff (w_cur w)).
Definition region (w : world) (d a : Z) : Prop := cur_needs w = false ∧ tail_of w d a.

(** That, and what was never handed out. *)
Definition own (w : world) (d a : Z) : Prop :=
  region w d a ∨ (1 ≤ d ≤ 4 ∧ hw (w_space w) d ≤ a).

Definition maps_to (w : world) (d a : Z) : Prop := ∃ x, xlate (w_tree w) x = Some (d, a).

Record frame (w w' : world) : Prop := {
  fr_hw d : 1 ≤ d ≤ 4 → hw (w_space w) d ≤ hw (w_space w') d;
  fr_own d a : own w' d a → own w d a;
  fr_devs d a : w_devs w' d a = w_devs w d a ∨ own w d a;
  fr_maps d a : maps_to w' d a → maps_to w d a ∨ own w d a
}.

#[global] Instance frame_refl : Reflexive frame.
Proof. intros w. split; auto. lia. Qed.
#[global] Instance frame_trans : Transitive frame.
Proof.
  intros w1 w2 w3 [A1 A2 A3 A4] [B1 B2 B3 B4]. split.
  - intros d Hd. etrans; [by apply A1|by apply B1].
  - auto.
  - intros d a. destruct (B3 d a) as [->|]; auto.
  - intros d a Ha. destruct (B4 d a Ha); auto.
Qed.

Lemma space_mono left left' s : left' ≤ left → space_ok left s → space_ok left' s.
Proof.
  intros Hl [H1 H2 H3 H4 H5]. split; try done; [lia|]. intros f Hf. destruct (H5 f Hf). lia.
Qed.

(** The allocators after the room for a piece of [len] bytes was made: what
    other files need is still there. *)
Definition budget (top isize isize' : Z) (s s' : Blocks.space) : Prop :=
  ∀ k, 0 ≤ k → space_ok (blocks_left top isize + k) s → space_ok (blocks_left top isize' + k) s'.

Lemma room_frame top isize len w w1 :
  append_ready top isize isize w → 0 < len → isize mod 2 ^ 21 + len ≤ 2 ^ 21 → isize + len ≤ top →
  room_append w = Ok (tt, w1) →
  (∀ d a, tail_of w1 d a → own w d a) ∧ (∀ d, 1 ≤ d ≤ 4 → hw (w_space w) d ≤ hw (w_space w1) d)
  ∧ budget top isize (isize + len) (w_space w) (w_space w1).
Proof.
  intros [_ H0 Hn Hwf _ Hend Hcur] Hl Hin Htop E.
  destruct (blocks_left_next top isize len Hl Hin Htop) as [Hleft Hpos].
  unfold room_append in E. revert E. unfold_M. fold (cur_needs w). destruct (cur_needs w) eqn:Hnd; cbn [when].
  - destruct Hcur as (Hm & Hbel & Hsp). rewrite Hm, Z.eqb_refl in Hleft.
    intros [= <-]. unfold refill_append, tail_of.
    destruct (next_block_ok (c_wrthdnum (w_cur w)) (blocks_left top isize) (w_space w) Hn)
      as (a & d & n' & s' & En & Hd & Ha & Ham & Hhw & Hhw' & Hmax & Hoth & Hsp'); [lia|done|].
    rewrite En. cbn. split_and!.
    + intros d' a' [-> Ha']. rewrite block_end_aligned in Ha' by done. right. lia.
    + intros d' Hd'. destruct (decide (d' = d + 1)) as [->|]; [lia|]. rewrite Hoth by done. lia.
    + intros k Hk Hsk.
      destruct (next_block_ok (c_wrthdnum (w_cur w)) (blocks_left top isize + k) (w_space w) Hn)
        as (a2 & d2 & n2 & s2 & En2 & _ & _ & _ & _ & _ & _ & _ & Hs2); [lia|done|].
      rewrite En in En2. injection En2 as <- <- <- <-.
      by replace (blocks_left top (isize + len) + k) with (blocks_left top isize + k - 1) by lia.
  - destruct Hcur as [Hm Hp]. intros [= <-]. split_and!.
    + intros d a Ht. by left.
    + intros d _. lia.
    + destruct (Z.eqb_spec (isize mod 2 ^ 21) 0); [done|].
      intros k Hk. by replace (blocks_left top (isize + len)) with (blocks_left top isize) by lia.
Qed.

Section append.
Context (unit : Z) (fresh : list Z) (fetch : Z → option tmpinode) (now : Z) (mbuf : list Z).
Hypothesis Hunit : (unit | 4096).

Lemma piece_frame left isize buf w w1 w2 :
  (∀ d a, tail_of w1 d a → own w d a) → (∀ d, 1 ≤ d ≤ 4 → hw (w_space w) d ≤ hw (w_space w1) d) →
  w_tree w1 = w_tree w → w_devs w1 = w_devs w →
  positioned left isize w1 → piece_ok isize buf → appended isize buf w1 w2 → frame w w2.
Proof.
  intros Htl Hhw Et Ed Hp (H0 & Hal & Hlen & Hlal & Hin & Hbig) Hap.
  assert (Hx := λ x, appended_xlate _ _ _ _ _ x Hp Hal Hap).
  destruct Hap as [_ _ _ Hdv Hsp Hdev Hpos Hused _ _]. destruct Hp as [Pd Pp Pm Phw Pn [Pl Ps] Pb Pf].
  pose proof (hw_bound _ _ (c_devid (w_cur w1) + 1) Pl Ps ltac:(lia)) as Hhb.
  set (p := c_ssdoff (w_cur w1)) in *. set (d1 := c_devid (w_cur w1)) in *.
  set (len := Z.of_nat (length buf)) in *. pose proof (Z.mod_pos_bound p (2 ^ 21) ltac:(lia)) as Hmp.
  assert (Hin' : ∀ a, p ≤ a < p + len → own w (d1 + 1) a).
  { intros a Ha. apply Htl. split; [done|]. fold p. unfold block_end. lia. }
  split.
  - intros d Hd. rewrite Hsp. auto.
  - intros d a [[Hnd [-> Ha]]|[Hd Ha]].
    + unfold cur_needs in Hnd. rewrite Hdev, Hpos, Hused in *. fold p d1 len in Hnd, Ha |- *.
      rewrite need_block_after in Hnd by (done || unfold block_end in Phw; lia).
      apply Z.eqb_neq in Hnd. apply Htl. split; [done|]. fold p.
      assert (Hpl : p mod 2 ^ 21 + len < 2 ^ 21).
      { destruct (decide (p mod 2 ^ 21 + len = 2 ^ 21)) as [E|]; [|lia].
        exfalso. apply Hnd. rewrite <- Z.add_mod_idemp_l, E by lia. done. }
      assert ((p + len) mod 2 ^ 21 = p mod 2 ^ 21 + len) as Hpm
        by (rewrite <- Z.add_mod_idemp_l by lia; apply Z.mod_small; lia).
      unfold block_end in *. lia.
    + right. split; [done|]. rewrite Hsp in Ha. pose proof (Hhw d Hd). lia.
  - intros d a. rewrite Hdv, Ed. unfold set_dev. destruct (Z.eqb_spec d (d1 + 1)) as [->|]; [|by left].
    destruct (decide (p ≤ a < p + len)) as [Ha|Ha]; [right; auto|left]. apply store_outside. fold len. lia.
  - intros d a [x Hxa]. rewrite Hx in Hxa. case_decide; [|left; exists x; by rewrite <- Et].
    injection Hxa as <- <-. right. apply Hin'. lia.
Qed.

(** One appended piece. *)
Lemma aligned_write_frame top isize buf w r w2 :
  append_ready top isize isize w → piece_ok isize buf → isize + Z.of_nat (length buf) ≤ top →
  aligned_write unit fresh now isize isize buf w = Ok (r, w2) →
  frame w w2 ∧ budget top isize (isize + Z.of_nat (length buf)) (w_space w) (w_space w2).
Proof.
  intros Hr Hpc Htop Ew. pose proof Hpc as (H0 & Hal & Hlen & Hlal & Hin & Hbig).
  destruct (room_append_ok top isize (Z.of_nat (length buf)) w Hr) as (w1 & E1 & Hp1 & Ht1 & Hd1 & Hn1 & Hfc1);
    [lia..|].
  destruct (room_frame top isize (Z.of_nat (length buf)) w w1 Hr) as (F1 & F2 & F3); [lia..|done|].
  destruct Hr as [_ _ _ Hwf Hbt Hend _]. rewrite <- Ht1 in Hwf, Hbt.
  destruct (append_piece_ok unit fresh now Hunit _ isize buf w1 Hp1 Hwf Hbt) as (w3 & E2 & Hap);
    [intros x Hx; rewrite Ht1; by apply Hend|done|].
  revert Ew. unfold aligned_write. rewrite Z.eqb_refl. unfold_M. rewrite E1. unfold in_2M.
  change g_lblock_size_shift with 21. rewrite !land_mask, (po_mod _ _ _ Hp1), Z.eqb_refl by lia.
  cbn [negb]. rewrite E2. intros [= _ <-]. split; [by eapply piece_frame|].
  by rewrite (ap_space _ _ _ _ Hap).
Qed.

Lemma wrote_frame top isize off buf w w' :
  wrote (snfs unit fresh fetch now mbuf) 4096 isize off buf w w' →
  append_ready top isize off w → off + Z.of_nat (length buf) ≤ top →
  frame w w' ∧ budget top isize (isize + Z.of_nat (length buf)) (w_space w) (w_space w').
Proof.
  induction 1 as [isize off w|isize off b bs w w1 w2 Hc Hg1 Hg2 Es Hw IH]; intros Hr Htop.
  { split; [done|]. intros k Hk. by rewrite Z.add_0_r. }
  rewrite length_app, Nat2Z.inj_add in *.
  pose proof (ar_off _ _ _ _ Hr) as ->. pose proof (chunk_piece _ _ Hc Hg1 Hg2) as Hp. pose proof Hc as (Hl & _).
  destruct (aligned_write_append unit fresh now Hunit top isize b w Hr Hp) as (w1' & Es' & Hr' & _); [lia|].
  rewrite snfs_aligned, Es' in Es by done. simplify_eq.
  destruct (aligned_write_frame top isize b w _ _ Hr Hp ltac:(lia) Es') as [Hf Hb].
  rewrite Z.max_r in IH by lia. destruct IH as [IHf IHb]; [done|lia|].
  split; [by etrans|]. intros k Hk Hsk. rewrite Z.add_assoc. auto.
Qed.

(** A whole write at the end of a file, with what it leaves alone. *)
Lemma append_framed top f isize buf w :
  append_ready top isize (f_off f) w → f_writable f = true → f_type f = FD_INODE →
  (4096 | f_off f) → (4096 | Z.of_nat (length buf)) → Z.of_nat (length buf) < 2 ^ 31 →
  f_off f + Z.of_nat (length buf) ≤ top → top < 2 ^ 62 →
  let n := Z.of_nat (length buf) in
  ∃ w', userfs_file_write (snfs unit fresh fetch now mbuf) f isize buf w
          = Ok (n, set_off (f_off f + n) f, isize + n, w')
    ∧ append_ready top (isize + n) (f_off f + n) w' ∧ i_fcache (w_ip w') = i_fcache (w_ip w)
    ∧ (∀ x, fcontent w' x = if decide (isize ≤ x < isize + n)
                            then Some (buf !!! Z.to_nat (x - isize)) else fcontent w x)
    ∧ frame w w' ∧ budget top isize (isize + n) (w_space w) (w_space w').
Proof.
  intros Hr Hw Hty Hg1 Hg2 Hl Htop H62 n. pose proof (ar_off _ _ _ _ Hr) as Ho.
  pose proof (ar_pos _ _ _ _ Hr) as H0.
  pose proof (snfs_appends unit fresh fetch now mbuf Hunit top) as Hcw.
  destruct (file_write_ok (snfs unit fresh fetch now mbuf) 4096 top (append_ready top) f isize buf w)
    as (w' & E & Hwr & Hr'); [done..|lia|lia|lia|lia|].
  fold n in E, Hr'. exists w'.
  replace (if 0 <? n then Z.max isize (f_off f + n) else isize) with (isize + n) in * by (case_if; lia).
  split; [done|]. split; [done|].
  destruct (wrote_content _ _ _ _ _ Hunit _ _ _ _ _ _ Hwr Hr Htop) as [Hfc Hx]. split; [done|].
  split; [intros x; rewrite Hx; by rewrite Ho|]. by eapply wrote_frame.
Qed.
End append.

(** ** Several files *)

(** The open files: inode and size, descriptor [k] being open on file [k];
    the allocators, the log and the devices are shared. *)
Record sys : Type := mkSys {
  y_files : list (inode * Z);
  y_fds : fd_table;
  y_space : Blocks.space;
  y_log : log;
  y_devs : devices
}.
Definition file_world (y : sys) (ip : inode) : world := mkWorld ip (y_space y) (y_log y) (y_devs y).

Section files.
Context (unit : Z) (fresh : list Z) (fetch : Z → option tmpinode) (now : Z) (mbuf : list Z).

(** [userfs_posix_write] of [buf] to descriptor [k]. *)
Definition sys_write (k : nat) (buf : list Z) : M sys Z := λ y,
  match y_files y !! k with
  | None => Fault "no such file"
  | Some (ip, size) =>
      '((r, t, size), w) ← userfs_posix_write (file_writer unit fresh fetch now mbuf) (y_fds y) size
                             (Z.of_nat k + g_fd_start) buf (file_world y ip);
      Ok (r, mkSys (<[k := (w_ip w, size)]> (y_files y)) t (w_space w) (w_log w) (w_devs w))
  end.

Fixpoint sys_run (ops : list (nat * list Z)) : M sys (list Z) :=
  match ops with
  | [] => mret []
  | (k, buf) :: ops => r ← sys_write k buf; rs ← sys_run ops; mret (r :: rs)
  end.
End files.

(** What was appended to each file. *)
Fixpoint appends (ops : list (nat * list Z)) (data : list (list Z)) : list (list Z) :=
  match ops with
  | [] => data
  | (k, buf) :: ops => appends ops (alter (λ d, d ++ buf) k data)
  end.

(** ** The invariant *)
Definition zsum (l : list Z) : Z := foldr Z.add 0 l.
(** Blocks of 2 MiB the files still need to grow to [tops]. *)
Definition need (tops : list Z) (files : list (inode * Z)) : Z :=
  zsum (zip_with blocks_left tops (snd <$> files)).

(** Files that do not get in each other's way. *)
Record apart (w1 w2 : world) : Prop := {
  ap_maps d a : maps_to w1 d a → ¬ region w2 d a;
  ap_regions d a : region w1 d a → ¬ region w2 d a
}.

Record file_state (t : fd_table) (k : nat) (size top : Z) (d : list Z) (w : world) : Prop := {
  fs_slot : ∃ f, slot_open t k f ∧ f_off f = size ∧ f_readable f = true ∧ f_writable f = true ∧ f_type f = FD_INODE;
  fs_size : size = Z.of_nat (length d);
  fs_blocks : (4096 | size);
  fs_top : size ≤ top < 2 ^ 31;
  fs_ready : append_ready size size size w;
  fs_content i : fcontent w (Z.of_nat i) = d !! i;
  fs_cache : i_fcache (w_ip w) = Some ∅
}.

Record sys_ok (tops : list Z) (data : list (list Z)) (y : sys) : Prop := {
  so_tops : length tops = length (y_files y);
  so_data : length data = length (y_files y);
  so_files k ip size : y_files y !! k = Some (ip, size) →
    file_state (y_fds y) k size (tops !!! k) (data !!! k) (file_world y ip);
  so_apart j k ipj szj ipk szk : j ≠ k → y_files y !! j = Some (ipj, szj) → y_files y !! k = Some (ipk, szk) →
    apart (file_world y ipj) (file_world y ipk);
  so_space : space_ok (need tops (y_files y)) (y_space y)
}.

(** ** What an append to one file is to the others *)
Lemma ready_below top isize off w : append_ready top isize off w → mapped_below w.
Proof. intros [_ _ _ _ _ _ H]. destruct (cur_needs w); [apply H|]. destruct H as [_ []]. done. Qed.

Lemma ready_region top isize off w d a :
  append_ready top isize off w → region w d a → 1 ≤ d ≤ 4 ∧ a < hw (w_space w) d.
Proof.
  intros [_ _ _ _ _ _ H] [Hn [-> Ha]]. rewrite Hn in H. destruct H as [_ []]. lia.
Qed.

(** What a file uses is not what another one may touch. *)
Lemma apart_own top isize off w1 w2 d a :
  w_space w1 = w_space w2 → append_ready top isize off w1 → apart w1 w2 → maps_to w1 d a ∨ region w1 d a → ¬ own w2 d a.
Proof.
  intros Es Hr [A1 A2] H [Ho|[Hd Ho]].
  - destruct H as [H|H]; [by eapply A1|by eapply A2].
  - rewrite <- Es in Ho. destruct H as [[x Hx]|H].
    + destruct (ready_below _ _ _ _ Hr x d a Hx). lia.
    + destruct (ready_region _ _ _ _ _ _ Hr H). lia.
Qed.

(** The append position does not depend on what is shared. *)
Lemma ready_shared isize w s l ds :
  append_ready isize isize isize w → (∀ d, 1 ≤ d ≤ 4 → hw (w_space w) d ≤ hw s d) → space_ok 0 s →
  append_ready isize isize isize (mkWorld (w_ip w) s l ds).
Proof.
  intros Hr Hhw Hs. pose proof (ready_below _ _ _ _ Hr) as Hb. destruct Hr as [H1 H2 H3 H4 H5 H6 H7].
  assert (Hb' : mapped_below (mkWorld (w_ip w) s l ds)).
  { intros x d a Hx. destruct (Hb x d a Hx) as [Hd Ha]. split; [done|]. pose proof (Hhw d Hd). cbn. lia. }
  assert (E0 : blocks_left isize isize = 0) by (unfold blocks_left; lia).
  split; try done. unfold cur_needs in *. change (w_cur (mkWorld (w_ip w) s l ds)) with (w_cur w).
  destruct (need_block _ _ _).
  - destruct H7 as (? & _ & _). rewrite E0. done.
  - destruct H7 as (? & [P1 P2 P3 P4 P5 P6 P7 P8]). split; [done|]. split; try done.
    + change (w_cur (mkWorld (w_ip w) s l ds)) with (w_cur w).
      pose proof (Hhw (c_devid (w_cur w) + 1) ltac:(lia)). cbn [w_space]. lia.
    + rewrite E0. done.
Qed.

Lemma ready_budget top isize w :
  append_ready isize isize isize w → 0 ≤ blocks_left top isize → space_ok (blocks_left top isize) (w_space w) →
  append_ready top isize isize w.
Proof.
  intros [H1 H2 H3 H4 H5 H6 H7] Hb Hs. split; try done. destruct (cur_needs w).
  - destruct H7 as (? & ? & _). done.
  - destruct H7 as (? & []). split; [done|]. by split.
Qed.

Lemma ready_now top isize w :
  append_ready top isize isize w → 0 ≤ blocks_left top isize → append_ready isize isize isize w.
Proof.
  intros [H1 H2 H3 H4 H5 H6 H7] Hb. assert (E0 : blocks_left isize isize = 0) by (unfold blocks_left; lia).
  split; try done. rewrite E0. destruct (cur_needs w).
  - destruct H7 as (? & ? & Hs). split_and!; [done|done|by eapply space_mono].
  - destruct H7 as (? & [P1 P2 P3 P4 P5 [P6 P6'] P7 P8]). split; [done|]. split; try done.
    split; [lia|by eapply space_mono].
Qed.

(** ** The sum of what is needed *)
Lemma zsum_insert l k x v : l !! k = Some x → zsum (<[k := v]> l) = zsum l - x + v.
Proof.
  revert k. induction l as [|y l IH]; intros [|k] H; simplify_eq; [simpl in H; simplify_eq; simpl; lia|].
  simpl in *. rewrite (IH k) by done. lia.
Qed.

Lemma zsum_at l k x : Forall (λ z, 0 ≤ z) l → l !! k = Some x → x ≤ zsum l.
Proof.
  intros H. revert k. induction H as [|y l Hy H IH]; intros [|k] Hk; [done|done| |].
  - simpl in Hk. simplify_eq. assert (0 ≤ zsum l); [|simpl; lia]. clear -H. induction H; simpl; lia.
  - simpl in *. specialize (IH k Hk). lia.
Qed.

Lemma zip_with_insert_r {A B C} (f : A → B → C) l l' k a b :
  l !! k = Some a → zip_with f l (<[k := b]> l') = <[k := f a b]> (zip_with f l l').
Proof.
  revert l' k. induction l as [|x l IH]; intros [|y l'] [|k] H; simplify_eq/=; try done. by rewrite IH.
Qed.

Lemma blocks_left_nonneg top isize : isize ≤ top → 0 ≤ blocks_left top isize.
Proof.
  intros H. unfold blocks_left.
  pose proof (Z.div_le_mono (isize + (2 ^ 21 - 1)) (top + (2 ^ 21 - 1)) (2 ^ 21)). lia.
Qed.

Lemma need_parts tops data y :
  sys_ok tops data y → Forall (λ z, 0 ≤ z) (zip_with blocks_left tops (snd <$> y_files y)).
Proof.
  intros Hy. apply Forall_lookup. intros k z Hz. apply lookup_zip_with_Some in Hz as (top & size & -> & Ht & Hs).
  rewrite list_lookup_fmap in Hs. destruct (y_files y !! k) as [[ip sz]|] eqn:Hk; [|done]. simpl in Hs. simplify_eq.
  apply blocks_left_nonneg. rewrite <- (list_lookup_total_correct _ _ _ Ht). by eapply fs_top, so_files.
Qed.

Lemma need_update tops files k ip size ip' size' :
  length tops = length files → files !! k = Some (ip, size) →
  need tops (<[k := (ip', size')]> files)
    = need tops files - blocks_left (tops !!! k) size + blocks_left (tops !!! k) size'.
Proof.
  intros Hl Hk. unfold need. rewrite list_fmap_insert. simpl.
  destruct (lookup_lt_is_Some_2 tops k) as [top Ht]; [rewrite Hl; by eapply lookup_lt_Some|].
  rewrite (list_lookup_total_correct _ _ _ Ht).
  rewrite (zip_with_insert_r _ _ _ _ top) by done. apply zsum_insert.
  apply lookup_zip_with_Some. exists top, size. split_and!; [done|done|]. by rewrite list_lookup_fmap, Hk.
Qed.

Section files_ok.
Context (unit : Z) (fresh : list Z) (fetch : Z → option tmpinode) (now : Z) (mbuf : list Z).
Hypothesis Hunit : (unit | 4096).

(** A file that is not written to. *)
Lemma other_file_state t t' k size top d w w' ip :
  file_state t k size top d (mkWorld ip (w_space w) (w_log w) (w_devs w)) →
  (∀ g, slot_open t k g → slot_open t' k g) → frame w w' → space_ok 0 (w_space w') →
  apart (mkWorld ip (w_space w) (w_log w) (w_devs w)) w →
  file_state t' k size top d (mkWorld ip (w_space w') (w_log w') (w_devs w')).
Proof.
  intros [(f & Hf & Hrest) H2 H3 H4 H5 H6 H7] Ht Hfr Hs Hap. split; try done.
  - exists f. split; [by apply Ht|done].
  - exact (ready_shared _ _ (w_space w') (w_log w') (w_devs w') H5 (fr_hw _ _ Hfr) Hs).
  - intros i. rewrite <- H6. unfold fcontent. cbn [w_tree w_ip w_devs].
    change (w_tree (mkWorld ip (w_space w') (w_log w') (w_devs w'))) with (i_blktree ip).
    change (w_tree (mkWorld ip (w_space w) (w_log w) (w_devs w))) with (i_blktree ip).
    destruct (xlate (i_blktree ip) (Z.of_nat i)) as [[dv a]|] eqn:E; [|done]. simpl. f_equal.
    destruct (fr_devs _ _ Hfr dv a) as [?|Ho]; [done|]. exfalso.
    eapply (apart_own _ _ _ _ _ dv a); [|exact H5|exact Hap| |exact Ho]; [done|]. left. by exists (Z.of_nat i).
Qed.

(** The written file and another one. *)
Lemma apart_written top size off ip w w' :
  frame w w' → append_ready top size off (mkWorld ip (w_space w) (w_log w) (w_devs w)) →
  apart (mkWorld ip (w_space w) (w_log w) (w_devs w)) w → apart w (mkWorld ip (w_space w) (w_log w) (w_devs w)) →
  apart (mkWorld ip (w_space w') (w_log w') (w_devs w')) w'
  ∧ apart w' (mkWorld ip (w_space w') (w_log w') (w_devs w')).
Proof.
  intros Hf Hr A B. set (wj := mkWorld ip (w_space w) (w_log w) (w_devs w)) in *.
  assert (Hno : ∀ d a, maps_to wj d a ∨ region wj d a → ¬ own w d a) by (intros d a; by eapply apart_own).
  assert (Hreg : ∀ d a, region w' d a → own w d a) by (intros d a H; apply (fr_own _ _ Hf); by left).
  split; split.
  - intros d a Hm H%Hreg. by apply (Hno d a); [left|].
  - intros d a Hm H%Hreg. by apply (Hno d a); [right|].
  - intros d a Hm Hr'. destruct (fr_maps _ _ Hf d a Hm) as [H|H].
    + by apply (ap_maps _ _ B d a H).
    + by apply (Hno d a); [right|].
  - intros d a H%Hreg Hr'. by apply (Hno d a); [right|].
Qed.

Lemma content_app d buf w w' :
  (∀ i, fcontent w (Z.of_nat i) = d !! i) →
  (∀ x, fcontent w' x = if decide (Z.of_nat (length d) ≤ x < Z.of_nat (length d) + Z.of_nat (length buf))
                        then Some (buf !!! Z.to_nat (x - Z.of_nat (length d))) else fcontent w x) →
  ∀ i, fcontent w' (Z.of_nat i) = (d ++ buf) !! i.
Proof.
  intros H H' i. rewrite H'. case_decide as Hi.
  - rewrite lookup_app_r by lia. rewrite list_lookup_lookup_total_lt by lia. do 2 f_equal. lia.
  - rewrite H. destruct (decide (i < length d)%nat); [by rewrite lookup_app_l|].
    rewrite !lookup_ge_None_2; [done|rewrite length_app; lia|lia].
Qed.

(** Two files after a write to the file [k]. *)
Lemma apart_after tops data y k ip size size' w' :
  sys_ok tops data y → y_files y !! k = Some (ip, size) → frame (file_world y ip) w' →
  ∀ i j ipi szi ipj szj, i ≠ j → <[k := (w_ip w', size')]> (y_files y) !! i = Some (ipi, szi) →
    <[k := (w_ip w', size')]> (y_files y) !! j = Some (ipj, szj) →
    apart (mkWorld ipi (w_space w') (w_log w') (w_devs w')) (mkWorld ipj (w_space w') (w_log w') (w_devs w')).
Proof.
  intros Hy Hk Hf. assert (Hlt : (k < length (y_files y))%nat) by (by eapply lookup_lt_Some).
  assert (Hw' : mkWorld (w_ip w') (w_space w') (w_log w') (w_devs w') = w') by (by destruct w').
  assert (Hpair : ∀ j ipj szj, j ≠ k → y_files y !! j = Some (ipj, szj) →
    apart (mkWorld ipj (w_space w') (w_log w') (w_devs w')) w'
    ∧ apart w' (mkWorld ipj (w_space w') (w_log w') (w_devs w'))).
  { intros j ipj szj Hjk Hj. eapply apart_written; [exact Hf|exact (fs_ready _ _ _ _ _ _ (so_files _ _ _ Hy _ _ _ Hj))|..].
    - exact (so_apart _ _ _ Hy _ _ _ _ _ _ Hjk Hj Hk).
    - exact (so_apart _ _ _ Hy _ _ _ _ _ _ (not_eq_sym Hjk) Hk Hj). }
  intros i j ipi szi ipj szj Hij Hi Hj. destruct (decide (i = k)) as [->|Hik].
  - rewrite list_lookup_insert_eq in Hi by done. injection Hi as <- <-.
    rewrite list_lookup_insert_ne in Hj by done. rewrite Hw'. by eapply Hpair.
  - rewrite list_lookup_insert_ne in Hi by done. destruct (decide (j = k)) as [->|Hjk].
    + rewrite list_lookup_insert_eq in Hj by done. injection Hj as <- <-. rewrite Hw'. by eapply Hpair.
    + rewrite list_lookup_insert_ne in Hj by done. destruct (so_apart _ _ _ Hy _ _ _ _ _ _ Hij Hi Hj) as [A B].
      split; [exact A|exact B].
Qed.

(** Each file after a write to the file [k], of which only the states of the
    written file and of the shared parts are known. *)
Lemma files_after tops data y k ip size size' d t' w' :
  sys_ok tops data y → y_files y !! k = Some (ip, size) → frame (file_world y ip) w' → space_ok 0 (w_space w') →
  (∀ j g, j ≠ k → slot_open (y_fds y) j g → slot_open t' j g) →
  file_state t' k size' (tops !!! k) (data !!! k ++ d) w' →
  ∀ j ipj szj, <[k := (w_ip w', size')]> (y_files y) !! j = Some (ipj, szj) →
    file_state t' j szj (tops !!! j) (alter (λ b, b ++ d) k data !!! j)
      (mkWorld ipj (w_space w') (w_log w') (w_devs w')).
Proof.
  intros Hy Hk Hf Hsp Hoth Hst j ipj szj. destruct (decide (j = k)) as [->|Hjk].
  - rewrite list_lookup_insert_eq by (by eapply lookup_lt_Some). intros [= <- <-].
    assert (alter (λ b, b ++ d) k data !!! k = data !!! k ++ d) as ->.
    { apply list_lookup_total_correct. rewrite list_lookup_alter_eq.
      rewrite (list_lookup_lookup_total_lt data k); [done|]. rewrite (so_data _ _ _ Hy). by eapply lookup_lt_Some. }
    by destruct w'.
  - rewrite list_lookup_insert_ne by done. intros Hj.
    assert (alter (λ b, b ++ d) k data !!! j = data !!! j) as ->
      by (by rewrite !list_lookup_total_alt, list_lookup_alter_ne by done).
    eapply (other_file_state (y_fds y) t' j szj _ _ (file_world y ip) w' ipj);
      [exact (so_files _ _ _ Hy _ _ _ Hj)|by intros g; apply Hoth|done|done|].
    exact (so_apart _ _ _ Hy _ _ _ _ _ _ Hjk Hj Hk).
Qed.

(** What one file needs is part of what all need. *)
Lemma need_at tops data y k ip size :
  sys_ok tops data y → y_files y !! k = Some (ip, size) → blocks_left (tops !!! k) size ≤ need tops (y_files y).
Proof.
  intros Hy Hk. eapply (zsum_at _ k); [by eapply need_parts|]. apply lookup_zip_with_Some. exists (tops !!! k), size.
  split_and!; [done| |by rewrite list_lookup_fmap, Hk]. apply list_lookup_lookup_total_lt.
  rewrite (so_tops _ _ _ Hy). by eapply lookup_lt_Some.
Qed.

(** One write. *)
Lemma sys_write_ok tops data y k ip size buf :
  sys_ok tops data y → y_files y !! k = Some (ip, size) → (4096 | Z.of_nat (length buf)) →
  size + Z.of_nat (length buf) ≤ tops !!! k →
  ∃ y' ip', sys_write unit fresh fetch now mbuf k buf y = Ok (Z.of_nat (length buf), y')
    ∧ sys_ok tops (alter (λ d, d ++ buf) k data) y'
    ∧ y_files y' = <[k := (ip', size + Z.of_nat (length buf))]> (y_files y).
Proof.
  intros Hy Hk Hg Htop. pose proof (so_files _ _ _ Hy _ _ _ Hk) as Hfs.
  pose proof Hfs as [(f & Hsl & Hoff & Hrd & Hwr & Hty) Hsz Hbl [Hle H31] Hready Hcont Hfc].
  pose proof (need_at _ _ _ _ _ _ Hy Hk) as Hneed.
  set (top := tops !!! k) in *. set (w := file_world y ip) in *. set (n := Z.of_nat (length buf)) in *.
  pose proof (blocks_left_nonneg top size Hle) as Hbn. pose proof (blocks_left_nonneg top (size + n) Htop) as Hbn'.
  assert (Hr : append_ready top size (f_off f) w).
  { rewrite Hoff. apply ready_budget; [done|done|]. eapply space_mono; [exact Hneed|apply Hy]. }
  assert (H0 : 0 ≤ size) by lia.
  destruct (append_framed unit fresh fetch now mbuf Hunit top f size buf w)
    as (w' & Ew & Hr' & Hfc' & Hc' & Hf & Hb); [done..|by rewrite Hoff|done|lia|lia|lia|]. fold n in Ew, Hr', Hc', Hb.
  destruct (posix_write_ok (file_writer unit fresh fetch now mbuf) _ k f size (size + n) buf w w' _ _ Hsl Ew)
    as (t' & Et & Hsl' & Hoth).
  assert (Hsp : space_ok (need tops (<[k := (w_ip w', size + n)]> (y_files y))) (w_space w')).
  { rewrite (need_update _ _ _ ip size) by (done || apply Hy). fold top.
    replace (need tops (y_files y) - blocks_left top size + blocks_left top (size + n))
      with (blocks_left top (size + n) + (need tops (y_files y) - blocks_left top size)) by lia.
    apply Hb; [lia|]. replace (blocks_left top size + _) with (need tops (y_files y)) by lia. apply Hy. }
  assert (Hsp0 : space_ok 0 (w_space w')).
  { eapply space_mono; [|exact Hsp]. rewrite (need_update _ _ _ ip size) by (done || apply Hy). fold top. lia. }
  eexists _, (w_ip w'). split; [unfold sys_write; rewrite Hk; fold w; by rewrite Et|]. split; [|done].
  split; cbn [y_files y_fds y_space].
  - by rewrite length_insert, (so_tops _ _ _ Hy).
  - by rewrite length_alter, length_insert, (so_data _ _ _ Hy).
  - eapply files_after; [done..|by intros j g Hj; apply Hoth|]. fold top. split.
    + exists (set_off (f_off f + n) f). split; [done|]. by rewrite <- Hoff.
    + rewrite length_app. lia.
    + by apply Z.divide_add_r.
    + lia.
    + apply (ready_now top); [by rewrite Hoff in Hr'|done].
    + eapply content_app; [exact Hcont|]. by rewrite <- Hsz.
    + by rewrite Hfc'.
  - by eapply apart_after.
  - done.
Qed.

(** Sequences of writes. *)
Lemma appends_length ops data : length (appends ops data) = length data.
Proof. revert data. induction ops as [|[k b] ops IH]; intros data; [done|]. simpl. by rewrite IH, length_alter. Qed.

Lemma alter_total k buf (data : list (list Z)) j :
  (k < length data)%nat →
  alter (λ d, d ++ buf) k data !!! j = data !!! j ++ (if decide (j = k) then buf else []).
Proof.
  intros Hk. destruct (decide (j = k)) as [->|Hj].
  - apply list_lookup_total_correct. rewrite list_lookup_alter_eq.
    by rewrite (list_lookup_lookup_total_lt data k).
  - by rewrite app_nil_r, !list_lookup_total_alt, list_lookup_alter_ne.
Qed.

Lemma appends_grow ops data j :
  Forall (λ o, (o.1 < length data)%nat) ops → (length (data !!! j) ≤ length (appends ops data !!! j))%nat.
Proof.
  revert data. induction ops as [|[k b] ops IH]; intros data Ho; [done|]. apply Forall_cons in Ho as [Hk Ho]. simpl in *.
  specialize (IH (alter (λ d, d ++ b) k data)). rewrite length_alter in IH. specialize (IH Ho).
  rewrite alter_total, length_app in IH by done. lia.
Qed.

(** A write of whole blocks to one of the files. *)
Definition op_ok (n : nat) (o : nat * list Z) : Prop := (o.1 < n)%nat ∧ (4096 | Z.of_nat (length o.2)).

Lemma sys_run_ok ops : ∀ tops data y,
  sys_ok tops data y → Forall (op_ok (length data)) ops →
  (∀ k, (k < length data)%nat → Z.of_nat (length (appends ops data !!! k)) ≤ tops !!! k) →
  ∃ y', sys_run unit fresh fetch now mbuf ops y = Ok ((λ o, Z.of_nat (length o.2)) <$> ops, y')
    ∧ sys_ok tops (appends ops data) y'.
Proof.
  induction ops as [|[k buf] ops IH]; intros tops data y Hy Ho Htop; [by exists y|].
  apply Forall_cons in Ho as [[Hk Hg] Ho]. simpl in Hk, Hg.
  destruct (lookup_lt_is_Some_2 (y_files y) k) as [[ip size] Hf]; [by rewrite <- (so_data _ _ _ Hy)|].
  assert (Hsz : size + Z.of_nat (length buf) ≤ tops !!! k).
  { specialize (Htop k Hk). simpl in Htop.
    pose proof (appends_grow ops (alter (λ d, d ++ buf) k data) k) as Hgr. rewrite length_alter in Hgr.
    specialize (Hgr (Forall_impl _ _ _ Ho (λ o H, proj1 H))).
    rewrite alter_total, decide_True, length_app in Hgr by done.
    pose proof (fs_size _ _ _ _ _ _ (so_files _ _ _ Hy _ _ _ Hf)). lia. }
  destruct (sys_write_ok tops data y k ip size buf Hy Hf Hg Hsz) as (y1 & ip1 & E1 & Hy1 & _).
  destruct (IH tops (alter (λ d, d ++ buf) k data) y1 Hy1) as (y2 & E2 & Hy2).
  - by rewrite length_alter.
  - rewrite length_alter. intros j Hj. by apply Htop.
  - exists y2. split; [|done]. cbn [sys_run]. unfold_M. by rewrite E1, E2.
Qed.
End files_ok.

(** ** Theorem *)

(** New files, as [userfs_open_file] makes them, each with a descriptor. *)
Definition new_file (t : fd_table) (k : nat) (p : inode * Z) : Prop :=
  p.2 = 0 ∧ i_blktree p.1 = RB_ROOT ∧ c_devid (i_cur p.1) = 0 ∧ c_ssdoff (i_cur p.1) = 0
  ∧ 0 ≤ c_wrthdnum (i_cur p.1) ∧ i_fcache p.1 = Some ∅
  ∧ ∃ f, slot_open t k f ∧ f_off f = 0 ∧ f_readable f = true ∧ f_writable f = true ∧ f_type f = FD_INODE.
Definition new_sys (y : sys) : Prop := ∀ k p, y_files y !! k = Some p → new_file (y_fds y) k p.

Definition sizes_of (data : list (list Z)) : list Z := (λ d, Z.of_nat (length d)) <$> data.

Lemma new_sys_ok tops y :
  new_sys y → length tops = length (y_files y) → Forall (λ t, 0 ≤ t < 2 ^ 31) tops →
  space_ok (need tops (y_files y)) (y_space y) →
  sys_ok tops (replicate (length (y_files y)) []) y.
Proof.
  intros Hn Hl Ht Hs.
  assert (Hneed : 0 ≤ need tops (y_files y)).
  { unfold need. assert (Forall (λ z, 0 ≤ z) (zip_with blocks_left tops (y_files y).*2)) as H.
    - apply Forall_lookup. intros k z (top & size & -> & Hk & Hf)%lookup_zip_with_Some.
      rewrite list_lookup_fmap in Hf. destruct (y_files y !! k) as [p|] eqn:Ep; [|done]. simpl in Hf. simplify_eq.
      apply blocks_left_nonneg. destruct (Hn k p Ep) as [-> _].
      by apply (Forall_lookup_1 _ _ _ _ Ht Hk).
    - clear -H. induction H; simpl; lia. }
  split.
  - done.
  - by rewrite length_replicate.
  - intros k ip size Hk. destruct (Hn k _ Hk) as (Hz & Htr & Hd & Ho & Hnum & Hfc & f & Hf). simpl in *. subst size.
    assert (Hlt : (k < length (y_files y))%nat) by (by eapply lookup_lt_Some).
    rewrite lookup_total_replicate_2 by done.
    split.
    + exists f. done.
    + done.
    + apply Z.divide_0_r.
    + apply (Forall_lookup_1 _ _ k _ Ht), list_lookup_lookup_total_lt. by rewrite Hl.
    + apply new_file_ready; try done. eapply space_mono; [|exact Hs]. done.
    + intros i. unfold fcontent, file_world, w_tree. simpl. by rewrite Htr.
    + done.
  - intros i j ipi szi ipj szj Hij Hi Hj.
    destruct (Hn i _ Hi) as (_ & Htr & Hd & Ho & _), (Hn j _ Hj) as (_ & _ & Hdj & Hoj & _). simpl in *.
    assert (Hnr : ∀ d a, ¬ region (file_world y ipj) d a).
    { intros d a [Hnd _]. unfold cur_needs, w_cur, file_world in Hnd. simpl in Hnd. rewrite Hdj, Hoj in Hnd. done. }
    split; intros d a _; apply Hnr.
  - done.
Qed.

Section read_back.
Context (unit : Z) (fresh : list Z) (fetch : Z → option tmpinode) (now : Z) (mbuf : list Z).
Context (junk : Z → list Z) (stack : nat → Z).
Hypothesis Hunit : (unit | 4096).
Hypothesis Hjunk : ∀ n, 0 ≤ n → Z.of_nat (length (junk n)) = n.
Hypothesis Hstack : ∀ i, 0 ≤ stack i < 2 ^ 64.

(** Reading a file from its start, through its descriptor. *)
Definition reads_back (y : sys) (k : nat) (ip : inode) (size : Z) (d : list Z) : Prop :=
  ∃ t, userfs_posix_lseek (y_fds y) size (Z.of_nat k + g_fd_start) 0 SEEK_SET = Ok (0, t, size) ∧
  ∀ g m dst, heap_ok g → 0 ≤ rc_n g ≤ 2 ^ 20 →
  ∃ t' s, userfs_posix_read (file_reader unit fresh fetch junk stack dst) t size (Z.of_nat k + g_fd_start) size
      (read_side (file_world y ip) g m) = Ok (size, t', [(0, d)], s)
    ∧ load (r_mem s) dst (length d) = d
    ∧ ∀ x, x < dst ∨ dst + size ≤ x → r_mem s x = m x.

Lemma file_reads_back tops data y k ip size :
  sys_ok tops data y → y_files y !! k = Some (ip, size) → 0 < size → reads_back y k ip size (data !!! k).
Proof using Hunit Hjunk Hstack.
  intros Hy Hk Hpos.
  destruct (so_files _ _ _ Hy _ _ _ Hk) as [(f & Hsl & Hoff & Hrd & Hwr & Hty) Hsz Hbl [Hle H31] Hready Hcont Hfc].
  destruct (posix_rewind_ok _ k f size Hsl) as (t & Et & Hsl'). exists t. split; [done|].
  intros g m dst Hheap Hrc.
  assert (Hall : ∀ x, 0 ≤ x < size → is_Some (fcontent (file_world y ip) x)).
  { intros x Hx. replace x with (Z.of_nat (Z.to_nat x)) by lia. rewrite Hcont.
    apply lookup_lt_is_Some_2. lia. }
  destruct (read_whole_file unit fresh fetch junk stack Hunit Hjunk Hstack size size (file_world y ip) g m dst (set_off 0 f))
    as (bytes & s & Er & Hl & Hb & Hld & Hrest); try done.
  - lia.
  - by apply Z.mod_divide.
  - split; [exists ∅; split; [exact Hfc|apply fcache_live_empty]|done].
  - apply (unread_can_read size); [done|lia|done|]. unfold fcache_find.
    change (w_ip (file_world y ip)) with ip in Hfc |- *. by rewrite Hfc.
  - assert (bytes = data !!! k) as ->.
    { apply list_eq. intros i. destruct (decide (i < length bytes)%nat) as [Hi|Hi].
      - by rewrite <- Hb, Hcont.
      - rewrite !lookup_ge_None_2; [done|lia|lia]. }
    destruct (posix_read_ok (file_reader unit fresh fetch junk stack dst) t k _ size size _ _ _ _ _ Hsl' Er)
      as (t' & Et' & _).
    by exists t', s.
Qed.

(** C3: For any number of new files that share the allocators, the log and
    the devices, every sequence of userfs_posix_write calls that append whole
    blocks returns the lengths written, and afterwards each file has exactly
    what was appended to it, whatever was written to the others in between:
    through its block index, and when it is read through its descriptor with
    userfs_posix_lseek and userfs_posix_read. As long as the devices have the
    2 MiB blocks the files need and each file stays below 2 GiB; nothing was
    read before, so the files have no entries in the read cache, which is
    consistent and has room. *)
Theorem files_append_isolated y ops :
  new_sys y → Forall (op_ok (length (y_files y))) ops →
  let data := appends ops (replicate (length (y_files y)) []) in
  Forall (λ d, Z.of_nat (length d) < 2 ^ 31) data →
  space_ok (need (sizes_of data) (y_files y)) (y_space y) →
  ∃ y', sys_run unit fresh fetch now mbuf ops y = Ok ((λ o, Z.of_nat (length o.2)) <$> ops, y') ∧
  ∀ k d, data !! k = Some d →
  ∃ ip, y_files y' !! k = Some (ip, Z.of_nat (length d))
    ∧ (∀ i : nat, fcontent (file_world y' ip) (Z.of_nat i) = d !! i)
    ∧ (0 < length d → reads_back y' k ip (Z.of_nat (length d)) d)%nat.
Proof using Hunit Hjunk Hstack.
  intros Hn Ho data Hd Hs.
  assert (Hlen : length data = length (y_files y)) by (unfold data; by rewrite appends_length, length_replicate).
  assert (Hy : sys_ok (sizes_of data) (replicate (length (y_files y)) []) y).
  { apply new_sys_ok; [done|by unfold sizes_of; rewrite length_fmap| |done].
    unfold sizes_of. apply Forall_fmap. eapply Forall_impl; [exact Hd|]. intros d H. unfold compose. cbv beta in *. lia. }
  destruct (sys_run_ok unit fresh fetch now mbuf Hunit ops _ _ y Hy) as (y' & E & Hy').
  - by rewrite length_replicate.
  - rewrite length_replicate. intros k Hk. fold data.
    rewrite (list_lookup_total_correct (sizes_of data) k (Z.of_nat (length (data !!! k)))); [done|].
    unfold sizes_of. by rewrite list_lookup_fmap, (list_lookup_lookup_total_lt data k) by (by rewrite Hlen).
  - fold data in Hy'. exists y'. split; [done|]. intros k d Hk.
    destruct (lookup_lt_is_Some_2 (y_files y') k) as [[ip size] Hf];
      [rewrite <- (so_data _ _ _ Hy'); by eapply lookup_lt_Some|].
    pose proof (so_files _ _ _ Hy' _ _ _ Hf) as Hfs. rewrite (list_lookup_total_correct _ _ _ Hk) in Hfs.
    pose proof (fs_size _ _ _ _ _ _ Hfs) as ->. exists ip. split; [done|].
    split; [apply Hfs|]. intros Hpos. rewrite <- (list_lookup_total_correct _ _ _ Hk) at 2.
    eapply file_reads_back; [done|done|lia].
Qed.
End read_back.

(** ** Witness *)

(** Two new files, written in turn. *)
Definition demo_inode : inode := mkInode 7 T_FILE 1 0 0 I_VALID 1 0 0 new_cursor RB_ROOT (Some ∅) 0.
Definition demo_slot : slot := mkSlot (mkFile FD_INODE 1 0 true true 0) 7 false.
Definition demo_sys : sys :=
  mkSys [(demo_inode, 0); (demo_inode, 0)] [demo_slot; demo_slot] (Blocks.mkSpace (mkAddr 512 1 1 1 0) 512)
    (loginit (λ _, 0)) (λ _ _, 0).
Definition demo_ops : list (nat * list Z) :=
  [(0%nat, replicate 4096 1); (1%nat, replicate 4096 2); (0%nat, replicate 4096 3)].

Lemma files_append_isolated_witness :
  ∃ y', sys_run 512 [] (λ _, None) 0 [] demo_ops demo_sys = Ok ([4096; 4096; 4096], y') ∧
    ∃ ip, y_files y' !! 0%nat = Some (ip, 8192)
      ∧ reads_back 512 [] (λ _, None) (λ n, replicate (Z.to_nat n) 0) (λ _, 0) y' 0 ip 8192
          (replicate 4096 1 ++ replicate 4096 3).
Proof.
  destruct (files_append_isolated 512 [] (λ _, None) 0 [] (λ n, replicate (Z.to_nat n) 0) (λ _, 0)
    ltac:(by exists 8) zeros_length zero_word demo_sys demo_ops) as (y' & E & H).
  - intros k p Hk. destruct k as [|[|k]]; simpl in Hk; simplify_eq; (split_and!; [done..|]);
      exists (mkFile FD_INODE 1 0 true true 0); (split; [split; [by exists 7|done]|done]).
  - repeat constructor; by exists 1.
  - apply (bool_decide_unpack _). vm_compute. exact I.
  - split; [vm_compute; done..|].
    intros f Hf. assert (f = 0 ∨ f = 1 ∨ f = 2) as [-> | [-> | ->]] by lia; vm_compute; done.
  - exists y'. split; [exact E|].
    destruct (H 0%nat (replicate 4096 1 ++ replicate 4096 3)) as (ip & Hip & _ & Hr); [vm_compute; done|].
    exists ip. split; [exact Hip|]. apply Hr. vm_compute. lia.
Defined.
