(* ===== verification/Getdents.v ===== *)
(** * Getdents: listing a directory

    The cache of directory blocks of [filesystem/dirent.c] and
    [userfs_posix_getdents].  A directory is read in steps of
    [sizeof(struct fs_direntry)], whatever the lengths of its records are. *)
From Stdlib Require Import ZArith Lia.
From stdpp Require Import base numbers list gmap strings.
From S2P Require Import Prelude Util Bytes RbTree BlkTree Upsert Storage Inode Bmap FileIO Fd.

Definition DI_VALID : Z := 1.
Definition sizeof_fs_direntry : Z := 48.
Definition sizeof_linux_dirent : Z := 264.

(** [struct dirent_block]; the hash table with the block added last in front. *)
Record dirent_block : Type := mkDb {
  db_inum : Z;
  db_offset : Z;
  dirent_array : list Z;
  db_log_addr : Z
}.
Record dstate : Type := mkDs {
  ds_ip : inode;
  dirent_hash : list dirent_block;
  ds_devs : devices
}.

(** [struct linux_dirent]. *)
Record linux_dirent : Type := mkLd {
  ld_ino : Z; ld_off : Z; ld_reclen : Z; ld_name : list Z
}.

Definition dcache_find (inum offset : Z) (h : list dirent_block) : option dirent_block :=
  snd <$> list_find (λ b, db_inum b = u32 inum ∧ db_offset b = u32 (shr64 offset g_block_size_shift)) h.

Definition dcache_alloc_add (inum offset : Z) (data : option (list Z)) (log_addr : Z) : M dstate dirent_block :=
  let b := mkDb (u32 inum) (u32 (shr64 offset g_block_size_shift)) (default (replicate 4096 0) data) log_addr in
  modify (λ s, mkDs (ds_ip s) (b :: dirent_hash s) (ds_devs s));;
  mret b.

Definition dcache_del (inum offset : Z) (h : list dirent_block) : list dirent_block :=
  match list_find (λ b, db_inum b = u32 inum ∧ db_offset b = u32 (shr64 offset g_block_size_shift)) h with
  | Some (i, _) => delete i h
  | None => h
  end.

Section getdents.
(** The kernel's inode for [bmap], the transfer unit and the bounce buffer of
    the devices, and the field [dinode_flags] of the directory. *)
Context (fetch : Z → option tmpinode) (unit : Z) (fresh : list Z) (dinode_flags : Z).

(** [get_dirent_block(dir_inode, offset)]. *)
Definition get_dirent_block (offset : Z) : M dstate (list Z) :=
  s ← get;
  assertM (i_itype (ds_ip s) =? T_DIR) "dir_inode->itype == T_DIR";;
  match dcache_find (i_inum (ds_ip s)) offset (dirent_hash s) with
  | Some b => mret (dirent_array b)
  | None =>
      if i_size (ds_ip s) =? 0 then
        if Z.land dinode_flags DI_VALID =? 0
        then panic "dir_inode is not synchronized with on-disk inode"
        else b ← dcache_alloc_add (i_inum (ds_ip s)) 0 None 0; mret (dirent_array b)
      else
        match bmap fetch (ds_devs s g_root_dev) (ds_ip s) (mkReq offset 0 0 g_root_dev) with
        | Ok (ret, ip, r) =>
            modify (λ s, mkDs ip (dirent_hash s) (ds_devs s));;
            assertM (ret =? 0) "ret == 0";;
            b ← (if blk_count_found r =? 0 then dcache_alloc_add (i_inum ip) offset None 0
                 else
                   match bh_submit_read_sync_IO unit fresh (mkBh 1 (block_no r) g_block_size_bytes 0) (ds_devs s) with
                   | Ok data => dcache_alloc_add (i_inum ip) offset (Some data) (block_no r)
                   | Panic w => panic w | Fault w => fault w | NoFuel => nofuel
                   end);
            mret (dirent_array b)
        | Panic w => panic w | Fault w => fault w | NoFuel => nofuel
        end
  end.

(** [get_dirent] and the copy of [dir_get_entry]: the entry starts inside
    the block, and its name must end there. *)
Definition entry_at (a : list Z) (o off : Z) : outcome linux_dirent :=
  if o + 12 + 32 <=? 4096
  then Ok (mkLd (unle (take 8 (drop (Z.to_nat o) a)))
             (u64 (off / sizeof_fs_direntry * sizeof_linux_dirent)) sizeof_linux_dirent
             (take 32 (drop (Z.to_nat (o + 12)) a)))
  else Fault "name behind dirent_array".

Definition dir_get_entry (off : Z) : M dstate (Z * linux_dirent) :=
  a ← get_dirent_block off;
  match entry_at a (off mod g_block_size_bytes) off with
  | Ok e => mret (sizeof_fs_direntry, e)
  | Panic w => panic w | Fault w => fault w | NoFuel => nofuel
  end.

(** [userfs_posix_getdents(fd, buf, nbytes, off)]: neither [nbytes] nor [off]
    is looked at; the lock is not taken.  The result is a [size_t]. *)
Definition userfs_posix_getdents (t : fd_table) (fd : Z) : M dstate (Z * fd_table * option linux_dirent) := λ s,
  with_fd t fd (λ i sl,
    let f := s_file sl in
    if f_ref f =? 0 then Ok ((u64 (- EBADF), t, None), s)
    else if negb (f_type f =? FD_DIR) then Ok ((u64 (- EBADF), t, None), s)
    else if i_size (ds_ip s) <=? f_off f then Ok ((0, t, None), s)
    else
      '((bytes, e), s) ← dir_get_entry (f_off f) s;
      Ok ((sizeof_linux_dirent, <[i := set_file (set_off (u64 (f_off f + bytes)) f) sl]> t, Some e), s)).

(** What a caller gets until nothing is left. *)
Fixpoint list_dir (t : fd_table) (fd : Z) (fuel : nat) : M dstate (list linux_dirent) :=
  match fuel with
  | O => nofuel
  | S fuel =>
      '(r, t, e) ← userfs_posix_getdents t fd;
      match e with
      | None => mret []
      | Some e => es ← list_dir t fd fuel; mret (e :: es)
      end
  end.
End getdents.

(** ** Listing *)

Lemma bmap_keeps fetch m ip r ret ip' r' :
  bmap fetch m ip r = Ok (ret, ip', r') →
  i_inum ip' = i_inum ip ∧ i_itype ip' = i_itype ip ∧ i_size ip' = i_size ip.
Proof.
  unfold bmap, mbind, outcome_bind. intros H. repeat (case_match; simplify_eq; try done).
Qed.

(** The record at [48 * i] of the block at [a], as it is returned. *)
Definition record_at (m : memory) (a : Z) (i : nat) : linux_dirent :=
  mkLd (unle (load m (a + 48 * Z.of_nat i) 8)) (264 * Z.of_nat i) 264 (load m (a + 48 * Z.of_nat i + 12) 32).

Lemma load_sub m a n o l : (o + l ≤ n)%nat → take l (drop o (load m a n)) = load m (a + Z.of_nat o) l.
Proof.
  intros H. apply list_eq. intros i. unfold load. rewrite list_lookup_fmap.
  destruct (decide (i < l)%nat).
  - rewrite lookup_take_lt, lookup_drop, list_lookup_fmap, !lookup_seq_lt by lia. simpl. do 2 f_equal. lia.
  - rewrite lookup_take_ge, lookup_seq_ge by lia. done.
Qed.

Lemma entry_record m a i : (i < 85)%nat →
  entry_at (load m a 4096) (48 * Z.of_nat i) (48 * Z.of_nat i) = Ok (record_at m a i).
Proof.
  intros Hi. unfold entry_at, record_at, sizeof_fs_direntry, sizeof_linux_dirent.
  rewrite (proj2 (Z.leb_le _ _)) by lia. rewrite !load_sub by lia.
  replace (48 * Z.of_nat i / 48) with (Z.of_nat i) by (symmetry; rewrite Z.mul_comm; by apply Z.div_mul).
  rewrite u64_small by lia. rewrite !Z2Nat.id by lia. f_equal. f_equal; [lia|]. f_equal. lia.
Qed.

(** A descriptor that is open on a directory, at record [i]. *)
Definition at_record (t : fd_table) (k i : nat) : Prop :=
  ∃ sl, t !! k = Some sl ∧ f_ref (s_file sl) ≠ 0 ∧ f_type (s_file sl) = FD_DIR ∧ f_off (s_file sl) = 48 * Z.of_nat i.

Section listing.
Context (fetch : Z → option tmpinode) (unit : Z) (fresh : list Z) (dinode_flags : Z).

(** One call, given the block. *)
Lemma getdents_step t k i n s s' m a :
  at_record t k i → i_size (ds_ip s) = 48 * Z.of_nat n → (i < n ≤ 85)%nat →
  get_dirent_block fetch unit fresh dinode_flags (48 * Z.of_nat i) s = Ok (load m a 4096, s') →
  ∃ t', userfs_posix_getdents fetch unit fresh dinode_flags t (Z.of_nat k + g_fd_start) s
          = Ok ((264, t', Some (record_at m a i)), s') ∧ at_record t' k (S i).
Proof.
  intros (sl & Hk & Hr & Hty & Ho) Hsz Hi Hg. unfold userfs_posix_getdents.
  unfold with_fd. replace (Z.of_nat k + g_fd_start - g_fd_start) with (Z.of_nat k) by lia.
  destruct (Z.ltb_spec (Z.of_nat k) 0); [lia|]. rewrite Nat2Z.id, Hk.
  rewrite (proj2 (Z.eqb_neq _ _) Hr), Hty. cbn [negb Z.eqb FD_DIR Pos.eqb]. rewrite Hsz, Ho.
  destruct (Z.leb_spec (48 * Z.of_nat n) (48 * Z.of_nat i)); [lia|].
  unfold dir_get_entry. unfold_M. rewrite Hg. change g_block_size_bytes with 4096.
  rewrite Z.mod_small, entry_record by lia. unfold mbind, outcome_bind. cbn.
  unfold sizeof_fs_direntry. rewrite u64_small by lia. eexists. split; [done|].
  eexists. rewrite list_lookup_insert_eq by (by eapply lookup_lt_Some).
  split_and!; [done|done|done|]. cbn. lia.
Qed.

(** A directory whose first block is in the cache. *)
Record dir_cached (s : dstate) (n : nat) (m : memory) (a : Z) : Prop := {
  dc_type : i_itype (ds_ip s) = T_DIR;
  dc_size : i_size (ds_ip s) = 48 * Z.of_nat n;
  dc_block : ∃ b, dcache_find (i_inum (ds_ip s)) 0 (dirent_hash s) = Some b ∧ dirent_array b = load m a 4096
}.

Lemma first_block inum off h : 0 ≤ off < 4096 → dcache_find inum off h = dcache_find inum 0 h.
Proof.
  intros Ho. unfold dcache_find. change g_block_size_shift with 12.
  replace (shr64 off 12) with (shr64 0 12); [done|].
  rewrite !shr64_div by lia. symmetry. rewrite Z.div_small by (change (2 ^ 12) with 4096; lia). done.
Qed.

Lemma cached_block s n m a i :
  dir_cached s n m a → (i < 85)%nat →
  get_dirent_block fetch unit fresh dinode_flags (48 * Z.of_nat i) s = Ok (load m a 4096, s).
Proof.
  intros [Hty Hsz (b & Hb & Ha)] Hi. unfold get_dirent_block. unfold_M. rewrite Hty. cbn [Z.eqb T_DIR Pos.eqb].
  by rewrite first_block, Hb, Ha by lia.
Qed.

Lemma list_cached k n m a s : dir_cached s n m a → (n ≤ 85)%nat → ∀ j i t,
  at_record t k i → (i + j = n)%nat →
  list_dir fetch unit fresh dinode_flags t (Z.of_nat k + g_fd_start) (S j) s
    = Ok (record_at m a <$> seq i j, s).
Proof.
  intros Hs Hn j. induction j as [|j IH]; intros i t Ht Hi.
  - cbn [list_dir]. destruct Ht as (sl & Hk & Hr & Hty & Ho).
    unfold userfs_posix_getdents, with_fd. unfold_M.
    replace (Z.of_nat k + g_fd_start - g_fd_start) with (Z.of_nat k) by lia.
    destruct (Z.ltb_spec (Z.of_nat k) 0); [lia|]. rewrite Nat2Z.id, Hk.
    rewrite (proj2 (Z.eqb_neq _ _) Hr), Hty. cbn [negb Z.eqb FD_DIR Pos.eqb].
    rewrite (dc_size _ _ _ _ Hs), Ho. destruct (Z.leb_spec (48 * Z.of_nat n) (48 * Z.of_nat i)); [done|lia].
  - destruct (getdents_step t k i n s s m a Ht (dc_size _ _ _ _ Hs) ltac:(lia)) as (t' & E & Ht');
      [apply (cached_block s n); [done|lia]|].
    cbn [list_dir]. unfold_M. rewrite E. specialize (IH (S i) t' Ht' ltac:(lia)). cbn [list_dir] in IH.
    revert IH. unfold_M. intros ->. done.
Qed.

(** The block of a directory that [bmap] finds in persistent memory. *)
Lemma loaded_block s n ip' r :
  i_itype (ds_ip s) = T_DIR → i_size (ds_ip s) = 48 * Z.of_nat n → (0 < n)%nat →
  dcache_find (i_inum (ds_ip s)) 0 (dirent_hash s) = None →
  bmap fetch (ds_devs s g_root_dev) (ds_ip s) (mkReq 0 0 0 g_root_dev) = Ok (0, ip', r) →
  blk_count_found r ≠ 0 → 0 ≤ block_no r < 2 ^ 50 →
  ∃ s', get_dirent_block fetch unit fresh dinode_flags 0 s
          = Ok (load (ds_devs s 1) (block_no r * 4096) 4096, s')
    ∧ dir_cached s' n (ds_devs s 1) (block_no r * 4096).
Proof.
  intros Hty Hsz Hn Hno Hb Hc Hr. destruct (bmap_keeps _ _ _ _ _ _ _ Hb) as (E1 & E2 & E3).
  unfold get_dirent_block. unfold_M. rewrite Hty. cbn [Z.eqb T_DIR Pos.eqb]. rewrite Hno, Hsz.
  destruct (Z.eqb_spec (48 * Z.of_nat n) 0); [lia|]. rewrite Hb. cbn [Z.eqb].
  rewrite (proj2 (Z.eqb_neq _ _) Hc).
  rewrite (bh_read_spec unit fresh) by (split; [exact Hr|]; split; [done|]; split; [done|by left]).
  unfold dcache_alloc_add. unfold_M. unfold bh_addr. cbn [dirent_array default b_blocknr b_offset b_dev b_size].
  rewrite Z.add_0_r. change (Z.to_nat g_block_size_bytes) with 4096%nat. eexists. split; [done|].
  split; cbn [ds_ip dirent_hash]; [by rewrite E2|by rewrite E3|].
  eexists. unfold dcache_find. cbn [list_find]. rewrite decide_True by done. done.
Qed.

(** Repeated calls of [userfs_posix_getdents] on a directory whose first block
    [bmap] finds return the inode number and the name at every multiple of 48
    bytes of the block, up to the size of the directory, and then nothing. *)
Theorem getdents_lists t k n s ip' r :
  i_itype (ds_ip s) = T_DIR → i_size (ds_ip s) = 48 * Z.of_nat n → (0 < n ≤ 85)%nat → at_record t k 0 →
  dcache_find (i_inum (ds_ip s)) 0 (dirent_hash s) = None →
  bmap fetch (ds_devs s g_root_dev) (ds_ip s) (mkReq 0 0 0 g_root_dev) = Ok (0, ip', r) →
  blk_count_found r ≠ 0 → 0 ≤ block_no r < 2 ^ 50 →
  ∃ s', list_dir fetch unit fresh dinode_flags t (Z.of_nat k + g_fd_start) (S n) s
    = Ok (record_at (ds_devs s 1) (block_no r * 4096) <$> seq 0 n, s').
Proof.
  intros Hty Hsz Hn Ht Hno Hb Hc Hr.
  destruct (loaded_block s n ip' r) as (s' & Eg & Hs'); [done..|lia|done|done|done|done|].
  destruct n as [|n]; [lia|].
  destruct (getdents_step t k 0 (S n) s s' _ _ Ht Hsz ltac:(lia) Eg) as (t' & E & Ht').
  pose proof (list_cached k (S n) _ _ s' Hs' ltac:(lia) n 1 t' Ht' ltac:(lia)) as El.
  exists s'. remember (S n) as n1. cbn [list_dir]. unfold_M. rewrite E. subst n1. rewrite El. done.
Qed.

(** A directory of which nothing is on disk yet, as [mkdir] and creation
    leave it: the assertion on the result of [bmap] fails. *)
Theorem getdents_new_dir_panics t k s :
  i_itype (ds_ip s) = T_DIR → 0 < i_size (ds_ip s) → i_ksize (ds_ip s) = 0 → at_record t k 0 →
  dcache_find (i_inum (ds_ip s)) 0 (dirent_hash s) = None →
  userfs_posix_getdents fetch unit fresh dinode_flags t (Z.of_nat k + g_fd_start) s = Panic "ret == 0".
Proof.
  intros Hty Hsz Hks (sl & Hk & Hr & Hft & Ho) Hno. unfold userfs_posix_getdents, with_fd.
  replace (Z.of_nat k + g_fd_start - g_fd_start) with (Z.of_nat k) by lia.
  destruct (Z.ltb_spec (Z.of_nat k) 0); [lia|]. rewrite Nat2Z.id, Hk.
  rewrite (proj2 (Z.eqb_neq _ _) Hr), Hft. cbn [negb Z.eqb FD_DIR Pos.eqb]. rewrite Ho.
  destruct (Z.leb_spec (i_size (ds_ip s)) (48 * Z.of_nat 0)); [lia|].
  unfold dir_get_entry, get_dirent_block. unfold_M. rewrite Hty. cbn [Z.eqb T_DIR Pos.eqb].
  change (48 * Z.of_nat 0) with 0. rewrite Hno.
  destruct (Z.eqb_spec (i_size (ds_ip s)) 0); [lia|]. unfold bmap. by rewrite Hks.
Qed.
End listing.

(** ** Witnesses *)

(** The entry of block 0 in the leaf at 4096 leads to block 2, where two
    records are. *)
Definition dir_mem : memory :=
  store 8240 (le 8 300) (store 8192 (le 8 200) (store 4096 (le 8 8192) (λ _, 4096))).
Definition dir_fd : fd_table := [mkSlot (mkFile FD_DIR 1 0 true false 0) 9 false].
Definition dir_inode (size ksize : Z) : inode :=
  mkInode 9 T_DIR 2 size ksize I_VALID 1 0 4096 (mkCur 0 0 0 0 0 0 0 0 0) RB_ROOT (Some ∅) 0.
Definition dir_state (size ksize : Z) : dstate := mkDs (dir_inode size ksize) [] (λ _, dir_mem).

Lemma getdents_lists_witness :
  ∃ es s', list_dir (λ _, None) 512 [] 0 dir_fd (0 + g_fd_start) 3 (dir_state 96 96) = Ok (es, s')
    ∧ ld_ino <$> es = [200; 300].
Proof.
  assert (P : match bmap (λ _, None) (ds_devs (dir_state 96 96) g_root_dev) (ds_ip (dir_state 96 96)) (mkReq 0 0 0 g_root_dev) with
              | Ok (ret, _, r) => Some (ret, blk_count_found r, block_no r)
              | _ => None
              end = Some (0, 1, 2)) by (vm_compute; reflexivity).
  destruct (bmap (λ _, None) (ds_devs (dir_state 96 96) g_root_dev) (ds_ip (dir_state 96 96)) (mkReq 0 0 0 g_root_dev)) as [[[ret ip'] r]| | |] eqn:E;
    [|discriminate P..].
  injection P as -> Hc Hb.
  destruct (getdents_lists (λ _, None) 512 [] 0 dir_fd 0 2 (dir_state 96 96) ip' r) as (s' & Es);
    [reflexivity|reflexivity|lia| |reflexivity|exact E|by rewrite Hc|rewrite Hb; lia|].
  { exists (mkSlot (mkFile FD_DIR 1 0 true false 0) 9 false).
    split; [reflexivity|]. split; [discriminate|]. split; reflexivity. }
  rewrite Hb in Es. eexists _, s'. split; [exact Es|]. vm_compute. reflexivity.
Defined.

Lemma getdents_new_dir_panics_witness :
  userfs_posix_getdents (λ _, None) 512 [] 0 dir_fd (0 + g_fd_start) (dir_state 28 0) = Panic "ret == 0".
Proof.
  apply (getdents_new_dir_panics (λ _, None) 512 [] 0 dir_fd 0 (dir_state 28 0)); try done.
  exists (mkSlot (mkFile FD_DIR 1 0 true false 0) 9 false). done.
Defined.
