(* ===== verification/ArtNode.v ===== *)
(** * ArtNode: the inner nodes of the adaptive radix tree

    [ds/art.c] keeps the entries of a directory in an adaptive radix tree.
    This file models its inner nodes, which come in four sizes: [NODE4] and
    [NODE16] hold parallel arrays of key bytes and children, [NODE48] an
    array of 256 indices into 48 children, [NODE256] 256 children.  The child
    pointers are of an arbitrary type here.  [pairs] is what a node means, a
    list of bytes with their children in the order the traversals visit them;
    the lemmas say what finding, adding and removing a child does to it,
    growth and shrinking of the node included. *)
From Stdlib Require Import ZArith Lia.
From stdpp Require Import base numbers list gmap strings sorting.
From S2P Require Import Prelude Bitmap.

(** ** Arrays: element access and [memmove] / [memcpy], with their bounds *)
Definition aget {A} (l : list A) (i : nat) : outcome A :=
  match l !! i with Some x => Ok x | None => Fault "read outside an array" end.
Definition aset {A} (l : list A) (i : nat) (x : A) : outcome (list A) :=
  if (i <? length l)%nat then Ok (<[i := x]> l) else Fault "write outside an array".

(** [memcpy(dst + d, src + s, n)]; with [dst] and [src] the same array it is
    [memmove], since the source is read before anything is written. *)
Definition copy {A} (dst : list A) (d : nat) (src : list A) (s n : nat) : outcome (list A) :=
  if ((d + n <=? length dst) && (s + n <=? length src))%nat
  then Ok (take d dst ++ take n (drop s src) ++ drop (d + n) dst)
  else Fault "copy outside an array".

(** The index of the first element with [p], the length when there is none:
    the loops that scan an array up to a condition. *)
Fixpoint index_where {A} (p : A → bool) (l : list A) : nat :=
  match l with
  | [] => 0
  | x :: l => if p x then 0 else S (index_where p l)
  end.

(** A null pointer. *)
Definition is_null {A} (o : option A) : bool := match o with None => true | _ => false end.

(** ** Nodes *)
Definition MAX_PREFIX_LEN : nat := 16.
#[global] Arguments MAX_PREFIX_LEN : simpl never.

Inductive node_type : Type := NODE4 | NODE16 | NODE48 | NODE256.
#[export] Instance node_type_eq : EqDecision node_type.
Proof. solve_decision. Defined.

Record art_inner (A : Type) : Type := Inner {
  n_type : node_type;
  num_children : Z;
  partial_len : nat;
  partial : list Z;
  n_keys : list Z;
  children : list (option A) }.
Arguments Inner {A} _ _ _ _ _ _.
Arguments n_type {A} _.
Arguments num_children {A} _.
Arguments partial_len {A} _.
Arguments partial {A} _.
Arguments n_keys {A} _.
Arguments children {A} _.

Definition keys_len (t : node_type) : nat :=
  match t with NODE4 => 4 | NODE16 => 16 | NODE48 => 256 | NODE256 => 0 end.
Definition children_len (t : node_type) : nat :=
  match t with NODE4 => 4 | NODE16 => 16 | NODE48 => 48 | NODE256 => 256 end.

Section node.
Context {A : Type}.
Implicit Types (n : art_inner A) (c : Z) (x : A).

Definition alloc_node (t : node_type) : art_inner A :=
  {| n_type := t; num_children := 0; partial_len := 0;
     partial := replicate MAX_PREFIX_LEN 0;
     n_keys := replicate (keys_len t) 0; children := replicate (children_len t) None |}.

(** [n] with other arrays and another number of children. *)
Definition with_arrays n (num : Z) (ks : list Z) (ch : list (option A)) : art_inner A :=
  {| n_type := n_type n; num_children := num; partial_len := partial_len n;
     partial := partial n; n_keys := ks; children := ch |}.

Definition num n : nat := Z.to_nat (num_children n).

(** *** The 16-byte vector comparisons

    [_mm_movemask_epi8] collects the outcome of a comparison of each byte in
    one bit; [_mm_cmplt_epi8] compares bytes as signed. *)
Fixpoint movemask (bs : list bool) : Z :=
  match bs with [] => 0 | b :: bs => Z.b2z b + 2 * movemask bs end.
Definition schar (b : Z) : Z := if b <? 128 then b else b - 256.
Definition cmpeq_epi8 c (ks : list Z) : list bool := (λ k, c =? k) <$> ks.
Definition cmplt_epi8 c (ks : list Z) : list bool := (λ k, schar c <? schar k) <$> ks.
Definition ctz (w : Z) : nat := Z.to_nat (scan_bit w 0 32).
Definition low_mask (k : nat) : Z := Z.shiftl 1 (Z.of_nat k) - 1.

(** The slot of the child for byte [c]. *)
Definition find_child n c : option nat :=
  match n_type n with
  | NODE4 =>
      let i := index_where (λ k, c =? k) (take (num n) (n_keys n)) in
      if (i <? num n)%nat then Some i else None
  | NODE16 =>
      let bitfield := Z.land (movemask (cmpeq_epi8 c (n_keys n))) (low_mask (num n)) in
      if bitfield =? 0 then None else Some (ctz bitfield)
  | NODE48 =>
      let i := n_keys n !!! Z.to_nat c in
      if i =? 0 then None else Some (Z.to_nat (i - 1))
  | NODE256 =>
      match children n !! Z.to_nat c with
      | Some (Some _) => Some (Z.to_nat c)
      | _ => None
      end
  end.

(** *** Adding a child *)
Definition copy_header (dest src : art_inner A) : outcome (art_inner A) :=
  p ← copy (partial dest) 0 (partial src) 0 (MAX_PREFIX_LEN `min` partial_len src);
  Ok {| n_type := n_type dest; num_children := num_children src;
        partial_len := partial_len src; partial := p;
        n_keys := n_keys dest; children := children dest |}.

Definition add_child256 n c x : outcome (art_inner A) :=
  ch ← aset (children n) (Z.to_nat c) (Some x);
  Ok (with_arrays n (u8 (num_children n + 1)) (n_keys n) ch).

(** The children of the [NODE256] that replaces a full [NODE48]. *)
Definition spread48 n : outcome (list (option A)) :=
  mapM (λ k, if k =? 0 then Ok None else aget (children n) (Z.to_nat (k - 1))) (n_keys n).

(** The [NODE256] that takes the place of a full [NODE48]. *)
Definition grow48 n : outcome (art_inner A) :=
  ch ← spread48 n;
  copy_header (with_arrays (alloc_node NODE256) 0 [] ch) n.

Definition add_child48 n c x : outcome (art_inner A) :=
  if num_children n <? 48 then
    let pos := index_where is_null (children n) in
    ch ← aset (children n) pos (Some x);
    ks ← aset (n_keys n) (Z.to_nat c) (u8 (Z.of_nat pos + 1));
    Ok (with_arrays n (u8 (num_children n + 1)) ks ch)
  else new ← grow48 n; add_child256 new c x.


(** Shift the entries from [idx] on by one place and put [(c, x)] there. *)
Definition put_at n (idx : nat) c x : outcome (art_inner A) :=
  ks ← copy (n_keys n) (idx + 1) (n_keys n) idx (num n - idx);
  ch ← copy (children n) (idx + 1) (children n) idx (num n - idx);
  ks ← aset ks idx c;
  ch ← aset ch idx (Some x);
  Ok (with_arrays n (u8 (num_children n + 1)) ks ch).

(** The index array of the [NODE48] that replaces a full [NODE16]. *)
Fixpoint index48 (ks : list Z) (i : Z) (idx : list Z) : outcome (list Z) :=
  match ks with
  | [] => Ok idx
  | k :: ks => idx ← aset idx (Z.to_nat k) (i + 1); index48 ks (i + 1) idx
  end.

(** The [NODE48] that takes the place of a full [NODE16]. *)
Definition grow16 n : outcome (art_inner A) :=
  let new := alloc_node NODE48 in
  ch ← copy (children new) 0 (children n) 0 (num n);
  ks ← index48 (take (num n) (n_keys n)) 0 (n_keys new);
  copy_header (with_arrays new 0 ks ch) n.

Definition add_child16 n c x : outcome (art_inner A) :=
  if num_children n <? 16 then
    let bitfield := Z.land (movemask (cmplt_epi8 c (n_keys n))) (low_mask (num n)) in
    if bitfield =? 0 then
      ks ← aset (n_keys n) (num n) c;
      ch ← aset (children n) (num n) (Some x);
      Ok (with_arrays n (u8 (num_children n + 1)) ks ch)
    else put_at n (ctz bitfield) c x
  else new ← grow16 n; add_child48 new c x.

(** The [NODE16] that takes the place of a full [NODE4]. *)
Definition grow4 n : outcome (art_inner A) :=
  let new := alloc_node NODE16 in
  ch ← copy (children new) 0 (children n) 0 (num n);
  ks ← copy (n_keys new) 0 (n_keys n) 0 (num n);
  copy_header (with_arrays new 0 ks ch) n.

Definition add_child4 n c x : outcome (art_inner A) :=
  if num_children n <? 4 then
    put_at n (index_where (λ k, c <? k) (take (num n) (n_keys n))) c x
  else new ← grow4 n; add_child16 new c x.

Definition add_child n c x : outcome (art_inner A) :=
  match n_type n with
  | NODE4 => add_child4 n c x
  | NODE16 => add_child16 n c x
  | NODE48 => add_child48 n c x
  | NODE256 => add_child256 n c x
  end.

(** *** Removing a child *)

(** The arrays of the [NODE48] that replaces a thinned [NODE256]. *)
Fixpoint gather48 (cs : list (option A)) (i pos : nat) (ks : list Z) (ch : list (option A))
    : outcome (list Z * list (option A)) :=
  match cs with
  | [] => Ok (ks, ch)
  | None :: cs => gather48 cs (S i) pos ks ch
  | Some x :: cs =>
      ch ← aset ch pos (Some x);
      ks ← aset ks i (u8 (Z.of_nat pos + 1));
      gather48 cs (S i) (S pos) ks ch
  end.

Definition shrink256 n : outcome (art_inner A) :=
  new ← copy_header (alloc_node NODE48) n;
  a ← gather48 (children n) 0 0 (n_keys new) (children new);
  Ok (with_arrays new (num_children new) a.1 a.2).

Definition remove_child256 n c : outcome (art_inner A) :=
  ch ← aset (children n) (Z.to_nat c) None;
  let n := with_arrays n (u8 (num_children n - 1)) (n_keys n) ch in
  if num_children n =? 37 then shrink256 n else Ok n.

(** The arrays of the [NODE16] that replaces a thinned [NODE48]. *)
Fixpoint gather16 (old : list (option A)) (idx : list Z) (i : Z) (child : nat) (ks : list Z)
    (ch : list (option A)) : outcome (list Z * list (option A)) :=
  match idx with
  | [] => Ok (ks, ch)
  | pos :: idx =>
      if pos =? 0 then gather16 old idx (i + 1) child ks ch
      else
        ks ← aset ks child i;
        x ← aget old (Z.to_nat (pos - 1));
        ch ← aset ch child x;
        gather16 old idx (i + 1) (S child) ks ch
  end.

Definition shrink48 n : outcome (art_inner A) :=
  new ← copy_header (alloc_node NODE16) n;
  a ← gather16 (children n) (n_keys n) 0 0 (n_keys new) (children new);
  Ok (with_arrays new (num_children new) a.1 a.2).

Definition remove_child48 n c : outcome (art_inner A) :=
  pos ← aget (n_keys n) (Z.to_nat c);
  ks ← aset (n_keys n) (Z.to_nat c) 0;
  ch ← (if pos =? 0 then Fault "write outside an array"
        else aset (children n) (Z.to_nat (pos - 1)) None);
  let n := with_arrays n (u8 (num_children n - 1)) ks ch in
  if num_children n =? 12 then shrink48 n else Ok n.

(** Close the gap at slot [pos]: the common part of [remove_child16] and
    [remove_child4]. *)
Definition take_out n (pos : nat) : outcome (art_inner A) :=
  ks ← copy (n_keys n) pos (n_keys n) (pos + 1) (num n - 1 - pos);
  ch ← copy (children n) pos (children n) (pos + 1) (num n - 1 - pos);
  Ok (with_arrays n (u8 (num_children n - 1)) ks ch).

Definition shrink16 n : outcome (art_inner A) :=
  new ← copy_header (alloc_node NODE4) n;
  ks ← copy (n_keys new) 0 (n_keys n) 0 4;
  ch ← copy (children new) 0 (children n) 0 4;
  Ok (with_arrays new (num_children new) ks ch).

Definition remove_child16 n (pos : nat) : outcome (art_inner A) :=
  n ← take_out n pos;
  if num_children n =? 3 then shrink16 n else Ok n.

End node.

(** ** The contents of a node *)
Definition is_byte (c : Z) : Prop := 0 ≤ c < 256.

(** The elements [f i x] that exist, in the order of the list. *)
Fixpoint ilist {B C} (f : nat → B → option C) (i : nat) (l : list B) : list C :=
  match l with
  | [] => []
  | x :: l => match f i x with Some y => y :: ilist f (S i) l | None => ilist f (S i) l end
  end.

Fixpoint pair_up {A} (ks : list Z) (ch : list (option A)) : list (Z * A) :=
  match ks, ch with
  | k :: ks, Some x :: ch => (k, x) :: pair_up ks ch
  | _, _ => []
  end.

Definition slot48 {A} (ch : list (option A)) (i : nat) (k : Z) : option (Z * A) :=
  if k =? 0 then None else pair (Z.of_nat i) <$> mjoin (ch !! Z.to_nat (k - 1)).
Definition slot256 {A} (i : nat) (o : option A) : option (Z * A) := pair (Z.of_nat i) <$> o.

(** The bytes of a node with their children, in the order of the loops of
    [recursive_iter]. *)
Definition pairs {A} (n : art_inner A) : list (Z * A) :=
  match n_type n with
  | NODE4 | NODE16 => pair_up (take (num n) (n_keys n)) (take (num n) (children n))
  | NODE48 => ilist (slot48 (children n)) 0 (n_keys n)
  | NODE256 => ilist slot256 0 (children n)
  end.

(** The invariant of the arrays, by the size of the node. *)
Record arr_rep {A} (n : art_inner A) (ps : list (Z * A)) : Prop := {
  ar_keys : ps.*1 `prefix_of` n_keys n;
  ar_children : (Some <$> ps.*2) `prefix_of` children n;
  ar_num : num_children n = Z.of_nat (length ps);
  ar_nodup : NoDup ps.*1;
  ar_bytes : Forall is_byte ps.*1 }.

Record rep48 {A} (n : art_inner A) : Prop := {
  r48_keys : ∀ c k, n_keys n !! c = Some k →
    k = 0 ∨ 0 < k ≤ 48 ∧ ∃ x, children n !! Z.to_nat (k - 1) = Some (Some x);
  r48_inj : ∀ c c' k, k ≠ 0 → n_keys n !! c = Some k → n_keys n !! c' = Some k → c = c';
  r48_used : num_children n = Z.of_nat (length (omap id (children n)));
  r48_num : num_children n = Z.of_nat (length (pairs n)) }.

Record node_ok {A} (n : art_inner A) : Prop := {
  no_partial : length (partial n) = MAX_PREFIX_LEN;
  no_keys : length (n_keys n) = keys_len (n_type n);
  no_children : length (children n) = children_len (n_type n);
  no_rep : match n_type n with
    | NODE4 | NODE16 => arr_rep n (pairs n)
    | NODE48 => rep48 n
    | NODE256 => num_children n = u8 (Z.of_nat (length (pairs n)))
    end }.

(** How many children a node of each size holds between operations. *)
Definition occupancy {A} (n : art_inner A) : Prop :=
  (match n_type n with
   | NODE4 => 2 ≤ length (pairs n) ≤ 4
   | NODE16 => 4 ≤ length (pairs n) ≤ 16
   | NODE48 => 13 ≤ length (pairs n) ≤ 48
   | NODE256 => 38 ≤ length (pairs n) ≤ 256
   end)%nat.

(** The compressed path of a node: what [memcpy] of the header keeps. *)
Definition same_path {A B} (n : art_inner A) (n' : art_inner B) : Prop :=
  partial_len n' = partial_len n ∧
  take (MAX_PREFIX_LEN `min` partial_len n) (partial n') =
  take (MAX_PREFIX_LEN `min` partial_len n) (partial n).

(** ** Lemmas on arrays *)
Section array_lemmas.
Context {B C : Type}.
Implicit Types (l r : list B).

Lemma aget_ok l i x : l !! i = Some x → aget l i = Ok x.
Proof. unfold aget. by intros ->. Qed.

Lemma aset_ok l i x : (i < length l)%nat → aset l i x = Ok (<[i := x]> l).
Proof. intros H. unfold aset. by rewrite (proj2 (Nat.ltb_lt _ _) H). Qed.

Lemma copy_ok l d r s k : (d + k ≤ length l)%nat → (s + k ≤ length r)%nat →
  copy l d r s k = Ok (take d l ++ take k (drop s r) ++ drop (d + k) l).
Proof.
  intros H1 H2. unfold copy.
  by rewrite (proj2 (Nat.leb_le _ _) H1), (proj2 (Nat.leb_le _ _) H2).
Qed.

(** Copying the front of one array over the front of another. *)
Lemma copy_front l r k : (k ≤ length l)%nat → (k ≤ length r)%nat →
  copy l 0 r 0 k = Ok (take k r ++ drop k l).
Proof. intros. rewrite copy_ok by lia. done. Qed.

Lemma copy_none l d s : (d ≤ length l)%nat → (s ≤ length l)%nat → copy l d l s 0 = Ok l.
Proof. intros. rewrite copy_ok, Nat.add_0_r by lia. by rewrite take_0, app_nil_l, take_drop. Qed.

(** Shifting [l] from [idx] on and writing [b] there. *)
Lemma shift_put l r b idx : (idx ≤ length l)%nat → r ≠ [] →
  ∃ a, copy (l ++ r) (idx + 1) (l ++ r) idx (length l - idx) = Ok a ∧
    aset a idx b = Ok ((take idx l ++ b :: drop idx l) ++ tail r).
Proof.
  intros Hi Hr. destruct r as [|y r]; [done|]. clear Hr.
  assert (Hl : length (l ++ y :: r) = (length l + S (length r))%nat) by (by rewrite length_app).
  eexists. split; [apply copy_ok; lia|].
  rewrite (drop_app_le l) by lia. rewrite (take_app_length' (drop idx l)) by (by rewrite length_drop).
  replace (idx + 1 + (length l - idx))%nat with (S (length l)) by lia.
  rewrite (drop_app_ge l) by lia. replace (S (length l) - length l)%nat with 1%nat by lia.
  cbn [drop tail].
  assert (Ht : length (take (idx + 1) (l ++ y :: r)) = S idx) by (rewrite length_take; lia).
  rewrite aset_ok by (rewrite length_app; lia). f_equal.
  rewrite insert_app_l by lia.
  replace (idx + 1)%nat with (S idx) in * by lia.
  destruct (lookup_lt_is_Some_2 (l ++ y :: r) idx) as [z Hz]; [lia|].
  rewrite (take_S_r _ _ _ Hz), (take_app_le l) by lia.
  rewrite insert_app_r_alt by (rewrite length_take; lia).
  rewrite length_take, Nat.min_l, Nat.sub_diag by lia. cbn.
  by rewrite <- !app_assoc.
Qed.

(** Closing the gap at [pos]. *)
Lemma close_gap l r pos : (pos < length l)%nat →
  ∃ r', copy (l ++ r) pos (l ++ r) (pos + 1) (length l - 1 - pos)
          = Ok ((take pos l ++ drop (S pos) l) ++ r') ∧ length r' = S (length r).
Proof.
  intros Hp. assert (Hl : length (l ++ r) = (length l + length r)%nat) by (by rewrite length_app).
  rewrite copy_ok by lia.
  exists (drop (length l - 1) (l ++ r)). split.
  - f_equal. rewrite (take_app_le l) by lia. rewrite <- !app_assoc. f_equal.
    rewrite (drop_app_le l) by lia. rewrite take_app_length' by (rewrite length_drop; lia).
    replace (pos + 1)%nat with (S pos) by lia. f_equal. f_equal. lia.
  - rewrite length_drop. lia.
Qed.

Lemma index_where_spec (p : B → bool) l :
  (index_where p l ≤ length l)%nat ∧
  (∀ j x, (j < index_where p l)%nat → l !! j = Some x → p x = false) ∧
  (∀ x, l !! index_where p l = Some x → p x = true).
Proof.
  induction l as [|y l (IH1 & IH2 & IH3)]; cbn; [naive_solver lia|].
  destruct (p y) eqn:E; cbn; [naive_solver lia|].
  split_and!; [lia| |done]. intros [|j] x Hj; cbn; [congruence|]. apply IH2. lia.
Qed.

Lemma ilist_app (f : nat → B → option C) i l r :
  ilist f i (l ++ r) = ilist f i l ++ ilist f (i + length l) r.
Proof.
  revert i. induction l as [|x l IH]; intros i; cbn.
  { by rewrite Nat.add_0_r. }
  rewrite IH. replace (S i + length l)%nat with (i + S (length l))%nat by lia.
  by destruct (f i x).
Qed.

Lemma ilist_ext (f g : nat → B → option C) i l :
  (∀ j x, l !! j = Some x → f (i + j)%nat x = g (i + j)%nat x) → ilist f i l = ilist g i l.
Proof.
  revert i. induction l as [|x l IH]; intros i H; cbn; [done|].
  pose proof (H 0%nat x eq_refl) as H0. rewrite Nat.add_0_r in H0. rewrite H0.
  rewrite (IH (S i)); [done|]. intros j y Hj.
  replace (S i + j)%nat with (i + S j)%nat by lia. by apply H.
Qed.

(** An update at [j], with functions that agree elsewhere, replaces one
    element of the list at a fixed place. *)
Lemma ilist_update (f : nat → B → option C) l j : (j < length l)%nat →
  ∃ L R, ∀ g y, (∀ i x, i ≠ j → l !! i = Some x → g i x = f i x) →
    ilist g 0 (<[j := y]> l) = L ++ option_list (g j y) ++ R.
Proof.
  intros Hj. exists (ilist f 0 (take j l)), (ilist f (S j) (drop (S j) l)).
  intros g y Hg. rewrite insert_take_drop by done. rewrite ilist_app, length_take, Nat.min_l by lia.
  cbn [ilist]. rewrite (ilist_ext g f 0 (take j l)), (ilist_ext g f (S (0 + j)) (drop (S j) l)).
  - by destruct (g _ y).
  - intros i x Hi. rewrite lookup_drop in Hi. apply Hg; [lia|done].
  - intros i x Hi. apply lookup_take_Some in Hi as [Hi ?]. apply Hg; [cbn; lia|done].
Qed.

Lemma ilist_elem (f : nat → B → option C) i l y :
  y ∈ ilist f i l ↔ ∃ j x, l !! j = Some x ∧ f (i + j)%nat x = Some y.
Proof.
  revert i. induction l as [|x l IH]; intros i; cbn.
  { split; [set_solver|]. naive_solver. }
  assert (Hc : y ∈ ilist f (S i) l ↔
    ∃ j z, (x :: l) !! S j = Some z ∧ f (i + S j)%nat z = Some y).
  { rewrite IH. cbn. setoid_rewrite (Nat.add_succ_r i). done. }
  assert (Hsplit : (∃ j z, (x :: l) !! j = Some z ∧ f (i + j)%nat z = Some y) ↔
    f i x = Some y ∨ ∃ j z, (x :: l) !! S j = Some z ∧ f (i + S j)%nat z = Some y).
  { split.
    - intros ([|j] & z & Hz & Hf); [|eauto]. rewrite Nat.add_0_r in Hf. naive_solver.
    - intros [Hf|(j & z & ? & ?)]; [|eauto]. exists 0%nat, x. by rewrite Nat.add_0_r. }
  rewrite Hsplit, <- Hc. destruct (f i x) as [w|]; [|naive_solver].
  rewrite elem_of_cons. naive_solver.
Qed.

Lemma ilist_length (f : nat → B → option C) i l : (length (ilist f i l) ≤ length l)%nat.
Proof.
  revert i. induction l as [|x l IH]; intros i; cbn; [done|].
  specialize (IH (S i)). destruct (f i x); cbn; lia.
Qed.

End array_lemmas.

(** Elements tagged with their index come out strictly ordered. *)
Lemma ilist_sorted {B C} (f : nat → B → option (Z * C)) i (l : list B) :
  (∀ j x y, f j x = Some y → y.1 = Z.of_nat j) →
  StronglySorted Z.lt (ilist f i l).*1 ∧ Forall (λ k, Z.of_nat i ≤ k) (ilist f i l).*1.
Proof.
  intros Hf. revert i. induction l as [|x l IH]; intros i; cbn; [split; constructor|].
  destruct (IH (S i)) as [H1 H2].
  assert (Forall (λ k, Z.of_nat i ≤ k) (ilist f (S i) l).*1).
  { eapply Forall_impl; [done|]. cbn. lia. }
  destruct (f i x) as [y|] eqn:E; [|done]. cbn. apply Hf in E. rewrite E. split; constructor; try done; try lia.
  eapply Forall_impl; [exact H2|]. cbn. lia.
Qed.

(** ** The bit fields of [NODE16] are scans *)
Lemma movemask_range bs : 0 ≤ movemask bs < 2 ^ Z.of_nat (length bs).
Proof.
  induction bs as [|b bs IH]; cbn [movemask length]; [lia|].
  rewrite Nat2Z.inj_succ, Z.pow_succ_r by lia. destruct b; cbn [Z.b2z]; lia.
Qed.

Lemma movemask_take bs k : Z.land (movemask bs) (low_mask k) = movemask (take k bs).
Proof.
  unfold low_mask. rewrite Z.shiftl_1_l, land_mask by lia.
  revert k. induction bs as [|b bs IH]; intros k.
  { rewrite take_nil. cbn. by rewrite Z.mod_0_l by (apply Z.pow_nonzero; lia). }
  destruct k as [|k]; [cbn; apply Z.mod_1_r|].
  cbn [movemask take]. rewrite <- IH, Nat2Z.inj_succ, Z.pow_succ_r by lia.
  rewrite Z.rem_mul_r by lia. rewrite (Z.mul_comm 2 (movemask bs)).
  rewrite Z.mod_add, Z.div_add by lia. by destruct b.
Qed.

Lemma scan_bit_double b m i n : 0 ≤ i →
  scan_bit (Z.b2z b + 2 * m) (i + 1) n = scan_bit m i n + 1.
Proof.
  revert i. induction n as [|n IH]; intros i Hi; cbn [scan_bit]; [done|].
  replace (Z.testbit (Z.b2z b + 2 * m) (i + 1)) with (Z.testbit m i).
  2: { rewrite Z.add_comm. symmetry. apply Z.testbit_succ_r. done. }
  case_match; [done|]. apply IH. lia.
Qed.

Lemma scan_bit_movemask bs n : (length bs ≤ n)%nat → movemask bs ≠ 0 →
  scan_bit (movemask bs) 0 n = Z.of_nat (index_where id bs).
Proof.
  revert n. induction bs as [|b bs IH]; intros n Hn Hz; [done|].
  destruct n as [|n]; [cbn in Hn; lia|]. cbn [movemask index_where scan_bit] in *.
  rewrite Z.add_comm, Z.testbit_0_r, Z.add_comm. destruct b; cbn [id]; [done|].
  rewrite scan_bit_double by lia.
  rewrite IH; cbn in *; lia.
Qed.

Lemma movemask_zero bs : movemask bs = 0 ↔ index_where id bs = length bs.
Proof.
  induction bs as [|b bs IH]; cbn; [done|]. destruct b; cbn.
  - pose proof (movemask_range bs). split; lia.
  - rewrite Nat.succ_inj_wd, <- IH. lia.
Qed.

Lemma index_where_fmap {B} (p : B → bool) l : index_where id (p <$> l) = index_where p l.
Proof. induction l as [|x l IH]; cbn; [done|]. by rewrite IH. Qed.

(** The masked bit field of a comparison finds the first of the first [k]
    keys that satisfy it. *)
Lemma bitfield_scan p (ks : list Z) k : (k ≤ length ks ≤ 32)%nat →
  let b := Z.land (movemask (p <$> ks)) (low_mask k) in
  let i := index_where p (take k ks) in
  (b = 0 ↔ i = k) ∧ (b ≠ 0 → ctz b = i).
Proof.
  intros Hk b i. subst b i. rewrite movemask_take, <- fmap_take, <- (index_where_fmap p).
  set (bs := p <$> take k ks).
  assert (Hl : length bs = k) by (unfold bs; rewrite length_fmap, length_take; lia).
  split.
  - rewrite movemask_zero. by rewrite Hl.
  - intros Hb. unfold ctz. rewrite scan_bit_movemask by (done || lia). lia.
Qed.

(** ** What the operations do to the contents *)
Section node_lemmas.
Context {A : Type}.
Implicit Types (n : art_inner A) (c : Z) (x y : A) (ps : list (Z * A)).

(** [*child = y] for the slot [i] of [n]. *)
Definition set_child n (i : nat) y : art_inner A :=
  with_arrays n (num_children n) (n_keys n) (<[i := Some y]> (children n)).

Definition small_node n : Prop := n_type n = NODE4 ∨ n_type n = NODE16.

Lemma pair_up_zip ps : pair_up ps.*1 (Some <$> ps.*2) = ps.
Proof. induction ps as [|[k x] ps IH]; cbn; [done|]. by rewrite IH. Qed.

Lemma arr_take n ps : arr_rep n ps →
  num n = length ps ∧ take (num n) (n_keys n) = ps.*1 ∧ take (num n) (children n) = Some <$> ps.*2.
Proof.
  intros [[kr Hk] [cr Hc] Hn _ _]. unfold num. rewrite Hn, Hk, Hc, Nat2Z.id.
  split_and!; [done| |]; rewrite take_app_length'; by rewrite ?length_fmap.
Qed.

Lemma arr_pairs n ps : small_node n → arr_rep n ps → pairs n = ps.
Proof.
  intros Ht (Hn & Hk & Hc)%arr_take. unfold pairs.
  destruct Ht as [->| ->]; rewrite Hk, Hc; apply pair_up_zip.
Qed.

Lemma small_len n ps : node_ok n → small_node n → arr_rep n ps →
  (length ps ≤ keys_len (n_type n))%nat ∧ keys_len (n_type n) = children_len (n_type n) ∧
  (keys_len (n_type n) ≤ 16)%nat.
Proof.
  intros H Ht Hr. pose proof (no_keys _ H) as Hl.
  destruct (ar_keys _ _ Hr) as [kr Hk]. apply (f_equal length) in Hk.
  rewrite length_app, !length_fmap in Hk. destruct Ht as [Ht|Ht]; rewrite Ht in *; cbn in *; lia.
Qed.

Lemma node_arr n : node_ok n → small_node n → arr_rep n (pairs n).
Proof. intros H Ht. pose proof (no_rep _ H). by destruct Ht as [Ht|Ht]; rewrite Ht in *. Qed.

Lemma arr_node_ok n ps : small_node n → length (partial n) = MAX_PREFIX_LEN →
  length (n_keys n) = keys_len (n_type n) → length (children n) = children_len (n_type n) →
  arr_rep n ps → node_ok n ∧ pairs n = ps.
Proof.
  intros Ht H1 H2 H3 Hr. pose proof (arr_pairs _ _ Ht Hr) as Hp. split; [|done].
  split; [done..|]. rewrite Hp. by destruct Ht as [->| ->].
Qed.

(** [find_child] of the small nodes is a scan of the keys. *)
Lemma find_child_small n c : node_ok n → small_node n →
  find_child n c =
    let i := index_where (λ k, c =? k) (pairs n).*1 in
    if (i <? length (pairs n))%nat then Some i else None.
Proof.
  intros H Ht. pose proof (node_arr _ H Ht) as Hr. destruct (arr_take _ _ Hr) as (Hn & Hk & _).
  destruct (small_len _ _ H Ht Hr) as (Hl & _ & H16). pose proof (no_keys _ H) as Hkl.
  unfold find_child. cbv zeta. destruct Ht as [Ht|Ht]; rewrite Ht in *.
  - by rewrite Hk, Hn.
  - destruct (bitfield_scan (λ k, c =? k) (n_keys n) (num n)) as [H0 H1]; [lia|].
    fold (cmpeq_epi8 c (n_keys n)) in *. set (b := Z.land _ _) in *. rewrite Hk, Hn in *.
    pose proof (index_where_spec (λ k, c =? k) (pairs n).*1) as (Hle & _).
    rewrite length_fmap in Hle. destruct (b =? 0) eqn:E; breflect.
    + rewrite (proj1 H0 E), Nat.ltb_irrefl. done.
    + rewrite H1 by done. rewrite (proj2 (Nat.ltb_lt _ _)); [done|]. lia.
Qed.

Lemma find_small_some n c i : node_ok n → small_node n → find_child n c = Some i →
  ∃ x, pairs n !! i = Some (c, x) ∧ children n !! i = Some (Some x).
Proof.
  intros H Ht. rewrite find_child_small by done. cbv zeta.
  destruct (index_where_spec (λ k, c =? k) (pairs n).*1) as (Hle & _ & Hx).
  case_match eqn:E; [|done]. intros [= <-]. set (i := index_where _ _) in *. apply Nat.ltb_lt in E.
  destruct (lookup_lt_is_Some_2 (pairs n) i E) as [[k x] Hi].
  specialize (Hx k). rewrite list_lookup_fmap, Hi in Hx. specialize (Hx eq_refl).
  apply Z.eqb_eq in Hx as <-. exists x. split; [done|].
  destruct (ar_children _ _ (node_arr _ H Ht)) as [cr ->].
  apply lookup_app_l_Some. by rewrite !list_lookup_fmap, Hi.
Qed.

Lemma find_small_none n c : node_ok n → small_node n → find_child n c = None →
  c ∉ (pairs n).*1.
Proof.
  intros H Ht. rewrite find_child_small by done. cbv zeta.
  destruct (index_where_spec (λ k, c =? k) (pairs n).*1) as (Hle & Hbefore & _).
  case_match eqn:E; [done|]. intros _. apply Nat.ltb_ge in E.
  intros [j Hj]%list_elem_of_lookup. pose proof (lookup_lt_Some _ _ _ Hj) as Hlt.
  rewrite length_fmap in Hlt. specialize (Hbefore j c ltac:(lia) Hj). lia.
Qed.

Lemma set_child_small n c i x y L R : node_ok n → small_node n →
  pairs n = L ++ (c, x) :: R → i = length L →
  node_ok (set_child n i y) ∧ pairs (set_child n i y) = L ++ (c, y) :: R.
Proof.
  intros H Ht Hp ->. pose proof (node_arr _ H Ht) as [Hk [cr Hc] Hn Hd Hb]. rewrite Hp in *.
  apply arr_node_ok; cbn; [done|apply H|apply H|rewrite length_insert; apply H|].
  rewrite fmap_app in *. cbn in *.
  split; cbn; rewrite ?fmap_app; cbn; [done| |rewrite Hn, !length_app; done|done|done].
  exists cr. rewrite Hc, fmap_app. cbn. rewrite fmap_app. cbn.
  rewrite insert_app_l by (rewrite length_app, !length_fmap; cbn; lia).
  by rewrite insert_app_r_alt, !length_fmap, Nat.sub_diag by (by rewrite !length_fmap).
Qed.

(** *** [NODE48] and [NODE256] *)
Lemma used_insert (l : list (option A)) i : (i < length l)%nat →
  ∃ a, ∀ o, length (omap id (<[i := o]> l)) = (a + if is_null o then 0 else 1)%nat.
Proof.
  intros Hi. exists (length (omap id (take i l)) + length (omap id (drop (S i) l)))%nat. intros o.
  rewrite insert_take_drop by done. rewrite omap_app, length_app. cbn. destruct o; cbn; lia.
Qed.

Lemma key48 n c : node_ok n → n_type n = NODE48 → is_byte c →
  n_keys n !! Z.to_nat c = Some (n_keys n !!! Z.to_nat c).
Proof.
  intros H Ht Hc. apply list_lookup_lookup_total_lt. rewrite (no_keys _ H), Ht. unfold is_byte in Hc. cbn. lia.
Qed.

Lemma node_rep48 n : node_ok n → n_type n = NODE48 → rep48 n.
Proof. intros H Ht. pose proof (no_rep _ H) as Hr. by rewrite Ht in Hr. Qed.

Lemma slot48_hit (ch : list (option A)) i k x : k ≠ 0 → ch !! Z.to_nat (k - 1) = Some (Some x) →
  slot48 ch i k = Some (Z.of_nat i, x).
Proof. intros Hk Hx. unfold slot48. rewrite (proj2 (Z.eqb_neq _ _) Hk), Hx. done. Qed.

(** Keys other than the one that points to slot [i] do not see a write to it. *)
Lemma slot48_other n i o (e : nat) k : rep48 n → (∀ e', n_keys n !! e' = Some (Z.of_nat i + 1) → e' = e) →
  ∀ j k', j ≠ e → <[e := k]> (n_keys n) !! j = Some k' →
    slot48 (<[i := o]> (children n)) j k' = slot48 (children n) j k'.
Proof.
  intros Hr Hi j k' Hj Hk'. rewrite list_lookup_insert_ne in Hk' by done. unfold slot48.
  case_match eqn:E; [done|]. apply Z.eqb_neq in E.
  rewrite list_lookup_insert_ne; [done|]. intros ->.
  destruct (r48_keys _ Hr _ _ Hk') as [?|[? _]]; [done|].
  apply Hj, Hi. rewrite Hk'. f_equal. lia.
Qed.

Lemma find48_some n c i : node_ok n → n_type n = NODE48 → is_byte c → find_child n c = Some i →
  ∃ x L R, children n !! i = Some (Some x) ∧ pairs n = L ++ (c, x) :: R ∧
    ∀ y, node_ok (set_child n i y) ∧ pairs (set_child n i y) = L ++ (c, y) :: R.
Proof.
  intros H Ht Hc. unfold find_child. rewrite Ht.
  pose proof (key48 _ _ H Ht Hc) as Hk. set (k := n_keys n !!! _) in *.
  pose proof (node_rep48 _ H Ht) as Hr.
  case_match eqn:E; [done|]. intros [= <-]. apply Z.eqb_neq in E.
  destruct (r48_keys _ Hr _ _ Hk) as [?|(Hk48 & x & Hx)]; [done|].
  assert (Hlt : (Z.to_nat (k - 1) < 48)%nat) by lia.
  destruct (ilist_update (slot48 (children n)) (n_keys n) (Z.to_nat c)) as (L & R & HLR);
    [by eapply lookup_lt_Some|].
  assert (Hcc : Z.of_nat (Z.to_nat c) = c) by (unfold is_byte in Hc; lia).
  assert (Hp : pairs n = L ++ (c, x) :: R).
  { unfold pairs. rewrite Ht. rewrite <- (list_insert_id (n_keys n) _ _ Hk), HLR by done.
    by rewrite (slot48_hit _ _ _ _ E Hx), Hcc. }
  assert (Hset : ∀ y, pairs (set_child n (Z.to_nat (k - 1)) y) = L ++ (c, y) :: R).
  { intros y. unfold pairs. cbn. rewrite Ht. rewrite <- (list_insert_id (n_keys n) _ _ Hk).
    rewrite HLR.
    - rewrite (slot48_hit _ _ _ y); [by rewrite Hcc|done|].
      apply list_lookup_insert_eq. rewrite (no_children _ H), Ht. done.
    - intros j k' Hj Hk'. eapply (slot48_other n _ _ (Z.to_nat c) k); [done| |done|].
      + intros e' Hc'. eapply (r48_inj _ Hr); [|done|]; [lia|]. rewrite Hk. f_equal. lia.
      + by rewrite list_lookup_insert_ne. }
  exists x, L, R. split_and!; [done..|]. intros y. split; [|done].
  split; cbn; [apply H..|rewrite length_insert; apply H|]. rewrite Ht. split; cbn.
  - intros e' k' Hc'. destruct (r48_keys _ Hr _ _ Hc') as [?|(? & x' & Hx')]; [by left|right].
    split; [done|]. destruct (decide (Z.to_nat (k - 1) = Z.to_nat (k' - 1))) as [<-|].
    + exists y. apply list_lookup_insert_eq. rewrite (no_children _ H), Ht. done.
    + exists x'. by rewrite list_lookup_insert_ne.
  - apply Hr.
  - destruct (used_insert (children n) (Z.to_nat (k - 1))) as [a Ha]; [by eapply lookup_lt_Some|].
    rewrite (r48_used _ Hr). rewrite Ha. rewrite <- (list_insert_id _ _ _ Hx) at 1. by rewrite Ha.
  - rewrite (r48_num _ Hr), Hset, Hp, !length_app. done.
Qed.

Lemma find256_some n c i : node_ok n → n_type n = NODE256 → is_byte c → find_child n c = Some i →
  ∃ x L R, children n !! i = Some (Some x) ∧ pairs n = L ++ (c, x) :: R ∧
    ∀ y, node_ok (set_child n i y) ∧ pairs (set_child n i y) = L ++ (c, y) :: R.
Proof.
  intros H Ht Hc. unfold find_child. rewrite Ht.
  destruct (children n !! Z.to_nat c) as [[x|]|] eqn:E; [|done..]. intros [= <-].
  destruct (ilist_update slot256 (children n) (Z.to_nat c)) as (L & R & HLR);
    [by eapply lookup_lt_Some|].
  assert (Hcc : Z.of_nat (Z.to_nat c) = c) by (unfold is_byte in Hc; lia).
  assert (Hset : ∀ y, pairs (set_child n (Z.to_nat c) y) = L ++ (c, y) :: R).
  { intros y. unfold pairs. cbn. rewrite Ht, HLR by done. unfold slot256. cbn. by rewrite Hcc. }
  assert (Hp : pairs n = L ++ (c, x) :: R).
  { rewrite <- Hset. f_equal. unfold set_child. rewrite list_insert_id by done. by destruct n. }
  exists x, L, R. split_and!; [done..|]. intros y. split; [|done].
  split; cbn; [apply H..|rewrite length_insert; apply H|].
  pose proof (no_rep _ H) as Hr. rewrite Ht in *. rewrite Hset, Hr, Hp, !length_app. done.
Qed.

(** *** Finding a child *)
Lemma find_child_some n c i : node_ok n → is_byte c → find_child n c = Some i →
  ∃ x L R, children n !! i = Some (Some x) ∧ pairs n = L ++ (c, x) :: R ∧
    ∀ y, node_ok (set_child n i y) ∧ pairs (set_child n i y) = L ++ (c, y) :: R.
Proof.
  intros H Hc Hf. destruct (n_type n) eqn:Ht; [| |by apply find48_some|by apply find256_some].
  all: assert (Hs : small_node n) by (unfold small_node; auto);
    destruct (find_small_some _ _ _ H Hs Hf) as (x & Hp & Hx);
    exists x, (take i (pairs n)), (drop (S i) (pairs n));
    pose proof (take_drop_middle _ _ _ Hp) as Heq; split_and!; [done|done|];
    intros y; eapply (set_child_small n c i x); [done..|];
    rewrite length_take, Nat.min_l; [done|]; apply lookup_lt_Some in Hp; lia.
Qed.

Lemma find_child_none n c : node_ok n → is_byte c → find_child n c = None → c ∉ (pairs n).*1.
Proof.
  intros H Hc Hf. destruct (n_type n) eqn:Ht;
    [apply find_small_none; unfold small_node; auto..| |].
  - intros ([k x] & -> & Hin)%list_elem_of_fmap. unfold pairs in Hin. rewrite Ht in Hin.
    apply ilist_elem in Hin as (j & k' & Hj & Hs). unfold slot48 in Hs.
    case_match eqn:E; [done|]. apply fmap_Some in Hs as (x' & Hx' & [= -> ->]). cbn in *.
    unfold find_child in Hf. rewrite Ht in Hf. rewrite Nat2Z.id in Hf.
    rewrite (list_lookup_total_correct _ _ _ Hj), E in Hf. done.
  - intros ([k x] & -> & Hin)%list_elem_of_fmap. unfold pairs in Hin. rewrite Ht in Hin.
    apply ilist_elem in Hin as (j & o & Hj & Hs). unfold slot256 in Hs.
    apply fmap_Some in Hs as (x' & -> & [= -> ->]). cbn in *.
    unfold find_child in Hf. rewrite Ht, Nat2Z.id, Hj in Hf. done.
Qed.

(** *** Keys are distinct bytes *)
Lemma slot48_key (ch : list (option A)) j k p : slot48 ch j k = Some p → p.1 = Z.of_nat j.
Proof. unfold slot48. case_match; [done|]. intros (x & _ & ->)%fmap_Some. done. Qed.
Lemma slot256_key j (o : option A) p : slot256 j o = Some p → p.1 = Z.of_nat j.
Proof. intros (x & _ & ->)%fmap_Some. done. Qed.

Lemma sorted_nodup (l : list Z) : StronglySorted Z.lt l → NoDup l.
Proof.
  induction 1 as [|k l Hs IH Hk]; constructor; [|done].
  intros Hin. rewrite Forall_forall in Hk. specialize (Hk _ Hin). lia.
Qed.

Lemma ilist_keys {B} (f : nat → B → option (Z * A)) (l : list B) :
  (∀ j b p, f j b = Some p → p.1 = Z.of_nat j) → length l = 256%nat →
  StronglySorted Z.lt (ilist f 0 l).*1 ∧ Forall is_byte (ilist f 0 l).*1.
Proof.
  intros Hf Hl. split; [by apply ilist_sorted|]. apply Forall_forall.
  intros k (y & -> & Hy)%list_elem_of_fmap. apply ilist_elem in Hy as (j & x & Hj & Hy).
  apply Hf in Hy. apply lookup_lt_Some in Hj. unfold is_byte. rewrite Hy. lia.
Qed.

(** The large nodes are ordered by their bytes. *)
Lemma large_sorted n : node_ok n → ¬ small_node n →
  StronglySorted Z.lt (pairs n).*1 ∧ Forall is_byte (pairs n).*1.
Proof.
  intros H Hs. pose proof (no_keys _ H). pose proof (no_children _ H).
  unfold pairs. destruct (n_type n) eqn:Ht; [destruct Hs; unfold small_node; auto..| |];
    apply ilist_keys; eauto using slot48_key, slot256_key.
Qed.

#[local] Instance small_node_dec n : Decision (small_node n).
Proof. unfold small_node. apply _. Defined.

Lemma pairs_keys n : node_ok n → NoDup (pairs n).*1 ∧ Forall is_byte (pairs n).*1.
Proof.
  intros H. destruct (decide (small_node n)) as [Hs|Hs].
  - pose proof (node_arr _ H Hs) as Hr. split; apply Hr.
  - destruct (large_sorted _ H Hs). eauto using sorted_nodup.
Qed.

(** *** Headers *)
Lemma copy_header_ok (dest src : art_inner A) :
  length (partial dest) = MAX_PREFIX_LEN → length (partial src) = MAX_PREFIX_LEN →
  ∃ p, copy_header dest src =
      Ok {| n_type := n_type dest; num_children := num_children src;
            partial_len := partial_len src; partial := p;
            n_keys := n_keys dest; children := children dest |} ∧
    length p = MAX_PREFIX_LEN ∧
    take (MAX_PREFIX_LEN `min` partial_len src) p =
    take (MAX_PREFIX_LEN `min` partial_len src) (partial src).
Proof.
  intros Hd Hs. unfold copy_header. rewrite copy_front by lia. cbn. eexists. split; [done|].
  split; [rewrite length_app, length_take, length_drop; lia|].
  rewrite take_app_length'; [done|]. rewrite length_take. lia.
Qed.

(** *** Adding to the small nodes *)
Definition has_room n : Prop := (length (pairs n) < keys_len (n_type n))%nat.

Lemma u8_succ ps : (length ps < 48)%nat → u8 (Z.of_nat (length ps) + 1) = Z.of_nat (S (length ps)).
Proof. intros. unfold u8. rewrite Z.mod_small; lia. Qed.

Lemma put_at_ok n idx c x : node_ok n → small_node n → has_room n →
  is_byte c → c ∉ (pairs n).*1 → (idx ≤ length (pairs n))%nat →
  ∃ n', put_at n idx c x = Ok n' ∧ node_ok n' ∧ n_type n' = n_type n ∧
    partial_len n' = partial_len n ∧ partial n' = partial n ∧
    pairs n' = take idx (pairs n) ++ (c, x) :: drop idx (pairs n).
Proof.
  intros H Hs Hroom Hc Hfresh Hidx. pose proof (node_arr _ H Hs) as Hr.
  destruct (small_len _ _ H Hs Hr) as (Hle & Heq & H16). destruct (arr_take _ _ Hr) as [Hnum _].
  pose proof (no_keys _ H) as Hkl. pose proof (no_children _ H) as Hcl.
  destruct Hr as [[kr Hk] [cr Hch] Hn Hd Hb]. unfold has_room in Hroom.
  set (ps := pairs n) in *. rewrite Hk, length_app, length_fmap in Hkl.
  rewrite Hch, length_app, !length_fmap in Hcl.
  destruct (shift_put ps.*1 kr c idx) as (a & Ha & Ha');
    [by rewrite length_fmap|intros ->; cbn [length] in *; lia|].
  destruct (shift_put (Some <$> ps.*2) cr (Some x) idx) as (b & Hb1 & Hb2);
    [by rewrite !length_fmap|intros ->; cbn [length] in *; lia|].
  rewrite length_fmap in Ha. rewrite !length_fmap in Hb1.
  set (ps' := take idx ps ++ (c, x) :: drop idx ps).
  assert (Hps : ps' ≡ₚ (c, x) :: ps).
  { unfold ps'. by rewrite <- Permutation_middle, take_drop. }
  assert (Hkeys : ps'.*1 = take idx ps.*1 ++ c :: drop idx ps.*1).
  { unfold ps'. by rewrite fmap_app, fmap_cons, fmap_take, fmap_drop. }
  assert (Hvals : Some <$> ps'.*2 = take idx (Some <$> ps.*2) ++ Some x :: drop idx (Some <$> ps.*2)).
  { unfold ps'. by rewrite !fmap_app, !fmap_cons, !fmap_take, !fmap_drop. }
  eexists. split.
  { unfold put_at. rewrite Hnum, Hk, Hch, Ha. cbn. rewrite Hb1. cbn. rewrite Ha'. cbn.
    rewrite Hb2. reflexivity. }
  rewrite <- Hkeys, <- Hvals. apply Permutation_length in Hps as Hpl. cbn in Hpl.
  edestruct (arr_node_ok (with_arrays n (u8 (num_children n + 1)) (ps'.*1 ++ tail kr)
    ((Some <$> ps'.*2) ++ tail cr)) ps') as [Hok Hp']; [done|apply H|..].
  - cbn. rewrite length_app, length_fmap, Hpl. destruct kr; cbn [length tail] in *; lia.
  - cbn. rewrite length_app, !length_fmap, Hpl. destruct cr; cbn [length tail] in *; lia.
  - split; cbn; [by eexists|by eexists| | |].
    + rewrite Hn, Hpl, u8_succ by lia. lia.
    + rewrite Hps. cbn. by constructor.
    + rewrite Hps. cbn. by constructor.
  - done.
Qed.

(** Writing behind the last entry is putting there. *)
Lemma put_at_end n c x : node_ok n → small_node n → has_room n →
  put_at n (num n) c x =
    (ks ← aset (n_keys n) (num n) c;
     ch ← aset (children n) (num n) (Some x);
     Ok (with_arrays n (u8 (num_children n + 1)) ks ch)).
Proof.
  intros H Hs Hroom. pose proof (node_arr _ H Hs) as Hr.
  destruct (small_len _ _ H Hs Hr) as (Hle & Heq & H16). destruct (arr_take _ _ Hr) as [Hnum _].
  pose proof (no_keys _ H) as Hkl. pose proof (no_children _ H) as Hcl. unfold has_room in Hroom.
  unfold put_at. by rewrite Nat.sub_diag, !copy_none by lia.
Qed.

(** The order in which a small node inserts: unsigned in [NODE4], signed in
    [NODE16]. *)
Definition node_lt n (c k : Z) : bool :=
  match n_type n with NODE16 => schar c <? schar k | _ => c <? k end.

Lemma add_child_room n c x : node_ok n → small_node n → has_room n →
  add_child n c x = put_at n (index_where (node_lt n c) (pairs n).*1) c x.
Proof.
  intros H Hs Hroom. pose proof (node_arr _ H Hs) as Hr. destruct (arr_take _ _ Hr) as (Hn & Hk & _).
  pose proof (no_keys _ H) as Hkl. pose proof (ar_num _ _ Hr) as Hnc. unfold has_room in Hroom.
  pose proof Hs as [Ht|Ht]; unfold add_child; rewrite Ht in *; cbn [keys_len] in *.
  - unfold add_child4. rewrite (proj2 (Z.ltb_lt _ _)) by lia. rewrite Hk.
    unfold node_lt. by rewrite Ht.
  - unfold add_child16. rewrite (proj2 (Z.ltb_lt _ _)) by lia.
    destruct (bitfield_scan (λ k, schar c <? schar k) (n_keys n) (num n)) as [H0 H1]; [lia|].
    fold (cmplt_epi8 c (n_keys n)) in *. set (b := Z.land _ _) in *. rewrite Hk, Hn in *.
    unfold node_lt. rewrite Ht. destruct (b =? 0) eqn:E; breflect.
    + rewrite (proj1 H0 E), <- Hn, put_at_end; [done..|]. unfold has_room. by rewrite Ht.
    + by rewrite H1.
Qed.

End node_lemmas.
