(* ===== verification/ArtGrow.v ===== *)
(** * ArtGrow: growing and shrinking nodes of the radix tree

    The lemmas of [ArtNode] for the large nodes, the change of a node's size
    when it overflows or thins out, and the two specifications the tree
    operations rely on: [add_child_ok] and [remove_child_large]. *)
From Stdlib Require Import ZArith Lia.
From stdpp Require Import base numbers list gmap strings sorting.
From S2P Require Import Prelude Bitmap ArtNode.

Section grow.
Context {A : Type}.
Implicit Types (n : art_inner A) (c : Z) (x y : A) (ps : list (Z * A)).

(** What adding [(c, x)] to [n] must give. *)
Definition added n c x (n' : art_inner A) : Prop :=
  node_ok n' ∧ pairs n' ≡ₚ (c, x) :: pairs n ∧ same_path n n'.

(** A byte that is not a key of [n] has an empty slot. *)
Lemma free48 n c : node_ok n → n_type n = NODE48 → is_byte c → c ∉ (pairs n).*1 →
  n_keys n !! Z.to_nat c = Some 0.
Proof.
  intros H Ht Hc Hf. pose proof (key48 _ _ H Ht Hc) as Hk. rewrite Hk. f_equal.
  set (k := n_keys n !!! _) in *. pose proof (node_rep48 _ H Ht) as Hr.
  destruct (r48_keys _ Hr _ _ Hk) as [|(Hk48 & x & Hx)]; [done|]. destruct Hf.
  apply list_elem_of_fmap. exists (c, x). split; [done|]. unfold pairs. rewrite Ht.
  apply ilist_elem. exists (Z.to_nat c), k. split; [done|].
  rewrite (slot48_hit _ _ _ x); [|lia|done]. unfold is_byte in Hc. do 2 f_equal. lia.
Qed.

Lemma free256 n c : node_ok n → n_type n = NODE256 → is_byte c → c ∉ (pairs n).*1 →
  children n !! Z.to_nat c = Some None.
Proof.
  intros H Ht Hc Hf. pose proof (no_children _ H) as Hl. rewrite Ht in Hl.
  destruct (lookup_lt_is_Some_2 (children n) (Z.to_nat c)) as [[x|] Hx];
    [unfold is_byte in Hc; cbn in Hl; lia| |done].
  destruct Hf. apply list_elem_of_fmap. exists (c, x). split; [done|]. unfold pairs. rewrite Ht.
  apply ilist_elem. exists (Z.to_nat c), (Some x). split; [done|]. unfold slot256. cbn.
  unfold is_byte in Hc. do 2 f_equal. lia.
Qed.

(** ** Adding to [NODE256] and [NODE48] *)
Lemma u8_add_1 a : u8 (u8 a + 1) = u8 (a + 1).
Proof. unfold u8. by rewrite Zplus_mod_idemp_l. Qed.

Lemma add_child256_ok n c x : node_ok n → n_type n = NODE256 → is_byte c → c ∉ (pairs n).*1 →
  ∃ n', add_child256 n c x = Ok n' ∧ added n c x n' ∧ n_type n' = NODE256.
Proof.
  intros H Ht Hc Hf. pose proof (free256 _ _ H Ht Hc Hf) as Hx.
  pose proof (lookup_lt_Some _ _ _ Hx) as Hlt.
  unfold add_child256. rewrite aset_ok by done. eexists. split; [done|].
  destruct (ilist_update slot256 (children n) (Z.to_nat c) Hlt) as (L & R & HLR).
  assert (Hp : pairs n = L ++ R).
  { unfold pairs. rewrite Ht. rewrite <- (list_insert_id _ _ _ Hx), HLR by done. done. }
  set (n' := with_arrays _ _ _ _).
  assert (Hp' : pairs n' = L ++ (c, x) :: R).
  { unfold pairs. cbn. rewrite Ht, HLR by done. cbn. unfold is_byte in Hc. do 3 f_equal. lia. }
  split; [|done]. split_and!; [|by rewrite Hp', Hp, Permutation_middle|done].
  split; cbn; [apply H..|rewrite length_insert; apply H|]. rewrite Ht, Hp'.
  pose proof (no_rep _ H) as Hn. rewrite Ht, Hp in Hn. rewrite Hn, u8_add_1.
  f_equal. rewrite !length_app. cbn. lia.
Qed.

(** The first empty slot of a [NODE48] that is not full. *)
Lemma free_slot (l : list (option A)) :
  (length (omap id l) < length l)%nat → l !! index_where is_null l = Some None.
Proof.
  intros Hl. destruct (index_where_spec is_null l) as (Hle & Hb & Hx).
  destruct (l !! index_where is_null l) as [o|] eqn:E.
  { specialize (Hx _ eq_refl). by destruct o. }
  apply lookup_ge_None in E. exfalso. assert (Hall : Forall (λ o, is_null o = false) l).
  { apply Forall_lookup. intros i o Hi. apply (Hb i); [|done]. apply lookup_lt_Some in Hi. lia. }
  clear -Hl Hall. induction Hall as [|[x|] l]; cbn in *; [lia| |done]. apply IHHall. lia.
Qed.

Lemma add_child48_room n c x : node_ok n → n_type n = NODE48 → is_byte c → c ∉ (pairs n).*1 →
  (length (pairs n) < 48)%nat →
  ∃ n', add_child48 n c x = Ok n' ∧ added n c x n' ∧ n_type n' = NODE48.
Proof.
  intros H Ht Hc Hf Hroom. pose proof (free48 _ _ H Ht Hc Hf) as Hk.
  pose proof (node_rep48 _ H Ht) as Hr. pose proof (r48_num _ Hr) as Hn.
  pose proof (r48_used _ Hr) as Hu. pose proof (no_children _ H) as Hcl. rewrite Ht in Hcl. cbn in Hcl.
  set (pos := index_where is_null (children n)).
  assert (Hpos : children n !! pos = Some None) by (apply free_slot; lia).
  pose proof (lookup_lt_Some _ _ _ Hpos) as Hlp. pose proof (lookup_lt_Some _ _ _ Hk) as Hlk.
  unfold add_child48. rewrite (proj2 (Z.ltb_lt _ _)) by lia. fold pos.
  rewrite aset_ok by done. cbn [mbind outcome_bind]. rewrite aset_ok by done.
  eexists. split; [done|].
  assert (Hu8 : u8 (Z.of_nat pos + 1) = Z.of_nat pos + 1) by (unfold u8; rewrite Z.mod_small; lia).
  assert (Hnc : u8 (num_children n + 1) = num_children n + 1) by (unfold u8; rewrite Z.mod_small; lia).
  rewrite Hu8, Hnc. set (n' := with_arrays _ _ _ _).
  assert (Hno : ∀ e, n_keys n !! e = Some (Z.of_nat pos + 1) → e = Z.to_nat c).
  { intros e He. destruct (r48_keys _ Hr _ _ He) as [|(? & z & Hz)]; [lia|].
    replace (Z.to_nat (Z.of_nat pos + 1 - 1)) with pos in Hz by lia. congruence. }
  destruct (ilist_update (slot48 (children n)) (n_keys n) (Z.to_nat c) Hlk) as (L & R & HLR).
  assert (Hp : pairs n = L ++ R).
  { unfold pairs. rewrite Ht. rewrite <- (list_insert_id _ _ _ Hk), HLR by done. done. }
  assert (Hslot : <[pos := Some x]> (children n) !! Z.to_nat (Z.of_nat pos + 1 - 1) = Some (Some x)).
  { replace (Z.to_nat _) with pos by lia. by apply list_lookup_insert_eq. }
  assert (Hp' : pairs n' = L ++ (c, x) :: R).
  { unfold pairs. cbn. rewrite Ht, HLR.
    - rewrite (slot48_hit _ _ _ x); [|lia|done]. cbn. unfold is_byte in Hc. do 3 f_equal. lia.
    - intros j k Hj Hjk. eapply (slot48_other n pos _ (Z.to_nat c) 0); [done..|].
      by rewrite list_lookup_insert_ne. }
  split; [|done]. split_and!; [|by rewrite Hp', Hp, Permutation_middle|done].
  split; cbn; [apply H|rewrite length_insert; apply H..|]. rewrite Ht. split; cbn.
  - intros e k He. apply list_lookup_insert_Some in He as [(<- & <- & _)|(Hne & He)].
    + right. split; [lia|]. eauto.
    + destruct (r48_keys _ Hr _ _ He) as [|(? & z & Hz)]; [by left|right]. split; [done|].
      exists z. rewrite list_lookup_insert_ne; [done|]. intros Heq. congruence.
  - intros e e' k Hk0 He He'.
    apply list_lookup_insert_Some in He as [(<- & <- & _)|(Hne & He)];
      apply list_lookup_insert_Some in He' as [(<- & Heq & _)|(Hne' & He')]; [done| | |].
    + symmetry. by apply Hno.
    + subst k. by apply Hno.
    + by eapply (r48_inj _ Hr).
  - destruct (used_insert (children n) pos Hlp) as [a Ha]. rewrite Ha. cbn.
    rewrite Hu. rewrite <- (list_insert_id _ _ _ Hpos) at 1. rewrite Ha. cbn. lia.
  - rewrite Hp', Hn, Hp, !length_app. cbn. lia.
Qed.

(** ** Replacing a full node by the next size *)

(** What a node of another size must keep: the contents and the path. *)
Definition resized n (n' : art_inner A) : Prop :=
  node_ok n' ∧ pairs n' ≡ₚ pairs n ∧ same_path n n'.

Lemma resized_added n n' n'' c x : resized n n' → added n' c x n'' → added n c x n''.
Proof.
  intros (_ & Hp & Hl & Ht) (Hok & Hp' & Hl' & Ht'). split_and!; [done|by rewrite Hp', Hp|].
  unfold same_path in *. rewrite Hl in *. split; [done|]. by rewrite Ht', Ht.
Qed.

Lemma grow4_ok n : node_ok n → n_type n = NODE4 →
  ∃ n', grow4 n = Ok n' ∧ resized n n' ∧ n_type n' = NODE16 ∧ pairs n' = pairs n.
Proof.
  intros H Ht. assert (Hs : small_node n) by (by left). pose proof (node_arr _ H Hs) as Hr.
  destruct (arr_take _ _ Hr) as (Hn & Hk & Hc). destruct (small_len _ _ H Hs Hr) as (Hl & Heq & _).
  pose proof (no_keys _ H) as Hkl. pose proof (no_children _ H) as Hcl. rewrite Ht in *. cbn in Hl, Hkl, Hcl.
  unfold grow4. cbn [alloc_node n_keys children keys_len children_len].
  rewrite !copy_front by (rewrite ?length_replicate; lia). cbn [mbind outcome_bind]. rewrite Hk, Hc, Hn.
  set (ks := _ ++ _). set (ch := (_ <$> _) ++ _).
  destruct (copy_header_ok (with_arrays (alloc_node NODE16) 0 ks ch) n) as (p & -> & Hp & Htk);
    [done|apply H|]. cbn. eexists. split; [done|]. set (n' := {| n_type := _ |}).
  destruct (arr_node_ok n' (pairs n)) as [Hok Hp']; [by right|done| | | |].
  - cbn. unfold ks. rewrite length_app, length_fmap, length_drop, length_replicate. lia.
  - cbn. unfold ch. rewrite length_app, !length_fmap, length_drop, length_replicate. lia.
  - split; cbn; [by eexists|by eexists|apply Hr..].
  - split_and!; [split_and!; [done|by rewrite Hp'|done]|done|done].
Qed.

(** The index array made from a list of distinct keys. *)
Lemma index48_ok ks i idx : NoDup ks → Forall is_byte ks → length idx = 256%nat →
  ∃ idx', index48 ks i idx = Ok idx' ∧ length idx' = 256%nat ∧
    (∀ j k, ks !! j = Some k → idx' !! Z.to_nat k = Some (i + Z.of_nat j + 1)) ∧
    (∀ e, Z.of_nat e ∉ ks → idx' !! e = idx !! e).
Proof.
  intros Hd Hb. revert i idx Hd. induction Hb as [|k ks Hk Hb IH]; intros i idx Hd Hl.
  { exists idx. split_and!; try done. }
  apply NoDup_cons in Hd as [Hk' Hd]. unfold is_byte in Hk. cbn [index48].
  rewrite aset_ok by lia. cbn [mbind outcome_bind].
  destruct (IH (i + 1) (<[Z.to_nat k := i + 1]> idx)) as (idx' & -> & Hl' & Hin & Hout);
    [done|by rewrite length_insert|].
  exists idx'. split_and!; [done..| |].
  - intros [|j] k' Hj; cbn in Hj.
    + injection Hj as <-. rewrite Hout by (by rewrite Z2Nat.id by lia).
      rewrite list_lookup_insert_eq by lia. f_equal. lia.
    + rewrite (Hin _ _ Hj). f_equal. lia.
  - intros e [He1 He2]%not_elem_of_cons. rewrite Hout by done.
    apply list_lookup_insert_ne. lia.
Qed.

(** Two association lists with the same elements and distinct keys. *)
Lemma pairs_perm ps ps' : NoDup ps.*1 → NoDup ps'.*1 → (∀ p, p ∈ ps ↔ p ∈ ps') → ps ≡ₚ ps'.
Proof. intros H1 H2 H. apply NoDup_Permutation; eauto using NoDup_fmap_1. Qed.

(** The [NODE48] whose children are those of [ps], in order. *)
Lemma index48_pairs ps (idx : list Z) (ch : list (option A)) :
  NoDup ps.*1 → Forall is_byte ps.*1 → (Some <$> ps.*2) `prefix_of` ch → length idx = 256%nat →
  (∀ j k, ps.*1 !! j = Some k → idx !! Z.to_nat k = Some (Z.of_nat j + 1)) →
  (∀ e, (e < 256)%nat → Z.of_nat e ∉ ps.*1 → idx !! e = Some 0) →
  ilist (slot48 ch) 0 idx ≡ₚ ps.
Proof.
  intros Hd Hb [cr Hch] Hl Hin Hout. apply pairs_perm; [|done|].
  { apply sorted_nodup. by apply ilist_keys; eauto using slot48_key. }
  assert (Hchild : ∀ j p, ps !! j = Some p → ch !! j = Some (Some p.2)).
  { intros j p Hj. rewrite Hch. apply lookup_app_l_Some. by rewrite !list_lookup_fmap, Hj. }
  intros [c x]. rewrite ilist_elem. split.
  - intros (e & k & He & Hs). unfold slot48 in Hs. case_match eqn:E; [done|].
    apply Z.eqb_neq in E. apply fmap_Some in Hs as (x' & Hx & [= -> ->]). cbn.
    destruct (decide (Z.of_nat e ∈ ps.*1)) as [Hm|Hm].
    2: { rewrite Hout in He; [naive_solver| |done]. apply lookup_lt_Some in He. lia. }
    apply list_elem_of_lookup in Hm as [j Hj]. pose proof (Hin _ _ Hj) as Hi. rewrite Nat2Z.id in Hi.
    rewrite list_lookup_fmap in Hj. apply fmap_Some in Hj as ([k' x''] & Hj & Hk'). cbn in Hk'. subst k'.
    replace k with (Z.of_nat j + 1) in Hx by congruence.
    replace (Z.to_nat (Z.of_nat j + 1 - 1)) with j in Hx by lia. rewrite (Hchild _ _ Hj) in Hx.
    injection Hx as ->. by eapply list_elem_of_lookup_2.
  - intros [j Hj]%list_elem_of_lookup. pose proof (Hin j c) as Hi.
    rewrite list_lookup_fmap, Hj in Hi. specialize (Hi eq_refl).
    exists (Z.to_nat c), (Z.of_nat j + 1). split; [done|].
    rewrite (slot48_hit _ _ _ x); [|lia|].
    + rewrite Forall_forall in Hb. assert (is_byte c) as Hc by (apply Hb, list_elem_of_fmap; eexists; split; [|by eapply list_elem_of_lookup_2]; done).
      unfold is_byte in Hc. do 2 f_equal. cbn. lia.
    + replace (Z.to_nat (Z.of_nat j + 1 - 1)) with j by lia. by apply (Hchild _ _ Hj).
Qed.

Lemma used_le (l : list (option A)) : (length (omap id l) ≤ length l)%nat.
Proof. induction l as [|[x|] l IH]; cbn; lia. Qed.

Lemma used_prefix (xs : list A) k :
  length (omap id ((Some <$> xs) ++ replicate k None)) = length xs.
Proof.
  rewrite omap_app, length_app. assert (Hr : omap id (replicate k (@None A)) = []) by (by induction k).
  rewrite Hr. cbn. rewrite Nat.add_0_r. induction xs as [|x xs IH]; cbn; [done|]. by rewrite IH.
Qed.

Lemma node48_of_pairs n ps k : n_type n = NODE48 → length (partial n) = MAX_PREFIX_LEN →
  NoDup ps.*1 → Forall is_byte ps.*1 →
  children n = (Some <$> ps.*2) ++ replicate k None → length (children n) = 48%nat →
  num_children n = Z.of_nat (length ps) → length (n_keys n) = 256%nat →
  (∀ j k, ps.*1 !! j = Some k → n_keys n !! Z.to_nat k = Some (Z.of_nat j + 1)) →
  (∀ e, (e < 256)%nat → Z.of_nat e ∉ ps.*1 → n_keys n !! e = Some 0) →
  node_ok n ∧ pairs n ≡ₚ ps.
Proof.
  intros Ht Hpl Hd Hb Hch Hcl Hn Hkl Hin Hout.
  assert (Hp : pairs n ≡ₚ ps).
  { unfold pairs. rewrite Ht. apply index48_pairs; try done. by eexists. }
  split; [|done]. split; [done|by rewrite Ht|by rewrite Ht|]. rewrite Ht.
  assert (Hnz : ∀ e k, n_keys n !! e = Some k → k ≠ 0 →
    ∃ j, ps.*1 !! j = Some (Z.of_nat e) ∧ k = Z.of_nat j + 1).
  { intros e k0 He Hk0. destruct (decide (Z.of_nat e ∈ ps.*1)) as [Hm|Hm].
    - apply list_elem_of_lookup in Hm as [j Hj]. exists j. split; [done|].
      specialize (Hin _ _ Hj). rewrite Nat2Z.id in Hin. congruence.
    - rewrite Hout in He; [congruence| |done]. apply lookup_lt_Some in He. lia. }
  split.
  - intros e k0 He. destruct (decide (k0 = 0)) as [|Hk0]; [by left|right].
    destruct (Hnz _ _ He Hk0) as (j & Hj & ->). rewrite list_lookup_fmap in Hj.
    apply fmap_Some in Hj as ([c x] & Hj & _).
    assert (Hc : children n !! j = Some (Some x)).
    { rewrite Hch. apply lookup_app_l_Some. by rewrite !list_lookup_fmap, Hj. }
    split; [apply lookup_lt_Some in Hc; lia|]. exists x. rewrite <- Hc. f_equal. lia.
  - intros e e' k0 Hk0 He He'. destruct (Hnz _ _ He Hk0) as (j & Hj & ->).
    destruct (Hnz _ _ He' Hk0) as (j' & Hj' & Heq). replace j' with j in * by lia. naive_solver.
  - by rewrite Hn, Hch, used_prefix, length_fmap.
  - by rewrite Hn, Hp.
Qed.

Lemma grow16_ok n : node_ok n → n_type n = NODE16 →
  ∃ n', grow16 n = Ok n' ∧ resized n n' ∧ n_type n' = NODE48.
Proof.
  intros H Ht. assert (Hs : small_node n) by (by right). pose proof (node_arr _ H Hs) as Hr.
  destruct (arr_take _ _ Hr) as (Hn & Hk & Hc). destruct (small_len _ _ H Hs Hr) as (Hl & Heq & _).
  pose proof (no_keys _ H) as Hkl. pose proof (no_children _ H) as Hcl. rewrite Ht in *.
  cbn in Hl, Hkl, Hcl.
  unfold grow16. cbn [alloc_node n_keys children keys_len children_len].
  rewrite copy_front by (rewrite ?length_replicate; lia). cbn [mbind outcome_bind]. rewrite Hk, Hc, Hn.
  destruct (index48_ok (pairs n).*1 0 (replicate 256 0)) as (idx & -> & Hil & Hin & Hout);
    [apply Hr|apply Hr|apply length_replicate|]. cbn [mbind outcome_bind].
  rewrite drop_replicate. set (ch := _ ++ _).
  destruct (copy_header_ok (with_arrays (alloc_node NODE48) 0 idx ch) n) as (p & -> & Hp & Htk);
    [done|apply H|]. eexists. split; [done|]. set (n' := {| n_type := _ |}).
  destruct (node48_of_pairs n' (pairs n) (48 - length (pairs n))) as [Hok Hp'];
    cbn; [done|done|apply Hr|apply Hr|done| |apply Hr|done| | |].
  - unfold ch. rewrite length_app, !length_fmap, length_replicate. lia.
  - intros j k Hj. by rewrite (Hin _ _ Hj).
  - intros e He Hne. rewrite Hout by done. by apply lookup_replicate_2.
  - split; [|done]. split_and!; done.
Qed.

(** Spreading the children of a [NODE48] over 256 slots. *)
Lemma spread48_ok n : node_ok n → n_type n = NODE48 →
  ∃ ch, spread48 n = Ok ch ∧ length ch = 256%nat ∧ ilist slot256 0 ch = pairs n.
Proof.
  intros H Ht. pose proof (node_rep48 _ H Ht) as Hr. pose proof (no_keys _ H) as Hkl.
  rewrite Ht in Hkl. cbn in Hkl. unfold spread48, pairs. rewrite Ht.
  assert (Hk : Forall (λ k, k = 0 ∨ ∃ x, children n !! Z.to_nat (k - 1) = Some (Some x)) (n_keys n)).
  { apply Forall_lookup. intros e k He. destruct (r48_keys _ Hr _ _ He) as [|(_ & ?)]; auto. }
  rewrite <- Hkl. clear Hkl Hr. generalize 0%nat as i. induction Hk as [|k ks Hk Hks IH]; intros i.
  { by exists []. }
  destruct (IH (S i)) as (ch & Hm & Hl & Hp). cbn [mapM]. rewrite Hm.
  destruct Hk as [->|[x Hx]].
  - exists (None :: ch). cbn. rewrite Hl, Hp. done.
  - destruct (decide (k = 0)) as [->|Hk]; [exists (None :: ch); cbn; by rewrite Hl, Hp|].
    exists (Some x :: ch). rewrite (proj2 (Z.eqb_neq _ _) Hk), (aget_ok _ _ _ Hx). cbn [ilist].
    rewrite (slot48_hit _ _ _ _ Hk Hx), Hp. cbn. by rewrite Hl.
Qed.

Lemma grow48_ok n : node_ok n → n_type n = NODE48 →
  ∃ n', grow48 n = Ok n' ∧ resized n n' ∧ n_type n' = NODE256 ∧ pairs n' = pairs n.
Proof.
  intros H Ht. unfold grow48. destruct (spread48_ok _ H Ht) as (ch & -> & Hl & Hp). cbn [mbind outcome_bind].
  destruct (copy_header_ok (with_arrays (alloc_node NODE256) 0 [] ch) n) as (p & -> & Hpl & Htk);
    [done|apply H|]. eexists. split; [done|]. set (n' := {| n_type := _ |}).
  assert (Hp' : pairs n' = pairs n) by (unfold pairs at 1; cbn; done).
  split; [|done]. split; [|split; [by rewrite Hp'|done]].
  split; [done..|]. change (num_children n = u8 (Z.of_nat (length (pairs n')))). rewrite Hp'. pose proof (r48_num _ (node_rep48 _ H Ht)) as Hn.
  pose proof (r48_used _ (node_rep48 _ H Ht)) as Hu. pose proof (no_children _ H) as Hc.
  rewrite Ht in Hc. cbn in Hc. rewrite Hn. unfold u8. rewrite Z.mod_small; [done|].
  rewrite <- Hn, Hu. pose proof (used_le (children n)). lia.
Qed.

(** ** Adding a child to any node *)
Lemma put_added n n' idx c x : node_ok n' → partial_len n' = partial_len n → partial n' = partial n →
  pairs n' = take idx (pairs n) ++ (c, x) :: drop idx (pairs n) → added n c x n'.
Proof.
  intros Hok Hl Hp Hps. split_and!; [done|by rewrite Hps, <- Permutation_middle, take_drop|].
  unfold same_path. by rewrite Hl, Hp.
Qed.

Lemma add_child_small n c x : node_ok n → small_node n → has_room n →
  is_byte c → c ∉ (pairs n).*1 →
  ∃ n', add_child n c x = Ok n' ∧ added n c x n' ∧ n_type n' = n_type n ∧
    let idx := index_where (node_lt n c) (pairs n).*1 in
    pairs n' = take idx (pairs n) ++ (c, x) :: drop idx (pairs n).
Proof.
  intros H Hs Hroom Hc Hf. rewrite add_child_room by done.
  destruct (index_where_spec (node_lt n c) (pairs n).*1) as [Hle _]. rewrite length_fmap in Hle.
  destruct (put_at_ok n (index_where (node_lt n c) (pairs n).*1) c x H Hs Hroom Hc Hf Hle)
    as (n' & Hn' & Hok & Ht & Hl & Hp & Hps).
  exists n'. split_and!; eauto using put_added.
Qed.

(** A byte outside the keys stays outside in a resized node. *)
Lemma resized_fresh n n' c : resized n n' → c ∉ (pairs n).*1 → c ∉ (pairs n').*1.
Proof. intros (_ & Hp & _) H. by rewrite Hp. Qed.

Lemma added_len n c x n' : added n c x n' → length (pairs n') = S (length (pairs n)).
Proof. intros (_ & Hp & _). by apply Permutation_length in Hp. Qed.

Lemma resized_len n n' : resized n n' → length (pairs n') = length (pairs n).
Proof. intros (_ & Hp & _). by apply Permutation_length in Hp. Qed.

Lemma add_child_full n c x : node_ok n → is_byte c → c ∉ (pairs n).*1 →
  n_type n ≠ NODE256 → length (pairs n) = children_len (n_type n) →
  ∃ n', add_child n c x = Ok n' ∧ added n c x n' ∧ occupancy n'.
Proof.
  intros H Hc Hf Ht256 Hfull. unfold add_child, occupancy in *.
  destruct (n_type n) eqn:Ht; [| | |done]; cbn [children_len] in Hfull.
  - unfold add_child4. rewrite (ar_num _ _ (node_arr _ H (or_introl Ht))), Hfull.
    destruct (grow4_ok _ H Ht) as (m & Hm & Hres & Htm & Hpm).
    destruct (add_child_small m c x) as (n' & Hn' & Hadd & Ht' & _);
      [apply Hres|by right|by unfold has_room; rewrite Htm, Hpm, Hfull; cbn; lia|done|by eapply resized_fresh|].
    exists n'. rewrite Hm, Ht', Htm, (added_len _ _ _ _ Hadd), Hpm. unfold add_child in Hn'.
    rewrite Htm in Hn'. split_and!; [done|by eapply resized_added|lia..].
  - unfold add_child16. rewrite (ar_num _ _ (node_arr _ H (or_intror Ht))), Hfull.
    destruct (grow16_ok _ H Ht) as (m & Hm & Hres & Htm). pose proof (resized_len _ _ Hres) as Hlen.
    destruct (add_child48_room m c x) as (n' & Hn' & Hadd & Ht');
      [apply Hres|done|done|by eapply resized_fresh|lia|].
    exists n'. rewrite Hm, Ht', (added_len _ _ _ _ Hadd).
    split_and!; [done|by eapply resized_added|lia..].
  - unfold add_child48. rewrite (r48_num _ (node_rep48 _ H Ht)), Hfull.
    destruct (grow48_ok _ H Ht) as (m & Hm & Hres & Htm & Hpm).
    destruct (add_child256_ok m c x) as (n' & Hn' & Hadd & Ht');
      [apply Hres|done|done|by eapply resized_fresh|].
    exists n'. rewrite Hm, Ht', (added_len _ _ _ _ Hadd), Hpm.
    split_and!; [done|by eapply resized_added|lia..].
Qed.

Lemma len256 n : node_ok n → n_type n = NODE256 → (length (pairs n) ≤ 256)%nat.
Proof.
  intros H Ht. pose proof (no_children _ H) as Hl. rewrite Ht in Hl. unfold pairs. rewrite Ht.
  etrans; [apply ilist_length|]. by rewrite Hl.
Qed.

(** A node takes a child for a new byte, whatever its size, and grows when
    it is full. *)
Lemma add_child_ok n c x : node_ok n → occupancy n → is_byte c → c ∉ (pairs n).*1 →
  ∃ n', add_child n c x = Ok n' ∧ added n c x n' ∧ occupancy n'.
Proof.
  intros H Ho Hc Hf.
  destruct (decide (n_type n ≠ NODE256 ∧ length (pairs n) = children_len (n_type n))) as [[]|Hroom];
    [by apply add_child_full|].
  assert (Hcase : (small_node n ∧ has_room n) ∨ (n_type n = NODE48 ∧ (length (pairs n) < 48)%nat) ∨
    n_type n = NODE256).
  { unfold small_node, has_room, occupancy in *.
    destruct (n_type n); cbn in *; [left|left|right; left|right; right; done];
      (split; [auto|]); destruct (decide (length (pairs n) = 4%nat)), (decide (length (pairs n) = 16%nat)),
      (decide (length (pairs n) = 48%nat)); first [lia | destruct Hroom; split; congruence]. }
  unfold occupancy in *. destruct Hcase as [[Hs Hr]|[[Ht Hr]|Ht]].
  - destruct (add_child_small n c x) as (n' & Hn' & Hadd & Ht' & _); try done.
    exists n'. rewrite Ht', (added_len _ _ _ _ Hadd). split_and!; [done..|]. unfold has_room in Hr.
    destruct Hs as [Hs|Hs]; rewrite Hs in *; cbn in *; lia.
  - destruct (add_child48_room n c x) as (n' & Hn' & Hadd & Ht'); try done.
    exists n'. unfold add_child. rewrite Ht', (added_len _ _ _ _ Hadd). rewrite Ht in *.
    split_and!; [done..|lia|lia].
  - destruct (add_child256_ok n c x) as (n' & Hn' & Hadd & Ht'); try done.
    exists n'. unfold add_child. pose proof (len256 n' ltac:(apply Hadd) Ht') as Hle.
    rewrite Ht'. rewrite (added_len _ _ _ _ Hadd) in *. rewrite Ht in *. split_and!; [done..|lia|lia].
Qed.

(** ** Removing a child *)
Definition removed n c x (n' : art_inner A) : Prop :=
  node_ok n' ∧ pairs n ≡ₚ (c, x) :: pairs n' ∧ same_path n n'.

Lemma removed_resized n n' n'' c x : removed n c x n' → resized n' n'' → removed n c x n''.
Proof.
  intros (_ & Hp & Hl & Ht) (Hok & Hp' & Hl' & Ht'). split_and!; [done|by rewrite Hp, Hp'|].
  unfold same_path in *. rewrite Hl in *. split; [done|]. by rewrite Ht', Ht.
Qed.

Lemma removed_len n c x n' : removed n c x n' → length (pairs n) = S (length (pairs n')).
Proof. intros (_ & Hp & _). by apply Permutation_length in Hp. Qed.

Lemma u8_pred ps : (0 < length ps < 256)%nat → u8 (Z.of_nat (length ps) - 1) = Z.of_nat (length ps - 1).
Proof. intros. unfold u8. rewrite Z.mod_small; lia. Qed.

Lemma take_out_ok n pos c x : node_ok n → small_node n → pairs n !! pos = Some (c, x) →
  ∃ n', take_out n pos = Ok n' ∧ removed n c x n' ∧ n_type n' = n_type n ∧
    pairs n' = take pos (pairs n) ++ drop (S pos) (pairs n).
Proof.
  intros H Hs Hpos. pose proof (node_arr _ H Hs) as Hr.
  destruct (small_len _ _ H Hs Hr) as (Hle & Heq & H16). destruct (arr_take _ _ Hr) as [Hnum _].
  pose proof (no_keys _ H) as Hkl. pose proof (no_children _ H) as Hcl.
  destruct Hr as [[kr Hk] [cr Hch] Hn Hd Hb]. pose proof (lookup_lt_Some _ _ _ Hpos) as Hlt.
  set (ps := pairs n) in *. set (ps' := take pos ps ++ drop (S pos) ps).
  assert (Hps : ps ≡ₚ (c, x) :: ps').
  { unfold ps'. by rewrite Permutation_middle, take_drop_middle. }
  destruct (close_gap ps.*1 kr pos) as (kr' & Hkr & Hkrl); [by rewrite length_fmap|].
  destruct (close_gap (Some <$> ps.*2) cr pos) as (cr' & Hcr & Hcrl); [by rewrite !length_fmap|].
  rewrite length_fmap, <- fmap_take, <- fmap_drop, <- fmap_app in Hkr.
  rewrite !length_fmap, <- !fmap_take, <- !fmap_drop, <- !fmap_app in Hcr.
  fold ps' in Hkr, Hcr.
  unfold take_out. rewrite Hnum, Hk, Hch, Hkr. cbn [mbind outcome_bind]. rewrite Hcr.
  cbn [mbind outcome_bind]. eexists. split; [done|].
  apply Permutation_length in Hps as Hpl. cbn in Hpl.
  rewrite Hk, length_app, length_fmap in Hkl. rewrite Hch, length_app, !length_fmap in Hcl.
  rewrite Hps in Hd, Hb. cbn in Hd, Hb. apply NoDup_cons in Hd as [_ Hd].
  apply Forall_cons in Hb as [_ Hb].
  edestruct (arr_node_ok (with_arrays n (u8 (num_children n - 1)) (ps'.*1 ++ kr')
    ((Some <$> ps'.*2) ++ cr')) ps') as [Hok Hp']; [done|apply H|..].
  - cbn. rewrite length_app, length_fmap. lia.
  - cbn. rewrite length_app, !length_fmap. lia.
  - split; cbn; [by eexists|by eexists| |done|done]. rewrite Hn, u8_pred by lia. lia.
  - split; [|done]. split; [done|]. split; [by rewrite Hp'|done].
Qed.

(** A thinned [NODE16] becomes a [NODE4]. *)
Lemma shrink16_ok n : node_ok n → n_type n = NODE16 → length (pairs n) = 3%nat →
  ∃ n', shrink16 n = Ok n' ∧ resized n n' ∧ n_type n' = NODE4 ∧ pairs n' = pairs n.
Proof.
  intros H Ht H3. assert (Hs : small_node n) by (by right). pose proof (node_arr _ H Hs) as Hr.
  pose proof (no_keys _ H) as Hkl. pose proof (no_children _ H) as Hcl. rewrite Ht in *.
  cbn in Hkl, Hcl. destruct Hr as [[kr Hk] [cr Hch] Hn Hd Hb]. unfold shrink16.
  destruct (copy_header_ok (alloc_node NODE4) n) as (p & -> & Hp & Htk); [done|apply H|].
  cbn [mbind outcome_bind n_keys children alloc_node keys_len children_len].
  rewrite !copy_front by (rewrite ?length_replicate; lia). cbn [mbind outcome_bind].
  eexists. split; [done|]. set (n' := with_arrays _ _ _ _).
  destruct (arr_node_ok n' (pairs n)) as [Hok Hp']; [by left|done| | | |].
  - cbn -[take]. rewrite app_nil_r, length_take. lia.
  - cbn -[take]. rewrite app_nil_r, length_take. lia.
  - split; cbn -[take]; [| |done|done|done]; rewrite app_nil_r, ?Hk, ?Hch, take_app, take_ge;
      rewrite ?length_fmap; try lia; by eexists.
  - split; [|done]. split; [done|]. split; [by rewrite Hp'|done].
Qed.

Lemma remove_child16_ok n pos c x : node_ok n → n_type n = NODE16 → occupancy n →
  pairs n !! pos = Some (c, x) →
  ∃ n', remove_child16 n pos = Ok n' ∧ removed n c x n' ∧ occupancy n'.
Proof.
  intros H Ht Ho Hpos. destruct (take_out_ok _ _ _ _ H (or_intror Ht) Hpos) as (m & Hm & Hrem & Htm & _).
  rewrite Ht in Htm. pose proof (removed_len _ _ _ _ Hrem) as Hl.
  pose proof (ar_num _ _ (node_arr m ltac:(apply Hrem) (or_intror Htm))) as Hn.
  unfold remove_child16. rewrite Hm. cbn [mbind outcome_bind]. unfold occupancy in *. rewrite Ht in Ho.
  destruct (num_children m =? 3) eqn:E; breflect.
  - destruct (shrink16_ok m) as (n' & Hn' & Hres & Ht' & Hp'); [apply Hrem|done|lia|].
    exists n'. rewrite Ht', Hp'. split_and!; [done|by eapply removed_resized|lia..].
  - exists m. rewrite Htm. split_and!; [done|apply Hrem..|lia|lia].
Qed.

(** [remove_child48] without the change of size. *)
Lemma clear48_ok n c i : node_ok n → n_type n = NODE48 → is_byte c → find_child n c = Some i →
  let k := n_keys n !!! Z.to_nat c in
  ∃ x n', n' = with_arrays n (u8 (num_children n - 1)) (<[Z.to_nat c := 0]> (n_keys n))
                 (<[Z.to_nat (k - 1) := None]> (children n)) ∧
    k ≠ 0 ∧ children n !! i = Some (Some x) ∧ i = Z.to_nat (k - 1) ∧ removed n c x n'.
Proof.
  intros H Ht Hc Hf k. pose proof (key48 _ _ H Ht Hc) as Hk. fold k in Hk.
  pose proof (node_rep48 _ H Ht) as Hr. unfold find_child in Hf. rewrite Ht in Hf. fold k in Hf.
  case_match eqn:E; [done|]. injection Hf as <-. apply Z.eqb_neq in E.
  destruct (r48_keys _ Hr _ _ Hk) as [|(Hk48 & x & Hx)]; [done|].
  exists x. eexists. split; [done|]. split_and!; [done..|]. set (n' := with_arrays _ _ _ _).
  pose proof (lookup_lt_Some _ _ _ Hx) as Hlx. pose proof (lookup_lt_Some _ _ _ Hk) as Hlk.
  assert (Hinj : ∀ e, n_keys n !! e = Some (Z.of_nat (Z.to_nat (k - 1)) + 1) → e = Z.to_nat c).
  { intros e He. eapply (r48_inj _ Hr); [|done|]; [lia|]. rewrite Hk. f_equal. lia. }
  destruct (ilist_update (slot48 (children n)) (n_keys n) (Z.to_nat c) Hlk) as (L & R & HLR).
  assert (Hp : pairs n = L ++ (c, x) :: R).
  { unfold pairs. rewrite Ht. rewrite <- (list_insert_id _ _ _ Hk), HLR by done.
    rewrite (slot48_hit _ _ _ _ E Hx). cbn. unfold is_byte in Hc. do 3 f_equal. lia. }
  assert (Hp' : pairs n' = L ++ R).
  { unfold pairs. cbn. rewrite Ht, HLR; [done|]. intros j k' Hj Hk'.
    eapply (slot48_other n _ _ (Z.to_nat c) 0); [done..|]. by rewrite list_lookup_insert_ne. }
  pose proof (r48_num _ Hr) as Hn. pose proof (r48_used _ Hr) as Hu.
  pose proof (used_le (children n)) as Hul. pose proof (no_children _ H) as Hcl. rewrite Ht in Hcl.
  assert (Hpl : length (pairs n) = S (length (pairs n'))) by (rewrite Hp, Hp', !length_app; cbn; lia).
  assert (Hnum : u8 (num_children n - 1) = Z.of_nat (length (pairs n'))).
  { rewrite Hn. cbn in Hcl. rewrite u8_pred by lia. lia. }
  split; [|split; [by rewrite Hp, Hp', Permutation_middle|done]].
  split; cbn; [apply H|rewrite length_insert; apply H..|]. rewrite Ht. split; cbn.
  - intros e k' He. apply list_lookup_insert_Some in He as [(<- & <- & _)|(Hne & He)]; [by left|].
    destruct (r48_keys _ Hr _ _ He) as [|(? & z & Hz)]; [by left|right]. split; [done|].
    exists z. rewrite list_lookup_insert_ne; [done|]. intros Heq.
    apply Hne. symmetry. apply Hinj. rewrite He. f_equal. lia.
  - intros e e' k' Hk' He He'.
    apply list_lookup_insert_Some in He as [(<- & <- & _)|(Hne & He)]; [done|].
    apply list_lookup_insert_Some in He' as [(<- & <- & _)|(Hne' & He')]; [done|].
    by eapply (r48_inj _ Hr).
  - destruct (used_insert (children n) _ Hlx) as [a Ha]. rewrite Ha. cbn. rewrite Hnum.
    rewrite <- (list_insert_id _ _ _ Hx), Ha in Hu. cbn in Hu. lia.
  - done.
Qed.

(** Gathering the children of a [NODE48] in the arrays of a [NODE16]. *)
Lemma gather16_ok (old : list (option A)) idx i don kr cr :
  (∀ k, k ∈ idx → k = 0 ∨ ∃ x, old !! Z.to_nat (k - 1) = Some (Some x)) →
  let ps := ilist (slot48 old) i idx in
  (length ps ≤ length kr)%nat → length kr = length cr →
  ∃ kr' cr', gather16 old idx (Z.of_nat i) (length don) (don.*1 ++ kr) ((Some <$> don.*2) ++ cr) =
      Ok ((don ++ ps).*1 ++ kr', (Some <$> (don ++ ps).*2) ++ cr') ∧
    (length ps + length kr' = length kr)%nat ∧ length kr' = length cr'.
Proof.
  revert i don kr cr. induction idx as [|k idx IH]; intros i don kr cr Hold ps Hl Heq; cbn in ps.
  { subst ps. exists kr, cr. rewrite app_nil_r. done. }
  cbn [gather16]. assert (Hi : Z.of_nat i + 1 = Z.of_nat (S i)) by lia.
  destruct (decide (k = 0)) as [->|Hk].
  { cbn. rewrite Hi. apply IH; [|done..]. intros k' Hk'. apply Hold. set_solver. }
  rewrite (proj2 (Z.eqb_neq _ _) Hk). destruct (Hold k) as [|[x Hx]]; [set_solver|done|].
  subst ps. rewrite (slot48_hit _ _ _ _ Hk Hx) in *. set (ps := ilist _ (S i) idx) in *.
  destruct kr as [|y kr]; [cbn in Hl; lia|]. destruct cr as [|o cr]; [done|].
  cbn [length] in Hl, Heq. rewrite aset_ok by (rewrite length_app, length_fmap; cbn; lia).
  cbn [mbind outcome_bind]. rewrite (aget_ok _ _ _ Hx). cbn [mbind outcome_bind].
  rewrite aset_ok by (rewrite length_app, !length_fmap; cbn; lia). cbn [mbind outcome_bind].
  rewrite !insert_app_r_alt, !length_fmap, Nat.sub_diag by (rewrite ?length_fmap; lia).
  cbn [insert list_insert]. rewrite Hi.
  destruct (IH (S i) (don ++ [(Z.of_nat i, x)]) kr cr) as (kr' & cr' & HI & Hl1 & Hl2);
    [intros k' Hk'; apply Hold; set_solver|fold ps; lia|lia|].
  exists kr', cr'. rewrite length_app, Nat.add_1_r in HI. rewrite !fmap_app, <- !app_assoc in HI.
  cbn in HI. fold ps in HI, Hl1. cbn. rewrite HI, !fmap_app. cbn. rewrite <- !app_assoc. split_and!; [done|lia|done].
Qed.

Lemma shrink48_ok n : node_ok n → n_type n = NODE48 → (length (pairs n) ≤ 16)%nat →
  ∃ n', shrink48 n = Ok n' ∧ resized n n' ∧ n_type n' = NODE16 ∧ pairs n' = pairs n.
Proof.
  intros H Ht Hl. pose proof (node_rep48 _ H Ht) as Hr. unfold shrink48.
  destruct (copy_header_ok (alloc_node NODE16) n) as (p & -> & Hp & Htk); [done|apply H|].
  cbn [mbind outcome_bind n_keys children alloc_node keys_len children_len].
  destruct (gather16_ok (children n) (n_keys n) 0 [] (replicate 16 0) (replicate 16 None))
    as (kr & cr & Hg & Hkr & Hcr).
  { intros k [e He]%list_elem_of_lookup. destruct (r48_keys _ Hr _ _ He) as [|[_ ?]]; auto. }
  { unfold pairs in Hl. rewrite Ht in Hl. by rewrite length_replicate. }
  { by rewrite !length_replicate. }
  assert (Hps : pairs n = ilist (slot48 (children n)) 0 (n_keys n)) by (unfold pairs; by rewrite Ht).
  rewrite <- Hps in *. cbn [length app fmap list_fmap] in Hg. change (Z.of_nat 0) with 0 in Hg.
  rewrite Hg. cbn [mbind outcome_bind]. eexists. split; [done|]. set (n' := with_arrays _ _ _ _).
  rewrite length_replicate in Hkr. destruct (pairs_keys _ H) as [Hd Hb].
  destruct (arr_node_ok n' (pairs n)) as [Hok Hp']; [by right|done| | | |].
  - cbn. rewrite length_app, length_fmap. lia.
  - cbn. rewrite length_app, !length_fmap. lia.
  - split; cbn; [by eexists|by eexists|apply Hr|done|done].
  - split; [|done]. split; [done|]. split; [by rewrite Hp'|done].
Qed.

Lemma remove_child48_ok n c i : node_ok n → n_type n = NODE48 → occupancy n → is_byte c →
  find_child n c = Some i →
  ∃ x n', children n !! i = Some (Some x) ∧ remove_child48 n c = Ok n' ∧ removed n c x n' ∧
    occupancy n'.
Proof.
  intros H Ht Ho Hc Hf. pose proof (key48 _ _ H Ht Hc) as Hk. pose proof (lookup_lt_Some _ _ _ Hk) as Hlk.
  destruct (clear48_ok _ _ _ H Ht Hc Hf) as (x & m & Hm & Hnz & Hx & Hi & Hrem).
  pose proof (removed_len _ _ _ _ Hrem) as Hl. exists x. unfold remove_child48.
  rewrite (aget_ok _ _ _ Hk), aset_ok by done. cbn [mbind outcome_bind].
  rewrite (proj2 (Z.eqb_neq _ _) Hnz), aset_ok by (rewrite <- Hi; by eapply lookup_lt_Some).
  cbn [mbind outcome_bind]. rewrite <- Hm.
  assert (Htm : n_type m = NODE48) by (by subst m). unfold occupancy in *. rewrite Ht in Ho.
  pose proof (r48_num _ (node_rep48 m ltac:(apply Hrem) Htm)) as Hn.
  destruct (num_children m =? 12) eqn:E; breflect.
  - destruct (shrink48_ok m) as (n' & Hn' & Hres & Ht' & Hp'); [apply Hrem|done|lia|].
    exists n'. rewrite Ht', Hp'. split_and!; [done..|by eapply removed_resized|lia|lia].
  - exists m. rewrite Htm. split_and!; [done..|lia|lia].
Qed.

(** [remove_child256] without the change of size. *)
Lemma u8_sub_1 a : u8 (u8 a - 1) = u8 (a - 1).
Proof. unfold u8. by rewrite Zminus_mod_idemp_l. Qed.

Lemma clear256_ok n c i : node_ok n → n_type n = NODE256 → is_byte c → find_child n c = Some i →
  ∃ x, children n !! i = Some (Some x) ∧ (Z.to_nat c < length (children n))%nat ∧
    removed n c x (with_arrays n (u8 (num_children n - 1)) (n_keys n) (<[Z.to_nat c := None]> (children n))).
Proof.
  intros H Ht Hc. unfold find_child. rewrite Ht.
  destruct (children n !! Z.to_nat c) as [[x|]|] eqn:Hx; [|done..]. intros [= <-].
  pose proof (lookup_lt_Some _ _ _ Hx) as Hlt. exists x. split_and!; [done..|].
  set (n' := with_arrays _ _ _ _).
  destruct (ilist_update slot256 (children n) (Z.to_nat c) Hlt) as (L & R & HLR).
  assert (Hp : pairs n = L ++ (c, x) :: R).
  { unfold pairs. rewrite Ht. rewrite <- (list_insert_id _ _ _ Hx), HLR by done. cbn.
    unfold is_byte in Hc. do 3 f_equal. lia. }
  assert (Hp' : pairs n' = L ++ R) by (unfold pairs; cbn; by rewrite Ht, HLR).
  split; [|split; [by rewrite Hp, Hp', Permutation_middle|done]].
  split; cbn; [apply H..|rewrite length_insert; apply H|]. rewrite Ht, Hp'.
  pose proof (no_rep _ H) as Hn. rewrite Ht, Hp in Hn. rewrite Hn, u8_sub_1.
  f_equal. rewrite !length_app. cbn. lia.
Qed.

(** Gathering the children of a [NODE256] fills the index like [index48]. *)
Lemma gather48_ok (cs : list (option A)) i don idx k :
  let ps := ilist slot256 i cs in
  (length don + length ps ≤ 48)%nat → (length ps ≤ k)%nat → length idx = 256%nat →
  (i + length cs ≤ 256)%nat →
  gather48 cs i (length don) idx ((Some <$> don) ++ replicate k None) =
    (idx' ← index48 ps.*1 (Z.of_nat (length don)) idx;
     Ok (idx', (Some <$> (don ++ ps.*2)) ++ replicate (k - length ps) None)).
Proof.
  revert i don idx k. induction cs as [|[x|] cs IH]; intros i don idx k ps Hl Hk Hidx Hi; cbn in ps.
  { subst ps. cbn. by rewrite app_nil_r, Nat.sub_0_r. }
  2: { cbn [gather48]. apply IH; [done..|cbn in Hi; lia]. }
  subst ps. set (ps := ilist _ (S i) cs) in *. cbn [length] in Hl, Hk, Hi. cbn [gather48].
  destruct k as [|k]; [lia|]. cbn [replicate].
  rewrite (aset_ok (_ ++ _)) by (rewrite length_app, length_fmap; cbn; lia). cbn [mbind outcome_bind].
  rewrite aset_ok by lia. cbn [mbind outcome_bind fmap list_fmap index48 fst snd].
  rewrite Nat2Z.id, aset_ok by lia. cbn [mbind outcome_bind].
  rewrite insert_app_r_alt, length_fmap, Nat.sub_diag by (by rewrite length_fmap).
  cbn [insert list_insert].
  assert (Hu : u8 (Z.of_nat (length don) + 1) = Z.of_nat (length don) + 1)
    by (unfold u8; rewrite Z.mod_small; lia).
  specialize (IH (S i) (don ++ [x]) (<[i := Z.of_nat (length don) + 1]> idx) k).
  rewrite length_app, fmap_app, <- app_assoc, Nat.add_1_r in IH. cbn in IH. fold ps in IH.
  rewrite Hu. cbn. rewrite IH; [|lia|lia|by rewrite length_insert|lia].
  replace (Z.of_nat (length don) + 1) with (Z.of_nat (S (length don))) by lia.
  by rewrite <- app_assoc.
Qed.

Lemma shrink256_ok n : node_ok n → n_type n = NODE256 → (length (pairs n) ≤ 48)%nat →
  ∃ n', shrink256 n = Ok n' ∧ resized n n' ∧ n_type n' = NODE48.
Proof.
  intros H Ht Hl. destruct (pairs_keys _ H) as [Hd Hb]. pose proof (no_rep _ H) as Hn.
  pose proof (no_children _ H) as Hcl. rewrite Ht in *. cbn in Hcl. unfold shrink256.
  destruct (copy_header_ok (alloc_node NODE48) n) as (p & -> & Hp & Htk); [done|apply H|].
  cbn [mbind outcome_bind n_keys children alloc_node keys_len children_len].
  assert (Hps : pairs n = ilist slot256 0 (children n)) by (unfold pairs; by rewrite Ht).
  pose proof (gather48_ok (children n) 0 [] (replicate 256 0) 48) as Hg. cbv zeta in Hg.
  rewrite <- Hps in Hg. cbn [length fmap list_fmap app] in Hg.
  rewrite Hg by (rewrite ?length_replicate; lia). clear Hg.
  destruct (index48_ok (pairs n).*1 0 (replicate 256 0)) as (idx & Hix & Hil & Hin & Hout);
    [done|done|apply length_replicate|]. change (Z.of_nat 0) with 0.
  rewrite Hix. cbn [mbind outcome_bind]. eexists. split; [done|]. set (n' := with_arrays _ _ _ _).
  destruct (node48_of_pairs n' (pairs n) (48 - length (pairs n))) as [Hok Hp'];
    cbn; [done|done|done|done|done| | |done| | |].
  - rewrite length_app, !length_fmap, length_replicate. lia.
  - rewrite Hn. unfold u8. apply Z.mod_small. lia.
  - intros j k Hj. by rewrite (Hin _ _ Hj).
  - intros e He Hne. rewrite Hout by done. by apply lookup_replicate_2.
  - split; [|done]. split; [done|]. split; [by rewrite Hp'|done].
Qed.

Lemma remove_child256_ok n c i : node_ok n → n_type n = NODE256 → occupancy n → is_byte c →
  find_child n c = Some i →
  ∃ x n', children n !! i = Some (Some x) ∧ remove_child256 n c = Ok n' ∧ removed n c x n' ∧
    occupancy n'.
Proof.
  intros H Ht Ho Hc Hf. destruct (clear256_ok _ _ _ H Ht Hc Hf) as (x & Hx & Hlt & Hrem).
  exists x. unfold remove_child256. rewrite aset_ok by done. cbn [mbind outcome_bind].
  pose proof (removed_len _ _ _ _ Hrem) as Hl. pose proof (len256 _ H Ht) as H256.
  set (m := with_arrays _ _ _ _) in *. assert (Htm : n_type m = NODE256) by done.
  pose proof (no_rep m ltac:(apply Hrem)) as Hn. rewrite Htm in Hn. unfold occupancy in *. rewrite Ht in Ho.
  unfold u8 in Hn. rewrite Z.mod_small in Hn by lia.
  destruct (num_children m =? 37) eqn:E; breflect.
  - destruct (shrink256_ok m) as (n' & Hn' & Hres & Ht'); [apply Hrem|done|lia|].
    exists n'. rewrite Ht', (resized_len _ _ Hres). split_and!; [done..|by eapply removed_resized|lia|lia].
  - exists m. rewrite Htm. split_and!; [done..|lia|lia].
Qed.

(** ** Lookup and order *)

(** The reference: the children as a map from bytes. *)
Definition child_map n : gmap Z A := list_to_map (pairs n).

(** C20: In all four node formats, the child find_child returns for a byte (a
    scan of 4 keys, the SSE comparison of 16, the index of 256 bytes, the
    direct array) is the one a map of the node's key and child pairs has for
    it, and none exactly when the map has none. *)
Theorem find_child_lookup n c : node_ok n → is_byte c →
  (i ← find_child n c; mjoin (children n !! i)) = child_map n !! c.
Proof.
  unfold child_map. intros H Hc. destruct (pairs_keys _ H) as [Hd _]. destruct (find_child n c) as [i|] eqn:Hf; cbn.
  - destruct (find_child_some _ _ _ H Hc Hf) as (x & L & R & Hx & Hp & _). rewrite Hx. cbn.
    symmetry. apply elem_of_list_to_map; [done|]. rewrite Hp. set_solver.
  - symmetry. apply not_elem_of_list_to_map. by apply find_child_none.
Qed.

Lemma index_where_0 {B} (p : B → bool) l : Forall (λ b, p b = true) l → index_where p l = 0%nat.
Proof. destruct 1 as [|b l Hb]; cbn; [done|]. by rewrite Hb. Qed.

(** add_child16 compares bytes as signed chars, so a byte of 128 or more
    is put before all smaller ones: the keys of a node of 16 are not in the
    order of the unsigned bytes that the other node sizes keep. *)
Theorem node16_high_bytes_first n c x : node_ok n → n_type n = NODE16 → has_room n →
  Forall (λ k, k < 128) (pairs n).*1 → 128 ≤ c < 256 →
  ∃ n', add_child n c x = Ok n' ∧ added n c x n' ∧ pairs n' = (c, x) :: pairs n.
Proof.
  intros H Ht Hroom Hlow Hc.
  destruct (add_child_small n c x) as (n' & Hn' & Ha & _ & Hp); [done|by right|done| | |].
  - unfold is_byte. lia.
  - intros Hin. rewrite Forall_forall in Hlow. specialize (Hlow _ Hin). lia.
  - exists n'. split; [done|]. split; [exact Ha|]. cbv zeta in Hp. rewrite index_where_0 in Hp; [done|].
    destruct (pairs_keys _ H) as [_ Hb]. apply Forall_forall. intros k Hk.
    rewrite Forall_forall in Hlow, Hb. specialize (Hlow _ Hk). specialize (Hb _ Hk). unfold is_byte in Hb.
    unfold node_lt, schar. rewrite Ht, (proj2 (Z.ltb_lt k 128)), (proj2 (Z.ltb_ge c 128)) by lia.
    apply Z.ltb_lt. lia.
Qed.

End grow.

(** A [NODE16] built by the code, for the examples. *)
Definition sample16 : art_inner Z := Eval vm_compute in
  match fold_left (λ o c, n ← o; add_child n c (c * 10)) [30; 10; 40; 20; 50] (Ok (alloc_node NODE4)) with
  | Ok n => n
  | _ => alloc_node NODE16
  end.

Lemma sample16_ok : node_ok sample16.
Proof.
  split; [done..|]. change (arr_rep sample16 [(10, 100); (20, 200); (30, 300); (40, 400); (50, 500)]).
  split; cbn; [by eexists|by eexists|done|apply (bool_decide_unpack _); by vm_compute|].
  apply (bool_decide_unpack _). by vm_compute.
Qed.

Lemma find_child_lookup_witness :
  (i ← find_child sample16 40; mjoin (children sample16 !! i)) = Some 400.
Proof. rewrite (find_child_lookup sample16 40 sample16_ok) by (unfold is_byte; lia). reflexivity. Defined.

Lemma node16_high_bytes_first_witness :
  ∃ n', add_child sample16 200 2000 = Ok n' ∧ pairs n' = (200, 2000) :: pairs sample16.
Proof.
  destruct (node16_high_bytes_first sample16 200 2000 sample16_ok) as (n' & H1 & _ & H2); [done| | |lia|].
  - apply Nat.ltb_lt. reflexivity.
  - repeat constructor.
  - by exists n'.
Defined.
