(* ===== verification/Art.v ===== *)
(** * Art: the adaptive radix tree of directory entries

    The tree operations of [ds/art.c] over the nodes of [ArtNode]: search,
    insertion, deletion, the extreme leaves and the two iterations.  A key is
    passed as a pointer and a length; the pointer is a function from offsets
    to bytes, so that a read past the length is visible in the model.  The
    recursions over the tree take fuel; [height] of the tree is always enough
    (shown in [ArtOk]). *)
From Stdlib Require Import ZArith Lia.
From stdpp Require Import base numbers list gmap strings sorting.
From S2P Require Import Prelude Bitmap ArtNode.

(** ** Leaves and trees *)
Record art_leaf (V : Type) : Type := MkLeaf { l_value : V; l_key : list Z }.
Arguments MkLeaf {V} _ _.
Arguments l_value {V} _.
Arguments l_key {V} _.

(** The tag bit of a pointer ([IS_LEAF]) is the constructor. *)
Inductive art_node (V : Type) : Type :=
  | Leaf (l : art_leaf V)
  | Node (n : art_inner (art_node V)).
Arguments Leaf {V} l.
Arguments Node {V} n.

Record art_tree (V : Type) : Type := Tree { root : option (art_node V); t_size : Z }.
Arguments Tree {V} _ _.
Arguments root {V} _.
Arguments t_size {V} _.

(** The memory a key pointer points to, and its first [n] bytes. *)
Definition key_ptr : Type := nat → Z.
Definition key_bytes (key : key_ptr) (n : nat) : list Z := key <$> seq 0 n.
Definition key_at (key : key_ptr) (d : nat) : key_ptr := λ i, key (d + i)%nat.

(** The loops [for (; idx < max; idx++) if (!p(idx)) return idx;], with [k]
    steps left to [max]. *)
Fixpoint run_while (p : nat → bool) (idx k : nat) : nat :=
  match k with
  | O => idx
  | S k => if p idx then run_while p (S idx) k else idx
  end.

Section art.
Context {V : Type}.
Implicit Types (l : art_leaf V) (n : art_inner (art_node V)) (key : key_ptr) (depth : nat).

(** Fuel for the recursions: no path in the tree is longer. *)
Fixpoint height (t : art_node V) : nat :=
  match t with
  | Leaf _ => 1
  | Node n => S (max_list (map (λ o, match o with Some t => height t | None => 0%nat end) (children n)))
  end.
Definition oheight (o : option (art_node V)) : nat :=
  match o with Some t => height t | None => 0 end.

Definition art_tree_init : art_tree V := {| root := None; t_size := 0 |}.

(** *** Leaves *)

(** [l->key[i]]: [sizeof(art_leaf)] is 16 and the key starts at offset 12, so
    the zeroed allocation of [sizeof(art_leaf) + key_len] bytes has four zero
    bytes behind the key. *)
Definition leaf_byte l (i : nat) : outcome Z :=
  match l_key l !! i with
  | Some b => Ok b
  | None => if (i <? length (l_key l) + 4)%nat then Ok 0 else Fault "read behind a leaf"
  end.

Definition make_leaf key (key_len : nat) (value : V) : art_leaf V :=
  {| l_value := value; l_key := key_bytes key key_len |}.

(** True when the C function returns 0. *)
Definition leaf_matches l key (key_len : nat) : bool :=
  (length (l_key l) =? key_len)%nat && bool_decide (l_key l = key_bytes key key_len).

Definition longest_common_prefix (l1 l2 : art_leaf V) depth : nat :=
  run_while (λ idx, l_key l1 !!! (depth + idx)%nat =? l_key l2 !!! (depth + idx)%nat) 0
    (length (l_key l1) `min` length (l_key l2) - depth).

(** *** Extreme leaves *)
Definition first_child n : outcome (option (art_node V)) :=
  match n_type n with
  | NODE4 | NODE16 => aget (children n) 0
  | NODE48 =>
      k ← aget (n_keys n) (index_where (λ k, negb (k =? 0)) (n_keys n));
      aget (children n) (Z.to_nat (k - 1))
  | NODE256 => aget (children n) (index_where (λ o, negb (is_null o)) (children n))
  end.

(** The scans of [maximum] run from index 255 down. *)
Definition last_child n : outcome (option (art_node V)) :=
  match n_type n with
  | NODE4 | NODE16 =>
      if num_children n =? 0 then Fault "read outside an array" else aget (children n) (num n - 1)
  | NODE48 =>
      k ← aget (reverse (n_keys n)) (index_where (λ k, negb (k =? 0)) (reverse (n_keys n)));
      aget (children n) (Z.to_nat (k - 1))
  | NODE256 =>
      aget (reverse (children n)) (index_where (λ o, negb (is_null o)) (reverse (children n)))
  end.

Fixpoint extreme (pick : art_inner (art_node V) → outcome (option (art_node V))) (fuel : nat)
    (o : option (art_node V)) : outcome (option (art_leaf V)) :=
  match o with
  | None => Ok None
  | Some (Leaf l) => Ok (Some l)
  | Some (Node n) =>
      match fuel with
      | O => NoFuel
      | S fuel => c ← pick n; extreme pick fuel c
      end
  end.
Definition minimum (o : option (art_node V)) : outcome (option (art_leaf V)) :=
  extreme first_child (oheight o) o.
Definition maximum (o : option (art_node V)) : outcome (option (art_leaf V)) :=
  extreme last_child (oheight o) o.
Definition art_minimum (t : art_tree V) : outcome (option (art_leaf V)) := minimum (root t).
Definition art_maximum (t : art_tree V) : outcome (option (art_leaf V)) := maximum (root t).

(** *** Prefixes *)
Definition check_prefix n key (key_len depth : nat) : nat :=
  run_while (λ idx, partial n !!! idx =? key (depth + idx)%nat) 0
    (partial_len n `min` MAX_PREFIX_LEN `min` (key_len - depth)).

Definition prefix_mismatch n key (key_len depth : nat) : outcome nat :=
  let max_cmp := (MAX_PREFIX_LEN `min` partial_len n `min` (key_len - depth))%nat in
  let idx := run_while (λ idx, partial n !!! idx =? key (depth + idx)%nat) 0 max_cmp in
  if (idx <? max_cmp)%nat then Ok idx
  else if (MAX_PREFIX_LEN <? partial_len n)%nat then
    o ← minimum (Some (Node n));
    match o with
    | None => Fault "no leaf below the node"
    | Some l =>
        let max_cmp := (length (l_key l) `min` key_len - depth)%nat in
        Ok (run_while (λ idx, l_key l !!! (idx + depth)%nat =? key (depth + idx)%nat) idx (max_cmp - idx))
    end
  else Ok idx.

(** *** Search *)
Fixpoint search_loop (fuel : nat) (o : option (art_node V)) key (key_len depth : nat)
    : outcome (option V) :=
  match o with
  | None => Ok None
  | Some (Leaf l) => Ok (if leaf_matches l key key_len then Some (l_value l) else None)
  | Some (Node n) =>
      match fuel with
      | O => NoFuel
      | S fuel =>
          if negb (partial_len n =? 0)%nat &&
             negb (check_prefix n key key_len depth =? MAX_PREFIX_LEN `min` partial_len n)%nat
          then Ok None
          else
            let depth := (depth + partial_len n)%nat in
            match find_child n (if (depth <? key_len)%nat then key depth else 0) with
            | None => Ok None
            | Some i => c ← aget (children n) i; search_loop fuel c key key_len (S depth)
            end
      end
  end.
Definition art_search (t : art_tree V) key (key_len : nat) : outcome (option V) :=
  search_loop (oheight (root t)) (root t) key key_len 0.

(** *** Insertion *)

(** The header fields of [n] replaced. *)
Definition with_path n (pl : nat) (p : list Z) : art_inner (art_node V) :=
  {| n_type := n_type n; num_children := num_children n; partial_len := pl; partial := p;
     n_keys := n_keys n; children := children n |}.

(** A leaf [l] with another key becomes a [NODE4] with [l] and the new leaf. *)
Definition split_leaf l key (key_len : nat) (value : V) depth : outcome (art_node V) :=
  let new := alloc_node NODE4 in
  let l2 := make_leaf key key_len value in
  let longest_prefix := longest_common_prefix l l2 depth in
  let m := (MAX_PREFIX_LEN `min` longest_prefix)%nat in
  p ← copy (partial new) 0 (key_bytes (key_at key depth) m) 0 m;
  let new := with_path new longest_prefix p in
  c ← leaf_byte l (depth + longest_prefix);
  new ← add_child4 new c (Leaf l);
  c ← leaf_byte l2 (depth + longest_prefix);
  new ← add_child4 new c (Leaf l2);
  Ok (Node new).

(** The old node of a split, below the byte that now tells it from the new
    leaf: this byte, and the node with its path cut.  The code adds the
    pointer to the new node before or after changing the path; the node
    itself is the same. *)
Definition cut_path n (prefix_diff depth : nat) : outcome (Z * art_inner (art_node V)) :=
  let pl := (partial_len n - (prefix_diff + 1))%nat in
  if (partial_len n <=? MAX_PREFIX_LEN)%nat then
    c ← aget (partial n) prefix_diff;
    p ← copy (partial n) 0 (partial n) (prefix_diff + 1) (MAX_PREFIX_LEN `min` pl);
    Ok (c, with_path n pl p)
  else
    o ← minimum (Some (Node n));
    match o with
    | None => Fault "no leaf below the node"
    | Some l =>
        c ← leaf_byte l (depth + prefix_diff);
        p ← copy (partial n) 0 (l_key l ++ replicate 4 0) (depth + prefix_diff + 1)
              (MAX_PREFIX_LEN `min` pl);
        Ok (c, with_path n pl p)
    end.

(** A node whose path differs from the key becomes a child of a new [NODE4]. *)
Definition split_node n key (key_len : nat) (value : V) (depth prefix_diff : nat)
    : outcome (art_node V) :=
  let new := alloc_node NODE4 in
  p ← copy (partial new) 0 (partial n) 0 (MAX_PREFIX_LEN `min` prefix_diff);
  let new := with_path new prefix_diff p in
  r ← cut_path n prefix_diff depth;
  new ← add_child4 new r.1 (Node r.2);
  new ← add_child4 new (key (depth + prefix_diff)%nat) (Leaf (make_leaf key key_len value));
  Ok (Node new).

(** The new value of [*ref], the old value of the key and whether the key
    was there. *)
Fixpoint recursive_insert (fuel : nat) (o : option (art_node V)) key (key_len : nat) (value : V)
    depth : outcome (art_node V * option V * bool) :=
  match o with
  | None => Ok (Leaf (make_leaf key key_len value), None, false)
  | Some (Leaf l) =>
      if leaf_matches l key key_len
      then Ok (Leaf {| l_value := value; l_key := l_key l |}, Some (l_value l), true)
      else t ← split_leaf l key key_len value depth; Ok (t, None, false)
  | Some (Node n) =>
      match fuel with
      | O => NoFuel
      | S fuel =>
          d ← (if (partial_len n =? 0)%nat then Ok 0%nat else prefix_mismatch n key key_len depth);
          if (d <? partial_len n)%nat then
            t ← split_node n key key_len value depth d; Ok (t, None, false)
          else
            let depth := (depth + partial_len n)%nat in
            match find_child n (key depth) with
            | Some i =>
                c ← aget (children n) i;
                r ← recursive_insert fuel c key key_len value (S depth);
                Ok (Node (set_child n i r.1.1), r.1.2, r.2)
            | None =>
                n ← add_child n (key depth) (Leaf (make_leaf key key_len value));
                Ok (Node n, None, false)
            end
      end
  end.

Definition art_insert (t : art_tree V) key (key_len : nat) (value : V)
    : outcome (option V * art_tree V) :=
  r ← recursive_insert (oheight (root t)) (root t) key key_len value 0;
  Ok (r.1.2, {| root := Some r.1.1; t_size := if (r.2 : bool) then t_size t else u64 (t_size t + 1) |}).

(** *** Deletion *)

(** The only child of a node that is dropped takes over the path. *)
Definition merge_path n (child : art_inner (art_node V)) : outcome (art_inner (art_node V)) :=
  a ← (if (partial_len n <? MAX_PREFIX_LEN)%nat return outcome (list Z * nat)
       then k ← aget (n_keys n) 0; p ← aset (partial n) (partial_len n) k; Ok (p, (partial_len n + 1)%nat)
       else Ok (partial n, partial_len n));
  b ← (if (a.2 <? MAX_PREFIX_LEN)%nat return outcome (list Z * nat)
       then let sub_prefix := (partial_len child `min` (MAX_PREFIX_LEN - a.2))%nat in
            p ← copy a.1 a.2 (partial child) 0 sub_prefix; Ok (p, (a.2 + sub_prefix)%nat)
       else Ok a);
  p ← copy (partial child) 0 b.1 0 (b.2 `min` MAX_PREFIX_LEN);
  Ok (with_path child (partial_len child + (partial_len n + 1)) p).

Definition remove_child4 n (pos : nat) : outcome (art_node V) :=
  n ← take_out n pos;
  if num_children n =? 1 then
    child ← aget (children n) 0;
    match child with
    | Some (Leaf l) => Ok (Leaf l)
    | Some (Node c) => c ← merge_path n c; Ok (Node c)
    | None => Fault "null child"
    end
  else Ok (Node n).

Definition remove_child n (c : Z) (pos : nat) : outcome (art_node V) :=
  match n_type n with
  | NODE4 => remove_child4 n pos
  | NODE16 => n ← remove_child16 n pos; Ok (Node n)
  | NODE48 => n ← remove_child48 n c; Ok (Node n)
  | NODE256 => n ← remove_child256 n c; Ok (Node n)
  end.

(** [*child = o] for the slot [i]. *)
Definition set_slot n (i : nat) (o : option (art_node V)) : art_inner (art_node V) :=
  with_arrays n (num_children n) (n_keys n) (<[i := o]> (children n)).

(** The new value of [*ref] and the leaf that was unlinked. *)
Fixpoint recursive_delete (fuel : nat) (o : option (art_node V)) key (key_len depth : nat)
    : outcome (option (art_node V) * option (art_leaf V)) :=
  match o with
  | None => Ok (None, None)
  | Some (Leaf l) => Ok (if leaf_matches l key key_len then (None, Some l) else (o, None))
  | Some (Node n) =>
      match fuel with
      | O => NoFuel
      | S fuel =>
          if negb (partial_len n =? 0)%nat &&
             negb (check_prefix n key key_len depth =? MAX_PREFIX_LEN `min` partial_len n)%nat
          then Ok (o, None)
          else
            let depth := (depth + partial_len n)%nat in
            match find_child n (key depth) with
            | None => Ok (o, None)
            | Some i =>
                c ← aget (children n) i;
                match c with
                | Some (Leaf l) =>
                    if leaf_matches l key key_len
                    then t ← remove_child n (key depth) i; Ok (Some t, Some l)
                    else Ok (o, None)
                | _ =>
                    r ← recursive_delete fuel c key key_len (S depth);
                    Ok (Some (Node (set_slot n i r.1)), r.2)
                end
            end
      end
  end.

Definition art_delete (t : art_tree V) key (key_len : nat) : outcome (option V * art_tree V) :=
  r ← recursive_delete (oheight (root t)) (root t) key key_len 0;
  Ok (match r.2 with
      | Some l => (Some (l_value l), {| root := r.1; t_size := u64 (t_size t - 1) |})
      | None => (None, {| root := r.1; t_size := t_size t |})
      end).

(** *** Iteration *)

(** The children in the order of the loops of [recursive_iter]. *)
Definition visited n : list (option (art_node V)) :=
  match n_type n with
  | NODE4 | NODE16 => take (num n) (children n)
  | NODE48 => omap (λ k, if k =? 0 then None else children n !! Z.to_nat (k - 1)) (n_keys n)
  | NODE256 => filter (λ o, o ≠ None) (children n)
  end.

Section iter.
(** The callback works on a state and stops the iteration with a non-zero
    result. *)
Context {D : Type} (cb : D → list Z → V → Z * D).

Fixpoint iter_list (go : option (art_node V) → D → outcome (Z * D)) (cs : list (option (art_node V)))
    (data : D) : outcome (Z * D) :=
  match cs with
  | [] => Ok (0, data)
  | c :: cs => r ← go c data; if r.1 =? 0 then iter_list go cs r.2 else Ok r
  end.

Fixpoint recursive_iter (fuel : nat) (o : option (art_node V)) (data : D) : outcome (Z * D) :=
  match o with
  | None => Ok (0, data)
  | Some (Leaf l) => Ok (cb data (l_key l) (l_value l))
  | Some (Node n) =>
      match fuel with
      | O => NoFuel
      | S fuel => iter_list (recursive_iter fuel) (visited n) data
      end
  end.

Definition art_iter (t : art_tree V) (data : D) : outcome (Z * D) :=
  recursive_iter (oheight (root t)) (root t) data.

(** True when the C function returns 0. *)
Definition leaf_prefix_matches l key (prefix_len : nat) : bool :=
  (prefix_len <=? length (l_key l))%nat &&
  bool_decide (take prefix_len (l_key l) = key_bytes key prefix_len).

Fixpoint iter_prefix_loop (fuel : nat) (o : option (art_node V)) key (key_len depth : nat) (data : D)
    : outcome (Z * D) :=
  match o with
  | None => Ok (0, data)
  | Some (Leaf l) =>
      Ok (if leaf_prefix_matches l key key_len then cb data (l_key l) (l_value l) else (0, data))
  | Some (Node n) =>
      match fuel with
      | O => NoFuel
      | S fuel' =>
          let deeper depth :=
            match find_child n (key depth) with
            | None => Ok (0, data)
            | Some i => c ← aget (children n) i; iter_prefix_loop fuel' c key key_len (S depth) data
            end in
          if (depth =? key_len)%nat then
            m ← minimum o;
            match m with
            | None => Fault "no leaf below the node"
            | Some l =>
                if leaf_prefix_matches l key key_len then recursive_iter fuel o data else Ok (0, data)
            end
          else if (partial_len n =? 0)%nat then deeper depth
          else
            d ← prefix_mismatch n key key_len depth;
            let prefix_len := (d `min` partial_len n)%nat in
            if (prefix_len =? 0)%nat then Ok (0, data)
            else if (depth + prefix_len =? key_len)%nat then recursive_iter fuel o data
            else deeper (depth + partial_len n)%nat
      end
  end.
Definition art_iter_prefix (t : art_tree V) key (key_len : nat) (data : D) : outcome (Z * D) :=
  iter_prefix_loop (oheight (root t)) (root t) key key_len 0 data.

End iter.
End art.
