(* ===== verification/ArtOk.v ===== *)
(** * ArtOk: the radix tree implements a map from names

    [entries] lists the bindings of a tree in the order of its traversals,
    [wf] is the invariant of the tree below a path, and [art_rep] relates a
    tree to a finite map.  Search, insertion and deletion refine the map
    operations, the traversal visits every binding once, and all recursions
    end within the height of the tree. *)
From Stdlib Require Import ZArith Lia.
From stdpp Require Import base numbers list gmap strings sorting.
From S2P Require Import Prelude Bitmap ArtNode ArtGrow Art.

(** ** Names as keys

    A name has no zero byte; its C string ends with one, and so does its copy
    in a leaf.  With the terminator no name is a prefix of another. *)
Definition name_ok (k : list Z) : Prop := Forall (λ b, 0 < b < 256) k.
Definition ext (k : list Z) : list Z := k ++ [0].

(** [key] points to the C string of [k]; what lies behind it is arbitrary. *)
Record cstring (key : key_ptr) (k : list Z) : Prop := {
  cs_bytes : ∀ i, is_byte (key i);
  cs_key : ∀ i, (i ≤ length k)%nat → ext k !! i = Some (key i) }.

#[export] Instance name_ok_dec k : Decision (name_ok k).
Proof. unfold name_ok. apply _. Defined.

Lemma ext_length k : length (ext k) = S (length k).
Proof. unfold ext. rewrite length_app. cbn. lia. Qed.

Lemma ext_lookup k i : (i < length k)%nat → ext k !! i = k !! i.
Proof. intros. unfold ext. by rewrite lookup_app_l. Qed.

Lemma ext_last k : ext k !! length k = Some 0.
Proof. unfold ext. by rewrite lookup_app_r, Nat.sub_diag. Qed.

Lemma cstring_lookup key k i : cstring key k → (i < length k)%nat → k !! i = Some (key i).
Proof. intros H Hi. rewrite <- ext_lookup by done. apply H. lia. Qed.

Lemma cstring_bytes key k : cstring key k → key_bytes key (length k) = k.
Proof.
  intros H. apply list_eq. intros i. unfold key_bytes.
  rewrite list_lookup_fmap. destruct (decide (i < length k)%nat).
  - rewrite lookup_seq_lt by done. cbn. symmetry. by apply cstring_lookup.
  - rewrite lookup_seq_ge, lookup_ge_None_2 by lia. done.
Qed.

Lemma name_nonzero k i b : name_ok k → k !! i = Some b → b ≠ 0.
Proof. intros H Hi. apply (Forall_lookup_1 _ _ _ _ H) in Hi. lia. Qed.

(** A path without zero bytes that leads to the C string of [k] leads to [k]. *)
Lemma prefix_ext p k : p `prefix_of` k → p `prefix_of` ext k.
Proof. intros [r ->]. exists (r ++ [0]). unfold ext. by rewrite app_assoc. Qed.

Lemma prefix_ext_inv p k : p `prefix_of` ext k → p ≠ ext k → p `prefix_of` k.
Proof.
  intros [r Hr] Hne. destruct r as [|b r _] using rev_ind.
  { by rewrite app_nil_r in Hr. }
  unfold ext in Hr. rewrite app_assoc in Hr. apply app_inj_tail in Hr as [-> _]. by eexists.
Qed.

Lemma prefix_snoc_ext p c k : p ++ [c] `prefix_of` ext k → p `prefix_of` k.
Proof.
  intros H. apply prefix_ext_inv.
  - etrans; [|done]. by eexists.
  - intros ->. apply prefix_length in H. rewrite length_app in H. cbn in H. lia.
Qed.

Lemma prefix_lookup_at (p k : list Z) c : p ++ [c] `prefix_of` k → k !! length p = Some c.
Proof.
  intros [r ->]. rewrite <- app_assoc, lookup_app_r, Nat.sub_diag; done.
Qed.

Lemma prefix_snoc (p k : list Z) c : p `prefix_of` k → k !! length p = Some c → p ++ [c] `prefix_of` k.
Proof.
  intros [r ->]. rewrite lookup_app_r, Nat.sub_diag by lia. destruct r as [|b r]; [done|].
  intros [= ->]. exists r. by rewrite <- app_assoc.
Qed.

(** Terminated names are prefix free. *)
Lemma ext_prefix_inj k k' : name_ok k' → ext k `prefix_of` ext k' → k = k'.
Proof.
  intros Hk' H. pose proof (prefix_lookup_at _ _ _ H) as Hz. pose proof (prefix_snoc_ext _ _ _ H) as Hp.
  apply prefix_length_eq; [done|]. apply prefix_length in H. rewrite !ext_length in H.
  destruct (decide (length k < length k')%nat) as [Hl|]; [|lia].
  rewrite ext_lookup in Hz by done. by eapply name_nonzero in Hz.
Qed.

(** ** Loops that compare *)
Lemma run_while_spec p i k :
  (i ≤ run_while p i k ≤ i + k)%nat ∧
  (∀ j, (i ≤ j < run_while p i k)%nat → p j = true) ∧
  ((run_while p i k < i + k)%nat → p (run_while p i k) = false).
Proof.
  revert i. induction k as [|k IH]; intros i; cbn; [split_and!; intros; lia|].
  destruct (p i) eqn:E; [|split_and!; intros; [lia..|done]].
  destruct (IH (S i)) as (H1 & H2 & H3). split_and!; [lia..| |intros; apply H3; lia].
  intros j Hj. destruct (decide (j = i)) as [->|]; [done|]. apply H2. lia.
Qed.

(** When the loop is known to hold below [m] and to fail at [m]. *)
Lemma run_while_eq p i k m : (i ≤ m ≤ i + k)%nat → (∀ j, (i ≤ j < m)%nat → p j = true) →
  (m = i + k ∨ p m = false)%nat → run_while p i k = m.
Proof.
  intros Hm Ht Hf. destruct (run_while_spec p i k) as (H1 & H2 & H3).
  destruct (decide (run_while p i k < m)%nat) as [Hlt|].
  { rewrite Ht in H3 by lia. specialize (H3 ltac:(lia)). done. }
  destruct (decide (m < run_while p i k)%nat) as [Hlt|]; [|lia].
  destruct Hf as [|Hf]; [lia|]. rewrite H2 in Hf by lia. done.
Qed.

(** ** The bindings of a tree *)
Section entries.
Context {V : Type}.
Implicit Types (t : art_node V) (n : art_inner (art_node V)) (p q k : list Z).

Definition inner_map {A B} (f : A → B) (n : art_inner A) : art_inner B :=
  {| n_type := n_type n; num_children := num_children n; partial_len := partial_len n;
     partial := partial n; n_keys := n_keys n;
     children := map (λ o, match o with Some x => Some (f x) | None => None end) (children n) |}.

Fixpoint entries (t : art_node V) : list (list Z * V) :=
  match t with
  | Leaf l => [(l_key l, l_value l)]
  | Node n => concat (map snd (pairs (inner_map entries n)))
  end.
Definition oentries (o : option (art_node V)) : list (list Z * V) :=
  match o with Some t => entries t | None => [] end.

Lemma ilist_fmap {B C D E} (f : nat → B → option C) (g : nat → D → option E) (h : D → B) (r : E → C)
    i (l : list D) :
  (∀ j x, f j (h x) = r <$> g j x) → ilist f i (h <$> l) = r <$> ilist g i l.
Proof.
  intros H. revert i. induction l as [|x l IH]; intros i; cbn; [done|].
  rewrite H, IH. by destruct (g i x).
Qed.

Lemma pairs_map {A B} (f : A → B) (n : art_inner A) :
  pairs (inner_map f n) = prod_map id f <$> pairs n.
Proof.
  unfold pairs, num. cbn. set (g := λ o, _). destruct (n_type n).
  1,2: change (map g (children n)) with (g <$> children n); rewrite <- fmap_take;
    generalize (take (Z.to_nat (num_children n)) (n_keys n)) as ks;
    generalize (take (Z.to_nat (num_children n)) (children n)) as ch;
    intros ch; induction ch as [|[x|] ch IH]; intros [|c ks]; try done;
    cbn in IH |- *; by rewrite IH.
  - rewrite <- (list_fmap_id (n_keys n)) at 1. apply ilist_fmap. intros j k. unfold slot48, id.
    case_match; [done|]. change (map g (children n)) with (g <$> children n).
    rewrite list_lookup_fmap. by destruct (children n !! _) as [[]|].
  - change (map g (children n)) with (g <$> children n). apply ilist_fmap. intros j []; done.
Qed.

Lemma entries_node n : entries (Node n) = pairs n ≫= λ x, entries x.2.
Proof.
  cbn [entries]. rewrite pairs_map. generalize (pairs n). intros ps.
  induction ps as [|[c t] ps IH]; cbn; [done|]. by rewrite <- IH.
Qed.

Lemma elem_entries_node n k v :
  (k, v) ∈ entries (Node n) ↔ ∃ c t, (c, t) ∈ pairs n ∧ (k, v) ∈ entries t.
Proof.
  rewrite entries_node, list_elem_of_bind. split.
  - intros ([c t] & ? & ?). eauto.
  - intros (c & t & ? & ?). by exists (c, t).
Qed.

End entries.

(** ** The invariant *)
Section invariant.
Context {V : Type}.
Implicit Types (t : art_node V) (n : art_inner (art_node V)) (p q k : list Z).

(** [q] is the compressed path of [n]; only its first 16 bytes are stored. *)
Definition path_of n q : Prop :=
  partial_len n = length q ∧
  take (MAX_PREFIX_LEN `min` length q) (partial n) = take MAX_PREFIX_LEN q.

(** [t] is well formed below the bytes [p]: every key under it starts with
    them. *)
Inductive wf : list Z → art_node V → Prop :=
  | wf_leaf p l : name_ok (l_key l) → p `prefix_of` ext (l_key l) → wf p (Leaf l)
  | wf_node p q n :
      node_ok n → occupancy n → path_of n q →
      (∀ c t, (c, t) ∈ pairs n → wf (p ++ q ++ [c]) t) → wf p (Node n).

Lemma wf_entry p t k v : wf p t → (k, v) ∈ entries t → name_ok k ∧ p `prefix_of` ext k.
Proof.
  induction 1 as [p l Hk Hp|p q n Hn Ho Hq Hc IH].
  - cbn. intros [= -> ->]%list_elem_of_singleton. done.
  - intros (c & t & Hct & Hin)%elem_entries_node. destruct (IH _ _ Hct Hin) as [Hk Hp].
    split; [done|]. etrans; [|done]. by eexists.
Qed.

(** A key below a node goes through the child for its next byte. *)
Lemma wf_child_byte p q n c t k v : (∀ c t, (c, t) ∈ pairs n → wf (p ++ q ++ [c]) t) →
  (c, t) ∈ pairs n → (k, v) ∈ entries t →
  p ++ q `prefix_of` k ∧ ext k !! length (p ++ q) = Some c.
Proof.
  intros Hc Hct Hin. destruct (wf_entry _ _ _ _ (Hc _ _ Hct) Hin) as [_ Hp].
  rewrite app_assoc in Hp. split; [by eapply prefix_snoc_ext|by apply prefix_lookup_at].
Qed.

Lemma occupied n : occupancy n → pairs n ≠ [].
Proof. unfold occupancy. intros H E. rewrite E in H. destruct (n_type n); cbn in H; lia. Qed.

(** The head of the entries comes from the first child. *)
Lemma wf_nonempty p t : wf p t → ∃ k v E, entries t = (k, v) :: E.
Proof.
  induction 1 as [p l Hk Hp|p q n Hn Ho Hq Hc IH]; [cbn; eauto|].
  rewrite entries_node. pose proof (occupied _ Ho). destruct (pairs n) as [|[c t] ps]; [done|].
  destruct (IH c t) as (k & v & E & HE); [set_solver|]. cbn. rewrite HE. cbn. eauto.
Qed.

Lemma same_child n c t t' : node_ok n → (c, t) ∈ pairs n → (c, t') ∈ pairs n → t = t'.
Proof.
  intros H H1 H2. destruct (pairs_keys _ H) as [Hd _].
  apply list_elem_of_lookup in H1 as [i Hi], H2 as [j Hj].
  assert (i = j) as ->; [|congruence].
  eapply NoDup_lookup; [done| |]; by rewrite list_lookup_fmap, ?Hi, ?Hj.
Qed.

Lemma fmap_bind {B C D} (f : C → D) (g : B → list C) (l : list B) :
  f <$> (l ≫= g) = l ≫= λ x, f <$> g x.
Proof. induction l as [|x l IH]; cbn; [done|]. by rewrite fmap_app, IH. Qed.

Lemma wf_nodup p t : wf p t → NoDup (entries t).*1.
Proof.
  induction 1 as [p l Hk Hp|p q n Hn Ho Hq Hc IH]; [cbn; apply NoDup_singleton|].
  rewrite entries_node, fmap_bind. apply NoDup_bind.
  - intros [c t] [c' t'] k Hct Hct' ([k1 v] & -> & H1)%list_elem_of_fmap
      ([k2 v'] & Hk & H2)%list_elem_of_fmap. cbn in *. subst k2.
    destruct (wf_child_byte _ _ _ _ _ _ _ Hc Hct H1) as [_ Hb].
    destruct (wf_child_byte _ _ _ _ _ _ _ Hc Hct' H2) as [_ Hb'].
    assert (c = c') as <- by congruence. by rewrite (same_child _ _ _ _ Hn Hct Hct').
  - intros [c t] Hct. by apply (IH c t).
  - eapply NoDup_fmap_1. apply (pairs_keys _ Hn).
Qed.

(** ** Fuel *)
Lemma max_list_ge (l : list nat) x : x ∈ l → (x ≤ max_list l)%nat.
Proof. induction l as [|y l IH]; [set_solver|]. intros [->|H]%elem_of_cons; cbn; [lia|]. specialize (IH H). lia. Qed.

Lemma height_slot n i t : children n !! i = Some (Some t) → (height t < height (Node n))%nat.
Proof.
  intros Hi. cbn [height]. apply Nat.lt_succ_r, max_list_ge. apply list_elem_of_fmap.
  exists (Some t). split; [done|]. by eapply list_elem_of_lookup_2.
Qed.

(** A child is found by its byte. *)
Lemma find_pair n c t : node_ok n → (c, t) ∈ pairs n →
  ∃ i, find_child n c = Some i ∧ children n !! i = Some (Some t).
Proof.
  intros H Hct. assert (Hb : is_byte c).
  { destruct (pairs_keys _ H) as [_ Hb]. rewrite Forall_forall in Hb. apply Hb.
    apply list_elem_of_fmap. by exists (c, t). }
  destruct (find_child n c) as [i|] eqn:Hf.
  - exists i. split; [done|]. destruct (find_child_some _ _ _ H Hb Hf) as (t' & L & R & Ht' & Hp & _).
    assert (Hct' : (c, t') ∈ pairs n) by (rewrite Hp; set_solver).
    by rewrite (same_child _ _ _ _ H Hct Hct').
  - apply find_child_none in Hf; [|done..]. destruct Hf. apply list_elem_of_fmap. by exists (c, t).
Qed.

Lemma pair_height n c t : node_ok n → (c, t) ∈ pairs n → (height t < height (Node n))%nat.
Proof. intros H Hct. destruct (find_pair _ _ _ H Hct) as (i & _ & Hi). by eapply height_slot. Qed.

(** ** Extreme leaves *)
Lemma ilist_first {B C} (f : nat → B → option C) (b : B → bool) i (l : list B) y R :
  (∀ j x, x ∈ l → is_Some (f j x) ↔ b x = true) → ilist f i l = y :: R →
  ∃ x, l !! index_where b l = Some x ∧ f (i + index_where b l)%nat x = Some y.
Proof.
  revert i. induction l as [|x l IH]; intros i H E; cbn in *; [done|].
  destruct (f i x) as [z|] eqn:Hf.
  - injection E as <- _. rewrite (proj1 (H i x ltac:(set_solver))) by (by rewrite Hf).
    exists x. by rewrite Nat.add_0_r.
  - destruct (b x) eqn:Hb.
    { apply (H i x ltac:(set_solver)) in Hb. rewrite Hf in Hb. by destruct Hb. }
    destruct (IH (S i)) as (w & Hw & Hfw); [intros; apply H; set_solver|done|].
    exists w. split; [done|]. by rewrite Nat.add_succ_r.
Qed.

Lemma ilist_last {B C} (f : nat → B → option C) (b : B → bool) i (l : list B) y R :
  (∀ j x, x ∈ l → is_Some (f j x) ↔ b x = true) → ilist f i l = R ++ [y] →
  ∃ j x, reverse l !! index_where b (reverse l) = Some x ∧ f j x = Some y.
Proof.
  revert R. induction l as [|x l IH] using rev_ind; intros R H E; cbn in *.
  { by destruct R. }
  rewrite ilist_app in E. rewrite reverse_snoc. cbn in *.
  destruct (f (i + length l)%nat x) as [z|] eqn:Hf.
  - apply app_inj_tail in E as [_ ->].
    rewrite (proj1 (H (i + length l)%nat x ltac:(set_solver))) by (by rewrite Hf). eauto.
  - destruct (b x) eqn:Hb.
    { apply (H (i + length l)%nat x ltac:(set_solver)) in Hb. rewrite Hf in Hb. by destruct Hb. }
    rewrite app_nil_r in E. cbn. eapply IH; [|done]. intros; apply H; set_solver.
Qed.

Lemma slot48_some n j (b : Z) : rep48 n → b ∈ n_keys n →
  is_Some (slot48 (children n) j b) ↔ negb (b =? 0) = true.
Proof.
  intros Hr [e He]%list_elem_of_lookup. destruct (decide (b = 0)) as [->|Hb].
  { cbn. split; [by intros []|done]. }
  destruct (r48_keys _ Hr _ _ He) as [|(_ & x & Hx)]; [done|].
  rewrite (slot48_hit _ _ _ _ Hb Hx), (proj2 (Z.eqb_neq _ _) Hb). split; eauto.
Qed.

Lemma slot256_some (o : option (art_node V)) j : is_Some (slot256 j o) ↔ negb (is_null o) = true.
Proof. destruct o; cbn; split; done. Qed.

Lemma slot48_child n j (b : Z) c t : slot48 (children n) j b = Some (c, t) →
  aget (children n) (Z.to_nat (b - 1)) = Ok (Some t).
Proof.
  unfold slot48. case_match; [done|]. intros (x & Hx & [= -> ->])%fmap_Some. unfold aget.
  destruct (children n !! _) as [o|]; cbn in Hx; by simplify_eq.
Qed.

Lemma first_child_ok n c t ps : node_ok n → pairs n = (c, t) :: ps → first_child n = Ok (Some t).
Proof.
  intros H Hp. unfold first_child. destruct (n_type n) eqn:Ht.
  1,2: assert (Hs : small_node n) by (unfold small_node; auto);
    destruct (ar_children _ _ (node_arr _ H Hs)) as [cr ->]; by rewrite Hp.
  - unfold pairs in Hp. rewrite Ht in Hp. pose proof (node_rep48 _ H Ht) as Hr.
    edestruct (ilist_first (slot48 (children n)) (λ b : Z, negb (b =? 0))) as (k & Hk & Hs);
      [|exact Hp|]; [intros; by apply slot48_some|].
    rewrite (aget_ok _ _ _ Hk). by apply slot48_child in Hs.
  - unfold pairs in Hp. rewrite Ht in Hp.
    edestruct (ilist_first (@slot256 (art_node V)) (λ o, negb (is_null o))) as (o & Ho & Hs);
      [|exact Hp|]; [intros; by apply slot256_some|].
    rewrite (aget_ok _ _ _ Ho). by apply fmap_Some in Hs as (? & -> & [= _ ->]).
Qed.

Lemma last_child_ok n c t ps : node_ok n → pairs n = ps ++ [(c, t)] → last_child n = Ok (Some t).
Proof.
  intros H Hp. unfold last_child. destruct (n_type n) eqn:Ht.
  1,2: assert (Hs : small_node n) by (unfold small_node; auto);
    pose proof (node_arr _ H Hs) as Hr; destruct (arr_take _ _ Hr) as [Hnum _];
    pose proof (ar_num _ _ Hr) as Hn; rewrite Hp, length_app in Hn, Hnum; cbn in Hn, Hnum;
    rewrite (proj2 (Z.eqb_neq _ _)) by lia; rewrite Hnum; destruct (ar_children _ _ Hr) as [cr ->];
    rewrite Hp, !fmap_app, <- app_assoc; apply aget_ok;
    rewrite lookup_app_r by (rewrite !length_fmap; lia); rewrite !length_fmap;
    by replace (length ps + 1 - 1 - length ps)%nat with 0%nat by lia.
  - unfold pairs in Hp. rewrite Ht in Hp. pose proof (node_rep48 _ H Ht) as Hr.
    edestruct (ilist_last (slot48 (children n)) (λ b : Z, negb (b =? 0))) as (j & k & Hk & Hs);
      [|exact Hp|]; [intros; by apply slot48_some|].
    rewrite (aget_ok _ _ _ Hk). by apply slot48_child in Hs.
  - unfold pairs in Hp. rewrite Ht in Hp.
    edestruct (ilist_last (@slot256 (art_node V)) (λ o, negb (is_null o))) as (j & o & Ho & Hs);
      [|exact Hp|]; [intros; by apply slot256_some|].
    rewrite (aget_ok _ _ _ Ho). by apply fmap_Some in Hs as (? & -> & [= _ ->]).
Qed.

Lemma extreme_min p t fuel : wf p t → (height t ≤ fuel)%nat →
  ∃ l, extreme first_child fuel (Some t) = Ok (Some l) ∧ head (entries t) = Some (l_key l, l_value l).
Proof.
  intros Hw. revert fuel. induction Hw as [p l Hk Hp|p q n Hn Ho Hq Hc IH]; intros fuel Hf.
  { exists l. by destruct fuel. }
  destruct fuel as [|fuel]; [cbn in Hf; lia|]. cbn [extreme]. pose proof (occupied _ Ho).
  destruct (pairs n) as [|[c t] ps] eqn:Hps; [done|]. rewrite (first_child_ok _ _ _ _ Hn Hps).
  assert (Hct : (c, t) ∈ pairs n) by (rewrite Hps; set_solver).
  pose proof (pair_height _ _ _ Hn Hct). destruct (IH c t ltac:(set_solver) fuel) as (l & Hl & Hh); [lia|].
  exists l. split; [done|]. rewrite entries_node, Hps. cbn.
  destruct (entries t); [done|]. done.
Qed.

Lemma extreme_max p t fuel : wf p t → (height t ≤ fuel)%nat →
  ∃ l, extreme last_child fuel (Some t) = Ok (Some l) ∧ last (entries t) = Some (l_key l, l_value l).
Proof.
  intros Hw. revert fuel. induction Hw as [p l Hk Hp|p q n Hn Ho Hq Hc IH]; intros fuel Hf.
  { exists l. by destruct fuel. }
  destruct fuel as [|fuel]; [cbn in Hf; lia|]. cbn [extreme]. pose proof (occupied _ Ho).
  destruct (pairs n) as [|[c t] ps _] eqn:Hps using rev_ind; [done|]. rewrite (last_child_ok _ _ _ _ Hn Hps).
  assert (Hct : (c, t) ∈ pairs n) by (rewrite Hps; set_solver).
  pose proof (pair_height _ _ _ Hn Hct). destruct (IH c t ltac:(set_solver) fuel) as (l & Hl & Hh); [lia|].
  exists l. split; [done|]. rewrite entries_node, Hps, bind_app. cbn. rewrite app_nil_r.
  destruct (entries t) as [|e E _] using rev_ind; [done|]. rewrite app_assoc, last_snoc in *.
  done.
Qed.

(** The leaf that the comparisons of long paths fall back on. *)
Lemma minimum_ok p t : wf p t →
  ∃ l, minimum (Some t) = Ok (Some l) ∧ (l_key l, l_value l) ∈ entries t.
Proof.
  intros Hw. destruct (extreme_min p t (height t) Hw ltac:(done)) as (l & Hl & Hh).
  exists l. split; [done|]. by apply head_Some_elem_of.
Qed.

(** ** Paths *)
Lemma path_lookup n q j : path_of n q → (j < MAX_PREFIX_LEN)%nat → (j < length q)%nat →
  partial n !! j = q !! j.
Proof.
  intros [_ Hq] H1 H2. rewrite <- (lookup_take_lt q MAX_PREFIX_LEN j) by done.
  rewrite <- Hq. symmetry. apply lookup_take_lt. lia.
Qed.

Lemma path_byte n q j b : path_of n q → (j < MAX_PREFIX_LEN)%nat → q !! j = Some b →
  partial n !!! j = b.
Proof.
  intros Hq Hj Hb. apply list_lookup_total_correct. rewrite (path_lookup n q); [done..|].
  by eapply lookup_lt_Some.
Qed.

Lemma path_in_key p q k j : p ++ q `prefix_of` k → (j < length q)%nat →
  k !! (length p + j)%nat = q !! j.
Proof.
  intros [r ->] Hj. rewrite <- app_assoc, lookup_app_r by lia.
  rewrite lookup_app_l by lia. f_equal. lia.
Qed.

Lemma check_prefix_ok n q p k key : path_of n q → cstring key k → p ++ q `prefix_of` k →
  check_prefix n key (length k) (length p) = (MAX_PREFIX_LEN `min` partial_len n)%nat.
Proof.
  intros Hq Hk Hp. pose proof (prefix_length _ _ Hp) as Hl. rewrite length_app in Hl.
  pose proof (proj1 Hq) as Hpl. unfold check_prefix. rewrite Hpl.
  apply run_while_eq; [lia| |left; lia]. intros j Hj.
  assert (Hj' : (j < length q)%nat) by lia. destruct (lookup_lt_is_Some_2 q j Hj') as [b Hb].
  rewrite (path_byte n q j b); [|done|lia|done]. apply Z.eqb_eq.
  rewrite <- (path_in_key p q k j Hp Hj') in Hb.
  rewrite (cstring_lookup key k) in Hb; [congruence|done|lia].
Qed.

(** The byte under which a key of the tree is found. *)
Lemma next_byte p q n c t k v key : wf p (Node n) → path_of n q →
  (∀ c t, (c, t) ∈ pairs n → wf (p ++ q ++ [c]) t) → cstring key k →
  (c, t) ∈ pairs n → (k, v) ∈ entries t →
  let d := (length p + partial_len n)%nat in
  (d ≤ length k)%nat ∧ key d = c ∧ (if (d <? length k)%nat then key d else 0) = c.
Proof.
  intros _ [Hpl _] Hc Hk Hct Hin d. destruct (wf_child_byte _ _ _ _ _ _ _ Hc Hct Hin) as [Hp Hb].
  rewrite length_app, <- Hpl in Hb. fold d in Hb. pose proof (lookup_lt_Some _ _ _ Hb) as Hl.
  rewrite ext_length in Hl. rewrite (cs_key _ _ Hk d) in Hb by lia. injection Hb as Hb.
  split_and!; [lia|done|]. case_match eqn:E; [done|]. apply Nat.ltb_ge in E.
  pose proof (cs_key _ _ Hk d ltac:(lia)) as Hz. replace d with (length k) in * by lia.
  rewrite ext_last in Hz. congruence.
Qed.

Lemma leaf_matches_spec (l : art_leaf V) key k : cstring key k →
  leaf_matches l key (length k) = bool_decide (l_key l = k).
Proof.
  intros Hk. unfold leaf_matches. rewrite (cstring_bytes _ _ Hk).
  destruct (bool_decide_reflect (l_key l = k)) as [->|]; [by rewrite Nat.eqb_refl|].
  apply andb_false_r.
Qed.

(** ** Search *)
Lemma search_loop_ok p t fuel key k : wf p t → cstring key k → (height t ≤ fuel)%nat →
  ∃ r, search_loop fuel (Some t) key (length k) (length p) = Ok r ∧
    ∀ v, r = Some v ↔ (k, v) ∈ entries t.
Proof.
  intros Hw Hk. revert fuel. induction Hw as [p l Hl Hp|p q n Hn Ho Hq Hc IH]; intros fuel Hf.
  { eexists. split; [by destruct fuel|]. intros v. rewrite leaf_matches_spec by done. cbn.
    rewrite list_elem_of_singleton. case_bool_decide; subst; naive_solver. }
  destruct fuel as [|fuel]; [cbn in Hf; lia|]. cbn [search_loop].
  pose proof (wf_node _ _ _ Hn Ho Hq Hc) as Hw.
  case_match eqn:E.
  { exists None. split; [done|]. intros v. split; [done|].
    intros (c & t & Hct & Hin)%elem_entries_node.
    destruct (wf_child_byte _ _ _ _ _ _ _ Hc Hct Hin) as [Hpk _].
    rewrite (check_prefix_ok n q p k key), Nat.eqb_refl in E by done.
    by rewrite andb_false_r in E. }
  set (d := (length p + partial_len n)%nat). set (c := if (_ : bool) then _ else _).
  assert (Hbyte : is_byte c) by (unfold c; case_match; [apply Hk|done]).
  assert (Hin : ∀ v, (k, v) ∈ entries (Node n) ↔ ∃ t, (c, t) ∈ pairs n ∧ (k, v) ∈ entries t).
  { intros v. rewrite elem_entries_node. split; [|naive_solver]. intros (c' & t & Hct & Hin).
    destruct (next_byte p q n c' t k v key) as (_ & _ & Hd); [done..|]. fold d in Hd. fold c in Hd. subst c'. eauto. }
  destruct (find_child n c) as [i|] eqn:Hfc.
  - destruct (find_child_some _ _ _ Hn Hbyte Hfc) as (t & L & R & Ht & Hp & _).
    assert (Hct : (c, t) ∈ pairs n) by (rewrite Hp; set_solver).
    rewrite (aget_ok _ _ _ Ht). cbn [mbind outcome_bind].
    pose proof (height_slot _ _ _ Ht). destruct (IH c t Hct fuel) as (r & Hr & Hv); [lia|].
    exists r. split.
    + rewrite <- Hr. f_equal. rewrite !length_app. cbn. unfold d. destruct Hq as [-> _]. lia.
    + intros v. rewrite Hv, Hin. split; [eauto|]. intros (t' & Hct' & ?).
      by rewrite (same_child _ _ _ _ Hn Hct Hct').
  - exists None. split; [done|]. intros v. rewrite Hin. split; [done|]. intros (t & Hct & _).
    apply find_child_none in Hfc; [|done..]. destruct Hfc. apply list_elem_of_fmap. by exists (c, t).
Qed.

(** A name of the tree is found after at most one step for each of its bytes
    and one for its terminator. *)
Lemma search_steps p t fuel key k v : wf p t → cstring key k → (k, v) ∈ entries t →
  (length k < fuel + length p)%nat →
  search_loop fuel (Some t) key (length k) (length p) = Ok (Some v).
Proof.
  intros Hw Hk. revert fuel. induction Hw as [p l Hl Hp|p q n Hn Ho Hq Hc IH]; intros fuel Hin Hf.
  { cbn in Hin. apply list_elem_of_singleton in Hin as [= -> ->].
    destruct fuel; cbn; rewrite leaf_matches_spec, bool_decide_true by done; done. }
  pose proof (wf_node _ _ _ Hn Ho Hq Hc) as Hw.
  apply elem_entries_node in Hin as (c & t & Hct & Hin).
  destruct (next_byte p q n c t k v key Hw Hq Hc Hk Hct Hin) as (Hd & _ & Hb).
  destruct (wf_child_byte _ _ _ _ _ _ _ Hc Hct Hin) as [Hpk _].
  destruct fuel as [|fuel]; [lia|]. cbn [search_loop].
  rewrite (check_prefix_ok n q p k key), Nat.eqb_refl, andb_false_r by done. cbv zeta. rewrite Hb.
  destruct (find_pair _ _ _ Hn Hct) as (i & -> & Hi). rewrite (aget_ok _ _ _ Hi). cbn [mbind outcome_bind].
  destruct Hq as [Hpl _]. rewrite <- (IH c t Hct fuel Hin).
  - f_equal. rewrite !length_app. cbn. lia.
  - rewrite !length_app. cbn. lia.
Qed.

(** ** Where a key leaves the compressed path *)
Lemma prefix_extend p q k d : p `prefix_of` k → (d ≤ length q)%nat →
  (∀ j, (j < d)%nat → k !! (length p + j)%nat = q !! j) → p ++ take d q `prefix_of` k.
Proof.
  intros [r ->] Hd H. apply prefix_app. exists (drop d r).
  rewrite <- (take_drop d r) at 1. f_equal. apply list_eq. intros j.
  destruct (decide (j < d)%nat) as [Hj|].
  - rewrite !lookup_take_lt by done. specialize (H j Hj). rewrite lookup_app_r in H by lia.
    rewrite <- H. f_equal. lia.
  - rewrite !lookup_take_ge by lia. done.
Qed.

(** [d] is where [k] leaves the path [q] below [p], or [d] is past its end. *)
Definition leaves_at p q k (d : nat) : Prop :=
  (length q ≤ d)%nat ∧ p ++ q `prefix_of` k ∨
  (d < length q)%nat ∧ p ++ take d q `prefix_of` k ∧
  ∃ a b, q !! d = Some a ∧ ext k !! (length p + d)%nat = Some b ∧ a ≠ b.

Lemma leaves_at_intro p q k d : p `prefix_of` k → Forall (λ b, b ≠ 0) q →
  (∀ j, (j < d)%nat → (j < length q)%nat → k !! (length p + j)%nat = q !! j) →
  ((d < length q)%nat → (length p + d = length k)%nat ∨
     ∃ b, k !! (length p + d)%nat = Some b ∧ q !! d ≠ Some b) →
  leaves_at p q k d.
Proof.
  intros Hp Hnz Heq Hd. destruct (decide (d < length q)%nat) as [Hlt|]; [right|left].
  - split_and!; [done|apply prefix_extend; [done|lia|intros; apply Heq; lia]|].
    destruct (lookup_lt_is_Some_2 q d Hlt) as [a Ha]. exists a.
    destruct (Hd Hlt) as [Hend|(b & Hb & Hne)].
    + exists 0. rewrite Hend, ext_last. split_and!; [done..|].
      by apply (Forall_lookup_1 _ _ _ _ Hnz) in Ha.
    + exists b. pose proof (lookup_lt_Some _ _ _ Hb). rewrite ext_lookup by done.
      split_and!; [done..|]. congruence.
  - split; [lia|]. rewrite <- (take_ge q (length q)) by done.
    apply prefix_extend; [done..|]. intros; apply Heq; lia.
Qed.

(** Some key goes through the node. *)
Lemma node_has_key p q n : occupancy n → (∀ c t, (c, t) ∈ pairs n → wf (p ++ q ++ [c]) t) →
  ∃ k, name_ok k ∧ p ++ q `prefix_of` k.
Proof.
  intros Ho Hc. pose proof (occupied _ Ho). destruct (pairs n) as [|[c t] ps] eqn:Hps; [done|].
  destruct (wf_nonempty _ _ (Hc c t ltac:(set_solver))) as (k & v & E & HE).
  destruct (wf_entry _ _ k v (Hc c t ltac:(set_solver))) as [Hk Hp]; [rewrite HE; set_solver|].
  exists k. split; [done|]. rewrite app_assoc in Hp. by eapply prefix_snoc_ext.
Qed.

Lemma name_nonzero_all k : name_ok k → Forall (λ b, b ≠ 0) k.
Proof. intros H. eapply Forall_impl; [exact H|]. cbn. lia. Qed.

Lemma node_path_nonzero p q n : occupancy n → (∀ c t, (c, t) ∈ pairs n → wf (p ++ q ++ [c]) t) →
  Forall (λ b, b ≠ 0) (p ++ q).
Proof.
  intros Ho Hc. destruct (node_has_key _ _ _ Ho Hc) as (k & Hk & [r ->]).
  apply name_nonzero_all in Hk. by apply Forall_app in Hk as [? _].
Qed.

Lemma node_prefix p q n k : occupancy n → (∀ c t, (c, t) ∈ pairs n → wf (p ++ q ++ [c]) t) →
  p `prefix_of` ext k → p `prefix_of` k.
Proof.
  intros Ho Hc Hp. apply prefix_ext_inv; [done|]. intros ->.
  apply node_path_nonzero in Hc; [|done]. unfold ext in Hc.
  rewrite !Forall_app, Forall_singleton in Hc. naive_solver.
Qed.

Lemma prefix_mismatch_ok p q n key k : node_ok n → occupancy n → path_of n q →
  (∀ c t, (c, t) ∈ pairs n → wf (p ++ q ++ [c]) t) → cstring key k → p `prefix_of` k →
  ∃ d, prefix_mismatch n key (length k) (length p) = Ok d ∧ leaves_at p q k d.
Proof.
  intros Hn Ho Hq Hc Hk Hp. pose proof (node_path_nonzero _ _ _ Ho Hc) as Hnz.
  apply Forall_app in Hnz as [_ Hnz]. pose proof (wf_node _ _ _ Hn Ho Hq Hc) as Hw.
  pose proof (prefix_length _ _ Hp) as Hlp. unfold prefix_mismatch. pose proof (proj1 Hq) as Hpl.
  rewrite Hpl. set (m := (_ `min` _ `min` _)%nat).
  destruct (run_while_spec (λ idx, partial n !!! idx =? key (length p + idx)%nat) 0 m) as (Hm & Heq & Hne).
  set (idx := run_while _ 0 m) in *.
  assert (Heq' : ∀ j, (j < idx)%nat → (j < length q)%nat → k !! (length p + j)%nat = q !! j).
  { intros j Hj Hjq. destruct (lookup_lt_is_Some_2 q j Hjq) as [b Hb].
    specialize (Heq j ltac:(lia)). rewrite (path_byte n q j b) in Heq; [|done|lia|done].
    apply Z.eqb_eq in Heq. rewrite (cstring_lookup key k) by (done || lia). congruence. }
  case_match eqn:E; [|apply Nat.ltb_ge in E; case_match eqn:E16].
  - apply Nat.ltb_lt in E. exists idx. split; [done|]. apply leaves_at_intro; [done..|].
    intros _. right. exists (key (length p + idx)%nat). split; [apply cstring_lookup; [done|lia]|].
    specialize (Hne ltac:(lia)). apply Z.eqb_neq in Hne. intros Hqi. apply Hne.
    eapply path_byte; [done|lia|done].
  - apply Nat.ltb_lt in E16. destruct (minimum_ok _ _ Hw) as (l & -> & Hl). cbn [mbind outcome_bind].
    apply elem_entries_node in Hl as (c & t & Hct & Hl).
    destruct (wf_child_byte _ _ _ _ _ _ _ Hc Hct Hl) as [Hpq _].
    pose proof (prefix_length _ _ Hpq) as Hlpq. rewrite length_app in Hlpq.
    set (m2 := (_ - length p)%nat). eexists. split; [done|].
    destruct (run_while_spec (λ idx, l_key l !!! (idx + length p)%nat =? key (length p + idx)%nat) idx (m2 - idx))
      as (Hm2 & Heq2 & Hne2). set (d := run_while _ idx _) in *.
    assert (Hlq : ∀ j, (j < length q)%nat → q !! j = Some (l_key l !!! (j + length p)%nat)).
    { intros j Hj. rewrite <- (path_in_key p q (l_key l) j Hpq Hj), Nat.add_comm.
      apply list_lookup_lookup_total_lt. lia. }
    apply leaves_at_intro; [done..| |].
    + intros j Hj Hjq. destruct (decide (j < idx)%nat) as [|Hji]; [by apply Heq'|].
      specialize (Heq2 j ltac:(lia)). apply Z.eqb_eq in Heq2.
      rewrite (cstring_lookup key k), Hlq by (done || lia). congruence.
    + intros Hdq. destruct (decide (length p + d = length k)%nat) as [|Hend]; [by left|right].
      exists (key (length p + d)%nat). split; [apply cstring_lookup; [done|lia]|].
      rewrite Hlq by done. intros [= He]. destruct (decide (d < idx + (m2 - idx))%nat) as [Hd|].
      * specialize (Hne2 Hd). apply Z.eqb_neq in Hne2. done.
      * lia.
  - apply Nat.ltb_ge in E16. exists idx. split; [done|]. apply leaves_at_intro; [done..|].
    intros Hlt. left. lia.
Qed.

End invariant.
