(* ===== verification/ArtMap.v ===== *)
(** * ArtMap: insertion and deletion in the radix tree, and the map it is

    Insertion splits leaves and compressed paths, deletion joins them again;
    both keep the invariant of [ArtOk].  The section [refinement] relates
    [art_search], [art_insert], [art_delete] and [art_iter] to a finite map
    from names. *)
From Stdlib Require Import ZArith Lia.
From stdpp Require Import base numbers list gmap strings sorting.
From S2P Require Import Prelude Bitmap ArtNode ArtGrow Art ArtOk.

Section insert.
Context {V : Type}.
Implicit Types (t : art_node V) (n : art_inner (art_node V)) (p q k : list Z).

(** ** New nodes *)

(** Another path does not change the contents. *)
Lemma with_path_ok n pl pp : node_ok n → length pp = MAX_PREFIX_LEN →
  node_ok (with_path n pl pp) ∧ pairs (with_path n pl pp) = pairs n ∧
  (occupancy n → occupancy (with_path n pl pp)).
Proof.
  intros [H1 H2 H3 H4] Hp. split_and!; [|done|done]. split; [done..|].
  cbn. change (pairs (with_path n pl pp)) with (pairs n). destruct (n_type n); try done.
  1,2: by destruct H4; split. destruct H4; split; done.
Qed.

Lemma fresh_pairs pl pp : length pp = MAX_PREFIX_LEN →
  let n := with_path (@alloc_node (art_node V) NODE4) pl pp in node_ok n ∧ pairs n = [].
Proof. intros Hp n. apply arr_node_ok; try done; [by left|]. split; cbn; [by eexists|by eexists|done|constructor|constructor]. Qed.

(** Two children with different bytes in a new [NODE4]. *)
Lemma node_of_two pl pp a b t t' : length pp = MAX_PREFIX_LEN → is_byte a → is_byte b → a ≠ b →
  ∃ n, (new ← add_child4 (with_path (alloc_node NODE4) pl pp) a t; add_child4 new b t') = Ok n ∧
    node_ok n ∧ occupancy n ∧ pairs n ≡ₚ [(a, t); (b, t')] ∧ partial_len n = pl ∧
    take (MAX_PREFIX_LEN `min` pl) (partial n) = take (MAX_PREFIX_LEN `min` pl) pp.
Proof.
  intros Hpp Ha Hb Hab. destruct (fresh_pairs pl pp Hpp) as [H0 Hp0]. set (n0 := with_path _ _ _) in *.
  destruct (add_child_small n0 a t) as (n1 & Hn1 & Hadd1 & Ht1 & _);
    [done|by left|by unfold has_room; rewrite Hp0; cbn; lia|done|by rewrite Hp0; apply not_elem_of_nil|].
  pose proof Hadd1 as (H1 & Hp1 & Hl1 & Htk1). rewrite Hp0 in Hp1. cbn in Ht1.
  destruct (add_child_small n1 b t') as (n2 & Hn2 & Hadd2 & Ht2 & _).
  { done. } { by left. } { unfold has_room. rewrite Hp1, Ht1. cbn. lia. } { done. }
  { rewrite Hp1. cbn. by apply not_elem_of_cons; split; [|apply not_elem_of_nil]. }
  destruct Hadd2 as (H2 & Hp2 & Hl2 & Htk2). change (add_child n0 a t) with (add_child4 n0 a t) in Hn1.
  unfold add_child in Hn2. rewrite Ht1 in Hn2.
  exists n2. rewrite Hn1. cbn [mbind outcome_bind]. split_and!; [done|done| | |by rewrite Hl2, Hl1|].
  - unfold occupancy. rewrite Ht2, Ht1, Hp2, Hp1. cbn. lia.
  - rewrite Hp2, Hp1. apply perm_swap.
  - rewrite Hl1 in Htk2. cbn in Htk1, Htk2. by rewrite Htk2, Htk1.
Qed.

(** A node with two children is well formed when the children are. *)
Lemma wf_of_two p q n a b t t' : node_ok n → occupancy n → pairs n ≡ₚ [(a, t); (b, t')] →
  path_of n q → wf (p ++ q ++ [a]) t → wf (p ++ q ++ [b]) t' →
  wf p (Node n) ∧ entries (Node n) ≡ₚ entries t ++ entries t'.
Proof.
  intros Hn Ho Hp Hq Ht Ht'. split.
  - apply (wf_node p q); [done..|]. intros c t0. rewrite Hp, !elem_of_cons, elem_of_nil. naive_solver.
  - rewrite entries_node, Hp. cbn. by rewrite app_nil_r.
Qed.

(** ** Splitting a leaf *)
Lemma leaf_byte_ext (l : art_leaf V) i b : ext (l_key l) !! i = Some b → leaf_byte l i = Ok b.
Proof.
  intros Hb. unfold leaf_byte. pose proof (lookup_lt_Some _ _ _ Hb) as Hl. rewrite ext_length in Hl.
  destruct (l_key l !! i) as [b'|] eqn:E.
  - rewrite ext_lookup in Hb by (by eapply lookup_lt_Some). congruence.
  - apply lookup_ge_None in E. replace i with (length (l_key l)) in * by lia.
    rewrite ext_last in Hb. rewrite (proj2 (Nat.ltb_lt _ _)) by lia. congruence.
Qed.

Lemma name_ext_byte k i b : name_ok k → ext k !! i = Some b → is_byte b.
Proof.
  intros Hk Hb. unfold is_byte. pose proof (lookup_lt_Some _ _ _ Hb) as Hl. rewrite ext_length in Hl.
  destruct (decide (i < length k)%nat).
  - rewrite ext_lookup in Hb by done. apply (Forall_lookup_1 _ _ _ _ Hk) in Hb. lia.
  - replace i with (length k) in * by lia. rewrite ext_last in Hb. injection Hb as <-. lia.
Qed.

Lemma ext_zero k i : name_ok k → ext k !! i = Some 0 → i = length k.
Proof.
  intros Hk Hi. pose proof (lookup_lt_Some _ _ _ Hi) as Hl. rewrite ext_length in Hl.
  destruct (decide (i < length k)%nat); [|lia]. rewrite ext_lookup in Hi by done.
  by eapply name_nonzero in Hi.
Qed.

(** Two different names part after a common prefix. *)
Lemma lcp_ok p (l l2 : art_leaf V) : name_ok (l_key l) → name_ok (l_key l2) → l_key l ≠ l_key l2 →
  p `prefix_of` ext (l_key l) → p `prefix_of` ext (l_key l2) →
  ∃ q a b, longest_common_prefix l l2 (length p) = length q ∧
    p ++ q `prefix_of` l_key l ∧ p ++ q `prefix_of` l_key l2 ∧
    ext (l_key l) !! length (p ++ q) = Some a ∧ ext (l_key l2) !! length (p ++ q) = Some b ∧ a ≠ b.
Proof.
  intros Hk Hk2 Hne Hp Hp2. set (k := l_key l) in *. set (k2 := l_key l2) in *.
  assert (Hpk : p `prefix_of` k).
  { apply prefix_ext_inv; [done|]. intros ->. apply ext_prefix_inj in Hp2; [done|done]. }
  assert (Hpk2 : p `prefix_of` k2).
  { apply prefix_ext_inv; [done|]. intros ->. apply ext_prefix_inj in Hp; [congruence|done]. }
  unfold longest_common_prefix. fold k k2. set (m := (_ - length p)%nat).
  destruct (run_while_spec (λ idx, k !!! (length p + idx)%nat =? k2 !!! (length p + idx)%nat) 0 m)
    as (Hm & Heq & Hnq). set (d := run_while _ 0 m) in *.
  pose proof (prefix_length _ _ Hpk) as Hl1. pose proof (prefix_length _ _ Hpk2) as Hl2.
  set (q := take d (drop (length p) k)).
  assert (Hlq : length q = d) by (unfold q; rewrite length_take, length_drop; lia).
  assert (Hqk : ∀ j, (j < d)%nat → q !! j = k !! (length p + j)%nat).
  { intros j Hj. unfold q. by rewrite lookup_take_lt, lookup_drop. }
  assert (Hqk2 : ∀ j, (j < d)%nat → k2 !! (length p + j)%nat = q !! j).
  { intros j Hj. rewrite Hqk by done. specialize (Heq j ltac:(lia)). apply Z.eqb_eq in Heq.
    rewrite !list_lookup_lookup_total_lt by lia. by rewrite Heq. }
  assert (Hq : take d q = q) by (apply take_ge; lia).
  exists q. rewrite length_app, Hlq.
  assert (Hp1 : p ++ q `prefix_of` k).
  { rewrite <- Hq. apply prefix_extend; [done|lia|]. intros. by rewrite Hqk. }
  assert (Hp3 : p ++ q `prefix_of` k2) by (rewrite <- Hq; apply prefix_extend; [done|lia|done]).
  pose proof (prefix_length _ _ Hp1) as Hlk. pose proof (prefix_length _ _ Hp3) as Hlk2.
  rewrite length_app, Hlq in Hlk, Hlk2.
  destruct (lookup_lt_is_Some_2 (ext k) (length p + d)) as [a Ha]; [rewrite ext_length; lia|].
  destruct (lookup_lt_is_Some_2 (ext k2) (length p + d)) as [b Hb]; [rewrite ext_length; lia|].
  exists a, b. split_and!; [done..|]. intros <-.
  destruct (decide (d < m)%nat) as [Hdm|Hdm].
  { specialize (Hnq ltac:(lia)). apply Z.eqb_neq in Hnq. apply Hnq.
    rewrite ext_lookup in Ha, Hb by lia.
    by rewrite (list_lookup_total_correct _ _ _ Ha), (list_lookup_total_correct _ _ _ Hb). }
  assert (Hz : a = 0).
  { destruct (decide (length p + d = length k)%nat) as [He|He]; [rewrite He, ext_last in Ha; congruence|].
    replace (length p + d)%nat with (length k2) in Hb by lia. rewrite ext_last in Hb. congruence. }
  subst a. apply (ext_zero _ _ Hk) in Ha. apply (ext_zero _ _ Hk2) in Hb. apply Hne.
  apply prefix_length_eq in Hp1; [|rewrite length_app; lia].
  apply prefix_length_eq in Hp3; [|rewrite length_app; lia]. congruence.
Qed.

(** [min(16, pl)] bytes of the path, followed by zeroes. *)
Lemma path_copy (src : list Z) m : (m ≤ MAX_PREFIX_LEN)%nat → (m ≤ length src)%nat →
  ∃ pp, copy (replicate MAX_PREFIX_LEN 0) 0 src 0 m = Ok pp ∧ length pp = MAX_PREFIX_LEN ∧
    take m pp = take m src.
Proof.
  intros H1 H2. eexists. split; [apply copy_front; [by rewrite length_replicate|done]|]. split.
  - rewrite length_app, length_take, length_drop, length_replicate. lia.
  - rewrite take_app_length'; [done|]. rewrite length_take. lia.
Qed.

Lemma key_bytes_at key k d m : cstring key k → (d + m ≤ length k)%nat →
  key_bytes (key_at key d) m = take m (drop d k).
Proof.
  intros Hk Hl. apply list_eq. intros i. unfold key_bytes. rewrite list_lookup_fmap.
  destruct (decide (i < m)%nat).
  - rewrite lookup_seq_lt, lookup_take_lt, lookup_drop by done. cbn.
    symmetry. apply (cstring_lookup key); [done|lia].
  - by rewrite lookup_seq_ge, lookup_take_ge by lia.
Qed.

Lemma wf_new_leaf p key k (v : V) : cstring key k → name_ok k → p `prefix_of` ext k →
  wf p (Leaf (make_leaf key (length k) v)) ∧ entries (Leaf (make_leaf key (length k) v)) = [(k, v)].
Proof.
  intros Hk Hn Hp. unfold make_leaf. rewrite (cstring_bytes _ _ Hk). split; [by constructor|done].
Qed.

Lemma split_leaf_ok p (l : art_leaf V) key k (v : V) : name_ok (l_key l) → p `prefix_of` ext (l_key l) →
  cstring key k → name_ok k → p `prefix_of` ext k → l_key l ≠ k →
  ∃ t, split_leaf l key (length k) v (length p) = Ok t ∧ wf p t ∧
    entries t ≡ₚ (k, v) :: entries (Leaf l).
Proof.
  intros Hl Hpl Hk Hkn Hpk Hne. unfold split_leaf. set (l2 := make_leaf key (length k) v).
  assert (Hl2 : l_key l2 = k) by apply (cstring_bytes _ _ Hk).
  destruct (lcp_ok p l l2) as (q & a & b & Hlcp & Hq1 & Hq2 & Ha & Hb & Hab);
    rewrite ?Hl2 in *; try done. rewrite Hlcp.
  pose proof (prefix_length _ _ Hq2) as Hlq. rewrite length_app in Hlq.
  rewrite (key_bytes_at _ k) by (done || lia).
  assert (Hdr : take MAX_PREFIX_LEN q = take (MAX_PREFIX_LEN `min` length q) (drop (length p) k)).
  { destruct Hq2 as [r ->]. rewrite <- app_assoc, drop_app_length, take_app_le by lia.
    destruct (decide (MAX_PREFIX_LEN ≤ length q)%nat); [by rewrite Nat.min_l|].
    rewrite Nat.min_r, !take_ge by lia. done. }
  destruct (path_copy (take (MAX_PREFIX_LEN `min` length q) (drop (length p) k))
    (MAX_PREFIX_LEN `min` length q)) as (pp & Hpp & Hppl & Htk);
    [lia|rewrite length_take, length_drop; lia|].
  cbn [alloc_node partial]. rewrite Hpp. cbn [mbind outcome_bind].
  rewrite <- length_app, (leaf_byte_ext l _ a Ha), (leaf_byte_ext l2 _ b) by (by rewrite Hl2).
  cbn [mbind outcome_bind].
  destruct (node_of_two (length q) pp a b (Leaf l) (Leaf l2)) as (n & Hn & Hok & Ho & Hps & Hpl' & Htk');
    [done|exact (name_ext_byte _ _ _ Hl Ha)|exact (name_ext_byte _ _ _ Hkn Hb)|done|].
  cbn [mbind outcome_bind] in Hn. destruct (add_child4 _ a _) as [m| | |]; try done. cbn in Hn |- *.
  rewrite Hn. cbn. eexists. split; [done|].
  destruct (wf_of_two p q n a b (Leaf l) (Leaf l2)) as [Hw He]; try done.
  - split; [done|]. rewrite Htk', Htk, Hdr, take_take. f_equal. lia.
  - constructor; [done|]. rewrite app_assoc. apply prefix_snoc; [by apply prefix_ext|done].
  - constructor; rewrite Hl2; [done|]. rewrite app_assoc. apply prefix_snoc; [by apply prefix_ext|done].
  - split; [done|]. rewrite He. cbn [entries app]. rewrite Hl2. apply perm_swap.
Qed.

(** ** Splitting a path *)
Lemma path_take n q d pp : path_of n q → (d ≤ length q)%nat →
  take (MAX_PREFIX_LEN `min` d) pp = take (MAX_PREFIX_LEN `min` d) (partial n) →
  take (MAX_PREFIX_LEN `min` length (take d q)) pp = take MAX_PREFIX_LEN (take d q).
Proof.
  intros [_ Hq] Hd Hpp. rewrite length_take, (Nat.min_l d) by done. rewrite Hpp, take_take.
  rewrite <- (Nat.min_l (MAX_PREFIX_LEN `min` d) (MAX_PREFIX_LEN `min` length q)) at 1 by lia.
  rewrite <- take_take, Hq, take_take. f_equal. lia.
Qed.

Lemma cut_path_ok p q n d : node_ok n → occupancy n → path_of n q →
  (∀ c t, (c, t) ∈ pairs n → wf (p ++ q ++ [c]) t) → (d < length q)%nat →
  ∃ a pp, cut_path n d (length p) = Ok (a, with_path n (length q - (d + 1)) pp) ∧
    q !! d = Some a ∧ length pp = MAX_PREFIX_LEN ∧
    path_of (with_path n (length q - (d + 1)) pp) (drop (S d) q).
Proof.
  intros Hn Ho Hq Hc Hd. destruct (lookup_lt_is_Some_2 q d Hd) as [a Ha].
  pose proof (no_partial _ Hn) as Hp16. pose proof (proj1 Hq) as Hpl.
  assert (Hdl : length (drop (S d) q) = (length q - (d + 1))%nat) by (rewrite length_drop; lia).
  unfold cut_path, path_of. rewrite Hdl. cbn [partial_len partial with_path].
  rewrite Hpl. set (pl := (length q - (d + 1))%nat) in *.
  case_match eqn:E.
  - apply Nat.leb_le in E. rewrite (aget_ok _ _ a) by (rewrite (path_lookup n q) by (done || lia); done).
    cbn [mbind outcome_bind]. rewrite copy_ok by lia. cbn [mbind outcome_bind].
    eexists a, _. split; [done|]. split_and!; [done| |done|].
    + rewrite !length_app, !length_take, !length_drop. lia.
    + rewrite take_0, app_nil_l, Nat.add_0_l.
      rewrite take_app_length' by (rewrite length_take, length_drop; lia).
      destruct Hq as [_ Hq]. rewrite Nat.min_r, (take_ge q) in Hq by lia.
      rewrite Nat.add_1_r, Nat.min_r, (take_ge (drop (S d) q)) by lia. rewrite <- Hq.
      rewrite skipn_firstn_comm. f_equal; lia.
  - apply Nat.leb_gt in E. destruct (minimum_ok p (Node n)) as (l & -> & Hl); [by econstructor|].
    cbn [mbind outcome_bind]. apply elem_entries_node in Hl as (c & t & Hct & Hl).
    destruct (wf_child_byte _ _ _ _ _ _ _ Hc Hct Hl) as [Hpq _].
    pose proof (prefix_length _ _ Hpq) as Hlpq. rewrite length_app in Hlpq.
    rewrite (leaf_byte_ext l _ a).
    2: { rewrite ext_lookup by lia. by rewrite (path_in_key p q). }
    cbn [mbind outcome_bind]. rewrite copy_ok by (rewrite ?length_app, ?length_replicate; lia).
    cbn [mbind outcome_bind]. eexists a, _. split; [done|]. split_and!; [done| |done|].
    + rewrite !length_app, !length_take, !length_drop, length_app, length_replicate. lia.
    + rewrite take_0, app_nil_l, Nat.add_0_l.
      rewrite take_app_length' by (rewrite length_take, length_drop, length_app, length_replicate; lia).
      destruct Hpq as [r ->]. rewrite <- !app_assoc.
      rewrite drop_app_ge by lia. replace (length p + d + 1 - length p)%nat with (S d) by lia.
      rewrite drop_app_le, take_app_le by (rewrite ?length_drop; lia).
      destruct (decide (MAX_PREFIX_LEN ≤ pl)%nat); [by rewrite Nat.min_l|].
      rewrite Nat.min_r, !take_ge by lia. done.
Qed.

Lemma split_node_ok p q n d key k (v : V) : node_ok n → occupancy n → path_of n q →
  (∀ c t, (c, t) ∈ pairs n → wf (p ++ q ++ [c]) t) → cstring key k → name_ok k →
  (d < length q)%nat → p ++ take d q `prefix_of` k →
  (∃ a b, q !! d = Some a ∧ ext k !! (length p + d)%nat = Some b ∧ a ≠ b) →
  ∃ t, split_node n key (length k) v (length p) d = Ok t ∧ wf p t ∧
    entries t ≡ₚ (k, v) :: entries (Node n).
Proof.
  intros Hn Ho Hq Hc Hk Hkn Hd Hpk (a & b & Ha & Hb & Hab). unfold split_node.
  pose proof (no_partial _ Hn) as Hp16.
  destruct (path_copy (partial n) (MAX_PREFIX_LEN `min` d)) as (pp & Hpp & Hppl & Htk); [lia|lia|].
  cbn [alloc_node partial]. rewrite Hpp. cbn [mbind outcome_bind].
  destruct (cut_path_ok p q n d) as (a' & pp' & -> & Ha' & Hpp' & Hq'); [done..|].
  replace a' with a in * by congruence. cbn [mbind outcome_bind fst snd].
  set (n' := with_path n _ pp') in *. pose proof (prefix_length _ _ Hpk) as Hlp.
  rewrite length_app, length_take, Nat.min_l in Hlp by lia.
  rewrite (cs_key _ _ Hk) in Hb by lia. injection Hb as Hb.
  destruct (wf_new_leaf (p ++ take d q ++ [b]) key k v) as [Hwl Hel]; [done..| |].
  { rewrite app_assoc. apply prefix_snoc; [by apply prefix_ext|].
    rewrite length_app, length_take, Nat.min_l by lia. rewrite (cs_key _ _ Hk) by lia. by rewrite Hb. }
  destruct (with_path_ok n (length q - (d + 1)) pp' Hn Hpp') as (Hn' & Hps' & Ho'). fold n' in Hn', Hps', Ho'.
  assert (Hab' : is_byte a).
  { destruct (node_has_key p q n Ho Hc) as (k' & Hk' & Hpq). apply (name_ext_byte k' (length p + d)); [done|].
    pose proof (prefix_length _ _ Hpq). rewrite length_app in *.
    rewrite ext_lookup by lia. by rewrite (path_in_key p q). }
  set (leaf := Leaf (make_leaf key (length k) v)) in *.
  destruct (node_of_two d pp a b (Node n') leaf) as (m & Hm & Hok & Hom & Hps & Hplm & Htkm);
    [done|done|rewrite <- Hb; apply Hk|done|].
  cbn [mbind outcome_bind] in Hm. rewrite Hb. destruct (add_child4 _ a _) as [m1| | |]; try done.
  cbn [mbind outcome_bind] in Hm |- *. rewrite Hm. cbn [mbind outcome_bind]. eexists. split; [done|].
  assert (Hwn : wf (p ++ take d q ++ [a]) (Node n')).
  { apply (wf_node _ (drop (S d) q)); [done|by apply Ho'|done|]. intros c t. rewrite Hps'.
    intros Hct. replace ((p ++ take d q ++ [a]) ++ drop (S d) q ++ [c]) with (p ++ q ++ [c]); [by apply Hc|].
    rewrite <- (take_drop_middle q d a Ha) at 1. by rewrite <- !app_assoc. }
  destruct (wf_of_two p (take d q) m a b (Node n') leaf) as [Hw He]; try done.
  - split; [rewrite length_take; lia|]. apply (path_take n); [done|lia|congruence].
  - split; [done|]. rewrite He, Hel, Permutation_app_comm. cbn [app]. f_equiv.
    rewrite !entries_node. by rewrite Hps'.
Qed.

(** ** Insertion *)

(** What inserting [(k, v)] does to the bindings [E], given the old value
    returned and whether the key was found. *)
Definition inserted k (v : V) (E E' : list (list Z * V)) (old : option V) (found : bool) : Prop :=
  match old, found with
  | Some w, true => ∃ F, E ≡ₚ (k, w) :: F ∧ E' ≡ₚ (k, v) :: F
  | None, false => k ∉ E.*1 ∧ E' ≡ₚ (k, v) :: E
  | _, _ => False
  end.

Lemma inserted_context k v E E' old found L R : inserted k v E E' old found →
  (k ∉ E.*1 → k ∉ (L ++ R).*1) →
  inserted k v (L ++ E ++ R) (L ++ E' ++ R) old found.
Proof.
  unfold inserted. intros H Hout. destruct old as [w|], found; try done.
  - destruct H as (F & HE & HE'). exists (L ++ F ++ R).
    split; [rewrite HE|rewrite HE']; symmetry; apply Permutation_middle.
  - destruct H as [HE HE']. split; [|rewrite HE'; symmetry; apply Permutation_middle].
    specialize (Hout HE). rewrite !fmap_app, !not_elem_of_app in *. naive_solver.
Qed.

Lemma inserted_fresh k v E E' : k ∉ E.*1 → E' ≡ₚ (k, v) :: E → inserted k v E E' None false.
Proof. done. Qed.

(** A key that parts from the path, or finds no child, is not below the node. *)
Lemma not_below p q n k : (∀ c t, (c, t) ∈ pairs n → wf (p ++ q ++ [c]) t) →
  (∀ c, c ∈ (pairs n).*1 → ¬ (p ++ q `prefix_of` k ∧ ext k !! length (p ++ q) = Some c)) →
  k ∉ (entries (Node n)).*1.
Proof.
  intros Hc Hno ([k' v'] & -> & Hin)%list_elem_of_fmap.
  apply elem_entries_node in Hin as (c & t & Hct & Hin). eapply Hno; [|by eapply wf_child_byte].
  apply list_elem_of_fmap. by exists (c, t).
Qed.

(** Replacing one child. *)
Lemma entries_replace n i c t t' : node_ok n → is_byte c → find_child n c = Some i →
  children n !! i = Some (Some t) →
  ∃ L R, pairs n = L ++ (c, t) :: R ∧ node_ok (set_child n i t') ∧
    pairs (set_child n i t') = L ++ (c, t') :: R.
Proof.
  intros Hn Hc Hf Ht. destruct (find_child_some _ _ _ Hn Hc Hf) as (x & L & R & Hx & Hp & Hset).
  replace x with t in * by congruence. destruct (Hset t') as [Hok Hp']. eauto.
Qed.

Lemma replace_child_ok p q n i c t t' : node_ok n → occupancy n → path_of n q → is_byte c →
  (∀ c t, (c, t) ∈ pairs n → wf (p ++ q ++ [c]) t) →
  find_child n c = Some i → children n !! i = Some (Some t) → wf (p ++ q ++ [c]) t' →
  ∃ L R, wf p (Node (set_child n i t')) ∧ entries (Node n) = L ++ entries t ++ R ∧
    entries (Node (set_child n i t')) = L ++ entries t' ++ R ∧
    ∀ k w, (k, w) ∈ L ++ R → ext k !! length (p ++ q) ≠ Some c.
Proof.
  intros Hn Ho Hq Hb Hc Hf Ht Hw.
  destruct (entries_replace n i c t t' Hn Hb Hf Ht) as (L & R & Hp & Hn' & Hp').
  exists (L ≫= λ x, entries x.2), (R ≫= λ x, entries x.2). split_and!.
  - apply (wf_node p q); [done| |done|].
    + unfold occupancy in *. rewrite Hp'. rewrite Hp in Ho. rewrite !length_app in *. done.
    + intros c0 t0. rewrite Hp'. rewrite elem_of_app, elem_of_cons. intros [H|[[= -> ->]|H]]; [|done|];
        apply Hc; rewrite Hp; set_solver.
  - rewrite entries_node, Hp, bind_app. done.
  - rewrite entries_node, Hp', bind_app. done.
  - intros k w Hin. rewrite <- bind_app in Hin. apply list_elem_of_bind in Hin as ([c0 t0] & Hin & HLR).
    destruct (wf_child_byte p q n c0 t0 k w) as [_ ->]; [done|rewrite Hp; set_solver|done|].
    intros [= ->]. destruct (pairs_keys _ Hn) as [Hd _]. rewrite Hp in Hd.
    rewrite fmap_app, fmap_cons in Hd. apply NoDup_app in Hd as (_ & Hd1 & [Hd2 _]%NoDup_cons). cbn in *.
    apply elem_of_app in HLR as [HL|HR].
    + apply (Hd1 c); [apply list_elem_of_fmap; by exists (c, t0)|set_solver].
    + apply Hd2. apply list_elem_of_fmap. by exists (c, t0).
Qed.

Definition insert_post p t k v (r : art_node V * option V * bool) : Prop :=
  wf p r.1.1 ∧ inserted k v (entries t) (entries r.1.1) r.1.2 r.2.

(** The leaf case. *)
Lemma insert_leaf_ok fuel p (l : art_leaf V) key k v : name_ok (l_key l) → p `prefix_of` ext (l_key l) →
  cstring key k → name_ok k → p `prefix_of` ext k →
  ∃ r, recursive_insert fuel (Some (Leaf l)) key (length k) v (length p) = Ok r ∧
    insert_post p (Leaf l) k v r.
Proof.
  intros Hl Hpl Hk Hkn Hpk.
  assert (Hstep : recursive_insert fuel (Some (Leaf l)) key (length k) v (length p) =
    if leaf_matches l key (length k)
    then Ok (Leaf {| l_value := v; l_key := l_key l |}, Some (l_value l), true)
    else t ← split_leaf l key (length k) v (length p); Ok (t, None, false)) by (by destruct fuel).
  rewrite Hstep, leaf_matches_spec by done. case_bool_decide as E.
  - eexists. split; [done|]. split; [by constructor|]. cbn. exists []. by rewrite E.
  - destruct (split_leaf_ok p l key k v) as (t & -> & Hw & He); [done..|].
    eexists. split; [done|]. split; [done|]. cbn. split; [|done].
    intros ->%list_elem_of_singleton. done.
Qed.

(** A key that has no child in the node goes into it. *)
Lemma insert_here_ok p q n key k v : node_ok n → occupancy n → path_of n q →
  (∀ c t, (c, t) ∈ pairs n → wf (p ++ q ++ [c]) t) → cstring key k → name_ok k →
  p ++ q `prefix_of` k → find_child n (key (length (p ++ q))) = None →
  ∃ n', add_child n (key (length (p ++ q))) (Leaf (make_leaf key (length k) v)) = Ok n' ∧
    wf p (Node n') ∧ k ∉ (entries (Node n)).*1 ∧ entries (Node n') ≡ₚ (k, v) :: entries (Node n).
Proof.
  intros Hn Ho Hq Hc Hk Hkn Hpk Hf. set (d := length (p ++ q)) in *. set (c := key d) in *.
  assert (Hb : is_byte c) by apply Hk. apply find_child_none in Hf; [|done..].
  assert (Hd : ext k !! d = Some c) by (apply Hk, (prefix_length _ _ Hpk)).
  destruct (wf_new_leaf (p ++ q ++ [c]) key k v) as [Hwl Hel]; [done..| |].
  { rewrite app_assoc. apply prefix_snoc; [by apply prefix_ext|done]. }
  destruct (add_child_ok n c (Leaf (make_leaf key (length k) v)) Hn Ho Hb Hf)
    as (n' & Hn' & (Hok & Hp' & Hl' & Htk') & Ho').
  exists n'. split_and!; [done| | |].
  - apply (wf_node p q); [done..| |].
    + destruct Hq as [Hpl Hq]. split; [congruence|]. rewrite <- Hq. rewrite <- Hpl. done.
    + intros c0 t0. rewrite Hp', elem_of_cons. intros [[= -> ->]|]; [done|by apply Hc].
  - eapply not_below; [done|]. intros c0 Hc0 [_ He]. fold d in He. congruence.
  - rewrite !entries_node, Hp'. cbn -[entries]. by rewrite Hel.
Qed.

Lemma recursive_insert_ok fuel p t key k v : wf p t → cstring key k → name_ok k →
  p `prefix_of` ext k → (height t ≤ fuel)%nat →
  ∃ r, recursive_insert fuel (Some t) key (length k) v (length p) = Ok r ∧ insert_post p t k v r.
Proof.
  intros Hw Hk Hkn. revert fuel. induction Hw as [p l Hl Hp|p q n Hn Ho Hq Hc IH]; intros fuel Hpk Hf.
  { by apply insert_leaf_ok. }
  destruct fuel as [|fuel]; [cbn in Hf; lia|]. cbn [recursive_insert].
  pose proof (node_prefix _ _ _ _ Ho Hc Hpk) as Hpk'. pose proof (proj1 Hq) as Hpl.
  assert (Hdiff : ∃ d, (if (partial_len n =? 0)%nat then Ok 0%nat else
      prefix_mismatch n key (length k) (length p)) = Ok d ∧ leaves_at p q k d).
  { case_match eqn:E; [|by apply prefix_mismatch_ok]. apply Nat.eqb_eq in E. exists 0%nat.
    split; [done|]. left. destruct q; cbn in *; [|lia]. by rewrite app_nil_r. }
  destruct Hdiff as (d & -> & Hleave). cbn [mbind outcome_bind]. rewrite Hpl.
  destruct Hleave as [[Hdq Hpq]|(Hdq & Hpq & Hab)].
  2: { rewrite (proj2 (Nat.ltb_lt _ _) Hdq).
    destruct (split_node_ok p q n d key k v) as (t & -> & Hw & He); [done..|]. cbn [mbind outcome_bind].
    eexists. split; [done|]. split; [done|]. split; [|done].
    eapply not_below; [done|]. intros c _ [Hpq' _]. destruct Hab as (a & b & Ha & Hb & Hne).
    pose proof (prefix_length _ _ Hpq') as Hlpq. rewrite length_app in Hlpq.
    rewrite ext_lookup, (path_in_key p q k d) in Hb by (done || lia). congruence. }
  rewrite (proj2 (Nat.ltb_ge _ _) Hdq).
  assert (Hlen : (length p + length q)%nat = length (p ++ q)) by (by rewrite length_app). rewrite Hlen.
  set (c := key (length (p ++ q))).
  destruct (find_child n c) as [i|] eqn:Hfc.
  2: { destruct (insert_here_ok p q n key k v) as (n' & Hn' & Hw' & Hout & He); [done..|].
    fold c in Hn'. rewrite Hn'. eexists. split; [done|]. done. }
  assert (Hb : is_byte c) by apply Hk.
  destruct (find_child_some _ _ _ Hn Hb Hfc) as (t & L0 & R0 & Ht & Hp0 & _).
  assert (Hct : (c, t) ∈ pairs n) by (rewrite Hp0; set_solver).
  assert (Hkc : ext k !! length (p ++ q) = Some c) by (apply Hk, (prefix_length _ _ Hpq)).
  rewrite (aget_ok _ _ _ Ht). cbn [mbind outcome_bind].
  destruct (IH c t Hct fuel) as ([[t' old] found] & Hr & Hw' & Hins).
  { rewrite app_assoc. apply prefix_snoc; [by apply prefix_ext|done]. }
  { pose proof (height_slot _ _ _ Ht). lia. }
  replace (S (length (p ++ q))) with (length (p ++ q ++ [c])) by (rewrite !length_app; cbn; lia).
  rewrite Hr. cbn [mbind outcome_bind fst snd] in *. eexists. split; [done|].
  destruct (replace_child_ok p q n i c t t') as (L & R & Hwn & He & He' & Hother); [done..|].
  split; [done|]. cbn [fst snd]. rewrite He, He'. apply inserted_context; [done|].
  intros _ ([k' w] & -> & Hin)%list_elem_of_fmap. cbn in Hkc. by apply Hother in Hin.
Qed.

End insert.

(** ** Deletion *)
Section delete.
Context {V : Type}.
Implicit Types (t : art_node V) (n : art_inner (art_node V)) (p q k : list Z).

Lemma path_snoc (pp q : list Z) c : (length q < length pp)%nat → take (length q) pp = q →
  take (S (length q)) (<[length q := c]> pp) = q ++ [c].
Proof.
  intros Hl Hq. rewrite (take_S_r _ _ c) by (by apply list_lookup_insert_eq).
  by rewrite take_insert_ge, Hq by done.
Qed.

Lemma merge_path_ok n (child : art_inner (art_node V)) q q' c : path_of n q → path_of child q' →
  length (partial n) = MAX_PREFIX_LEN → length (partial child) = MAX_PREFIX_LEN →
  n_keys n !! 0%nat = Some c →
  ∃ pp, merge_path n child = Ok (with_path child (length (q ++ c :: q')) pp) ∧
    length pp = MAX_PREFIX_LEN ∧ take (MAX_PREFIX_LEN `min` length (q ++ c :: q')) pp =
      take MAX_PREFIX_LEN (q ++ c :: q').
Proof.
  intros [Hpl Hq] [Hpl' Hq'] Hn Hc Hk. unfold merge_path. rewrite Hpl, Hpl'.
  assert (Hlen : length (q ++ c :: q') = (length q' + (length q + 1))%nat) by (rewrite length_app; cbn; lia).
  rewrite Hlen. destruct (decide (length q < MAX_PREFIX_LEN)%nat) as [Hs|Hs].
  2: { rewrite (proj2 (Nat.ltb_ge _ _)) by lia. cbn [mbind outcome_bind snd fst].
    rewrite (proj2 (Nat.ltb_ge _ _)) by lia. cbn [mbind outcome_bind snd fst].
    rewrite copy_front by lia. eexists. split; [done|].
    rewrite (Nat.min_r (length q)), (take_ge (partial n)), drop_ge, app_nil_r by lia.
    split; [done|]. rewrite Nat.min_l in Hq |- * by lia. by rewrite Hq, (take_app_le q) by lia. }
  rewrite (proj2 (Nat.ltb_lt _ _)) by lia. rewrite (aget_ok _ _ _ Hk). cbn [mbind outcome_bind].
  rewrite aset_ok by lia. cbn [mbind outcome_bind snd fst].
  rewrite Nat.min_r, (take_ge q) in Hq by lia.
  pose proof (path_snoc (partial n) q c ltac:(lia) Hq) as Hqc. set (pp1 := <[length q := c]> (partial n)) in *.
  assert (Hpp1 : length pp1 = MAX_PREFIX_LEN) by (unfold pp1; by rewrite length_insert).
  rewrite Nat.add_1_r in *. destruct (decide (S (length q) < MAX_PREFIX_LEN)%nat) as [Hs'|Hs'].
  - rewrite (proj2 (Nat.ltb_lt _ _)) by lia. set (sub := (_ `min` (_ - _))%nat).
    rewrite copy_ok by lia. cbn [mbind outcome_bind snd fst].
    rewrite Hqc, drop_0, Nat.min_l by lia. set (pp2 := _ ++ _).
    assert (Hl2 : length pp2 = MAX_PREFIX_LEN).
    { unfold pp2. rewrite !length_app, length_take, length_drop. cbn. lia. }
    rewrite copy_front by lia. eexists. split; [done|]. split.
    { rewrite length_app, length_take, length_drop. lia. }
    assert (Ht2 : take (S (length q) + sub) pp2 = q ++ c :: take sub q').
    { unfold pp2. rewrite app_assoc, take_app_length'; [|rewrite !length_app, length_take; cbn; lia].
      rewrite <- app_assoc. cbn. do 2 f_equal.
      transitivity (take sub (take (MAX_PREFIX_LEN `min` length q') (partial child)));
        [rewrite take_take; f_equal; lia|]. rewrite Hq', take_take. f_equal. lia. }
    replace (MAX_PREFIX_LEN `min` _)%nat with (S (length q) + sub)%nat by lia.
    rewrite take_app_length' by (rewrite length_take; lia). rewrite Ht2.
    rewrite take_app_ge by lia. f_equal. replace (MAX_PREFIX_LEN - length q)%nat with (S (MAX_PREFIX_LEN - S (length q))) by lia.
    cbn. f_equal. destruct (decide (length q' ≤ MAX_PREFIX_LEN - S (length q))%nat).
    + rewrite !take_ge by lia. done.
    + f_equal. lia.
  - rewrite (proj2 (Nat.ltb_ge _ _)) by lia. cbn [mbind outcome_bind snd fst].
    rewrite copy_front by lia. eexists. split; [done|].
    rewrite (Nat.min_r (S (length q))), (take_ge pp1), drop_ge, app_nil_r by lia.
    rewrite (take_ge pp1) in Hqc by lia. split; [done|]. rewrite Nat.min_l, take_ge by lia. rewrite Hqc.
    rewrite take_app_ge by lia. by replace (MAX_PREFIX_LEN - length q)%nat with 1%nat by lia.
Qed.

(** The only child left takes the place of its parent. *)
Lemma lift_child_ok p q n c t : node_ok n → n_type n = NODE4 → pairs n = [(c, t)] → path_of n q →
  wf (p ++ q ++ [c]) t →
  ∃ t', (child ← aget (children n) 0;
         match child with
         | Some (Leaf l) => Ok (Leaf l)
         | Some (Node c) => c ← merge_path n c; Ok (Node c)
         | None => Fault "null child"
         end) = Ok t' ∧ wf p t' ∧ entries t' = entries t.
Proof.
  intros Hn Ht Hp Hq Hw. pose proof (node_arr _ Hn (or_introl Ht)) as Hr. rewrite Hp in Hr.
  destruct (ar_children _ _ Hr) as [cr ->]. destruct (ar_keys _ _ Hr) as [kr Hk].
  unfold aget. cbn [fmap list_fmap app lookup list_lookup snd mbind outcome_bind].
  inversion Hw as [? l Hl Hpl|? q' child Hn' Ho' Hq' Hc']; subst.
  - exists (Leaf l). split_and!; [done| |done]. constructor; [done|]. etrans; [|done]. by eexists.
  - destruct (merge_path_ok n child q q' c) as (pp & Hm & Hpp & Htk);
      [done|done|apply Hn|apply Hn'|by rewrite Hk|].
    rewrite Hm. cbn [mbind outcome_bind]. eexists. split; [done|].
    destruct (with_path_ok child (length (q ++ c :: q')) pp Hn' Hpp) as (Hok & Hps & Ho).
    split; [|by rewrite !entries_node, Hps].
    apply (wf_node p (q ++ c :: q')); [done|by apply Ho|done|]. intros c0 t0. rewrite Hps. intros H.
    replace (p ++ (q ++ c :: q') ++ [c0]) with ((p ++ q ++ [c]) ++ q' ++ [c0]); [by apply Hc'|].
    by rewrite <- !app_assoc.
Qed.

Lemma same_path_of n n' q : same_path n n' → path_of n q → path_of n' q.
Proof. intros [Hl Ht] [Hpl Hq]. split; [congruence|]. rewrite <- Hq, <- Hpl. done. Qed.

Lemma removed_wf p q n n' c t : removed n c t n' → occupancy n' → path_of n q →
  (∀ c t, (c, t) ∈ pairs n → wf (p ++ q ++ [c]) t) →
  wf p (Node n') ∧ entries (Node n) ≡ₚ entries t ++ entries (Node n').
Proof.
  intros (Hok & Hp & Hs) Ho Hq Hc. split.
  - apply (wf_node p q); [done..|by eapply same_path_of|]. intros c0 t0 H. apply Hc. rewrite Hp. set_solver.
  - by rewrite !entries_node, Hp.
Qed.

Lemma remove_child4_ok p q n pos c t : node_ok n → n_type n = NODE4 → occupancy n → path_of n q →
  (∀ c t, (c, t) ∈ pairs n → wf (p ++ q ++ [c]) t) → pairs n !! pos = Some (c, t) →
  ∃ t', remove_child4 n pos = Ok t' ∧ wf p t' ∧ entries (Node n) ≡ₚ entries t ++ entries t'.
Proof.
  intros Hn Ht Ho Hq Hc Hpos.
  destruct (take_out_ok _ _ _ _ Hn (or_introl Ht) Hpos) as (m & Hm & Hrem & Htm & _).
  rewrite Ht in Htm. pose proof (removed_len _ _ _ _ Hrem) as Hl. pose proof Hrem as (Hok & Hp & Hs).
  pose proof (ar_num _ _ (node_arr m Hok (or_introl Htm))) as Hnum. unfold remove_child4.
  rewrite Hm. cbn [mbind outcome_bind]. unfold occupancy in Ho. rewrite Ht in Ho.
  destruct (num_children m =? 1) eqn:E; breflect.
  - destruct (pairs m) as [|[c' t1] [|]] eqn:Hpm; cbn in Hl, Hnum; try lia.
    destruct (lift_child_ok p q m c' t1) as (t' & Ht' & Hw & He); [done..|by eapply same_path_of| |].
    { apply Hc. rewrite Hp. set_solver. }
    exists t'. split_and!; [done..|]. rewrite He, entries_node, Hp. cbn. by rewrite app_nil_r.
  - eexists. split; [done|]. eapply removed_wf; [done| |done..]. unfold occupancy. rewrite Htm. lia.
Qed.

Lemma remove_child_ok p q n c i t : node_ok n → occupancy n → path_of n q → is_byte c →
  (∀ c t, (c, t) ∈ pairs n → wf (p ++ q ++ [c]) t) →
  find_child n c = Some i → children n !! i = Some (Some t) →
  ∃ t', remove_child n c i = Ok t' ∧ wf p t' ∧ entries (Node n) ≡ₚ entries t ++ entries t'.
Proof.
  intros Hn Ho Hq Hb Hc Hf Ht. unfold remove_child. destruct (n_type n) eqn:Hty.
  - destruct (find_small_some _ _ _ Hn (or_introl Hty) Hf) as (x & Hpos & Hx).
    replace x with t in * by congruence. by eapply remove_child4_ok.
  - destruct (find_small_some _ _ _ Hn (or_intror Hty) Hf) as (x & Hpos & Hx).
    replace x with t in * by congruence.
    destruct (remove_child16_ok n i c t) as (n' & -> & Hrem & Ho'); [done..|].
    eexists. split; [done|]. by eapply removed_wf.
  - destruct (remove_child48_ok n c i) as (x & n' & Hx & -> & Hrem & Ho'); [done..|].
    replace x with t in * by congruence. eexists. split; [done|]. by eapply removed_wf.
  - destruct (remove_child256_ok n c i) as (x & n' & Hx & -> & Hrem & Ho'); [done..|].
    replace x with t in * by congruence. eexists. split; [done|]. by eapply removed_wf.
Qed.

(** The tree after a deletion, and the leaf that was unlinked. *)
Definition delete_post p t k (r : option (art_node V) * option (art_leaf V)) : Prop :=
  match r.2 with
  | None => r.1 = Some t ∧ k ∉ (entries t).*1
  | Some l => l_key l = k ∧ entries t ≡ₚ (k, l_value l) :: oentries r.1 ∧
      match r.1 with Some t' => wf p t' | None => t = Leaf l end
  end.

Lemma recursive_delete_ok fuel p t key k : wf p t → cstring key k → (height t ≤ fuel)%nat →
  ∃ r, recursive_delete fuel (Some t) key (length k) (length p) = Ok r ∧ delete_post p t k r.
Proof.
  intros Hw Hk. revert fuel. induction Hw as [p l Hl Hp|p q n Hn Ho Hq Hc IH]; intros fuel Hf.
  { eexists. split; [by destruct fuel|]. unfold delete_post. rewrite leaf_matches_spec by done.
    case_bool_decide as E; cbn; [by rewrite E|]. split; [done|]. by intros ->%list_elem_of_singleton. }
  destruct fuel as [|fuel]; [cbn in Hf; lia|]. cbn [recursive_delete].
  pose proof (wf_node _ _ _ Hn Ho Hq Hc) as Hw. case_match eqn:E.
  { eexists. split; [done|]. split; [done|]. eapply not_below; [done|]. intros c _ [Hpq _].
    rewrite (check_prefix_ok n q p k key), Nat.eqb_refl in E by done. by rewrite andb_false_r in E. }
  assert (Hlen : (length p + partial_len n)%nat = length (p ++ q)) by (rewrite length_app; by rewrite (proj1 Hq)).
  rewrite Hlen. set (c := key (length (p ++ q))). assert (Hb : is_byte c) by apply Hk.
  assert (Hnext : ∀ c0, p ++ q `prefix_of` k ∧ ext k !! length (p ++ q) = Some c0 → c0 = c).
  { intros c0 [Hpq Hc0]. rewrite (cs_key _ _ Hk) in Hc0 by (by apply prefix_length). by injection Hc0. }
  destruct (find_child n c) as [i|] eqn:Hfc.
  2: { eexists. split; [done|]. split; [done|]. eapply not_below; [done|]. intros c0 Hc0 ->%Hnext.
    by apply find_child_none in Hfc. }
  destruct (find_child_some _ _ _ Hn Hb Hfc) as (t & L0 & R0 & Ht & Hp0 & _).
  assert (Hct : (c, t) ∈ pairs n) by (rewrite Hp0; set_solver).
  assert (Hout : k ∉ (entries t).*1 → k ∉ (entries (Node n)).*1).
  { intros Hno ([k' v] & -> & Hin)%list_elem_of_fmap. apply elem_entries_node in Hin as (c0 & t0 & Hct0 & Hin).
    pose proof (wf_child_byte _ _ _ _ _ _ _ Hc Hct0 Hin) as ->%Hnext.
    rewrite (same_child _ _ _ _ Hn Hct Hct0) in Hno. apply Hno, list_elem_of_fmap. by exists (k', v). }
  rewrite (aget_ok _ _ _ Ht). cbn [mbind outcome_bind]. destruct t as [l|nc].
  - rewrite leaf_matches_spec by done. case_bool_decide as El.
    + destruct (remove_child_ok p q n c i (Leaf l)) as (t' & -> & Hw' & He); [done..|].
      eexists. split; [done|]. cbn [delete_post snd fst oentries]. split_and!; [done| |done].
      rewrite He. cbn. by rewrite El.
    + eexists. split; [done|]. split; [done|]. apply Hout. by intros ->%list_elem_of_singleton.
  - destruct (IH c (Node nc) Hct fuel) as ([o lo] & Hr & Hpost).
    { pose proof (height_slot _ _ _ Ht). lia. }
    replace (S (length (p ++ q))) with (length (p ++ q ++ [c])) by (rewrite !length_app; cbn; lia).
    rewrite Hr. cbn [mbind outcome_bind fst snd] in *. eexists. split; [done|].
    unfold delete_post in *. cbn [fst snd] in *. destruct lo as [l|].
    + destruct Hpost as (Hlk & He & Hwo). destruct o as [t'|]; [|done].
      destruct (replace_child_ok p q n i c (Node nc) t') as (L & R & Hwn & HE & HE' & _); [done..|].
      change (set_slot n i (Some t')) with (set_child n i t'). cbn [oentries] in *.
      split_and!; [done| |done]. rewrite HE, HE', He. symmetry. apply Permutation_middle.
    + destruct Hpost as [-> Hno]. split; [|by apply Hout]. do 2 f_equal. unfold set_slot.
      rewrite list_insert_id by done. by destruct n.
Qed.

End delete.
