(* ===== verification/ArtDict.v ===== *)
(** * ArtDict: the radix tree as a dictionary of names

    The interface [NameDict] is what the directories need of a dictionary;
    the adaptive radix tree is an instance of it.  The traversal [art_iter]
    visits the bindings of the same map. *)
From Stdlib Require Import ZArith Lia.
From stdpp Require Import base numbers list gmap strings sorting.
From S2P Require Import Prelude Bitmap ArtNode ArtGrow Art ArtOk ArtMap.

(** ** The interface *)
Class NameDict (T V : Type) : Type := {
  nd_empty : T;
  nd_search : T → key_ptr → nat → outcome (option V);
  nd_insert : T → key_ptr → nat → V → outcome (option V * T);
  nd_delete : T → key_ptr → nat → outcome (option V * T);
  nd_rep : T → gmap (list Z) V → Prop;
  nd_empty_ok : nd_rep nd_empty ∅;
  nd_search_ok : ∀ t m key k, nd_rep t m → cstring key k →
    nd_search t key (length k) = Ok (m !! k);
  nd_insert_ok : ∀ t m key k v, nd_rep t m → cstring key k → name_ok k →
    ∃ t', nd_insert t key (length k) v = Ok (m !! k, t') ∧ nd_rep t' (<[k := v]> m);
  nd_delete_ok : ∀ t m key k, nd_rep t m → cstring key k →
    ∃ t', nd_delete t key (length k) = Ok (m !! k, t') ∧ nd_rep t' (delete k m) }.

(** ** The radix tree implements it *)
Section refinement.
Context {V : Type}.
Implicit Types (t : art_tree V) (m : gmap (list Z) V) (k : list Z) (E F : list (list Z * V)).

(** The tree [t] holds the map [m]. *)
Record art_rep t m : Prop := {
  at_wf : ∀ x, root t = Some x → wf [] x;
  at_map : list_to_map (oentries (root t)) = m;
  at_size : t_size t = u64 (Z.of_nat (size m)) }.

Lemma rep_nodup t m : art_rep t m → NoDup (oentries (root t)).*1.
Proof.
  intros H. destruct (root t) as [x|] eqn:E; cbn; [|constructor].
  eapply wf_nodup, H. done.
Qed.

Lemma rep_lookup t m k v : art_rep t m → m !! k = Some v ↔ (k, v) ∈ oentries (root t).
Proof.
  intros H. rewrite <- (at_map _ _ H). symmetry. apply elem_of_list_to_map, (rep_nodup _ _ H).
Qed.

Lemma to_map_insert k v w E F : NoDup E.*1 → E ≡ₚ (k, w) :: F →
  (list_to_map E : gmap (list Z) V) !! k = Some w ∧
  (list_to_map ((k, v) :: F) : gmap (list Z) V) = <[k := v]> (list_to_map E).
Proof.
  intros Hd HE. rewrite (list_to_map_proper E _ Hd HE). cbn. by rewrite lookup_insert_eq, insert_insert_eq.
Qed.

Lemma not_in_map k E : k ∉ E.*1 → (list_to_map E : gmap (list Z) V) !! k = None.
Proof. apply not_elem_of_list_to_map. Qed.

Lemma inserted_map k v E E' old found : NoDup E.*1 → NoDup E'.*1 → inserted k v E E' old found →
  let m : gmap (list Z) V := list_to_map E in
  m !! k = old ∧ list_to_map E' = <[k := v]> m ∧
  size (<[k := v]> m) = (if found then size m else S (size m)).
Proof.
  intros Hd Hd' H m. destruct old as [w|], found; try done; cbn in H.
  - destruct H as (F & HE & HE'). destruct (to_map_insert k v w E F Hd HE) as [H1 H2].
    fold m in H1, H2. split_and!; [done|by rewrite (list_to_map_proper E' _ Hd' HE'), H2|].
    by rewrite map_size_insert_Some.
  - destruct H as [Hk HE']. pose proof (not_in_map k E Hk) as H1. fold m in H1.
    split_and!; [done|by rewrite (list_to_map_proper E' _ Hd' HE')|]. by rewrite map_size_insert_None.
Qed.

Lemma u64_succ (x : nat) : u64 (u64 (Z.of_nat x) + 1) = u64 (Z.of_nat (S x)).
Proof. unfold u64. rewrite Zplus_mod_idemp_l. f_equal. lia. Qed.
Lemma u64_pred (x : nat) : u64 (u64 (Z.of_nat (S x)) - 1) = u64 (Z.of_nat x).
Proof. unfold u64. rewrite Zminus_mod_idemp_l. f_equal. lia. Qed.

Lemma art_init_rep : art_rep art_tree_init ∅.
Proof. split; done. Qed.

Lemma art_search_refines t m key k : art_rep t m → cstring key k →
  art_search t key (length k) = Ok (m !! k).
Proof.
  intros H Hk. unfold art_search. destruct (root t) as [x|] eqn:E.
  - destruct (search_loop_ok [] x (height x) key k) as (r & Hr & Hv); [by apply H|done|done|].
    cbn [length oheight] in *. rewrite Hr. f_equal. apply option_eq. intros v.
    rewrite (rep_lookup _ _ _ _ H), E. apply Hv.
  - rewrite <- (at_map _ _ H), E. done.
Qed.

Lemma art_insert_refines t m key k v : art_rep t m → cstring key k → name_ok k →
  ∃ t', art_insert t key (length k) v = Ok (m !! k, t') ∧ art_rep t' (<[k := v]> m).
Proof.
  intros H Hk Hn. unfold art_insert.
  assert (Hr : ∃ r, recursive_insert (oheight (root t)) (root t) key (length k) v 0 = Ok r ∧
    wf [] r.1.1 ∧ inserted k v (oentries (root t)) (entries r.1.1) r.1.2 r.2).
  { destruct (root t) as [x|] eqn:E.
    - apply (recursive_insert_ok (height x) [] x key k v); [by apply H|done|done| |done]. apply prefix_nil.
    - eexists. split; [done|]. destruct (wf_new_leaf [] key k v Hk Hn) as [Hw He]; [apply prefix_nil|].
      split; [done|]. cbn [fst snd]. rewrite He. cbn. split; [apply not_elem_of_nil|done]. }
  destruct Hr as ([[x old] found] & -> & Hw & Hins). cbn [mbind outcome_bind fst snd] in *.
  destruct (inserted_map _ _ _ _ _ _ (rep_nodup _ _ H) (wf_nodup _ _ Hw) Hins) as (H1 & H2 & H3).
  rewrite (at_map _ _ H) in *. rewrite <- H1. eexists. split; [done|].
  split; cbn; [congruence|done|]. rewrite H3, (at_size _ _ H). destruct found; [done|]. apply u64_succ.
Qed.

Lemma art_delete_refines t m key k : art_rep t m → cstring key k →
  ∃ t', art_delete t key (length k) = Ok (m !! k, t') ∧ art_rep t' (delete k m).
Proof.
  intros H Hk. unfold art_delete. destruct (root t) as [x|] eqn:E.
  2: { pose proof (at_map _ _ H) as Hm. rewrite E in Hm. cbn in *. subst m. eexists. split; [done|].
    rewrite delete_empty. split; [done|done|]. apply H. }
  destruct (recursive_delete_ok (height x) [] x key k) as ([o lo] & Hr & Hpost); [by apply H|done|done|].
  cbn [length oheight] in *. rewrite Hr. cbn [mbind outcome_bind fst snd].
  pose proof (rep_nodup _ _ H) as Hd. pose proof (at_map _ _ H) as Hm. rewrite E in Hd, Hm.
  cbn [oentries] in *. unfold delete_post in Hpost. cbn [fst snd] in Hpost. destruct lo as [l|].
  - destruct Hpost as (Hlk & He & Hw). pose proof Hd as Hd'. rewrite He in Hd'. cbn in Hd'.
    apply NoDup_cons in Hd' as [Hk' Hd'].
    assert (Hmo : m = <[k := l_value l]> (list_to_map (oentries o))).
    { rewrite <- Hm, (list_to_map_proper _ _ Hd He). done. }
    assert (Hno : (list_to_map (oentries o) : gmap (list Z) V) !! k = None) by (by apply not_in_map).
    rewrite Hmo, lookup_insert_eq. eexists. split; [done|]. rewrite delete_insert_id by done.
    split; cbn; [|done|].
    + intros y ->. done.
    + rewrite (at_size _ _ H), Hmo, map_size_insert_None by done. apply u64_pred.
  - destruct Hpost as [-> Hno]. rewrite <- Hm, not_in_map by done. eexists. split; [done|].
    rewrite delete_id by (by apply not_in_map). rewrite Hm. split; cbn; [|done|apply H].
    intros y [= <-]. by apply H.
Qed.

#[export] Instance art_dict : NameDict (art_tree V) V := {|
  nd_empty := art_tree_init;
  nd_search := art_search;
  nd_insert := art_insert;
  nd_delete := art_delete;
  nd_rep := art_rep;
  nd_empty_ok := art_init_rep;
  nd_search_ok := art_search_refines;
  nd_insert_ok := art_insert_refines;
  nd_delete_ok := art_delete_refines |}.

(** ** Sequences of operations *)
Inductive dict_op : Type :=
  | DSearch (k : list Z)
  | DInsert (k : list Z) (v : V)
  | DDelete (k : list Z).

Definition op_name (o : dict_op) : list Z :=
  match o with DSearch k | DInsert k _ | DDelete k => k end.

(** The C string of a name, with nothing but zero bytes behind it. *)
Definition cstr (k : list Z) : key_ptr := λ i, default 0 (k !! i).

Lemma cstr_ok k : name_ok k → cstring (cstr k) k.
Proof.
  intros Hk. split.
  - intros i. unfold cstr, is_byte. destruct (k !! i) as [b|] eqn:E; cbn; [|lia].
    apply (Forall_lookup_1 _ _ _ _ Hk) in E. lia.
  - intros i Hi. unfold cstr. destruct (decide (i < length k)%nat) as [Hlt|].
    + rewrite ext_lookup by done. destruct (lookup_lt_is_Some_2 k i Hlt) as [b Hb]. by rewrite Hb.
    + replace i with (length k) by lia. rewrite ext_last, lookup_ge_None_2 by lia. done.
Qed.

Definition art_step t (o : dict_op) : outcome (option V * art_tree V) :=
  match o with
  | DSearch k => r ← art_search t (cstr k) (length k); Ok (r, t)
  | DInsert k v => art_insert t (cstr k) (length k) v
  | DDelete k => art_delete t (cstr k) (length k)
  end.
Definition map_step m (o : dict_op) : option V * gmap (list Z) V :=
  match o with
  | DSearch k => (m !! k, m)
  | DInsert k v => (m !! k, <[k := v]> m)
  | DDelete k => (m !! k, delete k m)
  end.

Fixpoint art_run t (os : list dict_op) : outcome (list (option V) * art_tree V) :=
  match os with
  | [] => Ok ([], t)
  | o :: os => r ← art_step t o; rs ← art_run r.2 os; Ok (r.1 :: rs.1, rs.2)
  end.
Fixpoint map_run m (os : list dict_op) : list (option V) * gmap (list Z) V :=
  match os with
  | [] => ([], m)
  | o :: os => let r := map_step m o in let rs := map_run r.2 os in (r.1 :: rs.1, rs.2)
  end.

Lemma art_step_ok t m o : art_rep t m → name_ok (op_name o) →
  ∃ t', art_step t o = Ok ((map_step m o).1, t') ∧ art_rep t' (map_step m o).2.
Proof.
  intros H Hn. pose proof (cstr_ok _ Hn) as Hk. destruct o as [k|k v|k]; cbn in *.
  - rewrite (art_search_refines t m) by done. eauto.
  - by apply art_insert_refines.
  - by apply art_delete_refines.
Qed.

Lemma art_run_ok t m os : art_rep t m → Forall (λ o, name_ok (op_name o)) os →
  ∃ t', art_run t os = Ok ((map_run m os).1, t') ∧ art_rep t' (map_run m os).2.
Proof.
  intros H Hos. revert t m H. induction Hos as [|o os Ho Hos IH]; intros t m H; cbn [art_run map_run].
  { eauto. }
  destruct (art_step_ok t m o H Ho) as (t1 & -> & H1). cbn [mbind outcome_bind snd].
  destruct (IH _ _ H1) as (t2 & -> & H2). cbn. eauto.
Qed.

(** C6: Every sequence of art_search, art_insert and art_delete on an
    adaptive radix tree that starts empty returns what the same sequence on a
    finite map returns, also when names are prefixes of each other, share
    more than the 16 stored bytes of a path, and nodes grow and shrink
    between the four node sizes; the tree stays well formed. Names are C
    strings: no byte in them is zero. *)
Theorem art_run_refines os : Forall (λ o, name_ok (op_name o)) os →
  ∃ t', art_run art_tree_init os = Ok ((map_run ∅ os).1, t') ∧ art_rep t' (map_run ∅ os).2.
Proof. apply art_run_ok, art_init_rep. Qed.

(** C22: A search for a name that is in the tree visits at most one inner
    node for each byte of the name and one for its terminator, whatever else
    the tree holds. *)
Theorem art_search_steps t m key k v : art_rep t m → cstring key k → m !! k = Some v →
  search_loop (S (length k)) (root t) key (length k) 0 = Ok (Some v).
Proof.
  intros H Hk Hv. apply (rep_lookup _ _ _ _ H) in Hv. destruct (root t) as [x|] eqn:E.
  - by apply (search_steps [] x); [apply H| |done|cbn; lia].
  - by apply elem_of_nil in Hv.
Qed.

(** ** Iteration *)
Fixpoint fold_until {D} (cb : D → list Z → V → Z * D) E (data : D) : Z * D :=
  match E with
  | [] => (0, data)
  | (k, v) :: E => let r := cb data k v in if r.1 =? 0 then fold_until cb E r.2 else r
  end.

Lemma fold_until_app {D} (cb : D → list Z → V → Z * D) E F data :
  fold_until cb (E ++ F) data =
    let r := fold_until cb E data in if r.1 =? 0 then fold_until cb F r.2 else r.
Proof.
  revert data. induction E as [|[k v] E IH]; intros data; cbn; [done|].
  destruct ((cb data k v).1 =? 0) eqn:H; [apply IH|]. by rewrite H.
Qed.

Lemma visited_pairs (n : art_inner (art_node V)) : node_ok n → visited n = Some <$> (pairs n).*2.
Proof.
  intros H. unfold visited. destruct (n_type n) eqn:Ht.
  1,2: assert (Hs : small_node n) by (unfold small_node; auto);
    by destruct (arr_take _ _ (node_arr _ H Hs)) as (_ & _ & ->).
  - pose proof (node_rep48 _ H Ht) as Hr. unfold pairs. rewrite Ht. generalize 0%nat as i.
    assert (Hk : Forall (λ b, b = 0 ∨ ∃ x, children n !! Z.to_nat (b - 1) = Some (Some x)) (n_keys n)).
    { apply Forall_lookup. intros e b He. destruct (r48_keys _ Hr _ _ He) as [|(_ & ?)]; auto. }
    induction Hk as [|b bs Hb Hbs IH]; intros i; [done|]. cbn [omap list_omap ilist].
    destruct (decide (b = 0)) as [->|Hb0]; [cbn; apply IH|].
    destruct Hb as [|[x Hx]]; [done|]. rewrite (slot48_hit _ _ _ _ Hb0 Hx).
    rewrite (proj2 (Z.eqb_neq _ _) Hb0), Hx. cbn. f_equal. apply IH.
  - unfold pairs. rewrite Ht. generalize 0%nat as i. generalize (children n) as ch.
    induction ch as [|[x|] ch IH]; intros i; [done| |].
    + rewrite filter_cons_True by done. cbn. f_equal. apply IH.
    + rewrite filter_cons_False by (intros Hn; by apply Hn). apply IH.
Qed.

Lemma recursive_iter_ok {D} (cb : D → list Z → V → Z * D) p x fuel data : wf p x →
  (height x ≤ fuel)%nat → recursive_iter cb fuel (Some x) data = Ok (fold_until cb (entries x) data).
Proof.
  intros Hw. revert fuel data. induction Hw as [p l Hl Hp|p q n Hn Ho Hq Hc IH]; intros fuel data Hf.
  { destruct fuel; cbn; by destruct (cb _ _ _) as [[] ?]. }
  destruct fuel as [|fuel]; [cbn in Hf; lia|]. cbn [recursive_iter]. rewrite visited_pairs by done.
  rewrite entries_node.
  assert (Hps : ∀ c y, (c, y) ∈ pairs n → ∀ data,
    recursive_iter cb fuel (Some y) data = Ok (fold_until cb (entries y) data)).
  { intros c y Hcy d. eapply IH; [done|]. pose proof (pair_height _ _ _ Hn Hcy). lia. }
  clear -Hps. revert data. induction (pairs n) as [|[c y] ps IHp]; intros data; [done|].
  cbn [fmap list_fmap snd iter_list]. rewrite (Hps c y) by set_solver. cbn [mbind outcome_bind].
  cbn [list_bind mbind snd]. rewrite fold_until_app. cbv zeta. case_match; [|done].
  apply IHp. intros c' y' H'. apply (Hps c'). set_solver.
Qed.

(** C21: art_iter calls the callback once for every name of the tree with its
    value, until a callback returns something other than 0, which is then the
    result. *)
Theorem art_iter_visits t m : art_rep t m →
  ∃ E, E ≡ₚ map_to_list m ∧
    ∀ D (cb : D → list Z → V → Z * D) data, art_iter cb t data = Ok (fold_until cb E data).
Proof.
  intros H. exists (oentries (root t)). split.
  - rewrite <- (at_map _ _ H). symmetry. apply map_to_list_to_map, (rep_nodup _ _ H).
  - intros D cb data. unfold art_iter. destruct (root t) as [x|] eqn:E; [|done].
    eapply recursive_iter_ok; [by apply H|done].
Qed.

End refinement.
Arguments DSearch {V} k.
Arguments DInsert {V} k v.
Arguments DDelete {V} k.

(** Names that are prefixes of each other, share long paths, grow a node and
    thin it again. *)
Definition sample_ops : list (dict_op (V := Z)) :=
  [DInsert [97; 98; 99] 1; DInsert [97; 98] 2; DInsert [97] 3; DSearch [97; 98];
   DInsert (replicate 20 120 ++ [1]) 4; DInsert (replicate 20 120 ++ [2]) 5;
   DInsert (replicate 18 120 ++ [9]) 6; DDelete [97; 98; 99]; DInsert [200] 7; DInsert [201] 8;
   DInsert [202] 9; DInsert [203] 10; DDelete [200]; DDelete [201]; DDelete [202];
   DSearch (replicate 20 120 ++ [2]); DDelete (replicate 20 120 ++ [1]); DSearch [97; 98; 99]].

Lemma sample_ops_named : Forall (λ o, name_ok (op_name o)) sample_ops.
Proof. apply (bool_decide_unpack _). by vm_compute. Qed.

Lemma art_run_refines_witness :
  ∃ t', art_run art_tree_init sample_ops = Ok ((map_run ∅ sample_ops).1, t') ∧
        art_rep t' (map_run ∅ sample_ops).2 ∧ last (map_run ∅ sample_ops).1 = Some None.
Proof.
  destruct (art_run_refines sample_ops sample_ops_named) as (t' & H1 & H2).
  exists t'. split_and!; [exact H1|exact H2|reflexivity].
Defined.

Lemma art_search_steps_witness :
  ∃ t : art_tree Z, search_loop 4 (root t) (cstr [97; 98; 99]) 3 0 = Ok (Some 1).
Proof.
  destruct (art_step_ok art_tree_init ∅ (DInsert [97; 98; 99] 1) art_init_rep) as (t & _ & Ht);
    [apply (bool_decide_unpack _); reflexivity|].
  exists t. apply (art_search_steps t _ (cstr [97; 98; 99]) [97; 98; 99] 1 Ht); [|reflexivity].
  apply cstr_ok. apply (bool_decide_unpack _); reflexivity.
Defined.

Lemma art_iter_visits_witness :
  ∃ (t : art_tree Z) E, art_rep t {[ [97] := 3 ]} ∧ E ≡ₚ [([97], 3)] ∧
    art_iter (λ d k v, (0, d + v)) t 0 = Ok (fold_until (λ d k v, (0, d + v)) E 0).
Proof.
  destruct (art_step_ok art_tree_init ∅ (DInsert [97] 3) art_init_rep) as (t & _ & Ht);
    [apply (bool_decide_unpack _); reflexivity|].
  destruct (art_iter_visits t _ Ht) as (E & HE & Hit). exists t, E.
  split_and!; [exact Ht|exact HE|apply Hit].
Defined.

(** A prefix that parts from a compressed path after its first byte is not
    noticed: the names below ["abcde"] are visited for the prefix ["axcde"]. *)
Example iter_prefix_wrong :
  (r ← art_run art_tree_init
         [DInsert [97; 98; 99; 100; 101; 1] 1; DInsert [97; 98; 99; 100; 101; 2] 2; DInsert [97; 98; 110] 3];
   art_iter_prefix (λ d k v, (0, d ++ [k])) r.2 (cstr [97; 120; 99; 100; 101]) 5 [])
  = Ok (0, [[97; 98; 99; 100; 101; 1]; [97; 98; 99; 100; 101; 2]]).
Proof. vm_compute. reflexivity. Qed.
