(* ===== verification/ArtFree.v ===== *)
(** * ArtFree: releasing a radix tree

    [art_tree_destroy] of [ds/art.c], which [idealloc] calls for a deleted
    directory.  The model returns the nodes and leaves that are given to
    [free], in order.  On a well-formed tree everything below the root is
    freed once, nothing is read after it was freed, and the pointer in the
    tree is left as it was. *)
From Stdlib Require Import ZArith Lia.
From stdpp Require Import base numbers list gmap strings sorting.
From S2P Require Import Prelude Bitmap ArtNode ArtGrow Art ArtOk ArtMap ArtDict.

(** ** The operations *)
Section art_free.
Context {V : Type}.
Implicit Types (t : art_node V) (n : art_inner (art_node V)) (fs : list (art_node V)).

(** The loop over the children of a node. *)
Fixpoint destroy_list (go : option (art_node V) → outcome (list (art_node V)))
    (cs : list (option (art_node V))) : outcome (list (art_node V)) :=
  match cs with
  | [] => Ok []
  | c :: cs => f ← go c; fs ← destroy_list go cs; Ok (f ++ fs)
  end.

(** The loops skip the same children as those of [recursive_iter]. *)
Fixpoint destroy_node (fuel : nat) (o : option (art_node V)) : outcome (list (art_node V)) :=
  match o with
  | None => Ok []
  | Some (Leaf l) => Ok [Leaf l]
  | Some (Node n) =>
      match fuel with
      | O => NoFuel
      | S fuel => fs ← destroy_list (destroy_node fuel) (visited n); Ok (fs ++ [Node n])
      end
  end.

(** The result, what was freed, and the tree. *)
Definition art_tree_destroy (t : art_tree V) : outcome (Z * list (art_node V) * art_tree V) :=
  fs ← destroy_node (oheight (root t)) (root t);
  Ok (0, fs, t).

(** ** What a tree consists of *)

(** [y] is a child of [x]: the child for some byte. *)
Definition child_of (x y : art_node V) : Prop :=
  match x with Leaf _ => False | Node n => ∃ c, (c, y) ∈ pairs n end.

(** [y] is in the tree below [x]. *)
Inductive below (x : art_node V) : art_node V → Prop :=
  | below_self : below x x
  | below_step y z : child_of x y → below y z → below x z.

(** In [fs] everything comes after its children. *)
Definition leaves_first fs : Prop :=
  ∀ j x y, fs !! j = Some x → child_of x y → ∃ i, (i < j)%nat ∧ fs !! i = Some y.

(** The nodes of a tree from the leaves up. *)
Fixpoint bottom_up t : list (art_node V) :=
  match t with
  | Leaf l => [Leaf l]
  | Node n => concat (map snd (pairs (inner_map bottom_up n))) ++ [Node n]
  end.

Lemma bottom_up_node n : bottom_up (Node n) = (pairs n ≫= λ x, bottom_up x.2) ++ [Node n].
Proof.
  cbn [bottom_up]. f_equal. rewrite pairs_map. generalize (pairs n). intros ps.
  induction ps as [|[c t] ps IH]; cbn; [done|]. by rewrite <- IH.
Qed.

Lemma elem_bottom_up_node n x :
  x ∈ bottom_up (Node n) ↔ (∃ c t, (c, t) ∈ pairs n ∧ x ∈ bottom_up t) ∨ x = Node n.
Proof.
  rewrite bottom_up_node, elem_of_app, list_elem_of_bind, list_elem_of_singleton. split.
  - intros [([c t] & ? & ?)|]; eauto.
  - intros [(c & t & ? & ?)|]; [left; by exists (c, t)|auto].
Qed.

Lemma root_bottom_up t : t ∈ bottom_up t.
Proof. destruct t as [l|n]; [by apply list_elem_of_singleton|]. apply elem_bottom_up_node. auto. Qed.

(** ** The order *)
Lemma leaves_first_nil : leaves_first [].
Proof. intros j x y Hj. by destruct j. Qed.

Lemma leaves_first_app fs fs' : leaves_first fs → leaves_first fs' → leaves_first (fs ++ fs').
Proof.
  intros H H' j x y Hj Hxy. apply lookup_app_Some in Hj as [Hj|[Hl Hj]].
  - destruct (H _ _ _ Hj Hxy) as (i & Hi & Hy). exists i. split; [done|].
    by rewrite lookup_app_l by (by eapply lookup_lt_Some).
  - destruct (H' _ _ _ Hj Hxy) as (i & Hi & Hy). exists (length fs + i)%nat.
    split; [lia|]. by rewrite lookup_app_r, Nat.add_comm, Nat.add_sub by lia.
Qed.

Lemma leaves_first_snoc fs (x : art_node V) : leaves_first fs → (∀ y, child_of x y → y ∈ fs) → leaves_first (fs ++ [x]).
Proof.
  intros H Hx j x' y Hj Hxy. apply lookup_app_Some in Hj as [Hj|[Hl Hj]].
  - destruct (H _ _ _ Hj Hxy) as (i & Hi & Hy). exists i. split; [done|].
    by rewrite lookup_app_l by (by eapply lookup_lt_Some).
  - apply list_lookup_singleton_Some in Hj as [Hj ->]. apply Hx in Hxy as [i Hi]%list_elem_of_lookup.
    pose proof (lookup_lt_Some _ _ _ Hi). exists i. split; [lia|]. by rewrite lookup_app_l by done.
Qed.

Lemma bottom_up_order p t : wf p t → leaves_first (bottom_up t).
Proof.
  induction 1 as [p l Hl Hp|p q n Hn Ho Hq Hc IH].
  { apply (leaves_first_snoc [] (Leaf l)); [apply leaves_first_nil|done]. }
  rewrite bottom_up_node. apply leaves_first_snoc.
  - clear -IH. induction (pairs n) as [|[c t] ps IHp]; [apply leaves_first_nil|].
    apply leaves_first_app; [apply (IH c); set_solver|]. apply IHp. intros c' t' Ht'. apply (IH c'). set_solver.
  - intros y [c Hcy]. apply list_elem_of_bind. exists (c, y). split; [apply root_bottom_up|done].
Qed.

(** ** Completeness *)
Lemma bottom_up_below p t x : wf p t → x ∈ bottom_up t ↔ below t x.
Proof.
  intros Hw. revert x. induction Hw as [p l Hl Hp|p q n Hn Ho Hq Hc IH]; intros x.
  - cbn. rewrite list_elem_of_singleton. split; [intros ->; constructor|].
    inversion 1; [done|]. naive_solver.
  - rewrite elem_bottom_up_node. split.
    + intros [(c & t & Hct & Hx)| ->]; [|constructor]. apply (IH _ _ Hct) in Hx.
      by apply (below_step _ t); [exists c|].
    + inversion 1 as [|y z [c Hcy] Hyz]; subst; [by right|]. left. exists c, y.
      split; [done|]. by apply (IH _ _ Hcy).
Qed.

(** ** Nothing twice *)

Lemma bottom_up_entries p t x e : wf p t → x ∈ bottom_up t → e ∈ entries x → e ∈ entries t.
Proof.
  intros Hw Hx He. destruct e as [k v]. revert x Hx He.
  induction Hw as [p l Hl Hp|p q n Hn Ho Hq Hc IH]; intros x.
  - by intros ->%list_elem_of_singleton.
  - intros [(c & t & Hct & Hx)| ->]%elem_bottom_up_node Hk; [|done].
    apply elem_entries_node. eauto.
Qed.

Lemma bottom_up_wf p t x : wf p t → x ∈ bottom_up t → ∃ q, wf q x.
Proof.
  intros Hw. revert x. induction Hw as [p l Hl Hp|p q n Hn Ho Hq Hc IH]; intros x.
  - intros ->%list_elem_of_singleton. exists p. by constructor.
  - intros [(c & t & Hct & Hx)| ->]%elem_bottom_up_node; [eauto|]. exists p. by econstructor.
Qed.

(** An entry is below one child only. *)
Lemma child_apart p q n c c' t t' e : node_ok n → (∀ c t, (c, t) ∈ pairs n → wf (p ++ q ++ [c]) t) →
  (c, t) ∈ pairs n → (c', t') ∈ pairs n → e ∈ entries t → e ∈ entries t' → (c, t) = (c', t').
Proof.
  intros Hn Hc Hct Hct' He He'. destruct e as [k v].
  destruct (wf_child_byte _ _ _ _ _ _ _ Hc Hct He) as [_ Hb].
  destruct (wf_child_byte _ _ _ _ _ _ _ Hc Hct' He') as [_ Hb'].
  assert (c = c') as <- by congruence. by rewrite (same_child _ _ _ _ Hn Hct Hct').
Qed.

Lemma occupancy_two n c t : node_ok n → occupancy n → (c, t) ∈ pairs n →
  ∃ c' t', (c', t') ∈ pairs n ∧ c' ≠ c.
Proof.
  intros Hn Ho Hct. destruct (pairs_keys _ Hn) as [Hd _].
  assert (Hlen : (2 ≤ length (pairs n))%nat) by (unfold occupancy in Ho; destruct (n_type n); lia).
  destruct (pairs n) as [|[c1 t1] [|[c2 t2] ps]]; cbn in Hlen; [lia|lia|].
  cbn in Hd. apply NoDup_cons in Hd as [H1 _]. rewrite not_elem_of_cons in H1.
  destruct (decide (c1 = c)) as [->|]; [exists c2, t2|exists c1, t1]; split; try set_solver; naive_solver.
Qed.

(** A node is not below one of its children. *)
Lemma node_not_below p q n c t : wf p (Node n) → node_ok n → occupancy n →
  (∀ c t, (c, t) ∈ pairs n → wf (p ++ q ++ [c]) t) → (c, t) ∈ pairs n → Node n ∉ bottom_up t.
Proof.
  intros Hw Hn Ho Hc Hct Hin. destruct (occupancy_two n c t Hn Ho Hct) as (c' & t' & Hct' & Hne).
  destruct (wf_nonempty _ _ (Hc _ _ Hct')) as (k & v & E & HE).
  assert (He : (k, v) ∈ entries t') by (rewrite HE; set_solver).
  assert (He' : (k, v) ∈ entries t).
  { eapply bottom_up_entries; [by apply Hc|done|]. apply elem_entries_node. eauto. }
  by pose proof (child_apart _ _ _ _ _ _ _ _ Hn Hc Hct Hct' He' He) as [= <- <-].
Qed.

Lemma bottom_up_nodup p t : wf p t → NoDup (bottom_up t).
Proof.
  induction 1 as [p l Hl Hp|p q n Hn Ho Hq Hc IH]; [apply NoDup_singleton|].
  pose proof (wf_node _ _ _ Hn Ho Hq Hc) as Hw.
  rewrite bottom_up_node. apply NoDup_app. split_and!; [| |apply NoDup_singleton].
  - apply NoDup_bind; [| |eapply NoDup_fmap_1, (pairs_keys _ Hn)].
    + intros [c t] [c' t'] x Hct Hct' Hx Hx'. cbn in *.
      destruct (bottom_up_wf _ _ x (Hc _ _ Hct) Hx) as [r Hr].
      destruct (wf_nonempty _ _ Hr) as (k & v & E & HE).
      apply (child_apart p q n _ _ _ _ (k, v) Hn Hc Hct Hct'); eapply bottom_up_entries;
        [by apply Hc|done|rewrite HE; set_solver|by apply Hc|done|rewrite HE; set_solver].
    + intros [c t] Hct. by apply (IH c t).
  - intros x ([c t] & Hx & Hct)%list_elem_of_bind ->%list_elem_of_singleton.
    by eapply node_not_below in Hx.
Qed.

(** ** How much is freed: less than two blocks for each entry *)
Lemma bottom_up_length p t : wf p t → (S (length (bottom_up t)) ≤ 2 * length (entries t))%nat.
Proof.
  induction 1 as [p l Hl Hp|p q n Hn Ho Hq Hc IH]; [done|].
  assert (Hlen : (2 ≤ length (pairs n))%nat) by (unfold occupancy in Ho; destruct (n_type n); lia).
  rewrite bottom_up_node, entries_node, length_app. cbn [length].
  assert (H : (length (pairs n ≫= λ x, bottom_up x.2) + length (pairs n) ≤
    2 * length (pairs n ≫= λ x, entries x.2))%nat); [|lia].
  clear -IH. induction (pairs n) as [|[c t] ps IHp]; [done|]. cbn. rewrite !length_app.
  pose proof (IH c t ltac:(set_solver)). ospecialize (IHp _); [|lia].
  intros c' t' Ht'. apply (IH c'). set_solver.
Qed.

(** ** The code does it *)
Lemma destroy_node_ok p t fuel : wf p t → (height t ≤ fuel)%nat →
  destroy_node fuel (Some t) = Ok (bottom_up t).
Proof.
  intros Hw. revert fuel. induction Hw as [p l Hl Hp|p q n Hn Ho Hq Hc IH]; intros fuel Hf.
  { by destruct fuel. }
  destruct fuel as [|fuel]; [cbn in Hf; lia|]. cbn [destroy_node]. rewrite visited_pairs by done.
  rewrite bottom_up_node.
  assert (Hps : ∀ c y, (c, y) ∈ pairs n → destroy_node fuel (Some y) = Ok (bottom_up y)).
  { intros c y Hcy. eapply IH; [done|]. pose proof (pair_height _ _ _ Hn Hcy). lia. }
  assert (destroy_list (destroy_node fuel) (Some <$> (pairs n).*2) = Ok (pairs n ≫= λ x, bottom_up x.2)) as ->;
    [|done].
  clear -Hps. induction (pairs n) as [|[c y] ps IHp]; [done|].
  cbn [fmap list_fmap snd destroy_list]. rewrite (Hps c y) by set_solver. cbn [mbind outcome_bind].
  rewrite IHp; [done|]. intros c' y' H'. apply (Hps c'). set_solver.
Qed.

(** C34: Destroying a radix tree that holds a map frees every node and leaf
    below the root exactly once and nothing else, a node only after its
    children, so that no freed memory is read; it frees at most two blocks
    for each entry, always ends, returns 0 and leaves the root pointer in
    place. *)
Theorem art_tree_destroy_ok (t : art_tree V) (m : gmap (list Z) V) : art_rep t m →
  ∃ fs, art_tree_destroy t = Ok (0, fs, t) ∧ NoDup fs ∧ leaves_first fs ∧
    (∀ y, y ∈ fs ↔ ∃ x, root t = Some x ∧ below x y) ∧
    (length fs ≤ 2 * size m)%nat.
Proof.
  intros H. unfold art_tree_destroy. destruct (root t) as [x|] eqn:E.
  - assert (Hw : wf [] x) by (by apply (at_wf _ _ H)).
    cbn [oheight]. rewrite (destroy_node_ok [] x) by done. cbn [mbind outcome_bind].
    exists (bottom_up x). split_and!; [done|by eapply bottom_up_nodup|by eapply bottom_up_order| |].
    + intros y. rewrite bottom_up_below by done. naive_solver.
    + rewrite <- (at_map _ _ H), E. cbn [oentries].
      rewrite map_size_list_to_map by (by eapply wf_nodup).
      pose proof (bottom_up_length _ _ Hw). lia.
  - exists []. split_and!; [done|constructor|apply leaves_first_nil| |cbn; lia].
    intros y. split; [by intros ?%elem_of_nil|]. by intros (? & ? & _).
Qed.

End art_free.

(** ** A concrete tree

    Five names, two of them prefixes of others: seven blocks, the leaves in
    the order of the names. *)
Definition five_names : list (dict_op (V := Z)) :=
  [DInsert [97; 98] 1; DInsert [97; 98; 99] 2; DInsert [120] 3; DInsert [97; 98; 100] 4; DInsert [121] 5].

Example destroy_example :
  (r ← art_run art_tree_init five_names;
   f ← art_tree_destroy r.2;
   Ok (map (λ x, match x with Leaf l => l_value l | Node n => - num_children n end) f.1.2))
  = Ok [1; 2; 4; -3; 3; 5; -3].
Proof. vm_compute. reflexivity. Qed.

(** The tree still has its root afterwards, and a search would read it. *)
Example destroy_leaves_root :
  (r ← art_run art_tree_init five_names;
   f ← art_tree_destroy r.2;
   Ok (negb (is_null (root f.2)), t_size f.2))
  = Ok (true, 5).
Proof. vm_compute. reflexivity. Qed.

Lemma art_tree_destroy_ok_witness :
  ∃ (t : art_tree Z) fs, art_tree_destroy t = Ok (0, fs, t) ∧ NoDup fs ∧ t_size t = 5.
Proof.
  destruct (art_run_ok art_tree_init ∅ five_names) as (t & Hr & Ht); [apply art_init_rep|by repeat constructor|].
  destruct (art_tree_destroy_ok t _ Ht) as (fs & Hd & Hn & _). exists t, fs. split_and!; [done..|].
  by rewrite (at_size _ _ Ht).
Defined.
