(* ===== verification/Dirent.v ===== *)
(** * Dirent: directories, path lookup and creation of files

    [filesystem/dirent.c], the name caches of [filesystem/fs.h] and
    [userfs_open_file] of [filesystem/file.c].  Inodes, [struct
    ufs_direntry]s and [struct fs_direntry]s are objects on a heap and are
    passed by address, since the inode table, the name caches, the radix tree
    of a directory and open files share them.  The tree is any [NameDict];
    [ArtDict] provides the one of the code. *)
From Stdlib Require Import ZArith Lia.
From stdpp Require Import base numbers list gmap strings sorting.
From S2P Require Import Prelude Util Bytes RbTree BlkTree Alloc Log Inode ArtNode Art ArtOk ArtMap ArtDict.

Definition ROOTINO : Z := 128.
(** ["/mnt/pmem_emul"]. *)
Definition mountpoint : list Z := [47; 109; 110; 116; 47; 112; 109; 101; 109; 95; 101; 109; 117; 108].
Definition Ondisk : Z := 0.
Definition Addden : Z := 1.
Definition Delden : Z := 2.
Definition FUCKFS_DIR_REC_LEN (name_len : Z) : Z := Z.land (name_len + 12 + 3) (Z.lnot 3).

(** ** State *)

(** [struct fs_direntry] and [struct ufs_direntry]. *)
Record fs_direntry : Type := mkDe {
  d_ino : Z; d_name_len : Z; d_file_type : Z; d_name : list Z
}.
Record ufs_direntry : Type := mkUd { addordel : Z; direntry : nat }.

(** What the code gets from outside: the kernel's inode ([syscall 336]) and
    directory entry ([syscall 338], as an unsigned long) for a name, the bytes
    of a directory block in persistent memory, the clock readings of a call,
    a pointer converted to [int], and what [malloc]ed memory holds. *)
Record world : Type := mkWorld {
  w_fetch : Z → option tmpinode;
  w_dentry : Z → list Z → Z;
  w_block : Z → list Z;
  w_now : Z; w_later : Z;
  w_int : nat → Z;
  w_junk : Z
}.

Section dirent.
Context {T : Type} `{!NameDict T nat}.

(** The directory part of an inode: [de_cache] (a hash table in which the
    entry added last is found first), [n_de_cache_entry], [dentry_tree],
    [inmem_den]. *)
Record dirpart : Type := mkDir {
  de_cache : list (list Z * nat); n_de_cache : Z; dentry_tree : T; inmem_den : bool
}.

Record nstate : Type := mkNs {
  ns_inodes : gmap nat inode;
  ns_dirs : gmap nat dirpart;
  ns_icache : gmap Z nat;
  ns_dlookup : list (list Z * nat);
  ns_udens : gmap nat ufs_direntry;
  ns_dens : gmap nat fs_direntry;
  ns_next : nat;
  ns_table : Inodes.table;
  ns_log : log;
  ns_rc : rcache
}.

Definition set_inodes f s := mkNs (f (ns_inodes s)) (ns_dirs s) (ns_icache s) (ns_dlookup s)
  (ns_udens s) (ns_dens s) (ns_next s) (ns_table s) (ns_log s) (ns_rc s).
Definition set_dirs f s := mkNs (ns_inodes s) (f (ns_dirs s)) (ns_icache s) (ns_dlookup s)
  (ns_udens s) (ns_dens s) (ns_next s) (ns_table s) (ns_log s) (ns_rc s).
Definition set_icache f s := mkNs (ns_inodes s) (ns_dirs s) (f (ns_icache s)) (ns_dlookup s)
  (ns_udens s) (ns_dens s) (ns_next s) (ns_table s) (ns_log s) (ns_rc s).
Definition set_dlookup f s := mkNs (ns_inodes s) (ns_dirs s) (ns_icache s) (f (ns_dlookup s))
  (ns_udens s) (ns_dens s) (ns_next s) (ns_table s) (ns_log s) (ns_rc s).
Definition set_udens f s := mkNs (ns_inodes s) (ns_dirs s) (ns_icache s) (ns_dlookup s)
  (f (ns_udens s)) (ns_dens s) (ns_next s) (ns_table s) (ns_log s) (ns_rc s).
Definition set_dens f s := mkNs (ns_inodes s) (ns_dirs s) (ns_icache s) (ns_dlookup s)
  (ns_udens s) (f (ns_dens s)) (ns_next s) (ns_table s) (ns_log s) (ns_rc s).
Definition set_next f s := mkNs (ns_inodes s) (ns_dirs s) (ns_icache s) (ns_dlookup s)
  (ns_udens s) (ns_dens s) (f (ns_next s)) (ns_table s) (ns_log s) (ns_rc s).
Definition set_table f s := mkNs (ns_inodes s) (ns_dirs s) (ns_icache s) (ns_dlookup s)
  (ns_udens s) (ns_dens s) (ns_next s) (f (ns_table s)) (ns_log s) (ns_rc s).
Definition set_log f s := mkNs (ns_inodes s) (ns_dirs s) (ns_icache s) (ns_dlookup s)
  (ns_udens s) (ns_dens s) (ns_next s) (ns_table s) (f (ns_log s)) (ns_rc s).
Definition set_rc f s := mkNs (ns_inodes s) (ns_dirs s) (ns_icache s) (ns_dlookup s)
  (ns_udens s) (ns_dens s) (ns_next s) (ns_table s) (ns_log s) (f (ns_rc s)).

(** Loads and stores through pointers. *)
Definition deref {A} (f : nstate → gmap nat A) (p : nat) : M nstate A := λ s,
  match f s !! p with Some x => Ok (x, s) | None => Fault "bad pointer" end.
Definition inode_at : nat → M nstate inode := deref ns_inodes.
Definition dir_at : nat → M nstate dirpart := deref ns_dirs.
Definition uden_at : nat → M nstate ufs_direntry := deref ns_udens.
Definition den_at : nat → M nstate fs_direntry := deref ns_dens.
Definition put_inode (p : nat) (i : inode) : M nstate unit := modify (set_inodes <[p := i]>).
Definition put_dir (p : nat) (d : dirpart) : M nstate unit := modify (set_dirs <[p := d]>).
Definition malloc : M nstate nat := λ s, Ok (ns_next s, set_next S s).
Definition lift {A} (o : outcome A) : M nstate A := λ s, x ← o; Ok (x, s).

Definition upd_inode (p : nat) (f : inode → inode) : M nstate unit := i ← inode_at p; put_inode p (f i).
Definition i_ref_inc (p : nat) : M nstate unit := upd_inode p (λ i, set_ref (i_ref i + 1) i).

(** ** The name caches *)
Fixpoint find_str (k : list Z) (h : list (list Z * nat)) : option nat :=
  match h with
  | [] => None
  | (k', p) :: h => if bool_decide (k = k') then Some p else find_str k h
  end.
Fixpoint del_str (k : list Z) (h : list (list Z * nat)) : list (list Z * nat) :=
  match h with
  | [] => []
  | (k', p) :: h => if bool_decide (k = k') then h else (k', p) :: del_str k h
  end.

Definition de_cache_find (d : nat) (name : list Z) : M nstate (option nat) :=
  x ← dir_at d; mret (find_str name (de_cache x)).

(** [strcpy] into [name[DIRSIZ]]. *)
Definition de_cache_alloc_add (d : nat) (name : list Z) (p : nat) : M nstate unit :=
  if (DIRSIZ <=? length name)%nat then fault "strcpy past dirent_data.name"
  else
    x ← dir_at d;
    put_dir d (mkDir ((name, p) :: de_cache x) (u32 (n_de_cache x + 1)) (dentry_tree x) (inmem_den x)).

Definition de_cache_del (d : nat) (name : list Z) : M nstate unit :=
  x ← dir_at d;
  match find_str name (de_cache x) with
  | Some _ => put_dir d (mkDir (del_str name (de_cache x)) (u32 (n_de_cache x - 1)) (dentry_tree x) (inmem_den x))
  | None => mret tt
  end.

Definition dlookup_find (path : list Z) : M nstate (option nat) := gets (λ s, find_str path (ns_dlookup s)).
Definition dlookup_alloc_add (p : nat) (path : list Z) : M nstate unit :=
  if (MAX_PATH <=? length path)%nat then fault "strcpy past dlookup_data.path"
  else modify (set_dlookup (cons (path, p))).
Definition dlookup_del (path : list Z) : M nstate unit := modify (set_dlookup (del_str path)).

(** ** Calls into the other components *)

(** The radix tree of a directory. *)
Definition tree_search (d : nat) (name : list Z) : M nstate (option nat) :=
  x ← dir_at d; lift (nd_search (dentry_tree x) (cstr name) (length name)).
Definition tree_insert (d : nat) (name : list Z) (u : nat) : M nstate (option nat) :=
  x ← dir_at d;
  r ← lift (nd_insert (dentry_tree x) (cstr name) (length name) u);
  put_dir d (mkDir (de_cache x) (n_de_cache x) r.2 (inmem_den x));;
  mret r.1.
Definition tree_delete (d : nat) (name : list Z) : M nstate (option nat) :=
  x ← dir_at d;
  r ← lift (nd_delete (dentry_tree x) (cstr name) (length name));
  put_dir d (mkDir (de_cache x) (n_de_cache x) r.2 (inmem_den x));;
  mret r.1.

Definition log_append (entry : list Z) (flag : Z) : M nstate unit :=
  modify (set_log (append_entry_log entry flag)).

Section with_world.
Variable w : world.

(** [iget(inum)] on the table of inode addresses; a new directory inode gets
    an empty tree. *)
Definition iget_ptr (inum : Z) : M nstate (option nat) := λ s,
  match ns_icache s !! inum with
  | Some p =>
      '(i, s) ← inode_at p s;
      r ← iget (w_fetch w) inum (w_junk w) {[inum := i]};
      match r.1 with
      | None => Ok (None, s)
      | Some i => Ok (Some p, set_inodes <[p := i]> s)
      end
  | None =>
      r ← iget (w_fetch w) inum (w_junk w) ∅;
      match r.1 with
      | None => Ok (None, s)
      | Some i =>
          let p := ns_next s in
          let s := set_icache <[inum := p]> (set_inodes <[p := i]> (set_next S s)) in
          Ok (Some p, if i_itype i =? T_DIR then set_dirs <[p := mkDir [] 0 nd_empty false]> s else s)
      end
  end.

Definition add_uden (u : ufs_direntry) : M nstate nat :=
  p ← malloc; modify (set_udens <[p := u]>);; mret p.
Definition add_den (e : fs_direntry) : M nstate nat :=
  p ← malloc; modify (set_dens <[p := e]>);; mret p.

(** [fetch_ondisk_dentry_from_kernel]: the result of the system call is
    compared with 0 as an unsigned number; its two low bits are the type. *)
Definition fetch_ondisk_dentry_from_kernel (d : nat) (filename : list Z) : M nstate (option nat) :=
  i ← inode_at d;
  let ino_ftype := u64 (w_dentry w (i_inum i) filename) in
  if 0 <? ino_ftype then
    if (DIRSIZ <=? length filename)%nat then fault "strcpy past fs_direntry.name"
    else
      e ← add_den (mkDe (Z.land ino_ftype (not64 3)) (u8 (Z.of_nat (length filename)))
                     (Z.land ino_ftype 3) (filename ++ [0]));
      u ← add_uden (mkUd Ondisk e);
      tree_insert d filename u;;
      mret (Some u)
  else mret None.

(** The entry at [off] of a directory block: the record length, the name and
    the entry; the name is copied before the entry is looked at, so that it
    must lie in the block. *)
Definition dentry_in (blk : list Z) (off : nat) : outcome (Z * list Z * fs_direntry) :=
  let at_ k n := unle (take n (drop (off + k) blk)) in
  let name_len := Z.to_nat (at_ 10 1)%nat in
  if (length blk <? off + 12 + name_len)%nat then Fault "read behind the block"
  else Ok (at_ 8 2, take name_len (drop (off + 12) blk),
           mkDe (at_ 0 8) (at_ 10 1) (at_ 11 1) (take DIRSIZ (drop (off + 12) blk)))%nat.

Fixpoint fetch_loop (d : nat) (blk : list Z) (off : nat) (fuel : nat) : M nstate Z :=
  match fuel with
  | O => nofuel
  | S fuel =>
      if (off <=? 4096)%nat then
        e ← lift (dentry_in blk off);
        let rlen := e.1.1 in
        if negb (d_ino e.2 =? 0) && negb (rlen =? 0) then
          q ← add_den e.2;
          u ← add_uden (mkUd Ondisk q);
          tree_insert d e.1.2 u;;
          fetch_loop d blk (off + Z.to_nat rlen) fuel
        else mret 0
      else mret (-1)
  end.
Definition fetch_ondisk_dentry (d : nat) : M nstate Z :=
  i ← inode_at d;
  fetch_loop d (w_block w (i_root i)) 0 4098.

Definition set_inmem (d : nat) : M nstate unit :=
  x ← dir_at d; put_dir d (mkDir (de_cache x) (n_de_cache x) (dentry_tree x) true).

(** ** [dir_lookup] *)
Definition is_none {A} (o : option A) : bool := match o with None => true | _ => false end.

(** The entry of a name: the tree, with the on-disk block read into it once,
    then the kernel. *)
Definition find_uden (d : nat) (name : list Z) : M nstate (option nat) :=
  i ← inode_at d;
  u ← tree_search d name;
  x ← dir_at d;
  (if is_none u && (0 <? i_root i) && negb (inmem_den x)
   then fetch_ondisk_dentry d;; set_inmem d else mret tt);;
  u ← tree_search d name;
  if is_none u && (0 <? i_root i) then fetch_ondisk_dentry_from_kernel d name else mret u.

Definition dir_lookup (d : nat) (name : list Z) : M nstate (option nat) :=
  i ← inode_at d;
  if negb (i_itype i =? T_DIR) then panic "lookup for non DIR"
  else
    c ← de_cache_find d name;
    match c with
    | Some p => i_ref_inc p;; mret (Some p)
    | None =>
        u ← find_uden d name;
        match u with
        | None => mret None
        | Some u =>
            ud ← uden_at u;
            if addordel ud =? Delden then mret None
            else
              pde ← den_at (direntry ud);
              let inum := u32 (d_ino pde) in
              if inum =? 0 then mret None
              else
                ip ← iget_ptr inum;
                match ip with
                | None => fault "null inode"
                | Some p =>
                    upd_inode p (set_itype (d_file_type pde));;
                    de_cache_alloc_add d name p;;
                    mret (Some p)
                end
        end
    end.

(** ** [dir_remove_entry] *)

(** [strncpy(buf, name, DIRSIZ)]. *)
Definition strncpy_DIRSIZ (name : list Z) : list Z :=
  take DIRSIZ name ++ replicate (DIRSIZ - length name) 0.

Definition remove_setattr (ino : Z) : setattr_logentry :=
  mkSetattr ino SET_ATTR (w_junk w) (w_junk w) (w_now w) 1 (w_junk w) (w_now w) (w_junk w) (w_junk w)
    (w_junk w).
Definition remove_dentry (dino ino : Z) (name : list Z) : fuckfs_dentry :=
  mkDentry dino DIR_LOG (Z.of_nat (length name)) T_DIR Delden (w_later w) 1 (w_junk w) (w_junk w) ino
    (w_junk w) (strncpy_DIRSIZ name).

(** Both removals and the insertion of the tombstone, behind the first log
    entry.  The result of [art_delete], a pointer, goes through an [int]. *)
Definition bury_entry (d : nat) (name : list Z) (u : nat) (ino : Z) : M nstate Z :=
  r ← tree_delete d name;
  if match r with None => true | Some q => w_int w q =? 0 end then mret (-1)
  else
    i ← inode_at d;
    log_append (dentry_bytes (remove_dentry (i_inum i) ino name)) 1;;
    tree_delete d name;;
    tree_insert d name u;;
    mret 0.

(** [sizeof(name)] is the size of a pointer. *)
Definition dir_remove_entry (d : nat) (name : list Z) : M nstate Z :=
  i ← inode_at d;
  u ← tree_search d name;
  x ← dir_at d;
  u ← (if is_none u && (0 <? i_root i) && negb (inmem_den x)
       then u ← fetch_ondisk_dentry_from_kernel d name;
            fetch_ondisk_dentry d;; set_inmem d;; mret u
       else mret u);
  match u with
  | None => mret 0
  | Some u =>
      ud ← uden_at u;
      if addordel ud =? Delden then mret (-1)
      else
        modify (set_udens <[u := mkUd Delden (direntry ud)]>);;
        pde ← den_at (direntry ud);
        upd_inode d (λ i, set_isize (u64 (i_size i - FUCKFS_DIR_REC_LEN 8)) i);;
        (if d_ino pde =? 0 then panic "pde->ino != 0" else mret tt);;
        modify (set_table (λ t, (Inodes.put_inode_bitmap (d_ino pde) t).2));;
        de_cache_del d name;;
        log_append (setattr_bytes (remove_setattr (d_ino pde))) 0;;
        bury_entry d name u (d_ino pde)
  end.

(** ** [dir_change_entry] *)
Definition ENOENT : Z := 2.

(** [iput] and [idealloc] by address; the tree of a directory is freed. *)
Definition iput_ptr (p : nat) : M nstate unit := upd_inode p iput.
Definition idealloc_ptr (p : nat) : M nstate unit :=
  i ← inode_at p;
  g ← gets ns_rc;
  r ← lift (idealloc i g);
  put_inode p r.1;;
  (if i_itype i =? T_DIR then modify (set_dirs (delete p)) else mret tt);;
  modify (set_rc (λ _, r.2)).

Definition rename_dentry (dino act links : Z) (ftype name_len fino : Z) (name : list Z) : fuckfs_dentry :=
  mkDentry dino DIR_LOG name_len ftype act (w_now w) 1 (w_junk w) (u16 links) fino (w_junk w) name.

(** The part behind the label [rename].  [pden] is on the stack: it is gone
    when the function returns. *)
Definition rename_entry (d : nat) (oldname newname : list Z) (uden : option nat) : M nstate Z :=
  dir_lookup d oldname;;
  match uden with
  | None => mret (- ENOENT)
  | Some u =>
      ud ← uden_at u;
      if addordel ud =? Delden then mret (-1)
      else
        pde ← den_at (direntry ud);
        de_cache_del d oldname;;
        i ← inode_at d;
        let j := w_junk w in
        let e1 := rename_dentry (i_inum i) Delden (-1) j j j (strncpy_DIRSIZ oldname) in
        log_append (dentry_bytes e1) 1;;
        pden ← add_den (mkDe (d_ino pde) j j (strncpy_DIRSIZ oldname));
        modify (set_udens <[u := mkUd Delden pden]>);;
        r ← tree_delete d oldname;
        if match r with None => true | Some q => w_int w q =? 0 end then panic "art_delete error"
        else
          tree_insert d oldname u;;
          de_cache_del d newname;;
          let e2 := rename_dentry (i_inum i) Addden 1 T_DIR j j
                      (newname ++ drop (length newname) (de_name e1)) in
          log_append (dentry_bytes e2) 1;;
          modify (set_dens <[direntry ud := mkDe (d_ino pde) (d_name_len pde) (d_file_type pde)
                                              (newname ++ drop (length newname) (d_name pde))]>);;
          nu ← add_uden (mkUd Addden (direntry ud));
          tree_insert d newname nu;;
          modify (set_dens (delete pden));;
          mret 0
  end.

(** The string in a name buffer; without a terminator the reads run on. *)
Definition buf_str (buf : list Z) : M nstate (list Z) :=
  match Path.cstr_of buf with Some s => mret s | None => fault "name is not terminated" end.

(** [dir_lookup] gets [uden] by value, so the local variable stays
    indeterminate: its value is an argument here. *)
Definition dir_change_entry (d : nat) (oldname newname : list Z) (uden : option nat) : M nstate Z :=
  ip ← dir_lookup d newname;
  match ip, uden with
  | Some p, Some u =>
      ud ← uden_at u;
      pde ← den_at (direntry ud);
      pname ← buf_str (d_name pde);
      if bool_decide (pname = newname) then mret (-1)
      else
        de_cache_del d pname;;
        iput_ptr p;;
        idealloc_ptr p;;
        rename_entry d oldname newname uden
  | _, _ => rename_entry d oldname newname uden
  end.

(** ** Paths *)

Definition iunlockput_ptr (p : nat) : M nstate unit := upd_inode p (λ i, iput (iunlock i)).

(** The loop of [namex]: the inode and the name buffer. *)
Fixpoint namex_loop (ip : nat) (path : list Z) (parent : bool) (name : list Z) (fuel : nat)
    : M nstate (option nat * list Z) :=
  match fuel with
  | O => nofuel
  | S fuel =>
      match Path.get_next_name path name with
      | (None, name) =>
          if parent then iput_ptr ip;; mret (None, name) else mret (Some ip, name)
      | (Some path, name) =>
          upd_inode ip ilock;;
          i ← inode_at ip;
          if negb (i_itype i =? T_DIR) then iunlockput_ptr ip;; mret (None, name)
          else if parent && bool_decide (path = []) then
            upd_inode ip iunlock;; mret (Some ip, name)
          else
            e ← buf_str name;
            next ← dir_lookup ip e;
            iunlockput_ptr ip;;
            match next with
            | None => mret (None, name)
            | Some next => namex_loop next path parent name fuel
            end
      end
  end.

Definition namex (path : list Z) (parent : bool) (name : list Z) : M nstate (option nat * list Z) :=
  let path := if bool_decide (mountpoint `prefix_of` path) then drop (length mountpoint) path else path in
  match path with
  | c :: _ =>
      if Path.is_slash c then
        ip ← iget_ptr ROOTINO;
        match ip with
        | None => fault "null inode"
        | Some ip => namex_loop ip path parent name (S (length path))
        end
      else panic "relative path is not yet implemented"
  | [] => panic "relative path is not yet implemented"
  end.

Definition deleting (i : inode) : bool := negb (Z.land (i_flags i) I_DELETING =? 0).

Definition namei (path name : list Z) : M nstate (option nat) :=
  c ← dlookup_find path;
  match c with
  | Some p =>
      i ← inode_at p;
      if deleting i then mret None else i_ref_inc p;; mret (Some p)
  | None =>
      r ← namex path false name;
      match r.1 with
      | Some p => dlookup_alloc_add p path;; mret (Some p)
      | None => mret None
      end
  end.

(** The parent and the name buffer, which [get_parent_path] and [namex] fill;
    when [get_parent_path] finds no slash, [parent_path] stays indeterminate. *)
Definition nameiparent (path name : list Z) : M nstate (option nat * list Z) :=
  r ← lift (Path.get_parent_path path name);
  match r with
  | None => fault "parent_path is not set"
  | Some (parent_path, name) =>
      c ← dlookup_find parent_path;
      match c with
      | Some p =>
          i ← inode_at p;
          if deleting i then mret (None, name) else i_ref_inc p;; mret (Some p, name)
      | None =>
          r ← namex path true name;
          match r.1 with
          | Some p => dlookup_alloc_add p parent_path;; mret r
          | None => mret r
          end
      end
  end.

(** ** [userfs_open_file] *)
Definition set_nlink (n : Z) (i : inode) : inode :=
  mkInode (i_inum i) (i_itype i) n (i_size i) (i_ksize i) (i_flags i) (i_ref i) (i_height i)
    (i_root i) (i_cur i) (i_blktree i) (i_fcache i) (i_n_fcache i).

(** The inode of a new file; [malloc] left the other fields as they were. *)
Definition new_inode (inum type : Z) : inode :=
  let j := w_junk w in
  mkInode inum type 1 (if type =? T_DIR then FUCKFS_DIR_REC_LEN 1 + FUCKFS_DIR_REC_LEN 2 else 0) 0
    I_VALID 1 j 0 (mkCur 0 0 0 0 j 0 0 j 0) RB_ROOT (Some ∅) 0.

(** [read_ondisk_inode_from_kernel] and the assignments behind it: [flags] is
    or-ed into what [malloc] returned. *)
Definition known_inode (inum type : Z) : outcome inode :=
  match w_fetch w inum with
  | None => Panic "syscall fetch inode error"
  | Some t =>
      let j := w_junk w in
      let devid := u8 (shr64 (t_blkoff t) 62) in
      let '(nvmoff, ssdoff, dev) :=
        if devid =? 0 then (t_blkoff t, 0, j) else (0, Z.land (t_blkoff t) (2 ^ 62 - 1), devid) in
      Ok (mkInode inum type 1 (Inode.t_size t) (Inode.t_size t) (Z.lor (u8 j) I_VALID) 1 (t_height t) (t_root t)
            (mkCur dev nvmoff ssdoff (t_nvmblock t) j j j j 0) RB_ROOT (Some ∅) 0)
  end.

(** [icache_alloc_add] and [icache_add]: the inode added last is found. *)
Definition icache_add_ptr (i : inode) : M nstate nat :=
  p ← malloc;
  put_inode p i;;
  modify (set_icache <[i_inum i := p]>);;
  mret p.

Definition init_dir (p : nat) : M nstate unit := put_dir p (mkDir [] 0 nd_empty false).

(** The new inode into the table; a directory counts as a link of its parent
    and has no entries. *)
Definition enter_inode (parent : nat) (i : inode) : M nstate nat :=
  p ← icache_add_ptr i;
  (if i_itype i =? T_DIR
   then upd_inode parent (λ i, set_nlink (u8 (i_nlink i + 1)) i);; init_dir p else mret tt);;
  mret p.

Definition create_setattr (inum : Z) : setattr_logentry :=
  mkSetattr inum SET_ATTR 0 0 (w_now w) 0 (w_junk w) (w_now w) 0 0 0.
Definition create_dentry (dino inum type : Z) (filename : list Z) : fuckfs_dentry :=
  mkDentry dino DIR_LOG (Z.of_nat (length filename)) type Addden (w_now w) 1 (w_junk w) 1 inum (w_junk w)
    (strncpy_DIRSIZ filename).

(** The entry [uden] of a new file, in the directory and in the log. *)
Definition grown (filename : list Z) (i : inode) : inode :=
  set_isize (u64 (i_size i + FUCKFS_DIR_REC_LEN (Z.of_nat (length filename)))) i.
Definition add_entry (parent : nat) (filename : list Z) (type inum : Z) (u : nat) : M nstate unit :=
  e ← add_den (mkDe inum (w_junk w) (u8 type) (strncpy_DIRSIZ filename));
  modify (set_udens <[u := mkUd Addden e]>);;
  tree_insert parent filename u;;
  upd_inode parent (grown filename);;
  log_append (setattr_bytes (create_setattr inum)) 0;;
  i ← inode_at parent;
  log_append (dentry_bytes (create_dentry (i_inum i) inum type filename)) 1.

(** The branch for a name without a live entry; [uden] is its tombstone. *)
Definition create_entry (parent : nat) (filename : list Z) (type : Z) (uden : option nat) : M nstate nat :=
  u ← match uden with Some u => mret u | None => add_uden (mkUd (u8 (w_junk w)) 0) end;
  t ← gets ns_table;
  let '(inum, t) := Inodes.find_inode_bitmap t in
  modify (set_table (λ _, t));;
  if inum =? 0 then panic "cannot allocate inode"
  else
    p ← enter_inode parent (new_inode inum type);
    add_entry parent filename type inum u;;
    mret p.

(** The branch for a live entry. *)
Definition open_entry (parent : nat) (uden : nat) (type : Z) : M nstate nat :=
  ud ← uden_at uden;
  pde ← den_at (direntry ud);
  i ← lift (known_inode (u32 (d_ino pde)) type);
  enter_inode parent i.

(** The end of both branches: the parent is released, the caches learn the inode. *)
Definition open_done (parent : nat) (path name : list Z) (p : nat) : M nstate unit :=
  iunlockput_ptr parent;;
  de_cache_alloc_add parent name p;;
  c ← dlookup_find path;
  if is_none c then dlookup_alloc_add p path else mret tt.

(** Both branches, behind the caches. *)
Definition open_in (parent : nat) (path filename name : list Z) (type : Z) : M nstate nat :=
  upd_inode parent ilock;;
  i ← inode_at parent;
  u ← tree_search parent filename;
  x ← dir_at parent;
  u ← (if is_none u && (0 <? i_root i) && negb (inmem_den x)
       then u ← fetch_ondisk_dentry_from_kernel parent name;
            fetch_ondisk_dentry parent;; set_inmem parent;; mret u
       else mret u);
  live ← match u with
         | None => mret None
         | Some u => ud ← uden_at u; mret (if addordel ud =? Delden then None else Some u)
         end;
  p ← match live with
      | Some u => open_entry parent u type
      | None => create_entry parent filename type u
      end;
  open_done parent path name p;;
  mret p.

Definition userfs_open_file (path : list Z) (type : Z) (name : list Z) : M nstate (option nat) :=
  c ← dlookup_find path;
  match c with
  | Some p => i_ref_inc p;; mret (Some p)
  | None =>
      r ← lift (Path.get_parent_path path name);
      match r with
      | None => fault "parent_path is not set"
      | Some (_, fbuf) =>
          r ← nameiparent path name;
          match r.1 with
          | None => mret None
          | Some parent =>
              name ← buf_str r.2;
              c ← de_cache_find parent name;
              match c with
              | Some p => i_ref_inc p;; mret (Some p)
              | None =>
                  filename ← buf_str fbuf;
                  p ← open_in parent path filename name type;
                  mret (Some p)
              end
          end
      end
  end.

End with_world.
End dirent.
