(* ===== verification/DirentOk.v ===== *)
(** * DirentOk: directories keep a map of names

    [ns_rep] relates the heap of inodes, directory entries and caches to the
    trees of the directories, [visible] is the entry a name has.  Lookup,
    removal and creation read and change [visible] at exactly one name of one
    directory; the caches stay coherent with it. *)
From Stdlib Require Import ZArith Lia.
From stdpp Require Import base numbers list gmap strings sorting.
From S2P Require Import Prelude Util Bytes RbTree BlkTree Alloc Log Inode ArtNode Art ArtOk ArtMap ArtDict Dirent.

(** One step of a computation with outcomes, under a second binding. *)
Lemma M_bind_assoc' {S A B C} (m : M S A) (f : A → M S B) (k : B → M S C) s b s' :
  (m ≫= f) s = Ok (b, s') → (m ≫= λ a, f a ≫= k) s = k b s'.
Proof.
  unfold mbind, M_bind. destruct (m s) as [[a s1]| | |]; cbn; try done. intros H. by rewrite H.
Qed.

Section dirent_ok.
Context {T : Type} `{!NameDict T nat}.
#[local] Abbreviation ns := (@nstate T).
Implicit Types (s : ns) (d p u : nat) (k : list Z).

(** ** Steps *)
Lemma inode_at_ok s p i : ns_inodes s !! p = Some i → inode_at p s = Ok (i, s).
Proof. unfold inode_at, deref. by intros ->. Qed.
Lemma dir_at_ok s d x : ns_dirs s !! d = Some x → dir_at d s = Ok (x, s).
Proof. unfold dir_at, deref. by intros ->. Qed.
Lemma uden_at_ok s u ud : ns_udens s !! u = Some ud → uden_at u s = Ok (ud, s).
Proof. unfold uden_at, deref. by intros ->. Qed.
Lemma den_at_ok s p e : ns_dens s !! p = Some e → den_at p s = Ok (e, s).
Proof. unfold den_at, deref. by intros ->. Qed.
Lemma upd_inode_ok s p i f : ns_inodes s !! p = Some i →
  upd_inode p f s = Ok (tt, set_inodes <[p := f i]> s).
Proof. intros H. unfold upd_inode. by rewrite (M_bind_ok _ _ _ _ _ (inode_at_ok _ _ _ H)). Qed.

Definition with_tree (x : @dirpart T) (t : T) : @dirpart T := mkDir (de_cache x) (n_de_cache x) t (inmem_den x).

Lemma tree_search_ok s d x m k : ns_dirs s !! d = Some x → nd_rep (dentry_tree x) m → name_ok k →
  tree_search d k s = Ok (m !! k, s).
Proof.
  intros Hd Hm Hk. unfold tree_search. rewrite (M_bind_ok _ _ _ _ _ (dir_at_ok _ _ _ Hd)).
  unfold lift. by rewrite (nd_search_ok _ _ _ _ Hm (cstr_ok _ Hk)).
Qed.

Lemma tree_insert_ok s d x m k u : ns_dirs s !! d = Some x → nd_rep (dentry_tree x) m → name_ok k →
  ∃ t, tree_insert d k u s = Ok (m !! k, set_dirs <[d := with_tree x t]> s) ∧ nd_rep t (<[k := u]> m).
Proof.
  intros Hd Hm Hk. destruct (nd_insert_ok _ _ _ _ u Hm (cstr_ok _ Hk) Hk) as (t & Ht & Hr).
  exists t. split; [|done]. unfold tree_insert. rewrite (M_bind_ok _ _ _ _ _ (dir_at_ok _ _ _ Hd)).
  unfold lift. unfold_M. rewrite Ht. done.
Qed.

Lemma tree_delete_ok s d x m k : ns_dirs s !! d = Some x → nd_rep (dentry_tree x) m → name_ok k →
  ∃ t, tree_delete d k s = Ok (m !! k, set_dirs <[d := with_tree x t]> s) ∧ nd_rep t (delete k m).
Proof.
  intros Hd Hm Hk. destruct (nd_delete_ok _ _ _ _ Hm (cstr_ok _ Hk)) as (t & Ht & Hr).
  exists t. split; [|done]. unfold tree_delete. rewrite (M_bind_ok _ _ _ _ _ (dir_at_ok _ _ _ Hd)).
  unfold lift. unfold_M. rewrite Ht. done.
Qed.

(** ** The relation *)
Abbreviation names := (gmap nat (gmap (list Z) nat)).

(** The entry of [k] in [d]: the inode number and the type, unless there is
    none or it is a tombstone. *)
Definition visible s (N : names) d k : option (Z * Z) :=
  m ← N !! d; u ← m !! k; ud ← ns_udens s !! u;
  if addordel ud =? Delden then None
  else e ← ns_dens s !! direntry ud; Some (d_ino e, d_file_type e).

Record ns_rep s (N : names) : Prop := {
  nr_tree : ∀ d x, ns_dirs s !! d = Some x → ∃ m, N !! d = Some m ∧ nd_rep (dentry_tree x) m;
  nr_dir : ∀ d m, N !! d = Some m → is_Some (ns_dirs s !! d) ∧ is_Some (ns_inodes s !! d);
  nr_entry : ∀ d m k u, N !! d = Some m → m !! k = Some u →
    ∃ ud e, ns_udens s !! u = Some ud ∧ ns_dens s !! direntry ud = Some e;
  nr_own : ∀ d m k u d' m' k', N !! d = Some m → m !! k = Some u →
    N !! d' = Some m' → m' !! k' = Some u → d = d' ∧ k = k';
  nr_cache : ∀ d x k p, ns_dirs s !! d = Some x → (k, p) ∈ de_cache x →
    ∃ i e, ns_inodes s !! p = Some i ∧ visible s N d k = Some e ∧ i_inum i = u32 e.1;
  nr_nodup : ∀ d x, ns_dirs s !! d = Some x → NoDup (de_cache x).*1;
  nr_fresh : ∀ p, (ns_next s ≤ p)%nat →
    ns_udens s !! p = None ∧ ns_dens s !! p = None ∧ ns_inodes s !! p = None ∧ ns_dirs s !! p = None;
  nr_icache : ∀ n p, ns_icache s !! n = Some p → ∃ i, ns_inodes s !! p = Some i ∧ i_inum i = n }.

Lemma find_str_in k h p : find_str k h = Some p → (k, p) ∈ h.
Proof.
  induction h as [|[k' q] h IH]; cbn; [done|]. case_bool_decide as E.
  - intros [= ->]. subst. set_solver.
  - intros H. apply elem_of_cons. auto.
Qed.

Lemma find_str_ne k k' p h : k ≠ k' → find_str k ((k', p) :: h) = find_str k h.
Proof. intros H. unfold find_str at 1. by rewrite bool_decide_false. Qed.
Lemma find_str_eq k p h : find_str k ((k, p) :: h) = Some p.
Proof. unfold find_str. by rewrite bool_decide_true. Qed.

Lemma del_str_ne k k' h : k ≠ k' → find_str k (del_str k' h) = find_str k h.
Proof.
  intros Hk. induction h as [|[k1 q] h IH]; [done|]. cbn [del_str].
  case_bool_decide as E; [subst; by rewrite find_str_ne|]. cbn [find_str]. by rewrite IH.
Qed.

Lemma find_str_none k h : find_str k h = None → k ∉ h.*1.
Proof.
  induction h as [|[k' q] h IH]; cbn; [intros _; apply not_elem_of_nil|]. case_bool_decide as E; [done|].
  intros H. apply not_elem_of_cons. auto.
Qed.

Lemma del_str_elem k h x : x ∈ del_str k h → x ∈ h.
Proof.
  induction h as [|[k' q] h IH]; cbn; [done|]. case_bool_decide; [set_solver|].
  rewrite !elem_of_cons. naive_solver.
Qed.

Lemma del_str_keys k h : NoDup h.*1 → NoDup (del_str k h).*1 ∧ k ∉ (del_str k h).*1.
Proof.
  induction h as [|[k' q] h IH]; cbn; [intros _; split; [constructor|apply not_elem_of_nil]|].
  intros [Hk' Hd]%NoDup_cons. destruct (IH Hd) as [H1 H2]. case_bool_decide as E; [by subst|]. cbn. split.
  - constructor; [|done]. intros ([k1 p1] & Heq & Hin)%list_elem_of_fmap. cbn in Heq. subst k1.
    apply Hk'. apply list_elem_of_fmap. exists (k', p1). split; [done|]. by apply del_str_elem in Hin.
  - apply not_elem_of_cons. auto.
Qed.

(** ** Lookup *)
Lemma rep_search s N d x m k : ns_rep s N → ns_dirs s !! d = Some x → N !! d = Some m → name_ok k →
  tree_search d k s = Ok (m !! k, s).
Proof.
  intros H Hd Hm Hk. destruct (nr_tree _ _ H _ _ Hd) as (m' & Hm' & Hr).
  replace m' with m in * by congruence. by eapply tree_search_ok.
Qed.

(** What the directory of an inode number reads as. *)
Definition dir_inode s d : Prop := ∃ i, ns_inodes s !! d = Some i ∧ i_itype i = T_DIR.

(** ** What keeps the relation *)
Lemma rep_log s N f : ns_rep s N → ns_rep (set_log f s) N.
Proof. intros H. split; apply H. Qed.
Lemma rep_table s N f : ns_rep s N → ns_rep (set_table f s) N.
Proof. intros H. split; apply H. Qed.
Lemma rep_dlookup s N f : ns_rep s N → ns_rep (set_dlookup f s) N.
Proof. intros H. split; apply H. Qed.
Lemma rep_rc s N f : ns_rep s N → ns_rep (set_rc f s) N.
Proof. intros H. split; apply H. Qed.

Lemma rep_upd_inode s N p i i' : ns_rep s N → ns_inodes s !! p = Some i → i_inum i' = i_inum i →
  ns_rep (set_inodes <[p := i']> s) N.
Proof.
  intros H Hi Hn. split; cbn; try apply H.
  - intros d m Hd. destruct (nr_dir _ _ H _ _ Hd) as [H1 H2]. split; [done|].
    destruct (decide (p = d)) as [->|]; [rewrite lookup_insert_eq; eauto|by rewrite lookup_insert_ne].
  - intros d x k q Hd Hin. destruct (nr_cache _ _ H _ _ _ _ Hd Hin) as (j & e & Hj & He & Hje).
    destruct (decide (p = q)) as [->|]; [|rewrite lookup_insert_ne by done; eauto].
    exists i', e. rewrite lookup_insert_eq. split_and!; [done..|]. congruence.
  - intros q Hq. destruct (nr_fresh _ _ H _ Hq) as (? & ? & H3 & ?). split_and!; try done.
    rewrite lookup_insert_ne; [done|]. intros ->. congruence.
  - intros n q Hq. destruct (nr_icache _ _ H _ _ Hq) as (j & Hj & Hjn).
    destruct (decide (p = q)) as [->|]; [|rewrite lookup_insert_ne by done; eauto].
    exists i'. rewrite lookup_insert_eq. split; [done|]. congruence.
Qed.

Lemma rep_cache s N d x h n : ns_rep s N → ns_dirs s !! d = Some x → NoDup h.*1 →
  (∀ k p, (k, p) ∈ h → ∃ i e, ns_inodes s !! p = Some i ∧ visible s N d k = Some e ∧ i_inum i = u32 e.1) →
  ns_rep (set_dirs <[d := mkDir h n (dentry_tree x) (inmem_den x)]> s) N.
Proof.
  intros H Hx Hh Hin. split; cbn; try apply H.
  - intros d' x'. destruct (decide (d = d')) as [<-|]; [|rewrite lookup_insert_ne by done; apply H].
    rewrite lookup_insert_eq. intros [= <-]. exact (nr_tree _ _ H _ _ Hx).
  - intros d' m Hd. destruct (nr_dir _ _ H _ _ Hd) as [H1 H2]. split; [|done].
    destruct (decide (d = d')) as [->|]; [rewrite lookup_insert_eq; eauto|by rewrite lookup_insert_ne].
  - intros d' x' k p. destruct (decide (d = d')) as [<-|]; [|rewrite lookup_insert_ne by done; apply H].
    rewrite lookup_insert_eq. intros [= <-]. apply Hin.
  - intros d' x'. destruct (decide (d = d')) as [<-|]; [|rewrite lookup_insert_ne by done; apply H].
    rewrite lookup_insert_eq. by intros [= <-].
  - intros q Hq. destruct (nr_fresh _ _ H _ Hq) as (? & ? & ? & H4). split_and!; try done.
    rewrite lookup_insert_ne; [done|]. intros ->. congruence.
Qed.

Lemma name_cache_add_ok s N d x k p i e : ns_rep s N → ns_dirs s !! d = Some x → (length k < DIRSIZ)%nat →
  find_str k (de_cache x) = None → ns_inodes s !! p = Some i → visible s N d k = Some e →
  i_inum i = u32 e.1 →
  ∃ s', de_cache_alloc_add d k p s = Ok (tt, s') ∧ ns_rep s' N ∧
    s' = set_dirs <[d := mkDir ((k, p) :: de_cache x) (u32 (n_de_cache x + 1)) (dentry_tree x) (inmem_den x)]> s.
Proof.
  intros H Hx Hl Hf Hi He Hn. unfold de_cache_alloc_add. rewrite (proj2 (Nat.leb_gt _ _) Hl).
  rewrite (M_bind_ok _ _ _ _ _ (dir_at_ok _ _ _ Hx)). eexists. split; [done|]. split; [|done].
  apply rep_cache; [done..| |].
  - cbn. constructor; [by apply find_str_none|by apply (nr_nodup _ _ H _ _ Hx)].
  - intros k' p' [[= -> ->]|Hin]%elem_of_cons; [eauto|]. by eapply (nr_cache _ _ H).
Qed.

Lemma set_dirs_id s d x : ns_dirs s !! d = Some x → set_dirs <[d := x]> s = s.
Proof. intros H. unfold set_dirs. rewrite insert_id by done. by destruct s. Qed.

Lemma name_cache_del_ok s d x k : NoDup (de_cache x).*1 → ns_dirs s !! d = Some x →
  ∃ h n, de_cache_del d k s = Ok (tt, set_dirs <[d := mkDir h n (dentry_tree x) (inmem_den x)]> s) ∧
    NoDup h.*1 ∧ k ∉ h.*1 ∧ (∀ y, y ∈ h → y ∈ de_cache x).
Proof.
  intros Hd Hx. unfold de_cache_del. rewrite (M_bind_ok _ _ _ _ _ (dir_at_ok _ _ _ Hx)). destruct (find_str k (de_cache x)) as [p|] eqn:Hf.
  - destruct (del_str_keys k _ Hd) as [H1 H2]. eexists _, _. split; [done|].
    split_and!; [done..|]. apply del_str_elem.
  - exists (de_cache x), (n_de_cache x). split.
    + replace (mkDir _ _ _ _) with x by (by destruct x). by rewrite set_dirs_id.
    + split_and!; [done|by apply find_str_none|done].
Qed.

Section with_world.
Variable w : world.

(** A name with an entry, live or not, is found in the tree. *)
Lemma find_uden_hit s N d m k u : ns_rep s N → N !! d = Some m → m !! k = Some u → name_ok k →
  find_uden w d k s = Ok (Some u, s).
Proof.
  intros H Hm Hu Hk. destruct (nr_dir _ _ H _ _ Hm) as [[x Hx] [i Hi]]. unfold find_uden.
  rewrite (M_bind_ok _ _ _ _ _ (inode_at_ok _ _ _ Hi)).
  rewrite (M_bind_ok _ _ _ _ _ (rep_search _ _ _ _ _ _ H Hx Hm Hk)), Hu.
  rewrite (M_bind_ok _ _ _ _ _ (dir_at_ok _ _ _ Hx)). cbn [is_none andb].
  rewrite (M_bind_ok _ _ s tt s) by done.
  by rewrite (M_bind_ok _ _ _ _ _ (rep_search _ _ _ _ _ _ H Hx Hm Hk)), Hu.
Qed.

(** A name without one is not found when there is nothing on disk. *)
Lemma find_uden_miss s N d m k i : ns_rep s N → N !! d = Some m → m !! k = None → name_ok k →
  ns_inodes s !! d = Some i → i_root i = 0 → find_uden w d k s = Ok (None, s).
Proof.
  intros H Hm Hu Hk Hi Hroot. destruct (nr_dir _ _ H _ _ Hm) as [[x Hx] _]. unfold find_uden.
  rewrite (M_bind_ok _ _ _ _ _ (inode_at_ok _ _ _ Hi)).
  rewrite (M_bind_ok _ _ _ _ _ (rep_search _ _ _ _ _ _ H Hx Hm Hk)), Hu.
  rewrite (M_bind_ok _ _ _ _ _ (dir_at_ok _ _ _ Hx)). rewrite Hroot. cbn [is_none andb Z.ltb Z.compare].
  rewrite (M_bind_ok _ _ s tt s) by done.
  by rewrite (M_bind_ok _ _ _ _ _ (rep_search _ _ _ _ _ _ H Hx Hm Hk)), Hu.
Qed.

Lemma visible_spec s N d m k e : N !! d = Some m →
  visible s N d k = Some e ↔ ∃ u ud f, m !! k = Some u ∧ ns_udens s !! u = Some ud ∧
    addordel ud ≠ Delden ∧ ns_dens s !! direntry ud = Some f ∧ e = (d_ino f, d_file_type f).
Proof.
  intros Hm. unfold visible. rewrite Hm. cbn. split.
  - intros H. destruct (m !! k) as [u|]; [|done]. cbn in H. destruct (ns_udens s !! u) as [ud|] eqn:Hu; [|done].
    cbn in H. destruct (addordel ud =? Delden) eqn:E; [done|]. apply Z.eqb_neq in E.
    destruct (ns_dens s !! direntry ud) as [f|] eqn:Hf; [|done]. cbn in H. injection H as <-.
    exists u, ud, f. done.
  - intros (u & ud & f & -> & Hu & Hne & Hf & ->). cbn. rewrite Hu. cbn.
    rewrite (proj2 (Z.eqb_neq _ _) Hne), Hf. done.
Qed.

Lemma invisible_spec s N d m k : ns_rep s N → N !! d = Some m → visible s N d k = None →
  m !! k = None ∨ ∃ u ud, m !! k = Some u ∧ ns_udens s !! u = Some ud ∧ addordel ud = Delden.
Proof.
  intros H Hm. unfold visible. rewrite Hm. cbn. destruct (m !! k) as [u|] eqn:Hk; [|by left]. cbn.
  destruct (nr_entry _ _ H _ _ _ _ Hm Hk) as (ud & e & Hu & He). rewrite Hu. cbn.
  destruct (addordel ud =? Delden) eqn:E; [|by rewrite He].
  intros _. right. exists u, ud. split_and!; [done..|]. by apply Z.eqb_eq.
Qed.

(** The inode table gives the inode of a number. *)
Lemma iget_ptr_cached s N inum p i : ns_rep s N → ns_icache s !! inum = Some p →
  ns_inodes s !! p = Some i → deleting i = false →
  iget_ptr w inum s = Ok (Some p, set_inodes <[p := set_ref (i_ref i + 1) i]> s).
Proof.
  intros H Hc Hi Hdel. unfold iget_ptr. rewrite Hc, (inode_at_ok _ _ _ Hi). unfold_M. cbn.
  unfold iget, icache_find. rewrite lookup_singleton_eq.
  unfold deleting in Hdel. apply negb_false_iff in Hdel. rewrite Hdel, andb_false_r. done.
Qed.

(** A new inode in the table. *)
Definition new_ino s (i : inode) : ns :=
  set_icache <[i_inum i := ns_next s]> (set_inodes <[ns_next s := i]> (set_next S s)).

Lemma rep_new_ino s N i : ns_rep s N → ns_rep (new_ino s i) N.
Proof.
  intros H. pose proof (nr_fresh _ _ H (ns_next s) ltac:(done)) as (_ & _ & Hi & Hd).
  assert (Hne : ∀ q j, ns_inodes s !! q = Some j → <[ns_next s := i]> (ns_inodes s) !! q = Some j).
  { intros q j Hq. rewrite lookup_insert_ne; [done|]. intros <-. congruence. }
  split; cbn; try apply H.
  - intros d m Hm. destruct (nr_dir _ _ H _ _ Hm) as [H1 [j Hj]]. split; [done|]. eauto.
  - intros d x k q Hx Hin. destruct (nr_cache _ _ H _ _ _ _ Hx Hin) as (j & e & Hj & ?). eauto.
  - intros q Hq. destruct (nr_fresh _ _ H q ltac:(lia)) as (? & ? & ? & ?). split_and!; try done.
    rewrite lookup_insert_ne; [done|lia].
  - intros n q. destruct (decide (i_inum i = n)) as [<-|].
    + rewrite lookup_insert_eq. intros [= <-]. exists i. by rewrite lookup_insert_eq.
    + rewrite lookup_insert_ne by done. intros Hq. destruct (nr_icache _ _ H _ _ Hq) as (j & Hj & ?). eauto.
Qed.

Lemma rep_none s N p : ns_rep s N → ns_dirs s !! p = None → N !! p = None.
Proof.
  intros H Hp. destruct (N !! p) as [m|] eqn:Hm; [|done].
  destruct (nr_dir _ _ H _ _ Hm) as [[x Hx] _]. congruence.
Qed.

(** An empty tree for a directory that has none yet. *)
Definition new_dir s p : ns := set_dirs <[p := mkDir [] 0 nd_empty false]> s.

Lemma visible_new_dir s N p d k : ns_rep s N → ns_dirs s !! p = None →
  visible (new_dir s p) (<[p := ∅]> N) d k = visible s N d k.
Proof.
  intros H Hp. pose proof (rep_none _ _ _ H Hp) as Hn. unfold visible. cbn.
  destruct (decide (p = d)) as [<-|]; [|by rewrite lookup_insert_ne].
  rewrite lookup_insert_eq, Hn. done.
Qed.

Lemma rep_new_dir s N p i : ns_rep s N → ns_dirs s !! p = None → ns_inodes s !! p = Some i →
  ns_rep (new_dir s p) (<[p := ∅]> N).
Proof.
  intros H Hp Hi. pose proof (rep_none _ _ _ H Hp) as Hn. pose proof (λ d k, visible_new_dir s N p d k H Hp) as Hv.
  assert (Hold : ∀ d m k u, <[p := ∅]> N !! d = Some m → m !! k = Some u → N !! d = Some m).
  { intros d m k u. destruct (decide (p = d)) as [<-|]; [|by rewrite lookup_insert_ne].
    rewrite lookup_insert_eq. intros [= <-]. by rewrite lookup_empty. }
  split; cbn; [..|apply H].
  - intros d x. destruct (decide (p = d)) as [<-|].
    + rewrite !lookup_insert_eq. intros [= <-]. exists ∅. split; [done|apply nd_empty_ok].
    + rewrite !lookup_insert_ne by done. apply H.
  - intros d m. destruct (decide (p = d)) as [<-|].
    + rewrite !lookup_insert_eq. eauto.
    + rewrite !lookup_insert_ne by done. apply H.
  - intros d m k u Hm Hk. eapply (nr_entry _ _ H); [by eapply Hold|done].
  - intros d m k u d' m' k' Hm Hk Hm' Hk'. eapply (nr_own _ _ H); [by eapply Hold|done|by eapply Hold|done].
  - intros d x k q. rewrite Hv. destruct (decide (p = d)) as [<-|].
    + rewrite lookup_insert_eq. intros [= <-]. cbn. by intros ?%elem_of_nil.
    + rewrite lookup_insert_ne by done. apply H.
  - intros d x. destruct (decide (p = d)) as [<-|].
    + rewrite lookup_insert_eq. intros [= <-]. constructor.
    + rewrite lookup_insert_ne by done. apply H.
  - intros q Hq. destruct (nr_fresh _ _ H _ Hq) as (? & ? & H3 & ?). split_and!; try done.
    rewrite lookup_insert_ne; [done|]. intros ->. congruence.
Qed.

(** ** [dir_lookup] *)

(** The inode of [inum] can be had: from the table, or from the kernel. *)
Definition iget_ready s (inum : Z) : Prop :=
  match ns_icache s !! inum with
  | Some p => ∃ i, ns_inodes s !! p = Some i ∧ deleting i = false
  | None => is_Some (w_fetch w inum)
  end.

Lemma iget_ptr_ok s N inum : ns_rep s N → iget_ready s inum →
  ∃ p i s' N', iget_ptr w inum s = Ok (Some p, s') ∧ ns_rep s' N' ∧ ns_inodes s' !! p = Some i ∧
    i_inum i = inum ∧ (∀ d k, visible s' N' d k = visible s N d k) ∧
    (∀ d x, ns_dirs s !! d = Some x → ns_dirs s' !! d = Some x) ∧ N ⊆ N' ∧
    (∀ q, ns_icache s !! inum = Some q → p = q).
Proof.
  intros H Hr. unfold iget_ready in Hr. destruct (ns_icache s !! inum) as [p|] eqn:Hc.
  - destruct Hr as (i & Hi & Hd). exists p. eexists _, _, N. split; [by eapply iget_ptr_cached|].
    destruct (nr_icache _ _ H _ _ Hc) as (i' & Hi' & Hn). replace i' with i in * by congruence.
    split_and!; [by eapply rep_upd_inode|apply lookup_insert_eq|done|done|done|done|congruence].
  - destruct Hr as [t Ht]. unfold iget_ptr. rewrite Hc. unfold iget, icache_find. rewrite lookup_empty.
    unfold read_ondisk_inode. rewrite Ht. set (b := if _ =? 0 then _ else _). destruct b as [[? ?] ?].
    cbn [mbind outcome_bind fst snd i_inum i_itype]. set (i := mkInode _ _ _ _ _ _ _ _ _ _ _ _ _).
    change (set_icache _ _) with (new_ino s i).
    pose proof (rep_new_ino s N i H) as H1. pose proof (nr_fresh _ _ H (ns_next s) ltac:(done)) as (_ & _ & _ & Hd).
    exists (ns_next s), i. destruct (_ =? T_DIR).
    + exists (new_dir (new_ino s i) (ns_next s)), (<[ns_next s := ∅]> N).
      assert (Hi : ns_inodes (new_ino s i) !! ns_next s = Some i) by apply lookup_insert_eq.
      split_and!; [done|by eapply rep_new_dir|done|done| | | |].
      * intros d k. by rewrite visible_new_dir.
      * intros d x Hx. cbn. rewrite lookup_insert_ne; [done|]. intros <-. congruence.
      * apply insert_subseteq. by eapply rep_none.
      * congruence.
    + eexists _, N. split_and!; [done|done|apply lookup_insert_eq|done|done|done|done|congruence].
Qed.

Lemma dir_lookup_hit s N d m k ino ft : ns_rep s N → N !! d = Some m → dir_inode s d → name_ok k →
  (length k < DIRSIZ)%nat → visible s N d k = Some (ino, ft) → u32 ino ≠ 0 → iget_ready s (u32 ino) →
  ∃ p i s' N', dir_lookup w d k s = Ok (Some p, s') ∧ ns_rep s' N' ∧ ns_inodes s' !! p = Some i ∧
    i_inum i = u32 ino ∧ (∀ d' k', visible s' N' d' k' = visible s N d' k') ∧
    (∀ x q, ns_dirs s !! d = Some x → find_str k (de_cache x) = None → ns_icache s !! u32 ino = Some q → p = q).
Proof.
  intros H Hm (di & Hdi & Hty) Hk Hl Hv Hino Hr. destruct (nr_dir _ _ H _ _ Hm) as [[x Hx] _].
  unfold dir_lookup. rewrite (M_bind_ok _ _ _ _ _ (inode_at_ok _ _ _ Hdi)), Hty, Z.eqb_refl. cbn [negb].
  unfold de_cache_find at 1. rewrite (M_bind_ok _ _ s (find_str k (de_cache x)) s).
  2: { by rewrite (M_bind_ok _ _ _ _ _ (dir_at_ok _ _ _ Hx)). }
  destruct (find_str k (de_cache x)) as [p|] eqn:Hf.
  - destruct (nr_cache _ _ H _ _ _ _ Hx (find_str_in _ _ _ Hf)) as (i & e & Hi & He & Hn).
    rewrite Hv in He. injection He as <-. cbn in Hn.
    unfold i_ref_inc. rewrite (M_bind_ok _ _ _ _ _ (upd_inode_ok _ _ _ _ Hi)).
    exists p. eexists _, _, N. split; [done|].
    split_and!; [by eapply rep_upd_inode|apply lookup_insert_eq|done|done|congruence].
  - apply (visible_spec s N d m) in Hv as (u & ud & f & Hu & Hud & Hne & Hfd & [= -> ->]); [|done].
    rewrite (M_bind_ok _ _ _ _ _ (find_uden_hit _ _ _ _ _ _ H Hm Hu Hk)).
    rewrite (M_bind_ok _ _ _ _ _ (uden_at_ok _ _ _ Hud)), (proj2 (Z.eqb_neq _ _) Hne).
    rewrite (M_bind_ok _ _ _ _ _ (den_at_ok _ _ _ Hfd)). cbv zeta. rewrite (proj2 (Z.eqb_neq _ _) Hino).
    destruct (iget_ptr_ok s N _ H Hr) as (p & i & s1 & N1 & Hg & H1 & Hi & Hin & Hvis & Hdirs & HN & Hpq).
    rewrite (M_bind_ok _ _ _ _ _ Hg), (M_bind_ok _ _ _ _ _ (upd_inode_ok _ _ _ _ Hi)).
    assert (H2 : ns_rep (set_inodes <[p := set_itype (d_file_type f) i]> s1) N1) by (by eapply rep_upd_inode).
    destruct (name_cache_add_ok _ N1 d x k p (set_itype (d_file_type f) i) (d_ino f, d_file_type f) H2)
      as (s2 & Hs2 & H3 & Heq); [by apply Hdirs|done|done|apply lookup_insert_eq| |done|].
    { change (visible s1 N1 d k = Some (d_ino f, d_file_type f)). rewrite Hvis.
      apply (visible_spec s N d m); [done|]. by exists u, ud, f. }
    rewrite (M_bind_ok _ _ _ _ _ Hs2). exists p. eexists _, _, N1. split; [done|].
    split_and!; [done|rewrite Heq; apply lookup_insert_eq|done| |eauto].
    intros d' k'. rewrite Heq. change (visible s1 N1 d' k' = visible s N d' k'). apply Hvis.
Qed.

(** Nothing is found for a tombstone, or without an entry in memory and on
    disk. *)
Lemma dir_lookup_miss s N d m k i : ns_rep s N → N !! d = Some m → ns_inodes s !! d = Some i →
  i_itype i = T_DIR → name_ok k → visible s N d k = None → (i_root i = 0 ∨ is_Some (m !! k)) →
  dir_lookup w d k s = Ok (None, s).
Proof.
  intros H Hm Hdi Hty Hk Hv Hroot. destruct (nr_dir _ _ H _ _ Hm) as [[x Hx] _].
  unfold dir_lookup. rewrite (M_bind_ok _ _ _ _ _ (inode_at_ok _ _ _ Hdi)), Hty, Z.eqb_refl. cbn [negb].
  unfold de_cache_find at 1. rewrite (M_bind_ok _ _ s (find_str k (de_cache x)) s).
  2: { by rewrite (M_bind_ok _ _ _ _ _ (dir_at_ok _ _ _ Hx)). }
  destruct (find_str k (de_cache x)) as [p|] eqn:Hf.
  { destruct (nr_cache _ _ H _ _ _ _ Hx (find_str_in _ _ _ Hf)) as (? & e & ? & He & ?). congruence. }
  destruct (invisible_spec _ _ _ _ _ H Hm Hv) as [Hn|(u & ud & Hu & Hud & Hdel)].
  - destruct Hroot as [Hroot|[u Hu]]; [|congruence].
    by rewrite (M_bind_ok _ _ _ _ _ (find_uden_miss _ _ _ _ _ _ H Hm Hn Hk Hdi Hroot)).
  - rewrite (M_bind_ok _ _ _ _ _ (find_uden_hit _ _ _ _ _ _ H Hm Hu Hk)).
    by rewrite (M_bind_ok _ _ _ _ _ (uden_at_ok _ _ _ Hud)), Hdel.
Qed.

(** ** Changing one entry *)

(** [N] with [u] under [k] in [d]. *)
Definition link (N : names) d k u : names := alter (<[k := u]>) d N.

Lemma link_lookup N d k u m : N !! d = Some m → link N d k u !! d = Some (<[k := u]> m).
Proof. intros H. unfold link. by rewrite lookup_alter_eq, H. Qed.
Lemma link_other N d k u d' : d ≠ d' → link N d k u !! d' = N !! d'.
Proof. intros H. by apply lookup_alter_ne. Qed.

Lemma link_cases N d k u d' m' k' v : link N d k u !! d' = Some m' → m' !! k' = Some v →
  (d' = d ∧ k' = k ∧ v = u) ∨ ¬ (d' = d ∧ k' = k) ∧ ∃ m, N !! d' = Some m ∧ m !! k' = Some v.
Proof.
  destruct (decide (d = d')) as [<-|Hne]; [|rewrite link_other by done; right; split; [naive_solver|eauto]].
  unfold link. rewrite lookup_alter_eq. destruct (N !! d) as [m|]; [|done]. intros [= <-].
  destruct (decide (k = k')) as [<-|Hk]; [rewrite lookup_insert_eq; intros [= <-]; auto|].
  rewrite lookup_insert_ne by done. right. split; [naive_solver|eauto].
Qed.

(** The tree of [d] gets [u] under [k], and [u] is not in use elsewhere:
    everything but the entry of [k] in [d] stays.  [h] is the new cache. *)
Section relink.
Context (s s' : ns) (N : names) (d : nat) (m : gmap (list Z) nat) (x : @dirpart T) (k : list Z) (u : nat)
  (ud : ufs_direntry) (e : fs_direntry) (t : T) (h : list (list Z * nat)) (n : Z) (b : bool)
  (H : ns_rep s N) (Hm : N !! d = Some m) (Hx : ns_dirs s !! d = Some x)
  (Ht : nd_rep t (<[k := u]> m))
  (Hown : ∀ d' m' k', N !! d' = Some m' → m' !! k' = Some u → d' = d ∧ k' = k)
  (Hdirs : ns_dirs s' = <[d := mkDir h n t b]> (ns_dirs s))
  (Huo : ∀ v, v ≠ u → is_Some (ns_udens s !! v) → ns_udens s' !! v = ns_udens s !! v)
  (Hdo : ∀ v, is_Some (ns_dens s !! v) → ns_dens s' !! v = ns_dens s !! v)
  (Hu : ns_udens s' !! u = Some ud) (He : ns_dens s' !! direntry ud = Some e)
  (Hino : ∀ p i, ns_inodes s !! p = Some i → ∃ i', ns_inodes s' !! p = Some i' ∧ i_inum i' = i_inum i)
  (Hfresh : ∀ p, (ns_next s' ≤ p)%nat →
    ns_udens s' !! p = None ∧ ns_dens s' !! p = None ∧ ns_inodes s' !! p = None ∧ ns_dirs s' !! p = None)
  (Hic : ∀ n p, ns_icache s' !! n = Some p → ∃ i, ns_inodes s' !! p = Some i ∧ i_inum i = n)
  (Hnd : NoDup h.*1) (Hkh : k ∉ h.*1) (Hsub : ∀ y, y ∈ h → y ∈ de_cache x).

Definition relinked : option (Z * Z) :=
  if addordel ud =? Delden then None else Some (d_ino e, d_file_type e).

Lemma visible_link d' k' :
  visible s' (link N d k u) d' k' = if decide (d' = d ∧ k' = k) then relinked else visible s N d' k'.
Proof using H Hm Hown Huo Hdo Hu He.
  clear Hx Ht Hdirs Hino Hfresh Hic Hnd Hkh Hsub.
  unfold relinked. destruct (decide (d' = d ∧ k' = k)) as [[-> ->]|Hne]; unfold visible.
  { rewrite (link_lookup _ _ _ _ _ Hm). cbn. rewrite lookup_insert_eq. cbn. rewrite Hu. cbn.
    case_match; [done|]. by rewrite He. }
  destruct (N !! d') as [m'|] eqn:Hm'.
  2: { destruct (decide (d = d')) as [->|]; [congruence|]. by rewrite link_other, Hm'. }
  assert (Hm'' : ∃ m'', link N d k u !! d' = Some m'' ∧ m'' !! k' = m' !! k').
  { destruct (decide (d = d')) as [->|]; [|rewrite link_other, Hm' by done; eauto].
    exists (<[k := u]> m). split; [by apply link_lookup|]. replace m' with m by congruence.
    apply lookup_insert_ne. naive_solver. }
  destruct Hm'' as (m'' & -> & Hk'). cbn. rewrite Hk'. destruct (m' !! k') as [v|] eqn:Hv; [|done]. cbn.
  destruct (nr_entry _ _ H _ _ _ _ Hm' Hv) as (vd & f & Hvd & Hf).
  rewrite Huo, Hvd by (eauto || (intros ->; naive_solver)). cbn. case_match; [done|].
  rewrite Hdo by eauto. done.
Qed.

Lemma rep_link : ns_rep s' (link N d k u).
Proof using All.
  assert (Hd : is_Some (ns_dirs s !! d)) by eauto. split; rewrite ?Hdirs.
  - intros d' x'. destruct (decide (d = d')) as [<-|].
    + rewrite lookup_insert_eq. intros [= <-]. exists (<[k := u]> m). split; [by apply link_lookup|done].
    + rewrite lookup_insert_ne, link_other by done. apply H.
  - intros d' m' Hl.
    assert (∃ m0, N !! d' = Some m0) as [m0 Hm0].
    { destruct (decide (d = d')) as [<-|]; [eauto|]. rewrite link_other in Hl by done. eauto. }
    destruct (nr_dir _ _ H _ _ Hm0) as [H1 [i Hi]]. destruct (Hino _ _ Hi) as (i' & -> & _).
    split; [|eauto]. destruct (decide (d = d')) as [<-|]; [rewrite lookup_insert_eq; eauto|].
    by rewrite lookup_insert_ne.
  - intros d' m' k' v Hl Hv. destruct (link_cases _ _ _ _ _ _ _ _ Hl Hv) as [(-> & -> & ->)|(Hne & m0 & Hm0 & Hk')].
    { eauto. }
    destruct (nr_entry _ _ H _ _ _ _ Hm0 Hk') as (vd & f & Hvd & Hf). exists vd, f.
    rewrite Huo, Hdo by (eauto || (intros ->; naive_solver)). done.
  - intros d1 m1 k1 v d2 m2 k2 H1 Hk1 H2 Hk2.
    destruct (link_cases _ _ _ _ _ _ _ _ H1 Hk1) as [(-> & -> & ->)|(Hn1 & m1' & Hm1 & Hk1')],
      (link_cases _ _ _ _ _ _ _ _ H2 Hk2) as [(-> & -> & Hv2)|(Hn2 & m2' & Hm2 & Hk2')];
      [done|naive_solver|subst v; naive_solver|].
    exact (nr_own _ _ H _ _ _ _ _ _ _ Hm1 Hk1' Hm2 Hk2').
  - intros d' x' k' p Hx' Hin.
    assert (Hold : ∃ x0, ns_dirs s !! d' = Some x0 ∧ (k', p) ∈ de_cache x0 ∧ ¬ (d' = d ∧ k' = k)).
    { destruct (decide (d = d')) as [<-|].
      - rewrite lookup_insert_eq in Hx'. injection Hx' as <-. exists x. split_and!; [done|by apply Hsub|].
        intros [_ ->]. apply Hkh, list_elem_of_fmap. by exists (k, p).
      - rewrite lookup_insert_ne in Hx' by done. exists x'. naive_solver. }
    destruct Hold as (x0 & Hx0 & Hin0 & Hne).
    destruct (nr_cache _ _ H _ _ _ _ Hx0 Hin0) as (i & f & Hi & Hv & Hif).
    destruct (Hino _ _ Hi) as (i' & Hi' & Hn'). exists i', f.
    rewrite visible_link, decide_False by done. split_and!; [done..|congruence].
  - intros d' x'. destruct (decide (d = d')) as [<-|]; [|rewrite lookup_insert_ne by done; apply H].
    rewrite lookup_insert_eq. by intros [= <-].
  - intros p. rewrite <- Hdirs. apply Hfresh.
  - exact Hic.
Qed.
End relink.

(** ** [dir_remove_entry] *)

Lemma link_id N d m k u : N !! d = Some m → m !! k = Some u → link N d k u = N.
Proof.
  intros Hm Hu. apply map_eq. intros d'. destruct (decide (d = d')) as [<-|]; [|by rewrite link_other].
  by rewrite (link_lookup _ _ _ _ _ Hm), insert_id, Hm.
Qed.

Lemma bury_entry_ok s d y m k u i ino : ns_dirs s !! d = Some y → nd_rep (dentry_tree y) m →
  ns_inodes s !! d = Some i → name_ok k → m !! k = Some u → w_int w u ≠ 0 →
  ∃ t, bury_entry w d k u ino s = Ok (0, set_dirs <[d := with_tree y t]>
      (set_log (append_entry_log (dentry_bytes (remove_dentry w (i_inum i) ino k)) 1) s)) ∧
    nd_rep t (<[k := u]> m).
Proof.
  intros Hy Hr Hi Hk Hu Hint. unfold bury_entry.
  destruct (tree_delete_ok s d y m k) as (t1 & Ht1 & Hr1); [done..|].
  rewrite (M_bind_ok _ _ _ _ _ Ht1), Hu, (proj2 (Z.eqb_neq _ _) Hint).
  set (s1 := set_dirs _ s). rewrite (M_bind_ok _ _ s1 i s1) by (by apply inode_at_ok).
  set (s2 := set_log (append_entry_log (dentry_bytes (remove_dentry w (i_inum i) ino k)) 1) s1).
  rewrite (M_bind_ok _ _ s1 tt s2) by done.
  destruct (tree_delete_ok s2 d (with_tree y t1) (delete k m) k) as (t2 & Ht2 & Hr2);
    [apply lookup_insert_eq|done..|].
  rewrite (M_bind_ok _ _ _ _ _ Ht2). set (s3 := set_dirs _ s2).
  destruct (tree_insert_ok s3 d (with_tree (with_tree y t1) t2) (delete k (delete k m)) k u)
    as (t3 & Ht3 & Hr3); [apply lookup_insert_eq|done..|].
  rewrite (M_bind_ok _ _ _ _ _ Ht3). rewrite delete_delete_eq, insert_delete_eq in Hr3.
  exists t3. split; [|done]. unfold s3, s2, s1, set_dirs, set_log. cbn. by rewrite !insert_insert_eq.
Qed.

(** The two log entries of a removal. *)
Definition remove_log (dino ino : Z) k (l : log) : log :=
  append_entry_log (dentry_bytes (remove_dentry w dino ino k)) 1
    (append_entry_log (setattr_bytes (remove_setattr w ino)) 0 l).

(** [k] of [d] is gone, everything else is as it was. *)
Record removed s s' N d k di ino : Prop := {
  rm_rep : ns_rep s' N;
  rm_visible : ∀ d' k', visible s' N d' k' = if decide (d' = d ∧ k' = k) then None else visible s N d' k';
  rm_inodes : ns_inodes s' = <[d := set_isize (u64 (i_size di - FUCKFS_DIR_REC_LEN 8)) di]> (ns_inodes s);
  rm_table : ns_table s' = (Inodes.put_inode_bitmap ino (ns_table s)).2;
  rm_log : ns_log s' = remove_log (i_inum di) ino k (ns_log s);
  rm_dlookup : ns_dlookup s' = ns_dlookup s;
  rm_icache : ns_icache s' = ns_icache s;
  rm_rc : ns_rc s' = ns_rc s }.

Lemma removed_intro s s' N d m k di ud f u x h n t : ns_rep s N → N !! d = Some m →
  ns_inodes s !! d = Some di → ns_dirs s !! d = Some x → m !! k = Some u → ns_udens s !! u = Some ud →
  ns_dens s !! direntry ud = Some f → nd_rep t (<[k := u]> m) →
  NoDup h.*1 → k ∉ h.*1 → (∀ y, y ∈ h → y ∈ de_cache x) →
  ns_inodes s' = <[d := set_isize (u64 (i_size di - FUCKFS_DIR_REC_LEN 8)) di]> (ns_inodes s) →
  ns_dirs s' = <[d := mkDir h n t (inmem_den x)]> (ns_dirs s) →
  ns_udens s' = <[u := mkUd Delden (direntry ud)]> (ns_udens s) →
  ns_dens s' = ns_dens s → ns_next s' = ns_next s → ns_icache s' = ns_icache s →
  ns_table s' = (Inodes.put_inode_bitmap (d_ino f) (ns_table s)).2 →
  ns_log s' = remove_log (i_inum di) (d_ino f) k (ns_log s) →
  ns_dlookup s' = ns_dlookup s → ns_rc s' = ns_rc s →
  removed s s' N d k di (d_ino f).
Proof.
  intros H Hm Hdi Hx Hu Hud Hf Ht Hh Hkh Hsub Ei Ed Eu Ee En Ec Et El Ek Er. pose proof (link_id N d m k u Hm Hu) as HN.
  assert (Hown : ∀ d' m' k', N !! d' = Some m' → m' !! k' = Some u → d' = d ∧ k' = k).
  { intros d' m' k' Hm' Hk'. apply (nr_own _ _ H _ _ _ _ _ _ _ Hm' Hk' Hm Hu). }
  split; try done.
  - rewrite <- HN. eapply (rep_link s) with (x := x) (e := f); rewrite ?Ei, ?Ed, ?Eu, ?Ee, ?En, ?Ec;
      [done|done|done|done|done|done| | |apply lookup_insert_eq|done| | | |done..].
    + intros v Hvu _. by apply lookup_insert_ne.
    + done.
    + intros p i Hi. destruct (decide (d = p)) as [<-|]; [|rewrite lookup_insert_ne by done; eauto].
      rewrite lookup_insert_eq. eexists. split; [done|]. cbn. congruence.
    + intros p Hp. destruct (nr_fresh _ _ H p Hp) as (H1 & ? & H3 & H4). split_and!; try done;
        rewrite lookup_insert_ne; congruence.
    + intros c p Hp. destruct (nr_icache _ _ H _ _ Hp) as (i & Hi & Hn).
      destruct (decide (d = p)) as [<-|]; [|rewrite lookup_insert_ne by done; eauto].
      rewrite lookup_insert_eq. eexists. split; [done|]. cbn. congruence.
  - intros d' k'. rewrite <- HN at 1.
    rewrite (visible_link s _ N d m k u (mkUd Delden (direntry ud)) f); rewrite ?Eu, ?Ee; try done.
    + intros v Hvu _. by apply lookup_insert_ne.
    + apply lookup_insert_eq.
Qed.

Lemma dir_remove_entry_ok s N d m k di ino ft : ns_rep s N → N !! d = Some m →
  ns_inodes s !! d = Some di → name_ok k → visible s N d k = Some (ino, ft) → ino ≠ 0 →
  (∀ q, w_int w q ≠ 0) →
  ∃ s', dir_remove_entry w d k s = Ok (0, s') ∧ removed s s' N d k di ino.
Proof.
  intros H Hm Hdi Hk Hv Hino Hint. destruct (nr_dir _ _ H _ _ Hm) as [[x Hx] _].
  apply (visible_spec s N d m) in Hv as (u & ud & f & Hu & Hud & Hne & Hf & [= -> ->]); [|done].
  destruct (nr_tree _ _ H _ _ Hx) as (m' & Hm' & Hr). replace m' with m in * by congruence. clear m' Hm'.
  unfold dir_remove_entry. rewrite (M_bind_ok _ _ _ _ _ (inode_at_ok _ _ _ Hdi)).
  rewrite (M_bind_ok _ _ _ _ _ (rep_search _ _ _ _ _ _ H Hx Hm Hk)), Hu.
  rewrite (M_bind_ok _ _ _ _ _ (dir_at_ok _ _ _ Hx)). cbn [is_none andb].
  rewrite (M_bind_ok _ _ s (Some u) s) by done.
  rewrite (M_bind_ok _ _ _ _ _ (uden_at_ok _ _ _ Hud)), (proj2 (Z.eqb_neq _ _) Hne).
  set (s1 := set_udens <[u := mkUd Delden (direntry ud)]> s).
  rewrite (M_bind_ok _ _ s tt s1) by done.
  rewrite (M_bind_ok _ _ s1 f s1) by (by apply den_at_ok).
  rewrite (M_bind_ok _ _ _ _ _ (upd_inode_ok s1 d di _ Hdi)), (proj2 (Z.eqb_neq _ _) Hino).
  set (di' := set_isize _ di). set (s2 := set_inodes _ s1). rewrite (M_bind_ok _ _ s2 tt s2) by done.
  set (s3 := set_table (λ t, (Inodes.put_inode_bitmap (d_ino f) t).2) s2).
  rewrite (M_bind_ok _ _ s2 tt s3) by done.
  destruct (name_cache_del_ok s3 d x k (nr_nodup _ _ H _ _ Hx) Hx) as (h & n & Hc & Hh & Hkh & Hsub).
  rewrite (M_bind_ok _ _ _ _ _ Hc). set (y := mkDir h n _ _). set (s4 := set_dirs _ s3).
  set (s5 := set_log (append_entry_log (setattr_bytes (remove_setattr w (d_ino f))) 0) s4).
  rewrite (M_bind_ok _ _ s4 tt s5) by done.
  destruct (bury_entry_ok s5 d y m k u di' (d_ino f)) as (t & -> & Ht);
    [apply lookup_insert_eq|done|apply lookup_insert_eq|done..|].
  eexists. split; [done|]. eapply removed_intro; try done. apply insert_insert_eq.
Qed.

(** ** Creation *)

(** Two states of an inode that differ in link count and size at most. *)
Record alike (i i' : inode) : Prop := {
  al_inum : i_inum i' = i_inum i;
  al_itype : i_itype i' = i_itype i;
  al_root : i_root i' = i_root i;
  al_flags : i_flags i' = i_flags i;
  al_ref : i_ref i' = i_ref i;
  al_fcache : i_fcache i' = i_fcache i }.

#[export] Instance alike_preorder : PreOrder alike.
Proof.
  split; [done|]. intros i1 i2 i3 [] []. split; congruence.
Qed.

(** What a new entry in the heap leaves alone: every name means what it meant,
    the directories and the numbers of the inodes are the same. *)
Record keeps s s' N N' : Prop := {
  kp_rep : ns_rep s' N';
  kp_visible : ∀ d k, visible s' N' d k = visible s N d k;
  kp_names : ∀ d m k v, N' !! d = Some m → m !! k = Some v → N !! d = Some m;
  kp_sub : N ⊆ N';
  kp_dirs : ∀ d x, ns_dirs s !! d = Some x → ns_dirs s' !! d = Some x;
  kp_inodes : ∀ p i, ns_inodes s !! p = Some i →
    ∃ i', ns_inodes s' !! p = Some i' ∧ alike i i';
  kp_dlookup : ns_dlookup s' = ns_dlookup s;
  kp_log : ns_log s' = ns_log s;
  kp_rc : ns_rc s' = ns_rc s }.

(** A fresh [struct ufs_direntry]. *)
Definition new_uden s (v : ufs_direntry) : ns := set_udens <[ns_next s := v]> (set_next S s).

Lemma keeps_new_uden s N v : ns_rep s N → keeps s (new_uden s v) N N.
Proof.
  intros H. pose proof (nr_fresh _ _ H (ns_next s) ltac:(done)) as (Hu & _).
  assert (Hne : ∀ q j, ns_udens s !! q = Some j → <[ns_next s := v]> (ns_udens s) !! q = Some j).
  { intros q j Hq. rewrite lookup_insert_ne; [done|]. intros <-. congruence. }
  assert (Hv : ∀ d k, visible (new_uden s v) N d k = visible s N d k).
  { intros d k. unfold visible. destruct (N !! d) as [m|] eqn:Hm; [|done]. cbn.
    destruct (m !! k) as [u|] eqn:Hk; [|done]. cbn.
    destruct (nr_entry _ _ H _ _ _ _ Hm Hk) as (ud & e & Hud & He). by rewrite (Hne _ _ Hud), Hud. }
  split; try done; [|intros p i Hi; by exists i]. split; cbn; try apply H.
  - intros d m k u Hm Hk. destruct (nr_entry _ _ H _ _ _ _ Hm Hk) as (ud & e & Hud & He). eauto.
  - intros d x k p Hx Hin. rewrite Hv. exact (nr_cache _ _ H _ _ _ _ Hx Hin).
  - intros q Hq. destruct (nr_fresh _ _ H q ltac:(lia)) as (? & ? & ? & ?). split_and!; try done.
    rewrite lookup_insert_ne; [done|lia].
Qed.

Lemma keeps_table s N f : ns_rep s N → keeps s (set_table f s) N N.
Proof. intros H. split; try done; [by apply rep_table|intros p i Hi; by exists i]. Qed.

Lemma keeps_trans s1 s2 s3 N1 N2 N3 : keeps s1 s2 N1 N2 → keeps s2 s3 N2 N3 → keeps s1 s3 N1 N3.
Proof.
  intros A B. split; [apply B|..].
  - intros d k. by rewrite (kp_visible _ _ _ _ B), (kp_visible _ _ _ _ A).
  - intros d m k v Hm Hk. eapply (kp_names _ _ _ _ A); [|done]. by eapply (kp_names _ _ _ _ B).
  - transitivity N2; [apply A|apply B].
  - intros d x Hx. by apply (kp_dirs _ _ _ _ B), (kp_dirs _ _ _ _ A).
  - intros p i Hi. destruct (kp_inodes _ _ _ _ A _ _ Hi) as (i2 & Hi2 & ?).
    destruct (kp_inodes _ _ _ _ B _ _ Hi2) as (i3 & Hi3 & ?). exists i3. split; [done|by transitivity i2].
  - rewrite (kp_dlookup _ _ _ _ B). apply A.
  - rewrite (kp_log _ _ _ _ B). apply A.
  - rewrite (kp_rc _ _ _ _ B). apply A.
Qed.

Lemma keeps_new_ino s N i : ns_rep s N → keeps s (new_ino s i) N N.
Proof.
  intros H. pose proof (nr_fresh _ _ H (ns_next s) ltac:(done)) as (_ & _ & Hi & _).
  split; try done; [by apply rep_new_ino|]. cbn.
  intros q j Hq. rewrite lookup_insert_ne by (intros <-; congruence). by exists j.
Qed.

Lemma keeps_new_dir s N p i : ns_rep s N → ns_dirs s !! p = None → ns_inodes s !! p = Some i →
  keeps s (new_dir s p) N (<[p := ∅]> N).
Proof.
  intros H Hp Hi. split; try done; [by eapply rep_new_dir|..].
  - intros d k. by apply visible_new_dir.
  - intros d m k v. destruct (decide (p = d)) as [<-|]; [|by rewrite lookup_insert_ne].
    rewrite lookup_insert_eq. intros [= <-]. by rewrite lookup_empty.
  - apply insert_subseteq. by eapply rep_none.
  - intros d x Hd. cbn. rewrite lookup_insert_ne; [done|]. intros <-. congruence.
  - intros q j Hq. by exists j.
Qed.

Lemma keeps_upd_inode s N p i f : ns_rep s N → ns_inodes s !! p = Some i → alike i (f i) →
  keeps s (set_inodes <[p := f i]> s) N N.
Proof.
  intros H Hi Ha. split; try done; [eapply rep_upd_inode; [done..|apply Ha]|]. cbn.
  intros q j Hq. destruct (decide (p = q)) as [<-|]; [|rewrite lookup_insert_ne by done; by exists j].
  rewrite lookup_insert_eq. eexists. split; [done|]. by replace j with i by congruence.
Qed.

Lemma enter_inode_ok s N d di i : ns_rep s N → ns_inodes s !! d = Some di →
  ∃ s' N', enter_inode d i s = Ok (ns_next s, s') ∧ keeps s s' N N' ∧
    ns_inodes s' !! ns_next s = Some i ∧ ns_icache s' = <[i_inum i := ns_next s]> (ns_icache s) ∧
    ns_udens s' = ns_udens s ∧ ns_dens s' = ns_dens s ∧ ns_table s' = ns_table s ∧ (ns_next s ≤ ns_next s')%nat.
Proof.
  intros H Hdi. pose proof (nr_fresh _ _ H (ns_next s) ltac:(done)) as (_ & _ & Hn & Hd).
  pose proof (keeps_new_ino s N i H) as K1. pose proof (kp_rep _ _ _ _ K1) as H1.
  assert (Hi1 : ns_inodes (new_ino s i) !! ns_next s = Some i) by apply lookup_insert_eq.
  unfold enter_inode. rewrite (M_bind_ok _ _ s (ns_next s) (new_ino s i)) by done.
  destruct (i_itype i =? T_DIR).
  2: { eexists (new_ino s i), N. split; [done|]. split_and!; [done..|]. cbn. lia. }
  assert (Hne : d ≠ ns_next s) by (intros ->; congruence).
  assert (Hd1 : ns_inodes (new_ino s i) !! d = Some di) by (cbn; by rewrite lookup_insert_ne).
  set (f := λ j : inode, set_nlink (u8 (i_nlink j + 1)) j).
  pose proof (keeps_upd_inode _ _ _ _ f H1 Hd1 ltac:(done)) as K2. set (s2 := set_inodes _ _) in K2.
  assert (Hi2 : ns_inodes s2 !! ns_next s = Some i) by (cbn; by rewrite lookup_insert_ne, lookup_insert_eq).
  pose proof (keeps_new_dir s2 N (ns_next s) i (kp_rep _ _ _ _ K2) Hd Hi2) as K3.
  exists (new_dir s2 (ns_next s)), (<[ns_next s := ∅]> N). split.
  - unfold mbind at 1, M_bind at 1. rewrite (M_bind_ok _ _ _ _ _ (upd_inode_ok _ _ _ _ Hd1)). done.
  - split; [eapply keeps_trans; [exact K1|]; eapply keeps_trans; [exact K2|exact K3]|].
    split_and!; [done..|]. cbn. lia.
Qed.

(** The two log entries of a creation. *)
Definition create_log (dino inum type : Z) k (l : log) : log :=
  append_entry_log (dentry_bytes (create_dentry w dino inum type k)) 1
    (append_entry_log (setattr_bytes (create_setattr w inum)) 0 l).

(** [k] of [d] is the new inode [p]; every other name means what it meant. *)
Record created s s' N N' d k p di inum type t : Prop := {
  cr_rep : ns_rep s' N';
  cr_visible : ∀ d' k', visible s' N' d' k' =
    if decide (d' = d ∧ k' = k) then Some (inum, u8 type) else visible s N d' k';
  cr_inode : ns_inodes s' !! p = Some (new_inode w inum type);
  cr_inodes : ∀ q i, ns_inodes s !! q = Some i →
    q ≠ p ∧ ∃ i', ns_inodes s' !! q = Some i' ∧ alike i i';
  cr_dir : ∀ x, ns_dirs s !! d = Some x → ∃ x', ns_dirs s' !! d = Some x' ∧ de_cache x' = de_cache x;
  cr_names : is_Some (N' !! d);
  cr_icache : ns_icache s' = <[inum := p]> (ns_icache s);
  cr_table : ns_table s' = t;
  cr_log : ns_log s' = create_log (i_inum di) inum type k (ns_log s);
  cr_dlookup : ns_dlookup s' = ns_dlookup s;
  cr_rc : ns_rc s' = ns_rc s }.

Lemma uncached s N d x k : ns_rep s N → ns_dirs s !! d = Some x → visible s N d k = None →
  k ∉ (de_cache x).*1.
Proof.
  intros H Hx Hv ([k' p] & -> & Hin)%list_elem_of_fmap.
  destruct (nr_cache _ _ H _ _ _ _ Hx Hin) as (? & ? & _ & He & _). cbn in Hv. congruence.
Qed.

Lemma find_uncached s N d x k : ns_rep s N → ns_dirs s !! d = Some x → visible s N d k = None →
  find_str k (de_cache x) = None.
Proof.
  intros H Hx Hv. destruct (find_str k (de_cache x)) as [q|] eqn:Hf; [|done].
  destruct (uncached _ _ _ _ _ H Hx Hv). apply list_elem_of_fmap. exists (k, q).
  split; [done|by apply find_str_in].
Qed.

(** The entry of a new file, from the state in which it has an inode. *)
Lemma link_new s s' N d m x k u e t di di' : ns_rep s N → N !! d = Some m → ns_dirs s !! d = Some x →
  nd_rep t (<[k := u]> m) → visible s N d k = None →
  (∀ d' m' k', N !! d' = Some m' → m' !! k' = Some u → d' = d ∧ k' = k) →
  (u < ns_next s)%nat → ns_inodes s !! d = Some di → i_inum di' = i_inum di →
  ns_inodes s' = <[d := di']> (ns_inodes s) → ns_dirs s' = <[d := with_tree x t]> (ns_dirs s) →
  ns_udens s' = <[u := mkUd Addden (ns_next s)]> (ns_udens s) →
  ns_dens s' = <[ns_next s := e]> (ns_dens s) → ns_next s' = S (ns_next s) → ns_icache s' = ns_icache s →
  ns_rep s' (link N d k u) ∧
  ∀ d' k', visible s' (link N d k u) d' k' =
    if decide (d' = d ∧ k' = k) then Some (d_ino e, d_file_type e) else visible s N d' k'.
Proof.
  intros H Hm Hx Ht Hv Hown Hu Hdi Hn Ei Ed Eu Ee En Ec.
  pose proof (nr_fresh _ _ H (ns_next s) ltac:(done)) as (_ & Hfe & _ & _).
  assert (Hud : ∀ v, v ≠ u → is_Some (ns_udens s !! v) → ns_udens s' !! v = ns_udens s !! v).
  { intros v Hvu _. rewrite Eu. by apply lookup_insert_ne. }
  assert (Hde : ∀ v, is_Some (ns_dens s !! v) → ns_dens s' !! v = ns_dens s !! v).
  { intros v [? Hv']. rewrite Ee, lookup_insert_ne by congruence. done. }
  assert (Hu' : ns_udens s' !! u = Some (mkUd Addden (ns_next s))) by (rewrite Eu; apply lookup_insert_eq).
  assert (He' : ns_dens s' !! ns_next s = Some e) by (rewrite Ee; apply lookup_insert_eq).
  split; [|intros; by eapply (visible_link s s' N d m k u (mkUd Addden (ns_next s)) e)].
  eapply (rep_link s) with (x := x) (ud := mkUd Addden (ns_next s)) (h := de_cache x); try done;
    rewrite ?Ei, ?Ed, ?Eu, ?Ee, ?En, ?Ec.
  - intros p i Hi. destruct (decide (d = p)) as [<-|]; [|rewrite lookup_insert_ne by done; eauto].
    rewrite lookup_insert_eq. eexists. split; [done|]. congruence.
  - intros p Hp. destruct (nr_fresh _ _ H p ltac:(lia)) as (H1 & ? & H3 & H4).
    rewrite !lookup_insert_ne by (congruence || lia). done.
  - intros c p Hp. destruct (nr_icache _ _ H _ _ Hp) as (i & Hi & Hc).
    destruct (decide (d = p)) as [<-|]; [|rewrite lookup_insert_ne by done; eauto].
    rewrite lookup_insert_eq. eexists. split; [done|]. congruence.
  - exact (nr_nodup _ _ H _ _ Hx).
  - by eapply uncached.
Qed.

(** The entry to use: the tombstone, or a new one. *)
Lemma pick_uden s N d m k : ns_rep s N → N !! d = Some m →
  ∃ u s', match m !! k with Some u => mret u | None => add_uden (mkUd (u8 (w_junk w)) 0) end s = Ok (u, s') ∧
    keeps s s' N N ∧ (∀ d' m' k', N !! d' = Some m' → m' !! k' = Some u → d' = d ∧ k' = k) ∧
    (u < ns_next s')%nat ∧ ns_inodes s' = ns_inodes s ∧ ns_icache s' = ns_icache s ∧ ns_table s' = ns_table s.
Proof.
  intros H Hm. destruct (m !! k) as [u|] eqn:Hu.
  - exists u, s. split; [done|]. destruct (nr_entry _ _ H _ _ _ _ Hm Hu) as (ud & _ & Hud & _).
    split; [split; try done; intros p i Hi; by exists i|]. split_and!; try done.
    + intros d' m' k' Hm' Hk'. apply (nr_own _ _ H _ _ _ _ _ _ _ Hm' Hk' Hm Hu).
    + destruct (decide (u < ns_next s)%nat); [done|].
      destruct (nr_fresh _ _ H u ltac:(lia)) as (? & _). congruence.
  - exists (ns_next s), (new_uden s (mkUd (u8 (w_junk w)) 0)). split; [done|].
    split; [by apply keeps_new_uden|]. split_and!; try done; [|cbn; lia].
    intros d' m' k' Hm' Hk'. destruct (nr_entry _ _ H _ _ _ _ Hm' Hk') as (ud & _ & Hud & _).
    destruct (nr_fresh _ _ H (ns_next s) ltac:(done)) as (? & _). congruence.
Qed.

Lemma add_entry_ok s N d m x k u di type inum : ns_rep s N → N !! d = Some m → ns_dirs s !! d = Some x →
  name_ok k → visible s N d k = None →
  (∀ d' m' k', N !! d' = Some m' → m' !! k' = Some u → d' = d ∧ k' = k) →
  (u < ns_next s)%nat → ns_inodes s !! d = Some di →
  ∃ s' t, add_entry w d k type inum u s = Ok (tt, s') ∧ ns_rep s' (link N d k u) ∧
    (∀ d' k', visible s' (link N d k u) d' k' =
      if decide (d' = d ∧ k' = k) then Some (inum, u8 type) else visible s N d' k') ∧
    ns_inodes s' = <[d := grown k di]> (ns_inodes s) ∧ ns_dirs s' = <[d := with_tree x t]> (ns_dirs s) ∧
    ns_log s' = create_log (i_inum di) inum type k (ns_log s) ∧ ns_icache s' = ns_icache s ∧
    ns_table s' = ns_table s ∧ ns_dlookup s' = ns_dlookup s ∧ ns_rc s' = ns_rc s.
Proof.
  intros H Hm Hx Hk Hv Hown Hu Hdi. unfold add_entry.
  set (e := mkDe inum (w_junk w) (u8 type) (strncpy_DIRSIZ k)).
  set (s1 := set_dens <[ns_next s := e]> (set_next S s)). rewrite (M_bind_ok _ _ s (ns_next s) s1) by done.
  set (s2 := set_udens <[u := mkUd Addden (ns_next s)]> s1). rewrite (M_bind_ok _ _ s1 tt s2) by done.
  destruct (nr_tree _ _ H _ _ Hx) as (m' & Hm' & Hr). replace m' with m in * by congruence.
  destruct (tree_insert_ok s2 d x m k u Hx Hr Hk) as (t & Hins & Ht). rewrite (M_bind_ok _ _ _ _ _ Hins).
  set (s3 := set_dirs _ s2).
  rewrite (M_bind_ok _ _ _ _ _ (upd_inode_ok s3 d di (grown k) Hdi)). set (s4 := set_inodes _ s3).
  set (s5 := set_log (append_entry_log (setattr_bytes (create_setattr w inum)) 0) s4).
  rewrite (M_bind_ok _ _ s4 tt s5) by done.
  rewrite (M_bind_ok _ _ s5 (grown k di) s5) by (apply inode_at_ok, lookup_insert_eq).
  set (s6 := set_log (append_entry_log (dentry_bytes (create_dentry w (i_inum di) inum type k)) 1) s5).
  exists s6, t. split; [done|]. cut (ns_rep s6 (link N d k u) ∧
    ∀ d' k', visible s6 (link N d k u) d' k' =
      if decide (d' = d ∧ k' = k) then Some (inum, u8 type) else visible s N d' k').
  { intros [H6 Hv6]. split_and!; done. }
  by apply (link_new s s6 N d m x k u e t di (grown k di)).
Qed.

Lemma create_entry_ok s N d m k di inum type t : ns_rep s N → N !! d = Some m →
  ns_inodes s !! d = Some di → name_ok k → visible s N d k = None →
  Inodes.find_inode_bitmap (ns_table s) = (inum, t) → inum ≠ 0 →
  ∃ p s' N', create_entry w d k type (m !! k) s = Ok (p, s') ∧ created s s' N N' d k p di inum type t.
Proof.
  intros H Hm Hdi Hk Hv Hfind Hinum. unfold create_entry.
  destruct (pick_uden s N d m k H Hm) as (u & s1 & Hp & K1 & Hown & Hu & Ei & Ec & Et).
  rewrite (M_bind_ok _ _ _ _ _ Hp), (M_bind_ok _ _ s1 (ns_table s1) s1) by done.
  rewrite Et, Hfind. pose proof (keeps_table s1 N (λ _, t) (kp_rep _ _ _ _ K1)) as K2.
  set (s2 := set_table _ s1) in K2. rewrite (M_bind_ok _ _ s1 tt s2) by done.
  rewrite (proj2 (Z.eqb_neq _ _) Hinum).
  destruct (enter_inode_ok s2 N d di (new_inode w inum type)) as
    (s3 & N3 & Hent & K3 & Hi3 & Ec3 & Eu3 & Ee3 & Et3 & Hnext); [apply K2|cbn; by rewrite Ei|].
  rewrite (M_bind_ok _ _ _ _ _ Hent). set (p := ns_next s2) in *.
  pose proof (keeps_trans _ _ _ _ _ _ K1 (keeps_trans _ _ _ _ _ _ K2 K3)) as K.
  destruct (kp_inodes _ _ _ _ K _ _ Hdi) as (di3 & Hdi3 & Ha3).
  destruct (nr_dir _ _ H _ _ Hm) as [[x Hx] _]. pose proof (kp_dirs _ _ _ _ K _ _ Hx) as Hx3.
  destruct (add_entry_ok s3 N3 d m x k u di3 type inum) as
    (s4 & t4 & Hadd & H4 & Hv4 & Ei4 & Ed4 & El4 & Ec4 & Et4 & Edl4 & Er4); try done.
  { apply K. } { exact (lookup_weaken _ _ _ _ Hm (kp_sub _ _ _ _ K)). }
  { by rewrite (kp_visible _ _ _ _ K). }
  { intros d' m0 k' Hm0 Hk'. eapply Hown; [|done]. eapply (kp_names _ _ _ _ K3); done. }
  { cbn in *. lia. }
  rewrite (M_bind_ok _ _ _ _ _ Hadd). exists p, s4, (link N3 d k u). split; [done|].
  assert (Hnp : ∀ q i, ns_inodes s !! q = Some i → q ≠ p).
  { intros q i Hq ->. destruct (nr_fresh _ _ (kp_rep _ _ _ _ K2) p ltac:(done)) as (_ & _ & Hf & _).
    change (ns_inodes s1 !! p = None) in Hf. rewrite Ei in Hf. congruence. }
  split; [done|..].
  - intros d' k'. rewrite Hv4. case_decide; [done|]. apply K.
  - rewrite Ei4, lookup_insert_ne by (by eapply Hnp). done.
  - intros q i Hq. split; [by eapply Hnp|]. destruct (kp_inodes _ _ _ _ K _ _ Hq) as (i' & Hi' & ?).
    rewrite Ei4. destruct (decide (d = q)) as [<-|]; [|rewrite lookup_insert_ne by done; eauto].
    replace i' with di3 in * by congruence. rewrite lookup_insert_eq. eexists. split; [done|by transitivity di3].
  - intros x' Hx'. rewrite Ed4, lookup_insert_eq. eexists. split; [done|]. by replace x' with x by congruence.
  - rewrite (link_lookup _ _ _ _ m); [eauto|]. exact (lookup_weaken _ _ _ _ Hm (kp_sub _ _ _ _ K)).
  - rewrite Ec4, Ec3. cbn. by rewrite Ec.
  - by rewrite Et4, Et3.
  - rewrite El4, (al_inum _ _ Ha3), (kp_log _ _ _ _ K). done.
  - rewrite Edl4. apply K.
  - rewrite Er4. apply K.
Qed.

End with_world.
End dirent_ok.
