(* ===== verification/Posix.v ===== *)
(** * Posix: the calls that take a path

    The functions of [posix/posix_interface.c] that work on names, over the
    directories of [Dirent] and the descriptor table of [Fd].  A slot of the
    table holds the address of the inode.  The name buffers on the stack are
    arguments, since their first contents are indeterminate. *)
From Stdlib Require Import ZArith Lia.
From stdpp Require Import base numbers list gmap strings sorting.
From S2P Require Import Prelude Util Bytes RbTree BlkTree Alloc Log Inode FileIO Fd ArtNode Art ArtOk ArtMap ArtDict Dirent.

Definition O_CREAT : Z := 64.
Definition O_RDONLY : Z := 0.

Section posix.
Context {T : Type} `{!NameDict T nat}.
#[local] Abbreviation ns := (@nstate T).
(** The world of [Dirent] and the number of writer threads. *)
Variable w : world.
Variable writethdnum : Z.

(** [stati]: what it stores, and the reference it drops. *)
Record stat : Type := mkStat { st_ino : Z; st_nlink : Z; st_size : Z; st_blksize : Z; st_blocks : Z }.
Definition stati (p : nat) : M ns stat :=
  i ← inode_at p;
  upd_inode p iput;;
  mret (mkStat (i_inum i) (i_nlink i) (i_size i) g_block_size_bytes (Z.shiftr (i_size i) g_block_size_shift)).

(** [userfs_posix_open]: the inode of the path and the flags in effect, or a
    negative result. *)
Definition open_inode (path : list Z) (flags : Z) (name : list Z) : M ns (Z + nat * Z) :=
  if negb (Z.land flags O_CREAT =? 0) then
    if negb (Z.land flags O_DIRECTORY =? 0) then panic "O_DIRECTORY cannot be set with O_CREAT"
    else
      r ← userfs_open_file w path T_FILE name;
      mret match r with None => inl (-1) | Some p => inr (p, flags) end
  else
    r ← namei w path name;
    match r with
    | None => mret (inl (- ENOENT))
    | Some p =>
        i ← inode_at p;
        mret (inr (p, if i_itype i =? T_DIR then Z.lor flags (Z.lor O_RDONLY O_DIRECTORY) else flags))
    end.

Definition userfs_posix_open (t : fd_table) (path : list Z) (flags : Z) (name : list Z)
    : M ns (Z * fd_table) :=
  r ← open_inode path flags name;
  match r with
  | inl e => mret (e, t)
  | inr (p, flags) =>
      upd_inode p (λ i, if c_devid (i_cur i) <? writethdnum then set_cur (set_devid 0 (i_cur i)) i else i);;
      q ← lift (posix_open_slot t (Z.of_nat p) flags);
      if q.1 =? - ENOMEM then iunlockput_ptr p;; mret q
      else if (256 <=? length path)%nat then fault "strncpy past f->filename"
      else mret q
  end.

Definition userfs_posix_creat (t : fd_table) (path name : list Z) : M ns (Z * fd_table) :=
  userfs_posix_open t path (Z.lor O_CREAT O_RDWR) name.

Definition userfs_posix_access (path : list Z) (mode : Z) (name : list Z) : M ns Z :=
  if negb (mode =? 0) then panic "does not support other than F_OK"
  else
    r ← namei w path name;
    match r with None => mret (- ENOENT) | Some p => iput_ptr p;; mret 0 end.

Definition userfs_posix_mkdir (path name : list Z) : M ns Z :=
  r ← userfs_open_file w path T_DIR name;
  mret match r with None => - ENOENT | Some _ => 0 end.

(** The whole path is given to [dir_remove_entry] as the name, and the
    directory itself as the directory. *)
Definition userfs_posix_rmdir (path name : list Z) : M ns Z :=
  r ← namei w path name;
  match r with
  | None => mret (- ENOENT)
  | Some p =>
      i ← inode_at p;
      if 0 <? i_size i then mret (- EINVAL)
      else dir_remove_entry w p path;; iunlockput_ptr p;; mret 0
  end.

Definition userfs_posix_stat (path name : list Z) : M ns (Z * option stat) :=
  r ← namei w path name;
  match r with
  | None => mret (- ENOENT, None)
  | Some p => st ← stati p; mret (0, Some st)
  end.

Definition userfs_posix_fstat (t : fd_table) (fd : Z) : M ns (Z * option stat) := λ s,
  with_fd t fd (λ _ sl,
    if f_ref (s_file sl) =? 0 then Ok ((- ENOENT, None), s)
    else '(st, s) ← stati (Z.to_nat (s_ip sl)) s; Ok ((0, Some st), s)).

Definition userfs_posix_unlink (path name : list Z) : M ns Z :=
  r ← nameiparent w path name;
  match r.1 with
  | None => mret (- ENOENT)
  | Some dir =>
      ip ← namei w path name;
      ip ← match ip with
           | Some p => i_ref_inc p;; mret (Some p)
           | None => e ← buf_str r.2; dir_lookup w dir e
           end;
      match ip with
      | None => mret (- ENOENT)
      | Some p =>
          e ← buf_str r.2;
          ret ← dir_remove_entry w dir e;
          if ret <? 0 then mret ret
          else
            dlookup_del path;;
            iput_ptr dir;;
            iput_ptr p;;
            idealloc_ptr p;;
            mret 0
      end
  end.

(** The log entry of [userfs_posix_truncate] and [userfs_posix_ftruncate]. *)
Definition trunc_extent (ino length : Z) : fuckfs_extent :=
  let j := w_junk w in mkExtent ino FILE_WRITE j j 0 (w_now w) j j j j length j.

Definition itrunc_ptr (p : nat) (len : Z) (fuel : nat) : M ns unit :=
  i ← inode_at p;
  g ← gets ns_rc;
  r ← lift (itrunc i len g fuel);
  put_inode p r.1;;
  modify (set_rc (λ _, r.2)).

Definition userfs_posix_truncate (path : list Z) (len : Z) (name : list Z) (fuel : nat) : M ns Z :=
  r ← namei w path name;
  match r with
  | None => mret (- ENOENT)
  | Some p =>
      itrunc_ptr p len fuel;;
      i ← inode_at p;
      log_append (extent_bytes (trunc_extent (i_inum i) len)) 0;;
      iput_ptr p;;
      mret 0
  end.

Definition userfs_posix_ftruncate (t : fd_table) (fd len : Z) (fuel : nat) : M ns Z := λ s,
  with_fd t fd (λ _ sl,
    if f_ref (s_file sl) =? 0 then Ok (- EBADF, s)
    else
      let p := Z.to_nat (s_ip sl) in
      (itrunc_ptr p len fuel;;
       i ← inode_at p;
       log_append (extent_bytes (trunc_extent (i_inum i) len)) 0;;
       mret 0) s).

(** [uden] is the indeterminate variable of [dir_change_entry]. *)
Definition userfs_posix_rename (oldpath newpath oname nname : list Z) (uden : option nat) : M ns Z :=
  o ← nameiparent w oldpath oname;
  n ← nameiparent w newpath nname;
  match o.1, n.1 with
  | Some od, Some nd =>
      if negb (od =? nd)%nat then panic "Only support rename in a same directory"
      else
        old ← buf_str o.2;
        new ← buf_str n.2;
        dlookup_del newpath;;
        ret ← dir_change_entry w od old new uden;
        if ret <? 0 then
          iput_ptr od;; iput_ptr nd;; dlookup_del oldpath;; mret ret
        else
          dlookup_alloc_add od new;;
          dlookup_del oldpath;;
          iput_ptr od;; iput_ptr nd;; mret 0
  | _, _ => panic "userfs_assert"
  end.

End posix.
