(* ===== verification/PosixOk.v ===== *)
(** * PosixOk: the calls on paths keep a map of files

    For the files directly under the mount point: opening with [O_CREAT] and
    closing, [access] and [unlink] behave as operations on a map from names to
    inode numbers, whatever sequence of them is run.  [mounted] is the
    invariant that ties the heap of inodes and entries, the path cache and the
    table of inode numbers to that map. *)
From Stdlib Require Import ZArith Lia.
From stdpp Require Import functions.
From stdpp Require Import base numbers list gmap strings sorting.
From S2P Require Import Prelude Util Bytes RbTree BlkTree Alloc Log Inode FileIO Fd ArtNode Art ArtOk ArtMap ArtDict Dirent DirentOk Posix.

Section posix_ok.
Context {T : Type} `{!NameDict T nat}.
#[local] Abbreviation ns := (@nstate T).
Implicit Types (s : ns) (d p r u : nat) (k : list Z).
Variable w : world.

(** ** Creation under a known parent *)

(** A parent inode that [dir_lookup] and [namei] accept, with no entries on disk. *)
Record dir_ok (i : inode) : Prop := {
  do_type : i_itype i = T_DIR;
  do_root : i_root i = 0;
  do_live : deleting i = false }.

(** States of inodes that differ in counts, size and the busy flag. *)
Lemma dir_ok_flags i i' : dir_ok i → i_itype i' = i_itype i → i_root i' = i_root i →
  Z.testbit (i_flags i') 3 = Z.testbit (i_flags i) 3 → dir_ok i'.
Proof.
  intros [H1 H2 H3] E1 E2 E3. split; [congruence..|]. revert H3. unfold deleting.
  assert (Hb : ∀ x, Z.land x I_DELETING = if Z.testbit x 3 then 8 else 0).
  { intros x. apply Z.bits_inj'. intros n Hn. rewrite Z.land_spec.
    change I_DELETING with (2 ^ 3). destruct (decide (n = 3)) as [->|].
    - rewrite Z.pow2_bits_true by lia. rewrite andb_true_r. by destruct (Z.testbit x 3).
    - rewrite (Z.pow2_bits_false 3 n) by lia. rewrite andb_false_r. destruct (Z.testbit x 3).
      + change 8 with (2 ^ 3). by rewrite (Z.pow2_bits_false 3 n) by lia.
      + by rewrite Z.bits_0. }
  by rewrite !Hb, E3.
Qed.

Lemma dir_ok_ilock i : dir_ok i → dir_ok (ilock i).
Proof. intros H. apply (dir_ok_flags i); try done. cbn [ilock set_flags i_flags].
  rewrite Z.lor_spec. by rewrite orb_false_r. Qed.
Lemma dir_ok_iunlock i : dir_ok i → dir_ok (iunlock i).
Proof. intros H. apply (dir_ok_flags i); try done. cbn [iunlock set_flags i_flags].
  rewrite Z.land_spec. by rewrite andb_true_r. Qed.
Lemma dir_ok_iput i : dir_ok i → dir_ok (iput i).
Proof. by intros []. Qed.
Lemma dir_ok_alike i i' : alike i i' → dir_ok i → dir_ok i'.
Proof. intros [] []. split; [congruence..|]. unfold deleting in *. congruence. Qed.

(** A new entry in [d] and its inode [p], in the caches too. *)
Record opened s s' N N' d k p di inum type t : Prop := {
  op_rep : ns_rep s' N';
  op_visible : ∀ d' k', visible s' N' d' k' =
    if decide (d' = d ∧ k' = k) then Some (inum, u8 type) else visible s N d' k';
  op_inode : ns_inodes s' !! p = Some (new_inode w inum type);
  op_dir : ∃ di', ns_inodes s' !! d = Some di' ∧ dir_ok di';
  op_inodes : ∀ q i, ns_inodes s !! q = Some i →
    q ≠ p ∧ (q ≠ d → ∃ i', ns_inodes s' !! q = Some i' ∧ alike i i');
  op_names : is_Some (N' !! d);
  op_icache : ns_icache s' = <[inum := p]> (ns_icache s);
  op_table : ns_table s' = t;
  op_log : ns_log s' = create_log w (i_inum di) inum type k (ns_log s);
  op_rc : ns_rc s' = ns_rc s }.

Lemma open_done_ok s N d x k path p i di e : ns_rep s N → ns_inodes s !! d = Some di → d ≠ p →
  ns_dirs s !! d = Some x → (length k < DIRSIZ)%nat → (length path < MAX_PATH)%nat →
  find_str k (de_cache x) = None → ns_inodes s !! p = Some i → visible s N d k = Some e → i_inum i = u32 e.1 →
  find_str path (ns_dlookup s) = None →
  ∃ s', open_done d path k p s = Ok (tt, s') ∧ ns_rep s' N ∧
    (∀ d' k', visible s' N d' k' = visible s N d' k') ∧
    ns_inodes s' = <[d := iput (iunlock di)]> (ns_inodes s) ∧
    ns_dlookup s' = (path, p) :: ns_dlookup s ∧ ns_icache s' = ns_icache s ∧ ns_table s' = ns_table s ∧
    ns_log s' = ns_log s ∧ ns_rc s' = ns_rc s.
Proof.
  intros H Hdi Hne Hx Hl Hpath Hf Hi Hv Hn Hdl. unfold open_done, iunlockput_ptr.
  set (f := λ i, iput (iunlock i)).
  rewrite (M_bind_ok _ _ _ _ _ (upd_inode_ok s d di f Hdi)). set (s1 := set_inodes _ s).
  assert (H1 : ns_rep s1 N) by (by eapply rep_upd_inode).
  assert (Hp1 : ns_inodes s1 !! p = Some i) by (cbn; by rewrite lookup_insert_ne).
  destruct (name_cache_add_ok s1 N d x k p i e H1 Hx Hl Hf Hp1 Hv Hn) as (s2 & Hadd & H2 & E2).
  rewrite (M_bind_ok _ _ _ _ _ Hadd), (M_bind_ok _ _ s2 None s2).
  2: { unfold dlookup_find, gets. rewrite E2. cbn. by rewrite Hdl. }
  cbn [is_none]. unfold dlookup_alloc_add. rewrite (proj2 (Nat.leb_gt _ _) Hpath).
  eexists. split; [done|]. split; [by apply rep_dlookup|]. rewrite E2. split_and!; done.
Qed.

Lemma open_in_create s N d m k path di inum type t : ns_rep s N → N !! d = Some m →
  ns_inodes s !! d = Some di → dir_ok di → name_ok k → (length k < DIRSIZ)%nat → (length path < MAX_PATH)%nat →
  visible s N d k = None → find_str path (ns_dlookup s) = None →
  Inodes.find_inode_bitmap (ns_table s) = (inum, t) → 0 < inum < 2 ^ 32 →
  ∃ p s' N', open_in w d path k k type s = Ok (p, s') ∧ opened s s' N N' d k p di inum type t ∧
    ns_dlookup s' = (path, p) :: ns_dlookup s.
Proof.
  intros H Hm Hdi Hd Hk Hl Hpath Hv Hdl Hfind Hinum. unfold open_in.
  rewrite (M_bind_ok _ _ _ _ _ (upd_inode_ok s d di ilock Hdi)). set (s1 := set_inodes _ s).
  assert (H1 : ns_rep s1 N) by (by eapply rep_upd_inode).
  assert (Hd1 : ns_inodes s1 !! d = Some (ilock di)) by apply lookup_insert_eq.
  destruct (nr_dir _ _ H _ _ Hm) as [[x Hx] _].
  rewrite (M_bind_ok _ _ _ _ _ (inode_at_ok _ _ _ Hd1)).
  rewrite (M_bind_ok _ _ _ _ _ (rep_search _ _ _ x m k H1 Hx Hm Hk)).
  rewrite (M_bind_ok _ _ s1 x s1) by (by apply dir_at_ok).
  replace (i_root (ilock di)) with 0 by (symmetry; apply Hd).
  rewrite andb_false_r. cbn [andb]. rewrite (M_bind_ok _ _ s1 (m !! k) s1) by done.
  rewrite (M_bind_ok _ _ s1 None s1).
  2: { destruct (invisible_spec s N d m k H Hm Hv) as [->|(u & ud & -> & Hud & Hdel)]; [done|].
    by rewrite (M_bind_ok _ _ _ _ _ (uden_at_ok s1 u ud Hud)), Hdel. }
  destruct (create_entry_ok w s1 N d m k (ilock di) inum type t) as (p & s2 & N' & Hcr & C); [done..|lia|].
  rewrite (M_bind_ok _ _ _ _ _ Hcr). destruct C as [H2 Hv2 Hp2 Hi2 Hc2 HN2 Ec2 Et2 El2 Edl2 Er2].
  destruct (Hi2 _ _ Hd1) as (Hne & di2 & Hdi2 & Ha2). destruct (Hc2 x Hx) as (x2 & Hx2 & Ex2).
  destruct (open_done_ok s2 N' d x2 k path p (new_inode w inum type) di2 (inum, u8 type))
    as (s3 & Hdone & H3 & Hv3 & Ei3 & Edl3 & Ec3 & Et3 & El3 & Er3); try done.
  { rewrite Ex2. by apply (find_uncached s N d). }
  { rewrite Hv2. by rewrite decide_True. }
  { cbn. rewrite u32_small; lia. }
  { by rewrite Edl2. }
  rewrite (M_bind_ok _ _ _ _ _ Hdone). exists p, s3, N'. split; [done|]. split; [|by rewrite Edl3, Edl2].
  split; [done|..].
  - intros d' k'. rewrite Hv3. apply Hv2.
  - by rewrite Ei3, lookup_insert_ne.
  - rewrite Ei3, lookup_insert_eq. eexists. split; [done|].
    apply dir_ok_iput, dir_ok_iunlock. eapply dir_ok_alike; [done|]. by apply dir_ok_ilock.
  - intros q i Hq. destruct (decide (q = d)) as [->|Hqd]; [done|].
    rewrite Ei3, lookup_insert_ne by done. destruct (Hi2 q i) as (? & Hi'); [cbn; by rewrite lookup_insert_ne|done].
  - done.
  - by rewrite Ec3.
  - by rewrite Et3.
  - by rewrite El3.
  - by rewrite Er3.
Qed.

(** ** Files under the mount point *)
Definition root_file k : list Z := mountpoint ++ Path.slash :: k.

(** The names the path functions take apart correctly: a name of zeros only
    would be skipped by [get_parent_path]. *)
Record file_name k : Prop := {
  fn_name : name_ok k;
  fn_slash : Path.no_slash k;
  fn_len : (length k < DIRSIZ)%nat;
  fn_digit : Exists (λ c, c ≠ Path.digit0) k }.

Lemma root_file_inj k k' : root_file k = root_file k' → k = k'.
Proof. unfold root_file. intros H%app_inv_head. congruence. Qed.
Lemma root_file_mount k : root_file k ≠ mountpoint.
Proof. unfold root_file. intros H%(f_equal length). rewrite length_app in H. cbn in H. lia. Qed.
Lemma root_file_len k : file_name k → (length (root_file k) < MAX_PATH)%nat.
Proof.
  intros H. pose proof (fn_len _ H) as Hl. unfold root_file. rewrite length_app. cbn [length].
  change (length mountpoint) with 14%nat. change MAX_PATH with 1024%nat. change DIRSIZ with 32%nat in Hl. lia.
Qed.

Lemma next_name k name : file_name k →
  Path.get_next_name (Path.slash :: k) name = (Some [], Path.store_name k name).
Proof.
  intros H. pose proof (Path.get_next_name_elem [Path.slash] k [] name) as E. rewrite app_nil_r in E.
  apply E; [by apply Forall_singleton|by apply Forall_nil|exact (fn_slash _ H)|]. intros ->. destruct H as [_ _ _ Hd]. by inversion Hd.
Qed.

Lemma parent_root k name : file_name k →
  Path.get_parent_path (root_file k) name = Ok (Some (mountpoint, Path.store_name k name)).
Proof.
  intros H. assert (Hk : k ≠ []) by (intros ->; destruct H as [_ _ _ Hd]; by inversion Hd).
  destruct k as [|c n _] using rev_ind; [done|].
  pose proof (Path.get_parent_path_scan (take 13 mountpoint) 108 [Path.slash] n c (Path.slash :: n ++ [c]) name) as E.
  change (take 13 mountpoint ++ [108]) with mountpoint in E. unfold root_file. rewrite E; try done.
  - by rewrite next_name.
  - by repeat constructor.
  - apply H.
  - pose proof (Path.end_scan_digits (mountpoint ++ [Path.slash]) (n ++ [c])) as Hs.
    rewrite <- app_assoc in Hs. apply Hs; apply H.
Qed.

Lemma buf_name k name s : file_name k → buf_str (Path.store_name k name) s = Ok (k, s).
Proof.
  intros H. unfold buf_str, Path.store_name. pose proof (fn_len _ H) as Hl.
  rewrite decide_False by lia. assert (E : Path.cstr_of (k ++ [0] ++ drop (S (length k)) name) = Some k); [|by rewrite E].
  pose proof (fn_name _ H) as Hk. unfold name_ok in Hk. clear H Hl. generalize (drop (S (length k)) name) as rest.
  cbn [app]. induction Hk as [|c k Hc Hk IH]; intros rest; [done|]. cbn.
  destruct (Z.eqb_spec c 0); [lia|]. by rewrite IH.
Qed.

(** A file that is open [c] times and has nothing cached. *)
Record idle (c : Z) (i : inode) : Prop := {
  id_ref : i_ref i = c;
  id_type : i_itype i = T_FILE;
  id_flags : i_flags i = I_VALID;
  id_fcache : i_fcache i = Some ∅ }.

Section mount.
(** The first of the numbers the kernel gave. *)
Variable base : Z.
Hypothesis base_root : ROOTINO < base.
Hypothesis base_fits : base + 128 * Z.of_nat inonum ≤ 2 ^ 32.

(** The files of the root directory [r] are [A]; [k] is open [R k] times. *)
Record mounted s (N : gmap nat (gmap (list Z) nat)) r (A : gmap (list Z) Z) (R : list Z → Z) : Prop := {
  mt_rep : ns_rep s N;
  mt_names : is_Some (N !! r);
  mt_root : ns_icache s !! ROOTINO = Some r;
  mt_dir : ∃ i, ns_inodes s !! r = Some i ∧ dir_ok i;
  mt_visible : ∀ k, visible s N r k = (λ n, (n, T_FILE)) <$> A !! k;
  mt_files : ∀ k n, A !! k = Some n →
    ∃ p i, find_str (root_file k) (ns_dlookup s) = Some p ∧ ns_inodes s !! p = Some i ∧ i_inum i = n ∧ idle (R k) i;
  mt_paths : ∀ path p, (path, p) ∈ ns_dlookup s →
    path = mountpoint ∧ p = r ∨ ∃ k, path = root_file k ∧ is_Some (A !! k);
  mt_nodup : NoDup (ns_dlookup s).*1;
  mt_table : Inodes.exclusive base ((map_to_list A).*2, ns_table s) }.

Lemma base_pos : 0 < base.
Proof using base_root. unfold ROOTINO in base_root. lia. Qed.
#[local] Hint Resolve base_pos : core.

Lemma live_bounds live t n : Inodes.exclusive base (live, t) → n ∈ live → base ≤ n < 2 ^ 32.
Proof using base_root base_fits.
  intros He Hn. pose proof (Inodes.live_nonzero _ _ _ He base_pos base_fits) as Hf.
  destruct He as (_ & _ & Hp). cbn [fst snd] in Hp.
  assert (Hin : n ∈ Inodes.free (Inodes.init_table base)) by (rewrite <- Hp; set_solver).
  rewrite Inodes.init_free in Hin by auto. apply list_elem_of_fmap in Hin as (i & -> & Hi%elem_of_seq). lia.
Qed.

Lemma file_number s N r A R k n : mounted s N r A R → A !! k = Some n → base ≤ n < 2 ^ 32.
Proof using base_root base_fits.
  intros H Hk. eapply live_bounds; [apply H|]. apply list_elem_of_fmap. exists (k, n).
  split; [done|]. by apply elem_of_map_to_list.
Qed.

Lemma file_inj s N r A R k k' n : mounted s N r A R → A !! k = Some n → A !! k' = Some n → k = k'.
Proof using base_root base_fits.
  intros H Hk Hk'. pose proof (Inodes.exclusive_NoDup _ _ _ base_pos base_fits (mt_table _ _ _ _ _ H)) as Hd.
  apply NoDup_app in Hd as [Hd _]. apply elem_of_map_to_list, list_elem_of_lookup in Hk as [a Ha].
  apply elem_of_map_to_list, list_elem_of_lookup in Hk' as [b Hb].
  assert (a = b) as ->; [|congruence].
  apply (NoDup_lookup _ a b n Hd); rewrite list_lookup_fmap; [by rewrite Ha|by rewrite Hb].
Qed.

Lemma root_number s N r A R i : mounted s N r A R → ns_inodes s !! r = Some i → i_inum i = ROOTINO.
Proof using.
  intros H Hi. destruct (nr_icache _ _ (mt_rep _ _ _ _ _ H) _ _ (mt_root _ _ _ _ _ H)) as (j & Hj & ?). congruence.
Qed.

(** The inode of a file is neither the root's nor that of another file. *)
Lemma file_not_root s N r A R k n p i : mounted s N r A R → A !! k = Some n →
  ns_inodes s !! p = Some i → i_inum i = n → p ≠ r.
Proof using base_root base_fits.
  intros H Hk Hi Hn ->. pose proof (root_number _ _ _ _ _ _ H Hi). pose proof (file_number _ _ _ _ _ _ _ H Hk). lia.
Qed.

Lemma no_path s N r A R k : mounted s N r A R → A !! k = None → find_str (root_file k) (ns_dlookup s) = None.
Proof using.
  intros H Hk. destruct (find_str (root_file k) (ns_dlookup s)) as [p|] eqn:Hf; [|done].
  destruct (mt_paths _ _ _ _ _ H _ _ (find_str_in _ _ _ Hf)) as [[Hm _]|(k' & Hk'%root_file_inj & Hs)].
  - by apply root_file_mount in Hm.
  - subst k'. rewrite Hk in Hs. by destruct Hs.
Qed.

(** ** What the calls change on the way *)
Lemma mounted_root s N r A R i i' : mounted s N r A R → ns_inodes s !! r = Some i → dir_ok i' →
  i_inum i' = i_inum i → mounted (set_inodes <[r := i']> s) N r A R.
Proof using base_root base_fits.
  intros H Hi Hd Hn. split; cbn; try apply H.
  - eapply rep_upd_inode; [apply H|done..].
  - rewrite lookup_insert_eq. eauto.
  - intros k n Hk. destruct (mt_files _ _ _ _ _ H _ _ Hk) as (p & j & Hf & Hj & Hjn & Hidle).
    exists p, j. rewrite lookup_insert_ne by (intros <-; by eapply file_not_root). done.
Qed.

Lemma mounted_path s N r A R : mounted s N r A R → find_str mountpoint (ns_dlookup s) = None →
  mounted (set_dlookup (cons (mountpoint, r)) s) N r A R.
Proof using.
  intros H Hf. split; cbn [ns_dlookup ns_inodes ns_icache ns_table set_dlookup]; try apply H.
  - apply rep_dlookup, H.
  - intros path p [[= -> ->]|Hin]%elem_of_cons; [by left|by apply H].
  - constructor; [by apply find_str_none|apply H].
Qed.

(** A step of the walk at the last name of the path. *)
Lemma walk_last s r i k parent name fuel : file_name k → ns_inodes s !! r = Some i → dir_ok i →
  namex_loop w r (Path.slash :: k) parent name (S fuel) s =
    (if parent then upd_inode r iunlock;; mret (Some r, Path.store_name k name)
     else
       e ← buf_str (Path.store_name k name);
       next ← dir_lookup w r e;
       iunlockput_ptr r;;
       match next with
       | None => mret (None, Path.store_name k name)
       | Some next => namex_loop w next [] parent (Path.store_name k name) fuel
       end) (set_inodes <[r := ilock i]> s).
Proof using.
  intros Hk Hi Hd. cbn [namex_loop]. rewrite next_name by done.
  rewrite (M_bind_ok _ _ _ _ _ (upd_inode_ok _ _ _ ilock Hi)).
  rewrite (M_bind_ok _ _ _ (ilock i) _ (inode_at_ok _ _ _ (lookup_insert_eq _ _ _))).
  replace (i_itype (ilock i)) with T_DIR by (symmetry; apply Hd). cbn [negb Z.eqb T_DIR].
  by destruct parent.
Qed.

(** The walk starts at the root inode, which its first step locks. *)
Lemma namex_root s N r A R k parent name : mounted s N r A R → file_name k →
  ∃ s' i, mounted s' N r A R ∧ ns_inodes s' !! r = Some i ∧ dir_ok i ∧ ns_dlookup s' = ns_dlookup s ∧
    ns_log s' = ns_log s ∧
    namex w (root_file k) parent name s =
    (if parent then upd_inode r iunlock;; mret (Some r, Path.store_name k name)
     else
       e ← buf_str (Path.store_name k name);
       next ← dir_lookup w r e;
       iunlockput_ptr r;;
       match next with
       | None => mret (None, Path.store_name k name)
       | Some next => namex_loop w next [] parent (Path.store_name k name) (S (length k))
       end) s'.
Proof using base_root base_fits.
  intros H Hk. destruct (mt_dir _ _ _ _ _ H) as (i & Hi & Hd).
  unfold namex. rewrite bool_decide_true by (by eexists). unfold root_file at 1. rewrite drop_app_length.
  change (Path.is_slash Path.slash) with true. cbn [length].
  rewrite (M_bind_ok _ _ _ _ _ (iget_ptr_cached w s N ROOTINO r i (mt_rep _ _ _ _ _ H) (mt_root _ _ _ _ _ H) Hi (do_live _ Hd))).
  set (i1 := set_ref (i_ref i + 1) i). set (s1 := set_inodes _ s).
  assert (H1 : mounted s1 N r A R) by (eapply mounted_root; [done..|by destruct Hd|done]).
  assert (Hi1 : ns_inodes s1 !! r = Some i1) by apply lookup_insert_eq.
  assert (Hd1 : dir_ok (ilock i1)) by (apply dir_ok_ilock; by destruct Hd).
  exists (set_inodes <[r := ilock i1]> s1), (ilock i1).
  split_and!; [by eapply mounted_root|apply lookup_insert_eq|done|done|done|].
  apply walk_last; [done..|by destruct Hd].
Qed.

Lemma nameiparent_root s N r A R k name : mounted s N r A R → file_name k →
  ∃ s' buf, nameiparent w (root_file k) name s = Ok ((Some r, Path.store_name k buf), s') ∧ mounted s' N r A R ∧
    ns_log s' = ns_log s.
Proof using base_root base_fits.
  intros H Hk. unfold nameiparent, lift. rewrite parent_root by done.
  rewrite (M_bind_ok _ _ s (Some (mountpoint, Path.store_name k name)) s) by done.
  rewrite (M_bind_ok _ _ s (find_str mountpoint (ns_dlookup s)) s) by done.
  destruct (find_str mountpoint (ns_dlookup s)) as [p|] eqn:Hf.
  - destruct (mt_paths _ _ _ _ _ H _ _ (find_str_in _ _ _ Hf)) as [[_ ->]|(k' & Hk' & _)].
    2: { by destruct (root_file_mount k'). }
    destruct (mt_dir _ _ _ _ _ H) as (i & Hi & Hd).
    rewrite (M_bind_ok _ _ _ _ _ (inode_at_ok _ _ _ Hi)), (do_live _ Hd).
    unfold i_ref_inc. rewrite (M_bind_ok _ _ _ _ _ (upd_inode_ok _ _ _ _ Hi)).
    eexists _, name. split; [done|]. split; [|done]. eapply mounted_root; try done. by destruct Hd.
  - destruct (namex_root s N r A R k true (Path.store_name k name) H Hk)
      as (s1 & i & H1 & Hi & Hd & Edl & Elog & Hx).
    rewrite (M_bind_ok _ _ _ _ _ (upd_inode_ok _ _ _ iunlock Hi)) in Hx.
    rewrite (M_bind_ok _ _ _ _ _ Hx). cbn [fst]. unfold dlookup_alloc_add. cbn [Nat.leb MAX_PATH].
    eexists _, (Path.store_name k name). split; [done|]. split; [|done]. apply mounted_path.
    + eapply mounted_root; [done..| |done]. by apply dir_ok_iunlock.
    + cbn. by rewrite Edl.
Qed.

Lemma namei_missing s N r A R k name : mounted s N r A R → file_name k → A !! k = None →
  ∃ s', namei w (root_file k) name s = Ok (None, s') ∧ mounted s' N r A R ∧ ns_log s' = ns_log s.
Proof using base_root base_fits.
  intros H Hk Hno. unfold namei. rewrite (M_bind_ok _ _ s None s).
  2: { unfold dlookup_find, gets. by rewrite (no_path _ _ _ _ _ _ H Hno). }
  destruct (namex_root s N r A R k false name H Hk) as (s2 & i & H2 & Hi2 & Hd2 & _ & Elog & Hx).
  destruct (mt_names _ _ _ _ _ H2) as [m Hm].
  rewrite (M_bind_ok _ _ _ _ _ (buf_name k name s2 Hk)) in Hx.
  rewrite (M_bind_ok _ _ s2 None s2) in Hx.
  2: { eapply dir_lookup_miss; [apply H2|done|done|apply Hd2|apply Hk| |left; apply Hd2].
    by rewrite (mt_visible _ _ _ _ _ H2), Hno. }
  unfold iunlockput_ptr in Hx. rewrite (M_bind_ok _ _ _ _ _ (upd_inode_ok _ _ _ _ Hi2)) in Hx.
  rewrite (M_bind_ok _ _ _ _ _ Hx). cbn [fst]. eexists. split; [done|]. split; [|done].
  eapply mounted_root; [done..| |done]. by apply dir_ok_iput, dir_ok_iunlock.
Qed.

(** A path in the cache. *)
Lemma namei_hit s p i c path name : find_str path (ns_dlookup s) = Some p → ns_inodes s !! p = Some i →
  idle c i →
  namei w path name s = Ok (Some p, set_inodes <[p := set_ref (i_ref i + 1) i]> s).
Proof using.
  intros Hf Hi Hidle. unfold namei.
  rewrite (M_bind_ok _ _ s (Some p) s) by (unfold dlookup_find, gets; by rewrite Hf).
  rewrite (M_bind_ok _ _ _ _ _ (inode_at_ok _ _ _ Hi)). unfold deleting. rewrite (id_flags _ _ Hidle).
  change (negb (Z.land I_VALID I_DELETING =? 0)) with false. cbn iota.
  unfold i_ref_inc. by rewrite (M_bind_ok _ _ _ _ _ (upd_inode_ok _ _ _ _ Hi)).
Qed.

(** ** Opening and closing *)

(** [open] with [O_CREAT], then [close]: the inode number. *)
Definition touch (path name : list Z) : M ns Z :=
  o ← userfs_open_file w path T_FILE name;
  match o with
  | None => mret (-1)
  | Some p => iput_ptr p;; i ← inode_at p; mret (i_inum i)
  end.

Lemma put_back s p i : ns_inodes s !! p = Some i →
  set_inodes <[p := iput (set_ref (i_ref i + 1) i)]> (set_inodes <[p := set_ref (i_ref i + 1) i]> s) = s.
Proof using.
  intros Hi. unfold iput. cbn. replace (i_ref i + 1 - 1) with (i_ref i) by lia.
  replace (set_ref (i_ref i) (set_ref (i_ref i + 1) i)) with i by (by destruct i).
  destruct s. unfold set_inodes. cbn in *. rewrite insert_insert_eq, insert_id by done. done.
Qed.

Lemma iput_ptr_ok s p i : ns_inodes s !! p = Some i → iput_ptr p s = Ok (tt, set_inodes <[p := iput i]> s).
Proof using. apply upd_inode_ok. Qed.

(** A file that exists is found in the path cache. *)
Lemma open_old s N r A R k n type name : mounted s N r A R → A !! k = Some n →
  ∃ p i, userfs_open_file w (root_file k) type name s = Ok (Some p, set_inodes <[p := set_ref (i_ref i + 1) i]> s) ∧
    find_str (root_file k) (ns_dlookup s) = Some p ∧ ns_inodes s !! p = Some i ∧ i_inum i = n ∧ idle (R k) i.
Proof using.
  intros H Hk. destruct (mt_files _ _ _ _ _ H _ _ Hk) as (p & i & Hf & Hi & Hn & Hidle).
  exists p, i. split; [|done]. unfold userfs_open_file.
  rewrite (M_bind_ok _ _ s (Some p) s) by (unfold dlookup_find, gets; by rewrite Hf).
  unfold i_ref_inc. by rewrite (M_bind_ok _ _ _ _ _ (upd_inode_ok _ _ _ _ Hi)).
Qed.

Lemma touch_old s N r A R k n name : mounted s N r A R → A !! k = Some n → touch (root_file k) name s = Ok (n, s).
Proof using.
  intros H Hk. destruct (open_old s N r A R k n T_FILE name H Hk) as (p & i & Hop & _ & Hi & <- & _).
  unfold touch. rewrite (M_bind_ok _ _ _ _ _ Hop).
  erewrite M_bind_ok by (apply iput_ptr_ok, lookup_insert_eq). rewrite put_back by done.
  by rewrite (M_bind_ok _ _ _ _ _ (inode_at_ok _ _ _ Hi)).
Qed.

Lemma mounted_ext s N r A R R' : (∀ k, R k = R' k) → mounted s N r A R → mounted s N r A R'.
Proof using.
  intros HR H. split; try apply H. intros k n Hk. rewrite <- HR. by apply H.
Qed.

(** One more user of a file. *)
Lemma mounted_ref s N r A R k n p i c : mounted s N r A R → A !! k = Some n →
  find_str (root_file k) (ns_dlookup s) = Some p → ns_inodes s !! p = Some i → i_inum i = n →
  mounted (set_inodes <[p := set_ref c i]> s) N r A (<[k := c]> R).
Proof using base_root base_fits.
  intros H Hk Hf Hi Hn. pose proof (file_not_root _ _ _ _ _ _ _ _ _ H Hk Hi Hn) as Hpr.
  split; cbn [ns_dlookup ns_inodes ns_icache ns_table set_inodes]; try apply H.
  - eapply rep_upd_inode; [apply H|done..].
  - rewrite lookup_insert_ne by done. apply H.
  - intros k' n' Hk'. destruct (mt_files _ _ _ _ _ H _ _ Hk') as (p' & i' & Hf' & Hi' & Hn' & Hidle).
    destruct (decide (k = k')) as [<-|Hne].
    + replace p' with p in * by congruence. exists p, (set_ref c i).
      rewrite lookup_insert_eq, fn_lookup_insert. replace i' with i in * by congruence.
      split_and!; [done..|]. destruct Hidle. done.
    + exists p', i'. rewrite lookup_insert_ne, fn_lookup_insert_ne by
        (done || (intros <-; apply Hne; eapply file_inj; [done..|]; congruence)). done.
Qed.

Lemma exclusive_perm live live' t : live ≡ₚ live' → Inodes.exclusive base (live, t) → Inodes.exclusive base (live', t).
Proof using. intros Hp (H1 & H2 & H3). split_and!; cbn in *; [done|by rewrite <- Hp|by rewrite <- Hp]. Qed.

(** There is a number as long as the map is not full. *)
Lemma table_find s N r A R : mounted s N r A R → (stdpp.base.size A < inonum)%nat →
  ∃ n t, Inodes.find_inode_bitmap (ns_table s) = (n, t) ∧ base ≤ n < 2 ^ 32 ∧
    ∀ k, A !! k = None → Inodes.exclusive base ((map_to_list (<[k := n]> A)).*2, t).
Proof using base_root base_fits.
  intros H Hsz. pose proof (mt_table _ _ _ _ _ H) as He. pose proof He as (Hwf & Hn & Hp). cbn [fst snd] in *.
  pose proof (Inodes.find_inode_bitmap_pop _ Hwf) as Hpop.
  destruct (Inodes.free (ns_table s)) as [|n l] eqn:Hfree.
  { apply Permutation_length in Hp. rewrite app_nil_r, length_fmap, length_map_to_list in Hp.
    rewrite Inodes.init_free, length_fmap, length_seq in Hp by auto. lia. }
  destruct Hpop as (t & Hfind & Hwf' & Hl & _).
  assert (Hs : Inodes.exclusive base (n :: (map_to_list A).*2, t)).
  { eapply Inodes.step_exclusive; [auto|auto|exact He|]. constructor; [done|].
    pose proof (Inodes.wf_free _ Hwf) as Hf. rewrite Hfree in Hf. apply Forall_cons in Hf as [? _]. lia. }
  exists n, t. split_and!; [done|eapply live_bounds; [exact Hs|set_solver]..|].
  intros k Hk. eapply exclusive_perm; [|exact Hs]. by rewrite map_to_list_insert.
Qed.

Lemma idle_alike c i i' : alike i i' → idle c i → idle c i'.
Proof using. intros [] []. split; congruence. Qed.

(** The invariant after a new file was entered and released. *)
Lemma mounted_opened s s' N N' r A R k p di n t : mounted s N r A R → A !! k = None → base ≤ n < 2 ^ 32 →
  Inodes.exclusive base ((map_to_list (<[k := n]> A)).*2, t) →
  opened s s' N N' r k p di n T_FILE t → ns_dlookup s' = (root_file k, p) :: ns_dlookup s →
  ∀ c, mounted (set_inodes <[p := set_ref c (new_inode w n T_FILE)]> s') N' r (<[k := n]> A) (<[k := c]> R).
Proof using base_root base_fits.
  intros H Hk Hn Ht [H' Hv Hp [di' [Hdi' Hdo]] Hi HN Ec Et _ _] Edl c.
  assert (Hrp : r ≠ p) by (destruct (mt_dir _ _ _ _ _ H) as (i & Hr & _); by apply (Hi r i)).
  split; cbn [ns_dlookup ns_inodes ns_icache ns_table set_inodes]; rewrite ?Edl, ?Ec, ?Et.
  - by eapply rep_upd_inode.
  - done.
  - rewrite lookup_insert_ne by lia. apply H.
  - rewrite lookup_insert_ne by done. eauto.
  - intros k'. change (visible (set_inodes _ s') N' r k') with (visible s' N' r k'). rewrite Hv.
    destruct (decide (k' = k)) as [->|]; [by rewrite decide_True, lookup_insert_eq|].
    rewrite decide_False, lookup_insert_ne by naive_solver. apply H.
  - intros k' n'. destruct (decide (k' = k)) as [->|Hne].
    + rewrite lookup_insert_eq. intros [= <-]. eexists p, _. rewrite find_str_eq, lookup_insert_eq, fn_lookup_insert. done.
    + rewrite lookup_insert_ne by done. intros Hk'.
      destruct (mt_files _ _ _ _ _ H _ _ Hk') as (p' & i & Hf & Hp' & Hnum & Hidle).
      destruct (Hi p' i Hp') as [Hpp Ha]. destruct Ha as (i' & Hi' & Ha); [by eapply file_not_root|].
      exists p', i'. rewrite find_str_ne by (by intros ?%root_file_inj).
      rewrite lookup_insert_ne, fn_lookup_insert_ne by done.
      split_and!; [done..|rewrite (al_inum _ _ Ha); done|by eapply idle_alike].
  - intros path q [[= -> ->]|Hin]%elem_of_cons; [right; exists k; by rewrite lookup_insert_eq|].
    destruct (mt_paths _ _ _ _ _ H _ _ Hin) as [?|(k' & -> & Hk')]; [by left|right]. exists k'. split; [done|].
    by apply lookup_insert_is_Some'; right.
  - constructor; [|apply H]. by apply find_str_none, (no_path s N r A R).
  - done.
Qed.

(** A new file or directory gets a number of its own. *)
Lemma open_new s N r A R k type name : mounted s N r A R → file_name k → A !! k = None →
  (stdpp.base.size A < inonum)%nat →
  ∃ n t p s1 s2 N2 di, userfs_open_file w (root_file k) type name s = Ok (Some p, s2) ∧
    mounted s1 N r A R ∧ opened s1 s2 N N2 r k p di n type t ∧ base ≤ n < 2 ^ 32 ∧
    Inodes.exclusive base ((map_to_list (<[k := n]> A)).*2, t) ∧
    ns_dlookup s2 = (root_file k, p) :: ns_dlookup s1 ∧
    ns_log s2 = create_log w ROOTINO n type k (ns_log s).
Proof using base_root base_fits.
  intros H Hk Hno Hsz.
  destruct (nameiparent_root s N r A R k name H Hk) as (s1 & buf & Hpar & H1 & Elog).
  destruct (table_find s1 N r A R H1 Hsz) as (n & t & Hfind & Hn & Ht).
  destruct (mt_dir _ _ _ _ _ H1) as (di & Hdi & Hd). destruct (mt_names _ _ _ _ _ H1) as [m Hm].
  assert (Hv : visible s1 N r k = None) by (by rewrite (mt_visible _ _ _ _ _ H1), Hno).
  destruct (open_in_create s1 N r m k (root_file k) di n type t) as (p & s2 & N2 & Hop & O & Edl);
    [apply H1|done..|apply Hk|apply Hk|by apply root_file_len|done|by eapply no_path|done|pose proof base_pos; lia|].
  exists n, t, p, s1, s2, N2, di. split; [|split_and!; auto; try lia].
  2: { by rewrite (op_log _ _ _ _ _ _ _ _ _ _ _ O), (root_number _ _ _ _ _ _ H1 Hdi), Elog. }
  unfold userfs_open_file, lift. rewrite parent_root by done.
  rewrite (M_bind_ok _ _ s None s) by (unfold dlookup_find, gets; by rewrite (no_path _ _ _ _ _ _ H Hno)).
  rewrite (M_bind_ok _ _ s (Some (mountpoint, Path.store_name k name)) s) by done.
  rewrite (M_bind_ok _ _ _ _ _ Hpar). cbn [fst snd].
  rewrite (M_bind_ok _ _ _ _ _ (buf_name k buf s1 Hk)).
  destruct (nr_dir _ _ (mt_rep _ _ _ _ _ H1) _ _ Hm) as [[x Hx] _].
  rewrite (M_bind_ok _ _ s1 None s1).
  2: { unfold de_cache_find. rewrite (M_bind_ok _ _ _ _ _ (dir_at_ok _ _ _ Hx)).
    by rewrite (find_uncached s1 N r x k) by (done || apply H1). }
  rewrite (M_bind_ok _ _ _ _ _ (buf_name k name s1 Hk)), (M_bind_ok _ _ _ _ _ Hop). done.
Qed.

Lemma touch_new s N r A R k name : mounted s N r A R → file_name k → A !! k = None →
  (stdpp.base.size A < inonum)%nat →
  ∃ n s' N', touch (root_file k) name s = Ok (n, s') ∧ base ≤ n < 2 ^ 32 ∧
    mounted s' N' r (<[k := n]> A) (<[k := 0]> R) ∧ ns_log s' = create_log w ROOTINO n T_FILE k (ns_log s).
Proof using base_root base_fits.
  intros H Hk Hno Hsz.
  destruct (open_new s N r A R k T_FILE name H Hk Hno Hsz) as (n & t & p & s1 & s2 & N2 & di & Hop & H1 & O & Hn & Ht & Edl & Elog).
  exists n, (set_inodes <[p := iput (new_inode w n T_FILE)]> s2), N2.
  split_and!; [|lia..|by eapply (mounted_opened s1 s2 N N2 r A R k p di n t); eauto|exact Elog].
  unfold touch. rewrite (M_bind_ok _ _ _ _ _ Hop).
  rewrite (M_bind_ok _ _ _ _ _ (iput_ptr_ok _ _ _ (op_inode _ _ _ _ _ _ _ _ _ _ _ O))).
  by erewrite M_bind_ok by (apply inode_at_ok, lookup_insert_eq).
Qed.

(** ** [access] *)
Lemma access_ok s N r A R k name : mounted s N r A R → file_name k →
  ∃ s', userfs_posix_access w (root_file k) 0 name s = Ok (if A !! k then 0 else - ENOENT, s') ∧ mounted s' N r A R ∧
    ns_log s' = ns_log s.
Proof using base_root base_fits.
  intros H Hk. unfold userfs_posix_access. cbn [negb Z.eqb]. destruct (A !! k) as [n|] eqn:HA.
  - destruct (mt_files _ _ _ _ _ H _ _ HA) as (p & i & Hf & Hi & _ & Hidle). exists s. split; [|done].
    rewrite (M_bind_ok _ _ _ _ _ (namei_hit s p i _ _ name Hf Hi Hidle)).
    erewrite M_bind_ok by (apply iput_ptr_ok, lookup_insert_eq). by rewrite put_back.
  - destruct (namei_missing s N r A R k name H Hk HA) as (s' & Hx & H' & Elog). exists s'. split; [|done].
    by rewrite (M_bind_ok _ _ _ _ _ Hx).
Qed.

(** ** [unlink] *)
Lemma idealloc_last i g : i_ref i = 1 → i_flags i = I_VALID → i_fcache i = Some ∅ →
  ∃ i', idealloc i g = Ok (i', g) ∧ i_inum i' = i_inum i.
Proof using.
  intros H1 H2 H3. unfold idealloc. rewrite H1, H2. change (negb (1 <? 2)) with false.
  change (negb (Z.land I_VALID I_BUSY =? 0)) with false. rewrite andb_false_r.
  unfold fcache_del_all. destruct (_ && _); cbn; rewrite H3; cbn; eauto.
Qed.

Lemma table_put s N r A R k n : mounted s N r A R → A !! k = Some n →
  Inodes.exclusive base ((map_to_list (delete k A)).*2, (Inodes.put_inode_bitmap n (ns_table s)).2).
Proof using base_root base_fits.
  intros H Hk. destruct (Inodes.put_inode_bitmap n (ns_table s)) as [q t] eqn:Hput.
  eapply Inodes.step_exclusive; [auto|auto| |exact (Inodes.step_put [] _ _ _ _ _ Hput)].
  eapply exclusive_perm; [|apply H]. cbn. rewrite <- (map_to_list_delete A k n Hk). done.
Qed.

(** The invariant when the name, the path and the inode of a file are gone. *)
Lemma mounted_removed s s' N r A R k n p i j di : mounted s N r A R → A !! k = Some n →
  find_str (root_file k) (ns_dlookup s) = Some p → ns_inodes s !! p = Some i → i_inum i = n →
  ns_rep s' N → dir_ok di →
  (∀ k', visible s' N r k' = if decide (k' = k) then None else visible s N r k') →
  ns_inodes s' = <[p := j]> (<[r := di]> (ns_inodes s)) →
  ns_dlookup s' = del_str (root_file k) (ns_dlookup s) → ns_icache s' = ns_icache s →
  ns_table s' = (Inodes.put_inode_bitmap n (ns_table s)).2 →
  mounted s' N r (delete k A) R.
Proof using base_root base_fits.
  intros H Hk Hf Hp Hn H' Hd Hv Ei Edl Ec Et.
  pose proof (file_not_root _ _ _ _ _ _ _ _ _ H Hk Hp Hn) as Hpr.
  destruct (del_str_keys (root_file k) _ (mt_nodup _ _ _ _ _ H)) as [Hnd Hno].
  split; rewrite ?Edl, ?Ec, ?Et; try done.
  - apply H.
  - apply H.
  - exists di. by rewrite Ei, lookup_insert_ne, lookup_insert_eq.
  - intros k'. rewrite Hv. destruct (decide (k' = k)) as [->|]; [by rewrite lookup_delete_eq|].
    rewrite lookup_delete_ne by done. apply H.
  - intros k' n' Hk'. apply lookup_delete_Some in Hk' as [Hne Hk'].
    destruct (mt_files _ _ _ _ _ H _ _ Hk') as (p' & i' & Hf' & Hp' & Hn' & Hidle).
    exists p', i'. rewrite del_str_ne by (by intros ?%root_file_inj).
    assert (p' ≠ r) by (by eapply file_not_root).
    assert (p' ≠ p).
    { intros ->. apply Hne. eapply file_inj; [done..|]. rewrite Hk'. congruence. }
    by rewrite Ei, !lookup_insert_ne.
  - intros path q Hin. destruct (mt_paths _ _ _ _ _ H _ _ (del_str_elem _ _ _ Hin)) as [?|(k' & -> & Hk')]; [by left|].
    right. exists k'. split; [done|]. rewrite lookup_delete_ne; [done|]. intros ->.
    apply Hno, list_elem_of_fmap. by exists (root_file k', q).
  - by eapply table_put.
Qed.

Hypothesis pointers_survive : ∀ q, w_int w q ≠ 0.

Lemma unlink_missing s N r A R k name : mounted s N r A R → file_name k → A !! k = None →
  ∃ s', userfs_posix_unlink w (root_file k) name s = Ok (- ENOENT, s') ∧ mounted s' N r A R ∧
    ns_log s' = ns_log s.
Proof using base_root base_fits.
  intros H Hk Hno. destruct (nameiparent_root s N r A R k name H Hk) as (s1 & buf & Hpar & H1 & El1).
  destruct (namei_missing s1 N r A R k name H1 Hk Hno) as (s2 & Hx & H2 & El2).
  destruct (mt_dir _ _ _ _ _ H2) as (di & Hdi & Hd). destruct (mt_names _ _ _ _ _ H2) as [m Hm].
  unfold userfs_posix_unlink. rewrite (M_bind_ok _ _ _ _ _ Hpar). cbn [fst snd].
  rewrite (M_bind_ok _ _ _ _ _ Hx). rewrite (M_bind_ok _ _ s2 None s2); [exists s2; by rewrite El2|].
  rewrite (M_bind_ok _ _ _ _ _ (buf_name k buf s2 Hk)).
  eapply dir_lookup_miss; [apply H2|done|done|apply Hd|apply Hk| |left; apply Hd].
  by rewrite (mt_visible _ _ _ _ _ H2), Hno.
Qed.

(** What follows the removal of the entry. *)
Lemma unlink_release s r di p i path : ns_inodes s !! r = Some di → ns_inodes s !! p = Some i → p ≠ r →
  i_ref i = 2 → i_itype i = T_FILE → i_flags i = I_VALID → i_fcache i = Some ∅ →
  ∃ j, i_inum j = i_inum i ∧
    (dlookup_del path;; iput_ptr r;; iput_ptr p;; idealloc_ptr p;; mret 0) s =
      Ok (0, set_inodes <[p := j]> (set_inodes <[r := iput di]> (set_dlookup (del_str path) s))).
Proof using.
  intros Hr Hi Hne Href Hty Hfl Hfc. destruct (idealloc_last (iput i) (ns_rc s)) as (j & Hj & Hn); [cbn; lia|done..|].
  exists j. split; [done|]. set (s1 := set_dlookup (del_str path) s). rewrite (M_bind_ok _ _ s tt s1) by done.
  rewrite (M_bind_ok _ _ _ _ _ (iput_ptr_ok s1 r di Hr)). set (s2 := set_inodes _ s1).
  assert (Hi2 : ns_inodes s2 !! p = Some i) by (cbn; by rewrite lookup_insert_ne).
  rewrite (M_bind_ok _ _ _ _ _ (iput_ptr_ok s2 p i Hi2)). set (s3 := set_inodes _ s2).
  unfold idealloc_ptr, lift.
  assert (Hi3 : ns_inodes s3 !! p = Some (iput i)) by apply lookup_insert_eq.
  rewrite (M_bind_ok _ _ s3 tt (set_inodes <[p := j]> s2)); [done|].
  rewrite (M_bind_ok _ _ _ _ _ (inode_at_ok _ _ _ Hi3)), (M_bind_ok _ _ s3 (ns_rc s) s3) by done.
  rewrite Hj, (M_bind_ok _ _ s3 (j, ns_rc s) s3) by done. cbn [fst snd].
  replace (i_itype (iput i)) with T_FILE by done. change (T_FILE =? T_DIR) with false. unfold_M.
  unfold s3, set_inodes, set_rc. cbn. by rewrite insert_insert_eq.
Qed.

(** [namei] and [i_ref_inc] on a file nobody has open. *)
Lemma unlink_find s p i c path name d buf : find_str path (ns_dlookup s) = Some p → ns_inodes s !! p = Some i →
  idle c i →
  (ip ← namei w path name;
   match ip with
   | Some p => i_ref_inc p;; mret (Some p)
   | None => e ← buf_str buf; dir_lookup w d e
   end) s = Ok (Some p, set_inodes <[p := set_ref (c + 2) i]> s).
Proof using.
  intros Hf Hi Hidle. rewrite (M_bind_ok _ _ _ _ _ (namei_hit s p i _ _ name Hf Hi Hidle)). unfold i_ref_inc.
  erewrite M_bind_ok by (apply upd_inode_ok, lookup_insert_eq). rewrite (id_ref _ _ Hidle).
  unfold set_inodes. cbn. rewrite insert_insert_eq, <- Z.add_assoc. done.
Qed.

(** [unlink] up to the removal of the entry. *)
Lemma unlink_entry s N r A R k n name : mounted s N r A R → file_name k → A !! k = Some n →
  ∃ s1 s3 p i di, mounted s1 N r A R ∧ find_str (root_file k) (ns_dlookup s1) = Some p ∧
    ns_inodes s1 !! p = Some i ∧ i_inum i = n ∧ idle (R k) i ∧ p ≠ r ∧
    ns_inodes s1 !! r = Some di ∧ dir_ok di ∧ ns_log s1 = ns_log s ∧
    removed w (set_inodes <[p := set_ref (R k + 2) i]> s1) s3 N r k di n ∧
    userfs_posix_unlink w (root_file k) name s =
      (dlookup_del (root_file k);; iput_ptr r;; iput_ptr p;; idealloc_ptr p;; mret 0) s3.
Proof using base_root base_fits pointers_survive.
  intros H Hk HA. destruct (nameiparent_root s N r A R k name H Hk) as (s1 & buf & Hpar & H1 & Elog).
  destruct (mt_files _ _ _ _ _ H1 _ _ HA) as (p & i & Hf & Hi & Hn & Hidle).
  pose proof (file_not_root _ _ _ _ _ _ _ _ _ H1 HA Hi Hn) as Hpr.
  destruct (mt_dir _ _ _ _ _ H1) as (di & Hdi & Hd). destruct (mt_names _ _ _ _ _ H1) as [m Hm].
  set (s2 := set_inodes <[p := set_ref (R k + 2) i]> s1).
  assert (H2 : ns_rep s2 N) by (eapply rep_upd_inode; [apply H1|done..]).
  assert (Hdi2 : ns_inodes s2 !! r = Some di) by (cbn; by rewrite lookup_insert_ne).
  destruct (dir_remove_entry_ok w s2 N r m k di n T_FILE) as (s3 & Hrm & Rm); [done..|apply Hk| | |done|].
  { change (visible s1 N r k = Some (n, T_FILE)). by rewrite (mt_visible _ _ _ _ _ H1), HA. }
  { pose proof (file_number _ _ _ _ _ _ _ H1 HA). pose proof base_pos. lia. }
  exists s1, s3, p, i, di. split_and!; try done.
  unfold userfs_posix_unlink. rewrite (M_bind_ok _ _ _ _ _ Hpar). cbn [fst snd].
  rewrite (M_bind_assoc' _ _ _ _ _ _ (unlink_find s1 p i _ _ name r _ Hf Hi Hidle)). fold s2.
  by rewrite (M_bind_ok _ _ _ _ _ (buf_name k buf s2 Hk)), (M_bind_ok _ _ _ _ _ Hrm).
Qed.

(** What [unlink] releases is where it was. *)
Lemma removed_inodes s s' N r k p i di n c : removed w (set_inodes <[p := set_ref c i]> s) s' N r k di n → p ≠ r →
  ns_inodes s' !! p = Some (set_ref c i) ∧
  ns_inodes s' !! r = Some (set_isize (u64 (i_size di - FUCKFS_DIR_REC_LEN 8)) di).
Proof using.
  intros Rm Hne. rewrite (rm_inodes _ _ _ _ _ _ _ _ Rm). split; [|apply lookup_insert_eq].
  rewrite lookup_insert_ne by done. apply lookup_insert_eq.
Qed.

Lemma unlink_old s N r A R k n name : mounted s N r A R → file_name k → A !! k = Some n → R k = 0 →
  ∃ s', userfs_posix_unlink w (root_file k) name s = Ok (0, s') ∧ mounted s' N r (delete k A) R ∧
    ns_log s' = remove_log w ROOTINO n k (ns_log s).
Proof using base_root base_fits pointers_survive.
  intros H Hk HA HR.
  destruct (unlink_entry s N r A R k n name H Hk HA) as (s1 & s3 & p & i & di & H1 & Hf & Hi & Hn & Hidle & Hpr & Hdi & Hd & Elog & Rm & ->).
  destruct (removed_inodes _ _ _ _ _ _ _ _ _ _ Rm Hpr) as [Hi3 Hd3]. set (di' := set_isize _ di) in Hd3.
  destruct Rm as [H3 Hv3 Ei3 Et3 El3 Edl3 Ec3 _]. fold di' in Ei3.
  destruct (unlink_release s3 r di' p (set_ref (R k + 2) i) (root_file k)) as (j & Hj & ->);
    [done..|cbn; lia|apply Hidle|apply Hidle|apply Hidle|].
  eexists. split; [done|]. split.
  2: { cbn. by rewrite El3, (root_number _ _ _ _ _ _ H1 Hdi), <- Elog. }
  eapply (mounted_removed s1 _ N r A R k n p i j (iput di')); try done.
  - eapply rep_upd_inode; [eapply rep_upd_inode; [by apply rep_dlookup|done|done]|cbn; by rewrite lookup_insert_ne|done].
  - by destruct Hd.
  - intros k'. refine (eq_trans (Hv3 r k') _). destruct (decide (k' = k)) as [->|]; [by rewrite decide_True|].
    by rewrite decide_False by naive_solver.
  - cbn. rewrite Ei3. cbn. rewrite insert_insert_eq. rewrite (insert_insert_ne _ r p), insert_insert_eq by done. done.
  - cbn. by rewrite Edl3.
Qed.

End mount.

End posix_ok.
