(* ===== verification/PosixRun.v ===== *)
(** * PosixRun: sequences of calls on files

    The specification of the calls on the files under the mount point is a
    step relation on a map from names to inode numbers; every sequence of
    calls refines it.  Then what the calls do where they do not behave as
    their names promise. *)
From Stdlib Require Import ZArith Lia.
From stdpp Require Import functions.
From stdpp Require Import base numbers list gmap strings sorting.
From S2P Require Import Prelude Util Bytes RbTree BlkTree Alloc Log Inode FileIO Fd ArtNode Art ArtOk ArtMap ArtDict Dirent DirentOk Posix PosixOk.

(** ** Specification *)
Inductive fs_op : Type :=
  | Touch (k : list Z)
  | Access (k : list Z)
  | Unlink (k : list Z).
Definition op_file (o : fs_op) : list Z := match o with Touch k | Access k | Unlink k => k end.

Inductive spec_step (A : gmap (list Z) Z) : fs_op → Z → gmap (list Z) Z → Prop :=
  | spec_create k n : A !! k = None → 0 < n → (∀ k', A !! k' ≠ Some n) →
      spec_step A (Touch k) n (<[k := n]> A)
  | spec_open k n : A !! k = Some n → spec_step A (Touch k) n A
  | spec_exists k n : A !! k = Some n → spec_step A (Access k) 0 A
  | spec_absent k : A !! k = None → spec_step A (Access k) (- ENOENT) A
  | spec_remove k n : A !! k = Some n → spec_step A (Unlink k) 0 (delete k A)
  | spec_missing k : A !! k = None → spec_step A (Unlink k) (- ENOENT) A.

Inductive spec_run : gmap (list Z) Z → list fs_op → list Z → gmap (list Z) Z → Prop :=
  | run_nil A : spec_run A [] [] A
  | run_cons A o z A1 os zs A2 :
      spec_step A o z A1 → spec_run A1 os zs A2 → spec_run A (o :: os) (z :: zs) A2.

Section posix_run.
Context {T : Type} `{!NameDict T nat}.
#[local] Abbreviation ns := (@nstate T).
Implicit Types (s : ns) (d p r u : nat) (k : list Z).
Variable w : world.
(** What the name buffers on the stack hold first. *)
Variable name : list Z.

(** ** The calls *)
Definition fs_step (o : fs_op) : M ns Z :=
  match o with
  | Touch k => touch w (root_file k) name
  | Access k => userfs_posix_access w (root_file k) 0 name
  | Unlink k => userfs_posix_unlink w (root_file k) name
  end.

Fixpoint fs_run (os : list fs_op) : M ns (list Z) :=
  match os with
  | [] => mret []
  | o :: os => z ← fs_step o; zs ← fs_run os; mret (z :: zs)
  end.

(** What a call that returns [z] leaves in the log when the files are [A],
    and what is left by a sequence of calls. *)
Definition op_entries (A : gmap (list Z) Z) (o : fs_op) (z : Z) : list (Z * list Z) :=
  match o with
  | Touch k =>
      if A !! k then []
      else [(0, setattr_bytes (create_setattr w z)); (1, dentry_bytes (create_dentry w ROOTINO z T_FILE k))]
  | Access k => []
  | Unlink k =>
      match A !! k with
      | Some n => [(0, setattr_bytes (remove_setattr w n)); (1, dentry_bytes (remove_dentry w ROOTINO n k))]
      | None => []
      end
  end.

(** Inode numbers have 32 bits. *)
Definition numbered (A : gmap (list Z) Z) : Prop := ∀ k n, A !! k = Some n → 0 ≤ n < 2 ^ 32.

Inductive logged : gmap (list Z) Z → list fs_op → list Z → list (Z * list Z) → gmap (list Z) Z → Prop :=
  | logged_nil A : logged A [] [] [] A
  | logged_cons A o z A1 os zs es A2 :
      spec_step A o z A1 → numbered A1 → logged A1 os zs es A2 → logged A (o :: os) (z :: zs) (op_entries A o z ++ es) A2.

Lemma run_log_app es es' l : run_log (es ++ es') l = run_log es' (run_log es l).
Proof. revert l. induction es as [|[f e] es IH]; intros l; [done|]. cbn. apply IH. Qed.

(** Making and removing a directory. *)
Definition mkdir_rmdir k : M ns Z :=
  userfs_posix_mkdir w (root_file k) name;; userfs_posix_rmdir w (root_file k) name.

(** A file system of which only the root directory is known: inode [di]. *)
Definition fresh_mount (base : Z) (di : inode) (l : log) (g : rcache) : ns :=
  mkNs {[0%nat := di]} {[0%nat := mkDir [] 0 nd_empty false]} {[ROOTINO := 0%nat]} [] ∅ ∅ 1
    (Inodes.init_table base) l g.

(** ** Entries of any directory *)
Record dir_at_rest s (N : gmap nat (gmap (list Z) nat)) d (m : gmap (list Z) nat) (di : inode) : Prop := {
  dr_rep : ns_rep s N;
  dr_map : N !! d = Some m;
  dr_inode : ns_inodes s !! d = Some di;
  dr_ok : dir_ok di }.


(** dir_remove_entry of a live name returns 0, gives the inode number
    back to the table, and dir_lookup of the name then finds nothing, while
    every other name of every directory is untouched. *)
Theorem remove_then_lookup s N d m di k ino ft : dir_at_rest s N d m di → name_ok k →
  visible s N d k = Some (ino, ft) → ino ≠ 0 → (∀ q, w_int w q ≠ 0) →
  ∃ s', (z ← dir_remove_entry w d k; q ← dir_lookup w d k; mret (z, q)) s = Ok ((0, None), s') ∧
    ns_rep s' N ∧ ns_table s' = (Inodes.put_inode_bitmap ino (ns_table s)).2 ∧
    (∀ d' k', visible s' N d' k' = if decide (d' = d ∧ k' = k) then None else visible s N d' k').
Proof.
  intros [H Hm Hdi Hd] Hk Hv Hino Hint.
  destruct (dir_remove_entry_ok w s N d m k di ino ft) as (s1 & Hrm & Rm); [done..|].
  destruct Rm as [H1 Hv1 Ei1 Et1 _ _ _ _]. exists s1. split; [|done].
  rewrite (M_bind_ok _ _ _ _ _ Hrm), (M_bind_ok _ _ s1 None s1); [done|].
  eapply dir_lookup_miss; [done..|by rewrite Ei1, lookup_insert_eq|apply Hd|done| |].
  - rewrite Hv1. by rewrite decide_True.
  - left. apply Hd.
Qed.

Section run.
Variable base : Z.
Hypothesis base_root : ROOTINO < base.
Hypothesis base_fits : base + 128 * Z.of_nat inonum ≤ 2 ^ 32.
Hypothesis pointers_survive : ∀ q, w_int w q ≠ 0.
#[local] Abbreviation mnt := (mounted base).

Lemma fresh_mounted di l g : dir_ok di → i_inum di = ROOTINO →
  mnt (fresh_mount base di l g) {[0%nat := ∅]} 0%nat ∅ (λ _, 0).
Proof using base_root base_fits.
  intros Hd Hn. split; cbn; try done.
  - split; cbn.
    + intros d x Hx%lookup_singleton_Some. destruct Hx as [<- <-]. exists ∅.
      split; [apply lookup_singleton_eq|apply nd_empty_ok].
    + intros d m Hm%lookup_singleton_Some. destruct Hm as [<- <-]. rewrite !lookup_singleton_eq. eauto.
    + intros d m k u Hm%lookup_singleton_Some. destruct Hm as [<- <-]. by rewrite lookup_empty.
    + intros d m k u d' m' k' Hm%lookup_singleton_Some. destruct Hm as [<- <-]. by rewrite lookup_empty.
    + intros d x k p Hx%lookup_singleton_Some. destruct Hx as [<- <-]. cbn. by intros ?%elem_of_nil.
    + intros d x Hx%lookup_singleton_Some. destruct Hx as [<- <-]. constructor.
    + intros p Hp. rewrite !lookup_singleton_ne by lia. done.
    + intros n p Hp%lookup_singleton_Some. destruct Hp as [<- <-]. exists di. by rewrite lookup_singleton_eq.
  - rewrite lookup_singleton_eq. eauto.
  - intros path p Hp. by apply elem_of_nil in Hp.
  - constructor.
  - apply Inodes.init_exclusive; [unfold ROOTINO in base_root; lia|done].
Qed.

(** One call is one step of the specification. *)
Lemma fs_step_ok s N r A o : mnt s N r A (λ _, 0) → file_name (op_file o) → (stdpp.base.size A < inonum)%nat →
  ∃ z s' N' A', fs_step o s = Ok (z, s') ∧ spec_step A o z A' ∧ mnt s' N' r A' (λ _, 0) ∧
    (stdpp.base.size A' ≤ S (stdpp.base.size A))%nat ∧ ns_log s' = run_log (op_entries A o z) (ns_log s).
Proof using base_root base_fits pointers_survive.
  intros H Hk Hsz. destruct o as [k|k|k]; cbn [op_file fs_step op_entries] in *; destruct (A !! k) as [n|] eqn:HA.
  - exists n, s, N, A. split_and!; [by eapply touch_old|by constructor|done|lia|done].
  - destruct (touch_new w base base_root base_fits s N r A _ k name H Hk HA Hsz) as (n & s' & N' & Ht & Hn & H' & El).
    exists n, s', N', (<[k := n]> A). split_and!; [done| | |by rewrite map_size_insert_None|exact El].
    + constructor; [done|unfold ROOTINO in *; lia|]. intros k' Hk'.
      assert (k' = k) as ->; [|congruence]. eapply (file_inj base); [done..|exact H'| |apply lookup_insert_eq].
      rewrite lookup_insert_ne; [done|]. intros <-. congruence.
    + eapply mounted_ext; [|exact H']. intros k'. destruct (decide (k = k')) as [->|];
        [by rewrite fn_lookup_insert|by rewrite fn_lookup_insert_ne].
  - destruct (access_ok w base base_root base_fits s N r A _ k name H Hk) as (s' & Ha & H' & El). rewrite HA in Ha.
    exists 0, s', N, A. split_and!; [done|by eapply spec_exists|done|lia|done].
  - destruct (access_ok w base base_root base_fits s N r A _ k name H Hk) as (s' & Ha & H' & El). rewrite HA in Ha.
    exists (- ENOENT), s', N, A. split_and!; [done|by constructor|done|lia|done].
  - destruct (unlink_old w base base_root base_fits pointers_survive s N r A _ k n name H Hk HA eq_refl)
      as (s' & Hu & H' & El).
    exists 0, s', N, (delete k A). split_and!; [done|by eapply spec_remove|done| |exact El].
    rewrite map_size_delete_Some by (by rewrite HA). lia.
  - destruct (unlink_missing w base base_root base_fits s N r A _ k name H Hk HA) as (s' & Hu & H' & El).
    exists (- ENOENT), s', N, A. split_and!; [done|by constructor|done|lia|done].
Qed.

Lemma fs_run_ok s N r A os : mnt s N r A (λ _, 0) → Forall (λ o, file_name (op_file o)) os →
  (stdpp.base.size A + length os ≤ inonum)%nat →
  ∃ zs s' N' A' es, fs_run os s = Ok (zs, s') ∧ spec_run A os zs A' ∧ mnt s' N' r A' (λ _, 0) ∧
    logged A os zs es A' ∧ ns_log s' = run_log es (ns_log s).
Proof using base_root base_fits pointers_survive.
  intros H Hos. revert s N A H. induction Hos as [|o os Ho Hos IH]; intros s N A H Hsz; cbn [fs_run length] in *.
  { exists [], s, N, A, []. split_and!; [done|constructor|done|constructor|done]. }
  destruct (fs_step_ok s N r A o H Ho ltac:(lia)) as (z & s1 & N1 & A1 & Hz & Hs & H1 & Hsz1 & El1).
  destruct (IH s1 N1 A1 H1 ltac:(lia)) as (zs & s2 & N2 & A2 & es & Hzs & Hss & H2 & Hlg & El2).
  exists (z :: zs), s2, N2, A2, (op_entries A o z ++ es).
  assert (Hnum : numbered A1).
  { intros k n Hk. pose proof (file_number base base_root base_fits _ _ _ _ _ _ _ H1 Hk).
    unfold ROOTINO in base_root. lia. }
  split_and!; [|by econstructor|done|by econstructor|by rewrite run_log_app, <- El1].
  by rewrite (M_bind_ok _ _ _ _ _ Hz), (M_bind_ok _ _ _ _ _ Hzs).
Qed.

(** C4: From a fresh mount, every sequence of opening with O_CREAT and giving
    back (userfs_open_file and iput, the inode part of userfs_posix_open and
    userfs_posix_close), access and unlink of files under the mount point
    runs to the end and returns what a map from names to inode numbers
    prescribes: a new file gets a number no other file has, an existing one
    keeps its number, access and unlink report exactly the files that are
    there; the heap of inodes and entries, the name and path caches and the
    table of numbers stay consistent with the map. At most inonum calls, so
    that the table of numbers lasts; names have no slash, are shorter than
    DIRSIZ and do not consist of the digit 0 only; the inode numbers of the
    table are above ROOTINO and fit in 32 bits; the root directory has no
    entries on disk; pointers do not become 0 when converted to int. *)
Theorem posix_run_refines di l g os : dir_ok di → i_inum di = ROOTINO →
  Forall (λ o, file_name (op_file o)) os → (length os ≤ inonum)%nat →
  ∃ zs s' N' A', fs_run os (fresh_mount base di l g) = Ok (zs, s') ∧ spec_run ∅ os zs A' ∧
    mnt s' N' 0%nat A' (λ _, 0).
Proof using base_root base_fits pointers_survive.
  intros Hd Hn Hos Hl.
  destruct (fs_run_ok (fresh_mount base di l g) {[0%nat := ∅]} 0%nat ∅ os) as (zs & s' & N' & A' & es & H1 & H2 & H3 & _);
    [by apply fresh_mounted|done|by rewrite map_size_empty|]. by exists zs, s', N', A'.
Qed.

(** ** Calls that go wrong *)

(** C39: userfs_posix_unlink of a file that is open does not return: it takes
    two references and gives one back, so the assertion of idealloc that less
    than two are left fails. The pointer to the inode does not become 0 when
    converted to int. *)
Theorem unlink_open_panics s N r A R k n : mnt s N r A R → file_name k → A !! k = Some n → 0 ≤ R k →
  (userfs_open_file w (root_file k) T_FILE name;; fs_step (Unlink k)) s = Panic "inode->i_ref < 2".
Proof using base_root base_fits pointers_survive.
  cbn [fs_step]. intros H Hk HA HR. destruct (open_old w base s N r A R k n T_FILE name H HA) as (q & j & Hop & Hq & Hj & Hjn & Hidle).
  rewrite (M_bind_ok _ _ _ _ _ Hop). set (c := i_ref j + 1).
  assert (H1 : mnt (set_inodes <[q := set_ref c j]> s) N r A (<[k := c]> R)) by (by eapply mounted_ref).
  edestruct (unlink_entry w base) as (s1 & s3 & p & i & di & H2 & Hf & Hi & Hn & Hid & Hpr & Hdi & Hd & _ & Rm & ->);
    [done..|exact H1|exact Hk|exact HA|].
  destruct (removed_inodes w _ _ _ _ _ _ _ _ _ _ Rm Hpr) as [Hi3 Hd3].
  rewrite (M_bind_ok _ _ s3 tt (set_dlookup (del_str (root_file k)) s3)) by done.
  set (s4 := set_dlookup _ s3). rewrite (M_bind_ok _ _ _ _ _ (iput_ptr_ok s4 r _ Hd3)).
  set (s5 := set_inodes _ s4).
  assert (Hi5 : ns_inodes s5 !! p = Some (set_ref (<[k := c]> R k + 2) i)) by (cbn; by rewrite lookup_insert_ne).
  rewrite (M_bind_ok _ _ _ _ _ (iput_ptr_ok s5 p _ Hi5)). unfold idealloc_ptr, lift. unfold_M.
  erewrite inode_at_ok by apply lookup_insert_eq. cbn [mbind outcome_bind]. unfold idealloc.
  rewrite fn_lookup_insert. pose proof (id_ref _ _ Hidle). subst c.
  cbn [i_ref iput set_ref]. rewrite (proj2 (Z.ltb_ge _ _)) by lia. done.
Qed.

(** userfs_posix_rmdir of a directory that userfs_posix_mkdir has just
    made returns -EINVAL: a new directory has a size greater than 0, and only
    empty ones are removed. *)
Theorem rmdir_after_mkdir s N r A R k : mnt s N r A R → file_name k → A !! k = None →
  (stdpp.base.size A < inonum)%nat →
  ∃ s', mkdir_rmdir k s = Ok (- EINVAL, s').
Proof using base_root base_fits.
  intros H Hk Hno Hsz. unfold mkdir_rmdir.
  destruct (open_new w base base_root base_fits s N r A R k T_DIR name H Hk Hno Hsz)
    as (n & t & p & s1 & s2 & N2 & di & Hop & H1 & O & Hn & Ht & Edl & _).
  rewrite (M_bind_ok _ _ s 0 s2) by (unfold userfs_posix_mkdir; by rewrite (M_bind_ok _ _ _ _ _ Hop)).
  pose proof (op_inode _ _ _ _ _ _ _ _ _ _ _ _ O) as Hp. set (i := new_inode w n T_DIR) in Hp.
  assert (Hni : namei w (root_file k) name s2 = Ok (Some p, set_inodes <[p := set_ref 2 i]> s2)).
  { unfold namei. rewrite (M_bind_ok _ _ s2 (Some p) s2) by (unfold dlookup_find, gets; by rewrite Edl, find_str_eq).
    rewrite (M_bind_ok _ _ _ _ _ (inode_at_ok _ _ _ Hp)). change (deleting i) with false.
    unfold i_ref_inc. by rewrite (M_bind_ok _ _ _ _ _ (upd_inode_ok _ _ _ _ Hp)). }
  unfold userfs_posix_rmdir. rewrite (M_bind_ok _ _ _ _ _ Hni). eexists.
  by rewrite (M_bind_ok _ _ _ _ _ (inode_at_ok (set_inodes <[p := set_ref 2 i]> s2) p _ (lookup_insert_eq _ _ _))).
Qed.

End run.
End posix_run.

(** ** Witnesses *)
Definition quiet_world : world := mkWorld (λ _, None) (λ _ _, 0) (λ _, []) 5 6 (λ _, 1) 0.
Definition root_inode : inode :=
  mkInode ROOTINO T_DIR 2 28 28 I_VALID 1 0 0 (mkCur 0 0 0 0 0 0 0 0 0) RB_ROOT (Some ∅) 0.
Definition new_mount : @nstate (art_tree nat) :=
  fresh_mount 256 root_inode (loginit (λ _, 0)) (mkRc ∅ ∅ 0 [] 0).
(** ["foo"] and ["bar0"]. *)
Definition foo : list Z := [102; 111; 111].
Definition bar0 : list Z := [98; 97; 114; 48].

Lemma root_inode_ok : dir_ok root_inode.
Proof. done. Qed.
Lemma foo_name : file_name foo.
Proof. split; [repeat constructor; lia|by repeat constructor|vm_compute; lia|by left]. Qed.
Lemma bar0_name : file_name bar0.
Proof. split; [repeat constructor; lia|by repeat constructor|vm_compute; lia|by left]. Qed.
Lemma inonum_val : Z.of_nat inonum = 30000.
Proof. by vm_compute. Qed.
Lemma numbers_fit : 256 + 128 * Z.of_nat inonum ≤ 2 ^ 32.
Proof. rewrite inonum_val. lia. Qed.
Lemma new_mounted : mounted 256 new_mount {[0%nat := ∅]} 0%nat ∅ (λ _, 0).
Proof. apply fresh_mounted; [done|apply numbers_fit|apply root_inode_ok|done]. Qed.
Lemma room : (stdpp.base.size (∅ : gmap (list Z) Z) < inonum)%nat.
Proof. rewrite map_size_empty. pose proof inonum_val. lia. Qed.

(** The new mount with the file ["foo"]. *)
Lemma foo_mounted : ∃ s N n, mounted 256 (T := art_tree nat) s N 0%nat (<[foo := n]> ∅) (<[foo := 0]> (λ _, 0)) ∧ n ≠ 0.
Proof.
  destruct (touch_new quiet_world 256 ltac:(done) numbers_fit _ _ _ _ _ foo [] new_mounted foo_name eq_refl room)
    as (n & s & N & _ & Hn & H & _).
  exists s, N, n. split; [done|lia].
Qed.

Definition sample_calls : list fs_op := [Touch foo; Touch bar0; Access foo; Unlink foo; Access foo; Touch foo].

Lemma posix_run_refines_witness :
  ∃ zs s' N' A', fs_run quiet_world [] sample_calls new_mount = Ok (zs, s') ∧
    spec_run ∅ sample_calls zs A' ∧ mounted 256 s' N' 0%nat A' (λ _, 0).
Proof.
  apply (posix_run_refines quiet_world [] 256 ltac:(done) numbers_fit ltac:(done) root_inode);
    [apply root_inode_ok|done| |].
  - unfold sample_calls. rewrite !Forall_cons. split_and!; [exact foo_name|exact bar0_name|exact foo_name..|apply Forall_nil_2].
  - pose proof inonum_val. cbn. lia.
Defined.

Lemma unlink_open_panics_witness :
  ∃ s : @nstate (art_tree nat), (userfs_open_file quiet_world (root_file foo) T_FILE [];;
    userfs_posix_unlink quiet_world (root_file foo) []) s = Panic "inode->i_ref < 2".
Proof.
  destruct foo_mounted as (s & N & n & H & _). exists s.
  apply (unlink_open_panics quiet_world [] 256 ltac:(done) numbers_fit ltac:(done) s N 0 _ _ foo n H);
    [apply foo_name|apply lookup_insert_eq|by rewrite fn_lookup_insert].
Defined.

Lemma rmdir_after_mkdir_witness :
  ∃ s', (userfs_posix_mkdir quiet_world (root_file foo) [];; userfs_posix_rmdir quiet_world (root_file foo) []) new_mount
    = Ok (- EINVAL, s').
Proof.
  apply (rmdir_after_mkdir quiet_world [] 256 ltac:(done) numbers_fit _ _ _ _ _ foo new_mounted foo_name eq_refl room).
Defined.


Lemma remove_then_lookup_witness :
  ∃ s s' : @nstate (art_tree nat),
    (z ← dir_remove_entry quiet_world 0%nat foo; q ← dir_lookup quiet_world 0%nat foo; mret (z, q)) s = Ok ((0, None), s').
Proof.
  destruct foo_mounted as (s & N & n & H & Hn). destruct (mt_dir _ _ _ _ _ _ H) as (di & Hdi & Hd).
  destruct (mt_names _ _ _ _ _ _ H) as [m Hm].
  destruct (remove_then_lookup quiet_world s N 0 m di foo n T_FILE) as (s' & Hrun & _);
    [by split; [apply H|..]|apply foo_name| |done|done|by exists s, s'].
  by rewrite (mt_visible _ _ _ _ _ _ H), lookup_insert_eq.
Defined.
