(* ===== verification/PosixLog.v ===== *)
(** * PosixLog: the log determines the files

    After every sequence of calls of [PosixRun], a reader of the log that
    applies the directory entries one after the other gets the files that the
    calls left. *)
From Stdlib Require Import ZArith Lia.
From stdpp Require Import base numbers list gmap strings.
From S2P Require Import Prelude Util Bytes Alloc Log LogScan Inode FileIO ArtNode Art ArtDict Dirent DirentOk Posix PosixOk PosixRun.

(** ** Replay *)

(** A directory entry of the log, applied to the names of the root
    directory; entries of fixed size are attributes of inodes. *)
Definition replay_entry (A : gmap (list Z) Z) (e : Z * list Z) : gmap (list Z) Z :=
  if e.1 =? 0 then A
  else match dentry_of e.2 with
       | None => A
       | Some de =>
           let k := take (Z.to_nat (de_name_len de)) (de_name de) in
           if negb (de_ino de =? ROOTINO) then A
           else if de_addordel de =? Addden then <[k := de_fino de]> A else delete k A
       end.
Definition replay (es : list (Z * list Z)) (A : gmap (list Z) Z) : gmap (list Z) Z := foldl replay_entry A es.

(** What the entries in the log say about the files. *)
Definition recover (l : log) : gmap (list Z) Z := replay (read_log l) ∅.

(** ** Entries *)
Lemma dentry_decode e : length (de_name e) = 32%nat →
  dentry_of (dentry_bytes e) = Some (mkDentry (de_ino e mod 2 ^ 32) (de_entry_type e mod 2 ^ 8)
    (de_name_len e mod 2 ^ 8) (de_file_type e mod 2 ^ 8) (de_addordel e mod 2 ^ 8) (de_mtime e mod 2 ^ 32)
    (de_invalid e mod 2 ^ 8) (de_padding e mod 2 ^ 8) (de_links_count e mod 2 ^ 16) (de_fino e mod 2 ^ 64)
    (de_size e mod 2 ^ 64) (de_name e)).
Proof.
  intros Hl. unfold dentry_of, dentry_bytes.
  pose proof (unpack_pack_mod (dentry_fields e) (de_name e)) as E.
  change (fst <$> dentry_fields e) with [4; 1; 1; 1; 1; 4; 1; 1; 2; 8; 8]%nat in E.
  rewrite E. rewrite drop_app_length' by (by rewrite pack_length). done.
Qed.

Lemma strncpy_length k : (length k < DIRSIZ)%nat → length (strncpy_DIRSIZ k) = 32%nat.
Proof.
  intros Hk. unfold strncpy_DIRSIZ. rewrite length_app, length_take, length_replicate.
  change DIRSIZ with 32%nat in *. lia.
Qed.

Lemma strncpy_name k : (length k < DIRSIZ)%nat → take (length k) (strncpy_DIRSIZ k) = k.
Proof.
  intros Hk. unfold strncpy_DIRSIZ. rewrite (take_ge k) by lia. by rewrite take_app_length.
Qed.

Section entries.
Variable w : world.

(** The directory entry of a creation or removal. *)
Lemma replay_dentry A de k :
  (length k < DIRSIZ)%nat → de_ino de = ROOTINO → de_name_len de = Z.of_nat (length k) →
  de_name de = strncpy_DIRSIZ k → 0 ≤ de_fino de < 2 ^ 32 → de_addordel de = Addden ∨ de_addordel de = Delden →
  replay_entry A (1, dentry_bytes de) = if de_addordel de =? Addden then <[k := de_fino de]> A else delete k A.
Proof.
  intros Hk Hi Hn Hs Hf Ha. unfold replay_entry. cbn [fst snd Z.eqb].
  rewrite dentry_decode by (rewrite Hs; by apply strncpy_length). cbn [de_ino de_name_len de_name de_addordel de_fino].
  rewrite Hi, Hn, Hs. change (negb (ROOTINO mod 2 ^ 32 =? ROOTINO)) with false. cbn iota.
  change DIRSIZ with 32%nat in Hk. rewrite (Z.mod_small (Z.of_nat _)), (Z.mod_small (de_fino de)) by lia.
  rewrite Nat2Z.id, strncpy_name by done.
  destruct Ha as [-> | ->]; done.
Qed.

Lemma setattr_entry e : sa_entry_type e = SET_ATTR →
  entry_ok (0, setattr_bytes e) ∧ typed (0, setattr_bytes e).
Proof. intros E. split; [done|]. unfold typed, setattr_bytes, setattr_fields. rewrite E. done. Qed.

Lemma dentry_entry e : de_entry_type e = DIR_LOG → length (de_name e) = 32%nat →
  entry_ok (1, dentry_bytes e) ∧ typed (1, dentry_bytes e).
Proof.
  intros E Hl. split.
  - unfold entry_ok, dentry_bytes. cbn [fst snd]. rewrite length_app, pack_length, Hl. done.
  - unfold typed, dentry_bytes, dentry_fields. rewrite E. done.
Qed.

(** The entries of one call. *)
Lemma op_entries_ok A o z A' :
  spec_step A o z A' → file_name (op_file o) → numbered A' → numbered A →
  Forall entry_ok (op_entries w A o z) ∧ Forall typed (op_entries w A o z) ∧
  (length (op_entries w A o z) ≤ 2)%nat ∧ replay (op_entries w A o z) A = A'.
Proof.
  intros Hs Hk Hn' Hn. pose proof (fn_len _ Hk) as Hl.
  destruct Hs as [k n HA ? ?|k n HA|k n HA|k HA|k n HA|k HA]; cbn [op_entries op_file] in *; rewrite ?HA;
    try (split_and!; [constructor|constructor|cbn; lia|done]).
  - destruct (setattr_entry (create_setattr w n)) as [H1 H2]; [done|].
    destruct (dentry_entry (create_dentry w ROOTINO n T_FILE k)) as [H3 H4]; [done|by apply strncpy_length|].
    split_and!; [by repeat constructor|by repeat constructor|done|].
    cbn [replay foldl]. rewrite (replay_dentry _ _ k) by (done || by left || (apply (Hn' k); apply lookup_insert_eq)). done.
  - destruct (setattr_entry (remove_setattr w n)) as [H1 H2]; [done|].
    destruct (dentry_entry (remove_dentry w ROOTINO n k)) as [H3 H4]; [done|by apply strncpy_length|].
    split_and!; [by repeat constructor|by repeat constructor|done|].
    cbn [replay foldl]. rewrite (replay_dentry _ _ k) by (done || by right || by apply (Hn k)). done.
Qed.
End entries.

(** ** Sequences of calls *)
Section run.
Context {T : Type} `{!NameDict T nat}.
Variable w : world.
(** What the name buffers on the stack hold first. *)
Variable name : list Z.
Variable base : Z.
Hypothesis base_root : ROOTINO < base.
Hypothesis base_fits : base + 128 * Z.of_nat inonum ≤ 2 ^ 32.
Hypothesis pointers_survive : ∀ q, w_int w q ≠ 0.

Lemma logged_ok A os zs es A' :
  logged w A os zs es A' → Forall (λ o, file_name (op_file o)) os → numbered A →
  Forall entry_ok es ∧ Forall typed es ∧ (length es ≤ 2 * length os)%nat ∧ replay es A = A'.
Proof using.
  intros H. induction H as [A|A o z A1 os zs es A2 Hs Hn1 H IH]; intros Hos Hn.
  { split_and!; [constructor|constructor|done|done]. }
  apply Forall_cons in Hos as [Ho Hos].
  destruct (op_entries_ok w A o z A1 Hs Ho Hn1 Hn) as (E1 & E2 & E3 & E4).
  destruct (IH Hos Hn1) as (F1 & F2 & F3 & F4). split_and!.
  - by apply Forall_app.
  - by apply Forall_app.
  - rewrite length_app. cbn [length]. lia.
  - unfold replay in *. by rewrite foldl_app, E4.
Qed.

(** C5: From a fresh mount, every sequence of at most inonum calls of opening
    with O_CREAT and giving back (userfs_open_file and iput), access and
    unlink leaves a log from whose bytes alone the files can be recovered: a
    reader that takes the log apart by the type of each entry and applies the
    directory entries in order gets exactly the names and inode numbers that
    the calls left. The conditions are those of posix_run_refines: names have
    no slash, are shorter than DIRSIZ and do not consist of the digit 0 only;
    the inode numbers of the table are above ROOTINO and fit in 32 bits; the
    root directory has no entries on disk; pointers do not become 0 when
    converted to int. *)
Theorem posix_run_recovers di m g os : dir_ok di → i_inum di = ROOTINO →
  Forall (λ o, file_name (op_file o)) os → (length os ≤ inonum)%nat →
  ∃ zs (s' : @nstate T) A', fs_run w name os (fresh_mount base di (loginit m) g) = Ok (zs, s') ∧
    spec_run ∅ os zs A' ∧ recover (ns_log s') = A'.
Proof using base_root base_fits pointers_survive.
  intros Hd Hn Hos Hl.
  destruct (fs_run_ok w name base base_root base_fits pointers_survive (fresh_mount base di (loginit m) g)
    {[0%nat := ∅]} 0%nat ∅ os) as (zs & s' & N' & A' & es & Hrun & Hspec & _ & Hlog & El);
    [by apply fresh_mounted|done|by rewrite map_size_empty|].
  exists zs, s', A'. split; [done|]. split; [done|].
  destruct (logged_ok ∅ os zs es A' Hlog Hos) as (H1 & H2 & H3 & H4); [intros k n; by rewrite lookup_empty|].
  unfold recover. rewrite El. cbn [ns_log fresh_mount]. rewrite read_log_ok; [done| |done|done].
  pose proof inonum_val. unfold logspace. lia.
Qed.
End run.

(** ** Witness *)
Lemma posix_run_recovers_witness :
  ∃ zs (s' : @nstate (art_tree nat)) A', fs_run quiet_world [] sample_calls new_mount = Ok (zs, s') ∧
    spec_run ∅ sample_calls zs A' ∧ recover (ns_log s') = A'.
Proof.
  apply (posix_run_recovers quiet_world [] 256 ltac:(done) numbers_fit ltac:(done) root_inode);
    [apply root_inode_ok|done| |].
  - unfold sample_calls. rewrite !Forall_cons.
    split_and!; [exact foo_name|exact bar0_name|exact foo_name..|apply Forall_nil_2].
  - pose proof inonum_val. cbn. lia.
Defined.
