(* ===== verification/Threads.v ===== *)
(** * Threads: condition variables and step relations of the thread pools

    The threads of a pool are a list of the places they are at in the code.
    A step runs one thread from a place where it holds no mutex, or the
    mutexes its place says, to the next such place: code between
    [pthread_mutex_lock] and the matching unlock or [pthread_cond_wait] is
    one step.  The order of the steps of different threads is free. *)
From Stdlib Require Import ZArith Lia.
From stdpp Require Import base numbers list relations.
From S2P Require Import Prelude.

(** ** Sums over the threads *)
Section total.
Context {W : Type}.
Implicit Types (f : W → nat) (ws : list W).

Definition total f ws : nat := sum_list_with f ws.

Lemma total_insert f ws i w w' :
  ws !! i = Some w → (total f (<[i := w']> ws) + f w = total f ws + f w')%nat.
Proof.
  unfold total. revert i. induction ws as [|a ws IH]; intros [|i] H; simplify_eq/=; [lia|].
  specialize (IH i H). lia.
Qed.

Lemma total_elem f ws i w : ws !! i = Some w → (f w ≤ total f ws)%nat.
Proof. intros H. apply sum_list_with_in. by eapply list_elem_of_lookup_2. Qed.

Lemma total_zero f ws : total f ws = 0%nat ↔ ∀ w, w ∈ ws → f w = 0%nat.
Proof.
  unfold total. induction ws as [|a ws IH]; simpl.
  - split; [intros _ w H; by apply elem_of_nil in H|done].
  - split.
    + intros H w [->|Hw]%elem_of_cons; [lia|]. apply IH; [lia|done].
    + intros H. assert (f a = 0)%nat by (apply H; by left).
      assert (sum_list_with f ws = 0)%nat by (apply IH; intros w Hw; apply H; by right). lia.
Qed.

Lemma total_pos f ws : (0 < total f ws)%nat → ∃ i w, ws !! i = Some w ∧ (0 < f w)%nat.
Proof.
  unfold total. induction ws as [|a ws IH]; simpl; [lia|]. intros H.
  destruct (decide (0 < f a)%nat) as [Ha|Ha]; [by exists 0%nat, a|].
  destruct IH as (i & w & E & Hw); [lia|]. by exists (S i), w.
Qed.

(** Two numberings that agree up to the change of one thread. *)
Lemma total_ext f g ws : (∀ w, w ∈ ws → f w = g w) → total f ws = total g ws.
Proof.
  unfold total. induction ws as [|a ws IH]; intros H; [done|]. simpl.
  rewrite (H a) by (by left). rewrite IH; [done|]. intros w Hw. apply H. by right.
Qed.
End total.

Lemma insert_elem {W} (ws : list W) i x w : w ∈ <[i := x]> ws → w ∈ ws ∨ w = x.
Proof.
  intros (j & Hj)%list_elem_of_lookup. destruct (decide (i = j)) as [->|Hne].
  - apply list_lookup_insert_Some in Hj as [(_ & -> & _)|(? & _)]; [by right|done].
  - rewrite list_lookup_insert_ne in Hj by done. left. by eapply list_elem_of_lookup_2.
Qed.

Lemma insert_ne {W} (ws : list W) i x : ws ≠ [] → <[i := x]> ws ≠ [].
Proof. by destruct ws, i. Qed.

(** What the threads hold. *)
Section held.
Context {W B : Type} (f : W → list B).

Definition held (ws : list W) : list B := ws ≫= f.

Lemma held_insert ws i w w' :
  ws !! i = Some w → f w ++ held (<[i := w']> ws) ≡ₚ f w' ++ held ws.
Proof.
  unfold held. revert i. induction ws as [|a ws IH]; intros [|i] H; simplify_eq/=.
  - by rewrite !app_assoc, (Permutation_app_comm (f w)).
  - specialize (IH i H). rewrite (Permutation_app_swap_app (f w)), IH.
    apply Permutation_app_swap_app.
Qed.

Lemma held_nil ws : (∀ w, w ∈ ws → f w = []) → held ws = [].
Proof.
  unfold held. induction ws as [|a ws IH]; intros H; [done|]. csimpl.
  rewrite (H a) by (by left). apply IH. intros w Hw. apply H. by right.
Qed.
End held.

(** ** Condition variables

    [asleep] tells the threads in [pthread_cond_wait], [awake] is the place
    where a woken thread goes on. *)
Section cond.
Context {W : Type} (asleep : W → bool) (awake : W).

(** [pthread_cond_signal]: one of the waiting threads, if there is one. *)
Inductive signal : list W → list W → Prop :=
  | signal_one ws i w : ws !! i = Some w → asleep w = true → signal ws (<[i := awake]> ws)
  | signal_none ws : (∀ w, w ∈ ws → asleep w = false) → signal ws ws.

(** [pthread_cond_broadcast]: all of them. *)
Definition broadcast (ws : list W) : list W := (λ w, if asleep w then awake else w) <$> ws.

Lemma signal_total ws : ∃ ws', signal ws ws'.
Proof.
  destruct (decide (0 < total (λ w, if asleep w then 1 else 0) ws))%nat as [H|H].
  - apply total_pos in H as (i & w & E & Hw). destruct (asleep w) eqn:Ew; [|lia].
    exists (<[i := awake]> ws). by eapply signal_one.
  - exists ws. apply signal_none. intros w Hw.
    assert (Hz : total (λ w, if asleep w then 1 else 0)%nat ws = 0%nat) by lia.
    rewrite total_zero in Hz. specialize (Hz w Hw). by destruct (asleep w).
Qed.

Lemma signal_elem ws ws' w : signal ws ws' → w ∈ ws' → w ∈ ws ∨ w = awake.
Proof.
  intros [ws0 i u E Hu|ws0 _] Hw; [by eapply insert_elem|by left].
Qed.

Lemma signal_length ws ws' : signal ws ws' → length ws' = length ws.
Proof. destruct 1; [by rewrite length_insert|done]. Qed.

(** Numberings the waking does not see, and the most it can add. *)
Lemma signal_same f ws ws' :
  (∀ w, asleep w = true → f w = f awake) → signal ws ws' → total f ws' = total f ws.
Proof.
  intros Hf [ws0 i w E Hw|ws0 _]; [|done].
  pose proof (total_insert f ws0 i w awake E). rewrite (Hf w Hw) in *. lia.
Qed.

Lemma signal_le f ws ws' : signal ws ws' → (total f ws' ≤ total f ws + f awake)%nat.
Proof.
  intros [ws0 i w E Hw|ws0 _]; [|lia]. pose proof (total_insert f ws0 i w awake E). lia.
Qed.

(** After a signal a thread is awake, if there is any thread. *)
Lemma signal_awake ws ws' :
  asleep awake = false → signal ws ws' → ws ≠ [] → ∃ i w, ws' !! i = Some w ∧ asleep w = false.
Proof.
  intros Ha [ws0 i w E Hw|ws0 H] Hne.
  - exists i, awake. split; [|done]. apply list_lookup_insert_eq. by eapply lookup_lt_Some.
  - destruct ws0 as [|a ws0]; [done|]. exists 0%nat, a. split; [done|]. apply H. by left.
Qed.

Lemma signal_mono (P : W → Prop) ws ws' :
  (∀ w, asleep w = true → ¬ P w) → signal ws ws' →
  (∃ i w, ws !! i = Some w ∧ P w) → ∃ i w, ws' !! i = Some w ∧ P w.
Proof.
  intros Hp [ws0 i w E Hw|ws0 _] (j & u & Ej & Hu); [|by exists j, u].
  exists j, u. split; [|done]. rewrite list_lookup_insert_ne; [done|]. intros ->.
  simplify_eq. by eapply Hp.
Qed.

Lemma signal_held {B} (f : W → list B) ws ws' :
  (∀ w, asleep w = true → f w = []) → f awake = [] → signal ws ws' → held f ws' ≡ₚ held f ws.
Proof.
  intros Hf Ha [ws0 i w E Hw|ws0 _]; [|done].
  pose proof (held_insert f ws0 i w awake E) as H. by rewrite (Hf w Hw), Ha in H.
Qed.

Lemma broadcast_held {B} (f : W → list B) ws :
  (∀ w, asleep w = true → f w = []) → f awake = [] → held f (broadcast ws) = held f ws.
Proof.
  intros Hf Ha. unfold held, broadcast. induction ws as [|a ws IH]; [done|]. csimpl.
  rewrite IH. destruct (asleep a) eqn:E; [by rewrite Ha, (Hf a E)|done].
Qed.

Lemma broadcast_total f ws :
  (∀ w, asleep w = true → f w = f awake) → total f (broadcast ws) = total f ws.
Proof.
  intros Hf. unfold total, broadcast. induction ws as [|a ws IH]; [done|]. csimpl.
  rewrite IH. destruct (asleep a) eqn:E; [by rewrite (Hf a E)|done].
Qed.

Lemma broadcast_awake ws w :
  asleep awake = false → w ∈ broadcast ws → asleep w = false.
Proof.
  intros Ha H. unfold broadcast in H. apply list_elem_of_fmap in H as (u & -> & _).
  by destruct (asleep u) eqn:E.
Qed.
End cond.

(** ** Runs *)
Section runs.
Context {S : Type} (R : relation S).

(** A relation that lowers a measure has no run longer than the measure. *)
Lemma measure_bound (m : S → nat) (I : S → Prop) :
  (∀ s s', I s → R s s' → I s' ∧ (m s' < m s)%nat) →
  ∀ n s s', I s → nsteps R n s s' → (n + m s' ≤ m s)%nat.
Proof.
  intros Hm n s s' Hi Hs. revert Hi.
  induction Hs as [|n x y z Hxy _ IH]; intros Hi; [lia|].
  destruct (Hm x y Hi Hxy) as [Hy Hlt]. specialize (IH Hy). lia.
Qed.

Lemma invariant_rtc (I : S → Prop) :
  (∀ s s', I s → R s s' → I s') → ∀ s s', rtc R s s' → I s → I s'.
Proof. intros Hi s s'. induction 1; eauto. Qed.
End runs.
