(* ===== verification/ThreadPool.v ===== *)
(** * ThreadPool: the bounded pool of [threadpool/threadpool.c]

    The pool that runs the reads of a build with [-DCONCURRENT]: a ring of
    tasks under one mutex, worker threads that sleep on the condition
    variable [notify], and a graceful or an immediate shutdown.  The steps of
    the workers and of the callers interleave freely (see [Threads]).  What
    a task does is not part of the model; the lists [accepted], [taken] and
    [finished] record which tasks went through which stage. *)
From Stdlib Require Import ZArith Lia.
From stdpp Require Import base numbers list strings relations.
From S2P Require Import Prelude Threads.

Section ThreadPool.
Context {T : Type}.

(** ** State *)

(** [threadpool_t]; a cell of the ring that was never written is [None], and
    [tp_lock] tells whether a caller has left with the mutex held. *)
Record threadpool_t : Type := mkTp {
  tp_queue : list (option T);
  tp_queue_size : nat;
  tp_head : nat;
  tp_tail : nat;
  tp_count : nat;
  tp_shutdown : Z;
  tp_thread_count : nat;
  tp_started : nat;
  tp_lock : bool
}.

Definition immediate_shutdown : Z := 1.
Definition graceful_shutdown : Z := 2.
Definition threadpool_graceful : Z := 1.
Definition threadpool_shutdown : Z := -4.
Definition MAX_THREADS : Z := 64.
Definition MAX_QUEUE : Z := 65536.

(** The places of a worker: before the lock, in [pthread_cond_wait], running
    a task, after [pthread_exit]. *)
Inductive worker : Type :=
  | Top
  | Sleeping
  | Running (t : T)
  | Exited.

Definition sleeping (w : worker) : bool := match w with Sleeping => true | _ => false end.

(** ** Operations *)

(** [threadpool_create(thread_count, queue_size)], with memory and threads
    available: the pool and its workers. *)
Definition threadpool_create (thread_count queue_size : Z) : option (threadpool_t * list worker) :=
  if (thread_count <=? 0) || (MAX_THREADS <? thread_count)
     || (queue_size <=? 0) || (MAX_QUEUE <? queue_size)
  then None
  else Some (mkTp (replicate (Z.to_nat queue_size) None) (Z.to_nat queue_size) 0 0 0 0
               (Z.to_nat thread_count) (Z.to_nat thread_count) false,
             replicate (Z.to_nat thread_count) Top).

(** [threadpool_add(pool, function, argument)] with the mutex taken: the
    return value, whether [notify] is signalled, and the pool.  When the
    queue is full, [continue] goes to the condition of [do ... while(0)]. *)
Definition threadpool_add (p : threadpool_t) (t : T) : Z * bool * threadpool_t :=
  let next := ((tp_tail p + 1) mod tp_queue_size p)%nat in
  if bool_decide (tp_count p = tp_queue_size p) then (0, false, p)
  else if negb (tp_shutdown p =? 0) then (threadpool_shutdown, false, p)
  else (0, true,
        mkTp (<[tp_tail p := Some t]> (tp_queue p)) (tp_queue_size p) (tp_head p) next
          (tp_count p + 1) (tp_shutdown p) (tp_thread_count p) (tp_started p) (tp_lock p)).

(** [threadpool_thread] from the lock to the next wait, exit or task. *)
Definition threadpool_turn (p : threadpool_t) : outcome (worker * threadpool_t) :=
  if bool_decide (tp_count p = 0%nat) && (tp_shutdown p =? 0) then Ok (Sleeping, p)
  else if (tp_shutdown p =? immediate_shutdown)
          || ((tp_shutdown p =? graceful_shutdown) && bool_decide (tp_count p = 0%nat))
  then Ok (Exited,
           mkTp (tp_queue p) (tp_queue_size p) (tp_head p) (tp_tail p) (tp_count p)
             (tp_shutdown p) (tp_thread_count p) (tp_started p - 1) (tp_lock p))
  else match tp_queue p !! tp_head p with
       | Some (Some t) =>
           Ok (Running t,
               mkTp (tp_queue p) (tp_queue_size p) ((tp_head p + 1) mod tp_queue_size p)%nat
                 (tp_tail p) (tp_count p - 1) (tp_shutdown p) (tp_thread_count p)
                 (tp_started p) (tp_lock p))
       | _ => Fault "task was never written"
       end.

(** [threadpool_destroy(pool, flags)] up to [pthread_join]: the error and the
    pool.  A second call returns with the mutex held. *)
Definition threadpool_destroy (p : threadpool_t) (flags : Z) : Z * threadpool_t :=
  if negb (tp_shutdown p =? 0)
  then (threadpool_shutdown,
        mkTp (tp_queue p) (tp_queue_size p) (tp_head p) (tp_tail p) (tp_count p)
          (tp_shutdown p) (tp_thread_count p) (tp_started p) true)
  else (0,
        mkTp (tp_queue p) (tp_queue_size p) (tp_head p) (tp_tail p) (tp_count p)
          (if negb (Z.land flags threadpool_graceful =? 0) then graceful_shutdown
           else immediate_shutdown)
          (tp_thread_count p) (tp_started p) (tp_lock p)).

(** [threadpool_free(pool)]: [None] when the pool was freed. *)
Definition threadpool_free (p : threadpool_t) : Z * option threadpool_t :=
  if (0 <? Z.of_nat (tp_started p)) then (-1, Some p) else (0, None).

Definition threadpool_queuesize (p : threadpool_t) : nat := tp_count p.

(** ** Interleavings *)
Record sys : Type := mkSys {
  pl : threadpool_t;
  workers : list worker;
  accepted : list T;
  taken : list T;
  finished : list T
}.

Definition with_workers (ws : list worker) (s : sys) : sys :=
  mkSys (pl s) ws (accepted s) (taken s) (finished s).

(** The steps of the workers. *)
Inductive wstep : sys → sys → Prop :=
  | st_turn s i w p :
      tp_lock (pl s) = false → workers s !! i = Some Top → threadpool_turn (pl s) = Ok (w, p) →
      wstep s (mkSys p (<[i := w]> (workers s)) (accepted s)
                 (taken s ++ match w with Running t => [t] | _ => [] end) (finished s))
  | st_finish s i t :
      workers s !! i = Some (Running t) →
      wstep s (mkSys (pl s) (<[i := Top]> (workers s)) (accepted s) (taken s) (finished s ++ [t])).

(** The steps of the callers, and a wake-up without a signal. *)
Inductive step : sys → sys → Prop :=
  | st_worker s s' : wstep s s' → step s s'
  | st_add s t ret p ws :
      tp_lock (pl s) = false → threadpool_add (pl s) t = (ret, true, p) →
      signal sleeping Top (workers s) ws →
      step s (mkSys p ws (accepted s ++ [t]) (taken s) (finished s))
  | st_refused s t ret p :
      tp_lock (pl s) = false → threadpool_add (pl s) t = (ret, false, p) →
      step s (mkSys p (workers s) (accepted s) (taken s) (finished s))
  | st_destroy s flags ret p :
      tp_lock (pl s) = false → threadpool_destroy (pl s) flags = (ret, p) →
      step s (mkSys p (if ret =? 0 then broadcast sleeping Top (workers s) else workers s)
                (accepted s) (taken s) (finished s))
  | st_spurious s i :
      workers s !! i = Some Sleeping →
      step s (with_workers (<[i := Top]> (workers s)) s).

(** ** The ring *)

(** The cells from the head on, [tp_count] of them. *)
Definition pending (p : threadpool_t) : list (option T) :=
  (λ i, tp_queue p !!! ((tp_head p + i) mod tp_queue_size p)%nat) <$> seq 0 (tp_count p).

Record ring_ok (p : threadpool_t) : Prop := {
  ring_len : length (tp_queue p) = tp_queue_size p;
  ring_head : (tp_head p < tp_queue_size p)%nat;
  ring_count : (tp_count p ≤ tp_queue_size p)%nat;
  ring_tail : tp_tail p = ((tp_head p + tp_count p) mod tp_queue_size p)%nat
}.

Lemma ring_mod (a n : nat) :
  (a < 2 * n)%nat → (a mod n)%nat = if (a <? n)%nat then a else (a - n)%nat.
Proof.
  intros H. destruct (Nat.ltb_spec a n); [by apply Nat.mod_small|].
  replace a with ((a - n) + 1 * n)%nat at 1 by lia.
  rewrite Nat.Div0.mod_add. apply Nat.mod_small. lia.
Qed.

Lemma pending_cell p c :
  ring_ok p → (tp_count p < tp_queue_size p)%nat → ∀ p',
  tp_queue p' = <[tp_tail p := c]> (tp_queue p) → tp_queue_size p' = tp_queue_size p →
  tp_head p' = tp_head p → tp_count p' = (tp_count p + 1)%nat →
  pending p' = pending p ++ [c].
Proof.
  intros [Hl Hh Hc Ht] Hlt p' E1 E2 E3 E4. unfold pending.
  rewrite E1, E2, E3, E4, seq_app, fmap_app. f_equal.
  - apply list_fmap_ext. intros i x Hx. apply lookup_seq in Hx as [-> Hx].
    rewrite list_lookup_total_insert_ne; [done|]. rewrite Ht, !ring_mod by lia.
    destruct (Nat.ltb_spec (tp_head p + tp_count p) (tp_queue_size p)),
      (Nat.ltb_spec (tp_head p + (0 + i)) (tp_queue_size p)); lia.
  - simpl. rewrite <- Ht. f_equal. apply list_lookup_total_insert_eq.
    rewrite Hl, Ht. apply Nat.mod_upper_bound. lia.
Qed.

Lemma add_ring p t ret p' :
  ring_ok p → threadpool_add p t = (ret, true, p') →
  ret = 0 ∧ ring_ok p' ∧ pending p' = pending p ++ [Some t] ∧ tp_shutdown p = 0
  ∧ tp_shutdown p' = 0 ∧ tp_started p' = tp_started p ∧ (0 < tp_count p')%nat
  ∧ tp_lock p' = tp_lock p.
Proof.
  intros Hr. unfold threadpool_add. case_bool_decide as Ec; [done|].
  destruct (Z.eqb_spec (tp_shutdown p) 0) as [Es|]; simpl; [|done]. intros [= <- <-].
  split; [done|]. pose proof Hr as [Hl Hh Hc Ht]. split.
  - split; simpl; [by rewrite length_insert|done|lia|].
    rewrite Ht, Nat.Div0.add_mod_idemp_l. f_equal. lia.
  - split; [by eapply pending_cell; [|lia|..]|]. simpl. repeat split; [done..|lia].
Qed.

Lemma pending_length p : length (pending p) = tp_count p.
Proof. unfold pending. by rewrite length_fmap, length_seq. Qed.

Definition shutdown_ok (p : threadpool_t) : Prop :=
  tp_shutdown p = 0 ∨ tp_shutdown p = immediate_shutdown ∨ tp_shutdown p = graceful_shutdown.

(** The pool without the task at the head. *)
Lemma pending_take p c q p' :
  ring_ok p → pending p = c :: q →
  tp_queue p' = tp_queue p → tp_queue_size p' = tp_queue_size p →
  tp_head p' = ((tp_head p + 1) mod tp_queue_size p)%nat → tp_tail p' = tp_tail p →
  tp_count p' = (tp_count p - 1)%nat →
  tp_queue p !! tp_head p = Some c ∧ ring_ok p' ∧ pending p' = q.
Proof.
  intros [Hl Hh Hc Ht] Hq E1 E2 E3 E4 E5. pose proof (pending_length p) as Hlen.
  rewrite Hq in Hlen. simpl in Hlen. unfold pending in Hq. rewrite <- Hlen in Hq. simpl in Hq.
  injection Hq as Hcell Hq. rewrite Nat.add_0_r, Nat.mod_small in Hcell by done. split; [|split].
  - rewrite <- Hcell. apply list_lookup_lookup_total_lt. lia.
  - split; rewrite ?E1, ?E2, ?E3, ?E4, ?E5; [done|apply Nat.mod_upper_bound; lia|lia|].
    rewrite Ht, Nat.Div0.add_mod_idemp_l. f_equal. lia.
  - rewrite <- Hq. unfold pending. rewrite E1, E2, E3, E5, <- Hlen, Nat.sub_1_r. simpl.
    rewrite <- (fmap_S_seq 0), <- list_fmap_compose. apply list_fmap_ext. intros i x _.
    simpl. rewrite Nat.Div0.add_mod_idemp_l. do 2 f_equal. lia.
Qed.

(** A turn of a worker never reads a cell that was not written. *)
Lemma turn_ring p q :
  ring_ok p → shutdown_ok p → pending p = Some <$> q →
  ∃ w p', threadpool_turn p = Ok (w, p')
    ∧ ring_ok p' ∧ tp_shutdown p' = tp_shutdown p ∧ tp_lock p' = tp_lock p
    ∧ match w with
      | Running t => tp_started p' = tp_started p ∧ tp_shutdown p ≠ immediate_shutdown
          ∧ ∃ q', q = t :: q' ∧ pending p' = Some <$> q'
      | Sleeping => p' = p ∧ q = [] ∧ tp_shutdown p = 0
      | Exited => tp_started p' = (tp_started p - 1)%nat ∧ pending p' = pending p
          ∧ tp_shutdown p ≠ 0 ∧ (tp_shutdown p = immediate_shutdown ∨ q = [])
      | Top => False
      end.
Proof.
  intros Hr Hs Hq. pose proof (pending_length p) as Hlen. rewrite Hq, length_fmap in Hlen.
  pose proof Hr as [Hl Hh Hc Ht].
  unfold threadpool_turn, shutdown_ok, immediate_shutdown, graceful_shutdown in *.
  destruct q as [|t q]; simpl in Hlen.
  - rewrite bool_decide_eq_true_2 by done. simpl.
    destruct Hs as [Hs|[Hs|Hs]]; rewrite Hs; simpl; eexists _, _; (split; [done|]); simpl;
      rewrite ?Hs; (split; [by split|]); repeat split; auto; by right.
  - rewrite bool_decide_eq_false_2 by lia. simpl. rewrite andb_false_r, orb_false_r.
    destruct (Z.eqb_spec (tp_shutdown p) 1) as [Ei|Ei].
    + eexists _, _. split; [done|]. split; [by split|]. repeat split; simpl; [lia|by left].
    + set (p' := mkTp (tp_queue p) (tp_queue_size p) ((tp_head p + 1) mod tp_queue_size p)%nat
                   (tp_tail p) (tp_count p - 1) (tp_shutdown p) (tp_thread_count p)
                   (tp_started p) (tp_lock p)).
      destruct (pending_take p (Some t) (Some <$> q) p') as (-> & Hr' & Hp'); try done.
      exists (Running t), p'. split; [done|]. split; [exact Hr'|]. repeat split; [done|]. by exists q.
Qed.

(** ** The invariant of all interleavings *)
Definition running (w : worker) : list T := match w with Running t => [t] | _ => [] end.
Definition live (w : worker) : nat := match w with Exited => 0 | _ => 1 end.
Definition active (w : worker) : Prop := match w with Top | Running _ => True | _ => False end.

Definition some_active (ws : list worker) : Prop := ∃ i w, ws !! i = Some w ∧ active w.

Record inv (s : sys) : Prop := {
  inv_ring : ring_ok (pl s);
  inv_shutdown : shutdown_ok (pl s);
  (** first in, first out: the ring holds what was accepted and not taken *)
  inv_fifo : ∃ q, pending (pl s) = Some <$> q ∧ accepted s = taken s ++ q;
  (** a task that was taken is finished or running *)
  inv_taken : taken s ≡ₚ finished s ++ held running (workers s);
  inv_started : tp_started (pl s) = total live (workers s);
  (** no wake-up is lost *)
  inv_awake : tp_shutdown (pl s) ≠ immediate_shutdown → (0 < tp_count (pl s))%nat →
              some_active (workers s);
  inv_sleep : tp_shutdown (pl s) ≠ 0 → ∀ w, w ∈ workers s → sleeping w = false;
  inv_exit : tp_shutdown (pl s) = 0 → ∀ w, w ∈ workers s → w ≠ Exited;
  inv_workers : workers s ≠ []
}.

Lemma fifo_count p q : pending p = Some <$> q → tp_count p = length q.
Proof. intros H. by rewrite <- pending_length, H, length_fmap. Qed.

Lemma some_active_insert ws i w w' :
  ws !! i = Some w → active w' ∨ (¬ active w ∧ some_active ws) → some_active (<[i := w']> ws).
Proof.
  intros E [H|[Hw (j & u & Ej & Hu)]].
  - exists i, w'. split; [|done]. apply list_lookup_insert_eq. by eapply lookup_lt_Some.
  - exists j, u. split; [|done]. rewrite list_lookup_insert_ne; [done|]. intros ->. by simplify_eq.
Qed.

Lemma turn_inv s i w p :
  inv s → workers s !! i = Some Top → threadpool_turn (pl s) = Ok (w, p) →
  inv (mkSys p (<[i := w]> (workers s)) (accepted s)
         (taken s ++ match w with Running t => [t] | _ => [] end) (finished s)).
Proof.
  intros [Hr Hs (q & Hq & Ha) Ht Hst Haw Hsl Hex Hne] Ei Et.
  destruct (turn_ring _ _ Hr Hs Hq) as (w0 & p0 & Et0 & Hr' & Es & El & Hw).
  rewrite Et in Et0. injection Et0 as <- <-.
  pose proof (total_insert live _ _ _ w Ei) as Htot. simpl in Htot.
  pose proof (held_insert running _ _ _ w Ei) as Hheld. simpl in Hheld.
  assert (Hs' : shutdown_ok p) by (unfold shutdown_ok in *; by rewrite Es).
  destruct w as [| |t|]; [done|..]; split; simpl in *; rewrite ?Es; try done;
    try (by apply insert_ne); try (by (intros Hsd u [Hu| ->]%insert_elem; auto)).
  - destruct Hw as (-> & -> & _). exists []. split; [done|]. by rewrite Ha, !app_nil_r.
  - by rewrite app_nil_r, Hheld.
  - destruct Hw as (-> & _). lia.
  - destruct Hw as (-> & -> & _). intros _ Hc. rewrite (fifo_count _ _ Hq) in Hc. simpl in Hc. lia.
  - by destruct Hw as (_ & _ & ->).
  - destruct Hw as (_ & _ & q' & -> & Hp'). exists q'. split; [done|].
    by rewrite Ha, <- app_assoc.
  - rewrite Ht, Hheld. by rewrite <- (app_assoc (finished s)), (Permutation_app_comm (held _ _)).
  - destruct Hw as (-> & _). lia.
  - intros _ _. eapply some_active_insert; [exact Ei|by left].
  - exists q. rewrite app_nil_r. destruct Hw as (_ & -> & _). done.
  - by rewrite app_nil_r, Hheld.
  - destruct Hw as (-> & _). lia.
  - intros Him Hc. destruct Hw as (_ & Hp & _ & [|Hnil]); [done|]. subst q.
    rewrite Hq in Hp. rewrite (fifo_count _ _ Hp) in Hc. simpl in Hc. lia.
  - destruct Hw as (_ & _ & H0 & _). done.
Qed.

Lemma finish_inv s i t :
  inv s → workers s !! i = Some (Running t) →
  inv (mkSys (pl s) (<[i := Top]> (workers s)) (accepted s) (taken s) (finished s ++ [t])).
Proof.
  intros [Hr Hs Hf Ht Hst Haw Hsl Hex Hne] Ei.
  pose proof (total_insert live _ _ _ Top Ei) as Htot. simpl in Htot.
  pose proof (held_insert running _ _ _ Top Ei) as Hheld. simpl in Hheld.
  split; simpl; try done; [|lia|..].
  - by rewrite Ht, <- app_assoc, Hheld.
  - intros _ _. eapply some_active_insert; [exact Ei|by left].
  - intros Hsd u [Hu| ->]%insert_elem; auto.
  - intros Hsd u [Hu| ->]%insert_elem; auto.
  - by apply insert_ne.
Qed.

Lemma wake_inv s i :
  inv s → workers s !! i = Some Sleeping → inv (with_workers (<[i := Top]> (workers s)) s).
Proof.
  intros [Hr Hs Hf Ht Hst Haw Hsl Hex Hne] Ei.
  pose proof (total_insert live _ _ _ Top Ei) as Htot. simpl in Htot.
  pose proof (held_insert running _ _ _ Top Ei) as Hheld. simpl in Hheld.
  split; simpl; try done; [|lia|..].
  - by rewrite Ht, Hheld.
  - intros _ _. eapply some_active_insert; [exact Ei|by left].
  - intros Hsd u [Hu| ->]%insert_elem; auto.
  - intros Hsd u [Hu| ->]%insert_elem; auto.
  - by apply insert_ne.
Qed.

Lemma not_asleep_active w : sleeping w = false → w ≠ Exited → active w.
Proof. by destruct w. Qed.

Lemma add_inv s t ret p ws :
  inv s → threadpool_add (pl s) t = (ret, true, p) → signal sleeping Top (workers s) ws →
  inv (mkSys p ws (accepted s ++ [t]) (taken s) (finished s)).
Proof.
  intros [Hr Hs (q & Hq & Ha) Ht Hst Haw Hsl Hex Hne] Ea Hsig.
  destruct (add_ring _ _ _ _ Hr Ea) as (-> & Hr' & Hp & Hs0 & Hs1 & Hst' & Hc & _).
  assert (Hex' : ∀ w, w ∈ ws → w ≠ Exited).
  { intros w Hw. by destruct (signal_elem _ _ _ _ _ Hsig Hw) as [H| ->]; [apply Hex|]. }
  split; simpl; try done.
  - by left.
  - exists (q ++ [t]). rewrite fmap_app, <- Hq. split; [done|]. by rewrite Ha, <- app_assoc.
  - rewrite Ht. f_equiv. symmetry. eapply (signal_held sleeping Top); [|done|exact Hsig]. by intros [].
  - rewrite Hst', Hst. symmetry. eapply signal_same; [|exact Hsig]. by intros [].
  - intros _ _. destruct (signal_awake sleeping Top _ _ eq_refl Hsig Hne) as (i & w & Ei & Hw).
    exists i, w. split; [done|]. apply not_asleep_active; [done|]. apply Hex'.
    by eapply list_elem_of_lookup_2.
  - intros ->. apply Hne. apply nil_length_inv. by rewrite <- (signal_length _ _ _ _ Hsig).
Qed.

Lemma destroy_inv s flags ret p :
  inv s → threadpool_destroy (pl s) flags = (ret, p) →
  inv (mkSys p (if ret =? 0 then broadcast sleeping Top (workers s) else workers s)
         (accepted s) (taken s) (finished s)).
Proof.
  intros [Hr Hs Hf Ht Hst Haw Hsl Hex Hne]. unfold threadpool_destroy.
  destruct (Z.eqb_spec (tp_shutdown (pl s)) 0) as [E0|E0]; simpl.
  2: { intros [= <- <-]. split; simpl; try done. destruct Hr. by split. }
  intros [= <- <-]. simpl. set (sd := if _ : bool then graceful_shutdown else immediate_shutdown).
  assert (Hsd : sd = immediate_shutdown ∨ sd = graceful_shutdown)
    by (subst sd; destruct (negb _); auto).
  assert (sd ≠ 0) by (unfold immediate_shutdown, graceful_shutdown in Hsd; lia).
  split; simpl; try done.
  - destruct Hr. by split.
  - unfold shutdown_ok. simpl. tauto.
  - rewrite Ht, broadcast_held; [done| |done]. by intros [].
  - rewrite Hst, broadcast_total; [done|]. by intros [].
  - intros _ Hc. destruct Haw as (i & w & Ei & Hw); [by rewrite E0|done|].
    exists i, w. split; [|done]. unfold broadcast. rewrite list_lookup_fmap, Ei. by destruct w.
  - intros _ w. by apply broadcast_awake.
  - unfold broadcast. by destruct (workers s).
Qed.

Lemma refused_same p t ret p' : threadpool_add p t = (ret, false, p') → p' = p.
Proof. unfold threadpool_add. repeat case_bool_decide; repeat case_if; congruence. Qed.

Lemma step_inv s s' : inv s → step s s' → inv s'.
Proof.
  intros Hi Hst. revert Hi. destruct Hst as [s0 s1 Hw|s0 t ret p ws _ Ea Hsig|s0 t ret p _ Ea
    |s0 flags ret p _ Ed|s0 i Ei]; [destruct Hw as [s2 i w p _ Ei Et|s2 i t Ei]|..]; intros Hi.
  - by apply turn_inv.
  - by apply finish_inv.
  - by eapply add_inv.
  - apply refused_same in Ea as ->. by destruct s0.
  - by eapply destroy_inv.
  - by apply wake_inv.
Qed.

Lemma create_inv nt qs p ws :
  threadpool_create nt qs = Some (p, ws) → inv (mkSys p ws [] [] []).
Proof.
  unfold threadpool_create. destruct (_ || _) eqn:E; [done|]. breflect. intros [= <- <-].
  split; simpl; try done.
  - split; simpl; [apply length_replicate|lia|lia|]. by rewrite Nat.Div0.mod_0_l.
  - by left.
  - by exists [].
  - rewrite held_nil; [done|]. by intros w [-> _]%elem_of_replicate.
  - clear. unfold total. induction (Z.to_nat nt); [done|]. simpl. lia.
  - lia.
  - by intros _ w [-> _]%elem_of_replicate.
  - intros Hn. apply (f_equal length) in Hn. rewrite length_replicate in Hn. simpl in Hn. lia.
Qed.

(** The states of a pool and its callers. *)
Definition reachable (nt qs : Z) (s : sys) : Prop :=
  ∃ p ws, threadpool_create nt qs = Some (p, ws) ∧ rtc step (mkSys p ws [] [] []) s.

Lemma reachable_inv nt qs s : reachable nt qs s → inv s.
Proof.
  intros (p & ws & E & Hr). apply create_inv in E. by eapply invariant_rtc; [apply step_inv|..].
Qed.

(** ** Progress *)
Definition weight (w : worker) : nat :=
  match w with Top => 1 | Running _ => 2 | Sleeping | Exited => 0 end.
Definition measure (s : sys) : nat := 3 * tp_count (pl s) + total weight (workers s).

Lemma wstep_measure s s' : inv s → wstep s s' → (measure s' < measure s)%nat.
Proof.
  intros Hi Hst. revert Hi. destruct Hst as [s0 i w p _ Ei Et|s0 i t Ei];
    intros [Hr Hs (q & Hq & Ha) _ _ _ _ _ _]; unfold measure; simpl.
  - destruct (turn_ring _ _ Hr Hs Hq) as (w0 & p0 & Et0 & Hr' & Es & El & Hw).
    rewrite Et in Et0. injection Et0 as <- <-.
    pose proof (total_insert weight _ _ _ w Ei) as Htot. simpl in Htot.
    pose proof (fifo_count _ _ Hq) as Hc. destruct w; simpl in Htot; [done|..].
    + destruct Hw as (-> & _). lia.
    + destruct Hw as (_ & _ & q' & -> & Hp). rewrite (fifo_count _ _ Hp). simpl in Hc. lia.
    + destruct Hw as (_ & Hp & _). rewrite Hq in Hp. rewrite (fifo_count _ _ Hp). lia.
  - pose proof (total_insert weight _ _ _ Top Ei) as Htot. simpl in Htot. lia.
Qed.

(** A worker that is neither asleep nor gone can go on. *)
Lemma active_steps s : inv s → tp_lock (pl s) = false → some_active (workers s) → ∃ s', wstep s s'.
Proof.
  intros [Hr Hs (q & Hq & Ha) _ _ _ _ _ _] Hl (i & w & Ei & Hw).
  destruct w as [| |t|]; try done.
  - destruct (turn_ring _ _ Hr Hs Hq) as (w0 & p0 & Et0 & _). eexists. by eapply st_turn.
  - eexists. by eapply st_finish.
Qed.

Lemma not_active_held ws : ¬ some_active ws → held running ws = [].
Proof.
  intros Hn. apply held_nil. intros w (i & Ei)%list_elem_of_lookup.
  destruct w; try done. exfalso. apply Hn. by exists i, (Running t).
Qed.

Lemma quiet_done s :
  inv s → ¬ some_active (workers s) → tp_shutdown (pl s) ≠ immediate_shutdown →
  finished s ≡ₚ accepted s ∧ tp_count (pl s) = 0%nat.
Proof.
  intros [Hr Hs (q & Hq & Ha) Ht _ Haw _ _ _] Hn Him.
  assert (Hc : tp_count (pl s) = 0%nat).
  { destruct (decide (0 < tp_count (pl s))%nat); [|lia]. exfalso. by apply Hn, Haw. }
  split; [|done]. rewrite (fifo_count _ _ Hq) in Hc. apply nil_length_inv in Hc as ->.
  rewrite Ha, app_nil_r, Ht, not_active_held by done. by rewrite app_nil_r.
Qed.

Lemma wstep_same s s' :
  wstep s s' → accepted s' = accepted s ∧ (inv s → tp_lock (pl s') = tp_lock (pl s)
    ∧ tp_shutdown (pl s') = tp_shutdown (pl s)).
Proof.
  intros [s0 i w p _ Ei Et|s0 i t Ei]; [|done]. simpl. split; [done|].
  intros [Hr Hs (q & Hq & _) _ _ _ _ _ _].
  destruct (turn_ring _ _ Hr Hs Hq) as (w0 & p0 & Et0 & _ & Es & El & _).
  rewrite Et in Et0. by injection Et0 as <- <-.
Qed.

Lemma wsteps_same s s' :
  rtc wstep s s' → inv s → inv s' ∧ accepted s' = accepted s
    ∧ tp_lock (pl s') = tp_lock (pl s) ∧ tp_shutdown (pl s') = tp_shutdown (pl s).
Proof.
  induction 1 as [s|s s1 s2 Hst _ IH]; intros Hi; [done|].
  destruct (wstep_same _ _ Hst) as [Ha Hl]. destruct (Hl Hi) as [El Es].
  destruct IH as (? & ? & ? & ?); [by eapply step_inv; [|apply st_worker]|]. by split_and!; [|congruence..].
Qed.

(** Only a [threadpool_destroy] of a pool that is shutting down already leaves
    the mutex taken. *)
Lemma step_lock s s' :
  inv s → step s s' → tp_lock (pl s') = true → tp_lock (pl s) = true ∨
    tp_shutdown (pl s) ≠ 0 ∧ ∃ flags, threadpool_destroy (pl s) flags = (threadpool_shutdown, pl s').
Proof.
  intros Hi Hst. pose proof (inv_ring s Hi) as Hr. revert Hi Hr.
  destruct Hst as [s0 s1 Hw|s0 t ret p ws Hl E _|s0 t ret p Hl E|s0 flags ret p Hl E|s0 i Ei]; simpl; intros Hi Hr Hl'.
  - destruct (wstep_same _ _ Hw) as [_ H]. destruct (H Hi) as [<- _]. by left.
  - apply add_ring in E as (_ & _ & _ & _ & _ & _ & _ & E); [|done]. left. congruence.
  - left. unfold threadpool_add in E. repeat case_bool_decide; repeat case_match; simplify_eq; congruence.
  - right. unfold threadpool_destroy in E. destruct (Z.eqb_spec (tp_shutdown (pl s0)) 0) as [|Hs]; simpl in E.
    + injection E as <- <-. simpl in Hl'. congruence.
    + split; [done|]. exists flags. unfold threadpool_destroy.
      destruct (Z.eqb_spec (tp_shutdown (pl s0)) 0); [done|]. simpl. by injection E as <- <-.
  - by left.
Qed.

(** ** Properties *)

(** C9: In every interleaving of the workers and the callers of threadpool.c
    tasks are taken from the ring in the order in which they were accepted,
    the workers can make only a bounded number of steps, and when they can
    make no more every accepted task has been run and the ring is empty,
    unless the pool is shut down immediately or the mutex was left taken; and
    the only step that leaves the mutex taken is a second threadpool_destroy,
    of a pool that is shutting down already (the finding at
    threadpool.c:232): queued tasks are never run after it
    (second_destroy_blocks). *)
Theorem pool_tasks_finish nt qs s :
  reachable nt qs s →
  (∃ q, accepted s = taken s ++ q ∧ length q = threadpool_queuesize (pl s))
  ∧ (∀ n s', nsteps wstep n s s' → (n ≤ measure s)%nat)
  ∧ (∀ s', rtc wstep s s' → (∀ s'', ¬ wstep s' s'') →
       tp_lock (pl s) = false → tp_shutdown (pl s) ≠ immediate_shutdown →
       finished s' ≡ₚ accepted s ∧ threadpool_queuesize (pl s') = 0%nat)
  ∧ (∀ s', step s s' → tp_lock (pl s') = true → tp_lock (pl s) = true ∨
       tp_shutdown (pl s) ≠ 0 ∧ ∃ flags, threadpool_destroy (pl s) flags = (threadpool_shutdown, pl s')).
Proof.
  intros Hr. apply reachable_inv in Hr as Hi. split_and!.
  - destruct Hi as [_ _ (q & Hq & Ha) _ _ _ _ _ _]. exists q. split; [done|].
    symmetry. by apply fifo_count.
  - intros n s' Hn. pose proof (measure_bound wstep measure inv) as Hb.
    specialize (Hb (λ a b Ha Hab, conj (step_inv a b Ha (st_worker a b Hab)) (wstep_measure a b Ha Hab))
                   n s s' Hi Hn). lia.
  - intros s' Hs Hstuck Hl Him. destruct (wsteps_same s s' Hs Hi) as (Hi' & <- & El & Es).
    apply quiet_done; [done| |by rewrite Es]. intros Hact.
    destruct (active_steps s' Hi') as [s'' Hs'']; [by rewrite El|done|]. by eapply Hstuck.
  - intros s'. by apply step_lock.
Qed.

(** When all workers have left a pool that is shut down gracefully, every
    accepted task has been run and [threadpool_free] frees the pool. *)
Theorem graceful_shutdown_complete nt qs s :
  reachable nt qs s → tp_shutdown (pl s) = graceful_shutdown →
  (∀ w, w ∈ workers s → w = Exited) →
  finished s ≡ₚ accepted s ∧ threadpool_free (pl s) = (0, None).
Proof.
  intros Hr Hg Hx. apply reachable_inv in Hr as Hi. split.
  - apply quiet_done; [done| |by rewrite Hg]. intros (i & w & Ei & Hw).
    apply list_elem_of_lookup_2, Hx in Ei. by subst.
  - unfold threadpool_free. rewrite (inv_started s Hi).
    assert (total live (workers s) = 0%nat) as ->; [|done].
    apply total_zero. by intros w ->%Hx.
Qed.

(** A task given to a full pool is lost although the call returns 0. *)
Theorem threadpool_add_full nt qs s t :
  reachable nt qs s → tp_lock (pl s) = false → tp_count (pl s) = tp_queue_size (pl s) →
  (∃ p, threadpool_add (pl s) t = (0, false, p)) ∧
  (∀ s', rtc wstep s s' → (∀ s'', ¬ wstep s' s'') →
     tp_shutdown (pl s) ≠ immediate_shutdown → finished s' ≡ₚ accepted s).
Proof.
  intros Hr Hl Hf. split.
  - exists (pl s). unfold threadpool_add. by rewrite bool_decide_eq_true_2.
  - intros s' Hs Hstuck Him. apply reachable_inv in Hr as Hi.
    destruct (wsteps_same s s' Hs Hi) as (Hi' & <- & El & Es).
    apply quiet_done; [done| |by rewrite Es]. intros Hact.
    destruct (active_steps s' Hi') as [s'' Hs'']; [by rewrite El|done|]. by eapply Hstuck.
Qed.

(** A second [threadpool_destroy] leaves the mutex taken: no worker gets past
    its lock any more. *)
Theorem second_destroy_blocks (p : threadpool_t) flags :
  tp_shutdown p ≠ 0 →
  ∃ p', threadpool_destroy p flags = (threadpool_shutdown, p') ∧ tp_lock p' = true
    ∧ ∀ ws a k f s', wstep (mkSys p' ws a k f) s' → ∃ i t, ws !! i = Some (Running t).
Proof.
  intros Hs. unfold threadpool_destroy. destruct (Z.eqb_spec (tp_shutdown p) 0); [done|].
  eexists. split; [done|]. split; [done|]. intros ws a k f s' Hw.
  inversion Hw as [? ? ? ? El|? i t Ei]; subst; [done|by exists i, t].
Qed.
End ThreadPool.
Arguments threadpool_t : clear implicits.
Arguments worker : clear implicits.
Arguments sys : clear implicits.

(** A pool with one worker and one task, which the worker has taken. *)
Definition busy_pool : sys nat :=
  mkSys (mkTp [Some 7%nat; None] 2 1 1 0 0 1 1 false) [Running 7%nat] [7%nat] [7%nat] [].

Lemma busy_reachable : reachable 1 2 busy_pool.
Proof.
  eexists _, _. split; [reflexivity|].
  eapply rtc_l; [eapply (st_add _ 7%nat); [reflexivity|reflexivity|]|].
  { apply signal_none. simpl. intros w [->|Hw]%elem_of_cons; [done|by apply elem_of_nil in Hw]. }
  eapply rtc_l; [apply st_worker; eapply (st_turn _ 0); [reflexivity|reflexivity|reflexivity]|].
  apply rtc_refl.
Qed.

Lemma pool_tasks_finish_witness :
  reachable 1 2 busy_pool
  ∧ (∀ n s', nsteps wstep n busy_pool s' → (n ≤ 2)%nat)
  ∧ (∀ s', rtc wstep busy_pool s' → (∀ s'', ¬ wstep s' s'') → finished s' ≡ₚ [7%nat]).
Proof.
  destruct (pool_tasks_finish 1 2 busy_pool busy_reachable) as (_ & Hn & Hf & _).
  split; [exact busy_reachable|]. split; [exact Hn|].
  intros s' Hs Hstuck. by apply (Hf s' Hs Hstuck).
Defined.
