(* ===== verification/Thpool.v ===== *)
(** * Thpool: the job pool of [threadpool/thpool.c]

    The pool that runs the writes of a build with [-DCONCURRENT]: a linked
    queue of jobs under [rwmutex], a binary semaphore [has_jobs] for the
    worker threads, and the counters under [thcount_lock] that [thpool_wait]
    sleeps on.  A place of a thread is a point where it holds no mutex, or
    the [rwmutex] only: [bsem_post] is called with that mutex held, and other
    threads run in between.  [pushed], [pulled] and [finished] record the
    jobs that went through each stage; what a job does is a parameter. *)
From Stdlib Require Import ZArith Lia.
From stdpp Require Import base numbers list gmap strings relations.
From S2P Require Import Prelude Threads.

Section Thpool.
Context {J : Type}.

(** ** The job queue *)

(** [struct job]: the function and its argument are the payload. *)
Record job : Type := mkJob { prev : option nat; payload : J }.

(** [struct jobqueue] with the jobs allocated and the next address. *)
Record jobqueue : Type := mkQueue {
  jobs : gmap nat job;
  fresh_job : nat;
  front : option nat;
  rear : option nat;
  len : nat
}.

(** [jobqueue_init]. *)
Definition jobqueue_init : jobqueue := mkQueue ∅ 0 None None 0.

(** [malloc] of a job and the stores of [thpool_add_work]. *)
Definition new_job (j : J) (q : jobqueue) : nat * jobqueue :=
  (fresh_job q, mkQueue (<[fresh_job q := mkJob None j]> (jobs q)) (S (fresh_job q))
                  (front q) (rear q) (len q)).

(** [jobqueue_push(q, newjob)] up to [bsem_post]. *)
Definition jobqueue_push (newjob : nat) (q : jobqueue) : outcome jobqueue :=
  match jobs q !! newjob with
  | None => Fault "newjob is not allocated"
  | Some c =>
      let js := <[newjob := mkJob None (payload c)]> (jobs q) in
      match len q with
      | O => Ok (mkQueue js (fresh_job q) (Some newjob) (Some newjob) 1)
      | S n =>
          match rear q with
          | None => Fault "rear is null"
          | Some r =>
              match js !! r with
              | None => Fault "rear is not allocated"
              | Some cr =>
                  Ok (mkQueue (<[r := mkJob (Some newjob) (payload cr)]> js) (fresh_job q)
                        (front q) (Some newjob) (S (S n)))
              end
          end
      end
  end.

(** [jobqueue_pull(q)]: the job, whether [has_jobs] is posted, the queue. *)
Definition jobqueue_pull (q : jobqueue) : outcome (option nat * bool * jobqueue) :=
  let job_p := front q in
  match len q with
  | O => Ok (job_p, false, q)
  | S O => Ok (job_p, false, mkQueue (jobs q) (fresh_job q) None None 0)
  | S n =>
      match job_p ≫= λ i, jobs q !! i with
      | None => Fault "front is not allocated"
      | Some c => Ok (job_p, true, mkQueue (jobs q) (fresh_job q) (prev c) (rear q) n)
      end
  end.

(** [free(job_p)]. *)
Definition free_job (i : nat) (q : jobqueue) : jobqueue :=
  mkQueue (delete i (jobs q)) (fresh_job q) (front q) (rear q) (len q).

(** [jobqueue_clear(q)]: pull and free until the queue is empty. *)
Fixpoint jobqueue_clear (fuel : nat) (q : jobqueue) : outcome jobqueue :=
  match len q, fuel with
  | O, _ => Ok (mkQueue (jobs q) (fresh_job q) None None 0)
  | S _, O => NoFuel
  | S _, S fuel =>
      '(job_p, _, q') ← jobqueue_pull q;
      jobqueue_clear fuel (match job_p with Some i => free_job i q' | None => q' end)
  end.

(** ** Threads *)

(** The places of [thread_do]: before the count of living threads, at the
    test of [threads_keepalive], at the lock of [bsem_wait], waiting in it,
    after it, before and after [num_threads_working++], with a job pulled and
    [bsem_post] to do, running the job [j] at the address [i], before
    [num_threads_working--], after the loop, ended. *)
Inductive worker : Type :=
  | Start | Loop | Check | Asleep | Token | Enter | Work
  | Post (i : nat) (j : J) | Run (i : nat) (j : J) | Done | Leave | Gone.

(** A caller: outside the pool, in [jobqueue_push] before [bsem_post], at the
    test of [thpool_wait], waiting in it. *)
Inductive client : Type := Idle | Posting | Waiting | Dozing.

Definition asleep (w : worker) : bool := match w with Asleep => true | _ => false end.
Definition dozing (c : client) : bool := match c with Dozing => true | _ => false end.

Record pool : Type := mkPool {
  queue : jobqueue;
  has_jobs : nat;
  rwmutex : bool;
  num_threads_working : nat;
  num_threads_alive : nat;
  threads_keepalive : bool;
  workers : list worker;
  clients : list client;
  pushed : list J;
  pulled : list J;
  finished : list J
}.

(** [thpool_init(n)] when all threads are created, with [m] callers. *)
Definition thpool_init (n m : nat) : pool :=
  mkPool jobqueue_init 0 false 0 0 true (replicate n Start) (replicate m Idle) [] [] [].

(** The test of [thpool_wait]. *)
Definition pool_idle (s : pool) : bool :=
  bool_decide (len (queue s) = 0%nat ∧ num_threads_working s = 0%nat).

(** Updates. *)
Definition set_worker (i : nat) (w : worker) (s : pool) : pool :=
  mkPool (queue s) (has_jobs s) (rwmutex s) (num_threads_working s) (num_threads_alive s)
    (threads_keepalive s) (<[i := w]> (workers s)) (clients s) (pushed s) (pulled s) (finished s).
Definition set_client (i : nat) (c : client) (s : pool) : pool :=
  mkPool (queue s) (has_jobs s) (rwmutex s) (num_threads_working s) (num_threads_alive s)
    (threads_keepalive s) (workers s) (<[i := c]> (clients s)) (pushed s) (pulled s) (finished s).
Definition set_has_jobs (v : nat) (s : pool) : pool :=
  mkPool (queue s) v (rwmutex s) (num_threads_working s) (num_threads_alive s)
    (threads_keepalive s) (workers s) (clients s) (pushed s) (pulled s) (finished s).
Definition set_counts (working alive : nat) (s : pool) : pool :=
  mkPool (queue s) (has_jobs s) (rwmutex s) working alive
    (threads_keepalive s) (workers s) (clients s) (pushed s) (pulled s) (finished s).
Definition set_clients (cs : list client) (s : pool) : pool :=
  mkPool (queue s) (has_jobs s) (rwmutex s) (num_threads_working s) (num_threads_alive s)
    (threads_keepalive s) (workers s) cs (pushed s) (pulled s) (finished s).

(** [bsem_post(has_jobs)] as the last thing under [rwmutex]: [ws] are the
    workers after the signal. *)
Definition posted (ws : list worker) (s : pool) : pool :=
  mkPool (queue s) 1 false (num_threads_working s) (num_threads_alive s)
    (threads_keepalive s) ws (clients s) (pushed s) (pulled s) (finished s).

(** A job taken from the queue by the worker [i], which goes on at [w]. *)
Definition took (i : nat) (w : worker) (rw : bool) (js : list J) (q : jobqueue) (s : pool) : pool :=
  mkPool q (has_jobs s) rw (num_threads_working s) (num_threads_alive s)
    (threads_keepalive s) (<[i := w]> (workers s)) (clients s) (pushed s) (pulled s ++ js) (finished s).

(** ** Steps

    The steps of threads that are inside the pool. *)
Inductive istep : pool → pool → Prop :=
  | w_start s i :
      workers s !! i = Some Start →
      istep s (set_counts (num_threads_working s) (num_threads_alive s + 1) (set_worker i Loop s))
  | w_loop s i :
      workers s !! i = Some Loop →
      istep s (set_worker i (if threads_keepalive s then Check else Leave) s)
  | w_check s i :
      workers s !! i = Some Check → has_jobs s = 1%nat →
      istep s (set_has_jobs 0 (set_worker i Token s))
  | w_sleep s i :
      workers s !! i = Some Check → has_jobs s ≠ 1%nat →
      istep s (set_worker i Asleep s)
  | w_token s i :
      workers s !! i = Some Token →
      istep s (set_worker i (if threads_keepalive s then Enter else Loop) s)
  | w_enter s i :
      workers s !! i = Some Enter →
      istep s (set_counts (num_threads_working s + 1) (num_threads_alive s) (set_worker i Work s))
  | w_nojob s i b q :
      workers s !! i = Some Work → rwmutex s = false →
      jobqueue_pull (queue s) = Ok (None, b, q) →
      istep s (took i Done false [] q s)
  | w_pull s i a c b q :
      workers s !! i = Some Work → rwmutex s = false →
      jobqueue_pull (queue s) = Ok (Some a, b, q) → jobs q !! a = Some c →
      istep s (took i (if b : bool then Post a (payload c) else Run a (payload c)) b
                 [payload c] q s)
  | w_post s i a j ws :
      workers s !! i = Some (Post a j) →
      signal asleep Check (<[i := Run a j]> (workers s)) ws →
      istep s (posted ws s)
  | w_run s i a j :
      workers s !! i = Some (Run a j) →
      istep s (mkPool (free_job a (queue s)) (has_jobs s) (rwmutex s) (num_threads_working s)
                 (num_threads_alive s) (threads_keepalive s) (<[i := Done]> (workers s))
                 (clients s) (pushed s) (pulled s) (finished s ++ [j]))
  | w_done s i cs :
      workers s !! i = Some Done →
      (if bool_decide (num_threads_working s - 1 = 0)%nat
       then signal dozing Waiting (clients s) cs else cs = clients s) →
      istep s (set_clients cs
                 (set_counts (num_threads_working s - 1) (num_threads_alive s) (set_worker i Loop s)))
  | w_leave s i :
      workers s !! i = Some Leave →
      istep s (set_counts (num_threads_working s) (num_threads_alive s - 1) (set_worker i Gone s))
  | c_post s i ws :
      clients s !! i = Some Posting →
      signal asleep Check (workers s) ws →
      istep s (posted ws (set_client i Idle s))
  | c_wait s i :
      clients s !! i = Some Waiting →
      istep s (set_client i (if pool_idle s then Idle else Dozing) s).

(** The steps from outside: [thpool_add_work] and [thpool_wait] begin, a
    thread wakes without a signal, [thpool_destroy]. *)
Inductive step : pool → pool → Prop :=
  | st_inside s s' : istep s s' → step s s'
  | st_add_work s i j a q q' :
      clients s !! i = Some Idle → rwmutex s = false →
      new_job j (queue s) = (a, q) → jobqueue_push a q = Ok q' →
      step s (mkPool q' (has_jobs s) true (num_threads_working s) (num_threads_alive s)
                (threads_keepalive s) (workers s) (<[i := Posting]> (clients s))
                (pushed s ++ [j]) (pulled s) (finished s))
  | st_wait s i :
      clients s !! i = Some Idle → step s (set_client i Waiting s)
  | st_spurious s i :
      workers s !! i = Some Asleep → step s (set_worker i Check s)
  | st_spurious_client s i :
      clients s !! i = Some Dozing → step s (set_client i Waiting s)
  | st_destroy s :
      step s (mkPool (queue s) (has_jobs s) (rwmutex s) (num_threads_working s)
                (num_threads_alive s) false (workers s) (clients s) (pushed s) (pulled s) (finished s))
  | st_post_all s :
      threads_keepalive s = false → num_threads_alive s ≠ 0%nat →
      step s (mkPool (queue s) 1 (rwmutex s) (num_threads_working s) (num_threads_alive s)
                false (broadcast asleep Check (workers s)) (clients s)
                (pushed s) (pulled s) (finished s)).
End Thpool.
Arguments job : clear implicits.
Arguments jobqueue : clear implicits.
Arguments worker : clear implicits.
Arguments pool : clear implicits.
