(* ===== verification/ThpoolOk.v ===== *)
(** * ThpoolOk: the job pool loses no job and no wake-up

    The linked queue implements a list, and an invariant of all interleavings
    of the workers and the callers gives that jobs leave in the order they
    came, that each is run once, that the test of [thpool_wait] holds only
    when all jobs have been run, and that the pool does not come to rest
    before that. *)
From Stdlib Require Import ZArith Lia.
From stdpp Require Import base numbers list gmap strings relations.
From S2P Require Import Prelude Threads Thpool.

Section queue.
Context {J : Type}.
Implicit Types (q : jobqueue J) (l : list (nat * J)).

(** Each job points to the one that was pushed after it. *)
Fixpoint linked (m : gmap nat (job J)) l : Prop :=
  match l with
  | [] => True
  | (i, j) :: l' => m !! i = Some (mkJob (fst <$> head l') j) ∧ linked m l'
  end.

Record qrep q l : Prop := {
  q_front : front q = fst <$> head l;
  q_rear : rear q = fst <$> last l;
  q_len : len q = length l;
  q_linked : linked (jobs q) l;
  q_nodup : NoDup l.*1;
  q_fresh : Forall (λ i, (i < fresh_job q)%nat) l.*1
}.

Lemma linked_insert m l a c : linked m l → a ∉ l.*1 → linked (<[a := c]> m) l.
Proof.
  induction l as [|[i j] l IH]; [done|]. csimpl. intros [Hi Hl] [Ha Hn]%not_elem_of_cons.
  split; [by rewrite lookup_insert_ne|by apply IH].
Qed.

Lemma linked_delete m l a : linked m l → a ∉ l.*1 → linked (delete a m) l.
Proof.
  induction l as [|[i j] l IH]; [done|]. csimpl. intros [Hi Hl] [Ha Hn]%not_elem_of_cons.
  split; [by rewrite lookup_delete_ne|by apply IH].
Qed.

Lemma linked_last m l r jr : linked m (l ++ [(r, jr)]) → m !! r = Some (mkJob None jr).
Proof. induction l as [|[i j] l IH]; [by intros [? _]|]. intros [_ H]. by apply IH. Qed.

Lemma linked_snoc m l r jr a j :
  linked m (l ++ [(r, jr)]) → NoDup (l ++ [(r, jr)]).*1 → a ≠ r →
  m !! a = Some (mkJob None j) →
  linked (<[r := mkJob (Some a) jr]> m) ((l ++ [(r, jr)]) ++ [(a, j)]).
Proof.
  intros Hl Hn Har Ha. induction l as [|[i ji] l IH].
  - csimpl. split; [by rewrite lookup_insert_eq|]. split; [|done]. by rewrite lookup_insert_ne.
  - simpl in *. destruct Hl as [Hi Hl]. apply NoDup_cons in Hn as [Hni Hn].
    split; [|by apply IH].
    rewrite lookup_insert_ne, Hi.
    + by destruct l.
    + intros ->. apply Hni. rewrite fmap_app. apply elem_of_app. right. by left.
Qed.

Lemma push_ok q l j a q1 :
  qrep q l → new_job j q = (a, q1) →
  a = fresh_job q ∧ ∃ q', jobqueue_push a q1 = Ok q' ∧ qrep q' (l ++ [(a, j)])
    ∧ fresh_job q' = S (fresh_job q).
Proof.
  intros [Hf Hr Hl Hk Hn Hx] [= <- <-]. split; [done|]. set (a := fresh_job q).
  assert (Ha : a ∉ l.*1) by (intros H; eapply Forall_forall in Hx; [|exact H]; unfold a in Hx; lia).
  assert (Hn' : NoDup (l ++ [(a, j)]).*1).
  { rewrite fmap_app. apply NoDup_app. split; [done|]. split; [|apply NoDup_singleton].
    intros i Hi ->%list_elem_of_singleton. done. }
  assert (Hx' : Forall (λ i, (i < S (fresh_job q))%nat) (l ++ [(a, j)]).*1).
  { rewrite fmap_app. apply Forall_app. split; [|constructor; [unfold a; simpl; lia|done]].
    eapply Forall_impl; [exact Hx|]. simpl. lia. }
  unfold jobqueue_push. simpl. rewrite lookup_insert_eq, insert_insert_eq. simpl. rewrite Hl.
  destruct l as [|x l0 _] using rev_ind; simpl.
  - eexists. split; [done|]. split; [|done]. split; simpl; try done.
    split; [by rewrite lookup_insert_eq|done].
  - destruct x as [r jr]. rewrite length_app, Nat.add_1_r. simpl. rewrite Hr, last_snoc. simpl.
    assert (Har : a ≠ r).
    { intros ->. apply Ha. rewrite fmap_app. apply elem_of_app. right. by left. }
    rewrite lookup_insert_ne, (linked_last _ _ _ _ Hk) by done. simpl.
    eexists. split; [done|]. split; [|done]. split; simpl; try done.
    + rewrite Hf. by destruct l0 as [|? ?].
    + by rewrite last_snoc.
    + rewrite !length_app. simpl. lia.
    + apply linked_snoc; [by apply linked_insert|done|done|by rewrite lookup_insert_eq].
Qed.

Lemma pull_ok q l :
  qrep q l →
  match l with
  | [] => jobqueue_pull q = Ok (None, false, q)
  | (a, j) :: l' => ∃ q' c, jobqueue_pull q = Ok (Some a, bool_decide (l' ≠ []), q')
      ∧ qrep q' l' ∧ jobs q' !! a = Some c ∧ payload c = j ∧ fresh_job q' = fresh_job q
  end.
Proof.
  intros [Hf Hr Hl Hk Hn Hx]. unfold jobqueue_pull. rewrite Hl, Hf.
  destruct l as [|[a j] l']; [done|]. destruct Hk as [Ha Hk]. simpl.
  apply NoDup_cons in Hn as [_ Hn]. inversion Hx as [|? ? _ Hx']; subst.
  destruct l' as [|[b k] l'']; simpl in *.
  - eexists _, _. split; [done|]. by split.
  - rewrite Ha. eexists _, _. split; [done|]. split; [|done]. split; done.
Qed.

Lemma free_ok q l a : qrep q l → a ∉ l.*1 → qrep (free_job a q) l.
Proof. intros [Hf Hr Hl Hk Hn Hx] Ha. split; try done. by apply linked_delete. Qed.

(** [jobqueue_clear] ends with an empty queue after one pull per job. *)
Lemma clear_ok l : ∀ q fuel, qrep q l → (length l ≤ fuel)%nat →
  ∃ q', jobqueue_clear fuel q = Ok q' ∧ qrep q' [].
Proof.
  induction l as [|[a j] l IH]; intros q fuel Hq Hf.
  - pose proof Hq as [_ _ Hl _ _ _]. destruct fuel; simpl; rewrite Hl; simpl; (eexists; split; [done|]);
      by split; try constructor.
  - destruct fuel as [|fuel]; [simpl in Hf; lia|].
    destruct (pull_ok _ _ Hq) as (q' & c & E & Hq' & _). simpl.
    pose proof (q_len _ _ Hq) as Hl. simpl in Hl. rewrite Hl, E. simpl.
    apply IH; [|simpl in Hf; lia]. apply free_ok; [done|].
    pose proof (q_nodup _ _ Hq) as Hn. by apply NoDup_cons in Hn as [? _].
Qed.
End queue.

Section pool.
Context {J : Type}.
Implicit Types (s : pool J) (w : worker J) (c : client) (l : list (nat * J)).

(** ** Numberings of the threads *)
Definition busy w : nat := match w with Work | Post _ _ | Run _ _ | Done => 1 | _ => 0 end.
Definition living w : nat := match w with Start | Gone => 0 | _ => 1 end.
Definition posting w : nat := match w with Post _ _ => 1 | _ => 0 end.
Definition posting_client c : nat := match c with Posting => 1 | _ => 0 end.
Definition token w : nat := match w with Token | Enter | Work => 1 | _ => 0 end.
Definition awake w : nat := match w with Asleep => 0 | _ => 1 end.
Definition leaving w : nat := match w with Leave | Gone => 1 | _ => 0 end.
Definition carried w : list (nat * J) :=
  match w with Post a j | Run a j => [(a, j)] | _ => [] end.

(** ** The invariant, for the queue contents [l] *)
Record pool_inv l s : Prop := {
  p_rep : qrep (queue s) l;
  (** jobs leave in the order they came *)
  p_fifo : pushed s = pulled s ++ l.*2;
  (** a pulled job is finished or with a worker *)
  p_held : pulled s ≡ₚ finished s ++ (held carried (workers s)).*2;
  p_addr : NoDup (l.*1 ++ (held carried (workers s)).*1);
  p_fresh : Forall (λ a, (a < fresh_job (queue s))%nat) (held carried (workers s)).*1;
  p_working : num_threads_working s = total busy (workers s);
  p_alive : num_threads_alive s = total living (workers s);
  (** one thread at most has [rwmutex] and a post to make *)
  p_mutex : (total posting (workers s) + total posting_client (clients s)
             = if rwmutex s then 1 else 0)%nat;
  p_binary : (has_jobs s ≤ 1)%nat;
  p_stay : threads_keepalive s = true → total leaving (workers s) = 0%nat;
  (** no post is lost: somebody will look at a queue that is not empty *)
  p_token : threads_keepalive s = true → (0 < length l)%nat →
    (0 < has_jobs s + total posting (workers s) + total posting_client (clients s)
         + total token (workers s))%nat;
  p_awake : threads_keepalive s = true → (0 < has_jobs s)%nat → (0 < total awake (workers s))%nat;
  p_workers : workers s ≠ []
}.

(** The change of every numbering when the thread [i] moves from [w] to [w']. *)
Ltac moved E w' :=
  pose proof (total_insert busy _ _ _ w' E); pose proof (total_insert living _ _ _ w' E);
  pose proof (total_insert posting _ _ _ w' E); pose proof (total_insert token _ _ _ w' E);
  pose proof (total_insert awake _ _ _ w' E); pose proof (total_insert leaving _ _ _ w' E);
  pose proof (held_insert carried _ _ _ w' E) as Hheld; cbn [busy living posting token awake leaving
    carried app] in *.

(** Facts that hold while the pool is kept alive. *)
Ltac kept :=
  let Hk := fresh "Hk" in intros Hk;
  repeat match goal with H : threads_keepalive _ = true → _ |- _ => specialize (H Hk) end;
  simpl in *; lia.

(** A worker that carries no job before or after its move. *)
Lemma move_inv l s i w w' wk al v :
  pool_inv l s → workers s !! i = Some w → carried w = [] → carried w' = [] →
  (wk + busy w = num_threads_working s + busy w')%nat →
  (al + living w = num_threads_alive s + living w')%nat →
  (v ≤ 1)%nat →
  (threads_keepalive s = true → leaving w' ≤ leaving w)%nat →
  (threads_keepalive s = true → has_jobs s + token w ≤ v + token w')%nat →
  (threads_keepalive s = true → awake w' = 0 → v = 0)%nat →
  pool_inv l (set_counts wk al (set_has_jobs v (set_worker i w' s))).
Proof.
  intros [Hq Hf Hh Ha Hx Hw Hal Hm Hb Hs Ht Haw Hne] E Hc Hc' Hwk Hall Hv Hlv Htok Hawk.
  assert (Hp : posting w = 0%nat ∧ posting w' = 0%nat) by (by destruct w, w').
  moved E w'. rewrite Hc, Hc' in *. simpl in *.
  split; simpl; try done; try lia; try kept.
  - by rewrite Hh, Hheld.
  - by rewrite Hheld.
  - by rewrite Hheld.
  - intros Hk Hv0. specialize (Hawk Hk). destruct (awake w') as [|n] eqn:Ew; [lia|].
    assert (1 ≤ awake w')%nat by lia. pose proof (total_elem awake _ _ _ E). lia.
  - by apply insert_ne.
Qed.

(** Pulling: the job goes from the queue to the worker. *)
Lemma pull_inv l s i :
  pool_inv l s → workers s !! i = Some Work → rwmutex s = false →
  match l with
  | [] => ∃ q, jobqueue_pull (queue s) = Ok (None, false, q) ∧ pool_inv [] (took i Done false [] q s)
  | (a, j) :: l' => ∃ q b jc, jobqueue_pull (queue s) = Ok (Some a, b, q) ∧ jobs q !! a = Some jc
      ∧ payload jc = j
      ∧ pool_inv l' (took i (if b : bool then Post a j else Run a j) b [j] q s)
  end.
Proof.
  intros [Hq Hf Hh Ha Hx Hw Hal Hm Hb Hs Ht Haw Hne] E Hrw. rewrite Hrw in Hm.
  pose proof (pull_ok _ _ Hq) as Hp. destruct l as [|[a j] l'].
  - exists (queue s). split; [done|]. moved E (Done : worker J).
    split; simpl; try done; try lia; try kept.
    + by rewrite app_nil_r.
    + by rewrite app_nil_r, Hh, Hheld.
    + by rewrite Hheld.
    + by rewrite Hheld.
    + by apply insert_ne.
  - destruct Hp as (q & jc & Ep & Hq' & Ec & Epay & Efr). exists q, (bool_decide (l' ≠ [])), jc.
    split; [done|]. split; [done|]. split; [done|].
    set (w' := if bool_decide (l' ≠ []) then Post a j else Run a j : worker J).
    moved E w'.
    assert (Hc : carried w' = [(a, j)]) by (unfold w'; by destruct (bool_decide _)).
    assert (busy w' = 1 ∧ living w' = 1 ∧ token w' = 0 ∧ awake w' = 1 ∧ leaving w' = 0)%nat as (? & ? & ? & ? & ?)
      by (unfold w'; by destruct (bool_decide _)).
    assert (Hpo : posting w' = if bool_decide (l' ≠ []) then 1%nat else 0%nat)
      by (unfold w'; by destruct (bool_decide _)).
    rewrite Hc in Hheld. simpl in Hheld.
    split; simpl; fold w'; try done; try lia; try kept.
    + by rewrite Hf, <- app_assoc.
    + rewrite Hheld, Hh. csimpl. rewrite <- app_assoc. f_equiv. by rewrite Permutation_app_comm.
    + rewrite Hheld. simpl. by rewrite <- Permutation_middle.
    + rewrite Hheld, Efr. simpl. constructor; [|done].
      pose proof (q_fresh _ _ Hq) as Hfr. by inversion Hfr.
    + intros Hk Hl. rewrite bool_decide_eq_true_2 in Hpo; [lia|].
      intros ->. simpl in Hl. lia.
    + by apply insert_ne.
Qed.

(** The numberings a signal to the workers does not change. *)
Ltac signalled Hs :=
  let go f := (pose proof (signal_same asleep Check f _ _ ltac:(by intros []) Hs)) in
  go busy; go living; go posting; go token; go leaving;
  pose proof (signal_held asleep Check carried _ _ ltac:(by intros []) eq_refl Hs) as Hsig.

Lemma awake_after (ws ws' : list (worker J)) :
  signal asleep Check ws ws' → ws ≠ [] → (0 < total awake ws')%nat.
Proof.
  intros Hs Hne. destruct (signal_awake asleep Check _ _ eq_refl Hs Hne) as (i & w & Ei & Hw).
  pose proof (total_elem awake _ _ _ Ei). by destruct w.
Qed.

Lemma signal_ne (ws ws' : list (worker J)) : signal asleep Check ws ws' → ws ≠ [] → ws' ≠ [].
Proof. intros Hs Hne ->. apply Hne, nil_length_inv. by rewrite <- (signal_length _ _ _ _ Hs). Qed.

(** [bsem_post] of a worker and of a caller. *)
Lemma post_inv l s i a j ws :
  pool_inv l s → workers s !! i = Some (Post a j) →
  signal asleep Check (<[i := Run a j]> (workers s)) ws → pool_inv l (posted ws s).
Proof.
  intros [Hq Hf Hh Ha Hx Hw Hal Hm Hb Hs Ht Haw Hne] E Hsg.
  moved E (Run a j). signalled Hsg.
  assert (Hheld' : held carried ws ≡ₚ held carried (workers s)).
  { rewrite Hsig. by apply (Permutation_cons_inv (a := (a, j))). }
  assert (Hne' : <[i := Run a j]> (workers s) ≠ []) by (by apply insert_ne).
  pose proof (awake_after _ _ Hsg Hne'). pose proof (total_elem posting _ _ _ E) as Hp. simpl in Hp.
  split; simpl; try done; try lia; try kept.
  - by rewrite Hheld'.
  - by rewrite Hheld'.
  - by rewrite Hheld'.
  - destruct (rwmutex s); lia.
  - by eapply signal_ne.
Qed.

Lemma client_post_inv l s i ws :
  pool_inv l s → clients s !! i = Some Posting → signal asleep Check (workers s) ws →
  pool_inv l (posted ws (set_client i Idle s)).
Proof.
  intros [Hq Hf Hh Ha Hx Hw Hal Hm Hb Hs Ht Haw Hne] E Hsg. signalled Hsg.
  pose proof (awake_after _ _ Hsg Hne). pose proof (total_insert posting_client _ _ _ Idle E) as Hc.
  simpl in Hc. pose proof (total_elem posting_client _ _ _ E) as Hp. simpl in Hp.
  split; simpl; try done; try lia; try kept.
  - by rewrite Hsig.
  - by rewrite Hsig.
  - by rewrite Hsig.
  - destruct (rwmutex s); lia.
  - by eapply signal_ne.
Qed.

(** The end of a job: it is freed and counted. *)
Lemma run_inv l s i a j :
  pool_inv l s → workers s !! i = Some (Run a j) →
  pool_inv l (mkPool (free_job a (queue s)) (has_jobs s) (rwmutex s) (num_threads_working s)
                (num_threads_alive s) (threads_keepalive s) (<[i := Done]> (workers s))
                (clients s) (pushed s) (pulled s) (finished s ++ [j])).
Proof.
  intros [Hq Hf Hh Ha Hx Hw Hal Hm Hb Hs Ht Haw Hne] E. moved E (Done : worker J).
  rewrite <- Hheld in Hh, Ha, Hx. csimpl in *.
  assert (Hal' : a ∉ l.*1).
  { apply NoDup_app in Ha as (_ & Hd & _). intros Hin. apply (Hd a Hin). by left. }
  split; simpl; try done; try lia; try kept.
  - by apply free_ok.
  - by rewrite Hh, <- app_assoc.
  - rewrite <- Permutation_middle in Ha. by apply NoDup_cons in Ha as [_ ?].
  - by inversion Hx.
  - by apply insert_ne.
Qed.

Lemma clients_inv l s cs :
  pool_inv l s → total posting_client cs = total posting_client (clients s) →
  pool_inv l (set_clients cs s).
Proof.
  intros [Hq Hf Hh Ha Hx Hw Hal Hm Hb Hs Ht Haw Hne] E.
  split; simpl; try done; try lia; try kept.
Qed.

Lemma set_client_inv l s i c c' :
  pool_inv l s → clients s !! i = Some c → posting_client c' = posting_client c →
  pool_inv l (set_client i c' s).
Proof.
  intros Hi E Hc. apply (clients_inv l s (<[i := c']> (clients s)) Hi).
  pose proof (total_insert posting_client _ _ _ c' E). lia.
Qed.

Lemma istep_inv l s s' : pool_inv l s → istep s s' → ∃ l', pool_inv l' s'.
Proof.
  intros Hi Hst. revert Hi.
  destruct Hst as [s i E|s i E|s i E Hv|s i E Hv|s i E|s i E|s i b q E Hrw Ep|s i a jc b q E Hrw Ep Ec
    |s i a j ws E Hsg|s i a j E|s i cs E Hcs|s i E|s i ws E Hsg|s i E]; intros Hi;
    pose proof Hi as [_ _ _ _ _ Hw Hal _ Hb _ _ _ _].
  - exists l. by refine (move_inv l s i _ _ _ _ (has_jobs s) Hi E _ _ _ _ _ _ _ _); simpl; try done; lia.
  - exists l. refine (move_inv l s i _ _ (num_threads_working s) (num_threads_alive s) (has_jobs s)
      Hi E _ _ _ _ _ _ _ _); destruct (threads_keepalive s); simpl; try done; lia.
  - exists l. refine (move_inv l s i _ _ (num_threads_working s) (num_threads_alive s) 0
      Hi E _ _ _ _ _ _ _ _); simpl; try done; lia.
  - exists l. refine (move_inv l s i _ _ (num_threads_working s) (num_threads_alive s) (has_jobs s)
      Hi E _ _ _ _ _ _ _ _); simpl; try done; lia.
  - exists l. refine (move_inv l s i _ _ (num_threads_working s) (num_threads_alive s) (has_jobs s)
      Hi E _ _ _ _ _ _ _ _); destruct (threads_keepalive s); simpl; try done; lia.
  - exists l. refine (move_inv l s i _ _ _ _ (has_jobs s) Hi E _ _ _ _ _ _ _ _); simpl; try done; lia.
  - pose proof (pull_inv l s i Hi E Hrw) as H. destruct l as [|[a j] l].
    + destruct H as (q' & Ep' & H). rewrite Ep in Ep'. injection Ep' as -> ->. by exists [].
    + destruct H as (q' & b' & jc & Ep' & _). by rewrite Ep in Ep'.
  - pose proof (pull_inv l s i Hi E Hrw) as H. destruct l as [|[a' j] l].
    + destruct H as (q' & Ep' & _). by rewrite Ep in Ep'.
    + destruct H as (q' & b' & jc' & Ep' & Ec' & Epay & H). rewrite Ep in Ep'.
      injection Ep' as -> -> ->. rewrite Ec in Ec'. injection Ec' as ->. rewrite <- Epay in H.
      by exists l.
  - exists l. by eapply post_inv.
  - exists l. by apply run_inv.
  - exists l. pose proof (total_elem busy _ _ _ E) as Hbz. simpl in Hbz.
    assert (Hm : pool_inv l (set_counts (num_threads_working s - 1) (num_threads_alive s)
                   (set_has_jobs (has_jobs s) (set_worker i Loop s)))).
    { eapply move_inv; [done|exact E|..]; simpl; try done; lia. }
    apply (clients_inv l _ cs Hm). simpl. case_bool_decide; [|by subst].
    apply (signal_same dozing Waiting); [by intros []|done].
  - exists l. pose proof (total_elem living _ _ _ E) as Hlv. simpl in Hlv.
    refine (move_inv l s i _ _ _ _ (has_jobs s) Hi E _ _ _ _ _ _ _ _); simpl; try done; lia.
  - exists l. by eapply client_post_inv.
  - exists l. eapply set_client_inv; [done|exact E|by destruct (pool_idle s)].
Qed.

Lemma pool_step_inv l s s' : pool_inv l s → step s s' → ∃ l', pool_inv l' s'.
Proof.
  intros Hi Hst. revert Hi.
  destruct Hst as [s s' Hs|s i j a q q' E Hrw En Ep|s i E|s i E|s i E|s|s Hk _]; intros Hi.
  - by eapply istep_inv.
  - destruct Hi as [Hq Hf Hh Ha Hx Hw Hal Hm Hb Hs Ht Haw Hne]. rewrite Hrw in Hm.
    destruct (push_ok _ _ _ _ _ Hq En) as (-> & q0 & Ep' & Hq' & Efr).
    rewrite Ep in Ep'. injection Ep' as <-. exists (l ++ [(fresh_job (queue s), j)]).
    pose proof (total_insert posting_client _ _ _ Posting E) as Hc. simpl in Hc.
    split; simpl; try done; try lia; try kept.
    + by rewrite Hf, fmap_app, app_assoc.
    + rewrite fmap_app, <- app_assoc. simpl. rewrite <- Permutation_middle. constructor; [|done].
      intros [Hin|Hin]%elem_of_app.
      * pose proof (q_fresh _ _ Hq) as Hfr. eapply Forall_forall in Hfr; [|exact Hin]. simpl in Hfr. lia.
      * eapply Forall_forall in Hx; [|exact Hin]. simpl in Hx. lia.
    + rewrite Efr. eapply Forall_impl; [exact Hx|]. simpl. lia.
  - exists l. by eapply set_client_inv.
  - exists l. pose proof Hi as [_ _ _ _ _ Hw Hal _ Hb _ _ _ _].
    refine (move_inv l s i _ _ (num_threads_working s) (num_threads_alive s) (has_jobs s)
      Hi E _ _ _ _ _ _ _ _); simpl; try done; lia.
  - exists l. by eapply set_client_inv.
  - exists l. destruct Hi as [Hq Hf Hh Ha Hx Hw Hal Hm Hb Hs Ht Haw Hne]. by split.
  - exists l. destruct Hi as [Hq Hf Hh Ha Hx Hw Hal Hm Hb Hs Ht Haw Hne].
    assert (Hheld : held carried (broadcast asleep Check (workers s)) = held carried (workers s))
      by (apply broadcast_held; [by intros []|done]).
    split; simpl; rewrite ?Hheld; try done; try lia.
    + rewrite broadcast_total; [done|by intros []].
    + rewrite broadcast_total; [done|by intros []].
    + rewrite broadcast_total; [done|by intros []].
    + unfold broadcast. by destruct (workers s).
Qed.

Lemma init_inv n m : (0 < n)%nat → pool_inv [] (thpool_init n m : pool J).
Proof.
  intros Hn. unfold thpool_init.
  assert (Hz : ∀ f, f (Start : worker J) = 0%nat → total f (replicate n Start) = 0%nat).
  { intros f Hf. apply total_zero. by intros w [-> _]%elem_of_replicate. }
  assert (Hh : held carried (replicate n (Start : worker J)) = [])
    by (apply held_nil; by intros w [-> _]%elem_of_replicate).
  split; simpl; rewrite ?Hh, ?Hz by done; try done; try lia.
  - by split; try constructor.
  - constructor.
  - simpl. apply total_zero. by intros c [-> _]%elem_of_replicate.
  - by destruct n; [lia|].
Qed.

(** ** Progress *)
Definition weight w : nat :=
  match w with
  | Start => 3 | Loop => 2 | Check => 1 | Asleep => 0 | Token => 7 | Enter => 6 | Work => 5
  | Post _ _ => 14 | Run _ _ => 5 | Done => 4 | Leave => 1 | Gone => 0
  end.
Definition client_weight c : nat :=
  match c with Idle => 0 | Posting => 9 | Waiting => 1 | Dozing => 0 end.
Definition pool_measure s : nat :=
  10 * len (queue s) + 7 * has_jobs s + total weight (workers s) + total client_weight (clients s).

(** Every step inside the pool lowers the measure. *)
Lemma istep_measure l s s' : pool_inv l s → istep s s' → (pool_measure s' < pool_measure s)%nat.
Proof.
  intros Hi Hst. revert Hi. unfold pool_measure.
  destruct Hst as [s i E|s i E|s i E Hv|s i E Hv|s i E|s i E|s i b q E Hrw Ep|s i a jc b q E Hrw Ep Ec
    |s i a j ws E Hsg|s i a j E|s i cs E Hcs|s i E|s i ws E Hsg|s i E]; intros Hi; simpl.
  1: pose proof (total_insert weight _ _ _ Loop E) as H; simpl in H; lia.
  1: destruct (threads_keepalive s);
     [pose proof (total_insert weight _ _ _ Check E) as H
     |pose proof (total_insert weight _ _ _ Leave E) as H]; simpl in H; lia.
  1: pose proof (total_insert weight _ _ _ Token E) as H; simpl in H; lia.
  1: pose proof (total_insert weight _ _ _ Asleep E) as H; simpl in H; lia.
  1: destruct (threads_keepalive s);
     [pose proof (total_insert weight _ _ _ Enter E) as H
     |pose proof (total_insert weight _ _ _ Loop E) as H]; simpl in H; lia.
  1: pose proof (total_insert weight _ _ _ Work E) as H; simpl in H; lia.
  - pose proof (pull_ok _ _ (p_rep _ _ Hi)) as Hp. destruct l as [|[a j] l].
    + rewrite Ep in Hp. injection Hp as -> ->.
      pose proof (total_insert weight _ _ _ Done E) as H; simpl in H. lia.
    + destruct Hp as (q' & jc & Ep' & _). by rewrite Ep in Ep'.
  - pose proof (pull_ok _ _ (p_rep _ _ Hi)) as Hp. destruct l as [|[a' j] l].
    { by rewrite Ep in Hp. }
    destruct Hp as (q' & jc' & Ep' & Hq' & _). rewrite Ep in Ep'. injection Ep' as -> -> ->.
    rewrite (q_len _ _ Hq'), (q_len _ _ (p_rep _ _ Hi)). simpl.
    destruct (bool_decide (l ≠ []));
      [pose proof (total_insert weight _ _ _ (Post a' (payload jc)) E) as H
      |pose proof (total_insert weight _ _ _ (Run a' (payload jc)) E) as H]; simpl in H; lia.
  - pose proof (total_insert weight _ _ _ (Run a j) E) as H. simpl in H.
    pose proof (signal_le _ _ weight _ _ Hsg) as Hle. simpl in Hle. lia.
  - pose proof (total_insert weight _ _ _ Done E) as H. simpl in H. lia.
  - pose proof (total_insert weight _ _ _ Loop E) as H. simpl in H.
    assert (total client_weight cs ≤ total client_weight (clients s) + 1)%nat; [|lia].
    case_bool_decide; [|by subst; lia]. by apply (signal_le _ _ client_weight) in Hcs.
  - pose proof (total_insert weight _ _ _ Gone E) as H. simpl in H. lia.
  - pose proof (total_insert client_weight _ _ _ Idle E) as H. simpl in H.
    pose proof (signal_le _ _ weight _ _ Hsg) as Hle. simpl in Hle. lia.
  - destruct (pool_idle s); [pose proof (total_insert client_weight _ _ _ Idle E) as H
      |pose proof (total_insert client_weight _ _ _ Dozing E) as H]; simpl in H; lia.
Qed.

Definition at_rest s : Prop := ∀ s', ¬ istep s s'.

Lemma rest_clients s i c : at_rest s → clients s !! i = Some c → c = Idle ∨ c = Dozing.
Proof.
  intros Hr E. destruct c; [by left| | |by right]; exfalso.
  - destruct (signal_total asleep Check (workers s)) as [ws Hws]. by eapply Hr, c_post.
  - by eapply Hr, c_wait.
Qed.

Lemma rest_mutex l s : pool_inv l s → at_rest s →
  rwmutex s = false ∧ total posting (workers s) = 0%nat ∧ total posting_client (clients s) = 0%nat.
Proof.
  intros Hi Hr.
  assert (Hc : total posting_client (clients s) = 0%nat).
  { apply total_zero. intros c (i & E)%list_elem_of_lookup.
    by destruct (rest_clients s i c Hr E) as [-> | ->]. }
  assert (Hw : total posting (workers s) = 0%nat).
  { apply total_zero. intros w (i & E)%list_elem_of_lookup. destruct w; try done. exfalso.
    destruct (signal_total asleep Check (<[i := Run i0 j]> (workers s))) as [ws Hws].
    by eapply Hr, w_post. }
  pose proof (p_mutex _ _ Hi). destruct (rwmutex s); [lia|done].
Qed.

(** At rest all workers of a living pool sleep. *)
Lemma rest_workers l s i w :
  pool_inv l s → at_rest s → threads_keepalive s = true → workers s !! i = Some w → w = Asleep.
Proof.
  intros Hi Hr Hk E. destruct (rest_mutex l s Hi Hr) as (Hrw & Hp & _).
  pose proof (total_elem posting _ _ _ E) as Hpe. pose proof (total_elem leaving _ _ _ E) as Hle.
  pose proof (p_stay _ _ Hi Hk) as Hst.
  destruct w; try done; simpl in *; try lia; exfalso.
  - by eapply Hr, w_start.
  - by eapply Hr, w_loop.
  - destruct (decide (has_jobs s = 1)%nat); [by eapply Hr, w_check|by eapply Hr, w_sleep].
  - by eapply Hr, w_token.
  - by eapply Hr, w_enter.
  - pose proof (pull_inv l s i Hi E Hrw) as H. destruct l as [|[a j] l].
    + destruct H as (q & Ep & _). by eapply Hr, w_nojob.
    + destruct H as (q & b & jc & Ep & Ec & _). by eapply Hr, w_pull.
  - by eapply Hr, w_run.
  - destruct (bool_decide (num_threads_working s - 1 = 0)%nat) eqn:Eb.
    + destruct (signal_total dozing Waiting (clients s)) as [cs Hcs].
      eapply Hr, (w_done s i cs); [done|by rewrite Eb].
    + eapply Hr, (w_done s i (clients s)); [done|by rewrite Eb].
Qed.

Lemma all_zero (f : worker J → nat) ws :
  (∀ i w, ws !! i = Some w → w = Asleep) → f Asleep = 0%nat → total f ws = 0%nat.
Proof. intros H Hf. apply total_zero. by intros w (i & ->%H)%list_elem_of_lookup. Qed.

Lemma rest_done l s :
  pool_inv l s → at_rest s → threads_keepalive s = true →
  l = [] ∧ num_threads_working s = 0%nat ∧ finished s ≡ₚ pushed s.
Proof.
  intros Hi Hr Hk. destruct (rest_mutex l s Hi Hr) as (_ & Hp & Hpc).
  assert (Hw : ∀ i w, workers s !! i = Some w → w = Asleep) by (intros; by eapply rest_workers).
  pose proof (all_zero token _ Hw eq_refl). pose proof (all_zero awake _ Hw eq_refl).
  pose proof (p_token _ _ Hi Hk). pose proof (p_awake _ _ Hi Hk).
  assert (l = []) as -> by (apply nil_length_inv; lia). split; [done|].
  rewrite (p_working _ _ Hi), (all_zero busy _ Hw eq_refl). split; [done|].
  rewrite (p_fifo _ _ Hi), (p_held _ _ Hi). simpl. rewrite app_nil_r.
  rewrite held_nil; [by rewrite app_nil_r|]. by intros w (i & ->%Hw)%list_elem_of_lookup.
Qed.

(** ** Callers of [thpool_wait] *)
Definition waiting c : nat := match c with Waiting | Dozing => 1 | _ => 0 end.
Definition doze c : nat := match c with Dozing => 1 | _ => 0 end.

(** Steps with at most one caller in [thpool_wait] at a time. *)
Definition step1 s s' : Prop := step s s' ∧ (total waiting (clients s') ≤ 1)%nat.

(** A caller sleeps only while there is something to wait for. *)
Definition one_waiter s : Prop :=
  (total waiting (clients s) ≤ 1)%nat
  ∧ ((0 < total doze (clients s))%nat → (0 < len (queue s) + num_threads_working s)%nat).

Lemma doze_waiting cs : (total doze cs ≤ total waiting cs)%nat.
Proof. unfold total. induction cs as [|[] cs IH]; simpl; lia. Qed.

Lemma signal_one_waiter cs cs' :
  (total waiting cs ≤ 1)%nat → signal dozing Waiting cs cs' → total doze cs' = 0%nat.
Proof.
  intros Hw Hs. revert Hw. destruct Hs as [ws i c E Hc|ws Hn]; intros Hw.
  - pose proof (total_insert doze _ _ _ Waiting E) as H. pose proof (doze_waiting ws).
    destruct c; try done. simpl in H. lia.
  - apply total_zero. intros c Hin. specialize (Hn c Hin). by destruct c.
Qed.

Lemma istep_waiting s s' : istep s s' → (total waiting (clients s') ≤ total waiting (clients s))%nat.
Proof.
  intros [| | | | | | | | | |s0 i cs E Hcs| |s0 i ws E _|s0 i E]; simpl; try lia.
  - case_bool_decide; [|by subst].
    rewrite (signal_same dozing Waiting waiting _ _ ltac:(by intros []) Hcs). lia.
  - pose proof (total_insert waiting _ _ _ Idle E) as H. simpl in H. lia.
  - destruct (pool_idle s0); [pose proof (total_insert waiting _ _ _ Idle E) as H
      |pose proof (total_insert waiting _ _ _ Dozing E) as H]; simpl in H; lia.
Qed.

Lemma istep_waiter l s s' : pool_inv l s → one_waiter s → istep s s' → one_waiter s'.
Proof.
  intros Hi [Hw Hd] Hst. split; [pose proof (istep_waiting _ _ Hst); lia|]. revert Hi Hw Hd.
  destruct Hst as [s i E|s i E|s i E Hv|s i E Hv|s i E|s i E|s i b q E Hrw Ep|s i a jc b q E Hrw Ep Ec
    |s i a j ws E Hsg|s i a j E|s i cs E Hcs|s i E|s i ws E Hsg|s i E]; intros Hi Hw Hd; simpl;
    try done; try lia.
  - pose proof (total_elem busy _ _ _ E) as H. simpl in H. pose proof (p_working _ _ Hi). lia.
  - pose proof (total_elem busy _ _ _ E) as H. simpl in H. pose proof (p_working _ _ Hi). lia.
  - case_bool_decide; [|lia]. rewrite (signal_one_waiter _ _ Hw Hcs). lia.
  - pose proof (total_insert doze _ _ _ Idle E) as H. simpl in H. lia.
  - unfold pool_idle. case_bool_decide as Hid.
    + pose proof (total_insert doze _ _ _ Idle E) as H. simpl in H. lia.
    + lia.
Qed.

Lemma step1_waiter l s s' : pool_inv l s → one_waiter s → step1 s s' → one_waiter s'.
Proof.
  intros Hi Hw [Hst Hw1]. split; [done|]. revert Hi Hw Hw1.
  destruct Hst as [s s' Hs|s i j a q q' E Hrw En Ep|s i E|s i E|s i E|s|s Hk _]; intros Hi Hw Hw1.
  - by apply (istep_waiter l s s').
  - simpl. destruct (push_ok _ _ _ _ _ (p_rep _ _ Hi) En) as (_ & q0 & Ep' & Hq' & _).
    rewrite Ep in Ep'. injection Ep' as <-. rewrite (q_len _ _ Hq'), length_app. simpl. lia.
  - destruct Hw as [_ Hd]. simpl. pose proof (total_insert doze _ _ _ Waiting E) as H.
    simpl in H. lia.
  - by destruct Hw.
  - destruct Hw as [_ Hd]. simpl. pose proof (total_insert doze _ _ _ Waiting E) as H.
    simpl in H. lia.
  - by destruct Hw.
  - by destruct Hw.
Qed.

(** The states of a pool of [n] threads with [m] callers, one in
    [thpool_wait] at most. *)
Lemma reach1_ok n m s :
  (0 < n)%nat → rtc step1 (thpool_init n m) s → (∃ l, pool_inv l s) ∧ one_waiter s.
Proof.
  intros Hn Hs.
  apply (invariant_rtc step1 (λ s, (∃ l, pool_inv l s) ∧ one_waiter s)) in Hs; [done| |].
  - intros s1 s2 [[l Hi] Hw] Hst. split; [by destruct Hst; eapply pool_step_inv|by eapply step1_waiter].
  - split; [exists []; by apply init_inv|]. split; simpl.
    + assert (total waiting (replicate m Idle) = 0%nat) as ->; [|lia].
      apply total_zero. by intros c [-> _]%elem_of_replicate.
    + assert (total doze (replicate m Idle) = 0%nat) as ->; [|lia].
      apply total_zero. by intros c [-> _]%elem_of_replicate.
Qed.

Lemma istep_same s s' :
  istep s s' → pushed s' = pushed s ∧ threads_keepalive s' = threads_keepalive s.
Proof. by intros []. Qed.

Lemma isteps_ok s s' :
  rtc istep s s' → (∃ l, pool_inv l s) ∧ one_waiter s →
  ((∃ l, pool_inv l s') ∧ one_waiter s') ∧ pushed s' = pushed s
  ∧ threads_keepalive s' = threads_keepalive s.
Proof.
  induction 1 as [s|s s1 s2 Hst _ IH]; [done|]. intros [[l Hi] Hw].
  destruct (istep_same _ _ Hst) as [Hp Hk].
  destruct IH as (Hok & ? & ?); [split; [by eapply istep_inv|by eapply istep_waiter]|].
  split; [exact Hok|]. split; congruence.
Qed.

(** ** Properties *)

(** C8: In every interleaving of thpool.c jobs are pulled in the order in
    which they were pushed, each at most once, the linked queue represents
    exactly those not yet pulled, a pulled job is finished or with a worker,
    and when the test of thpool_wait succeeds all pushed jobs have been run.
    The pool has at least one worker. *)
Theorem thpool_wait_sound n m s :
  (0 < n)%nat → rtc step (thpool_init n m) s →
  (∃ l, qrep (queue s) l ∧ pushed s = pulled s ++ l.*2)
  ∧ (∃ r, pulled s ≡ₚ finished s ++ r)
  ∧ (pool_idle s = true → finished s ≡ₚ pushed s).
Proof.
  intros Hn Hs.
  assert (∃ l, pool_inv l s) as [l Hi].
  { apply (invariant_rtc step (λ s, ∃ l, pool_inv l s)) in Hs; [done| |].
    - intros s1 s2 [l Hi] Hst. by eapply pool_step_inv.
    - exists []. by apply init_inv. }
  split; [exists l; split; [by eapply p_rep|by eapply p_fifo]|].
  split; [eexists; by eapply p_held|].
  unfold pool_idle. rewrite bool_decide_eq_true. intros [Hl Hw].
  rewrite (q_len _ _ (p_rep _ _ Hi)) in Hl. apply nil_length_inv in Hl as ->.
  rewrite (p_fifo _ _ Hi), (p_held _ _ Hi). simpl. rewrite app_nil_r, held_nil; [by rewrite app_nil_r|].
  rewrite (p_working _ _ Hi), total_zero in Hw. intros w Hin. specialize (Hw w Hin). by destruct w.
Qed.

(** C7: In every interleaving of the workers and the callers of thpool.c,
    with at most one caller in thpool_wait at a time, a pool that is kept
    alive comes to rest after a bounded number of steps whatever the
    scheduling, and at rest every job that was pushed has been run, the queue
    is empty and no caller is left inside thpool_wait or jobqueue_push: no
    job and no wake-up is lost. The pool has at least one worker. *)
Theorem thpool_comes_to_rest n m s :
  (0 < n)%nat → rtc step1 (thpool_init n m) s → threads_keepalive s = true →
  (∀ k s', nsteps istep k s s' → (k ≤ pool_measure s)%nat)
  ∧ (∀ s', rtc istep s s' → at_rest s' →
       finished s' ≡ₚ pushed s ∧ len (queue s') = 0%nat ∧ ∀ c, c ∈ clients s' → c = Idle).
Proof.
  intros Hn Hs Hk. pose proof (reach1_ok n m s Hn Hs) as [[l Hi] Hw]. split.
  - intros k s' Hst. pose proof (measure_bound istep pool_measure (λ s, ∃ l, pool_inv l s)) as Hb.
    assert (Hlt : ∀ s1 s2 : pool J, (∃ l, pool_inv l s1) → istep s1 s2 →
              (∃ l, pool_inv l s2) ∧ (pool_measure s2 < pool_measure s1)%nat).
    { intros s1 s2 [l1 H1] H12. split; [by eapply istep_inv|by eapply istep_measure]. }
    specialize (Hb Hlt k s s' (ex_intro _ l Hi) Hst). lia.
  - intros s' Hst Hr.
    destruct (isteps_ok s s' Hst (conj (ex_intro _ l Hi) Hw)) as ([[l' Hi'] [_ Hd]] & <- & Hk').
    rewrite Hk in Hk'. destruct (rest_done l' s' Hi' Hr Hk') as (-> & Hwk & Hf).
    split; [done|]. pose proof (q_len _ _ (p_rep _ _ Hi')) as Hl. simpl in Hl. split; [done|].
    intros c (i & E)%list_elem_of_lookup.
    destruct (rest_clients s' i c Hr E) as [-> | ->]; [done|].
    pose proof (total_elem doze _ _ _ E) as Hde. simpl in Hde. lia.
Qed.

(** When the workers have ended after [thpool_destroy], the jobs that were
    pulled have been run; those left in the queue are freed unrun by
    [jobqueue_clear], which ends. *)
Theorem destroy_drops_queue n m s :
  (0 < n)%nat → rtc step (thpool_init n m) s → (∀ w, w ∈ workers s → w = Gone) →
  finished s ≡ₚ pulled s ∧ ∃ dropped q, pushed s = pulled s ++ dropped
    ∧ jobqueue_clear (len (queue s)) (queue s) = Ok q ∧ qrep q [].
Proof.
  intros Hn Hs Hg.
  assert (∃ l, pool_inv l s) as [l Hi].
  { apply (invariant_rtc step (λ s, ∃ l, pool_inv l s)) in Hs; [done| |].
    - intros s1 s2 [l Hi] Hst. by eapply pool_step_inv.
    - exists []. by apply init_inv. }
  split.
  - rewrite (p_held _ _ Hi), held_nil; [by rewrite app_nil_r|]. by intros w ->%Hg.
  - destruct (clear_ok l (queue s) (len (queue s)) (p_rep _ _ Hi)) as (q & Eq & Hq).
    { by rewrite (q_len _ _ (p_rep _ _ Hi)). }
    exists l.*2, q. split; [by eapply p_fifo|done].
Qed.
End pool.

(** A pool of one thread to which one job has been pushed. *)
Definition one_job : pool nat :=
  mkPool (mkQueue {[0%nat := mkJob None 7%nat]} 1 (Some 0%nat) (Some 0%nat) 1) 0 true 0 0 true
    [Start] [Posting] [7%nat] [] [].

Lemma one_job_step : step1 (thpool_init 1 1) one_job.
Proof.
  split; [|simpl; lia]. apply (st_add_work (thpool_init 1 1) 0 7%nat 0
    (mkQueue {[0%nat := mkJob None 7%nat]} 1 None None 0)
    (mkQueue {[0%nat := mkJob None 7%nat]} 1 (Some 0%nat) (Some 0%nat) 1)); reflexivity.
Qed.

Lemma thpool_wait_sound_witness :
  pool_idle one_job = false ∧ (∃ r, pulled one_job ≡ₚ finished one_job ++ r)
  ∧ ∃ l, qrep (queue one_job) l ∧ pushed one_job = pulled one_job ++ l.*2.
Proof.
  destruct (thpool_wait_sound 1 1 one_job) as (H1 & H2 & _); [lia|apply rtc_once, one_job_step|].
  split; [reflexivity|]. by split.
Defined.

Lemma thpool_comes_to_rest_witness :
  (∀ k s', nsteps istep k one_job s' → (k ≤ 22)%nat)
  ∧ (∀ s', rtc istep one_job s' → at_rest s' → finished s' ≡ₚ [7%nat]).
Proof.
  destruct (thpool_comes_to_rest 1 1 one_job) as [H1 H2];
    [lia|apply rtc_once, one_job_step|reflexivity|].
  split; [exact H1|]. intros s' Hs Hr. by destruct (H2 s' Hs Hr).
Defined.

(** Two callers in [thpool_wait]: the signal at the end of the last job
    wakes one of them, and nothing ever wakes the other. *)
Definition stuck_pool : pool nat :=
  mkPool (mkQueue ∅ 1 None None 0) 0 false 0 1 true [Asleep] [Idle; Dozing] [7%nat] [7%nat] [7%nat].

(** Evaluate the state a run has come to. *)
Ltac tidy :=
  match goal with |- rtc _ ?a _ => let b := eval vm_compute in a in change a with b end.

Theorem second_waiter_hangs :
  rtc step (thpool_init 1 2) stuck_pool ∧ pool_idle stuck_pool = true ∧ at_rest stuck_pool.
Proof.
  split; [|split; [reflexivity|]].
  - eapply rtc_l.
    { apply (st_add_work (thpool_init 1 2) 0 7%nat 0
        (mkQueue {[0%nat := mkJob None 7%nat]} 1 None None 0)
        (mkQueue {[0%nat := mkJob None 7%nat]} 1 (Some 0%nat) (Some 0%nat) 1)); reflexivity. }
    tidy. eapply rtc_l; [apply st_inside, (c_post _ 0 [Start]); [reflexivity|]|].
    { apply signal_none. simpl. by intros w ->%list_elem_of_singleton. }
    tidy. eapply rtc_l; [apply (st_wait _ 0); reflexivity|].
    tidy. eapply rtc_l; [apply (st_wait _ 1); reflexivity|].
    tidy. eapply rtc_l; [apply st_inside, (c_wait _ 0); reflexivity|].
    tidy. eapply rtc_l; [apply st_inside, (c_wait _ 1); reflexivity|].
    tidy. eapply rtc_l; [apply st_inside, (w_start _ 0); reflexivity|].
    tidy. eapply rtc_l; [apply st_inside, (w_loop _ 0); reflexivity|].
    tidy. eapply rtc_l; [apply st_inside, (w_check _ 0); reflexivity|].
    tidy. eapply rtc_l; [apply st_inside, (w_token _ 0); reflexivity|].
    tidy. eapply rtc_l; [apply st_inside, (w_enter _ 0); reflexivity|].
    tidy. eapply rtc_l; [apply st_inside, (w_pull _ 0 0 (mkJob None 7%nat) false
      (mkQueue {[0%nat := mkJob None 7%nat]} 1 None None 0)); reflexivity|].
    tidy. eapply rtc_l; [apply st_inside, (w_run _ 0 0 7%nat); reflexivity|].
    tidy. eapply rtc_l; [apply st_inside, (w_done _ 0 [Waiting; Dozing]); [reflexivity|]|].
    { simpl. apply (signal_one dozing Waiting [Dozing; Dozing] 0 Dozing); reflexivity. }
    tidy. eapply rtc_l; [apply st_inside, (c_wait _ 0); reflexivity|].
    tidy. eapply rtc_l; [apply st_inside, (w_loop _ 0); reflexivity|].
    tidy. eapply rtc_l; [apply st_inside, (w_sleep _ 0); [reflexivity|done]|].
    tidy. apply rtc_refl.
  - intros s' Hs. inversion Hs; subst; simpl in *;
      repeat match goal with
      | H : (_ :: _) !! ?i = Some _ |- _ => destruct i; simplify_eq/=
      | H : [] !! _ = Some _ |- _ => rewrite lookup_nil in H; done
      end.
Qed.
