(* ===== verification/BufCache.v ===== *)
(** * BufCache: the cache of buffer heads of [io/block_io.c]

    The cached half of the block layer: buffer heads of one device, found by
    block number in a red-black tree, with a list of unused buffers, a list
    of dirty buffers and a queue of submitted requests.  Buffer heads are
    referred to by address; a buffer head that was freed is no longer in the
    store, and an access to it is a fault.  An intrusive list is the list of
    the addresses linked into it: [list_empty] of an entry tells that it is
    in no list, [list_del_init] takes it out.

    Each function runs to its end without another thread of the cache: the
    device mutexes are released before it returns and have no state here;
    [b_lock] and [b_wait_mutex], which are held between calls, have. *)
From Stdlib Require Import ZArith Lia Sorted.
From stdpp Require Import base numbers list gmap strings.
From S2P Require Import Prelude Util Bytes RbTree RbErase Storage.

(** ** State *)

(** Bits of [b_state]. *)
Definition BH_Uptodate : Z := 0.
Definition BH_Dirty : Z := 1.
Definition BH_Sync_Read : Z := 8.
Definition BH_Async_Write : Z := 11.

(** The values of [b_end_io]. *)
Inductive end_io : Type := after_buffer_sync | after_buffer_write | after_submit_read.

(** [struct buffer_head]; [b_dev] and [b_bdev] are those of the cache and
    [b_offset] is 0. *)
Record cbh : Type := mkCbh {
  c_blocknr : Z;
  c_size : Z;
  c_state : Z;
  c_count : Z;
  c_data : list Z;
  c_lock : bool;
  c_wait : bool;
  c_end_io : option end_io
}.

(** [struct block_device] with the buffer heads allocated for it, the global
    [buffer_dirty_count] and the bytes of the devices. *)
Record bdev : Type := mkBdev {
  b_devid : Z;
  bd_bh_root : rb nat;
  bd_bh_free : list nat;
  bd_bh_dirty : list nat;
  bd_bh_ioqueue : list nat;
  bd_nr_free : Z;
  bhs : gmap nat cbh;
  next_bh : nat;
  buffer_dirty_count : Z;
  disk : devices
}.

Definition buffer_free_threshold : Z := 90000.

Definition set_root r d := mkBdev (b_devid d) r (bd_bh_free d) (bd_bh_dirty d)
  (bd_bh_ioqueue d) (bd_nr_free d) (bhs d) (next_bh d) (buffer_dirty_count d) (disk d).
Definition set_free l n d := mkBdev (b_devid d) (bd_bh_root d) l (bd_bh_dirty d)
  (bd_bh_ioqueue d) n (bhs d) (next_bh d) (buffer_dirty_count d) (disk d).
Definition set_dirty l n d := mkBdev (b_devid d) (bd_bh_root d) (bd_bh_free d) l
  (bd_bh_ioqueue d) (bd_nr_free d) (bhs d) (next_bh d) n (disk d).
Definition set_ioqueue l d := mkBdev (b_devid d) (bd_bh_root d) (bd_bh_free d) (bd_bh_dirty d)
  l (bd_nr_free d) (bhs d) (next_bh d) (buffer_dirty_count d) (disk d).
Definition set_bhs m n d := mkBdev (b_devid d) (bd_bh_root d) (bd_bh_free d) (bd_bh_dirty d)
  (bd_bh_ioqueue d) (bd_nr_free d) m n (buffer_dirty_count d) (disk d).
Definition set_disk ds d := mkBdev (b_devid d) (bd_bh_root d) (bd_bh_free d) (bd_bh_dirty d)
  (bd_bh_ioqueue d) (bd_nr_free d) (bhs d) (next_bh d) (buffer_dirty_count d) ds.

(** [bdev_alloc(dev_id, blocksize_bits)]. *)
Definition bdev_alloc (dev_id : Z) (ds : devices) : bdev :=
  mkBdev dev_id Leaf [] [] [] 0 ∅ 0 0 ds.

(** Access through a pointer to a buffer head. *)
Definition bh_read (i : nat) : M bdev cbh := λ d,
  match bhs d !! i with Some b => Ok (b, d) | None => Fault "buffer head is freed" end.
Definition bh_modify (i : nat) (f : cbh → cbh) : M bdev unit :=
  b ← bh_read i; modify (λ d, set_bhs (<[i := f b]> (bhs d)) (next_bh d) d).

Definition set_state (f : Z → Z) (b : cbh) : cbh :=
  mkCbh (c_blocknr b) (c_size b) (f (c_state b)) (c_count b) (c_data b) (c_lock b) (c_wait b) (c_end_io b).
Definition set_count (f : Z → Z) (b : cbh) : cbh :=
  mkCbh (c_blocknr b) (c_size b) (c_state b) (f (c_count b)) (c_data b) (c_lock b) (c_wait b) (c_end_io b).
Definition set_data (l : list Z) (b : cbh) : cbh :=
  mkCbh (c_blocknr b) (c_size b) (c_state b) (c_count b) l (c_lock b) (c_wait b) (c_end_io b).
Definition set_lock (h : bool) (b : cbh) : cbh :=
  mkCbh (c_blocknr b) (c_size b) (c_state b) (c_count b) (c_data b) h (c_wait b) (c_end_io b).
Definition set_wait (h : bool) (b : cbh) : cbh :=
  mkCbh (c_blocknr b) (c_size b) (c_state b) (c_count b) (c_data b) (c_lock b) h (c_end_io b).
Definition set_end_io (e : end_io) (b : cbh) : cbh :=
  mkCbh (c_blocknr b) (c_size b) (c_state b) (c_count b) (c_data b) (c_lock b) (c_wait b) (Some e).

(** The functions the [BUFFER_FNS] macros make, and the counters and locks of
    [block_io.h]. *)
Definition set_buffer (bit : Z) (i : nat) : M bdev unit := bh_modify i (set_state (λ s, Z.setbit s bit)).
Definition clear_buffer (bit : Z) (i : nat) : M bdev unit := bh_modify i (set_state (λ s, Z.clearbit s bit)).
Definition buffer_bit (bit : Z) (b : cbh) : bool := Z.testbit (c_state b) bit.
Arguments buffer_bit : simpl never.
Definition get_bh (i : nat) : M bdev unit := bh_modify i (set_count (λ n, n + 1)).
Definition put_bh (i : nat) : M bdev unit := bh_modify i (set_count (λ n, n - 1)).
Definition put_bh_and_read (i : nat) : M bdev Z := put_bh i;; b ← bh_read i; mret (c_count b).
Definition trylock_buffer (i : nat) : M bdev bool :=
  b ← bh_read i; if c_lock b then mret false else bh_modify i (set_lock true);; mret true.
Definition lock_buffer (i : nat) : M bdev unit :=
  ok ← trylock_buffer i; if ok : bool then mret tt else fault "waits for its own b_lock".
Definition unlock_buffer (i : nat) : M bdev unit := bh_modify i (set_lock false).

(** ** The tree *)

(** [__buffer_search(root, blocknr)]; the difference is read as [int64_t]. *)
Fixpoint buffer_search_from (h : gmap nat cbh) (t : rb nat) (blocknr : Z) : outcome (option nat) :=
  match t with
  | Leaf => Ok None
  | Node _ l i r =>
      match h !! i with
      | None => Fault "buffer head is freed"
      | Some b =>
          let result := i64 (blocknr - c_blocknr b) in
          if result <? 0 then buffer_search_from h l blocknr
          else if 0 <? result then buffer_search_from h r blocknr
          else Ok (Some i)
      end
  end.
Definition buffer_search (blocknr : Z) : M bdev (option nat) := λ d,
  match buffer_search_from (bhs d) (bd_bh_root d) blocknr with
  | Ok r => Ok (r, d) | Panic w => Panic w | Fault w => Fault w | NoFuel => NoFuel
  end.

Definition blocknr_at (h : gmap nat cbh) (i : nat) : Z := from_option c_blocknr 0 (h !! i).

(** [buffer_blocknr_cmp(a, b)]. *)
Definition buffer_blocknr_cmp (h : gmap nat cbh) (i j : nat) : Z :=
  let diff := i64 (blocknr_at h i - blocknr_at h j) in
  if diff <? 0 then -1 else if 0 <? diff then 1 else 0.

(** [buffer_insert(bdev, bh)]: the result of [rb_insert] is not looked at. *)
Definition buffer_insert (i : nat) : M bdev unit := λ d,
  match rb_insert (buffer_blocknr_cmp (bhs d)) (bd_bh_root d) i with
  | Ok (_, r) => Ok (tt, set_root r d)
  | Panic w => Panic w | Fault w => Fault w | NoFuel => NoFuel
  end.

(** [__buffer_remove(bdev, bh)]. *)
Definition buffer_remove (i : nat) : M bdev unit := λ d,
  match locate (bd_bh_root d) i with
  | Some (k, Node c l _ r) =>
      match rb_erase k c l i r with
      | Ok t => Ok (tt, set_root t d)
      | Panic w => Panic w | Fault w => Fault w | NoFuel => NoFuel
      end
  | _ => Fault "not a node of the tree"
  end.

Section cache.
(** [unit] and [tail]: the transfer unit of the block devices and the content
    of their bounce buffer, as in [Storage].  [junk] is the content of the
    memory a new buffer gets. *)
Context (unit : Z) (tail junk : list Z).

(** [buffer_alloc(bdev, block_nr, page_size)]. *)
Definition buffer_alloc (block_nr page_size : Z) : M bdev nat := λ d,
  Ok (next_bh d,
      set_bhs (<[next_bh d := mkCbh block_nr page_size 0 0 junk false false None]> (bhs d))
        (S (next_bh d)) d).

(** [buffer_free(bh)]. *)
Definition buffer_free (i : nat) : M bdev Datatypes.unit :=
  modify (λ d, set_bhs (delete i (bhs d)) (next_bh d) d).

(** ** The lists *)
Definition without (i : nat) (l : list nat) : list nat := filter (λ j, j ≠ i) l.

Definition attach_bh_to_freelist (i : nat) : M bdev Datatypes.unit :=
  modify (λ d, if decide (i ∈ bd_bh_free d) then d
               else set_free (bd_bh_free d ++ [i]) (bd_nr_free d + 1) d).
Definition detach_bh_from_freelist (i : nat) : M bdev Datatypes.unit :=
  modify (λ d, if decide (i ∈ bd_bh_free d)
               then set_free (without i (bd_bh_free d)) (bd_nr_free d - 1) d else d).

Definition remove_first_bh_from_freelist : M bdev Datatypes.unit :=
  d ← get;
  match bd_bh_free d with
  | [] => mret tt
  | i :: l =>
      modify (set_free l (bd_nr_free d - 1));;
      buffer_remove i;;
      buffer_free i
  end.

Definition move_buffer_to_writeback (i : nat) : M bdev Datatypes.unit :=
  modify (λ d, if decide (i ∈ bd_bh_dirty d) then d
               else set_dirty (bd_bh_dirty d ++ [i]) (buffer_dirty_count d + 1) d).
Definition remove_first_buffer_from_writeback : M bdev (option nat) :=
  d ← get;
  match bd_bh_dirty d with
  | [] => mret None
  | i :: l => modify (set_dirty l (buffer_dirty_count d - 1));; mret (Some i)
  end.
Definition remove_buffer_from_writeback (i : nat) : M bdev Datatypes.unit :=
  modify (λ d, if decide (i ∈ bd_bh_dirty d)
               then set_dirty (without i (bd_bh_dirty d)) (buffer_dirty_count d - 1) d else d).

Definition add_buffer_to_ioqueue (i : nat) : M bdev Datatypes.unit :=
  modify (λ d, if decide (i ∈ bd_bh_ioqueue d) then d else set_ioqueue (bd_bh_ioqueue d ++ [i]) d).
Definition remove_first_buffer_from_ioqueue : M bdev (option nat) :=
  d ← get;
  match bd_bh_ioqueue d with
  | [] => mret None
  | i :: l => modify (set_ioqueue l);; mret (Some i)
  end.

(** [try_to_drop_buffers(bdev)] and [reclaim_buffer(bh)]. *)
Fixpoint drop_loop (fuel : nat) : M bdev Datatypes.unit :=
  d ← get;
  if buffer_free_threshold <? bd_nr_free d then
    match fuel with
    | O => nofuel
    | S fuel => remove_first_bh_from_freelist;; drop_loop fuel
    end
  else mret tt.
Definition try_to_drop_buffers : M bdev Datatypes.unit :=
  d ← get; drop_loop (length (bd_bh_free d)).
Definition reclaim_buffer (i : nat) : M bdev Datatypes.unit :=
  try_to_drop_buffers;; attach_bh_to_freelist i.

(** ** Transfers *)

(** [userfs_write(bh)] for a cached buffer. *)
Definition write_through (i : nat) : M bdev Datatypes.unit :=
  b ← bh_read i;
  d ← get;
  match userfs_write unit tail (mkBh (b_devid d) (c_blocknr b) (c_size b) 0) (c_data b) (disk d) with
  | Ok ds => modify (set_disk ds)
  | Panic w => panic w | Fault w => fault w | NoFuel => nofuel
  end.

(** [device_read] and [device_write] of one block. *)
Definition device_read (i : nat) : M bdev Z :=
  b ← bh_read i;
  assertM (c_size b =? g_block_size_bytes) "blk_size == g_block_size_bytes";;
  d ← get;
  match storage_engine unit tail (b_devid d) with
  | None => fault "g_bdev"
  | Some e =>
      let '(ret, bytes) := op_read e (c_blocknr b) g_block_size_bytes (disk d (b_devid d)) in
      when (0 <=? ret) (bh_modify i (set_data bytes));;
      mret (if ret <? 0 then -1 else ret)
  end.
Definition device_write (i : nat) : M bdev Z :=
  b ← bh_read i;
  assertM (c_size b =? g_block_size_bytes) "blk_size == g_block_size_bytes";;
  d ← get;
  match storage_engine unit tail (b_devid d) with
  | None => fault "g_bdev"
  | Some e =>
      match op_write e (c_data b) (c_blocknr b) g_block_size_bytes (disk d (b_devid d)) with
      | Ok (ret, m) =>
          modify (set_disk (set_dev (b_devid d) m (disk d)));;
          mret (if ret <? 0 then -1 else ret)
      | Panic w => panic w | Fault w => fault w | NoFuel => nofuel
      end
  end.

(** [after_buffer_sync], [after_buffer_write] and [after_submit_read]. *)
Definition run_end_io (e : end_io) (i : nat) (uptodate : bool) : M bdev Datatypes.unit :=
  when uptodate (set_buffer BH_Uptodate i);;
  put_bh i;;
  match e with
  | after_buffer_sync =>
      remove_buffer_from_writeback i;; clear_buffer BH_Dirty i;; attach_bh_to_freelist i
  | after_buffer_write => remove_buffer_from_writeback i;; clear_buffer BH_Dirty i
  | after_submit_read => mret tt
  end;;
  unlock_buffer i;;
  bh_modify i (set_wait false).

(** [__submit_bh(is_write, bh)]. *)
Definition submit_now (is_write : bool) (i : nat) : M bdev Datatypes.unit :=
  ret ← (if is_write then device_write i else device_read i);
  b ← bh_read i;
  match c_end_io b with
  | None => fault "b_end_io is null"
  | Some e => run_end_io e i (negb (ret <? 0))
  end.

(** [submit_bh(is_write, bh)]; the notification of the I/O thread is a write
    to a pipe. *)
Definition submit_bh (is_write : bool) (i : nat) : M bdev Z :=
  when is_write (set_buffer BH_Async_Write i);;
  add_buffer_to_ioqueue i;;
  mret 0.

(** [pthread_mutex_lock(&bh->b_wait_mutex)]. *)
Definition lock_wait (i : nat) : M bdev Datatypes.unit :=
  b ← bh_read i;
  if c_wait b then fault "waits for its own b_wait_mutex" else bh_modify i (set_wait true).

(** [bh_submit_read(bh)]. *)
Definition bh_submit_read (i : nat) : M bdev Z :=
  lock_buffer i;;
  b ← bh_read i;
  if buffer_bit BH_Uptodate b then unlock_buffer i;; mret 0
  else
    get_bh i;; clear_buffer BH_Dirty i;; remove_buffer_from_writeback i;;
    bh_modify i (set_end_io after_submit_read);;
    lock_wait i;;
    submit_bh false i.

(** [wait_on_buffer(bh, isread)]. *)
Definition wait_on_buffer (i : nat) : M bdev Datatypes.unit :=
  lock_wait i;; bh_modify i (set_wait false).

(** [sync_dirty_buffer(bh)]. *)
Definition sync_dirty_buffer (i : nat) : M bdev Z :=
  ok ← trylock_buffer i;
  if negb ok then mret 0
  else
    b ← bh_read i;
    if (c_count b <? 1) && buffer_bit BH_Dirty b then
      get_bh i;; write_through i;; set_buffer BH_Uptodate i;; put_bh i;;
      clear_buffer BH_Dirty i;; attach_bh_to_freelist i;; unlock_buffer i;; mret 0
    else unlock_buffer i;; mret 0.

(** [write_dirty_buffer(bh)]. *)
Definition write_dirty_buffer (i : nat) : M bdev Z :=
  ok ← trylock_buffer i;
  if negb ok then mret 0
  else
    b ← bh_read i;
    if buffer_bit BH_Dirty b then
      get_bh i;; bh_modify i (set_end_io after_buffer_write);; lock_wait i;; submit_bh true i
    else unlock_buffer i;; mret 0.

(** [__getblk(bdev, block, bsize)] and [sb_getblk]. *)
Definition getblk (block bsize : Z) : M bdev nat :=
  found ← buffer_search block;
  match found with
  | Some i =>
      detach_bh_from_freelist i;; remove_buffer_from_writeback i;; get_bh i;; mret i
  | None =>
      i ← buffer_alloc block bsize;
      buffer_insert i;; get_bh i;; mret i
  end.
Definition sb_getblk (block : Z) : M bdev nat := getblk block g_block_size_bytes.

(** [brelse(bh)]. *)
Definition brelse (i : nat) : M bdev Datatypes.unit :=
  refcount ← put_bh_and_read i;
  if 1 <=? refcount then mret tt
  else
    b ← bh_read i;
    if buffer_bit BH_Sync_Read b then buffer_free i
    else
      assertM (refcount =? 0) "refcount == 0";;
      if negb (buffer_bit BH_Dirty b) then reclaim_buffer i else move_buffer_to_writeback i.

(** [sync_all_buffers(bdev)]; [try_to_sync_buffers] has the same loop. *)
Fixpoint sync_loop (fuel : nat) : M bdev Datatypes.unit :=
  cur ← remove_first_buffer_from_writeback;
  match cur with
  | None => mret tt
  | Some i =>
      match fuel with
      | O => nofuel
      | S fuel => sync_dirty_buffer i;; sync_loop fuel
      end
  end.
Definition sync_all_buffers : M bdev Datatypes.unit :=
  d ← get; sync_loop (length (bd_bh_dirty d)).

(** [try_to_perform_io(bdev)], the work of the I/O thread. *)
Fixpoint perform_loop (fuel : nat) : M bdev Datatypes.unit :=
  cur ← remove_first_buffer_from_ioqueue;
  match cur with
  | None => mret tt
  | Some i =>
      match fuel with
      | O => nofuel
      | S fuel =>
          b ← bh_read i;
          clear_buffer BH_Async_Write i;;
          submit_now (buffer_bit BH_Async_Write b) i;;
          perform_loop fuel
      end
  end.
Definition try_to_perform_io : M bdev Datatypes.unit :=
  d ← get; perform_loop (length (bd_bh_ioqueue d)).

(** [bdev_free(bdev)] up to the destruction of the mutexes. *)
Fixpoint free_loop (fuel : nat) : M bdev Datatypes.unit :=
  d ← get;
  match rb_first (bd_bh_root d) with
  | None => mret tt
  | Some i =>
      match fuel with
      | O => nofuel
      | S fuel => detach_bh_from_freelist i;; buffer_remove i;; buffer_free i;; free_loop fuel
      end
  end.
Definition bdev_free : M bdev Datatypes.unit :=
  d ← get; free_loop (length (inorder (bd_bh_root d))).
End cache.
