(* ===== verification/BufCacheOk.v ===== *)
(** * BufCacheOk: the buffer cache is a write-back cache

    An invariant of the cache of [BufCache], the effect of each operation on
    what the cache stands for, and a refinement: the cache with its device
    behaves as an array of blocks with reference counts, whatever buffers are
    dropped in between. *)
From Stdlib Require Import ZArith Lia Sorted.
From stdpp Require Import base numbers list gmap strings.
From S2P Require Import Prelude Util Bytes RbTree RbErase Storage BufCache.

(** Block numbers for which differences and byte addresses do not wrap. *)
Definition block_ok (n : Z) : Prop := 0 ≤ n < 2 ^ 50.

Definition dirty_bit (b : cbh) : bool := buffer_bit BH_Dirty b.

(** A buffer between two calls. *)
Record buf_ok (b : cbh) : Prop := {
  buf_nr : block_ok (c_blocknr b);
  buf_size : c_size b = g_block_size_bytes;
  buf_data : length (c_data b) = 4096%nat;
  buf_count : 0 ≤ c_count b;
  buf_lock : c_lock b = false;
  buf_wait : c_wait b = false;
  buf_sync : buffer_bit BH_Sync_Read b = false;
  buf_async : buffer_bit BH_Async_Write b = false
}.

Definition nr_lt (h : gmap nat cbh) (i j : nat) : Prop := blocknr_at h i < blocknr_at h j.

(** A buffer that is not in use, clean or dirty. *)
Definition idle (h : gmap nat cbh) (dirt : bool) (i : nat) : Prop :=
  ∃ b, h !! i = Some b ∧ c_count b = 0 ∧ dirty_bit b = dirt.

(** The invariant; the buffer [x] is on its way from one list to another. *)
Record cache_ok (x : option nat) (d : bdev) : Prop := {
  k_dev : 1 ≤ b_devid d ≤ g_n_devices;
  k_rb : ∃ m, rbt Black m (bd_bh_root d);
  k_sorted : StronglySorted (nr_lt (bhs d)) (inorder (bd_bh_root d));
  k_dom : ∀ i, i ∈ inorder (bd_bh_root d) ↔ is_Some (bhs d !! i);
  k_fresh : ∀ i, is_Some (bhs d !! i) → (i < next_bh d)%nat;
  k_bufs : ∀ i b, bhs d !! i = Some b → buf_ok b;
  k_free_nodup : NoDup (bd_bh_free d);
  k_free : ∀ i, i ∈ bd_bh_free d ↔ x ≠ Some i ∧ idle (bhs d) false i;
  k_nr_free : bd_nr_free d = Z.of_nat (length (bd_bh_free d));
  k_dirty_nodup : NoDup (bd_bh_dirty d);
  k_dirty : ∀ i, i ∈ bd_bh_dirty d ↔ x ≠ Some i ∧ idle (bhs d) true i;
  k_nr_dirty : buffer_dirty_count d = Z.of_nat (length (bd_bh_dirty d));
  k_queue : bd_bh_ioqueue d = []
}.

(** ** What the cache stands for *)
Definition up_bit (b : cbh) : bool := buffer_bit BH_Uptodate b.

Definition cached (d : bdev) (n : Z) : option cbh :=
  match buffer_search_from (bhs d) (bd_bh_root d) n with
  | Ok (Some i) => bhs d !! i
  | _ => None
  end.

Definition on_disk (d : bdev) (n : Z) : list Z := load (disk d (b_devid d)) (n * 4096) 4096.

Lemma on_disk_same d d' n : disk d' = disk d → b_devid d' = b_devid d → on_disk d' n = on_disk d n.
Proof. unfold on_disk. by intros -> ->. Qed.

(** The content of a block: what is to be written, if anything is. *)
Definition view (d : bdev) (n : Z) : list Z :=
  match cached d n with
  | Some b => if dirty_bit b then c_data b else on_disk d n
  | None => on_disk d n
  end.

(** ** Lookup *)
Lemma i64_small z : - 2 ^ 63 ≤ z < 2 ^ 63 → i64 z = z.
Proof. intros H. unfold i64. rewrite Z.mod_small; lia. Qed.

Lemma nr_lookup h i b : h !! i = Some b → blocknr_at h i = c_blocknr b.
Proof. intros H. unfold blocknr_at. by rewrite H. Qed.

Lemma search_bh h t n :
  (∀ i, i ∈ inorder t → ∃ b, h !! i = Some b ∧ block_ok (c_blocknr b)) →
  StronglySorted (nr_lt h) (inorder t) → block_ok n →
  ∃ r, buffer_search_from h t n = Ok r
    ∧ ∀ i, r = Some i ↔ i ∈ inorder t ∧ blocknr_at h i = n.
Proof.
  intros Hh Hs Hn. induction t as [|c l IHl x r IHr]; simpl in *.
  { exists None. split; [done|]. intros i. split; [done|]. intros [Hi _]. by apply elem_of_nil in Hi. }
  apply SS_app in Hs as (Hsl & Hs & Hlr). inversion Hs as [|? ? Hsr Hxr]; subst.
  destruct (Hh x) as (b & Eb & Hb); [apply elem_of_app; right; by left|]. rewrite Eb.
  destruct IHl as (rl & El & Hl); [intros i Hi; apply Hh, elem_of_app; by left|done|].
  destruct IHr as (rr & Er & Hr); [intros i Hi; apply Hh, elem_of_app; right; by right|done|].
  assert (Hlx : ∀ i, i ∈ inorder l → blocknr_at h i < c_blocknr b).
  { intros i Hi. rewrite <- (nr_lookup h x b Eb). apply Hlr; [done|by left]. }
  assert (Hrx : ∀ i, i ∈ inorder r → c_blocknr b < blocknr_at h i).
  { intros i Hi. rewrite <- (nr_lookup h x b Eb). by eapply Forall_forall in Hxr. }
  unfold block_ok in *. rewrite i64_small by lia.
  pose proof (nr_lookup h x b Eb) as Ex.
  destruct (Z.ltb_spec (n - c_blocknr b) 0); [|destruct (Z.ltb_spec 0 (n - c_blocknr b))].
  - exists rl. split; [done|]. intros i. rewrite Hl, elem_of_app, elem_of_cons.
    split; [tauto|]. intros [[Hi|[->|Hi]] E]; [done|lia|]. specialize (Hrx i Hi). lia.
  - exists rr. split; [done|]. intros i. rewrite Hr, elem_of_app, elem_of_cons.
    split; [tauto|]. intros [[Hi|[->|Hi]] E]; [|lia|done]. specialize (Hlx i Hi). lia.
  - exists (Some x). split; [done|]. intros i. rewrite elem_of_app, elem_of_cons. split.
    + intros [= ->]. split; [by auto|lia].
    + intros [[Hi|[->|Hi]] E]; [|done|]; [specialize (Hlx i Hi)|specialize (Hrx i Hi)]; lia.
Qed.

Lemma tree_bh x d i : cache_ok x d → i ∈ inorder (bd_bh_root d) →
  ∃ b, bhs d !! i = Some b ∧ block_ok (c_blocknr b).
Proof.
  intros Hd Hi. apply (k_dom _ _ Hd) in Hi as [b Hb]. exists b. split; [done|].
  by eapply buf_nr, k_bufs.
Qed.

Lemma search_ok x d n :
  cache_ok x d → block_ok n →
  ∃ r, buffer_search_from (bhs d) (bd_bh_root d) n = Ok r
    ∧ ∀ i, r = Some i ↔ ∃ b, bhs d !! i = Some b ∧ c_blocknr b = n.
Proof.
  intros Hd Hn. destruct (search_bh (bhs d) (bd_bh_root d) n) as (r & E & Hr);
    [intros; by eapply tree_bh|by eapply k_sorted|done|].
  exists r. split; [done|]. intros i. rewrite Hr, (k_dom _ _ Hd). split.
  - intros [[b Hb] En]. exists b. split; [done|]. by rewrite <- (nr_lookup _ _ _ Hb).
  - intros (b & Hb & En). split; [by eexists|]. by rewrite (nr_lookup _ _ _ Hb).
Qed.

(** [cached] gives the one buffer with the block number. *)
Lemma cached_spec x d n b :
  cache_ok x d → block_ok n →
  cached d n = Some b ↔ ∃ i, bhs d !! i = Some b ∧ c_blocknr b = n.
Proof.
  intros Hd Hn. unfold cached. destruct (search_ok x d n Hd Hn) as (r & -> & Hr).
  destruct r as [i|].
  - destruct (proj1 (Hr i) eq_refl) as (b0 & Hb0 & En). split.
    + intros E. exists i. split; [done|]. congruence.
    + intros (j & Hj & Ej). assert (Some i = Some j) as [= ->] by (apply Hr; eauto). done.
  - split; [done|]. intros (j & Hj & Ej). by assert (None = Some j) by (apply Hr; eauto).
Qed.

Lemma cached_unique x d i j b c :
  cache_ok x d → bhs d !! i = Some b → bhs d !! j = Some c → c_blocknr b = c_blocknr c → i = j.
Proof.
  intros Hd Hi Hj E. pose proof (buf_nr _ (k_bufs _ _ Hd _ _ Hi)) as Hn.
  destruct (search_ok x d _ Hd Hn) as (r & _ & Hr).
  assert (r = Some i) by (apply Hr; eauto). assert (r = Some j) by (apply Hr; eauto). congruence.
Qed.

(** ** Changing one buffer *)

(** The relation of the lists to the buffers, for another store. *)
Lemma update_ok x x' d d' i b b' :
  cache_ok x d → bhs d !! i = Some b → c_blocknr b' = c_blocknr b → buf_ok b' →
  b_devid d' = b_devid d → bd_bh_root d' = bd_bh_root d → next_bh d' = next_bh d →
  bhs d' = <[i := b']> (bhs d) → bd_bh_ioqueue d' = [] →
  NoDup (bd_bh_free d') → bd_nr_free d' = Z.of_nat (length (bd_bh_free d')) →
  NoDup (bd_bh_dirty d') → buffer_dirty_count d' = Z.of_nat (length (bd_bh_dirty d')) →
  (∀ j, j ≠ i → x ≠ Some j ∧ x' ≠ Some j) →
  (∀ j, j ≠ i → j ∈ bd_bh_free d' ↔ j ∈ bd_bh_free d) →
  (∀ j, j ≠ i → j ∈ bd_bh_dirty d' ↔ j ∈ bd_bh_dirty d) →
  (i ∈ bd_bh_free d' ↔ x' ≠ Some i ∧ c_count b' = 0 ∧ dirty_bit b' = false) →
  (i ∈ bd_bh_dirty d' ↔ x' ≠ Some i ∧ c_count b' = 0 ∧ dirty_bit b' = true) →
  cache_ok x' d'.
Proof.
  intros Hd Hi En Hb Edev Eroot Enext Ebhs Eio Hnf Hcf Hnd Hcd Hx Hf Hdy Hfi Hdi.
  assert (Hnr : ∀ j, blocknr_at (bhs d') j = blocknr_at (bhs d) j).
  { intros j. unfold blocknr_at. rewrite Ebhs. destruct (decide (i = j)) as [<-|Hne].
    - by rewrite lookup_insert_eq, Hi.
    - by rewrite lookup_insert_ne. }
  assert (Hsome : ∀ j, is_Some (bhs d' !! j) ↔ is_Some (bhs d !! j)).
  { intros j. rewrite Ebhs. destruct (decide (i = j)) as [<-|Hne].
    - rewrite lookup_insert_eq, Hi. split; eauto.
    - by rewrite lookup_insert_ne. }
  assert (Hidle : ∀ dt j, j ≠ i → idle (bhs d') dt j ↔ idle (bhs d) dt j).
  { intros dt j Hj. unfold idle. rewrite Ebhs, lookup_insert_ne by done. done. }
  assert (Hidlei : ∀ dt, idle (bhs d') dt i ↔ c_count b' = 0 ∧ dirty_bit b' = dt).
  { intros dt. unfold idle. rewrite Ebhs, lookup_insert_eq. split.
    - intros (c & [= <-] & ?). done.
    - intros H. by exists b'. }
  destruct Hd as [Kdev Krb Ks Kdom Kfr Kb Kfn Kf Knf Kdn Kd Knd Kq].
  split; rewrite ?Edev, ?Eroot, ?Enext, ?Eio; try done.
  - clear - Ks Hnr. induction Ks as [|a l Ks IH Ha]; constructor; [done|].
    eapply Forall_impl; [exact Ha|]. intros j. unfold nr_lt. by rewrite !Hnr.
  - intros j. by rewrite Kdom, Hsome.
  - intros j Hj. apply Kfr. by apply Hsome.
  - intros j c. rewrite Ebhs. destruct (decide (i = j)) as [<-|Hne].
    + rewrite lookup_insert_eq. by intros [= <-].
    + rewrite lookup_insert_ne by done. apply Kb.
  - intros j. destruct (decide (j = i)) as [->|Hne]; [by rewrite Hidlei|].
    rewrite Hf, Kf, Hidle by done. destruct (Hx j Hne). tauto.
  - intros j. destruct (decide (j = i)) as [->|Hne]; [by rewrite Hidlei|].
    rewrite Hdy, Kd, Hidle by done. destruct (Hx j Hne). tauto.
Qed.

(** What the cache has after the change. *)
Lemma update_cached x x' d d' i b b' n :
  cache_ok x d → cache_ok x' d' → bhs d !! i = Some b → c_blocknr b' = c_blocknr b →
  bhs d' = <[i := b']> (bhs d) → block_ok n →
  cached d' n = if decide (c_blocknr b = n) then Some b' else cached d n.
Proof.
  intros Hd Hd' Hi En Ebhs Hn. destruct (decide (c_blocknr b = n)) as [E|E].
  - apply (cached_spec x' d' n b' Hd' Hn). exists i. rewrite Ebhs, lookup_insert_eq. split; [done|congruence].
  - apply option_eq. intros c. rewrite (cached_spec x' d' n c Hd' Hn), (cached_spec x d n c Hd Hn).
    rewrite Ebhs. split; intros (j & Hj & Ej); exists j; (split; [|done]).
    + destruct (decide (i = j)) as [<-|Hne]; [|by rewrite lookup_insert_ne in Hj].
      rewrite lookup_insert_eq in Hj. simplify_eq.
    + rewrite lookup_insert_ne; [done|]. intros <-. simplify_eq.
Qed.

(** ** Running the operations *)
Definition put_buf (i : nat) (b : cbh) (d : bdev) : bdev := set_bhs (<[i := b]> (bhs d)) (next_bh d) d.

Lemma bh_modify_eq i f d b :
  bhs d !! i = Some b → bh_modify i f d = Ok (tt, put_buf i (f b) d).
Proof. intros H. unfold bh_modify, bh_read. unfold_M. by rewrite H. Qed.

Lemma bh_read_eq i d b : bhs d !! i = Some b → bh_read i d = Ok (b, d).
Proof. intros H. unfold bh_read. by rewrite H. Qed.

Lemma put_buf_lookup i b d : bhs (put_buf i b d) !! i = Some b.
Proof. simpl. apply lookup_insert_eq. Qed.

Lemma put_buf_put_buf i b b' d : put_buf i b (put_buf i b' d) = put_buf i b d.
Proof. unfold put_buf. simpl. by rewrite insert_insert_eq. Qed.

(** A run that ends well, with what holds of its result. *)
Definition ends {A} (m : M bdev A) (d : bdev) (Q : A → bdev → Prop) : Prop :=
  ∃ a d', m d = Ok (a, d') ∧ Q a d'.

Lemma ends_ret {A} (a : A) d (Q : A → bdev → Prop) : Q a d → ends (mret a) d Q.
Proof. intros H. by exists a, d. Qed.

Lemma ends_bind {A B} (m : M bdev A) (f : A → M bdev B) d (Q : B → bdev → Prop) :
  ends m d (λ a d', ends (f a) d' Q) → ends (m ≫= f) d Q.
Proof.
  intros (a & d1 & E & b & d2 & E2 & HQ). exists b, d2. split; [|done].
  unfold mbind, M_bind. by rewrite E.
Qed.

Lemma ends_impl {A} (m : M bdev A) d (Q Q' : A → bdev → Prop) :
  ends m d Q → (∀ a d', Q a d' → Q' a d') → ends m d Q'.
Proof. intros (a & d' & E & H) Hi. exists a, d'. auto. Qed.

Lemma ends_eq {A} (m : M bdev A) d a d' (Q : A → bdev → Prop) :
  m d = Ok (a, d') → Q a d' → ends m d Q.
Proof. intros E H. by exists a, d'. Qed.

Lemma ends_modify f d (Q : unit → bdev → Prop) : Q tt (f d) → ends (modify f) d Q.
Proof. intros H. by exists tt, (f d). Qed.

Lemma ends_get d (Q : bdev → bdev → Prop) : Q d d → ends get d Q.
Proof. intros H. by exists d, d. Qed.

Lemma ends_read i d b (Q : cbh → bdev → Prop) :
  bhs d !! i = Some b → Q b d → ends (bh_read i) d Q.
Proof. intros H HQ. eapply ends_eq; [by apply bh_read_eq|done]. Qed.

Lemma ends_bh_modify i f d b (Q : unit → bdev → Prop) :
  bhs d !! i = Some b → Q tt (put_buf i (f b) d) → ends (bh_modify i f) d Q.
Proof. intros H HQ. eapply ends_eq; [by apply bh_modify_eq|done]. Qed.

(** The same on the state just stored to. *)
Lemma ends_put_modify i f b d (Q : unit → bdev → Prop) :
  Q tt (put_buf i (f b) d) → ends (bh_modify i f) (put_buf i b d) Q.
Proof.
  intros HQ. eapply ends_bh_modify; [apply put_buf_lookup|]. by rewrite put_buf_put_buf.
Qed.

(** ** Lists without an element *)
Lemma without_elem i j l : j ∈ without i l ↔ j ∈ l ∧ j ≠ i.
Proof. unfold without. rewrite list_elem_of_filter. tauto. Qed.

Lemma without_nodup i l : NoDup l → NoDup (without i l).
Proof. apply NoDup_filter. Qed.

Lemma without_absent i l : i ∉ l → without i l = l.
Proof.
  intros H. unfold without. induction l as [|a l IH]; [done|].
  apply not_elem_of_cons in H as [Hne H]. rewrite filter_cons_True by done. by rewrite IH.
Qed.

Lemma without_length i l : NoDup l → i ∈ l → S (length (without i l)) = length l.
Proof.
  induction 1 as [|a l Ha Hn IH]; intros Hi; [by apply elem_of_nil in Hi|].
  unfold without. destruct (decide (a = i)) as [->|Hne].
  - rewrite filter_cons_False by (by intros H). fold (without i l). by rewrite without_absent.
  - rewrite filter_cons_True by done. simpl. fold (without i l).
    apply elem_of_cons in Hi as [->|Hi]; [done|]. by rewrite IH.
Qed.

Lemma snoc_nodup {A} (l : list A) i : NoDup l → i ∉ l → NoDup (l ++ [i]).
Proof.
  intros Hn Hi. apply NoDup_app. split; [done|]. split; [|apply NoDup_singleton].
  by intros j Hj ->%list_elem_of_singleton.
Qed.

Lemma snoc_elem {A} (l : list A) i j : j ∈ l ++ [i] ↔ j ∈ l ∨ j = i.
Proof. by rewrite elem_of_app, list_elem_of_singleton. Qed.

(** The list operations on a cache in order. *)
Lemma detach_eq x d i :
  cache_ok x d →
  detach_bh_from_freelist i d
  = Ok (tt, set_free (without i (bd_bh_free d)) (Z.of_nat (length (without i (bd_bh_free d)))) d).
Proof.
  intros Hd. unfold detach_bh_from_freelist, modify. destruct (decide _) as [Hi|Hi].
  - pose proof (without_length _ _ (k_free_nodup _ _ Hd) Hi). rewrite (k_nr_free _ _ Hd).
    do 4 f_equal. lia.
  - rewrite without_absent, <- (k_nr_free _ _ Hd) by done. by destruct d.
Qed.

Lemma unwriteback_eq x d i fl nf :
  cache_ok x d →
  remove_buffer_from_writeback i (set_free fl nf d)
  = Ok (tt, set_dirty (without i (bd_bh_dirty d)) (Z.of_nat (length (without i (bd_bh_dirty d))))
              (set_free fl nf d)).
Proof.
  intros Hd. unfold remove_buffer_from_writeback, modify. simpl. destruct (decide _) as [Hi|Hi].
  - pose proof (without_length _ _ (k_dirty_nodup _ _ Hd) Hi). rewrite (k_nr_dirty _ _ Hd).
    do 4 f_equal. lia.
  - rewrite without_absent, <- (k_nr_dirty _ _ Hd) by done. by destruct d.
Qed.

Definition held (d : bdev) (i : nat) (n c : Z) : Prop :=
  ∃ b, bhs d !! i = Some b ∧ c_blocknr b = n ∧ c_count b = c ∧ 0 < c.

(** The bytes of an up-to-date buffer are those of its block, and a buffer
    with bytes to be written is up to date. *)
Definition sound_buf (v : Z → list Z) (b : cbh) : Prop :=
  (dirty_bit b = true → up_bit b = true) ∧ (up_bit b = true → c_data b = v (c_blocknr b)).
Definition sound (d : bdev) : Prop := ∀ i b, bhs d !! i = Some b → sound_buf (view d) b.

(** A step that changes the content of no block. *)
Record keeps (d d' : bdev) : Prop := {
  keep_view : ∀ n, block_ok n → view d' n = view d n;
  keep_sound : sound d → sound d';
  keep_dev : b_devid d' = b_devid d
}.

(** A step that does not write to the device either. *)
Record quiet (d d' : bdev) : Prop := {
  quiet_keeps : keeps d d';
  quiet_disk : ∀ n, on_disk d' n = on_disk d n
}.

#[global] Instance keeps_trans : Transitive keeps.
Proof.
  intros d1 d2 d3 [Hv Hs Hi] [Hv' Hs' Hi']. split; [|by auto|congruence].
  intros n Hn. by rewrite Hv', Hv.
Qed.
#[global] Instance quiet_trans : Transitive quiet.
Proof.
  intros d1 d2 d3 [Hk Hd] [Hk' Hd']. split; [by etransitivity|]. intros n. by rewrite Hd', Hd.
Qed.
#[global] Instance quiet_refl : Reflexive quiet.
Proof. by intros d. Qed.

(** The buffers of [d'] are buffers of [d] with the same bytes, or new ones
    without any. *)
Lemma sound_from x d d' :
  cache_ok x d' → b_devid d' = b_devid d → (∀ n, block_ok n → view d' n = view d n) →
  (∀ j b', bhs d' !! j = Some b' →
     (dirty_bit b' = false ∧ up_bit b' = false) ∨
     ∃ b, bhs d !! j = Some b ∧ c_blocknr b = c_blocknr b' ∧ c_data b = c_data b' ∧
       ((dirty_bit b' = dirty_bit b ∧ up_bit b' = up_bit b) ∨ (dirty_bit b' = false ∧ dirty_bit b = true))) →
  keeps d d'.
Proof.
  intros Hd' Hdev Hv Hb. split; [done| |done]. intros Hs j b' Hj.
  destruct (Hb j b' Hj) as [[E1 E2]|(b & Hj0 & En & Ed & H)]; [split; congruence|].
  destruct (Hs j b Hj0) as [H1 H2]. unfold sound_buf. rewrite Hv by (by eapply buf_nr, k_bufs).
  rewrite <- Ed, <- En. destruct H as [[-> ->]|[-> Hdt]]; [done|]. split; [done|]. auto.
Qed.

(** The effect of a change of one buffer on what the cache stands for. *)
Lemma update_view x x' d d' i b b' n :
  cache_ok x d → cache_ok x' d' → bhs d !! i = Some b → c_blocknr b' = c_blocknr b →
  bhs d' = <[i := b']> (bhs d) → block_ok n → disk d' = disk d → b_devid d' = b_devid d →
  view d' n = if decide (c_blocknr b = n) then if dirty_bit b' then c_data b' else on_disk d n
              else view d n.
Proof.
  intros Hd Hd' Hi En Eb Hn Ed Ei. unfold view.
  rewrite (update_cached x x' d d' i b b' n Hd Hd' Hi En Eb Hn), (on_disk_same d d') by done.
  by destruct (decide (c_blocknr b = n)).
Qed.

Lemma view_own x d i b :
  cache_ok x d → bhs d !! i = Some b →
  view d (c_blocknr b) = if dirty_bit b then c_data b else on_disk d (c_blocknr b).
Proof.
  intros Hd Hi. unfold view.
  assert (cached d (c_blocknr b) = Some b) as ->; [|done].
  apply (cached_spec x d _ b Hd); [by eapply buf_nr, k_bufs|by eauto].
Qed.

(** A buffer changed in what does not bear on the content of its block. *)
Lemma update_same_view x x' d d' i b b' n :
  cache_ok x d → cache_ok x' d' → bhs d !! i = Some b → c_blocknr b' = c_blocknr b →
  dirty_bit b' = dirty_bit b → c_data b' = c_data b →
  bhs d' = <[i := b']> (bhs d) → block_ok n → disk d' = disk d → b_devid d' = b_devid d →
  view d' n = view d n.
Proof.
  intros Hd Hd' Hi En Edt Edata Eb Hn Ed Ei.
  rewrite (update_view x x' d d' i b b' n) by done. rewrite Edt, Edata.
  destruct (decide (c_blocknr b = n)) as [<-|]; [|done]. symmetry. by eapply view_own.
Qed.

Lemma update_quiet x x' d d' i b b' :
  cache_ok x d → cache_ok x' d' → bhs d !! i = Some b → c_blocknr b' = c_blocknr b →
  c_state b' = c_state b → c_data b' = c_data b →
  bhs d' = <[i := b']> (bhs d) → disk d' = disk d → b_devid d' = b_devid d → quiet d d'.
Proof.
  intros Hd Hd' Hi En Es Edata Eb Ed Ei.
  assert (Hdt : dirty_bit b' = dirty_bit b) by (unfold dirty_bit, buffer_bit; by rewrite Es).
  assert (Hut : up_bit b' = up_bit b) by (unfold up_bit, buffer_bit; by rewrite Es).
  split; [|intros n; by apply on_disk_same]. eapply sound_from; [done..| |].
  - intros n Hn. by apply (update_same_view x x' d d' i b b' n).
  - intros j b0. rewrite Eb. destruct (decide (i = j)) as [<-|].
    + rewrite lookup_insert_eq. intros [= <-]. right. exists b. rewrite En, Edata, Hdt, Hut. auto 10.
    + rewrite lookup_insert_ne by done. intros Hj. right. exists b0. auto 10.
Qed.

Lemma held_update d d' i b' j n c :
  bhs d' = <[i := b']> (bhs d) →
  held d' j n c ↔ if decide (j = i) then c_blocknr b' = n ∧ c_count b' = c ∧ 0 < c else held d j n c.
Proof.
  intros Eb. unfold held. rewrite Eb. destruct (decide (j = i)) as [->|Hne].
  - rewrite lookup_insert_eq. split; [by intros (b & [= <-] & ?)|]. intros H. by exists b'.
  - by rewrite lookup_insert_ne.
Qed.

(** [__getblk] of a block that is in the cache. *)
Lemma getblk_hit x d i b junk :
  cache_ok None d → bhs d !! i = Some b → x = c_blocknr b →
  ends (getblk junk x g_block_size_bytes) d (λ r d', r = i ∧ cache_ok None d'
    ∧ quiet d d'
    ∧ ∀ j n c, held d' j n c ↔ if decide (j = i) then n = x ∧ c = c_count b + 1 else held d j n c).
Proof.
  intros Hd Hi ->. pose proof (k_bufs _ _ Hd _ _ Hi) as Hb.
  pose proof (buf_nr _ Hb) as Hnr. pose proof (buf_count _ Hb) as Hcnt.
  destruct (search_ok None d _ Hd Hnr) as (r & Er & Hr).
  assert (r = Some i) as -> by (apply Hr; eauto).
  set (b' := set_count (λ n, n + 1) b).
  set (d' := put_buf i b' (set_dirty (without i (bd_bh_dirty d))
               (Z.of_nat (length (without i (bd_bh_dirty d))))
               (set_free (without i (bd_bh_free d)) (Z.of_nat (length (without i (bd_bh_free d)))) d))).
  assert (E : getblk junk (c_blocknr b) g_block_size_bytes d = Ok (i, d')).
  { unfold getblk, buffer_search, mbind at 1, M_bind at 1. rewrite Er.
    unfold mbind, M_bind. rewrite (detach_eq None d i Hd), (unwriteback_eq None d i _ _ Hd).
    unfold get_bh. by rewrite (bh_modify_eq i _ _ b) by done. }
  assert (Hok : cache_ok None d').
  { apply (update_ok None None d d' i b b' Hd Hi); try done; simpl.
    - destruct Hb. split; simpl; try done; lia.
    - apply (k_queue _ _ Hd).
    - apply without_nodup, (k_free_nodup _ _ Hd).
    - apply without_nodup, (k_dirty_nodup _ _ Hd).
    - intros j Hj. rewrite without_elem. tauto.
    - intros j Hj. rewrite without_elem. tauto.
    - rewrite without_elem. split; [tauto|]. intros (_ & H & _). lia.
    - rewrite without_elem. split; [tauto|]. intros (_ & H & _). lia. }
  eapply ends_eq; [exact E|]. split; [done|]. split; [done|]. split.
  - by apply (update_quiet None None d d' i b b').
  - intros j n c. rewrite (held_update d d' i b') by done.
    destruct (decide (j = i)); [|done]. simpl. split; [intros (<- & <- & _); done|].
    intros [-> ->]. split; [done|]. split; [done|]. lia.
Qed.

Lemma cmp_sign h i j b c :
  h !! i = Some b → h !! j = Some c → block_ok (c_blocknr b) → block_ok (c_blocknr c) →
  (buffer_blocknr_cmp h i j < 0 ↔ blocknr_at h i < blocknr_at h j)
  ∧ (0 < buffer_blocknr_cmp h i j ↔ blocknr_at h j < blocknr_at h i).
Proof.
  intros Hi Hj Hb Hc. unfold buffer_blocknr_cmp, block_ok in *.
  rewrite (nr_lookup _ _ _ Hi), (nr_lookup _ _ _ Hj), i64_small by lia.
  destruct (Z.ltb_spec (c_blocknr b - c_blocknr c) 0); [lia|].
  destruct (Z.ltb_spec 0 (c_blocknr b - c_blocknr c)); lia.
Qed.

Lemma SS_ext {A} (R R' : A → A → Prop) l :
  (∀ a b, a ∈ l → b ∈ l → R a b → R' a b) → StronglySorted R l → StronglySorted R' l.
Proof.
  intros H Hs. induction Hs as [|a l Hs IH Ha]; constructor.
  - apply IH. intros x y Hx Hy. apply H; by right.
  - apply Forall_forall. intros y Hy. apply H; [by left|by right|]. by eapply Forall_forall in Ha.
Qed.

(** The address of a buffer that is to be allocated is in use nowhere. *)
Lemma next_unused d :
  cache_ok None d → bhs d !! next_bh d = None ∧ next_bh d ∉ inorder (bd_bh_root d)
    ∧ next_bh d ∉ bd_bh_free d ∧ next_bh d ∉ bd_bh_dirty d.
Proof.
  intros Hd. assert (E : bhs d !! next_bh d = None).
  { destruct (bhs d !! next_bh d) as [b|] eqn:E; [|done].
    assert (next_bh d < next_bh d)%nat by (apply (k_fresh _ _ Hd); by rewrite E). lia. }
  split; [done|]. rewrite (k_dom _ _ Hd), (k_free _ _ Hd), (k_dirty _ _ Hd), E.
  split; [by intros [? ?]|]. unfold idle. rewrite E. split; intros (_ & ? & ? & _); done.
Qed.

Definition new_buf (junk : list Z) (n c : Z) : cbh :=
  mkCbh n g_block_size_bytes 0 c junk false false None.

(** A buffer linked under a block number that was not cached. *)
Lemma link_bh d n junk :
  cache_ok None d → block_ok n → (∀ i b, bhs d !! i = Some b → c_blocknr b ≠ n) →
  ∃ t m pre post,
    rb_insert (buffer_blocknr_cmp (<[next_bh d := new_buf junk n 0]> (bhs d))) (bd_bh_root d) (next_bh d)
    = Ok (0, t)
    ∧ rbt Black m t ∧ inorder (bd_bh_root d) = pre ++ post ∧ inorder t = pre ++ next_bh d :: post
    ∧ StronglySorted (nr_lt (<[next_bh d := new_buf junk n 0]> (bhs d))) (inorder t).
Proof.
  intros Hd Hn Hno. destruct (k_rb _ _ Hd) as [m Hm].
  destruct (next_unused d Hd) as (_ & Hnew & _).
  set (h := <[next_bh d := new_buf junk n 0]> (bhs d)).
  assert (Hold : ∀ j, j ∈ inorder (bd_bh_root d) → ∃ b, bhs d !! j = Some b ∧ h !! j = Some b
            ∧ block_ok (c_blocknr b)).
  { intros j Hj. destruct (tree_bh None d j Hd Hj) as (b & Hb & Hok). exists b. unfold h.
    rewrite lookup_insert_ne; [done|]. by intros <-. }
  assert (Hi : h !! next_bh d = Some (new_buf junk n 0)) by apply lookup_insert_eq.
  destruct (rb_insert_ok (buffer_blocknr_cmp h) (blocknr_at h) (bd_bh_root d) m (next_bh d))
    as [(_ & y & Hy & Ey)|(t & m' & pre & post & E & Hm' & E1 & E2 & Hs & _)]; [done| | | |].
  - intros j Hj. destruct (Hold j Hj) as (b & _ & Hb & Hok). by eapply cmp_sign.
  - eapply SS_ext; [|exact (k_sorted _ _ Hd)]. intros a c Ha Hc. unfold nr_lt, blocknr_at.
    destruct (Hold a Ha) as (ba & -> & -> & _), (Hold c Hc) as (bc & -> & -> & _). done.
  - exfalso. destruct (Hold y Hy) as (b & Hb & Hb' & _).
    rewrite (nr_lookup _ _ _ Hb'), (nr_lookup _ _ _ Hi) in Ey. by eapply Hno.
  - by exists t, m', pre, post.
Qed.

(** *** The cache with the new buffer [b], and [t] for its tree *)
Definition with_new (t : rb nat) (b : cbh) (d : bdev) : bdev :=
  mkBdev (b_devid d) t (bd_bh_free d) (bd_bh_dirty d) (bd_bh_ioqueue d) (bd_nr_free d)
    (<[next_bh d := b]> (bhs d)) (S (next_bh d)) (buffer_dirty_count d) (disk d).

(** It is in use, so the lists stay. *)
Lemma with_new_idle t b d dt j :
  cache_ok None d → c_count b ≠ 0 → idle (bhs (with_new t b d)) dt j ↔ idle (bhs d) dt j.
Proof.
  intros Hd Hb. destruct (next_unused d Hd) as (Hnone & _). unfold idle. simpl.
  destruct (decide (next_bh d = j)) as [<-|Hne]; [|by rewrite lookup_insert_ne].
  rewrite lookup_insert_eq, Hnone. split; [intros (? & [= <-] & Hz & _)|intros (? & ? & _)]; done.
Qed.

Lemma with_new_ok t m b d pre post :
  cache_ok None d → buf_ok b → c_count b ≠ 0 → rbt Black m t →
  inorder (bd_bh_root d) = pre ++ post → inorder t = pre ++ next_bh d :: post →
  StronglySorted (nr_lt (<[next_bh d := b]> (bhs d))) (inorder t) → cache_ok None (with_new t b d).
Proof.
  intros Hd Hb Hc Hm E1 E2 Hs. pose proof (with_new_idle t b d) as Hidle.
  destruct (next_unused d Hd) as (Hnone & Hnew & _).
  pose proof Hd as [Kdev Krb Ks Kdom Kfr Kb Kfn Kf Knf Kdn Kd Knd Kq].
  set (i := next_bh d) in *. split; simpl; try done.
  - by exists m.
  - intros j. rewrite E2, elem_of_app, elem_of_cons. fold i. destruct (decide (i = j)) as [<-|Hne].
    + rewrite lookup_insert_eq. split; [by eauto|by auto].
    + rewrite lookup_insert_ne, <- Kdom, E1, elem_of_app by done. naive_solver.
  - intros j. fold i. destruct (decide (i = j)) as [<-|Hne]; [lia|].
    rewrite lookup_insert_ne by done. intros H. specialize (Kfr j H). unfold i. lia.
  - intros j c. fold i. destruct (decide (i = j)) as [<-|Hne].
    + rewrite lookup_insert_eq. by intros [= <-].
    + rewrite lookup_insert_ne by done. apply Kb.
  - intros j. by rewrite Hidle.
  - intros j. by rewrite Hidle.
Qed.

(** A buffer that has no valid bytes yet changes the content of no block. *)
Lemma with_new_quiet t b d :
  cache_ok None d → cache_ok None (with_new t b d) → up_bit b = false → dirty_bit b = false →
  (∀ i c, bhs d !! i = Some c → c_blocknr c ≠ c_blocknr b) → quiet d (with_new t b d).
Proof.
  intros Hd Hok Hu Hdt Hno. set (d' := with_new t b d) in *. destruct (next_unused d Hd) as (Hnone & _).
  split; [|intros k; by apply on_disk_same]. eapply sound_from; [done..| |].
  2:{ intros j c. simpl. destruct (decide (next_bh d = j)) as [<-|].
      - rewrite lookup_insert_eq. intros [= <-]. by left.
      - rewrite lookup_insert_ne by done. intros Hj. right. exists c. auto 10. }
  intros k Hk. unfold view. rewrite (on_disk_same d d') by done.
  destruct (decide (k = c_blocknr b)) as [->|Hne].
  - assert (cached d' (c_blocknr b) = Some b) as ->.
    { apply (cached_spec None d' _ b Hok Hk). exists (next_bh d). split; [apply lookup_insert_eq|done]. }
    rewrite Hdt. destruct (cached d (c_blocknr b)) as [c|] eqn:Ec; [|done].
    apply (cached_spec None d _ c Hd Hk) in Ec as (j & Hj & En). by destruct (Hno j c Hj).
  - assert (cached d' k = cached d k) as ->; [|done]. apply option_eq. intros c.
    rewrite (cached_spec None d' k c Hok Hk), (cached_spec None d k c Hd Hk). simpl.
    split; intros (j & Hj & Ej); exists j; (split; [|done]).
    + destruct (decide (next_bh d = j)) as [<-|]; [|by rewrite lookup_insert_ne in Hj].
      rewrite lookup_insert_eq in Hj. by simplify_eq.
    + rewrite lookup_insert_ne; [done|]. intros <-. by rewrite Hnone in Hj.
Qed.

(** [__getblk] of a block that is not in the cache. *)
Lemma getblk_miss d n junk :
  cache_ok None d → block_ok n → length junk = 4096%nat →
  (∀ i b, bhs d !! i = Some b → c_blocknr b ≠ n) →
  ends (getblk junk n g_block_size_bytes) d (λ r d', r = next_bh d ∧ cache_ok None d'
    ∧ quiet d d'
    ∧ ∀ j k c, held d' j k c ↔ if decide (j = next_bh d) then k = n ∧ c = 1 else held d j k c).
Proof.
  intros Hd Hn Hjunk Hno. destruct (search_ok None d n Hd Hn) as (r & Er & Hr).
  assert (r = None) as ->.
  { destruct r as [i|]; [|done]. destruct (proj1 (Hr i) eq_refl) as (b & Hb & En).
    by destruct (Hno i b Hb). }
  destruct (link_bh d n junk Hd Hn Hno) as (t & m & pre & post & Et & Hm & E1 & E2 & Hs).
  set (b' := new_buf junk n 1). set (d' := with_new t b' d).
  assert (E : getblk junk n g_block_size_bytes d = Ok (next_bh d, d')).
  { unfold getblk, buffer_search, mbind at 1, M_bind at 1. rewrite Er.
    unfold mbind, M_bind, buffer_alloc, buffer_insert. simpl. fold (new_buf junk n 0).
    rewrite Et. simpl. unfold get_bh. rewrite (bh_modify_eq (next_bh d) _ _ (new_buf junk n 0))
      by (simpl; apply lookup_insert_eq). unfold put_buf. simpl. by rewrite insert_insert_eq. }
  assert (Hok : cache_ok None d').
  { eapply (with_new_ok t m b' d pre post); [done|by split|done..|]. eapply SS_ext; [|exact Hs]. intros a c _ _. unfold nr_lt, blocknr_at.
    destruct (decide (next_bh d = a)) as [<-|], (decide (next_bh d = c)) as [<-|];
      rewrite ?lookup_insert_eq, ?lookup_insert_ne by done; done. }
  eapply ends_eq; [exact E|]. split; [done|]. split; [done|]. split; [by apply with_new_quiet|].
  intros j k c. rewrite (held_update d d' (next_bh d) b') by done.
  destruct (decide (j = next_bh d)); [|done]. simpl. split; [by intros (<- & <- & _)|].
  intros [-> ->]. split; [done|]. split; [done|lia].
Qed.

(** What is left as it is when unused buffers are dropped. *)
Record dropped (x : option nat) (d d' : bdev) : Prop := {
  drop_ok : cache_ok x d';
  drop_quiet : quiet d d';
  drop_held : ∀ j n c, held d' j n c ↔ held d j n c;
  drop_moving : ∀ i, x = Some i → bhs d' !! i = bhs d !! i;
  drop_dirty : bd_bh_dirty d' = bd_bh_dirty d
}.

Lemma dropped_refl x d : cache_ok x d → dropped x d d.
Proof. by split. Qed.

Lemma dropped_trans x d1 d2 d3 : dropped x d1 d2 → dropped x d2 d3 → dropped x d1 d3.
Proof.
  intros [_ Hv Hh Hm Hdy] [Hok Hv' Hh' Hm' Hdy']. split; [done|..].
  - by etransitivity.
  - intros j n c. by rewrite Hh', Hh.
  - intros i Hi. by rewrite Hm', Hm.
  - by rewrite Hdy'.
Qed.

Lemma remove_eq d m i :
  rbt Black m (bd_bh_root d) → i ∈ inorder (bd_bh_root d) → NoDup (inorder (bd_bh_root d)) →
  ∃ t m' pre post, buffer_remove i d = Ok (tt, set_root t d) ∧ rbt Black m' t
    ∧ inorder (bd_bh_root d) = pre ++ i :: post ∧ inorder t = pre ++ post.
Proof.
  intros Hm Hi Hn. destruct (locate_elem _ [] i Hi) as (k & c & l & r & Et & El).
  rewrite app_nil_r in El. rewrite Et in Hm. pose proof (fits_here _ _ _ _ _ _ Hm) as Hf.
  destruct (rb_erase_ok k c l i r Hf) as (t & m' & Ee & Hm' & Hin).
  exists t, m', (before k ++ inorder l), (inorder r ++ after k). unfold buffer_remove, locate.
  rewrite El, Ee. split; [done|]. split; [done|]. rewrite Hin, Et. unfold here.
  rewrite inorder_plug. simpl. by rewrite <- !app_assoc.
Qed.

Lemma bufs_nodup x d : cache_ok x d → NoDup (inorder (bd_bh_root d)).
Proof.
  intros Hd. pose proof (k_sorted _ _ Hd) as Hs.
  induction Hs as [|a l Hs IH Ha]; constructor; [|done].
  intros Hin. eapply Forall_forall in Ha; [|exact Hin]. unfold nr_lt in Ha. lia.
Qed.

Lemma SS_sub {A} (R : A → A → Prop) i pre post :
  StronglySorted R (pre ++ i :: post) → StronglySorted R (pre ++ post).
Proof.
  intros (H1 & H2 & H12)%SS_app. apply SS_app. inversion H2; subst. split; [done|]. split; [done|].
  intros x y Hx Hy. apply H12; [done|by right].
Qed.

(** *** The cache without the buffer [i], with [t] for its tree and [l] for
    its list of unused buffers *)
Definition bh_gone (i : nat) (t : rb nat) (l : list nat) (d : bdev) : bdev :=
  mkBdev (b_devid d) t l (bd_bh_dirty d) (bd_bh_ioqueue d) (bd_nr_free d - 1)
    (delete i (bhs d)) (next_bh d) (buffer_dirty_count d) (disk d).

Lemma bh_gone_lookup i t l d j c : bhs (bh_gone i t l d) !! j = Some c ↔ j ≠ i ∧ bhs d !! j = Some c.
Proof. simpl. rewrite lookup_delete_Some. naive_solver. Qed.

Lemma bh_gone_idle i t l d dt j : idle (bhs (bh_gone i t l d)) dt j ↔ j ≠ i ∧ idle (bhs d) dt j.
Proof. unfold idle. setoid_rewrite bh_gone_lookup. naive_solver. Qed.

(** The tree loses exactly [i]. *)
Lemma split_elem {A} (pre post : list A) i j :
  NoDup (pre ++ i :: post) → j ∈ pre ++ post ↔ j ≠ i ∧ j ∈ pre ++ i :: post.
Proof.
  intros (_ & H1 & [H2 _]%NoDup_cons)%NoDup_app. rewrite !elem_of_app, elem_of_cons. split; [|tauto].
  intros [H|H]; (split; [|tauto]); intros ->; [|done]. eapply H1; [exact H|by left].
Qed.

Lemma bh_gone_ok x d i l t m pre post :
  cache_ok x d → bd_bh_free d = i :: l → idle (bhs d) false i → rbt Black m t →
  inorder (bd_bh_root d) = pre ++ i :: post → inorder t = pre ++ post →
  cache_ok x (bh_gone i t l d).
Proof.
  intros Hd Ef Hi Hm E1 E2. pose proof (bufs_nodup _ _ Hd) as Hnd. rewrite E1 in Hnd.
  assert (Hsp : ∀ j, j ∈ pre ++ post ↔ j ≠ i ∧ j ∈ pre ++ i :: post) by (intros; by apply split_elem).
  pose proof Hd as [Kdev Krb Ks Kdom Kfr Kb Kfn Kf Knf Kdn Kd Knd Kq].
  pose proof Kfn as Hl. rewrite Ef in Hl. apply NoDup_cons in Hl as [Hnl Hl]. split; try done.
  - by exists m.
  - simpl. rewrite E2. rewrite E1 in Ks. apply SS_sub in Ks.
    eapply SS_ext; [|exact Ks]. intros a c [Ha _]%Hsp [Hc _]%Hsp.
    unfold nr_lt, blocknr_at. by rewrite !lookup_delete_ne.
  - intros j. simpl. rewrite E2, Hsp, <- E1, Kdom, lookup_delete_is_Some. naive_solver.
  - intros j [c [_ Hc']%bh_gone_lookup]. apply Kfr. by eexists.
  - intros j c [_ Hc']%bh_gone_lookup. by eapply Kb.
  - intros j. rewrite bh_gone_idle. specialize (Kf j). rewrite Ef, elem_of_cons in Kf. simpl.
    split; [intros Hj; split; [tauto|split; [by intros ->|tauto]]|]. intros (? & ? & ?). tauto.
  - simpl. rewrite Knf, Ef. simpl. lia.
  - intros j. rewrite bh_gone_idle. specialize (Kd j). simpl. rewrite Kd. split; [|tauto].
    intros [? Hid]. split; [done|]. split; [|done]. intros ->.
    destruct Hid as (b0 & Hb0 & _ & Hdt), Hi as (b1 & Hb1 & _ & Hdt1). congruence.
Qed.

(** A buffer without changes can go: the disk has its bytes. *)
Lemma bh_gone_quiet x d i b l t :
  cache_ok x d → cache_ok x (bh_gone i t l d) → bhs d !! i = Some b → dirty_bit b = false →
  quiet d (bh_gone i t l d).
Proof.
  intros Hd Hok Hb Hcl. set (d' := bh_gone i t l d) in *.
  split; [|intros k; by apply on_disk_same]. eapply sound_from; [done..| |].
  2:{ intros j c [_ Hj]%bh_gone_lookup. right. exists c. auto 10. }
  intros n Hn. unfold view. rewrite (on_disk_same d d') by done.
  destruct (decide (c_blocknr b = n)) as [<-|Hne].
  - assert (cached d (c_blocknr b) = Some b) as -> by (apply (cached_spec x d _ b Hd Hn); eauto).
    rewrite Hcl. destruct (cached d' (c_blocknr b)) as [c|] eqn:Ec; [|done].
    apply (cached_spec x d' _ c Hok Hn) in Ec as (j & [Hj Hjc]%bh_gone_lookup & En).
    destruct Hj. by eapply (cached_unique x d j i c b).
  - assert (cached d' n = cached d n) as ->; [|done]. apply option_eq. intros c.
    rewrite (cached_spec x d' n c Hok Hn), (cached_spec x d n c Hd Hn).
    split; intros (j & Hj & Ej); exists j; (split; [|done]).
    + by apply bh_gone_lookup in Hj as [_ ?].
    + apply bh_gone_lookup. split; [|done]. intros ->. congruence.
Qed.

(** One buffer of the list of unused ones is dropped. *)
Lemma remove_first_ok x d i l :
  cache_ok x d → bd_bh_free d = i :: l →
  ends remove_first_bh_from_freelist d (λ _ d', dropped x d d' ∧ bd_bh_free d' = l).
Proof.
  intros Hd Ef. destruct (k_rb _ _ Hd) as [m Hm].
  destruct (proj1 (k_free _ _ Hd i)) as [Hx Hidle]; [rewrite Ef; by left|].
  pose proof Hidle as (b & Hb & Hc & Hcl).
  assert (Hi : i ∈ inorder (bd_bh_root d)) by (apply (k_dom _ _ Hd); by eexists).
  destruct (remove_eq (set_free l (bd_nr_free d - 1) d) m i) as (t & m' & pre & post & Er & Hm' & E1 & E2);
    [done|done|exact (bufs_nodup _ _ Hd)|]. simpl in E1.
  pose proof (bh_gone_ok x d i l t m' pre post Hd Ef Hidle Hm' E1 E2) as Hok.
  assert (E : remove_first_bh_from_freelist d = Ok (tt, bh_gone i t l d)).
  { unfold remove_first_bh_from_freelist. unfold_M. rewrite Ef, Er. done. }
  eapply ends_eq; [exact E|]. split; [|done]. split; try done.
  - by eapply bh_gone_quiet.
  - intros j n c. unfold held. setoid_rewrite bh_gone_lookup. split; [naive_solver|].
    intros (b0 & Hb0 & En & Ec & Hpos). exists b0. split; [|done]. split; [|done]. intros ->.
    simplify_eq. lia.
  - intros k Hk. simpl. rewrite lookup_delete_ne; [done|]. congruence.
Qed.

Lemma drop_loop_ok x fuel : ∀ d,
  cache_ok x d → (length (bd_bh_free d) ≤ fuel)%nat →
  ends (drop_loop fuel) d (λ _ d', dropped x d d').
Proof.
  induction fuel as [|fuel IH]; intros d Hd Hl; cbn [drop_loop];
    apply ends_bind, ends_get; destruct (Z.ltb_spec buffer_free_threshold (bd_nr_free d)) as [Hlt|];
    try (by apply ends_ret, dropped_refl);
    rewrite (k_nr_free _ _ Hd) in Hlt; unfold buffer_free_threshold in Hlt.
  - lia.
  - destruct (bd_bh_free d) as [|i l] eqn:Ef; [simpl in Hlt; lia|].
    apply ends_bind. eapply ends_impl; [by apply (remove_first_ok x d i l)|].
    intros _ d1 [Hd1 El]. eapply ends_impl; [apply IH; [by apply drop_ok in Hd1|]|].
    + rewrite El. simpl in Hl. lia.
    + intros ? d2 Hd2. by eapply dropped_trans.
Qed.

(** ** Releasing a buffer *)
Lemma set_state_bit bit f b : buffer_bit bit (set_state f b) = Z.testbit (f (c_state b)) bit.
Proof. done. Qed.

Lemma attach_eq d i :
  bd_nr_free d = Z.of_nat (length (bd_bh_free d)) → i ∉ bd_bh_free d →
  attach_bh_to_freelist i d
  = Ok (tt, set_free (bd_bh_free d ++ [i]) (Z.of_nat (length (bd_bh_free d ++ [i]))) d).
Proof.
  intros Hd Hi. unfold attach_bh_to_freelist, modify. rewrite decide_False by done.
  rewrite Hd, length_app. simpl. do 4 f_equal. lia.
Qed.

Lemma writeback_eq x d i :
  cache_ok x d → i ∉ bd_bh_dirty d →
  move_buffer_to_writeback i d
  = Ok (tt, set_dirty (bd_bh_dirty d ++ [i]) (Z.of_nat (length (bd_bh_dirty d ++ [i]))) d).
Proof.
  intros Hd Hi. unfold move_buffer_to_writeback, modify. rewrite decide_False by done.
  rewrite (k_nr_dirty _ _ Hd), length_app. simpl. do 4 f_equal. lia.
Qed.

(** A buffer that is on its way is in no list. *)
Lemma moving_unlisted d i : cache_ok (Some i) d → i ∉ bd_bh_free d ∧ i ∉ bd_bh_dirty d.
Proof. intros Hd. rewrite (k_free _ _ Hd), (k_dirty _ _ Hd). split; by intros [? _]. Qed.

Lemma busy_unlisted x d i b :
  cache_ok x d → bhs d !! i = Some b → 0 < c_count b → i ∉ bd_bh_free d ∧ i ∉ bd_bh_dirty d.
Proof.
  intros Hd Hi Hc. rewrite (k_free _ _ Hd), (k_dirty _ _ Hd). unfold idle. rewrite Hi.
  split; intros (_ & ? & [= <-] & ? & _); lia.
Qed.

(** A buffer put into the list it belongs to. *)
Lemma listed_ok d i b fl dl :
  cache_ok (Some i) d → bhs d !! i = Some b → c_count b = 0 →
  fl = (if dirty_bit b then bd_bh_free d else bd_bh_free d ++ [i]) →
  dl = (if dirty_bit b then bd_bh_dirty d ++ [i] else bd_bh_dirty d) →
  cache_ok None (set_dirty dl (Z.of_nat (length dl)) (set_free fl (Z.of_nat (length fl)) d)).
Proof.
  intros Hd Hi Hc -> ->. destruct (moving_unlisted d i Hd) as [Hnf Hnd].
  pose proof (k_free_nodup _ _ Hd). pose proof (k_dirty_nodup _ _ Hd).
  eapply (update_ok (Some i) None d _ i b b Hd Hi); try done; simpl.
  - by eapply k_bufs.
  - by rewrite insert_id.
  - apply (k_queue _ _ Hd).
  - destruct (dirty_bit b); [done|by apply snoc_nodup].
  - destruct (dirty_bit b); [by apply snoc_nodup|done].
  - intros j Hj. split; [congruence|done].
  - intros j Hj. destruct (dirty_bit b); [done|]. rewrite snoc_elem. tauto.
  - intros j Hj. destruct (dirty_bit b); [|done]. rewrite snoc_elem. tauto.
  - destruct (dirty_bit b); [|rewrite snoc_elem; naive_solver]. split; [done|by intros (_ & _ & ?)].
  - destruct (dirty_bit b); [rewrite snoc_elem; naive_solver|]. split; [done|by intros (_ & _ & ?)].
Qed.

Lemma same_store_quiet x x' d d' :
  cache_ok x d → cache_ok x' d' → bhs d' = bhs d → disk d' = disk d → b_devid d' = b_devid d →
  quiet d d'.
Proof.
  intros Hd Hd' Eb Ed Ei. split; [|intros n; by apply on_disk_same]. eapply sound_from; [done..| |].
  - intros n Hn. unfold view. rewrite (on_disk_same d d') by done.
    assert (cached d' n = cached d n) as ->; [|done]. apply option_eq. intros c.
    by rewrite (cached_spec x' d' n c Hd' Hn), (cached_spec x d n c Hd Hn), Eb.
  - intros j b. rewrite Eb. intros Hj. right. exists b. auto 10.
Qed.

(** The count goes down; at 0 the buffer is on its way to a list. *)
Lemma put_bh_ok d i b :
  cache_ok None d → bhs d !! i = Some b → 0 < c_count b →
  let b1 := set_count (λ n, n - 1) b in let d1 := put_buf i b1 d in
  buf_ok b1 ∧ cache_ok (if decide (c_count b = 1) then Some i else None) d1 ∧ quiet d d1
  ∧ ∀ j n c, held d1 j n c ↔
      if decide (j = i) then n = c_blocknr b ∧ c = c_count b - 1 ∧ 0 < c else held d j n c.
Proof.
  intros Hd Hi Hc b1 d1. pose proof (k_bufs _ _ Hd _ _ Hi) as Hb.
  destruct (busy_unlisted _ _ _ _ Hd Hi Hc) as [Hnf Hnd].
  assert (Hb1 : buf_ok b1) by (destruct Hb; split; simpl; try done; lia).
  assert (Hd1 : cache_ok (if decide (c_count b = 1) then Some i else None) d1).
  { eapply (update_ok None _ d d1 i b b1 Hd Hi); try done; simpl.
    - apply (k_queue _ _ Hd).
    - apply (k_free_nodup _ _ Hd).
    - apply (k_nr_free _ _ Hd).
    - apply (k_dirty_nodup _ _ Hd).
    - apply (k_nr_dirty _ _ Hd).
    - intros j Hj. split; [done|]. destruct (decide _); congruence.
    - split; [done|]. intros (Hx & ? & _). rewrite decide_True in Hx by lia. done.
    - split; [done|]. intros (Hx & ? & _). rewrite decide_True in Hx by lia. done. }
  split_and!; [done..|by eapply (update_quiet None _ d d1 i b b1)|].
  intros j n c. rewrite (held_update d d1 i b1) by done. destruct (decide (j = i)); [|done].
  simpl. naive_solver.
Qed.

(** A released buffer goes to the list it belongs to. *)
Lemma retire_dirty d i b :
  cache_ok (Some i) d → bhs d !! i = Some b → c_count b = 0 → dirty_bit b = true →
  ends (move_buffer_to_writeback i) d (λ _ d', cache_ok None d' ∧ quiet d d'
    ∧ ∀ j n c, held d' j n c ↔ held d j n c).
Proof.
  intros Hd Hi Hc Ed. destruct (moving_unlisted d i Hd) as [_ Hnd].
  eapply ends_eq; [by eapply writeback_eq|].
  pose proof (listed_ok d i b _ _ Hd Hi Hc eq_refl eq_refl) as Hok.
  rewrite Ed, <- (k_nr_free _ _ Hd) in Hok. split; [exact Hok|]. split; [by eapply same_store_quiet|done].
Qed.

Lemma retire_clean d i b :
  cache_ok (Some i) d → bhs d !! i = Some b → c_count b = 0 → dirty_bit b = false →
  ends (reclaim_buffer i) d (λ _ d', cache_ok None d' ∧ quiet d d'
    ∧ ∀ j n c, held d' j n c ↔ held d j n c).
Proof.
  intros Hd Hi Hc Ed. unfold reclaim_buffer, try_to_drop_buffers. apply ends_bind, ends_bind, ends_get.
  eapply ends_impl; [by apply (drop_loop_ok (Some i))|]. intros ? d2 [Hd2 Hv2 Hh2 Hm2 _].
  destruct (moving_unlisted d2 i Hd2) as [Hnf2 _].
  eapply ends_eq; [apply attach_eq; [apply (k_nr_free _ _ Hd2)|done]|].
  rewrite <- Hm2 in Hi by done.
  pose proof (listed_ok d2 i b _ _ Hd2 Hi Hc eq_refl eq_refl) as Hok.
  rewrite Ed, <- (k_nr_dirty _ _ Hd2) in Hok. split; [exact Hok|].
  split; [etransitivity; [exact Hv2|]; by eapply same_store_quiet|exact Hh2].
Qed.

Lemma brelse_ok d i b :
  cache_ok None d → bhs d !! i = Some b → 0 < c_count b →
  ends (brelse i) d (λ _ d', cache_ok None d'
    ∧ quiet d d'
    ∧ ∀ j n c, held d' j n c ↔
        if decide (j = i) then n = c_blocknr b ∧ c = c_count b - 1 ∧ 0 < c else held d j n c).
Proof.
  intros Hd Hi Hc. destruct (put_bh_ok d i b Hd Hi Hc) as (Hb1 & Hd1 & Hv1 & Hh1).
  set (b1 := set_count (λ n, n - 1) b) in *. set (d1 := put_buf i b1 d) in *.
  unfold brelse, put_bh_and_read, put_bh. apply ends_bind, ends_bind.
  eapply ends_bh_modify; [done|]. fold b1 d1.
  apply ends_bind. eapply ends_read; [apply put_buf_lookup|]. apply ends_ret. simpl.
  destruct (Z.leb_spec 1 (c_count b - 1)) as [H1|H1].
  { apply ends_ret. rewrite decide_False in Hd1 by lia. done. }
  rewrite decide_True in Hd1 by lia.
  apply ends_bind. eapply ends_read; [apply put_buf_lookup|].
  rewrite (buf_sync _ Hb1). apply ends_bind.
  unfold assertM. rewrite (proj2 (Z.eqb_eq _ _)) by lia. apply ends_ret.
  assert (Hc1 : c_count b1 = 0) by (simpl; lia).
  assert (Hdt : buffer_bit BH_Dirty b1 = dirty_bit b1) by done. rewrite Hdt.
  assert (Hfin : ∀ d2 : bdev, cache_ok None d2 ∧ quiet d1 d2 ∧ (∀ j n c, held d2 j n c ↔ held d1 j n c) →
    cache_ok None d2 ∧ quiet d d2 ∧ ∀ j n c, held d2 j n c ↔
      if decide (j = i) then n = c_blocknr b ∧ c = c_count b - 1 ∧ 0 < c else held d j n c).
  { intros d2 (Hok & Hv & Hh). split; [done|]. split; [by etransitivity|].
    intros j n c. by rewrite Hh, Hh1. }
  destruct (dirty_bit b1) eqn:Ed; (eapply ends_impl; [|intros ? d2; apply Hfin]).
  - eapply retire_dirty; [exact Hd1|apply put_buf_lookup|done..].
  - eapply retire_clean; [exact Hd1|apply put_buf_lookup|done..].
Qed.

(** ** Storing to a buffer

    What a caller does with a buffer it holds: new bytes, which are valid and
    to be written. *)
Definition store_buffer (i : nat) (v : list Z) : M bdev unit :=
  bh_modify i (set_data v);; set_buffer BH_Uptodate i;; set_buffer BH_Dirty i.

Lemma setbit_other s n m : n ≠ m → 0 ≤ n → 0 ≤ m → Z.testbit (Z.setbit s n) m = Z.testbit s m.
Proof. intros. by rewrite Z.setbit_neq by lia. Qed.

Lemma setbit_same s n : 0 ≤ n → Z.testbit (Z.setbit s n) n = true.
Proof. intros. by apply Z.setbit_eq. Qed.

Lemma clearbit_same s n : Z.testbit (Z.clearbit s n) n = false.
Proof. by apply Z.clearbit_eq. Qed.

Lemma clearbit_other s n m : n ≠ m → Z.testbit (Z.clearbit s n) m = Z.testbit s m.
Proof. intros. by apply Z.clearbit_neq. Qed.

Lemma store_ok d i b v :
  cache_ok None d → bhs d !! i = Some b → 0 < c_count b → length v = 4096%nat →
  ends (store_buffer i v) d (λ _ d', cache_ok None d'
    ∧ (∀ n, block_ok n → view d' n = if decide (c_blocknr b = n) then v else view d n)
    ∧ (∀ n, on_disk d' n = on_disk d n) ∧ (sound d → sound d') ∧ b_devid d' = b_devid d
    ∧ ∀ j n c, held d' j n c ↔ held d j n c).
Proof.
  intros Hd Hi Hc Hv. pose proof (k_bufs _ _ Hd _ _ Hi) as Hb.
  destruct (busy_unlisted _ _ _ _ Hd Hi Hc) as [Hnf Hnd].
  unfold store_buffer, set_buffer. apply ends_bind. eapply ends_bh_modify; [done|].
  apply ends_bind, ends_put_modify, ends_put_modify. set (b' := set_state _ _). set (d' := put_buf i b' d).
  assert (Hdt : dirty_bit b' = true) by (unfold dirty_bit, buffer_bit; by apply setbit_same).
  assert (Hok : cache_ok None d').
  { eapply (update_ok None None d d' i b b' Hd Hi); try done; simpl.
    - destruct Hb as [? ? ? ? ? ? Hs Ha]. split; try done; unfold b';
        rewrite set_state_bit, setbit_other by done; cbn [set_state c_state]; by rewrite setbit_other.
    - apply (k_queue _ _ Hd).
    - apply (k_free_nodup _ _ Hd).
    - apply (k_nr_free _ _ Hd).
    - apply (k_dirty_nodup _ _ Hd).
    - apply (k_nr_dirty _ _ Hd).
    - split; [done|]. intros (_ & ? & _). lia.
    - split; [done|]. intros (_ & ? & _). lia. }
  assert (Hvw : ∀ n, block_ok n → view d' n = if decide (c_blocknr b = n) then v else view d n).
  { intros n Hn. rewrite (update_view None None d d' i b b' n) by done. by rewrite Hdt. }
  split; [done|]. split; [done|]. split; [intros; by apply on_disk_same|]. split; [|split; [done|]].
  - intros Hs j b0 Hj. pose proof (k_bufs _ _ Hok _ _ Hj) as Hb0.
    unfold sound_buf. rewrite Hvw by apply Hb0.
    destruct (decide (i = j)) as [<-|Hne]; simpl in Hj.
    + rewrite lookup_insert_eq in Hj. injection Hj as <-. rewrite decide_True by done.
      split; [|done]. intros _. unfold up_bit, b'. rewrite set_state_bit, setbit_other by done.
      by apply setbit_same.
    + rewrite lookup_insert_ne in Hj by done. rewrite decide_False; [by apply (Hs j)|].
      intros E. by apply Hne, (cached_unique None d i j b b0 Hd).
  - intros j n c. rewrite (held_update d d' i b') by done.
    destruct (decide (j = i)) as [->|]; [|done]. unfold held. rewrite Hi. simpl. split.
    + intros (<- & <- & ?). by exists b.
    + by intros (? & [= <-] & ?).
Qed.

Lemma ends_trylock i b d (Q : bool → bdev → Prop) :
  bhs d !! i = Some b → c_lock b = false → Q true (put_buf i (set_lock true b) d) →
  ends (trylock_buffer i) d Q.
Proof.
  intros Hi Hl HQ. unfold trylock_buffer. apply ends_bind. eapply ends_read; [done|]. rewrite Hl.
  apply ends_bind. eapply ends_bh_modify; [done|]. by apply ends_ret.
Qed.

Lemma unlock_lock b : c_lock b = false → set_lock false (set_lock true b) = b.
Proof. intros E. destruct b. simpl in E. by subst. Qed.

(** ** Writing back *)
Section sync.
Context (tu : Z) (tail : list Z).
Hypothesis Htu : 4096 mod tu = 0.

Lemma bh_supported dev n : 1 ≤ dev ≤ g_n_devices → block_ok n → bh_ok tu (mkBh dev n 4096 0).
Proof.
  intros Hd Hn. unfold bh_ok, block_ok in *. simpl. split; [lia|]. split; [lia|]. split; [lia|].
  destruct (decide (dev = 1)); [by left|right]. split; [lia|]. done.
Qed.

(** [userfs_write] of a buffer: the bytes of its block and no others. *)
Lemma write_through_eq d i b :
  1 ≤ b_devid d ≤ g_n_devices → bhs d !! i = Some b → block_ok (c_blocknr b) →
  c_size b = g_block_size_bytes → length (c_data b) = 4096%nat →
  write_through tu tail i d
  = Ok (tt, set_disk (set_dev (b_devid d) (store (c_blocknr b * 4096) (c_data b) (disk d (b_devid d)))
              (disk d)) d).
Proof.
  intros Hd Hi Hn Hs Hl. unfold write_through. unfold_M. rewrite (bh_read_eq i d b Hi), Hs.
  change g_block_size_bytes with 4096. rewrite userfs_write_spec.
  - unfold bh_addr. simpl. by rewrite Z.add_0_r.
  - by apply bh_supported.
  - by rewrite Hl.
Qed.

Lemma on_disk_store d n v k :
  length v = 4096%nat →
  on_disk (set_disk (set_dev (b_devid d) (store (n * 4096) v (disk d (b_devid d))) (disk d)) d) k
  = if decide (n = k) then v else on_disk d k.
Proof.
  intros Hv. unfold on_disk. simpl. unfold set_dev. rewrite Z.eqb_refl.
  destruct (decide (n = k)) as [<-|Hne].
  - rewrite <- Hv at 1. apply load_store_same.
  - apply load_ext. intros x Hx. apply store_outside. lia.
Qed.

(** The buffer after it was written. *)
Definition clean_buf (b : cbh) : cbh :=
  set_state (λ s, Z.clearbit (Z.setbit s BH_Uptodate) BH_Dirty) b.

Lemma clean_buf_ok b : buf_ok b → buf_ok (clean_buf b).
Proof.
  intros [? ? ? ? ? ? Hs Ha].
  split; try done; unfold clean_buf; by rewrite set_state_bit, clearbit_other, setbit_other.
Qed.
Lemma clean_buf_clean b : dirty_bit (clean_buf b) = false.
Proof. apply clearbit_same. Qed.

(** The cache after the buffer [i], on its way, was written. *)
Definition synced (i : nat) (b : cbh) (d : bdev) : bdev :=
  let fl := bd_bh_free d ++ [i] in
  put_buf i (clean_buf b) (set_free fl (Z.of_nat (length fl))
    (set_disk (set_dev (b_devid d) (store (c_blocknr b * 4096) (c_data b) (disk d (b_devid d))) (disk d)) d)).

Lemma synced_ok d i b :
  cache_ok (Some i) d → bhs d !! i = Some b → c_count b = 0 → cache_ok None (synced i b d).
Proof.
  intros Hd Hi Hc. destruct (moving_unlisted d i Hd) as [Hnf Hnd].
  eapply (update_ok (Some i) None d _ i b (clean_buf b) Hd Hi); try done; simpl.
  - by eapply clean_buf_ok, k_bufs.
  - apply (k_queue _ _ Hd).
  - apply snoc_nodup; [apply (k_free_nodup _ _ Hd)|done].
  - apply (k_dirty_nodup _ _ Hd).
  - apply (k_nr_dirty _ _ Hd).
  - intros j Hj. split; [congruence|done].
  - intros j Hj. rewrite snoc_elem. tauto.
  - rewrite snoc_elem. split; [|by auto]. intros _. split; [done|]. split; [done|apply clean_buf_clean].
  - split; [done|]. intros (_ & _ & H). by rewrite clean_buf_clean in H.
Qed.

Lemma sync_dirty_buffer_eq d i b :
  cache_ok (Some i) d → bhs d !! i = Some b → c_count b = 0 → dirty_bit b = true →
  ends (sync_dirty_buffer tu tail i) d (λ _ d', d' = synced i b d).
Proof.
  intros Hd Hi Hc Hdt. pose proof (k_bufs _ _ Hd _ _ Hi) as Hb.
  destruct (moving_unlisted d i Hd) as [Hnf Hnd].
  set (ds := set_dev (b_devid d) (store (c_blocknr b * 4096) (c_data b) (disk d (b_devid d))) (disk d)).
  unfold sync_dirty_buffer. apply ends_bind.
  eapply ends_trylock; [done|apply Hb|]. cbn [negb].
  apply ends_bind. eapply ends_read; [apply put_buf_lookup|].
  change (buffer_bit BH_Dirty (set_lock true b)) with (dirty_bit b). simpl (c_count _).
  rewrite Hdt, Hc. change ((0 <? 1) && true) with true. cbn iota.
  apply ends_bind. apply ends_put_modify. apply ends_bind.
  eapply ends_eq; [eapply write_through_eq;
    [apply (k_dev _ _ Hd)|apply put_buf_lookup|apply Hb|apply Hb|apply Hb]|].
  match goal with |- ends _ (set_disk ?x (put_buf i ?c d)) _ =>
    change (set_disk x (put_buf i c d)) with (put_buf i c (set_disk ds d)) end.
  apply ends_bind, ends_put_modify, ends_bind, ends_put_modify, ends_bind, ends_put_modify.
  apply ends_bind. eapply ends_eq; [apply attach_eq; [apply (k_nr_free _ _ Hd)|done]|].
  match goal with |- ends _ (set_free ?x ?y (put_buf i ?c ?d1)) _ =>
    change (set_free x y (put_buf i c d1)) with (put_buf i c (set_free x y d1)) end.
  apply ends_bind, ends_put_modify, ends_ret. unfold synced, clean_buf. f_equal.
  unfold set_state, set_count, set_lock. simpl. f_equal; [lia|by rewrite (buf_lock _ Hb)].
Qed.

Lemma synced_disk d i b n :
  length (c_data b) = 4096%nat →
  on_disk (synced i b d) n = if decide (c_blocknr b = n) then c_data b else on_disk d n.
Proof. intros Hl. rewrite <- (on_disk_store d (c_blocknr b) (c_data b) n Hl). by apply on_disk_same. Qed.

(** [sync_dirty_buffer] of the buffer taken from the list. *)
Lemma sync_one_ok d i b :
  cache_ok (Some i) d → bhs d !! i = Some b → c_count b = 0 → dirty_bit b = true →
  ends (sync_dirty_buffer tu tail i) d (λ _ d', cache_ok None d'
    ∧ keeps d d' ∧ (∀ n, on_disk d' n = if decide (c_blocknr b = n) then c_data b else on_disk d n)
    ∧ (∀ j n c, held d' j n c ↔ held d j n c) ∧ bd_bh_dirty d' = bd_bh_dirty d).
Proof.
  intros Hd Hi Hc Hdt. pose proof (k_bufs _ _ Hd _ _ Hi) as Hb.
  pose proof (synced_ok d i b Hd Hi Hc) as Hok.
  assert (Eod : ∀ n, on_disk (synced i b d) n = if decide (c_blocknr b = n) then c_data b else on_disk d n)
    by (intros; by apply synced_disk, buf_data).
  eapply ends_impl; [by apply sync_dirty_buffer_eq|].
  intros ? d0 ->. set (d' := synced i b d) in *. split; [done|]. split; [|split; [done|split; [|done]]].
  - eapply sound_from; [done..| |].
    + intros n Hn. unfold view. rewrite Eod.
      rewrite (update_cached (Some i) None d d' i b (clean_buf b) n) by done.
      destruct (decide (c_blocknr b = n)) as [<-|]; [|done]. rewrite clean_buf_clean.
      assert (cached d (c_blocknr b) = Some b) as -> by (apply (cached_spec _ _ _ _ Hd Hn); eauto).
      by rewrite Hdt.
    + intros j c. simpl. destruct (decide (i = j)) as [<-|].
      * rewrite lookup_insert_eq. intros [= <-]. right. exists b. split_and!; try done. right.
        split; [apply clean_buf_clean|done].
      * rewrite lookup_insert_ne by done. intros Hj. right. exists c. auto 10.
  - intros j n c. rewrite (held_update d d' i (clean_buf b)) by done.
    destruct (decide (j = i)) as [->|]; [|done]. unfold held. rewrite Hi. simpl. rewrite Hc. split.
    + intros (_ & <- & ?). lia.
    + intros (? & [= <-] & _ & <- & ?). lia.
Qed.

Lemma sync_loop_ok fuel : ∀ d,
  cache_ok None d → (length (bd_bh_dirty d) ≤ fuel)%nat →
  ends (sync_loop tu tail fuel) d (λ _ d', cache_ok None d'
    ∧ keeps d d' ∧ (∀ j n c, held d j n c → on_disk d' n = on_disk d n)
    ∧ (∀ j n c, held d' j n c ↔ held d j n c) ∧ bd_bh_dirty d' = []).
Proof.
  induction fuel as [|fuel IH]; intros d Hd Hl; cbn [sync_loop];
    apply ends_bind; unfold remove_first_buffer_from_writeback; apply ends_bind, ends_get;
    destruct (bd_bh_dirty d) as [|i l] eqn:Ed; try (simpl in Hl; lia);
    try (by apply ends_ret, ends_ret).
  apply ends_bind, ends_modify, ends_ret. set (d1 := set_dirty l (buffer_dirty_count d - 1) d).
  destruct (proj1 (k_dirty _ _ Hd i)) as (_ & b & Hb & Hc & Hdt); [rewrite Ed; by left|].
  assert (Hd1 : cache_ok (Some i) d1).
  { pose proof (k_dirty_nodup _ _ Hd) as Hn. rewrite Ed in Hn. apply NoDup_cons in Hn as [Hni Hnl].
    eapply (update_ok None (Some i) d d1 i b b Hd Hb); try done; simpl.
    - by eapply k_bufs.
    - by rewrite insert_id.
    - apply (k_queue _ _ Hd).
    - apply (k_free_nodup _ _ Hd).
    - apply (k_nr_free _ _ Hd).
    - rewrite (k_nr_dirty _ _ Hd), Ed. simpl. lia.
    - intros j Hj. split; [done|congruence].
    - intros j Hj. rewrite Ed, elem_of_cons. split; [by right|]. by intros [->|?].
    - split; [|by intros [? _]]. intros (_ & b0 & Hb0 & _ & ?)%(k_free _ _ Hd). congruence.
    - split; [done|]. by intros [? _]. }
  assert (Hv1 : quiet d d1) by (by eapply same_store_quiet).
  apply ends_bind. eapply ends_impl; [by apply (sync_one_ok d1 i b)|].
  intros ? d2 (Hd2 & Hk2 & Ho2 & Hh2 & Edy). eapply ends_impl; [apply IH; [done|]|].
  - rewrite Edy. simpl in *. lia.
  - intros ? d3 (Hd3 & Hk3 & Ho3 & Hh3 & ?). split; [done|]. split; [|split; [|split; [|done]]].
    + etransitivity; [apply Hv1|]. by etransitivity.
    + intros j n c Hj. rewrite (Ho3 j n c) by (by apply Hh2). rewrite Ho2, decide_False.
      * by apply quiet_disk.
      * intros <-. destruct Hj as (b0 & Hb0 & En & Ec & Hpos).
        assert (i = j) as <- by (by apply (cached_unique None d i j b b0 Hd)).
        simplify_eq. lia.
    + intros j n c. by rewrite Hh3, Hh2.
Qed.

(** [sync_all_buffers]: afterwards the device has every block that is not in
    use; the blocks in use are not written. *)
Lemma sync_all_ok d :
  cache_ok None d →
  ends (sync_all_buffers tu tail) d (λ _ d', cache_ok None d' ∧ keeps d d'
    ∧ (∀ n, block_ok n → (∀ j c, ¬ held d j n c) → on_disk d' n = view d n)
    ∧ (∀ j n c, held d j n c → on_disk d' n = on_disk d n)
    ∧ (∀ j n c, held d' j n c ↔ held d j n c)).
Proof.
  intros Hd. unfold sync_all_buffers. apply ends_bind, ends_get.
  eapply ends_impl; [by apply sync_loop_ok|]. intros ? d' (Hd' & Hk & Ho & Hh & Edy).
  split_and!; try done. intros n Hn Hnot. rewrite <- (keep_view _ _ Hk n Hn). unfold view.
  destruct (cached d' n) as [b|] eqn:Ec; [|done].
  destruct (dirty_bit b) eqn:Edt; [|done]. exfalso.
  apply (cached_spec None d' n b Hd' Hn) in Ec as (i & Hi & En).
  pose proof (buf_count _ (k_bufs _ _ Hd' _ _ Hi)) as Hc.
  destruct (decide (c_count b = 0)) as [H0|].
  - assert (H : i ∈ bd_bh_dirty d') by (apply (k_dirty _ _ Hd'); split; [done|by exists b]).
    rewrite Edy in H. by apply not_elem_of_nil in H.
  - apply (Hnot i (c_count b)), Hh. exists b. split_and!; try done. lia.
Qed.

(** ** Transfers by the I/O thread

    The caller submits and waits, the thread performs what is queued. *)
Definition load_buffer (i : nat) : M bdev (list Z) :=
  bh_submit_read i;; try_to_perform_io tu tail;; wait_on_buffer i;; b ← bh_read i; mret (c_data b).
Definition flush_buffer (i : nat) : M bdev unit :=
  write_dirty_buffer i;; try_to_perform_io tu tail;; wait_on_buffer i.

Lemma put_same i b d : bhs d !! i = Some b → put_buf i b d = d.
Proof. intros Hi. destruct d. unfold put_buf, set_bhs. simpl in *. by rewrite insert_id. Qed.

Lemma perform_nothing d (Q : unit → bdev → Prop) :
  bd_bh_ioqueue d = [] → Q tt d → ends (try_to_perform_io tu tail) d Q.
Proof.
  intros E HQ. unfold try_to_perform_io. apply ends_bind, ends_get. rewrite E. cbn [perform_loop length].
  apply ends_bind. unfold remove_first_buffer_from_ioqueue. apply ends_bind, ends_get.
  rewrite E. by apply ends_ret, ends_ret.
Qed.

Lemma wait_free i b d (Q : unit → bdev → Prop) :
  c_wait b = false → Q tt (put_buf i b d) → ends (wait_on_buffer i) (put_buf i b d) Q.
Proof.
  intros Hw HQ. unfold wait_on_buffer, lock_wait. apply ends_bind, ends_bind.
  eapply ends_read; [apply put_buf_lookup|]. rewrite Hw. apply ends_put_modify, ends_put_modify.
  replace (set_wait false (set_wait true b)) with b; [done|]. destruct b. simpl in Hw. by subst.
Qed.

(** What is submitted is what is performed. *)
Lemma perform_one d i b (w : bool) (Q : unit → bdev → Prop) :
  bd_bh_ioqueue d = [] → buffer_bit BH_Async_Write b = w →
  ends (submit_now tu tail w i) (put_buf i (set_state (λ s, Z.clearbit s BH_Async_Write) b) d)
    (λ u d', bd_bh_ioqueue d' = [] ∧ Q u d') →
  ends (try_to_perform_io tu tail) (set_ioqueue [i] (put_buf i b d)) Q.
Proof.
  intros Eq Ew H. unfold try_to_perform_io. apply ends_bind, ends_get. simpl (length _). cbn [perform_loop].
  apply ends_bind. unfold remove_first_buffer_from_ioqueue. apply ends_bind, ends_get. simpl (bd_bh_ioqueue _).
  cbn iota. apply ends_bind, ends_modify, ends_ret.
  replace (set_ioqueue [] (set_ioqueue [i] (put_buf i b d))) with (put_buf i b d)
    by (destruct d; simpl in Eq; by subst).
  apply ends_bind. eapply ends_read; [apply put_buf_lookup|]. apply ends_bind. unfold clear_buffer.
  apply ends_put_modify. apply ends_bind. rewrite Ew.
  eapply ends_impl; [exact H|]. intros [] d1 [E1 H1].
  apply ends_bind. apply ends_bind, ends_get. rewrite E1. by apply ends_ret, ends_ret.
Qed.
End sync.
