(* ===== verification/BufRun.v ===== *)
(** * BufRun: the buffer cache refines a block store

    Reading and writing a buffer in use by way of the I/O thread, and the
    refinement of a block store with a durable copy by the whole cache: for
    every sequence of calls the cache returns what the block store returns,
    and the device holds the durable copy. *)
From Stdlib Require Import ZArith Lia Sorted.
From stdpp Require Import base numbers list gmap strings.
From S2P Require Import Prelude Util Bytes RbTree RbErase Storage BufCache BufCacheOk.

Section io.
Context (tu : Z) (tail : list Z) (Htu : 4096 `mod` tu = 0).

(** ** One transfer *)
Lemma engine_read dev n ds :
  1 ≤ dev ≤ g_n_devices → block_ok n →
  ∃ e, storage_engine tu tail dev = Some e ∧
    op_read e n g_block_size_bytes (ds dev) = (4096, load (ds dev) (n * 4096) 4096).
Proof.
  intros Hd Hn. pose proof (bh_read_spec tu tail _ ds (bh_supported tu Htu dev n Hd Hn)) as H.
  unfold bh_submit_read_sync_IO, bh_addr in H. simpl in H. rewrite Z.add_0_r in H.
  destruct (storage_engine tu tail dev) as [e|]; [|done]. exists e. split; [done|].
  change g_block_size_bytes with 4096. destruct (op_read e n 4096 (ds dev)) as [ret l]. simpl in H.
  destruct (Z.eqb_spec ret 4096) as [->|]; [|done]. by injection H as ->.
Qed.

Lemma engine_write dev n v ds :
  1 ≤ dev ≤ g_n_devices → block_ok n → length v = 4096%nat →
  ∃ e m, storage_engine tu tail dev = Some e ∧
    op_write e v n g_block_size_bytes (ds dev) = Ok (4096, m) ∧
    set_dev dev m ds = set_dev dev (store (n * 4096) v (ds dev)) ds.
Proof.
  intros Hd Hn Hv. pose proof (userfs_write_spec tu tail _ v ds (bh_supported tu Htu dev n Hd Hn)) as H.
  unfold userfs_write, bh_addr in H. simpl in H. rewrite Z.add_0_r in H.
  specialize (H ltac:(by rewrite Hv)).
  destruct (storage_engine tu tail dev) as [e|]; [|done]. exists e.
  change g_block_size_bytes with 4096. destruct (op_write e v n 4096 (ds dev)) as [[ret m]| | |]; try done.
  exists m. split; [done|]. simpl in H.
  destruct (Z.eqb_spec ret 4096) as [->|]; [|done]. split; [done|]. by injection H.
Qed.

Lemma device_read_eq d i b :
  1 ≤ b_devid d ≤ g_n_devices → block_ok (c_blocknr b) → c_size b = g_block_size_bytes →
  device_read tu tail i (put_buf i b d) = Ok (4096, put_buf i (set_data (on_disk d (c_blocknr b)) b) d).
Proof.
  intros Hd Hn Hs. unfold device_read. unfold_M. rewrite (bh_read_eq i _ b (put_buf_lookup _ _ _)).
  rewrite Hs. unfold assertM. simpl. unfold_M.
  destruct (engine_read (b_devid d) (c_blocknr b) (disk d) Hd Hn) as (e & -> & ->).
  simpl. unfold_M. rewrite (bh_modify_eq i _ _ b (put_buf_lookup _ _ _)), put_buf_put_buf.
  unfold on_disk. reflexivity.
Qed.

Definition written (d : bdev) (n : Z) (v : list Z) : bdev :=
  set_disk (set_dev (b_devid d) (store (n * 4096) v (disk d (b_devid d))) (disk d)) d.

Lemma device_write_eq d i b :
  1 ≤ b_devid d ≤ g_n_devices → block_ok (c_blocknr b) → c_size b = g_block_size_bytes →
  length (c_data b) = 4096%nat →
  device_write tu tail i (put_buf i b d) = Ok (4096, put_buf i b (written d (c_blocknr b) (c_data b))).
Proof.
  intros Hd Hn Hs Hl. unfold device_write. unfold_M. rewrite (bh_read_eq i _ b (put_buf_lookup _ _ _)).
  rewrite Hs. unfold assertM. simpl. unfold_M.
  destruct (engine_write (b_devid d) (c_blocknr b) (c_data b) (disk d) Hd Hn Hl) as (e & m & -> & Ew & E).
  simpl. rewrite Ew. unfold_M. by rewrite E.
Qed.

(** ** Reading a buffer in use *)

(** The submission of a read of a buffer that is not up to date. *)
Definition submitted (e : end_io) (f : Z → Z) (b : cbh) : cbh :=
  mkCbh (c_blocknr b) (c_size b) (f (c_state b)) (c_count b + 1) (c_data b) true true (Some e).

Lemma submit_read_eq d i b (Q : Z → bdev → Prop) :
  cache_ok None d → bhs d !! i = Some b → 0 < c_count b → up_bit b = false →
  Q 0 (set_ioqueue [i] (put_buf i (submitted after_submit_read (λ s, Z.clearbit s BH_Dirty) b) d)) →
  ends (bh_submit_read i) d Q.
Proof.
  intros Hd Hi Hc Hu HQ. pose proof (k_bufs _ _ Hd _ _ Hi) as Hb.
  destruct (busy_unlisted _ _ _ _ Hd Hi Hc) as [_ Hnd].
  unfold bh_submit_read, lock_buffer. apply ends_bind, ends_bind.
  eapply ends_trylock; [done|apply Hb|]. apply ends_ret, ends_bind.
  eapply ends_read; [apply put_buf_lookup|].
  change (buffer_bit BH_Uptodate (set_lock true b)) with (up_bit b). rewrite Hu.
  unfold get_bh, clear_buffer. apply ends_bind, ends_put_modify, ends_bind, ends_put_modify.
  apply ends_bind. unfold remove_buffer_from_writeback. apply ends_modify. simpl (bd_bh_dirty _).
  rewrite decide_False by done. apply ends_bind, ends_put_modify, ends_bind.
  unfold lock_wait. apply ends_bind. eapply ends_read; [apply put_buf_lookup|].
  simpl (c_wait _). rewrite (buf_wait _ Hb). apply ends_put_modify.
  unfold submit_bh. apply ends_bind, ends_ret, ends_bind. unfold add_buffer_to_ioqueue.
  apply ends_modify, ends_ret. simpl (bd_bh_ioqueue _). rewrite (k_queue _ _ Hd).
  rewrite decide_False by apply not_elem_of_nil. exact HQ.
Qed.

(** The buffer after its transfer. *)
Definition completed (e : end_io) (st : Z) (v : list Z) (b : cbh) : cbh :=
  mkCbh (c_blocknr b) (c_size b) st (c_count b) v false false (Some e).

Definition read_state (s : Z) : Z :=
  Z.setbit (Z.clearbit (Z.clearbit s BH_Dirty) BH_Async_Write) BH_Uptodate.

Lemma submit_now_read d i b (Q : unit → bdev → Prop) :
  cache_ok None d → bhs d !! i = Some b →
  Q tt (put_buf i (completed after_submit_read (read_state (c_state b)) (on_disk d (c_blocknr b)) b) d) →
  ends (submit_now tu tail false i)
    (put_buf i (set_state (λ s, Z.clearbit s BH_Async_Write)
       (submitted after_submit_read (λ s, Z.clearbit s BH_Dirty) b)) d) Q.
Proof.
  intros Hd Hi HQ. pose proof (k_bufs _ _ Hd _ _ Hi) as Hb. unfold submit_now. apply ends_bind.
  eapply ends_eq; [apply device_read_eq; [apply (k_dev _ _ Hd)|apply Hb|apply Hb]|].
  apply ends_bind. eapply ends_read; [apply put_buf_lookup|]. simpl (c_end_io _). cbn iota.
  change (negb (4096 <? 0)) with true. unfold run_end_io, set_buffer, put_bh, unlock_buffer.
  apply ends_bind. cbn [when]. apply ends_put_modify, ends_bind, ends_put_modify, ends_bind, ends_ret,
    ends_bind, ends_put_modify, ends_put_modify.
  eapply eq_ind; [exact HQ|]. unfold completed, set_state, set_count, set_lock, set_wait, set_data. simpl.
  f_equal. f_equal. lia.
Qed.

Lemma read_bits s : Z.testbit (read_state s) BH_Dirty = false ∧ Z.testbit (read_state s) BH_Uptodate = true
  ∧ Z.testbit (read_state s) BH_Sync_Read = Z.testbit s BH_Sync_Read
  ∧ Z.testbit (read_state s) BH_Async_Write = false.
Proof.
  unfold read_state. split_and!; rewrite ?setbit_same, ?setbit_other by done; try done;
    rewrite ?clearbit_same, ?(clearbit_other _ BH_Async_Write) by done; try done;
    by rewrite ?clearbit_same, ?clearbit_other.
Qed.

Lemma completed_ok d ds i b e st v :
  cache_ok None d → bhs d !! i = Some b → 0 < c_count b → length v = 4096%nat →
  Z.testbit st BH_Sync_Read = false → Z.testbit st BH_Async_Write = false →
  cache_ok None (put_buf i (completed e st v b) (set_disk ds d))
  ∧ ∀ j n c, held (put_buf i (completed e st v b) (set_disk ds d)) j n c ↔ held d j n c.
Proof.
  intros Hd Hi Hc Hv Hsr Haw. pose proof (k_bufs _ _ Hd _ _ Hi) as Hb.
  destruct (busy_unlisted _ _ _ _ Hd Hi Hc) as [Hnf Hnd].
  set (b' := completed e st v b). set (d' := put_buf i b' (set_disk ds d)). split.
  - eapply (update_ok None None d d' i b b' Hd Hi); try done; simpl.
    + destruct Hb. split; done.
    + apply (k_queue _ _ Hd).
    + apply (k_free_nodup _ _ Hd).
    + apply (k_nr_free _ _ Hd).
    + apply (k_dirty_nodup _ _ Hd).
    + apply (k_nr_dirty _ _ Hd).
    + split; [done|]. intros (_ & ? & _). lia.
    + split; [done|]. intros (_ & ? & _). lia.
  - intros j n c. rewrite (held_update d d' i b') by done.
    destruct (decide (j = i)) as [->|]; [|done]. unfold held. rewrite Hi. simpl. split.
    + intros (<- & <- & ?). by exists b.
    + by intros (? & [= <-] & ?).
Qed.

(** Bytes that come from the device leave everything else as it was. *)
Lemma load_ok d i b :
  cache_ok None d → sound d → bhs d !! i = Some b → 0 < c_count b →
  ends (load_buffer tu tail i) d (λ r d', r = view d (c_blocknr b) ∧ cache_ok None d' ∧ quiet d d'
    ∧ ∀ j n c, held d' j n c ↔ held d j n c).
Proof.
  intros Hd Hs Hi Hc. pose proof (k_bufs _ _ Hd _ _ Hi) as Hb.
  destruct (Hs i b Hi) as [Hs1 Hs2]. destruct (busy_unlisted _ _ _ _ Hd Hi Hc) as [Hnf Hnd].
  unfold load_buffer. apply ends_bind. destruct (up_bit b) eqn:Hu.
  - unfold bh_submit_read, lock_buffer. apply ends_bind, ends_bind.
    eapply ends_trylock; [done|apply Hb|]. apply ends_ret, ends_bind.
    eapply ends_read; [apply put_buf_lookup|].
    change (buffer_bit BH_Uptodate (set_lock true b)) with (up_bit b). rewrite Hu.
    unfold unlock_buffer. apply ends_bind, ends_put_modify, ends_ret, ends_bind.
    rewrite (unlock_lock b) by apply Hb.
    apply perform_nothing; [apply (k_queue _ _ Hd)|]. apply ends_bind.
    apply wait_free; [apply Hb|]. rewrite (put_same _ _ _ Hi). apply ends_bind.
    eapply ends_read; [done|]. apply ends_ret. split; [by apply Hs2|]. split; [done|]. done.
  - assert (Hdt : dirty_bit b = false) by (destruct (dirty_bit b); [by discriminate Hs1|done]).
    eapply submit_read_eq; try done. apply ends_bind.
    apply (perform_one tu tail _ _ _ false); [apply (k_queue _ _ Hd)| |].
    { unfold buffer_bit. simpl (c_state _). rewrite clearbit_other by done. apply Hb. }
    apply submit_now_read; try done. split; [apply (k_queue _ _ Hd)|].
    apply ends_bind, wait_free; [done|]. apply ends_bind.
    eapply ends_read; [apply put_buf_lookup|]. apply ends_ret.
    set (b' := completed _ _ _ b). set (d' := put_buf i b' d).
    destruct (read_bits (c_state b)) as (B1 & B2 & B3 & B4).
    assert (Hod : view d (c_blocknr b) = on_disk d (c_blocknr b)).
    { rewrite (view_own None d i b Hd Hi). by rewrite Hdt. }
    destruct (completed_ok d (disk d) i b after_submit_read (read_state (c_state b))
      (on_disk d (c_blocknr b)) Hd Hi Hc) as [Hok Hh];
      [apply load_length|by rewrite B3; apply Hb|done|].
    replace (set_disk (disk d) d) with d in Hok, Hh by (by destruct d). fold b' d' in Hok, Hh.
    assert (Hv : ∀ n, block_ok n → view d' n = view d n).
    { intros n Hn. rewrite (update_view None None d d' i b b' n) by done.
      assert (dirty_bit b' = false) as -> by exact B1.
      destruct (decide (c_blocknr b = n)) as [<-|]; [|done]. by rewrite Hod. }
    split; [done|]. split; [done|]. split; [|done]. split; [|intros n; by apply on_disk_same].
    split; [done| |done]. intros _ j b0 Hj. pose proof (k_bufs _ _ Hok _ _ Hj) as Hb0.
    unfold sound_buf. rewrite Hv by apply Hb0. simpl in Hj. destruct (decide (i = j)) as [<-|].
    + rewrite lookup_insert_eq in Hj. injection Hj as <-. split; [by intros; exact B2|].
      intros _. symmetry. exact Hod.
    + rewrite lookup_insert_ne in Hj by done. by apply (Hs j).
Qed.

(** ** Writing a buffer in use *)
Definition write_state (s : Z) : Z :=
  Z.clearbit (Z.setbit (Z.clearbit (Z.setbit s BH_Async_Write) BH_Async_Write) BH_Uptodate) BH_Dirty.

Lemma write_bits s : Z.testbit (write_state s) BH_Dirty = false
  ∧ Z.testbit (write_state s) BH_Uptodate = true
  ∧ Z.testbit (write_state s) BH_Sync_Read = Z.testbit s BH_Sync_Read
  ∧ Z.testbit (write_state s) BH_Async_Write = false.
Proof.
  unfold write_state. split_and!; rewrite ?clearbit_same, ?(clearbit_other _ BH_Dirty) by done; try done;
    rewrite ?setbit_same, ?(setbit_other _ BH_Uptodate) by done; try done;
    rewrite ?clearbit_same, ?clearbit_other by done; try done; by rewrite setbit_other.
Qed.

Lemma submit_write_eq d i b (Q : Z → bdev → Prop) :
  cache_ok None d → bhs d !! i = Some b → dirty_bit b = true →
  Q 0 (set_ioqueue [i] (put_buf i (submitted after_buffer_write (λ s, Z.setbit s BH_Async_Write) b) d)) →
  ends (write_dirty_buffer i) d Q.
Proof.
  intros Hd Hi Hu HQ. pose proof (k_bufs _ _ Hd _ _ Hi) as Hb.
  unfold write_dirty_buffer. apply ends_bind.
  eapply ends_trylock; [done|apply Hb|]. cbn [negb]. apply ends_bind.
  eapply ends_read; [apply put_buf_lookup|].
  change (buffer_bit BH_Dirty (set_lock true b)) with (dirty_bit b). rewrite Hu.
  unfold get_bh. apply ends_bind, ends_put_modify, ends_bind, ends_put_modify, ends_bind.
  unfold lock_wait. apply ends_bind. eapply ends_read; [apply put_buf_lookup|].
  simpl (c_wait _). rewrite (buf_wait _ Hb). apply ends_put_modify.
  unfold submit_bh, set_buffer. apply ends_bind. cbn [when]. apply ends_put_modify, ends_bind.
  unfold add_buffer_to_ioqueue. apply ends_modify, ends_ret. simpl (bd_bh_ioqueue _).
  rewrite (k_queue _ _ Hd). rewrite decide_False by apply not_elem_of_nil. exact HQ.
Qed.

Lemma submit_now_write d i b (Q : unit → bdev → Prop) :
  cache_ok None d → bhs d !! i = Some b → 0 < c_count b →
  Q tt (put_buf i (completed after_buffer_write (write_state (c_state b)) (c_data b) b)
          (written d (c_blocknr b) (c_data b))) →
  ends (submit_now tu tail true i)
    (put_buf i (set_state (λ s, Z.clearbit s BH_Async_Write)
       (submitted after_buffer_write (λ s, Z.setbit s BH_Async_Write) b)) d) Q.
Proof.
  intros Hd Hi Hc HQ. pose proof (k_bufs _ _ Hd _ _ Hi) as Hb. unfold submit_now. apply ends_bind.
  destruct (busy_unlisted _ _ _ _ Hd Hi Hc) as [_ Hnd].
  eapply ends_eq; [apply device_write_eq; [apply (k_dev _ _ Hd)|apply Hb|apply Hb|apply Hb]|].
  apply ends_bind. eapply ends_read; [apply put_buf_lookup|]. simpl (c_end_io _). cbn iota.
  change (negb (4096 <? 0)) with true. unfold run_end_io, set_buffer, put_bh, unlock_buffer.
  apply ends_bind. cbn [when]. apply ends_put_modify, ends_bind, ends_put_modify, ends_bind.
  apply ends_bind. unfold remove_buffer_from_writeback. apply ends_modify. simpl (bd_bh_dirty _).
  rewrite decide_False by done. unfold clear_buffer. apply ends_put_modify, ends_bind,
    ends_put_modify, ends_put_modify.
  eapply eq_ind; [exact HQ|]. unfold completed, set_state, set_count, set_lock, set_wait. simpl.
  f_equal. f_equal. lia.
Qed.

Lemma flush_ok d i b :
  cache_ok None d → bhs d !! i = Some b → 0 < c_count b →
  ends (flush_buffer tu tail i) d (λ _ d', cache_ok None d' ∧ keeps d d'
    ∧ (∀ n, on_disk d' n = if decide (c_blocknr b = n) then view d n else on_disk d n)
    ∧ ∀ j n c, held d' j n c ↔ held d j n c).
Proof.
  intros Hd Hi Hc. pose proof (k_bufs _ _ Hd _ _ Hi) as Hb.
  unfold flush_buffer. apply ends_bind.
  pose proof (view_own None d i b Hd Hi) as Hvo. destruct (dirty_bit b) eqn:Hdt.
  - eapply submit_write_eq; try done. apply ends_bind.
    apply (perform_one tu tail _ _ _ true); [apply (k_queue _ _ Hd)| |].
    { unfold buffer_bit. simpl (c_state _). by apply setbit_same. }
    apply submit_now_write; try done. split; [apply (k_queue _ _ Hd)|].
    apply wait_free; [done|]. set (b' := completed _ _ _ b).
    destruct (write_bits (c_state b)) as (B1 & B2 & B3 & B4).
    unfold written. set (ds := set_dev _ _ _). set (d' := put_buf i b' (set_disk ds d)).
    destruct (completed_ok d ds i b after_buffer_write (write_state (c_state b)) (c_data b) Hd Hi Hc)
      as [Hok Hh]; [apply Hb|by rewrite B3; apply Hb|done|]. fold b' d' in Hok, Hh.
    assert (Eod : ∀ n, on_disk d' n = if decide (c_blocknr b = n) then c_data b else on_disk d n).
    { intros n. rewrite <- (on_disk_store d (c_blocknr b) (c_data b) n (buf_data _ Hb)).
      by apply on_disk_same. }
    split; [done|]. split; [|split; [|done]].
    + apply (sound_from None); [done..| |].
      * intros n Hn. unfold view. rewrite Eod, (update_cached None None d d' i b b' n) by done.
        destruct (decide (c_blocknr b = n)) as [<-|]; [|done].
        assert (dirty_bit b' = false) as -> by exact B1. unfold view in Hvo. by rewrite Hvo.
      * intros j c. simpl. destruct (decide (i = j)) as [<-|].
        -- rewrite lookup_insert_eq. intros [= <-]. right. exists b. split_and!; try done. by right.
        -- rewrite lookup_insert_ne by done. intros Hj. right. exists c. auto 10.
    + intros n. rewrite Eod. destruct (decide (c_blocknr b = n)) as [<-|]; [|done]. by rewrite Hvo.
  - unfold write_dirty_buffer. apply ends_bind.
    eapply ends_trylock; [done|apply Hb|]. cbn [negb]. apply ends_bind.
    eapply ends_read; [apply put_buf_lookup|].
    change (buffer_bit BH_Dirty (set_lock true b)) with (dirty_bit b). rewrite Hdt.
    unfold unlock_buffer. apply ends_bind, ends_put_modify, ends_ret, ends_bind.
    rewrite (unlock_lock b) by apply Hb.
    apply perform_nothing; [apply (k_queue _ _ Hd)|].
    apply wait_free; [apply Hb|]. rewrite (put_same _ _ _ Hi). split; [done|]. split; [by apply quiet_refl|].
    split; [|done]. intros n. destruct (decide _) as [<-|]; [|done]. by rewrite Hvo.
Qed.
End io.

(** ** The abstract store *)

#[global] Instance block_ok_dec n : Decision (block_ok n) := _.

(** Blocks in use with the number of their users, the content of the blocks,
    and what of it would survive. *)
Record block_store : Type := mkStore {
  s_held : gmap Z Z;
  s_data : Z → list Z;
  s_disk : Z → list Z
}.

Inductive block_op : Type :=
| Get (n : Z) | Put (n : Z) | Store (n : Z) (v : list Z) | Load (n : Z) | Flush (n : Z) | Sync.

Definition upd (n : Z) (v : list Z) (f : Z → list Z) : Z → list Z :=
  λ k, if decide (n = k) then v else f k.

(** [None]: the call is not allowed. *)
Definition store_step (o : block_op) (s : block_store) : option (option (list Z) * block_store) :=
  match o with
  | Get n =>
      if decide (block_ok n)
      then Some (None, mkStore (<[n := default 0 (s_held s !! n) + 1]> (s_held s)) (s_data s) (s_disk s))
      else None
  | Put n =>
      c ← s_held s !! n;
      Some (None, mkStore (if c =? 1 then delete n (s_held s) else <[n := c - 1]> (s_held s))
                    (s_data s) (s_disk s))
  | Store n v =>
      _ ← s_held s !! n;
      if decide (length v = 4096%nat)
      then Some (None, mkStore (s_held s) (upd n v (s_data s)) (s_disk s)) else None
  | Load n => _ ← s_held s !! n; Some (Some (s_data s n), s)
  | Flush n =>
      _ ← s_held s !! n;
      Some (None, mkStore (s_held s) (s_data s) (upd n (s_data s n) (s_disk s)))
  | Sync =>
      Some (None, mkStore (s_held s) (s_data s)
                    (λ n, if s_held s !! n then s_disk s n else s_data s n))
  end.

Fixpoint store_run (ops : list block_op) (s : block_store) : option (list (option (list Z)) * block_store) :=
  match ops with
  | [] => Some ([], s)
  | o :: ops =>
      '(r, s) ← store_step o s;
      '(rs, s) ← store_run ops s;
      Some (r :: rs, s)
  end.

Definition store_init (f : Z → list Z) : block_store := mkStore ∅ f f.

(** ** The calls on the cache

    A caller keeps the addresses it gets, by block. *)
Section run.
Context (tu : Z) (tail junk : list Z).

Definition with_buffer {A} (hs : gmap Z nat) (n : Z) (f : nat → M bdev A) : M bdev A :=
  match hs !! n with Some i => f i | None => fault "block is not in use" end.

Definition cache_step (o : block_op) (hs : gmap Z nat) : M bdev (option (list Z) * gmap Z nat) :=
  match o with
  | Get n => i ← sb_getblk junk n; mret (None, <[n := i]> hs)
  | Put n => with_buffer hs n brelse;; mret (None, hs)
  | Store n v => with_buffer hs n (λ i, store_buffer i v);; mret (None, hs)
  | Load n => v ← with_buffer hs n (load_buffer tu tail); mret (Some v, hs)
  | Flush n => with_buffer hs n (flush_buffer tu tail);; mret (None, hs)
  | Sync => sync_all_buffers tu tail;; mret (None, hs)
  end.

Fixpoint cache_run (ops : list block_op) (hs : gmap Z nat) : M bdev (list (option (list Z))) :=
  match ops with
  | [] => mret []
  | o :: ops => '(r, hs) ← cache_step o hs; rs ← cache_run ops hs; mret (r :: rs)
  end.

(** ** Simulation *)
Definition users (d : bdev) (hs : gmap Z nat) (m : gmap Z Z) : Prop :=
  ∀ n, match m !! n with
       | Some c => ∃ i, hs !! n = Some i ∧ held d i n c
       | None => ∀ i c, ¬ held d i n c
       end.

Record sim (dev : Z) (d : bdev) (hs : gmap Z nat) (s : block_store) : Prop := {
  sim_ok : cache_ok None d;
  sim_sound : sound d;
  sim_dev : b_devid d = dev;
  sim_data : ∀ n, block_ok n → view d n = s_data s n;
  sim_disk : ∀ n, block_ok n → on_disk d n = s_disk s n;
  sim_users : users d hs (s_held s)
}.

Lemma users_same d d' hs m :
  (∀ j n c, held d' j n c ↔ held d j n c) → users d hs m → users d' hs m.
Proof. intros H Hu n. specialize (Hu n). destruct (m !! n); setoid_rewrite H; done. Qed.

Lemma held_func d i n c n' c' : held d i n c → held d i n' c' → n = n' ∧ c = c'.
Proof. intros (b & Hb & <- & <- & _) (b' & Hb' & <- & <- & _). simplify_eq. done. Qed.

(** The users of one block change. *)
Lemma users_change d d' hs m i n c' :
  (∀ j k c, held d' j k c ↔ if decide (j = i) then k = n ∧ c = c' ∧ 0 < c else held d j k c) →
  (∀ j c, held d j n c → j = i) → (∀ k c, held d i k c → k = n) → users d hs m →
  users d' (<[n := i]> hs) (if decide (0 < c') then <[n := c']> m else delete n m).
Proof.
  intros H Hn Hi Hu k. destruct (decide (n = k)) as [<-|Hne].
  - destruct (decide (0 < c')) as [Hpos|Hneg].
    + rewrite lookup_insert_eq. exists i. rewrite lookup_insert_eq. split; [done|].
      apply H. by rewrite decide_True.
    + rewrite lookup_delete_eq. intros j c. rewrite H. destruct (decide (j = i)) as [->|Hj].
      * intros (_ & -> & ?). done.
      * intros ?%Hn. done.
  - assert (Em : (if decide (0 < c') then <[n := c']> m else delete n m) !! k = m !! k).
    { destruct (decide (0 < c')); [by rewrite lookup_insert_ne|by rewrite lookup_delete_ne]. }
    rewrite Em, lookup_insert_ne by done.
    assert (Hh : ∀ j c, held d' j k c ↔ held d j k c).
    { intros j c. rewrite H. destruct (decide (j = i)) as [->|]; [|done]. split.
      - by intros (<- & _).
      - by intros <-%Hi. }
    specialize (Hu k). destruct (m !! k); setoid_rewrite Hh; done.
Qed.

Lemma sim_quiet dev d d' hs hs' s m :
  sim dev d hs s → cache_ok None d' → quiet d d' → users d' hs' m →
  sim dev d' hs' (mkStore m (s_data s) (s_disk s)).
Proof.
  intros [Hok Hs Hdev Hdat Hdk Hu] Hok' [[Hv Hs' Hdev'] Hd'] Hu'. split; simpl; auto.
  - congruence.
  - intros n Hn. by rewrite Hv, Hdat.
  - intros n Hn. by rewrite Hd', Hdk.
Qed.

(** A block in use, as the caller and as the cache know it. *)
Lemma sim_held dev d hs s n c :
  sim dev d hs s → s_held s !! n = Some c →
  ∃ i b, hs !! n = Some i ∧ bhs d !! i = Some b ∧ c_blocknr b = n ∧ c_count b = c ∧ 0 < c ∧ block_ok n.
Proof.
  intros Hs Hn. pose proof (sim_users _ _ _ _ Hs n) as Hu. rewrite Hn in Hu.
  destruct Hu as (i & Hi & b & Hb & En & Ec & Hpos). exists i, b. split_and!; try done;
    rewrite <- En; by eapply buf_nr, k_bufs, Hb; eapply sim_ok.
Qed.

Lemma held_block d i j n c b :
  cache_ok None d → bhs d !! i = Some b → c_blocknr b = n → held d j n c → j = i.
Proof.
  intros Hd Hi En (b' & Hb' & En' & _). apply (cached_unique None d j i b' b Hd Hb' Hi). congruence.
Qed.

Lemma get_sim dev d hs s n :
  sim dev d hs s → block_ok n → length junk = 4096%nat →
  ends (sb_getblk junk n) d (λ i d', sim dev d' (<[n := i]> hs)
    (mkStore (<[n := default 0 (s_held s !! n) + 1]> (s_held s)) (s_data s) (s_disk s))).
Proof.
  intros Hs Hn Hj. pose proof (sim_ok _ _ _ _ Hs) as Hd. pose proof (sim_users _ _ _ _ Hs n) as Hu.
  unfold sb_getblk. destruct (cached d n) as [b|] eqn:Ec.
  - apply (cached_spec None d n b Hd Hn) in Ec as (i & Hi & En).
    pose proof (buf_count _ (k_bufs _ _ Hd _ _ Hi)) as Hc.
    assert (E : default 0 (s_held s !! n) = c_count b).
    { destruct (s_held s !! n) as [c|].
      - destruct Hu as (j & _ & Hj'). assert (j = i) as -> by (by eapply held_block).
        destruct Hj' as (b' & Hb' & _ & <- & _). by simplify_eq.
      - simpl. destruct (decide (c_count b = 0)); [done|]. destruct (Hu i (c_count b)).
        exists b. split_and!; try done. lia. }
    rewrite E. eapply ends_impl; [by apply (getblk_hit n d i b)|].
    intros ? d' (-> & Hok & Hq & Hh). eapply sim_quiet; try done.
    assert (H : <[n := c_count b + 1]> (s_held s)
      = if decide (0 < c_count b + 1) then <[n := c_count b + 1]> (s_held s) else delete n (s_held s))
      by (by rewrite decide_True by lia). rewrite H.
    apply (users_change d); [| | |apply Hs].
    + intros j k c. rewrite Hh. destruct (decide (j = i)); [|done]. naive_solver lia.
    + intros j c. by apply held_block with b.
    + intros k c (b' & Hb' & <- & _). by simplify_eq.
  - assert (Hno : ∀ i b, bhs d !! i = Some b → c_blocknr b ≠ n).
    { intros i b Hi En. assert (cached d n = Some b) by (apply (cached_spec None d n b Hd Hn); eauto).
      congruence. }
    assert (E : default 0 (s_held s !! n) = 0).
    { destruct (s_held s !! n) as [c|]; [|done]. destruct Hu as (j & _ & b & Hb & En & _).
      by destruct (Hno j b). }
    rewrite E. eapply ends_impl; [by apply (getblk_miss d n junk)|].
    intros ? d' (-> & Hok & Hq & Hh). eapply sim_quiet; try done.
    change (<[n := 0 + 1]> (s_held s))
      with (if decide (0 < 1) then <[n := 1]> (s_held s) else delete n (s_held s)).
    apply (users_change d); [| | |apply Hs].
    + intros j k c. rewrite Hh. destruct (decide (j = next_bh d)); [|done]. naive_solver lia.
    + intros j c (b & Hb & En & _). by destruct (Hno j b).
    + intros k c (b & Hb & _). exfalso.
      pose proof (k_fresh _ _ Hd (next_bh d) (ex_intro _ b Hb)). lia.
Qed.

Context (Htu : 4096 `mod` tu = 0) (Hjunk : length junk = 4096%nat).

(** The block of a call and its buffer. *)
Ltac in_use Hs s n :=
  destruct (s_held s !! n) as [c|] eqn:Hc; [|done];
  destruct (sim_held _ _ _ _ _ _ Hs Hc) as (i & b & Hi & Hb & En & Ecnt & Hpos & Hn);
  unfold with_buffer; rewrite Hi.

Lemma step_sim dev d hs s o r s' :
  sim dev d hs s → store_step o s = Some (r, s') →
  ends (cache_step o hs) d (λ p d', fst p = r ∧ sim dev d' (snd p) s').
Proof.
  intros Hs. pose proof Hs as [Hok Hsd Hdev Hdat Hdk Hu]. destruct o as [n|n|n v|n|n|]; simpl; unfold mbind, option_bind.
  - destruct (decide (block_ok n)) as [Hn|]; [|done]. intros [= <- <-]. apply ends_bind.
    eapply ends_impl; [by apply (get_sim dev d hs s)|]. intros i d' ?. by apply ends_ret.
  - in_use Hs s n. intros [= <- <-]. apply ends_bind.
    eapply ends_impl; [apply (brelse_ok d i b); [done..|lia]|]. intros ? d' (Hok' & Hq & Hh).
    apply ends_ret. split; [done|]. eapply sim_quiet; try done. simpl.
    rewrite <- (insert_id hs n i Hi).
    assert (Em : (if c =? 1 then delete n (s_held s) else <[n := c - 1]> (s_held s))
      = if decide (0 < c - 1) then <[n := c - 1]> (s_held s) else delete n (s_held s)).
    { destruct (Z.eqb_spec c 1), (decide (0 < c - 1)); try lia; done. }
    rewrite Em. apply (users_change d); [| | |done].
    + intros j k c0. rewrite Hh. destruct (decide (j = i)); [|done]. rewrite En, Ecnt. done.
    + intros j c0. by apply held_block with b.
    + intros k c0 (b' & Hb' & <- & _). by simplify_eq.
  - in_use Hs s n. destruct (decide (length v = 4096%nat)) as [Hv|]; [|done]. intros [= <- <-].
    apply ends_bind. eapply ends_impl; [apply (store_ok d i b v); [done..|lia|done]|].
    intros ? d' (Hok' & Hvw & Hod & Hsd' & Hdev' & Hh). apply ends_ret. split; [done|].
    split; simpl; auto; [congruence|..].
    + intros k Hk. rewrite Hvw, En by done. unfold upd. destruct (decide (n = k)); [done|]. by apply Hdat.
    + intros k Hk. by rewrite Hod, Hdk.
    + by eapply users_same.
  - in_use Hs s n. intros [= <- <-]. apply ends_bind.
    eapply ends_impl; [apply (load_ok tu tail Htu d i b); [done..|lia]|].
    intros v d' (-> & Hok' & Hq & Hh). apply ends_ret. simpl. rewrite En, Hdat by done. split; [done|].
    destruct s as [m f g]. eapply (sim_quiet dev d d' hs hs (mkStore m f g)); try done. by eapply users_same.
  - in_use Hs s n. intros [= <- <-]. apply ends_bind.
    eapply ends_impl; [apply (flush_ok tu tail Htu d i b); [done..|lia]|].
    intros ? d' (Hok' & [Hv Hsd' Hdev'] & Hod & Hh). apply ends_ret. split; [done|].
    split; simpl; auto; [congruence|..].
    + intros k Hk. by rewrite Hv, Hdat.
    + intros k Hk. rewrite Hod, En. unfold upd. destruct (decide (n = k)) as [<-|]; auto.
    + by eapply users_same.
  - intros [= <- <-]. apply ends_bind.
    eapply ends_impl; [by apply (sync_all_ok tu tail Htu d)|].
    intros ? d' (Hok' & [Hv Hsd' Hdev'] & Hod & Hod' & Hh). apply ends_ret. split; [done|].
    split; simpl; auto; [congruence|..].
    + intros k Hk. by rewrite Hv, Hdat.
    + intros k Hk. specialize (Hu k). destruct (s_held s !! k) as [c|].
      * destruct Hu as (i & _ & Hi). rewrite (Hod' i k c Hi). auto.
      * rewrite Hod by done. auto.
    + by eapply users_same.
Qed.

Lemma run_sim ops : ∀ dev d hs s rs s',
  sim dev d hs s → store_run ops s = Some (rs, s') →
  ends (cache_run ops hs) d (λ rs' d', rs' = rs ∧ ∃ hs', sim dev d' hs' s').
Proof.
  induction ops as [|o ops IH]; intros dev d hs s rs s' Hs; simpl.
  { intros [= <- <-]. apply ends_ret. eauto. }
  unfold mbind at 1, option_bind at 1. destruct (store_step o s) as [[r s1]|] eqn:E1; [|done].
  unfold mbind at 1, option_bind at 1. destruct (store_run ops s1) as [[rs1 s2]|] eqn:E2; [|done].
  intros [= <- <-]. apply ends_bind. eapply ends_impl; [by eapply step_sim|].
  intros [r' hs1] d1 [E Hs1]. simpl in E, Hs1. subst r'. apply ends_bind.
  eapply ends_impl; [by eapply IH|]. intros rs' d2 (-> & Hs2). by apply ends_ret.
Qed.

Lemma alloc_sim dev ds :
  1 ≤ dev ≤ g_n_devices →
  sim dev (bdev_alloc dev ds) ∅ (store_init (λ n, load (ds dev) (n * 4096) 4096)).
Proof.
  intros Hdev. split; try done.
  - split; try done; simpl.
    + by exists 0%nat; constructor.
    + by constructor.
    + intros i. rewrite lookup_empty. split; [by intros ?%elem_of_nil|by intros [? ?]].
    + intros i. rewrite lookup_empty. by intros [? ?].
    + by constructor.
    + intros i. split; [by intros ?%elem_of_nil|]. intros (_ & b & Hb & _). by rewrite lookup_empty in Hb.
    + by constructor.
    + intros i. split; [by intros ?%elem_of_nil|]. intros (_ & b & Hb & _). by rewrite lookup_empty in Hb.
  - intros n. simpl. rewrite lookup_empty. intros i c (b & Hb & _). simpl in Hb. by rewrite lookup_empty in Hb.
Qed.
End run.

(** ** Tearing down *)

(** Every buffer is in the tree, and those in the list of unused ones are
    buffers. *)
Record linked (d : bdev) : Prop := {
  t_rb : ∃ m, rbt Black m (bd_bh_root d);
  t_nodup : NoDup (inorder (bd_bh_root d));
  t_dom : ∀ i, i ∈ inorder (bd_bh_root d) ↔ is_Some (bhs d !! i);
  t_free_nodup : NoDup (bd_bh_free d);
  t_free : ∀ i, i ∈ bd_bh_free d → is_Some (bhs d !! i);
  t_nr : bd_nr_free d = Z.of_nat (length (bd_bh_free d))
}.

Lemma cache_linked d : cache_ok None d → linked d.
Proof.
  intros Hd. pose proof (bufs_nodup _ _ Hd). destruct Hd. split; try done.
  intros i (_ & b & Hb & _)%k_free. by exists b.
Qed.

Lemma detach_free d i :
  linked d → detach_bh_from_freelist i d
    = Ok (tt, set_free (without i (bd_bh_free d)) (Z.of_nat (length (without i (bd_bh_free d)))) d).
Proof.
  intros Hd. unfold detach_bh_from_freelist, modify. destruct (decide (i ∈ bd_bh_free d)) as [Hi|Hi].
  - pose proof (without_length i _ (t_free_nodup _ Hd) Hi). rewrite (t_nr _ Hd). do 3 f_equal. lia.
  - rewrite without_absent by done. rewrite <- (t_nr _ Hd). by destruct d.
Qed.

(** One round of the loop of [bdev_free]. *)
Lemma free_one_ok d i (k : M bdev unit) (Q : unit → bdev → Prop) :
  linked d → i ∈ inorder (bd_bh_root d) →
  (∀ d', linked d' → disk d' = disk d →
     S (length (inorder (bd_bh_root d'))) = length (inorder (bd_bh_root d)) → ends k d' Q) →
  ends (detach_bh_from_freelist i;; buffer_remove i;; buffer_free i;; k) d Q.
Proof.
  intros Hd Hi HQ. pose proof Hd as [[m Hm] Hnd Hdom Hfn Hf Hnr]. apply ends_bind.
  eapply ends_eq; [by apply detach_free|]. set (d1 := set_free _ _ d).
  destruct (remove_eq d1 m i Hm Hi Hnd) as (t & m' & pre & post & Er & Hm' & E1 & E2).
  change (bd_bh_root d1) with (bd_bh_root d) in E1. rewrite E1 in Hnd.
  apply ends_bind. eapply ends_eq; [exact Er|]. apply ends_bind, ends_modify.
  apply NoDup_app in Hnd as (Hn1 & Hn2 & [Hn3 Hn4]%NoDup_cons). apply HQ; [|done|].
  - split; simpl.
    + by exists m'.
    + rewrite E2. apply NoDup_app. split_and!; try done. intros x Hx ?. apply (Hn2 x Hx). by right.
    + intros j. rewrite E2, lookup_delete_is_Some, <- Hdom, E1, !elem_of_app, elem_of_cons.
      split; [|intros (? & [?|[->|?]]); by auto].
      intros [Hj|Hj]; (split; [intros <-|tauto]); [|done]. apply (Hn2 i Hj). by left.
    + by apply without_nodup.
    + intros j [Hj Hne]%without_elem. apply lookup_delete_is_Some. auto.
    + done.
  - simpl. rewrite E1, E2, !length_app. simpl. lia.
Qed.

Lemma inorder_nil {A} (t : rb A) : inorder t = [] → t = Leaf.
Proof. destruct t as [|c l x r]; [done|]. simpl. by intros [_ ?]%app_eq_nil. Qed.

Lemma free_loop_ok fuel : ∀ d,
  linked d → (length (inorder (bd_bh_root d)) ≤ fuel)%nat →
  ends (free_loop fuel) d
    (λ _ d', bhs d' = ∅ ∧ bd_bh_root d' = Leaf ∧ bd_nr_free d' = 0 ∧ disk d' = disk d).
Proof.
  induction fuel as [|fuel IH]; intros d Hd Hl; cbn [free_loop];
    apply ends_bind, ends_get; rewrite rb_first_ok;
    destruct (inorder (bd_bh_root d)) as [|i l] eqn:Ei; simpl in Hl; try lia; cbn [head].
  1, 2: apply ends_ret;
    assert (Hno : ∀ i, bhs d !! i = None)
      by (intros i; apply eq_None_not_Some; intros Hi; apply (t_dom _ Hd) in Hi; rewrite Ei in Hi;
          by apply not_elem_of_nil in Hi);
    split_and!; [by apply map_empty|by apply inorder_nil| |done];
    rewrite (t_nr _ Hd); destruct (bd_bh_free d) as [|j ?] eqn:Ef; [done|];
    destruct (t_free _ Hd j) as [? Hj]; [rewrite Ef; by left|]; by rewrite Hno in Hj.
  apply free_one_ok; [done|rewrite Ei; by left|]. intros d1 Hd1 Ed1 El.
  eapply ends_impl; [apply IH; [done|]|].
  - rewrite Ei in El. simpl in El. lia.
  - intros ? d2 (? & ? & ? & ?). split_and!; try done. congruence.
Qed.

(** ** Theorems *)

(** The blocks of a device. *)
Definition blocks (m : memory) (n : Z) : list Z := load m (n * 4096) 4096.

(** C10: Every sequence of sb_getblk, brelse, stores, reads and writes
    through the I/O thread and sync_all_buffers on the buffer cache of a
    device returns what a store of blocks with a durable copy returns;
    bdev_free then ends with no buffer left and the device holds the durable
    copy: what was stored and neither written nor synchronised is lost,
    nothing else is. The sequence is legal: block numbers are in range,
    stores are of 4096 bytes, and only blocks that were got and not yet
    released are used; sync_all_buffers writes the blocks no caller holds;
    the transfer unit divides 4096. *)
Theorem buffer_cache_refines tu tail junk dev ds ops rs s :
  1 ≤ dev ≤ g_n_devices → 4096 `mod` tu = 0 → length junk = 4096%nat →
  store_run ops (store_init (blocks (ds dev))) = Some (rs, s) →
  ∃ d d', cache_run tu tail junk ops ∅ (bdev_alloc dev ds) = Ok (rs, d)
    ∧ bdev_free d = Ok (tt, d') ∧ bhs d' = ∅ ∧ bd_nr_free d' = 0
    ∧ ∀ n, block_ok n → blocks (disk d' dev) n = s_disk s n.
Proof.
  intros Hdev Htu Hj Hrun.
  destruct (run_sim tu tail junk Htu Hj ops dev _ _ _ rs s (alloc_sim dev ds Hdev) Hrun)
    as (rs' & d & E & -> & hs & Hs).
  destruct (free_loop_ok _ d (cache_linked d (sim_ok _ _ _ _ Hs)) (le_n _)) as ([] & d' & E' & ? & _ & ? & Ed).
  exists d, d'. split_and!; try done. intros n Hn. rewrite <- (sim_disk _ _ _ _ Hs n Hn).
  unfold on_disk, blocks. by rewrite Ed, (sim_dev _ _ _ _ Hs).
Qed.

(** With no thread that performs what is queued, waiting for a block that is
    not up to date does not end: the mutex waited for is the one the
    submission took. *)
Theorem read_needs_io_thread d i b :
  cache_ok None d → bhs d !! i = Some b → 0 < c_count b → up_bit b = false →
  (bh_submit_read i;; wait_on_buffer i) d = Fault "waits for its own b_wait_mutex".
Proof.
  intros Hd Hi Hc Hu.
  destruct (submit_read_eq d i b (λ r d', r = 0 ∧ d' = set_ioqueue [i] (put_buf i (submitted
    after_submit_read (λ s, Z.clearbit s BH_Dirty) b) d)) Hd Hi Hc Hu ltac:(done)) as (r & d' & E & -> & ->).
  unfold_M. rewrite E. unfold wait_on_buffer, lock_wait. unfold_M.
  by rewrite (bh_read_eq i _ (submitted after_submit_read (λ s, Z.clearbit s BH_Dirty) b))
    by apply put_buf_lookup.
Qed.

(** ** Witnesses *)
Definition page (x : Z) : list Z := replicate 4096 x.
Definition some_calls : list block_op :=
  [Get 5; Store 5 (page 1); Load 5; Put 5; Sync; Get 5; Get 7; Load 7; Store 7 (page 3); Flush 7;
   Store 5 (page 2); Load 5; Put 5].

(** A block stored again after the last synchronisation and released: the
    device keeps the synchronised bytes. *)
Lemma buffer_cache_refines_witness :
  ∃ d d', cache_run 512 [] (page 9) some_calls ∅ (bdev_alloc 2 (λ _ _, 0))
      = Ok ([None; None; Some (page 1); None; None; None; None; Some (page 0); None; None; None;
             Some (page 2); None], d)
    ∧ bdev_free d = Ok (tt, d') ∧ blocks (disk d' 2) 5 = page 1 ∧ blocks (disk d' 2) 7 = page 3.
Proof.
  destruct (store_run some_calls (store_init (blocks (λ _, 0)))) as [[rs s]|] eqn:E;
    [|vm_compute in E; discriminate E].
  destruct (buffer_cache_refines 512 [] (page 9) 2 (λ _ _, 0) some_calls rs s)
    as (d & d' & Er & Ef & _ & _ & Hd); [vm_compute; split; discriminate|reflexivity|reflexivity|exact E|].
  exists d, d'. rewrite Er, Ef, !Hd by (vm_compute; split; [discriminate|reflexivity]).
  vm_compute in E. injection E as <- <-. split; [f_equal; f_equal; vm_compute; reflexivity|].
  split; [reflexivity|]. split; vm_compute; reflexivity.
Defined.
