(* ===== verification/Slab.v ===== *)
(** * Slab: the slab allocator of [global/ncx_slab.c]

    A pool is cut into pages of 4096 bytes.  An array of [ncx_slab_page_t]
    describes them: a run of free pages is in the free list by its first
    entry, a run handed out as a whole is marked in its entries, and a page
    that is cut into chunks of one size is in the list of its size as long as
    it has a free chunk.  The bitmap of the chunks is in the [slab] field, or
    at the start of the page for chunks under 64 bytes.

    The entries of all lists, the pages, the heads of the size lists
    ([slots]) and the head of the free list, are nodes of one store; a
    pointer that names no node is a fault to follow.  The memory of the pool
    itself appears only as the bitmaps at the start of pages. *)
From Stdlib Require Import ZArith Lia.
From stdpp Require Import base numbers list gmap strings.
From S2P Require Import Prelude Util Bitmap BitmapOps.

(** ** State *)

(** Addresses of [ncx_slab_page_t]: [&pool->free], [&slots[i]] and
    [&pool->pages[k]], in the order in which they lie in memory. *)
Inductive ptr : Type := Null | FreeP | SlotP (i : nat) | PageP (k : nat).
#[export] Instance ptr_eq_dec : EqDecision ptr.
Proof. solve_decision. Defined.
#[export] Instance ptr_countable : Countable ptr.
Proof.
  refine (inj_countable'
    (λ p, match p with Null => inl false | FreeP => inl true | SlotP i => inr (inl i) | PageP k => inr (inr k) end)
    (λ s, match s with inl false => Null | inl true => FreeP | inr (inl i) => SlotP i | inr (inr k) => PageP k end) _).
  by intros [].
Defined.

(** [struct ncx_slab_page_s]; [prev] is a pointer with the type of the page
    in its two low bits. *)
Record page_s : Type := mkPage { slab : Z; next : ptr; prev : ptr * Z }.
Definition zero_page : page_s := mkPage 0 Null (Null, 0).

(** [ncx_slab_pool_t] with the file's [ncx_real_pages], the nodes of the
    lists and the bitmaps at the start of pages. *)
Record pool : Type := mkPool {
  min_size : Z;
  min_shift : Z;
  start : Z;
  end_ : Z;
  real_pages : Z;
  nodes : gmap ptr page_s;
  maps : gmap nat bitmap
}.

Definition NCX_SLAB_PAGE : Z := 0.
Definition NCX_SLAB_BIG : Z := 1.
Definition NCX_SLAB_EXACT : Z := 2.
Definition NCX_SLAB_SMALL : Z := 3.
Definition NCX_SLAB_PAGE_BUSY : Z := 2 ^ 64 - 1.
Definition NCX_SLAB_PAGE_START : Z := 2 ^ 63.
Definition NCX_SLAB_SHIFT_MASK : Z := 15.
Definition NCX_SLAB_MAP_MASK : Z := (2 ^ 32 - 1) * 2 ^ 32.
Definition NCX_SLAB_MAP_SHIFT : Z := 32.
Definition NCX_SLAB_BUSY : Z := 2 ^ 64 - 1.

(** [for (n = x, r = 0; n >>= 1; r++)]: the base-2 logarithm. *)
Fixpoint shift_loop (n r : Z) (fuel : nat) : Z :=
  match fuel with
  | O => r
  | S fuel => let n := shr64 n 1 in if n =? 0 then r else shift_loop n (r + 1) fuel
  end.

(** The sizes [ncx_slab_init] derives from [getpagesize()], 4096 here. *)
Definition ncx_pagesize : Z := 4096.
Definition ncx_pagesize_shift : Z := shift_loop ncx_pagesize 0 64.
Definition ncx_slab_max_size : Z := ncx_pagesize / 2.
Definition ncx_slab_exact_size : Z := ncx_pagesize / (8 * 8).
Definition ncx_slab_exact_shift : Z := shift_loop ncx_slab_exact_size 0 64.

Definition sizeof_pool : Z := 80.
Definition sizeof_page : Z := 24.

(** ** Access *)
Definition node (q : ptr) : M pool page_s := λ s,
  match nodes s !! q with Some pg => Ok (pg, s) | None => Fault "not a page entry" end.
Definition set_nodes (f : gmap ptr page_s → gmap ptr page_s) (s : pool) : pool :=
  mkPool (min_size s) (min_shift s) (start s) (end_ s) (real_pages s) (f (nodes s)) (maps s).
Definition set_maps (f : gmap nat bitmap → gmap nat bitmap) (s : pool) : pool :=
  mkPool (min_size s) (min_shift s) (start s) (end_ s) (real_pages s) (nodes s) (f (maps s)).
Definition put (q : ptr) (f : page_s → page_s) : M pool unit :=
  pg ← node q; modify (set_nodes <[q := f pg]>).
Definition set_slab (x : Z) (pg : page_s) : page_s := mkPage x (next pg) (prev pg).
Definition set_next (q : ptr) (pg : page_s) : page_s := mkPage (slab pg) q (prev pg).
Definition set_prev (q : ptr * Z) (pg : page_s) : page_s := mkPage (slab pg) (next pg) q.

(** [page - pool->pages] and [page + i]. *)
Definition page_index (q : ptr) : M pool nat :=
  match q with PageP k => mret k | _ => fault "not in the page array" end.
Definition page_add (k : nat) (i : Z) : ptr := PageP (Z.to_nat (Z.of_nat k + i)).

(** [page->prev] taken as a pointer without masking the type. *)
Definition as_ptr (p : ptr * Z) : M pool ptr :=
  if p.2 =? 0 then mret p.1 else fault "pointer with a type in its low bits".

(** [p->next = page->next; page->next->prev = page->prev]. *)
Definition unlink (page p : ptr) : M pool unit :=
  pg ← node page; put p (set_next (next pg));;
  pg ← node page; put (next pg) (set_prev (prev pg)).

(** The bitmap at the start of page [k]. *)
Definition get_map (k : nat) : M pool bitmap := λ s,
  match maps s !! k with Some m => Ok (m, s) | None => Fault "no bitmap in the page" end.
Definition put_map (k : nat) (m : bitmap) : M pool unit := modify (set_maps <[k := m]>).

(** [pool->start + (page << ncx_pagesize_shift) + off]. *)
Definition addr_of (s : pool) (k : nat) (off : Z) : Z :=
  start s + shl64 (Z.of_nat k) ncx_pagesize_shift + off.

(** ** Pages *)

(** [count] entries from page [k] on are set to [pg]. *)
Fixpoint fill_pages (k : nat) (pg : page_s) (count : nat) : M pool unit :=
  match count with
  | O => mret tt
  | S count => put (PageP k) (λ _, pg);; fill_pages (S k) pg count
  end.

(** The links when [n] pages are taken from the run that starts at page
    [k]: the rest of the run takes the place of the run in the list, or the
    run leaves the list. *)
Definition take_links (k : nat) (pg : page_s) (n : Z) : M pool unit :=
  if n <? slab pg then
    put (page_add k n) (λ _, mkPage (slab pg - n) (next pg) (prev pg));;
    p ← as_ptr (prev pg);
    put p (set_next (page_add k n));;
    pg ← node (PageP k);
    put (next pg) (set_prev (page_add k n, 0))
  else
    p ← as_ptr (prev pg);
    unlink (PageP k) p.

(** [ncx_slab_alloc_pages(pool, pages)]: first fit. *)
Definition take_pages (page : ptr) (pages : Z) : M pool unit :=
  pg ← node page;
  k ← page_index page;
  take_links k pg pages;;
  put page (λ _, mkPage (Z.lor pages NCX_SLAB_PAGE_START) Null (Null, NCX_SLAB_PAGE));;
  fill_pages (S k) (mkPage NCX_SLAB_PAGE_BUSY Null (Null, NCX_SLAB_PAGE)) (Z.to_nat (pages - 1)).
Fixpoint alloc_pages_loop (page : ptr) (pages : Z) (fuel : nat) : M pool ptr :=
  match fuel with
  | O => nofuel
  | S fuel =>
      if bool_decide (page = FreeP) then mret Null
      else
        pg ← node page;
        if pages <=? slab pg then take_pages page pages;; mret page
        else alloc_pages_loop (next pg) pages fuel
  end.
Definition ncx_slab_alloc_pages (pages : Z) : M pool ptr :=
  f ← node FreeP; s ← get; alloc_pages_loop (next f) pages (size (nodes s)).

(** [ncx_slab_empty(pool, page)]: whether the page is free; [prev >=
    pool->pages] holds of the page entries only. *)
Fixpoint empty_loop (q : ptr) (fuel : nat) : M pool bool :=
  match q with
  | PageP _ =>
      match fuel with
      | O => nofuel
      | S fuel => pg ← node q; empty_loop (prev pg).1 fuel
      end
  | _ => mret (bool_decide (q = FreeP))
  end.
Definition ncx_slab_empty (page : ptr) : M pool bool :=
  pg ← node page;
  if slab pg =? 0 then mret true
  else if bool_decide (next pg = Null) then mret false
  else s ← get; empty_loop (prev pg).1 (size (nodes s)).

(** [for (; prev >= pool->pages; prev--) if (prev->slab != 0) ...]: the
    first page of the run, from page [k] down. *)
Fixpoint find_head (k : nat) : M pool (option nat) :=
  pg ← node (PageP k);
  if negb (slab pg =? 0) then mret (Some k)
  else match k with O => mret None | S k => find_head k end.

(** Merging with the run before and with the run behind. *)
Definition merge_prev (k : nat) (pages : Z) : M pool nat :=
  match k with
  | O => mret k
  | S j =>
      e ← ncx_slab_empty (PageP j);
      if e : bool then
        h ← find_head j;
        match h with
        | None => mret k
        | Some h =>
            pg ← node (PageP k);
            put FreeP (set_next (next pg));;
            put (next pg) (set_prev (FreeP, 0));;
            put (PageP h) (λ pg, set_slab (u64 (slab pg + pages)) pg);;
            put (PageP k) (λ _, zero_page);;
            mret h
        end
      else mret k
  end.
Definition merge_next (k : nat) : M pool unit :=
  pg ← node (PageP k);
  s ← get;
  if Z.of_nat k + slab pg <? real_pages s then
    let next_ := page_add k (slab pg) in
    e ← ncx_slab_empty next_;
    if e : bool then
      nx ← node next_;
      p ← as_ptr (prev nx);
      unlink next_ p;;
      nx ← node next_;
      put (PageP k) (λ pg, set_slab (u64 (slab pg + slab nx)) pg);;
      put next_ (λ _, zero_page)
    else mret tt
  else mret tt.

(** A run enters the free list at its front, after it left the list of its
    size. *)
Definition link_free (k : nat) (pages : Z) : M pool unit :=
  f ← node FreeP;
  put (PageP k) (λ _, mkPage pages (next f) (FreeP, 0));;
  put (next f) (set_prev (PageP k, 0));;
  put FreeP (set_next (PageP k)).
Definition push_free (k : nat) (pages : Z) : M pool unit :=
  pg ← node (PageP k);
  (if bool_decide (next pg = Null) then mret tt else unlink (PageP k) (prev pg).1);;
  link_free k pages.

(** [ncx_slab_free_pages(pool, page, pages)]. *)
Definition ncx_slab_free_pages (k : nat) (pages : Z) : M pool unit :=
  fill_pages (S k) zero_page (Z.to_nat (pages - 1));;
  push_free k pages;;
  k ← merge_prev k pages;
  merge_next k.

(** ** Chunks *)

(** The first clear bit: [for (m = 1, i = 0; m; m <<= 1, i++)]. *)
Definition first_zero (w : Z) : Z := scan_bit (not64 w) 0 64.

(** The first word of [n, n + count) that is not busy. *)
Fixpoint find_word (m : bitmap) (n : Z) (count : nat) : option Z :=
  match count with
  | O => None
  | S count => if negb (word m n =? NCX_SLAB_BUSY) then Some n else find_word m (n + 1) count
  end.

Definition map_words (shift : Z) : Z := 2 ^ (ncx_pagesize_shift - shift) / 64.
(** Chunks the bitmap itself takes. *)
Definition map_chunks (shift : Z) : Z :=
  let n := 2 ^ (ncx_pagesize_shift - shift) / 8 / 2 ^ shift in if n =? 0 then 1 else n.

(** A page without free chunks leaves its list. *)
Definition leave_list (page : ptr) (type : Z) : M pool unit :=
  pg ← node page;
  unlink page (prev pg).1;;
  put page (λ pg, mkPage (slab pg) Null (Null, type)).

(** The three searches through the list of a size, from [page] on; [None]
    when the list ends. *)
Fixpoint small_loop (shift : Z) (page : ptr) (fuel : nat) : M pool (option Z) :=
  match fuel with
  | O => nofuel
  | S fuel =>
      k ← page_index page;
      m ← get_map k;
      match find_word m 0 (Z.to_nat (map_words shift)) with
      | Some n =>
          let i := first_zero (word m n) in
          let m := set_word m n (Z.lor (word m n) (2 ^ i)) in
          put_map k m;;
          (if (word m n =? NCX_SLAB_BUSY)
              && bool_decide (find_word m (n + 1) (Z.to_nat (map_words shift - (n + 1))) = None)
           then leave_list page NCX_SLAB_SMALL else mret tt);;
          s ← get;
          mret (Some (addr_of s k (shl64 (n * 8 * 8) shift + shl64 i shift)))
      | None =>
          pg ← node page;
          if bool_decide (next pg = Null) then mret None else small_loop shift (next pg) fuel
      end
  end.

Fixpoint exact_loop (shift : Z) (page : ptr) (fuel : nat) : M pool (option Z) :=
  match fuel with
  | O => nofuel
  | S fuel =>
      pg ← node page;
      if negb (slab pg =? NCX_SLAB_BUSY) then
        let i := first_zero (slab pg) in
        let w := Z.lor (slab pg) (2 ^ i) in
        put page (set_slab w);;
        (if w =? NCX_SLAB_BUSY then leave_list page NCX_SLAB_EXACT else mret tt);;
        k ← page_index page;
        s ← get;
        mret (Some (addr_of s k (shl64 i shift)))
      else if bool_decide (next pg = Null) then mret None
      else exact_loop shift (next pg) fuel
  end.

(** [for (m = 1 << 32, i = 0; m & mask; m <<= 1, i++)]. *)
Fixpoint big_scan (slab mask i : Z) (fuel : nat) : option Z :=
  match fuel with
  | O => None
  | S fuel =>
      if Z.testbit mask (NCX_SLAB_MAP_SHIFT + i) then
        if Z.testbit slab (NCX_SLAB_MAP_SHIFT + i) then big_scan slab mask (i + 1) fuel else Some i
      else None
  end.
Definition big_mask (slab : Z) : Z :=
  let n := ncx_pagesize_shift - Z.land slab NCX_SLAB_SHIFT_MASK in
  shl64 (shl64 1 (shl64 1 n) - 1) NCX_SLAB_MAP_SHIFT.
Fixpoint big_loop (shift mask : Z) (page : ptr) (fuel : nat) : M pool (option Z) :=
  match fuel with
  | O => nofuel
  | S fuel =>
      pg ← node page;
      let more := if bool_decide (next pg = Null) then mret None else big_loop shift mask (next pg) fuel in
      if negb (Z.land (slab pg) NCX_SLAB_MAP_MASK =? mask) then
        match big_scan (slab pg) mask 0 33 with
        | Some i =>
            let w := Z.lor (slab pg) (2 ^ (NCX_SLAB_MAP_SHIFT + i)) in
            put page (set_slab w);;
            (if Z.land w NCX_SLAB_MAP_MASK =? mask then leave_list page NCX_SLAB_BIG else mret tt);;
            k ← page_index page;
            s ← get;
            mret (Some (addr_of s k (shl64 i shift)))
        | None => more
        end
      else more
  end.

(** A fresh page for chunks of [2^shift] bytes, the first of them taken. *)
Definition new_chunk_page (slot : nat) (shift : Z) : M pool Z :=
  page ← ncx_slab_alloc_pages 1;
  match page with
  | Null => mret 0
  | _ =>
      k ← page_index page;
      s ← get;
      if shift <? ncx_slab_exact_shift then
        let n := map_chunks shift in
        put_map k ((shl64 2 n - 1) :: replicate (Z.to_nat (map_words shift - 1)) 0);;
        put page (λ _, mkPage shift (SlotP slot) (SlotP slot, NCX_SLAB_SMALL));;
        put (SlotP slot) (set_next page);;
        mret (addr_of s k (2 ^ shift * n))
      else if shift =? ncx_slab_exact_shift then
        put page (λ _, mkPage 1 (SlotP slot) (SlotP slot, NCX_SLAB_EXACT));;
        put (SlotP slot) (set_next page);;
        mret (addr_of s k 0)
      else
        put page (λ _, mkPage (Z.lor (shl64 1 NCX_SLAB_MAP_SHIFT) shift) (SlotP slot) (SlotP slot, NCX_SLAB_BIG));;
        put (SlotP slot) (set_next page);;
        mret (addr_of s k 0)
  end.

(** The size class: [shift] and the index of its list. *)
Definition size_class (s : pool) (size : Z) : Z * nat :=
  if min_size s <? size then
    let shift := shift_loop (size - 1) 1 64 in (shift, Z.to_nat (shift - min_shift s))
  else (min_shift s, 0%nat).

(** [ncx_slab_alloc_locked(pool, size)]: the address, 0 without memory. *)
Definition ncx_slab_alloc_locked (size_ : Z) : M pool Z :=
  s ← get;
  if ncx_slab_max_size <=? size_ then
    page ← ncx_slab_alloc_pages
      (shr64 size_ ncx_pagesize_shift + (if size_ mod ncx_pagesize =? 0 then 0 else 1));
    match page with
    | Null => mret 0
    | _ => k ← page_index page; s ← get; mret (addr_of s k 0)
    end
  else
    let '(shift, slot) := size_class s size_ in
    sl ← node (SlotP slot);
    let page := next sl in
    pg ← node page;
    let fuel := size (nodes s) in
    r ← (if bool_decide (next pg = page) then mret None
         else if shift <? ncx_slab_exact_shift then small_loop shift page fuel
         else if shift =? ncx_slab_exact_shift then exact_loop shift page fuel
         else big_loop shift (big_mask (slab pg)) page fuel);
    match r with
    | Some p => mret p
    | None => new_chunk_page slot shift
    end.

(** The messages [ncx_slab_free_locked] prints. *)
Inductive free_msg : Type :=
  Freed | OutsidePool | WrongChunk | ChunkAlreadyFree | PageAlreadyFree | WrongPage.

(** A page that was full goes back to the front of its list. *)
Definition enter_list (page : ptr) (slot : nat) (type : Z) : M pool unit :=
  sl ← node (SlotP slot);
  put page (set_next (next sl));;
  put (SlotP slot) (set_next page);;
  put page (set_prev (SlotP slot, type));;
  pg ← node page;
  put (next pg) (set_prev (page, type)).

Definition free_small (p : Z) (k : nat) (slab_ : Z) : M pool free_msg :=
  s ← get;
  let shift := Z.land slab_ NCX_SLAB_SHIFT_MASK in
  if negb (Z.land p (2 ^ shift - 1) =? 0) then mret WrongChunk
  else
    let n := shr64 (Z.land p (ncx_pagesize - 1)) shift in
    let b := Z.land n 63 in
    let n := n / 64 in
    m ← get_map k;
    if Z.testbit (word m n) b then
      pg ← node (PageP k);
      (if bool_decide (next pg = Null)
       then enter_list (PageP k) (Z.to_nat (shift - min_shift s)) NCX_SLAB_SMALL else mret tt);;
      let m := set_word m n (Z.land (word m n) (not64 (2 ^ b))) in
      put_map k m;;
      (if negb (Z.land (word m 0) (not64 (shl64 1 (map_chunks shift) - 1)) =? 0)
          || existsb (λ n, negb (word m n =? 0)) (seqZ 1 (map_words shift - 1))
       then mret tt else ncx_slab_free_pages k 1);;
      mret Freed
    else mret ChunkAlreadyFree.

Definition free_exact (p : Z) (k : nat) (slab_ : Z) : M pool free_msg :=
  s ← get;
  let b := shr64 (Z.land p (ncx_pagesize - 1)) ncx_slab_exact_shift in
  if negb (Z.land p (ncx_slab_exact_size - 1) =? 0) then mret WrongChunk
  else if Z.testbit slab_ b then
    (if slab_ =? NCX_SLAB_BUSY
     then enter_list (PageP k) (Z.to_nat (ncx_slab_exact_shift - min_shift s)) NCX_SLAB_EXACT else mret tt);;
    put (PageP k) (λ pg, set_slab (Z.land (slab pg) (not64 (2 ^ b))) pg);;
    pg ← node (PageP k);
    (if slab pg =? 0 then ncx_slab_free_pages k 1 else mret tt);;
    mret Freed
  else mret ChunkAlreadyFree.

Definition free_big (p : Z) (k : nat) (slab_ : Z) : M pool free_msg :=
  s ← get;
  let shift := Z.land slab_ NCX_SLAB_SHIFT_MASK in
  if negb (Z.land p (2 ^ shift - 1) =? 0) then mret WrongChunk
  else
    let b := shr64 (Z.land p (ncx_pagesize - 1)) shift + NCX_SLAB_MAP_SHIFT in
    if Z.testbit slab_ b then
      pg ← node (PageP k);
      (if bool_decide (next pg = Null)
       then enter_list (PageP k) (Z.to_nat (shift - min_shift s)) NCX_SLAB_BIG else mret tt);;
      put (PageP k) (λ pg, set_slab (Z.land (slab pg) (not64 (2 ^ b))) pg);;
      pg ← node (PageP k);
      (if Z.land (slab pg) NCX_SLAB_MAP_MASK =? 0 then ncx_slab_free_pages k 1 else mret tt);;
      mret Freed
    else mret ChunkAlreadyFree.

Definition free_run (p : Z) (k : nat) (slab_ : Z) : M pool free_msg :=
  if negb (Z.land p (ncx_pagesize - 1) =? 0) then mret WrongChunk
  else if slab_ =? 0 then mret PageAlreadyFree
  else if slab_ =? NCX_SLAB_PAGE_BUSY then mret WrongPage
  else ncx_slab_free_pages k (Z.land slab_ (not64 NCX_SLAB_PAGE_START));; mret Freed.

(** [ncx_slab_free_locked(pool, p)]. *)
Definition ncx_slab_free_locked (p : Z) : M pool free_msg :=
  s ← get;
  if (p <? start s) || (end_ s <? p) then mret OutsidePool
  else
    let k := Z.to_nat (shr64 (p - start s) ncx_pagesize_shift) in
    pg ← node (PageP k);
    let type := (prev pg).2 in
    if type =? NCX_SLAB_SMALL then free_small p k (slab pg)
    else if type =? NCX_SLAB_EXACT then free_exact p k (slab pg)
    else if type =? NCX_SLAB_BIG then free_big p k (slab pg)
    else free_run p k (slab pg).

(** [ncx_slab_init(pool)] of a pool at address [a] that ends at [e]. *)
Definition slot_node (i : nat) : ptr * page_s := (SlotP i, mkPage 0 (SlotP i) (Null, 0)).
Definition ncx_slab_init (a e min_shift_ : Z) : pool :=
  let n := ncx_pagesize_shift - min_shift_ in
  let p := a + sizeof_pool + n * sizeof_page in
  let pages := (e - p) / (ncx_pagesize + sizeof_page) in
  let start_ := Z.land (p + pages * sizeof_page + (ncx_pagesize - 1)) (not64 (ncx_pagesize - 1)) in
  let real := (e - start_) / ncx_pagesize in
  mkPool (2 ^ min_shift_) min_shift_ start_ e real
    (<[FreeP := mkPage 0 (PageP 0) (Null, 0)]>
      (<[PageP 0 := mkPage real FreeP (FreeP, 0)]>
        (list_to_map (slot_node <$> seq 0 (Z.to_nat n))
         ∪ list_to_map ((λ k, (PageP k, zero_page)) <$> seq 0 (Z.to_nat pages)))))
    ∅.
