(* ===== verification/SlabLink.v ===== *)
(** * SlabLink: the linked lists of the slab allocator

    The lists of [Slab] are circular with a head that is not a page, and
    linked through [next] and [prev].  The [prev] field of the head itself is
    written but never read, and says nothing.  This file gives the lists as
    lists of page numbers and what unlinking, pushing and replacing do to
    them, in terms of the [next] and [prev] fields only. *)
From Stdlib Require Import ZArith Lia.
From stdpp Require Import base numbers list gmap strings.
From S2P Require Import Prelude Util Bitmap BitmapOps Slab.

Abbreviation store := (gmap ptr page_s).
Definition nx (nd : store) (q : ptr) : option ptr := next <$> nd !! q.
Definition pv (nd : store) (q : ptr) : option (ptr * Z) := prev <$> nd !! q.
Definition sb (nd : store) (q : ptr) : option Z := slab <$> nd !! q.

(** From [from] on, the list has the pages [ks] and returns to [sent]. *)
Fixpoint dll (nd : store) (sent : ptr) (tag : Z) (from : ptr) (ks : list nat) : Prop :=
  match ks with
  | [] => nx nd from = Some sent
  | k :: ks =>
      nx nd from = Some (PageP k) ∧ pv nd (PageP k) = Some (from, tag) ∧ dll nd sent tag (PageP k) ks
  end.

(** The page before position [a ++ [k]] and the page behind. *)
Definition before (from : ptr) (a : list nat) : ptr := from_option PageP from (last a).
Definition behind (sent : ptr) (b : list nat) : ptr := from_option PageP sent (head b).

Lemma before_cons from k a : before from (k :: a) = before (PageP k) a.
Proof. unfold before. rewrite last_cons. by destruct (last a). Qed.

(** What a list says of one of its pages. *)
Lemma dll_at nd sent tag from a k b :
  dll nd sent tag from (a ++ k :: b) →
  nx nd (PageP k) = Some (behind sent b) ∧ pv nd (PageP k) = Some (before from a, tag)
  ∧ nx nd (before from a) = Some (PageP k).
Proof.
  revert from. induction a as [|j a IH]; intros from; cbn [app dll].
  - intros (H1 & H2 & H3). split; [|done]. destruct b; simpl in *; [done|apply H3].
  - intros (_ & _ & H). rewrite before_cons. by apply IH.
Qed.

(** Only the [next] fields of the head and the pages and the [prev] fields of
    the pages matter. *)
Lemma dll_ext nd nd' sent tag from ks :
  (∀ q, q ∈ from :: (PageP <$> ks) → nx nd' q = nx nd q) →
  (∀ k, k ∈ ks → pv nd' (PageP k) = pv nd (PageP k)) →
  dll nd sent tag from ks → dll nd' sent tag from ks.
Proof.
  revert from. induction ks as [|k ks IH]; intros from Hn Hp; simpl.
  - intros <-. apply Hn. set_solver.
  - intros (H1 & H2 & H3). split; [by rewrite Hn by set_solver|].
    split; [by rewrite Hp by set_solver|]. apply IH; [set_solver|set_solver|done].
Qed.

Lemma before_in from a : before from a ∈ from :: (PageP <$> a).
Proof.
  unfold before. destruct (last a) as [k|] eqn:E; simpl; [|set_solver].
  apply last_Some in E as [a' ->]. rewrite fmap_app. set_solver.
Qed.

Lemma behind_in sent b : behind sent b ∈ sent :: (PageP <$> b).
Proof. destruct b; simpl; set_solver. Qed.

(** The heads of lists are not pages. *)
Definition is_head (q : ptr) : Prop := ∀ k, q ≠ PageP k.

(** Unlinking [k]: the page before it gets its [next], the page behind it
    its [prev]. *)
Lemma dll_unlink nd nd' sent tag from a k b :
  is_head sent → from ∉ PageP <$> (a ++ k :: b) → NoDup (a ++ k :: b) →
  dll nd sent tag from (a ++ k :: b) →
  (∀ q, nx nd' q = if decide (q = before from a) then Some (behind sent b) else nx nd q) →
  (∀ q, pv nd' q = if decide (q = behind sent b) then Some (before from a, tag) else pv nd q) →
  dll nd' sent tag from (a ++ b).
Proof.
  intros Hs Hf Hnd H Hnx Hpv. revert from Hf Hnd H Hnx Hpv.
  induction a as [|j a IH]; intros from Hf Hnd H Hnx Hpv.
  - cbn [app] in *. destruct H as (H1 & H2 & H3). unfold before in *. simpl in *. destruct b as [|j b].
    + simpl. rewrite Hnx. by rewrite decide_True.
    + simpl. rewrite Hnx, decide_True by done. split; [done|]. rewrite Hpv, decide_True by done.
      split; [done|]. apply NoDup_cons in Hnd as [Hk Hnd]. apply NoDup_cons in Hnd as [Hj Hnd].
      destruct H3 as (_ & _ & H3). eapply dll_ext; [| |exact H3].
      * intros q Hq. rewrite Hnx, decide_False; [done|]. intros ->. set_solver.
      * intros x Hx. rewrite Hpv, decide_False; [done|]. simpl. intros [= ->]. done.
  - cbn [app dll] in *. rewrite before_cons in *. destruct H as (H1 & H2 & H3).
    apply NoDup_cons in Hnd as [Hj Hnd]. split; [|split].
    + rewrite Hnx, decide_False; [done|]. pose proof (before_in (PageP j) a) as Hin. intros E.
      rewrite <- E in Hin. rewrite fmap_cons, fmap_app in Hf. set_solver.
    + rewrite Hpv, decide_False; [done|]. destruct b as [|x b]; simpl; [by apply not_eq_sym, Hs|].
      intros [= ->]. set_solver.
    + apply IH; [|done|done|done|done]. intros (x & [= ->] & Hx)%list_elem_of_fmap. done.
Qed.

(** Pushing [k] behind the head. *)
Lemma dll_push nd nd' sent tag ks k :
  is_head sent → k ∉ ks → NoDup ks → dll nd sent tag sent ks →
  (∀ q, nx nd' q = if decide (q = sent) then Some (PageP k)
     else if decide (q = PageP k) then Some (behind sent ks) else nx nd q) →
  (∀ q, q ≠ sent → pv nd' q = if decide (q = PageP k) then Some (sent, tag)
     else if decide (q = behind sent ks) then Some (PageP k, tag) else pv nd q) →
  dll nd' sent tag sent (k :: ks).
Proof.
  intros Hs Hk Hnd H Hnx Hpv. cbn [dll].
  split; [by rewrite Hnx, decide_True|]. split.
  { rewrite Hpv by (by apply not_eq_sym, Hs). by rewrite decide_True. }
  destruct ks as [|j ks]; cbn [dll] in *.
  - rewrite Hnx, decide_False by (by apply not_eq_sym, Hs). by rewrite decide_True.
  - destruct H as (H1 & H2 & H3). apply NoDup_cons in Hnd as [Hj Hnd].
    rewrite Hnx, decide_False by (by apply not_eq_sym, Hs). rewrite decide_True by done. split; [done|]. split.
    { rewrite Hpv by (by apply not_eq_sym, Hs). rewrite decide_False by set_solver. by rewrite decide_True. }
    eapply dll_ext; [| |exact H3].
    + intros q Hq. rewrite Hnx.
      assert (∃ x, q = PageP x ∧ x ≠ k) as (x & -> & Hxk).
      { apply elem_of_cons in Hq as [->|(x & -> & Hx)%list_elem_of_fmap]; eexists; (split; [done|]); set_solver. }
      rewrite !decide_False; [done|congruence|by apply not_eq_sym, Hs].
    + intros x Hx. rewrite Hpv by (by apply not_eq_sym, Hs). change (behind sent (j :: ks)) with (PageP j).
      assert (x ≠ j) by (by intros ->). assert (x ≠ k) by set_solver. rewrite !decide_False by congruence. done.
Qed.

(** Putting [k'] in the place of [k]. *)
Lemma dll_replace nd nd' sent tag from a k k' b :
  is_head sent → from ∉ PageP <$> (a ++ k :: b) → from ≠ PageP k' → k' ∉ a ++ b → NoDup (a ++ k :: b) →
  dll nd sent tag from (a ++ k :: b) →
  (∀ q, q ≠ PageP k → nx nd' q = if decide (q = before from a) then Some (PageP k')
     else if decide (q = PageP k') then Some (behind sent b) else nx nd q) →
  (∀ q, q ≠ PageP k → q ≠ sent → pv nd' q = if decide (q = PageP k') then Some (before from a, tag)
     else if decide (q = behind sent b) then Some (PageP k', tag) else pv nd q) →
  k' ≠ k → dll nd' sent tag from (a ++ k' :: b).
Proof.
  intros Hs Hf Hfk' Hk' Hnd H Hnx Hpv Hkk. revert from Hf Hfk' H Hnx Hpv. induction a as [|j a IH]; intros from Hf Hfk' H Hnx Hpv.
  - cbn [app dll] in *. unfold before in *. simpl in *. destruct H as (H1 & H2 & H3).
    apply NoDup_cons in Hnd as [Hk Hnd].
    split; [rewrite Hnx, decide_True by (done || set_solver); done|]. split.
    { rewrite Hpv, decide_True; [done..|congruence|]. by apply not_eq_sym, Hs. }
    assert (Hb : nx nd' (PageP k') = Some (behind sent b)).
    { rewrite Hnx by congruence. rewrite decide_False by done. by rewrite decide_True. }
    destruct b as [|x b]; cbn [dll] in *; [done|]. destruct H3 as (H3 & H4 & H5).
    apply NoDup_cons in Hnd as [Hx Hnd]. split; [done|]. split.
    { rewrite Hpv; [|set_solver|by apply not_eq_sym, Hs]. rewrite decide_False by set_solver. by rewrite decide_True. }
    eapply dll_ext; [| |exact H5].
    + intros q Hq. assert (∃ y, q = PageP y ∧ y ∈ x :: b) as (y & -> & Hy).
      { apply elem_of_cons in Hq as [->|(y & -> & Hy)%list_elem_of_fmap]; eexists; (split; [done|]); set_solver. }
      assert (y ≠ k) by set_solver. assert (y ≠ k') by set_solver.
      rewrite Hnx by congruence. rewrite !decide_False; [done|congruence|]. intros <-. apply Hf. simpl. set_solver.
    + intros y Hy. assert (y ≠ k) by set_solver. assert (y ≠ k') by set_solver. assert (y ≠ x) by (by intros ->).
      rewrite Hpv; [|congruence|by apply not_eq_sym, Hs].
      change (behind sent (x :: b)) with (PageP x). rewrite !decide_False by congruence. done.
  - cbn [app dll] in *. rewrite before_cons in *. destruct H as (H1 & H2 & H3).
    apply NoDup_cons in Hnd as [Hj Hnd]. rewrite fmap_cons, fmap_app in Hf. pose proof (before_in (PageP j) a) as Hin.
    split; [|split].
    + rewrite Hnx; [|rewrite fmap_cons in Hf; set_solver]. rewrite !decide_False; [done|done|]. intros E. rewrite <- E in Hin. set_solver.
    + rewrite Hpv; [|set_solver|by apply not_eq_sym, Hs]. rewrite !decide_False; [done| |set_solver].
      destruct b as [|x b]; simpl; [by apply not_eq_sym, Hs|]. intros [= ->]. set_solver.
    + apply IH; [set_solver|done| |set_solver|done|done|done]. intros (x & [= ->] & Hx)%list_elem_of_fmap. done.
Qed.

(** Walking the [prev] pointers from a page of the list ends at the head. *)
Lemma dll_walk nd sent tag ks k :
  dll nd sent tag sent ks → k ∈ ks →
  ∃ a b, ks = a ++ k :: b ∧ pv nd (PageP k) = Some (before sent a, tag).
Proof.
  intros H [a [b ->]]%list_elem_of_split. exists a, b. split; [done|]. by apply dll_at in H as (_ & H & _).
Qed.
