(* ===== verification/SlabOk.v ===== *)
(** * SlabOk: the layout of a slab pool

    The pages of a pool form a sequence of segments: free runs, runs handed
    out whole, and pages cut into chunks with the set of chunks in use.  The
    invariant says what the entries of the page array and the lists hold for
    a layout. *)
From Stdlib Require Import ZArith Lia.
From stdpp Require Import base numbers list gmap strings.
From S2P Require Import Prelude Util Bitmap BitmapOps Slab SlabLink.

(** ** Layouts *)
Inductive seg : Type :=
  | FreeSeg (n : nat)
  | RunSeg (n : nat)
  | ChunkSeg (sh used : Z).

(** Chunks in a page, chunks its bitmap takes, the type of the page and its
    [slab] field. *)
Definition count (sh : Z) : Z := 2 ^ (12 - sh).
Definition reserved (sh : Z) : Z := if sh <? 6 then map_chunks sh else 0.
Definition type_of (sh : Z) : Z :=
  if sh <? 6 then NCX_SLAB_SMALL else if sh =? 6 then NCX_SLAB_EXACT else NCX_SLAB_BIG.
Definition slab_of (sh used : Z) : Z :=
  if sh <? 6 then sh else if sh =? 6 then used else used * 2 ^ 32 + sh.
Definition full (sh used : Z) : Prop := used = Z.ones (count sh).
#[export] Instance full_dec sh used : Decision (full sh used).
Proof. unfold full. apply _. Defined.

Definition seg_ok (g : seg) : Prop :=
  match g with
  | FreeSeg n | RunSeg n => (1 ≤ n)%nat
  | ChunkSeg sh used =>
      3 ≤ sh ≤ 11 ∧ 0 ≤ used < 2 ^ count sh
      ∧ (∀ i, 0 ≤ i < reserved sh → Z.testbit used i = true)
      ∧ ∃ i, reserved sh ≤ i < count sh ∧ Z.testbit used i = true
  end.

(** The role of one page. *)
Inductive kind : Type :=
  | KFree (n : nat) | KFreeBody | KRun (n : nat) | KRunBody | KChunk (sh used : Z).
Definition kinds_of (g : seg) : list kind :=
  match g with
  | FreeSeg n => KFree n :: replicate (n - 1) KFreeBody
  | RunSeg n => KRun n :: replicate (n - 1) KRunBody
  | ChunkSeg sh used => [KChunk sh used]
  end.
Definition kinds (L : list seg) : list kind := L ≫= kinds_of.
Definition pages_in (L : list seg) : nat := length (kinds L).

(** The list a page is in. *)
Definition slot_of (sh : Z) : ptr := SlotP (Z.to_nat (sh - 3)).
Definition home (kd : kind) : option ptr :=
  match kd with
  | KFree _ => Some FreeP
  | KChunk sh used => if decide (full sh used) then None else Some (slot_of sh)
  | _ => None
  end.
Definition home_of (L : list seg) (k : nat) : option ptr := kinds L !! k ≫= home.

Definition sentinel (q : ptr) : Prop := q = FreeP ∨ ∃ i, (i < 9)%nat ∧ q = SlotP i.
Definition tag_of (q : ptr) : Z :=
  match q with SlotP i => type_of (3 + Z.of_nat i) | _ => 0 end.

Definition links (nd : store) (h : nat → option ptr) (lst : ptr → list nat) : Prop :=
  ∀ sent, sentinel sent →
    dll nd sent (tag_of sent) sent (lst sent) ∧ NoDup (lst sent) ∧ ∀ k, k ∈ lst sent ↔ h k = Some sent.

(** The bitmap of a page of small chunks. *)
Definition map_ok (m : bitmap) (sh used : Z) : Prop :=
  words_ok m ∧ Z.of_nat (length m) = map_words sh ∧ ∀ i, 0 ≤ i < count sh → test_bit m i = Z.testbit used i.

Definition kind_ok (s : pool) (j : nat) (kd : kind) : Prop :=
  match kd with
  | KFree n => sb (nodes s) (PageP j) = Some (Z.of_nat n)
  | KFreeBody => nodes s !! PageP j = Some zero_page
  | KRun n => nodes s !! PageP j = Some (mkPage (Z.of_nat n + 2 ^ 63) Null (Null, 0))
  | KRunBody => nodes s !! PageP j = Some (mkPage NCX_SLAB_PAGE_BUSY Null (Null, 0))
  | KChunk sh used =>
      sb (nodes s) (PageP j) = Some (slab_of sh used)
      ∧ (full sh used → nx (nodes s) (PageP j) = Some Null ∧ pv (nodes s) (PageP j) = Some (Null, type_of sh))
      ∧ (sh < 6 → ∃ m, maps s !! j = Some m ∧ map_ok m sh used)
  end.

Record inv (s : pool) (L : list seg) (lst : ptr → list nat) : Prop := mkInv {
  i_min : min_shift s = 3 ∧ min_size s = 8;
  i_addr : 0 < start s ∧ start s mod 4096 = 0 ∧ start s + 4096 * real_pages s ≤ end_ s ∧ end_ s < 2 ^ 63;
  i_len : Z.of_nat (pages_in L) = real_pages s;
  i_segs : Forall seg_ok L;
  i_kind : ∀ j kd, kinds L !! j = Some kd → kind_ok s j kd;
  i_links : links (nodes s) (home_of L) lst
}.

(** ** Executing on the store *)
Abbreviation on nd s := (set_nodes (λ _, nd) s).

Lemma node_run {A} q pg (f : page_s → M pool A) s : nodes s !! q = Some pg → (node q ≫= f) s = f pg s.
Proof. intros E. unfold mbind, M_bind, node. by rewrite E. Qed.

Lemma put_run {A} q pg f (g : unit → M pool A) s :
  nodes s !! q = Some pg → (put q f ≫= g) s = g tt (set_nodes <[q := f pg]> s).
Proof. intros E. unfold mbind, M_bind, put, node, modify, mbind, M_bind. by rewrite E. Qed.

Lemma put_last q pg f s : nodes s !! q = Some pg → put q f s = Ok (tt, set_nodes <[q := f pg]> s).
Proof. intros E. unfold put, node, modify, mbind, M_bind. by rewrite E. Qed.

Lemma bind_run {A B} (m : M pool A) (f : A → M pool B) s a s' : m s = Ok (a, s') → (m ≫= f) s = f a s'.
Proof. intros E. unfold mbind, M_bind. by rewrite E. Qed.

(** What [unlink] does to the store. *)
Lemma unlink_run page p pg s :
  nodes s !! page = Some pg → p ≠ page → is_Some (nodes s !! p) → is_Some (nodes s !! next pg) →
  ∃ nd', unlink page p s = Ok (tt, on nd' s)
    ∧ ∀ q, nd' !! q = (λ x, mkPage (slab x) (if decide (q = p) then next pg else next x)
                                   (if decide (q = next pg) then prev pg else prev x)) <$> nodes s !! q.
Proof.
  intros E Hp [pp Ep] [pn En]. unfold unlink. rewrite (node_run _ _ _ _ E).
  rewrite (put_run _ _ _ _ _ Ep). erewrite node_run by (simpl; rewrite lookup_insert_ne; done).
  destruct (decide (next pg = p)) as [<-|Hne].
  - erewrite put_last by (simpl; by rewrite lookup_insert_eq). eexists. split; [reflexivity|]. intros q. cbn [nodes set_nodes].
    destruct (decide (q = next pg)) as [->|]; [by rewrite !lookup_insert_eq, Ep|].
    rewrite !lookup_insert_ne by done. by destruct (nodes s !! q) as [[]|].
  - erewrite put_last by (simpl; rewrite lookup_insert_ne by done; done). eexists. split; [reflexivity|]. intros q. cbn [nodes set_nodes].
    destruct (decide (q = next pg)) as [->|].
    + rewrite lookup_insert_eq, En. cbn [fmap option_fmap option_map]. by rewrite decide_False by done.
    + rewrite lookup_insert_ne by done. destruct (decide (q = p)) as [->|].
      * rewrite lookup_insert_eq, Ep. by destruct pp.
      * rewrite lookup_insert_ne by done. by destruct (nodes s !! q) as [[]|].
Qed.

(** ** The lists as a whole *)
Definition upd (lst : ptr → list nat) (sent : ptr) (ks : list nat) : ptr → list nat :=
  λ q, if decide (q = sent) then ks else lst q.

Lemma sentinel_head q : sentinel q → is_head q.
Proof. by intros [->|(i & _ & ->)] k. Qed.

(** Changing one list: only its head, its old and its new pages are
    written. *)
Lemma links_update nd nd' h h' lst sent ks' :
  links nd h lst → sentinel sent →
  dll nd' sent (tag_of sent) sent ks' → NoDup ks' → (∀ k, k ∈ ks' ↔ h' k = Some sent) →
  (∀ k q, q ≠ sent → h' k = Some q ↔ h k = Some q) →
  (∀ q, q ∈ sent :: (PageP <$> lst sent) ∨ q ∈ PageP <$> ks' ∨ nx nd' q = nx nd q ∧ pv nd' q = pv nd q) →
  links nd' h' (upd lst sent ks').
Proof.
  intros Hl Hs Hd Hnd Hh Hoth Hv q Hq. unfold upd. destruct (decide (q = sent)) as [->|Hne]; [done|].
  destruct (Hl q Hq) as (Hdq & Hndq & Hhq). destruct (Hl sent Hs) as (_ & _ & Hhs).
  assert (Hpage : ∀ k, k ∈ lst q → nx nd' (PageP k) = nx nd (PageP k) ∧ pv nd' (PageP k) = pv nd (PageP k)).
  { intros k Hk. apply Hhq in Hk. destruct (Hv (PageP k)) as [Hin|[Hin|Hin]]; [| |done].
    - apply elem_of_cons in Hin as [E|(j & [= ->] & Hj)%list_elem_of_fmap].
      + by apply sentinel_head in Hs; destruct (Hs k).
      + apply Hhs in Hj. congruence.
    - apply list_elem_of_fmap in Hin as (j & [= ->] & Hj). apply Hh in Hj. apply Hoth in Hk; [congruence|done]. }
  split; [|split; [done|]].
  - eapply dll_ext; [| |exact Hdq].
    + intros x [->|(k & -> & Hk)%list_elem_of_fmap]%elem_of_cons; [|by apply Hpage].
      destruct (Hv q) as [Hin|[Hin|[Hin _]]]; [| |done].
      * apply elem_of_cons in Hin as [E|(j & -> & Hj)%list_elem_of_fmap]; [done|].
        by apply sentinel_head in Hq; destruct (Hq j).
      * apply list_elem_of_fmap in Hin as (j & -> & Hj). by apply sentinel_head in Hq; destruct (Hq j).
    + intros k Hk. by apply Hpage.
  - intros k. rewrite Hhq. symmetry. by apply Hoth.
Qed.

(** A page of a list, its neighbours, and the way out. *)
Lemma links_at nd h lst sent k pg :
  links nd h lst → sentinel sent → h k = Some sent → nd !! PageP k = Some pg →
  ∃ a b, lst sent = a ++ k :: b ∧ next pg = behind sent b ∧ prev pg = (before sent a, tag_of sent)
    ∧ before sent a ≠ PageP k ∧ behind sent b ≠ PageP k ∧ is_Some (nd !! before sent a)
    ∧ is_Some (nd !! behind sent b).
Proof.
  intros Hl Hs Hk E. destruct (Hl sent Hs) as (Hd & Hnd & Hh). apply Hh in Hk.
  apply list_elem_of_split in Hk as (a & b & Ek). rewrite Ek in Hd, Hnd.
  pose proof (dll_at _ _ _ _ _ _ _ Hd) as (H1 & H2 & H3).
  assert (Hnk : ∀ l, k ∉ l → ∀ q, q ∈ sent :: (PageP <$> l) → q ≠ PageP k).
  { intros l Hl' q [->|(x & -> & Hx)%list_elem_of_fmap]%elem_of_cons; [by apply sentinel_head|].
    intros [= ->]. done. }
  apply NoDup_app in Hnd as (_ & Hdis & Hndb). apply NoDup_cons in Hndb as [Hkb _].
  exists a, b. split; [done|]. unfold nx, pv in H1, H2. rewrite E in H1, H2. simpl in H1, H2.
  split; [congruence|]. split; [congruence|].
  split; [apply (Hnk a); [intros ?; apply (Hdis k); set_solver|apply before_in]|].
  split; [apply (Hnk b); [done|apply behind_in]|].
  split; [unfold nx in H3; destruct (nd !! before sent a); [by eexists|done]|].
  destruct b as [|j b]; [change (behind sent []) with sent|change (behind sent (j :: b)) with (PageP j)].
  - rewrite Ek in Hh. assert (Hn : nx nd sent ≠ None).
    { destruct a as [|x a]; cbn [app dll] in Hd; destruct Hd as (Hd & _); congruence. }
    unfold nx in Hn. destruct (nd !! sent); [by eexists|done].
  - assert (Hj : pv nd (PageP j) ≠ None).
    { replace (a ++ k :: j :: b) with ((a ++ [k]) ++ j :: b) in Hd by (by rewrite <- app_assoc).
      apply dll_at in Hd as (_ & Hd & _). congruence. }
    unfold pv in Hj. destruct (nd !! PageP j); [by eexists|done].
Qed.

(** Unlinking a page. *)
Lemma links_unlink nd nd' h lst sent k pg :
  links nd h lst → sentinel sent → h k = Some sent → nd !! PageP k = Some pg →
  (∀ q, nd' !! q = (λ x, mkPage (slab x) (if decide (q = (prev pg).1) then next pg else next x)
                                (if decide (q = next pg) then prev pg else prev x)) <$> nd !! q) →
  ∃ ks, links nd' (λ j, if decide (j = k) then None else h j) (upd lst sent ks)
    ∧ ∃ a b, lst sent = a ++ k :: b ∧ ks = a ++ b.
Proof.
  intros Hl Hs Hk E Hnd'. destruct (links_at _ _ _ _ _ _ Hl Hs Hk E) as (a & b & Ek & En & Ep & Hp & Hn & [pp Epp] & [pn Epn]).
  rewrite En, Ep in Hnd'. simpl in Hnd'. destruct (Hl sent Hs) as (Hd & Hnd & Hh). rewrite Ek in Hd, Hnd.
  exists (a ++ b). split; [|eauto]. apply (links_update nd _ h); try done.
  - eapply dll_unlink; [by apply sentinel_head| |exact Hnd|exact Hd| |].
    + intros (x & Ex & _)%list_elem_of_fmap. by apply sentinel_head in Hs; destruct (Hs x).
    + intros q. unfold nx. rewrite Hnd'. destruct (decide (q = before sent a)) as [->|].
      * by rewrite Epp.
      * by destruct (nd !! q).
    + intros q. unfold pv. rewrite Hnd'. destruct (decide (q = behind sent b)) as [->|].
      * by rewrite Epn.
      * by destruct (nd !! q).
  - apply NoDup_app in Hnd as (Ha & Hdis & Hb). apply NoDup_cons in Hb as [_ Hb].
    apply NoDup_app. split; [done|]. split; [|done]. intros x Hx Hxb. apply (Hdis x Hx). by right.
  - intros x. destruct (decide (x = k)) as [->|Hne].
    + split; [|done]. apply NoDup_app in Hnd as (Ha & Hdis & Hb). apply NoDup_cons in Hb as [Hb _].
      intros [Hx|Hx]%elem_of_app; [|done]. destruct (Hdis k Hx). by left.
    + rewrite <- Hh, Ek. set_solver.
  - intros x q Hq. destruct (decide (x = k)) as [->|]; [|done]. rewrite Hk. split; congruence.
  - intros q. destruct (decide (q ∈ sent :: (PageP <$> lst sent))) as [|Hno]; [by left|]. right. right.
    assert (q ≠ before sent a).
    { intros ->. apply Hno. pose proof (before_in sent a). rewrite Ek, fmap_app. set_solver. }
    assert (q ≠ behind sent b).
    { intros ->. apply Hno. pose proof (behind_in sent b). rewrite Ek, fmap_app, fmap_cons. set_solver. }
    unfold nx, pv. rewrite Hnd'. destruct (nd !! q); cbn [fmap option_fmap option_map]; [by rewrite !decide_False by done|done].
Qed.

Lemma links_first nd h lst sent :
  links nd h lst → sentinel sent → nx nd sent = Some (behind sent (lst sent)).
Proof.
  intros Hl Hs. destruct (Hl sent Hs) as (Hd & _). destruct (lst sent); [done|apply Hd].
Qed.

(** Pushing a page that is in no list. *)
Lemma links_push nd nd' h lst sent k :
  links nd h lst → sentinel sent → h k = None →
  (∀ q, nx nd' q = if decide (q = sent) then Some (PageP k)
     else if decide (q = PageP k) then nx nd sent else nx nd q) →
  (∀ q, q ≠ sent → pv nd' q = if decide (q = PageP k) then Some (sent, tag_of sent)
     else if decide (Some q = nx nd sent) then Some (PageP k, tag_of sent) else pv nd q) →
  links nd' (λ j, if decide (j = k) then Some sent else h j) (upd lst sent (k :: lst sent)).
Proof.
  intros Hl Hs Hk Hnx Hpv. destruct (Hl sent Hs) as (Hd & Hnd & Hh).
  rewrite (links_first _ _ _ _ Hl Hs) in Hnx, Hpv.
  assert (Hki : k ∉ lst sent) by (rewrite Hh; congruence).
  assert (Hsp : ∀ j, PageP j ≠ sent) by (intros j; by apply not_eq_sym, sentinel_head).
  apply (links_update nd _ h); try done.
  - apply (dll_push nd); [by apply sentinel_head|done|done|done|done|].
    intros q Hq. rewrite Hpv by done. repeat destruct (decide _); congruence.
  - by constructor.
  - intros x. rewrite elem_of_cons, Hh. destruct (decide (x = k)) as [->|]; naive_solver.
  - intros x q Hq. destruct (decide (x = k)) as [->|]; [|done]. rewrite Hk. split; congruence.
  - intros q. destruct (decide (q = sent)) as [->|H1]; [left; by left|].
    destruct (decide (q = PageP k)) as [->|H2]; [right; left; rewrite fmap_cons; by left|].
    destruct (decide (q = behind sent (lst sent))) as [->|H3]; [left; apply behind_in|].
    right. right. rewrite Hnx, Hpv by done. rewrite !decide_False by congruence. done.
Qed.

(** Putting [k'] in the place of [k]. *)
Lemma links_replace nd nd' h lst sent k k' pg :
  links nd h lst → sentinel sent → h k = Some sent → nd !! PageP k = Some pg → h k' = None →
  (∀ q, q ≠ PageP k → nx nd' q = if decide (q = (prev pg).1) then Some (PageP k')
     else if decide (q = PageP k') then Some (next pg) else nx nd q) →
  (∀ q, q ≠ PageP k → q ≠ sent → pv nd' q = if decide (q = PageP k') then Some (prev pg)
     else if decide (q = next pg) then Some (PageP k', tag_of sent) else pv nd q) →
  ∃ ks, links nd' (λ j, if decide (j = k) then None else if decide (j = k') then Some sent else h j)
          (upd lst sent ks).
Proof.
  intros Hl Hs Hk E Hk' Hnx Hpv.
  destruct (links_at _ _ _ _ _ _ Hl Hs Hk E) as (a & b & Ek & En & Ep & Hp & Hn & _ & _).
  rewrite En, Ep in Hnx, Hpv. simpl in Hnx, Hpv. destruct (Hl sent Hs) as (Hd & Hnd & Hh). rewrite Ek in Hd, Hnd.
  assert (Hne : k' ≠ k) by congruence.
  assert (Hk'i : k' ∉ a ++ k :: b) by (rewrite <- Ek, Hh; congruence).
  assert (Hsp : ∀ j, PageP j ≠ sent) by (intros j; by apply not_eq_sym, sentinel_head).
  assert (Hnd' : NoDup (a ++ k' :: b)).
  { rewrite <- Permutation_middle in Hnd |- *. apply NoDup_cons in Hnd as [_ Hnd]. apply NoDup_cons. set_solver. }
  exists (a ++ k' :: b). apply (links_update nd _ h); try done.
  - eapply dll_replace; [by apply sentinel_head| |by apply not_eq_sym| |exact Hnd|exact Hd|exact Hnx|exact Hpv|done].
    + intros (x & Ex & _)%list_elem_of_fmap. by apply (Hsp x).
    + set_solver.
  - intros x. destruct (decide (x = k)) as [->|].
    + split; [|done]. rewrite <- Permutation_middle in Hnd. apply NoDup_cons in Hnd as [Hnd _]. set_solver.
    + destruct (decide (x = k')) as [->|]; [set_solver|]. rewrite <- Hh, Ek. set_solver.
  - intros x q Hq. destruct (decide (x = k)) as [->|]; [rewrite Hk; split; congruence|].
    destruct (decide (x = k')) as [->|]; [rewrite Hk'; split; congruence|done].
  - intros q. destruct (decide (q ∈ sent :: (PageP <$> lst sent))) as [|Hno]; [by left|]. right.
    destruct (decide (q = PageP k')) as [->|Hq']; [left; rewrite fmap_app, fmap_cons; set_solver|]. right.
    assert (Hqk : q ≠ PageP k) by (intros ->; apply Hno; rewrite Ek, fmap_app, fmap_cons; set_solver).
    assert (Hqs : q ≠ sent) by (intros ->; apply Hno; by left).
    assert (q ≠ before sent a).
    { intros ->. apply Hno. pose proof (before_in sent a). rewrite Ek, fmap_app. set_solver. }
    assert (q ≠ behind sent b).
    { intros ->. apply Hno. pose proof (behind_in sent b). rewrite Ek, fmap_app, fmap_cons. set_solver. }
    rewrite Hnx, Hpv, !decide_False by done. done.
Qed.

(** Pages in no list may change. *)
Lemma links_frame nd nd' h h' lst :
  links nd h lst → (∀ k, h k = h' k) →
  (∀ q, sentinel q ∨ (∃ k, q = PageP k ∧ h' k ≠ None) → nx nd' q = nx nd q ∧ (is_head q ∨ pv nd' q = pv nd q)) →
  links nd' h' lst.
Proof.
  intros Hl Hh Hv q Hq. destruct (Hl q Hq) as (Hd & Hnd & Hin).
  assert (Hin' : ∀ k, k ∈ lst q ↔ h' k = Some q) by (intros k; by rewrite Hin, Hh).
  assert (Hp : ∀ k, k ∈ lst q → nx nd' (PageP k) = nx nd (PageP k) ∧ pv nd' (PageP k) = pv nd (PageP k)).
  { intros k Hk%Hin'. destruct (Hv (PageP k)) as [H1 H2]; [right; exists k; split; congruence|].
    split; [done|]. destruct H2 as [H2|]; [by destruct (H2 k)|done]. }
  split; [|done]. eapply dll_ext; [| |exact Hd].
  - intros x [->|(k & -> & Hk)%list_elem_of_fmap]%elem_of_cons; [by apply Hv; left|by apply Hp].
  - intros k Hk. by apply Hp.
Qed.

Lemma links_home nd h h' lst : links nd h lst → (∀ k, h k = h' k) → links nd h' lst.
Proof. intros Hl Hh. eapply links_frame; [exact Hl|done|]. intros q _. split; [done|by right]. Qed.

(** ** Layouts, page by page *)
Definition seg_len (g : seg) : nat := match g with FreeSeg n | RunSeg n => n | ChunkSeg _ _ => 1 end.

Lemma seg_len_ok g : seg_ok g → length (kinds_of g) = seg_len g ∧ (1 ≤ seg_len g)%nat.
Proof. destruct g; simpl; rewrite ?length_replicate; lia. Qed.

Lemma kinds_app L1 L2 : kinds (L1 ++ L2) = kinds L1 ++ kinds L2.
Proof. apply bind_app. Qed.

Lemma pages_app L1 L2 : pages_in (L1 ++ L2) = (pages_in L1 + pages_in L2)%nat.
Proof. unfold pages_in. by rewrite kinds_app, length_app. Qed.

Lemma pages_cons g L : seg_ok g → pages_in (g :: L) = (seg_len g + pages_in L)%nat.
Proof. intros Hg. unfold pages_in, kinds. cbn [mbind list_bind]. rewrite length_app. f_equal. by apply seg_len_ok. Qed.

Lemma kinds_mid L1 g L2 j :
  seg_ok g →
  kinds (L1 ++ g :: L2) !! j =
    if decide (j < pages_in L1)%nat then kinds L1 !! j
    else if decide (j < pages_in L1 + seg_len g)%nat then kinds_of g !! (j - pages_in L1)%nat
    else kinds L2 !! (j - pages_in L1 - seg_len g)%nat.
Proof.
  intros Hg. pose proof (seg_len_ok g Hg) as [Hl _]. unfold pages_in. rewrite kinds_app.
  change (kinds (g :: L2)) with (kinds_of g ++ kinds L2).
  destruct (decide (j < length (kinds L1))%nat); [by apply lookup_app_l|].
  rewrite lookup_app_r by lia. case_decide; [apply lookup_app_l; lia|].
  rewrite lookup_app_r by lia. f_equal. lia.
Qed.

Lemma kinds_free n i :
  (1 ≤ n)%nat → kinds_of (FreeSeg n) !! i =
    if decide (i = 0)%nat then Some (KFree n) else if decide (i < n)%nat then Some KFreeBody else None.
Proof.
  intros Hn. destruct i as [|i]; [done|]. change (kinds_of (FreeSeg n) !! S i) with (replicate (n - 1) KFreeBody !! i).
  rewrite decide_False by lia.
  destruct (decide (S i < n)%nat).
  - apply lookup_replicate_2. lia.
  - apply lookup_replicate_None. lia.
Qed.

Lemma kinds_run n i :
  (1 ≤ n)%nat → kinds_of (RunSeg n) !! i =
    if decide (i = 0)%nat then Some (KRun n) else if decide (i < n)%nat then Some KRunBody else None.
Proof.
  intros Hn. destruct i as [|i]; [done|]. change (kinds_of (RunSeg n) !! S i) with (replicate (n - 1) KRunBody !! i).
  rewrite decide_False by lia.
  destruct (decide (S i < n)%nat).
  - apply lookup_replicate_2. lia.
  - apply lookup_replicate_None. lia.
Qed.

(** The head of a segment in the middle. *)
Lemma kinds_head L1 g L2 : seg_ok g → kinds (L1 ++ g :: L2) !! pages_in L1 = kinds_of g !! 0%nat.
Proof.
  intros Hg. rewrite kinds_mid by done. pose proof (seg_len_ok g Hg).
  rewrite decide_False, decide_True by lia. by rewrite Nat.sub_diag.
Qed.

(** Every page of a layout belongs to a segment. *)
Lemma kinds_split L j kd :
  Forall seg_ok L → kinds L !! j = Some kd →
  ∃ L1 g L2 i, L = L1 ++ g :: L2 ∧ j = (pages_in L1 + i)%nat ∧ (i < seg_len g)%nat ∧ kinds_of g !! i = Some kd ∧ seg_ok g.
Proof.
  intros HL. revert j. induction HL as [|g L Hg HL IH]; intros j Hj; [done|].
  change (kinds (g :: L)) with (kinds_of g ++ kinds L) in Hj. pose proof (seg_len_ok g Hg) as [Hl _].
  apply lookup_app_Some in Hj as [Hj|[Hle Hj]].
  - exists [], g, L, j. split; [done|]. split; [done|]. split; [|done]. apply lookup_lt_Some in Hj. lia.
  - destruct (IH _ Hj) as (L1 & g' & L2 & i & -> & E & Hi & Hk & Hg').
    exists (g :: L1), g', L2, i. split; [done|]. rewrite pages_cons by done. split; [lia|done].
Qed.

(** A free head is the head of a free segment. *)
Lemma free_split L j n :
  Forall seg_ok L → kinds L !! j = Some (KFree n) → ∃ L1 L2, L = L1 ++ FreeSeg n :: L2 ∧ j = pages_in L1.
Proof.
  intros HL Hj. destruct (kinds_split L j _ HL Hj) as (L1 & g & L2 & i & -> & -> & Hi & Hk & Hg).
  exists L1, L2. destruct g as [m|m|sh u].
  - rewrite kinds_free in Hk by done. repeat case_decide; simplify_eq. split; [done|lia].
  - rewrite kinds_run in Hk by done. repeat case_decide; simplify_eq.
  - destruct i; simplify_eq/=.
Qed.

Lemma chunk_split L j sh used :
  Forall seg_ok L → kinds L !! j = Some (KChunk sh used) →
  ∃ L1 L2, L = L1 ++ ChunkSeg sh used :: L2 ∧ j = pages_in L1.
Proof.
  intros HL Hj. destruct (kinds_split L j _ HL Hj) as (L1 & g & L2 & i & -> & -> & Hi & Hk & Hg).
  exists L1, L2. destruct g as [m|m|sh' u].
  - rewrite kinds_free in Hk by done. repeat case_decide; simplify_eq.
  - rewrite kinds_run in Hk by done. repeat case_decide; simplify_eq.
  - destruct i; simplify_eq/=. split; [done|lia].
Qed.

(** ** Runs of pages *)
Lemma fill_pages_run pg c k s :
  (∀ j, (k ≤ j < k + c)%nat → is_Some (nodes s !! PageP j)) →
  ∃ nd', fill_pages k pg c s = Ok (tt, on nd' s)
    ∧ (∀ j, (k ≤ j < k + c)%nat → nd' !! PageP j = Some pg)
    ∧ ∀ q, (∀ j, (k ≤ j < k + c)%nat → q ≠ PageP j) → nd' !! q = nodes s !! q.
Proof.
  revert k s. induction c as [|c IH]; intros k s Hs; cbn [fill_pages].
  { exists (nodes s). split; [by destruct s|]. split; [lia|done]. }
  destruct (Hs k ltac:(lia)) as [pk Ek]. rewrite (put_run _ _ _ _ _ Ek).
  destruct (IH (S k) (set_nodes <[PageP k := pg]> s)) as (nd' & E & H1 & H2).
  { intros j Hj. cbn [nodes set_nodes]. rewrite lookup_insert_ne by (intros [= ->]; lia). apply Hs. lia. }
  exists nd'. split; [exact E|]. split.
  - intros j Hj. destruct (decide (j = k)) as [->|]; [|apply H1; lia].
    rewrite H2 by (intros j Hj'; intros [= ->]; lia). cbn [nodes set_nodes]. by rewrite lookup_insert_eq.
  - intros q Hq. rewrite H2 by (intros j Hj; apply Hq; lia). cbn [nodes set_nodes].
    apply lookup_insert_ne. intros <-. apply (Hq k); [lia|done].
Qed.

(** A page keeps its role when its entry is not written, or when it is in a
    list and only its links are. *)
Lemma kind_ok_frame s s' j kd :
  kind_ok s j kd → maps s' !! j = maps s !! j →
  nodes s' !! PageP j = nodes s !! PageP j
  ∨ (home kd ≠ None ∧ sb (nodes s') (PageP j) = sb (nodes s) (PageP j)) →
  kind_ok s' j kd.
Proof.
  intros H Hm [E|[Hh E]].
  - destruct kd; simpl in *; unfold sb, nx, pv in *; rewrite ?Hm, ?E in *; done.
  - destruct kd as [n| |n| |sh u]; simpl in *; rewrite ?Hm, ?E; try done.
    destruct H as (H1 & _ & H3). case_decide; [done|]. split; [done|]. split; [done|]. done.
Qed.

Lemma inv_node s L lst j : inv s L lst → (j < pages_in L)%nat → is_Some (nodes s !! PageP j).
Proof.
  intros Hi Hj. destruct (lookup_lt_is_Some_2 (kinds L) j Hj) as [kd Hk]. apply (i_kind _ _ _ Hi) in Hk.
  destruct kd; simpl in Hk; [|by eexists..|destruct Hk as [Hk _]];
    unfold sb in Hk; destruct (nodes s !! PageP j); done || by eexists.
Qed.

Lemma inv_head s L lst q : inv s L lst → sentinel q → is_Some (nodes s !! q).
Proof.
  intros Hi Hq. pose proof (links_first _ _ _ _ (i_links _ _ _ Hi) Hq) as H.
  unfold nx in H. destruct (nodes s !! q); [by eexists|done].
Qed.

Lemma sentinel_free : sentinel FreeP.
Proof. by left. Qed.

Lemma sentinel_slot sh : 3 ≤ sh ≤ 11 → sentinel (slot_of sh).
Proof. intros H. right. exists (Z.to_nat (sh - 3)). split; [lia|done]. Qed.

Lemma tag_slot sh : 3 ≤ sh ≤ 11 → tag_of (slot_of sh) = type_of sh.
Proof. intros H. unfold tag_of, slot_of. f_equal. lia. Qed.

(** The lists of a pool whose layout has the segment [g] at page [k]. *)
Lemma home_mid L1 g L2 j :
  seg_ok g →
  home_of (L1 ++ g :: L2) j =
    if decide (j < pages_in L1)%nat then home_of L1 j
    else if decide (j < pages_in L1 + seg_len g)%nat then kinds_of g !! (j - pages_in L1)%nat ≫= home
    else home_of L2 (j - pages_in L1 - seg_len g)%nat.
Proof. intros Hg. unfold home_of. rewrite kinds_mid by done. by repeat case_decide. Qed.

Lemma home_in L k q : home_of L k = Some q → (k < pages_in L)%nat.
Proof. unfold home_of. intros H. destruct (kinds L !! k) eqn:E; [by apply lookup_lt_Some in E|done]. Qed.

Lemma run_body i n : (1 ≤ n)%nat → kinds_of (RunSeg n) !! i ≫= home = None.
Proof. intros Hn. rewrite kinds_run by done. by repeat case_decide. Qed.

Lemma free_body i n :
  (1 ≤ n)%nat → kinds_of (FreeSeg n) !! i ≫= home = if decide (i = 0)%nat then Some FreeP else None.
Proof. intros Hn. rewrite kinds_free by done. by repeat case_decide. Qed.

(** What is left of a free run of [m] pages when [n] are taken. *)
Definition rest (m n : nat) : list seg := if decide (n < m)%nat then [FreeSeg (m - n)] else [].

Lemma rest_pages m n : (n ≤ m)%nat → pages_in (rest m n) = (m - n)%nat.
Proof.
  intros H. unfold rest. case_decide; [rewrite pages_cons by (simpl; lia); simpl; unfold pages_in; simpl; lia|].
  unfold pages_in. simpl. lia.
Qed.

Lemma rest_ok m n : Forall seg_ok (rest m n).
Proof. unfold rest. case_decide; repeat constructor. simpl. lia. Qed.

Lemma home_rest L1 m n L2 j :
  (1 ≤ n ≤ m)%nat →
  home_of (L1 ++ RunSeg n :: rest m n ++ L2) j =
    if decide (j = pages_in L1) then None
    else if decide (n < m ∧ j = pages_in L1 + n)%nat then Some FreeP
    else home_of (L1 ++ FreeSeg m :: L2) j.
Proof.
  intros Hn. rewrite !home_mid by (simpl; lia). cbn [seg_len].
  destruct (decide (j < pages_in L1)%nat); [by rewrite !decide_False by lia|].
  destruct (decide (j < pages_in L1 + n)%nat).
  - rewrite run_body by lia. destruct (decide (j = pages_in L1)); [done|].
    rewrite decide_False by lia. rewrite decide_True, free_body, decide_False by lia. done.
  - rewrite (decide_False (P := j = pages_in L1)) by lia. unfold rest.
    destruct (decide (n < m)%nat).
    + change (L1 ++ RunSeg n :: [FreeSeg (m - n)] ++ L2) with (L1 ++ RunSeg n :: FreeSeg (m - n) :: L2).
      change ([FreeSeg (m - n)] ++ L2) with ([] ++ FreeSeg (m - n) :: L2).
      rewrite home_mid by (simpl; lia). change (pages_in []) with 0%nat. cbn [seg_len].
      rewrite decide_False by lia. destruct (decide (j < pages_in L1 + m)%nat).
      * rewrite decide_True, !free_body by lia.
        destruct (decide (j - pages_in L1 - n - 0 = 0)%nat); [by rewrite decide_True by lia|].
        rewrite decide_False by lia. by rewrite decide_False by lia.
      * rewrite !decide_False by lia. f_equal. lia.
    + rewrite (decide_False (P := (n < m ∧ _)%nat)) by lia. rewrite decide_False by lia. simpl. f_equal. lia.
Qed.

Lemma kinds_rest L1 m n L2 j :
  (1 ≤ n ≤ m)%nat →
  kinds (L1 ++ RunSeg n :: rest m n ++ L2) !! j =
    if decide (j = pages_in L1) then Some (KRun n)
    else if decide (pages_in L1 < j < pages_in L1 + n)%nat then Some KRunBody
    else if decide (n < m ∧ j = pages_in L1 + n)%nat then Some (KFree (m - n))
    else kinds (L1 ++ FreeSeg m :: L2) !! j.
Proof.
  intros Hn. rewrite !kinds_mid by (simpl; lia). cbn [seg_len].
  destruct (decide (j < pages_in L1)%nat); [by rewrite !decide_False by lia|].
  destruct (decide (j < pages_in L1 + n)%nat).
  - rewrite kinds_run by lia. destruct (decide (j = pages_in L1)) as [->|]; [by rewrite Nat.sub_diag|].
    rewrite decide_False by lia. by rewrite !decide_True by lia.
  - rewrite (decide_False (P := j = pages_in L1)), (decide_False (P := (_ < j < _)%nat)) by lia. unfold rest.
    destruct (decide (n < m)%nat).
    + change ([FreeSeg (m - n)] ++ L2) with ([] ++ FreeSeg (m - n) :: L2).
      rewrite kinds_mid by (simpl; lia). change (pages_in []) with 0%nat. cbn [seg_len].
      rewrite decide_False by lia. destruct (decide (j < pages_in L1 + m)%nat).
      * rewrite decide_True, !kinds_free by lia.
        destruct (decide (j - pages_in L1 - n - 0 = 0)%nat); [by rewrite decide_True by lia|].
        rewrite decide_True by lia. rewrite decide_False by lia. by rewrite decide_False, decide_True by lia.
      * rewrite !decide_False by lia. f_equal. lia.
    + rewrite (decide_False (P := (n < m ∧ _)%nat)) by lia. rewrite decide_False by lia. simpl. f_equal. lia.
Qed.

(** What [take_links] does to the store when the run is cut. *)
Lemma replace_run s k k' x pg p :
  nodes s !! PageP k = Some pg → prev pg = (p, 0) → k' ≠ k →
  p ≠ PageP k → p ≠ PageP k' → next pg ≠ PageP k → next pg ≠ PageP k' →
  is_Some (nodes s !! PageP k') → is_Some (nodes s !! p) → is_Some (nodes s !! next pg) →
  ∃ nd, (put (PageP k') (λ _, mkPage x (next pg) (prev pg));;
         p ← as_ptr (prev pg); put p (set_next (PageP k'));;
         pg ← node (PageP k); put (next pg) (set_prev (PageP k', 0))) s = Ok (tt, on nd s)
    ∧ ∀ q, nd !! q = if decide (q = PageP k') then Some (mkPage x (next pg) (prev pg))
         else (λ y, mkPage (slab y) (if decide (q = p) then PageP k' else next y)
                           (if decide (q = next pg) then (PageP k', 0) else prev y)) <$> nodes s !! q.
Proof.
  intros E Ep Hkk Hp1 Hp2 Hn1 Hn2 [pk Ek] [pp Epp] [pn Epn]. rewrite Ep.
  rewrite (put_run _ _ _ _ _ Ek). unfold as_ptr. cbn [snd fst Z.eqb].
  set (nd1 := <[PageP k' := mkPage x (next pg) (p, 0)]> (nodes s)).
  change (set_nodes <[PageP k' := mkPage x (next pg) (p, 0)]> s) with (on nd1 s).
  erewrite bind_run by reflexivity.
  assert (E1 : nd1 !! p = Some pp) by (unfold nd1; rewrite lookup_insert_ne by done; done).
  rewrite (put_run p pp) by exact E1. cbn [nodes set_nodes].
  set (nd2 := <[p := set_next (PageP k') pp]> nd1).
  change (set_nodes <[p := set_next (PageP k') pp]> (on nd1 s)) with (on nd2 s).
  rewrite (node_run _ pg) by (simpl; unfold nd2, nd1; rewrite !lookup_insert_ne by congruence; done).
  assert (E2 : ∃ pn', nd2 !! next pg = Some pn' ∧ slab pn' = slab pn
    ∧ next pn' = (if decide (next pg = p) then PageP k' else next pn)).
  { unfold nd2. destruct (decide (next pg = p)) as [HNP|].
    - exists (set_next (PageP k') pp). rewrite HNP in Epn |- *. rewrite lookup_insert_eq. split; [done|].
      rewrite Epp in Epn. by injection Epn as ->.
    - exists pn. rewrite lookup_insert_ne by done. unfold nd1. by rewrite lookup_insert_ne. }
  destruct E2 as (pn' & E2 & Hs' & Hn'). rewrite (put_last _ pn') by exact E2.
  eexists. split; [reflexivity|]. intros q. cbn [nodes set_nodes].
  destruct (decide (q = PageP k')) as [->|Hqk].
  { unfold nd2, nd1. rewrite !lookup_insert_ne by done. apply lookup_insert_eq. }
  destruct (decide (q = next pg)) as [->|Hqn].
  { rewrite lookup_insert_eq, Epn. cbn [fmap option_fmap option_map]. unfold set_prev. by rewrite Hs', Hn'. }
  rewrite lookup_insert_ne by done. unfold nd2. destruct (decide (q = p)) as [->|Hqp].
  { by rewrite lookup_insert_eq, Epp. }
  rewrite lookup_insert_ne by done. unfold nd1. rewrite lookup_insert_ne by done. by destruct (nodes s !! q) as [[]|].
Qed.

(** The link part of [ncx_slab_alloc_pages]. *)
Definition links_taken (s : pool) (L1 : list seg) (m n : nat) (L2 : list seg) (nd : store) (lst : ptr → list nat) : Prop :=
  links nd (home_of (L1 ++ RunSeg n :: rest m n ++ L2)) lst
  ∧ ((n < m)%nat → sb nd (PageP (pages_in L1 + n)) = Some (Z.of_nat (m - n)))
  ∧ (∀ q, is_Some (nd !! q) ↔ is_Some (nodes s !! q))
  ∧ ∀ j, j ≠ pages_in L1 → (n < m → j ≠ pages_in L1 + n)%nat →
      nd !! PageP j = nodes s !! PageP j
      ∨ home_of (L1 ++ FreeSeg m :: L2) j ≠ None ∧ sb nd (PageP j) = sb (nodes s) (PageP j).

Section take.
Context (s : pool) (L1 L2 : list seg) (m n : nat) (lst : ptr → list nat) (pg : page_s).
Let L := L1 ++ FreeSeg m :: L2.
Let k := pages_in L1.
Hypothesis Hi : inv s L lst.
Hypothesis Hn : (1 ≤ n ≤ m)%nat.
Hypothesis E : nodes s !! PageP k = Some pg.

(** The head of the run and its neighbours. *)
Lemma take_head :
  home_of L k = Some FreeP ∧ slab pg = Z.of_nat m ∧ (prev pg).2 = 0
  ∧ (prev pg).1 ≠ PageP k ∧ next pg ≠ PageP k ∧ is_Some (nodes s !! (prev pg).1) ∧ is_Some (nodes s !! next pg)
  ∧ ∀ j, PageP j = (prev pg).1 ∨ PageP j = next pg → home_of L j = Some FreeP.
Proof using Hi Hn E.
  assert (Hg : seg_ok (FreeSeg m)) by (simpl; lia).
  assert (Hk : home_of L k = Some FreeP) by (unfold home_of, L, k; by rewrite kinds_head by done).
  split; [done|]. split.
  { pose proof (i_kind _ _ _ Hi k (KFree m)) as Hkk. unfold L, k in Hkk. rewrite kinds_head in Hkk by done.
    specialize (Hkk eq_refl). simpl in Hkk. unfold sb in Hkk. fold k in Hkk. rewrite E in Hkk. simpl in Hkk. congruence. }
  destruct (links_at _ _ _ _ _ _ (i_links _ _ _ Hi) sentinel_free Hk E)
    as (a & b & Ek & En & Ep & Hpk & Hnk & Hpp & Hpn).
  rewrite En, Ep. cbn [fst snd]. do 5 (split; [done|]).
  intros j Hj. destruct (i_links _ _ _ Hi FreeP sentinel_free) as (_ & _ & Hh). apply Hh. rewrite Ek.
  pose proof (before_in FreeP a) as HPin. pose proof (behind_in FreeP b) as HNin.
  destruct Hj as [Hj|Hj]; rewrite <- Hj in *; [clear HNin; rename HPin into H|clear HPin; rename HNin into H];
    apply elem_of_cons in H as [?|(x & [= ->] & Hx)%list_elem_of_fmap]; done || set_solver.
Qed.

(** The rest of the run takes its place. *)
Lemma take_cut :
  (n < m)%nat → ∃ nd lst', take_links k pg (Z.of_nat n) s = Ok (tt, on nd s) ∧ links_taken s L1 m n L2 nd lst'.
Proof using Hi Hn E.
  intros Hlt. destruct take_head as (Hk & Hslab & Hp2 & Hpk & Hnk & Hpp & Hpn & Hin). unfold take_links. rewrite Hslab.
  destruct (Z.ltb_spec (Z.of_nat n) (Z.of_nat m)); [|lia].
  destruct (prev pg) as [P t] eqn:Ep. cbn [fst snd] in *. subst t.
  set (k' := (k + n)%nat). replace (page_add k (Z.of_nat n)) with (PageP k') by (unfold page_add, k'; f_equal; lia).
  assert (Hg : seg_ok (FreeSeg m)) by (simpl; lia).
  assert (Hk' : home_of L k' = None).
  { unfold L, k'. rewrite home_mid by done. cbn [seg_len]. fold k.
    rewrite decide_False, decide_True, free_body, decide_False by lia. done. }
  assert (Hbody : is_Some (nodes s !! PageP k')).
  { eapply inv_node; [exact Hi|]. unfold L. rewrite pages_app, pages_cons by done. unfold k', k. simpl. lia. }
  assert (HPk' : P ≠ PageP k') by (intros HP; specialize (Hin k' (or_introl (eq_sym HP))); congruence).
  assert (HNk' : next pg ≠ PageP k') by (intros HN; specialize (Hin k' (or_intror (eq_sym HN))); congruence).
  destruct (replace_run s k k' (Z.of_nat m - Z.of_nat n) pg P E Ep) as (nd & Er & Hnd); try done; [unfold k'; lia|].
  rewrite Ep in Er, Hnd.
  destruct (links_replace (nodes s) nd (home_of L) lst FreeP k k' pg (i_links _ _ _ Hi) sentinel_free Hk E Hk') as [ks Hl].
  { intros q Hq. rewrite Ep. cbn [fst]. unfold nx. rewrite Hnd. destruct (decide (q = PageP k')) as [->|Hqk].
    - by rewrite decide_False.
    - destruct (decide (q = P)) as [->|]; [by destruct Hpp as [? ->]|by destruct (nodes s !! q)]. }
  { intros q Hq Hqf. rewrite Ep. unfold pv. rewrite Hnd. destruct (decide (q = PageP k')) as [->|Hqk]; [done|].
    destruct (decide (q = next pg)) as [->|]; [by destruct Hpn as [? ->]|by destruct (nodes s !! q)]. }
  exists nd, (upd lst FreeP ks). split; [exact Er|]. split; [|split; [|split]].
  - eapply links_home; [exact Hl|]. intros j. rewrite home_rest by done. fold k L.
    destruct (decide (j = k)); [done|]. destruct (decide (j = k')) as [->|].
    + rewrite decide_True by (unfold k'; lia). done.
    + rewrite decide_False by (unfold k' in *; lia). done.
  - intros _. unfold sb. fold k k'. rewrite Hnd, decide_True by done. simpl. f_equal. lia.
  - intros q. rewrite Hnd. case_decide as Hq; [subst q; split; [done|by eexists]|].
    destruct (nodes s !! q); split; intros []; by eexists.
  - intros j Hjk Hjk'. specialize (Hjk' Hlt). fold k in Hjk, Hjk'. fold L. unfold sb. rewrite Hnd, decide_False by (unfold k'; congruence).
    destruct (decide (PageP j = P)) as [HjP|HjP]; [right|destruct (decide (PageP j = next pg)) as [HjN|HjN]; [right|left]].
    + split; [rewrite (Hin j) by (by left); done|by destruct (nodes s !! PageP j)].
    + split; [rewrite (Hin j) by (by right); done|by destruct (nodes s !! PageP j)].
    + by destruct (nodes s !! PageP j) as [[]|].
Qed.

(** The whole run leaves the list. *)
Lemma take_whole :
  n = m → ∃ nd lst', take_links k pg (Z.of_nat n) s = Ok (tt, on nd s) ∧ links_taken s L1 m n L2 nd lst'.
Proof using Hi Hn E.
  intros Enm. destruct take_head as (Hk & Hslab & Hp2 & Hpk & Hnk & Hpp & Hpn & Hin). unfold take_links. rewrite Hslab.
  destruct (Z.ltb_spec (Z.of_nat n) (Z.of_nat m)); [lia|].
  unfold as_ptr. rewrite Hp2. cbn [Z.eqb]. erewrite bind_run by reflexivity.
  destruct (unlink_run (PageP k) (prev pg).1 pg s E Hpk Hpp Hpn) as (nd & Er & Hnd).
  destruct (links_unlink (nodes s) nd (home_of L) lst FreeP k pg (i_links _ _ _ Hi) sentinel_free Hk E Hnd) as (ks & Hl & _).
  exists nd, (upd lst FreeP ks). split; [exact Er|]. split; [|split; [lia|split]].
  - eapply links_home; [exact Hl|]. intros j. rewrite home_rest by done. fold k L.
    destruct (decide (j = k)); [done|]. by rewrite decide_False by lia.
  - intros q. rewrite Hnd. destruct (nodes s !! q); split; intros []; by eexists.
  - intros j Hjk _. unfold sb. rewrite Hnd. fold L.
    destruct (decide (PageP j = (prev pg).1)) as [HjP|HjP]; [right|destruct (decide (PageP j = next pg)) as [HjN|HjN]; [right|left]].
    + split; [rewrite (Hin j) by (by left); done|by destruct (nodes s !! PageP j)].
    + split; [rewrite (Hin j) by (by right); done|by destruct (nodes s !! PageP j)].
    + by destruct (nodes s !! PageP j) as [[]|].
Qed.
End take.

Lemma take_links_ok s L1 m n L2 lst pg :
  inv s (L1 ++ FreeSeg m :: L2) lst → (1 ≤ n ≤ m)%nat → nodes s !! PageP (pages_in L1) = Some pg →
  ∃ nd' lst', take_links (pages_in L1) pg (Z.of_nat n) s = Ok (tt, on nd' s) ∧ links_taken s L1 m n L2 nd' lst'.
Proof.
  intros Hi Hn E. destruct (decide (n < m)%nat); [by eapply take_cut|]. eapply take_whole; done || lia.
Qed.

(** ** Taking and giving back pages *)

(** The pool changed in its entries only. *)
Lemma inv_on s nd L lst L' lst' :
  inv s L lst → pages_in L' = pages_in L → Forall seg_ok L' →
  (∀ j kd, kinds L' !! j = Some kd → kind_ok (on nd s) j kd) → links nd (home_of L') lst' →
  inv (on nd s) L' lst'.
Proof. intros [H1 H2 H3 H4 H5 H6] Hp Hs Hk Hl. constructor; try done. by rewrite Hp. Qed.

(** The start mark is above any length. *)
Lemma start_bit n : 0 ≤ n < 2 ^ 63 → Z.lor n NCX_SLAB_PAGE_START = NCX_SLAB_PAGE_START + n.
Proof.
  intros Hn. unfold NCX_SLAB_PAGE_START. rewrite Z.lor_comm, <- Z.add_nocarry_lor; [done|].
  apply Z.bits_inj'. intros i Hi. rewrite Z.land_spec, Z.bits_0, Z.pow2_bits_eqb by lia.
  destruct (Z.eqb_spec 63 i) as [<-|]; [|done]. apply andb_false_intro2.
  rewrite <- (Z.mod_small n (2 ^ 63)) by lia. apply Z.mod_pow2_bits_high. lia.
Qed.

Lemma take_pages_ok s L1 m n L2 lst :
  inv s (L1 ++ FreeSeg m :: L2) lst → (1 ≤ n ≤ m)%nat → Z.of_nat m < 2 ^ 63 →
  ∃ nd' lst', take_pages (PageP (pages_in L1)) (Z.of_nat n) s = Ok (tt, on nd' s)
    ∧ inv (on nd' s) (L1 ++ RunSeg n :: rest m n ++ L2) lst'.
Proof.
  intros Hi Hn Hm. set (k := pages_in L1). set (L := L1 ++ FreeSeg m :: L2) in *.
  assert (Hg : seg_ok (FreeSeg m)) by (simpl; lia).
  assert (Hpages : pages_in L = (k + (m + pages_in L2))%nat) by (unfold L; by rewrite pages_app, pages_cons by done).
  destruct (inv_node s L lst k Hi ltac:(lia)) as [pg E].
  destruct (take_links_ok s L1 m n L2 lst pg Hi Hn E) as (nd1 & lst1 & E1 & Hl1 & Hrest & Hdom & Hoth).
  unfold take_pages. rewrite (node_run _ pg) by done. erewrite bind_run by reflexivity.
  rewrite (bind_run _ _ _ _ _ E1).
  assert (is_Some (nd1 !! PageP k)) as [pk Ek] by (apply Hdom; by eexists).
  rewrite (put_run _ pk) by exact Ek. cbn [nodes set_nodes].
  set (hd := mkPage (Z.lor (Z.of_nat n) NCX_SLAB_PAGE_START) Null (Null, NCX_SLAB_PAGE)).
  destruct (fill_pages_run (mkPage NCX_SLAB_PAGE_BUSY Null (Null, NCX_SLAB_PAGE)) (Z.to_nat (Z.of_nat n - 1)) (S k)
    (set_nodes <[PageP k := hd]> (on nd1 s))) as (nd2 & E2 & H2 & H3).
  { intros j Hj. cbn [nodes set_nodes]. rewrite lookup_insert_ne by (intros [= ->]; lia). apply Hdom.
    eapply inv_node; [exact Hi|lia]. }
  exists nd2, lst1. split; [exact E2|]. cbn [nodes set_nodes] in H3.
  assert (Hk2 : nd2 !! PageP k = Some hd).
  { rewrite H3 by (intros j Hj [= ->]; lia). apply lookup_insert_eq. }
  assert (Hsame : ∀ q, (∀ j, (k ≤ j < k + n)%nat → q ≠ PageP j) → nd2 !! q = nd1 !! q).
  { intros q Hq. rewrite H3 by (intros j Hj; apply Hq; lia). apply lookup_insert_ne. intros <-. apply (Hq k); [lia|done]. }
  apply (inv_on s nd2 L lst).
  - done.
  - rewrite Hpages, pages_app, pages_cons by (simpl; lia). rewrite pages_app, rest_pages by lia. cbn [seg_len]. lia.
  - pose proof (i_segs _ _ _ Hi) as HF. unfold L in HF. apply Forall_app in HF as [HF1 HF2]. inversion HF2; subst.
    apply Forall_app. split; [done|]. constructor; [simpl; lia|]. apply Forall_app. split; [apply rest_ok|done].
  - intros j kd. rewrite kinds_rest by done. fold k L.
    destruct (decide (j = k)) as [->|Hjk].
    { intros [= <-]. simpl. rewrite Hk2. unfold hd. rewrite start_bit by lia. do 2 f_equal. unfold NCX_SLAB_PAGE_START. lia. }
    destruct (decide (k < j < k + n)%nat); [intros [= <-]; simpl; apply H2; lia|].
    destruct (decide (n < m ∧ j = k + n)%nat) as [[Hnm ->]|].
    { intros [= <-]. simpl. unfold sb. rewrite Hsame by (intros x Hx [= Ex]; lia). by apply Hrest. }
    intros Hk. pose proof (i_kind _ _ _ Hi _ _ Hk) as Hok. eapply kind_ok_frame; [exact Hok|done|].
    cbn [nodes set_nodes]. rewrite Hsame by (intros x Hx [= Ex]; lia). unfold sb at 1. rewrite Hsame by (intros x Hx [= Ex]; lia).
    destruct (Hoth j) as [?|[Hh ?]]; [done|lia|by left|]. right. split; [|done].
    unfold home_of in Hh. fold L in Hh. by rewrite Hk in Hh.
  - eapply links_frame; [exact Hl1|done|]. intros q Hq. unfold nx, pv. rewrite Hsame; [split; [done|by right]|].
    intros j Hj ->. destruct Hq as [Hq|(x & [= ->] & Hx)]; [by apply sentinel_head in Hq; destruct (Hq j)|].
    apply Hx. rewrite home_rest by done. fold k L. destruct (decide (x = k)); [done|].
    rewrite decide_False by lia. unfold L. rewrite home_mid by done. fold k. cbn [seg_len].
    rewrite decide_False, decide_True, free_body, decide_False by lia. done.
Qed.

(** The loops over a list have fuel. *)
Lemma list_fuel s L lst sent : inv s L lst → sentinel sent → (length (lst sent) < size (nodes s))%nat.
Proof.
  intros Hi Hs. destruct (i_links _ _ _ Hi sent Hs) as (_ & Hnd & Hh).
  assert (Hd : NoDup (sent :: (PageP <$> lst sent))).
  { constructor; [intros (x & Ex & _)%list_elem_of_fmap; by apply sentinel_head in Hs; destruct (Hs x)|].
    apply NoDup_fmap_2; [|done]. by intros ?? [=]. }
  assert (Hsub : list_to_set (sent :: (PageP <$> lst sent)) ⊆ dom (nodes s)).
  { intros q Hq. apply elem_of_list_to_set in Hq. apply elem_of_dom.
    apply elem_of_cons in Hq as [->|(k & -> & Hk)%list_elem_of_fmap]; [by eapply inv_head|].
    eapply inv_node; [exact Hi|]. apply Hh in Hk. by eapply home_in. }
  apply subseteq_size in Hsub. rewrite size_list_to_set, size_dom in Hsub by done.
  simpl in Hsub. rewrite length_fmap in Hsub. lia.
Qed.

Lemma inv_small s L lst : inv s L lst → Z.of_nat (pages_in L) * 4096 < 2 ^ 63.
Proof. intros Hi. rewrite (i_len _ _ _ Hi). destruct (i_addr _ _ _ Hi) as (? & ? & ? & ?). lia. Qed.

Lemma free_home s L lst k n :
  inv s L lst → kinds L !! k = Some (KFree n) → k ∈ lst FreeP.
Proof.
  intros Hi Hk. apply (i_links _ _ _ Hi FreeP sentinel_free). unfold home_of. by rewrite Hk.
Qed.

Lemma alloc_loop_ok s L lst n fuel a b :
  inv s L lst → (1 ≤ n)%nat → lst FreeP = a ++ b →
  (∀ k m, k ∈ a → kinds L !! k = Some (KFree m) → (m < n)%nat) → (length b < fuel)%nat →
  (alloc_pages_loop (behind FreeP b) (Z.of_nat n) fuel s = Ok (Null, s)
     ∧ ∀ k m, kinds L !! k = Some (KFree m) → (m < n)%nat)
  ∨ ∃ L1 m L2 nd lst', L = L1 ++ FreeSeg m :: L2 ∧ (n ≤ m)%nat
      ∧ alloc_pages_loop (behind FreeP b) (Z.of_nat n) fuel s = Ok (PageP (pages_in L1), on nd s)
      ∧ inv (on nd s) (L1 ++ RunSeg n :: rest m n ++ L2) lst'.
Proof.
  intros Hi Hn. revert a b. induction fuel as [|fuel IH]; intros a b Eab Ha Hf; [lia|].
  cbn [alloc_pages_loop]. destruct b as [|k b].
  { left. split; [done|]. intros k m Hk. apply (Ha k m); [|done].
    pose proof (free_home _ _ _ _ _ Hi Hk) as Hin. rewrite Eab, app_nil_r in Hin. done. }
  change (behind FreeP (k :: b)) with (PageP k). rewrite bool_decide_eq_false_2 by done.
  destruct (i_links _ _ _ Hi FreeP sentinel_free) as (Hd & Hnd & Hh). rewrite Eab in Hd.
  destruct (dll_at _ _ _ _ _ _ _ Hd) as (Hnext & _ & _).
  assert (Hk : home_of L k = Some FreeP) by (apply Hh; rewrite Eab; set_solver).
  assert (Hkd : ∃ m, kinds L !! k = Some (KFree m)).
  { unfold home_of in Hk. destruct (kinds L !! k) as [[]|]; simpl in Hk; try done; [by eexists|].
    case_decide; [done|]. unfold slot_of in Hk. done. }
  destruct Hkd as [m Hkd]. pose proof (i_kind _ _ _ Hi _ _ Hkd) as Hsb. simpl in Hsb.
  unfold nx in Hnext. unfold sb in Hsb. destruct (nodes s !! PageP k) as [pg|] eqn:E; [|done].
  simpl in Hnext, Hsb. injection Hnext as Hnext. injection Hsb as Hsb.
  rewrite (node_run _ pg) by done. rewrite Hsb.
  destruct (Z.leb_spec (Z.of_nat n) (Z.of_nat m)).
  - right. destruct (free_split L k m (i_segs _ _ _ Hi) Hkd) as (L1 & L2 & -> & ->).
    pose proof (inv_small _ _ _ Hi) as Hsm. rewrite pages_app, pages_cons in Hsm by (simpl; lia). simpl in Hsm.
    destruct (take_pages_ok s L1 m n L2 lst Hi) as (nd & lst' & Et & Hi'); [lia|lia|].
    exists L1, m, L2, nd, lst'. split; [done|]. split; [lia|]. split; [|done].
    by erewrite bind_run by exact Et.
  - rewrite Hnext. apply (IH (a ++ [k]) b).
    + by rewrite <- app_assoc.
    + intros x mx [Hx|Hx%list_elem_of_singleton]%elem_of_app Hkx; [by eapply Ha|]. subst. rewrite Hkd in Hkx.
      injection Hkx as <-. lia.
    + simpl in Hf. lia.
Qed.

(** The first free run that is long enough is cut. *)
Lemma alloc_pages_ok s L lst n :
  inv s L lst → (1 ≤ n)%nat →
  (ncx_slab_alloc_pages (Z.of_nat n) s = Ok (Null, s) ∧ ∀ m, FreeSeg m ∈ L → (m < n)%nat)
  ∨ ∃ L1 m L2 nd lst', L = L1 ++ FreeSeg m :: L2 ∧ (n ≤ m)%nat
      ∧ ncx_slab_alloc_pages (Z.of_nat n) s = Ok (PageP (pages_in L1), on nd s)
      ∧ inv (on nd s) (L1 ++ RunSeg n :: rest m n ++ L2) lst'.
Proof.
  intros Hi Hn. unfold ncx_slab_alloc_pages.
  pose proof (links_first _ _ _ _ (i_links _ _ _ Hi) sentinel_free) as Hf. unfold nx in Hf.
  destruct (nodes s !! FreeP) as [pf|] eqn:E; [|done]. simpl in Hf. injection Hf as Hf.
  rewrite (node_run _ pf) by done. erewrite bind_run by reflexivity. rewrite Hf.
  destruct (alloc_loop_ok s L lst n (size (nodes s)) [] (lst FreeP) Hi Hn) as [[Er Hno]|H]; [done| |eapply list_fuel; [exact Hi|apply sentinel_free]| |by right].
  - intros k m Hk. by apply elem_of_nil in Hk.
  - left. split; [done|]. intros m Hm. apply list_elem_of_split in Hm as (L1 & L2 & ->).
    apply (Hno (pages_in L1)). rewrite kinds_head; [done|].
    pose proof (i_segs _ _ _ Hi) as HF. apply Forall_app in HF as [_ HF]. by inversion HF.
Qed.
