(* ===== verification/SlabFree.v ===== *)
(** * SlabFree: giving pages back

    [ncx_slab_free_pages] puts a run into the free list and merges it with
    the free runs before and behind it. *)
From Stdlib Require Import ZArith Lia.
From stdpp Require Import base numbers list gmap strings.
From S2P Require Import Prelude Util Bitmap BitmapOps Slab SlabLink SlabOk.

(** ** Numbers of chunks *)
Lemma shift_cases sh : 3 ≤ sh ≤ 11 → sh ∈ [3; 4; 5; 6; 7; 8; 9; 10; 11].
Proof.
  intros H. assert (sh = 3 ∨ sh = 4 ∨ sh = 5 ∨ sh = 6 ∨ sh = 7 ∨ sh = 8 ∨ sh = 9 ∨ sh = 10 ∨ sh = 11) by lia.
  set_solver.
Qed.

(** A fact about the nine chunk sizes is checked on each. *)
Lemma shift_check (f : Z → bool) sh : forallb f [3; 4; 5; 6; 7; 8; 9; 10; 11] = true → 3 ≤ sh ≤ 11 → f sh = true.
Proof.
  intros Hf Hs. apply shift_cases in Hs. rewrite forallb_forall in Hf. apply Hf. by apply list_elem_of_In.
Qed.

Lemma count_bounds sh :
  3 ≤ sh ≤ 11 → 2 ≤ count sh ≤ 512 ∧ 0 ≤ reserved sh < count sh ∧ (6 ≤ sh → count sh ≤ 64) ∧ (6 < sh → count sh ≤ 32)
  ∧ (sh < 6 → count sh = 64 * map_words sh ∧ 1 ≤ map_words sh ∧ 1 ≤ map_chunks sh ∧ reserved sh = map_chunks sh ∧ map_chunks sh < 64).
Proof.
  intros Hs.
  pose proof (shift_check (λ sh, (2 <=? count sh) && (count sh <=? 512) && (0 <=? reserved sh) && (reserved sh <? count sh)
    && ((sh <? 6) || (count sh <=? 64)) && ((sh <=? 6) || (count sh <=? 32))
    && ((6 <=? sh) || ((count sh =? 64 * map_words sh) && (1 <=? map_words sh) && (1 <=? map_chunks sh)
          && (reserved sh =? map_chunks sh) && (map_chunks sh <? 64)))) sh eq_refl Hs) as H.
  rewrite !andb_true_iff, !orb_true_iff, !andb_true_iff in H.
  destruct H as ((((((H1 & H2) & H3) & H4) & H5) & H6) & H7).
  apply Z.leb_le in H1, H2, H3. apply Z.ltb_lt in H4.
  split; [done|]. split; [done|]. split; [|split].
  - intros Hge. destruct H5 as [?%Z.ltb_lt|?%Z.leb_le]; lia.
  - intros Hgt. destruct H6 as [?%Z.leb_le|?%Z.leb_le]; lia.
  - intros Hlt. destruct H7 as [?%Z.leb_le|((((?%Z.eqb_eq & ?%Z.leb_le) & ?%Z.leb_le) & ?%Z.eqb_eq) & ?%Z.ltb_lt)]; lia.
Qed.

Lemma used_pos sh used : seg_ok (ChunkSeg sh used) → 0 < used.
Proof.
  intros (_ & Hu & _ & i & _ & Ht). destruct (decide (used = 0)) as [->|]; [by rewrite Z.bits_0 in Ht|lia].
Qed.

Lemma slab_of_pos sh used : seg_ok (ChunkSeg sh used) → slab_of sh used ≠ 0.
Proof.
  intros Hg. pose proof (used_pos _ _ Hg). destruct Hg as (Hs & Hu & _). unfold slab_of.
  destruct (Z.ltb_spec sh 6); [lia|]. destruct (Z.eqb_spec sh 6); lia.
Qed.

(** ** [ncx_slab_empty] *)
Definition is_free (kd : kind) : bool := match kd with KFree _ | KFreeBody => true | _ => false end.

Lemma empty_walk s L lst sent a b fuel :
  inv s L lst → sentinel sent → lst sent = a ++ b → (length a ≤ fuel)%nat →
  empty_loop (before sent a) fuel s = Ok (bool_decide (sent = FreeP), s).
Proof.
  intros Hi Hs. revert b fuel. induction a as [|k a IH] using rev_ind; intros b fuel Eab Hf.
  { change (before sent []) with sent. destruct fuel; destruct Hs as [->|(i & _ & ->)]; done. }
  replace (before sent (a ++ [k])) with (PageP k) by (unfold before; by rewrite last_snoc).
  rewrite length_app in Hf. simpl in Hf. destruct fuel as [|fuel]; [lia|]. cbn [empty_loop].
  destruct (i_links _ _ _ Hi sent Hs) as (Hd & _ & _). rewrite Eab, <- app_assoc in Hd. simpl in Hd.
  apply dll_at in Hd as (_ & Hp & _). unfold pv in Hp. destruct (nodes s !! PageP k) as [pg|] eqn:E; [|done].
  simpl in Hp. injection Hp as Hp. rewrite (node_run _ pg) by done. rewrite Hp.
  apply (IH (k :: b)); [by rewrite Eab, <- app_assoc|lia].
Qed.

Lemma empty_ok s L lst j kd :
  inv s L lst → kinds L !! j = Some kd → ncx_slab_empty (PageP j) s = Ok (is_free kd, s).
Proof.
  intros Hi Hk. pose proof (i_kind _ _ _ Hi _ _ Hk) as Hok.
  assert (is_Some (nodes s !! PageP j)) as [pg E] by (eapply inv_node; [exact Hi|by apply lookup_lt_Some in Hk]).
  assert (Hlinked : ∀ sent, home kd = Some sent → sentinel sent → slab pg ≠ 0 →
    ncx_slab_empty (PageP j) s = Ok (bool_decide (sent = FreeP), s)).
  { intros sent Hh Hs H0.
    assert (Hj : home_of L j = Some sent) by (unfold home_of; by rewrite Hk).
    destruct (links_at _ _ _ _ _ _ (i_links _ _ _ Hi) Hs Hj E) as (a & b & Ek & En & Ep & _ & _ & _ & _).
    unfold ncx_slab_empty. rewrite (node_run _ pg) by done. destruct (Z.eqb_spec (slab pg) 0); [done|].
    rewrite bool_decide_eq_false_2.
    - erewrite bind_run by reflexivity. rewrite Ep. cbn [fst]. eapply empty_walk; [exact Hi|done|exact Ek|].
      pose proof (list_fuel s L lst sent Hi Hs) as Hf. rewrite Ek, length_app in Hf. lia.
    - rewrite En. destruct b; [destruct Hs as [->|(i & _ & ->)]|]; done. }
  assert (Hplain : slab pg ≠ 0 → next pg = Null → ncx_slab_empty (PageP j) s = Ok (false, s)).
  { intros H0 Hn. unfold ncx_slab_empty. rewrite (node_run _ pg) by done. destruct (Z.eqb_spec (slab pg) 0); [done|].
    by rewrite bool_decide_eq_true_2. }
  destruct kd as [n| |n| |sh used]; simpl in Hok.
  - apply (Hlinked FreeP); [done|apply sentinel_free|]. unfold sb in Hok. rewrite E in Hok. simpl in Hok.
    injection Hok as ->. apply (free_split L j n (i_segs _ _ _ Hi)) in Hk as (L1 & L2 & -> & _).
    pose proof (i_segs _ _ _ Hi) as HF. apply Forall_app in HF as [_ HF]. inversion HF as [|? ? Hn]; subst. simpl in Hn. lia.
  - unfold ncx_slab_empty. by rewrite (node_run _ _ _ _ Hok).
  - rewrite E in Hok. injection Hok as ->. apply Hplain; [simpl; lia|done].
  - rewrite E in Hok. injection Hok as ->. apply Hplain; [done|done].
  - assert (Hg : seg_ok (ChunkSeg sh used)).
    { apply (chunk_split L j sh used (i_segs _ _ _ Hi)) in Hk as (L1 & L2 & -> & _).
      pose proof (i_segs _ _ _ Hi) as HF. apply Forall_app in HF as [_ HF]. by inversion HF. }
    destruct Hok as (Hsb & Hfull & _). unfold sb in Hsb. rewrite E in Hsb. simpl in Hsb. injection Hsb as Hsb.
    pose proof (slab_of_pos _ _ Hg) as Hpos. destruct (decide (full sh used)) as [Hf|Hf].
    + destruct (Hfull Hf) as [Hn _]. unfold nx in Hn. rewrite E in Hn. simpl in Hn. injection Hn as Hn.
      apply Hplain; congruence.
    + destruct Hg as (Hsh & _). rewrite (Hlinked (slot_of sh)); [done| |by apply sentinel_slot|congruence].
      simpl. by rewrite decide_False.
Qed.

(** ** A run on its way to the free list *)

(** The invariant without what it says of the pages of the segment [g]. *)
Record hole (s : pool) (L1 : list seg) (g : seg) (L2 : list seg) (lst : ptr → list nat) : Prop := mkHole {
  h_min : min_shift s = 3 ∧ min_size s = 8;
  h_addr : 0 < start s ∧ start s mod 4096 = 0 ∧ start s + 4096 * real_pages s ≤ end_ s ∧ end_ s < 2 ^ 63;
  h_len : Z.of_nat (pages_in (L1 ++ g :: L2)) = real_pages s;
  h_segs : Forall seg_ok (L1 ++ g :: L2);
  h_kind : ∀ j kd, (j < pages_in L1)%nat ∨ (pages_in L1 + seg_len g ≤ j)%nat →
    kinds (L1 ++ g :: L2) !! j = Some kd → kind_ok s j kd;
  h_page : ∀ j, (j < pages_in (L1 ++ g :: L2))%nat → is_Some (nodes s !! PageP j);
  h_links : links (nodes s) (home_of (L1 ++ g :: L2)) lst
}.

Lemma inv_hole s L1 g L2 lst : inv s (L1 ++ g :: L2) lst → hole s L1 g L2 lst.
Proof.
  intros Hi. pose proof Hi as [H1 H2 H3 H4 H5 H6]. constructor; try done.
  - intros j kd _ Hk. by apply H5.
  - intros j Hj. by eapply inv_node.
Qed.

Lemma hole_seg s L1 g L2 lst : hole s L1 g L2 lst → seg_ok g ∧ Forall seg_ok L1 ∧ Forall seg_ok L2.
Proof. intros Hh. pose proof (h_segs _ _ _ _ _ Hh) as HF. apply Forall_app in HF as [H1 H2]. by inversion H2. Qed.

(** The same hole with another segment of the same length. *)
Lemma kinds_outside L1 g g' L2 j :
  seg_ok g → seg_ok g' → seg_len g' = seg_len g →
  (j < pages_in L1)%nat ∨ (pages_in L1 + seg_len g ≤ j)%nat →
  kinds (L1 ++ g' :: L2) !! j = kinds (L1 ++ g :: L2) !! j.
Proof.
  intros Hg Hg' Hl Hj. rewrite !kinds_mid by done. rewrite Hl.
  destruct (decide (j < pages_in L1)%nat); [done|]. by rewrite !decide_False by lia.
Qed.

Lemma home_outside L1 g g' L2 j :
  seg_ok g → seg_ok g' → seg_len g' = seg_len g →
  (j < pages_in L1)%nat ∨ (pages_in L1 + seg_len g ≤ j)%nat →
  home_of (L1 ++ g' :: L2) j = home_of (L1 ++ g :: L2) j.
Proof. intros. unfold home_of. by rewrite (kinds_outside L1 g g'). Qed.

(** Only the first page of a segment is in a list. *)
Lemma home_body L1 g L2 j :
  seg_ok g → (pages_in L1 < j < pages_in L1 + seg_len g)%nat → home_of (L1 ++ g :: L2) j = None.
Proof.
  intros Hg Hj. rewrite home_mid by done. rewrite decide_False, decide_True by lia.
  destruct g as [n|n|sh u]; simpl in Hj.
  - rewrite free_body by (simpl in Hg; lia). by rewrite decide_False by lia.
  - apply run_body. simpl in Hg. lia.
  - lia.
Qed.

Lemma home_first L1 g L2 : seg_ok g → home_of (L1 ++ g :: L2) (pages_in L1) = kinds_of g !! 0%nat ≫= home.
Proof. intros Hg. unfold home_of. by rewrite kinds_head. Qed.

(** Writing the pages behind the first one of the hole. *)
Lemma hole_fill s L1 g L2 lst pg :
  hole s L1 g L2 lst →
  ∃ nd, fill_pages (S (pages_in L1)) pg (seg_len g - 1) s = Ok (tt, on nd s)
    ∧ hole (on nd s) L1 g L2 lst
    ∧ (∀ j, (pages_in L1 < j < pages_in L1 + seg_len g)%nat → nd !! PageP j = Some pg)
    ∧ nd !! PageP (pages_in L1) = nodes s !! PageP (pages_in L1).
Proof.
  intros Hh. pose proof (hole_seg _ _ _ _ _ Hh) as (Hg & _ & _). pose proof (seg_len_ok g Hg) as [_ Hl].
  set (k := pages_in L1). assert (Hp : pages_in (L1 ++ g :: L2) = (k + (seg_len g + pages_in L2))%nat)
    by (by rewrite pages_app, pages_cons).
  destruct (fill_pages_run pg (seg_len g - 1) (S k) s) as (nd & E & H1 & H2).
  { intros j Hj. apply (h_page _ _ _ _ _ Hh). lia. }
  exists nd. split; [done|]. split; [|split; [intros j Hj; apply H1; lia|apply H2; intros j Hj [= ->]; lia]].
  assert (Hsame : ∀ q, (∀ j, (k < j < k + seg_len g)%nat → q ≠ PageP j) → nd !! q = nodes s !! q)
    by (intros q Hq; apply H2; intros j Hj; apply Hq; lia).
  destruct Hh as [G1 G2 G3 G4 G5 G6 G7]. constructor; try done.
  - intros j kd Hj Hk. eapply kind_ok_frame; [by apply G5|done|]. left. cbn [nodes set_nodes].
    apply Hsame. intros x Hx [= ->]. fold k in Hj. lia.
  - intros j Hj. cbn [nodes set_nodes]. destruct (decide (k < j < k + seg_len g)%nat) as [Hin|Hout].
    + rewrite H1 by lia. by eexists.
    + rewrite Hsame by (intros x Hx [= ->]; lia). by apply G6.
  - cbn [nodes set_nodes]. eapply links_frame; [exact G7|done|]. intros q Hq. unfold nx, pv.
    rewrite Hsame; [split; [done|by right]|]. intros j Hj ->.
    destruct Hq as [Hq|(x & [= ->] & Hx)]; [by apply sentinel_head in Hq; destruct (Hq j)|].
    apply Hx. by apply home_body.
Qed.

(** Unlinking a page writes links of pages of its list only. *)
Lemma unlink_links s h lst sent k pg :
  links (nodes s) h lst → sentinel sent → h k = Some sent → nodes s !! PageP k = Some pg →
  ∃ nd ks, unlink (PageP k) (prev pg).1 s = Ok (tt, on nd s)
    ∧ links nd (λ j, if decide (j = k) then None else h j) (upd lst sent ks)
    ∧ (∀ q, sb nd q = sb (nodes s) q)
    ∧ nd !! PageP k = Some pg
    ∧ ∀ j, h j = Some sent ∨ nd !! PageP j = nodes s !! PageP j.
Proof.
  intros Hl Hs Hk E. destruct (links_at _ _ _ _ _ _ Hl Hs Hk E) as (a & b & Ek & En & Ep & HP & HN & Hsp & Hsn).
  destruct (unlink_run (PageP k) (prev pg).1 pg s E) as (nd & Er & Hnd); [by rewrite Ep|by rewrite Ep|by rewrite En|].
  destruct (links_unlink (nodes s) nd h lst sent k pg Hl Hs Hk E Hnd) as (ks & Hl' & _).
  exists nd, ks. split; [done|]. split; [done|]. split.
  { intros q. unfold sb. rewrite Hnd. by destruct (nodes s !! q). }
  assert (Hsame : ∀ q, q ≠ before sent a → q ≠ behind sent b → nd !! q = nodes s !! q).
  { intros q H1 H2. rewrite Hnd, Ep, En. cbn [fst]. destruct (nodes s !! q) as [[]|]; [|done].
    cbn [fmap option_fmap option_map]. by rewrite !decide_False by done. }
  split; [rewrite Hsame by (by apply not_eq_sym); done|].
  intros j. destruct (Hl sent Hs) as (_ & _ & Hh). rewrite <- Hh, Ek.
  pose proof (before_in sent a) as HPin. pose proof (behind_in sent b) as HNin.
  destruct (decide (PageP j = before sent a)) as [Ej|H1].
  { left. rewrite <- Ej in HPin. apply elem_of_cons in HPin as [Hx|(x & [= ->] & Hx)%list_elem_of_fmap]; [|set_solver].
    by apply sentinel_head in Hs; destruct (Hs j). }
  destruct (decide (PageP j = behind sent b)) as [Ej|H2].
  { left. rewrite <- Ej in HNin. apply elem_of_cons in HNin as [Hx|(x & [= ->] & Hx)%list_elem_of_fmap]; [|set_solver].
    by apply sentinel_head in Hs; destruct (Hs j). }
  right. by apply Hsame.
Qed.

(** ** Pushing a page on a list

    The two places that push a page write in different orders; what is there
    in the end is the same. *)
Lemma put_alter_last q f s : is_Some (nodes s !! q) → put q f s = Ok (tt, on (alter f q (nodes s)) s).
Proof.
  intros [pg E]. rewrite (put_last _ pg) by done. unfold set_nodes.
  assert (alter f q (nodes s) = <[q := f pg]> (nodes s)) as ->; [|done].
  apply partial_alter_ext. intros x Hx. by rewrite <- Hx, E.
Qed.

Lemma put_alter {A} q f (g : unit → M pool A) s :
  is_Some (nodes s !! q) → (put q f ≫= g) s = g tt (on (alter f q (nodes s)) s).
Proof. intros Hq. unfold mbind, M_bind. by rewrite put_alter_last. Qed.

(** The cases of a lookup in an altered store. *)
Ltac lookup_cases :=
  repeat case_decide; subst; try congruence;
  match goal with |- context [nodes ?s !! ?q] => by destruct (nodes s !! q) as [[]|] end.

Definition front_writes (k : nat) (sent N q : ptr) (pg : page_s) : page_s :=
  mkPage (slab pg) (if decide (q = sent) then PageP k else next pg)
    (if decide (q = N) then (PageP k, tag_of sent) else prev pg).

(** The first entry of a list, or its head. *)
Lemma first_entry nd h lst sent :
  links nd h lst → sentinel sent →
  let N := behind sent (lst sent) in N = sent ∨ ∃ j, N = PageP j ∧ h j = Some sent.
Proof.
  intros Hl Hs N. destruct (Hl sent Hs) as (_ & _ & Hin). pose proof (behind_in sent (lst sent)) as HN.
  apply elem_of_cons in HN as [?|(x & Ex & Hx)%list_elem_of_fmap]; [by left|].
  right. exists x. split; [done|by apply Hin].
Qed.

Lemma pushed_ok nd nd' h lst sent k pk :
  let N := behind sent (lst sent) in
  links nd h lst → sentinel sent → h k = None → (∀ j, h j ≠ None → is_Some (nd !! PageP j)) →
  nd' !! PageP k = Some pk → next pk = N → prev pk = (sent, tag_of sent) →
  (∀ q, q ≠ PageP k → nd' !! q = front_writes k sent N q <$> nd !! q) →
  links nd' (λ j, if decide (j = k) then Some sent else h j) (upd lst sent (k :: lst sent))
  ∧ (∀ q, q ≠ PageP k → sb nd' q = sb nd q)
  ∧ ∀ j, j = k ∨ h j = Some sent ∨ nd' !! PageP j = nd !! PageP j.
Proof.
  intros N Hl Hs Hk Hex Ek En Ep Ho. pose proof (links_first _ _ _ _ Hl Hs) as Hf. fold N in Hf.
  pose proof (first_entry _ _ _ _ Hl Hs) as HN. cbv zeta in HN. fold N in HN.
  assert (Hsk : sent ≠ PageP k) by (by apply sentinel_head in Hs).
  split; [|split].
  - apply (links_push nd); [done..| |].
    + intros q. rewrite Hf. unfold nx in *. destruct (decide (q = PageP k)) as [->|Hq].
      { rewrite decide_False, Ek by (by apply not_eq_sym). simpl. by rewrite En. }
      rewrite Ho by done. unfold front_writes. destruct (decide (q = sent)) as [->|]; [|by destruct (nd !! q)].
      by destruct (nd !! sent).
    + intros q Hqs. rewrite Hf. unfold pv. destruct (decide (q = PageP k)) as [->|Hq].
      { rewrite Ek. simpl. by rewrite Ep. }
      rewrite Ho by done. unfold front_writes. destruct (decide (q = N)) as [->|].
      * rewrite decide_True by done. destruct HN as [|(j & Ej & Hj)]; [done|].
        destruct (Hex j) as [pj Epj]; [congruence|]. by rewrite Ej, Epj.
      * rewrite decide_False by congruence. by destruct (nd !! q).
  - intros q Hq. unfold sb. rewrite Ho by done. by destruct (nd !! q).
  - intros j. destruct (decide (j = k)); [by left|]. right. rewrite Ho by congruence. unfold front_writes.
    destruct (decide (PageP j = N)) as [E|E].
    { left. destruct HN as [HN|(x & Ex & Hx)]; [|congruence]. exfalso. apply sentinel_head in Hs. destruct (Hs j). congruence. }
    right. destruct (nd !! PageP j) as [[]|]; [|done]. simpl. assert (PageP j ≠ sent) by (intros <-; by apply sentinel_head in Hs; destruct (Hs j)).
    by rewrite !decide_False by done.
Qed.

(** Entering the free list at its front. *)
Lemma link_free_ok s h lst k n :
  links (nodes s) h lst → h k = None → is_Some (nodes s !! PageP k) →
  (∀ j, h j ≠ None → is_Some (nodes s !! PageP j)) →
  ∃ nd, link_free k n s = Ok (tt, on nd s)
    ∧ links nd (λ j, if decide (j = k) then Some FreeP else h j) (upd lst FreeP (k :: lst FreeP))
    ∧ sb nd (PageP k) = Some n
    ∧ (∀ q, q ≠ PageP k → sb nd q = sb (nodes s) q)
    ∧ ∀ j, j = k ∨ h j = Some FreeP ∨ nd !! PageP j = nodes s !! PageP j.
Proof.
  intros Hl Hk Ek Hex. pose proof (links_first _ _ _ _ Hl sentinel_free) as Hf.
  pose proof (first_entry _ _ _ _ Hl sentinel_free) as HN. cbv zeta in HN.
  set (N := behind FreeP (lst FreeP)) in *.
  unfold nx in Hf. destruct (nodes s !! FreeP) as [pf|] eqn:Ef; [|done]. simpl in Hf. injection Hf as Hf.
  assert (HNs : is_Some (nodes s !! N)).
  { destruct HN as [->|(j & -> & Hj)]; [by eexists|]. apply Hex. congruence. }
  assert (HNk : N ≠ PageP k) by (intros E; destruct HN as [|(j & Ej & Hj)]; congruence).
  unfold link_free. rewrite (node_run _ pf) by done. rewrite Hf. rewrite put_alter by done.
  rewrite put_alter by (cbn [nodes set_nodes]; by rewrite lookup_alter_is_Some).
  rewrite put_alter_last by (cbn [nodes set_nodes]; rewrite !lookup_alter_is_Some; by eexists).
  cbn [nodes set_nodes]. set (nd := alter _ FreeP _). exists nd. split; [reflexivity|].
  assert (Hk3 : nd !! PageP k = Some (mkPage n N (FreeP, 0))).
  { unfold nd. rewrite !lookup_alter_ne, lookup_alter_eq by done. by destruct Ek as [? ->]. }
  destruct (pushed_ok (nodes s) nd h lst FreeP k (mkPage n N (FreeP, 0))) as (H1 & H2 & H3); try done.
  - apply sentinel_free.
  - fold N. clearbody N. clear Hf. intros q Hq. unfold nd, front_writes. rewrite !lookup_alter. lookup_cases.
  - split; [done|]. split; [unfold sb; by rewrite Hk3|done].
Qed.

(** The first entry of the hole: in no list and not linked, or in the list of
    its home. *)
Definition hole_entry (nd : store) (L1 : list seg) (g : seg) (L2 : list seg) : Prop :=
  home_of (L1 ++ g :: L2) (pages_in L1) = None → nx nd (PageP (pages_in L1)) = Some Null.

Lemma home_sentinel L k q : Forall seg_ok L → home_of L k = Some q → sentinel q.
Proof.
  intros HL. unfold home_of. destruct (kinds L !! k) as [kd|] eqn:E; [|done]. simpl.
  destruct kd as [n| |n| |sh u]; simpl; intros H; try done; [injection H as <-; apply sentinel_free|].
  case_decide; [done|]. injection H as <-. apply (chunk_split L k sh u HL) in E as (L1 & L2 & -> & _).
  apply Forall_app in HL as [_ HL]. inversion HL as [|? ? Hc _]; subst. destruct Hc as (Hsh & _). by apply sentinel_slot.
Qed.

(** Out of the list of its size. *)
Lemma leave_home_ok s L1 g L2 lst pg :
  let k := pages_in L1 in let h := home_of (L1 ++ g :: L2) in
  hole s L1 g L2 lst → hole_entry (nodes s) L1 g L2 → nodes s !! PageP k = Some pg →
  ∃ nd lst', (if bool_decide (next pg = Null) then mret tt else unlink (PageP k) (prev pg).1) s = Ok (tt, on nd s)
    ∧ links nd (λ j, if decide (j = k) then None else h j) lst' ∧ (∀ q, sb nd q = sb (nodes s) q)
    ∧ ∀ j, h j ≠ None ∨ nd !! PageP j = nodes s !! PageP j.
Proof.
  intros k h Hh He E. destruct (h k) as [sent|] eqn:Ehk.
  - pose proof (home_sentinel _ _ _ (h_segs _ _ _ _ _ Hh) Ehk) as Hs.
    destruct (links_at _ _ _ _ _ _ (h_links _ _ _ _ _ Hh) Hs Ehk E) as (a & b & _ & En & _).
    rewrite bool_decide_eq_false_2 by (rewrite En; destruct b; [destruct Hs as [->|(i & _ & ->)]|]; done).
    destruct (unlink_links s h lst sent k pg (h_links _ _ _ _ _ Hh) Hs Ehk E) as (nd1 & ks & E1 & Hl1 & Hsb & _ & Hoth).
    exists nd1, (upd lst sent ks). split; [done|]. split; [done|]. split; [done|].
    intros j. destruct (Hoth j) as [->|]; [by left|by right].
  - specialize (He Ehk). unfold nx in He. fold k in He. rewrite E in He. simpl in He. injection He as He.
    rewrite bool_decide_eq_true_2 by done. exists (nodes s), lst. split; [by destruct s|].
    split; [|split; [done|by right]]. eapply links_home; [exact (h_links _ _ _ _ _ Hh)|].
    intros j. fold h. destruct (decide (j = k)) as [->|]; done.
Qed.

(** The lists after the segment became a free run. *)
Lemma home_freed L1 g L2 j :
  seg_ok g →
  (if decide (j = pages_in L1) then Some FreeP else if decide (j = pages_in L1) then None else home_of (L1 ++ g :: L2) j)
  = home_of (L1 ++ FreeSeg (seg_len g) :: L2) j.
Proof.
  intros Hg. pose proof (seg_len_ok g Hg) as [_ Hl]. assert (Hg' : seg_ok (FreeSeg (seg_len g))) by (simpl; lia).
  destruct (decide (j = pages_in L1)) as [->|Hj].
  - rewrite home_first by done. by rewrite kinds_free by lia.
  - destruct (decide (pages_in L1 < j < pages_in L1 + seg_len g)%nat) as [Hin|Hout].
    + by rewrite !home_body.
    + symmetry. apply home_outside; try done. lia.
Qed.

Lemma hole_push s L1 g L2 lst :
  hole s L1 g L2 lst → hole_entry (nodes s) L1 g L2 →
  (∀ j, (pages_in L1 < j < pages_in L1 + seg_len g)%nat → nodes s !! PageP j = Some zero_page) →
  ∃ nd lst' l, push_free (pages_in L1) (Z.of_nat (seg_len g)) s = Ok (tt, on nd s)
    ∧ inv (on nd s) (L1 ++ FreeSeg (seg_len g) :: L2) lst' ∧ lst' FreeP = pages_in L1 :: l.
Proof.
  intros Hh He Hz. destruct (hole_seg _ _ _ _ _ Hh) as (Hg & HL1 & HL2). pose proof (seg_len_ok g Hg) as [_ Hl].
  set (k := pages_in L1) in *. set (h := home_of (L1 ++ g :: L2)) in *.
  assert (Hp : pages_in (L1 ++ g :: L2) = (k + (seg_len g + pages_in L2))%nat) by (by rewrite pages_app, pages_cons).
  assert (Hg' : seg_ok (FreeSeg (seg_len g))) by (simpl; lia).
  destruct (h_page _ _ _ _ _ Hh k ltac:(lia)) as [pg E].
  destruct (leave_home_ok s L1 g L2 lst pg Hh He E) as (nd1 & lst1 & E1 & Hl1 & Hsb1 & Hoth1). fold k h in E1, Hl1, Hoth1.
  assert (Hdom1 : ∀ q, is_Some (nd1 !! q) ↔ is_Some (nodes s !! q)).
  { intros q. specialize (Hsb1 q). unfold sb in Hsb1. destruct (nd1 !! q), (nodes s !! q); try done; split; by eexists. }
  destruct (link_free_ok (on nd1 s) (λ j, if decide (j = k) then None else h j) lst1 k (Z.of_nat (seg_len g)) Hl1)
    as (nd2 & E2 & Hl2 & Hk2 & Hsb2 & Hoth2).
  { by rewrite decide_True. }
  { apply Hdom1. by eexists. }
  { intros j Hj. apply Hdom1. destruct (decide (j = k)) as [->|]; [by eexists|]. apply (h_page _ _ _ _ _ Hh).
    destruct (h j) as [q|] eqn:Ehj; [|done]. by eapply home_in. }
  exists nd2, (upd lst1 FreeP (k :: lst1 FreeP)), (lst1 FreeP). split.
  { unfold push_free. rewrite (node_run _ pg) by done. rewrite (bind_run _ _ _ _ _ E1). exact E2. }
  split; [|unfold upd; by rewrite decide_True].
  destruct Hh as [G1 G2 G3 G4 G5 G6 G7]. constructor; try done.
  - rewrite pages_app, pages_cons by done. cbn [real_pages set_nodes]. rewrite <- G3, Hp. simpl. fold k. lia.
  - apply Forall_app. split; [done|]. by constructor.
  - intros j kd Hk. destruct (decide (j = k)) as [->|Hj].
    { unfold k in Hk. rewrite kinds_head, kinds_free in Hk by (done || lia). rewrite decide_True in Hk by done.
      injection Hk as <-. exact Hk2. }
    destruct (decide (k < j < k + seg_len g)%nat) as [Hin|Hout].
    { rewrite kinds_mid in Hk by done. cbn [seg_len] in Hk. fold k in Hk.
      rewrite decide_False, decide_True, kinds_free, decide_False, decide_True in Hk by lia. injection Hk as <-.
      simpl. assert (Hhj : h j = None) by (unfold h; by apply home_body).
      destruct (Hoth2 j) as [?|[Hc| ->]]; [done|rewrite decide_False, Hhj in Hc by done; done|].
      cbn [nodes set_nodes]. destruct (Hoth1 j) as [?| ->]; [done|]. by apply Hz. }
    assert (Hj' : (j < k)%nat ∨ (k + seg_len g ≤ j)%nat) by lia.
    rewrite (kinds_outside L1 g) in Hk by done. eapply kind_ok_frame; [by apply G5|done|].
    cbn [nodes set_nodes]. rewrite (Hsb2 (PageP j)) by congruence. cbn [nodes set_nodes]. rewrite Hsb1.
    assert (Hhk : h j ≠ None → home kd ≠ None) by (unfold h, home_of; by rewrite Hk).
    destruct (Hoth2 j) as [?|[Hc|E3]]; [done| |].
    + right. split; [|done]. apply Hhk. rewrite decide_False in Hc by done. congruence.
    + destruct (Hoth1 j) as [?|E4]; [right; split; [by apply Hhk|done]|]. left. rewrite E3. exact E4.
  - eapply links_home; [exact Hl2|intros j; by apply home_freed].
Qed.

(** ** Merging *)
Lemma kinds_merge A m n B j :
  (1 ≤ m)%nat → (1 ≤ n)%nat →
  kinds (A ++ FreeSeg (m + n) :: B) !! j =
    if decide (j = pages_in A) then Some (KFree (m + n))
    else if decide (j = pages_in A + m)%nat then Some KFreeBody
    else kinds (A ++ FreeSeg m :: FreeSeg n :: B) !! j.
Proof.
  intros Hm Hn. rewrite !kinds_mid by (simpl; lia). cbn [seg_len].
  destruct (decide (j < pages_in A)%nat); [by rewrite !decide_False by lia|].
  destruct (decide (j < pages_in A + m)%nat).
  - rewrite (decide_True (P := (j < _ + (m + n))%nat)) by lia. rewrite !kinds_free by lia.
    destruct (decide (j = pages_in A)) as [->|]; [by rewrite decide_True by lia|].
    rewrite (decide_False (P := (j - pages_in A = 0)%nat)) by lia. rewrite (decide_False (P := (j = _ + m)%nat)) by lia.
    rewrite decide_True by lia. rewrite decide_False by lia. by rewrite decide_True by lia.
  - rewrite (decide_False (P := j = pages_in A)) by lia.
    change (FreeSeg n :: B) with ([] ++ FreeSeg n :: B). rewrite kinds_mid by (simpl; lia).
    change (pages_in []) with 0%nat. cbn [seg_len]. rewrite (decide_False (P := (_ < 0)%nat)) by lia.
    destruct (decide (j < pages_in A + (m + n))%nat).
    + rewrite (decide_True (P := (_ < 0 + n)%nat)) by lia. rewrite !kinds_free by lia.
      rewrite (decide_False (P := (j - pages_in A = 0)%nat)), (decide_True (P := (j - pages_in A < m + n)%nat)) by lia.
      destruct (decide (j = pages_in A + m)%nat); [done|].
      by rewrite decide_False, decide_True by lia.
    + rewrite (decide_False (P := (_ < 0 + n)%nat)), (decide_False (P := (j = _ + m)%nat)) by lia. f_equal. lia.
Qed.

Lemma home_merge A m n B j :
  (1 ≤ m)%nat → (1 ≤ n)%nat →
  home_of (A ++ FreeSeg (m + n) :: B) j =
    if decide (j = pages_in A + m)%nat then None else home_of (A ++ FreeSeg m :: FreeSeg n :: B) j.
Proof.
  intros Hm Hn. unfold home_of. rewrite kinds_merge by done.
  destruct (decide (j = pages_in A)) as [->|].
  - rewrite (decide_False (P := (pages_in A = _ + m)%nat)) by lia. by rewrite kinds_head by (simpl; lia).
  - by destruct (decide (j = pages_in A + m)%nat).
Qed.

(** The second of two adjacent free runs has left the list: its pages are
    added to the first. *)
Lemma merge_ok s A m n B lst nd1 lst1 ph :
  inv s (A ++ FreeSeg m :: FreeSeg n :: B) lst →
  links nd1 (λ j, if decide (j = pages_in A + m)%nat then None else home_of (A ++ FreeSeg m :: FreeSeg n :: B) j) lst1 →
  (∀ q, sb nd1 q = sb (nodes s) q) →
  (∀ j, home_of (A ++ FreeSeg m :: FreeSeg n :: B) j = Some FreeP ∨ nd1 !! PageP j = nodes s !! PageP j) →
  nd1 !! PageP (pages_in A) = Some ph →
  inv (on (<[PageP (pages_in A + m) := zero_page]>
         (<[PageP (pages_in A) := set_slab (Z.of_nat (m + n)) ph]> nd1)) s) (A ++ FreeSeg (m + n) :: B) lst1.
Proof.
  intros Hi Hl Hsb Hoth Eh. set (k := pages_in A) in *. set (x := (k + m)%nat) in *.
  set (L := A ++ FreeSeg m :: FreeSeg n :: B) in *.
  assert (Hms : (1 ≤ m)%nat ∧ (1 ≤ n)%nat ∧ Forall seg_ok A ∧ Forall seg_ok B).
  { pose proof (i_segs _ _ _ Hi) as HF. apply Forall_app in HF as [HA HF]. inversion HF as [|? ? H1 HF']; subst.
    inversion HF' as [|? ? H2 HB]; subst. done. }
  destruct Hms as (Hm & Hn & HA & HB).
  assert (Hxk : x ≠ k) by (unfold x; lia).
  set (nd2 := <[PageP x := _]> _).
  assert (Hx2 : nd2 !! PageP x = Some zero_page) by apply lookup_insert_eq.
  assert (Hk2 : nd2 !! PageP k = Some (set_slab (Z.of_nat (m + n)) ph)).
  { unfold nd2. rewrite lookup_insert_ne by (intros [= ?]; lia). apply lookup_insert_eq. }
  assert (Ho2 : ∀ q, q ≠ PageP x → q ≠ PageP k → nd2 !! q = nd1 !! q).
  { intros q H1 H2. unfold nd2. by rewrite !lookup_insert_ne. }
  apply (inv_on s nd2 L lst).
  - done.
  - unfold L. rewrite !pages_app, !pages_cons by (simpl; lia). simpl. lia.
  - apply Forall_app. split; [done|]. constructor; [simpl; lia|done].
  - intros j kd. rewrite kinds_merge by done. fold k x L.
    destruct (decide (j = k)) as [->|Hjk].
    { intros [= <-]. simpl. unfold sb. by rewrite Hk2. }
    destruct (decide (j = x)) as [->|Hjx]; [by intros [= <-]|].
    intros Hk. eapply kind_ok_frame; [by eapply i_kind|done|]. cbn [nodes set_nodes].
    unfold sb at 1. rewrite Ho2 by congruence. fold (sb nd1 (PageP j)). rewrite Hsb.
    destruct (Hoth j) as [Hh|?]; [|by left]. right. split; [|done]. unfold home_of in Hh. rewrite Hk in Hh. simpl in Hh. congruence.
  - eapply links_frame; [exact Hl| |].
    + intros j. rewrite home_merge by done. done.
    + intros q Hq. destruct (decide (q = PageP k)) as [->|Hqk].
      { unfold nx, pv. rewrite Hk2, Eh. simpl. split; [done|by right]. }
      destruct (decide (q = PageP x)) as [->|Hqx].
      { destruct Hq as [Hq|(j & [= <-] & Hj)]; [by apply sentinel_head in Hq; destruct (Hq x)|].
        rewrite home_merge, decide_True in Hj by done. done. }
      unfold nx, pv. rewrite Ho2 by done. split; [done|by right].
Qed.

(** The first page of a free run has its length. *)
Lemma run_head s A m B lst :
  inv s (A ++ FreeSeg m :: B) lst → (1 ≤ m)%nat →
  ∃ pg, nodes s !! PageP (pages_in A) = Some pg ∧ slab pg = Z.of_nat m.
Proof.
  intros Hi Hm. pose proof (i_kind _ _ _ Hi (pages_in A) (KFree m)) as Hk.
  rewrite kinds_head in Hk by (simpl; lia). specialize (Hk eq_refl). simpl in Hk. unfold sb in Hk.
  destruct (nodes s !! PageP (pages_in A)) as [pg|]; [|done]. simpl in Hk. exists pg. split; [done|congruence].
Qed.

(** [ncx_slab_free_pages] finds the first page of the run before. *)
Lemma find_head_ok s A m B lst i :
  inv s (A ++ FreeSeg m :: B) lst → (i < m)%nat → find_head (pages_in A + i) s = Ok (Some (pages_in A), s).
Proof.
  intros Hi. induction i as [|i IH]; intros Hlt; assert (Hg : seg_ok (FreeSeg m)) by (simpl; lia).
  - rewrite Nat.add_0_r. destruct (run_head _ _ _ _ _ Hi ltac:(lia)) as (pg & E & Hk).
    destruct (pages_in A); cbn [find_head]; rewrite (node_run _ pg) by done; rewrite Hk;
      (destruct (Z.eqb_spec (Z.of_nat m) 0); [lia|done]).
  - pose proof (i_kind _ _ _ Hi (pages_in A + S i)%nat KFreeBody) as Hk. rewrite kinds_mid in Hk by done.
    cbn [seg_len] in Hk. rewrite decide_False, decide_True, kinds_free, decide_False, decide_True in Hk by lia.
    specialize (Hk eq_refl). simpl in Hk. replace (pages_in A + S i)%nat with (S (pages_in A + i)) in * by lia.
    cbn [find_head]. rewrite (node_run _ _ _ _ Hk). cbn [slab zero_page Z.eqb negb]. apply IH. lia.
Qed.

(** Of two adjacent free runs the second leaves the list, and its pages are
    counted with the first. *)
Lemma unlink_second s A m n B lst :
  let x := (pages_in A + m)%nat in
  inv s (A ++ FreeSeg m :: FreeSeg n :: B) lst →
  ∃ px nd ph lst', nodes s !! PageP x = Some px ∧ slab px = Z.of_nat n ∧ (prev px).2 = 0
    ∧ unlink (PageP x) (prev px).1 s = Ok (tt, on nd s)
    ∧ nd !! PageP x = Some px ∧ nd !! PageP (pages_in A) = Some ph ∧ PageP (pages_in A) ≠ PageP x
    ∧ u64 (slab ph + Z.of_nat n) = Z.of_nat (m + n)
    ∧ inv (on (<[PageP x := zero_page]> (<[PageP (pages_in A) := set_slab (Z.of_nat (m + n)) ph]> nd)) s)
        (A ++ FreeSeg (m + n) :: B) lst'.
Proof.
  intros x Hi. pose proof (i_segs _ _ _ Hi) as HF. apply Forall_app in HF as [HA HF].
  inversion HF as [|? ? Hm HF']; subst. inversion HF' as [|? ? Hn HB]; subst. simpl in Hm, Hn.
  assert (Ex : pages_in (A ++ [FreeSeg m]) = x) by (rewrite pages_app, pages_cons by (simpl; lia); unfold pages_in at 2; simpl; lia).
  assert (Hi' : inv s ((A ++ [FreeSeg m]) ++ FreeSeg n :: B) lst) by (by rewrite <- app_assoc).
  destruct (run_head _ _ _ _ _ Hi' Hn) as (px & Epx & Hpx). rewrite Ex in Epx.
  assert (Hx : home_of (A ++ FreeSeg m :: FreeSeg n :: B) x = Some FreeP).
  { replace (A ++ FreeSeg m :: FreeSeg n :: B) with ((A ++ [FreeSeg m]) ++ FreeSeg n :: B) by (by rewrite <- app_assoc).
    rewrite <- Ex, home_first by done. by rewrite kinds_free by done. }
  destruct (links_at _ _ _ _ _ _ (i_links _ _ _ Hi) sentinel_free Hx Epx) as (a & b & _ & _ & Ep & _).
  destruct (unlink_links s _ lst FreeP x px (i_links _ _ _ Hi) sentinel_free Hx Epx)
    as (nd1 & ks & E1 & Hl1 & Hsb1 & Hx1 & Hoth1).
  destruct (run_head _ _ _ _ _ Hi Hm) as (pk & Ek & Hpk).
  assert (∃ ph, nd1 !! PageP (pages_in A) = Some ph ∧ slab ph = Z.of_nat m) as (ph & Eh & Hph).
  { pose proof (Hsb1 (PageP (pages_in A))) as Hs. unfold sb in Hs. rewrite Ek in Hs.
    destruct (nd1 !! PageP (pages_in A)) as [ph|]; [|done]. simpl in Hs. exists ph. split; [done|congruence]. }
  pose proof (inv_small _ _ _ Hi) as Hsm. rewrite pages_app, !pages_cons in Hsm by (simpl; lia). cbn [seg_len] in Hsm.
  exists px, nd1, ph, (upd lst FreeP ks). split_and!; try done.
  - by rewrite Ep.
  - unfold x. intros [= ?]. lia.
  - rewrite Hph, u64_small by lia. lia.
  - exact (merge_ok s A m n B lst nd1 _ ph Hi Hl1 Hsb1 Hoth1 Eh).
Qed.

Definition absorb_prev (L1 : list seg) (n : nat) : list seg * nat :=
  match last L1 with Some (FreeSeg m) => (removelast L1, m + n)%nat | _ => (L1, n) end.
Definition absorb_next (n : nat) (L2 : list seg) : nat * list seg :=
  match L2 with FreeSeg m :: L2 => ((n + m)%nat, L2) | _ => (n, L2) end.

Lemma absorb_prev_snoc L1 g n :
  absorb_prev (L1 ++ [g]) n = match g with FreeSeg m => (L1, m + n)%nat | _ => (L1 ++ [g], n) end.
Proof. unfold absorb_prev. rewrite last_snoc. destruct g; [by rewrite removelast_last|done..]. Qed.

(** The last page of a segment. *)
Lemma last_page A g B :
  seg_ok g → kinds (A ++ g :: B) !! (pages_in A + seg_len g - 1)%nat = kinds_of g !! (seg_len g - 1)%nat.
Proof.
  intros Hg. pose proof (seg_len_ok g Hg) as [_ Hl]. rewrite kinds_mid by done.
  rewrite decide_False, decide_True by lia. f_equal. lia.
Qed.

Lemma last_kind g :
  seg_ok g → ∃ kd, kinds_of g !! (seg_len g - 1)%nat = Some kd
    ∧ is_free kd = match g with FreeSeg _ => true | _ => false end.
Proof.
  destruct g as [n|n|sh u]; intros Hg; simpl in Hg.
  - rewrite kinds_free by done. cbn [seg_len]. case_decide; [by eexists|]. rewrite decide_True by lia. by eexists.
  - rewrite kinds_run by done. cbn [seg_len]. case_decide; [by eexists|]. rewrite decide_True by lia. by eexists.
  - by eexists.
Qed.

(** The code unlinks the first entry of the list by hand. *)
Lemma unlink_first s L lst x px l :
  inv s L lst → lst FreeP = x :: l → nodes s !! PageP x = Some px →
  unlink (PageP x) (prev px).1 s = (put FreeP (set_next (next px));; put (next px) (set_prev (FreeP, 0))) s.
Proof.
  intros Hi Hf Ex. destruct (i_links _ _ _ Hi FreeP sentinel_free) as (_ & Hnd & Hin).
  assert (Hx : home_of L x = Some FreeP) by (apply Hin; rewrite Hf; by left).
  destruct (links_at _ _ _ _ _ _ (i_links _ _ _ Hi) sentinel_free Hx Ex) as (a & b & Eab & _ & Ep & _).
  assert (a = []) as ->.
  { destruct a as [|y a]; [done|]. rewrite Hf in Eab, Hnd. simpl in Eab. injection Eab as -> ->.
    apply NoDup_cons in Hnd as [Hnd _]. set_solver. }
  unfold unlink. rewrite (node_run _ px) by done. rewrite Ep. change (before FreeP []) with FreeP. cbn [fst].
  destruct (inv_head s _ _ FreeP Hi sentinel_free) as [pf Ef]. rewrite !(put_run _ pf) by done.
  rewrite (node_run _ px); [by rewrite Ep|]. cbn [nodes set_nodes]. by rewrite lookup_insert_ne.
Qed.

Lemma merge_prev_ok s L1 n L2 lst l :
  inv s (L1 ++ FreeSeg n :: L2) lst → lst FreeP = pages_in L1 :: l →
  ∃ nd lst', merge_prev (pages_in L1) (Z.of_nat n) s = Ok (pages_in (absorb_prev L1 n).1, on nd s)
    ∧ inv (on nd s) ((absorb_prev L1 n).1 ++ FreeSeg (absorb_prev L1 n).2 :: L2) lst'.
Proof.
  intros Hi Hf. assert (Hsame : set_nodes (λ _, nodes s) s = s) by (by destruct s).
  destruct L1 as [|g A _] using rev_ind.
  { exists (nodes s), lst. rewrite Hsame. done. }
  rewrite <- app_assoc in Hi. simpl in Hi.
  pose proof (i_segs _ _ _ Hi) as HF. apply Forall_app in HF as [HA HF]. inversion HF as [|? ? Hg HF']; subst.
  pose proof (seg_len_ok g Hg) as [_ Hl].
  assert (Hk : pages_in (A ++ [g]) = S (pages_in A + seg_len g - 1)).
  { rewrite pages_app, pages_cons by done. unfold pages_in at 2. simpl. lia. }
  rewrite absorb_prev_snoc. rewrite Hk. cbn [merge_prev].
  destruct (last_kind g Hg) as (kd & Ekd & Hfree).
  erewrite bind_run by (eapply empty_ok; [exact Hi|]; rewrite last_page by done; exact Ekd).
  rewrite Hfree. destruct g as [m|m|sh u]; [|exists (nodes s), lst; rewrite Hsame; cbn [fst snd]; rewrite <- app_assoc, Hk; done..].
  cbn [seg_len] in *. simpl in Hg.
  replace (pages_in A + m - 1)%nat with (pages_in A + (m - 1))%nat by lia.
  erewrite bind_run by (eapply find_head_ok; [exact Hi|lia]).
  rewrite Hk in Hf. replace (S (pages_in A + (m - 1))) with (pages_in A + m)%nat by lia.
  replace (S (pages_in A + m - 1)) with (pages_in A + m)%nat in Hf by lia.
  destruct (unlink_second s A m n L2 lst Hi) as (px & nd1 & ph & lst' & Ex & _ & _ & E1 & Hx1 & Eh & Hne & Hu & Hi').
  rewrite (node_run _ px) by done. rewrite (unlink_first _ _ _ _ _ _ Hi Hf Ex) in E1. unfold mbind, M_bind in E1.
  destruct (put FreeP (set_next (next px)) s) as [[[] s1]| | |] eqn:Eput; try discriminate.
  rewrite (bind_run _ _ _ _ _ Eput). rewrite (bind_run _ _ _ _ _ E1).
  rewrite (put_run _ ph) by done. rewrite Hu.
  erewrite put_run by (cbn [nodes set_nodes]; rewrite lookup_insert_ne by exact Hne; exact Hx1).
  cbn [fst snd]. eexists _, _. split; [reflexivity|exact Hi'].
Qed.

(** The first page of the segment behind a free run. *)
Lemma next_page L1 n g B :
  (1 ≤ n)%nat → seg_ok g → kinds (L1 ++ FreeSeg n :: g :: B) !! (pages_in L1 + n)%nat = kinds_of g !! 0%nat.
Proof.
  intros Hn Hg. replace (L1 ++ FreeSeg n :: g :: B) with ((L1 ++ [FreeSeg n]) ++ g :: B) by (by rewrite <- app_assoc).
  rewrite <- (kinds_head (L1 ++ [FreeSeg n])) with (L2 := B) by done. f_equal.
  rewrite pages_app, pages_cons by (simpl; lia). unfold pages_in at 3. simpl. lia.
Qed.

Lemma merge_next_ok s L1 n L2 lst :
  inv s (L1 ++ FreeSeg n :: L2) lst →
  ∃ nd lst', merge_next (pages_in L1) s = Ok (tt, on nd s)
    ∧ inv (on nd s) (L1 ++ FreeSeg (absorb_next n L2).1 :: (absorb_next n L2).2) lst'.
Proof.
  intros Hi. assert (Hsame : set_nodes (λ _, nodes s) s = s) by (by destruct s).
  pose proof (i_segs _ _ _ Hi) as HF. apply Forall_app in HF as [HA HF]. inversion HF as [|? ? Hn HL2]; subst.
  destruct (run_head _ _ _ _ _ Hi Hn) as (pk & Ek & Hk).
  unfold merge_next. rewrite (node_run _ pk) by done. erewrite bind_run by reflexivity. rewrite Hk.
  rewrite <- (i_len _ _ _ Hi). rewrite pages_app, pages_cons by done. cbn [seg_len].
  destruct L2 as [|g B].
  { change (pages_in []) with 0%nat. destruct (Z.ltb_spec (Z.of_nat (pages_in L1) + Z.of_nat n) (Z.of_nat (pages_in L1 + (n + 0)))); [lia|].
    exists (nodes s), lst. by rewrite Hsame. }
  inversion HL2 as [|? ? Hg HB]; subst. pose proof (seg_len_ok g Hg) as [_ Hl]. rewrite (pages_cons g B) by done.
  destruct (Z.ltb_spec (Z.of_nat (pages_in L1) + Z.of_nat n) (Z.of_nat (pages_in L1 + (n + (seg_len g + pages_in B))))); [|lia].
  replace (page_add (pages_in L1) (Z.of_nat n)) with (PageP (pages_in L1 + n))
    by (unfold page_add; f_equal; lia).
  pose proof (next_page L1 n g B Hn Hg) as Hx.
  assert (Hkd : ∃ kd, kinds_of g !! 0%nat = Some kd ∧ is_free kd = match g with FreeSeg _ => true | _ => false end)
    by (destruct g; by eexists).
  destruct Hkd as (kd & Ekd & Hfree). rewrite Ekd in Hx.
  rewrite (bind_run _ _ _ _ _ (empty_ok _ _ _ _ _ Hi Hx)). rewrite Hfree.
  destruct g as [m|m|sh u]; [|exists (nodes s), lst; by rewrite Hsame..].
  destruct (unlink_second s L1 n m B lst Hi) as (px & nd1 & ph & lst' & Ex & Hpx & Ep & E1 & Hx1 & Eh & Hne & Hu & Hi').
  rewrite (node_run _ px) by done. unfold as_ptr. rewrite Ep. cbn [Z.eqb].
  erewrite bind_run by reflexivity. rewrite (bind_run _ _ _ _ _ E1). rewrite (node_run _ px) by exact Hx1.
  rewrite (put_run _ ph) by done. rewrite Hpx, Hu.
  erewrite put_last by (cbn [nodes set_nodes]; rewrite lookup_insert_ne by exact Hne; exact Hx1).
  eexists _, _. split; [reflexivity|exact Hi'].
Qed.

(** The layout after a run of [n] pages between [L1] and [L2] is freed. *)
Definition freed (L1 : list seg) (n : nat) (L2 : list seg) : list seg :=
  let '(A, n) := absorb_prev L1 n in let '(n, B) := absorb_next n L2 in A ++ FreeSeg n :: B.

Lemma free_pages_ok s L1 g L2 lst :
  hole s L1 g L2 lst → hole_entry (nodes s) L1 g L2 →
  ∃ nd lst', ncx_slab_free_pages (pages_in L1) (Z.of_nat (seg_len g)) s = Ok (tt, on nd s)
    ∧ inv (on nd s) (freed L1 (seg_len g) L2) lst'.
Proof.
  intros Hh He. unfold ncx_slab_free_pages.
  replace (Z.to_nat (Z.of_nat (seg_len g) - 1)) with (seg_len g - 1)%nat by lia.
  destruct (hole_fill s L1 g L2 lst zero_page Hh) as (nd1 & E1 & Hh1 & Hz & Hk1).
  rewrite (bind_run _ _ _ _ _ E1).
  destruct (hole_push (on nd1 s) L1 g L2 lst Hh1) as (nd2 & lst2 & l & E2 & Hi2 & Hf2).
  { intros Hn. unfold nx. cbn [nodes set_nodes]. rewrite Hk1. by apply He. }
  { exact Hz. }
  rewrite (bind_run _ _ _ _ _ E2).
  destruct (merge_prev_ok _ _ _ _ _ _ Hi2 Hf2) as (nd3 & lst3 & E3 & Hi3). rewrite (bind_run _ _ _ _ _ E3).
  destruct (merge_next_ok _ _ _ _ _ Hi3) as (nd4 & lst4 & E4 & Hi4).
  exists nd4, lst4. split; [exact E4|]. unfold freed. destruct (absorb_prev L1 (seg_len g)) as [A n].
  cbn [fst snd] in Hi4. by destruct (absorb_next n L2).
Qed.
