(* ===== verification/SlabChunk.v ===== *)
(** * SlabChunk: allocating and freeing chunks

    The chunk paths of [ncx_slab_alloc_locked] and [ncx_slab_free_locked]:
    a bit of the bitmap of a page changes, and the page leaves the list of
    its size when it becomes full and enters it when it was. *)
From Stdlib Require Import ZArith Lia.
From stdpp Require Import base numbers list gmap strings.
From S2P Require Import Prelude Util Bitmap BitmapOps Slab SlabLink SlabOk SlabFree.

(** ** The page that changes *)

(** Filling the hole with a segment that is in the same list. *)
Lemma hole_close s L1 g g' L2 lst :
  hole s L1 g L2 lst → seg_ok g' → seg_len g' = seg_len g →
  kinds_of g' !! 0%nat ≫= home = kinds_of g !! 0%nat ≫= home →
  (∀ i kd, kinds_of g' !! i = Some kd → kind_ok s (pages_in L1 + i) kd) →
  inv s (L1 ++ g' :: L2) lst.
Proof.
  intros Hh Hg' Hlen Hhome Hk. destruct (hole_seg _ _ _ _ _ Hh) as (Hg & HL1 & HL2).
  pose proof (seg_len_ok g' Hg') as [Hl' _]. destruct Hh as [G1 G2 G3 G4 G5 G6 G7]. constructor; try done.
  - rewrite <- G3, !pages_app, !pages_cons by done. by rewrite Hlen.
  - apply Forall_app. split; [done|]. by constructor.
  - intros j kd Hj. destruct (decide (pages_in L1 ≤ j < pages_in L1 + seg_len g)%nat) as [Hin|Hout].
    + rewrite kinds_mid in Hj by done. rewrite Hlen in Hj. rewrite decide_False, decide_True in Hj by lia.
      specialize (Hk _ _ Hj). by replace (pages_in L1 + (j - pages_in L1))%nat with j in Hk by lia.
    + apply G5; [lia|]. rewrite <- Hj. symmetry. apply kinds_outside; done || lia.
  - eapply links_home; [exact G7|]. intros j.
    destruct (decide (j = pages_in L1)) as [->|Hj]; [by rewrite !home_first|].
    destruct (decide (pages_in L1 < j < pages_in L1 + seg_len g)%nat) as [Hin|Hout].
    + rewrite !home_body; done || lia.
    + symmetry. apply home_outside; done || lia.
Qed.

(** Writing the [slab] field or the bitmap of the page. *)
Lemma hole_slab s L1 g L2 lst pg x :
  hole s L1 g L2 lst → nodes s !! PageP (pages_in L1) = Some pg →
  hole (set_nodes <[PageP (pages_in L1) := set_slab x pg]> s) L1 g L2 lst.
Proof.
  intros Hh E. destruct (hole_seg _ _ _ _ _ Hh) as (Hg & _). pose proof (seg_len_ok g Hg) as [_ Hl].
  destruct Hh as [G1 G2 G3 G4 G5 G6 G7]. constructor; try done.
  - intros j kd Hj Hk. eapply kind_ok_frame; [by apply G5|done|]. left. cbn [nodes set_nodes].
    apply lookup_insert_ne. intros [= <-]. lia.
  - intros j Hj. cbn [nodes set_nodes]. destruct (decide (j = pages_in L1)) as [->|]; [rewrite lookup_insert_eq; by eexists|].
    rewrite lookup_insert_ne by congruence. by apply G6.
  - cbn [nodes set_nodes]. eapply links_frame; [exact G7|done|]. intros q _. unfold nx, pv.
    destruct (decide (q = PageP (pages_in L1))) as [->|]; [rewrite lookup_insert_eq, E; simpl; split; [done|by right]|].
    rewrite lookup_insert_ne by done. split; [done|by right].
Qed.

Lemma hole_map s L1 g L2 lst m :
  hole s L1 g L2 lst → hole (set_maps <[pages_in L1 := m]> s) L1 g L2 lst.
Proof.
  intros Hh. destruct (hole_seg _ _ _ _ _ Hh) as (Hg & _). pose proof (seg_len_ok g Hg) as [_ Hl].
  destruct Hh as [G1 G2 G3 G4 G5 G6 G7]. constructor; try done.
  intros j kd Hj Hk. eapply kind_ok_frame; [by apply G5| |by left]. cbn [maps set_maps].
  apply lookup_insert_ne. intros <-. lia.
Qed.

(** What the entry and the bitmap of a page with the chunks [used] say. *)
Definition page_says (s : pool) (k : nat) (sh used : Z) : Prop :=
  sb (nodes s) (PageP k) = Some (slab_of sh used) ∧ (sh < 6 → ∃ m, maps s !! k = Some m ∧ map_ok m sh used).

Lemma close_partial s L1 sh used used' L2 lst :
  hole s L1 (ChunkSeg sh used) L2 lst → ¬ full sh used → seg_ok (ChunkSeg sh used') → ¬ full sh used' →
  page_says s (pages_in L1) sh used' → inv s (L1 ++ ChunkSeg sh used' :: L2) lst.
Proof.
  intros Hh Hf Hg' Hf' [H1 H2]. eapply hole_close; [exact Hh|done|done| |].
  - simpl. by rewrite !decide_False.
  - intros [|i] kd Hk; [|done]. simpl in Hk. injection Hk as <-. rewrite Nat.add_0_r. simpl. done.
Qed.

(** A page that has become full leaves its list. *)
Lemma leave_ok s L1 sh used used' L2 lst :
  hole s L1 (ChunkSeg sh used) L2 lst → ¬ full sh used → seg_ok (ChunkSeg sh used') → full sh used' →
  page_says s (pages_in L1) sh used' →
  ∃ nd lst', leave_list (PageP (pages_in L1)) (type_of sh) s = Ok (tt, on nd s)
    ∧ inv (on nd s) (L1 ++ ChunkSeg sh used' :: L2) lst'.
Proof.
  intros Hh Hf Hg' Hf' [H1 H2]. destruct (hole_seg _ _ _ _ _ Hh) as (Hg & HL1 & HL2). set (k := pages_in L1) in *.
  assert (Hs : sentinel (slot_of sh)) by (destruct Hg as (Hsh & _); by apply sentinel_slot).
  assert (Hk : home_of (L1 ++ ChunkSeg sh used :: L2) k = Some (slot_of sh)).
  { unfold k. rewrite home_first by done. simpl. by rewrite decide_False. }
  destruct (h_page _ _ _ _ _ Hh k) as [pg E]; [by eapply home_in|].
  destruct (unlink_links s _ lst _ k pg (h_links _ _ _ _ _ Hh) Hs Hk E) as (nd1 & ks & E1 & Hl1 & Hsb1 & Hk1 & Hoth1).
  unfold leave_list. rewrite (node_run _ pg) by done. rewrite (bind_run _ _ _ _ _ E1). rewrite (put_last _ pg) by exact Hk1.
  set (nd2 := <[PageP k := mkPage (slab pg) Null (Null, type_of sh)]> nd1).
  exists nd2, (upd lst (slot_of sh) ks). split; [reflexivity|].
  assert (Hk2 : nd2 !! PageP k = Some (mkPage (slab pg) Null (Null, type_of sh))) by apply lookup_insert_eq.
  assert (Ho2 : ∀ q, q ≠ PageP k → nd2 !! q = nd1 !! q) by (intros q Hq; by apply lookup_insert_ne).
  assert (Hfull' : kinds_of (ChunkSeg sh used') !! 0%nat ≫= home = None) by (simpl; by rewrite decide_True).
  destruct Hh as [G1 G2 G3 G4 G5 G6 G7]. constructor; try done.
  - cbn [real_pages set_nodes]. rewrite <- G3, !pages_app, !pages_cons by done. done.
  - apply Forall_app. split; [done|]. by constructor.
  - intros j kd Hj. destruct (decide (j = k)) as [->|Hjk].
    + unfold k in Hj. rewrite kinds_head in Hj by done. simpl in Hj. injection Hj as <-. fold k.
      split; [unfold sb; cbn [nodes set_nodes]; rewrite Hk2; unfold sb in H1; rewrite E in H1; exact H1|].
      split; [intros _; unfold nx, pv; cbn [nodes set_nodes]; by rewrite Hk2|exact H2].
    + assert (Hj' : (j < k)%nat ∨ (k + seg_len (ChunkSeg sh used) ≤ j)%nat) by (simpl; lia).
      rewrite (kinds_outside L1 (ChunkSeg sh used)) in Hj by done.
      eapply kind_ok_frame; [by apply G5|done|]. cbn [nodes set_nodes]. unfold sb at 1. rewrite Ho2 by congruence.
      fold (sb nd1 (PageP j)). rewrite Hsb1. destruct (Hoth1 j) as [Hj2|?]; [|by left]. right. split; [|done].
      unfold home_of in Hj2. rewrite Hj in Hj2. simpl in Hj2. congruence.
  - eapply links_frame; [exact Hl1| |].
    + intros j. cbv beta. destruct (decide (j = k)) as [->|]; [unfold k; rewrite home_first by done; symmetry; exact Hfull'|].
      symmetry. apply home_outside; try done. fold k. simpl. lia.
    + intros q Hq. unfold nx, pv. cbn [nodes set_nodes]. rewrite Ho2; [split; [done|by right]|]. intros ->.
      destruct Hq as [Hq|(j & [= <-] & Hj)]; [by apply sentinel_head in Hq; destruct (Hq k)|].
      apply Hj. unfold k. rewrite home_first by done. exact Hfull'.
Qed.

(** Entering the list of a size at its front. *)
Lemma enter_links s h lst slot k :
  let sent := SlotP slot in
  links (nodes s) h lst → sentinel sent → h k = None → is_Some (nodes s !! PageP k) →
  (∀ j, h j ≠ None → is_Some (nodes s !! PageP j)) →
  ∃ nd, enter_list (PageP k) slot (tag_of sent) s = Ok (tt, on nd s)
    ∧ links nd (λ j, if decide (j = k) then Some sent else h j) (upd lst sent (k :: lst sent))
    ∧ (∀ q, sb nd q = sb (nodes s) q)
    ∧ ∀ j, j = k ∨ h j = Some sent ∨ nd !! PageP j = nodes s !! PageP j.
Proof.
  intros sent Hl Hs Hk Hks Hex. pose proof (links_first _ _ _ _ Hl Hs) as Hf.
  pose proof (first_entry _ _ _ _ Hl Hs) as HN. cbv zeta in HN.
  set (N := behind sent (lst sent)) in *.
  unfold nx in Hf. destruct (nodes s !! sent) as [pf|] eqn:Ef; [|done]. simpl in Hf. injection Hf as Hf.
  assert (HNs : is_Some (nodes s !! N)).
  { destruct HN as [->|(j & -> & Hj)]; [by eexists|]. apply Hex. congruence. }
  assert (HNk : N ≠ PageP k) by (intros E; destruct HN as [|(j & Ej & Hj)]; unfold sent in *; congruence).
  unfold enter_list. fold sent. rewrite (node_run _ pf) by done. rewrite Hf. rewrite put_alter by done.
  rewrite put_alter by (cbn [nodes set_nodes]; rewrite lookup_alter_is_Some; by eexists).
  rewrite put_alter by (cbn [nodes set_nodes]; by rewrite !lookup_alter_is_Some).
  destruct Hks as [pk Ek]. set (pk' := mkPage (slab pk) N (sent, tag_of sent)).
  rewrite (node_run _ pk').
  2:{ cbn [nodes set_nodes]. rewrite lookup_alter_eq, lookup_alter_ne, lookup_alter_eq by done. by rewrite Ek. }
  change (next pk') with N.
  rewrite put_alter_last by (cbn [nodes set_nodes]; by rewrite !lookup_alter_is_Some).
  cbn [nodes set_nodes]. set (nd := alter _ N _). exists nd. split; [reflexivity|].
  assert (Hk3 : nd !! PageP k = Some pk').
  { unfold nd. rewrite lookup_alter_ne, lookup_alter_eq, lookup_alter_ne, lookup_alter_eq by done. by rewrite Ek. }
  destruct (pushed_ok (nodes s) nd h lst sent k pk') as (H1 & H2 & H3); try done.
  - fold N. clearbody N sent. clear Hf. intros q Hq. unfold nd, front_writes. rewrite !lookup_alter. lookup_cases.
  - split; [done|]. split; [|done]. intros q. destruct (decide (q = PageP k)) as [->|]; [|by apply H2].
    unfold sb. by rewrite Hk3, Ek.
Qed.

(** A full page that is about to lose a chunk enters its list. *)
Lemma enter_ok s L1 sh used used' L2 lst :
  hole s L1 (ChunkSeg sh used) L2 lst → full sh used → seg_ok (ChunkSeg sh used') → ¬ full sh used' →
  ∃ nd lst', enter_list (PageP (pages_in L1)) (Z.to_nat (sh - 3)) (type_of sh) s = Ok (tt, on nd s)
    ∧ hole (on nd s) L1 (ChunkSeg sh used') L2 lst'
    ∧ sb nd (PageP (pages_in L1)) = sb (nodes s) (PageP (pages_in L1)).
Proof.
  intros Hh Hf Hg' Hf'. destruct (hole_seg _ _ _ _ _ Hh) as (Hg & HL1 & HL2). set (k := pages_in L1) in *.
  assert (Hsh : 3 ≤ sh ≤ 11) by (by destruct Hg). pose proof (sentinel_slot sh Hsh) as Hs.
  assert (Hk : home_of (L1 ++ ChunkSeg sh used :: L2) k = None).
  { unfold k. rewrite home_first by done. simpl. by rewrite decide_True. }
  assert (Hkp : (k < pages_in (L1 ++ ChunkSeg sh used :: L2))%nat).
  { rewrite pages_app, pages_cons by done. simpl. unfold k. lia. }
  destruct (enter_links s _ lst (Z.to_nat (sh - 3)) k (h_links _ _ _ _ _ Hh) Hs Hk) as (nd & E & Hl & Hsb & Hoth).
  { by apply (h_page _ _ _ _ _ Hh). }
  { intros j Hj. apply (h_page _ _ _ _ _ Hh). destruct (home_of _ j) as [q|] eqn:Ej; [|done]. by eapply home_in. }
  fold (slot_of sh) in E, Hl, Hoth. rewrite tag_slot in E by done.
  exists nd, (upd lst (slot_of sh) (k :: lst (slot_of sh))). split; [exact E|]. split; [|by apply Hsb].
  assert (Hdom : ∀ q, is_Some (nodes s !! q) → is_Some (nd !! q)).
  { intros q. specialize (Hsb q). unfold sb in Hsb. destruct (nd !! q), (nodes s !! q); try done; intros []; by eexists. }
  assert (Hpage : pages_in (L1 ++ ChunkSeg sh used' :: L2) = pages_in (L1 ++ ChunkSeg sh used :: L2))
    by (by rewrite !pages_app, !pages_cons).
  destruct Hh as [G1 G2 G3 G4 G5 G6 G7]. constructor; try done.
  - by rewrite Hpage.
  - apply Forall_app. split; [done|]. by constructor.
  - intros j kd Hj Hkd. fold k in Hj. simpl in Hj. rewrite (kinds_outside L1 (ChunkSeg sh used)) in Hkd by (done || simpl; lia).
    eapply kind_ok_frame; [by apply G5|done|]. cbn [nodes set_nodes]. rewrite Hsb.
    destruct (Hoth j) as [->|[Hj2|?]]; [lia| |by left]. right. split; [|done].
    unfold home_of in Hj2. rewrite Hkd in Hj2. simpl in Hj2. congruence.
  - intros j Hj. rewrite Hpage in Hj. apply Hdom. by apply G6.
  - eapply links_home; [exact Hl|]. intros j. cbv beta. destruct (decide (j = k)) as [->|].
    + unfold k. rewrite home_first by done. simpl. by rewrite decide_False.
    + symmetry. apply home_outside; try done. fold k. simpl. lia.
Qed.

(** ** Sets of chunks as numbers *)
Lemma pow2_range w n : 0 ≤ n → 0 ≤ w → (0 ≤ w < 2 ^ n ↔ ∀ j, n ≤ j → Z.testbit w j = false).
Proof.
  intros Hn Hw. split.
  - intros Hr j Hj. rewrite <- (Z.mod_small w (2 ^ n)) by done. by apply Z.mod_pow2_bits_high.
  - intros Hb. split; [done|]. destruct (decide (w = 0)) as [->|]; [by apply Z.pow_pos_nonneg|].
    apply Z.log2_lt_pow2; [lia|]. destruct (decide (Z.log2 w < n)) as [|Hge]; [done|].
    pose proof (Z.bit_log2 w ltac:(lia)) as Ht. rewrite Hb in Ht by lia. done.
Qed.

Lemma lor_setbit w i : 0 ≤ i → Z.lor w (2 ^ i) = Z.setbit w i.
Proof. intros. by rewrite Z.setbit_spec'. Qed.

Lemma setbit_bits w i j : 0 ≤ i → 0 ≤ j → Z.testbit (Z.setbit w i) j = (j =? i) || Z.testbit w j.
Proof. intros. rewrite Z.setbit_eqb by done. by rewrite (Z.eqb_sym i). Qed.

Lemma clearbit_bits w i j : 0 ≤ i → 0 ≤ j → Z.testbit (Z.clearbit w i) j = negb (j =? i) && Z.testbit w j.
Proof. intros. rewrite Z.clearbit_eqb by done. rewrite (Z.eqb_sym i). apply andb_comm. Qed.

Lemma full_bits sh used :
  3 ≤ sh ≤ 11 → 0 ≤ used < 2 ^ count sh → (full sh used ↔ ∀ i, 0 ≤ i < count sh → Z.testbit used i = true).
Proof.
  intros Hsh Hu. pose proof (count_bounds sh Hsh) as (Hc & _). unfold full. split.
  - intros -> i Hi. by apply Z.ones_spec_low.
  - intros Hb. apply Z.bits_inj'. intros j Hj. destruct (decide (j < count sh)).
    + rewrite Hb, Z.ones_spec_low by lia. done.
    + rewrite Z.ones_spec_high by lia. apply (pow2_range used (count sh)); lia.
Qed.

Lemma not_full_clear sh used i :
  3 ≤ sh ≤ 11 → 0 ≤ i < count sh → Z.testbit used i = false → ¬ full sh used.
Proof. intros Hsh Hi Ht ->. by rewrite Z.ones_spec_low in Ht. Qed.

Lemma setbit_seg sh used i :
  seg_ok (ChunkSeg sh used) → 0 ≤ i < count sh → seg_ok (ChunkSeg sh (Z.setbit used i)).
Proof.
  intros (Hsh & Hu & Hr & x & Hx & Ht) Hi. split; [done|]. split; [|split].
  - assert (0 ≤ Z.setbit used i) by (rewrite <- lor_setbit by lia; apply Z.lor_nonneg; split; [lia|apply Z.pow_nonneg; lia]).
    apply pow2_range; [lia|done|]. intros j Hj. rewrite setbit_bits by lia.
    destruct (Z.eqb_spec j i); [lia|]. simpl. apply (pow2_range used (count sh)); lia.
  - intros j Hj. rewrite setbit_bits by lia. rewrite Hr by done. apply orb_true_r.
  - exists x. split; [done|]. pose proof (count_bounds sh Hsh). rewrite setbit_bits by lia. rewrite Ht. apply orb_true_r.
Qed.

(** Clearing a chunk keeps the rest of the set. *)
Lemma clearbit_range sh used i :
  3 ≤ sh ≤ 11 → 0 ≤ used < 2 ^ count sh → 0 ≤ i → 0 ≤ Z.clearbit used i < 2 ^ count sh.
Proof.
  intros Hsh Hu Hi. pose proof (count_bounds sh Hsh) as (Hc & _).
  assert (0 ≤ Z.clearbit used i) by (rewrite Z.clearbit_spec'; apply Z.ldiff_nonneg; lia).
  apply pow2_range; [lia|done|]. intros j Hj. rewrite clearbit_bits by lia.
  rewrite (proj1 (pow2_range used (count sh) ltac:(lia) ltac:(lia))) by lia. apply andb_false_r.
Qed.

Lemma clearbit_seg sh used i x :
  seg_ok (ChunkSeg sh used) → reserved sh ≤ i < count sh → reserved sh ≤ x < count sh → x ≠ i →
  Z.testbit used x = true → seg_ok (ChunkSeg sh (Z.clearbit used i)).
Proof.
  intros (Hsh & Hu & Hr & _) Hi Hx Hne Ht. pose proof (count_bounds sh Hsh) as (Hc & Hres & _).
  split; [done|]. split; [apply clearbit_range; done || lia|]. split.
  - intros j Hj. rewrite clearbit_bits, Hr by lia. destruct (Z.eqb_spec j i); [lia|done].
  - exists x. split; [done|]. rewrite clearbit_bits, Ht by lia. destruct (Z.eqb_spec x i); [done|done].
Qed.

(** The first clear bit of a word. *)
Lemma first_zero_ok w :
  0 ≤ w < 2 ^ 64 → w ≠ NCX_SLAB_BUSY →
  0 ≤ first_zero w < 64 ∧ Z.testbit w (first_zero w) = false.
Proof.
  intros Hw Hn. change (first_zero w) with (__ffs (not64 w)).
  destruct (ffs_ok (not64 w)) as (H1 & H2 & _); [apply u64_range| |].
  - intros H0. apply Hn. unfold NCX_SLAB_BUSY. change (2 ^ 64 - 1) with (Z.ones 64). apply Z.bits_inj'. intros j Hj.
    destruct (decide (j < 64)).
    + rewrite Z.ones_spec_low by lia. pose proof (not64_testbit w j ltac:(lia)) as H. rewrite H0, Z.bits_0 in H.
      by destruct (Z.testbit w j).
    + rewrite Z.ones_spec_high by lia. apply (pow2_range w 64); lia.
  - split; [done|]. rewrite not64_testbit in H2 by done. by destruct (Z.testbit w _).
Qed.

(** The address of chunk [i] of page [k]. *)
Definition chunk_addr (s : pool) (k : nat) (sh i : Z) : Z := start s + Z.of_nat k * 4096 + i * 2 ^ sh.

Lemma addr_of_ok s L lst k off :
  inv s L lst → (k < pages_in L)%nat → addr_of s k off = start s + Z.of_nat k * 4096 + off.
Proof.
  intros Hi Hk. unfold addr_of. change ncx_pagesize_shift with 12. pose proof (inv_small _ _ _ Hi).
  rewrite shl64_small by lia. change (2 ^ 12) with 4096. lia.
Qed.

Lemma shl_chunk sh i : 3 ≤ sh ≤ 11 → 0 ≤ i ≤ count sh → shl64 i sh = i * 2 ^ sh.
Proof.
  intros Hsh Hi. apply shl64_small; [lia|].
  assert (count sh * 2 ^ sh = 4096) by (unfold count; rewrite <- Z.pow_add_r by lia; by replace (12 - sh + sh) with 12 by lia).
  pose proof (Z.pow_pos_nonneg 2 sh). nia.
Qed.

Definition same_pool (s s' : pool) : Prop :=
  min_size s' = min_size s ∧ min_shift s' = min_shift s ∧ start s' = start s ∧ end_ s' = end_ s ∧ real_pages s' = real_pages s.
