(* ===== verification/SlabAlloc.v ===== *)
(** * SlabAlloc: allocation from a slab pool

    The three searches for a free chunk, a fresh page of chunks, and
    [ncx_slab_alloc_locked] as a whole. *)
From Stdlib Require Import ZArith Lia.
From stdpp Require Import base numbers list gmap strings.
From S2P Require Import Prelude Util Bitmap BitmapOps Slab SlabLink SlabOk SlabFree SlabChunk.

(** ** A chunk of a page that has one *)

Lemma same_pool_trans s1 s2 s3 : same_pool s1 s2 → same_pool s2 s3 → same_pool s1 s3.
Proof. intros (?&?&?&?&?) (?&?&?&?&?). repeat split; congruence. Qed.

(** The page leaves its list when the test says it is full. *)
Lemma settle_ok s L1 sh used used' L2 lst (b : bool) :
  hole s L1 (ChunkSeg sh used) L2 lst → ¬ full sh used → seg_ok (ChunkSeg sh used') →
  (b = true ↔ full sh used') → page_says s (pages_in L1) sh used' →
  ∃ s' lst', (if b then leave_list (PageP (pages_in L1)) (type_of sh) else mret tt) s = Ok (tt, s')
    ∧ inv s' (L1 ++ ChunkSeg sh used' :: L2) lst' ∧ same_pool s s'.
Proof.
  intros Hh Hf Hg' Hb Hp. destruct b.
  - destruct (leave_ok _ _ _ _ used' _ _ Hh) as (nd & lst' & E & Hi); [done|done|by apply Hb|done|].
    eexists _, _. split; [exact E|]. split; [exact Hi|done].
  - exists s, lst. split; [done|]. split; [|done].
    eapply close_partial; [exact Hh|done|done| |done]. intros Hf'. by apply Hb in Hf'.
Qed.

(** The entry of a page of chunks. *)
Lemma chunk_page s L1 sh used L2 lst :
  inv s (L1 ++ ChunkSeg sh used :: L2) lst →
  seg_ok (ChunkSeg sh used) ∧ page_says s (pages_in L1) sh used
  ∧ ∃ pg, nodes s !! PageP (pages_in L1) = Some pg ∧ slab pg = slab_of sh used.
Proof.
  intros Hi. pose proof (inv_hole _ _ _ _ _ Hi) as Hh. destruct (hole_seg _ _ _ _ _ Hh) as (Hg & _).
  pose proof (i_kind _ _ _ Hi (pages_in L1) (KChunk sh used)) as Hk. rewrite kinds_head in Hk by done.
  destruct (Hk eq_refl) as (H1 & _ & H3). split; [done|]. split; [done|].
  unfold sb in H1. destruct (nodes s !! _) as [pg|]; [|done]. exists pg. split; [done|]. simpl in H1. congruence.
Qed.

Lemma chunk_lt s L1 sh used L2 lst :
  inv s (L1 ++ ChunkSeg sh used :: L2) lst → (pages_in L1 < pages_in (L1 ++ ChunkSeg sh used :: L2))%nat.
Proof.
  intros Hi. destruct (chunk_page _ _ _ _ _ _ Hi) as (Hg & _). rewrite pages_app, pages_cons by done. simpl. lia.
Qed.

(** The result of taking chunk [i]. *)
Definition took (r : outcome (option Z * pool)) (s : pool) (L1 : list seg) (sh used : Z) (L2 : list seg) : Prop :=
  ∃ i s' lst', r = Ok (Some (chunk_addr s (pages_in L1) sh i), s')
    ∧ reserved sh ≤ i < count sh ∧ Z.testbit used i = false
    ∧ inv s' (L1 ++ ChunkSeg sh (Z.setbit used i) :: L2) lst' ∧ same_pool s s'.

(** A chunk that is free is not one of the bitmap. *)
Lemma clear_above sh used i : seg_ok (ChunkSeg sh used) → 0 ≤ i → Z.testbit used i = false → reserved sh ≤ i.
Proof.
  intros (_ & _ & Hr & _) Hi Ht. destruct (decide (reserved sh ≤ i)) as [|Hlt]; [done|].
  rewrite Hr in Ht by lia. done.
Qed.

(** The address of the chunk, computed after the lists were settled. *)
Lemma took_at s s' L1 sh used i L2 lst' r :
  inv s' (L1 ++ ChunkSeg sh (Z.setbit used i) :: L2) lst' → same_pool s s' → seg_ok (ChunkSeg sh used) →
  0 ≤ i < count sh → Z.testbit used i = false →
  r = Ok (Some (addr_of s' (pages_in L1) (i * 2 ^ sh)), s') → took r s L1 sh used L2.
Proof.
  intros Hi Hs Hg Hr Ht ->. exists i, s', lst'. pose proof (chunk_lt _ _ _ _ _ _ Hi) as Hk.
  rewrite (addr_of_ok s' _ lst' (pages_in L1) _ Hi Hk). pose proof Hs as (_ & _ & Hst & _). rewrite Hst.
  split; [done|]. split; [|done]. split; [apply (clear_above sh used); done || lia|lia].
Qed.

Lemma exact_ok s L1 used L2 lst fuel :
  inv s (L1 ++ ChunkSeg 6 used :: L2) lst → ¬ full 6 used →
  took (exact_loop 6 (PageP (pages_in L1)) (S fuel) s) s L1 6 used L2.
Proof.
  intros Hi Hf. destruct (chunk_page _ _ _ _ _ _ Hi) as (Hg & _ & pg & E & Esb).
  change (slab_of 6 used) with used in Esb. pose proof Hg as (Hsh & Hu & _).
  change (count 6) with 64 in Hu. assert (Hn : used ≠ NCX_SLAB_BUSY) by (intros ->; by apply Hf).
  destruct (first_zero_ok used Hu Hn) as [Hz Ht]. set (i := first_zero used) in *.
  pose proof (setbit_seg _ _ i Hg ltac:(change (count 6) with 64; lia)) as Hg'.
  cbn [exact_loop]. rewrite (node_run _ pg) by done. rewrite Esb. destruct (Z.eqb_spec used NCX_SLAB_BUSY); [done|].
  cbn [negb]. fold i. rewrite lor_setbit by lia. rewrite (put_run _ pg) by done.
  pose proof (hole_slab _ _ _ _ _ pg (Z.setbit used i) (inv_hole _ _ _ _ _ Hi) E) as Hh.
  edestruct (settle_ok _ L1 6 used (Z.setbit used i) L2 lst (Z.setbit used i =? NCX_SLAB_BUSY) Hh Hf Hg')
    as (s' & lst' & Es & Hi' & Hsame).
  { rewrite Z.eqb_eq. done. }
  { split; [|lia]. unfold sb. cbn [nodes set_nodes]. by rewrite lookup_insert_eq. }
  change (type_of 6) with NCX_SLAB_EXACT in Es. rewrite (bind_run _ _ _ _ _ Es).
  rewrite shl_chunk by (change (count 6) with 64; lia).
  eapply took_at; [exact Hi'|exact Hsame|done|change (count 6) with 64; lia|done|reflexivity].
Qed.

(** ** Pages of big chunks: the bitmap above the shift *)
Lemma high_low_bits u l j :
  0 ≤ l < 2 ^ 32 → 0 ≤ j →
  Z.testbit (u * 2 ^ 32 + l) j = if j <? 32 then Z.testbit l j else Z.testbit u (j - 32).
Proof.
  intros Hl Hj. destruct (Z.ltb_spec j 32).
  - rewrite <- (Z.mod_pow2_bits_low _ 32) by lia. by rewrite Z.add_comm, Z.mod_add, Z.mod_small by lia.
  - replace j with (j - 32 + 32) at 1 by lia. rewrite <- Z.div_pow2_bits by lia.
    by rewrite Z.div_add_l, Z.div_small, Z.add_0_r by lia.
Qed.

Lemma shifted_bits u j : 0 ≤ j → Z.testbit (u * 2 ^ 32) j = if j <? 32 then false else Z.testbit u (j - 32).
Proof.
  intros Hj. rewrite <- (Z.add_0_r (u * 2 ^ 32)), high_low_bits by lia. by rewrite Z.bits_0.
Qed.

Lemma big_testbit u sh i : 3 ≤ sh ≤ 11 → 0 ≤ i → Z.testbit (u * 2 ^ 32 + sh) (NCX_SLAB_MAP_SHIFT + i) = Z.testbit u i.
Proof.
  intros. change NCX_SLAB_MAP_SHIFT with 32. rewrite high_low_bits by lia.
  destruct (Z.ltb_spec (32 + i) 32); [lia|]. f_equal. lia.
Qed.

Lemma big_map u sh : 3 ≤ sh ≤ 11 → 0 ≤ u < 2 ^ 32 → Z.land (u * 2 ^ 32 + sh) NCX_SLAB_MAP_MASK = u * 2 ^ 32.
Proof.
  intros Hsh Hu. apply Z.bits_inj'. intros j Hj. rewrite Z.land_spec.
  change NCX_SLAB_MAP_MASK with (Z.ones 32 * 2 ^ 32). rewrite !shifted_bits, high_low_bits by lia.
  destruct (Z.ltb_spec j 32); [apply andb_false_r|]. destruct (decide (j - 32 < 32)).
  - rewrite Z.ones_spec_low by lia. apply andb_true_r.
  - rewrite Z.ones_spec_high by lia. rewrite andb_false_r. symmetry. apply (pow2_range u 32); lia.
Qed.

Lemma big_set u sh i :
  3 ≤ sh ≤ 11 → 0 ≤ i → Z.lor (u * 2 ^ 32 + sh) (2 ^ (NCX_SLAB_MAP_SHIFT + i)) = Z.setbit u i * 2 ^ 32 + sh.
Proof.
  intros Hsh Hi. change NCX_SLAB_MAP_SHIFT with 32. apply Z.bits_inj'. intros j Hj.
  rewrite Z.lor_spec, Z.pow2_bits_eqb, !high_low_bits by lia. destruct (Z.ltb_spec j 32).
  - destruct (Z.eqb_spec (32 + i) j); [lia|]. apply orb_false_r.
  - rewrite setbit_bits by lia. rewrite orb_comm. f_equal.
    destruct (Z.eqb_spec (32 + i) j), (Z.eqb_spec (j - 32) i); done || lia.
Qed.

Lemma big_clear u sh i :
  3 ≤ sh ≤ 11 → 0 ≤ i < 32 → 0 ≤ u < 2 ^ 32 →
  Z.land (u * 2 ^ 32 + sh) (not64 (2 ^ (NCX_SLAB_MAP_SHIFT + i))) = Z.clearbit u i * 2 ^ 32 + sh.
Proof.
  intros Hsh Hi Hu. change NCX_SLAB_MAP_SHIFT with 32. apply Z.bits_inj'. intros j Hj.
  rewrite Z.land_spec, !high_low_bits by lia. destruct (decide (j < 64)).
  - rewrite not64_testbit, Z.pow2_bits_eqb by lia. destruct (Z.ltb_spec j 32).
    + destruct (Z.eqb_spec (32 + i) j); [lia|]. apply andb_true_r.
    + rewrite clearbit_bits by lia. rewrite andb_comm. f_equal. f_equal.
      destruct (Z.eqb_spec (32 + i) j), (Z.eqb_spec (j - 32) i); done || lia.
  - destruct (Z.ltb_spec j 32); [lia|]. rewrite clearbit_bits by lia.
    rewrite (proj1 (pow2_range u 32 ltac:(lia) ltac:(lia))) by lia. by rewrite andb_false_r.
Qed.

Lemma big_shift u sh : 3 ≤ sh ≤ 11 → Z.land (u * 2 ^ 32 + sh) NCX_SLAB_SHIFT_MASK = sh.
Proof.
  intros. change NCX_SLAB_SHIFT_MASK with (2 ^ 4 - 1). rewrite land_mask by lia.
  replace (u * 2 ^ 32 + sh) with (sh + (u * 2 ^ 28) * 2 ^ 4) by lia. rewrite Z.mod_add by lia. apply Z.mod_small. lia.
Qed.

Lemma big_mask_value u sh : 6 < sh ≤ 11 → big_mask (u * 2 ^ 32 + sh) = Z.ones (count sh) * 2 ^ 32.
Proof.
  intros. unfold big_mask. rewrite big_shift by lia.
  assert (sh = 7 ∨ sh = 8 ∨ sh = 9 ∨ sh = 10 ∨ sh = 11) as [->|[->|[->|[->| ->]]]] by lia; reflexivity.
Qed.

(** The scan stops at the first free chunk. *)
Lemma big_scan_ok used sh i fuel :
  6 < sh ≤ 11 → 0 ≤ used < 2 ^ count sh → ¬ full sh used → 0 ≤ i →
  (∀ j, 0 ≤ j < i → Z.testbit used j = true) → count sh < i + Z.of_nat fuel →
  ∃ n, big_scan (used * 2 ^ 32 + sh) (Z.ones (count sh) * 2 ^ 32) i fuel = Some n
    ∧ 0 ≤ n < count sh ∧ Z.testbit used n = false.
Proof.
  intros Hsh Hu Hf. pose proof (count_bounds sh ltac:(lia)) as (Hc & _). revert i.
  induction fuel as [|fuel IH]; intros i Hi Hb Hfuel; cbn [big_scan].
  - exfalso. apply Hf. apply full_bits; [lia|done|]. intros j Hj. apply Hb. lia.
  - rewrite big_testbit by lia. change NCX_SLAB_MAP_SHIFT with 32.
    rewrite shifted_bits by lia. destruct (Z.ltb_spec (32 + i) 32); [lia|]. replace (32 + i - 32) with i by lia.
    destruct (decide (i < count sh)).
    + rewrite Z.ones_spec_low by lia. destruct (Z.testbit used i) eqn:E.
      * apply IH; [lia| |lia]. intros j Hj. destruct (decide (j = i)) as [->|]; [done|]. apply Hb. lia.
      * exists i. split; [done|]. split; [lia|done].
    + exfalso. apply Hf. apply full_bits; [lia|done|]. intros j Hj. apply Hb. lia.
Qed.

Lemma big_ok s L1 sh used L2 lst fuel :
  inv s (L1 ++ ChunkSeg sh used :: L2) lst → 6 < sh → ¬ full sh used →
  took (big_loop sh (big_mask (slab_of sh used)) (PageP (pages_in L1)) (S fuel) s) s L1 sh used L2.
Proof.
  intros Hi H6 Hf. destruct (chunk_page _ _ _ _ _ _ Hi) as (Hg & _ & pg & E & Esb). pose proof Hg as (Hsh & Hu & _).
  assert (Eslab : ∀ u, slab_of sh u = u * 2 ^ 32 + sh).
  { intros u. unfold slab_of. destruct (Z.ltb_spec sh 6); [lia|]. destruct (Z.eqb_spec sh 6); [lia|done]. }
  rewrite Eslab in Esb |- *. pose proof (count_bounds sh Hsh) as (Hc & _ & _ & Hc32 & _). specialize (Hc32 H6).
  assert (Hu32 : 0 ≤ used < 2 ^ 32) by (pose proof (Z.pow_le_mono_r 2 (count sh) 32); lia).
  cbn [big_loop]. rewrite (node_run _ pg) by done. rewrite Esb, big_mask_value, big_map by lia.
  assert (Hne : used * 2 ^ 32 ≠ Z.ones (count sh) * 2 ^ 32) by (intros Ec; apply Hf; unfold full; lia).
  destruct (Z.eqb_spec (used * 2 ^ 32) (Z.ones (count sh) * 2 ^ 32)); [done|]. cbn [negb].
  destruct (big_scan_ok used sh 0 33) as (i & -> & Hz & Ht); [lia|done|done|lia|lia|lia|].
  pose proof (setbit_seg _ _ i Hg Hz) as Hg'. rewrite big_set by lia. rewrite (put_run _ pg) by done.
  pose proof Hg' as (_ & Hu' & _).
  assert (Hu32' : 0 ≤ Z.setbit used i < 2 ^ 32) by (pose proof (Z.pow_le_mono_r 2 (count sh) 32); lia).
  rewrite big_map by lia.
  pose proof (hole_slab _ _ _ _ _ pg (Z.setbit used i * 2 ^ 32 + sh) (inv_hole _ _ _ _ _ Hi) E) as Hh.
  edestruct (settle_ok _ L1 sh used (Z.setbit used i) L2 lst
    (Z.setbit used i * 2 ^ 32 =? Z.ones (count sh) * 2 ^ 32) Hh Hf Hg') as (s' & lst' & Es & Hi' & Hsame).
  { rewrite Z.eqb_eq. unfold full. lia. }
  { split; [|lia]. unfold sb. cbn [nodes set_nodes]. by rewrite lookup_insert_eq, Eslab. }
  assert (Hty : type_of sh = NCX_SLAB_BIG).
  { unfold type_of. destruct (Z.ltb_spec sh 6); [lia|]. destruct (Z.eqb_spec sh 6); [lia|done]. }
  rewrite Hty in Es. rewrite (bind_run _ _ _ _ _ Es). rewrite shl_chunk by lia.
  eapply took_at; [exact Hi'|exact Hsame|done|lia|done|reflexivity].
Qed.

(** ** Pages of small chunks: the bitmap in the page *)
Lemma find_word_some m n c k :
  find_word m n c = Some k →
  n ≤ k < n + Z.of_nat c ∧ word m k ≠ NCX_SLAB_BUSY ∧ ∀ j, n ≤ j < k → word m j = NCX_SLAB_BUSY.
Proof.
  revert n. induction c as [|c IH]; intros n; [done|]. cbn [find_word].
  destruct (Z.eqb_spec (word m n) NCX_SLAB_BUSY) as [E|E]; cbn [negb].
  - intros (H1 & H2 & H3)%IH. split; [lia|]. split; [done|]. intros j Hj.
    destruct (decide (j = n)) as [->|]; [done|]. apply H3. lia.
  - intros [= <-]. split; [lia|]. split; [done|]. lia.
Qed.

Lemma find_word_none m n c :
  find_word m n c = None ↔ ∀ j, n ≤ j < n + Z.of_nat c → word m j = NCX_SLAB_BUSY.
Proof.
  revert n. induction c as [|c IH]; intros n; cbn [find_word]; [split; [lia|done]|].
  destruct (Z.eqb_spec (word m n) NCX_SLAB_BUSY) as [E|E]; cbn [negb].
  - rewrite IH. split; intros H j Hj; [|apply H; lia]. destruct (decide (j = n)) as [->|]; [done|]. apply H. lia.
  - split; [done|]. intros H. destruct E. apply H. lia.
Qed.

Lemma busy_bits w : 0 ≤ w < 2 ^ 64 → (w = NCX_SLAB_BUSY ↔ ∀ i, 0 ≤ i < 64 → Z.testbit w i = true).
Proof. intros Hw. apply (full_bits 6 w); [lia|done]. Qed.

(** Number [i] of a page is bit [i mod 64] of word [i / 64]. *)
Lemma map_split sh i : 3 ≤ sh < 6 → 0 ≤ i < count sh ↔ 0 ≤ i / 64 < map_words sh ∧ 0 ≤ i mod 64 < 64.
Proof.
  intros Hsh. destruct (count_bounds sh ltac:(lia)) as (_ & _ & _ & _ & Hs). destruct Hs as (-> & Hw & _); [lia|].
  pose proof (split64 i). lia.
Qed.

Lemma map_full m sh used :
  3 ≤ sh < 6 → 0 ≤ used < 2 ^ count sh → map_ok m sh used →
  (full sh used ↔ ∀ k, 0 ≤ k < map_words sh → word m k = NCX_SLAB_BUSY).
Proof.
  intros Hsh Hu (Hw & Hl & Hb). rewrite full_bits by (lia || done).
  destruct (count_bounds sh ltac:(lia)) as (_ & _ & _ & _ & Hs). destruct Hs as (Hc & _); [lia|]. split.
  - intros H k Hk. apply busy_bits; [by apply word_range|]. intros i Hi.
    rewrite <- test_bit_word, Hb by lia. apply H. lia.
  - intros H i Hi. rewrite <- Hb by done. unfold test_bit. apply (map_split sh i Hsh) in Hi as [H1 H2].
    rewrite H by done. assert (Hr : 0 ≤ NCX_SLAB_BUSY < 2 ^ 64) by done. by apply (proj1 (busy_bits _ Hr) eq_refl).
Qed.

(** Writing one word of the bitmap. *)
Lemma map_update m sh used used' n w :
  3 ≤ sh < 6 → map_ok m sh used → 0 ≤ n < map_words sh → 0 ≤ w < 2 ^ 64 →
  (∀ j, 0 ≤ j < 64 → Z.testbit used' (n * 64 + j) = Z.testbit w j) →
  (∀ i, 0 ≤ i < count sh → i / 64 ≠ n → Z.testbit used' i = Z.testbit used i) →
  map_ok (set_word m n w) sh used'.
Proof.
  intros Hsh (Hm & Hl & Hb) Hn Hw H1 H2. split; [|split].
  - by apply Forall_alter.
  - by rewrite set_word_length.
  - intros i Hi. pose proof (proj1 (map_split sh i Hsh) Hi) as [Hk Hj]. unfold test_bit.
    rewrite set_word_word by lia. destruct (Z.eqb_spec (i / 64) n) as [<-|Hne].
    + rewrite <- H1 by done. f_equal. pose proof (split64 i). lia.
    + rewrite H2 by done. by rewrite <- Hb.
Qed.

Lemma map_word_bits m sh used n j :
  3 ≤ sh < 6 → map_ok m sh used → 0 ≤ n < map_words sh → 0 ≤ j < 64 →
  Z.testbit (word m n) j = Z.testbit used (n * 64 + j) ∧ 0 ≤ n * 64 + j < count sh.
Proof.
  intros Hsh (_ & _ & Hb) Hn Hj. destruct (count_bounds sh ltac:(lia)) as (_ & _ & _ & _ & Hs).
  destruct Hs as (Hc & _); [lia|]. split; [|lia]. rewrite <- Hb by lia. by rewrite test_bit_word.
Qed.

Lemma set_range w i : 0 ≤ w < 2 ^ 64 → 0 ≤ i < 64 → 0 ≤ Z.setbit w i < 2 ^ 64.
Proof.
  intros Hw Hi. assert (0 ≤ Z.setbit w i) by (rewrite <- lor_setbit by lia; apply Z.lor_nonneg; split; [lia|apply Z.pow_nonneg; lia]).
  apply pow2_range; [lia|done|]. intros j Hj. rewrite setbit_bits by lia. destruct (Z.eqb_spec j i); [lia|].
  apply (pow2_range w 64); lia.
Qed.

Lemma clear_range w i : 0 ≤ w < 2 ^ 64 → 0 ≤ i → 0 ≤ Z.clearbit w i < 2 ^ 64.
Proof. intros Hw Hi. apply (clearbit_range 6 w i); done || lia. Qed.

Lemma map_set m sh used n j :
  3 ≤ sh < 6 → map_ok m sh used → 0 ≤ n < map_words sh → 0 ≤ j < 64 →
  map_ok (set_word m n (Z.setbit (word m n) j)) sh (Z.setbit used (n * 64 + j)).
Proof.
  intros Hsh Hm Hn Hj. pose proof (word_range m n (proj1 Hm)) as Hw.
  apply (map_update _ _ used); [done|done|done|by apply set_range| |].
  - intros i Hi. rewrite !setbit_bits by lia. rewrite (proj1 (map_word_bits m sh used n i Hsh Hm Hn Hi)). f_equal.
    destruct (Z.eqb_spec (n * 64 + i) (n * 64 + j)), (Z.eqb_spec i j); done || lia.
  - intros i Hi Hne. rewrite setbit_bits by lia. destruct (Z.eqb_spec i (n * 64 + j)) as [->|]; [|done].
    exfalso. apply Hne. rewrite Z.div_add_l, Z.div_small by lia. lia.
Qed.

Lemma map_clear m sh used n j :
  3 ≤ sh < 6 → map_ok m sh used → 0 ≤ n < map_words sh → 0 ≤ j < 64 →
  map_ok (set_word m n (Z.clearbit (word m n) j)) sh (Z.clearbit used (n * 64 + j)).
Proof.
  intros Hsh Hm Hn Hj. pose proof (word_range m n (proj1 Hm)) as Hw.
  apply (map_update _ _ used); [done|done|done|by apply clear_range; [|lia]| |].
  - intros i Hi. rewrite !clearbit_bits by lia. rewrite (proj1 (map_word_bits m sh used n i Hsh Hm Hn Hi)). f_equal. f_equal.
    destruct (Z.eqb_spec (n * 64 + i) (n * 64 + j)), (Z.eqb_spec i j); done || lia.
  - intros i Hi Hne. rewrite clearbit_bits by lia. destruct (Z.eqb_spec i (n * 64 + j)) as [->|]; [|done].
    exfalso. apply Hne. rewrite Z.div_add_l, Z.div_small by lia. lia.
Qed.

(** [i = ((n * 64) << shift) + (i << shift)]. *)
Lemma small_off sh n i :
  3 ≤ sh < 6 → 0 ≤ n → 0 ≤ i → n * 64 + i < count sh →
  shl64 (n * 8 * 8) sh + shl64 i sh = (n * 64 + i) * 2 ^ sh.
Proof. intros. rewrite !shl_chunk by lia. lia. Qed.

Lemma slab_small sh u u' : sh < 6 → slab_of sh u = slab_of sh u'.
Proof. intros H. unfold slab_of. by destruct (Z.ltb_spec sh 6); [|lia]. Qed.

Lemma small_ok s L1 sh used L2 lst fuel :
  inv s (L1 ++ ChunkSeg sh used :: L2) lst → sh < 6 → ¬ full sh used →
  took (small_loop sh (PageP (pages_in L1)) (S fuel) s) s L1 sh used L2.
Proof.
  intros Hi H6 Hf. destruct (chunk_page _ _ _ _ _ _ Hi) as (Hg & [Hsb Hmap] & _). pose proof Hg as (Hsh & Hu & _).
  destruct (Hmap H6) as (m & Em & Hm). assert (Hs : 3 ≤ sh < 6) by lia.
  pose proof (map_full m sh used Hs Hu Hm) as Hfull.
  destruct (count_bounds sh Hsh) as (_ & _ & _ & _ & Hs'). destruct (Hs' H6) as (Hc & Hw1 & _).
  cbn [small_loop]. rewrite bind_run with (a := pages_in L1) (s' := s) by done.
  rewrite bind_run with (a := m) (s' := s) by (unfold get_map; by rewrite Em).
  destruct (find_word m 0 (Z.to_nat (map_words sh))) as [n|] eqn:En.
  2:{ destruct Hf. apply Hfull. intros k Hk. rewrite find_word_none in En. apply En. lia. }
  apply find_word_some in En as (Hn & Hnb & Hlow). rewrite Z2Nat.id in Hn by lia. rewrite Z.add_0_l in Hn.
  destruct (first_zero_ok (word m n) (word_range _ _ (proj1 Hm)) Hnb) as [Hz Ht]. set (i := first_zero (word m n)) in *.
  destruct (map_word_bits m sh used n i Hs Hm Hn Hz) as [Hbit Hrange]. rewrite Ht in Hbit. symmetry in Hbit.
  pose proof (setbit_seg _ _ (n * 64 + i) Hg Hrange) as Hg'. pose proof (map_set m sh used n i Hs Hm Hn Hz) as Hm'.
  rewrite lor_setbit by lia. set (m' := set_word m n (Z.setbit (word m n) i)) in *.
  rewrite bind_run with (a := tt) (s' := set_maps <[pages_in L1 := m']> s) by done.
  pose proof (hole_map _ _ _ _ _ m' (inv_hole _ _ _ _ _ Hi)) as Hh.
  edestruct (settle_ok _ L1 sh used (Z.setbit used (n * 64 + i)) L2 lst
    ((word m' n =? NCX_SLAB_BUSY) && bool_decide (find_word m' (n + 1) (Z.to_nat (map_words sh - (n + 1))) = None)) Hh Hf Hg')
    as (s' & lst' & Es & Hi' & Hsame).
  { rewrite andb_true_iff, Z.eqb_eq, bool_decide_eq_true, find_word_none. destruct Hg' as (_ & Hu' & _).
    rewrite (map_full m' sh _ Hs Hu' Hm'). split.
    - intros [H1 H2] k Hk. destruct (decide (k < n)) as [Hlt|].
      + unfold m'. rewrite set_word_word by (rewrite ?(proj1 (proj2 Hm)); lia).
        destruct (Z.eqb_spec k n); [lia|]. apply Hlow. lia.
      + destruct (decide (k = n)) as [->|]; [done|]. apply H2. lia.
    - intros H. split; [by apply H|]. intros k Hk. apply H. lia. }
  { split; [rewrite (slab_small sh _ used) by done; exact Hsb|]. intros _. exists m'. split; [apply lookup_insert_eq|done]. }
  assert (Hty : type_of sh = NCX_SLAB_SMALL) by (unfold type_of; destruct (Z.ltb_spec sh 6); [done|lia]).
  rewrite Hty in Es. rewrite (bind_run _ _ _ _ _ Es). rewrite bind_run with (a := s') (s' := s') by done.
  rewrite small_off by lia. eapply took_at; [exact Hi'|exact Hsame|done|lia|done|reflexivity].
Qed.
