(* ===== verification/SlabNew.v ===== *)
(** * SlabNew: lists of pages with free chunks, and new pages

    The list of a size is empty exactly if every page of that size is full;
    a new page enters the empty list of its size. *)
From Stdlib Require Import ZArith Lia.
From stdpp Require Import base numbers list gmap strings.
From S2P Require Import Prelude Util Bitmap BitmapOps Slab SlabLink SlabOk SlabFree SlabChunk SlabAlloc.

(** ** The list of a size *)
Lemma slot_of_inj sh sh' : 3 ≤ sh → 3 ≤ sh' → slot_of sh = slot_of sh' → sh = sh'.
Proof. unfold slot_of. intros H1 H2 [= E]. lia. Qed.

(** A page in the list of a size. *)
Lemma slot_page s L lst sh k :
  inv s L lst → 3 ≤ sh ≤ 11 → k ∈ lst (slot_of sh) →
  ∃ L1 used L2, L = L1 ++ ChunkSeg sh used :: L2 ∧ k = pages_in L1 ∧ ¬ full sh used.
Proof.
  intros Hi Hsh Hk. destruct (i_links _ _ _ Hi _ (sentinel_slot sh Hsh)) as (_ & _ & Hh).
  apply Hh in Hk. unfold home_of in Hk. destruct (kinds L !! k) as [kd|] eqn:E; [|done].
  destruct kd as [n| |n| |sh' used]; simpl in Hk; try done. case_decide as Hf; [done|]. injection Hk as Hk.
  destruct (chunk_split L k sh' used (i_segs _ _ _ Hi) E) as (L1 & L2 & -> & ->).
  pose proof (i_segs _ _ _ Hi) as HF. apply Forall_app in HF as [_ HF]. apply Forall_cons in HF as [(Hsh' & _) _].
  assert (sh' = sh) as -> by lia. eauto 10.
Qed.

Lemma slot_empty s L lst sh used :
  inv s L lst → 3 ≤ sh ≤ 11 → lst (slot_of sh) = [] → ChunkSeg sh used ∈ L → full sh used.
Proof.
  intros Hi Hsh Hl Hin. apply list_elem_of_split in Hin as (L1 & L2 & ->).
  destruct (decide (full sh used)) as [|Hf]; [done|]. exfalso.
  destruct (i_links _ _ _ Hi _ (sentinel_slot sh Hsh)) as (_ & _ & Hh).
  assert (Hk : pages_in L1 ∈ lst (slot_of sh)).
  { apply Hh. rewrite home_first.
    - simpl. by rewrite decide_False.
    - pose proof (i_segs _ _ _ Hi) as HF. apply Forall_app in HF as [_ HF]. by inversion HF. }
  rewrite Hl in Hk. by apply elem_of_nil in Hk.
Qed.

Lemma slot_still_empty s L lst s' L' lst' sh :
  inv s L lst → inv s' L' lst' → 3 ≤ sh ≤ 11 → lst (slot_of sh) = [] →
  (∀ used, ChunkSeg sh used ∈ L' → ChunkSeg sh used ∈ L) → lst' (slot_of sh) = [].
Proof.
  intros Hi Hi' Hsh Hl Hsub. destruct (lst' (slot_of sh)) as [|k ks] eqn:E; [done|]. exfalso.
  destruct (slot_page s' L' lst' sh k Hi' Hsh) as (L1 & used & L2 & -> & _ & Hf); [rewrite E; by left|].
  apply Hf. apply (slot_empty s L lst sh used Hi Hsh Hl), Hsub. set_solver.
Qed.

(** ** A page becomes a page of chunks *)

(** The set of chunks of a new page: its bitmap and one chunk. *)
Definition first_used (sh : Z) : Z := Z.ones (reserved sh + 1).

Lemma reserved_two sh : 3 ≤ sh ≤ 11 → 0 ≤ reserved sh ∧ reserved sh + 2 ≤ count sh.
Proof.
  intros Hsh. pose proof (shift_check (λ sh, (0 <=? reserved sh) && (reserved sh + 2 <=? count sh)) sh eq_refl Hsh) as H.
  apply andb_true_iff in H as [?%Z.leb_le ?%Z.leb_le]. lia.
Qed.

Lemma first_used_ok sh : 3 ≤ sh ≤ 11 → seg_ok (ChunkSeg sh (first_used sh)) ∧ ¬ full sh (first_used sh).
Proof.
  intros Hsh. pose proof (reserved_two sh Hsh) as [Hr Hc]. unfold first_used. split.
  - split; [done|]. split; [|split].
    + rewrite Z.ones_equiv. pose proof (Z.pow_le_mono_r 2 (reserved sh + 1) (count sh)).
      pose proof (Z.pow_pos_nonneg 2 (reserved sh + 1)). lia.
    + intros i Hi. apply Z.ones_spec_low. lia.
    + exists (reserved sh). split; [lia|]. apply Z.ones_spec_low. lia.
  - intros Hf. pose proof (Z.ones_spec_high (reserved sh + 1) (reserved sh + 1) ltac:(lia)) as H.
    unfold full in Hf. rewrite Hf, Z.ones_spec_low in H by lia. done.
Qed.

Lemma open_ok s L1 sh used L2 lst pg :
  hole s L1 (RunSeg 1) L2 lst → 3 ≤ sh ≤ 11 → lst (slot_of sh) = [] →
  seg_ok (ChunkSeg sh used) → ¬ full sh used →
  nodes s !! PageP (pages_in L1) = Some pg →
  (sh < 6 → ∃ m, maps s !! pages_in L1 = Some m ∧ map_ok m sh used) →
  let s1 := set_nodes <[PageP (pages_in L1) := mkPage (slab_of sh used) (slot_of sh) (slot_of sh, type_of sh)]> s in
  ∃ sl lst', nodes s1 !! slot_of sh = Some sl
    ∧ inv (set_nodes <[slot_of sh := set_next (PageP (pages_in L1)) sl]> s1) (L1 ++ ChunkSeg sh used :: L2) lst'.
Proof.
  intros Hh Hsh Hempty Hg' Hf' E Hm s1. destruct (hole_seg _ _ _ _ _ Hh) as (Hg & HL1 & HL2).
  set (k := pages_in L1) in *. pose proof (sentinel_slot sh Hsh) as Hs.
  pose proof (links_first _ _ _ _ (h_links _ _ _ _ _ Hh) Hs) as Hnx. rewrite Hempty in Hnx.
  change (behind (slot_of sh) []) with (slot_of sh) in Hnx.
  assert (Hne : slot_of sh ≠ PageP k) by done.
  unfold nx in Hnx. destruct (nodes s !! slot_of sh) as [sl|] eqn:Esl; [|done]. simpl in Hnx. injection Hnx as Hnx.
  exists sl, (upd lst (slot_of sh) (k :: lst (slot_of sh))).
  assert (Es1 : nodes s1 !! slot_of sh = Some sl) by (cbn [s1 nodes set_nodes]; by rewrite lookup_insert_ne).
  split; [done|]. set (nd := <[slot_of sh := set_next (PageP k) sl]> (nodes s1)).
  assert (Hk0 : nd !! PageP k = Some (mkPage (slab_of sh used) (slot_of sh) (slot_of sh, type_of sh))).
  { unfold nd. rewrite lookup_insert_ne by done. apply lookup_insert_eq. }
  assert (Hs0 : nd !! slot_of sh = Some (set_next (PageP k) sl)) by apply lookup_insert_eq.
  assert (Ho : ∀ q, q ≠ PageP k → q ≠ slot_of sh → nd !! q = nodes s !! q).
  { intros q H1 H2. unfold nd. cbn [s1 nodes set_nodes]. by rewrite !lookup_insert_ne. }
  assert (Hpage : pages_in (L1 ++ ChunkSeg sh used :: L2) = pages_in (L1 ++ RunSeg 1 :: L2))
    by (by rewrite !pages_app, !pages_cons).
  assert (Hhome : home_of (L1 ++ RunSeg 1 :: L2) k = None) by (unfold k; by rewrite home_first).
  destruct Hh as [G1 G2 G3 G4 G5 G6 G7]. constructor; try done.
  - by rewrite Hpage.
  - apply Forall_app. split; [done|]. by constructor.
  - intros j kd Hj. destruct (decide (j = k)) as [->|Hjk].
    + unfold k in Hj. rewrite kinds_head in Hj by done. simpl in Hj. injection Hj as <-. fold k.
      split; [unfold sb; change (nd !! PageP k) with (nd !! PageP k); cbn [nodes set_nodes]; fold nd; by rewrite Hk0|].
      split; [done|exact Hm].
    + rewrite (kinds_outside L1 (RunSeg 1)) in Hj by (done || (fold k; simpl; lia)).
      eapply kind_ok_frame; [apply G5; [fold k; simpl; lia|done]|done|]. left. apply Ho; [congruence|done].
  - eapply links_home; [apply (links_push (nodes s) nd _ lst (slot_of sh) k G7 Hs Hhome)|].
    + intros q. rewrite (links_first _ _ _ _ G7 Hs), Hempty. change (behind (slot_of sh) []) with (slot_of sh). unfold nx.
      destruct (decide (q = slot_of sh)) as [->|H1]; [by rewrite Hs0|].
      destruct (decide (q = PageP k)) as [->|H2]; [by rewrite Hk0|by rewrite Ho].
    + intros q Hq. rewrite (links_first _ _ _ _ G7 Hs), Hempty. change (behind (slot_of sh) []) with (slot_of sh). unfold pv.
      destruct (decide (q = PageP k)) as [->|H2]; [by rewrite Hk0, tag_slot|].
      rewrite decide_False by congruence. by rewrite Ho.
    + intros j. cbv beta. destruct (decide (j = k)) as [->|].
      * unfold k. rewrite home_first by done. simpl. by rewrite decide_False.
      * symmetry. apply home_outside; try done. fold k. simpl. lia.
Qed.

(** The bitmap of a new page of small chunks. *)
Lemma new_map_ok sh :
  3 ≤ sh < 6 →
  map_ok ((shl64 2 (map_chunks sh) - 1) :: replicate (Z.to_nat (map_words sh - 1)) 0) sh (first_used sh).
Proof.
  intros Hsh. destruct (count_bounds sh ltac:(lia)) as (_ & _ & _ & _ & Hs).
  destruct Hs as (Hc & Hw & Hm1 & Hres & Hm2); [lia|]. pose proof (reserved_two sh ltac:(lia)) as [_ Hr2].
  assert (E : shl64 2 (map_chunks sh) - 1 = Z.ones (map_chunks sh + 1)).
  { assert (sh = 3 ∨ sh = 4 ∨ sh = 5) as [->|[->| ->]] by lia; reflexivity. }
  rewrite E. unfold first_used. rewrite Hres. set (n := map_chunks sh) in *.
  assert (Hones : 0 ≤ Z.ones (n + 1) < 2 ^ 64).
  { rewrite Z.ones_equiv. pose proof (Z.pow_le_mono_r 2 (n + 1) 64). pose proof (Z.pow_pos_nonneg 2 (n + 1)). lia. }
  split; [|split].
  - constructor; [done|]. by apply Forall_replicate.
  - cbn [length]. rewrite length_replicate. lia.
  - intros i Hi. pose proof (split64 i) as [Ei Hmod]. unfold test_bit, word. destruct (decide (i < 64)).
    + rewrite Z.div_small, Z.mod_small by lia. done.
    + pose proof (Z.div_le_lower_bound i 64 1 ltac:(lia) ltac:(lia)).
      replace (Z.to_nat (i / 64)) with (S (Z.to_nat (i / 64 - 1))) by lia.
      rewrite list_lookup_total_alt. rewrite lookup_cons_ne_0 by done. cbn [pred].
      rewrite Z.ones_spec_high by lia.
      pose proof (proj1 (map_split sh i Hsh) Hi) as [Hi64 _].
      rewrite lookup_replicate_2 by lia. exact (Z.bits_0 _).
Qed.

(** The entry that [new_chunk_page] writes, for the three types of page. *)
Lemma new_slab sh :
  3 ≤ sh ≤ 11 →
  slab_of sh (first_used sh) =
    if sh <? 6 then sh else if sh =? 6 then 1 else Z.lor (shl64 1 NCX_SLAB_MAP_SHIFT) sh.
Proof.
  intros Hsh. pose proof (shift_check (λ sh, slab_of sh (first_used sh) =?
    (if sh <? 6 then sh else if sh =? 6 then 1 else Z.lor (shl64 1 NCX_SLAB_MAP_SHIFT) sh)) sh eq_refl Hsh) as H.
  by apply Z.eqb_eq in H.
Qed.

Lemma new_offset sh : 3 ≤ sh < 6 → 2 ^ sh * map_chunks sh = reserved sh * 2 ^ sh.
Proof. intros. unfold reserved. destruct (Z.ltb_spec sh 6); lia. Qed.

(** The last writes of [new_chunk_page]. *)
Lemma install_ok s L1 sh L2 lst :
  hole s L1 (RunSeg 1) L2 lst → 3 ≤ sh ≤ 11 → lst (slot_of sh) = [] →
  (sh < 6 → ∃ m, maps s !! pages_in L1 = Some m ∧ map_ok m sh (first_used sh)) →
  ∃ s' lst', (∀ p : Z,
      (put (PageP (pages_in L1)) (λ _, mkPage (slab_of sh (first_used sh)) (slot_of sh) (slot_of sh, type_of sh));;
       put (slot_of sh) (set_next (PageP (pages_in L1)));; mret p) s = Ok (p, s'))
    ∧ inv s' (L1 ++ ChunkSeg sh (first_used sh) :: L2) lst' ∧ same_pool s s'.
Proof.
  intros Hh Hsh Hempty Hmap. destruct (first_used_ok sh Hsh) as [Hg' Hf'].
  destruct (h_page _ _ _ _ _ Hh (pages_in L1)) as [pg Epg]; [rewrite pages_app, pages_cons by (simpl; lia); simpl; lia|].
  destruct (open_ok s L1 sh (first_used sh) _ lst pg Hh Hsh Hempty Hg' Hf' Epg Hmap) as (sl & lst' & Esl & Hi).
  eexists _, lst'. split; [|split; [exact Hi|done]]. intros p. rewrite (put_run _ pg) by done. by rewrite (put_run _ sl) by done.
Qed.

(** No memory, or the first page of the first free run. *)
Lemma new_page_ok s L lst sh :
  inv s L lst → 3 ≤ sh ≤ 11 → lst (slot_of sh) = [] →
  (new_chunk_page (Z.to_nat (sh - 3)) sh s = Ok (0, s) ∧ ∀ m, FreeSeg m ∉ L)
  ∨ ∃ L1 m L2 s' lst', L = L1 ++ FreeSeg m :: L2 ∧ (1 ≤ m)%nat
      ∧ new_chunk_page (Z.to_nat (sh - 3)) sh s = Ok (chunk_addr s (pages_in L1) sh (reserved sh), s')
      ∧ inv s' (L1 ++ ChunkSeg sh (first_used sh) :: rest m 1 ++ L2) lst' ∧ same_pool s s'.
Proof.
  intros Hi Hsh Hempty. unfold new_chunk_page. change 1 with (Z.of_nat 1) at 1 3.
  destruct (alloc_pages_ok s L lst 1 Hi) as [[E Hno]|(L1 & m & L2 & nd & lst' & HL & Hm & E & Hi')]; [done| |].
  - left. rewrite (bind_run _ _ _ _ _ E). split; [done|]. intros m Hin. specialize (Hno m Hin).
    apply list_elem_of_split in Hin as (A & B & ->). pose proof (i_segs _ _ _ Hi) as HF.
    apply Forall_app in HF as [_ HF]. apply Forall_cons in HF as [HF _]. simpl in HF. lia.
  - right. exists L1, m, L2. set (k := pages_in L1) in *. rewrite (bind_run _ _ _ _ _ E).
    cbn [page_index]. rewrite bind_run with (a := k) (s' := on nd s) by done.
    rewrite bind_run with (a := on nd s) (s' := on nd s) by done.
    assert (Hempty' : lst' (slot_of sh) = []).
    { eapply (slot_still_empty s L lst (on nd s)); [done|exact Hi'|done|done|]. intros used. rewrite HL. unfold rest.
      case_decide; set_solver. }
    pose proof (inv_hole _ _ _ _ _ Hi') as Hh.
    assert (Hadd : ∀ off, addr_of (on nd s) k off = start s + Z.of_nat k * 4096 + off).
    { intros off. apply (addr_of_ok (on nd s) _ lst' k off Hi').
      rewrite pages_app, pages_cons by (simpl; lia). unfold k. simpl. lia. }
    change (SlotP (Z.to_nat (sh - 3))) with (slot_of sh). change ncx_slab_exact_shift with 6.
    pose proof (new_slab sh Hsh) as Enew. unfold chunk_addr.
    destruct (Z.ltb_spec sh 6) as [H6|H6].
    + set (mp := (shl64 2 (map_chunks sh) - 1) :: _). set (s0 := set_maps <[k := mp]> (on nd s)).
      rewrite bind_run with (a := tt) (s' := s0) by done.
      destruct (install_ok s0 L1 sh (rest m 1 ++ L2) lst') as (s' & lst'' & Er & Hi2 & Hsame); [by apply hole_map|done|done| |].
      { intros _. exists mp. split; [apply lookup_insert_eq|]. apply new_map_ok. lia. }
      exists s', lst''. split; [done|]. split; [done|]. split; [|done].
      rewrite Enew in Er. unfold type_of in Er. destruct (Z.ltb_spec sh 6); [|lia]. rewrite Er.
      rewrite Hadd, new_offset by lia. done.
    + destruct (install_ok (on nd s) L1 sh (rest m 1 ++ L2) lst') as (s' & lst'' & Er & Hi2 & Hsame); [done|done|done|lia|].
      exists s', lst''. rewrite Enew in Er. unfold type_of in Er. destruct (Z.ltb_spec sh 6); [lia|].
      assert (Hr0 : reserved sh = 0) by (unfold reserved; destruct (Z.ltb_spec sh 6); [lia|done]). rewrite Hr0.
      destruct (Z.eqb_spec sh 6); rewrite Er, Hadd; done.
Qed.

(** ** The size class *)
Lemma shift_loop_log n r fuel : 0 < n → Z.log2 n < Z.of_nat fuel → shift_loop n r fuel = r + Z.log2 n.
Proof.
  revert n r. induction fuel as [|fuel IH]; intros n r Hn Hf; [pose proof (Z.log2_nonneg n); lia|].
  cbn [shift_loop]. rewrite shr64_div by lia. change (2 ^ 1) with 2. destruct (Z.eqb_spec (n / 2) 0) as [E|E].
  - pose proof (Z.div_mod n 2 ltac:(lia)). pose proof (Z.mod_pos_bound n 2 ltac:(lia)). assert (n = 1) as -> by lia.
    change (Z.log2 1) with 0. lia.
  - pose proof (Z.div_pos n 2 ltac:(lia) ltac:(lia)).
    assert (Hlog : Z.log2 n = Z.succ (Z.log2 (n / 2))).
    { destruct (Z.even n) eqn:Ev.
      - rewrite (Z.div_mod n 2) at 1 by lia. rewrite Zmod_even, Ev, Z.add_0_r. apply Z.log2_double. lia.
      - rewrite (Z.div_mod n 2) at 1 by lia. rewrite Zmod_even, Ev. apply Z.log2_succ_double. lia. }
    rewrite IH by lia. lia.
Qed.

Lemma size_class_ok s L lst n :
  inv s L lst → 0 ≤ n < 2048 →
  ∃ sh, size_class s n = (sh, Z.to_nat (sh - 3)) ∧ 3 ≤ sh ≤ 11 ∧ n ≤ 2 ^ sh ∧ (3 < sh → 2 ^ (sh - 1) < n).
Proof.
  intros Hi Hn. destruct (i_min _ _ _ Hi) as [Hs Hm]. unfold size_class. rewrite Hs, Hm.
  destruct (Z.ltb_spec 8 n).
  - exists (shift_loop (n - 1) 1 64). split; [done|]. pose proof (Z.log2_spec (n - 1) ltac:(lia)) as Hlog.
    pose proof (Z.log2_lt_pow2 (n - 1) 11 ltac:(lia)) as Hup. pose proof (Z.log2_le_pow2 (n - 1) 3 ltac:(lia)) as Hlow.
    rewrite shift_loop_log by lia. replace (Z.succ (Z.log2 (n - 1))) with (1 + Z.log2 (n - 1)) in Hlog by lia.
    assert (Z.log2 (n - 1) < 11) by (apply Hup; lia). assert (3 ≤ Z.log2 (n - 1)) by (apply Hlow; lia).
    split; [lia|]. split; [lia|]. intros _. replace (1 + Z.log2 (n - 1) - 1) with (Z.log2 (n - 1)) by lia. lia.
  - exists 3. split; [done|]. split; [lia|]. change (2 ^ 3) with 8. split; [lia|]. lia.
Qed.
