(* ===== verification/SlabMalloc.v ===== *)
(** * SlabMalloc: [ncx_slab_alloc_locked] on layouts

    An allocation takes a block out of the layout: pages at the start of a
    free run, a free chunk of a page, or the first chunk of a new page. *)
From Stdlib Require Import ZArith Lia.
From stdpp Require Import base numbers list gmap strings.
From S2P Require Import Prelude Util Bitmap BitmapOps Slab SlabLink SlabOk SlabFree SlabChunk SlabAlloc SlabNew.

(** ** Taking a block *)

(** The layout, the offset and the size of the block, and the layout after. *)
Inductive take_block : list seg → Z → Z → list seg → Prop :=
  | take_run L1 m n L2 :
      (1 ≤ n ≤ m)%nat →
      take_block (L1 ++ FreeSeg m :: L2) (4096 * Z.of_nat (pages_in L1)) (4096 * Z.of_nat n)
        (L1 ++ RunSeg n :: rest m n ++ L2)
  | take_chunk L1 sh used i L2 :
      seg_ok (ChunkSeg sh used) → reserved sh ≤ i < count sh → Z.testbit used i = false →
      take_block (L1 ++ ChunkSeg sh used :: L2) (4096 * Z.of_nat (pages_in L1) + i * 2 ^ sh) (2 ^ sh)
        (L1 ++ ChunkSeg sh (Z.setbit used i) :: L2)
  | take_new L1 m sh L2 :
      (1 ≤ m)%nat → 3 ≤ sh ≤ 11 →
      take_block (L1 ++ FreeSeg m :: L2) (4096 * Z.of_nat (pages_in L1) + reserved sh * 2 ^ sh) (2 ^ sh)
        (L1 ++ ChunkSeg sh (first_used sh) :: rest m 1 ++ L2).

(** The size class of a small request. *)
Definition class_of (n sh : Z) : Prop := 3 ≤ sh ≤ 11 ∧ n ≤ 2 ^ sh ∧ (3 < sh → 2 ^ (sh - 1) < n).

Lemma class_unique n sh sh' : class_of n sh → class_of n sh' → sh = sh'.
Proof.
  intros (H1 & H2 & H3) (H1' & H2' & H3'). destruct (Z.lt_trichotomy sh sh') as [Hlt|[|Hlt]]; [|done|].
  - specialize (H3' ltac:(lia)). pose proof (Z.pow_le_mono_r 2 sh (sh' - 1)). lia.
  - specialize (H3 ltac:(lia)). pose proof (Z.pow_le_mono_r 2 sh' (sh - 1)). lia.
Qed.

(** No free run is long enough, and every page of the class is full. *)
Definition no_room (L : list seg) (n : Z) : Prop :=
  (∀ m, FreeSeg m ∈ L → 4096 * Z.of_nat m < n)
  ∧ (n < 2048 → ∀ sh used, class_of n sh → ChunkSeg sh used ∈ L → full sh used).

Definition allocated (r : outcome (Z * pool)) (s : pool) (L : list seg) (n : Z) : Prop :=
  ∃ off b L' s' lst', r = Ok (start s + off, s') ∧ take_block L off b L' ∧ n ≤ b ∧ inv s' L' lst' ∧ same_pool s s'.

Lemma pages_for n : 2048 ≤ n < 2 ^ 64 →
  ∃ c, shr64 n ncx_pagesize_shift + (if n mod ncx_pagesize =? 0 then 0 else 1) = Z.of_nat c
    ∧ (1 ≤ c)%nat ∧ n ≤ 4096 * Z.of_nat c < n + 4096.
Proof.
  intros Hn. change ncx_pagesize with 4096. change ncx_pagesize_shift with 12. rewrite shr64_div by lia.
  change (2 ^ 12) with 4096. pose proof (Z.div_mod n 4096 ltac:(lia)). pose proof (Z.mod_pos_bound n 4096 ltac:(lia)).
  destruct (Z.eqb_spec (n mod 4096) 0).
  - exists (Z.to_nat (n / 4096)). lia.
  - exists (Z.to_nat (n / 4096 + 1)). lia.
Qed.

Lemma ret_eq (a b : Z) (s : pool) : a = b → (mret a : M pool Z) s = Ok (b, s).
Proof. by intros ->. Qed.

(** Requests of half a page and more. *)
Lemma alloc_large s L lst n :
  inv s L lst → 2048 ≤ n < 2 ^ 64 →
  (ncx_slab_alloc_locked n s = Ok (0, s) ∧ no_room L n) ∨ allocated (ncx_slab_alloc_locked n s) s L n.
Proof.
  intros Hi Hn. unfold ncx_slab_alloc_locked. rewrite bind_run with (a := s) (s' := s) by done.
  change ncx_slab_max_size with 2048. destruct (Z.leb_spec 2048 n); [|lia].
  destruct (pages_for n Hn) as (c & -> & Hc & Hcn).
  destruct (alloc_pages_ok s L lst c Hi Hc) as [[E Hno]|(L1 & m & L2 & nd & lst' & -> & Hm & E & Hi')];
    rewrite (bind_run _ _ _ _ _ E).
  - left. split; [done|]. split; [|lia]. intros m Hm%Hno. lia.
  - right. cbn [page_index]. rewrite bind_run with (a := pages_in L1) (s' := on nd s) by done.
    rewrite bind_run with (a := on nd s) (s' := on nd s) by done.
    rewrite (addr_of_ok _ _ _ _ _ Hi') by (rewrite pages_app, pages_cons by (simpl; lia); simpl; lia).
    exists (4096 * Z.of_nat (pages_in L1)), (4096 * Z.of_nat c), (L1 ++ RunSeg c :: rest m c ++ L2), (on nd s), lst'.
    split; [apply ret_eq; cbn [start set_nodes]; lia|]. split; [apply take_run; lia|]. split; [lia|done].
Qed.

(** A chunk from the first page of the list of its size. *)
Lemma find_chunk_ok s L lst sh k ks pg :
  inv s L lst → 3 ≤ sh ≤ 11 → lst (slot_of sh) = k :: ks → nodes s !! PageP k = Some pg →
  ∃ L1 used L2, L = L1 ++ ChunkSeg sh used :: L2 ∧ k = pages_in L1
    ∧ took ((if sh <? ncx_slab_exact_shift then small_loop sh (PageP k) (size (nodes s))
             else if sh =? ncx_slab_exact_shift then exact_loop sh (PageP k) (size (nodes s))
             else big_loop sh (big_mask (slab pg)) (PageP k) (size (nodes s))) s) s L1 sh used L2.
Proof.
  intros Hi Hsh El E. pose proof (list_fuel s L lst _ Hi (sentinel_slot sh Hsh)) as Hfuel. rewrite El in Hfuel.
  destruct (size (nodes s)) as [|fuel]; [simpl in Hfuel; lia|].
  destruct (slot_page s L lst sh k Hi Hsh) as (L1 & used & L2 & -> & -> & Hf); [rewrite El; by left|].
  exists L1, used, L2. split; [done|]. split; [done|]. change ncx_slab_exact_shift with 6.
  destruct (Z.ltb_spec sh 6); [by eapply small_ok|].
  destruct (Z.eqb_spec sh 6) as [->|]; [by eapply exact_ok|].
  destruct (chunk_page _ _ _ _ _ _ Hi) as (_ & _ & pg' & E' & Eslab). rewrite E in E'. injection E' as <-. rewrite Eslab.
  eapply big_ok; [done|lia|done].
Qed.

Lemma alloc_small s L lst n :
  inv s L lst → 0 ≤ n < 2048 →
  (ncx_slab_alloc_locked n s = Ok (0, s) ∧ no_room L n) ∨ allocated (ncx_slab_alloc_locked n s) s L n.
Proof.
  intros Hi Hn. unfold ncx_slab_alloc_locked. rewrite bind_run with (a := s) (s' := s) by done.
  change ncx_slab_max_size with 2048. destruct (Z.leb_spec 2048 n); [lia|].
  destruct (size_class_ok s L lst n Hi Hn) as (sh & -> & Hcl). pose proof Hcl as (Hsh & Hb & _).
  pose proof (sentinel_slot sh Hsh) as Hs. pose proof (links_first _ _ _ _ (i_links _ _ _ Hi) Hs) as Hnx.
  unfold nx in Hnx. cbv beta iota zeta. change (SlotP (Z.to_nat (sh - 3))) with (slot_of sh).
  destruct (nodes s !! slot_of sh) as [sl|] eqn:Esl; [|done]. simpl in Hnx. injection Hnx as Hnx.
  rewrite (node_run _ sl) by done. rewrite Hnx. destruct (lst (slot_of sh)) as [|k ks] eqn:El.
  - change (behind (slot_of sh) []) with (slot_of sh) in *. rewrite (node_run _ sl) by done.
    rewrite Hnx, bool_decide_eq_true_2 by done. rewrite bind_run with (a := None) (s' := s) by done.
    destruct (new_page_ok s L lst sh Hi Hsh El) as [[E Hno]|(L1 & m & L2 & s' & lst' & -> & Hm & E & Hi' & Hsame)].
    + left. split; [exact E|]. split; [intros m Hm; by apply Hno in Hm|]. intros _ sh' used Hcl' Hin.
      rewrite <- (class_unique n sh sh' Hcl Hcl') in *. by eapply slot_empty.
    + right. unfold allocated. eexists _, (2 ^ sh), _, s', lst'. rewrite E. split; [|split; [by apply take_new|split; [done|done]]].
      unfold chunk_addr. do 2 f_equal. lia.
  - right. change (behind (slot_of sh) (k :: ks)) with (PageP k) in *.
    destruct (i_links _ _ _ Hi _ Hs) as (Hd & Hnd & Hh). rewrite El in Hd, Hnd, Hh.
    assert (Hk : home_of L k = Some (slot_of sh)) by (apply Hh; by left).
    destruct (inv_node s L lst k Hi) as [pg E]; [by eapply home_in|].
    destruct (links_at _ _ _ _ _ _ (i_links _ _ _ Hi) Hs Hk E) as (a & b & _ & Ea & _ & _ & Hb' & _).
    rewrite (node_run _ pg) by done. rewrite Ea, bool_decide_eq_false_2 by done.
    destruct (find_chunk_ok s L lst sh k ks pg Hi Hsh El E) as (L1 & used & L2 & -> & -> & i & s' & lst' & Er & Hir & Ht & Hi' & Hsame).
    rewrite (bind_run _ _ _ _ _ Er). destruct (chunk_page _ _ _ _ _ _ Hi) as (Hg & _).
    unfold allocated. eexists _, (2 ^ sh), _, s', lst'. split; [|split; [by apply take_chunk|split; [done|done]]].
    apply ret_eq. unfold chunk_addr. lia.
Qed.

Lemma alloc_locked_ok s L lst n :
  inv s L lst → 0 ≤ n < 2 ^ 64 →
  (ncx_slab_alloc_locked n s = Ok (0, s) ∧ no_room L n) ∨ allocated (ncx_slab_alloc_locked n s) s L n.
Proof.
  intros Hi Hn. destruct (decide (n < 2048)); [eapply alloc_small|eapply alloc_large]; done || lia.
Qed.
