(* ===== verification/SlabGive.v ===== *)
(** * SlabGive: [ncx_slab_free_locked] on layouts

    Freeing a block of the layout puts it back: a chunk is cleared in its
    page, and a page without chunks or a run of pages joins the free runs
    beside it. *)
From Stdlib Require Import ZArith Lia.
From stdpp Require Import base numbers list gmap strings.
From S2P Require Import Prelude Util Bitmap BitmapOps Slab SlabLink SlabOk SlabFree SlabChunk SlabAlloc SlabNew SlabMalloc.

(** ** The chunks in use *)
Definition chunks (sh used : Z) : list Z :=
  filter (λ i, Z.testbit used i = true) (seqZ (reserved sh) (count sh - reserved sh)).

Lemma elem_of_chunks sh used i :
  i ∈ chunks sh used ↔ reserved sh ≤ i < count sh ∧ Z.testbit used i = true.
Proof. unfold chunks. rewrite list_elem_of_filter, elem_of_seqZ. split; intros [H1 H2]; (split; [|done || lia]); done || lia. Qed.

Lemma chunks_nodup sh used : NoDup (chunks sh used).
Proof. apply NoDup_filter, NoDup_seqZ. Qed.

Lemma chunks_clear sh used i :
  3 ≤ sh ≤ 11 → i ∈ chunks sh used → chunks sh used ≡ₚ i :: chunks sh (Z.clearbit used i).
Proof.
  intros Hsh Hi. pose proof (reserved_two sh Hsh) as [Hr _]. apply NoDup_Permutation; [apply chunks_nodup| |].
  - constructor; [|apply chunks_nodup]. rewrite elem_of_chunks. apply elem_of_chunks in Hi as [Hi _].
    rewrite clearbit_bits, Z.eqb_refl by lia. by intros [_ ?].
  - intros x. rewrite elem_of_cons, !elem_of_chunks. apply elem_of_chunks in Hi as [Hi Ht]. split.
    + intros [Hx Hb]. destruct (decide (x = i)); [by left|right]. split; [done|]. rewrite clearbit_bits by lia.
      destruct (Z.eqb_spec x i); done.
    + intros [->|[Hx Hb]]; [done|]. split; [done|]. rewrite clearbit_bits in Hb by lia. by apply andb_true_iff in Hb as [_ ?].
Qed.

Lemma chunks_set sh used i :
  3 ≤ sh ≤ 11 → reserved sh ≤ i < count sh → Z.testbit used i = false →
  chunks sh (Z.setbit used i) ≡ₚ i :: chunks sh used.
Proof.
  intros Hsh Hi Ht. pose proof (reserved_two sh Hsh) as [Hr _]. apply NoDup_Permutation; [apply chunks_nodup| |].
  - constructor; [|apply chunks_nodup]. rewrite elem_of_chunks, Ht. by intros [_ ?].
  - intros x. rewrite elem_of_cons, !elem_of_chunks. split.
    + intros [Hx Hb]. destruct (decide (x = i)); [by left|right]. split; [done|]. rewrite setbit_bits in Hb by lia.
      destruct (Z.eqb_spec x i); done.
    + intros [->|[Hx Hb]]; (split; [done|]); rewrite setbit_bits by lia; [by rewrite Z.eqb_refl|]. by rewrite Hb, orb_true_r.
Qed.

Lemma chunks_first sh : 3 ≤ sh ≤ 11 → chunks sh (first_used sh) = [reserved sh].
Proof.
  intros Hsh. pose proof (reserved_two sh Hsh) as [Hr Hc]. apply Permutation_length_1_inv.
  symmetry. apply NoDup_Permutation; [apply chunks_nodup|apply NoDup_singleton|]. intros x.
  rewrite list_elem_of_singleton, elem_of_chunks. unfold first_used. split.
  - intros [Hx Hb]. destruct (decide (x = reserved sh)); [done|]. rewrite Z.ones_spec_high in Hb by lia. done.
  - intros ->. split; [lia|]. apply Z.ones_spec_low. lia.
Qed.

(** ** Giving a block back *)

(** The blocks of a layout that are in use. *)
Inductive block_of : list seg → Z → Z → Prop :=
  | block_run L1 n L2 :
      block_of (L1 ++ RunSeg n :: L2) (4096 * Z.of_nat (pages_in L1)) (4096 * Z.of_nat n)
  | block_chunk L1 sh used i L2 :
      i ∈ chunks sh used →
      block_of (L1 ++ ChunkSeg sh used :: L2) (4096 * Z.of_nat (pages_in L1) + i * 2 ^ sh) (2 ^ sh).

Inductive give_block : list seg → Z → Z → list seg → Prop :=
  | give_run L1 n L2 :
      seg_ok (RunSeg n) →
      give_block (L1 ++ RunSeg n :: L2) (4096 * Z.of_nat (pages_in L1)) (4096 * Z.of_nat n) (freed L1 n L2)
  | give_chunk L1 sh used i L2 :
      seg_ok (ChunkSeg sh used) → i ∈ chunks sh used → chunks sh (Z.clearbit used i) ≠ [] →
      give_block (L1 ++ ChunkSeg sh used :: L2) (4096 * Z.of_nat (pages_in L1) + i * 2 ^ sh) (2 ^ sh)
        (L1 ++ ChunkSeg sh (Z.clearbit used i) :: L2)
  | give_last L1 sh used i L2 :
      seg_ok (ChunkSeg sh used) → i ∈ chunks sh used → chunks sh (Z.clearbit used i) = [] →
      give_block (L1 ++ ChunkSeg sh used :: L2) (4096 * Z.of_nat (pages_in L1) + i * 2 ^ sh) (2 ^ sh) (freed L1 1 L2).

Definition given (r : outcome (free_msg * pool)) (s : pool) (L : list seg) (off b : Z) : Prop :=
  ∃ L' s' lst', r = Ok (Freed, s') ∧ give_block L off b L' ∧ inv s' L' lst' ∧ same_pool s s'.

(** ** A chunk is cleared *)
Lemma clear_seg sh used i :
  seg_ok (ChunkSeg sh used) → i ∈ chunks sh used → chunks sh (Z.clearbit used i) ≠ [] →
  seg_ok (ChunkSeg sh (Z.clearbit used i)).
Proof.
  intros Hg Hi Hne. pose proof Hg as (Hsh & _). pose proof (reserved_two sh Hsh) as [Hr _].
  apply elem_of_chunks in Hi as [Hi Ht]. destruct (chunks sh (Z.clearbit used i)) as [|x l] eqn:E; [done|].
  assert (Hx : x ∈ chunks sh (Z.clearbit used i)) by (rewrite E; by left). apply elem_of_chunks in Hx as [Hx Hb].
  rewrite clearbit_bits in Hb by lia. apply andb_true_iff in Hb as [Hxi Hb].
  eapply (clearbit_seg sh used i x); [done|done|done| |done]. intros ->. by rewrite Z.eqb_refl in Hxi.
Qed.

Lemma clear_not_full sh used i : 3 ≤ sh ≤ 11 → 0 ≤ i < count sh → ¬ full sh (Z.clearbit used i).
Proof.
  intros Hsh Hi. apply (not_full_clear sh _ i Hsh Hi). rewrite clearbit_bits, Z.eqb_refl by lia. done.
Qed.

(** A full page has two chunks at least. *)
Lemma full_two sh used i :
  seg_ok (ChunkSeg sh used) → i ∈ chunks sh used → full sh used → chunks sh (Z.clearbit used i) ≠ [].
Proof.
  intros (Hsh & Hu & _) Hi Hf Hnil. pose proof (reserved_two sh Hsh) as [Hr Hc].
  apply elem_of_chunks in Hi as [Hi _].
  assert (∃ x, reserved sh ≤ x < count sh ∧ x ≠ i) as (x & Hx & Hne).
  { destruct (decide (i = reserved sh)); [exists (reserved sh + 1)|exists (reserved sh)]; lia. }
  assert (Hin : x ∈ chunks sh (Z.clearbit used i)); [|rewrite Hnil in Hin; by apply elem_of_nil in Hin].
  apply elem_of_chunks. split; [done|]. rewrite clearbit_bits by lia. destruct (Z.eqb_spec x i); [done|].
  by apply (full_bits sh used Hsh Hu); [|lia].
Qed.

Lemma on_same s : on (nodes s) s = s.
Proof. by destruct s. Qed.

(** A full page enters its list first. *)
Lemma relist_ok s L1 sh used i L2 lst (b : bool) :
  inv s (L1 ++ ChunkSeg sh used :: L2) lst → i ∈ chunks sh used → (b = true ↔ full sh used) →
  ∃ nd lst' u, (if b then enter_list (PageP (pages_in L1)) (Z.to_nat (sh - min_shift s)) (type_of sh) else mret tt) s
      = Ok (tt, on nd s)
    ∧ hole (on nd s) L1 (ChunkSeg sh u) L2 lst' ∧ ¬ full sh u
    ∧ sb nd (PageP (pages_in L1)) = sb (nodes s) (PageP (pages_in L1)).
Proof.
  intros Hi Hin Hb. pose proof (inv_hole _ _ _ _ _ Hi) as Hh. destruct (hole_seg _ _ _ _ _ Hh) as (Hg & _).
  pose proof Hg as (Hsh & _). destruct (i_min _ _ _ Hi) as [Hmin _]. rewrite Hmin. destruct b.
  - assert (Hf : full sh used) by (by apply Hb). pose proof (full_two sh used i Hg Hin Hf) as Hne.
    pose proof (clear_seg sh used i Hg Hin Hne) as Hg'. apply elem_of_chunks in Hin as [Hin _].
    pose proof (reserved_two sh Hsh).
    destruct (enter_ok s L1 sh used (Z.clearbit used i) L2 lst Hh Hf Hg') as (nd & lst' & E & Hh' & Hsb);
      [apply clear_not_full; done || lia|].
    exists nd, lst', (Z.clearbit used i). split; [exact E|]. split; [done|]. split; [apply clear_not_full; done || lia|done].
  - exists (nodes s), lst, used. rewrite on_same. split; [done|]. split; [done|]. split; [|done].
    intros Hf. by apply Hb in Hf.
Qed.

(** The page goes when its last chunk did. *)
Lemma release_ok s L1 sh u used i L2 lst (m : M pool unit) :
  hole s L1 (ChunkSeg sh u) L2 lst → ¬ full sh u → seg_ok (ChunkSeg sh used) → i ∈ chunks sh used →
  page_says s (pages_in L1) sh (Z.clearbit used i) →
  (chunks sh (Z.clearbit used i) = [] → m = ncx_slab_free_pages (pages_in L1) 1) →
  (chunks sh (Z.clearbit used i) ≠ [] → m = mret tt) →
  given ((m;; mret Freed) s) s (L1 ++ ChunkSeg sh used :: L2) (4096 * Z.of_nat (pages_in L1) + i * 2 ^ sh) (2 ^ sh).
Proof.
  intros Hh Hf Hg Hi Hs Hm1 Hm2. pose proof Hg as (Hsh & _).
  destruct (decide (chunks sh (Z.clearbit used i) = [])) as [Hnil|Hne].
  - rewrite Hm1 by done. destruct (free_pages_ok s L1 (ChunkSeg sh u) L2 lst Hh) as (nd & lst' & E & Hi').
    { unfold hole_entry. rewrite home_first by apply (hole_seg _ _ _ _ _ Hh). simpl. by rewrite decide_False. }
    exists (freed L1 1 L2), (on nd s), lst'. rewrite (bind_run _ _ _ _ _ E). split; [done|].
    split; [by apply give_last|done].
  - rewrite Hm2 by done. exists (L1 ++ ChunkSeg sh (Z.clearbit used i) :: L2), s, lst. split; [done|].
    split; [by apply give_chunk|]. split; [|done]. pose proof (clear_seg _ _ _ Hg Hi Hne) as Hg'.
    eapply close_partial; [exact Hh|done|done| |done]. apply elem_of_chunks in Hi as [Hi _].
    pose proof (reserved_two sh Hsh). apply clear_not_full; done || lia.
Qed.

(** ** From the address to the page and the chunk *)
Lemma chunk_off_range sh i : 3 ≤ sh ≤ 11 → 0 ≤ i < count sh → 0 ≤ i * 2 ^ sh < 4096.
Proof.
  intros Hsh Hi'. assert (count sh * 2 ^ sh = 4096) by (unfold count; rewrite <- Z.pow_add_r by lia; by replace (12 - sh + sh) with 12 by lia).
  pose proof (Z.pow_pos_nonneg 2 sh). nia.
Qed.

Section address.
Context (s : pool) (L : list seg) (lst : ptr → list nat) (k : nat).
Hypothesis Hi : inv s L lst.
Hypothesis Hk : (k < pages_in L)%nat.

Lemma page_guard o : 0 ≤ o < 4096 →
  let p := start s + (4096 * Z.of_nat k + o) in
  (p <? start s) || (end_ s <? p) = false ∧ Z.to_nat (shr64 (p - start s) ncx_pagesize_shift) = k.
Proof using Hi Hk.
  intros Ho p. destruct (i_addr _ _ _ Hi) as (Hs & _ & He & _). pose proof (i_len _ _ _ Hi).
  split; [apply orb_false_iff; split; apply Z.ltb_ge; unfold p; lia|].
  change ncx_pagesize_shift with 12. rewrite shr64_div by lia. change (2 ^ 12) with 4096. unfold p.
  replace (start s + (4096 * Z.of_nat k + o) - start s) with (Z.of_nat k * 4096 + o) by lia.
  rewrite Z.div_add_l, Z.div_small by lia. lia.
Qed.

(** [p & (ncx_pagesize - 1)] is the offset in the page. *)
Lemma page_off o : 0 ≤ o < 4096 →
  Z.land (start s + (4096 * Z.of_nat k + o)) (ncx_pagesize - 1) = o.
Proof using Hi.
  clear Hk.
  intros Ho. destruct (i_addr _ _ _ Hi) as (_ & Hs & _). change (ncx_pagesize - 1) with (2 ^ 12 - 1).
  rewrite land_mask by lia. change (2 ^ 12) with 4096. pose proof (Z.div_mod (start s) 4096 ltac:(lia)) as E.
  rewrite Hs in E. rewrite E. replace (4096 * (start s / 4096) + 0 + (4096 * Z.of_nat k + o))
    with (o + (start s / 4096 + Z.of_nat k) * 4096) by lia. rewrite Z.mod_add by lia. by apply Z.mod_small.
Qed.

(** The address of a chunk is a multiple of its size. *)
Lemma chunk_aligned sh i : 3 ≤ sh ≤ 11 →
  Z.land (start s + (4096 * Z.of_nat k + i * 2 ^ sh)) (2 ^ sh - 1) = 0.
Proof using Hi.
  clear Hk.
  intros Hsh. destruct (i_addr _ _ _ Hi) as (_ & Hs & _). rewrite land_mask by lia.
  assert (E4 : 4096 = 2 ^ (12 - sh) * 2 ^ sh) by (rewrite <- Z.pow_add_r by lia; by replace (12 - sh + sh) with 12 by lia).
  pose proof (Z.div_mod (start s) 4096 ltac:(lia)) as E. rewrite Hs in E. rewrite E.
  replace (4096 * (start s / 4096) + 0 + (4096 * Z.of_nat k + i * 2 ^ sh))
    with (0 + ((start s / 4096 + Z.of_nat k) * 2 ^ (12 - sh) + i) * 2 ^ sh)
    by (rewrite Z.mul_add_distr_r, <- Z.mul_assoc, <- E4; lia).
  rewrite Z.mod_add by (apply Z.pow_nonzero; lia). apply Z.mod_0_l. apply Z.pow_nonzero; lia.
Qed.

Lemma chunk_number sh i : 3 ≤ sh ≤ 11 → 0 ≤ i < count sh →
  shr64 (Z.land (start s + (4096 * Z.of_nat k + i * 2 ^ sh)) (ncx_pagesize - 1)) sh = i.
Proof using Hi.
  clear Hk.
  intros Hsh Hi'. rewrite page_off by (by apply chunk_off_range). rewrite shr64_div by lia.
  apply Z.div_mul. apply Z.pow_nonzero; lia.
Qed.
End address.

(** The links of a page of chunks tell whether it is full, and carry its
    type. *)
Lemma chunk_links s L1 sh used L2 lst pg :
  inv s (L1 ++ ChunkSeg sh used :: L2) lst → nodes s !! PageP (pages_in L1) = Some pg →
  (prev pg).2 = type_of sh ∧ (bool_decide (next pg = Null) = true ↔ full sh used).
Proof.
  intros Hi E. destruct (chunk_page _ _ _ _ _ _ Hi) as (Hg & _). pose proof Hg as (Hsh & _).
  pose proof (i_kind _ _ _ Hi (pages_in L1) (KChunk sh used)) as Hk. rewrite kinds_head in Hk by done.
  destruct (Hk eq_refl) as (_ & Hful & _). rewrite bool_decide_eq_true. destruct (decide (full sh used)) as [Hf|Hf].
  - destruct (Hful Hf) as [H1 H2]. unfold nx, pv in H1, H2. rewrite E in H1, H2. simpl in H1, H2.
    injection H1 as H1. injection H2 as H2. rewrite H2. done.
  - assert (Hh : home_of (L1 ++ ChunkSeg sh used :: L2) (pages_in L1) = Some (slot_of sh)).
    { rewrite home_first by done. simpl. by rewrite decide_False. }
    destruct (links_at _ _ _ _ _ _ (i_links _ _ _ Hi) (sentinel_slot sh Hsh) Hh E) as (a & b & _ & En & Ep & _).
    rewrite Ep, En. split; [by apply tag_slot|]. split; [|done]. by destruct b.
Qed.

(** Without bits above the reserved ones no chunk is in use. *)
Lemma no_chunks sh w :
  6 ≤ sh ≤ 11 → 0 ≤ w < 2 ^ count sh → (w = 0 ↔ chunks sh w = []).
Proof.
  intros Hsh Hw. assert (Hr : reserved sh = 0) by (unfold reserved; destruct (Z.ltb_spec sh 6); [lia|done]).
  pose proof (count_bounds sh ltac:(lia)) as (Hc & _). split.
  - intros ->. destruct (chunks sh 0) as [|x l] eqn:E; [done|]. assert (Hx : x ∈ chunks sh 0) by (rewrite E; by left).
    apply elem_of_chunks in Hx as [_ Hx]. by rewrite Z.bits_0 in Hx.
  - intros E. apply Z.bits_inj'. intros j Hj. rewrite Z.bits_0. destruct (decide (j < count sh)).
    + destruct (Z.testbit w j) eqn:Hb; [|done]. assert (Hin : j ∈ chunks sh w) by (apply elem_of_chunks; split; [lia|done]).
      rewrite E in Hin. by apply elem_of_nil in Hin.
    + apply (pow2_range w (count sh)); lia.
Qed.

Lemma land_clear w i : 0 ≤ w < 2 ^ 64 → 0 ≤ i < 64 → Z.land w (not64 (2 ^ i)) = Z.clearbit w i.
Proof.
  intros Hw Hi. apply Z.bits_inj'. intros j Hj. rewrite Z.land_spec, clearbit_bits by lia. destruct (decide (j < 64)).
  - rewrite not64_testbit, Z.pow2_bits_eqb by lia. rewrite andb_comm, (Z.eqb_sym i). done.
  - rewrite (proj1 (pow2_range w 64 ltac:(lia) ltac:(lia))) by lia. by rewrite andb_false_r.
Qed.

Lemma small_type sh : sh < 6 → type_of sh = NCX_SLAB_SMALL.
Proof. unfold type_of. by destruct (Z.ltb_spec sh 6); [|lia]. Qed.
Lemma big_type sh : 6 < sh → type_of sh = NCX_SLAB_BIG.
Proof. unfold type_of. destruct (Z.ltb_spec sh 6); [lia|]. by destruct (Z.eqb_spec sh 6); [lia|]. Qed.
Lemma slab_big sh u : 6 < sh → slab_of sh u = u * 2 ^ 32 + sh.
Proof. unfold slab_of. destruct (Z.ltb_spec sh 6); [lia|]. by destruct (Z.eqb_spec sh 6); [lia|]. Qed.

(** ** The three types of pages, and runs *)
Section chunk.
Context (s : pool) (L1 L2 : list seg) (sh used i : Z) (lst : ptr → list nat).
Let L := L1 ++ ChunkSeg sh used :: L2.
Let k := pages_in L1.
Let p := start s + (4096 * Z.of_nat k + i * 2 ^ sh).
Hypothesis Hi : inv s L lst.
Hypothesis Hin : i ∈ chunks sh used.

Lemma chunk_in : seg_ok (ChunkSeg sh used) ∧ 3 ≤ sh ≤ 11 ∧ 0 ≤ i < count sh ∧ Z.testbit used i = true.
Proof.
  destruct (chunk_page _ _ _ _ _ _ Hi) as (Hg & _). pose proof Hg as (Hsh & _).
  pose proof (reserved_two sh Hsh). pose proof Hin as Hin'. apply elem_of_chunks in Hin' as [Hr Ht].
  split; [done|]. split; [done|]. split; [lia|done].
Qed.

Lemma chunk_k : (k < pages_in L)%nat.
Proof. by eapply chunk_lt. Qed.

(** Clearing the bit in the [slab] field. *)
Lemma clear_slab nd lst' u w w' (m : bool → M pool unit) :
  hole (on nd s) L1 (ChunkSeg sh u) L2 lst' → ¬ full sh u → 6 ≤ sh →
  sb nd (PageP k) = Some w → w' = slab_of sh (Z.clearbit used i) →
  (∀ b, m b = if b then ncx_slab_free_pages k 1 else mret tt) →
  ∀ f test, f w = w' → (test w' = true ↔ chunks sh (Z.clearbit used i) = []) →
  given ((put (PageP k) (λ pg, set_slab (f (slab pg)) pg);; pg ← node (PageP k); m (test (slab pg));; mret Freed) (on nd s))
    s L (4096 * Z.of_nat k + i * 2 ^ sh) (2 ^ sh).
Proof.
  intros Hh Hf H6 Hsb -> Hm f test Hfw Ht. destruct chunk_in as (Hg & Hsh & Hir & _).
  unfold sb in Hsb. destruct (nd !! PageP k) as [pg|] eqn:E; [|done]. simpl in Hsb. injection Hsb as Hsb.
  rewrite (put_run _ pg) by done. rewrite Hsb, Hfw.
  pose proof (hole_slab _ _ _ _ _ pg (slab_of sh (Z.clearbit used i)) Hh E) as Hh'. fold k in Hh'.
  erewrite node_run by apply lookup_insert_eq. cbn [slab set_slab].
  match goal with |- given (_ ?s1) _ _ _ _ => set (s' := s1) in * end.
  destruct (release_ok s' L1 sh u used i L2 lst' (m (test (slab_of sh (Z.clearbit used i)))) Hh' Hf Hg Hin)
    as (L' & s2 & lst2 & E2 & Hgive & Hi2 & Hsame).
  - split; [|lia]. unfold sb, s'. cbn [nodes set_nodes]. fold k. by rewrite lookup_insert_eq.
  - intros Hnil. rewrite Hm. by rewrite (proj2 Ht Hnil).
  - intros Hne. rewrite Hm. destruct (test _); [|done]. by destruct Hne; apply Ht.
  - exists L', s2, lst2. split; [exact E2|]. split; [exact Hgive|]. split; [done|]. exact Hsame.
Qed.

Lemma free_exact_ok : sh = 6 → given (free_exact p k used s) s L (4096 * Z.of_nat k + i * 2 ^ sh) (2 ^ sh).
Proof.
  intros H6. destruct chunk_in as (Hg & Hsh & Hir & Ht). pose proof Hg as (_ & Hu & _).
  destruct (chunk_page _ _ _ _ _ _ Hi) as (_ & (Hsb & _) & _). fold k in Hsb. rewrite H6 in Hsb. change (slab_of 6 used) with used in Hsb.
  unfold free_exact. rewrite bind_run with (a := s) (s' := s) by done.
  change ncx_slab_exact_shift with 6. change ncx_slab_exact_size with (2 ^ 6). rewrite <- H6. unfold p.
  rewrite (chunk_number s L lst k Hi sh i Hsh Hir), (chunk_aligned s L lst k Hi sh i Hsh).
  cbn [Z.eqb negb]. rewrite Ht.
  destruct (relist_ok s L1 sh used i L2 lst (used =? NCX_SLAB_BUSY) Hi Hin) as (nd & lst' & u & E & Hh & Hf & Hsb').
  { rewrite Z.eqb_eq, H6. done. }
  assert (Hty : type_of sh = NCX_SLAB_EXACT) by (by rewrite H6). rewrite Hty in E. rewrite (bind_run _ _ _ _ _ E).
  apply (clear_slab nd lst' u used (Z.clearbit used i) (λ b, if b then ncx_slab_free_pages k 1 else mret tt) Hh Hf)
    with (f := λ w, Z.land w (not64 (2 ^ i))) (test := λ w, w =? 0).
  - lia.
  - etrans; [exact Hsb'|done].
  - by rewrite H6.
  - done.
  - rewrite H6 in Hu, Hir. by apply land_clear.
  - rewrite Z.eqb_eq. apply no_chunks; [lia|]. apply clearbit_range; done || lia.
Qed.

Lemma free_big_ok : 6 < sh → given (free_big p k (slab_of sh used) s) s L (4096 * Z.of_nat k + i * 2 ^ sh) (2 ^ sh).
Proof.
  intros H6. destruct chunk_in as (Hg & Hsh & Hir & Ht). pose proof Hg as (_ & Hu & _).
  destruct (chunk_page _ _ _ _ _ _ Hi) as (_ & (Hsb & _) & pg & Epg & _). fold k in Hsb, Epg.
  destruct (chunk_links _ _ _ _ _ _ _ Hi Epg) as [_ Hfl].
  pose proof (count_bounds sh Hsh) as (Hc & _ & _ & Hc32 & _). specialize (Hc32 H6).
  assert (Hpow : 2 ^ count sh ≤ 2 ^ 32) by (apply Z.pow_le_mono_r; lia).
  pose proof (clearbit_range sh used i Hsh Hu ltac:(lia)) as Hu'.
  unfold free_big. rewrite bind_run with (a := s) (s' := s) by done. rewrite slab_big in Hsb |- * by done.
  rewrite big_shift by done. unfold p.
  rewrite (chunk_number s L lst k Hi sh i Hsh Hir), (chunk_aligned s L lst k Hi sh i Hsh).
  cbn [Z.eqb negb]. rewrite (Z.add_comm i), big_testbit, Ht by lia. rewrite (node_run _ pg) by done.
  destruct (relist_ok s L1 sh used i L2 lst (bool_decide (next pg = Null)) Hi Hin Hfl) as (nd & lst' & u & E & Hh & Hf & Hsb').
  rewrite (big_type sh H6) in E. rewrite (bind_run _ _ _ _ _ E).
  apply (clear_slab nd lst' u (used * 2 ^ 32 + sh) (Z.clearbit used i * 2 ^ 32 + sh)
           (λ b, if b then ncx_slab_free_pages k 1 else mret tt) Hh Hf)
    with (f := λ w, Z.land w (not64 (2 ^ (NCX_SLAB_MAP_SHIFT + i)))) (test := λ w, Z.land w NCX_SLAB_MAP_MASK =? 0).
  - lia.
  - etrans; [exact Hsb'|done].
  - by rewrite slab_big.
  - done.
  - apply big_clear; lia.
  - rewrite Z.eqb_eq, big_map by lia. rewrite <- no_chunks by lia. lia.
Qed.

(** The scan for chunks in use in a bitmap. *)
Definition map_used (m : bitmap) : bool :=
  negb (Z.land (word m 0) (not64 (shl64 1 (map_chunks sh) - 1)) =? 0)
  || existsb (λ n, negb (word m n =? 0)) (seqZ 1 (map_words sh - 1)).

Lemma map_used_ok m w :
  3 ≤ sh < 6 → map_ok m sh w → (map_used m = false ↔ chunks sh w = []).
Proof.
  intros Hs Hm. pose proof Hm as (Hmw & Hml & Hmb).
  destruct (count_bounds sh ltac:(lia)) as (_ & _ & _ & _ & Hs'). destruct Hs' as (Hc & Hw1 & Hm1 & Hres & Hm2); [lia|].
  assert (Hmask : shl64 1 (map_chunks sh) - 1 = 2 ^ map_chunks sh - 1).
  { rewrite shl64_small by (pose proof (Z.pow_lt_mono_r 2 (map_chunks sh) 64); pose proof (Z.pow_pos_nonneg 2 (map_chunks sh)); lia). lia. }
  unfold map_used. rewrite Hmask, land_not64_mask by (lia || by apply word_range).
  set (c := map_chunks sh) in *. pose proof (word_range m 0 Hmw) as Hw0.
  assert (H0 : word m 0 - word m 0 mod 2 ^ c = 0 ↔ ∀ j, c ≤ j < 64 → Z.testbit (word m 0) j = false).
  { split.
    - intros E j Hj. replace (word m 0) with (word m 0 mod 2 ^ c) by lia. apply Z.mod_pow2_bits_high. lia.
    - intros Hb. rewrite (Z.mod_small (word m 0) (2 ^ c)); [lia|]. apply pow2_range; [lia|lia|].
      intros j Hj. destruct (decide (j < 64)); [apply Hb; lia|]. apply (pow2_range (word m 0) 64); lia. }
  rewrite orb_false_iff, negb_false_iff, Z.eqb_eq, H0, <- not_true_iff_false, existsb_exists. split.
  - intros [Hlow Hhigh]. destruct (chunks sh w) as [|x l] eqn:E; [done|]. exfalso.
    assert (Hx : x ∈ chunks sh w) by (rewrite E; by left). apply elem_of_chunks in Hx as [Hx Hb].
    rewrite <- Hmb in Hb by lia. unfold test_bit in Hb. pose proof (split64 x). destruct (decide (x / 64 = 0)) as [E0|Hne].
    + rewrite E0, Hlow in Hb by lia. done.
    + apply Hhigh. exists (x / 64). split; [apply list_elem_of_In, elem_of_seqZ; lia|].
      apply negb_true_iff, Z.eqb_neq. intros Ez. by rewrite Ez, Z.bits_0 in Hb.
  - intros E. assert (Hclear : ∀ x, c ≤ x < count sh → test_bit m x = false).
    { intros x Hx. destruct (test_bit m x) eqn:Hb; [|done]. rewrite Hmb in Hb by lia.
      assert (Hin' : x ∈ chunks sh w) by (apply elem_of_chunks; split; [lia|done]). rewrite E in Hin'. by apply elem_of_nil in Hin'. }
    split.
    + intros j Hj. rewrite <- (test_bit_word m 0 j) by lia. apply Hclear. lia.
    + intros (n & Hn%list_elem_of_In%elem_of_seqZ & Hz). apply negb_true_iff, Z.eqb_neq in Hz. apply Hz.
      apply word_zero; [by apply word_range|]. intros j Hj. rewrite <- test_bit_word by lia. apply Hclear. lia.
Qed.

Lemma free_small_ok : sh < 6 → given (free_small p k (slab_of sh used) s) s L (4096 * Z.of_nat k + i * 2 ^ sh) (2 ^ sh).
Proof.
  intros H6. destruct chunk_in as (Hg & Hsh & Hir & Ht). pose proof Hg as (_ & Hu & _).
  destruct (chunk_page _ _ _ _ _ _ Hi) as (_ & (Hsb & Hmap) & pg & Epg & _). fold k in Hsb, Epg, Hmap.
  destruct (chunk_links _ _ _ _ _ _ _ Hi Epg) as [_ Hfl]. destruct (Hmap H6) as (m & Em & Hm).
  assert (Hs : 3 ≤ sh < 6) by lia. pose proof (proj1 (map_split sh i Hs) Hir) as [Hn Hb].
  assert (Eslab : slab_of sh used = sh) by (unfold slab_of; by destruct (Z.ltb_spec sh 6); [|lia]).
  unfold free_small. rewrite bind_run with (a := s) (s' := s) by done. rewrite Eslab in Hsb |- *.
  assert (Eshift : Z.land sh NCX_SLAB_SHIFT_MASK = sh) by (exact (big_shift 0 sh Hsh)).
  rewrite Eshift. unfold p. rewrite (chunk_number s L lst k Hi sh i Hsh Hir), (chunk_aligned s L lst k Hi sh i Hsh).
  cbn [Z.eqb negb]. rewrite land63. rewrite bind_run with (a := m) (s' := s) by (unfold get_map; by rewrite Em).
  rewrite <- test_bit_word, <- (proj1 (split64 i)), (proj2 (proj2 Hm)), Ht by done. rewrite (node_run _ pg) by done.
  destruct (relist_ok s L1 sh used i L2 lst (bool_decide (next pg = Null)) Hi Hin Hfl) as (nd & lst' & u & E & Hh & Hf & Hsb').
  rewrite (small_type sh H6) in E. rewrite (bind_run _ _ _ _ _ E).
  pose proof (map_clear m sh used (i / 64) (i mod 64) Hs Hm Hn Hb) as Hm'. rewrite <- (proj1 (split64 i)) in Hm'.
  rewrite land_clear by (done || by apply word_range; apply Hm).
  set (m' := set_word m (i / 64) _) in *. rewrite bind_run with (a := tt) (s' := set_maps <[k := m']> (on nd s)) by done.
  pose proof (hole_map _ _ _ _ _ m' Hh) as Hh'. fold k in Hh'.
  pose proof (map_used_ok m' (Z.clearbit used i) Hs Hm') as Hused.
  destruct (release_ok _ L1 sh u used i L2 lst' (if map_used m' then mret tt else ncx_slab_free_pages k 1) Hh' Hf Hg Hin)
    as (L' & s2 & lst2 & E2 & Hgive & Hi2 & Hsame).
  - split; [etrans; [exact Hsb'|]; etrans; [exact Hsb|]; by rewrite (slab_small sh _ used), Eslab|].
    intros _. exists m'. split; [apply lookup_insert_eq|done].
  - intros Hnil. by rewrite (proj2 Hused Hnil).
  - intros Hne. destruct (map_used m'); [done|]. by destruct Hne; apply Hused.
  - exists L', s2, lst2. split; [exact E2|]. split; [exact Hgive|]. split; [done|]. exact Hsame.
Qed.
End chunk.

Lemma free_run_ok s L1 n L2 lst :
  inv s (L1 ++ RunSeg n :: L2) lst →
  given (free_run (start s + 4096 * Z.of_nat (pages_in L1)) (pages_in L1) (Z.of_nat n + 2 ^ 63) s) s
    (L1 ++ RunSeg n :: L2) (4096 * Z.of_nat (pages_in L1)) (4096 * Z.of_nat n).
Proof.
  intros Hi. pose proof (inv_hole _ _ _ _ _ Hi) as Hh. destruct (hole_seg _ _ _ _ _ Hh) as (Hg & _).
  pose proof (inv_small _ _ _ Hi) as Hsm. rewrite pages_app, pages_cons in Hsm by done. simpl in Hsm, Hg.
  pose proof (page_off s _ lst (pages_in L1) Hi 0 ltac:(lia)) as Hoff. rewrite Z.add_0_r in Hoff.
  unfold free_run. rewrite Hoff. cbn [Z.eqb negb].
  destruct (Z.eqb_spec (Z.of_nat n + 2 ^ 63) 0); [lia|].
  destruct (Z.eqb_spec (Z.of_nat n + 2 ^ 63) NCX_SLAB_PAGE_BUSY) as [Eb|]; [unfold NCX_SLAB_PAGE_BUSY in Eb; lia|].
  change (not64 NCX_SLAB_PAGE_START) with (2 ^ 63 - 1). rewrite land_mask by lia.
  rewrite <- (Z.mul_1_l (2 ^ 63)) at 1. rewrite Z.mod_add, Z.mod_small by lia.
  destruct (free_pages_ok s L1 (RunSeg n) L2 lst Hh) as (nd & lst' & E & Hi').
  { intros _. pose proof (i_kind _ _ _ Hi (pages_in L1) (KRun n)) as Hk. rewrite kinds_head in Hk by done.
    specialize (Hk eq_refl). simpl in Hk. unfold nx. by rewrite Hk. }
  exists (freed L1 n L2), (on nd s), lst'. cbn [seg_len] in E. rewrite (bind_run _ _ _ _ _ E). split; [done|].
  split; [by apply give_run|done].
Qed.

(** Freeing a block in use. *)
Lemma free_locked_ok s L lst off b :
  inv s L lst → block_of L off b → given (ncx_slab_free_locked (start s + off) s) s L off b.
Proof.
  intros Hi Hb. unfold ncx_slab_free_locked. rewrite bind_run with (a := s) (s' := s) by done.
  destruct Hb as [L1 n L2|L1 sh used i L2 Hin].
  - pose proof (inv_hole _ _ _ _ _ Hi) as Hh. destruct (hole_seg _ _ _ _ _ Hh) as (Hg & _).
    assert (Hk : (pages_in L1 < pages_in (L1 ++ RunSeg n :: L2))%nat)
      by (rewrite pages_app, pages_cons by done; simpl in *; lia).
    destruct (page_guard s _ lst _ Hi Hk 0 ltac:(lia)) as [Hgd Hpg]. rewrite Z.add_0_r in Hgd, Hpg. rewrite Hgd, Hpg.
    pose proof (i_kind _ _ _ Hi (pages_in L1) (KRun n)) as Hkn. rewrite kinds_head in Hkn by done.
    specialize (Hkn eq_refl). simpl in Hkn. rewrite (node_run _ _ _ _ Hkn). by apply (free_run_ok s L1 n L2 lst).
  - destruct (chunk_in s L1 L2 sh used i lst Hi Hin) as (Hg & Hsh & Hir & _).
    pose proof (chunk_lt _ _ _ _ _ _ Hi) as Hk.
    destruct (page_guard s _ lst _ Hi Hk (i * 2 ^ sh) (chunk_off_range _ _ Hsh Hir)) as [-> ->].
    destruct (chunk_page _ _ _ _ _ _ Hi) as (_ & _ & pg & E & Eslab). rewrite (node_run _ _ _ _ E).
    destruct (chunk_links _ _ _ _ _ _ _ Hi E) as [Hty _]. rewrite Hty, Eslab. unfold type_of.
    destruct (Z.ltb_spec sh 6); [by apply (free_small_ok s L1 L2 sh used i lst)|].
    destruct (Z.eqb_spec sh 6) as [E6|]; cbn [Z.eqb Pos.eqb].
    + replace (slab_of sh used) with used by (rewrite E6; done). by apply (free_exact_ok s L1 L2 sh used i lst).
    + apply (free_big_ok s L1 L2 sh used i lst); done || lia.
Qed.
