(* ===== verification/SlabHeap.v ===== *)
(** * SlabHeap: the blocks of a pool and sequences of calls

    The blocks in use of a layout as a list of offsets and sizes.  An
    allocation adds one, freeing removes one; they do not overlap, and free
    runs are never adjacent, so that a pool with no block in use is one free
    run again. *)
From Stdlib Require Import ZArith Lia.
From stdpp Require Import base numbers list gmap strings.
From S2P Require Import Prelude Util Bitmap BitmapOps Slab SlabLink SlabOk SlabFree SlabChunk SlabAlloc SlabNew SlabMalloc SlabGive.

(** ** The blocks of a layout *)
Definition seg_blocks (k : nat) (g : seg) : list (Z * Z) :=
  match g with
  | FreeSeg _ => []
  | RunSeg n => [(4096 * Z.of_nat k, 4096 * Z.of_nat n)]
  | ChunkSeg sh used => (λ i, (4096 * Z.of_nat k + i * 2 ^ sh, 2 ^ sh)) <$> chunks sh used
  end.
Fixpoint blocks (k : nat) (L : list seg) : list (Z * Z) :=
  match L with
  | [] => []
  | g :: L => seg_blocks k g ++ blocks (k + length (kinds_of g)) L
  end.

Lemma blocks_app k A B : blocks k (A ++ B) = blocks k A ++ blocks (k + pages_in A) B.
Proof.
  revert k. induction A as [|g A IH]; intros k; cbn [app blocks]; [by rewrite Nat.add_0_r|].
  rewrite IH, <- app_assoc. do 3 f_equal. unfold pages_in.
  change (kinds (g :: A)) with (kinds_of g ++ kinds A). rewrite length_app. lia.
Qed.

Lemma blocks_rest k m n : blocks k (rest m n) = [].
Proof. unfold rest. by case_decide. Qed.

Lemma take_perm L off b L' :
  take_block L off b L' → Forall seg_ok L → blocks 0 L' ≡ₚ (off, b) :: blocks 0 L.
Proof.
  intros Ht HF. destruct Ht as [L1 m n L2 Hn|L1 sh used i L2 Hg Hi Hb|L1 m sh L2 Hm Hsh];
    rewrite !blocks_app; cbn [blocks seg_blocks Nat.add]; rewrite ?blocks_app, ?blocks_rest.
  - pose proof (rest_pages m n ltac:(lia)). pose proof (seg_len_ok (RunSeg n) ltac:(simpl; lia)) as [-> _].
    pose proof (seg_len_ok (FreeSeg m) ltac:(simpl; lia)) as [-> _]. cbn [seg_len app].
    replace (pages_in L1 + n + pages_in (rest m n))%nat with (pages_in L1 + m)%nat by lia.
    by rewrite <- Permutation_middle.
  - cbn [kinds_of length]. pose proof Hg as (Hsh & _). rewrite (chunks_set sh used i Hsh Hi Hb).
    cbn [fmap list_fmap app]. by rewrite <- Permutation_middle.
  - pose proof (rest_pages m 1 ltac:(lia)). rewrite chunks_first by done.
    pose proof (seg_len_ok (FreeSeg m) ltac:(simpl; lia)) as [-> _]. cbn [seg_len kinds_of length fmap list_fmap app].
    replace (pages_in L1 + 1 + pages_in (rest m 1))%nat with (pages_in L1 + m)%nat by lia.
    by rewrite <- Permutation_middle.
Qed.

(** Free runs hold no blocks. *)
Lemma freed_blocks k L1 n L2 :
  Forall seg_ok L1 → Forall seg_ok L2 → (1 ≤ n)%nat →
  blocks k (freed L1 n L2) = blocks k L1 ++ blocks (k + pages_in L1 + n) L2.
Proof.
  intros H1 H2 Hn. unfold freed.
  assert (HA : ∀ A n', absorb_prev L1 n = (A, n') → blocks k A = blocks k L1 ∧ (pages_in A + n' = pages_in L1 + n)%nat ∧ (n ≤ n')%nat).
  { intros A n' E. destruct L1 as [|g L1 _] using rev_ind; [injection E as <- <-; done|].
    apply Forall_app in H1 as [_ Hg]. apply Forall_cons in Hg as [Hg _].
    rewrite absorb_prev_snoc in E. destruct g as [m|m|sh u]; injection E as <- <-; [|done..].
    rewrite blocks_app, pages_app, pages_cons by done. cbn [blocks seg_blocks app seg_len].
    rewrite app_nil_r. unfold pages_in at 3. cbn. split; [done|]. lia. }
  destruct (absorb_prev L1 n) as [A n'] eqn:E. destruct (HA _ _ eq_refl) as (HbA & HpA & Hn').
  assert (HB : ∀ n'' B, absorb_next n' L2 = (n'', B) →
    blocks (k + pages_in A + n'') B = blocks (k + pages_in A + n') L2 ∧ (n' ≤ n'')%nat).
  { intros n'' B EB. destruct L2 as [|g L2]; [by injection EB as <- <-|].
    apply Forall_cons in H2 as [Hg _]. destruct g as [m|m|sh u]; injection EB as <- <-; [|done..].
    cbn [blocks seg_blocks app]. pose proof (seg_len_ok (FreeSeg m) Hg) as [-> _]. cbn [seg_len].
    split; [f_equal; lia|lia]. }
  destruct (absorb_next n' L2) as [n'' B] eqn:EB. destruct (HB _ _ eq_refl) as [HbB Hn''].
  rewrite blocks_app. cbn [blocks seg_blocks app].
  pose proof (seg_len_ok (FreeSeg n'') ltac:(simpl; lia)) as [-> _]. cbn [seg_len].
  rewrite HbA, HbB. do 2 f_equal. lia.
Qed.

Lemma give_perm L off b L' :
  give_block L off b L' → Forall seg_ok L → blocks 0 L ≡ₚ (off, b) :: blocks 0 L'.
Proof.
  intros Ht HF. destruct Ht as [L1 n L2 Hg|L1 sh used i L2 Hg Hi Hne|L1 sh used i L2 Hg Hi Hnil];
    apply Forall_app in HF as [H1 H2]; apply Forall_cons in H2 as [_ H2].
  - rewrite freed_blocks by done. rewrite blocks_app. cbn [blocks seg_blocks app].
    pose proof (seg_len_ok _ Hg) as [-> _]. by rewrite <- Permutation_middle.
  - rewrite !blocks_app. cbn [blocks seg_blocks kinds_of length]. pose proof Hg as (Hsh & _).
    rewrite (chunks_clear sh used i Hsh Hi). cbn [fmap list_fmap app]. by rewrite <- Permutation_middle.
  - rewrite freed_blocks by (done || lia). rewrite blocks_app. cbn [blocks seg_blocks kinds_of length].
    pose proof Hg as (Hsh & _). rewrite (chunks_clear sh used i Hsh Hi), Hnil. cbn [fmap list_fmap app].
    by rewrite <- Permutation_middle.
Qed.

Lemma blocks_of k L off b :
  (off, b) ∈ blocks k L →
  ∃ o, off = 4096 * Z.of_nat k + o ∧ block_of L o b.
Proof.
  revert k. induction L as [|g L IH]; intros k; cbn [blocks]; [by intros ?%elem_of_nil|].
  rewrite elem_of_app. intros [Hin|Hin].
  - destruct g as [m|n|sh used]; cbn [seg_blocks] in Hin; [by apply elem_of_nil in Hin| |].
    + apply list_elem_of_singleton in Hin as [= -> ->]. exists 0. split; [lia|]. exact (block_run [] n L).
    + apply list_elem_of_fmap in Hin as (i & [= -> ->] & Hi). exists (i * 2 ^ sh). split; [lia|].
      exact (block_chunk [] sh used i L Hi).
  - apply IH in Hin as (o & -> & Ho). exists (4096 * Z.of_nat (length (kinds_of g)) + o). split; [lia|].
    destruct Ho as [A n B|A sh used i B Hi].
    + pose proof (block_run (g :: A) n B) as H. unfold pages_in in H. change (kinds (g :: A)) with (kinds_of g ++ kinds A) in H.
      rewrite length_app in H. fold (pages_in A) in H. unfold pages_in.
      replace (4096 * Z.of_nat (length (kinds_of g)) + 4096 * Z.of_nat (length (kinds A)))
        with (4096 * Z.of_nat (length (kinds_of g) + length (kinds A))) by lia. exact H.
    + pose proof (block_chunk (g :: A) sh used i B Hi) as H. unfold pages_in in H.
      change (kinds (g :: A)) with (kinds_of g ++ kinds A) in H. rewrite length_app in H. unfold pages_in.
      replace (4096 * Z.of_nat (length (kinds_of g)) + (4096 * Z.of_nat (length (kinds A)) + i * 2 ^ sh))
        with (4096 * Z.of_nat (length (kinds_of g) + length (kinds A)) + i * 2 ^ sh) by lia. exact H.
Qed.

(** ** Blocks do not overlap *)
Definition bytes (b : Z * Z) : list Z := seqZ b.1 b.2.

Lemma elem_of_bytes b x : x ∈ bytes b ↔ b.1 ≤ x < b.1 + b.2.
Proof. unfold bytes. apply elem_of_seqZ. Qed.

Lemma seg_bytes k g x :
  seg_ok g → x ∈ seg_blocks k g ≫= bytes → 4096 * Z.of_nat k ≤ x < 4096 * Z.of_nat (k + seg_len g).
Proof.
  intros Hg. rewrite list_elem_of_bind. intros (b & Hx%elem_of_bytes & Hb). destruct g as [m|n|sh used]; cbn [seg_blocks seg_len] in *.
  - by apply elem_of_nil in Hb.
  - apply list_elem_of_singleton in Hb as ->. simpl in Hx. lia.
  - apply list_elem_of_fmap in Hb as (i & -> & [Hi _]%elem_of_chunks). destruct Hg as (Hsh & _). simpl in Hx.
    pose proof (reserved_two sh Hsh). pose proof (Z.pow_pos_nonneg 2 sh).
    assert (count sh * 2 ^ sh = 4096) by (unfold count; rewrite <- Z.pow_add_r by lia; by replace (12 - sh + sh) with 12 by lia).
    assert ((i + 1) * 2 ^ sh ≤ count sh * 2 ^ sh) by (apply Z.mul_le_mono_nonneg_r; lia).
    assert (0 ≤ i * 2 ^ sh) by (apply Z.mul_nonneg_nonneg; lia). lia.
Qed.

Lemma seg_bytes_nodup k g : seg_ok g → NoDup (seg_blocks k g ≫= bytes).
Proof.
  intros Hg. destruct g as [m|n|sh used]; cbn [seg_blocks].
  - constructor.
  - rewrite bind_singleton. apply NoDup_seqZ.
  - pose proof Hg as (Hsh & _). pose proof (Z.pow_pos_nonneg 2 sh ltac:(lia) ltac:(lia)) as Hp. apply NoDup_bind.
    + intros b c x (i & -> & Hi)%list_elem_of_fmap (j & -> & Hj)%list_elem_of_fmap Hx%elem_of_bytes Hy%elem_of_bytes.
      simpl in Hx, Hy. assert (i = j) as ->; [|done]. nia.
    + intros b _. apply NoDup_seqZ.
    + apply NoDup_fmap_2_strong; [|apply chunks_nodup]. intros i j _ _ [= E]. nia.
Qed.

Lemma blocks_bytes k L :
  Forall seg_ok L →
  (∀ x, x ∈ blocks k L ≫= bytes → 4096 * Z.of_nat k ≤ x < 4096 * Z.of_nat (k + pages_in L)) ∧ NoDup (blocks k L ≫= bytes).
Proof.
  intros HF. revert k. induction HF as [|g L Hg HL IH]; intros k; cbn [blocks].
  - split; [by intros x ?%elem_of_nil|constructor].
  - destruct (IH (k + length (kinds_of g))%nat) as [IH1 IH2]. rewrite bind_app. pose proof (seg_len_ok g Hg) as [Hl Hl1].
    rewrite pages_cons by done. split.
    + intros x [Hx|Hx]%elem_of_app; [apply seg_bytes in Hx; [lia|done]|]. apply IH1 in Hx. lia.
    + apply NoDup_app. split; [by apply seg_bytes_nodup|]. split; [|done].
      intros x Hx Hx'. apply seg_bytes in Hx; [|done]. apply IH1 in Hx'. lia.
Qed.

(** ** Free runs are never adjacent *)
Definition free_seg (g : option seg) : bool := match g with Some (FreeSeg _) => true | _ => false end.
Fixpoint coalesced (L : list seg) : Prop :=
  match L with
  | [] => True
  | g :: L => free_seg (Some g) && free_seg (head L) = false ∧ coalesced L
  end.

Lemma coalesced_app A B :
  coalesced (A ++ B) ↔ coalesced A ∧ coalesced B ∧ free_seg (last A) && free_seg (head B) = false.
Proof.
  induction A as [|g A IH]; [split; [by intros|by intros (_ & ? & _)]|]. cbn [app coalesced]. rewrite IH, last_cons.
  destruct A as [|h A]; cbn [app head last coalesced]; [rewrite andb_false_r; tauto|]. destruct (last (h :: A)) eqn:E; [tauto|].
  by apply last_None in E.
Qed.

Lemma coalesced_mid A g B :
  coalesced (A ++ g :: B) ↔
    coalesced A ∧ coalesced B
    ∧ free_seg (last A) && free_seg (Some g) = false ∧ free_seg (Some g) && free_seg (head B) = false.
Proof. rewrite coalesced_app. cbn [coalesced head]. tauto. Qed.

(** A segment in use separates. *)
Lemma coalesced_used A g B : free_seg (Some g) = false → coalesced (A ++ g :: B) ↔ coalesced A ∧ coalesced B.
Proof. intros Hg. rewrite coalesced_mid, Hg, andb_false_r. cbn [andb]. tauto. Qed.

Lemma coalesced_rest m n B : free_seg (head B) = false → coalesced B → coalesced (rest m n ++ B).
Proof. unfold rest. intros Hh HB. case_decide; [|done]. cbn [app coalesced]. by rewrite Hh, andb_false_r. Qed.

Lemma take_coalesced L off b L' : take_block L off b L' → coalesced L → coalesced L'.
Proof.
  intros Ht Hc. destruct Ht as [L1 m n L2 Hn|L1 sh used i L2 Hg Hi Hb|L1 m sh L2 Hm Hsh].
  - apply coalesced_mid in Hc as (H1 & H2 & _ & H4). apply coalesced_used; [done|]. split; [done|]. by apply coalesced_rest.
  - apply coalesced_used in Hc as [H1 H2]; [|done]. by apply coalesced_used.
  - apply coalesced_mid in Hc as (H1 & H2 & _ & H4). apply coalesced_used; [done|]. split; [done|]. by apply coalesced_rest.
Qed.

Lemma freed_coalesced L1 n L2 : coalesced L1 → coalesced L2 → coalesced (freed L1 n L2).
Proof.
  intros H1 H2. unfold freed.
  assert (HA : ∀ A n', absorb_prev L1 n = (A, n') → coalesced A ∧ free_seg (last A) = false).
  { intros A n' E. destruct L1 as [|g L1 _] using rev_ind; [by injection E as <- <-|].
    rewrite absorb_prev_snoc in E. apply coalesced_mid in H1 as (H1 & _ & H3 & _).
    destruct g as [m|m|sh u]; injection E as <- <-.
    - rewrite andb_true_r in H3. done.
    - split; [by apply coalesced_used|by rewrite last_snoc].
    - split; [by apply coalesced_used|by rewrite last_snoc]. }
  destruct (absorb_prev L1 n) as [A n'] eqn:E. destruct (HA _ _ eq_refl) as [HcA HlA].
  assert (HB : ∀ n'' B, absorb_next n' L2 = (n'', B) → coalesced B ∧ free_seg (head B) = false).
  { intros n'' B EB. destruct L2 as [|g L2]; [by injection EB as <- <-|].
    destruct g as [m|m|sh u]; injection EB as <- <-; cbn [coalesced] in H2; [by destruct H2|done|done]. }
  destruct (absorb_next n' L2) as [n'' B] eqn:EB. destruct (HB _ _ eq_refl) as [HcB HlB].
  apply coalesced_mid. by rewrite HlA, HlB, andb_false_r.
Qed.

Lemma give_coalesced L off b L' : give_block L off b L' → coalesced L → coalesced L'.
Proof.
  intros Ht Hc. destruct Ht as [L1 n L2 Hg|L1 sh used i L2 Hg Hi Hne|L1 sh used i L2 Hg Hi Hnil];
    apply coalesced_used in Hc as [H1 H2]; try done; [by apply freed_coalesced|by apply coalesced_used|by apply freed_coalesced].
Qed.

(** Without blocks the pool is one free run. *)
Lemma one_run L : Forall seg_ok L → coalesced L → blocks 0 L = [] → L = [] ∨ ∃ n, L = [FreeSeg n].
Proof.
  intros HF Hc Hb. destruct L as [|g L]; [by left|right]. apply Forall_cons in HF as [Hg HF].
  assert (Hfree : ∀ g k, seg_ok g → seg_blocks k g = [] → free_seg (Some g) = true).
  { intros [m|n|sh used] k Hok; [done|done|]. simpl. intros E%fmap_nil_inv. destruct Hok as (_ & _ & _ & i & Hi & Ht).
    assert (Hin : i ∈ chunks sh used) by (by apply elem_of_chunks). rewrite E in Hin. by apply elem_of_nil in Hin. }
  cbn [blocks] in Hb. apply app_eq_nil in Hb as [Hg0 HL0].
  pose proof (Hfree g _ Hg Hg0) as Hfg. destruct L as [|h L]; [destruct g; [by eexists|done..]|].
  apply Forall_cons in HF as [Hh _]. cbn [blocks] in HL0. apply app_eq_nil in HL0 as [Hh0 _].
  pose proof (Hfree h _ Hh Hh0) as Hfh. destruct Hc as [Hc _]. cbn [head] in Hc. by rewrite Hfg, Hfh in Hc.
Qed.
