(* ===== verification/SlabRun.v ===== *)
(** * SlabRun: a pool in use

    The layout [ncx_slab_init] makes, and what any sequence of allocations
    and frees of live blocks keeps. *)
From Stdlib Require Import ZArith Lia.
From stdpp Require Import base numbers list gmap strings.
From S2P Require Import Prelude Util Bitmap BitmapOps Slab SlabLink SlabOk SlabFree SlabChunk SlabAlloc SlabNew SlabMalloc SlabGive SlabHeap.

(** ** Calls of a client

    [live] are the blocks the client holds: address and requested size.  A
    client frees what it holds. *)
Inductive call : Type := AllocCall (n : Z) | FreeCall (i : nat).
Definition call_ok (c : call) : Prop := match c with AllocCall n => 0 ≤ n < 2 ^ 64 | FreeCall _ => True end.

Definition do_call (c : call) (live : list (Z * Z)) : M pool (list (Z * Z) * list free_msg) :=
  match c with
  | AllocCall n => p ← ncx_slab_alloc_locked n; mret (if p =? 0 then live else (p, n) :: live, [])
  | FreeCall i =>
      match live !! i with
      | None => mret (live, [])
      | Some (p, _) => m ← ncx_slab_free_locked p; mret (delete i live, [m])
      end
  end.
Fixpoint calls (cs : list call) (live : list (Z * Z)) : M pool (list (Z * Z) * list free_msg) :=
  match cs with
  | [] => mret (live, [])
  | c :: cs => r ← do_call c live; t ← calls cs r.1; mret (t.1, r.2 ++ t.2)
  end.

(** ** The invariant of a pool and its client *)
Definition holds (s : pool) (u b : Z * Z) : Prop := u.1 = start s + b.1 ∧ 0 ≤ u.2 ≤ b.2.
Definition heap_ok (s : pool) (live : list (Z * Z)) : Prop :=
  ∃ L lst bs, inv s L lst ∧ coalesced L ∧ blocks 0 L ≡ₚ bs ∧ Forall2 (holds s) live bs.

Lemma holds_same s s' u b : same_pool s s' → holds s u b → holds s' u b.
Proof. intros (_ & _ & E & _). unfold holds. by rewrite E. Qed.

Lemma inv_segs s L lst : inv s L lst → Forall seg_ok L.
Proof. apply i_segs. Qed.

Lemma take_nonneg L off b L' : take_block L off b L' → 0 ≤ off.
Proof.
  intros [L1 m k L2 _|L1 sh used i L2 Hg Hi0 _|L1 m sh L2 _ Hsh]; [lia| |].
  - pose proof Hg as (Hsh & _). pose proof (reserved_two sh Hsh). pose proof (Z.pow_pos_nonneg 2 sh). nia.
  - pose proof (reserved_two sh Hsh). pose proof (Z.pow_pos_nonneg 2 sh). nia.
Qed.

Lemma alloc_call_ok s live n :
  heap_ok s live → 0 ≤ n < 2 ^ 64 →
  ∃ s' live', do_call (AllocCall n) live s = Ok ((live', []), s') ∧ heap_ok s' live' ∧ same_pool s s'
    ∧ (live' = live ∨ ∃ p, live' = (p, n) :: live).
Proof.
  intros (L & lst & bs & Hi & Hc & Hp & Hl) Hn. unfold do_call.
  destruct (alloc_locked_ok s L lst n Hi Hn) as [[E _]|(off & b & L' & s' & lst' & E & Ht & Hb & Hi' & Hsame)];
    rewrite (bind_run _ _ _ _ _ E).
  - exists s, live. split; [done|]. split; [by exists L, lst, bs|]. split; [done|by left].
  - pose proof (take_perm _ _ _ _ Ht (inv_segs _ _ _ Hi)) as Hperm.
    pose proof (take_nonneg _ _ _ _ Ht) as Hoff.
    destruct (i_addr _ _ _ Hi) as (Hst & _). destruct (Z.eqb_spec (start s + off) 0); [lia|].
    exists s', ((start s + off, n) :: live). split; [done|]. split; [|split; [done|by right; eexists]].
    exists L', lst', ((off, b) :: bs). split; [done|]. split; [by eapply take_coalesced|]. split; [by rewrite Hperm, Hp|].
    constructor; [|eapply Forall2_impl; [exact Hl|intros; by eapply holds_same]].
    destruct Hsame as (_ & _ & Es & _). unfold holds. rewrite Es. simpl. lia.
Qed.

Lemma free_call_ok s live i :
  heap_ok s live →
  ∃ s' live' ms, do_call (FreeCall i) live s = Ok ((live', ms), s') ∧ heap_ok s' live' ∧ same_pool s s'
    ∧ live' = delete i live ∧ Forall (eq Freed) ms.
Proof.
  intros (L & lst & bs & Hi & Hc & Hp & Hl). unfold do_call. destruct (live !! i) as [[p n]|] eqn:Eu.
  - destruct (Forall2_lookup_l _ _ _ _ _ Hl Eu) as ([off b] & Eb & Ep & _). simpl in Ep. subst p.
    assert (Hin : (off, b) ∈ blocks 0 L) by (rewrite Hp; by eapply list_elem_of_lookup_2).
    destruct (blocks_of 0 L off b Hin) as (o & Eo & Hblock). replace o with off in Hblock by lia.
    destruct (free_locked_ok s L lst off b Hi Hblock) as (L' & s' & lst' & E & Hgive & Hi' & Hsame).
    rewrite (bind_run _ _ _ _ _ E). exists s', (delete i live), [Freed]. split; [done|].
    split; [|split; [done|split; [done|by repeat constructor]]].
    pose proof (give_perm _ _ _ _ Hgive (inv_segs _ _ _ Hi)) as Hperm.
    exists L', lst', (delete i bs). split; [done|]. split; [by eapply give_coalesced|]. split.
    + apply (Permutation_cons_inv (a := (off, b))). rewrite <- Hperm, Hp. by apply delete_Permutation.
    + apply Forall2_delete. eapply Forall2_impl; [exact Hl|intros; by eapply holds_same].
  - exists s, live, []. split; [done|]. split; [by exists L, lst, bs|]. split; [done|]. split; [|done].
    apply lookup_ge_None in Eu. rewrite delete_take_drop, take_ge, drop_ge, app_nil_r by lia. done.
Qed.

Lemma calls_ok cs s live :
  heap_ok s live → Forall call_ok cs →
  ∃ s' live' ms, calls cs live s = Ok ((live', ms), s') ∧ heap_ok s' live' ∧ same_pool s s' ∧ Forall (eq Freed) ms.
Proof.
  intros Hh HF. revert s live Hh. induction HF as [|c cs Hc HF IH]; intros s live Hh; cbn [calls].
  - by exists s, live, [].
  - assert (∃ s1 live1 ms1, do_call c live s = Ok ((live1, ms1), s1) ∧ heap_ok s1 live1 ∧ same_pool s s1 ∧ Forall (eq Freed) ms1)
      as (s1 & live1 & ms1 & E1 & Hh1 & Hs1 & Hm1).
    { destruct c as [n|i].
      - destruct (alloc_call_ok s live n Hh Hc) as (s1 & live1 & E & ? & ? & _). by exists s1, live1, [].
      - destruct (free_call_ok s live i Hh) as (s1 & live1 & ms & E & ? & ? & _ & ?). by exists s1, live1, ms. }
    destruct (IH s1 live1 Hh1) as (s2 & live2 & ms2 & E2 & Hh2 & Hs2 & Hm2).
    rewrite (bind_run _ _ _ _ _ E1). cbn [fst]. rewrite (bind_run _ _ _ _ _ E2).
    exists s2, live2, (ms1 ++ ms2). split; [done|]. split; [done|]. split; [by eapply same_pool_trans|].
    by apply Forall_app.
Qed.

(** ** The initial pool *)
Section init.
Context (a e : Z).
Let p := a + sizeof_pool + 9 * sizeof_page.
Let pages := (e - p) / (ncx_pagesize + sizeof_page).
Let st := Z.land (p + pages * sizeof_page + (ncx_pagesize - 1)) (not64 (ncx_pagesize - 1)).
Let real := (e - st) / ncx_pagesize.

(** The entries [ncx_slab_init] makes for pages cover the pages it counts. *)
Definition init_ok : Prop := 0 < a ∧ a < e < 2 ^ 63 ∧ 1 ≤ real ≤ pages.

Hypothesis Hok : init_ok.
Let s := ncx_slab_init a e 3.

Lemma init_fields : start s = st ∧ end_ s = e ∧ real_pages s = real ∧ min_shift s = 3 ∧ min_size s = 8.
Proof. done. Qed.

Lemma init_start : st mod 4096 = 0 ∧ a < st ∧ st + 4096 * real ≤ e.
Proof.
  destruct Hok as (Ha & He & Hr & Hrp).
  assert (Hpos : 0 < ncx_pagesize + sizeof_page) by done.
  assert (Hpg : 0 ≤ pages) by lia. assert (Hpe : pages * 4120 ≤ e - p).
  { unfold pages. change (ncx_pagesize + sizeof_page) with 4120. pose proof (Z.mul_div_le (e - p) 4120). lia. }
  assert (Est : st = p + pages * 24 + 4095 - (p + pages * 24 + 4095) mod 4096).
  { unfold st. change sizeof_page with 24. change (ncx_pagesize - 1) with (2 ^ 12 - 1).
    rewrite land_not64_mask; [done| |lia]. unfold p in *. change sizeof_pool with 80 in *. change sizeof_page with 24 in *. lia. }
  pose proof (Z.mod_pos_bound (p + pages * 24 + 4095) 4096 ltac:(lia)).
  assert (Hp : p = a + 296) by (unfold p; change sizeof_pool with 80; change sizeof_page with 24; lia).
  split; [rewrite Est; apply sub_mod_multiple; lia|]. split; [lia|].
  unfold real. change ncx_pagesize with 4096. pose proof (Z.mul_div_le (e - st) 4096). lia.
Qed.

Lemma init_head : nodes s !! FreeP = Some (mkPage 0 (PageP 0) (Null, 0)).
Proof. apply lookup_insert_eq. Qed.

Lemma init_first : nodes s !! PageP 0 = Some (mkPage real FreeP (FreeP, 0)).
Proof. cbn [s ncx_slab_init nodes]. rewrite lookup_insert_ne by done. apply lookup_insert_eq. Qed.

Lemma init_slot i : (i < 9)%nat → nodes s !! SlotP i = Some (mkPage 0 (SlotP i) (Null, 0)).
Proof.
  intros Hi. cbn [s ncx_slab_init nodes]. rewrite !lookup_insert_ne by done. apply lookup_union_Some_l.
  apply elem_of_list_to_map_1'.
  - intros y (j & [= -> ->] & _)%list_elem_of_fmap. done.
  - apply list_elem_of_fmap. exists i. split; [done|]. apply elem_of_seq. change (Z.to_nat _) with 9%nat. lia.
Qed.

Lemma init_page k : (0 < k)%nat → Z.of_nat k < pages → nodes s !! PageP k = Some zero_page.
Proof.
  intros Hk Hkp. cbn [s ncx_slab_init nodes]. rewrite !lookup_insert_ne by (done || (intros [=]; lia)).
  rewrite lookup_union_r.
  - apply elem_of_list_to_map_1'; [intros y (j & [= _ ->] & _)%list_elem_of_fmap; done|].
    apply list_elem_of_fmap. exists k. split; [done|]. apply elem_of_seq. split; [lia|]. change (k < 0 + Z.to_nat pages)%nat. lia.
  - apply not_elem_of_list_to_map_1. rewrite <- list_fmap_compose. intros (j & E & _)%list_elem_of_fmap. done.
Qed.

Definition init_lists (q : ptr) : list nat := if decide (q = FreeP) then [0%nat] else [].

Lemma init_layout : inv s [FreeSeg (Z.to_nat real)] init_lists.
Proof.
  pose proof init_start as (Hs & Hst & He). destruct Hok as (Ha & Hae & Hr & Hrp).
  pose proof (seg_len_ok (FreeSeg (Z.to_nat real)) ltac:(simpl; lia)) as [Hlen _]. cbn [seg_len] in Hlen.
  assert (Hp : pages_in [FreeSeg (Z.to_nat real)] = Z.to_nat real).
  { rewrite pages_cons by (simpl; lia). unfold pages_in. simpl. lia. }
  assert (Ek : kinds [FreeSeg (Z.to_nat real)] = kinds_of (FreeSeg (Z.to_nat real))) by apply app_nil_r.
  destruct init_fields as (F1 & F2 & F3 & F4 & F5). constructor.
  - done.
  - rewrite F1, F2, F3. split; [lia|]. split; [done|]. lia.
  - rewrite Hp, F3. lia.
  - apply Forall_singleton. simpl. lia.
  - intros j kd Hj. rewrite Ek, kinds_free in Hj by lia. destruct (decide (j = 0)%nat) as [->|]; [injection Hj as <-|].
    + unfold kind_ok, sb. rewrite init_first. simpl. f_equal. lia.
    + case_decide; [|done]. injection Hj as <-. apply init_page; lia.
  - intros q Hq. destruct Hq as [->|(i & Hi & ->)].
    + split; [|split; [apply NoDup_singleton|]].
      * change (init_lists FreeP) with [0%nat]. cbn [dll]. unfold nx, pv. by rewrite init_head, init_first.
      * intros k. unfold home_of. rewrite Ek, kinds_free by lia. change (init_lists FreeP) with [0%nat].
        rewrite list_elem_of_singleton. destruct (decide (k = 0)%nat); [done|]. by case_decide.
    + split; [|split; [constructor|]].
      * change (init_lists (SlotP i)) with (@nil nat). cbn [dll]. unfold nx. by rewrite init_slot.
      * intros k. unfold home_of. rewrite Ek, kinds_free by lia. change (init_lists (SlotP i)) with (@nil nat).
        rewrite elem_of_nil. split; [done|]. repeat (case_decide; try done).
Qed.

Lemma init_heap : heap_ok s [].
Proof.
  exists [FreeSeg (Z.to_nat real)], init_lists, []. split; [apply init_layout|]. split; [done|]. split; [done|constructor].
Qed.
End init.

#[export] Instance init_ok_dec a e : Decision (init_ok a e).
Proof. unfold init_ok. apply _. Defined.

(** ** What the client gets *)
Lemma holds_bytes s live bs :
  Forall2 (holds s) live bs → (live ≫= bytes) `sublist_of` ((Z.add (start s) <$> (bs ≫= bytes))).
Proof.
  induction 1 as [|u b live bs [H1 H2] _ IH]; [constructor|]. cbn [mbind list_bind]. rewrite fmap_app.
  apply sublist_app; [|exact IH]. unfold bytes at 1 2. rewrite H1.
  replace b.2 with (u.2 + (b.2 - u.2)) by lia. rewrite seqZ_app by lia. rewrite fmap_app.
  apply sublist_inserts_r. rewrite fmap_add_seqZ. by rewrite Z.add_comm.
Qed.

Lemma heap_apart s live :
  heap_ok s live →
  NoDup (live ≫= bytes) ∧ ∀ x, x ∈ live ≫= bytes → start s ≤ x < end_ s.
Proof.
  intros (L & lst & bs & Hi & Hc & Hp & Hl). destruct (blocks_bytes 0 L (inv_segs _ _ _ Hi)) as [Hr Hnd].
  pose proof (holds_bytes _ _ _ Hl) as Hsub. rewrite Hp in Hnd. split.
  - eapply sublist_NoDup; [|exact Hsub]. apply NoDup_fmap_2; [intros x y; lia|done].
  - intros x Hx. eapply elem_of_sublist in Hsub; [|exact Hx]. apply list_elem_of_fmap in Hsub as (o & -> & Ho).
    rewrite <- Hp in Ho. apply Hr in Ho. destruct (i_addr _ _ _ Hi) as (_ & _ & He & _). pose proof (i_len _ _ _ Hi). lia.
Qed.

(** Blocks are aligned for any type of 8 bytes. *)
Lemma block_aligned L off b : Forall seg_ok L → block_of L off b → off mod 8 = 0.
Proof.
  intros HF Hb. destruct Hb as [L1 n L2|L1 sh used i L2 Hi].
  - replace (4096 * Z.of_nat (pages_in L1)) with (512 * Z.of_nat (pages_in L1) * 8) by lia. by apply Z.mod_mul.
  - apply Forall_app in HF as [_ HF]. apply Forall_cons in HF as [(Hsh & _) _].
    assert (E : 2 ^ sh = 2 ^ (sh - 3) * 8) by (change 8 with (2 ^ 3); rewrite <- Z.pow_add_r by lia; f_equal; lia).
    rewrite E. replace (4096 * Z.of_nat (pages_in L1) + i * (2 ^ (sh - 3) * 8))
      with ((512 * Z.of_nat (pages_in L1) + i * 2 ^ (sh - 3)) * 8) by lia. by apply Z.mod_mul.
Qed.

Lemma heap_aligned s live p n : heap_ok s live → (p, n) ∈ live → p mod 8 = 0.
Proof.
  intros (L & lst & bs & Hi & Hc & Hp & Hl) Hin. apply list_elem_of_lookup in Hin as [i Hin].
  destruct (Forall2_lookup_l _ _ _ _ _ Hl Hin) as ([off b] & Eb & Ep & _). simpl in Ep.
  assert (Hb : (off, b) ∈ blocks 0 L) by (rewrite Hp; by eapply list_elem_of_lookup_2).
  destruct (blocks_of 0 L off b Hb) as (o & Eo & Hblock).
  pose proof (block_aligned L o b (inv_segs _ _ _ Hi) Hblock) as Ho. destruct (i_addr _ _ _ Hi) as (_ & Hs & _).
  rewrite Ep. replace off with o by lia. rewrite Z.add_mod by lia.
  assert (Hs8 : start s mod 8 = 0).
  { rewrite (Z.div_mod (start s) 4096), Hs by lia. replace (4096 * (start s / 4096) + 0) with (512 * (start s / 4096) * 8) by lia.
    by apply Z.mod_mul. }
  by rewrite Hs8, Ho.
Qed.

(** When the client holds nothing, the pool can be had as a whole. *)
Lemma heap_empty s n :
  heap_ok s [] → 1 ≤ real_pages s → 0 ≤ n ≤ 4096 * real_pages s →
  ∃ p s', ncx_slab_alloc_locked n s = Ok (p, s') ∧ p ≠ 0.
Proof.
  intros (L & lst & bs & Hi & Hc & Hp & Hl) Hr Hn. apply Forall2_nil_inv_l in Hl as ->.
  apply Permutation_nil_r in Hp. pose proof (i_len _ _ _ Hi) as Hlen. pose proof (inv_small _ _ _ Hi) as Hsm.
  destruct (alloc_locked_ok s L lst n Hi) as [[_ [Hno _]]|(off & b & L' & s' & lst' & E & Ht & Hb & Hi' & Hsame)]; [lia| |].
  - exfalso. destruct (one_run L (inv_segs _ _ _ Hi) Hc Hp) as [->|(m & ->)]; [unfold pages_in in Hlen; simpl in Hlen; lia|].
    specialize (Hno m ltac:(by left)). pose proof (inv_segs _ _ _ Hi) as HF. apply Forall_cons in HF as [Hm _].
    rewrite pages_cons in Hlen by done. unfold pages_in in Hlen. simpl in Hlen. lia.
  - exists (start s + off), s'. split; [exact E|]. destruct (i_addr _ _ _ Hi) as (Hst & _).
    assert (0 ≤ off); [|lia]. eapply take_nonneg; done.
Qed.

(** ** The pool in shared memory *)
Definition SHM_START_ADDR : Z := 140668768878592.
Definition SHM_SIZE : Z := 200 * 2 ^ 20.

(** [shared_slab_init(index)] at the address [shm_base]: the pool always
    starts behind the first page, its end depends on the index. *)
Definition shared_slab_init (shm_base index : Z) : pool :=
  ncx_slab_init (shm_base + 4096) (shm_base + 4096 + index * (SHM_SIZE / 2) + SHM_SIZE / 2) 3.

Lemma shared_ok : init_ok (SHM_START_ADDR + 4096) (SHM_START_ADDR + 4096 + 0 * (SHM_SIZE / 2) + SHM_SIZE / 2).
Proof. apply (bool_decide_unpack _). by vm_compute. Qed.

(** ** The theorems *)

(** C15: The slab allocator implements a sequence of segments, free runs,
    runs in use and pages of chunks with a set of chunks in use: on a pool
    with a layout an allocation takes a block of at least the requested size
    out of a segment, or returns 0 and changes nothing when no free run is
    long enough and all pages of the size are full, and freeing a block of
    the layout clears its chunk or returns its pages to the free runs beside
    them. Sizes are below 2^64. *)
Theorem slab_refines_layout s L lst :
  inv s L lst →
  (∀ n, 0 ≤ n < 2 ^ 64 →
     (ncx_slab_alloc_locked n s = Ok (0, s) ∧ no_room L n)
     ∨ ∃ off b L' s' lst', ncx_slab_alloc_locked n s = Ok (start s + off, s')
         ∧ take_block L off b L' ∧ n ≤ b ∧ inv s' L' lst')
  ∧ ∀ off b, block_of L off b →
     ∃ L' s' lst', ncx_slab_free_locked (start s + off) s = Ok (Freed, s') ∧ give_block L off b L' ∧ inv s' L' lst'.
Proof.
  intros Hi. split.
  - intros n Hn. destruct (alloc_locked_ok s L lst n Hi Hn) as [?|(off & b & L' & s' & lst' & ? & ? & ? & ? & _)]; [by left|].
    right. by exists off, b, L', s', lst'.
  - intros off b Hb. destruct (free_locked_ok s L lst off b Hi Hb) as (L' & s' & lst' & ? & ? & ? & _). by exists L', s', lst'.
Qed.

(** C13: From a pool that ncx_slab_init made, every sequence of allocations
    and of frees of live blocks runs to its end, every free is accepted, and
    the live blocks, with the sizes asked for, do not share a byte, lie
    inside the pool and are aligned to 8 bytes, whatever mix of chunks of all
    sizes, pages and runs of pages they are. Sizes are below 2^64; the pool
    begins above address 0 and ends below 2^63, and the page entries that
    ncx_slab_init makes cover the pages it counts, at least one (init_ok).
    This holds for the pool of the file system (shared_ok) but not for every
    size: for 160 pages the count is one more than there are entries, and an
    allocation writes behind them (init_counts_too_many, init_overrun_fault,
    the finding at ncx_slab.c:109). *)
Theorem slab_blocks_apart a e cs :
  init_ok a e → Forall call_ok cs →
  ∃ s live ms, calls cs [] (ncx_slab_init a e 3) = Ok ((live, ms), s)
    ∧ Forall (eq Freed) ms
    ∧ NoDup (live ≫= bytes)
    ∧ (∀ x, x ∈ live ≫= bytes → a < x < e)
    ∧ ∀ p n, (p, n) ∈ live → p mod 8 = 0.
Proof.
  intros Hok Hcs. destruct (calls_ok cs _ [] (init_heap a e Hok) Hcs) as (s & live & ms & E & Hh & Hsame & Hms).
  exists s, live, ms. split; [exact E|]. split; [done|]. destruct (heap_apart s live Hh) as [Hnd Hr].
  split; [done|]. split; [|intros p n; by eapply heap_aligned]. intros x Hx. apply Hr in Hx.
  destruct Hsame as (_ & _ & Hst & He & _). rewrite Hst, He in Hx.
  destruct (init_start a e Hok) as (_ & Hlt & _). change (end_ (ncx_slab_init a e 3)) with e in Hx.
  destruct (init_fields a e) as (Es & _). rewrite Es in Hx. lia.
Qed.

(** C14: After any sequence of allocations and frees on a pool that
    ncx_slab_init made that leaves no block live, the pool can be had as one
    block again: empty pages were given back and free runs merged, so an
    allocation of any size up to that of the whole pool succeeds. As for
    slab_blocks_apart, sizes are below 2^64; the pool begins above address 0
    and ends below 2^63, and the page entries that ncx_slab_init makes cover
    the pages it counts, at least one (init_ok). This holds for the pool of
    the file system (shared_ok) but not for every size: for 160 pages the
    count is one more than there are entries, and an allocation writes behind
    them (init_counts_too_many, init_overrun_fault, the finding at
    ncx_slab.c:109). *)
Theorem slab_nothing_lost a e cs s ms n :
  init_ok a e → Forall call_ok cs →
  calls cs [] (ncx_slab_init a e 3) = Ok (([], ms), s) →
  0 ≤ n ≤ 4096 * real_pages (ncx_slab_init a e 3) →
  ∃ p s', ncx_slab_alloc_locked n s = Ok (p, s') ∧ p ≠ 0.
Proof.
  intros Hok Hcs Er Hn. destruct (calls_ok cs _ [] (init_heap a e Hok) Hcs) as (s2 & live & ms2 & E & Hh & Hsame & _).
  rewrite E in Er. injection Er as -> _ ->. destruct Hsame as (_ & _ & _ & _ & Ere). apply heap_empty; [done| |by rewrite Ere].
  rewrite Ere. destruct (init_fields a e) as (_ & _ & -> & _). by destruct Hok as (_ & _ & ? & _).
Qed.

(** ** Witnesses and examples *)

(** Sixteen pages, one of them for the descriptors. *)
Definition demo_pool : pool := ncx_slab_init 65536 131072 3.
Definition result_of {A} (m : M pool A) (s : pool) : option A := match m s with Ok (r, _) => Some r | _ => None end.
Definition demo_calls : list call :=
  [AllocCall 8; AllocCall 64; AllocCall 1000; AllocCall 5000; AllocCall 8; FreeCall 4; FreeCall 2].

Lemma demo_init : init_ok 65536 131072.
Proof. apply (bool_decide_unpack _). by vm_compute. Qed.
Lemma demo_calls_ok : Forall call_ok demo_calls.
Proof. repeat constructor; done. Qed.

Lemma slab_refines_layout_witness :
  ∃ off b L' s' lst', ncx_slab_alloc_locked 100 demo_pool = Ok (start demo_pool + off, s')
    ∧ take_block [FreeSeg 15] off b L' ∧ 100 ≤ b ∧ inv s' L' lst'.
Proof.
  destruct (slab_refines_layout demo_pool [FreeSeg 15] init_lists (init_layout 65536 131072 demo_init)) as [H _].
  destruct (H 100) as [[H0 _]|H1]; [lia| |exact H1].
  exfalso. assert (Hp : result_of (ncx_slab_alloc_locked 100) demo_pool = Some 69632) by (by vm_compute).
  unfold result_of in Hp. by rewrite H0 in Hp.
Defined.

Lemma slab_blocks_apart_witness :
  ∃ s live ms, calls demo_calls [] demo_pool = Ok ((live, ms), s)
    ∧ Forall (eq Freed) ms ∧ NoDup (live ≫= bytes) ∧ (∀ x, x ∈ live ≫= bytes → 65536 < x < 131072)
    ∧ ∀ p n, (p, n) ∈ live → p mod 8 = 0.
Proof. apply (slab_blocks_apart 65536 131072 demo_calls demo_init demo_calls_ok). Defined.

(** What the calls return there. *)
Example demo_live :
  fst <$> result_of (calls demo_calls []) demo_pool = Some [(69704, 8); (81920, 5000); (73728, 64)].
Proof. by vm_compute. Qed.

Definition demo_all : list call := demo_calls ++ [FreeCall 0; FreeCall 1; FreeCall 0].
Lemma slab_nothing_lost_witness :
  ∃ s ms, calls demo_all [] demo_pool = Ok (([], ms), s) ∧ ∃ p s', ncx_slab_alloc_locked 61440 s = Ok (p, s') ∧ p ≠ 0.
Proof.
  assert (Hc : Forall call_ok demo_all) by (repeat constructor; done).
  destruct (calls_ok demo_all _ [] (init_heap 65536 131072 demo_init) Hc) as (s & live & ms & E & _).
  assert (El : fst <$> result_of (calls demo_all []) demo_pool = Some []) by (by vm_compute).
  unfold result_of in El. fold demo_pool in E. rewrite E in El. injection El as ->.
  exists s, ms.
  split; [done|]. apply (slab_nothing_lost 65536 131072 demo_all s ms 61440 demo_init Hc E). vm_compute. split; discriminate.
Defined.

(** A pool of 160 pages: the array has 158 entries, the free run 159 pages. *)
Lemma init_counts_too_many :
  let s := ncx_slab_init 65536 (65536 + 160 * 4096) 3 in
  real_pages s = 159 ∧ nodes s !! PageP 158 = None ∧ slab <$> nodes s !! PageP 0 = Some 159.
Proof. by vm_compute. Qed.

(** An allocation of the whole run writes behind the array. *)
Lemma init_overrun_fault :
  ncx_slab_alloc_locked (159 * 4096) (ncx_slab_init 65536 (65536 + 160 * 4096) 3) = Fault "not a page entry".
Proof. by vm_compute. Qed.

(** The second region begins where the first does. *)
Lemma shared_second_region :
  start (shared_slab_init SHM_START_ADDR 1) < SHM_START_ADDR + 4096 + SHM_SIZE / 2.
Proof. unfold shared_slab_init. rewrite (proj1 (init_fields _ _)). by vm_compute. Qed.

(** Freeing the address of a bitmap is accepted; the chunk it gives back is
    the bitmap itself. *)
Lemma free_of_bitmap :
  match (p ← ncx_slab_alloc_locked 8; m ← ncx_slab_free_locked (start demo_pool); q ← ncx_slab_alloc_locked 8;
         mret (p, m, q)) demo_pool with
  | Ok (r, _) => r = (start demo_pool + 64, Freed, start demo_pool)
  | _ => False
  end.
Proof. by vm_compute. Qed.
