(* ===== verification/SlabStat.v ===== *)
(** * SlabStat: the statistics of a pool

    [ncx_slab_stat] walks over the page array and counts pages and bytes by
    type.  On a pool with a layout it counts what the layout says. *)
From Stdlib Require Import ZArith Lia.
From stdpp Require Import base numbers list gmap strings.
From S2P Require Import Prelude Util Bitmap BitmapOps Slab SlabLink SlabOk SlabFree SlabChunk SlabAlloc SlabNew SlabMalloc SlabGive SlabHeap SlabRun.

(** ** The model *)

(** [ncx_slab_stat_t]. *)
Record slab_stat : Type := mkStat {
  pool_size : Z; used_size : Z; used_pct : Z;
  stat_pages : Z; free_page : Z;
  p_small : Z; p_exact : Z; p_big : Z; p_page : Z;
  b_small : Z; b_exact : Z; b_big : Z; b_page : Z;
  max_free_pages : Z
}.
Definition stat0 (pages : Z) : slab_stat := mkStat 0 0 0 pages 0 0 0 0 0 0 0 0 0 0.

Definition add_small (b : Z) (t : slab_stat) : slab_stat :=
  mkStat (pool_size t) (used_size t + b) (used_pct t) (stat_pages t) (free_page t) (p_small t + 1) (p_exact t) (p_big t)
    (p_page t) (b_small t + b) (b_exact t) (b_big t) (b_page t) (max_free_pages t).
Definition add_exact (b : Z) (t : slab_stat) : slab_stat :=
  mkStat (pool_size t) (used_size t + b) (used_pct t) (stat_pages t) (free_page t) (p_small t) (p_exact t + 1) (p_big t)
    (p_page t) (b_small t) (b_exact t + b) (b_big t) (b_page t) (max_free_pages t).
Definition add_big (b : Z) (t : slab_stat) : slab_stat :=
  mkStat (pool_size t) (used_size t + b) (used_pct t) (stat_pages t) (free_page t) (p_small t) (p_exact t) (p_big t + 1)
    (p_page t) (b_small t) (b_exact t) (b_big t + b) (b_page t) (max_free_pages t).
Definition add_run (n : Z) (t : slab_stat) : slab_stat :=
  mkStat (pool_size t) (used_size t + n * ncx_pagesize) (used_pct t) (stat_pages t) (free_page t) (p_small t) (p_exact t)
    (p_big t) (p_page t + n) (b_small t) (b_exact t) (b_big t) (b_page t + n * ncx_pagesize) (max_free_pages t).
Definition add_free (n : Z) (t : slab_stat) : slab_stat :=
  mkStat (pool_size t) (used_size t) (used_pct t) (stat_pages t) (free_page t + n) (p_small t) (p_exact t) (p_big t)
    (p_page t) (b_small t) (b_exact t) (b_big t) (b_page t) (if max_free_pages t <? n then n else max_free_pages t).

(** [for (m = 1; m; m <<= 1) if (w & m) used += size]. *)
Definition bits_used (w : Z) : Z := bsum (Z.testbit w) 0 64.
(** The same loop over the mask of a page of big chunks. *)
Fixpoint big_used (slab mask i : Z) (fuel : nat) : Z :=
  match fuel with
  | O => 0
  | S fuel =>
      if Z.testbit mask (NCX_SLAB_MAP_SHIFT + i)
      then Z.b2z (Z.testbit slab (NCX_SLAB_MAP_SHIFT + i)) + big_used slab mask (i + 1) fuel
      else 0
  end.

(** One page of the walk: what it adds, and the pages to skip. *)
Definition stat_page (k : nat) (t : slab_stat) : M pool (slab_stat * Z) :=
  pg ← node (PageP k);
  let slab := slab pg in
  if (prev pg).2 =? NCX_SLAB_SMALL then
    m ← get_map k;
    mret (add_small (foldr (λ j n, bits_used (word m j) * shl64 1 slab + n) 0 (seqZ 0 (map_words slab))) t, 0)
  else if (prev pg).2 =? NCX_SLAB_EXACT then
    mret (add_exact (if slab =? NCX_SLAB_BUSY then 8 * 8 * ncx_slab_exact_size else bits_used slab * ncx_slab_exact_size) t, 0)
  else if (prev pg).2 =? NCX_SLAB_BIG then
    mret (add_big (big_used slab (big_mask slab) 0 33 * shl64 1 (Z.land slab NCX_SLAB_SHIFT_MASK)) t, 0)
  else if bool_decide (prev pg = (Null, 0)) then
    let n := Z.land slab (not64 NCX_SLAB_PAGE_START) in mret (add_run n t, n - 1)
  else mret (add_free slab t, slab - 1).

Fixpoint stat_loop (i : Z) (t : slab_stat) (fuel : nat) : M pool slab_stat :=
  if i <? stat_pages t then
    match fuel with
    | O => nofuel
    | S fuel => r ← stat_page (Z.to_nat i) t; stat_loop (u64 (i + r.2) + 1) r.1 fuel
    end
  else mret t.

(** [ncx_slab_stat(pool, stat)]. *)
Definition ncx_slab_stat : M pool slab_stat :=
  s ← get;
  let pages := (end_ s - start s) / ncx_pagesize in
  t ← stat_loop 0 (stat0 pages) (Z.to_nat pages);
  let size := end_ s - start s in
  mret (mkStat size (used_size t) (used_size t * 100 / size) (stat_pages t) (free_page t) (p_small t) (p_exact t) (p_big t)
    (p_page t) (b_small t) (b_exact t) (b_big t) (b_page t) (max_free_pages t)).

(** ** What a layout says *)
Definition chunk_bytes (sh used : Z) : Z := bsum (Z.testbit used) 0 (count sh) * 2 ^ sh.
Definition add_seg (g : seg) (t : slab_stat) : slab_stat :=
  match g with
  | FreeSeg n => add_free (Z.of_nat n) t
  | RunSeg n => add_run (Z.of_nat n) t
  | ChunkSeg sh used =>
      let b := chunk_bytes sh used in
      if sh <? 6 then add_small b t else if sh =? 6 then add_exact b t else add_big b t
  end.
Definition stat_of (L : list seg) (t : slab_stat) : slab_stat := foldl (λ t g, add_seg g t) t L.

(** ** The counts agree *)
Lemma small_bytes m sh used :
  3 ≤ sh < 6 → map_ok m sh used →
  foldr (λ j n, bits_used (word m j) * shl64 1 sh + n) 0 (seqZ 0 (map_words sh)) = chunk_bytes sh used.
Proof.
  intros Hsh (Hm & Hl & Hb). destruct (count_bounds sh ltac:(lia)) as (_ & _ & _ & _ & Hs).
  destruct Hs as (Hc & Hw & _); [lia|]. unfold chunk_bytes. rewrite Hc.
  rewrite (bsum_ext _ (test_bit m)) by (intros i Hi; symmetry; apply Hb; lia).
  assert (E1 : shl64 1 sh = 2 ^ sh).
  { rewrite shl64_small; [lia|lia|]. pose proof (Z.pow_lt_mono_r 2 sh 64). pose proof (Z.pow_pos_nonneg 2 sh). lia. }
  rewrite E1. clear. assert (H : ∀ (n : nat) lo, 0 ≤ lo →
    foldr (λ j n, bits_used (word m j) * 2 ^ sh + n) 0 (seqZ lo (Z.of_nat n)) = bsum (test_bit m) (lo * 64) (64 * Z.of_nat n) * 2 ^ sh).
  { induction n as [|n IH]; intros lo Hlo; [done|].
    rewrite seqZ_cons by lia. cbn [foldr]. replace (Z.pred (Z.of_nat (S n))) with (Z.of_nat n) by lia.
    rewrite IH by lia. replace (64 * Z.of_nat (S n)) with (64 + 64 * Z.of_nat n) by lia.
    rewrite bsum_app by lia. replace (lo * 64 + 64) with (Z.succ lo * 64) by lia.
    assert (E : bits_used (word m lo) = bsum (test_bit m) (lo * 64) 64); [|rewrite E; lia].
    unfold bits_used. replace (lo * 64) with (0 + lo * 64) by lia. rewrite bsum_shift. apply bsum_ext.
    intros i Hi. symmetry. rewrite Z.add_comm. apply test_bit_word. lia. }
  destruct (decide (0 ≤ map_words sh)).
  - specialize (H (Z.to_nat (map_words sh)) 0 ltac:(lia)). rewrite Z2Nat.id in H by done. by rewrite H.
  - rewrite seqZ_nil by lia. unfold bsum. by rewrite seqZ_nil by lia.
Qed.

Lemma ones_bsum n w : n = 64 → bits_used w = bsum (Z.testbit w) 0 n.
Proof. by intros ->. Qed.

Lemma big_bytes sh used i fuel :
  6 < sh ≤ 11 → 0 ≤ i ≤ count sh → count sh - i < Z.of_nat fuel →
  big_used (used * 2 ^ 32 + sh) (Z.ones (count sh) * 2 ^ 32) i fuel = bsum (Z.testbit used) i (count sh - i).
Proof.
  intros Hsh. revert i. induction fuel as [|fuel IH]; intros i Hi Hf; [lia|]. cbn [big_used].
  rewrite big_testbit by lia. change NCX_SLAB_MAP_SHIFT with 32. rewrite shifted_bits by lia.
  destruct (Z.ltb_spec (32 + i) 32); [lia|]. replace (32 + i - 32) with i by lia. destruct (decide (i < count sh)).
  - rewrite Z.ones_spec_low by lia. rewrite IH by lia. unfold bsum. rewrite (seqZ_cons i) by lia. cbn [foldr].
    do 3 f_equal; lia.
  - rewrite Z.ones_spec_high by lia. unfold bsum. by rewrite seqZ_nil by lia.
Qed.

Lemma shl_one sh : 3 ≤ sh ≤ 11 → shl64 1 sh = 2 ^ sh.
Proof.
  intros Hsh. rewrite shl64_small; [lia|lia|]. pose proof (Z.pow_lt_mono_r 2 sh 64). pose proof (Z.pow_pos_nonneg 2 sh). lia.
Qed.

(** A page of chunks, a run and a free run. *)
Lemma stat_chunk_ok s L1 sh used L2 lst t :
  inv s (L1 ++ ChunkSeg sh used :: L2) lst →
  stat_page (pages_in L1) t s = Ok ((add_seg (ChunkSeg sh used) t, 0), s).
Proof.
  intros Hi. destruct (chunk_page _ _ _ _ _ _ Hi) as (Hg & [_ Hmap] & pg & E & Esb). pose proof Hg as (Hsh & Hu & _).
  destruct (chunk_links _ _ _ _ _ _ _ Hi E) as [Hty _]. unfold stat_page. rewrite (node_run _ pg) by done.
  rewrite Hty, Esb. unfold type_of, slab_of, add_seg. destruct (Z.ltb_spec sh 6) as [H6|H6].
  - destruct (Hmap H6) as (m & Em & Hm). change (NCX_SLAB_SMALL =? NCX_SLAB_SMALL) with true. cbv beta iota zeta.
    rewrite bind_run with (a := m) (s' := s) by (unfold get_map; by rewrite Em).
    rewrite (small_bytes m sh used) by (done || lia). done.
  - destruct (Z.eqb_spec sh 6) as [->|H7].
    + change (NCX_SLAB_EXACT =? NCX_SLAB_SMALL) with false. change (NCX_SLAB_EXACT =? NCX_SLAB_EXACT) with true.
      change (2 ^ count 6) with (2 ^ 64) in Hu. cbv beta iota zeta.
      assert (E6 : (if used =? NCX_SLAB_BUSY then 8 * 8 * ncx_slab_exact_size else bits_used used * ncx_slab_exact_size)
        = chunk_bytes 6 used); [|by rewrite E6].
      change ncx_slab_exact_size with 64. destruct (Z.eqb_spec used NCX_SLAB_BUSY) as [->|]; done.
    + change (NCX_SLAB_BIG =? NCX_SLAB_SMALL) with false. change (NCX_SLAB_BIG =? NCX_SLAB_EXACT) with false.
      change (NCX_SLAB_BIG =? NCX_SLAB_BIG) with true. cbv beta iota zeta.
      pose proof (count_bounds sh Hsh) as (Hc & _ & _ & Hc32 & _).
      rewrite big_mask_value, big_shift, big_bytes, shl_one, Z.sub_0_r by lia. done.
Qed.

Lemma stat_run_ok s L1 n L2 lst t :
  inv s (L1 ++ RunSeg n :: L2) lst →
  stat_page (pages_in L1) t s = Ok ((add_seg (RunSeg n) t, Z.of_nat n - 1), s).
Proof.
  intros Hi. pose proof (inv_hole _ _ _ _ _ Hi) as Hh. destruct (hole_seg _ _ _ _ _ Hh) as (Hg & _).
  pose proof (i_kind _ _ _ Hi (pages_in L1) (KRun n)) as Hk. rewrite kinds_head in Hk by done. specialize (Hk eq_refl). simpl in Hk.
  pose proof (inv_small _ _ _ Hi) as Hsm. rewrite pages_app, pages_cons in Hsm by done. simpl in Hsm.
  unfold stat_page. rewrite (node_run _ _ _ _ Hk). cbn [prev slab snd Z.eqb NCX_SLAB_SMALL NCX_SLAB_EXACT NCX_SLAB_BIG].
  rewrite bool_decide_eq_true_2 by done. change (not64 NCX_SLAB_PAGE_START) with (2 ^ 63 - 1). rewrite land_mask by lia.
  rewrite <- (Z.mul_1_l (2 ^ 63)) at 1. rewrite Z.mod_add by lia.
  rewrite <- (Z.mul_1_l (2 ^ 63)) at 2. rewrite Z.mod_add by lia. rewrite !Z.mod_small by lia. done.
Qed.

Lemma stat_free_ok s L1 n L2 lst t :
  inv s (L1 ++ FreeSeg n :: L2) lst →
  stat_page (pages_in L1) t s = Ok ((add_seg (FreeSeg n) t, Z.of_nat n - 1), s).
Proof.
  intros Hi. pose proof (inv_hole _ _ _ _ _ Hi) as Hh. destruct (hole_seg _ _ _ _ _ Hh) as (Hg & _).
  pose proof (i_kind _ _ _ Hi (pages_in L1) (KFree n)) as Hk. rewrite kinds_head in Hk by done. specialize (Hk eq_refl). simpl in Hk.
  unfold sb in Hk. destruct (nodes s !! PageP (pages_in L1)) as [pg|] eqn:E; [|done]. simpl in Hk. injection Hk as Hk.
  assert (Hhome : home_of (L1 ++ FreeSeg n :: L2) (pages_in L1) = Some FreeP) by (by rewrite home_first).
  destruct (links_at _ _ _ _ _ _ (i_links _ _ _ Hi) sentinel_free Hhome E) as (a & b & _ & _ & Ep & _).
  unfold stat_page. rewrite (node_run _ pg) by done. rewrite Ep, Hk. cbn [snd tag_of Z.eqb NCX_SLAB_SMALL NCX_SLAB_EXACT NCX_SLAB_BIG].
  rewrite bool_decide_eq_false_2; [done|]. intros [= Eb]. unfold before in Eb. by destruct (last a).
Qed.

Lemma stat_seg_ok s L1 g L2 lst t :
  inv s (L1 ++ g :: L2) lst → stat_page (pages_in L1) t s = Ok ((add_seg g t, Z.of_nat (seg_len g) - 1), s).
Proof.
  intros Hi. destruct g as [n|n|sh used]; [by eapply stat_free_ok|by eapply stat_run_ok|by eapply stat_chunk_ok].
Qed.

Lemma add_seg_pages g t : stat_pages (add_seg g t) = stat_pages t.
Proof. destruct g as [n|n|sh used]; [done|done|]. simpl. destruct (sh <? 6); [done|]. by destruct (sh =? 6). Qed.

Lemma stat_loop_ok s L2 L1 lst t fuel :
  inv s (L1 ++ L2) lst → stat_pages t = Z.of_nat (pages_in (L1 ++ L2)) → (length L2 ≤ fuel)%nat →
  stat_loop (Z.of_nat (pages_in L1)) t fuel s = Ok (stat_of L2 t, s).
Proof.
  revert L1 t fuel. induction L2 as [|g L2 IH]; intros L1 t fuel Hi Ht Hf.
  - rewrite app_nil_r in Ht. destruct fuel; simpl; rewrite Ht; by destruct (Z.ltb_spec (Z.of_nat (pages_in L1)) (Z.of_nat (pages_in L1))); [lia|].
  - pose proof (inv_hole _ _ _ _ _ Hi) as Hh. destruct (hole_seg _ _ _ _ _ Hh) as (Hg & _).
    pose proof (seg_len_ok g Hg) as [_ Hl]. pose proof (inv_small _ _ _ Hi) as Hsm. rewrite pages_app, pages_cons in Ht, Hsm by done.
    destruct fuel as [|fuel]; [simpl in Hf; lia|]. cbn [stat_loop]. rewrite Ht.
    destruct (Z.ltb_spec (Z.of_nat (pages_in L1)) (Z.of_nat (pages_in L1 + (seg_len g + pages_in L2)))); [|lia].
    rewrite Nat2Z.id. rewrite (bind_run _ _ _ _ _ (stat_seg_ok s L1 g L2 lst t Hi)). cbn [fst snd].
    rewrite u64_small by lia. replace (Z.of_nat (pages_in L1) + (Z.of_nat (seg_len g) - 1) + 1)
      with (Z.of_nat (pages_in (L1 ++ [g]))) by (rewrite pages_app, pages_cons by done; unfold pages_in at 2; simpl; lia).
    change (stat_of (g :: L2) t) with (stat_of L2 (add_seg g t)). apply IH.
    + by rewrite <- app_assoc.
    + rewrite add_seg_pages, <- app_assoc, Ht, pages_app. simpl app. by rewrite pages_cons.
    + simpl in Hf. lia.
Qed.

Lemma seg_count L : Forall seg_ok L → (length L ≤ pages_in L)%nat.
Proof.
  induction 1 as [|g L Hg HL IH]; [simpl; lia|]. rewrite pages_cons by done. pose proof (seg_len_ok g Hg). simpl. lia.
Qed.

(** The walk ends with the sums of the layout. *)
Lemma slab_stat_run s L lst :
  inv s L lst → real_pages s = (end_ s - start s) / ncx_pagesize →
  ∃ t, ncx_slab_stat s = Ok (t, s) ∧ let t' := stat_of L (stat0 (real_pages s)) in
    free_page t = free_page t' ∧ p_small t = p_small t' ∧ p_exact t = p_exact t' ∧ p_big t = p_big t' ∧ p_page t = p_page t'
    ∧ used_size t = used_size t' ∧ b_small t = b_small t' ∧ b_exact t = b_exact t' ∧ b_big t = b_big t' ∧ b_page t = b_page t'
    ∧ max_free_pages t = max_free_pages t' ∧ stat_pages t = real_pages s.
Proof.
  intros Hi Hr. unfold ncx_slab_stat. erewrite bind_run by reflexivity. rewrite <- Hr.
  pose proof (i_len _ _ _ Hi) as Hlen. pose proof (seg_count L (i_segs _ _ _ Hi)).
  assert (E : stat_loop 0 (stat0 (real_pages s)) (Z.to_nat (real_pages s)) s = Ok (stat_of L (stat0 (real_pages s)), s)).
  { apply (stat_loop_ok s L [] lst); [done| |lia]. simpl. by rewrite Hlen. }
  rewrite (bind_run _ _ _ _ _ E). eexists. split; [reflexivity|].
  assert (Hp : ∀ L t, stat_pages (stat_of L t) = stat_pages t).
  { clear. induction L as [|g L IH]; intros t; [done|]. change (stat_of (g :: L) t) with (stat_of L (add_seg g t)).
    by rewrite IH, add_seg_pages. }
  do 11 (split; [done|]). cbn [stat_pages]. apply Hp.
Qed.

Definition page_sum (t : slab_stat) : Z := free_page t + p_page t + p_small t + p_exact t + p_big t.
Definition byte_sum (t : slab_stat) : Z := b_small t + b_exact t + b_big t + b_page t.

Lemma add_seg_sums g t :
  page_sum (add_seg g t) = page_sum t + Z.of_nat (seg_len g)
  ∧ used_size (add_seg g t) - byte_sum (add_seg g t) = used_size t - byte_sum t.
Proof.
  unfold page_sum, byte_sum.
  destruct g as [n|n|sh used]; simpl; [lia..|]. destruct (sh <? 6); [simpl; lia|]. destruct (sh =? 6); simpl; lia.
Qed.

Lemma stat_of_sums L t :
  Forall seg_ok L →
  page_sum (stat_of L t) = page_sum t + Z.of_nat (pages_in L)
  ∧ used_size (stat_of L t) - byte_sum (stat_of L t) = used_size t - byte_sum t.
Proof.
  intros HF. revert t. induction HF as [|g L Hg HL IH]; intros t; [unfold pages_in; simpl; lia|].
  change (stat_of (g :: L) t) with (stat_of L (add_seg g t)). rewrite pages_cons by done.
  destruct (IH (add_seg g t)) as [-> ->]. destruct (add_seg_sums g t) as [-> ->]. lia.
Qed.

Lemma add_seg_max g t :
  max_free_pages (add_seg g t) = match g with FreeSeg m => Z.max (max_free_pages t) (Z.of_nat m) | _ => max_free_pages t end.
Proof.
  destruct g as [n|n|sh used]; [|done|].
  - simpl. destruct (Z.ltb_spec (max_free_pages t) (Z.of_nat n)); lia.
  - simpl. destruct (sh <? 6); [done|]. by destruct (sh =? 6).
Qed.

(** The longest free run. *)
Lemma stat_of_max L t :
  max_free_pages t ≤ max_free_pages (stat_of L t)
  ∧ (∀ m, FreeSeg m ∈ L → Z.of_nat m ≤ max_free_pages (stat_of L t))
  ∧ (max_free_pages (stat_of L t) = max_free_pages t
     ∨ ∃ m, FreeSeg m ∈ L ∧ max_free_pages (stat_of L t) = Z.of_nat m).
Proof.
  revert t. induction L as [|g L IH]; intros t.
  - split; [simpl; lia|]. split; [by intros m ?%elem_of_nil|by left].
  - change (stat_of (g :: L) t) with (stat_of L (add_seg g t)). destruct (IH (add_seg g t)) as (H1 & H2 & H3).
    rewrite add_seg_max in *. split; [destruct g; lia|]. split.
    + intros m [<-|Hm]%elem_of_cons; [lia|by apply H2].
    + destruct H3 as [H3|(m & Hm & H3)]; [|right; exists m; split; [by right|done]].
      destruct g as [n|n|sh used]; [|by left..]. destruct (Z.max_spec (max_free_pages t) (Z.of_nat n)) as [[_ E]|[_ E]].
      * right. exists n. split; [by left|lia].
      * left. lia.
Qed.

(** C16: ncx_slab_stat of a pool with a layout ends, its page counts add up
    to the pages of the pool and its byte counts to the used size, and its
    longest free run decides whether an allocation of more than half a page
    (and below 2^64 bytes) succeeds. The page count of the pool is the one of
    its address range, as ncx_slab_init sets it. *)
Theorem slab_stat_predicts s L lst :
  inv s L lst → real_pages s = (end_ s - start s) / ncx_pagesize →
  ∃ t, ncx_slab_stat s = Ok (t, s)
    ∧ free_page t + p_page t + p_small t + p_exact t + p_big t = stat_pages t
    ∧ used_size t = b_small t + b_exact t + b_big t + b_page t
    ∧ ∀ n, 2048 < n < 2 ^ 64 →
        ((∃ p s', ncx_slab_alloc_locked n s = Ok (p, s') ∧ p ≠ 0) ↔ n ≤ 4096 * max_free_pages t).
Proof.
  intros Hi Hr. destruct (slab_stat_run s L lst Hi Hr) as (t & E & H1 & H2 & H3 & H4 & H5 & H6 & H7 & H8 & H9 & H10 & H11 & H12).
  exists t. split; [exact E|]. pose proof (stat_of_sums L (stat0 (real_pages s)) (i_segs _ _ _ Hi)) as [S1 S2].
  pose proof (i_len _ _ _ Hi) as Hlen. unfold page_sum, byte_sum in S1, S2. simpl in S1, S2.
  split; [lia|]. split; [lia|]. intros n Hn. rewrite H11. set (mx := max_free_pages _).
  destruct (stat_of_max L (stat0 (real_pages s))) as (_ & Hmax & Hhas). fold mx in Hmax, Hhas. simpl in Hhas.
  destruct (alloc_locked_ok s L lst n Hi ltac:(lia)) as [[Ea [Hno _]]|(off & b & L' & s' & lst' & Ea & Ht & Hb & Hi' & _)]; rewrite Ea.
  - split; [intros (p & s' & [= <- _] & Hp); done|]. intros Hle. destruct Hhas as [Hz|(m & Hm & Em)]; [lia|].
    specialize (Hno m Hm). lia.
  - split; [|intros _; exists (start s + off), s'; split; [done|]; pose proof (take_nonneg _ _ _ _ Ht);
      destruct (i_addr _ _ _ Hi) as (Hst & _); lia].
    intros _. assert (Hsmall : ∀ sh, 3 ≤ sh ≤ 11 → n ≤ 2 ^ sh → False).
    { intros sh Hsh Hs. pose proof (Z.pow_le_mono_r 2 sh 11). lia. }
    destruct Ht as [L1 m k L2 Hk|L1 sh used i L2 Hg _ _|L1 m sh L2 _ Hsh].
    + specialize (Hmax m ltac:(set_solver)). lia.
    + destruct Hg as (Hsh & _). by destruct (Hsmall sh).
    + by destruct (Hsmall sh).
Qed.

Lemma slab_stat_predicts_witness :
  ∃ t, ncx_slab_stat demo_pool = Ok (t, demo_pool) ∧ free_page t + p_page t + p_small t + p_exact t + p_big t = stat_pages t.
Proof.
  destruct (slab_stat_predicts demo_pool [FreeSeg 15] init_lists (init_layout 65536 131072 demo_init)) as (t & E & H & _);
    [by vm_compute|]. by exists t.
Defined.

(** The statistics after the calls of [SlabRun]. *)
Example demo_stat :
  result_of (r ← calls demo_calls []; t ← ncx_slab_stat; mret (used_size t, b_small t, b_exact t, b_page t, free_page t, max_free_pages t)) demo_pool
  = Some (8328, 72, 64, 8192, 11, 10).
Proof. by vm_compute. Qed.
