(* ===== verification/Words.v ===== *)
(** * Words: bit operations on machine words

    Ranges of the exclusive or, rotations, multiplication by an odd number
    and the shift-and-xor steps of mixing functions, with their inverses.
    Shared by the checksum and the hash functions. *)
From Stdlib Require Import ZArith Lia.
From stdpp Require Import base numbers list gmap strings.
From S2P Require Import Prelude Bytes.

(** ** Bits above the width *)
Lemma testbit_above x w n : 0 ≤ x < 2 ^ w → 0 ≤ w ≤ n → Z.testbit x n = false.
Proof.
  intros Hx Hn. destruct (decide (x = 0)) as [->|]; [apply Z.bits_0|].
  apply Z.bits_above_log2; [lia|]. apply Z.log2_lt_pow2; [lia|].
  eapply Z.lt_le_trans; [apply Hx|]. apply Z.pow_le_mono_r; lia.
Qed.

Lemma below_pow2 x w : 0 ≤ w → 0 ≤ x → (∀ n, w ≤ n → Z.testbit x n = false) → 0 ≤ x < 2 ^ w.
Proof.
  intros Hw Hx H. split; [done|]. replace x with (x mod 2 ^ w); [by apply Z.mod_pos_bound, Z.pow_pos_nonneg|].
  apply Z.bits_inj'. intros n Hn. destruct (decide (n < w)).
  - by rewrite Z.mod_pow2_bits_low.
  - rewrite Z.mod_pow2_bits_high by lia. symmetry. apply H. lia.
Qed.

Lemma lxor_pow2 w a b : 0 ≤ w → 0 ≤ a < 2 ^ w → 0 ≤ b < 2 ^ w → 0 ≤ Z.lxor a b < 2 ^ w.
Proof.
  intros Hw Ha Hb. apply below_pow2; [done|apply Z.lxor_nonneg; lia|]. intros n Hn.
  by rewrite Z.lxor_spec, !(testbit_above _ w) by lia.
Qed.

Lemma lxor_cancel a b c : Z.lxor a c = Z.lxor b c → a = b.
Proof.
  intros H. rewrite <- (Z.lxor_0_r a), <- (Z.lxor_nilpotent c), <- Z.lxor_assoc, H, Z.lxor_assoc.
  by rewrite Z.lxor_nilpotent, Z.lxor_0_r.
Qed.

Lemma lxor_zero a b : Z.lxor a b = 0 ↔ a = b.
Proof. apply Z.lxor_eq_0_iff. Qed.

(** ** Mixing steps *)

(** [x ^= x >> s] *)
Definition xorshr (s x : Z) : Z := Z.lxor x (Z.shiftr x s).

Lemma xorshr_range w s x : 0 ≤ w → 0 ≤ s → 0 ≤ x < 2 ^ w → 0 ≤ xorshr s x < 2 ^ w.
Proof.
  intros Hw Hs Hx. apply lxor_pow2; [done|done|]. rewrite Z.shiftr_div_pow2 by done.
  assert (0 < 2 ^ s) by (apply Z.pow_pos_nonneg; lia).
  split; [apply Z.div_pos; lia|]. apply Z.div_lt_upper_bound; nia.
Qed.

Lemma xorshr_inj s x y : 0 < s → 0 ≤ x → 0 ≤ y → xorshr s x = xorshr s y → x = y.
Proof.
  intros Hs Hx Hy E. apply lxor_zero. assert (Hd : 0 ≤ Z.lxor x y) by (apply Z.lxor_nonneg; lia).
  assert (Hq : Z.shiftr (Z.lxor x y) s = Z.lxor x y).
  { apply lxor_zero. rewrite Z.shiftr_lxor. apply lxor_zero in E. rewrite <- E. unfold xorshr.
    apply Z.bits_inj'. intros n Hn. rewrite !Z.lxor_spec.
    by destruct (Z.testbit x n), (Z.testbit y n), (Z.testbit (Z.shiftr x s) n), (Z.testbit (Z.shiftr y s) n). }
  destruct (decide (Z.lxor x y = 0)); [done|]. rewrite Z.shiftr_div_pow2 in Hq by lia.
  assert (Z.lxor x y / 2 ^ s < Z.lxor x y); [|lia].
  apply Z.div_lt; [lia|]. apply Z.pow_gt_1; lia.
Qed.

(** Multiplication by an invertible constant. *)
Lemma mul_mod_inj m p q x y : 0 < m → p * q mod m = 1 → 0 ≤ x < m → 0 ≤ y < m →
  x * p mod m = y * p mod m → x = y.
Proof.
  intros Hm Hpq Hx Hy E.
  assert (Hi : ∀ z, 0 ≤ z < m → (z * p mod m) * q mod m = z).
  { intros z Hz. rewrite Z.mul_mod_idemp_l by lia. rewrite <- Z.mul_assoc, <- Z.mul_mod_idemp_r by lia.
    by rewrite Hpq, Z.mul_1_r, Z.mod_small. }
  by rewrite <- (Hi x), E, Hi.
Qed.

Lemma add_mod_inj m c x y : 0 < m → 0 ≤ x < m → 0 ≤ y < m →
  (x + c) mod m = (y + c) mod m → x = y.
Proof.
  intros Hm Hx Hy E.
  assert (Hi : ∀ z, 0 ≤ z < m → ((z + c) mod m - c) mod m = z).
  { intros z Hz. rewrite Zminus_mod_idemp_l. by replace (z + c - c) with z by lia; rewrite Z.mod_small. }
  by rewrite <- (Hi x), E, Hi.
Qed.

(** Rotation of a [w]-bit word by [r]. *)
Definition rotl (w r x : Z) : Z := Z.lor (Z.shiftl x r mod 2 ^ w) (Z.shiftr x (w - r)).

Section rotl.
Context (w r : Z) (Hr : 0 < r < w).

Lemma rotl_bits x n : 0 ≤ x < 2 ^ w → 0 ≤ n < w →
  Z.testbit (rotl w r x) n = Z.testbit x (if decide (r ≤ n) then n - r else n + w - r).
Proof.
  intros Hx Hn. unfold rotl. rewrite Z.lor_spec, Z.mod_pow2_bits_low by lia.
  rewrite Z.shiftl_spec, Z.shiftr_spec by lia. destruct (decide (r ≤ n)).
  - rewrite (testbit_above x w (n + _)) by lia. apply orb_false_r.
  - rewrite (Z.testbit_neg_r _ (n - r)) by lia. simpl. f_equal. lia.
Qed.

Lemma rotl_range x : 0 ≤ x < 2 ^ w → 0 ≤ rotl w r x < 2 ^ w.
Proof.
  intros Hx. unfold rotl. assert (0 ≤ Z.shiftr x (w - r)) by (apply Z.shiftr_nonneg; lia).
  assert (0 < 2 ^ w) by (apply Z.pow_pos_nonneg; lia).
  assert (0 ≤ Z.shiftl x r mod 2 ^ w < 2 ^ w) by by apply Z.mod_pos_bound.
  apply below_pow2; [lia|apply Z.lor_nonneg; lia|]. intros n Hn.
  rewrite Z.lor_spec, Z.mod_pow2_bits_high, Z.shiftr_spec by lia. apply (testbit_above x w); lia.
Qed.

Lemma rotl_inj x y : 0 ≤ x < 2 ^ w → 0 ≤ y < 2 ^ w → rotl w r x = rotl w r y → x = y.
Proof.
  intros Hx Hy E. apply Z.bits_inj'. intros n Hn.
  destruct (decide (n < w)); [|by rewrite !(testbit_above _ w) by lia].
  set (m := if decide (n + r < w) then n + r else n + r - w).
  assert (Hm : 0 ≤ m < w) by (unfold m; destruct (decide _); lia).
  assert (Hmn : (if decide (r ≤ m) then m - r else m + w - r) = n).
  { unfold m. repeat destruct (decide _); lia. }
  rewrite <- Hmn, <- !rotl_bits by done. by rewrite E.
Qed.
End rotl.

(** ** Bytes and the number they stand for *)
(** A word is its low byte and the rest. *)
Lemma split_byte x : x = Z.lxor (Z.land x 0xff) (Z.shiftr x 8 * 2 ^ Z.of_nat 8).
Proof.
  apply Z.bits_inj'. intros n Hn. rewrite Z.lxor_spec, Z.land_spec, <- Z.shiftl_mul_pow2 by lia.
  rewrite Z.shiftl_spec by lia. change 0xff with (Z.ones 8).
  destruct (decide (n < 8)).
  - rewrite Z.ones_spec_low, (Z.testbit_neg_r _ (_ - _)) by lia. by rewrite andb_true_r, xorb_false_r.
  - rewrite Z.ones_spec_high by lia. rewrite andb_false_r, xorb_false_l, Z.shiftr_spec by lia. f_equal. lia.
Qed.

Definition is_byte (b : Z) : Prop := 0 ≤ b < 256.

Lemma unle_cons b bs : is_byte b → unle (b :: bs) = Z.lxor b (unle bs * 2 ^ Z.of_nat 8).
Proof.
  intros Hb. cbn [unle]. rewrite (split_byte (b + 256 * unle bs)).
  change 0xff with (Z.ones 8). rewrite Z.land_ones, Z.shiftr_div_pow2 by lia.
  change (2 ^ 8) with 256. change (2 ^ Z.of_nat 8) with 256. unfold is_byte in Hb.
  replace ((b + 256 * unle bs) mod 256) with b by (apply (Z.mod_unique_pos _ _ (unle bs)); lia).
  do 2 f_equal. symmetry. apply (Z.div_unique_pos _ _ _ b); lia.
Qed.

Lemma unle_range bs : Forall is_byte bs → 0 ≤ unle bs < 2 ^ Z.of_nat (8 * length bs).
Proof.
  induction 1 as [|b bs Hb H IH]; cbn [unle length]; [simpl; lia|].
  replace (Z.of_nat (8 * S (length bs))) with (8 + Z.of_nat (8 * length bs)) by lia.
  rewrite Z.pow_add_r by lia. change (2 ^ 8) with 256. unfold is_byte in Hb. lia.
Qed.

Lemma unle_bits bs n : Forall is_byte bs → 0 ≤ n < 8 * Z.of_nat (length bs) →
  Z.testbit (unle bs) n = Z.testbit (bs !!! Z.to_nat (n / 8)) (n mod 8).
Proof.
  intros H. revert n. induction H as [|b bs Hb H IH]; intros n Hn; cbn [length] in Hn; [lia|].
  rewrite unle_cons by done. rewrite Z.lxor_spec, <- Z.shiftl_mul_pow2, Z.shiftl_spec by lia.
  pose proof (Z.div_mod n 8). pose proof (Z.mod_pos_bound n 8).
  destruct (decide (n < 8)).
  - rewrite (Z.testbit_neg_r _ (n - _)), xorb_false_r, Z.div_small, Z.mod_small by lia. done.
  - rewrite (testbit_above b 8), xorb_false_l by (unfold is_byte in Hb; lia).
    change (Z.of_nat 8) with 8. rewrite IH by lia.
    replace (n - 8) with (n + (-1) * 8) by lia. rewrite Z.div_add, Z.mod_add by lia.
    replace (Z.to_nat (n / 8)) with (S (Z.to_nat (n / 8 + -1))) by lia. done.
Qed.

Lemma rev_bytes bs : Forall is_byte bs → Forall is_byte (rev bs).
Proof. apply Forall_rev. Qed.

Lemma le_bytes n x : Forall is_byte (le n x).
Proof.
  revert x. induction n; intros; cbn [le]; constructor; [|done]. by apply Z.mod_pos_bound.
Qed.

Lemma le_unle bs : Forall is_byte bs → le (length bs) (unle bs) = bs.
Proof.
  induction 1 as [|b bs Hb H IH]; cbn [length le unle]; [done|]. unfold is_byte in Hb. f_equal.
  - symmetry. apply (Z.mod_unique_pos _ _ (unle bs)); lia.
  - rewrite <- (Z.div_unique_pos (b + 256 * unle bs) 256 (unle bs) b) by lia. done.
Qed.

Lemma unle_inj bs bs' : Forall is_byte bs → Forall is_byte bs' → length bs = length bs' →
  unle bs = unle bs' → bs = bs'.
Proof. intros H H' Hl E. by rewrite <- (le_unle bs), <- (le_unle bs'), Hl, E. Qed.

(** A property of the numbers below a constant, one by one. *)
Lemma below_cases (P : Z → Prop) (w : nat) :
  Forall P (Z.of_nat <$> seq 0 w) → ∀ n, 0 ≤ n < Z.of_nat w → P n.
Proof.
  rewrite Forall_fmap, Forall_seq. intros H n Hn. specialize (H (Z.to_nat n)). simpl in H.
  rewrite Z2Nat.id in H by lia. apply H. lia.
Qed.
