(* ===== verification/Crc.v ===== *)
(** * Crc: the checksum of filesystem/userfs_crc32.c

    [userfs_crc32c] is the table-driven CRC-32C (Castagnoli polynomial,
    reflected). The reference definition shifts one bit at a time; the
    theorems are that the table computes eight of those steps, that the
    checksum of a message is the shift register run over the whole message,
    and what follows for error detection. *)
From Stdlib Require Import ZArith Lia.
From stdpp Require Import base numbers list gmap strings.
From S2P Require Import Prelude Bytes Words.

Definition crc32Table : list Z :=
  [0x00000000; 0xF26B8303; 0xE13B70F7; 0x1350F3F4; 0xC79A971F; 0x35F1141C;
   0x26A1E7E8; 0xD4CA64EB; 0x8AD958CF; 0x78B2DBCC; 0x6BE22838; 0x9989AB3B;
   0x4D43CFD0; 0xBF284CD3; 0xAC78BF27; 0x5E133C24; 0x105EC76F; 0xE235446C;
   0xF165B798; 0x030E349B; 0xD7C45070; 0x25AFD373; 0x36FF2087; 0xC494A384;
   0x9A879FA0; 0x68EC1CA3; 0x7BBCEF57; 0x89D76C54; 0x5D1D08BF; 0xAF768BBC;
   0xBC267848; 0x4E4DFB4B; 0x20BD8EDE; 0xD2D60DDD; 0xC186FE29; 0x33ED7D2A;
   0xE72719C1; 0x154C9AC2; 0x061C6936; 0xF477EA35; 0xAA64D611; 0x580F5512;
   0x4B5FA6E6; 0xB93425E5; 0x6DFE410E; 0x9F95C20D; 0x8CC531F9; 0x7EAEB2FA;
   0x30E349B1; 0xC288CAB2; 0xD1D83946; 0x23B3BA45; 0xF779DEAE; 0x05125DAD;
   0x1642AE59; 0xE4292D5A; 0xBA3A117E; 0x4851927D; 0x5B016189; 0xA96AE28A;
   0x7DA08661; 0x8FCB0562; 0x9C9BF696; 0x6EF07595; 0x417B1DBC; 0xB3109EBF;
   0xA0406D4B; 0x522BEE48; 0x86E18AA3; 0x748A09A0; 0x67DAFA54; 0x95B17957;
   0xCBA24573; 0x39C9C670; 0x2A993584; 0xD8F2B687; 0x0C38D26C; 0xFE53516F;
   0xED03A29B; 0x1F682198; 0x5125DAD3; 0xA34E59D0; 0xB01EAA24; 0x42752927;
   0x96BF4DCC; 0x64D4CECF; 0x77843D3B; 0x85EFBE38; 0xDBFC821C; 0x2997011F;
   0x3AC7F2EB; 0xC8AC71E8; 0x1C661503; 0xEE0D9600; 0xFD5D65F4; 0x0F36E6F7;
   0x61C69362; 0x93AD1061; 0x80FDE395; 0x72966096; 0xA65C047D; 0x5437877E;
   0x4767748A; 0xB50CF789; 0xEB1FCBAD; 0x197448AE; 0x0A24BB5A; 0xF84F3859;
   0x2C855CB2; 0xDEEEDFB1; 0xCDBE2C45; 0x3FD5AF46; 0x7198540D; 0x83F3D70E;
   0x90A324FA; 0x62C8A7F9; 0xB602C312; 0x44694011; 0x5739B3E5; 0xA55230E6;
   0xFB410CC2; 0x092A8FC1; 0x1A7A7C35; 0xE811FF36; 0x3CDB9BDD; 0xCEB018DE;
   0xDDE0EB2A; 0x2F8B6829; 0x82F63B78; 0x709DB87B; 0x63CD4B8F; 0x91A6C88C;
   0x456CAC67; 0xB7072F64; 0xA457DC90; 0x563C5F93; 0x082F63B7; 0xFA44E0B4;
   0xE9141340; 0x1B7F9043; 0xCFB5F4A8; 0x3DDE77AB; 0x2E8E845F; 0xDCE5075C;
   0x92A8FC17; 0x60C37F14; 0x73938CE0; 0x81F80FE3; 0x55326B08; 0xA759E80B;
   0xB4091BFF; 0x466298FC; 0x1871A4D8; 0xEA1A27DB; 0xF94AD42F; 0x0B21572C;
   0xDFEB33C7; 0x2D80B0C4; 0x3ED04330; 0xCCBBC033; 0xA24BB5A6; 0x502036A5;
   0x4370C551; 0xB11B4652; 0x65D122B9; 0x97BAA1BA; 0x84EA524E; 0x7681D14D;
   0x2892ED69; 0xDAF96E6A; 0xC9A99D9E; 0x3BC21E9D; 0xEF087A76; 0x1D63F975;
   0x0E330A81; 0xFC588982; 0xB21572C9; 0x407EF1CA; 0x532E023E; 0xA145813D;
   0x758FE5D6; 0x87E466D5; 0x94B49521; 0x66DF1622; 0x38CC2A06; 0xCAA7A905;
   0xD9F75AF1; 0x2B9CD9F2; 0xFF56BD19; 0x0D3D3E1A; 0x1E6DCDEE; 0xEC064EED;
   0xC38D26C4; 0x31E6A5C7; 0x22B65633; 0xD0DDD530; 0x0417B1DB; 0xF67C32D8;
   0xE52CC12C; 0x1747422F; 0x49547E0B; 0xBB3FFD08; 0xA86F0EFC; 0x5A048DFF;
   0x8ECEE914; 0x7CA56A17; 0x6FF599E3; 0x9D9E1AE0; 0xD3D3E1AB; 0x21B862A8;
   0x32E8915C; 0xC083125F; 0x144976B4; 0xE622F5B7; 0xF5720643; 0x07198540;
   0x590AB964; 0xAB613A67; 0xB831C993; 0x4A5A4A90; 0x9E902E7B; 0x6CFBAD78;
   0x7FAB5E8C; 0x8DC0DD8F; 0xE330A81A; 0x115B2B19; 0x020BD8ED; 0xF0605BEE;
   0x24AA3F05; 0xD6C1BC06; 0xC5914FF2; 0x37FACCF1; 0x69E9F0D5; 0x9B8273D6;
   0x88D28022; 0x7AB90321; 0xAE7367CA; 0x5C18E4C9; 0x4F48173D; 0xBD23943E;
   0xF36E6F75; 0x0105EC76; 0x12551F82; 0xE03E9C81; 0x34F4F86A; 0xC69F7B69;
   0xD5CF889D; 0x27A40B9E; 0x79B737BA; 0x8BDCB4B9; 0x988C474D; 0x6AE7C44E;
   0xBE2DA0A5; 0x4C4623A6; 0x5F16D052; 0xAD7D5351].

Definition crc_step (crc b : Z) : Z :=
  Z.lxor (crc32Table !!! Z.to_nat (Z.land (Z.lxor crc b) 0xff)) (Z.shiftr crc 8).

(** [buf] is the [size] bytes from the pointer on. *)
Definition userfs_crc32c (crc : Z) (buf : list Z) : Z := foldl crc_step crc buf.

(** ** The reference: the feedback shift register *)
Definition CRC_POLY : Z := 0x82F63B78.
Definition shift1 (c : Z) : Z :=
  if Z.odd c then Z.lxor (Z.shiftr c 1) CRC_POLY else Z.shiftr c 1.
Fixpoint shifts (n : nat) (c : Z) : Z :=
  match n with O => c | S n => shifts n (shift1 c) end.

(** Bit by bit, the bytes of the message in order, each low bit first. *)
Definition crc_bitwise (crc : Z) (buf : list Z) : Z := foldl (λ c b, shifts 8 (Z.lxor c b)) crc buf.

Lemma shifts_add m n c : shifts (m + n) c = shifts n (shifts m c).
Proof. revert c. induction m; intros; simpl; [done|apply IHm]. Qed.

Lemma shift1_lxor a b : shift1 (Z.lxor a b) = Z.lxor (shift1 a) (shift1 b).
Proof.
  unfold shift1. rewrite <- !Z.bit0_odd, Z.lxor_spec, Z.shiftr_lxor.
  destruct (Z.testbit a 0), (Z.testbit b 0); simpl;
    apply Z.bits_inj'; intros n Hn; rewrite !Z.lxor_spec;
    by destruct (Z.testbit (Z.shiftr a 1) n), (Z.testbit (Z.shiftr b 1) n), (Z.testbit CRC_POLY n).
Qed.

Lemma shifts_lxor n a b : shifts n (Z.lxor a b) = Z.lxor (shifts n a) (shifts n b).
Proof.
  revert a b. induction n; intros; simpl; [done|]. by rewrite shift1_lxor, IHn.
Qed.

Lemma shifts_pow2 n x : shifts n (x * 2 ^ Z.of_nat n) = x.
Proof.
  induction n as [|n IH]; cbn [shifts]; [lia|].
  replace (shift1 _) with (x * 2 ^ Z.of_nat n); [done|].
  unfold shift1. replace (2 ^ Z.of_nat (S n)) with (2 * 2 ^ Z.of_nat n).
  2:{ rewrite <- Z.pow_succ_r by lia. f_equal. lia. }
  replace (x * (2 * 2 ^ Z.of_nat n)) with (2 * (x * 2 ^ Z.of_nat n)) by lia.
  rewrite Z.odd_mul. simpl. rewrite Z.shiftr_div_pow2 by lia. change (2 ^ 1) with 2.
  by rewrite (Z.mul_comm 2), Z.div_mul.
Qed.

Lemma shifts_0 n : shifts n 0 = 0.
Proof. exact (shifts_pow2 n 0). Qed.

(** ** The table is eight steps *)
Lemma table_shifts x : 0 ≤ x < 256 → crc32Table !!! Z.to_nat x = shifts 8 x.
Proof.
  intros Hx. assert (Hall : forallb (λ i : nat,
    crc32Table !!! i =? shifts 8 (Z.of_nat i)) (seq 0 256) = true) by by vm_compute.
  rewrite forallb_forall in Hall. specialize (Hall (Z.to_nat x)).
  rewrite Z2Nat.id in Hall by lia. apply Z.eqb_eq, Hall, in_seq. lia.
Qed.

Lemma byte_lxor c b : 0 ≤ b < 256 → Z.shiftr (Z.lxor c b) 8 = Z.shiftr c 8.
Proof.
  intros Hb. rewrite Z.shiftr_lxor, (Z.shiftr_div_pow2 b), (Z.div_small b) by (simpl; lia).
  by rewrite Z.lxor_0_r.
Qed.

Lemma crc_step_shifts c b : 0 ≤ b < 256 → crc_step c b = shifts 8 (Z.lxor c b).
Proof.
  intros Hb. unfold crc_step. rewrite table_shifts.
  2:{ change 0xff with (Z.ones 8). rewrite Z.land_ones by lia. by apply Z.mod_pos_bound. }
  rewrite (split_byte (Z.lxor c b)) at 2. rewrite shifts_lxor, shifts_pow2.
  by rewrite byte_lxor by done.
Qed.

(** ** The message as one number *)
(** The checksum is the register run over all the bits of the message. *)
Lemma crc_shifts crc bs :
  Forall is_byte bs → userfs_crc32c crc bs = shifts (8 * length bs) (Z.lxor crc (unle bs)).
Proof.
  intros H. revert crc. induction H as [|b bs Hb H IH]; intros crc.
  { by rewrite Z.lxor_0_r. }
  cbn [userfs_crc32c foldl length]. change (foldl crc_step ?x bs) with (userfs_crc32c x bs).
  rewrite IH, crc_step_shifts by done. replace (8 * S (length bs))%nat with (8 + 8 * length bs)%nat by lia.
  rewrite shifts_add, unle_cons by done. f_equal.
  by rewrite <- Z.lxor_assoc, (shifts_lxor 8 (Z.lxor crc b)), shifts_pow2.
Qed.

(** ** Injectivity *)
Definition unshift1 (y : Z) : Z :=
  if Z.testbit y 31 then 2 * Z.lxor y CRC_POLY + 1 else 2 * y.

Lemma shift1_range x : 0 ≤ x < 2 ^ 32 → 0 ≤ shift1 x < 2 ^ 32.
Proof.
  intros Hx. unfold shift1. rewrite Z.shiftr_div_pow2 by lia. change (2 ^ 1) with 2.
  assert (0 ≤ x / 2 < 2 ^ 31) by (split; [apply Z.div_pos; lia|apply Z.div_lt_upper_bound; lia]).
  destruct (Z.odd x); [|lia]. apply (lxor_pow2 32); unfold CRC_POLY; lia.
Qed.

Lemma unshift_shift x : 0 ≤ x < 2 ^ 32 → unshift1 (shift1 x) = x.
Proof.
  intros Hx. unfold unshift1, shift1.
  assert (Hb : Z.testbit (Z.shiftr x 1) 31 = false).
  { rewrite Z.shiftr_spec by lia. apply (testbit_above x 32); lia. }
  assert (Hd : Z.shiftr x 1 = x / 2) by by rewrite Z.shiftr_div_pow2.
  pose proof (Z.div_mod x 2). pose proof (Zmod_odd x). destruct (Z.odd x).
  - rewrite Z.lxor_spec, Hb. change (Z.testbit CRC_POLY 31) with true. simpl.
    rewrite Z.lxor_assoc, Z.lxor_nilpotent, Z.lxor_0_r, Hd. lia.
  - rewrite Hb, Hd. lia.
Qed.

Lemma shifts_range n x : 0 ≤ x < 2 ^ 32 → 0 ≤ shifts n x < 2 ^ 32.
Proof. revert x. induction n; intros; simpl; [done|]. by apply IHn, shift1_range. Qed.

Lemma shifts_inj n x y : 0 ≤ x < 2 ^ 32 → 0 ≤ y < 2 ^ 32 → shifts n x = shifts n y → x = y.
Proof.
  revert x y. induction n as [|n IH]; intros x y Hx Hy; simpl; [done|]. intros E.
  apply IH in E; [|by apply shift1_range..].
  by rewrite <- (unshift_shift x), E, unshift_shift.
Qed.

(** ** The properties *)

(** the table-driven checksum equals the bit-serial CRC-32C. *)
Theorem crc32c_bitwise crc buf :
  Forall is_byte buf → userfs_crc32c crc buf = crc_bitwise crc buf.
Proof.
  intros H. unfold userfs_crc32c, crc_bitwise. revert crc.
  induction H as [|b bs Hb H IH]; intros crc; simpl; [done|].
  by rewrite IH, crc_step_shifts.
Qed.

(** The checksum of a message can be computed in pieces. *)
Theorem crc32c_app crc a b :
  userfs_crc32c crc (a ++ b) = userfs_crc32c (userfs_crc32c crc a) b.
Proof. unfold userfs_crc32c. apply foldl_app. Qed.

(** Two messages of the same length have the same checksum exactly when the
    register maps their difference to zero. *)
Lemma crc_same crc m m' :
  Forall is_byte m → Forall is_byte m' → length m = length m' →
  userfs_crc32c crc m = userfs_crc32c crc m' →
  shifts (8 * length m') (Z.lxor (unle m) (unle m')) = 0.
Proof.
  intros Hm Hm' Hl E. rewrite !crc_shifts, Hl, <- lxor_zero, <- shifts_lxor in E by done.
  rewrite <- E. f_equal. rewrite (Z.lxor_comm crc (unle m)), Z.lxor_assoc, <- (Z.lxor_assoc crc).
  by rewrite Z.lxor_nilpotent, Z.lxor_0_l.
Qed.

(** C33: userfs_crc32c of two messages of the same length that differ only
    inside a window of at most 32 bits, at whatever bit offset, are
    different: the table is eight steps of the feedback register of CRC-32C,
    the checksum is the register run over the message, and a step is
    injective. *)
Theorem crc32c_burst crc m m' d k :
  Forall is_byte m → Forall is_byte m' → length m = length m' →
  Z.lxor (unle m) (unle m') = d * 2 ^ Z.of_nat k → 0 < d < 2 ^ 32 →
  userfs_crc32c crc m ≠ userfs_crc32c crc m'.
Proof.
  intros Hm Hm' Hl Hd Hr E. apply crc_same in E; [|done..].
  pose proof (unle_range m Hm) as B. pose proof (unle_range m' Hm') as B'. rewrite Hl in B.
  rewrite Hd in E. pose proof (lxor_pow2 _ _ _ (Nat2Z.is_nonneg _) B B') as [_ Hx].
  rewrite Hd in Hx. assert (Hk : (k <= 8 * length m')%nat).
  { destruct (decide (k <= 8 * length m')%nat) as [|Hk]; [done|].
    assert (2 ^ Z.of_nat (8 * length m') ≤ 2 ^ Z.of_nat k) by (apply Z.pow_le_mono_r; lia). nia. }
  replace (8 * length m')%nat with (k + (8 * length m' - k))%nat in E by lia.
  rewrite shifts_add, shifts_pow2, <- (shifts_0 (8 * length m' - k)) in E.
  apply shifts_inj in E; lia.
Qed.

Example crc32c_burst_witness :
  userfs_crc32c 0xFFFFFFFF [0x41; 0x10; 0x42] ≠ userfs_crc32c 0xFFFFFFFF [0x41; 0x2f; 0x42].
Proof.
  apply (crc32c_burst _ _ _ 0x3f 8);
    [repeat constructor; unfold is_byte; lia..|reflexivity|reflexivity|lia].
Defined.

(** The check value of CRC-32C: the string "123456789". *)
Example crc32c_check :
  Z.lxor (userfs_crc32c 0xFFFFFFFF [49; 50; 51; 52; 53; 54; 55; 56; 57]) 0xFFFFFFFF = 0xE3069283.
Proof. vm_compute. reflexivity. Qed.

Example crc32c_bitwise_witness :
  userfs_crc32c 0 [1; 2; 3] = crc_bitwise 0 [1; 2; 3].
Proof. apply crc32c_bitwise. repeat constructor; unfold is_byte; lia. Defined.
