(* ===== verification/Xxhash.v ===== *)
(** * Xxhash: the hash functions of ds/xxhash.c

    [XXH32] and [XXH64], in one call and as a stream (reset, update,
    digest), for a processor of either byte order and for aligned and
    unaligned input, with the canonical form of a hash. A pointer into a
    buffer is the list of the bytes from it to the end of the buffer. *)
From Stdlib Require Import ZArith Lia.
From stdpp Require Import base numbers list gmap strings.
From S2P Require Import Prelude Bytes Words.

Inductive XXH_errorcode : Type := XXH_OK | XXH_ERROR.
Inductive XXH_endianess : Type := XXH_bigEndian | XXH_littleEndian.
Inductive XXH_alignment : Type := XXH_aligned | XXH_unaligned.
#[export] Instance XXH_endianess_eq_dec : EqDecision XXH_endianess.
Proof. solve_decision. Defined.

Definition PRIME32_1 : Z := 2654435761.
Definition PRIME32_2 : Z := 2246822519.
Definition PRIME32_3 : Z := 3266489917.
Definition PRIME32_4 : Z := 668265263.
Definition PRIME32_5 : Z := 374761393.
Definition PRIME64_1 : Z := 11400714785074694791.
Definition PRIME64_2 : Z := 14029467366897019727.
Definition PRIME64_3 : Z := 1609587929392839161.
Definition PRIME64_4 : Z := 9650029242287828579.
Definition PRIME64_5 : Z := 2870177450012600261.

Definition XXH_rotl32 (x r : Z) : Z := rotl 32 r x.
Definition XXH_rotl64 (x r : Z) : Z := rotl 64 r x.

Definition XXH_swap32 (x : Z) : Z :=
  Z.lor (Z.lor (Z.lor (Z.land (u32 (Z.shiftl x 24)) 0xff000000) (Z.land (u32 (Z.shiftl x 8)) 0x00ff0000))
    (Z.land (Z.shiftr x 8) 0x0000ff00)) (Z.land (Z.shiftr x 24) 0x000000ff).

Definition XXH_swap64 (x : Z) : Z :=
  let lor4 a b c d := Z.lor (Z.lor (Z.lor a b) c) d in
  Z.lor (lor4 (Z.land (u64 (Z.shiftl x 56)) 0xff00000000000000)
              (Z.land (u64 (Z.shiftl x 40)) 0x00ff000000000000)
              (Z.land (u64 (Z.shiftl x 24)) 0x0000ff0000000000)
              (Z.land (u64 (Z.shiftl x 8)) 0x000000ff00000000))
        (lor4 (Z.land (Z.shiftr x 8) 0x00000000ff000000)
              (Z.land (Z.shiftr x 24) 0x0000000000ff0000)
              (Z.land (Z.shiftr x 40) 0x000000000000ff00)
              (Z.land (Z.shiftr x 56) 0x00000000000000ff)).

(** The rounds. *)
Definition XXH32_round (seed input : Z) : Z :=
  let seed := u32 (seed + input * PRIME32_2) in
  let seed := XXH_rotl32 seed 13 in
  u32 (seed * PRIME32_1).

Definition XXH64_round (acc input : Z) : Z :=
  let acc := u64 (acc + input * PRIME64_2) in
  let acc := XXH_rotl64 acc 31 in
  u64 (acc * PRIME64_1).

Definition XXH64_mergeRound (acc val : Z) : Z :=
  let val := XXH64_round 0 val in
  let acc := Z.lxor acc val in
  u64 (acc * PRIME64_1 + PRIME64_4).

(** ** The four accumulators and the loops over the input *)
Record lanes : Type := Lanes { v1 : Z; v2 : Z; v3 : Z; v4 : Z }.

(** [memcpy] of [bs] to offset [off] of the buffer [mem]. *)
Definition memcpy_at (off : nat) (bs mem : list Z) : list Z :=
  take off mem ++ bs ++ drop (off + length bs) mem.

Section loops.
Context (n : nat) (round : Z → Z → Z) (get : list Z → Z).

(** One lap: four rounds on four words of [n] bytes. *)
Definition stripe (v : lanes) (p : list Z) : lanes :=
  Lanes (round v.(v1) (get p)) (round v.(v2) (get (drop n p)))
    (round v.(v3) (get (drop (2 * n) p))) (round v.(v4) (get (drop (3 * n) p))).

(** [do { ... } while (p <= limit)] *)
Fixpoint stripes (fuel : nat) (v : lanes) (p : list Z) : lanes * list Z :=
  match fuel with
  | O => (v, p)
  | S fuel =>
      let v := stripe v p in
      let p := drop (4 * n) p in
      if (4 * n <=? length p)%nat then stripes fuel v p else (v, p)
  end.

(** [while (p + n <= bEnd) { h = f(h, word at p); p += n; }] *)
Fixpoint words (f : Z → Z → Z) (fuel : nat) (h : Z) (p : list Z) : Z * list Z :=
  match fuel with
  | O => (h, p)
  | S fuel =>
      if (n <=? length p)%nat then words f fuel (f h (get p)) (drop n p) else (h, p)
  end.

(** The body of the two update functions: the accumulators, the buffer
    [mem] and the number [m] of bytes waiting in it. *)
Definition absorb (v : lanes) (mem : list Z) (m : Z) (input : list Z) : lanes * list Z * Z :=
  let size := (4 * n)%nat in
  let len := Z.of_nat (length input) in
  if u64 (m + len) <? Z.of_nat size
  then (* fill in tmp buffer *)
    (v, memcpy_at (Z.to_nat m) input mem, u32 (m + u32 len))
  else
    let '(v, mem, p) :=
      if m =? 0 then (v, mem, input)
      else (* some data left from previous update *)
        let fill := Z.to_nat (Z.of_nat size - m) in
        let mem := memcpy_at (Z.to_nat m) (take fill input) mem in
        (stripe v mem, mem, drop fill input) in
    let '(v, p) := if (size <=? length p)%nat then stripes (length p) v p else (v, p) in
    if (0 <? length p)%nat then (v, memcpy_at 0 p mem, Z.of_nat (length p)) else (v, mem, 0).
End loops.

(** ** What both 32-bit entry points do after the accumulators *)
Definition step32 (h k : Z) : Z := u32 (XXH_rotl32 (u32 (h + k * PRIME32_3)) 17 * PRIME32_4).
Definition byte32 (h b : Z) : Z := u32 (XXH_rotl32 (u32 (h + b * PRIME32_5)) 11 * PRIME32_1).

Definition avalanche32 (h32 : Z) : Z :=
  let h32 := Z.lxor h32 (Z.shiftr h32 15) in
  let h32 := u32 (h32 * PRIME32_2) in
  let h32 := Z.lxor h32 (Z.shiftr h32 13) in
  let h32 := u32 (h32 * PRIME32_3) in
  Z.lxor h32 (Z.shiftr h32 16).

Definition tail32 (get : list Z → Z) (h32 : Z) (p : list Z) : Z :=
  let '(h32, p) := words 4 get step32 (length p) h32 p in
  avalanche32 (foldl byte32 h32 p).

Definition merge32 (v : lanes) : Z :=
  u32 (XXH_rotl32 v.(v1) 1 + XXH_rotl32 v.(v2) 7 + XXH_rotl32 v.(v3) 12 + XXH_rotl32 v.(v4) 18).

Definition seed32 (seed : Z) : lanes :=
  Lanes (u32 (seed + PRIME32_1 + PRIME32_2)) (u32 (seed + PRIME32_2)) (u32 (seed + 0))
    (u32 (seed - PRIME32_1)).

(** ** The same for 64 bits *)
Definition step64 (h k : Z) : Z :=
  u64 (XXH_rotl64 (Z.lxor h (XXH64_round 0 k)) 27 * PRIME64_1 + PRIME64_4).
Definition half64 (h k : Z) : Z :=
  u64 (XXH_rotl64 (Z.lxor h (u64 (k * PRIME64_1))) 23 * PRIME64_2 + PRIME64_3).
Definition byte64 (h b : Z) : Z :=
  u64 (XXH_rotl64 (Z.lxor h (u64 (b * PRIME64_5))) 11 * PRIME64_1).

Definition avalanche64 (h64 : Z) : Z :=
  let h64 := Z.lxor h64 (Z.shiftr h64 33) in
  let h64 := u64 (h64 * PRIME64_2) in
  let h64 := Z.lxor h64 (Z.shiftr h64 29) in
  let h64 := u64 (h64 * PRIME64_3) in
  Z.lxor h64 (Z.shiftr h64 32).

Definition tail64 (get64 get32 : list Z → Z) (h64 : Z) (p : list Z) : Z :=
  let '(h64, p) := words 8 get64 step64 (length p) h64 p in
  let '(h64, p) :=
    if (4 <=? length p)%nat then (half64 h64 (get32 p), drop 4 p) else (h64, p) in
  avalanche64 (foldl byte64 h64 p).

Definition merge64 (v : lanes) : Z :=
  let h64 := u64 (XXH_rotl64 v.(v1) 1 + XXH_rotl64 v.(v2) 7 + XXH_rotl64 v.(v3) 12 + XXH_rotl64 v.(v4) 18) in
  let h64 := XXH64_mergeRound h64 v.(v1) in
  let h64 := XXH64_mergeRound h64 v.(v2) in
  let h64 := XXH64_mergeRound h64 v.(v3) in
  XXH64_mergeRound h64 v.(v4).

Definition seed64 (seed : Z) : lanes :=
  Lanes (u64 (seed + PRIME64_1 + PRIME64_2)) (u64 (seed + PRIME64_2)) (u64 (seed + 0))
    (u64 (seed - PRIME64_1)).

(** ** The states of the streams ([reserved] is never read) *)
Record XXH32_state : Type := St32 {
  total_len_32 : Z;
  large_len : Z;
  lanes32 : lanes;
  mem32 : list Z;      (* 16 bytes *)
  memsize32 : Z
}.

Record XXH64_state : Type := St64 {
  total_len : Z;
  lanes64 : lanes;
  mem64 : list Z;      (* 32 bytes *)
  memsize64 : Z
}.

Section cpu.
(** The processor ([XXH_CPU_LITTLE_ENDIAN] reads it off an integer) and
    the build's [XXH_FORCE_ALIGN_CHECK]; [XXH_FORCE_NATIVE_FORMAT] is 0. *)
Context (cpu : XXH_endianess) (align_check : bool).

(** An integer of the processor from its bytes, and its bytes. *)
Definition native (bs : list Z) : Z :=
  match cpu with XXH_littleEndian => unle bs | XXH_bigEndian => unle (rev bs) end.
Definition native_bytes (n : nat) (x : Z) : list Z :=
  match cpu with XXH_littleEndian => le n x | XXH_bigEndian => rev (le n x) end.

Definition XXH_read32 (p : list Z) : Z := native (take 4 p).
Definition XXH_read64 (p : list Z) : Z := native (take 8 p).

Definition XXH_readLE32_align (p : list Z) (endian : XXH_endianess) (align : XXH_alignment) : Z :=
  match align with
  | XXH_unaligned =>
      if decide (endian = XXH_littleEndian) then XXH_read32 p else XXH_swap32 (XXH_read32 p)
  | XXH_aligned =>
      if decide (endian = XXH_littleEndian) then native (take 4 p) else XXH_swap32 (native (take 4 p))
  end.
Definition XXH_readLE32 (p : list Z) (endian : XXH_endianess) : Z :=
  XXH_readLE32_align p endian XXH_unaligned.
Definition XXH_readBE32 (p : list Z) : Z :=
  if decide (cpu = XXH_littleEndian) then XXH_swap32 (XXH_read32 p) else XXH_read32 p.

Definition XXH_readLE64_align (p : list Z) (endian : XXH_endianess) (align : XXH_alignment) : Z :=
  match align with
  | XXH_unaligned =>
      if decide (endian = XXH_littleEndian) then XXH_read64 p else XXH_swap64 (XXH_read64 p)
  | XXH_aligned =>
      if decide (endian = XXH_littleEndian) then native (take 8 p) else XXH_swap64 (native (take 8 p))
  end.
Definition XXH_readLE64 (p : list Z) (endian : XXH_endianess) : Z :=
  XXH_readLE64_align p endian XXH_unaligned.
Definition XXH_readBE64 (p : list Z) : Z :=
  if decide (cpu = XXH_littleEndian) then XXH_swap64 (XXH_read64 p) else XXH_read64 p.

(** ** XXH32 *)
Definition XXH32_endian_align (input : list Z) (seed : Z) (endian : XXH_endianess)
    (align : XXH_alignment) : Z :=
  let get p := XXH_readLE32_align p endian align in
  let len := Z.of_nat (length input) in
  let '(h32, p) :=
    if 16 <=? len
    then let '(v, p) := stripes 4 XXH32_round get (length input) (seed32 seed) input in (merge32 v, p)
    else (u32 (seed + PRIME32_5), input) in
  tail32 get (u32 (h32 + u32 len)) p.

(** [addr] is the address of the input. *)
Definition XXH32 (addr : Z) (input : list Z) (seed : Z) : Z :=
  if align_check && (Z.land addr 3 =? 0)
  then XXH32_endian_align input seed cpu XXH_aligned
  else XXH32_endian_align input seed cpu XXH_unaligned.

Definition XXH32_reset (seed : Z) : XXH32_state := St32 0 0 (seed32 seed) (replicate 16 0) 0.

Definition XXH32_update_endian (st : XXH32_state) (input : list Z) (endian : XXH_endianess) :
    XXH_errorcode * XXH32_state :=
  let get p := XXH_readLE32 p endian in
  let len := Z.of_nat (length input) in
  let total := u32 (st.(total_len_32) + u32 len) in
  let large := Z.lor st.(large_len) (Z.lor (Z.b2z (16 <=? len)) (Z.b2z (16 <=? total))) in
  let '(v, mem, m) := absorb 4 XXH32_round get st.(lanes32) st.(mem32) st.(memsize32) input in
  (XXH_OK, St32 total large v mem m).

Definition XXH32_update (st : XXH32_state) (input : list Z) : XXH_errorcode * XXH32_state :=
  XXH32_update_endian st input cpu.

Definition XXH32_digest_endian (st : XXH32_state) (endian : XXH_endianess) : Z :=
  let h32 :=
    if st.(large_len) =? 0 then u32 (st.(lanes32).(v3) + PRIME32_5) else merge32 st.(lanes32) in
  tail32 (λ p, XXH_readLE32 p endian) (u32 (h32 + st.(total_len_32)))
    (take (Z.to_nat st.(memsize32)) st.(mem32)).

Definition XXH32_digest (st : XXH32_state) : Z := XXH32_digest_endian st cpu.

(** The bytes of the canonical form, and the hash read back from them. *)
Definition XXH32_canonicalFromHash (hash : Z) : list Z :=
  native_bytes 4 (if decide (cpu = XXH_littleEndian) then XXH_swap32 hash else hash).
Definition XXH32_hashFromCanonical (src : list Z) : Z := XXH_readBE32 src.

(** ** XXH64 *)
Definition XXH64_endian_align (input : list Z) (seed : Z) (endian : XXH_endianess)
    (align : XXH_alignment) : Z :=
  let get p := XXH_readLE64_align p endian align in
  let len := Z.of_nat (length input) in
  let '(h64, p) :=
    if 32 <=? len
    then let '(v, p) := stripes 8 XXH64_round get (length input) (seed64 seed) input in (merge64 v, p)
    else (u64 (seed + PRIME64_5), input) in
  tail64 get (λ p, XXH_readLE32_align p endian align) (u64 (h64 + len)) p.

Definition XXH64 (addr : Z) (input : list Z) (seed : Z) : Z :=
  if align_check && (Z.land addr 7 =? 0)
  then XXH64_endian_align input seed cpu XXH_aligned
  else XXH64_endian_align input seed cpu XXH_unaligned.

Definition XXH64_reset (seed : Z) : XXH64_state := St64 0 (seed64 seed) (replicate 32 0) 0.

Definition XXH64_update_endian (st : XXH64_state) (input : list Z) (endian : XXH_endianess) :
    XXH_errorcode * XXH64_state :=
  let get p := XXH_readLE64 p endian in
  let len := Z.of_nat (length input) in
  let total := u64 (st.(total_len) + len) in
  let '(v, mem, m) := absorb 8 XXH64_round get st.(lanes64) st.(mem64) st.(memsize64) input in
  (XXH_OK, St64 total v mem m).

Definition XXH64_update (st : XXH64_state) (input : list Z) : XXH_errorcode * XXH64_state :=
  XXH64_update_endian st input cpu.

Definition XXH64_digest_endian (st : XXH64_state) (endian : XXH_endianess) : Z :=
  let h64 :=
    if 32 <=? st.(total_len) then merge64 st.(lanes64) else u64 (st.(lanes64).(v3) + PRIME64_5) in
  tail64 (λ p, XXH_readLE64 p endian) (λ p, XXH_readLE32 p endian)
    (u64 (h64 + st.(total_len))) (take (Z.to_nat st.(memsize64)) st.(mem64)).

Definition XXH64_digest (st : XXH64_state) : Z := XXH64_digest_endian st cpu.

Definition XXH64_canonicalFromHash (hash : Z) : list Z :=
  native_bytes 8 (if decide (cpu = XXH_littleEndian) then XXH_swap64 hash else hash).
Definition XXH64_hashFromCanonical (src : list Z) : Z := XXH_readBE64 src.
End cpu.

(** Published values of the two functions on the empty input. *)
Example XXH32_empty : XXH32 XXH_littleEndian false 0 [] 0 = 0x02CC5D05.
Proof. vm_compute. reflexivity. Qed.
Example XXH64_empty : XXH64 XXH_littleEndian false 0 [] 0 = 0xEF46DB3751D8E999.
Proof. vm_compute. reflexivity. Qed.
Example XXH64_abc : XXH64 XXH_bigEndian true 8 [97; 98; 99] 0 = 0x44BC2CF5AD770999.
Proof. vm_compute. reflexivity. Qed.
Example XXH32_long : XXH32 XXH_littleEndian true 1 (Z.of_nat <$> seq 0 40) 7 =
  XXH32_digest XXH_bigEndian
    (XXH32_update XXH_bigEndian (XXH32_update XXH_bigEndian (XXH32_reset 7) (Z.of_nat <$> seq 0 9)).2
      (Z.of_nat <$> seq 9 31)).2.
Proof. vm_compute. reflexivity. Qed.
