(* ===== verification/XxhashOk.v ===== *)
(** * XxhashOk: the stream and the one-call hash agree *)
From Stdlib Require Import ZArith Lia.
From stdpp Require Import base numbers list gmap strings.
From S2P Require Import Prelude Bytes Words Xxhash.

(** ** The loops without fuel *)
Section loops.
Context (n : nat) (round : Z → Z → Z) (get : list Z → Z).
Hypothesis n_pos : (0 < n)%nat.
Hypothesis get_app : ∀ p q, (n <= length p)%nat → get (p ++ q) = get p.

Abbreviation stripe := (stripe n round get).
Abbreviation size := (4 * n)%nat.

Fixpoint laps (k : nat) (v : lanes) (p : list Z) : lanes * list Z :=
  match k with O => (v, p) | S k => laps k (stripe v p) (drop size p) end.

(** All the whole stripes of [p]. *)
Definition fed (v : lanes) (p : list Z) : lanes * list Z := laps (length p / size) v p.

Lemma stripe_app v p q : (size <= length p)%nat → stripe v (p ++ q) = stripe v p.
Proof.
  intros H. unfold Xxhash.stripe. rewrite !drop_app_le by lia.
  by rewrite !get_app by (rewrite ?length_drop; lia).
Qed.

Lemma laps_app k v p q : (k * size <= length p)%nat →
  laps k v (p ++ q) = ((laps k v p).1, (laps k v p).2 ++ q).
Proof.
  revert v p. induction k as [|k IH]; intros v p H; cbn [laps]; [done|].
  rewrite stripe_app, drop_app_le by lia. apply IH. rewrite length_drop. lia.
Qed.

Lemma laps_add j k v p : laps (j + k) v p = laps k (laps j v p).1 (laps j v p).2.
Proof. revert v p. induction j as [|j IH]; intros; cbn [laps Nat.add]; [done|]. apply IH. Qed.

Lemma laps_rest k v p : (laps k v p).2 = drop (k * size) p.
Proof.
  revert v p. induction k as [|k IH]; intros; cbn [laps]; [done|].
  by rewrite IH, drop_drop.
Qed.

Lemma fed_short v p : (length p < size)%nat → fed v p = (v, p).
Proof. intros H. unfold fed. by rewrite Nat.div_small. Qed.

Lemma fed_stripe v p : (size <= length p)%nat → fed v p = fed (stripe v p) (drop size p).
Proof.
  intros H. unfold fed. rewrite length_drop.
  replace (length p) with ((length p - size) + 1 * size)%nat at 1 by lia.
  rewrite Nat.div_add by lia. by rewrite Nat.add_comm.
Qed.

Lemma fed_rest v p : (length (fed v p).2 < size)%nat ∧ suffix (fed v p).2 p.
Proof.
  unfold fed. rewrite laps_rest, length_drop. split; [|by apply suffix_drop].
  pose proof (Nat.div_mod (length p) size). pose proof (Nat.mod_upper_bound (length p) size). lia.
Qed.

(** Hashing a concatenation is hashing the second part onto the first. *)
Lemma fed_app v p q : fed v (p ++ q) = fed (fed v p).1 ((fed v p).2 ++ q).
Proof.
  unfold fed at 1. rewrite length_app.
  pose proof (fed_rest v p) as [Hr _]. unfold fed at 2 3. unfold fed in Hr.
  rewrite laps_rest in Hr |- *. rewrite length_drop in Hr.
  set (k := (length p / size)%nat) in *.
  assert (k * size <= length p)%nat by (subst k; rewrite Nat.mul_comm; apply Nat.Div0.mul_div_le).
  replace ((length p + length q) / size)%nat
    with (k + length (drop (k * size) p ++ q) / size)%nat.
  2:{ rewrite length_app, length_drop, <- Nat.div_add_l by lia. f_equal. lia. }
  rewrite laps_add, laps_app by done. cbn. by rewrite laps_rest.
Qed.

(** The [do ... while] loop, entered with a whole stripe and fuel for the
    length of the input, runs over all the whole stripes. *)
Lemma stripes_fed fuel v p : (size <= length p)%nat → (length p <= fuel)%nat →
  stripes n round get fuel v p = fed v p.
Proof.
  revert v p. induction fuel as [|fuel IH]; intros v p H Hf; [lia|]. cbn [stripes].
  rewrite (fed_stripe v p) by done. destruct (Nat.leb_spec size (length (drop size p))) as [|Hs].
  - apply IH; [done|]. rewrite length_drop. lia.
  - by rewrite fed_short.
Qed.

(** The word loop stops with less than a word left. *)
Lemma words_rest f fuel h p : (length p <= fuel)%nat →
  (length (words n get f fuel h p).2 < n)%nat.
Proof.
  revert h p. induction fuel as [|fuel IH]; intros h p Hf; cbn [words].
  { simpl. lia. }
  destruct (Nat.leb_spec n (length p)); [|done]. apply IH. rewrite length_drop. lia.
Qed.

(** ** The buffered state of a stream *)
Definition waiting (v0 : lanes) (msg : list Z) (v : lanes) (mem : list Z) (m : Z) : Prop :=
  length mem = size ∧ 0 ≤ m < Z.of_nat size ∧ fed v0 msg = (v, take (Z.to_nat m) mem).

Lemma memcpy_length off bs mem : (off + length bs <= length mem)%nat → length (memcpy_at off bs mem) = length mem.
Proof. intros. unfold memcpy_at. rewrite !length_app, length_take, length_drop. lia. Qed.

Lemma memcpy_take off bs mem : (off + length bs <= length mem)%nat →
  take (off + length bs) (memcpy_at off bs mem) = take off mem ++ bs.
Proof.
  intros. unfold memcpy_at. rewrite app_assoc. apply take_app_length'.
  rewrite length_app, length_take. lia.
Qed.

Hypothesis n_small : (n <= 8)%nat.

(** The bytes left from before are topped up to a stripe. *)
Definition top_up (v : lanes) (mem : list Z) (m : Z) (input : list Z) : lanes * list Z * list Z :=
  if m =? 0 then (v, mem, input)
  else
    let fill := Z.to_nat (Z.of_nat size - m) in
    let mem := memcpy_at (Z.to_nat m) (take fill input) mem in
    (stripe v mem, mem, drop fill input).

Lemma top_up_ok v0 msg v mem m input v' mem' p :
  waiting v0 msg v mem m → Z.of_nat size ≤ m + Z.of_nat (length input) →
  top_up v mem m input = (v', mem', p) →
  length mem' = size ∧ fed v0 (msg ++ input) = fed v' p.
Proof.
  intros (Hmem & Hm & Hfed) Hlen. unfold top_up. rewrite fed_app, Hfed. cbn [fst snd].
  destruct (Z.eqb_spec m 0) as [->|Hm0]; [by intros [= <- <- <-]|].
  set (fill := Z.to_nat (Z.of_nat size - m)). intros [= <- <- <-].
  assert (Hpl : length (memcpy_at (Z.to_nat m) (take fill input) mem) = size).
  { rewrite memcpy_length; [done|]. rewrite length_take. lia. }
  split; [done|].
  assert (Hput : memcpy_at (Z.to_nat m) (take fill input) mem = take (Z.to_nat m) mem ++ take fill input).
  { rewrite <- memcpy_take by (rewrite length_take; lia). symmetry. apply take_ge.
    rewrite Hpl, length_take. lia. }
  rewrite <- (take_drop fill input) at 1. rewrite app_assoc, <- Hput, fed_stripe.
  2:{ rewrite length_app. lia. }
  rewrite stripe_app by lia. by rewrite drop_app_length' by lia.
Qed.

Lemma absorb_ok v0 msg v mem m input v' mem' m' :
  waiting v0 msg v mem m → Z.of_nat (length input) < 2 ^ 63 →
  absorb n round get v mem m input = (v', mem', m') →
  waiting v0 (msg ++ input) v' mem' m'.
Proof.
  intros Hw Hlen. pose proof Hw as (Hmem & Hm & Hfed). unfold absorb.
  rewrite u64_small by lia. case_match eqn:Hfit.
  - apply Z.ltb_lt in Hfit. intros [= <- <- <-]. rewrite (u32_small (Z.of_nat _)) by lia.
    rewrite u32_small by lia. split_and!; [rewrite memcpy_length; lia|lia|lia|].
    rewrite fed_app, Hfed. cbn [fst snd].
    rewrite fed_short by (rewrite length_app, length_take; lia). f_equal.
    rewrite Z2Nat.inj_add, Nat2Z.id by lia. symmetry. apply memcpy_take. lia.
  - apply Z.ltb_ge in Hfit. fold (top_up v mem m input).
    destruct (top_up v mem m input) as [[v1 mem1] p] eqn:Ht.
    destruct (top_up_ok _ _ _ _ _ _ _ _ _ Hw Hfit Ht) as [Hmem1 Hf1].
    assert (Hs : (if (size <=? length p)%nat then stripes n round get (length p) v1 p else (v1, p)) = fed v1 p).
    { destruct (Nat.leb_spec size (length p)); [by apply stripes_fed|by rewrite fed_short]. }
    rewrite Hs. pose proof (fed_rest v1 p) as [Hr _]. destruct (fed v1 p) as [v2 r] eqn:Hf2. cbn [snd] in Hr.
    destruct (Nat.ltb_spec 0 (length r)) as [|Hr0]; intros [= <- <- <-]; unfold waiting; rewrite Hf1.
    + rewrite Nat2Z.id, (memcpy_length 0 r) by lia. split_and!; [done|lia|lia|]. f_equal.
      symmetry. apply (memcpy_take 0 r). lia.
    + split_and!; [done|lia|lia|]. destruct r; [done|simpl in *; lia].
Qed.
End loops.

(** ** Byte order *)

(** Bits of a shifted and masked word at a constant position. *)
Ltac bits_at_constants :=
  rewrite ?Z.lor_spec, ?Z.land_spec;
  repeat match goal with
  | |- context [Z.testbit (Zpos ?m) ?n] =>
      let b := eval vm_compute in (Z.testbit (Zpos m) n) in change (Z.testbit (Zpos m) n) with b
  end;
  rewrite ?andb_true_r, ?andb_false_r, ?orb_false_r, ?orb_false_l;
  unfold u32, u64; rewrite ?Z.mod_pow2_bits_low, ?Z.shiftl_spec, ?Z.shiftr_spec by lia; reflexivity.


Lemma swap32_bits x : ∀ n, 0 ≤ n < 32 →
  Z.testbit (XXH_swap32 x) n = Z.testbit x (24 - 8 * (n / 8) + n mod 8).
Proof.
  apply (below_cases _ 32). unfold XXH_swap32. cbn [fmap list_fmap seq].
  repeat (apply Forall_cons; split; [bits_at_constants|]). by apply Forall_nil.
Qed.

Lemma swap64_bits x : ∀ n, 0 ≤ n < 64 →
  Z.testbit (XXH_swap64 x) n = Z.testbit x (56 - 8 * (n / 8) + n mod 8).
Proof.
  apply (below_cases _ 64). unfold XXH_swap64. cbn [fmap list_fmap seq].
  repeat (apply Forall_cons; split; [bits_at_constants|]). by apply Forall_nil.
Qed.

(** A word whose bytes are those of another in reverse. *)
Lemma reversed (w : nat) x bs : length bs = w → Forall is_byte bs → 0 ≤ x < 2 ^ (8 * Z.of_nat w) →
  (∀ n, 0 ≤ n < 8 * Z.of_nat w →
    Z.testbit x n = Z.testbit (unle bs) (8 * (Z.of_nat w - 1) - 8 * (n / 8) + n mod 8)) →
  x = unle (rev bs).
Proof.
  intros Hl Hbs Hx H. apply Z.bits_inj'. intros n Hn.
  pose proof (unle_range (rev bs) (rev_bytes _ Hbs)) as Hr. rewrite length_rev, Hl in Hr.
  destruct (decide (n < 8 * Z.of_nat w)).
  2:{ rewrite (testbit_above x (8 * Z.of_nat w)) by lia.
      by rewrite (testbit_above _ (Z.of_nat (8 * w))) by lia. }
  pose proof (Z.div_mod n 8). pose proof (Z.mod_pos_bound n 8).
  rewrite H, !unle_bits by (by apply rev_bytes || (rewrite ?length_rev; lia) || done).
  replace (8 * (Z.of_nat w - 1) - 8 * (n / 8) + n mod 8)
    with (n mod 8 + (Z.of_nat w - 1 - n / 8) * 8) by lia.
  rewrite Z.div_add, Z.mod_add, Zmod_mod, (Z.div_small (n mod 8)) by lia. f_equal.
  rewrite rev_alt. change (rev_append bs []) with (reverse bs).
  rewrite !list_lookup_total_alt, reverse_lookup by lia. do 2 f_equal. lia.
Qed.

(** A word of masked parts stays in the width. *)
Ltac masked_range w :=
  apply below_pow2; [lia|repeat (apply Z.lor_nonneg; split); apply Z.land_nonneg; right; lia|];
  intros n Hn; rewrite ?Z.lor_spec, ?Z.land_spec;
  repeat match goal with
  | |- context [Z.testbit (Zpos ?m) n] => rewrite (testbit_above (Zpos m) w n) by lia
  end; by rewrite !andb_false_r.

Lemma swap32_range x : 0 ≤ XXH_swap32 x < 2 ^ 32.
Proof. unfold XXH_swap32. masked_range 32. Qed.
Lemma swap64_range x : 0 ≤ XXH_swap64 x < 2 ^ 64.
Proof. unfold XXH_swap64. masked_range 64. Qed.

Lemma swap32_unle bs : length bs = 4%nat → Forall is_byte bs → XXH_swap32 (unle bs) = unle (rev bs).
Proof.
  intros Hl Hbs. apply (reversed 4); [done|done|apply swap32_range|].
  intros n Hn. rewrite swap32_bits by lia. f_equal.
Qed.

Lemma swap64_unle bs : length bs = 8%nat → Forall is_byte bs → XXH_swap64 (unle bs) = unle (rev bs).
Proof.
  intros Hl Hbs. apply (reversed 8); [done|done|apply swap64_range|].
  intros n Hn. rewrite swap64_bits by lia. f_equal.
Qed.

Lemma swap32_le x : 0 ≤ x < 2 ^ 32 → XXH_swap32 x = unle (rev (le 4 x)).
Proof.
  intros Hx. rewrite <- swap32_unle by (apply le_length || apply le_bytes).
  by rewrite unle_le, Z.mod_small.
Qed.
Lemma swap64_le x : 0 ≤ x < 2 ^ 64 → XXH_swap64 x = unle (rev (le 8 x)).
Proof.
  intros Hx. rewrite <- swap64_unle by (apply le_length || apply le_bytes).
  by rewrite unle_le, Z.mod_small.
Qed.

(** ** Reads *)
Lemma readLE32_unle cpu p align : (4 <= length p)%nat → Forall is_byte p →
  XXH_readLE32_align cpu p cpu align = unle (take 4 p).
Proof.
  intros Hl Hp. assert (length (rev (take 4 p)) = 4%nat) by (rewrite length_rev, length_take; lia).
  assert (Forall is_byte (rev (take 4 p))) by by apply rev_bytes, Forall_take.
  unfold XXH_readLE32_align, XXH_read32, native.
  destruct cpu, align; simpl; rewrite ?swap32_unle, ?rev_involutive by done; done.
Qed.

Lemma readLE64_unle cpu p align : (8 <= length p)%nat → Forall is_byte p →
  XXH_readLE64_align cpu p cpu align = unle (take 8 p).
Proof.
  intros Hl Hp. assert (length (rev (take 8 p)) = 8%nat) by (rewrite length_rev, length_take; lia).
  assert (Forall is_byte (rev (take 8 p))) by by apply rev_bytes, Forall_take.
  unfold XXH_readLE64_align, XXH_read64, native.
  destruct cpu, align; simpl; rewrite ?swap64_unle, ?rev_involutive by done; done.
Qed.

Lemma readLE32_app cpu endian align p q : (4 <= length p)%nat →
  XXH_readLE32_align cpu (p ++ q) endian align = XXH_readLE32_align cpu p endian align.
Proof. intros. unfold XXH_readLE32_align, XXH_read32. by rewrite take_app_le. Qed.

Lemma readLE64_app cpu endian align p q : (8 <= length p)%nat →
  XXH_readLE64_align cpu (p ++ q) endian align = XXH_readLE64_align cpu p endian align.
Proof. intros. unfold XXH_readLE64_align, XXH_read64. by rewrite take_app_le. Qed.

(** Two readers that agree on the bytes of the input give the same loops. *)
Section ext.
Context (n : nat) (round : Z → Z → Z) (get get' : list Z → Z).
Hypothesis same : ∀ p, (n <= length p)%nat → Forall is_byte p → get p = get' p.

Lemma stripe_ext v p : (4 * n <= length p)%nat → Forall is_byte p →
  stripe n round get v p = stripe n round get' v p.
Proof.
  intros Hl Hp. unfold stripe.
  by rewrite !same by (rewrite ?length_drop; first [lia|by apply Forall_drop|done]).
Qed.

Lemma stripes_ext fuel v p : (4 * n <= length p)%nat → Forall is_byte p →
  stripes n round get fuel v p = stripes n round get' fuel v p.
Proof.
  revert v p. induction fuel as [|fuel IH]; intros v p Hl Hp; cbn [stripes]; [done|].
  rewrite stripe_ext by done. destruct (Nat.leb_spec (4 * n) (length (drop (4 * n) p))); [|done].
  apply IH; [done|]. by apply Forall_drop.
Qed.

Lemma stripes_bytes fuel v p : Forall is_byte p →
  Forall is_byte (stripes n round get fuel v p).2.
Proof.
  revert v p. induction fuel as [|fuel IH]; intros v p Hp; cbn [stripes]; [done|].
  destruct (_ <=? _)%nat; [apply IH|]; by apply Forall_drop.
Qed.

Lemma words_ext f fuel h p : Forall is_byte p →
  words n get f fuel h p = words n get' f fuel h p.
Proof.
  revert h p. induction fuel as [|fuel IH]; intros h p Hp; cbn [words]; [done|].
  destruct (Nat.leb_spec n (length p)); [|done]. rewrite same by done.
  apply IH. by apply Forall_drop.
Qed.

Lemma words_bytes f fuel h p : Forall is_byte p → Forall is_byte (words n get f fuel h p).2.
Proof.
  revert h p. induction fuel as [|fuel IH]; intros h p Hp; cbn [words]; [done|].
  destruct (_ <=? _)%nat; [|done]. apply IH. by apply Forall_drop.
Qed.
End ext.
