(* ===== verification/XxhashRun.v ===== *)
(** * XxhashRun: what the hash functions promise

    The stream computes the hash of the concatenation; the hash and its
    canonical form do not depend on the processor, the alignment or the
    build; [XXH64] has no collisions on keys of one word. *)
From Stdlib Require Import ZArith Lia.
From stdpp Require Import base numbers list gmap strings.
From S2P Require Import Prelude Bytes Words Xxhash XxhashOk.

(** ** Streams *)
Definition XXH32_stream (cpu : XXH_endianess) (seed : Z) (pieces : list (list Z)) : XXH32_state :=
  foldl (λ st p, (XXH32_update cpu st p).2) (XXH32_reset seed) pieces.
Definition XXH64_stream (cpu : XXH_endianess) (seed : Z) (pieces : list (list Z)) : XXH64_state :=
  foldl (λ st p, (XXH64_update cpu st p).2) (XXH64_reset seed) pieces.

Section stream.
Context (cpu : XXH_endianess) (seed : Z).

Definition get32 (p : list Z) : Z := XXH_readLE32 cpu p cpu.
Definition get64 (p : list Z) : Z := XXH_readLE64 cpu p cpu.

(** The state that has taken in [msg]. *)
Record holds32 (msg : list Z) (st : XXH32_state) : Prop := {
  h32_total : st.(total_len_32) = u32 (Z.of_nat (length msg));
  h32_large : st.(large_len) = Z.b2z (16 <=? Z.of_nat (length msg));
  h32_waiting : waiting 4 XXH32_round get32 (seed32 seed) msg st.(lanes32) st.(mem32) st.(memsize32)
}.
Record holds64 (msg : list Z) (st : XXH64_state) : Prop := {
  h64_total : st.(total_len) = u64 (Z.of_nat (length msg));
  h64_waiting : waiting 8 XXH64_round get64 (seed64 seed) msg st.(lanes64) st.(mem64) st.(memsize64)
}.

Lemma get32_app p q : (4 <= length p)%nat → get32 (p ++ q) = get32 p.
Proof. apply readLE32_app. Qed.
Lemma get64_app p q : (8 <= length p)%nat → get64 (p ++ q) = get64 p.
Proof. apply readLE64_app. Qed.

Lemma reset32_holds : holds32 [] (XXH32_reset seed).
Proof. split; [done..|]. by repeat split. Qed.
Lemma reset64_holds : holds64 [] (XXH64_reset seed).
Proof. split; [done|]. by repeat split. Qed.

Lemma large_or a b : 0 ≤ a → 0 ≤ b < 2 ^ 63 →
  Z.lor (Z.b2z (16 <=? a)) (Z.lor (Z.b2z (16 <=? b)) (Z.b2z (16 <=? u32 (u32 a + u32 b))))
  = Z.b2z (16 <=? a + b).
Proof.
  intros Ha Hb. destruct (Z.leb_spec 16 a), (Z.leb_spec 16 b), (Z.leb_spec 16 (a + b)); try lia;
    try by destruct (16 <=? u32 (u32 a + u32 b)).
  - rewrite (u32_small a), (u32_small b), u32_small by lia. by destruct (Z.leb_spec 16 (a + b)); [|lia].
  - rewrite (u32_small a), (u32_small b), u32_small by lia. by destruct (Z.leb_spec 16 (a + b)); [lia|].
Qed.

Lemma u32_add a b : u32 (u32 a + u32 b) = u32 (a + b).
Proof. unfold u32. by rewrite <- Z.add_mod by lia. Qed.
Lemma u32_add_l a b : u32 (u32 a + b) = u32 (a + b).
Proof. unfold u32. by rewrite Z.add_mod_idemp_l by lia. Qed.
Lemma u64_add_l a b : u64 (u64 a + b) = u64 (a + b).
Proof. unfold u64. by rewrite Z.add_mod_idemp_l by lia. Qed.

Lemma update32_holds msg st p : Z.of_nat (length p) < 2 ^ 63 → holds32 msg st →
  (XXH32_update cpu st p).1 = XXH_OK ∧ holds32 (msg ++ p) (XXH32_update cpu st p).2.
Proof.
  intros Hp [Ht Hg Hw]. unfold XXH32_update, XXH32_update_endian. fold get32.
  destruct (absorb _ _ _ _ _ _ _) as [[v mem] m] eqn:E. split; [done|].
  apply (absorb_ok 4 XXH32_round get32) with (v0 := seed32 seed) (msg := msg) in E;
    [|lia|apply get32_app|lia|done|done].
  split; cbn; [|rewrite Hg|done].
  - by rewrite Ht, u32_add, length_app, Nat2Z.inj_add.
  - rewrite Ht, large_or, length_app, Nat2Z.inj_add by lia. done.
Qed.

Lemma update64_holds msg st p : Z.of_nat (length p) < 2 ^ 63 → holds64 msg st →
  (XXH64_update cpu st p).1 = XXH_OK ∧ holds64 (msg ++ p) (XXH64_update cpu st p).2.
Proof.
  intros Hp [Ht Hw]. unfold XXH64_update, XXH64_update_endian. fold get64.
  destruct (absorb _ _ _ _ _ _ _) as [[v mem] m] eqn:E. split; [done|].
  apply (absorb_ok 8 XXH64_round get64) with (v0 := seed64 seed) (msg := msg) in E;
    [|lia|apply get64_app|lia|done|done].
  split; cbn; [|done]. by rewrite Ht, u64_add_l, length_app, Nat2Z.inj_add.
Qed.

Lemma stream32_holds pieces : Z.of_nat (length (concat pieces)) < 2 ^ 63 →
  holds32 (concat pieces) (XXH32_stream cpu seed pieces).
Proof.
  unfold XXH32_stream. induction pieces as [|p ps IH] using rev_ind; intros Hl.
  { apply reset32_holds. }
  rewrite concat_app in Hl |- *. cbn [concat] in Hl |- *. rewrite app_nil_r in Hl |- *.
  rewrite length_app in Hl. rewrite foldl_app. cbn. apply update32_holds; [lia|]. apply IH. lia.
Qed.

Lemma stream64_holds pieces : Z.of_nat (length (concat pieces)) < 2 ^ 63 →
  holds64 (concat pieces) (XXH64_stream cpu seed pieces).
Proof.
  unfold XXH64_stream. induction pieces as [|p ps IH] using rev_ind; intros Hl.
  { apply reset64_holds. }
  rewrite concat_app in Hl |- *. cbn [concat] in Hl |- *. rewrite app_nil_r in Hl |- *.
  rewrite length_app in Hl. rewrite foldl_app. cbn. apply update64_holds; [lia|]. apply IH. lia.
Qed.

(** Aligned and unaligned reads are the same reads. *)
Lemma get32_align align p : XXH_readLE32_align cpu p cpu align = get32 p.
Proof. by destruct align. Qed.
Lemma get64_align align p : XXH_readLE64_align cpu p cpu align = get64 p.
Proof. by destruct align. Qed.

Lemma digest32_holds msg st align : holds32 msg st →
  XXH32_digest cpu st = XXH32_endian_align cpu msg seed cpu align.
Proof.
  intros [Ht Hg (Hm & Hs & Hf)]. unfold XXH32_digest, XXH32_digest_endian, XXH32_endian_align.
  replace (λ p, XXH_readLE32_align cpu p cpu align) with get32 by by destruct align.
  change (λ p, XXH_readLE32 cpu p cpu) with get32. rewrite Ht, Hg.
  destruct (Z.leb_spec 16 (Z.of_nat (length msg))) as [H16|H16].
  - rewrite stripes_fed by lia. rewrite Hf. done.
  - rewrite fed_short in Hf by (cbn; lia). injection Hf as <- <-.
    cbn [seed32 v3 Z.eqb Z.b2z]. by rewrite Z.add_0_r, (u32_add_l seed).
Qed.

Lemma digest64_holds msg st align : Z.of_nat (length msg) < 2 ^ 63 → holds64 msg st →
  XXH64_digest cpu st = XXH64_endian_align cpu msg seed cpu align.
Proof.
  intros Hlen [Ht (Hm & Hs & Hf)]. unfold XXH64_digest, XXH64_digest_endian, XXH64_endian_align.
  replace (λ p, XXH_readLE64_align cpu p cpu align) with get64 by by destruct align.
  replace (λ p, XXH_readLE32_align cpu p cpu align) with (λ p, XXH_readLE32 cpu p cpu) by by destruct align.
  change (λ p, XXH_readLE64 cpu p cpu) with get64. rewrite Ht, (u64_small (Z.of_nat (length msg))) by lia.
  destruct (Z.leb_spec 32 (Z.of_nat (length msg))) as [H32|H32].
  - rewrite stripes_fed by lia. rewrite Hf. done.
  - rewrite fed_short in Hf by (cbn; lia). injection Hf as <- <-.
    cbn [seed64 v3 Z.eqb Z.b2z]. by rewrite Z.add_0_r, (u64_add_l seed).
Qed.
End stream.

(** C31: For XXH32 and XXH64, reset, any number of updates with any pieces of
    a message (below 2^63 bytes) and digest give the hash that the one-call
    function gives for the whole message, on a processor of either byte
    order, for aligned and unaligned input. *)
Theorem xxhash_streaming cpu align_check addr seed pieces :
  Z.of_nat (length (concat pieces)) < 2 ^ 63 →
  XXH32_digest cpu (XXH32_stream cpu seed pieces) = XXH32 cpu align_check addr (concat pieces) seed ∧
  XXH64_digest cpu (XXH64_stream cpu seed pieces) = XXH64 cpu align_check addr (concat pieces) seed.
Proof.
  intros Hl. unfold XXH32, XXH64. split.
  - destruct (_ && _); apply digest32_holds; by apply stream32_holds.
  - destruct (_ && _); (apply digest64_holds; [done|]); by apply stream64_holds.
Qed.

Example xxhash_streaming_witness :
  XXH32_digest XXH_bigEndian (XXH32_stream XXH_bigEndian 5 [[1; 2; 3]; []; Z.of_nat <$> seq 0 50])
  = XXH32 XXH_bigEndian true 12 (concat [[1; 2; 3]; []; Z.of_nat <$> seq 0 50]) 5 ∧
  XXH64_digest XXH_bigEndian (XXH64_stream XXH_bigEndian 5 [[1; 2; 3]; []; Z.of_nat <$> seq 0 50])
  = XXH64 XXH_bigEndian true 12 (concat [[1; 2; 3]; []; Z.of_nat <$> seq 0 50]) 5.
Proof. apply xxhash_streaming. vm_compute. reflexivity. Defined.

(** ** Portability *)
Section portable.
Context (cpu cpu' : XXH_endianess) (align align' : XXH_alignment).

Lemma get32_same p : (4 <= length p)%nat → Forall is_byte p →
  XXH_readLE32_align cpu p cpu align = XXH_readLE32_align cpu' p cpu' align'.
Proof. intros. by rewrite !readLE32_unle. Qed.
Lemma get64_same p : (8 <= length p)%nat → Forall is_byte p →
  XXH_readLE64_align cpu p cpu align = XXH_readLE64_align cpu' p cpu' align'.
Proof. intros. by rewrite !readLE64_unle. Qed.

Lemma endian32_same input seed : Forall is_byte input →
  XXH32_endian_align cpu input seed cpu align = XXH32_endian_align cpu' input seed cpu' align'.
Proof.
  intros Hb. unfold XXH32_endian_align, tail32.
  destruct (Z.leb_spec 16 (Z.of_nat (length input))) as [H|H].
  - rewrite (stripes_ext 4 _ _ _ get32_same) by (done || lia).
    pose proof (stripes_bytes 4 XXH32_round (λ p, XXH_readLE32_align cpu' p cpu' align')
      (length input) (seed32 seed) input Hb) as Hr.
    destruct (stripes _ _ _ _ _ _) as [v p]. by rewrite (words_ext 4 _ _ get32_same).
  - by rewrite (words_ext 4 _ _ get32_same).
Qed.

Lemma tail64_same h p : Forall is_byte p →
  tail64 (λ p, XXH_readLE64_align cpu p cpu align) (λ p, XXH_readLE32_align cpu p cpu align) h p
  = tail64 (λ p, XXH_readLE64_align cpu' p cpu' align') (λ p, XXH_readLE32_align cpu' p cpu' align') h p.
Proof.
  intros Hb. unfold tail64. rewrite (words_ext 8 _ _ get64_same) by done.
  pose proof (words_bytes 8 (λ p, XXH_readLE64_align cpu' p cpu' align') step64 (length p) h p Hb) as Hr.
  destruct (words _ _ _ _ _ _) as [h' r]. destruct (Nat.leb_spec 4 (length r)); [|done].
  by rewrite get32_same.
Qed.

Lemma endian64_same input seed : Forall is_byte input →
  XXH64_endian_align cpu input seed cpu align = XXH64_endian_align cpu' input seed cpu' align'.
Proof.
  intros Hb. unfold XXH64_endian_align.
  destruct (Z.leb_spec 32 (Z.of_nat (length input))) as [H|H]; [|by apply tail64_same].
  rewrite (stripes_ext 8 _ _ _ get64_same) by (done || lia).
  pose proof (stripes_bytes 8 XXH64_round (λ p, XXH_readLE64_align cpu' p cpu' align')
    (length input) (seed64 seed) input Hb) as Hr.
  destruct (stripes _ _ _ _ _ _) as [v p]. by apply tail64_same.
Qed.
End portable.

(** The hashes do not depend on the processor, the build or the address. *)
Theorem xxhash_portable cpu cpu' ac ac' addr addr' input seed :
  Forall is_byte input →
  XXH32 cpu ac addr input seed = XXH32 cpu' ac' addr' input seed ∧
  XXH64 cpu ac addr input seed = XXH64 cpu' ac' addr' input seed.
Proof.
  intros Hb. unfold XXH32, XXH64. split.
  - destruct (_ && _), (_ && _); by apply endian32_same.
  - destruct (_ && _), (_ && _); by apply endian64_same.
Qed.

(** ** The canonical form *)
Lemma canonical32_bytes cpu h : 0 ≤ h < 2 ^ 32 → XXH32_canonicalFromHash cpu h = rev (le 4 h).
Proof.
  intros Hh. unfold XXH32_canonicalFromHash, native_bytes. destruct cpu; case_decide; [done..| |done].
  rewrite swap32_le by done. etrans; [|apply (le_unle (rev (le 4 h))), rev_bytes, le_bytes].
  by rewrite length_rev, le_length.
Qed.

Lemma canonical64_bytes cpu h : 0 ≤ h < 2 ^ 64 → XXH64_canonicalFromHash cpu h = rev (le 8 h).
Proof.
  intros Hh. unfold XXH64_canonicalFromHash, native_bytes. destruct cpu; case_decide; [done..| |done].
  rewrite swap64_le by done. etrans; [|apply (le_unle (rev (le 8 h))), rev_bytes, le_bytes].
  by rewrite length_rev, le_length.
Qed.

(** The canonical form is the big-endian bytes, whatever the processor, and
    a hash written on one processor is read back on any other. *)
Theorem canonical_roundtrip cpu cpu' h h' :
  0 ≤ h < 2 ^ 32 → 0 ≤ h' < 2 ^ 64 →
  XXH32_hashFromCanonical cpu' (XXH32_canonicalFromHash cpu h) = h ∧
  XXH64_hashFromCanonical cpu' (XXH64_canonicalFromHash cpu h') = h'.
Proof.
  intros Hh Hh'. rewrite canonical32_bytes, canonical64_bytes by done.
  unfold XXH32_hashFromCanonical, XXH_readBE32, XXH_read32, XXH64_hashFromCanonical, XXH_readBE64, XXH_read64, native.
  rewrite !take_ge by (rewrite length_rev, le_length; lia).
  assert (E32 : unle (le 4 h) = h) by by rewrite unle_le, Z.mod_small.
  assert (E64 : unle (le 8 h') = h') by by rewrite unle_le, Z.mod_small.
  destruct cpu'; cbn [decide decide_rel XXH_endianess_eq_dec]; [by rewrite !rev_involutive|].
  rewrite swap32_unle, swap64_unle, !rev_involutive
    by ((rewrite length_rev; apply le_length) || apply rev_bytes, le_bytes).
  done.
Qed.

Example canonical_roundtrip_witness :
  XXH32_hashFromCanonical XXH_bigEndian (XXH32_canonicalFromHash XXH_littleEndian 0x02CC5D05) = 0x02CC5D05 ∧
  XXH64_hashFromCanonical XXH_bigEndian (XXH64_canonicalFromHash XXH_littleEndian 0xEF46DB3751D8E999)
  = 0xEF46DB3751D8E999.
Proof. apply canonical_roundtrip; lia. Defined.

Example xxhash_portable_witness :
  XXH32 XXH_littleEndian true 4 [1; 2; 3; 4; 5] 9 = XXH32 XXH_bigEndian false 5 [1; 2; 3; 4; 5] 9 ∧
  XXH64 XXH_littleEndian true 4 [1; 2; 3; 4; 5] 9 = XXH64 XXH_bigEndian false 5 [1; 2; 3; 4; 5] 9.
Proof. apply xxhash_portable. repeat constructor; unfold is_byte; lia. Defined.

(** ** No collisions on one word *)
Section inj.
Lemma affine_inj p q c x y : p * q mod 2 ^ 64 = 1 → 0 ≤ x < 2 ^ 64 → 0 ≤ y < 2 ^ 64 →
  u64 (x * p + c) = u64 (y * p + c) → x = y.
Proof.
  intros Hpq Hx Hy E. unfold u64 in E. apply (mul_mod_inj (2 ^ 64) p q); [lia|done..|].
  apply (add_mod_inj (2 ^ 64) c); [lia|by apply Z.mod_pos_bound..|].
  by rewrite !Z.add_mod_idemp_l by lia.
Qed.

Lemma scale_inj p q x y : p * q mod 2 ^ 64 = 1 → 0 ≤ x < 2 ^ 64 → 0 ≤ y < 2 ^ 64 →
  u64 (x * p) = u64 (y * p) → x = y.
Proof. intros Hpq Hx Hy E. apply (affine_inj p q 0); [done..|]. by rewrite !Z.add_0_r. Qed.

Definition INV64_1 : Z := 614540362697595703.
Definition INV64_2 : Z := 839798700976720815.
Definition INV64_3 : Z := 16855272203555305545.

Lemma prime64_1 : PRIME64_1 * INV64_1 mod 2 ^ 64 = 1.
Proof. by vm_compute. Qed.
Lemma prime64_2 : PRIME64_2 * INV64_2 mod 2 ^ 64 = 1.
Proof. by vm_compute. Qed.
Lemma prime64_3 : PRIME64_3 * INV64_3 mod 2 ^ 64 = 1.
Proof. by vm_compute. Qed.

Lemma round64_range acc k : 0 ≤ XXH64_round acc k < 2 ^ 64.
Proof. apply u64_range. Qed.

Lemma round64_inj k k' : 0 ≤ k < 2 ^ 64 → 0 ≤ k' < 2 ^ 64 →
  XXH64_round 0 k = XXH64_round 0 k' → k = k'.
Proof.
  intros Hk Hk' E. apply (scale_inj _ _ _ _ prime64_2); [done..|].
  apply (rotl_inj 64 31); [lia|apply u64_range..|].
  apply (scale_inj _ _ _ _ prime64_1); [apply rotl_range; [lia|apply u64_range]..|]. exact E.
Qed.

Lemma mix64_inj w r p q c : 0 < r < 64 → p * q mod 2 ^ 64 = 1 → ∀ x y,
  0 ≤ w < 2 ^ 64 → 0 ≤ x < 2 ^ 64 → 0 ≤ y < 2 ^ 64 →
  u64 (XXH_rotl64 (Z.lxor w x) r * p + c) = u64 (XXH_rotl64 (Z.lxor w y) r * p + c) → x = y.
Proof.
  intros Hr Hpq x y Hw Hx Hy E.
  assert (Hl : ∀ z, 0 ≤ z < 2 ^ 64 → 0 ≤ Z.lxor w z < 2 ^ 64) by (intros; by apply lxor_pow2).
  apply (affine_inj p q) in E; [|done|apply rotl_range; [done|by apply Hl]..].
  apply (rotl_inj 64 r) in E; [|done|by apply Hl..].
  rewrite !(Z.lxor_comm w) in E. by apply lxor_cancel in E.
Qed.

Lemma avalanche64_inj x y : 0 ≤ x < 2 ^ 64 → 0 ≤ y < 2 ^ 64 → avalanche64 x = avalanche64 y → x = y.
Proof.
  intros Hx Hy E. unfold avalanche64 in E. fold (xorshr 33 x) (xorshr 33 y) in E.
  pose proof (xorshr_range 64 33 x ltac:(lia) ltac:(lia) Hx).
  pose proof (xorshr_range 64 33 y ltac:(lia) ltac:(lia) Hy).
  fold (xorshr 29 (u64 (xorshr 33 x * PRIME64_2))) (xorshr 29 (u64 (xorshr 33 y * PRIME64_2))) in E.
  pose proof (xorshr_range 64 29 _ ltac:(lia) ltac:(lia) (u64_range (xorshr 33 x * PRIME64_2))).
  pose proof (xorshr_range 64 29 _ ltac:(lia) ltac:(lia) (u64_range (xorshr 33 y * PRIME64_2))).
  apply (xorshr_inj 32) in E; [|lia|apply u64_range..].
  apply (scale_inj _ _ _ _ prime64_3) in E; [|done..].
  apply (xorshr_inj 29) in E; [|lia|apply u64_range..].
  apply (scale_inj _ _ _ _ prime64_2) in E; [|done..].
  by apply (xorshr_inj 33) in E; [|lia..].
Qed.
End inj.

Lemma words_one n get f fuel h p : (0 < n)%nat → length p = n →
  words n get f (S (S fuel)) h p = (f h (get p), []).
Proof.
  intros Hn Hp. cbn [words]. rewrite Hp, Nat.leb_refl, drop_ge by lia. cbn [length].
  by destruct (Nat.leb_spec n 0); [lia|].
Qed.

Lemma words_none n get f fuel h p : (length p < n)%nat → words n get f fuel h p = (h, p).
Proof. intros Hp. destruct fuel; cbn [words]; [done|]. by destruct (Nat.leb_spec n (length p)); [lia|]. Qed.

Definition start64 (seed len : Z) : Z := u64 (u64 (seed + PRIME64_5) + len).

Lemma xxh64_word8 seed k : length k = 8%nat → Forall is_byte k →
  XXH64_endian_align XXH_littleEndian k seed XXH_littleEndian XXH_unaligned
  = avalanche64 (step64 (start64 seed 8) (unle k)).
Proof.
  intros Hl Hk. unfold XXH64_endian_align, tail64. rewrite Hl. change (32 <=? Z.of_nat 8) with false.
  cbv beta iota zeta. rewrite Hl. rewrite words_one by lia. rewrite readLE64_unle, take_ge by (lia || done). done.
Qed.

Lemma xxh64_word4 seed k : length k = 4%nat → Forall is_byte k →
  XXH64_endian_align XXH_littleEndian k seed XXH_littleEndian XXH_unaligned
  = avalanche64 (half64 (start64 seed 4) (unle k)).
Proof.
  intros Hl Hk. unfold XXH64_endian_align, tail64. rewrite Hl. change (32 <=? Z.of_nat 4) with false.
  cbv beta iota zeta. rewrite Hl. rewrite words_none by lia. rewrite Hl. cbn [Nat.leb].
  rewrite readLE32_unle, take_ge by (lia || done). by rewrite drop_ge by lia.
Qed.

(** C32: XXH64 never maps two different keys of four bytes, or two different
    keys of eight bytes, to the same hash, whatever the seed: inode numbers,
    file offsets and addresses collide in a hash table only through the
    truncation to 32 bits. *)
Theorem XXH64_word_injective cpu align_check addr addr' seed k k' :
  Forall is_byte k → Forall is_byte k' → length k = length k' → length k = 4%nat ∨ length k = 8%nat →
  k ≠ k' → XXH64 cpu align_check addr k seed ≠ XXH64 cpu align_check addr' k' seed.
Proof.
  intros Hk Hk' Hl Hn Hne E. apply Hne. clear Hne.
  rewrite (proj2 (xxhash_portable cpu XXH_littleEndian align_check false addr 0 k seed Hk)) in E.
  rewrite (proj2 (xxhash_portable cpu XXH_littleEndian align_check false addr' 0 k' seed Hk')) in E.
  change (XXH64_endian_align XXH_littleEndian k seed XXH_littleEndian XXH_unaligned
    = XXH64_endian_align XXH_littleEndian k' seed XXH_littleEndian XXH_unaligned) in E.
  apply unle_inj; [done..|].
  pose proof (unle_range k Hk) as B. pose proof (unle_range k' Hk') as B'. rewrite <- Hl in B'.
  assert (Hs : ∀ n, 0 ≤ start64 seed n < 2 ^ 64) by (intros; apply u64_range).
  destruct Hn as [Hn|Hn]; rewrite Hn in *.
  - rewrite !xxh64_word4 in E by congruence || done.
    change (2 ^ Z.of_nat (8 * 4)) with (2 ^ 32) in B, B'.
    apply avalanche64_inj in E; [|apply u64_range..]. unfold half64 in E.
    apply (mix64_inj _ 23 _ _ _ ltac:(lia) prime64_2) in E; [|done|apply u64_range..].
    apply (scale_inj _ _ _ _ prime64_1) in E; lia.
  - rewrite !xxh64_word8 in E by congruence || done.
    change (2 ^ Z.of_nat (8 * 8)) with (2 ^ 64) in B, B'.
    apply avalanche64_inj in E; [|apply u64_range..]. unfold step64 in E.
    apply (mix64_inj _ 27 _ _ _ ltac:(lia) prime64_1) in E; [|done|apply round64_range..].
    by apply round64_inj in E.
Qed.

Example XXH64_word_injective_witness :
  XXH64 XXH_littleEndian false 0 [7; 0; 0; 0] 0xcafebabe ≠ XXH64 XXH_littleEndian false 64 [8; 0; 0; 0] 0xcafebabe.
Proof.
  apply XXH64_word_injective;
    [repeat constructor; unfold is_byte; lia..|reflexivity|left; reflexivity|discriminate].
Defined.

(** ** The hash functions of filesystem/shared.h

    [block_key_t] has a 32-bit and a 64-bit field with four bytes of padding
    between them; [hash1] and [hash2] hash all sixteen bytes. *)
Section keys.
Context (cpu : XXH_endianess) (align_check : bool).

Definition block_key_bytes (inum : Z) (pad : list Z) (lblock : Z) : list Z :=
  native_bytes cpu 4 inum ++ pad ++ native_bytes cpu 8 lblock.
Definition hash1 (addr inum : Z) (pad : list Z) (lblock : Z) : Z :=
  XXH64 cpu align_check addr (block_key_bytes inum pad lblock) 0.
Definition hash1i (k : Z) : Z := k.
Definition hash2 (addr inum : Z) (pad : list Z) (lblock : Z) : Z :=
  XXH64 cpu align_check addr (block_key_bytes inum pad lblock) 1.
End keys.

(** [char] is signed on the target. *)
Definition BKDRHash (str : list Z) : Z :=
  foldl (λ hash b, u64 (hash * 131 + (if b <? 128 then b else b - 256))) 0 str.

(** The same key with other padding has another hash. *)
Example hash1_padding :
  hash1 XXH_littleEndian false 0 5 [0; 0; 0; 0] 2 ≠ hash1 XXH_littleEndian false 0 5 [1; 0; 0; 0] 2.
Proof. vm_compute. discriminate. Qed.
