(* ===== verification/Dlist.v ===== *)
(** * Dlist: doubly linked lists over link functions

    A null-terminated doubly linked list, stated on two functions [nx] and
    [pv] from a node to its successor and predecessor (0 for none), with the
    three updates a program makes: a push at the front, an append and the
    removal of a node. *)
From Stdlib Require Import ZArith Lia.
From stdpp Require Import base numbers list gmap strings.
From S2P Require Import Prelude.

Definition fupd (f : Z → Z) (x v : Z) : Z → Z := λ y, if decide (y = x) then v else f y.
(** The write is guarded by a test of the pointer. *)
Definition fupd_nz (f : Z → Z) (x v : Z) : Z → Z := if decide (x = 0) then f else fupd f x v.

Lemma fupd_same f x v : fupd f x v x = v.
Proof. unfold fupd. by rewrite decide_True. Qed.
Lemma fupd_other f x v y : y ≠ x → fupd f x v y = f y.
Proof. intros. unfold fupd. by rewrite decide_False. Qed.
Lemma fupd_nz_other f x v y : y ≠ x → fupd_nz f x v y = f y.
Proof. intros. unfold fupd_nz. case_decide; [done|]. by apply fupd_other. Qed.
Lemma fupd_nz_same f x v : x ≠ 0 → fupd_nz f x v x = v.
Proof. intros. unfold fupd_nz. case_decide; [done|]. apply fupd_same. Qed.

Lemma fupd_nz_eq f x v : x ≠ 0 → fupd_nz f x v = fupd f x v.
Proof. intros. unfold fupd_nz. by rewrite decide_False. Qed.

(** The first and the last node of a list, or what is beyond it. *)
Definition hdo (l : list Z) (n : Z) : Z := default n (head l).
Definition lasto (l : list Z) (p : Z) : Z := default p (last l).

Lemma lasto_cons e l p : lasto (e :: l) p = lasto l e.
Proof. unfold lasto. rewrite last_cons. by destruct (last l). Qed.
Lemma lasto_snoc l e p : lasto (l ++ [e]) p = e.
Proof. unfold lasto. by rewrite last_snoc. Qed.
Lemma hdo_cons e l n : hdo (e :: l) n = e.
Proof. done. Qed.
Lemma hdo_in l n : l ≠ [] → hdo l n ∈ l.
Proof. destruct l; [done|]. set_solver. Qed.
Lemma lasto_in l p : l ≠ [] → lasto l p ∈ l.
Proof.
  destruct l as [|x l _] using rev_ind; [done|]. intros _. rewrite lasto_snoc. set_solver.
Qed.
Lemma hdo_app a b n : hdo (a ++ b) n = hdo a (hdo b n).
Proof. by destruct a. Qed.
Lemma lasto_app a b p : lasto (a ++ b) p = lasto b (lasto a p).
Proof. unfold lasto. rewrite last_app. by destruct (last b). Qed.

(** The nodes [l] between [p] and [n]. *)
Fixpoint dseg (nx pv : Z → Z) (p : Z) (l : list Z) (n : Z) : Prop :=
  match l with
  | [] => True
  | e :: l => pv e = p ∧ nx e = hdo l n ∧ dseg nx pv e l n
  end.
Abbreviation dlist nx pv l := (dseg nx pv 0 l 0).

Lemma dseg_ext nx pv nx' pv' p l n :
  (∀ e, e ∈ l → nx' e = nx e ∧ pv' e = pv e) → dseg nx pv p l n → dseg nx' pv' p l n.
Proof.
  revert p. induction l as [|e l IH]; intros p H; cbn [dseg]; [done|]. intros (Hp & Hn & Hl).
  destruct (H e) as [-> ->]; [set_solver|]. split_and!; [done..|]. apply IH; [|done].
  intros x Hx. apply H. set_solver.
Qed.

Lemma dseg_app nx pv p a b n :
  dseg nx pv p (a ++ b) n ↔ dseg nx pv p a (hdo b n) ∧ dseg nx pv (lasto a p) b n.
Proof.
  revert p. induction a as [|e a IH]; intros p; cbn [app dseg].
  { split; [done|]. by intros [_ ?]. }
  rewrite IH, lasto_cons, hdo_app. naive_solver.
Qed.

(** What a list says of one of its nodes. *)
Lemma dseg_at nx pv p a e b n :
  dseg nx pv p (a ++ e :: b) n → pv e = lasto a p ∧ nx e = hdo b n.
Proof. rewrite dseg_app. cbn [dseg]. naive_solver. Qed.

(** Only the successor of the last node and the predecessor of the first
    know what is beyond. *)
Lemma dseg_last nx pv p l n n' :
  NoDup l → dseg nx pv p l n → dseg (fupd nx (lasto l p) n') pv p l n'.
Proof.
  destruct l as [|x l _] using rev_ind; [done|]. rewrite !dseg_app, lasto_snoc. cbn [dseg].
  intros [_ [Hx _]]%NoDup_app (Ha & Hp & Hn & _). rewrite fupd_same. split_and!; [|done..].
  eapply dseg_ext, Ha. intros y Hy. split; [|done]. apply fupd_other. set_solver.
Qed.

Lemma dseg_first nx pv p p' l n :
  NoDup l → dseg nx pv p l n → dseg nx (fupd pv (hdo l n) p') p' l n.
Proof.
  destruct l as [|x l]; [done|]. rewrite hdo_cons. cbn [dseg]. intros [Hx _]%NoDup_cons (Hp & Hn & Hl).
  rewrite fupd_same. split_and!; [done..|]. eapply dseg_ext, Hl. intros y Hy.
  split; [done|]. apply fupd_other. set_solver.
Qed.

(** ** The updates *)
Lemma dlist_push nx pv l e :
  0 ∉ l → e ∉ l → NoDup l → dlist nx pv l →
  dlist (fupd nx e (hdo l 0)) (fupd_nz (fupd pv e 0) (hdo l 0) e) (e :: l).
Proof.
  intros H0 He Hnd H. cbn [dseg]. rewrite fupd_same. destruct l as [|x l]; cbn [dseg].
  { unfold fupd_nz. rewrite decide_True by done. by rewrite fupd_same. }
  cbn [dseg] in H. rewrite hdo_cons. apply NoDup_cons in Hnd as [Hx Hnd].
  rewrite fupd_nz_other, fupd_same, fupd_nz_same by set_solver. split_and!; [done..| |].
  - rewrite fupd_other by set_solver. apply H.
  - eapply dseg_ext, H. intros y Hy. split; [by rewrite fupd_other by set_solver|].
    by rewrite fupd_nz_other, fupd_other by set_solver.
Qed.

Lemma dlist_append nx pv l e :
  l ≠ [] → e ∉ l → NoDup l → dlist nx pv l →
  dlist (fupd (fupd nx e 0) (lasto l 0) e) (fupd pv e (lasto l 0)) (l ++ [e]).
Proof.
  intros Hne He Hnd H. pose proof (lasto_in l 0 Hne). rewrite dseg_app. split.
  - cbn [dseg]. apply (dseg_last _ _ 0 l 0); [done|]. eapply dseg_ext, H. intros y Hy.
    by rewrite !fupd_other by set_solver.
  - cbn [dseg]. rewrite fupd_same, (fupd_other _ (lasto l 0)), fupd_same by set_solver. done.
Qed.

Lemma dlist_delete nx pv a e b :
  0 ∉ a ++ e :: b → NoDup (a ++ e :: b) → dlist nx pv (a ++ e :: b) →
  dlist (fupd_nz nx (pv e) (nx e)) (fupd_nz pv (nx e) (pv e)) (a ++ b).
Proof.
  intros H0 Hnd H. pose proof (dseg_at _ _ _ _ _ _ _ H) as [-> ->].
  apply dseg_app in H as [Ha [_ [_ Hb]]]. apply NoDup_app in Hnd as (Hna & Hab & [Heb Hnb]%NoDup_cons).
  rewrite dseg_app. split.
  - destruct (decide (a = [])) as [->|Hne]; [done|]. pose proof (lasto_in a 0 Hne) as Hl.
    rewrite (fupd_nz_eq nx) by (intros E; rewrite E in Hl; apply H0; set_solver).
    apply (dseg_last _ _ _ _ (hdo (e :: b) 0)); [done|]. eapply dseg_ext, Ha. intros y Hy.
    split; [done|]. destruct b as [|z b]; [done|]. rewrite hdo_cons, fupd_nz_other; [done|].
    intros ->. apply (Hab z Hy). set_solver.
  - destruct (decide (b = [])) as [->|Hne]; [done|]. pose proof (hdo_in b 0 Hne) as Hh.
    rewrite (fupd_nz_eq pv) by (intros E; rewrite E in Hh; apply H0; set_solver).
    apply (dseg_first _ _ e); [done|]. eapply dseg_ext, Hb. intros y Hy.
    split; [|done]. destruct (decide (a = [])) as [->|Hae]; [done|].
    rewrite fupd_nz_other; [done|]. intros ->. apply (Hab _ (lasto_in a 0 Hae)). set_solver.
Qed.
