(* ===== verification/Uthash.v ===== *)
(** * Uthash: the hash tables of ds/uthash.h

    The macros the file system uses: [HASH_FIND], [HASH_ADD], [HASH_DELETE],
    [HASH_ITER], [HASH_COUNT] and [HASH_CLEAR] with the bucket chains, the
    list in order of insertion and the doubling of the buckets.

    An element and the handle inside it are one address ([ELMT_FROM_HH] and
    [HH_FROM_ELMT] add and subtract the constant offset [hho]); 0 is NULL.
    The [tbl] field of every handle is the one table of the head, and [key]
    is the bytes the key pointer leads to. *)
From Stdlib Require Import ZArith Lia.
From stdpp Require Import base numbers list gmap strings.
From S2P Require Import Prelude Xxhash.

Record UT_hash_handle : Type := Handle {
  prev : Z;       (* previous element in app order *)
  next : Z;
  hh_prev : Z;    (* previous handle in bucket order *)
  hh_next : Z;
  key : list Z;
  keylen : Z;
  hashv : Z
}.

Record UT_hash_bucket : Type := Bucket { hh_head : Z; count : Z; expand_mult : Z }.

Record UT_hash_table : Type := Table {
  buckets : list UT_hash_bucket;
  num_buckets : Z;
  log2_num_buckets : Z;
  num_items : Z;
  tail : Z;
  ideal_chain_maxlen : Z;
  nonideal_items : Z;
  ineff_expands : Z;
  noexpand : Z
}.

(** The handles, the head pointer and the table of the head. *)
Record heap : Type := Heap {
  hh : gmap Z UT_hash_handle;
  head : Z;
  tbl : option UT_hash_table
}.

Definition HASH_INITIAL_NUM_BUCKETS : Z := 32.
Definition HASH_INITIAL_NUM_BUCKETS_LOG2 : Z := 5.
Definition HASH_BKT_CAPACITY_THRESH : Z := 10.
Definition sizeof_bucket : Z := 16.
Definition sizeof_table : Z := 64.

(** ** Fields *)
Definition set_prev (v : Z) (h : UT_hash_handle) : UT_hash_handle :=
  Handle v h.(next) h.(hh_prev) h.(hh_next) h.(key) h.(keylen) h.(hashv).
Definition set_next (v : Z) (h : UT_hash_handle) : UT_hash_handle :=
  Handle h.(prev) v h.(hh_prev) h.(hh_next) h.(key) h.(keylen) h.(hashv).
Definition set_hh_prev (v : Z) (h : UT_hash_handle) : UT_hash_handle :=
  Handle h.(prev) h.(next) v h.(hh_next) h.(key) h.(keylen) h.(hashv).
Definition set_hh_next (v : Z) (h : UT_hash_handle) : UT_hash_handle :=
  Handle h.(prev) h.(next) h.(hh_prev) v h.(key) h.(keylen) h.(hashv).

Definition with_buckets (bs : list UT_hash_bucket) (t : UT_hash_table) : UT_hash_table :=
  Table bs t.(num_buckets) t.(log2_num_buckets) t.(num_items) t.(tail) t.(ideal_chain_maxlen)
    t.(nonideal_items) t.(ineff_expands) t.(noexpand).
Definition with_items (n : Z) (t : UT_hash_table) : UT_hash_table :=
  Table t.(buckets) t.(num_buckets) t.(log2_num_buckets) n t.(tail) t.(ideal_chain_maxlen)
    t.(nonideal_items) t.(ineff_expands) t.(noexpand).
Definition with_tail (e : Z) (t : UT_hash_table) : UT_hash_table :=
  Table t.(buckets) t.(num_buckets) t.(log2_num_buckets) t.(num_items) e t.(ideal_chain_maxlen)
    t.(nonideal_items) t.(ineff_expands) t.(noexpand).

(** ** Memory accesses *)
Definition handle (e : Z) : M heap UT_hash_handle := λ s,
  match s.(hh) !! e with Some h => Ok (h, s) | None => Fault "handle" end.
Definition write (e : Z) (f : UT_hash_handle → UT_hash_handle) : M heap unit := λ s,
  match s.(hh) !! e with
  | Some h => Ok (tt, Heap (<[e := f h]> s.(hh)) s.(head) s.(tbl))
  | None => Fault "handle"
  end.
Definition table : M heap UT_hash_table := λ s,
  match s.(tbl) with Some t => Ok (t, s) | None => Fault "table" end.
Definition set_table (t : option UT_hash_table) : M heap unit :=
  modify (λ s, Heap s.(hh) s.(head) t).
Definition set_head (e : Z) : M heap unit := modify (λ s, Heap s.(hh) e s.(tbl)).
Definition bucket (bs : list UT_hash_bucket) (i : Z) : M heap UT_hash_bucket := λ s,
  match bs !! Z.to_nat i with Some b => Ok (b, s) | None => Fault "bucket" end.

Definition HASH_TO_BKT (hashv num_bkts : Z) : Z := Z.land hashv (u32 (num_bkts - 1)).

Section uthash.
(** The hash of a key ([HASH_FCN], as an [unsigned]) and whether
    [userfs_alloc] of that many bytes succeeds ([uthash_fatal] exits). *)
Context (hash : list Z → Z) (malloc_ok : Z → bool).

Definition uthash_malloc (sz : Z) : M heap unit := assertM (malloc_ok sz) "out of memory".

(** [uthash_memcmp(a, b, n) == 0] *)
Definition same_bytes (a b : list Z) (n : Z) : bool :=
  bool_decide (take (Z.to_nat n) a = take (Z.to_nat n) b).

(** ** HASH_FIND *)
Fixpoint find_in_bkt (fuel : nat) (k : list Z) (hashval out : Z) : M heap Z :=
  match fuel with
  | O => nofuel
  | S fuel =>
      if out =? 0 then mret 0
      else
        h ← handle out;
        if (h.(hashv) =? hashval) && (h.(keylen) =? Z.of_nat (length k))
           && same_bytes h.(key) k (Z.of_nat (length k))
        then mret out
        else if negb (h.(hh_next) =? 0) then find_in_bkt fuel k hashval h.(hh_next) else mret 0
  end.

Definition HASH_FIND (k : list Z) : M heap Z :=
  let hashval := hash k in
  s ← get;
  if s.(head) =? 0 then mret 0
  else
    t ← table;
    b ← bucket t.(buckets) (HASH_TO_BKT hashval t.(num_buckets));
    find_in_bkt (S (size s.(hh))) k hashval b.(hh_head).

(** ** HASH_ADD *)
Definition HASH_MAKE_TABLE (e : Z) : M heap unit :=
  uthash_malloc sizeof_table;;
  uthash_malloc (HASH_INITIAL_NUM_BUCKETS * sizeof_bucket);;
  set_table (Some (Table (replicate (Z.to_nat HASH_INITIAL_NUM_BUCKETS) (Bucket 0 0 0))
    HASH_INITIAL_NUM_BUCKETS HASH_INITIAL_NUM_BUCKETS_LOG2 0 e 0 0 0 0)).

Definition HASH_APPEND_LIST (add : Z) : M heap unit :=
  write add (set_next 0);;
  t ← table;
  write add (set_prev t.(tail));;
  write t.(tail) (set_next add);;
  set_table (Some (with_tail add t)).

(** The next two are [HASH_EXPAND_BUCKETS]: one old chain, moved node by
    node to the fronts of the new chains, and all of them. The new buckets
    and the count of badly placed items are threaded through. *)
Fixpoint expand_chain (fuel : nat) (num2 ideal thh : Z) (new : list UT_hash_bucket) (nonideal : Z) :
    M heap (list UT_hash_bucket * Z) :=
  match fuel with
  | O => nofuel
  | S fuel =>
      if thh =? 0 then mret (new, nonideal)
      else
        h ← handle thh;
        let hh_nxt := h.(hh_next) in
        let bkt := HASH_TO_BKT h.(hashv) num2 in
        b ← bucket new bkt;
        let c := u32 (b.(count) + 1) in
        let over := ideal <? c in
        (if over && (ideal =? 0) then fault "division by zero" else mret ());;
        let nonideal := if over then u32 (nonideal + 1) else nonideal in
        let mult := if over then c / ideal else b.(expand_mult) in
        write thh (set_hh_prev 0);;
        write thh (set_hh_next b.(hh_head));;
        when (negb (b.(hh_head) =? 0)) (write b.(hh_head) (set_hh_prev thh));;
        expand_chain fuel num2 ideal hh_nxt (<[Z.to_nat bkt := Bucket thh c mult]> new) nonideal
  end.

Fixpoint expand_all (fuel : nat) (num2 ideal : Z) (old : list UT_hash_bucket)
    (new : list UT_hash_bucket) (nonideal : Z) : M heap (list UT_hash_bucket * Z) :=
  match old with
  | [] => mret (new, nonideal)
  | b :: old =>
      r ← expand_chain fuel num2 ideal b.(hh_head) new nonideal;
      expand_all fuel num2 ideal old r.1 r.2
  end.

Definition HASH_EXPAND_BUCKETS : M heap unit :=
  s ← get;
  t ← table;
  uthash_malloc (2 * t.(num_buckets) * sizeof_bucket);;
  let num2 := u32 (t.(num_buckets) * 2) in
  let ideal := u32 (Z.shiftr t.(num_items) (t.(log2_num_buckets) + 1)
    + (if Z.land t.(num_items) (u32 (num2 - 1)) =? 0 then 0 else 1)) in
  r ← expand_all (S (size s.(hh))) num2 ideal (take (Z.to_nat t.(num_buckets)) t.(buckets))
        (replicate (Z.to_nat (2 * t.(num_buckets))) (Bucket 0 0 0)) 0;
  let ineff := if Z.shiftr t.(num_items) 1 <? r.2 then u32 (t.(ineff_expands) + 1) else 0 in
  set_table (Some (Table r.1 num2 (u32 (t.(log2_num_buckets) + 1)) t.(num_items) t.(tail) ideal
    r.2 ineff (if 1 <? ineff then 1 else t.(noexpand)))).

Definition HASH_ADD_TO_BKT (bkt addhh : Z) : M heap unit :=
  t ← table;
  b ← bucket t.(buckets) bkt;
  let c := u32 (b.(count) + 1) in
  write addhh (set_hh_next b.(hh_head));;
  write addhh (set_hh_prev 0);;
  when (negb (b.(hh_head) =? 0)) (write b.(hh_head) (set_hh_prev addhh));;
  set_table (Some (with_buckets (<[Z.to_nat bkt := Bucket addhh c b.(expand_mult)]> t.(buckets)) t));;
  when ((u32 (u32 (b.(expand_mult) + 1) * HASH_BKT_CAPACITY_THRESH) <=? c)
        && negb (t.(noexpand) =? 1)) HASH_EXPAND_BUCKETS.

(** The links of the handle of [add] are written before they are read. *)
Definition HASH_ADD (add : Z) (k : list Z) : M heap unit :=
  let hashval := hash k in
  modify (λ s, Heap (<[add := Handle 0 0 0 0 k (u32 (Z.of_nat (length k))) hashval]> s.(hh)) s.(head) s.(tbl));;
  s ← get;
  (if s.(head) =? 0
   then write add (set_next 0);; write add (set_prev 0);; set_head add;; HASH_MAKE_TABLE add
   else HASH_APPEND_LIST add);;
  t ← table;
  set_table (Some (with_items (u32 (t.(num_items) + 1)) t));;
  HASH_ADD_TO_BKT (HASH_TO_BKT hashval t.(num_buckets)) add.

(** ** HASH_DELETE *)
Definition HASH_DEL_IN_BKT (bkt del : Z) : M heap unit :=
  t ← table;
  b ← bucket t.(buckets) bkt;
  d ← handle del;
  let hd := if b.(hh_head) =? del then d.(hh_next) else b.(hh_head) in
  set_table (Some (with_buckets
    (<[Z.to_nat bkt := Bucket hd (u32 (b.(count) - 1)) b.(expand_mult)]> t.(buckets)) t));;
  when (negb (d.(hh_prev) =? 0)) (write d.(hh_prev) (set_hh_next d.(hh_next)));;
  d ← handle del;
  when (negb (d.(hh_next) =? 0)) (write d.(hh_next) (set_hh_prev d.(hh_prev))).

Definition HASH_DELETE (del : Z) : M heap unit :=
  d ← handle del;
  if (d.(prev) =? 0) && (d.(next) =? 0)
  then set_table None;; set_head 0
  else
    t ← table;
    let t := if del =? t.(tail) then with_tail d.(prev) t else t in
    set_table (Some t);;
    (if negb (d.(prev) =? 0) then write d.(prev) (set_next d.(next)) else set_head d.(next));;
    d ← handle del;
    when (negb (d.(next) =? 0)) (write d.(next) (set_prev d.(prev)));;
    HASH_DEL_IN_BKT (HASH_TO_BKT d.(hashv) t.(num_buckets)) del;;
    t ← table;
    set_table (Some (with_items (u32 (t.(num_items) - 1)) t)).

(** ** HASH_ITER, HASH_COUNT, HASH_CLEAR *)

(** The loop keeps the successor, so that the body may delete the element. *)
Fixpoint iter_loop (fuel : nat) (body : Z → M heap unit) (el tmp : Z) : M heap unit :=
  match fuel with
  | O => nofuel
  | S fuel =>
      if el =? 0 then mret ()
      else
        body el;;
        if tmp =? 0 then iter_loop fuel body tmp 0
        else h ← handle tmp; iter_loop fuel body tmp h.(next)
  end.

Definition HASH_ITER (body : Z → M heap unit) : M heap unit :=
  s ← get;
  if s.(head) =? 0 then mret ()
  else h ← handle s.(head); iter_loop (S (size s.(hh))) body s.(head) h.(next).

Definition HASH_COUNT : M heap Z :=
  s ← get; if s.(head) =? 0 then mret 0 else t ← table; mret t.(num_items).

Definition HASH_CLEAR : M heap unit :=
  s ← get; when (negb (s.(head) =? 0)) (set_table None;; set_head 0).

(** ** HASH_FSCK, the integrity check of a debug build ([HASH_OOPS] exits) *)
(** Both walks: [nxt] and [prv] are the links of the bucket or of the app
    order. *)
Fixpoint fsck_walk (nxt prv : UT_hash_handle → Z) (fuel : nat) (thh pv n : Z) : M heap Z :=
  match fuel with
  | O => nofuel
  | S fuel =>
      if thh =? 0 then mret n
      else
        h ← handle thh;
        assertM (pv =? prv h) "invalid prev";;
        fsck_walk nxt prv fuel (nxt h) thh (u32 (n + 1))
  end.

Fixpoint fsck_buckets (fuel : nat) (bs : list UT_hash_bucket) (n : Z) : M heap Z :=
  match bs with
  | [] => mret n
  | b :: bs =>
      c ← fsck_walk hh_next hh_prev fuel b.(hh_head) 0 0;
      assertM (b.(count) =? c) "invalid bucket count";;
      fsck_buckets fuel bs (u32 (n + c))
  end.

Definition HASH_FSCK : M heap unit :=
  s ← get;
  if s.(head) =? 0 then mret ()
  else
    t ← table;
    n ← fsck_buckets (S (size s.(hh))) (take (Z.to_nat t.(num_buckets)) t.(buckets)) 0;
    assertM (n =? t.(num_items)) "invalid hh item count";;
    n ← fsck_walk next prev (S (size s.(hh))) s.(head) 0 0;
    assertM (n =? t.(num_items)) "invalid app item count".

Definition empty : heap := Heap ∅ 0 None.
End uthash.

(** [HASH_XXH]: the seed of the tables, and the value as an [unsigned]. *)
Definition HASH_XXH (cpu : XXH_endianess) (align_check : bool) (keyptr : Z) (k : list Z) : Z :=
  XXH64 cpu align_check keyptr k 0xcafebabe.
Definition HASH_VALUE (cpu : XXH_endianess) (align_check : bool) (keyptr : Z) (k : list Z) : Z :=
  u32 (HASH_XXH cpu align_check keyptr k).
