(* ===== verification/UthashOk.v ===== *)
(** * UthashOk: chains, links and the buckets of a table

    The two lists a handle is on, as [dlist]s over its fields; what pushing a
    node on a chain does to a well-formed table of buckets; the doubling of
    the buckets. *)
From Stdlib Require Import ZArith Lia.
From stdpp Require Import base numbers list gmap strings.
From S2P Require Import Prelude Dlist Uthash.

Abbreviation store := (gmap Z UT_hash_handle).

(** A field of the handle at an address. *)
Definition fld (f : UT_hash_handle → Z) (m : store) (e : Z) : Z := from_option f 0 (m !! e).

(** The fields that are not bucket links, and those that are not app links. *)
Definition core (h : UT_hash_handle) : Z * Z * list Z * Z * Z :=
  (h.(prev), h.(next), h.(key), h.(keylen), h.(hashv)).
Definition bcore (h : UT_hash_handle) : Z * Z * list Z * Z * Z :=
  (h.(hh_prev), h.(hh_next), h.(key), h.(keylen), h.(hashv)).
Definition same_but_bkt (m m' : store) : Prop := ∀ e, core <$> m' !! e = core <$> m !! e.
Definition same_but_app (m m' : store) : Prop := ∀ e, bcore <$> m' !! e = bcore <$> m !! e.

Lemma fld_alter f g m e x h : m !! e = Some h →
  fld f (alter g e m) x = fupd (fld f m) e (f (g h)) x.
Proof.
  intros He. unfold fld, fupd. case_decide as Hx; [subst x|].
  - by rewrite lookup_alter_eq, He.
  - by rewrite lookup_alter_ne.
Qed.

Lemma fld_alter_same f g m e x : (∀ h, f (g h) = f h) → fld f (alter g e m) x = fld f m x.
Proof.
  intros Hg. unfold fld. destruct (decide (x = e)) as [->|].
  - rewrite lookup_alter_eq. destruct (m !! e); simpl; [apply Hg|done].
  - by rewrite lookup_alter_ne.
Qed.

Lemma core_alter g m e : (∀ h, core (g h) = core h) → same_but_bkt m (alter g e m).
Proof.
  intros Hg x. destruct (decide (x = e)) as [->|].
  - rewrite lookup_alter_eq. destruct (m !! e); simpl; [by rewrite Hg|done].
  - by rewrite lookup_alter_ne.
Qed.
Lemma bcore_alter g m e : (∀ h, bcore (g h) = bcore h) → same_but_app m (alter g e m).
Proof.
  intros Hg x. destruct (decide (x = e)) as [->|].
  - rewrite lookup_alter_eq. destruct (m !! e); simpl; [by rewrite Hg|done].
  - by rewrite lookup_alter_ne.
Qed.

Lemma same_bkt_trans m1 m2 m3 : same_but_bkt m1 m2 → same_but_bkt m2 m3 → same_but_bkt m1 m3.
Proof. intros H1 H2 e. by rewrite H2, H1. Qed.
Lemma same_app_trans m1 m2 m3 : same_but_app m1 m2 → same_but_app m2 m3 → same_but_app m1 m3.
Proof. intros H1 H2 e. by rewrite H2, H1. Qed.

Lemma same_bkt_at m m' e h : same_but_bkt m m' → m !! e = Some h →
  ∃ h', m' !! e = Some h' ∧ core h' = core h.
Proof.
  intros H He. specialize (H e). rewrite He in H. destruct (m' !! e) as [h'|]; [|done].
  injection H as ?. exists h'. split; [done|]. unfold core. congruence.
Qed.
Lemma same_app_at m m' e h : same_but_app m m' → m !! e = Some h →
  ∃ h', m' !! e = Some h' ∧ bcore h' = bcore h.
Proof.
  intros H He. specialize (H e). rewrite He in H. destruct (m' !! e) as [h'|]; [|done].
  injection H as ?. exists h'. split; [done|]. unfold bcore. congruence.
Qed.

(** Every field of [core] is the same in both stores. *)
Lemma same_bkt_fld f m m' e : same_but_bkt m m' → (∀ h h', core h = core h' → f h = f h') →
  fld f m' e = fld f m e.
Proof.
  intros H Hf. specialize (H e). unfold fld.
  destruct (m !! e) as [h|], (m' !! e) as [h'|]; simpl in *; try done. apply Hf. congruence.
Qed.
Lemma same_app_fld f m m' e : same_but_app m m' → (∀ h h', bcore h = bcore h' → f h = f h') →
  fld f m' e = fld f m e.
Proof.
  intros H Hf. specialize (H e). unfold fld.
  destruct (m !! e) as [h|], (m' !! e) as [h'|]; simpl in *; try done. apply Hf. congruence.
Qed.

(** ** Runs of single accesses *)
Lemma handle_run e s h : s.(hh) !! e = Some h → handle e s = Ok (h, s).
Proof. intros H. unfold handle. by rewrite H. Qed.

Lemma write_run e f s : is_Some (s.(hh) !! e) →
  write e f s = Ok (tt, Heap (alter f e s.(hh)) s.(head) s.(tbl)).
Proof.
  intros [h H]. unfold write. rewrite H. do 3 f_equal. apply map_eq. intros i.
  destruct (decide (i = e)) as [->|].
  - by rewrite lookup_insert_eq, lookup_alter_eq, H.
  - by rewrite lookup_insert_ne, lookup_alter_ne.
Qed.

Lemma alter_some (g : UT_hash_handle → UT_hash_handle) (m : store) e x :
  is_Some (m !! x) → is_Some (alter g e m !! x).
Proof. rewrite lookup_alter_is_Some. done. Qed.

(** ** Bucket numbers *)
Lemma to_bkt_mod h k : 0 ≤ k ≤ 31 → HASH_TO_BKT h (2 ^ k) = h mod 2 ^ k.
Proof.
  intros Hk. unfold HASH_TO_BKT. assert (0 < 2 ^ k ≤ 2 ^ 31).
  { split; [apply Z.pow_pos_nonneg; lia|apply Z.pow_le_mono_r; lia]. }
  rewrite u32_small by lia. rewrite <- Z.land_ones by lia. by rewrite Z.ones_equiv, <- Z.sub_1_r.
Qed.

(** ** Pushing a node on a chain *)
Definition linked (m : store) (e v : Z) : store :=
  let m := alter (λ h, set_hh_prev 0 (set_hh_next v h)) e m in
  if v =? 0 then m else alter (set_hh_prev e) v m.

Section linked.
Context (m : store) (e v : Z) (h : UT_hash_handle).
Hypothesis He : m !! e = Some h.
Hypothesis Hv : v ≠ 0 → is_Some (m !! v).
Hypothesis Hve : v ≠ e.

Lemma linked_core : same_but_bkt m (linked m e v).
Proof.
  unfold linked. eapply same_bkt_trans; [by apply (core_alter (λ h, set_hh_prev 0 (set_hh_next v h)) m e)|].
  destruct (v =? 0); [done|]. by apply core_alter.
Qed.

Lemma linked_next x : fld hh_next (linked m e v) x = fupd (fld hh_next m) e v x.
Proof.
  unfold linked. transitivity (fld hh_next (alter (λ h, set_hh_prev 0 (set_hh_next v h)) e m) x).
  - destruct (v =? 0); [done|]. by apply fld_alter_same.
  - by rewrite (fld_alter _ _ _ _ _ h).
Qed.

Lemma linked_prev x : fld hh_prev (linked m e v) x = fupd_nz (fupd (fld hh_prev m) e 0) v e x.
Proof.
  unfold linked, fupd_nz. destruct (Z.eqb_spec v 0) as [Hz|Hz].
  - rewrite decide_True by done. by rewrite (fld_alter _ _ _ _ _ h).
  - rewrite decide_False by done. destruct (Hv Hz) as [h' Hh'].
    rewrite (fld_alter _ _ _ _ _ h') by by rewrite lookup_alter_ne by done.
    unfold fupd at 1 2. case_decide; [done|]. by rewrite (fld_alter _ _ _ _ _ h).
Qed.
End linked.

(** A well-formed vector of buckets with the chains [chs]. *)
Record bks (m : store) (bs : list UT_hash_bucket) (k : Z) (chs : list (list Z)) : Prop := {
  bk_log : 0 ≤ k ≤ 31;
  bk_len : Z.of_nat (length bs) = 2 ^ k;
  bk_chs : length chs = length bs;
  bk_nodup : NoDup (concat chs);
  bk_node : ∀ e, e ∈ concat chs → e ≠ 0 ∧ is_Some (m !! e);
  bk_list : ∀ i c, chs !! i = Some c → dlist (fld hh_next m) (fld hh_prev m) c;
  bk_head : ∀ i c b, chs !! i = Some c → bs !! i = Some b →
    b.(hh_head) = hdo c 0 ∧ b.(count) = Z.of_nat (length c);
  bk_place : ∀ i c e, chs !! i = Some c → e ∈ c → fld hashv m e mod 2 ^ k = Z.of_nat i
}.

Lemma elem_of_concat (e : Z) (chs : list (list Z)) :
  e ∈ concat chs ↔ ∃ i c, chs !! i = Some c ∧ e ∈ c.
Proof.
  rewrite list_elem_of_In, in_concat. setoid_rewrite <- list_elem_of_In.
  setoid_rewrite (list_elem_of_lookup chs). naive_solver.
Qed.

(** The chains are apart. *)
Lemma concat_split (chs : list (list Z)) i c : chs !! i = Some c →
  concat chs = concat (take i chs) ++ c ++ concat (drop (S i) chs).
Proof.
  intros H. rewrite <- (take_drop_middle chs i c H) at 1. by rewrite concat_app.
Qed.

Lemma chain_nodup (chs : list (list Z)) i c : NoDup (concat chs) → chs !! i = Some c → NoDup c.
Proof. intros H Hc. rewrite (concat_split _ _ _ Hc) in H. by apply NoDup_app in H as (_ & _ & (? & _)%NoDup_app). Qed.

Lemma chain_apart (chs : list (list Z)) i j c c' e : NoDup (concat chs) →
  chs !! i = Some c → chs !! j = Some c' → e ∈ c → e ∈ c' → i = j.
Proof.
  revert i j. induction chs as [|d chs IH]; intros i j; [done|]. cbn [concat].
  intros (Hd & Hdd & Hn)%NoDup_app Hi Hj He He'.
  destruct i as [|i], j as [|j]; simpl in *; simplify_eq; [done| | |].
  - destruct (Hdd e He). apply elem_of_concat. eauto.
  - destruct (Hdd e He'). apply elem_of_concat. eauto.
  - f_equal. by apply (IH i j).
Qed.

Lemma push_concat (chs : list (list Z)) i c e : chs !! i = Some c →
  concat (<[i := e :: c]> chs) ≡ₚ e :: concat chs.
Proof.
  intros H. rewrite (concat_split chs i c H).
  rewrite (concat_split (<[i := e :: c]> chs) i (e :: c)).
  2:{ apply list_lookup_insert_eq. by eapply lookup_lt_Some. }
  rewrite take_insert_ge, drop_insert_lt by lia. cbn [app].
  by rewrite <- Permutation_middle.
Qed.

Lemma dlist_weaken m m' c :
  (∀ x, x ∈ c → fld hh_next m' x = fld hh_next m x ∧ fld hh_prev m' x = fld hh_prev m x) →
  dlist (fld hh_next m) (fld hh_prev m) c → dlist (fld hh_next m') (fld hh_prev m') c.
Proof. apply dseg_ext. Qed.

Lemma chain_node m bs k chs i c x :
  bks m bs k chs → chs !! i = Some c → x ∈ c → x ≠ 0 ∧ is_Some (m !! x).
Proof. intros H Hc Hx. apply (bk_node _ _ _ _ H). apply elem_of_concat. eauto. Qed.

(** The first node of a chain, when there is one. *)
Lemma chain_head m bs k chs i c : bks m bs k chs → chs !! i = Some c →
  hdo c 0 ≠ 0 → hdo c 0 ∈ c ∧ is_Some (m !! hdo c 0).
Proof.
  intros H Hc Hne. assert (hdo c 0 ∈ c) by (apply hdo_in; by intros ->). split; [done|].
  by eapply chain_node.
Qed.

Section push.
Context (m : store) (bs : list UT_hash_bucket) (k : Z) (chs : list (list Z)).
Context (e : Z) (h : UT_hash_handle) (i : nat) (c : list Z) (b : UT_hash_bucket) (mult : Z).
Hypothesis Hb : bks m bs k chs.
Hypothesis Hnew : e ∉ concat chs.
Hypothesis Hnz : e ≠ 0.
Hypothesis He : m !! e = Some h.
Hypothesis Hc : chs !! i = Some c.
Hypothesis Hbi : bs !! i = Some b.
Hypothesis Hplace : h.(hashv) mod 2 ^ k = Z.of_nat i.
Hypothesis Hroom : Z.of_nat (length c) + 1 < 2 ^ 32.

Let v : Z := b.(hh_head).
Let m' : store := linked m e v.

Lemma push_v : v = hdo c 0.
Proof. by destruct (bk_head _ _ _ _ Hb i c b Hc Hbi). Qed.
Lemma push_v_in : v ≠ 0 → v ∈ c ∧ is_Some (m !! v).
Proof. rewrite push_v. by eapply chain_head. Qed.
Lemma push_apart : v ≠ e.
Proof.
  intros E. destruct push_v_in as [Hv _]; [congruence|]. apply Hnew. rewrite <- E.
  apply elem_of_concat. eauto.
Qed.
Lemma push_links x :
  fld hh_next m' x = fupd (fld hh_next m) e v x ∧
  fld hh_prev m' x = fupd_nz (fupd (fld hh_prev m) e 0) v e x.
Proof.
  unfold m'. split; [by apply (linked_next m e v h)|].
  apply (linked_prev m e v h He); [apply push_v_in|apply push_apart].
Qed.
Lemma push_core : same_but_bkt m m'.
Proof. unfold m'. by apply linked_core. Qed.

Lemma push_other x : x ≠ e → x ∉ c →
  fld hh_next m' x = fld hh_next m x ∧ fld hh_prev m' x = fld hh_prev m x.
Proof.
  intros Hx Hxc. destruct (push_links x) as [-> ->].
  rewrite (fupd_other _ e) by done. split; [done|].
  destruct (decide (v = 0)) as [Ev|Ev].
  - unfold fupd_nz. rewrite decide_True by done. by rewrite fupd_other.
  - rewrite fupd_nz_other, fupd_other; [done|done|]. intros ->. apply Hxc, push_v_in. done.
Qed.

Lemma push_list j d : <[i := e :: c]> chs !! j = Some d → dlist (fld hh_next m') (fld hh_prev m') d.
Proof.
  pose proof (bk_nodup _ _ _ _ Hb) as Hnd.
  destruct (decide (i = j)) as [<-|Hij].
  - rewrite list_lookup_insert_eq by by eapply lookup_lt_Some. intros [= <-].
    eapply dseg_ext; [intros x _; apply push_links|]. rewrite push_v. apply dlist_push.
    + intros H0. by apply (chain_node _ _ _ _ _ _ _ Hb Hc) in H0 as [? _].
    + intros H0. apply Hnew, elem_of_concat. eauto.
    + by eapply chain_nodup.
    + by apply (bk_list _ _ _ _ Hb i).
  - rewrite list_lookup_insert_ne by done. intros Hd.
    eapply dlist_weaken, (bk_list _ _ _ _ Hb j d Hd). intros x Hx. apply push_other.
    + intros ->. apply Hnew, elem_of_concat. eauto.
    + intros Hxc. apply Hij. by eapply chain_apart.
Qed.

Lemma bks_push :
  bks m' (<[i := Bucket e (u32 (b.(count) + 1)) mult]> bs) k (<[i := e :: c]> chs).
Proof.
  pose proof (bk_head _ _ _ _ Hb i c b Hc Hbi) as [_ Hcount].
  assert (Hli : (i < length chs)%nat) by by eapply lookup_lt_Some.
  assert (Hlb : (i < length bs)%nat) by by eapply lookup_lt_Some.
  pose proof (push_concat chs i c e Hc) as Hperm. split.
  - apply Hb.
  - rewrite length_insert. apply Hb.
  - rewrite !length_insert. apply Hb.
  - rewrite Hperm. constructor; [done|apply Hb].
  - intros x Hx. rewrite Hperm in Hx. apply elem_of_cons in Hx.
    assert (x ≠ 0 ∧ is_Some (m !! x)) as [H0 [hx Hhx]].
    { destruct Hx as [->|Hx]; [by split; [|eexists]|]. by apply (bk_node _ _ _ _ Hb). }
    split; [done|]. destruct (same_bkt_at _ _ _ _ push_core Hhx) as (hx' & Hx' & _). by eexists.
  - apply push_list.
  - intros j d b'. destruct (decide (i = j)) as [<-|Hij].
    + rewrite !list_lookup_insert_eq by done. intros [= <-] [= <-]. cbn [hh_head count].
      rewrite Hcount. rewrite u32_small by lia. split; [done|]. cbn [length]. lia.
    + rewrite !list_lookup_insert_ne by done. apply (bk_head _ _ _ _ Hb).
  - intros j d x Hd Hx. rewrite (same_bkt_fld hashv _ _ _ push_core) by (unfold core; congruence).
    destruct (decide (i = j)) as [<-|Hij].
    + rewrite list_lookup_insert_eq in Hd by done. injection Hd as <-.
      apply elem_of_cons in Hx as [->|Hx].
      * unfold fld. by rewrite He.
      * by apply (bk_place _ _ _ _ Hb i c).
    + rewrite list_lookup_insert_ne in Hd by done. by apply (bk_place _ _ _ _ Hb j d).
Qed.
End push.

(** ** The doubling of the buckets *)
Fixpoint fwd (nx : Z → Z) (l : list Z) : Prop :=
  match l with [] => True | e :: l => nx e = hdo l 0 ∧ fwd nx l end.

Lemma dseg_fwd nx pv p l : dseg nx pv p l 0 → fwd nx l.
Proof. revert p. induction l; intros p; cbn [dseg fwd]; naive_solver. Qed.

Lemma fwd_ext nx nx' l : (∀ x, x ∈ l → nx' x = nx x) → fwd nx l → fwd nx' l.
Proof.
  induction l as [|e l IH]; intros H; cbn [fwd]; [done|]. intros [<- Hl]. split; [apply H; set_solver|].
  apply IH; [|done]. set_solver.
Qed.

Lemma chain_length (chs : list (list Z)) i c : chs !! i = Some c → (length c <= length (concat chs))%nat.
Proof. intros H. rewrite (concat_split chs i c H), !length_app. lia. Qed.

(** The three writes that put [e] in front of [v], in either order of the
    first two. *)
Lemma link_run {A} e v f g (k : M heap A) s :
  (∀ h, g (f h) = set_hh_prev 0 (set_hh_next v h)) →
  is_Some (s.(hh) !! e) → (v ≠ 0 → is_Some (s.(hh) !! v)) →
  (write e f;; write e g;; when (negb (v =? 0)) (write v (set_hh_prev e));; k) s
  = k (Heap (linked s.(hh) e v) s.(head) s.(tbl)).
Proof.
  intros Hfg He Hv. rewrite (M_bind_ok _ _ _ _ _ (write_run e _ s He)).
  rewrite (M_bind_ok _ _ _ _ _ (write_run e _ (Heap _ _ _) (alter_some _ _ _ _ He))). cbn [hh head tbl].
  rewrite alter_alter_eq, (alter_ext (g ∘ f) (λ h, set_hh_prev 0 (set_hh_next v h))) by (intros; apply Hfg).
  unfold linked. destruct (Z.eqb_spec v 0) as [|Hne]; [done|]. cbn [negb when].
  by rewrite (M_bind_ok _ _ _ _ _ (write_run v _ (Heap _ _ _) (alter_some _ _ _ _ (Hv Hne)))).
Qed.

(** The bucket of a hash value is there. *)
Lemma place_bucket m bs k chs hv : bks m bs k chs →
  ∃ i c b, HASH_TO_BKT hv (2 ^ k) = Z.of_nat i ∧ hv mod 2 ^ k = Z.of_nat i ∧
    chs !! i = Some c ∧ bs !! i = Some b.
Proof.
  intros [Hk Hl Hc _ _ _ _ _]. rewrite to_bkt_mod by done.
  assert (Hm : 0 ≤ hv mod 2 ^ k < 2 ^ k) by (apply Z.mod_pos_bound, Z.pow_pos_nonneg; lia).
  exists (Z.to_nat (hv mod 2 ^ k)).
  destruct (lookup_lt_is_Some_2 bs (Z.to_nat (hv mod 2 ^ k))) as [b Hb]; [lia|].
  destruct (lookup_lt_is_Some_2 chs (Z.to_nat (hv mod 2 ^ k))) as [c Hcc]; [lia|].
  exists c, b. rewrite Z2Nat.id by lia. done.
Qed.

(** The bucket a moved node comes to. *)
Definition moved (ideal e : Z) (b : UT_hash_bucket) : UT_hash_bucket :=
  let c := u32 (b.(count) + 1) in
  Bucket e c (if ideal <? c then c / ideal else b.(expand_mult)).

Lemma expand_chain_step k ideal fuel e h new ni chs s i d b :
  ideal ≠ 0 → bks s.(hh) new k chs → e ≠ 0 → s.(hh) !! e = Some h →
  HASH_TO_BKT h.(hashv) (2 ^ k) = Z.of_nat i → chs !! i = Some d → new !! i = Some b →
  expand_chain (S fuel) (2 ^ k) ideal e new ni s
  = expand_chain fuel (2 ^ k) ideal h.(hh_next) (<[i := moved ideal e b]> new)
      (if ideal <? u32 (b.(count) + 1) then u32 (ni + 1) else ni)
      (Heap (linked s.(hh) e b.(hh_head)) s.(head) s.(tbl)).
Proof.
  intros Hid Hb Hnz He Hbkt Hd Hbi. cbn [expand_chain].
  destruct (Z.eqb_spec e 0) as [|_]; [done|].
  rewrite (M_bind_ok _ _ _ _ _ (handle_run e s h He)). cbv zeta. rewrite Hbkt.
  assert (Hbu : bucket new (Z.of_nat i) s = Ok (b, s)) by (unfold bucket; by rewrite Nat2Z.id, Hbi).
  rewrite (M_bind_ok _ _ _ _ _ Hbu), Nat2Z.id.
  rewrite (proj2 (Z.eqb_neq ideal 0) Hid), andb_false_r.
  rewrite (M_bind_ok (if false then fault "division by zero" else mret ()) _ s tt s eq_refl).
  destruct (bk_head _ _ _ _ Hb i d b Hd Hbi) as [Hhead _].
  rewrite link_run; [done|done|by eexists|].
  rewrite Hhead. intros Hv. by apply (chain_head _ _ _ _ _ _ Hb Hd).
Qed.

Lemma expand_chain_ok k ideal fuel c : ideal ≠ 0 → ∀ new ni chs s,
  bks s.(hh) new k chs → fwd (fld hh_next s.(hh)) c → NoDup c →
  (∀ e, e ∈ c → e ≠ 0 ∧ is_Some (s.(hh) !! e) ∧ e ∉ concat chs) →
  Z.of_nat (length (concat chs)) + Z.of_nat (length c) < 2 ^ 32 → (length c < fuel)%nat →
  ∃ new' ni' m' chs',
    expand_chain fuel (2 ^ k) ideal (hdo c 0) new ni s = Ok ((new', ni'), Heap m' s.(head) s.(tbl)) ∧
    bks m' new' k chs' ∧ concat chs' ≡ₚ c ++ concat chs ∧ same_but_bkt s.(hh) m' ∧
    (∀ x, x ∉ concat chs → x ∉ c → fld hh_next m' x = fld hh_next s.(hh) x).
Proof.
  intros Hid. revert fuel. induction c as [|e c IH]; intros fuel new ni chs s Hb Hf Hnd Hc Hlen Hfuel;
    (destruct fuel as [|fuel]; [cbn in Hfuel; lia|]).
  { destruct s as [m hd t]. exists new, ni, m, chs. by split_and!. }
  rewrite hdo_cons. destruct (Hc e) as (Hnz & [h He] & Hnew); [set_solver|].
  destruct (place_bucket _ _ _ _ h.(hashv) Hb) as (i & d & b & Hbkt & Hmod & Hd & Hbi).
  rewrite (expand_chain_step k ideal fuel e h new ni chs s i d b) by done.
  cbn [fwd] in Hf. destruct Hf as [Hnx Hf].
  apply NoDup_cons in Hnd as [Hec Hnd]. cbn [length] in Hlen, Hfuel.
  assert (Hn : h.(hh_next) = hdo c 0) by (rewrite <- Hnx; unfold fld; by rewrite He). rewrite Hn.
  pose proof (chain_length _ _ _ Hd) as Hdl.
  pose proof (bks_push s.(hh) new k chs e h i d b (moved ideal e b).(expand_mult) Hb Hnew Hnz He Hd Hbi Hmod ltac:(lia)) as Hb'.
  pose proof (push_concat chs i d e Hd) as Hperm.
  pose proof (push_core s.(hh) e b) as Hcore.
  pose proof (push_other s.(hh) new k chs e h i d b Hb Hnew Hnz He Hd Hbi) as Hoth.
  assert (Hout : ∀ x, x ∉ concat chs → x ∉ d).
  { intros x Hx Hxd. apply Hx, elem_of_concat. eauto. }
  set (s' := Heap (linked s.(hh) e b.(hh_head)) s.(head) s.(tbl)).
  destruct (IH fuel (<[i := moved ideal e b]> new)
    (if ideal <? u32 (b.(count) + 1) then u32 (ni + 1) else ni) (<[i := e :: d]> chs) s')
    as (new' & ni' & m' & chs' & Hrun & Hbf & Hp & Hs & Hfr); cbn [hh s'].
  - exact Hb'.
  - eapply fwd_ext; [|exact Hf]. intros x Hx. apply Hoth; [by intros ->|apply Hout, Hc; set_solver].
  - done.
  - intros x Hx. destruct (Hc x) as (Hx0 & [hx Hhx] & Hxn); [set_solver|]. split; [done|].
    destruct (same_bkt_at _ _ _ _ Hcore Hhx) as (hx' & Hx' & _). split; [by eexists|].
    rewrite Hperm. intros [->|?]%elem_of_cons; done.
  - rewrite Hperm. cbn [length]. lia.
  - lia.
  - exists new', ni', m', chs'. split; [exact Hrun|]. split; [done|]. split.
    { rewrite Hp, Hperm. by rewrite <- Permutation_middle. }
    split; [by eapply same_bkt_trans|]. intros x Hx Hxc. apply not_elem_of_cons in Hxc as [Hxe Hxc].
    rewrite Hfr; [apply Hoth; [done|by apply Hout]| |done].
    rewrite Hperm. by intros [->|?]%elem_of_cons.
Qed.

Lemma expand_all_ok k ideal fuel old : ideal ≠ 0 → ∀ olds new ni chs s,
  Forall2 (λ b c, b.(hh_head) = hdo c 0) old olds →
  bks s.(hh) new k chs → Forall (fwd (fld hh_next s.(hh))) olds →
  NoDup (concat olds ++ concat chs) → (∀ e, e ∈ concat olds → e ≠ 0 ∧ is_Some (s.(hh) !! e)) →
  Z.of_nat (length (concat olds ++ concat chs)) < 2 ^ 32 →
  Forall (λ c : list Z, (length c < fuel)%nat) olds →
  ∃ new' ni' m' chs',
    expand_all fuel (2 ^ k) ideal old new ni s = Ok ((new', ni'), Heap m' s.(head) s.(tbl)) ∧
    bks m' new' k chs' ∧ concat chs' ≡ₚ concat olds ++ concat chs ∧ same_but_bkt s.(hh) m'.
Proof.
  intros Hid. induction old as [|b old IH]; intros olds new ni chs s Hh Hb Hf Hnd Hn Hlen Hfuel.
  { apply Forall2_nil_inv_l in Hh as ->. destruct s as [m hd t]. exists new, ni, m, chs. by split_and!. }
  apply Forall2_cons_inv_l in Hh as (c & olds' & Hbc & Hh & ->).
  apply Forall_cons in Hf as [Hfc Hf]. apply Forall_cons in Hfuel as [Hfu Hfuel].
  cbn [concat] in Hnd, Hn, Hlen. rewrite !length_app in Hlen. rewrite <- app_assoc in Hnd.
  apply NoDup_app in Hnd as (Hndc & Hap & Hnd).
  destruct (expand_chain_ok k ideal fuel c Hid new ni chs s) as (new1 & ni1 & m1 & chs1 & Hrun & Hb1 & Hp1 & Hs1 & Hfr1);
    [done..| |lia|done|].
  { intros e He. destruct (Hn e) as [H0 Hs]; [set_solver|]. split_and!; [done..|].
    intros Hx. apply (Hap e He). set_solver. }
  cbn [expand_all]. rewrite Hbc, (M_bind_ok _ _ _ _ _ Hrun). cbn [fst snd].
  destruct (IH olds' new1 ni1 chs1 (Heap m1 s.(head) s.(tbl))) as (new2 & ni2 & m2 & chs2 & Hrun2 & Hb2 & Hp2 & Hs2);
    cbn [hh].
  - done.
  - done.
  - apply Forall_forall. intros d Hin. pose proof (proj1 (Forall_forall _ _) Hf d Hin) as Hd. eapply fwd_ext; [|exact Hd]. intros x Hx.
    assert (Hxo : x ∈ concat olds').
    { apply list_elem_of_lookup in Hin as [j Hj]. apply elem_of_concat. eauto. }
    apply Hfr1; [|intros Hxc; apply (Hap x Hxc); set_solver].
    apply NoDup_app in Hnd as (_ & Hap2 & _). by apply Hap2.
  - rewrite Hp1. rewrite Permutation_app_swap_app. apply NoDup_app. split_and!; [done|done|done].
  - intros e He. destruct (Hn e) as [H0 [h Hh0]]; [set_solver|]. split; [done|].
    destruct (same_bkt_at _ _ _ _ Hs1 Hh0) as (h' & ? & _). by eexists.
  - rewrite Hp1, !length_app. lia.
  - done.
  - exists new2, ni2, m2, chs2. split; [done|]. split; [done|]. split; [|by eapply same_bkt_trans].
    rewrite Hp2, Hp1. cbn [concat]. rewrite <- app_assoc. apply Permutation_app_swap_app.
Qed.

(** ** Fresh buckets and the fuel *)
Lemma concat_replicate_nil n : concat (replicate n ([] : list Z)) = [].
Proof. by induction n. Qed.

Lemma bks_fresh m k : 0 ≤ k ≤ 31 →
  bks m (replicate (Z.to_nat (2 ^ k)) (Bucket 0 0 0)) k (replicate (Z.to_nat (2 ^ k)) []).
Proof.
  intros Hk. assert (0 < 2 ^ k) by (apply Z.pow_pos_nonneg; lia). split; rewrite ?concat_replicate_nil.
  - done.
  - rewrite length_replicate. lia.
  - by rewrite !length_replicate.
  - constructor.
  - set_solver.
  - intros i c [-> _]%lookup_replicate. done.
  - intros i c b [-> _]%lookup_replicate [-> _]%lookup_replicate. done.
  - intros i c e [-> _]%lookup_replicate. set_solver.
Qed.

Lemma nodes_size (m : store) l : NoDup l → (∀ e, e ∈ l → is_Some (m !! e)) → (length l <= size m)%nat.
Proof.
  intros Hnd Hl. rewrite <- (size_list_to_set (C := gset Z) l) by done. rewrite <- size_dom.
  apply subseteq_size. intros x Hx. apply elem_of_dom, Hl. by apply elem_of_list_to_set in Hx.
Qed.

(** The ideal length of a chain is not 0. *)
Lemma ideal_pos n k : 0 < n < 2 ^ 32 → 0 ≤ k ≤ 30 →
  u32 (Z.shiftr n (k + 1) + (if Z.land n (u32 (2 ^ (k + 1) - 1)) =? 0 then 0 else 1)) ≠ 0.
Proof.
  intros Hn Hk. assert (Hp : 2 ≤ 2 ^ (k + 1) ≤ 2 ^ 31).
  { split; [|apply Z.pow_le_mono_r; lia]. rewrite Z.pow_add_r by lia.
    assert (0 < 2 ^ k) by (apply Z.pow_pos_nonneg; lia). lia. }
  rewrite (u32_small (_ - 1)) by lia. rewrite Z.sub_1_r, <- Z.ones_equiv, Z.land_ones by lia.
  rewrite Z.shiftr_div_pow2 by lia. pose proof (Z.div_mod n (2 ^ (k + 1))).
  pose proof (Z.mod_pos_bound n (2 ^ (k + 1))).
  assert (0 ≤ n / 2 ^ (k + 1) < 2 ^ 31) by (split; [apply Z.div_pos; lia|apply Z.div_lt_upper_bound; nia]).
  destruct (Z.eqb_spec (n mod 2 ^ (k + 1)) 0) as [E|E]; rewrite u32_small by lia; nia.
Qed.
