(* ===== verification/UthashMap.v ===== *)
(** * UthashMap: the operations of the tables

    Every operation on a well-formed table, up to the invariant [rep] that
    ties the memory to the list of the elements in order of insertion with
    their keys. *)
From Stdlib Require Import ZArith Lia.
From stdpp Require Import base numbers list gmap strings.
From S2P Require Import Prelude Dlist Uthash UthashOk.

(** The table with the chains [chs]. *)
Record tok (m : store) (t : UT_hash_table) (chs : list (list Z)) : Prop := {
  tk_bks : bks m t.(buckets) t.(log2_num_buckets) chs;
  tk_num : t.(num_buckets) = 2 ^ t.(log2_num_buckets);
  tk_items : t.(num_items) = Z.of_nat (length (concat chs))
}.

Lemma M_bind_panic {S A B} (m : M S A) (k : A → M S B) s why :
  m s = Panic why → (m ≫= k) s = Panic why.
Proof. intros H. unfold mbind, M_bind. by rewrite H. Qed.

Section uthash.
Context (hash : list Z → Z) (malloc_ok : Z → bool).
(** No allocation of 64 GiB succeeds. *)
Hypothesis malloc_max : ∀ n, 2 ^ 36 ≤ n → malloc_ok n = false.

Abbreviation OOM := (Panic "out of memory").

Lemma chains_bound m bs k chs i c : bks m bs k chs → chs !! i = Some c → (length c < S (size m))%nat.
Proof.
  intros Hb Hc. apply Nat.lt_succ_r, nodes_size.
  - eapply chain_nodup, Hc. apply Hb.
  - intros e He. by eapply chain_node.
Qed.

Lemma expand_ok s t chs : s.(tbl) = Some t → tok s.(hh) t chs → 0 < t.(num_items) < 2 ^ 32 →
  HASH_EXPAND_BUCKETS malloc_ok s = OOM ∨
  ∃ m' t' chs', HASH_EXPAND_BUCKETS malloc_ok s = Ok (tt, Heap m' s.(head) (Some t')) ∧
    tok m' t' chs' ∧ concat chs' ≡ₚ concat chs ∧ same_but_bkt s.(hh) m' ∧
    t'.(num_items) = t.(num_items) ∧ t'.(tail) = t.(tail).
Proof.
  intros Ht [Hb Hnum Hitems] Hlen. unfold HASH_EXPAND_BUCKETS.
  rewrite (M_bind_ok get _ s s s eq_refl).
  assert (Htab : table s = Ok (t, s)) by (unfold table; by rewrite Ht).
  rewrite (M_bind_ok _ _ _ _ _ Htab). unfold uthash_malloc, assertM.
  destruct (malloc_ok _) eqn:Hm; [|by left]. right.
  rewrite (M_bind_ok (mret ()) _ s tt s eq_refl).
  set (k := t.(log2_num_buckets)) in *. pose proof (bk_log _ _ _ _ Hb) as Hk.
  assert (Hk30 : k ≤ 30).
  { destruct (decide (k = 31)) as [E|]; [|lia]. rewrite malloc_max in Hm; [done|].
    rewrite Hnum, E. unfold sizeof_bucket. lia. }
  assert (H2 : 2 ^ (k + 1) = 2 ^ k * 2) by (by rewrite Z.pow_add_r by lia).
  assert (0 < 2 ^ k ≤ 2 ^ 30) by (split; [apply Z.pow_pos_nonneg; lia|apply Z.pow_le_mono_r; lia]).
  rewrite Hnum, (u32_small (2 ^ k * 2)), <- H2 by lia.
  replace (2 * 2 ^ k) with (2 ^ (k + 1)) by lia. cbv zeta.
  set (ideal := u32 (Z.shiftr t.(num_items) (k + 1) + _)).
  assert (Hid : ideal ≠ 0) by (apply ideal_pos; lia).
  rewrite take_ge by (pose proof (bk_len _ _ _ _ Hb); lia).
  destruct (expand_all_ok (k + 1) ideal (S (size s.(hh))) t.(buckets) Hid chs
    (replicate (Z.to_nat (2 ^ (k + 1))) (Bucket 0 0 0)) 0 (replicate (Z.to_nat (2 ^ (k + 1))) []) s)
    as (new' & ni' & m' & chs' & Hrun & Hb' & Hp & Hs).
  - apply Forall2_same_length_lookup. split; [symmetry; apply Hb|].
    intros i b c Hbi Hc. by apply (bk_head _ _ _ _ Hb i).
  - apply bks_fresh. lia.
  - apply Forall_lookup. intros i c Hc. eapply dseg_fwd, (bk_list _ _ _ _ Hb i c Hc).
  - rewrite concat_replicate_nil, app_nil_r. apply Hb.
  - apply Hb.
  - rewrite concat_replicate_nil, app_nil_r. lia.
  - apply Forall_lookup. intros i c Hc. by eapply chains_bound.
  - rewrite (M_bind_ok _ _ _ _ _ Hrun). rewrite concat_replicate_nil, app_nil_r in Hp.
    cbn [fst snd]. eexists m', _, chs'. split; [reflexivity|]. rewrite (u32_small (k + 1)) by lia.
    split_and!; [|done..]. split; cbn [buckets log2_num_buckets num_buckets num_items]; [done..|].
    by rewrite Hp.
Qed.

Lemma table_run s t : s.(tbl) = Some t → table s = Ok (t, s).
Proof. intros H. unfold table. by rewrite H. Qed.

Lemma set_table_run t s : set_table t s = Ok (tt, Heap s.(hh) s.(head) t).
Proof. done. Qed.

(** The table when the new element is counted but not yet on a chain. *)
Lemma add_to_bkt_ok s t chs e h :
  s.(tbl) = Some t → bks s.(hh) t.(buckets) t.(log2_num_buckets) chs →
  t.(num_buckets) = 2 ^ t.(log2_num_buckets) →
  t.(num_items) = Z.of_nat (length (concat chs)) + 1 → t.(num_items) < 2 ^ 32 →
  e ≠ 0 → e ∉ concat chs → s.(hh) !! e = Some h →
  HASH_ADD_TO_BKT malloc_ok (HASH_TO_BKT h.(hashv) t.(num_buckets)) e s = OOM ∨
  ∃ m' t' chs', HASH_ADD_TO_BKT malloc_ok (HASH_TO_BKT h.(hashv) t.(num_buckets)) e s
      = Ok (tt, Heap m' s.(head) (Some t')) ∧
    tok m' t' chs' ∧ concat chs' ≡ₚ e :: concat chs ∧ same_but_bkt s.(hh) m' ∧
    t'.(tail) = t.(tail).
Proof.
  intros Ht Hb Hnum Hit Hlen Hnz Hnew He.
  destruct (place_bucket _ _ _ _ h.(hashv) Hb) as (i & c & b & Hbkt & Hmod & Hc & Hbi).
  rewrite Hnum, Hbkt. unfold HASH_ADD_TO_BKT. rewrite (M_bind_ok _ _ _ _ _ (table_run s t Ht)).
  assert (Hbu : bucket t.(buckets) (Z.of_nat i) s = Ok (b, s)) by (unfold bucket; by rewrite Nat2Z.id, Hbi).
  rewrite (M_bind_ok _ _ _ _ _ Hbu), Nat2Z.id. cbv zeta.
  pose proof (chain_length _ _ _ Hc) as Hcl.
  pose proof (push_core s.(hh) e b) as Hcore.
  pose proof (bks_push s.(hh) t.(buckets) _ chs e h i c b b.(expand_mult) Hb Hnew Hnz He Hc Hbi Hmod ltac:(lia)) as Hb'.
  pose proof (push_concat chs i c e Hc) as Hperm.
  rewrite link_run; [|done|by eexists|].
  2:{ destruct (bk_head _ _ _ _ Hb i c b Hc Hbi) as [-> _]. intros Hv.
      by apply (chain_head _ _ _ _ _ _ Hb Hc). }
  set (t1 := with_buckets _ t).
  set (s1 := Heap (linked s.(hh) e b.(hh_head)) s.(head) (Some t1)).
  assert (Htok : tok s1.(hh) t1 (<[i := e :: c]> chs)).
  { split; [exact Hb'|exact Hnum|]. rewrite Hperm. cbn. lia. }
  rewrite (M_bind_ok _ _ _ _ _ (set_table_run (Some t1) (Heap (linked s.(hh) e b.(hh_head)) _ _))).
  cbn [hh head]. fold s1.
  destruct (_ && _); cbn [when]; [|by right; eexists _, t1, _].
  destruct (expand_ok s1 t1 _ eq_refl Htok) as [->|(m' & t' & chs' & -> & Htok' & Hp & Hs & Hi & Htl)].
  - cbn. lia.
  - by left.
  - right. eexists m', t', chs'. split; [done|]. split; [done|]. split; [by rewrite Hp|].
    split; [by eapply same_bkt_trans|done].
Qed.

(** ** The list in order of insertion *)
Record app_ok (m : store) (tl : Z) (l : list (Z * list Z)) : Prop := {
  ap_nodup : NoDup l.*1;
  ap_nz : 0 ∉ l.*1;
  ap_list : dlist (fld next m) (fld prev m) l.*1;
  ap_key : ∀ e k, (e, k) ∈ l →
    ∃ h, m !! e = Some h ∧ h.(key) = k ∧ h.(keylen) = Z.of_nat (length k) ∧ h.(hashv) = hash k;
  ap_tail : tl = lasto l.*1 0
}.

(** The memory and the table hold the elements [l]. *)
Definition inv (m : store) (t : UT_hash_table) (l : list (Z * list Z)) : Prop :=
  app_ok m t.(tail) l ∧ ∃ chs, tok m t chs ∧ concat chs ≡ₚ l.*1.

Definition rep (s : heap) (l : list (Z * list Z)) : Prop :=
  match l with
  | [] => s.(head) = 0 ∧ s.(tbl) = None
  | (e, _) :: _ => s.(head) = e ∧ ∃ t, s.(tbl) = Some t ∧ inv s.(hh) t l
  end.

Lemma app_ok_core m m' tl l : same_but_bkt m m' → app_ok m tl l → app_ok m' tl l.
Proof.
  intros Hs [Hn H0 Hl Hk Ht]. split; [done..| | |done].
  - eapply dseg_ext, Hl. intros e _. by split; apply (same_bkt_fld _ m m' e Hs); unfold core; congruence.
  - intros e k Hin. destruct (Hk e k Hin) as (h & He & H1 & H2 & H3).
    destruct (same_bkt_at _ _ _ _ Hs He) as (h' & He' & Hc). unfold core in Hc. exists h'.
    split_and!; congruence.
Qed.

(** Only the bucket fields of the nodes on the chains matter. *)
Lemma bks_ext m m' bs k chs :
  (∀ e, e ∈ concat chs → is_Some (m' !! e) ∧ fld hh_next m' e = fld hh_next m e ∧
    fld hh_prev m' e = fld hh_prev m e ∧ fld hashv m' e = fld hashv m e) →
  bks m bs k chs → bks m' bs k chs.
Proof.
  intros H [Hk Hl Hc Hn Hd Hls Hh Hp].
  assert (Hin : ∀ i c e, chs !! i = Some c → e ∈ c → e ∈ concat chs).
  { intros. apply elem_of_concat. eauto. }
  split; [done..| | |done|].
  - intros e He. split; [by apply Hd|]. by apply H.
  - intros i c Hi. eapply dseg_ext, Hls, Hi. intros e He. by destruct (H e) as (_ & ? & ? & _); [eauto|].
  - intros i c e Hi He. destruct (H e) as (_ & _ & _ & ->); eauto.
Qed.

Lemma bks_app m m' bs k chs : same_but_app m m' → bks m bs k chs → bks m' bs k chs.
Proof.
  intros Hs Hb. eapply bks_ext, Hb. intros e He.
  destruct (bk_node _ _ _ _ Hb e He) as [_ [h Hh]].
  destruct (same_app_at _ _ _ _ Hs Hh) as (h' & Hh' & _). split; [by eexists|].
  split_and!; apply (same_app_fld _ m m' e Hs); unfold bcore; congruence.
Qed.

(** A handle is filled in. *)
Lemma fld_insert_other f (m : store) e h x : x ≠ e → fld f (<[e := h]> m) x = fld f m x.
Proof. intros. unfold fld. by rewrite lookup_insert_ne. Qed.

Lemma bks_insert m bs k chs e h : e ∉ concat chs → bks m bs k chs → bks (<[e := h]> m) bs k chs.
Proof.
  intros He Hb. eapply bks_ext, Hb. intros x Hx. assert (x ≠ e) by by intros ->.
  rewrite !fld_insert_other by done. split; [|done]. rewrite lookup_insert_ne by done.
  by apply (bk_node _ _ _ _ Hb).
Qed.

Lemma app_insert m tl l e h : e ∉ l.*1 → app_ok m tl l → app_ok (<[e := h]> m) tl l.
Proof.
  intros He [Hn H0 Hl Hk Ht]. split; [done..| | |done].
  - eapply dseg_ext, Hl. intros x Hx. assert (x ≠ e) by by intros ->. by rewrite !fld_insert_other.
  - intros x k Hx. rewrite lookup_insert_ne; [by apply Hk|]. intros ->. apply He.
    by apply (list_elem_of_fmap_2 fst _ (x, k)).
Qed.

(** [HASH_APPEND_LIST] *)
Definition appended (m : store) (e tl : Z) : store :=
  alter (set_next e) tl (alter (λ h, set_prev tl (set_next 0 h)) e m).

Lemma append_run s t e :
  s.(tbl) = Some t → is_Some (s.(hh) !! e) → is_Some (s.(hh) !! t.(tail)) →
  HASH_APPEND_LIST e s = Ok (tt, Heap (appended s.(hh) e t.(tail)) s.(head) (Some (with_tail e t))).
Proof.
  intros Ht He Htl. unfold HASH_APPEND_LIST. rewrite (M_bind_ok _ _ _ _ _ (write_run e _ s He)).
  rewrite (M_bind_ok _ _ _ _ _ (table_run (Heap _ _ _) t Ht)).
  rewrite (M_bind_ok _ _ _ _ _ (write_run e _ (Heap _ _ _) (alter_some _ _ _ _ He))). cbn [hh head tbl].
  rewrite alter_alter_eq.
  by rewrite (M_bind_ok _ _ _ _ _ (write_run t.(tail) _ (Heap _ _ _) (alter_some _ _ _ _ Htl))).
Qed.

Lemma appended_same m e tl : same_but_app m (appended m e tl).
Proof. unfold appended. eapply same_app_trans; by apply bcore_alter. Qed.

Lemma appended_next m e tl h ht x : m !! e = Some h → m !! tl = Some ht → tl ≠ e →
  fld next (appended m e tl) x = fupd (fupd (fld next m) e 0) tl e x.
Proof.
  intros He Ht Hne. unfold appended.
  rewrite (fld_alter _ _ _ _ _ ht) by (rewrite lookup_alter_ne; done).
  unfold fupd at 1 2. case_decide; [done|]. by rewrite (fld_alter _ _ _ _ _ h).
Qed.
Lemma appended_prev m e tl h x : m !! e = Some h →
  fld prev (appended m e tl) x = fupd (fld prev m) e tl x.
Proof. intros He. unfold appended. rewrite fld_alter_same by done. by rewrite (fld_alter _ _ _ _ _ h). Qed.

Lemma append_ok m tl l e k h : l ≠ [] → e ∉ l.*1 → e ≠ 0 → app_ok m tl l →
  m !! e = Some h → h.(key) = k → h.(keylen) = Z.of_nat (length k) → h.(hashv) = hash k →
  app_ok (appended m e tl) e (l ++ [(e, k)]).
Proof.
  intros Hne He Hnz [Hn H0 Hl Hk Ht] Hm Hkey Hkl Hhv.
  assert (Hne' : l.*1 ≠ []) by by destruct l.
  assert (Htl : tl ∈ l.*1) by (rewrite Ht; by apply lasto_in).
  assert (Htle : tl ≠ e) by (by intros ->).
  pose proof (appended_same m e tl) as Hs.
  assert (Hmt : ∃ ht, m !! tl = Some ht).
  { apply list_elem_of_fmap in Htl as ([x kx] & -> & Hx). destruct (Hk _ _ Hx) as (hx & ? & _). eauto. }
  destruct Hmt as [ht Hmt]. rewrite Ht in *. split; rewrite ?fmap_app; cbn [fmap list_fmap fst].
  - apply NoDup_app. split_and!; [done| |apply NoDup_singleton]. intros x Hx ->%list_elem_of_singleton. done.
  - rewrite elem_of_app, list_elem_of_singleton. intros [?|?]; congruence.
  - eapply dseg_ext; [|by apply (dlist_append (fld next m) (fld prev m) l.*1 e)].
    intros x _. split; [by apply (appended_next m e _ h ht)|by apply (appended_prev m e _ h)].
  - intros x kx [Hx|Hx%list_elem_of_singleton]%elem_of_app.
    + destruct (Hk _ _ Hx) as (hx & Hmx & ? & ? & ?).
      destruct (same_app_at _ _ _ _ Hs Hmx) as (h' & Hh' & Hc). unfold bcore in Hc.
      exists h'. split_and!; congruence.
    + injection Hx as -> ->. destruct (same_app_at _ _ _ _ Hs Hm) as (h' & Hh' & Hc). unfold bcore in Hc.
      exists h'. split_and!; congruence.
  - by rewrite lasto_snoc.
Qed.

(** ** HASH_ADD *)

(** From the app list extended to the end of the macro. *)
Lemma add_finish s t chs l e k :
  s.(tbl) = Some t → bks s.(hh) t.(buckets) t.(log2_num_buckets) chs →
  t.(num_buckets) = 2 ^ t.(log2_num_buckets) → t.(num_items) = Z.of_nat (length l) →
  concat chs ≡ₚ l.*1 → app_ok s.(hh) t.(tail) (l ++ [(e, k)]) →
  Z.of_nat (length l) + 1 < 2 ^ 32 →
  (t ← table; set_table (Some (with_items (u32 (t.(num_items) + 1)) t));;
    HASH_ADD_TO_BKT malloc_ok (HASH_TO_BKT (hash k) t.(num_buckets)) e) s = OOM ∨
  ∃ m' t', (t ← table; set_table (Some (with_items (u32 (t.(num_items) + 1)) t));;
      HASH_ADD_TO_BKT malloc_ok (HASH_TO_BKT (hash k) t.(num_buckets)) e) s
      = Ok (tt, Heap m' s.(head) (Some t')) ∧ inv m' t' (l ++ [(e, k)]).
Proof.
  intros Ht Hb Hnum Hit Hperm Happ Hlen.
  rewrite (M_bind_ok _ _ _ _ _ (table_run s t Ht)). rewrite Hit, u32_small by lia.
  set (t1 := with_items _ t). rewrite (M_bind_ok _ _ _ _ _ (set_table_run (Some t1) s)).
  set (s1 := Heap s.(hh) s.(head) (Some t1)).
  destruct (ap_key _ _ _ Happ e k) as (h & Hm & _ & _ & Hhv); [set_solver|].
  pose proof (ap_nodup _ _ _ Happ) as Hnd. rewrite fmap_app in Hnd. cbn in Hnd.
  apply NoDup_app in Hnd as (_ & Hap & _).
  assert (Hlc : length (concat chs) = length l) by (rewrite Hperm; apply length_fmap).
  destruct (add_to_bkt_ok s1 t1 chs e h) as [E|(m' & t' & chs' & E & Htok & Hp & Hs & Htl)];
    rewrite ?Hhv in *.
  - done.
  - exact Hb.
  - exact Hnum.
  - cbn. lia.
  - cbn. lia.
  - intros ->. apply (ap_nz _ _ _ Happ). rewrite fmap_app. set_solver.
  - rewrite Hperm. intros Hx. apply (Hap e Hx). set_solver.
  - done.
  - left. exact E.
  - right. exists m', t'. split; [exact E|]. split.
    + rewrite Htl. eapply app_ok_core, Happ. exact Hs.
    + exists chs'. split; [done|]. rewrite Hp, Hperm, fmap_app. cbn.
      by rewrite Permutation_app_comm.
Qed.

Definition fresh_table (e : Z) : UT_hash_table :=
  Table (replicate 32 (Bucket 0 0 0)) 32 5 0 e 0 0 0 0.

Lemma make_table_run e s : HASH_MAKE_TABLE malloc_ok e s = OOM ∨
  HASH_MAKE_TABLE malloc_ok e s = Ok (tt, Heap s.(hh) s.(head) (Some (fresh_table e))).
Proof.
  unfold HASH_MAKE_TABLE, uthash_malloc, assertM.
  destruct (malloc_ok sizeof_table); [|by left]. destruct (malloc_ok (_ * _)); [by right|by left].
Qed.

(** The first element makes the table. *)
Lemma first_run e h m hd t : h.(next) = 0 → h.(prev) = 0 →
  let run := (write e (set_next 0);; write e (set_prev 0);; set_head e;; HASH_MAKE_TABLE malloc_ok e)
    (Heap (<[e := h]> m) hd t) in
  run = OOM ∨ run = Ok (tt, Heap (<[e := h]> m) e (Some (fresh_table e))).
Proof.
  intros Hn Hp. cbv zeta. assert (Hs : is_Some (<[e := h]> m !! e)) by (rewrite lookup_insert_eq; by eexists).
  rewrite (M_bind_ok _ _ _ _ _ (write_run e _ (Heap _ _ _) Hs)).
  rewrite (M_bind_ok _ _ _ _ _ (write_run e _ (Heap _ _ _) (alter_some _ _ _ _ Hs))). cbn [hh head tbl].
  rewrite !alter_insert_eq. replace (set_prev 0 (set_next 0 h)) with h.
  2:{ destruct h; cbn in *. by subst. }
  apply make_table_run.
Qed.

Lemma add_first s e k :
  let h := Handle 0 0 0 0 k (Z.of_nat (length k)) (hash k) in
  let m := <[e := h]> s.(hh) in e ≠ 0 → Z.of_nat (length k) < 2 ^ 32 →
  (write e (set_next 0);; write e (set_prev 0);; set_head e;; HASH_MAKE_TABLE malloc_ok e)
    (Heap m 0 s.(tbl)) = OOM ∨
  ∃ s1, (write e (set_next 0);; write e (set_prev 0);; set_head e;; HASH_MAKE_TABLE malloc_ok e)
    (Heap m 0 s.(tbl)) = Ok (tt, s1) ∧ s1 = Heap m e (Some (fresh_table e)) ∧
    bks m (fresh_table e).(buckets) 5 (replicate 32 []) ∧ app_ok m e [(e, k)].
Proof.
  intros h m Hnz Hk. destruct (first_run e h s.(hh) 0 s.(tbl) eq_refl eq_refl) as [E|E]; [by left|].
  right. eexists. split; [exact E|]. split; [done|]. split; [apply (bks_fresh _ 5); lia|].
  split; cbn; [by apply NoDup_singleton|set_solver| | |done].
  - unfold fld, m. by rewrite !lookup_insert_eq.
  - intros x kx [= -> ->]%list_elem_of_singleton. exists h. unfold m. by rewrite lookup_insert_eq.
Qed.

(** A later element goes to the end of the list. *)
Lemma add_more s t l e k : app_ok s.(hh) t.(tail) l → s.(tbl) = Some t → l ≠ [] → e ≠ 0 → e ∉ l.*1 →
  let h := Handle 0 0 0 0 k (Z.of_nat (length k)) (hash k) in
  let m := <[e := h]> s.(hh) in
  HASH_APPEND_LIST e (Heap m s.(head) s.(tbl))
    = Ok (tt, Heap (appended m e t.(tail)) s.(head) (Some (with_tail e t))) ∧
  app_ok (appended m e t.(tail)) e (l ++ [(e, k)]).
Proof.
  intros Happ Ht Hne Hnz He h m. pose proof (app_insert s.(hh) t.(tail) l e h He Happ) as Happ0.
  assert (Hm : m !! e = Some h) by apply lookup_insert_eq.
  assert (Htl : is_Some (m !! t.(tail))).
  { assert (t.(tail) ∈ l.*1) as Hin by (rewrite (ap_tail _ _ _ Happ); apply lasto_in; by destruct l).
    apply list_elem_of_fmap in Hin as ([x kx] & Hx & Hxl). cbn in Hx. rewrite Hx.
    destruct (ap_key _ _ _ Happ0 _ _ Hxl) as (hx & Hhx & _). by eexists. }
  split; [by apply (append_run (Heap m s.(head) s.(tbl)))|]. by apply (append_ok _ _ _ _ _ h).
Qed.

Lemma add_ok s l e k : rep s l → e ≠ 0 → e ∉ l.*1 →
  Z.of_nat (length k) < 2 ^ 32 → Z.of_nat (length l) + 1 < 2 ^ 32 →
  HASH_ADD hash malloc_ok e k s = OOM ∨
  ∃ s', HASH_ADD hash malloc_ok e k s = Ok (tt, s') ∧ rep s' (l ++ [(e, k)]).
Proof.
  intros Hrep Hnz He Hk Hlen. unfold HASH_ADD. cbv zeta. rewrite u32_small by lia.
  set (h := Handle 0 0 0 0 k (Z.of_nat (length k)) (hash k)). set (m := <[e := h]> s.(hh)).
  rewrite (M_bind_ok (modify (λ s, Heap (<[e := h]> s.(hh)) s.(head) s.(tbl))) _ s tt (Heap m s.(head) s.(tbl)) eq_refl).
  rewrite (M_bind_ok get _ _ _ _ eq_refl). cbn [head].
  destruct l as [|[e1 k1] l].
  - destruct Hrep as [-> _]. cbn [Z.eqb].
    destruct (add_first s e k Hnz Hk) as [E|(s1 & E & -> & Hb & Happ)].
    { rewrite (M_bind_panic _ _ _ _ E). by left. }
    rewrite (M_bind_ok _ _ _ _ _ E).
    destruct (add_finish (Heap m e (Some (fresh_table e))) (fresh_table e) (replicate 32 []) [] e k)
      as [E'|(m' & t' & E' & Hinv)]; [done|exact Hb|done|done|by rewrite concat_replicate_nil|done|done|by left|].
    right. eexists. split; [exact E'|]. cbn. split; [done|]. by exists t'.
  - destruct Hrep as (Hh & t & Ht & Happ & chs & [Hb Hnum Hit] & Hperm).
    set (l' := (e1, k1) :: l) in *.
    assert (Hne : s.(head) ≠ 0) by (rewrite Hh; intros ->; by apply (ap_nz _ _ _ Happ), list_elem_of_here).
    rewrite (proj2 (Z.eqb_neq _ _) Hne).
    destruct (add_more s t l' e k Happ Ht) as [E Happ']; [done..|]. rewrite (M_bind_ok _ _ _ _ _ E).
    destruct (add_finish (Heap (appended m e t.(tail)) s.(head) (Some (with_tail e t)))
      (with_tail e t) chs l' e k) as [E'|(m' & t' & E' & Hinv)];
      [done| |exact Hnum|by cbn; rewrite Hit, Hperm, length_fmap|done|exact Happ'|done|by left|].
    + cbn. eapply bks_app; [apply appended_same|]. apply bks_insert; [by rewrite Hperm|done].
    + right. eexists. split; [exact E'|]. cbn. split; [exact Hh|]. by exists t'.
Qed.
End uthash.

(** ** HASH_FIND *)
Section find.
Context (hash : list Z → Z).

Definition keymap (l : list (Z * list Z)) : gmap (list Z) Z := list_to_map ((λ p, (p.2, p.1)) <$> l).

Lemma keymap_lookup l e k : NoDup l.*2 → keymap l !! k = Some e ↔ (e, k) ∈ l.
Proof.
  intros Hnd. unfold keymap. rewrite <- elem_of_list_to_map.
  - rewrite list_elem_of_fmap. split; [intros ([x kx] & [= -> ->] & H); done|intros H; by exists (e, k)].
  - by rewrite <- list_fmap_compose.
Qed.

Lemma keymap_none l k : k ∉ l.*2 → keymap l !! k = None.
Proof. intros H. apply not_elem_of_list_to_map_1. by rewrite <- list_fmap_compose. Qed.

Lemma key_test h k : h.(keylen) = Z.of_nat (length h.(key)) → h.(hashv) = hash h.(key) →
  (h.(hashv) =? hash k) && (h.(keylen) =? Z.of_nat (length k)) && same_bytes h.(key) k (Z.of_nat (length k))
  = bool_decide (h.(key) = k).
Proof.
  intros Hl Hh. unfold same_bytes. rewrite Nat2Z.id. destruct (decide (h.(key) = k)) as [E|E].
  - rewrite Hl, Hh, E, !Z.eqb_refl. by rewrite !bool_decide_true.
  - rewrite (bool_decide_false (_ = k)) by done. rewrite Hl. destruct (Z.eqb_spec (Z.of_nat (length h.(key))) (Z.of_nat (length k))) as [El|];
      [|by rewrite andb_false_r].
    rewrite bool_decide_false; [apply andb_false_r|]. apply Nat2Z.inj in El.
    by rewrite <- El at 1; rewrite !firstn_all.
Qed.

Lemma find_walk fuel k c s :
  fwd (fld hh_next s.(hh)) c →
  (∀ e, e ∈ c → e ≠ 0 ∧ ∃ h, s.(hh) !! e = Some h ∧ h.(keylen) = Z.of_nat (length h.(key)) ∧ h.(hashv) = hash h.(key)) →
  (length c < fuel)%nat →
  ∃ r, find_in_bkt fuel k (hash k) (hdo c 0) s = Ok (r, s) ∧
    ((r = 0 ∧ ∀ e h, e ∈ c → s.(hh) !! e = Some h → h.(key) ≠ k) ∨
     (r ∈ c ∧ ∃ h, s.(hh) !! r = Some h ∧ h.(key) = k)).
Proof.
  revert fuel. induction c as [|e c IH]; intros fuel Hf Hc Hfuel;
    (destruct fuel as [|fuel]; [cbn in Hfuel; lia|]); cbn [find_in_bkt].
  { exists 0. split; [done|]. left. split; [done|]. set_solver. }
  rewrite hdo_cons. destruct (Hc e) as (Hnz & h & Hm & Hkl & Hhv); [set_solver|].
  rewrite (proj2 (Z.eqb_neq _ _) Hnz), (M_bind_ok _ _ _ _ _ (handle_run e s h Hm)).
  rewrite key_test by done. case_bool_decide as E.
  { exists e. split; [done|]. right. split; [set_solver|]. by exists h. }
  cbn [fwd] in Hf. destruct Hf as [Hn Hf]. unfold fld in Hn at 1. rewrite Hm in Hn. cbn in Hn. rewrite Hn.
  destruct (IH fuel Hf) as (r & Hrun & Hr); [set_solver|cbn in Hfuel; lia|].
  exists r. split.
  - destruct (Z.eqb_spec (hdo c 0) 0) as [E0|]; [|done]. cbn [negb].
    destruct c as [|x c]; [|rewrite hdo_cons in E0; subst; by destruct (Hc 0) as [? _]; [set_solver|]].
    destruct fuel; [cbn in Hfuel; lia|]. exact Hrun.
  - destruct Hr as [[-> Hr]|[Hr Hk]]; [left|right; split; [set_solver|done]]. split; [done|].
    intros x hx [->|Hx]%elem_of_cons Hmx; [congruence|by eapply Hr].
Qed.

Lemma find_ok s l k : rep hash s l → NoDup l.*2 →
  HASH_FIND hash k s = Ok (default 0 (keymap l !! k), s).
Proof.
  intros Hrep Hnd. unfold HASH_FIND. cbv zeta. rewrite (M_bind_ok get _ s s s eq_refl).
  destruct l as [|[e1 k1] l]; [by destruct Hrep as [-> _]|].
  destruct Hrep as (Hh & t & Ht & Happ & chs & [Hb Hnum _] & Hperm). set (l' := (e1, k1) :: l) in *.
  assert (Hne : s.(head) ≠ 0) by (rewrite Hh; intros ->; by apply (ap_nz _ _ _ _ Happ), list_elem_of_here).
  rewrite (proj2 (Z.eqb_neq _ _) Hne), (M_bind_ok _ _ _ _ _ (table_run s t Ht)), Hnum.
  destruct (place_bucket _ _ _ _ (hash k) Hb) as (i & c & b & Hbkt & Hmod & Hc & Hbi). rewrite Hbkt.
  assert (Hbu : bucket t.(buckets) (Z.of_nat i) s = Ok (b, s)) by (unfold bucket; by rewrite Nat2Z.id, Hbi).
  rewrite (M_bind_ok _ _ _ _ _ Hbu). destruct (bk_head _ _ _ _ Hb i c b Hc Hbi) as [-> _].
  assert (Hin : ∀ e, e ∈ c → ∃ ke h, (e, ke) ∈ l' ∧ s.(hh) !! e = Some h ∧ h.(key) = ke ∧
    h.(keylen) = Z.of_nat (length ke) ∧ h.(hashv) = hash ke).
  { intros e He. assert (e ∈ l'.*1) as Hel by (rewrite <- Hperm; apply elem_of_concat; eauto).
    apply list_elem_of_fmap in Hel as ([x ke] & -> & Hx). destruct (ap_key _ _ _ _ Happ _ _ Hx) as (h & ? & ? & ? & ?).
    exists ke, h. done. }
  destruct (find_walk (S (size s.(hh))) k c s) as (r & -> & Hr).
  - eapply dseg_fwd, (bk_list _ _ _ _ Hb i c Hc).
  - intros e He. split; [by eapply chain_node|]. destruct (Hin e He) as (ke & h & _ & ? & <- & ? & ?). by exists h.
  - by eapply chains_bound.
  - do 2 f_equal. destruct Hr as [[-> Hr]|[Hr (h & Hm & Hk)]].
    + destruct (keymap l' !! k) as [e|] eqn:E; [|done]. exfalso. apply keymap_lookup in E; [|done].
      destruct (ap_key _ _ _ _ Happ _ _ E) as (h & Hm & Hk & _ & Hhv). apply (Hr e h); [|done|done].
      assert (e ∈ concat chs) as (j & d & Hd & He)%elem_of_concat.
      { rewrite Hperm. by apply (list_elem_of_fmap_2 fst _ (e, k)). }
      pose proof (bk_place _ _ _ _ Hb j d e Hd He) as Hpl. unfold fld in Hpl. rewrite Hm in Hpl. cbn in Hpl.
      rewrite Hhv, Hmod in Hpl. apply Nat2Z.inj in Hpl as ->. congruence.
    + destruct (Hin r Hr) as (ke & h' & Hl & Hm' & <- & _). simplify_eq.
      apply keymap_lookup in Hl as ->; done.
Qed.
End find.
