(* ===== verification/UthashDel.v ===== *)
(** * UthashDel: removal from a table *)
From Stdlib Require Import ZArith Lia.
From stdpp Require Import base numbers list gmap strings.
From S2P Require Import Prelude Dlist Uthash UthashOk UthashMap.

(** ** The two unlinkings *)
Definition unlinked (sn sp : Z → UT_hash_handle → UT_hash_handle) (m : store) (p n : Z) : store :=
  let m := if p =? 0 then m else alter (sn n) p m in
  if n =? 0 then m else alter (sp p) n m.

Section unlinked.
Context (fn fp : UT_hash_handle → Z) (sn sp : Z → UT_hash_handle → UT_hash_handle).
Hypothesis fn_sn : ∀ v h, fn (sn v h) = v.
Hypothesis fn_sp : ∀ v h, fn (sp v h) = fn h.
Hypothesis fp_sn : ∀ v h, fp (sn v h) = fp h.
Hypothesis fp_sp : ∀ v h, fp (sp v h) = v.

Lemma unlinked_next m p n x : (p ≠ 0 → is_Some (m !! p)) →
  fld fn (unlinked sn sp m p n) x = fupd_nz (fld fn m) p n x.
Proof.
  intros Hp. unfold unlinked. transitivity (fld fn (if p =? 0 then m else alter (sn n) p m) x).
  { destruct (n =? 0); [done|]. by apply fld_alter_same. }
  destruct (Z.eqb_spec p 0) as [E|E]; unfold fupd_nz; [by rewrite decide_True|rewrite decide_False by done].
  destruct (Hp E) as [h Hh]. by rewrite (fld_alter _ _ _ _ _ h), fn_sn.
Qed.

Lemma unlinked_prev m p n x : (n ≠ 0 → is_Some (m !! n)) →
  fld fp (unlinked sn sp m p n) x = fupd_nz (fld fp m) n p x.
Proof.
  intros Hn. unfold unlinked, fupd_nz.
  assert (Hm : ∀ y, fld fp (if p =? 0 then m else alter (sn n) p m) y = fld fp m y).
  { intros y. destruct (p =? 0); [done|]. by apply fld_alter_same. }
  destruct (Z.eqb_spec n 0) as [E|E]; [by rewrite decide_True|rewrite decide_False by done].
  assert (Hs : is_Some ((if p =? 0 then m else alter (sn n) p m) !! n)).
  { destruct (p =? 0); [by apply Hn|]. by apply alter_some, Hn. }
  destruct Hs as [h Hh]. rewrite (fld_alter _ _ _ _ _ h), fp_sp by done. unfold fupd. by case_decide.
Qed.
End unlinked.

Lemma unlinked_app m p n : same_but_app m (unlinked set_next set_prev m p n).
Proof.
  unfold unlinked. apply (same_app_trans _ (if p =? 0 then m else alter (set_next n) p m)).
  - destruct (p =? 0); [done|]. by apply bcore_alter.
  - destruct (n =? 0); [done|]. by apply bcore_alter.
Qed.
Lemma unlinked_bkt m p n : same_but_bkt m (unlinked set_hh_next set_hh_prev m p n).
Proof.
  unfold unlinked. apply (same_bkt_trans _ (if p =? 0 then m else alter (set_hh_next n) p m)).
  - destruct (p =? 0); [done|]. by apply core_alter.
  - destruct (n =? 0); [done|]. by apply core_alter.
Qed.

(** The neighbours of a node of a list, when there are any, are other nodes
    of the list. *)
Lemma neighbours (m : store) (a : list Z) e b :
  NoDup (a ++ e :: b) → (∀ x, x ∈ a ++ e :: b → x ≠ 0 ∧ is_Some (m !! x)) →
  (lasto a 0 ≠ 0 → is_Some (m !! lasto a 0)) ∧ (hdo b 0 ≠ 0 → is_Some (m !! hdo b 0)) ∧
  lasto a 0 ≠ e ∧ hdo b 0 ≠ e ∧ (lasto a 0 = 0 ↔ a = []) ∧ (hdo b 0 = 0 ↔ b = []).
Proof.
  intros Hnd Hin. apply NoDup_app in Hnd as (_ & Hae & [Heb _]%NoDup_cons).
  assert (He : e ≠ 0) by (apply Hin; set_solver).
  assert (Ha : a ≠ [] → lasto a 0 ∈ a) by apply lasto_in.
  assert (Hb : b ≠ [] → hdo b 0 ∈ b) by apply hdo_in.
  assert (Ha' : a = [] ∨ (lasto a 0 ≠ 0 ∧ is_Some (m !! lasto a 0) ∧ lasto a 0 ≠ e)).
  { destruct (decide (a = [])) as [|Hne]; [by left|right]. specialize (Ha Hne).
    destruct (Hin (lasto a 0)) as [? ?]; [set_solver|]. split_and!; [done..|].
    intros E. rewrite E in Ha. apply (Hae e Ha). set_solver. }
  assert (Hb' : b = [] ∨ (hdo b 0 ≠ 0 ∧ is_Some (m !! hdo b 0) ∧ hdo b 0 ≠ e)).
  { destruct (decide (b = [])) as [|Hne]; [by left|right]. specialize (Hb Hne).
    destruct (Hin (hdo b 0)) as [? ?]; [set_solver|]. split_and!; [done..|].
    intros E. rewrite E in Hb. done. }
  destruct Ha' as [->|(? & ? & ?)], Hb' as [->|(? & ? & ?)]; split_and!; first [done|congruence|split; [congruence|by intros ->]].
Qed.

(** ** HASH_DEL_IN_BKT *)
Lemma delete_concat (chs : list (list Z)) i ca e cb : chs !! i = Some (ca ++ e :: cb) →
  concat chs ≡ₚ e :: concat (<[i := ca ++ cb]> chs).
Proof.
  intros H. rewrite (concat_split chs i _ H).
  rewrite (concat_split (<[i := ca ++ cb]> chs) i (ca ++ cb)).
  2:{ apply list_lookup_insert_eq. by eapply lookup_lt_Some. }
  rewrite take_insert_ge, drop_insert_lt by lia.
  rewrite <- !app_assoc. cbn [app]. by rewrite <- !Permutation_middle.
Qed.

Section del.
Context (m : store) (bs : list UT_hash_bucket) (k : Z) (chs : list (list Z)).
Context (e : Z) (d : UT_hash_handle) (i : nat) (ca cb : list Z) (b : UT_hash_bucket).
Hypothesis Hb : bks m bs k chs.
Hypothesis He : m !! e = Some d.
Hypothesis Hc : chs !! i = Some (ca ++ e :: cb).
Hypothesis Hbi : bs !! i = Some b.
Hypothesis Hroom : Z.of_nat (length (concat chs)) < 2 ^ 32.

Let m' : store := unlinked set_hh_next set_hh_prev m d.(hh_prev) d.(hh_next).

Lemma del_links : d.(hh_prev) = lasto ca 0 ∧ d.(hh_next) = hdo cb 0.
Proof.
  pose proof (dseg_at _ _ _ _ _ _ _ (bk_list _ _ _ _ Hb i _ Hc)) as [Hp Hn].
  unfold fld in Hp, Hn. rewrite He in Hp, Hn. done.
Qed.

Lemma del_near : (d.(hh_prev) ≠ 0 → is_Some (m !! d.(hh_prev))) ∧
  (d.(hh_next) ≠ 0 → is_Some (m !! d.(hh_next))) ∧ d.(hh_prev) ≠ e ∧ d.(hh_next) ≠ e ∧
  (d.(hh_prev) = 0 ↔ ca = []) ∧ (d.(hh_next) = 0 ↔ cb = []).
Proof.
  destruct del_links as [-> ->]. apply neighbours.
  - eapply chain_nodup, Hc. apply Hb.
  - intros x Hx. by eapply chain_node.
Qed.

Lemma del_fields x :
  fld hh_next m' x = fupd_nz (fld hh_next m) d.(hh_prev) d.(hh_next) x ∧
  fld hh_prev m' x = fupd_nz (fld hh_prev m) d.(hh_next) d.(hh_prev) x.
Proof.
  split; [by apply (unlinked_next hh_next set_hh_next set_hh_prev); [..|apply del_near]|].
  by apply (unlinked_prev hh_prev set_hh_next set_hh_prev); [..|apply del_near].
Qed.

(** Nodes off the chain keep their links. *)
Lemma del_other x : x ∉ ca ++ e :: cb →
  fld hh_next m' x = fld hh_next m x ∧ fld hh_prev m' x = fld hh_prev m x.
Proof.
  intros Hx. destruct (del_fields x) as [-> ->]. destruct del_links as [-> ->].
  assert (Hp : lasto ca 0 = 0 ∨ lasto ca 0 ≠ x).
  { destruct (decide (ca = [])) as [->|Hne]; [by left|right]. intros <-. apply Hx.
    pose proof (lasto_in ca 0 Hne). set_solver. }
  assert (Hn : hdo cb 0 = 0 ∨ hdo cb 0 ≠ x).
  { destruct (decide (cb = [])) as [->|Hne]; [by left|right]. intros <-. apply Hx.
    pose proof (hdo_in cb 0 Hne). set_solver. }
  unfold fupd_nz, fupd. split; repeat case_decide; naive_solver.
Qed.

Lemma del_list j c : <[i := ca ++ cb]> chs !! j = Some c → dlist (fld hh_next m') (fld hh_prev m') c.
Proof.
  pose proof (bk_nodup _ _ _ _ Hb) as Hnd. destruct (decide (i = j)) as [<-|Hij].
  - rewrite list_lookup_insert_eq by by eapply lookup_lt_Some. intros [= <-].
    pose proof (dlist_delete (fld hh_next m) (fld hh_prev m) ca e cb) as Hdel.
    assert (E1 : fld hh_prev m e = d.(hh_prev)) by (unfold fld; by rewrite He).
    assert (E2 : fld hh_next m e = d.(hh_next)) by (unfold fld; by rewrite He).
    rewrite E1, E2 in Hdel.
    eapply dseg_ext; [intros x _; apply del_fields|]. apply Hdel.
    + intros H0. by apply (chain_node _ _ _ _ _ _ _ Hb Hc) in H0 as [? _].
    + by eapply chain_nodup.
    + by apply (bk_list _ _ _ _ Hb i).
  - rewrite list_lookup_insert_ne by done. intros Hd.
    eapply dlist_weaken, (bk_list _ _ _ _ Hb j c Hd). intros x Hx. apply del_other.
    intros Hxc. apply Hij. by eapply chain_apart.
Qed.

Lemma del_head : (if b.(hh_head) =? e then d.(hh_next) else b.(hh_head)) = hdo (ca ++ cb) 0 ∧
  u32 (b.(count) - 1) = Z.of_nat (length (ca ++ cb)).
Proof.
  destruct (bk_head _ _ _ _ Hb i _ b Hc Hbi) as [Hh Hn]. destruct del_links as [_ Hdn]. split.
  - rewrite Hh, hdo_app, hdo_cons. destruct ca as [|x ca'].
    + cbn. by rewrite Z.eqb_refl.
    + rewrite hdo_cons. assert (Hne : x ≠ e).
      { intros ->. pose proof (chain_nodup _ _ _ (bk_nodup _ _ _ _ Hb) Hc) as Hnd.
        cbn in Hnd. apply NoDup_cons in Hnd as [Hnd _]. set_solver. }
      by rewrite (proj2 (Z.eqb_neq _ _) Hne).
  - pose proof (chain_length _ _ _ Hc) as Hl. rewrite Hn.
    rewrite !length_app in *. cbn [length] in *. rewrite u32_small by lia. lia.
Qed.

Lemma bks_delete mult :
  bks m' (<[i := Bucket (if b.(hh_head) =? e then d.(hh_next) else b.(hh_head)) (u32 (b.(count) - 1)) mult]> bs)
    k (<[i := ca ++ cb]> chs).
Proof.
  pose proof (unlinked_bkt m d.(hh_prev) d.(hh_next)) as Hcore.
  assert (Hli : (i < length chs)%nat) by by eapply lookup_lt_Some.
  assert (Hlb : (i < length bs)%nat) by by eapply lookup_lt_Some.
  pose proof (delete_concat chs i ca e cb Hc) as Hperm.
  assert (Hin : ∀ j c x, <[i := ca ++ cb]> chs !! j = Some c → x ∈ c → ∃ c', chs !! j = Some c' ∧ x ∈ c').
  { intros j c x. destruct (decide (i = j)) as [<-|Hij].
    - rewrite list_lookup_insert_eq by done. intros [= <-] Hx. exists (ca ++ e :: cb). split; [done|]. set_solver.
    - rewrite list_lookup_insert_ne by done. eauto. }
  split.
  - apply Hb.
  - rewrite length_insert. apply Hb.
  - rewrite !length_insert. apply Hb.
  - pose proof (bk_nodup _ _ _ _ Hb) as Hnd. rewrite Hperm in Hnd. by apply NoDup_cons in Hnd as [_ ?].
  - intros x Hx. destruct (bk_node _ _ _ _ Hb x) as [H0 [hx Hhx]]; [rewrite Hperm; set_solver|].
    split; [done|]. destruct (same_bkt_at _ _ _ _ Hcore Hhx) as (hx' & Hx' & _). by eexists.
  - apply del_list.
  - intros j c b'. destruct (decide (i = j)) as [<-|Hij].
    + rewrite !list_lookup_insert_eq by done. intros [= <-] [= <-]. apply del_head.
    + rewrite !list_lookup_insert_ne by done. apply (bk_head _ _ _ _ Hb).
  - intros j c x Hd Hx. rewrite (same_bkt_fld hashv _ _ _ Hcore) by (unfold core; congruence).
    destruct (Hin j c x Hd Hx) as (c' & Hc' & Hx'). by apply (bk_place _ _ _ _ Hb j c').
Qed.

Lemma del_run t s : s.(tbl) = Some t → s.(hh) = m → t.(buckets) = bs →
  HASH_DEL_IN_BKT (Z.of_nat i) e s = Ok (tt, Heap m' s.(head) (Some (with_buckets
    (<[i := Bucket (if b.(hh_head) =? e then d.(hh_next) else b.(hh_head)) (u32 (b.(count) - 1))
              b.(expand_mult)]> bs) t))).
Proof.
  intros Ht Hs Hbs. destruct del_near as (Hp & Hn & Hpe & _ & _). unfold HASH_DEL_IN_BKT.
  rewrite (M_bind_ok _ _ _ _ _ (table_run s t Ht)), Hbs.
  assert (Hbu : bucket bs (Z.of_nat i) s = Ok (b, s)) by (unfold bucket; by rewrite Nat2Z.id, Hbi).
  rewrite (M_bind_ok _ _ _ _ _ Hbu). rewrite <- Hs in He, Hp, Hn.
  rewrite (M_bind_ok _ _ _ _ _ (handle_run e s d He)), Nat2Z.id. cbv zeta.
  rewrite (M_bind_ok _ _ _ _ _ (set_table_run _ s)). unfold m', unlinked. rewrite <- Hs.
  destruct (Z.eqb_spec d.(hh_prev) 0) as [E|E]; cbn [negb when].
  - rewrite (M_bind_ok (mret ()) _ (Heap s.(hh) s.(head) _) tt _ eq_refl).
    rewrite (M_bind_ok _ _ _ _ _ (handle_run e (Heap _ _ _) d He)).
    destruct (Z.eqb_spec d.(hh_next) 0) as [E'|E']; cbn [negb when]; [done|].
    by rewrite (write_run _ _ (Heap _ _ _) (Hn E')).
  - rewrite (M_bind_ok _ _ _ _ _ (write_run _ _ (Heap _ _ _) (Hp E))). cbn [hh head tbl].
    rewrite (M_bind_ok _ _ _ _ _ (handle_run e (Heap _ _ _) d (eq_trans (lookup_alter_ne _ _ _ _ Hpe) He))).
    destruct (Z.eqb_spec d.(hh_next) 0) as [E'|E']; cbn [negb when]; [done|].
    by rewrite (write_run _ _ (Heap _ _ _) (alter_some _ _ _ _ (Hn E'))).
Qed.
End del.

(** ** HASH_DELETE *)
Section delete.
Context (hash : list Z → Z).

Section at_element.
Context (m : store) (tl : Z) (a b : list (Z * list Z)) (e : Z) (k : list Z) (d : UT_hash_handle).
Hypothesis Happ : app_ok hash m tl (a ++ (e, k) :: b).
Hypothesis He : m !! e = Some d.

Let m' : store := unlinked set_next set_prev m d.(prev) d.(next).

Lemma app_split : (a ++ (e, k) :: b).*1 = a.*1 ++ e :: b.*1.
Proof. by rewrite fmap_app. Qed.

Lemma app_links : d.(prev) = lasto a.*1 0 ∧ d.(next) = hdo b.*1 0.
Proof.
  pose proof (ap_list _ _ _ _ Happ) as Hl. rewrite app_split in Hl.
  apply dseg_at in Hl as [Hp Hn]. unfold fld in Hp, Hn. rewrite He in Hp, Hn. done.
Qed.

Lemma app_node x : x ∈ a.*1 ++ e :: b.*1 → x ≠ 0 ∧ is_Some (m !! x).
Proof.
  rewrite <- app_split. intros Hx. split; [intros ->; by apply (ap_nz _ _ _ _ Happ)|].
  apply list_elem_of_fmap in Hx as ([y ky] & -> & Hy).
  destruct (ap_key _ _ _ _ Happ _ _ Hy) as (h & Hh & _). by eexists.
Qed.

Lemma app_near : (d.(prev) ≠ 0 → is_Some (m !! d.(prev))) ∧
  (d.(next) ≠ 0 → is_Some (m !! d.(next))) ∧ d.(prev) ≠ e ∧ d.(next) ≠ e ∧
  (d.(prev) = 0 ↔ a.*1 = []) ∧ (d.(next) = 0 ↔ b.*1 = []).
Proof.
  destruct app_links as [-> ->]. apply neighbours; [|apply app_node].
  rewrite <- app_split. apply Happ.
Qed.

Lemma unlink_app_run {A} (K : UT_hash_handle → M heap A) s : s.(hh) = m →
  ((if negb (d.(prev) =? 0) then write d.(prev) (set_next d.(next)) else set_head d.(next));;
   d ← handle e; when (negb (d.(next) =? 0)) (write d.(next) (set_prev d.(prev)));; K d) s
  = K d (Heap m' (if d.(prev) =? 0 then d.(next) else s.(head)) s.(tbl)).
Proof.
  intros Hs. destruct app_near as (Hp & Hn & Hpe & Hne & _). unfold m', unlinked. rewrite <- Hs in *.
  destruct (Z.eqb_spec d.(prev) 0) as [E|E]; cbn [negb].
  - rewrite (M_bind_ok _ _ _ _ _ (eq_refl : set_head d.(next) s = Ok (tt, Heap s.(hh) d.(next) s.(tbl)))).
    rewrite (M_bind_ok _ _ _ _ _ (handle_run e (Heap _ _ _) d He)).
    destruct (Z.eqb_spec d.(next) 0) as [E'|E']; cbn [negb when]; [done|].
    by rewrite (M_bind_ok _ _ _ _ _ (write_run _ _ (Heap _ _ _) (Hn E'))).
  - rewrite (M_bind_ok _ _ _ _ _ (write_run _ _ s (Hp E))).
    rewrite (M_bind_ok _ _ _ _ _ (handle_run e (Heap _ _ _) d (eq_trans (lookup_alter_ne _ _ _ _ Hpe) He))).
    destruct (Z.eqb_spec d.(next) 0) as [E'|E']; cbn [negb when]; [done|].
    by rewrite (M_bind_ok _ _ _ _ _ (write_run _ _ (Heap _ _ _) (alter_some _ _ _ _ (Hn E')))).
Qed.

Lemma unlink_app_self : m' !! e = Some d.
Proof.
  destruct app_near as (_ & _ & Hpe & Hne & _). unfold m', unlinked.
  destruct (d.(prev) =? 0), (d.(next) =? 0); by rewrite ?lookup_alter_ne.
Qed.

Lemma unlink_tail : (if e =? tl then d.(prev) else tl) = lasto (a ++ b).*1 0.
Proof.
  pose proof (ap_tail _ _ _ _ Happ) as Ht. pose proof (ap_nodup _ _ _ _ Happ) as Hnd.
  rewrite app_split in Ht, Hnd. destruct app_links as [Hp _]. rewrite fmap_app.
  rewrite lasto_app, lasto_cons in Ht. rewrite lasto_app. rewrite Ht, Hp.
  destruct (decide (b.*1 = [])) as [->|Hne]; [cbn; by rewrite Z.eqb_refl|].
  assert (Hl : ∀ p, lasto b.*1 p = lasto b.*1 0).
  { intros p. destruct (b.*1) as [|x l _] using rev_ind; [done|]. by rewrite !lasto_snoc. }
  rewrite !(Hl e), !(Hl (lasto _ _)).
  assert (e ≠ lasto b.*1 0); [|by rewrite (proj2 (Z.eqb_neq _ _))].
  intros ->. apply NoDup_app in Hnd as (_ & _ & [Hnd _]%NoDup_cons). by apply Hnd, lasto_in.
Qed.

Lemma unlink_app_ok : app_ok hash m' (if e =? tl then d.(prev) else tl) (a ++ b).
Proof.
  destruct app_near as (Hp & Hn & _). pose proof (unlinked_app m d.(prev) d.(next)) as Hs.
  pose proof Happ as [Hnd H0 Hl Hk _]. rewrite app_split in Hnd, H0, Hl.
  assert (E1 : fld prev m e = d.(prev)) by (unfold fld; by rewrite He).
  assert (E2 : fld next m e = d.(next)) by (unfold fld; by rewrite He).
  split; rewrite ?unlink_tail, ?fmap_app; [| | | |done].
  - apply NoDup_app in Hnd as (? & Hab & [_ ?]%NoDup_cons). apply NoDup_app. split_and!; [done| |done].
    intros x Hx Hxb. apply (Hab x Hx). set_solver.
  - set_solver.
  - pose proof (dlist_delete (fld next m) (fld prev m) a.*1 e b.*1 H0 Hnd Hl) as Hdel.
    rewrite E1, E2 in Hdel. eapply dseg_ext, Hdel. intros x _. split.
    + by apply (unlinked_next next set_next set_prev).
    + by apply (unlinked_prev prev set_next set_prev).
  - intros x kx Hx. destruct (Hk x kx) as (h & Hh & H1 & H2 & H3); [set_solver|].
    destruct (same_app_at _ _ _ _ Hs Hh) as (h' & Hh' & Hc). unfold bcore in Hc.
    exists h'. split_and!; [done|congruence..].
Qed.
End at_element.

(** The macro when the element is not alone. *)
Definition delete_body (del : Z) (d : UT_hash_handle) : M heap unit :=
  t ← table;
  let t := if del =? t.(tail) then with_tail d.(prev) t else t in
  set_table (Some t);;
  (if negb (d.(prev) =? 0) then write d.(prev) (set_next d.(next)) else set_head d.(next));;
  d ← handle del;
  when (negb (d.(next) =? 0)) (write d.(next) (set_prev d.(prev)));;
  HASH_DEL_IN_BKT (HASH_TO_BKT d.(hashv) t.(num_buckets)) del;;
  t ← table;
  set_table (Some (with_items (u32 (t.(num_items) - 1)) t)).

Lemma tok_fields e (t : UT_hash_table) p :
  let t1 := if e =? t.(tail) then with_tail p t else t in
  t1.(buckets) = t.(buckets) ∧ t1.(log2_num_buckets) = t.(log2_num_buckets) ∧
  t1.(num_buckets) = t.(num_buckets) ∧ t1.(num_items) = t.(num_items) ∧
  t1.(tail) = (if e =? t.(tail) then p else t.(tail)).
Proof. cbv zeta. by destruct (e =? t.(tail)). Qed.

Lemma delete_body_ok s t a b e k d :
  s.(tbl) = Some t → inv hash s.(hh) t (a ++ (e, k) :: b) → s.(hh) !! e = Some d →
  Z.of_nat (length (a ++ (e, k) :: b)) < 2 ^ 32 →
  ∃ m' t', delete_body e d s = Ok (tt, Heap m' (if d.(prev) =? 0 then d.(next) else s.(head)) (Some t')) ∧
    inv hash m' t' (a ++ b).
Proof.
  intros Ht (Happ & chs & [Hb Hnum Hit] & Hperm) Hd Hlen.
  unfold delete_body. rewrite (M_bind_ok _ _ _ _ _ (table_run s t Ht)).
  destruct (tok_fields e t d.(prev)) as (F1 & F2 & F3 & F4 & F5).
  set (t1 := if e =? t.(tail) then with_tail d.(prev) t else t) in *. cbv zeta.
  rewrite (M_bind_ok _ _ _ _ _ (set_table_run (Some t1) s)).
  rewrite (unlink_app_run s.(hh) t.(tail) a b e k d Happ Hd _ (Heap s.(hh) s.(head) (Some t1)) eq_refl).
  cbn [hh head tbl]. set (hd := if d.(prev) =? 0 then d.(next) else s.(head)).
  pose proof (unlink_app_self s.(hh) t.(tail) a b e k d Happ Hd) as Hself.
  pose proof (unlink_app_ok s.(hh) t.(tail) a b e k d Happ Hd) as Happ1.
  set (m1 := unlinked set_next set_prev s.(hh) d.(prev) d.(next)) in *.
  assert (Hb1 : bks m1 t.(buckets) t.(log2_num_buckets) chs) by (eapply bks_app, Hb; apply unlinked_app).
  assert (e ∈ concat chs) as (i & c & Hc & Hec)%elem_of_concat.
  { rewrite Hperm. apply (list_elem_of_fmap_2 fst _ (e, k)). set_solver. }
  pose proof (bk_place _ _ _ _ Hb1 i c e Hc Hec) as Hpl. unfold fld in Hpl. rewrite Hself in Hpl. cbn in Hpl.
  rewrite F3, Hnum, to_bkt_mod, Hpl by apply Hb.
  destruct (lookup_lt_is_Some_2 t.(buckets) i) as [bb Hbb].
  { rewrite <- (bk_chs _ _ _ _ Hb). by eapply lookup_lt_Some. }
  apply list_elem_of_split in Hec as (ca & cb & ->).
  assert (Hl : length (concat chs) = length (a ++ (e, k) :: b)) by (rewrite Hperm; apply length_fmap).
  rewrite (M_bind_ok _ _ _ _ _ (del_run m1 t.(buckets) _ chs e d i ca cb bb Hb1 Hself Hc Hbb t1
    (Heap m1 hd (Some t1)) eq_refl eq_refl F1)).
  pose proof (bks_delete m1 t.(buckets) _ chs e d i ca cb bb Hb1 Hself Hc Hbb ltac:(lia) bb.(expand_mult)) as Hb2.
  pose proof (delete_concat chs i ca e cb Hc) as Hp2.
  set (m2 := unlinked set_hh_next set_hh_prev m1 d.(hh_prev) d.(hh_next)) in *.
  eexists m2, _. split; [reflexivity|]. split.
  - cbn [tail with_items with_buckets]. rewrite F5. eapply app_ok_core, Happ1. apply unlinked_bkt.
  - exists (<[i := ca ++ cb]> chs). split.
    + split; cbn [buckets log2_num_buckets num_buckets num_items with_items with_buckets].
      * rewrite F2. exact Hb2.
      * by rewrite F2, F3.
      * rewrite F4, Hit. rewrite Hp2 in Hl |- *. cbn [length] in Hl |- *. rewrite u32_small by lia. lia.
    + apply (Permutation_cons_inv (a := e)). rewrite <- Hp2, Hperm, app_split, fmap_app.
      by rewrite <- Permutation_middle.
Qed.

Lemma delete_ok s a b e k : rep hash s (a ++ (e, k) :: b) →
  Z.of_nat (length (a ++ (e, k) :: b)) < 2 ^ 32 →
  ∃ s', HASH_DELETE e s = Ok (tt, s') ∧ rep hash s' (a ++ b).
Proof.
  intros Hrep Hlen. assert (∃ t, s.(tbl) = Some t ∧ inv hash s.(hh) t (a ++ (e, k) :: b) ∧
    s.(head) = hdo (a.*1 ++ [e]) 0) as (t & Ht & Hinv & Hhd).
  { destruct a as [|[x kx] a]; destruct Hrep as (Hh & t & Ht & Hinv); by exists t. }
  pose proof Hinv as (Happ & _). destruct (ap_key _ _ _ _ Happ e k) as (d & Hd & _ & _ & Hhv); [set_solver|].
  destruct (app_near s.(hh) t.(tail) a b e k d Happ Hd) as (_ & _ & _ & _ & Hpz & Hnz).
  destruct (app_links s.(hh) t.(tail) a b e k d Happ Hd) as [_ Hn].
  unfold HASH_DELETE. rewrite (M_bind_ok _ _ _ _ _ (handle_run e s d Hd)).
  destruct ((d.(prev) =? 0) && (d.(next) =? 0)) eqn:E.
  { apply andb_true_iff in E as [Ep%Z.eqb_eq En%Z.eqb_eq].
    apply Hpz, fmap_nil_inv in Ep as ->. apply Hnz, fmap_nil_inv in En as ->.
    by exists (Heap s.(hh) 0 None). }
  fold (delete_body e d). destruct (delete_body_ok s t a b e k d Ht Hinv Hd Hlen) as (m' & t' & -> & Hinv').
  eexists. split; [reflexivity|]. apply andb_false_iff in E. destruct (Z.eqb_spec d.(prev) 0) as [Ep|Ep].
  - apply Hpz, fmap_nil_inv in Ep as ->. destruct b as [|[y ky] b]; [|by split; [|exists t']].
    destruct E as [E|E%Z.eqb_neq]; [done|]. by destruct E.
  - destruct a as [|[x kx] a]; [by destruct Ep; apply Hpz|]. split; [exact Hhd|]. by exists t'.
Qed.
End delete.
