(* ===== verification/UthashRun.v ===== *)
(** * UthashRun: sequences of calls on a table

    The calls of a hash table against their specification on the list of the
    elements in order of insertion, the loop that empties a table, and the
    integrity check of a debug build. *)
From Stdlib Require Import ZArith Lia.
From stdpp Require Import base numbers list gmap strings.
From S2P Require Import Prelude Bytes Dlist Words Xxhash XxhashRun Uthash UthashOk UthashMap UthashDel.

Inductive call : Type :=
  | CFind (k : list Z)
  | CAdd (e : Z) (k : list Z)
  | CDelete (e : Z)
  | CCount.

(** ** What the calls promise *)
Definition spec_call (c : call) (l : list (Z * list Z)) : Z * list (Z * list Z) :=
  match c with
  | CFind k => (default 0 (keymap l !! k), l)
  | CAdd e k => (0, l ++ [(e, k)])
  | CDelete e => (0, filter (λ p, p.1 ≠ e) l)
  | CCount => (Z.of_nat (length l), l)
  end.

Fixpoint spec_calls (cs : list call) (l : list (Z * list Z)) : list Z * list (Z * list Z) :=
  match cs with
  | [] => ([], l)
  | c :: cs =>
      let r := spec_call c l in
      let r' := spec_calls cs r.2 in (r.1 :: r'.1, r'.2)
  end.

(** An element is added under a new key while it is in no table, and deleted
    while it is in the table. *)
Definition legal (c : call) (l : list (Z * list Z)) : bool :=
  match c with
  | CAdd e k =>
      negb (e =? 0) && bool_decide (e ∉ l.*1) && bool_decide (k ∉ l.*2)
      && (Z.of_nat (length k) <? 2 ^ 32) && (Z.of_nat (length l) + 1 <? 2 ^ 32)
  | CDelete e => bool_decide (e ∈ l.*1)
  | _ => true
  end.

Fixpoint legal_calls (cs : list call) (l : list (Z * list Z)) : bool :=
  match cs with
  | [] => true
  | c :: cs => legal c l && legal_calls cs (spec_call c l).2
  end.

Section run.
Context (hash : list Z → Z) (malloc_ok : Z → bool).

Definition run_call (c : call) : M heap Z :=
  match c with
  | CFind k => HASH_FIND hash k
  | CAdd e k => HASH_ADD hash malloc_ok e k;; mret 0
  | CDelete e => HASH_DELETE e;; mret 0
  | CCount => HASH_COUNT
  end.

Fixpoint run_calls (cs : list call) : M heap (list Z) :=
  match cs with
  | [] => mret []
  | c :: cs => a ← run_call c; r ← run_calls cs; mret (a :: r)
  end.

Hypothesis malloc_max : ∀ n, 2 ^ 36 ≤ n → malloc_ok n = false.

(** The state holds [l], with one element for a key. *)
Record holds (s : heap) (l : list (Z * list Z)) : Prop := {
  ho_rep : rep hash s l;
  ho_keys : NoDup l.*2;
  ho_len : Z.of_nat (length l) < 2 ^ 32
}.

Lemma holds_empty : holds empty [].
Proof. split; [done|constructor|done]. Qed.

Lemma rep_elements_nodup s l : rep hash s l → NoDup l.*1.
Proof. destruct l as [|[e k] l]; [intros; constructor|]. by intros (_ & t & _ & [[? _ _ _ _] _]). Qed.

Lemma filter_middle (a b : list (Z * list Z)) e k : NoDup (a ++ (e, k) :: b).*1 →
  filter (λ p, p.1 ≠ e) (a ++ (e, k) :: b) = a ++ b.
Proof.
  rewrite fmap_app. intros (Hn & Hab & [He _]%NoDup_cons)%NoDup_app.
  rewrite filter_app, filter_cons, decide_False by (cbn; naive_solver).
  assert (Hf : ∀ c, e ∉ c.*1 → filter (λ p : Z * list Z, p.1 ≠ e) c = c).
  { intros c. induction c as [|[x kx] c IH]; intros Hc; [done|]. cbn in Hc.
    apply not_elem_of_cons in Hc as [Hx Hc]. rewrite filter_cons_True by (cbn; congruence). by rewrite IH. }
  rewrite !Hf; [done|done|]. intros Ha. apply (Hab e Ha). set_solver.
Qed.

Lemma count_ok s l : rep hash s l → HASH_COUNT s = Ok (Z.of_nat (length l), s).
Proof.
  intros Hrep. unfold HASH_COUNT. rewrite (M_bind_ok get _ s s s eq_refl).
  destruct l as [|[e k] l]; [by destruct Hrep as [-> _]|].
  destruct Hrep as (Hh & t & Ht & Happ & chs & [_ _ Hit] & Hperm).
  assert (Hne : s.(head) ≠ 0) by (rewrite Hh; intros ->; by apply (ap_nz _ _ _ _ Happ), list_elem_of_here).
  rewrite (proj2 (Z.eqb_neq _ _) Hne), (M_bind_ok _ _ _ _ _ (table_run s t Ht)), Hit, Hperm.
  by rewrite length_fmap.
Qed.

Lemma run_call_ok c s l : holds s l → legal c l = true →
  run_call c s = Panic "out of memory" ∨
  ∃ s', run_call c s = Ok ((spec_call c l).1, s') ∧ holds s' (spec_call c l).2.
Proof.
  intros [Hrep Hk Hlen] Hc. destruct c as [k|e k|e|]; cbn [run_call spec_call legal fst snd] in *.
  - right. exists s. split; [by apply find_ok|done].
  - rewrite !andb_true_iff in Hc.
    destruct Hc as [[[[H0 H1%bool_decide_eq_true] H2%bool_decide_eq_true] H3%Z.ltb_lt] H4%Z.ltb_lt].
    apply negb_true_iff, Z.eqb_neq in H0.
    destruct (add_ok hash malloc_ok malloc_max s l e k) as [E|(s' & E & Hrep')]; [done|done|done|lia|lia|..].
    + left. by apply M_bind_panic.
    + right. exists s'. rewrite (M_bind_ok _ _ _ _ _ E). split; [done|]. split; [done| |].
      * rewrite fmap_app. apply NoDup_app. split_and!; [done| |apply NoDup_singleton].
        intros x Hx ->%list_elem_of_singleton. done.
      * rewrite length_app. cbn [length]. lia.
  - apply bool_decide_eq_true, list_elem_of_fmap in Hc as ([x k] & -> & Hx). cbn [fst].
    apply list_elem_of_split in Hx as (a & b & ->). right.
    destruct (delete_ok hash s a b x k Hrep Hlen) as (s' & E & Hrep').
    exists s'. rewrite (M_bind_ok _ _ _ _ _ E). split; [done|].
    rewrite filter_middle by (by eapply rep_elements_nodup). split; [done| |].
    + rewrite fmap_app in Hk |- *. apply NoDup_app in Hk as (? & Hab & [_ ?]%NoDup_cons).
      apply NoDup_app. split_and!; [done| |done]. intros y Hy Hyb. apply (Hab y Hy). set_solver.
    + rewrite length_app in *. cbn [length] in Hlen. lia.
  - right. exists s. split; [by apply count_ok|done].
Qed.

Lemma run_calls_ok cs s l : holds s l → legal_calls cs l = true →
  run_calls cs s = Panic "out of memory" ∨
  ∃ s', run_calls cs s = Ok ((spec_calls cs l).1, s') ∧ holds s' (spec_calls cs l).2.
Proof.
  revert s l. induction cs as [|c cs IH]; intros s l Hs Hl; cbn [run_calls spec_calls legal_calls] in *.
  { right. by exists s. }
  apply andb_true_iff in Hl as [Hc Hl].
  destruct (run_call_ok c s l Hs Hc) as [E|(s1 & E & Hs1)].
  { left. by apply M_bind_panic. }
  rewrite (M_bind_ok _ _ _ _ _ E). destruct (IH s1 _ Hs1 Hl) as [E'|(s2 & E' & Hs2)].
  { left. by apply M_bind_panic. }
  right. exists s2. by rewrite (M_bind_ok _ _ _ _ _ E').
Qed.
End run.

(** ** Emptying a table in a loop *)
Section iter.
Context (hash : list Z → Z).

(** The handle of the first element leads to the second. *)
Lemma first_handle s e k b : rep hash s ((e, k) :: b) →
  e ≠ 0 ∧ s.(head) = e ∧ ∃ d, s.(hh) !! e = Some d ∧ d.(next) = hdo b.*1 0.
Proof.
  intros (Hh & t & Ht & Happ & _). split; [|split; [done|]].
  - intros ->. by apply (ap_nz _ _ _ _ Happ), list_elem_of_here.
  - destruct (ap_key _ _ _ _ Happ e k) as (d & Hd & _); [set_solver|]. exists d. split; [done|].
    apply (app_links hash s.(hh) t.(tail) [] b e k d Happ Hd).
Qed.

Lemma iter_loop_ok fuel e k b s : rep hash s ((e, k) :: b) →
  Z.of_nat (length ((e, k) :: b)) < 2 ^ 32 → (S (length b) < fuel)%nat →
  ∃ s', iter_loop fuel HASH_DELETE e (hdo b.*1 0) s = Ok (tt, s') ∧ rep hash s' [].
Proof.
  revert fuel e k s. induction b as [|[y ky] b IH]; intros fuel e k s Hrep Hlen Hfuel;
    (destruct fuel as [|fuel]; [lia|]); cbn [iter_loop];
    destruct (first_handle _ _ _ _ Hrep) as (Hnz & _); rewrite (proj2 (Z.eqb_neq _ _) Hnz);
    destruct (delete_ok hash s [] _ e k Hrep Hlen) as (s1 & E & Hrep1); rewrite (M_bind_ok _ _ _ _ _ E).
  - exists s1. destruct fuel; [cbn in Hfuel; lia|]. by split.
  - cbn [fmap list_fmap fst]. rewrite hdo_cons.
    destruct (first_handle _ _ _ _ Hrep1) as (Hyz & _ & d & Hd & Hn).
    rewrite (proj2 (Z.eqb_neq _ _) Hyz), (M_bind_ok _ _ _ _ _ (handle_run y s1 d Hd)), Hn.
    apply (IH _ y ky); [done| |]; cbn [length] in *; lia.
Qed.

Lemma rep_size s l : rep hash s l → (length l <= size s.(hh))%nat.
Proof.
  destruct l as [|[e k] l]; [cbn; lia|]. intros (_ & t & _ & Happ & _).
  rewrite <- (length_fmap fst). apply nodes_size; [apply Happ|].
  intros x ([y ky] & -> & Hy)%list_elem_of_fmap. destruct (ap_key _ _ _ _ Happ _ _ Hy) as (h & ? & _).
  by eexists.
Qed.

Lemma iter_delete_ok s l : rep hash s l → Z.of_nat (length l) < 2 ^ 32 →
  ∃ s', HASH_ITER HASH_DELETE s = Ok (tt, s') ∧ rep hash s' [].
Proof.
  intros Hrep Hlen. unfold HASH_ITER. rewrite (M_bind_ok get _ s s s eq_refl).
  pose proof (rep_size s l Hrep) as Hsz.
  destruct l as [|[e k] b]; [exists s; by rewrite (proj1 Hrep)|].
  destruct (first_handle _ _ _ _ Hrep) as (Hnz & -> & d & Hd & Hn).
  rewrite (proj2 (Z.eqb_neq _ _) Hnz), (M_bind_ok _ _ _ _ _ (handle_run e s d Hd)), Hn.
  apply (iter_loop_ok _ e k); [done|done|]. cbn [length] in Hsz. lia.
Qed.

(** ** The integrity check *)
Lemma fsck_walk_ok nxt prv fuel c : ∀ p n s, (length c < fuel)%nat →
  dseg (fld nxt s.(hh)) (fld prv s.(hh)) p c 0 → (∀ e, e ∈ c → e ≠ 0 ∧ is_Some (s.(hh) !! e)) →
  0 ≤ n → n + Z.of_nat (length c) < 2 ^ 32 →
  fsck_walk nxt prv fuel (hdo c 0) p n s = Ok (n + Z.of_nat (length c), s).
Proof.
  revert fuel. induction c as [|e c IH]; intros fuel p n s Hf Hd Hin Hn Hlen;
    (destruct fuel as [|fuel]; [lia|]); cbn [fsck_walk].
  { cbn [length]. by rewrite Z.add_0_r. }
  rewrite hdo_cons. destruct (Hin e) as (Hnz & h & Hh); [set_solver|].
  rewrite (proj2 (Z.eqb_neq _ _) Hnz), (M_bind_ok _ _ _ _ _ (handle_run e s h Hh)).
  cbn [dseg] in Hd. destruct Hd as (Hp & Hx & Hd). unfold fld in Hp at 1, Hx at 1. rewrite Hh in Hp, Hx.
  cbn in Hp, Hx. rewrite Hp, Z.eqb_refl, Hx. cbn [length] in *.
  rewrite (M_bind_ok (assertM true _) _ s tt s eq_refl), u32_small by lia.
  rewrite IH; [do 2 f_equal; lia|lia|done|set_solver|lia|lia].
Qed.

Lemma fsck_buckets_ok fuel bs : ∀ chs n s, length chs = length bs →
  (∀ i c b, chs !! i = Some c → bs !! i = Some b →
    b.(hh_head) = hdo c 0 ∧ b.(count) = Z.of_nat (length c)) →
  (∀ i c, chs !! i = Some c → (length c < fuel)%nat ∧ dlist (fld hh_next s.(hh)) (fld hh_prev s.(hh)) c) →
  (∀ e, e ∈ concat chs → e ≠ 0 ∧ is_Some (s.(hh) !! e)) →
  0 ≤ n → n + Z.of_nat (length (concat chs)) < 2 ^ 32 →
  fsck_buckets fuel bs n s = Ok (n + Z.of_nat (length (concat chs)), s).
Proof.
  induction bs as [|b bs IH]; intros [|c chs] n s Hl Hh Hc Hin Hn Hlen; try done; cbn [fsck_buckets concat] in *.
  { cbn [length]. by rewrite Z.add_0_r. }
  rewrite length_app in *. destruct (Hh 0%nat c b eq_refl eq_refl) as [-> ->].
  destruct (Hc 0%nat c eq_refl) as [Hf Hd].
  assert (Hrun := fsck_walk_ok hh_next hh_prev fuel c 0 0 s Hf Hd ltac:(set_solver) ltac:(lia) ltac:(lia)).
  rewrite (M_bind_ok _ _ _ _ _ Hrun), Z.add_0_l, Z.eqb_refl.
  rewrite (M_bind_ok (assertM true _) _ s tt s eq_refl), u32_small by lia.
  rewrite (IH chs); [do 2 f_equal; lia|by injection Hl| | |set_solver|lia|lia].
  - intros i. apply (Hh (S i)).
  - intros i. apply (Hc (S i)).
Qed.

Lemma fsck_ok s l : rep hash s l → Z.of_nat (length l) < 2 ^ 32 → HASH_FSCK s = Ok (tt, s).
Proof.
  intros Hrep Hlen. unfold HASH_FSCK. rewrite (M_bind_ok get _ s s s eq_refl).
  pose proof (rep_size s l Hrep) as Hsz.
  destruct l as [|[e k] b]; [by destruct Hrep as [-> _]|].
  destruct (first_handle _ _ _ _ Hrep) as (Hnz & Hhd & _). rewrite Hhd, (proj2 (Z.eqb_neq _ _) Hnz).
  destruct Hrep as (_ & t & Ht & Happ & chs & [Hb Hnum Hit] & Hperm).
  assert (Hcl : length (concat chs) = length ((e, k) :: b)) by (rewrite Hperm; apply length_fmap).
  rewrite (M_bind_ok _ _ _ _ _ (table_run s t Ht)), Hnum, take_ge by (pose proof (bk_len _ _ _ _ Hb); lia).
  assert (Hrun := fsck_buckets_ok (S (size s.(hh))) t.(buckets) chs 0 s (bk_chs _ _ _ _ Hb)
    (bk_head _ _ _ _ Hb) (λ i c Hc, conj (chains_bound _ _ _ _ _ _ Hb Hc) (bk_list _ _ _ _ Hb i c Hc))
    (bk_node _ _ _ _ Hb) ltac:(lia) ltac:(lia)).
  rewrite (M_bind_ok _ _ _ _ _ Hrun), Hit, Z.add_0_l, Z.eqb_refl.
  rewrite (M_bind_ok (assertM true _) _ s tt s eq_refl).
  assert (Hrun2 := fsck_walk_ok next prev (S (size s.(hh))) ((e, k) :: b).*1 0 0 s).
  rewrite length_fmap in Hrun2. cbn [fmap list_fmap fst] in Hrun2. rewrite hdo_cons in Hrun2.
  rewrite (M_bind_ok _ _ s _ _ (Hrun2 ltac:(lia) (ap_list _ _ _ _ Happ)
    (app_node hash s.(hh) t.(tail) [] b e k Happ) ltac:(lia) ltac:(lia))).
  by rewrite Hcl, Z.add_0_l, Z.eqb_refl.
Qed.
End iter.

(** ** The properties *)

(** C11: For any hash function, every sequence of HASH_FIND, HASH_ADD of new
    keys, HASH_DELETE and HASH_COUNT on an empty hash table either runs out
    of memory or answers as the list of the elements in order of insertion
    does: a find gives the element with that key or NULL, whatever collisions
    and doublings of the buckets came before. Only elements of the table are
    deleted, there are fewer than 2^32 of them, and their keys are shorter
    than 2^32 bytes. An allocation of 64 GiB fails, so that the number of
    buckets stays in 32 bits. *)
Theorem uthash_refines_map hash malloc_ok cs :
  (∀ n, 2 ^ 36 ≤ n → malloc_ok n = false) → legal_calls cs [] = true →
  run_calls hash malloc_ok cs empty = Panic "out of memory" ∨
  ∃ s', run_calls hash malloc_ok cs empty = Ok ((spec_calls cs []).1, s') ∧
    rep hash s' (spec_calls cs []).2.
Proof.
  intros Hm Hl. destruct (run_calls_ok hash malloc_ok Hm cs empty [] (holds_empty hash) Hl) as [?|(s' & E & Hs)].
  - by left.
  - right. exists s'. split; [done|]. apply Hs.
Qed.

(** C12: After every sequence of calls as in uthash_refines_map that does not
    run out of memory the hash table passes HASH_FSCK, the integrity check of
    the debug build (links and count of every bucket, links of the list,
    number of items), and the loop that deletes every element while it
    iterates with HASH_ITER ends with an empty table. *)
Theorem uthash_integrity hash malloc_ok cs s' answers :
  (∀ n, 2 ^ 36 ≤ n → malloc_ok n = false) → legal_calls cs [] = true →
  run_calls hash malloc_ok cs empty = Ok (answers, s') →
  HASH_FSCK s' = Ok (tt, s') ∧
  ∃ s'', HASH_ITER HASH_DELETE s' = Ok (tt, s'') ∧ s''.(head) = 0 ∧ s''.(tbl) = None.
Proof.
  intros Hm Hl E. destruct (run_calls_ok hash malloc_ok Hm cs empty [] (holds_empty hash) Hl) as [E'|(s1 & E' & Hs)];
    rewrite E in E'; [done|]. injection E' as -> ->. destruct Hs as [Hr _ Hn].
  split; [by eapply fsck_ok|]. destruct (iter_delete_ok hash s1 _ Hr Hn) as (s2 & E2 & Hr2).
  exists s2. by destruct Hr2.
Qed.

(** The hash of the tables does not depend on where the key is. *)
Lemma HASH_VALUE_pointer cpu align_check p p' k : Forall is_byte k →
  HASH_VALUE cpu align_check p k = HASH_VALUE cpu align_check p' k.
Proof.
  intros Hk. unfold HASH_VALUE, HASH_XXH.
  by rewrite (proj2 (xxhash_portable cpu cpu align_check align_check p p' k _ Hk)).
Qed.

(** ** Runs *)
Definition test_malloc (n : Z) : bool := n <? 2 ^ 36.
Definition test_calls : list call :=
  [CFind [1]; CAdd 64 [1]; CAdd 128 [2; 0]; CFind [2; 0]; CDelete 64; CFind [1]; CCount].

Example uthash_refines_map_witness :
  run_calls (HASH_VALUE XXH_littleEndian false 0) test_malloc test_calls empty = Panic "out of memory" ∨
  ∃ s', run_calls (HASH_VALUE XXH_littleEndian false 0) test_malloc test_calls empty
      = Ok ((spec_calls test_calls []).1, s') ∧
    rep (HASH_VALUE XXH_littleEndian false 0) s' (spec_calls test_calls []).2.
Proof.
  apply uthash_refines_map.
  - intros n Hn. unfold test_malloc. apply Z.ltb_ge. exact Hn.
  - vm_compute. reflexivity.
Defined.

Example uthash_answers :
  fst <$> (match run_calls (HASH_VALUE XXH_littleEndian false 0) test_malloc test_calls empty with
           | Ok r => Some r | _ => None end) = Some [0; 0; 0; 128; 0; 0; 1].
Proof. vm_compute. reflexivity. Qed.

(** Twelve keys with one hash: the tenth doubles the buckets, and every key
    is still found. *)
Definition crowd : list call :=
  ((λ i : nat, CAdd (Z.of_nat (i + 1) * 8) [Z.of_nat i]) <$> seq 0 12)
  ++ ((λ i : nat, CFind [Z.of_nat i]) <$> seq 0 12).

Example uthash_crowd :
  (λ r, (r.1, num_buckets <$> r.2.(tbl))) <$> (match run_calls (λ _, 7) test_malloc crowd empty with
           | Ok r => Some r | _ => None end)
  = Some (replicate 12 0 ++ ((λ i : nat, Z.of_nat (i + 1) * 8) <$> seq 0 12), Some 64).
Proof. vm_compute. reflexivity. Qed.

Definition after (cs : list call) : heap :=
  match run_calls (λ _, 7) test_malloc cs empty with Ok r => r.2 | _ => empty end.

Example uthash_integrity_witness :
  HASH_FSCK (after crowd) = Ok (tt, after crowd) ∧
  ∃ s'', HASH_ITER HASH_DELETE (after crowd) = Ok (tt, s'') ∧ s''.(head) = 0 ∧ s''.(tbl) = None.
Proof.
  apply (uthash_integrity (λ _, 7) test_malloc crowd (after crowd) (spec_calls crowd []).1).
  - intros n Hn. unfold test_malloc. apply Z.ltb_ge. exact Hn.
  - vm_compute. reflexivity.
  - vm_compute. reflexivity.
Defined.

(** The bytes of a key struct of a 32-bit and a 64-bit field, with the four
    bytes of padding between them. The padding takes part in the lookup: a
    key with the same fields and other padding is not found. *)
Definition padded_key (inum : Z) (pad : list Z) (offset : Z) : list Z := le 4 inum ++ pad ++ le 8 offset.

Example padding_hides :
  fst <$> (match run_calls (HASH_VALUE XXH_littleEndian false 0) test_malloc
             [CAdd 64 (padded_key 5 [0; 0; 0; 0] 2); CFind (padded_key 5 [0; 0; 0; 0] 2);
              CFind (padded_key 5 [0; 0; 1; 0] 2)] empty with
           | Ok r => Some r | _ => None end) = Some [0; 64; 0].
Proof. vm_compute. reflexivity. Qed.
